(* ===== verification/_CoqProject ===== *)
-Q . S2P
Prelude.v
RustStd.v
BTreeMap.v
Bencode.v
Metainfo.v
Net.v
Endpoint.v
TrackerUrl.v
Announce.v
Text.v
Model.v
Paths.v
Factory.v
Title.v
Lighthouse.v
Totp.v
Effects.v
Accounts.v
WebAccess.v
SignIn.v
FileTree.v
PathSuggest.v
Library.v
Database.v
Items.v
Peers.v
History.v
Sightings.v
Client.v
Seeder.v
Sync.v
Vault.v
Serve.v
Gluetun.v
TrackerRoutes.v
Torznab.v
Gossip.v
Exchange.v
Beacon.v
Pairing.v
Friends.v
Alerts.v
Settings.v
XmlRpc.v
Rtorrent.v
Json.v
Arr.v
Qbit.v
Transmission.v
Deluge.v
Metrics.v
Jackett.v
ItemsPage.v
Probe.v
Checks.v
ConfigFile.v
SettingsForms.v
Doctor.v
Diagnostics.v
Topology.v
Composition.v
ItemsView.v
