(* ===== verification/Prelude.v ===== *)
(** * A verification library for sharerr

    sharerr shares a media library with friends.  It discovers tagged files,
    builds a torrent over each where it sits, seeds it through a torrent client,
    introduces friends to each other with its own BitTorrent tracker, and
    publishes the lot as a feed whose release titles a friend's Sonarr or Radarr
    parse.  This library models the parts of the Rust sources that carry that
    logic, definition by definition, and proves what makes them correct.

    ** The parts and the files that model them

    - [Prelude]: bytes, Rust's [Result] with its [?] operator, the development's
      tactics and hint database, and the list and map facts the others share.
    - [RustStd], [Text], [BTreeMap], [Net]: what the sources use of the Rust
      standard library: machine integers at their width, decimal numbers, UTF-8,
      [str] methods, ordered maps as sorted association lists, IP addresses.
    - [Bencode] (crates/sharerr-torrent/src/bencode.rs): the value type, every
      writer and accessor, and the recursive-descent parser.
    - [Metainfo] (metainfo.rs): the .torrent document, [read_from_bytes],
      [encode], the v1 and v2 info hashes and the accessors.
    - [Endpoint] (crates/sharerr-core/src/endpoint.rs): private addresses, base
      URLs, and [AdvertisedEndpoint], the configured base with the history of
      observed ones, as a state with one function per method.
    - [TrackerUrl] (tracker.rs, error.rs): announce sets, the [TrackerProvider]
      interface as a class with its laws and the built-in provider as its
      instance, announce URLs and the token read back from one.
    - [Announce] (announce.rs): query parsing, the swarms of the tracker as a
      finite map of finite maps, [announce] with everything it changes, the
      read-only views, and the bencoded answers.
    - [Model] (crates/sharerr-core/src/model.rs, [str_enum!] of macros.rs): media
      specs, external ids, metadata ladders and tokens, shared items.
    - [Paths] (paths.rs): Unix paths with the component semantics of [std::path],
      and the resolver between the three views of a library.
    - [Factory] (factory.rs): reading files in pieces, v1 and BEP 52 hashing,
      building single-file, hybrid and sidecar torrents, verifying a file,
      rewriting the announce fields of a stored torrent.
    - [Title] (title.rs): choosing, synthesising, parsing and checking release
      titles.
    - [Lighthouse] (crates/sharerr-lighthouse/src/lib.rs): the table of signed
      endpoint records two friends meet through, its expiry and capacity sweep,
      the decoys that answer unknown key hashes, and the two routes.
    - [Totp] (crates/sharerr/src/totp.rs): base32 secrets, RFC 6238 codes, the
      window a code is accepted in, the otpauth URI.
    - [Effects]: the state-and-error monad of the stateful components, the
      script that says which statement of a run fails, and the frame and
      measure lemmas of its loops.
    - [Accounts] (crates/sharerr-store/src/users.rs): accounts, password hashing,
      sealed second factors and spent steps.
    - [WebAccess] (web/auth.rs, state.rs): proxy trust, the client's address,
      the attempt throttle, constant-time comparison.
    - [SignIn] (web/auth.rs, web/two_factor.rs): sessions, parked sign-ins and
      every handler of setup, login, second factor, password change and logout,
      as steps of one state.
    - [FileTree], [Library] (library.rs): a directory tree, the walk that lists
      it, what it skips and reports, titles and identifiers read from names.
    - [PathSuggest] (pathsuggest.rs): the index of a library and the vote for the
      path mapping that explains where another program sees it.
    - [Database] (crates/sharerr-store/src/lib.rs): the tables, and statements as
      state transformers that may fail.  [Items] (db.rs), [Peers] (peers.rs),
      [History] (runs.rs, swarm.rs, transfers.rs, retention.rs) and [Sightings]
      (endpoints.rs, catalog.rs) are the statements over them, one definition per
      method of the store.
    - [Client] (crates/sharerr-client/src/lib.rs): the contract of a torrent
      client, its answers a function of the calls made so far.
    - [Seeder] (sync/seed.rs): finding, adopting, joining, caching and building
      the torrent of a file, and keeping its announces current.
    - [Sync] (sync/mod.rs): one reconciliation pass, from discovery to the run
      record.
    - [Vault] (crates/sharerr-store/src/vault.rs): the sealed credential file, its
      format, locking, reload and atomic replacement, under any I/O failure.
    - [Serve] (state.rs, notify.rs, secrets.rs): the running process every handler
      shares: its store, vault and caches, tokens, identity, endpoints, back-off
      counters, sightings and notifications.
    - [TrackerRoutes] (tracker.rs): announces, scrapes and torrent downloads over
      HTTP, with their authentication.
    - [Torznab] (torznab/mod.rs): the feed, from the API key to the XML.
    - [Gossip] and [Exchange] (gossip.rs, catalog.rs): signing, taking, handing on
      and exchanging endpoint records, and friends' catalogs.
    - [Beacon] (lighthouse_client.rs): reporting to lighthouses and finding quiet
      friends through them; [Lighthouse] is an instance of its other end.
    - [Gluetun] (gluetun.rs, the local hooks of commands/serve.rs): following the
      exit address and forwarded port of a tunnel.
    - [Pairing] (pairing.rs) and [Friends] (web/peers.rs, commands/serve.rs):
      invites, the pairing route, every change to a friend, export and import.
    - [Alerts] (commands/serve.rs, notify.rs): one turn of the background loop, the
      digests of a pass, the watch over silent friends and the tracker's address,
      and the request of every kind of webhook.
    - [Settings] (web/settings/mod.rs): token rotation, the order of configuration
      and vault in a save, and its redirect.
    - [XmlRpc] and [Rtorrent] (crates/sharerr-rtorrent/src): the XML-RPC wire format,
      and the rTorrent adapter as an instance of [Client]'s contract.
    - [Json]: the values of JSON documents and the derived decoders of wire types.
    - [Arr] (crates/sharerr-arr/src): the clients of Sonarr, Radarr, Lidarr, Readarr and
      Whisparr, from a tag to the files and audiences under it.
    - [Qbit], [Transmission] and [Deluge] (crates/sharerr-qbit/src,
      crates/sharerr-transmission/src/lib.rs, crates/sharerr-deluge/src/lib.rs): the other
      instances of [Client]'s contract, with the sessions and sign-ins of their protocols.
    - [Probe] (crates/sharerr-probe/src/lib.rs): what is made of the tracks of a media file.
    - [Metrics] (metrics.rs, api.rs) and [Jackett] (jackett.rs): the surfaces behind a
      token, and the feed under Jackett's addresses.
    - [ItemsPage] (web/items/mod.rs): the list of items, its filters, and every action on
      one item or many.
    - [ItemsView] (web/items/mod.rs, web/mod.rs, system_stats.rs): the page as shown, the
      detail of one item, the status tiles and the security headers.
    - [ConfigFile] (web/config_io/mod.rs, settings.rs): editing, replacing and loading
      sharerr.toml, and what the environment pins.
    - [SettingsForms] (web/settings/mod.rs): every form of the settings page, over the
      process, the files and the vault.
    - [Checks] (checks.rs, web/probe.rs), [Doctor] (commands/doctor/mod.rs) and
      [Diagnostics] (web/diagnostics.rs): what is checked of each service, and the three
      surfaces that show it.
    - [Topology] (web/topology/mod.rs, web/templates/topology.rs): the diagram of what this
      instance is connected to, its redaction, and the client's torrents against the store's.
    - [Composition] (web/composition.rs): the library rolled up by format, state and source.

    ** How they interact

    [Endpoint] feeds [TrackerUrl], whose announce sets [Factory] writes into
    torrents; [Factory] assembles them with [Metainfo], which is written and read
    through [Bencode]; [Announce] answers clients in bencode and records the
    address [Endpoint]'s classification lets it trust; [Title] and [Factory] read
    the metadata of [Model]; [Paths] gives the file names and stems.  [Sync]
    discovers files ([Library] and the listings of Sonarr and Radarr), compares
    them with [Items], and has [Seeder] share what is new and withdraw what has
    ended; [Seeder] speaks to a client through [Client] and asks [Sightings]
    which friend already has the file; [Peers] decides which items a friend's
    feed shows.  [SignIn] composes [Accounts], [Totp] and [WebAccess].
    [Serve] holds the database, the vault and the swarms, and [TrackerRoutes],
    [Torznab], [Gossip], [Exchange], [Pairing], [Friends], [Beacon], [Gluetun], [Alerts]
    and [Settings] are computations over it: the tracker admits what [Items] lists and
    [Vault] or [Peers] authorise, gossip binds the identities that lighthouse
    lookups are checked against, [Gluetun] feeds the endpoint that announces and
    records carry, [Alerts] runs the passes of [Sync] and tells what their reports
    changed, and [Settings] rotates the token the tracker checks.  [Arr] is a source of
    [Sync] and [Qbit], [Transmission], [Deluge] and [Rtorrent] are clients of [Seeder];
    [ItemsPage] withdraws shares with the steps of [Sync].  [SettingsForms] composes
    [ConfigFile] with the vault steps of [Settings].  [Checks] runs [Arr], [Library],
    [Paths] and the clients, and [Doctor], [Diagnostics] and the test buttons word its
    outcomes; [Topology] draws them, with the sightings of [Sightings] and the swarms of
    [Announce].

    ** What the theorems show

    - Wire formats: encoding and decoding are inverse, for bencode, .torrent
      files, announce queries and announce URLs; decoding accepts nothing whose
      re-encoding would lose content; the parser stops on every input and refuses
      deep nesting; streamed answers are the encoding of the dictionary they
      stand for.
    - The tracker: the exact effect and answer of one announce, the invariant of
      every reachable state (no empty swarm, no peer from the future), agreement
      of all read-only views, and that transfers add up to the client's counters.
    - The endpoint: the stored history refines "the last distinct observed
      bases", by induction over any run of operations, and the announce set is
      built from exactly that list.
    - Torrents: piece hashes depend on the content alone, never on how reads
      deliver it; what is built parses back with the requested fields and
      verifies against its file; verification is exact in both directions; the
      iterative BEP 52 root is the recursive tree over padded blocks; rewriting
      the announce fields changes nothing else.
    - Names: a synthesised title parses back to its item and passes the
      program's own check under stated conditions; paths resolve by the most
      specific rule, and the two entry points agree.
    - The lighthouse: the table stays bounded and holds only verified records
      under canonical keys, by induction over any run of reports; a live record
      is never displaced by another keypair; what is accepted is found.
    - Signing in: every session was opened by a request that claimed the empty instance,
      proved the password of an account without a second factor, or brought a fresh code
      for the sign-in that the account's password had parked; the throttle bounds guesses and always
      lets the next window in; forged forwarding headers change nothing.
    - The store: its invariant over every reachable state of the item table, the
      feed of a friend as exactly the items its scope admits, sightings that
      never move back in time.
    - Seeding: a torrent downloaded from a friend is used only after its hashes match
      the local file, nothing else in the client is touched, and an announce that could
      not be rewritten is retried on the next pass.
    - Reconciliation: a pass withdraws only what the sources say has ended, a
      source that did not answer ends nothing, a dry run changes nothing, the
      report adds up, and a pass over a settled library changes nothing.
    - The vault: once its file exists, any interleaving of handles refines a map, failed
      writes leave the file, and every value is read back.
    - The tracker's door and the feed: an announce is admitted exactly for a shared
      torrent under a token, a friend sees exactly their feed, well-formed.
    - Friends: identities are pinned on first contact and never replaced, records
      never move back in time while the stored ones can be read, an exchange changes nothing but what a friend says of
      itself, pairing fills an empty half only, an exported friend is restored.
    - Addresses: a lighthouse is believed only for signed records, two friends find
      each other through one, a forwarded port that went away is not advertised
      until it is granted again.
    - Tokens: a rotation never cuts off the old token, whichever step fails.
    - Telling: the digests of a run of passes are the differences of consecutive
      reports, a friend's silence is announced once, the loop waits neither too long nor
      too briefly and loses no request for a pass.
    - Torrent clients: replies of any form are read for what they mean, what rTorrent
      is asked by column name is listed field by field, quoted values stay quoted, an expired session is renewed, trackers are replaced without losing the
      operator's, and no sequence of calls can move or delete media, for each client.
    - Applications: what a pass discovers is what is tagged, and an audience names exactly
      the friends whose tags a file carries; a media file is described from its tracks.
    - Surfaces behind a token: they fail closed and show no secret; both addresses of the
      feed answer with the same library.
    - The items page: it lists exactly what a friend sees, and an action on many touches
      those and no others, in the store and in the client; a row shows a token by
      its fingerprint alone, the security headers are added and replace none, and the next
      sync announced is the loop's for an interval the loop runs at.
    - Configuration: an edit changes the field it names alone; what a save leaves in the
      file, in force and in the vault is exact, whichever call fails; after any run of saves
      the file is what the accepted edits make of it and the process runs on what the next
      start would load; the page locks exactly what the environment pins.
    - Checks: the path report is exact, a check is ready exactly when discovery succeeds,
      every section of the doctor runs whatever fails, its verdict and its document are those
      of its lines, its repairs are those asked for, the surfaces agree on every outcome, and
      the charts stay in frame.
    - The topology page: a redacted address that fits its row gives nothing away that it
      should hide, every
      torrent that should be seeding is accounted for, the boxes never overlap, every edge
      joins two of them and the legend names each; a roll-up of the library is exact and
      its bar whole, for shares computed in binary64.
    - Departures of the code from its documentation are theorems too; they are
      marked as such in their comments.

    ** Parameters and hypotheses

    Third-party crates are class parameters: [Digests] (SHA-1, SHA-256, hex),
    [UrlLib] (the url crate), [Decoders] (percent and hex decoding),
    [UnicodeData] (normalisation tables), [FileSystem] (metadata and reads),
    [Signatures] (Ed25519 and the JSON text it signs).
    The laws the theorems use are separate classes stating documented behaviour
    (output lengths, a URL's text parses back to it, ASCII decomposes to itself),
    each with a concrete instance among the witnesses.  The iteration order of a
    [HashMap] is a parameter too ([HashIter]): any permutation of the entries,
    and so is the order of rows a query without ORDER BY returns ([RowOrder]).
    Further parameters: [PasswordHasher] (Argon2), [QrCodes], [AgreementIter] (the
    order of a vote's table), [LibraryFs] and [MediaListing] (what a directory
    holds), [TorrentClient], [FriendHttp] (fetching a friend's torrent),
    [MediaProbe], [MediaStamps] (a file's size and time) and [ErrorText] (the text
    of an error); [VaultCipher] (Argon2 and XChaCha20-Poly1305), [KeyFiles] and
    [MasterEnv]; [Signing] (Ed25519 signing and JSON of records), [FeedText],
    [InviteCodec] and [UrlText] (escapes and texts of libraries), [FriendServers], [PairServers],
    [Lighthouses], [ControlServer] and [RtorrentServer] (the programs at the other
    end of a request), [XmlWriter], [XmlRefs] and [RpcText] (quick_xml and the
    rendering of library types in messages), [UrlParts], [UrlHost], [UrlDial] (the parts
    of a URL) and [UrlQuery] (its query); [JsonText], [DecodeText], [FloatText] and
    [Base64] (serde_json, the text of floats, base64); [ArrApp], [QbitServer], [QbitText],
    [TransmissionServer], [DelugeServer] and [TorrentHosts] (the services);
    [Containers] (the parsers of media files), [CpuText], [LocalTime], [CivilTime] and
    [StoreText] (texts of times and library values); [ConfigLayers] (TOML text, and the
    layering of defaults, file and environment), [TornWrites] (what a failed write leaves),
    [CaseMap] (Unicode case), [FormText] and [DoctorText] (texts of library errors).
    Clocks are explicit arguments: a handler or a pass reads the clock once.
    Futures joined by the code run in the order they are written.  Columns that
    hold JSON are typed, so a row that does not decode is not a state.  Which
    database statements and vault reads fail is a script in the state, so a
    theorem over every state covers every failure.

    ** Fuel

    [Bencode]'s parser carries fuel of twice the input length plus one, one unit
    per value and per loop round, and is proved to need no more.  The read loops
    of [Factory] carry one round per byte and one more, and one read per delivery
    to fill a buffer; the theorems state the result itself, so too little fuel
    would falsify them.  Chunking and the hash-tree loop carry the length of
    their list.  The parser of [XmlRpc] carries one unit per event of the reply and is
    proved to need no more.  The walk of [Library] recurses on what is left of the code's own
    MAX_DEPTH.

    ** What is not modelled

    HTTP routing and clients, SQL text and schema upgrades, HTML and JSON
    rendering, argument parsing, logging, and memory allocation (a theorem of
    [Factory] bounds what the code asks for, not what the allocator does).  Locks
    are modelled by the order of the operations they serialise; a poisoned lock
    is a state of [Endpoint].  The waiting of the background loops is not modelled,
    their single rounds are.  Building the syncer from configuration and vault, and the
    heartbeat push, are not modelled.  The markup
    of every page and the invented data of the preview carry no state; the
    modules for upgrades, fault injection and the test kit are test code. *)

From stdpp Require Export base tactics list option numbers strings countable gmap.
From Stdlib Require Export ZArith NArith Lia.
From Corelib Require Export Init.Byte.
From Stdlib Require Strings.Byte Strings.String.

(** ** Bytes and byte strings *)

(** A Rust [u8] is a [Byte.byte]; [Vec<u8>], [&[u8]] and the UTF-8 content of a
    [String] or [&str] are lists of them. *)
Abbreviation bytes := (list byte).

Declare Scope rust_scope.
Delimit Scope rust_scope with rust.
Open Scope rust_scope.

(** [bs "text"] is the byte string literal [b"text"]. *)
Definition bs (s : string) : bytes := String.list_byte_of_string s.

#[export] Instance byte_eq_dec : EqDecision byte := Byte.byte_eq_dec.

#[export] Program Instance byte_countable : Countable byte :=
  inj_countable Byte.to_N Byte.of_N _.
Next Obligation. apply Byte.of_to_N. Qed.

(** The numeric value of a byte. *)
Definition byte_val (b : byte) : N := Byte.to_N b.

(** The byte of a value below 256 ([0] outside, never used there). *)
Definition byte_of (n : N) : byte := default Byte.x00 (Byte.of_N n).

Lemma byte_val_inj (a b : byte) : byte_val a = byte_val b -> a = b.
Proof.
  unfold byte_val. intros H.
  enough (Some a = Some b) by congruence.
  rewrite <- (Byte.of_to_N a), <- (Byte.of_to_N b). by rewrite H.
Qed.

Lemma byte_val_lt (b : byte) : (byte_val b < 256)%N.
Proof. pose proof (Byte.to_N_bounded b). unfold byte_val. lia. Qed.

Lemma byte_of_val (b : byte) : byte_of (byte_val b) = b.
Proof. unfold byte_of, byte_val. by rewrite Byte.of_to_N. Qed.

Lemma byte_val_of (n : N) : (n < 256)%N -> byte_val (byte_of n) = n.
Proof.
  intros H. unfold byte_of, byte_val.
  destruct (Byte.of_N n) as [b|] eqn:E; simpl.
  - by apply Byte.to_of_N.
  - apply Byte.of_N_None_iff in E. lia.
Qed.

(** ** Results *)

(** Rust's [Result<A, E>]. *)
Inductive result (A E : Type) : Type :=
| Ok (a : A)
| Err (e : E).
Arguments Ok {A E} _.
Arguments Err {A E} _.

Definition rbind {A B E : Type} (r : result A E) (k : A -> result B E) : result B E :=
  match r with Ok a => k a | Err e => Err e end.

Definition rmap_err {A E F : Type} (f : E -> F) (r : result A E) : result A F :=
  match r with Ok a => Ok a | Err e => Err (f e) end.

(** [Option::ok_or]. *)
Definition ok_or {A E : Type} (o : option A) (e : E) : result A E :=
  match o with Some a => Ok a | None => Err e end.

(** [Result::ok]. *)
Definition res_ok {A E : Type} (r : result A E) : option A :=
  match r with Ok a => Some a | Err _ => None end.

(** The [?] operator. *)
Notation "'let?' x ':=' e 'in' k" := (rbind e (fun x => k))
  (at level 10, x name, e at level 100, k at level 200) : rust_scope.
Notation "'let?' ''' p ':=' e 'in' k" := (rbind e (fun p => k))
  (at level 10, p pattern, e at level 100, k at level 200) : rust_scope.

(** [iter().map(f).collect::<Result<Vec<_>, _>>()]: the first error wins. *)
Fixpoint collect_results {A B E : Type} (f : A -> result B E) (l : list A) : result (list B) E :=
  match l with
  | [] => Ok []
  | x :: l' => let? y := f x in let? ys := collect_results f l' in Ok (y :: ys)
  end.

Lemma rbind_Ok {A B E : Type} (r : result A E) (k : A -> result B E) (b : B) :
  rbind r k = Ok b <-> exists a, r = Ok a /\ k a = Ok b.
Proof. destruct r; simpl; naive_solver. Qed.

Lemma ok_or_Ok {A E : Type} (o : option A) (e : E) (a : A) :
  ok_or o e = Ok a <-> o = Some a.
Proof. destruct o; simpl; naive_solver. Qed.

Lemma rmap_err_Ok {A E F : Type} (f : E -> F) (r : result A E) (a : A) :
  rmap_err f r = Ok a <-> r = Ok a.
Proof. destruct r; simpl; naive_solver. Qed.

Lemma collect_results_Ok {A B E : Type} (f : A -> result B E) (l : list A) (l' : list B) :
  collect_results f l = Ok l' <-> Forall2 (fun x y => f x = Ok y) l l'.
Proof.
  revert l'. induction l as [|x l IH]; intros l'; simpl.
  - split; [intros [= <-]; constructor | by inversion 1].
  - rewrite rbind_Ok. setoid_rewrite rbind_Ok. setoid_rewrite IH. split.
    + intros (y & Hy & ys & Hys & [= <-]). by constructor.
    + inversion 1; subst. eauto 7.
Qed.

(** ** Automation *)

(** The rewriting and resolution databases the components add to. *)
Create HintDb sharerr.
#[export] Hint Resolve byte_val_lt : sharerr.

(** Turn the result-monad hypotheses of a successful run into equations. *)
Ltac invert_results :=
  repeat match goal with
  | H : rbind _ _ = Ok _ |- _ =>
      let E := fresh "E" in apply rbind_Ok in H as (? & E & H); try rewrite E in *
  | H : ok_or _ _ = Ok _ |- _ => apply ok_or_Ok in H
  | H : rmap_err _ _ = Ok _ |- _ => apply rmap_err_Ok in H
  | H : Ok _ = Ok _ |- _ => injection H as H; subst
  | H : Some _ = Some _ |- _ => injection H as H; subst
  | H : Err _ = Ok _ |- _ => discriminate H
  | H : Ok _ = Err _ |- _ => discriminate H
  | p : (_ * _)%type |- _ => destruct p
  end; simpl in *.

(** Split the matches of a hypothesis until it is an equation between
    constructors. *)
Ltac split_match_in H :=
  repeat match type of H with
  | context [match ?x with _ => _ end] => destruct x eqn:?; try discriminate H
  end.

(** ** Lists *)

(** [slice::iter().position(p)]. *)
Fixpoint position {A : Type} (p : A -> bool) (l : list A) : option nat :=
  match l with
  | [] => None
  | x :: l' => if p x then Some 0 else S <$> position p l'
  end.

Lemma position_Some {A : Type} (p : A -> bool) (l : list A) (n : nat) :
  position p l = Some n ->
  exists x, l !! n = Some x /\ p x = true /\ Forall (fun y => p y = false) (take n l).
Proof.
  revert n. induction l as [|y l IH]; intros n; simpl; [done|].
  destruct (p y) eqn:Hy.
  - intros [= <-]. exists y. simpl. eauto using Forall_nil_2.
  - destruct (position p l) as [m|] eqn:E; simpl; [|done].
    intros [= <-]. destruct (IH m eq_refl) as (x & Hx & Hp & Hall).
    exists x. simpl. eauto using Forall_cons_2.
Qed.

Lemma position_app {A : Type} (p : A -> bool) (l : list A) (x : A) (r : list A) :
  Forall (fun y => p y = false) l -> p x = true ->
  position p (l ++ x :: r) = Some (length l).
Proof.
  intros Hl Hx. induction Hl as [|y l Hy Hl IH]; simpl; [by rewrite Hx|].
  by rewrite Hy, IH.
Qed.

Lemma position_lt {A : Type} (p : A -> bool) (l : list A) (n : nat) :
  position p l = Some n -> n < length l.
Proof. intros (x & Hx & _)%position_Some. by eapply lookup_lt_Some. Qed.

Lemma take_length_app {A : Type} (l r : list A) : take (length l) (l ++ r) = l.
Proof. by rewrite take_app_length. Qed.

Lemma drop_length_app {A : Type} (l r : list A) : drop (length l) (l ++ r) = r.
Proof. by rewrite drop_app_length. Qed.

(** A suffix of [input] at [pos] that starts with [l] gives, [length l]
    further on, the rest. *)
Lemma drop_app_step {A : Type} (input l r : list A) (pos : nat) :
  drop pos input = l ++ r -> drop (pos + length l) input = r.
Proof. intros H. by rewrite <- drop_drop, H, drop_app_length. Qed.

Lemma lookup_drop_head {A : Type} (input : list A) (pos : nat) (x : A) (r : list A) :
  drop pos input = x :: r -> input !! pos = Some x.
Proof.
  intros H. rewrite <- (Nat.add_0_r pos), <- lookup_drop, H. done.
Qed.

Lemma drop_lookup_cons {A : Type} (input : list A) (pos : nat) (x : A) :
  input !! pos = Some x -> drop pos input = x :: drop (S pos) input.
Proof. intros H. by apply drop_S. Qed.

Lemma fold_left_app_concat {A B : Type} (f : A -> list B) (l : list A) (out : list B) :
  fold_left (fun o x => o ++ f x) l out = out ++ concat (map f l).
Proof.
  revert out. induction l as [|x l IH]; intros out; simpl.
  - by rewrite app_nil_r.
  - by rewrite IH, app_assoc.
Qed.

Lemma list_filter_id {A : Type} (P : A -> Prop) `{!forall x, Decision (P x)} (l : list A) :
  Forall P l -> filter P l = l.
Proof.
  induction 1 as [|x l Hx Hl IH]; [done|]. by rewrite filter_cons_True, IH.
Qed.

Lemma elem_of_take_weaken {A : Type} (x : A) (n : nat) (l : list A) :
  x ∈ take n l -> x ∈ l.
Proof.
  rewrite <- (take_drop n l) at 2. rewrite elem_of_app. auto.
Qed.

(** ** Finite maps *)

Section Maps.
Context `{Countable K} {V : Type}.
Implicit Types m : gmap K V.

Lemma map_to_list_filter (P : K * V -> Prop) `{!forall x, Decision (P x)} m :
  map_to_list (filter P m) ≡ₚ filter P (map_to_list m).
Proof.
  rewrite map_filter_alt. apply map_to_list_to_map.
  apply (sublist_NoDup _ (map_to_list m).*1); [apply NoDup_fst_map_to_list|].
  apply fmap_sublist, sublist_filter.
Qed.

End Maps.
