(* ===== verification/RustStd.v ===== *)
(** * The parts of Rust's standard library the program leans on

    Machine integers and their casts, decimal printing and [str::parse] for
    integers, ASCII classification, UTF-8 validation ([str::from_utf8]) and the
    [Ord] instance of byte strings.  [usize] is 64 bits wide. *)

From Stdlib Require Import DecimalFacts DecimalPos DecimalN.
From S2P Require Import Prelude.

(** ** Machine integers *)

Definition u16_max : N := 65535.
Definition u32_max : N := 4294967295.
Definition u64_max : N := 18446744073709551615.
Definition usize_max : N := u64_max.
Definition i64_min : Z := -9223372036854775808.
Definition i64_max : Z := 9223372036854775807.

Definition in_i64 (n : Z) : bool := (i64_min <=? n)%Z && (n <=? i64_max)%Z.

(** [n as i64] for an unsigned 64-bit [n]: two's-complement reinterpretation. *)
Definition as_i64 (n : N) : Z :=
  if (Z.of_N n <=? i64_max)%Z then Z.of_N n else (Z.of_N n - 18446744073709551616)%Z.

(** [i64::checked_add]. *)
Definition i64_checked_add (a b : Z) : option Z :=
  if in_i64 (a + b) then Some (a + b)%Z else None.

(** [i64::saturating_add] and [i64::saturating_sub]. *)
Definition clamp_i64 (n : Z) : Z := Z.max i64_min (Z.min i64_max n).
Definition i64_saturating_add (a b : Z) : Z := clamp_i64 (a + b).
Definition i64_saturating_sub (a b : Z) : Z := clamp_i64 (a - b).

(** [u64::checked_sub]. *)
Definition u64_checked_sub (a b : N) : option N :=
  if (b <=? a)%N then Some (a - b)%N else None.

(** [usize::checked_add]. *)
Definition usize_checked_add (a b : N) : option N :=
  if (a + b <=? usize_max)%N then Some (a + b)%N else None.

(** [u64::saturating_add]. *)
Definition u64_saturating_add (a b : N) : N := N.min (a + b) u64_max.

(** [u64::try_from(i64)]. *)
Definition u64_try_from_i64 (n : Z) : option N :=
  if (0 <=? n)%Z then Some (Z.to_N n) else None.

(** [i64::try_from(u64)]. *)
Definition i64_try_from_u64 (n : N) : option Z :=
  if (Z.of_N n <=? i64_max)%Z then Some (Z.of_N n) else None.

(** [u64::div_ceil] for a nonzero divisor. *)
Definition div_ceil (a b : N) : N :=
  let q := (a / b)%N in if (a mod b =? 0)%N then q else (q + 1)%N.

Lemma in_i64_spec n : in_i64 n = true <-> (i64_min <= n <= i64_max)%Z.
Proof. unfold in_i64. rewrite andb_true_iff, !Z.leb_le. lia. Qed.

Lemma as_i64_small n : (Z.of_N n <= i64_max)%Z -> as_i64 n = Z.of_N n.
Proof. intros H. unfold as_i64. by rewrite (proj2 (Z.leb_le _ _) H). Qed.

Lemma as_i64_in_range n : (n <= u64_max)%N -> in_i64 (as_i64 n) = true.
Proof.
  intros H. apply in_i64_spec. unfold as_i64, i64_min, i64_max, u64_max in *.
  destruct (Z.leb_spec (Z.of_N n) 9223372036854775807); lia.
Qed.

(** ** ASCII *)

Definition is_ascii_digit (b : byte) : bool :=
  (48 <=? byte_val b)%N && (byte_val b <=? 57)%N.

Definition is_ascii_upper (b : byte) : bool :=
  (65 <=? byte_val b)%N && (byte_val b <=? 90)%N.

Definition is_ascii_lower (b : byte) : bool :=
  (97 <=? byte_val b)%N && (byte_val b <=? 122)%N.

Definition is_ascii_alphanumeric (b : byte) : bool :=
  is_ascii_digit b || is_ascii_upper b || is_ascii_lower b.

(** [u8::to_ascii_lowercase]. *)
Definition to_ascii_lowercase (b : byte) : byte :=
  if is_ascii_upper b then byte_of (byte_val b + 32) else b.

(** [u8::eq_ignore_ascii_case], and the same on byte strings. *)
Definition eq_ignore_ascii_case (a b : byte) : bool :=
  bool_decide (to_ascii_lowercase a = to_ascii_lowercase b).

(** ** Decimal numbers *)

(** The digits of a decimal numeral, most significant first. *)
Fixpoint bytes_of_uint (d : Decimal.uint) : bytes :=
  match d with
  | Decimal.Nil => []
  | Decimal.D0 d => "0"%byte :: bytes_of_uint d
  | Decimal.D1 d => "1"%byte :: bytes_of_uint d
  | Decimal.D2 d => "2"%byte :: bytes_of_uint d
  | Decimal.D3 d => "3"%byte :: bytes_of_uint d
  | Decimal.D4 d => "4"%byte :: bytes_of_uint d
  | Decimal.D5 d => "5"%byte :: bytes_of_uint d
  | Decimal.D6 d => "6"%byte :: bytes_of_uint d
  | Decimal.D7 d => "7"%byte :: bytes_of_uint d
  | Decimal.D8 d => "8"%byte :: bytes_of_uint d
  | Decimal.D9 d => "9"%byte :: bytes_of_uint d
  end.

(** Read decimal digits; [None] on any other byte. *)
Fixpoint uint_of_bytes (s : bytes) : option Decimal.uint :=
  match s with
  | [] => Some Decimal.Nil
  | c :: s' =>
      match c with
      | "0"%byte => Decimal.D0 <$> uint_of_bytes s'
      | "1"%byte => Decimal.D1 <$> uint_of_bytes s'
      | "2"%byte => Decimal.D2 <$> uint_of_bytes s'
      | "3"%byte => Decimal.D3 <$> uint_of_bytes s'
      | "4"%byte => Decimal.D4 <$> uint_of_bytes s'
      | "5"%byte => Decimal.D5 <$> uint_of_bytes s'
      | "6"%byte => Decimal.D6 <$> uint_of_bytes s'
      | "7"%byte => Decimal.D7 <$> uint_of_bytes s'
      | "8"%byte => Decimal.D8 <$> uint_of_bytes s'
      | "9"%byte => Decimal.D9 <$> uint_of_bytes s'
      | _ => None
      end
  end.

(** [to_string] of an unsigned integer. *)
Definition u_to_string (n : N) : bytes := bytes_of_uint (N.to_uint n).

(** [to_string] of a signed integer. *)
Definition i_to_string (n : Z) : bytes :=
  match n with
  | Zneg p => "-"%byte :: u_to_string (Npos p)
  | _ => u_to_string (Z.to_N n)
  end.

(** The digits of a numeral: at least one, nothing but digits. *)
Definition parse_digits (s : bytes) : option N :=
  match s with
  | [] => None
  | _ => N.of_uint <$> uint_of_bytes s
  end.

(** [s.parse::<uN>()]: an optional [+], then digits, at most [max]. *)
Definition parse_u (max : N) (s : bytes) : option N :=
  let digits := match s with "+"%byte :: r => r | _ => s end in
  match parse_digits digits with
  | Some n => if (n <=? max)%N then Some n else None
  | None => None
  end.

(** [s.parse::<i64>()]: an optional sign, then digits, in range. *)
Definition parse_i64 (s : bytes) : option Z :=
  let n :=
    match s with
    | "+"%byte :: r => Z.of_N <$> parse_digits r
    | "-"%byte :: r => (fun m => - Z.of_N m)%Z <$> parse_digits r
    | _ => Z.of_N <$> parse_digits s
    end in
  match n with
  | Some n => if in_i64 n then Some n else None
  | None => None
  end.

Lemma uint_of_bytes_of_uint d : uint_of_bytes (bytes_of_uint d) = Some d.
Proof. induction d as [|d IH|d IH|d IH|d IH|d IH|d IH|d IH|d IH|d IH|d IH];
  simpl; try rewrite IH; done. Qed.

Lemma bytes_of_uint_digits d : Forall (fun b => is_ascii_digit b = true) (bytes_of_uint d).
Proof. induction d; simpl; constructor; done. Qed.

Lemma u_to_string_digits n : Forall (fun b => is_ascii_digit b = true) (u_to_string n).
Proof. apply bytes_of_uint_digits. Qed.

Lemma u_to_string_cons n :
  exists b r, u_to_string n = b :: r /\ is_ascii_digit b = true.
Proof.
  pose proof (u_to_string_digits n) as H.
  destruct (u_to_string n) as [|b r] eqn:E.
  - exfalso. unfold u_to_string in E.
    assert (N.to_uint n = Decimal.Nil) as E'.
    { destruct (N.to_uint n); simpl in E; congruence. }
    destruct n as [|p]; [done|]. by apply (DecimalPos.Unsigned.to_uint_nonnil p).
  - inversion H; subst. eauto.
Qed.

Lemma u_to_string_nonempty n : u_to_string n <> [].
Proof. destruct (u_to_string_cons n) as (b & r & -> & _). done. Qed.

Lemma parse_digits_u_to_string n : parse_digits (u_to_string n) = Some n.
Proof.
  unfold parse_digits. destruct (u_to_string n) as [|b r] eqn:E.
  - by destruct (u_to_string_nonempty n).
  - rewrite <- E. unfold u_to_string. rewrite uint_of_bytes_of_uint. simpl.
    by rewrite DecimalN.Unsigned.of_to.
Qed.

(** A digit is not one of the bytes the parsers test for. *)
Lemma digit_ne (b c : byte) : is_ascii_digit b = true -> is_ascii_digit c = false -> b <> c.
Proof. congruence. Qed.

Lemma parse_u_u_to_string max n :
  (n <= max)%N -> parse_u max (u_to_string n) = Some n.
Proof.
  intros Hn. unfold parse_u.
  replace (match u_to_string n with "+"%byte :: r => r | _ => u_to_string n end)
    with (u_to_string n).
  - rewrite parse_digits_u_to_string. by rewrite (proj2 (N.leb_le _ _) Hn).
  - destruct (u_to_string_cons n) as (b & r & -> & Hb). by destruct b.
Qed.

Lemma parse_i64_i_to_string n : in_i64 n = true -> parse_i64 (i_to_string n) = Some n.
Proof.
  intros Hn. unfold parse_i64, i_to_string.
  assert (forall m, in_i64 (Z.of_N m) = true ->
    match
      match u_to_string m with
      | "+"%byte :: r => Z.of_N <$> parse_digits r
      | "-"%byte :: r => (fun m => - Z.of_N m)%Z <$> parse_digits r
      | _ => Z.of_N <$> parse_digits (u_to_string m)
      end
    with Some n => if in_i64 n then Some n else None | None => None end
    = Some (Z.of_N m)) as Hpos.
  { intros m Hm. pose proof (parse_digits_u_to_string m) as Hp.
    destruct (u_to_string_cons m) as (b & r & E & Hb). rewrite E in *.
    destruct b; try done; rewrite Hp; simpl; by rewrite Hm. }
  destruct n as [|p|p]; simpl.
  - by apply (Hpos 0%N).
  - apply (Hpos (Npos p)). done.
  - rewrite parse_digits_u_to_string. cbn -[in_i64]. rewrite Pos2Z.opp_pos. by rewrite Hn.
Qed.

Lemma uint_of_bytes_inv s d : uint_of_bytes s = Some d -> bytes_of_uint d = s.
Proof.
  revert d. induction s as [|c s IH]; intros d; simpl; [by intros [= <-]|].
  destruct c; try done;
    (destruct (uint_of_bytes s) as [d'|]; simpl; [|done]; intros [= <-]; simpl;
     f_equal; by apply IH).
Qed.

(** Printing is injective, as every round trip below needs. *)
Lemma u_to_string_inj n m : u_to_string n = u_to_string m -> n = m.
Proof.
  intros H. enough (Some n = Some m) by congruence.
  by rewrite <- (parse_digits_u_to_string n), <- (parse_digits_u_to_string m), H.
Qed.

(** [i_to_string] writes only [-] and digits, and never ["e"]. *)
Lemma i_to_string_no_e n : Forall (fun b => bool_decide (b = "e"%byte) = false) (i_to_string n).
Proof.
  assert (forall m, Forall (fun b => bool_decide (b = "e"%byte) = false) (u_to_string m)) as H.
  { intros m. eapply Forall_impl; [apply u_to_string_digits|].
    intros b Hb. apply bool_decide_eq_false. by apply digit_ne. }
  destruct n; simpl; auto.
Qed.

Lemma u_to_string_no_colon n :
  Forall (fun b => bool_decide (b = ":"%byte) = false) (u_to_string n).
Proof.
  eapply Forall_impl; [apply u_to_string_digits|].
  intros b Hb. apply bool_decide_eq_false. by apply digit_ne.
Qed.

(** ** UTF-8 *)

(** A byte in the inclusive range [lo..=hi]. *)
Definition byte_in (lo hi : N) (b : byte) : bool :=
  (lo <=? byte_val b)%N && (byte_val b <=? hi)%N.

(** Whether [str::from_utf8] accepts the bytes: the well-formed sequences of
    the Unicode standard's table 3-7. *)
Fixpoint utf8_valid (s : bytes) : bool :=
  match s with
  | [] => true
  | b0 :: s1 =>
      if byte_in 0 127 b0 then utf8_valid s1
      else match s1 with
      | [] => false
      | b1 :: s2 =>
          if byte_in 194 223 b0 then byte_in 128 191 b1 && utf8_valid s2
          else match s2 with
          | [] => false
          | b2 :: s3 =>
              if byte_in 224 239 b0 then
                byte_in (if bool_decide (byte_val b0 = 224%N) then 160 else 128)
                        (if bool_decide (byte_val b0 = 237%N) then 159 else 191) b1
                && byte_in 128 191 b2 && utf8_valid s3
              else match s3 with
              | [] => false
              | b3 :: s4 =>
                  byte_in 240 244 b0
                  && byte_in (if bool_decide (byte_val b0 = 240%N) then 144 else 128)
                             (if bool_decide (byte_val b0 = 244%N) then 143 else 191) b1
                  && byte_in 128 191 b2 && byte_in 128 191 b3 && utf8_valid s4
              end
          end
      end
  end.

(** [str::from_utf8]: the same bytes, as text. *)
Definition from_utf8 (s : bytes) : option bytes := if utf8_valid s then Some s else None.

Lemma from_utf8_Some s t : from_utf8 s = Some t <-> t = s /\ utf8_valid s = true.
Proof. unfold from_utf8. destruct (utf8_valid s); naive_solver. Qed.

Lemma utf8_valid_ascii s : Forall (fun b => byte_in 0 127 b = true) s -> utf8_valid s = true.
Proof. induction 1 as [|b s Hb Hs IH]; simpl; [done|]. by rewrite Hb. Qed.

Lemma u_to_string_utf8 n : utf8_valid (u_to_string n) = true.
Proof.
  apply utf8_valid_ascii. eapply Forall_impl; [apply u_to_string_digits|].
  intros b. unfold is_ascii_digit, byte_in. rewrite !andb_true_iff, !N.leb_le. lia.
Qed.

Lemma i_to_string_utf8 n : utf8_valid (i_to_string n) = true.
Proof. destruct n as [|p|p]; [done| |]; apply (u_to_string_utf8 (Npos p)). Qed.

(** ** The order of byte strings *)

(** [Ord for [u8]]: lexicographic, a proper prefix first. *)
Fixpoint bytes_compare (a b : bytes) : comparison :=
  match a, b with
  | [], [] => Eq
  | [], _ => Lt
  | _, [] => Gt
  | x :: a', y :: b' =>
      match N.compare (byte_val x) (byte_val y) with
      | Eq => bytes_compare a' b'
      | c => c
      end
  end.

Definition bytes_lt (a b : bytes) : Prop := bytes_compare a b = Lt.

Lemma bytes_compare_refl a : bytes_compare a a = Eq.
Proof. induction a as [|x a IH]; simpl; [done|]. by rewrite N.compare_refl. Qed.

Lemma bytes_compare_eq a b : bytes_compare a b = Eq <-> a = b.
Proof.
  split; [|intros ->; apply bytes_compare_refl].
  revert b. induction a as [|x a IH]; intros [|y b]; simpl; try done.
  destruct (N.compare_spec (byte_val x) (byte_val y)) as [Hxy| |]; try done.
  intros H. f_equal; [by apply byte_val_inj | by apply IH].
Qed.

Lemma bytes_compare_antisym a b : bytes_compare b a = CompOpp (bytes_compare a b).
Proof.
  revert b. induction a as [|x a IH]; intros [|y b]; simpl; try done.
  rewrite N.compare_antisym. destruct (N.compare (byte_val x) (byte_val y)); simpl; auto.
Qed.

#[export] Instance bytes_lt_trans : Transitive bytes_lt.
Proof.
  unfold bytes_lt. intros a. induction a as [|x a IH]; intros [|y b] [|z c]; simpl; try done.
  destruct (N.compare_spec (byte_val x) (byte_val y)),
           (N.compare_spec (byte_val y) (byte_val z)),
           (N.compare_spec (byte_val x) (byte_val z)); try done; try lia; eauto.
Qed.

#[export] Instance bytes_lt_irrefl : Irreflexive bytes_lt.
Proof. intros a H. unfold bytes_lt in H. by rewrite bytes_compare_refl in H. Qed.

Lemma bytes_lt_gt a b : bytes_compare a b = Gt <-> bytes_lt b a.
Proof.
  unfold bytes_lt. rewrite (bytes_compare_antisym a b).
  destruct (bytes_compare a b); simpl; intuition congruence.
Qed.

Lemma bytes_lt_ne a b : bytes_lt a b -> a <> b.
Proof. intros H ->. by apply bytes_lt_irrefl in H. Qed.

(** ** Printing is the shortest numeral *)

Lemma bytes_of_uint_length d : length (bytes_of_uint d) = Decimal.nb_digits d.
Proof. induction d; simpl; auto. Qed.

Lemma parse_digits_length s n :
  parse_digits s = Some n -> length (u_to_string n) <= length s.
Proof.
  intros H. assert (exists d, uint_of_bytes s = Some d /\ n = N.of_uint d /\ s <> [])
    as (d & E & -> & Hs).
  { unfold parse_digits in H. destruct s as [|b s]; [done|].
    destruct (uint_of_bytes (b :: s)) as [d|]; naive_solver. }
  apply uint_of_bytes_inv in E. unfold u_to_string.
  rewrite DecimalN.Unsigned.to_of, bytes_of_uint_length, <- E, bytes_of_uint_length.
  apply nb_digits_unorm. intros ->. by subst.
Qed.

Lemma parse_u_length max s n : parse_u max s = Some n -> length (u_to_string n) <= length s.
Proof.
  unfold parse_u. intros H. destruct (parse_digits _) as [m|] eqn:E in H; [|done].
  destruct (m <=? max)%N; [|done]. injection H as ->.
  apply parse_digits_length in E. destruct s as [|b s]; [done|].
  destruct b; simpl in *; lia.
Qed.

Lemma parse_u_bound max s n : parse_u max s = Some n -> (n <= max)%N.
Proof.
  unfold parse_u. destruct (parse_digits _) as [m|]; [|done].
  destruct (N.leb_spec m max); naive_solver.
Qed.

Lemma parse_i64_range s n : parse_i64 s = Some n -> in_i64 n = true.
Proof.
  unfold parse_i64. intros H. destruct (match s with [] => _ | _ => _ end) as [m|] in H; [|done].
  destruct (in_i64 m) eqn:E; naive_solver.
Qed.

(** ** Splitting and joining *)

(** [slice::join]. *)
Fixpoint join (sep : bytes) (parts : list bytes) : bytes :=
  match parts with
  | [] => []
  | [p] => p
  | p :: parts' => p ++ sep ++ join sep parts'
  end.

(** [slice::split(|b| b == c)]. *)
Fixpoint split_byte (c : byte) (s : bytes) : list bytes :=
  match s with
  | [] => [[]]
  | b :: s' =>
      match split_byte c s' with
      | [] => [[]]
      | p :: ps => if decide (b = c) then [] :: p :: ps else (b :: p) :: ps
      end
  end.

Lemma split_byte_cons c s : exists p ps, split_byte c s = p :: ps.
Proof.
  induction s as [|b s (p & ps & IH)]; simpl; [eauto|]. rewrite IH. case_decide; eauto.
Qed.

Lemma split_byte_none c s : c ∉ s -> split_byte c s = [s].
Proof.
  induction s as [|b s IH]; simpl; [done|]. intros [Hb Hs]%not_elem_of_cons.
  rewrite IH by done. by rewrite decide_False by congruence.
Qed.

Lemma split_byte_app c a s : split_byte c (a ++ c :: s) = split_byte c a ++ split_byte c s.
Proof.
  induction a as [|b a IH]; simpl.
  - destruct (split_byte_cons c s) as (p & ps & ->). by rewrite decide_True.
  - rewrite IH. destruct (split_byte_cons c a) as (p & ps & ->). simpl. by case_decide.
Qed.

Lemma split_byte_join c parts :
  parts <> [] -> Forall (fun p => c ∉ p) parts -> split_byte c (join [c] parts) = parts.
Proof.
  intros Hne. induction 1 as [|p parts Hp Hparts IH]; [done|].
  destruct parts as [|q parts]; simpl; [by apply split_byte_none|].
  simpl in IH. rewrite split_byte_app, IH, split_byte_none by done. done.
Qed.
