(* ===== verification/BTreeMap.v ===== *)
(** * [std::collections::BTreeMap<Vec<u8>, V>]

    The map the bencode layer is built on.  Its iteration order is the raw byte
    order of the keys, which is what makes the encoding canonical, so it is
    modelled as the association list an iterator walks, kept strictly sorted by
    every operation ([btree_wf]).  A lookup of a sorted map determines it
    ([btree_ext]). *)

From S2P Require Import Prelude RustStd.

Section BTreeMap.
Context {V : Type}.

(** The entries in iteration order. *)
Implicit Types m : list (bytes * V).

(** [BTreeMap::get]. *)
Fixpoint btree_get (k : bytes) m : option V :=
  match m with
  | [] => None
  | (k', v) :: m' => if decide (k = k') then Some v else btree_get k m'
  end.

(** [BTreeMap::insert], which overwrites the value of a key already there. *)
Fixpoint btree_insert (k : bytes) (v : V) m : list (bytes * V) :=
  match m with
  | [] => [(k, v)]
  | (k', v') :: m' =>
      match bytes_compare k k' with
      | Lt => (k, v) :: (k', v') :: m'
      | Eq => (k, v) :: m'
      | Gt => (k', v') :: btree_insert k v m'
      end
  end.

(** [BTreeMap::remove]: the value, and the map without it. *)
Fixpoint btree_delete (k : bytes) m : list (bytes * V) :=
  match m with
  | [] => []
  | (k', v') :: m' =>
      if decide (k = k') then m' else (k', v') :: btree_delete k m'
  end.

Definition btree_remove (k : bytes) m : option V * list (bytes * V) :=
  (btree_get k m, btree_delete k m).

(** [iter.collect::<BTreeMap<_, _>>()]: insertion in iteration order, the last
    value of a repeated key winning. *)
Definition btree_collect (l : list (bytes * V)) : list (bytes * V) :=
  fold_left (fun m '(k, v) => btree_insert k v m) l [].

(** Keys strictly increasing: what every [BTreeMap] satisfies. *)
Inductive btree_wf : list (bytes * V) -> Prop :=
| btree_wf_nil : btree_wf []
| btree_wf_cons k v m :
    Forall (fun kv => bytes_lt k kv.1) m -> btree_wf m -> btree_wf ((k, v) :: m).

Lemma btree_get_None_lt k m :
  Forall (fun kv => bytes_lt k kv.1) m -> btree_get k m = None.
Proof.
  induction 1 as [|[k' v'] m Hk Hm IH]; simpl in *; [done|].
  rewrite decide_False; [done|]. by apply bytes_lt_ne.
Qed.

Lemma btree_get_insert k v k' m :
  btree_get k' (btree_insert k v m) = if decide (k' = k) then Some v else btree_get k' m.
Proof.
  induction m as [|[k0 v0] m IH]; simpl; [done|].
  destruct (bytes_compare k k0) eqn:E; simpl.
  - apply bytes_compare_eq in E as <-. by case_decide.
  - done.
  - rewrite IH. apply bytes_lt_gt, bytes_lt_ne in E. repeat case_decide; congruence.
Qed.

Lemma btree_get_insert_eq k v m : btree_get k (btree_insert k v m) = Some v.
Proof. rewrite btree_get_insert. by rewrite decide_True. Qed.

Lemma btree_get_insert_ne k v k' m :
  k' <> k -> btree_get k' (btree_insert k v m) = btree_get k' m.
Proof. intros H. rewrite btree_get_insert. by rewrite decide_False. Qed.

Lemma btree_insert_bound k0 k v m :
  bytes_lt k0 k -> Forall (fun kv => bytes_lt k0 kv.1) m ->
  Forall (fun kv => bytes_lt k0 kv.1) (btree_insert k v m).
Proof.
  intros Hk. induction 1 as [|[k' v'] m Hk' Hm IH]; simpl in *; [auto|].
  destruct (bytes_compare k k'); auto using Forall_cons_2.
Qed.

Lemma btree_insert_wf k v m : btree_wf m -> btree_wf (btree_insert k v m).
Proof.
  induction 1 as [|k' v' m Hk' Hm IH]; simpl; [repeat constructor|].
  destruct (bytes_compare k k') eqn:E.
  - apply bytes_compare_eq in E as <-. by constructor.
  - repeat constructor; auto.
    eapply Forall_impl; [done|]. intros kv Hlt. by transitivity k'.
  - constructor; [|done]. apply btree_insert_bound; [by apply bytes_lt_gt | done].
Qed.

Lemma btree_delete_bound k0 k m :
  Forall (fun kv => bytes_lt k0 kv.1) m -> Forall (fun kv => bytes_lt k0 kv.1) (btree_delete k m).
Proof.
  induction 1 as [|[k' v'] m Hk' Hm IH]; simpl; [done|]. case_decide; auto.
Qed.

Lemma btree_delete_wf k m : btree_wf m -> btree_wf (btree_delete k m).
Proof.
  induction 1 as [|k' v' m Hk' Hm IH]; simpl; [constructor|].
  case_decide; [done|]. constructor; auto using btree_delete_bound.
Qed.

Lemma btree_get_delete k k' m :
  btree_wf m -> btree_get k' (btree_delete k m) = if decide (k' = k) then None else btree_get k' m.
Proof.
  induction 1 as [|k0 v0 m Hk0 Hm IH]; simpl; [by case_decide|].
  destruct (decide (k = k0)) as [<-|Hne]; simpl.
  - case_decide; subst; [by apply btree_get_None_lt|done].
  - rewrite IH. repeat case_decide; congruence.
Qed.

Lemma btree_delete_absent k m : btree_get k m = None -> btree_delete k m = m.
Proof. induction m as [|[k1 v] m IH]; [done|]. cbn. case_decide; [done|]. intros Hn. by rewrite IH. Qed.

Lemma btree_get_delete_eq k m : btree_wf m -> btree_get k (btree_delete k m) = None.
Proof. intros H. rewrite btree_get_delete; [by rewrite decide_True|done]. Qed.

Lemma btree_get_delete_ne k k' m :
  btree_wf m -> k' <> k -> btree_get k' (btree_delete k m) = btree_get k' m.
Proof. intros H Hne. rewrite btree_get_delete; [by rewrite decide_False|done]. Qed.

Lemma btree_get_elem k v m : btree_get k m = Some v -> (k, v) ∈ m.
Proof.
  induction m as [|[k' v'] m IH]; simpl; [done|].
  case_decide; [intros [= <-]; subst; left | right; auto].
Qed.

Lemma btree_elem_get k v m : btree_wf m -> (k, v) ∈ m -> btree_get k m = Some v.
Proof.
  induction 1 as [|k' v' m Hk' Hm IH]; [by intros ?%elem_of_nil|].
  intros [[= -> ->]|Hin]%elem_of_cons; simpl; [by rewrite decide_True|].
  rewrite decide_False; [by apply IH|]. intros ->.
  rewrite Forall_forall in Hk'. by specialize (Hk' _ Hin) as ?%bytes_lt_irrefl.
Qed.

(** Equality of sorted maps is equality of lookups. *)
Lemma btree_ext m1 m2 :
  btree_wf m1 -> btree_wf m2 -> (forall k, btree_get k m1 = btree_get k m2) -> m1 = m2.
Proof.
  intros H1. revert m2. induction H1 as [|k1 v1 m1 Hk1 Hm1 IH]; intros m2 H2 Heq.
  - destruct m2 as [|[k v] m2]; [done|]. specialize (Heq k). simpl in Heq.
    by rewrite decide_True in Heq.
  - destruct H2 as [|k2 v2 m2 Hk2 Hm2].
    { specialize (Heq k1). simpl in Heq. by rewrite decide_True in Heq. }
    assert (k1 = k2 /\ v1 = v2) as [-> ->].
    { pose proof (Heq k1) as E1. pose proof (Heq k2) as E2. simpl in E1, E2.
      rewrite decide_True in E1 by done. rewrite (decide_True (P := k2 = k2)) in E2 by done.
      destruct (decide (k1 = k2)) as [->|Hne]; [split; congruence|].
      rewrite decide_False in E2 by congruence. symmetry in E1.
      apply btree_get_elem in E1, E2. rewrite Forall_forall in Hk1, Hk2.
      specialize (Hk1 _ E2). specialize (Hk2 _ E1). simpl in *.
      exfalso. apply (bytes_lt_irrefl k1). by transitivity k2. }
    f_equal. apply IH; [done|]. intros k. specialize (Heq k). simpl in Heq.
    destruct (decide (k = k2)) as [->|]; [|done].
    by rewrite !btree_get_None_lt.
Qed.

Lemma btree_collect_wf l : btree_wf (btree_collect l).
Proof.
  unfold btree_collect. assert (btree_wf []) as H by constructor. revert H.
  generalize (@nil (bytes * V)). induction l as [|[k v] l IH]; intros m Hm; simpl; [done|].
  by apply IH, btree_insert_wf.
Qed.

(** Appending past the last key is insertion. *)
Lemma btree_insert_last k v m :
  Forall (fun kv => bytes_lt kv.1 k) m -> btree_insert k v m = m ++ [(k, v)].
Proof.
  induction 1 as [|[k' v'] m Hk' Hm IH]; simpl in *; [done|].
  apply bytes_lt_gt in Hk'. by rewrite Hk', IH.
Qed.

(** Collecting a map that is already sorted changes nothing. *)
Lemma btree_fold_insert_sorted m acc :
  btree_wf (acc ++ m) ->
  fold_left (fun m '(k, v) => btree_insert k v m) m acc = acc ++ m.
Proof.
  revert acc. induction m as [|[k v] m IH]; intros acc Hwf; simpl.
  - by rewrite app_nil_r.
  - rewrite btree_insert_last.
    + rewrite IH; rewrite <- app_assoc; done.
    + clear IH. induction acc as [|[k' v'] acc IH]; [done|].
      inversion Hwf as [|? ? ? Hlt Hwf']; subst. constructor; [|by apply IH].
      rewrite Forall_app in Hlt. destruct Hlt as [_ Hlt]. by inversion Hlt.
Qed.

Lemma btree_collect_sorted m : btree_wf m -> btree_collect m = m.
Proof. intros H. unfold btree_collect. by rewrite btree_fold_insert_sorted. Qed.

(** Putting a removed entry back restores the map. *)
Lemma btree_insert_delete_id k v m :
  btree_wf m -> btree_get k m = Some v -> btree_insert k v (btree_delete k m) = m.
Proof.
  intros Hm Hk. apply btree_ext; [by apply btree_insert_wf, btree_delete_wf|done|].
  intros k'. rewrite btree_get_insert, btree_get_delete by done.
  case_decide; congruence.
Qed.

Lemma btree_delete_insert_id k v m :
  btree_wf m -> btree_get k m = None -> btree_delete k (btree_insert k v m) = m.
Proof.
  intros Hm Hk. apply btree_ext; [by apply btree_delete_wf, btree_insert_wf|done|].
  intros k'. rewrite btree_get_delete by by apply btree_insert_wf.
  rewrite btree_get_insert. case_decide; congruence.
Qed.

Lemma btree_delete_insert_ne k v k' m :
  btree_wf m -> k <> k' ->
  btree_delete k' (btree_insert k v m) = btree_insert k v (btree_delete k' m).
Proof.
  intros Hm Hne.
  apply btree_ext; auto using btree_delete_wf, btree_insert_wf.
  intros k0. rewrite btree_get_delete by auto using btree_insert_wf.
  rewrite !btree_get_insert, btree_get_delete by done.
  repeat case_decide; congruence.
Qed.

Lemma btree_delete_id k m : btree_wf m -> btree_get k m = None -> btree_delete k m = m.
Proof.
  intros Hm Hk. apply btree_ext; auto using btree_delete_wf.
  intros k0. rewrite btree_get_delete by done. case_decide; congruence.
Qed.

Lemma btree_Forall_insert (P : bytes * V -> Prop) k v m :
  P (k, v) -> Forall P m -> Forall P (btree_insert k v m).
Proof.
  intros Hkv. induction 1 as [|[k' v'] m Hk' Hm IH]; simpl; [by constructor|].
  destruct (bytes_compare k k'); auto using Forall_cons_2.
Qed.

Lemma btree_Forall_delete (P : bytes * V -> Prop) k m :
  Forall P m -> Forall P (btree_delete k m).
Proof. induction 1 as [|[k' v'] m Hk' Hm IH]; simpl; [done|]. case_decide; auto. Qed.

End BTreeMap.

#[export] Hint Constructors btree_wf : sharerr.
#[export] Hint Resolve btree_insert_wf btree_delete_wf btree_collect_wf : sharerr.
#[export] Hint Resolve btree_Forall_insert btree_Forall_delete : sharerr.

(** The decidable form of the invariant, for concrete maps. *)
Definition btree_sorted {V : Type} (m : list (bytes * V)) : bool :=
  (fix go (m : list (bytes * V)) : bool :=
     match m with
     | [] => true
     | (k, _) :: m' =>
         match m' with
         | [] => true
         | (k', _) :: _ => match bytes_compare k k' with Lt => go m' | _ => false end
         end
     end) m.

Lemma btree_sorted_wf {V : Type} (m : list (bytes * V)) : btree_sorted m = true -> btree_wf m.
Proof.
  induction m as [|[k v] m IH]; simpl; [constructor|].
  destruct m as [|[k' v'] m]; [intros _; repeat constructor|].
  destruct (bytes_compare k k') eqn:E; try done.
  intros H. specialize (IH H). constructor; [|done].
  inversion IH as [|? ? ? Hlt Hwf]; subst. constructor; [done|].
  eapply Forall_impl; [done|]. intros kv Hkv. by transitivity k'.
Qed.

(** Mapping over the values keeps the keys, so it commutes with every
    operation. *)
Section Map.
Context {A B : Type} (f : A -> B).

Definition btree_map (m : list (bytes * A)) : list (bytes * B) :=
  map (fun kv => (kv.1, f kv.2)) m.

Lemma btree_map_insert k v m :
  btree_map (btree_insert k v m) = btree_insert k (f v) (btree_map m).
Proof.
  induction m as [|[k' v'] m IH]; simpl; [done|].
  destruct (bytes_compare k k'); simpl; by rewrite ?IH.
Qed.

Lemma btree_map_wf m : btree_wf m -> btree_wf (btree_map m).
Proof.
  induction 1 as [|k v m Hk Hm IH]; simpl; constructor; [|done].
  clear -Hk. induction Hk; simpl; constructor; auto.
Qed.

Lemma btree_get_map k m : btree_get k (btree_map m) = f <$> btree_get k m.
Proof. induction m as [|[k' v'] m IH]; simpl; [done|]. by case_decide. Qed.
End Map.

#[export] Hint Resolve btree_map_wf : sharerr.

(** Literal keys differ: decided by computation. *)
Ltac solve_key := vm_compute; congruence.
