(* ===== verification/Bencode.v ===== *)
(** * Bencode (crates/sharerr-torrent/src/bencode.rs)

    The value type, the canonical writer and the recursive-descent parser.  The
    writers thread the output buffer the way the source threads
    [out: &mut Vec<u8>].  The parser threads its position over a fixed input;
    its recursion and its two [while] loops share one fuel argument, and
    [decode] starts with [decode_fuel input], which is always enough
    ([value_fuel_enough]). *)

From S2P Require Import Prelude RustStd BTreeMap.

(** ** Data *)

(** [Value]: [Dict] holds a [BTreeMap], in iteration order (see BTreeMap). *)
Inductive Value : Type :=
| VInt (n : Z)
| VBytes (b : bytes)
| VList (items : list Value)
| VDict (entries : list (bytes * Value)).

Inductive BencodeError : Type :=
| Truncated
| Unexpected (b : byte) (offset : nat)
| MalformedInteger (offset : nat)
| MalformedLength (offset : nat)
| KeyNotAString (offset : nat)
| TooDeep (limit : nat)
| TrailingBytes (trailing : nat).

Definition MAX_DEPTH : nat := 32.

(** Induction over values, with the hypothesis for every element of a list
    and every entry of a dictionary. *)
Section Value_induction.
Variable P : Value -> Prop.
Hypothesis HInt : forall n, P (VInt n).
Hypothesis HBytes : forall b, P (VBytes b).
Hypothesis HList : forall items, Forall P items -> P (VList items).
Hypothesis HDict : forall entries, Forall (fun kv => P kv.2) entries -> P (VDict entries).

Fixpoint Value_ind' (v : Value) : P v :=
  match v with
  | VInt n => HInt n
  | VBytes b => HBytes b
  | VList items =>
      HList items ((fix go (l : list Value) : Forall P l :=
        match l with
        | [] => Forall_nil_2 P
        | x :: l' => Forall_cons_2 P x l' (Value_ind' x) (go l')
        end) items)
  | VDict entries =>
      HDict entries ((fix go (l : list (bytes * Value)) : Forall (fun kv => P kv.2) l :=
        match l with
        | [] => Forall_nil_2 _
        | kv :: l' => Forall_cons_2 (fun kv => P kv.2) kv l' (Value_ind' kv.2) (go l')
        end) entries)
  end.
End Value_induction.

(** ** Writers *)

Definition write_int (value : Z) (out : bytes) : bytes :=
  (out ++ ["i"%byte]) ++ i_to_string value ++ ["e"%byte].

Definition write_len (len : N) (out : bytes) : bytes :=
  out ++ u_to_string len ++ [":"%byte].

Definition write_bytes (b : bytes) (out : bytes) : bytes :=
  write_len (N.of_nat (length b)) out ++ b.

(** The loop of [write_dict], over whatever writes one value. *)
Definition write_entries {A : Type} (write_value : A -> bytes -> bytes)
    (entries : list (bytes * A)) (out : bytes) : bytes :=
  fold_left (fun out kv => write_value kv.2 (write_bytes kv.1 out)) entries out.

Fixpoint write (v : Value) (out : bytes) : bytes :=
  match v with
  | VInt n => write_int n out
  | VBytes b => write_bytes b out
  | VList items =>
      fold_left (fun out item => write item out) items (out ++ ["l"%byte]) ++ ["e"%byte]
  | VDict entries =>
      fold_left (fun out kv => write kv.2 (write_bytes kv.1 out)) entries (out ++ ["d"%byte])
        ++ ["e"%byte]
  end.

Definition write_dict (entries : list (bytes * Value)) (out : bytes) : bytes :=
  write_entries write entries (out ++ ["d"%byte]) ++ ["e"%byte].

Definition encode (v : Value) : bytes := write v [].

(** [Field]: a borrowed value or a borrowed dictionary. *)
Inductive Field : Type :=
| FValue (v : Value)
| FDict (entries : list (bytes * Value)).

Definition write_field (f : Field) (out : bytes) : bytes :=
  match f with
  | FValue v => write v out
  | FDict entries => write_dict entries out
  end.

Definition write_fields (fields : list (bytes * Field)) (out : bytes) : bytes :=
  write_entries write_field fields (out ++ ["d"%byte]) ++ ["e"%byte].

(** ** Accessors *)

Definition as_int (v : Value) : option Z :=
  match v with VInt n => Some n | _ => None end.

Definition as_bytes (v : Value) : option bytes :=
  match v with VBytes b => Some b | _ => None end.

Definition as_str (v : Value) : option bytes := as_bytes v ≫= from_utf8.

Definition as_list (v : Value) : option (list Value) :=
  match v with VList items => Some items | _ => None end.

Definition as_dict (v : Value) : option (list (bytes * Value)) :=
  match v with VDict entries => Some entries | _ => None end.

(** [Value::string]. *)
Definition vstring (s : bytes) : Value := VBytes s.

(** ** Parser *)

(** Why the parser stops without a value: an error of the source, or the fuel
    of the model. *)
Inductive parse_stop : Type :=
| OutOfFuel
| Stop (e : BencodeError).

Section Parser.
Variable input : bytes.

Definition peek (pos : nat) : result byte BencodeError := ok_or (input !! pos) Truncated.

Definition integer (pos : nat) : result (Value * nat) BencodeError :=
  let offset := pos in
  let pos := S pos in
  let? stop := ok_or (position (fun b => bool_decide (b = "e"%byte)) (drop pos input))
                 Truncated in
  let digits := take stop (drop pos input) in
  let? text := ok_or (from_utf8 digits) (MalformedInteger offset) in
  let? canonical :=
    ok_or
      (match parse_i64 text with
       | Some n => if decide (i_to_string n = text) then Some n else None
       | None => None
       end)
      (MalformedInteger offset) in
  Ok (VInt canonical, pos + (stop + 1)).

Definition byte_string (pos : nat) : result (bytes * nat) BencodeError :=
  let offset := pos in
  let? colon := ok_or (position (fun b => bool_decide (b = ":"%byte)) (drop pos input))
                  Truncated in
  let digits := take colon (drop pos input) in
  let? len := ok_or (from_utf8 digits ≫= parse_u usize_max) (MalformedLength offset) in
  let start := pos + colon + 1 in
  let? stop := ok_or (usize_checked_add (N.of_nat start) len) Truncated in
  if (stop <=? N.of_nat (length input))%N
  then Ok (take (N.to_nat len) (drop start input), N.to_nat stop)
  else Err Truncated.

Fixpoint value (fuel depth pos : nat) {struct fuel} : result (Value * nat) parse_stop :=
  match fuel with
  | O => Err OutOfFuel
  | S fuel =>
      if decide (MAX_DEPTH < depth) then Err (Stop (TooDeep MAX_DEPTH))
      else
        let? b := rmap_err Stop (peek pos) in
        match b with
        | "i"%byte => rmap_err Stop (integer pos)
        | "l"%byte => list_loop fuel depth (S pos) []
        | "d"%byte => dict_loop fuel depth (S pos) []
        | _ =>
            if is_ascii_digit b then
              let? '(s, pos) := rmap_err Stop (byte_string pos) in Ok (VBytes s, pos)
            else Err (Stop (Unexpected b pos))
        end
  end
with list_loop (fuel depth pos : nat) (items : list Value) {struct fuel}
    : result (Value * nat) parse_stop :=
  match fuel with
  | O => Err OutOfFuel
  | S fuel =>
      let? b := rmap_err Stop (peek pos) in
      if decide (b = "e"%byte) then Ok (VList items, S pos)
      else
        let? '(item, pos) := value fuel (S depth) pos in
        list_loop fuel depth pos (items ++ [item])
  end
with dict_loop (fuel depth pos : nat) (entries : list (bytes * Value)) {struct fuel}
    : result (Value * nat) parse_stop :=
  match fuel with
  | O => Err OutOfFuel
  | S fuel =>
      let? b := rmap_err Stop (peek pos) in
      if decide (b = "e"%byte) then Ok (VDict entries, S pos)
      else if negb (is_ascii_digit b) then Err (Stop (KeyNotAString pos))
      else
        let? '(key, pos) := rmap_err Stop (byte_string pos) in
        let? '(v, pos) := value fuel (S depth) pos in
        dict_loop fuel depth pos (btree_insert key v entries)
  end.

End Parser.

(** Two steps per input byte (a value and the loop around it), and the first. *)
Definition decode_fuel (input : bytes) : nat := 2 * length input + 1.

Definition decode (input : bytes) : result Value BencodeError :=
  match value input (decode_fuel input) 0 0 with
  | Ok (v, pos) =>
      if decide (pos = length input) then Ok v
      else Err (TrailingBytes (length input - pos))
  | Err (Stop e) => Err e
  | Err OutOfFuel => Err Truncated
  end.

(** ** Well-formed values *)

(** What the Rust types guarantee of a [Value]: integers are [i64]s and
    dictionaries are sorted maps. *)
Inductive value_wf : Value -> Prop :=
| wf_int n : in_i64 n = true -> value_wf (VInt n)
| wf_bytes b : value_wf (VBytes b)
| wf_list items : Forall value_wf items -> value_wf (VList items)
| wf_dict entries :
    btree_wf entries -> Forall (fun kv => value_wf kv.2) entries -> value_wf (VDict entries).

(** How many levels a value nests below itself. *)
Fixpoint vdepth (v : Value) : nat :=
  match v with
  | VInt _ | VBytes _ => 0
  | VList items => fold_right (fun v d => Nat.max (S (vdepth v)) d) 0 items
  | VDict entries => fold_right (fun kv d => Nat.max (S (vdepth kv.2)) d) 0 entries
  end.

(** ** The writers append *)

Lemma write_int_app n out : write_int n out = out ++ write_int n [].
Proof. unfold write_int. by rewrite <- !app_assoc. Qed.

Lemma write_bytes_app b out : write_bytes b out = out ++ write_bytes b [].
Proof. unfold write_bytes, write_len. by rewrite <- !app_assoc. Qed.

(** The bytes one dictionary entry adds. *)
Definition enc_entry {A : Type} (enc : A -> bytes) (kv : bytes * A) : bytes :=
  write_bytes kv.1 [] ++ enc kv.2.

Lemma enc_entry_length {A : Type} (enc : A -> bytes) (kv : bytes * A) :
  length (enc_entry enc kv) = length (write_bytes kv.1 []) + length (enc kv.2).
Proof. apply length_app. Qed.

Lemma write_entries_app {A : Type} (w : A -> bytes -> bytes) (entries : list (bytes * A)) out :
  Forall (fun kv => forall o, w kv.2 o = o ++ w kv.2 []) entries ->
  write_entries w entries out = out ++ concat (map (enc_entry (fun a => w a [])) entries).
Proof.
  intros H. revert out. unfold write_entries.
  induction H as [|kv entries Hkv Hrest IH]; intros out; simpl; [by rewrite app_nil_r|].
  rewrite IH, Hkv, write_bytes_app. unfold enc_entry. by rewrite <- !app_assoc.
Qed.

Lemma write_app v out : write v out = out ++ encode v.
Proof.
  unfold encode. revert out.
  induction v as [n|b|items IH|entries IH] using Value_ind'; intros out.
  - apply write_int_app.
  - apply write_bytes_app.
  - assert (forall o, fold_left (fun out item => write item out) items o
              = o ++ concat (map (fun v => write v []) items)) as Hfold.
    { induction IH as [|v items Hv Hrest IHl]; intros o; simpl; [by rewrite app_nil_r|].
      rewrite IHl, Hv. by rewrite <- app_assoc. }
    simpl. rewrite !Hfold. by rewrite <- !app_assoc.
  - change (write_dict entries out = out ++ write_dict entries []). unfold write_dict.
    rewrite !write_entries_app by done. by rewrite <- !app_assoc.
Qed.

Lemma encode_list items :
  encode (VList items) = "l"%byte :: concat (map encode items) ++ ["e"%byte].
Proof.
  unfold encode at 1. simpl.
  assert (forall o, fold_left (fun out item => write item out) items o
            = o ++ concat (map encode items)) as ->; [|done].
  induction items as [|v items IH]; intros o; simpl; [by rewrite app_nil_r|].
  by rewrite IH, write_app, app_assoc.
Qed.

Lemma write_dict_encode entries out : write_dict entries out = out ++ encode (VDict entries).
Proof. apply (write_app (VDict entries)). Qed.

Lemma encode_dict entries :
  encode (VDict entries) =
  "d"%byte :: concat (map (enc_entry encode) entries) ++ ["e"%byte].
Proof.
  change (write_dict entries [] = "d"%byte :: concat (map (enc_entry encode) entries) ++ ["e"%byte]).
  unfold write_dict. rewrite write_entries_app; [done|].
  apply Forall_true. intros kv o. apply write_app.
Qed.

Lemma encode_int n : encode (VInt n) = "i"%byte :: i_to_string n ++ ["e"%byte].
Proof. done. Qed.

Lemma encode_bytes b :
  encode (VBytes b) = u_to_string (N.of_nat (length b)) ++ ":"%byte :: b.
Proof.
  unfold encode. simpl. unfold write_bytes, write_len. by rewrite <- !app_assoc.
Qed.

(** A dictionary written from borrowed fields is the encoding of the
    dictionary of their values. *)
Definition field_value (f : Field) : Value :=
  match f with FValue v => v | FDict entries => VDict entries end.

Lemma write_fields_encode fields :
  write_fields fields [] = encode (VDict (map (fun kf => (kf.1, field_value kf.2)) fields)).
Proof.
  assert (forall f o, write_field f o = o ++ encode (field_value f)) as Hf.
  { intros [v|m] o; simpl; [apply write_app | apply write_dict_encode]. }
  unfold write_fields. rewrite encode_dict, write_entries_app.
  - rewrite map_map. simpl. do 2 f_equal. apply f_equal, map_ext.
    intros [k f]. unfold enc_entry. simpl. by rewrite Hf.
  - apply Forall_true. intros kf o. by rewrite !Hf.
Qed.

(** ** Decoding an encoding *)

Section Roundtrip.
Variable input : bytes.
Hypothesis input_len : (N.of_nat (length input) <= usize_max)%N.

Lemma peek_drop pos b r : drop pos input = b :: r -> peek input pos = Ok b.
Proof. intros H. unfold peek. by rewrite (lookup_drop_head _ _ _ _ H). Qed.

Lemma drop_le pos l : drop pos input = l -> length l <= length input - pos.
Proof. intros <-. rewrite length_drop. lia. Qed.

Lemma integer_encode n pos rest :
  in_i64 n = true -> drop pos input = encode (VInt n) ++ rest ->
  integer input pos = Ok (VInt n, pos + length (encode (VInt n))).
Proof.
  intros Hn Hin. rewrite encode_int in *. simpl in Hin. rewrite <- app_assoc in Hin.
  apply (drop_app_step input ["i"%byte]) in Hin as Hin'. rewrite Nat.add_comm in Hin'.
  simpl in Hin'. unfold integer. rewrite Hin'. simpl.
  rewrite position_app by (apply i_to_string_no_e || done). simpl.
  rewrite take_app_length. unfold from_utf8. rewrite i_to_string_utf8. simpl.
  rewrite parse_i64_i_to_string by done. rewrite decide_True by done. simpl.
  rewrite length_app. simpl. do 2 f_equal. lia.
Qed.

Lemma byte_string_encode s pos rest :
  drop pos input = write_bytes s [] ++ rest ->
  byte_string input pos = Ok (s, pos + length (write_bytes s [])).
Proof.
  intros Hin. pose proof (drop_le _ _ Hin) as Hle.
  change (write_bytes s []) with (encode (VBytes s)) in *. rewrite encode_bytes in *.
  rewrite !length_app in Hle. simpl in Hle.
  assert (0 < length (u_to_string (N.of_nat (length s)))) as Hdig.
  { destruct (u_to_string_cons (N.of_nat (length s))) as (b & r & -> & _). simpl. lia. }
  rewrite <- app_assoc in Hin. simpl in Hin.
  unfold byte_string. rewrite Hin, position_app by (apply u_to_string_no_colon || done).
  simpl. rewrite take_app_length. unfold from_utf8. rewrite u_to_string_utf8. simpl.
  rewrite parse_u_u_to_string by lia. simpl.
  unfold usize_checked_add. rewrite (proj2 (N.leb_le _ _)) by lia. simpl.
  rewrite (proj2 (N.leb_le _ _)) by lia.
  replace (u_to_string (N.of_nat (length s)) ++ ":"%byte :: s ++ rest)
    with ((u_to_string (N.of_nat (length s)) ++ [":"%byte]) ++ s ++ rest) in Hin
    by by rewrite <- app_assoc.
  apply drop_app_step in Hin. rewrite length_app in Hin. simpl in Hin.
  rewrite Nat.add_assoc in Hin. rewrite Hin, Nat2N.id, take_app_length, length_app. simpl.
  do 2 f_equal. lia.
Qed.

(** What one value's encoding parses to, at any depth that leaves room and
    with two units of fuel per byte. *)
Definition parses (v : Value) : Prop :=
  forall fuel depth pos rest,
    drop pos input = encode v ++ rest ->
    2 * length (encode v) + 1 <= fuel ->
    depth + vdepth v <= MAX_DEPTH ->
    value input fuel depth pos = Ok (v, pos + length (encode v)).

Lemma encode_head v :
  exists b r, encode v = b :: r /\ b <> "e"%byte.
Proof.
  destruct v as [n|s|items|entries].
  - rewrite encode_int. naive_solver.
  - rewrite encode_bytes. destruct (u_to_string_cons (N.of_nat (length s))) as (b & r & -> & Hb).
    simpl. eexists _, _. split; [done|]. by apply digit_ne.
  - rewrite encode_list. naive_solver.
  - rewrite encode_dict. naive_solver.
Qed.

Lemma encode_length_pos v : 0 < length (encode v).
Proof. destruct (encode_head v) as (b & r & -> & _). simpl. lia. Qed.

Lemma list_loop_encode items acc fuel depth pos rest :
  Forall parses items ->
  drop pos input = concat (map encode items) ++ "e"%byte :: rest ->
  2 * length (concat (map encode items)) + 2 <= fuel ->
  Forall (fun v => depth + S (vdepth v) <= MAX_DEPTH) items ->
  list_loop input fuel depth pos acc =
  Ok (VList (acc ++ items), pos + length (concat (map encode items)) + 1).
Proof.
  intros Hitems. revert acc fuel pos.
  induction Hitems as [|v items Hv Hitems IH]; intros acc fuel pos Hin Hfuel Hdepth;
    (destruct fuel as [|fuel]; [lia|]); simpl in *.
  - rewrite (peek_drop _ _ _ Hin). simpl. rewrite app_nil_r. do 2 f_equal. lia.
  - rewrite <- app_assoc in Hin. rewrite length_app in *.
    inversion Hdepth as [|? ? Hd Hds]; subst. pose proof (encode_length_pos v).
    destruct (encode_head v) as (b & r & Hb & Hbe).
    rewrite (peek_drop pos b (r ++ concat (map encode items) ++ "e"%byte :: rest))
      by by rewrite Hin, Hb.
    simpl. rewrite decide_False by done.
    rewrite (Hv fuel (S depth) pos _ Hin) by lia. simpl.
    rewrite IH; [ | by eapply drop_app_step | lia | done].
    rewrite <- app_assoc. do 2 f_equal. lia.
Qed.

Lemma dict_loop_encode entries acc fuel depth pos rest :
  btree_wf (acc ++ entries) ->
  Forall (fun kv => parses kv.2) entries ->
  drop pos input = concat (map (enc_entry encode) entries) ++ "e"%byte :: rest ->
  2 * length (concat (map (enc_entry encode) entries)) + 2 <= fuel ->
  Forall (fun kv : bytes * Value => depth + S (vdepth kv.2) <= MAX_DEPTH) entries ->
  dict_loop input fuel depth pos acc =
  Ok (VDict (acc ++ entries), pos + length (concat (map (enc_entry encode) entries)) + 1).
Proof.
  intros Hwf Hentries. revert acc fuel pos Hwf.
  induction Hentries as [|[k v] entries Hv Hentries IH];
    intros acc fuel pos Hwf Hin Hfuel Hdepth;
    (destruct fuel as [|fuel]; [lia|]); simpl in *.
  - rewrite (peek_drop _ _ _ Hin). simpl. rewrite app_nil_r. do 2 f_equal. lia.
  - unfold enc_entry at 1 in Hin. simpl in Hin. rewrite <- !app_assoc in Hin.
    rewrite !length_app in *. pose proof (enc_entry_length encode (k, v)) as Hlen.
    simpl in Hlen.
    inversion Hdepth as [|? ? Hd Hds]; subst. pose proof (encode_length_pos v).
    assert (exists b r, write_bytes k [] = b :: r /\ is_ascii_digit b = true)
      as (b & r & Hb & Hbd).
    { change (write_bytes k []) with (encode (VBytes k)). rewrite encode_bytes.
      destruct (u_to_string_cons (N.of_nat (length k))) as (b & r & -> & Hb). simpl. eauto. }
    rewrite (peek_drop pos b (r ++ encode v ++ concat (map (enc_entry encode) entries)
              ++ "e"%byte :: rest)) by by rewrite Hin, Hb.
    simpl. rewrite decide_False by by apply digit_ne. rewrite Hbd. simpl.
    rewrite (byte_string_encode k pos _ Hin). simpl.
    apply drop_app_step in Hin.
    rewrite (Hv fuel (S depth) _ _ Hin) by (simpl in *; lia). simpl.
    rewrite btree_insert_last.
    + rewrite IH; [ | by rewrite <- app_assoc | by eapply drop_app_step | lia | done].
      rewrite <- app_assoc. do 2 f_equal. lia.
    + clear -Hwf. induction acc as [|[k' v'] acc IH]; [done|].
      inversion Hwf as [|? ? ? Hlt Hwf']; subst. constructor; [|by apply IH].
      rewrite Forall_app in Hlt. destruct Hlt as [_ Hlt]. by inversion Hlt.
Qed.

Lemma value_digit fuel depth pos b :
  peek input pos = Ok b -> is_ascii_digit b = true -> depth <= MAX_DEPTH ->
  value input (S fuel) depth pos =
  (let? '(s, pos) := rmap_err Stop (byte_string input pos) in Ok (VBytes s, pos)).
Proof.
  intros Hpeek Hb Hdepth. simpl. rewrite decide_False by lia. rewrite Hpeek. simpl.
  by destruct b.
Qed.

Lemma parses_wf v : value_wf v -> parses v.
Proof.
  induction v as [n|s|items IH|entries IH] using Value_ind';
    intros Hwf fuel depth pos rest Hin Hfuel Hdepth;
    (destruct fuel as [|fuel]; [lia|]).
  - inversion Hwf; subst. simpl. rewrite decide_False by lia.
    erewrite peek_drop by exact Hin. simpl.
    by erewrite integer_encode by eauto.
  - assert (exists b r, encode (VBytes s) ++ rest = b :: r /\ is_ascii_digit b = true)
      as (b & r & Hb & Hbd).
    { rewrite encode_bytes. destruct (u_to_string_cons (N.of_nat (length s))) as (b & r & -> & Hb).
      simpl. eauto. }
    rewrite (value_digit fuel depth pos b);
      [ | eapply peek_drop; by rewrite Hin | done | lia].
    by rewrite (byte_string_encode s pos rest).
  - inversion Hwf as [| |? Hitems|]; subst. rewrite encode_list in *.
    simpl in Hin, Hfuel, Hdepth. rewrite length_app in Hfuel. simpl in Hfuel.
    rewrite <- app_assoc in Hin. simpl. rewrite decide_False by lia.
    rewrite (peek_drop _ _ _ Hin). simpl.
    apply (drop_app_step input ["l"%byte]) in Hin. rewrite Nat.add_1_r in Hin. simpl in Hin.
    rewrite (list_loop_encode items [] fuel depth (S pos) rest); try done.
    + simpl. rewrite length_app. simpl. do 2 f_equal. lia.
    + clear -IH Hitems. induction IH; inversion Hitems; subst; auto.
    + lia.
    + clear -Hdepth. induction items as [|v items IH]; simpl in *; constructor; [lia|].
      apply IH. lia.
  - inversion Hwf as [| | |? Hsorted Hentries]; subst. rewrite encode_dict in *.
    simpl in Hin, Hfuel, Hdepth. rewrite length_app in Hfuel. simpl in Hfuel.
    rewrite <- app_assoc in Hin. simpl. rewrite decide_False by lia.
    rewrite (peek_drop _ _ _ Hin). simpl.
    apply (drop_app_step input ["d"%byte]) in Hin. rewrite Nat.add_1_r in Hin. simpl in Hin.
    rewrite (dict_loop_encode entries [] fuel depth (S pos) rest); try done.
    + simpl. rewrite length_app. simpl. do 2 f_equal. lia.
    + clear -IH Hentries. induction IH; inversion Hentries; subst; auto.
    + lia.
    + clear -Hdepth. induction entries as [|kv entries IH]; simpl in *; constructor; [lia|].
      apply IH. lia.
Qed.

End Roundtrip.

Lemma decode_encode_wf v :
  value_wf v -> vdepth v <= MAX_DEPTH -> (N.of_nat (length (encode v)) <= usize_max)%N ->
  decode (encode v) = Ok v.
Proof.
  intros Hwf Hdepth Hlen. unfold decode, decode_fuel.
  rewrite (parses_wf (encode v) Hlen v Hwf _ 0 0 []); [ | by rewrite app_nil_r | lia | done].
  by rewrite decide_True.
Qed.

(** ** The parser makes progress, and its fuel suffices *)

Section Progress.
Variable input : bytes.

Lemma peek_lt pos b : peek input pos = Ok b -> pos < length input.
Proof. unfold peek. intros H%ok_or_Ok. by eapply lookup_lt_Some. Qed.

Lemma integer_progress pos v pos' :
  integer input pos = Ok (v, pos') -> pos < pos' <= length input.
Proof.
  unfold integer. intros H. invert_results.
  match goal with E : position _ _ = Some _ |- _ => apply position_lt in E end.
  rewrite length_drop in *. lia.
Qed.

Lemma byte_string_progress pos s pos' :
  byte_string input pos = Ok (s, pos') -> pos < pos' <= length input.
Proof.
  unfold byte_string, usize_checked_add. intros H. invert_results. split_match_in H.
  invert_results. repeat case_match; simplify_eq. rewrite N.leb_le in *. lia.
Qed.

(** How each step of the parser can succeed. *)
Lemma value_inv fuel depth pos v pos' :
  value input (S fuel) depth pos = Ok (v, pos') ->
  depth <= MAX_DEPTH /\
  (integer input pos = Ok (v, pos') \/
   (exists s, byte_string input pos = Ok (s, pos') /\ v = VBytes s) \/
   (pos < length input /\ list_loop input fuel depth (S pos) [] = Ok (v, pos')) \/
   (pos < length input /\ dict_loop input fuel depth (S pos) [] = Ok (v, pos'))).
Proof.
  intros H. simpl in H. case_decide as Hd; [done|].
  apply rbind_Ok in H as (b & Hp%rmap_err_Ok%peek_lt & H). split; [lia|].
  assert ((let? '(s, pos) := rmap_err Stop (byte_string input pos) in
             Ok (VBytes s, pos)) = Ok (v, pos') ->
          exists s, byte_string input pos = Ok (s, pos') /\ v = VBytes s) as Hstr.
  { intros ([s p] & Hs%rmap_err_Ok & [= <- <-])%rbind_Ok. eauto. }
  destruct (is_ascii_digit b) eqn:Hb; destruct b; try done; auto.
  all: apply rmap_err_Ok in H; auto.
Qed.

Lemma list_loop_inv fuel depth pos items v pos' :
  list_loop input (S fuel) depth pos items = Ok (v, pos') ->
  pos < length input /\
  ((v = VList items /\ pos' = S pos) \/
   exists item p, value input fuel (S depth) pos = Ok (item, p) /\
     list_loop input fuel depth p (items ++ [item]) = Ok (v, pos')).
Proof.
  intros H. simpl in H. apply rbind_Ok in H as (b & Hp%rmap_err_Ok%peek_lt & H).
  split; [done|]. case_decide; [left; naive_solver|].
  apply rbind_Ok in H as ([item p] & Hv & H). right. eauto.
Qed.

Lemma dict_loop_inv fuel depth pos entries v pos' :
  dict_loop input (S fuel) depth pos entries = Ok (v, pos') ->
  pos < length input /\
  ((v = VDict entries /\ pos' = S pos) \/
   exists key p x q, byte_string input pos = Ok (key, p) /\
     value input fuel (S depth) p = Ok (x, q) /\
     dict_loop input fuel depth q (btree_insert key x entries) = Ok (v, pos')).
Proof.
  intros H. simpl in H. apply rbind_Ok in H as (b & Hp%rmap_err_Ok%peek_lt & H).
  split; [done|]. case_decide; [left; naive_solver|].
  destruct (negb (is_ascii_digit b)); [done|].
  apply rbind_Ok in H as ([key p] & Hk%rmap_err_Ok & H).
  apply rbind_Ok in H as ([x q] & Hv & H). right. eauto 8.
Qed.

Lemma parser_progress fuel :
  (forall depth pos v pos',
     value input fuel depth pos = Ok (v, pos') -> pos < pos' <= length input) /\
  (forall depth pos items v pos',
     list_loop input fuel depth pos items = Ok (v, pos') -> pos < pos' <= length input) /\
  (forall depth pos entries v pos',
     dict_loop input fuel depth pos entries = Ok (v, pos') -> pos < pos' <= length input).
Proof.
  induction fuel as [|fuel (IHv & IHl & IHd)]; [done|].
  split_and!; intros depth pos.
  - intros v pos' (_ & [H|[(s & H & _)|[[? H]|[? H]]]])%value_inv.
    + by eapply integer_progress.
    + by eapply byte_string_progress.
    + apply IHl in H. lia.
    + apply IHd in H. lia.
  - intros items v pos' (? & [[_ ->]|(item & p & Hv & H)])%list_loop_inv; [lia|].
    apply IHv in Hv. apply IHl in H. lia.
  - intros entries v pos' (? & [[_ ->]|(k & p & x & q & Hk & Hv & H)])%dict_loop_inv; [lia|].
    apply byte_string_progress in Hk. apply IHv in Hv. apply IHd in H. lia.
Qed.

Lemma value_progress fuel depth pos v pos' :
  value input fuel depth pos = Ok (v, pos') -> pos < pos' <= length input.
Proof. apply parser_progress. Qed.

(** The three functions never run dry on enough fuel: a value needs two units
    per remaining byte and one, a loop one more. *)
Lemma parser_fuel fuel :
  (forall depth pos, 2 * (length input - pos) + 1 <= fuel ->
     value input fuel depth pos <> Err OutOfFuel) /\
  (forall depth pos items, 2 * (length input - pos) + 2 <= fuel ->
     list_loop input fuel depth pos items <> Err OutOfFuel) /\
  (forall depth pos entries, 2 * (length input - pos) + 2 <= fuel ->
     dict_loop input fuel depth pos entries <> Err OutOfFuel).
Proof.
  induction fuel as [|fuel (IHv & IHl & IHd)]; [split_and!; intros; lia|].
  split_and!.
  - intros depth pos Hf. simpl. case_decide; [done|].
    destruct (peek input pos) as [b|] eqn:Hp; simpl; [|done]. apply peek_lt in Hp.
    assert (list_loop input fuel depth (S pos) [] <> Err OutOfFuel) by (apply IHl; lia).
    assert (dict_loop input fuel depth (S pos) [] <> Err OutOfFuel) by (apply IHd; lia).
    assert ((let? '(s, pos) := rmap_err Stop (byte_string input pos) in
               Ok (VBytes s, pos)) <> Err OutOfFuel)
      by by destruct (byte_string input pos) as [[]|].
    assert (rmap_err Stop (integer input pos) <> Err OutOfFuel) by by destruct (integer input pos).
    destruct (is_ascii_digit b) eqn:Hb; destruct b; done.
  - intros depth pos items Hf. simpl.
    destruct (peek input pos) as [b|] eqn:Hp; simpl; [|done]. apply peek_lt in Hp.
    case_decide; [done|].
    destruct (value input fuel (S depth) pos) as [[item p]|e] eqn:Hv; simpl.
    + apply value_progress in Hv. apply IHl. lia.
    + intros [= ->]. revert Hv. apply IHv. lia.
  - intros depth pos entries Hf. simpl.
    destruct (peek input pos) as [b|] eqn:Hp; simpl; [|done]. apply peek_lt in Hp.
    case_decide; [done|]. destruct (negb (is_ascii_digit b)); [done|].
    destruct (byte_string input pos) as [[k p]|] eqn:Hk; simpl; [|done].
    apply byte_string_progress in Hk.
    destruct (value input fuel (S depth) p) as [[x q]|e] eqn:Hv; simpl.
    + apply value_progress in Hv. apply IHd. lia.
    + intros [= ->]. revert Hv. apply IHv. lia.
Qed.

Lemma value_fuel_enough : value input (decode_fuel input) 0 0 <> Err OutOfFuel.
Proof. apply (parser_fuel (decode_fuel input)). unfold decode_fuel. lia. Qed.

End Progress.

(** ** What the parser produces *)

(** The bytes one map entry contributes to an encoding, summed. *)
Definition entries_size (entries : list (bytes * Value)) : nat :=
  length (concat (map (enc_entry encode) entries)).

Lemma entries_size_insert k v entries :
  entries_size (btree_insert k v entries) <= entries_size entries + length (enc_entry encode (k, v)).
Proof.
  unfold entries_size. induction entries as [|[k' v'] entries IH]; simpl;
    [rewrite length_app; simpl; lia|].
  destruct (bytes_compare k k'); simpl; rewrite !length_app in *; lia.
Qed.

Lemma list_depth_app items v :
  vdepth (VList (items ++ [v])) = Nat.max (vdepth (VList items)) (S (vdepth v)).
Proof.
  simpl. induction items as [|x items IH]; simpl; [lia|]. rewrite IH. lia.
Qed.

Lemma dict_depth_insert k v entries :
  vdepth (VDict (btree_insert k v entries)) <= Nat.max (vdepth (VDict entries)) (S (vdepth v)).
Proof.
  simpl. induction entries as [|[k' v'] entries IH]; simpl; [lia|].
  destruct (bytes_compare k k'); simpl; lia.
Qed.

Section Soundness.
Variable input : bytes.

Lemma integer_sound pos v pos' :
  integer input pos = Ok (v, pos') ->
  value_wf v /\ vdepth v = 0 /\ length (encode v) <= pos' - pos.
Proof.
  unfold integer. intros H. invert_results. repeat case_match; simplify_eq. split_and!.
  - constructor. by eapply parse_i64_range.
  - done.
  - rewrite from_utf8_Some in *. destruct_and!.
    match goal with E : i_to_string _ = _ |- _ => rewrite length_app, E end.
    subst. rewrite length_take, length_drop. simpl. lia.
Qed.

Lemma byte_string_sound pos s pos' :
  byte_string input pos = Ok (s, pos') -> length (write_bytes s []) <= pos' - pos.
Proof.
  unfold byte_string, usize_checked_add. intros H. invert_results.
  repeat case_match; simplify_eq; invert_results.
  match goal with E : _ ≫= _ = Some ?n |- _ => rename n into len; rename E into Elen end.
  apply bind_Some in Elen as (text & [-> _]%from_utf8_Some & Hlen%parse_u_length).
  rewrite N.leb_le in *. change (write_bytes ?s []) with (encode (VBytes s)).
  rewrite encode_bytes, length_app. simpl.
  rewrite length_take, length_drop in *.
  rewrite Nat.min_l by lia. rewrite N2Nat.id. lia.
Qed.

Lemma parser_sound fuel :
  (forall depth pos v pos', value input fuel depth pos = Ok (v, pos') ->
     value_wf v /\ depth + vdepth v <= MAX_DEPTH /\ length (encode v) <= pos' - pos) /\
  (forall depth pos items v pos', list_loop input fuel depth pos items = Ok (v, pos') ->
     value_wf (VList items) -> depth + vdepth (VList items) <= MAX_DEPTH ->
     value_wf v /\ depth + vdepth v <= MAX_DEPTH /\
     length (encode v) <= length (encode (VList items)) - 1 + (pos' - pos)) /\
  (forall depth pos entries v pos', dict_loop input fuel depth pos entries = Ok (v, pos') ->
     value_wf (VDict entries) -> depth + vdepth (VDict entries) <= MAX_DEPTH ->
     value_wf v /\ depth + vdepth v <= MAX_DEPTH /\
     length (encode v) <= length (encode (VDict entries)) - 1 + (pos' - pos)).
Proof.
  induction fuel as [|fuel (IHv & IHl & IHd)]; [done|].
  split_and!; intros depth pos.
  - intros v pos' (Hdepth & [H|[(s & H & ->)|[[Hp H]|[Hp H]]]])%value_inv.
    + apply integer_sound in H as (? & ? & ?). split_and!; [done|lia|done].
    + apply byte_string_sound in H. split_and!; [constructor|simpl; lia|done].
    + pose proof (proj1 (proj2 (parser_progress input fuel)) _ _ _ _ _ H).
      apply IHl in H as (? & ? & Hlen); [ |by repeat constructor|simpl; lia].
      change (length (encode (VList []))) with 2 in Hlen. split_and!; [done|done|lia].
    + pose proof (proj2 (proj2 (parser_progress input fuel)) _ _ _ _ _ H).
      apply IHd in H as (? & ? & Hlen); [ |by repeat constructor|simpl; lia].
      change (length (encode (VDict []))) with 2 in Hlen. split_and!; [done|done|lia].
  - intros items v pos' (? & [[-> ->]|(x & p & Hv & H)])%list_loop_inv Hwf Hd.
    { split_and!; [done|done|lia]. }
    pose proof (value_progress _ _ _ _ _ _ Hv).
    pose proof (proj1 (proj2 (parser_progress input fuel)) _ _ _ _ _ H).
    apply IHv in Hv as (Hxwf & Hxd & Hxl). inversion Hwf; subst.
    apply IHl in H as (? & ? & Hlen).
    + split_and!; [done|done|]. revert Hlen. rewrite !encode_list, map_app, concat_app. simpl.
      rewrite !length_app. simpl. lia.
    + constructor. apply Forall_app. auto.
    + rewrite list_depth_app. lia.
  - intros entries v pos' (? & [[-> ->]|(k & p & x & q & Hk & Hv & H)])%dict_loop_inv Hwf Hd.
    { split_and!; [done|done|lia]. }
    pose proof (value_progress _ _ _ _ _ _ Hv). pose proof (byte_string_progress _ _ _ _ Hk).
    pose proof (proj2 (proj2 (parser_progress input fuel)) _ _ _ _ _ H).
    apply byte_string_sound in Hk.
    apply IHv in Hv as (Hxwf & Hxd & Hxl). inversion Hwf; subst.
    apply IHd in H as (? & ? & Hlen).
    + split_and!; [done|done|]. pose proof (entries_size_insert k x entries) as Hs.
      rewrite enc_entry_length in Hs. unfold entries_size in Hs.
      revert Hlen Hs. rewrite !encode_dict. simpl. rewrite !length_app. simpl. lia.
    + constructor; auto with sharerr.
    + pose proof (dict_depth_insert k x entries). lia.
Qed.

End Soundness.

Lemma decode_sound input v :
  decode input = Ok v ->
  value_wf v /\ vdepth v <= MAX_DEPTH /\ length (encode v) <= length input.
Proof.
  unfold decode. intros H.
  destruct (value input (decode_fuel input) 0 0) as [[v' pos]|[|]] eqn:E; try done.
  case_decide; [|done]. injection H as ->. apply parser_sound in E as (? & ? & ?).
  split_and!; [done|done|lia].
Qed.

(** More fuel never changes an answer. *)
Lemma parser_fuel_mono input fuel :
  (forall depth pos, value input fuel depth pos <> Err OutOfFuel ->
     value input (S fuel) depth pos = value input fuel depth pos) /\
  (forall depth pos items, list_loop input fuel depth pos items <> Err OutOfFuel ->
     list_loop input (S fuel) depth pos items = list_loop input fuel depth pos items) /\
  (forall depth pos entries, dict_loop input fuel depth pos entries <> Err OutOfFuel ->
     dict_loop input (S fuel) depth pos entries = dict_loop input fuel depth pos entries).
Proof.
  induction fuel as [|fuel (IHv & IHl & IHd)]; [done|].
  split_and!.
  - intros depth pos. cbn [value]. case_decide; [done|].
    destruct (peek input pos) as [b|] eqn:Hp; cbn [rmap_err rbind]; [|done].
    specialize (IHl depth (S pos) []). specialize (IHd depth (S pos) []).
    destruct b; auto.
  - intros depth pos items. cbn [list_loop].
    destruct (peek input pos) as [b|] eqn:Hp; cbn [rmap_err rbind]; [|done].
    case_decide; [done|].
    specialize (IHv (S depth) pos).
    destruct (value input fuel (S depth) pos) as [[x p]|[|e]]; cbn [rbind];
      [rewrite IHv by done; cbn [rbind]; apply IHl|done|rewrite IHv by done; done].
  - intros depth pos entries. cbn [dict_loop].
    destruct (peek input pos) as [b|] eqn:Hp; cbn [rmap_err rbind]; [|done].
    case_decide; [done|]. destruct (negb (is_ascii_digit b)); [done|].
    destruct (byte_string input pos) as [[k p]|]; cbn [rmap_err rbind]; [|done].
    specialize (IHv (S depth) p).
    destruct (value input fuel (S depth) p) as [[x q]|[|e]]; cbn [rbind];
      [rewrite IHv by done; cbn [rbind]; apply IHd|done|rewrite IHv by done; done].
Qed.

Lemma value_fuel_stable input fuel :
  decode_fuel input <= fuel -> value input fuel 0 0 = value input (decode_fuel input) 0 0.
Proof.
  induction 1 as [|fuel Hle IH]; [done|].
  rewrite <- IH. apply parser_fuel_mono. rewrite IH. apply value_fuel_enough.
Qed.


(** A list whose only content is further lists, [n] deep and left open. *)
Lemma value_nested input n fuel depth pos :
  drop pos input = replicate n "l"%byte -> depth <= MAX_DEPTH -> S MAX_DEPTH < depth + n ->
  2 * n + 1 <= fuel ->
  value input fuel depth pos = Err (Stop (TooDeep MAX_DEPTH)).
Proof.
  revert fuel depth pos. induction n as [|n IH]; intros fuel depth pos Hin Hd Hn Hf; [lia|].
  destruct n as [|n]; [lia|].
  destruct fuel as [|[|fuel]]; [lia|lia|]. simpl in Hin.
  pose proof (drop_app_step input ["l"%byte] _ pos Hin) as Hin'. rewrite Nat.add_1_r in Hin'.
  cbn [value]. rewrite decide_False by lia.
  rewrite (peek_drop _ _ _ _ Hin). cbn [rmap_err rbind list_loop].
  rewrite (peek_drop _ _ _ _ Hin'). cbn [rmap_err rbind]. rewrite decide_False by done.
  destruct (decide (depth = MAX_DEPTH)) as [->|Hne].
  - destruct fuel as [|fuel]; [lia|]. cbn [value]. by rewrite decide_True by lia.
  - rewrite (IH fuel (S depth) (S pos)); try done; simpl; lia.
Qed.

(** ** Properties *)

(** C11: round trip.  Every value the Rust types allow (integers in [i64],
    dictionaries sorted), nested at most [MAX_DEPTH] levels and whose encoding
    fits the address space, decodes from its canonical encoding to itself. *)
Theorem bencode_roundtrip v :
  value_wf v -> vdepth v <= MAX_DEPTH -> (N.of_nat (length (encode v)) <= usize_max)%N ->
  decode (encode v) = Ok v.
Proof. apply decode_encode_wf. Qed.

Definition sample_value : Value :=
  VDict [(bs "info", VDict [(bs "length", VInt 1234); (bs "name", vstring (bs "x.mkv"))]);
         (bs "tiers", VList [VList [vstring (bs "http://a")]; VInt (-7)])].

Lemma bencode_roundtrip_witness : decode (encode sample_value) = Ok sample_value.
Proof.
  apply bencode_roundtrip.
  - repeat first [ apply btree_sorted_wf; reflexivity | constructor ].
  - vm_compute. lia.
  - vm_compute. discriminate.
Defined.

(** Canonical form.  Whatever [decode] accepts, however it was spelled (key
    order, duplicate keys, zero-padded lengths), re-encodes to bytes that are
    no longer than the input and decode to the same value again. *)
Theorem decode_canonical input v :
  decode input = Ok v -> (N.of_nat (length input) <= usize_max)%N ->
  length (encode v) <= length input /\ decode (encode v) = Ok v.
Proof.
  intros (Hwf & Hdepth & Hlen)%decode_sound Hin. split; [done|].
  apply decode_encode_wf; [done|done|lia].
Qed.

Lemma decode_canonical_witness :
  length (encode (VDict [(bs "a", VInt 1); (bs "b", VInt 2)])) <= 15 /\
  decode (encode (VDict [(bs "a", VInt 1); (bs "b", VInt 2)])) =
    Ok (VDict [(bs "a", VInt 1); (bs "b", VInt 2)]).
Proof.
  apply (decode_canonical (bs "d1:bi2e01:ai1ee")); vm_compute; [reflexivity|discriminate].
Defined.

(** C40: termination.  The parser's recursion and loops finish on every input:
    two units of fuel per byte and one always yield an answer, and any larger
    amount yields the same one. *)
Theorem decode_terminates input fuel :
  decode_fuel input <= fuel ->
  value input fuel 0 0 <> Err OutOfFuel /\
  value input fuel 0 0 = value input (decode_fuel input) 0 0.
Proof.
  intros H. rewrite (value_fuel_stable input fuel H). split; [apply value_fuel_enough|done].
Qed.

Lemma decode_terminates_witness :
  value (bs "li1ee") 40 0 0 <> Err OutOfFuel /\
  value (bs "li1ee") 40 0 0 = value (bs "li1ee") (decode_fuel (bs "li1ee")) 0 0.
Proof. apply (decode_terminates (bs "li1ee") 40). vm_compute. lia. Defined.

(** Bounded nesting.  Input that only opens lists is refused with
    [TooDeep], however long it is: the parser never descends past
    [MAX_DEPTH]. *)
Theorem deep_nesting_refused n :
  S MAX_DEPTH < n -> decode (replicate n "l"%byte) = Err (TooDeep MAX_DEPTH).
Proof.
  intros Hn. unfold decode, decode_fuel. rewrite length_replicate.
  rewrite (value_nested _ n) by (done || lia). done.
Qed.

Lemma deep_nesting_refused_witness :
  decode (replicate 34 "l"%byte) = Err (TooDeep MAX_DEPTH).
Proof. apply (deep_nesting_refused 34). vm_compute. lia. Defined.

(** A zero-padded string length is accepted, so two byte strings decode to
    one value, although the module says it is strict about everything but key
    order that could be ambiguous. *)
Theorem padded_length_accepted :
  decode (bs "01:a") = decode (bs "1:a") /\ decode (bs "01:a") = Ok (vstring (bs "a")) /\
  decode (bs "i03e") = Err (MalformedInteger 0).
Proof. vm_compute. done. Qed.
