(* ===== verification/Metainfo.v ===== *)
(** * The .torrent file (crates/sharerr-torrent/src/metainfo.rs)

    Reading a .torrent into its announce fields, its info dictionary and the
    rest, and writing it back.  The digests and the hex printer are third-party
    crates: the class [Digests] is what the definitions take of them. *)

From S2P Require Import Prelude RustStd BTreeMap Bencode.

(** ** Third-party digests *)

(** [sha1::Sha1::digest], [sha2::Sha256::digest] and [hex::encode]. *)
Class Digests : Type := {
  sha1 : bytes -> bytes;
  sha256 : bytes -> bytes;
  hex_encode : bytes -> bytes
}.

(** The documented output sizes. *)
Class DigestLaws (D : Digests) : Prop := {
  sha1_length : forall m, length (sha1 m) = 20;
  sha256_length : forall m, length (sha256 m) = 32
}.

(** ** Data *)

Record Torrent : Type := mkTorrent {
  t_announce : option bytes;
  t_announce_list : option (list (list bytes));
  t_info : list (bytes * Value);
  t_extra : list (bytes * Value)
}.

Inductive MetainfoError : Type :=
| MBencode (e : BencodeError)
| NotADictionary
| MissingInfo
| AnnounceNotAString
| AnnounceListMalformed.

(** ** Reading *)

Definition parse_announce_list (v : Value) : result (list (list bytes)) MetainfoError :=
  let? tiers := ok_or (as_list v) AnnounceListMalformed in
  collect_results
    (fun tier =>
       let? urls := ok_or (as_list tier) AnnounceListMalformed in
       collect_results (fun url => ok_or (as_str url) AnnounceListMalformed) urls)
    tiers.

Definition read_from_bytes (data : bytes) : result Torrent MetainfoError :=
  let? v := rmap_err MBencode (decode data) in
  match v with
  | VDict top =>
      let '(info, top) := btree_remove (bs "info") top in
      match info with
      | Some (VDict info) =>
          let '(announce, top) := btree_remove (bs "announce") top in
          let? announce :=
            match announce with
            | None => Ok None
            | Some value => let? s := ok_or (as_str value) AnnounceNotAString in Ok (Some s)
            end in
          let '(announce_list, top) := btree_remove (bs "announce-list") top in
          let? announce_list :=
            match announce_list with
            | None => Ok None
            | Some value => let? l := parse_announce_list value in Ok (Some l)
            end in
          Ok (mkTorrent announce announce_list info top)
      | _ => Err MissingInfo
      end
  | _ => Err NotADictionary
  end.

(** ** Writing *)

Definition announce_list_value (tiers : list (list bytes)) : Value :=
  VList (map (fun tier => VList (map vstring tier)) tiers).

(** The top-level dictionary [encode] assembles. *)
Definition top_fields (t : Torrent) : list (bytes * Field) :=
  let top := btree_collect (map (fun kv => (kv.1, FValue kv.2)) (t_extra t)) in
  let top :=
    match t_announce t with
    | Some announce => btree_insert (bs "announce") (FValue (vstring announce)) top
    | None => top
    end in
  let top :=
    match t_announce_list t with
    | Some tiers => btree_insert (bs "announce-list") (FValue (announce_list_value tiers)) top
    | None => top
    end in
  btree_insert (bs "info") (FDict (t_info t)) top.

Definition torrent_encode (t : Torrent) : bytes := write_fields (top_fields t) [].

(** ** Hashes and fields *)

Section Hashes.
Context `{D : Digests}.

Definition info_hash (t : Torrent) : bytes := hex_encode (sha1 (write_dict (t_info t) [])).

Definition info_field (t : Torrent) (key : string) : option Value :=
  btree_get (bs key) (t_info t).

Definition info_hash_v2 (t : Torrent) : option bytes :=
  if decide ((info_field t "meta version" ≫= as_int) = Some 2%Z)
  then Some (hex_encode (take 20 (sha256 (write_dict (t_info t) []))))
  else None.

End Hashes.

Definition name (t : Torrent) : option bytes := info_field t "name" ≫= as_str.

(** The loop of [length]: [try_fold] over each file's length. *)
Fixpoint sum_lengths (sum : Z) (files : list Value) : option Z :=
  match files with
  | [] => Some sum
  | file :: files' =>
      entry ← as_dict file;
      length ← btree_get (bs "length") entry;
      length ← as_int length;
      sum' ← i64_checked_add sum length;
      sum_lengths sum' files'
  end.

Definition torrent_length (t : Torrent) : option Z :=
  match info_field t "length" ≫= as_int with
  | Some n => Some n
  | None => files ← info_field t "files"; files ← as_list files; sum_lengths 0 files
  end.

Definition content_length (t : Torrent) : N :=
  default 0%N (torrent_length t ≫= u64_try_from_i64).

Definition is_single_file (t : Torrent) : bool :=
  match info_field t "files" with None => true | Some _ => false end.

Definition file_path (file : Value) : option bytes :=
  entry ← as_dict file;
  parts ← btree_get (bs "path") entry;
  parts ← as_list parts;
  parts ← mapM as_str parts;
  Some (join (bs "/") parts).

Definition file_paths (t : Torrent) : list bytes :=
  match info_field t "files" ≫= as_list with
  | None => []
  | Some files => omap file_path files
  end.

Definition piece_length (t : Torrent) : option N :=
  length ← info_field t "piece length" ≫= as_int;
  n ← u64_try_from_i64 length;
  if (0 <? n)%N then Some n else None.

Definition pieces (t : Torrent) : option bytes := info_field t "pieces" ≫= as_bytes.

Definition announce_tiers (t : Torrent) : list (list bytes) :=
  match t_announce_list t, t_announce t with
  | Some (tier :: tiers), _ => tier :: tiers
  | _, Some announce => [[announce]]
  | _, None => []
  end.

Definition is_private (t : Torrent) : bool :=
  bool_decide ((info_field t "private" ≫= as_int) = Some 1%Z).

(** ** Well-formed torrents *)

(** The keys [Torrent] keeps out of [extra]. *)
Definition reserved_keys : list bytes := [bs "info"; bs "announce"; bs "announce-list"].

(** What [read_from_bytes] guarantees of a torrent it returns, and what the
    Rust types guarantee of any other: sorted maps of well-formed values,
    text in the announce fields, and no reserved key in [extra]. *)
Record torrent_wf (t : Torrent) : Prop := {
  twf_info : value_wf (VDict (t_info t));
  twf_extra : value_wf (VDict (t_extra t));
  twf_reserved : Forall (fun k => btree_get k (t_extra t) = None) reserved_keys;
  twf_announce : forall s, t_announce t = Some s -> utf8_valid s = true;
  twf_tiers : forall tiers, t_announce_list t = Some tiers ->
    Forall (Forall (fun url => utf8_valid url = true)) tiers
}.

(** The top-level dictionary as a value. *)
Definition top_values (t : Torrent) : list (bytes * Value) :=
  btree_map field_value (top_fields t).

Definition insert_opt (k : bytes) (v : option Value) (m : list (bytes * Value)) :=
  match v with Some v => btree_insert k v m | None => m end.

Lemma torrent_encode_value t : torrent_encode t = encode (VDict (top_values t)).
Proof. apply write_fields_encode. Qed.

Lemma top_values_eq t :
  btree_wf (t_extra t) ->
  top_values t =
  btree_insert (bs "info") (VDict (t_info t))
    (insert_opt (bs "announce-list") (announce_list_value <$> t_announce_list t)
      (insert_opt (bs "announce") (vstring <$> t_announce t) (t_extra t))).
Proof.
  intros Hx. unfold top_values, top_fields.
  rewrite btree_map_insert. f_equal.
  assert (btree_map field_value
            (btree_collect (map (fun kv => (kv.1, FValue kv.2)) (t_extra t))) = t_extra t)
    as Hbase.
  { rewrite btree_collect_sorted by by apply (btree_map_wf FValue).
    unfold btree_map. rewrite map_map. simpl.
    rewrite <- (map_id (t_extra t)) at 2. apply map_ext. by intros []. }
  destruct (t_announce t), (t_announce_list t); simpl; rewrite ?btree_map_insert, Hbase; done.
Qed.

Lemma insert_opt_wf k v m :
  value_wf (VDict m) -> (forall x, v = Some x -> value_wf x) -> value_wf (VDict (insert_opt k v m)).
Proof.
  intros Hm Hv. destruct v as [v|]; simpl; [|done].
  inversion Hm; subst. constructor; auto with sharerr.
Qed.

Lemma announce_list_value_wf tiers : value_wf (announce_list_value tiers).
Proof.
  constructor. apply Forall_map, Forall_true. intros tier. simpl.
  constructor. apply Forall_map, Forall_true. intros url. constructor.
Qed.

Lemma top_values_wf t :
  value_wf (VDict (t_info t)) -> value_wf (VDict (t_extra t)) -> value_wf (VDict (top_values t)).
Proof.
  intros Hi Hx. inversion Hx; subst. rewrite top_values_eq by done.
  apply (insert_opt_wf _ (Some (VDict (t_info t)))); [|naive_solver].
  apply insert_opt_wf; [apply insert_opt_wf; [done|]|].
  - intros x. destruct (t_announce t); simpl; intros [= <-]. constructor.
  - intros x. destruct (t_announce_list t); simpl; intros [= <-]. apply announce_list_value_wf.
Qed.

Lemma parse_announce_list_value tiers :
  Forall (Forall (fun url => utf8_valid url = true)) tiers ->
  parse_announce_list (announce_list_value tiers) = Ok tiers.
Proof.
  intros H. unfold parse_announce_list, announce_list_value. simpl.
  apply collect_results_Ok. induction H as [|tier tiers Ht Hts IH]; simpl; constructor; [|done].
  simpl. apply collect_results_Ok. clear -Ht.
  induction Ht as [|url tier Hu Ht IH]; simpl; constructor; [|done].
  unfold as_str, from_utf8. simpl. by rewrite Hu.
Qed.

Lemma get_insert_opt_eq k v m : btree_get k m = None -> btree_get k (insert_opt k v m) = v.
Proof. intros H. destruct v; simpl; [by rewrite btree_get_insert_eq | done]. Qed.

Lemma get_insert_opt_ne k v k' m :
  k' <> k -> btree_get k' (insert_opt k v m) = btree_get k' m.
Proof. intros H. destruct v; simpl; [by rewrite btree_get_insert_ne | done]. Qed.

Lemma delete_insert_opt_eq k v m :
  btree_wf m -> btree_get k m = None -> btree_delete k (insert_opt k v m) = m.
Proof.
  intros Hm H. destruct v; simpl; [by rewrite btree_delete_insert_id | by apply btree_delete_id].
Qed.

Lemma delete_insert_opt_ne k v k' m :
  btree_wf m -> k <> k' ->
  btree_delete k' (insert_opt k v m) = insert_opt k v (btree_delete k' m).
Proof. intros Hm H. destruct v; simpl; [by rewrite btree_delete_insert_ne | done]. Qed.

Lemma insert_opt_btree_wf k v m : btree_wf m -> btree_wf (insert_opt k v m).
Proof. destruct v; simpl; auto with sharerr. Qed.

(** Reading the top-level dictionary of a well-formed torrent gives it back. *)
Lemma read_top_values data t :
  torrent_wf t -> decode data = Ok (VDict (top_values t)) -> read_from_bytes data = Ok t.
Proof.
  intros [Hi Hx Hres Ha Hl] Hdec. inversion Hx as [| | |? Hxs _]; subst.
  inversion Hres as [|? ? Rinfo Hres1]; subst. inversion Hres1 as [|? ? Rann Hres2]; subst.
  inversion Hres2 as [|? ? Rlist _]; subst. clear Hres Hres1 Hres2.
  unfold read_from_bytes. rewrite Hdec, top_values_eq by done. cbn [rmap_err rbind].
  unfold btree_remove. rewrite btree_get_insert_eq.
  assert (bs "info" <> bs "announce") by solve_key.
  assert (bs "info" <> bs "announce-list") by solve_key.
  assert (bs "announce" <> bs "announce-list") by solve_key.
  rewrite btree_delete_insert_id; auto using insert_opt_btree_wf.
  2: by rewrite !get_insert_opt_ne.
  rewrite get_insert_opt_ne, get_insert_opt_eq by done.
  rewrite delete_insert_opt_ne, delete_insert_opt_eq by auto using insert_opt_btree_wf.
  rewrite get_insert_opt_eq, delete_insert_opt_eq by done.
  destruct t as [ann tiers inf ext]; simpl in *.
  destruct ann as [ann|]; simpl.
  - unfold as_str, from_utf8. simpl. rewrite (Ha ann eq_refl). simpl.
    destruct tiers as [tiers|]; simpl; [|done].
    by rewrite parse_announce_list_value by by apply Hl.
  - destruct tiers as [tiers|]; simpl; [|done].
    by rewrite parse_announce_list_value by by apply Hl.
Qed.

Lemma read_encode t :
  torrent_wf t -> vdepth (VDict (top_values t)) <= MAX_DEPTH ->
  (N.of_nat (length (torrent_encode t)) <= usize_max)%N ->
  read_from_bytes (torrent_encode t) = Ok t.
Proof.
  intros Hwf Hd Hlen. apply read_top_values; [done|].
  rewrite torrent_encode_value in *.
  apply decode_encode_wf; [|done|done]. destruct Hwf. by apply top_values_wf.
Qed.

Lemma as_str_Some v s : as_str v = Some s <-> v = vstring s /\ utf8_valid s = true.
Proof.
  unfold as_str, vstring, from_utf8.
  destruct v as [|b| |]; simpl; [naive_solver| |naive_solver|naive_solver].
  split.
  - destruct (utf8_valid b) eqn:E; [by intros [= <-]|done].
  - intros [[= ->] H]. by rewrite H.
Qed.

Lemma as_list_Some v l : as_list v = Some l <-> v = VList l.
Proof. destruct v; simpl; naive_solver. Qed.

Lemma parse_announce_list_inv v tiers :
  parse_announce_list v = Ok tiers ->
  v = announce_list_value tiers /\ Forall (Forall (fun url => utf8_valid url = true)) tiers.
Proof.
  unfold parse_announce_list, announce_list_value. intros H.
  apply rbind_Ok in H as (vs & ->%ok_or_Ok%as_list_Some & H%collect_results_Ok).
  cut (vs = map (fun tier => VList (map vstring tier)) tiers /\
       Forall (Forall (fun url => utf8_valid url = true)) tiers); [naive_solver|].
  induction H as [|v urls vs tiers Hv Hvs [-> IH]]; simpl; [done|].
  apply rbind_Ok in Hv as (us & ->%ok_or_Ok%as_list_Some & Hus%collect_results_Ok).
  cut (us = map vstring urls /\ Forall (fun url => utf8_valid url = true) urls);
    [naive_solver|]. clear -Hus.
  induction Hus as [|u url us urls [-> Hu]%ok_or_Ok%as_str_Some _ [-> IH]]; simpl; auto.
Qed.

Lemma insert_opt_delete_id k m :
  btree_wf m -> insert_opt k (btree_get k m) (btree_delete k m) = m.
Proof.
  intros Hm. destruct (btree_get k m) as [v|] eqn:E; simpl.
  - by apply btree_insert_delete_id.
  - by apply btree_delete_id.
Qed.

Lemma delete_value_wf k m : value_wf (VDict m) -> value_wf (VDict (btree_delete k m)).
Proof. inversion 1; subst. constructor; auto with sharerr. Qed.

(** What a successful read says: the torrent is well formed and writing it
    back writes exactly the dictionary that was decoded. *)
Lemma read_sound data t :
  read_from_bytes data = Ok t ->
  torrent_wf t /\ decode data = Ok (VDict (top_values t)).
Proof.
  unfold read_from_bytes, btree_remove. intros H.
  apply rbind_Ok in H as (v & Hdec%rmap_err_Ok & H).
  destruct v as [| | |top]; try done.
  destruct (btree_get (bs "info") top) as [[| | |inf]|] eqn:Einfo; try done.
  apply rbind_Ok in H as (ann & Hann & H). apply rbind_Ok in H as (tiers & Htiers & [= <-]).
  assert (value_wf (VDict top)) as Hwf by by eapply decode_sound.
  pose proof (delete_value_wf (bs "info") _ Hwf) as Hwf1.
  pose proof (delete_value_wf (bs "announce") _ Hwf1) as Hwf2.
  pose proof (delete_value_wf (bs "announce-list") _ Hwf2) as Hwf3.
  assert (forall m, value_wf (VDict m) -> btree_wf m) as Hs by by inversion 1.
  assert (btree_get (bs "announce") (btree_delete (bs "info") top) = vstring <$> ann /\
          forall s, ann = Some s -> utf8_valid s = true) as [Eann Uann].
  { destruct (btree_get (bs "announce") (btree_delete (bs "info") top)) as [v|].
    - apply rbind_Ok in Hann as (s & [-> Hu]%ok_or_Ok%as_str_Some & [= <-]). naive_solver.
    - by injection Hann as <-. }
  assert (btree_get (bs "announce-list")
            (btree_delete (bs "announce") (btree_delete (bs "info") top))
          = announce_list_value <$> tiers /\
          forall l, tiers = Some l -> Forall (Forall (fun url => utf8_valid url = true)) l)
    as [Etiers Utiers].
  { destruct (btree_get (bs "announce-list") _) as [v|].
    - apply rbind_Ok in Htiers as (s & [-> Hu]%parse_announce_list_inv & [= <-]). naive_solver.
    - by injection Htiers as <-. }
  split.
  - split; simpl; [|done| |done|done].
    + assert (Forall (fun kv : bytes * Value => value_wf kv.2) top) as Hall by by inversion Hwf.
      rewrite Forall_forall in Hall. apply btree_get_elem in Einfo. apply (Hall _ Einfo).
    + unfold reserved_keys. repeat constructor;
        rewrite ?btree_get_delete by auto with sharerr; repeat case_decide; done.
  - rewrite Hdec, top_values_eq by auto. simpl. do 2 f_equal.
    rewrite <- Eann, <- Etiers.
    assert (bs "announce-list" <> bs "announce") by solve_key.
    rewrite <- (delete_insert_opt_ne (bs "announce")) by auto.
    rewrite insert_opt_delete_id, btree_get_delete_ne, insert_opt_delete_id by auto.
    by rewrite btree_insert_delete_id by auto.
Qed.

(** ** Lengths of multi-file torrents *)

(** The length one entry of [files] declares. *)
Definition file_length (file : Value) : option Z :=
  entry ← as_dict file; length ← btree_get (bs "length") entry; as_int length.

Definition zsum (ns : list Z) : Z := fold_right Z.add 0%Z ns.

Lemma sum_lengths_spec files ns sum :
  Forall2 (fun f n => file_length f = Some n /\ (0 <= n)%Z) files ns ->
  (0 <= sum <= i64_max)%Z ->
  sum_lengths sum files =
  if (sum + zsum ns <=? i64_max)%Z then Some (sum + zsum ns)%Z else None.
Proof.
  intros H. revert sum. induction H as [|f n files ns [Hf Hn] Hrest IH]; intros sum Hs; simpl.
  - rewrite Z.add_0_r. by rewrite (proj2 (Z.leb_le _ _)) by lia.
  - assert (0 <= zsum ns)%Z as Hpos.
    { clear -Hrest. induction Hrest as [|? ? ? ? [_ ?]]; simpl; lia. }
    unfold file_length in Hf. destruct (as_dict f) as [m|]; simpl in *; [|done].
    destruct (btree_get (bs "length") m) as [v|]; simpl in *; [|done].
    rewrite Hf. simpl. unfold i64_checked_add, in_i64.
    destruct (Z.leb_spec i64_min (sum + n)); [|unfold i64_min in *; lia].
    destruct (Z.leb_spec (sum + n) i64_max); simpl.
    + rewrite IH by lia. by replace (sum + n + zsum ns)%Z with (sum + (n + zsum ns))%Z by lia.
    + by rewrite (proj2 (Z.leb_gt _ _)) by lia.
Qed.

(** ** Properties *)

(** C12: round trip of .torrent files.  Parsing the bytes [encode] writes for a
    well-formed torrent returns that torrent: announce fields, tiers, info
    dictionary and every other field. *)
Theorem metainfo_roundtrip t :
  torrent_wf t -> vdepth (VDict (top_values t)) <= MAX_DEPTH ->
  (N.of_nat (length (torrent_encode t)) <= usize_max)%N ->
  read_from_bytes (torrent_encode t) = Ok t.
Proof. apply read_encode. Qed.

Definition sample_torrent : Torrent :=
  mkTorrent (Some (bs "http://a/announce"))
    (Some [[bs "http://a/announce"]; [bs "http://b/announce"]])
    [(bs "length", VInt 4); (bs "name", vstring (bs "x.mkv"))]
    [(bs "comment", vstring (bs "1080p"))].

Lemma sample_torrent_wf : torrent_wf sample_torrent.
Proof.
  split; simpl.
  - constructor; [by apply btree_sorted_wf|repeat constructor].
  - constructor; [by apply btree_sorted_wf|repeat constructor].
  - repeat constructor.
  - intros s [= <-]. reflexivity.
  - intros l [= <-]. repeat constructor.
Qed.

Lemma metainfo_roundtrip_witness :
  read_from_bytes (torrent_encode sample_torrent) = Ok sample_torrent.
Proof.
  apply metainfo_roundtrip; [apply sample_torrent_wf|vm_compute; lia|vm_compute; discriminate].
Defined.

(** Reading and re-writing a .torrent loses nothing.  The bytes written
    back are the canonical encoding of exactly the dictionary that was read,
    never longer than the input, so they parse to the same torrent, and an
    input that was canonical is reproduced byte for byte. *)
Theorem reencode_preserves data t :
  read_from_bytes data = Ok t -> (N.of_nat (length data) <= usize_max)%N ->
  length (torrent_encode t) <= length data /\
  read_from_bytes (torrent_encode t) = Ok t /\
  (forall v, value_wf v -> vdepth v <= MAX_DEPTH -> data = encode v -> torrent_encode t = data).
Proof.
  intros [Hwf Hdec]%read_sound Hlen.
  pose proof (decode_sound _ _ Hdec) as (Hv & Hd & Hle).
  rewrite torrent_encode_value. split_and!; [done| |].
  - rewrite <- torrent_encode_value. apply read_encode; [done|done|].
    rewrite torrent_encode_value. lia.
  - intros v Hvwf Hvd ->. rewrite decode_encode_wf in Hdec by done. by injection Hdec as ->.
Qed.

Lemma reencode_preserves_witness :
  let data := bs "d8:announce1:a4:infod4:name1:x6:lengthi3eee" in
  let t := mkTorrent (Some (bs "a")) None
             [(bs "length", VInt 3); (bs "name", vstring (bs "x"))] [] in
  length (torrent_encode t) <= length data /\
  read_from_bytes (torrent_encode t) = Ok t /\
  (forall v, value_wf v -> vdepth v <= MAX_DEPTH -> data = encode v -> torrent_encode t = data).
Proof. apply reencode_preserves; vm_compute; [reflexivity|discriminate]. Defined.

(** The size of a multi-file torrent is the sum of its files' lengths when
    that fits an [i64], and is absent (so the content length reads as zero)
    when it does not: the sum never wraps. *)
Theorem multi_file_length t files ns :
  info_field t "length" = None -> info_field t "files" = Some (VList files) ->
  Forall2 (fun f n => file_length f = Some n /\ (0 <= n)%Z) files ns ->
  torrent_length t = (if (zsum ns <=? i64_max)%Z then Some (zsum ns) else None) /\
  content_length t = (if (zsum ns <=? i64_max)%Z then Z.to_N (zsum ns) else 0%N).
Proof.
  intros Hl Hf Hns.
  assert (torrent_length t = if (zsum ns <=? i64_max)%Z then Some (zsum ns) else None) as E.
  { unfold torrent_length. rewrite Hl, Hf. simpl.
    by rewrite (sum_lengths_spec files ns) by (done || unfold i64_max; lia). }
  split; [done|]. unfold content_length. rewrite E.
  assert (0 <= zsum ns)%Z as Hpos.
  { clear -Hns. induction Hns as [|? ? ? ? [_ ?]]; simpl; lia. }
  destruct (zsum ns <=? i64_max)%Z; simpl; [|done].
  unfold u64_try_from_i64. by rewrite (proj2 (Z.leb_le _ _)).
Qed.

Definition sample_multi : Torrent :=
  let file n := VDict [(bs "length", VInt n); (bs "path", VList [vstring (bs "f")])] in
  mkTorrent None None [(bs "files", VList [file 5%Z; file i64_max])] [].

Lemma multi_file_length_witness :
  torrent_length sample_multi = None /\ content_length sample_multi = 0%N.
Proof.
  refine (multi_file_length sample_multi _ [5%Z; i64_max] _ _ _);
    [reflexivity|reflexivity|]. repeat constructor; vm_compute; congruence.
Defined.
