(* ===== verification/Net.v ===== *)
(** * [std::net] addresses

    IP addresses as the tracker and the endpoint resolver use them:
    classification, canonicalisation of IPv4-mapped addresses, octets, and the
    textual forms ([FromStr] and [Display]). *)

From S2P Require Import Prelude RustStd.

(** ** Addresses *)

(** An IPv4 address is its four octets; an IPv6 address its eight 16-bit
    segments. *)
Inductive IpAddr : Type :=
| V4 (a b c d : byte)
| V6 (segments : list N).

#[export] Instance IpAddr_eq_dec : EqDecision IpAddr.
Proof. solve_decision. Defined.

(** What [Ipv6Addr] guarantees. *)
Definition ip_wf (ip : IpAddr) : Prop :=
  match ip with
  | V4 _ _ _ _ => True
  | V6 segs => length segs = 8 /\ Forall (fun s => (s <= u16_max)%N) segs
  end.

Record SocketAddr : Type := mkSocketAddr { sa_ip : IpAddr; sa_port : N }.

#[export] Instance SocketAddr_eq_dec : EqDecision SocketAddr.
Proof. solve_decision. Defined.

Definition is_ipv4 (a : SocketAddr) : bool :=
  match sa_ip a with V4 _ _ _ _ => true | V6 _ => false end.

Definition is_ipv6 (a : SocketAddr) : bool := negb (is_ipv4 a).

(** [u16::to_be_bytes]. *)
Definition u16_be (n : N) : bytes := [byte_of (n / 256 mod 256); byte_of (n mod 256)].

(** The octets, in network order. *)
Definition octets (ip : IpAddr) : bytes :=
  match ip with
  | V4 a b c d => [a; b; c; d]
  | V6 segs => concat (map u16_be segs)
  end.

(** [Ipv6Addr::to_ipv4_mapped] through [IpAddr::to_canonical]: an address in
    [::ffff:0:0/96] is the IPv4 address it carries. *)
Definition to_canonical (ip : IpAddr) : IpAddr :=
  match ip with
  | V6 [0; 0; 0; 0; 0; 65535; ab; cd]%N =>
      V4 (byte_of (ab / 256 mod 256)) (byte_of (ab mod 256))
         (byte_of (cd / 256 mod 256)) (byte_of (cd mod 256))
  | _ => ip
  end.

(** ** Classification *)

(** [Ipv4Addr::is_private]: 10/8, 172.16/12, 192.168/16. *)
Definition v4_is_private (a b : byte) : bool :=
  bool_decide (byte_val a = 10%N)
  || (bool_decide (byte_val a = 172%N) && byte_in 16 31 b)
  || (bool_decide (byte_val a = 192%N) && bool_decide (byte_val b = 168%N)).

(** [Ipv4Addr::is_loopback]: 127/8. *)
Definition v4_is_loopback (a : byte) : bool := bool_decide (byte_val a = 127%N).

(** [Ipv4Addr::is_link_local]: 169.254/16. *)
Definition v4_is_link_local (a b : byte) : bool :=
  bool_decide (byte_val a = 169%N) && bool_decide (byte_val b = 254%N).

(** [Ipv6Addr::is_loopback]: [::1]. *)
Definition v6_is_loopback (segs : list N) : bool :=
  bool_decide (segs = [0; 0; 0; 0; 0; 0; 0; 1]%N).

(** ** Text: parsing *)

(** The value of a digit in [radix] (10 or 16). *)
Definition to_digit (radix : N) (b : byte) : option N :=
  let v := byte_val b in
  let d :=
    if is_ascii_digit b then Some (v - 48)%N
    else if byte_in 97 102 b then Some (v - 87)%N
    else if byte_in 65 70 b then Some (v - 55)%N
    else None in
  match d with Some d => if (d <? radix)%N then Some d else None | None => None end.

(** Read digits while there are any: their value, how many, and the rest. *)
Fixpoint read_digits (radix acc : N) (count : nat) (s : bytes) : N * nat * bytes :=
  match s with
  | c :: s' =>
      match to_digit radix c with
      | Some d => read_digits radix (acc * radix + d)%N (S count) s'
      | None => (acc, count, s)
      end
  | [] => (acc, count, s)
  end.

(** [Parser::read_number]: at most [max_digits] digits, a value up to [max],
    and a leading zero only where [allow_zero_prefix]. *)
Definition read_number (radix max : N) (max_digits : nat) (allow_zero_prefix : bool)
    (s : bytes) : option (N * bytes) :=
  let leading_zero := match s with "0"%byte :: _ => true | _ => false end in
  let '(n, count, rest) := read_digits radix 0 0 s in
  if decide (max_digits < count) then None
  else if decide (count = 0) then None
  else if negb allow_zero_prefix && leading_zero && bool_decide (1 < count) then None
  else if (n <=? max)%N then Some (n, rest) else None.

Definition read_given_char (c : byte) (s : bytes) : option bytes :=
  match s with c' :: r => if decide (c = c') then Some r else None | [] => None end.

(** [Parser::read_separator]: the separator before every item but the first. *)
Definition read_separator {A : Type} (sep : byte) (index : nat)
    (inner : bytes -> option (A * bytes)) (s : bytes) : option (A * bytes) :=
  match index with
  | O => inner s
  | S _ => r ← read_given_char sep s; inner r
  end.

Definition read_octet := read_number 10 255 3 false.

Definition read_ipv4 (s : bytes) : option (list byte * bytes) :=
  '(a, s) ← read_separator "."%byte 0 read_octet s;
  '(b, s) ← read_separator "."%byte 1 read_octet s;
  '(c, s) ← read_separator "."%byte 2 read_octet s;
  '(d, s) ← read_separator "."%byte 3 read_octet s;
  Some ([byte_of a; byte_of b; byte_of c; byte_of d], s).

(** The big-endian segment two octets make. *)
Definition u16_of_be (a b : byte) : N := (byte_val a * 256 + byte_val b)%N.

(** [read_groups] with [left] slots to go at index [i]: the groups read, whether
    they end in an embedded IPv4 address, and the rest. *)
Fixpoint read_groups (left i : nat) (s : bytes) : list N * bool * bytes :=
  match left with
  | O => ([], false, s)
  | S left' =>
      let group (_ : unit) :=
        match read_separator ":"%byte i (read_number 16 65535 4 true) s with
        | Some (g, s') =>
            let '(gs, v4, rest) := read_groups left' (S i) s' in (g :: gs, v4, rest)
        | None => ([], false, s)
        end in
      match left', read_separator ":"%byte i read_ipv4 s with
      | S _, Some ([a; b; c; d], s') => ([u16_of_be a b; u16_of_be c d], true, s')
      | _, _ => group tt
      end
  end.

Definition read_ipv6 (s : bytes) : option (list N * bytes) :=
  let '(head, head_v4, rest) := read_groups 8 0 s in
  if decide (length head = 8) then Some (head, rest)
  else if head_v4 then None
  else
    r ← read_given_char ":"%byte rest;
    r ← read_given_char ":"%byte r;
    let limit := 8 - (length head + 1) in
    let '(tail, _, rest) := read_groups limit 0 r in
    Some (head ++ replicate (8 - length head - length tail) 0%N ++ tail, rest).

(** [s.parse::<IpAddr>()], which must consume everything. *)
Definition parse_ip (s : bytes) : option IpAddr :=
  match read_ipv4 s with
  | Some ([a; b; c; d], rest) =>
      match rest with [] => Some (V4 a b c d) | _ => None end
  | _ =>
      match read_ipv6 s with
      | Some (segs, []) => Some (V6 segs)
      | _ => None
      end
  end.

(** [s.parse::<Ipv6Addr>()]. *)
Definition parse_ipv6 (s : bytes) : option IpAddr :=
  match read_ipv6 s with Some (segs, []) => Some (V6 segs) | _ => None end.

(** ** Text: printing *)

Definition hex_digit (n : N) : byte :=
  if (n <? 10)%N then byte_of (48 + n) else byte_of (87 + n).

(** [{:x}] of a 16-bit segment. *)
Definition u16_to_hex (n : N) : bytes :=
  let all := [n / 4096 mod 16; n / 256 mod 16; n / 16 mod 16; n mod 16]%N in
  let fix skip (ds : list N) : list N :=
    match ds with
    | [] => []
    | [d] => [d]
    | d :: ds' => if (d =? 0)%N then skip ds' else ds
    end in
  map hex_digit (skip all).

Fixpoint join_segments (segs : list N) : bytes :=
  match segs with
  | [] => []
  | [s] => u16_to_hex s
  | s :: segs' => u16_to_hex s ++ ":"%byte :: join_segments segs'
  end.

(** The first longest run of zero segments, as (start, length). *)
Fixpoint longest_zeroes (i : nat) (current longest : nat * nat) (segs : list N) : nat * nat :=
  match segs with
  | [] => longest
  | s :: segs' =>
      if (s =? 0)%N then
        let start := if decide (current.2 = 0) then i else current.1 in
        let current := (start, S current.2) in
        let longest := if decide (longest.2 < current.2) then current else longest in
        longest_zeroes (S i) current longest segs'
      else longest_zeroes (S i) (0, 0) longest segs'
  end.

Definition v4_to_string (a b c d : byte) : bytes :=
  u_to_string (byte_val a) ++ "."%byte :: u_to_string (byte_val b) ++ "."%byte ::
  u_to_string (byte_val c) ++ "."%byte :: u_to_string (byte_val d).

(** [Display for IpAddr]. *)
Definition ip_to_string (ip : IpAddr) : bytes :=
  match ip with
  | V4 a b c d => v4_to_string a b c d
  | V6 segs =>
      match to_canonical ip with
      | V4 a b c d => bs "::ffff:" ++ v4_to_string a b c d
      | V6 _ =>
          let '(start, len) := longest_zeroes 0 (0, 0) (0, 0) segs in
          if decide (1 < len)
          then join_segments (take start segs) ++ bs "::" ++ join_segments (drop (start + len) segs)
          else join_segments segs
      end
  end.

(** ** Lemmas *)

Lemma octets_length ip :
  ip_wf ip -> length (octets ip) = match ip with V4 _ _ _ _ => 4 | V6 _ => 16 end.
Proof.
  destruct ip as [a b c d|segs]; simpl; [done|]. intros [Hlen _].
  do 8 (destruct segs as [|? segs]; [done|]). by destruct segs.
Qed.

(** Canonicalisation is idempotent, and never yields an IPv4-mapped address. *)
Lemma to_canonical_idemp ip : to_canonical (to_canonical ip) = to_canonical ip.
Proof.
  destruct ip as [a b c d|segs]; [done|].
  destruct (to_canonical (V6 segs)) as [|segs'] eqn:E; [done|].
  assert (segs' = segs) as ->; [|done].
  revert E. unfold to_canonical. intros E. repeat (case_match; simplify_eq; try done).
Qed.

Example ip_texts :
  map (fun s => ip_to_string <$> parse_ip (bs s))
    ["192.168.1.20"; "::1"; "2001:db8:0:0:1:0:0:1"; "::ffff:10.0.0.1"; "fe80::"; "1.2.3"; "01.2.3.4"]
  = [Some (bs "192.168.1.20"); Some (bs "::1"); Some (bs "2001:db8::1:0:0:1");
     Some (bs "::ffff:10.0.0.1"); Some (bs "fe80::"); None; None].
Proof. vm_compute. reflexivity. Qed.
