(* ===== verification/Endpoint.v ===== *)
(** * The advertised endpoint (crates/sharerr-core/src/endpoint.rs)

    Where friends reach this instance: the configured base, and the short
    history of bases the gluetun poller observed.  The state machine is the
    one behind [AdvertisedEndpoint]'s lock; [ep_reachable] is what any
    interleaving of its writers can reach. *)

From S2P Require Import Prelude RustStd Net.

(** ** The url crate *)

(** What is used of [url::Url]: its equality, [Url::parse], [Url::as_str]
    (which [to_string] agrees with) and [Url::path_segments]. *)
Class UrlLib : Type := {
  Url : Type;
  Url_eq_dec :: EqDecision Url;
  ParseError : Type;
  url_parse : bytes -> result Url ParseError;
  url_as_str : Url -> bytes;
  url_path_segments : Url -> option (list bytes)
}.

(** The documented behaviour of the crate the theorems lean on: the
    serialisation of a URL is unique and parses back to it. *)
Class UrlLaws (U : UrlLib) : Prop := {
  url_parse_as_str : forall u, url_parse (url_as_str u) = Ok u
}.

Lemma url_as_str_inj `{UrlLaws} (u v : Url) : url_as_str u = url_as_str v -> u = v.
Proof.
  intros E. pose proof (url_parse_as_str u) as Hu. rewrite E, url_parse_as_str in Hu.
  by injection Hu.
Qed.

(** ** Private addresses *)

Definition is_private_ip (ip : IpAddr) : bool :=
  match ip with
  | V4 a b _ _ => v4_is_private a b || v4_is_loopback a || v4_is_link_local a b
  | V6 segs =>
      v6_is_loopback segs || (N.land (default 0%N (head segs)) 65024 =? 64512)%N
  end.

(** ** Text helpers *)

(** [trim_end_matches(c)]. *)
Fixpoint trim_end (c : byte) (s : bytes) : bytes :=
  match s with
  | [] => []
  | b :: s' =>
      match trim_end c s' with
      | [] => if decide (b = c) then [] else [b]
      | t => b :: t
      end
  end.

Definition bracket_ipv6 (host : bytes) : bytes :=
  if negb (bool_decide (head host = Some "["%byte)) && bool_decide (is_Some (parse_ipv6 host))
  then "["%byte :: host ++ ["]"%byte]
  else host.

Definition MAX_DYNAMIC_HISTORY : nat := 4.

Definition MAX_FUTURE_SKEW_SECS : Z := 5 * 60.

(** [now_epoch], from a clock reading in nanoseconds relative to the epoch. *)
Definition now_epoch (clock : Z) : Z :=
  if (clock <? 0)%Z then 0%Z
  else
    let secs := (clock / 1000000000)%Z in
    if (secs <=? i64_max)%Z then secs else i64_max.

Section Endpoint.
Context `{U : UrlLib}.

(** ** The configured base *)

(** The fields of [TrackerConfig] the resolver reads. *)
Record TrackerConfig : Type := mkTrackerConfig {
  advertised_host : option bytes;
  tracker_port : option N;
  advertised_url : option Url
}.

Inductive EndpointError : Type :=
| BadHost (host : bytes) (port : N) (source : ParseError).

Definition advertised_base (tracker : TrackerConfig) (server_port : N)
    : result (option Url) EndpointError :=
  match advertised_url tracker with
  | Some url => Ok (Some url)
  | None =>
      match advertised_host tracker with
      | None => Ok None
      | Some host =>
          let port := default server_port (tracker_port tracker) in
          let host := bracket_ipv6 host in
          match url_parse (bs "http://" ++ host ++ bs ":" ++ u_to_string port) with
          | Ok u => Ok (Some u)
          | Err source => Err (BadHost host port source)
          end
      end
  end.

Definition base_string (base : Url) : bytes := trim_end "/"%byte (url_as_str base).

Definition join_path (base : Url) (path : bytes) : bytes := base_string base ++ path.

(** ** The live endpoint *)

Record ObservedBase : Type := mkObserved { ob_base : Url; ob_at : Z }.

(** The state behind the lock.  [ep_poisoned] is set when a writer panicked
    while holding it, which makes every later access take its error branch. *)
Record AdvertisedEndpoint : Type := mkEndpoint {
  ep_poisoned : bool;
  ep_static : option Url;
  ep_dynamic : list ObservedBase
}.

Definition ep_new (static_base : option Url) : AdvertisedEndpoint :=
  mkEndpoint false static_base [].

Definition set_static (static_base : option Url) (e : AdvertisedEndpoint) : AdvertisedEndpoint :=
  if ep_poisoned e then e else mkEndpoint false static_base (ep_dynamic e).

Definition current (e : AdvertisedEndpoint) : option Url :=
  if ep_poisoned e then None
  else match ep_dynamic e with
       | o :: _ => Some (ob_base o)
       | [] => ep_static e
       end.

Definition last_observed (e : AdvertisedEndpoint) : option ObservedBase :=
  if ep_poisoned e then None else head (ep_dynamic e).

(** [observe], with the clock reading of [now_epoch]. *)
Definition observe (now : Z) (base : Url) (e : AdvertisedEndpoint) : bool * AdvertisedEndpoint :=
  if ep_poisoned e then (false, e)
  else
    let insert (_ : unit) :=
      let dynamic := filter (fun o => ob_base o <> base) (ep_dynamic e) in
      let dynamic := mkObserved base now :: dynamic in
      (true, mkEndpoint false (ep_static e) (take MAX_DYNAMIC_HISTORY dynamic)) in
    match ep_dynamic e with
    | front :: rest =>
        if decide (ob_base front = base)
        then (false, mkEndpoint false (ep_static e) (mkObserved (ob_base front) now :: rest))
        else insert tt
    | [] => insert tt
    end.

Definition forget_dynamic (e : AdvertisedEndpoint) : AdvertisedEndpoint :=
  if ep_poisoned e then e else mkEndpoint false (ep_static e) [].

Definition recent (e : AdvertisedEndpoint) : list Url :=
  if ep_poisoned e then []
  else
    let bases := map ob_base (ep_dynamic e) in
    match ep_static e with
    | Some s => if decide (s ∈ bases) then bases else bases ++ [s]
    | None => bases
    end.

(** ** What the writers can reach *)

Inductive ep_op : Type :=
| OpSetStatic (base : option Url)
| OpObserve (now : Z) (base : Url)
| OpForget.

Definition ep_apply (op : ep_op) (e : AdvertisedEndpoint) : AdvertisedEndpoint :=
  match op with
  | OpSetStatic s => set_static s e
  | OpObserve now b => (observe now b e).2
  | OpForget => forget_dynamic e
  end.

Definition ep_run (static : option Url) (ops : list ep_op) : AdvertisedEndpoint :=
  fold_left (fun e op => ep_apply op e) ops (ep_new static).

(** Reachable states: any sequence of the three writers from [new]. *)
Inductive ep_reachable : AdvertisedEndpoint -> Prop :=
| reach_new s : ep_reachable (ep_new s)
| reach_op op e : ep_reachable e -> ep_reachable (ep_apply op e).

(** ** The abstract history *)

(** Each URL once, at its most recent position. *)
Fixpoint most_recent (h : list Url) : list Url :=
  match h with
  | [] => []
  | u :: h' => u :: filter (fun v => v <> u) (most_recent h')
  end.

(** The observations since the last [forget_dynamic], most recent first. *)
Definition observed_since (ops : list ep_op) : list Url :=
  fold_left
    (fun h op => match op with
                 | OpObserve _ b => b :: h
                 | OpForget => []
                 | OpSetStatic _ => h
                 end) ops [].

Lemma map_base_filter (base : Url) (l : list ObservedBase) :
  map ob_base (filter (fun o => ob_base o <> base) l)
  = filter (fun v => v <> base) (map ob_base l).
Proof.
  induction l as [|o l IH]; [done|]. simpl. rewrite !filter_cons.
  repeat case_decide; simpl; congruence.
Qed.

(** Truncating before or after dropping one URL makes no difference once its
    slot is taken by the new front. *)
Lemma take_filter_take (u : Url) n (l : list Url) :
  NoDup l ->
  take n (filter (fun v => v <> u) (take (S n) l)) = take n (filter (fun v => v <> u) l).
Proof.
  intros Hnd. revert n. induction Hnd as [|v l Hv Hnd IH]; intros n; [done|].
  destruct n as [|n]; [done|]. change (take (S (S n)) (v :: l)) with (v :: take (S n) l).
  rewrite !filter_cons. destruct (decide (v <> u)) as [Hvu|Hvu].
  - simpl. f_equal. apply IH.
  - assert (u ∉ l) as Hu by (apply dec_stable in Hvu; congruence).
    assert (forall l' : list Url, (forall w, w ∈ l' -> w ∈ l) -> filter (fun v => v <> u) l' = l') as Hid.
    { intros l' Hl'. apply list_filter_id. apply Forall_forall.
      intros w Hw ->. by apply Hu, Hl'. }
    rewrite !Hid; [|done|]; [by rewrite take_take, Nat.min_id|].
    intros w Hw. by eapply elem_of_take_weaken.
Qed.

Lemma most_recent_elem h u : u ∈ most_recent h <-> u ∈ h.
Proof.
  induction h as [|v h IH]; simpl; [done|].
  rewrite !elem_of_cons, list_elem_of_filter, IH.
  destruct (decide (u = v)); naive_solver.
Qed.

Lemma most_recent_NoDup h : NoDup (most_recent h).
Proof.
  induction h as [|v h IH]; simpl; constructor.
  - rewrite list_elem_of_filter. naive_solver.
  - by apply NoDup_filter.
Qed.

(** One observation, on the histories. *)
Lemma observe_history now base e h :
  ep_poisoned e = false ->
  map ob_base (ep_dynamic e) = take MAX_DYNAMIC_HISTORY (most_recent h) ->
  map ob_base (ep_dynamic (observe now base e).2)
  = take MAX_DYNAMIC_HISTORY (most_recent (base :: h)).
Proof.
  intros Hp Hh. unfold observe. rewrite Hp.
  assert (map ob_base (take MAX_DYNAMIC_HISTORY
            (mkObserved base now :: filter (fun o => ob_base o <> base) (ep_dynamic e)))
          = take MAX_DYNAMIC_HISTORY (most_recent (base :: h))) as Hins.
  { rewrite <- firstn_map. simpl. rewrite map_base_filter, Hh. f_equal.
    apply (take_filter_take base 3), most_recent_NoDup. }
  destruct (ep_dynamic e) as [|front rest] eqn:Ed; [exact Hins|].
  destruct (decide (ob_base front = base)) as [Hfront|]; [|exact Hins].
  rewrite <- Hins. simpl. rewrite filter_cons, decide_False by tauto.
  simpl in Hh. destruct (most_recent h) as [|u l] eqn:Em; [done|].
  injection Hh as Hu Hrest. subst. simpl. f_equal.
  rewrite <- firstn_map, map_base_filter.
  assert (NoDup (ob_base front :: l)) as Hnd by (rewrite <- Em; apply most_recent_NoDup).
  apply NoDup_cons in Hnd as [Hnin _].
  rewrite list_filter_id.
  - rewrite Hrest. by rewrite take_take.
  - apply Forall_forall. intros v Hv ->. rewrite Hrest in Hv.
    apply Hnin. by eapply elem_of_take_weaken.
Qed.

Lemma ep_run_snoc s ops op : ep_run s (ops ++ [op]) = ep_apply op (ep_run s ops).
Proof. unfold ep_run. by rewrite fold_left_app. Qed.

Lemma ep_run_not_poisoned s ops : ep_poisoned (ep_run s ops) = false.
Proof.
  induction ops as [|op ops IH] using rev_ind; [done|].
  rewrite ep_run_snoc. destruct op; simpl;
    unfold set_static, observe, forget_dynamic; rewrite IH; simpl; try done.
  destruct (ep_dynamic _) as [|o l]; [done|]. by case_decide.
Qed.

Lemma ep_run_history s ops :
  map ob_base (ep_dynamic (ep_run s ops)) =
  take MAX_DYNAMIC_HISTORY (most_recent (observed_since ops)).
Proof.
  induction ops as [|op ops IH] using rev_ind; [done|].
  pose proof (ep_run_not_poisoned s ops) as Hp.
  rewrite ep_run_snoc. unfold observed_since. rewrite fold_left_app. simpl.
  fold (observed_since ops). destruct op as [st|now b|]; simpl.
  - unfold set_static. by rewrite Hp.
  - by apply observe_history.
  - unfold forget_dynamic. by rewrite Hp.
Qed.

Lemma ep_reachable_run e : ep_reachable e -> exists s ops, e = ep_run s ops.
Proof.
  induction 1 as [s|op e _ (s & ops & ->)]; [by exists s, []|].
  exists s, (ops ++ [op]). by rewrite ep_run_snoc.
Qed.

Record ep_ok (e : AdvertisedEndpoint) : Prop := {
  ok_lock : ep_poisoned e = false;
  ok_bound : length (ep_dynamic e) <= MAX_DYNAMIC_HISTORY;
  ok_nodup : NoDup (map ob_base (ep_dynamic e))
}.

Lemma ep_reachable_ok e : ep_reachable e -> ep_ok e.
Proof.
  intros (s & ops & ->)%ep_reachable_run. split.
  - apply ep_run_not_poisoned.
  - rewrite <- (length_map ob_base), ep_run_history, length_take. lia.
  - rewrite ep_run_history.
    eapply sublist_NoDup; [apply most_recent_NoDup|apply sublist_take].
Qed.

Lemma recent_spec e :
  ep_ok e -> head (recent e) = current e /\ NoDup (recent e) /\
             length (recent e) <= S MAX_DYNAMIC_HISTORY.
Proof.
  intros [Hp Hb Hnd]. unfold recent, current. rewrite Hp.
  destruct (ep_static e) as [s|]; [case_decide as Hs|].
  - split_and!; [|done|rewrite length_map; lia].
    destruct (ep_dynamic e); [set_solver|done].
  - split_and!.
    + by destruct (ep_dynamic e).
    + apply NoDup_app. split_and!; [done|set_solver|apply NoDup_singleton].
    + rewrite length_app, length_map. simpl. lia.
  - split_and!; [|done|rewrite length_map; lia]. by destruct (ep_dynamic e).
Qed.

End Endpoint.

(** ** A concrete URL library, for the witnesses *)

(** URLs as their own text, every text accepted, its segments what lies
    between slashes. *)
Definition text_urls : UrlLib := {|
  Url := bytes;
  ParseError := unit;
  url_parse := Ok;
  url_as_str := fun u => u;
  url_path_segments := fun u => Some (split_byte "/"%byte u)
|}.

Lemma text_urls_laws : UrlLaws text_urls.
Proof. by split. Qed.

(** ** Properties *)

(** C39: refinement.  Whatever sequence of configuration changes, observations
    and forgets has run, the stored history is the last four distinct
    addresses observed since the last forget, most recent first. *)
Theorem endpoint_history_refines `{U : UrlLib} s ops :
  map ob_base (ep_dynamic (ep_run s ops)) =
  take MAX_DYNAMIC_HISTORY (most_recent (observed_since ops)).
Proof. apply ep_run_history. Qed.

(** Invariant of every reachable endpoint.  The list of bases to announce
    on starts with the current one, repeats none and has at most five, and the
    lock is never poisoned. *)
Theorem endpoint_recent_invariant `{U : UrlLib} e :
  ep_reachable e ->
  ep_poisoned e = false /\ head (recent e) = current e /\
  NoDup (recent e) /\ length (recent e) <= S MAX_DYNAMIC_HISTORY.
Proof.
  intros H%ep_reachable_ok. split; [apply H|]. by apply recent_spec.
Qed.

Definition sample_endpoint : @AdvertisedEndpoint text_urls :=
  @ep_apply text_urls (@OpObserve text_urls 7 (bs "http://b"))
    (@ep_new text_urls (Some (bs "http://a"))).

Lemma endpoint_recent_invariant_witness :
  @recent text_urls sample_endpoint = [bs "http://b"; bs "http://a"] /\
  head (@recent text_urls sample_endpoint) = @current text_urls sample_endpoint.
Proof.
  split; [reflexivity|].
  apply (@endpoint_recent_invariant text_urls sample_endpoint).
  apply reach_op, reach_new.
Defined.

(** An observation takes effect.  After [observe] the observed base is the
    current one, with the time it was seen; the answer is [true] exactly when
    it was not already the latest observation; and the configured base is
    untouched. *)
Theorem observe_takes_effect `{U : UrlLib} e now base :
  ep_reachable e ->
  current (observe now base e).2 = Some base /\
  last_observed (observe now base e).2 = Some (mkObserved base now) /\
  ((observe now base e).1 = true <-> (ob_base <$> last_observed e) <> Some base) /\
  ep_static (observe now base e).2 = ep_static e.
Proof.
  intros Hr. destruct (ep_reachable_ok e Hr) as [Hp _ _].
  unfold current, last_observed, observe. rewrite Hp.
  destruct (ep_dynamic e) as [|front rest]; simpl; [naive_solver|].
  case_decide as Hf; simpl; [subst; naive_solver|].
  split_and!; try done. split; [intros _|done]. congruence.
Qed.

Lemma observe_takes_effect_witness :
  @current text_urls (@observe text_urls 9 (bs "http://c") sample_endpoint).2
    = Some (bs "http://c").
Proof. apply (@observe_takes_effect text_urls), reach_op, reach_new. Defined.

(** [observe] answers [true], the signal that the current endpoint changed,
    when the first observation merely confirms the configured base: the
    current endpoint is the same before and after. *)
Theorem observe_confirms_static `{U : UrlLib} base now :
  (observe now base (ep_new (Some base))).1 = true /\
  current (ep_new (Some base)) = Some base /\
  current (observe now base (ep_new (Some base))).2 = Some base.
Proof. done. Qed.

(** The mask test on the first segment, for every 16-bit value. *)
Lemma ula_mask (s : N) :
  (s <= u16_max)%N -> ((N.land s 65024 =? 64512)%N = true <-> (64512 <= s <= 65023)%N).
Proof.
  intros Hs. rewrite N.eqb_eq. unfold u16_max in Hs.
  assert (N.land s 65024 / 512 = s / 512)%N as Hdiv.
  { change 512%N with (2 ^ 9)%N. rewrite <- !N.shiftr_div_pow2, N.shiftr_land.
    change (N.shiftr 65024 9) with (N.ones 7).
    rewrite N.land_ones, N.shiftr_div_pow2. apply N.mod_small.
    apply N.Div0.div_lt_upper_bound. change (2 ^ 9 * 2 ^ 7)%N with 65536%N. lia. }
  assert (N.land s 65024 mod 512 = 0)%N as Hmod.
  { change 512%N with (2 ^ 9)%N. rewrite <- N.land_ones, <- N.land_assoc.
    change (N.land 65024 (N.ones 9)) with 0%N. apply N.land_0_r. }
  pose proof (N.div_mod (N.land s 65024) 512 ltac:(done)) as H1.
  pose proof (N.div_mod s 512 ltac:(done)) as H2.
  pose proof (N.mod_lt s 512 ltac:(done)) as H3. rewrite Hdiv, Hmod in H1.
  rewrite H1. revert H2 H3. generalize (s / 512)%N, (s mod 512)%N. intros q r. lia.
Qed.

(** Which addresses count as private.  For IPv4 exactly 10/8, 172.16/12,
    192.168/16, 127/8 and 169.254/16; for IPv6 exactly [::1] and fc00::/7, so
    an IPv6 link-local address (fe80::/10) does not. *)
Theorem private_ip_ranges :
  (forall a b c d, is_private_ip (V4 a b c d) = true <->
     byte_val a = 10%N \/ (byte_val a = 172%N /\ 16 <= byte_val b <= 31)%N \/
     (byte_val a = 192%N /\ byte_val b = 168%N) \/ byte_val a = 127%N \/
     (byte_val a = 169%N /\ byte_val b = 254%N)) /\
  (forall segs, ip_wf (V6 segs) ->
     (is_private_ip (V6 segs) = true <->
      segs = [0; 0; 0; 0; 0; 0; 0; 1]%N \/
      exists s rest, segs = s :: rest /\ (64512 <= s <= 65023)%N)) /\
  is_private_ip (V6 [65152; 0; 0; 0; 0; 0; 0; 1]%N) = false.
Proof.
  split_and!; [| |done].
  - intros a b c d. unfold is_private_ip, v4_is_private, v4_is_loopback, v4_is_link_local, byte_in.
    rewrite !orb_true_iff, !andb_true_iff, !bool_decide_eq_true, !N.leb_le. tauto.
  - intros segs [Hlen Hall]. destruct segs as [|s rest]; [done|].
    inversion Hall; subst. unfold is_private_ip, v6_is_loopback. cbn [default head].
    rewrite orb_true_iff, bool_decide_eq_true, ula_mask by done. naive_solver.
Qed.
