(* ===== verification/TrackerUrl.v ===== *)
(** * Announce URLs (crates/sharerr-torrent/src/tracker.rs, error.rs)

    The announce URLs a torrent carries, built from the live endpoint, and the
    token read back out of one. *)

From S2P Require Import Prelude RustStd BTreeMap Bencode Metainfo Net Endpoint.

(** An [std::io::Error], by its raw OS code. *)
Inductive IoError : Type := mkIoError (code : Z).

(** A path segment of unreserved characters only. *)
Definition plain_segment (s : bytes) : Prop :=
  Forall (fun b => is_ascii_alphanumeric b = true \/ b ∈ bs "-._~") s.

(** [path_segments] of a URL parsed from another one's text with plain segments
    appended (documented: the path is split at slashes, and these characters
    are never rewritten): the segments of the base, then the appended ones. *)
Class UrlPathLaws (U : UrlLib) (base_segments : Url -> list bytes) : Prop :=
  url_append_segments : forall base segs v,
    Forall plain_segment segs ->
    url_parse (base_string base ++ concat (map (fun s => "/"%byte :: s) segs)) = Ok v ->
    url_path_segments v = Some (base_segments base ++ segs).

Section TrackerUrl.
Context `{U : UrlLib}.

(** ** Errors *)

(** Paths are byte strings (see Paths). *)
Inductive TorrentError : Type :=
| Unreadable (path : bytes) (source : IoError)
| NotAFile (path : bytes)
| NoFileName (path : bytes)
| BuildError (path : bytes) (source : IoError)
| Reparse (source : MetainfoError)
| NoAdvertisedHost
| AnnounceUrl (base : bytes) (source : ParseError).

(** ** The announce set *)

(** [AnnounceSet]: its private vector of tiers is never empty, since both
    constructors refuse an empty one, so it is a first tier and the others. *)
Record AnnounceSet : Type := mkAnnounceSet { as_first : Url; as_rest : list Url }.

Definition single (primary : Url) : AnnounceSet := mkAnnounceSet primary [].

Definition from_tiers (tiers : list Url) : option AnnounceSet :=
  match tiers with [] => None | u :: rest => Some (mkAnnounceSet u rest) end.

Definition primary (s : AnnounceSet) : Url := as_first s.

Definition tiers (s : AnnounceSet) : list Url := as_first s :: as_rest s.

Definition tier_list (s : AnnounceSet) : option (list (list bytes)) :=
  if decide (length (tiers s) <= 1) then None
  else Some (map (fun url => [url_as_str url]) (tiers s)).

(** ** Building the URLs *)

Definition ANNOUNCE_PATH : bytes := bs "/announce".
Definition SCRAPE_PATH : bytes := bs "/scrape".

Definition announce_url (base : Url) (token : option bytes) : result Url TorrentError :=
  let raw :=
    match token with
    | Some token => join_path base ANNOUNCE_PATH ++ bs "/" ++ token
    | None => join_path base ANNOUNCE_PATH
    end in
  rmap_err (AnnounceUrl (url_as_str base)) (url_parse raw).

Definition announce_set_for (endpoint : AdvertisedEndpoint) (token : option bytes)
    : result AnnounceSet TorrentError :=
  let? tiers := collect_results (fun base => announce_url base token) (recent endpoint) in
  ok_or (from_tiers tiers) NoAdvertisedHost.

(** The segment after the first one that reads [announce]. *)
Fixpoint find_token (segments : list bytes) : option bytes :=
  match segments with
  | [] => None
  | segment :: rest =>
      if decide (segment = bs "announce") then head rest else find_token rest
  end.

Definition token_from_announce_url (url : Url) : option bytes :=
  url_path_segments url ≫= find_token.

(** ** The provider *)

(** The trait the sync loop is written against. *)
Class TrackerProvider (P : Type) : Type := {
  ensure_ready : P -> result unit TorrentError;
  announce_set : P -> result AnnounceSet TorrentError
}.

(** What the trait promises its client: a tracker that hands out announce URLs
    is ready, and readiness without an endpoint is refused. *)
Class TrackerProviderLaws (P : Type) (T : TrackerProvider P) : Prop := {
  announce_set_ready : forall p s, announce_set p = Ok s -> ensure_ready p = Ok tt;
  not_ready_no_set : forall p e, ensure_ready p = Err e -> announce_set p = Err e
}.

Record BuiltinTracker : Type := mkBuiltin {
  bt_endpoint : AdvertisedEndpoint;
  bt_token : option bytes
}.

#[export] Instance builtin_provider : TrackerProvider BuiltinTracker := {|
  ensure_ready t :=
    match current (bt_endpoint t) with
    | None => Err NoAdvertisedHost
    | Some _ => Ok tt
    end;
  announce_set t := announce_set_for (bt_endpoint t) (bt_token t)
|}.

(** ** Lemmas *)

Lemma current_head e : current e = head (recent e).
Proof.
  unfold recent, current. destruct (ep_poisoned e); [done|].
  destruct (ep_static e), (ep_dynamic e); simpl; try case_decide; simpl; done.
Qed.

Lemma announce_set_for_Ok e token s :
  announce_set_for e token = Ok s <->
  Forall2 (fun base url => announce_url base token = Ok url) (recent e) (tiers s).
Proof.
  unfold announce_set_for. rewrite rbind_Ok. setoid_rewrite collect_results_Ok.
  setoid_rewrite ok_or_Ok. split.
  - intros (us & Hus & Hs). destruct us as [|u us]; simpl in Hs; [done|]. by injection Hs as <-.
  - intros H. exists (tiers s). split; [done|]. by destruct s.
Qed.

Lemma announce_set_for_none e token :
  current e = None -> announce_set_for e token = Err NoAdvertisedHost.
Proof.
  rewrite current_head. unfold announce_set_for. by destruct (recent e).
Qed.

#[export] Instance builtin_provider_laws : TrackerProviderLaws BuiltinTracker builtin_provider.
Proof.
  split.
  - intros [e token] s H%announce_set_for_Ok. simpl in *. rewrite current_head.
    inversion H; simpl; done.
  - intros [e token] err. simpl. destruct (current e) eqn:E; [done|].
    intros [= <-]. by apply announce_set_for_none.
Qed.

Lemma find_token_app prefix rest :
  bs "announce" ∉ prefix -> find_token (prefix ++ bs "announce" :: rest) = head rest.
Proof.
  intros H. induction prefix as [|p prefix IH]; cbn [app find_token].
  - by rewrite decide_True.
  - rewrite decide_False by set_solver. apply IH. set_solver.
Qed.

End TrackerUrl.

Arguments TorrentError {U}.
Arguments AnnounceSet {U}.

(** ** Properties *)

(** The announce set of a live endpoint.  With nothing to advertise the
    set is refused; otherwise, when every base yields a URL, the primary is the
    announce URL of the current base and the tiers are, in order, the announce
    URLs of all recently held bases (at most five), all with the same token;
    the announce-list is written only when there is more than one. *)
Theorem announce_set_follows_endpoint `{U : UrlLib} e token :
  ep_reachable e ->
  (current e = None -> announce_set_for e token = Err NoAdvertisedHost) /\
  (forall s, announce_set_for e token = Ok s ->
     (exists base, current e = Some base /\ announce_url base token = Ok (primary s)) /\
     Forall2 (fun base url => announce_url base token = Ok url) (recent e) (tiers s) /\
     length (tiers s) <= S MAX_DYNAMIC_HISTORY /\
     (tier_list s = None <-> length (recent e) = 1)).
Proof.
  intros Hr. split; [apply announce_set_for_none|].
  intros s H%announce_set_for_Ok.
  destruct (recent_spec e (ep_reachable_ok e Hr)) as (Hhead & _ & Hlen).
  pose proof (Forall2_length _ _ _ H) as Hl. split_and!; [|done|lia|].
  - rewrite <- Hhead. inversion H; subst; simpl. eauto.
  - unfold tier_list. case_decide; split; try done; rewrite Hl; simpl in *; [lia|].
    intros. lia.
Qed.

Lemma announce_set_follows_endpoint_witness :
  exists base,
    @current text_urls sample_endpoint = Some base /\
    @announce_url text_urls base (Some (bs "tok")) = Ok (bs "http://b/announce/tok").
Proof.
  exact (proj1 (proj2 (@announce_set_follows_endpoint text_urls sample_endpoint (Some (bs "tok"))
    (reach_op _ _ (reach_new _)))
    (@mkAnnounceSet text_urls (bs "http://b/announce/tok") [bs "http://a/announce/tok"]) eq_refl)).
Defined.

Lemma text_urls_path_laws :
  UrlPathLaws text_urls (fun u => split_byte "/"%byte (@base_string text_urls u)).
Proof.
  intros base segs v Hsegs [= <-]. cbn [url_path_segments text_urls]. f_equal.
  generalize (@base_string text_urls base). intros b. revert b.
  induction Hsegs as [|s segs Hs Hsegs IH]; intros b; simpl; [by rewrite !app_nil_r|].
  replace (b ++ "/"%byte :: s ++ concat (map (fun s => "/"%byte :: s) segs))
    with ((b ++ "/"%byte :: s) ++ concat (map (fun s => "/"%byte :: s) segs))
    by by rewrite <- app_assoc.
  rewrite IH, split_byte_app, (split_byte_none "/"%byte s), <- app_assoc; [done|].
  intros Hin. unfold plain_segment in Hs. rewrite Forall_forall in Hs.
  specialize (Hs _ Hin) as [|H]; [done|]. revert H. by apply (bool_decide_unpack (_ ∉ _)).
Qed.

(** The path of an announce URL: the base's segments, [announce], the token. *)
Lemma announce_url_segments `{U : UrlLib} base_segments base token url :
  UrlPathLaws U base_segments -> plain_segment token ->
  announce_url base (Some token) = Ok url ->
  url_path_segments url = Some (base_segments base ++ [bs "announce"; token]).
Proof.
  intros HL Htok H%rmap_err_Ok. apply url_append_segments.
  - constructor; [|by constructor]. apply (Forall_impl (fun b => is_ascii_lower b = true)).
    + vm_compute. repeat constructor.
    + intros b Hb. left. unfold is_ascii_alphanumeric. by rewrite Hb, orb_true_r.
  - rewrite <- H. unfold join_path, ANNOUNCE_PATH. rewrite <- app_assoc. simpl.
    by rewrite app_nil_r.
Qed.

(** The token is read back.  For every base and every token of unreserved
    characters, the announce URL built from them gives that token back, as long
    as no segment of the base's own path reads [announce]. *)
Theorem token_recovered `{U : UrlLib} base_segments base token url :
  UrlPathLaws U base_segments -> plain_segment token ->
  bs "announce" ∉ base_segments base ->
  announce_url base (Some token) = Ok url ->
  token_from_announce_url url = Some token.
Proof.
  intros HL Htok Hpre H. unfold token_from_announce_url.
  rewrite (announce_url_segments base_segments base token url) by done. simpl.
  by rewrite find_token_app.
Qed.

Lemma token_recovered_witness :
  @token_from_announce_url text_urls (bs "http://h/sharerr/announce/tok") = Some (bs "tok").
Proof.
  apply (@token_recovered text_urls _ (bs "http://h/sharerr/") (bs "tok") _ text_urls_path_laws);
    [|by apply (bool_decide_unpack _)|reflexivity].
  repeat constructor.
Defined.

(** Behind a reverse-proxy prefix that ends in [announce] itself, the token
    read back is the word [announce], not the token the URL was built with. *)
Theorem token_lost_behind_announce_prefix `{U : UrlLib} base_segments base prefix token url :
  UrlPathLaws U base_segments -> plain_segment token ->
  base_segments base = prefix ++ [bs "announce"] -> bs "announce" ∉ prefix ->
  announce_url base (Some token) = Ok url ->
  token_from_announce_url url = Some (bs "announce").
Proof.
  intros HL Htok Hb Hpre H. unfold token_from_announce_url.
  rewrite (announce_url_segments base_segments base token url) by done.
  rewrite Hb, <- app_assoc. cbn [app mbind option_bind]. by rewrite find_token_app.
Qed.

Lemma token_lost_behind_announce_prefix_witness :
  @token_from_announce_url text_urls (bs "http://h/announce/announce/tok")
    = Some (bs "announce").
Proof.
  apply (@token_lost_behind_announce_prefix text_urls _ (bs "http://h/announce/")
    [bs "http:"; bs ""; bs "h"] (bs "tok") _ text_urls_path_laws);
    [|reflexivity|by apply (bool_decide_unpack _)|reflexivity].
  repeat constructor.
Defined.
