(* ===== verification/Announce.v ===== *)
(** * The tracker protocol (crates/sharerr-torrent/src/announce.rs)

    Parsing an announce query, the swarms the tracker keeps, and the bencoded
    responses.  [Instant]s are nanoseconds on a monotonic clock; the swarms are
    finite maps, and what the source reads by iterating a [HashMap] goes
    through [hm_iter], an order the standard library leaves open. *)

From S2P Require Import Prelude RustStd BTreeMap Bencode Net Endpoint.

(** ** Third-party decoders *)

(** [percent_encoding::percent_decode] and [hex::decode_to_slice]. *)
Class Decoders : Type := {
  pct_decode : bytes -> bytes;
  hex_decode : bytes -> option bytes
}.

(** The documented behaviour of percent decoding: [%] and two hex digits stand
    for a byte, every other byte for itself. *)
Class PercentLaws (D : Decoders) : Prop := {
  pct_nil : pct_decode [] = [];
  pct_plain : forall b s, b <> "%"%byte -> pct_decode (b :: s) = b :: pct_decode s;
  pct_hex : forall h l x y s, to_digit 16 h = Some x -> to_digit 16 l = Some y ->
    pct_decode ("%"%byte :: h :: l :: s) = byte_of (16 * x + y) :: pct_decode s
}.

(** ** Constants *)

(** Nanoseconds in a second. *)
Definition SEC : Z := 1000000000.
Definition INTERVAL : Z := 1800.
Definition MIN_INTERVAL : Z := 900.
Definition PEER_TTL : Z := (INTERVAL * 2 + 60) * SEC.
Definition MAX_NUMWANT : N := 50.
Definition HASH_LEN : nat := 20.

Inductive AnnounceError : Type :=
| Missing (field : bytes)
| BadLength (field : bytes) (len : nat)
| NotANumber (field : bytes)
| UnknownTorrent
| BadToken.

Inductive Event : Type := Started | Stopped | Completed | NoEvent.

#[export] Instance Event_eq_dec : EqDecision Event.
Proof. solve_decision. Defined.

Definition event_parse (raw : bytes) : Event :=
  if decide (raw = bs "started") then Started
  else if decide (raw = bs "stopped") then Stopped
  else if decide (raw = bs "completed") then Completed
  else NoEvent.

Record AnnounceRequest : Type := mkRequest {
  rq_info_hash : bytes;
  rq_peer_id : bytes;
  rq_port : N;
  rq_left : N;
  rq_uploaded : N;
  rq_downloaded : N;
  rq_event : Event;
  rq_compact : bool;
  rq_numwant : N;
  rq_declared_ip : option IpAddr
}.

(** ** Query parsing *)

Section Query.
Context `{D : Decoders}.

Definition percent_decode (raw : bytes) : bytes :=
  if decide ("+"%byte ∈ raw)
  then pct_decode (map (fun b => if decide (b = "+"%byte) then " "%byte else b) raw)
  else pct_decode raw.

Definition parse_pair (pair : bytes) (params : gmap bytes bytes) : gmap bytes bytes :=
  match pair with
  | [] => params
  | _ =>
      let '(key, value) :=
        match position (fun b => bool_decide (b = "="%byte)) pair with
        | Some at_ => (take at_ pair, drop (at_ + 1) pair)
        | None => (pair, [])
        end in
      match from_utf8 key with
      | None => params
      | Some key => <[key := percent_decode value]> params
      end
  end.

Definition parse_query (query : bytes) : gmap bytes bytes :=
  fold_left (fun params pair => parse_pair pair params) (split_byte "&"%byte query) ∅.

Definition info_hash_from_hex (raw : bytes) : option bytes :=
  match hex_decode raw with
  | Some out => if decide (length out = HASH_LEN) then Some out else None
  | None => None
  end.

(** The closures of [AnnounceRequest::parse]. *)
Definition get_param (params : gmap bytes bytes) (key : bytes) : result bytes AnnounceError :=
  ok_or (params !! key) (Missing key).

Definition hash_param (params : gmap bytes bytes) (key : bytes) : result bytes AnnounceError :=
  let? raw := get_param params key in
  if decide (length raw = HASH_LEN) then Ok raw else Err (BadLength key (length raw)).

Definition number_param (params : gmap bytes bytes) (key : bytes) (default : N)
    : result N AnnounceError :=
  match params !! key with
  | None => Ok default
  | Some raw => ok_or (from_utf8 raw ≫= parse_u u64_max) (NotANumber key)
  end.

Definition parse_request (query : bytes) : result AnnounceRequest AnnounceError :=
  let params := parse_query query in
  let? port := number_param params (bs "port") 0 in
  let? port := if (port <=? u16_max)%N then Ok port else Err (NotANumber (bs "port")) in
  if (port =? 0)%N then Err (Missing (bs "port"))
  else
    let? info_hash := hash_param params (bs "info_hash") in
    let? peer_id := hash_param params (bs "peer_id") in
    let? left := number_param params (bs "left") 0 in
    let? uploaded := number_param params (bs "uploaded") 0 in
    let? downloaded := number_param params (bs "downloaded") 0 in
    let event := match params !! bs "event" with Some e => event_parse e | None => NoEvent end in
    let compact := match params !! bs "compact" with
                   | Some v => negb (bool_decide (v = bs "0"))
                   | None => true
                   end in
    let? numwant := number_param params (bs "numwant") MAX_NUMWANT in
    let declared_ip := params !! bs "ip" ≫= (fun raw => from_utf8 raw ≫= parse_ip) in
    Ok (mkRequest info_hash peer_id port left uploaded downloaded event compact
          (N.min numwant MAX_NUMWANT) declared_ip).

End Query.

(** ** The address to record *)

Definition resolve_addr (request : AnnounceRequest) (remote : IpAddr) : SocketAddr :=
  let remote := to_canonical remote in
  let ip :=
    match to_canonical <$> rq_declared_ip request with
    | Some declared => if is_private_ip remote then declared else remote
    | None => remote
    end in
  mkSocketAddr ip (rq_port request).

(** ** Swarms *)

Record Peer : Type := mkPeer {
  p_addr : SocketAddr;
  p_left : N;
  p_uploaded : N;
  p_downloaded : N;
  p_last_seen : Z
}.

(** [Instant::duration_since] saturates at zero. *)
Definition is_live (now : Z) (p : Peer) : bool :=
  (Z.max 0 (now - p_last_seen p) <? PEER_TTL)%Z.

Abbreviation Swarm := (gmap bytes Peer).
Abbreviation Swarms := (gmap bytes (gmap bytes Peer)).

(** [HashMap] iteration: every entry once, in an order that is not specified. *)
Class HashIter : Type := hm_iter : forall V : Type, gmap bytes V -> list (bytes * V).
Arguments hm_iter {_ V} _.

Class HashIterLaws (I : HashIter) : Prop :=
  hm_iter_perm : forall V (m : gmap bytes V), hm_iter m ≡ₚ map_to_list m.

Record Transfer : Type := mkTransfer { tr_uploaded : N; tr_downloaded : N }.

#[export] Instance Transfer_eq_dec : EqDecision Transfer.
Proof. solve_decision. Defined.

Definition transfer_is_empty (t : Transfer) : bool :=
  (tr_uploaded t =? 0)%N && (tr_downloaded t =? 0)%N.

Definition since_step (before now : N) : N := default now (u64_checked_sub now before).

Definition transfer_since (previous current : N * N) : Transfer :=
  mkTransfer (since_step previous.1 current.1) (since_step previous.2 current.2).

Record AnnounceResponse : Type := mkResponse {
  rs_peers : list SocketAddr;
  rs_complete : nat;
  rs_incomplete : nat;
  rs_transferred : Transfer
}.

Record SwarmStats : Type := mkStats { st_swarms : nat; st_peers : nat; st_seeders : nat }.

Record SwarmView : Type := mkView {
  vw_info_hash : bytes;
  vw_peers : list SocketAddr;
  vw_complete : nat;
  vw_incomplete : nat
}.

Section Swarms.
Context `{I : HashIter}.

Definition live (swarm : Swarm) (now : Z) : list (bytes * Peer) :=
  filter (fun kp => is_live now kp.2 = true) (hm_iter swarm).

Definition tally (swarm : Swarm) (now : Z) : nat * nat :=
  fold_left
    (fun '(complete, incomplete) kp =>
       if (p_left kp.2 =? 0)%N then (complete + 1, incomplete) else (complete, incomplete + 1))
    (live swarm now) (0, 0).

Definition announce (request : AnnounceRequest) (addr : SocketAddr) (now : Z) (swarms : Swarms)
    : AnnounceResponse * Swarms :=
  let swarm := default ∅ (swarms !! rq_info_hash request) in
  let swarm := filter (fun kp => is_live now kp.2 = true) swarm in
  let current := (rq_uploaded request, rq_downloaded request) in
  let transferred :=
    match swarm !! rq_peer_id request with
    | None => mkTransfer 0 0
    | Some previous => transfer_since (p_uploaded previous, p_downloaded previous) current
    end in
  let swarm :=
    if decide (rq_event request = Stopped)
    then delete (rq_peer_id request) swarm
    else <[rq_peer_id request :=
             mkPeer addr (rq_left request) (rq_uploaded request) (rq_downloaded request) now]> swarm in
  let '(complete, incomplete) := tally swarm now in
  let peers :=
    map (fun kp => p_addr kp.2)
      (take (N.to_nat (rq_numwant request))
        (filter (fun kp => kp.1 <> rq_peer_id request) (hm_iter swarm))) in
  let swarms :=
    if decide (swarm = ∅)
    then delete (rq_info_hash request) swarms
    else <[rq_info_hash request := swarm]> swarms in
  (mkResponse peers complete incomplete transferred, swarms).

Definition stats (now : Z) (swarms : Swarms) : SwarmStats :=
  fold_left
    (fun acc kp =>
       let '(seeders, leechers) := tally kp.2 now in
       if decide (0 < seeders + leechers)
       then mkStats (st_swarms acc + 1) (st_peers acc + (seeders + leechers))
              (st_seeders acc + seeders)
       else acc)
    (hm_iter swarms) (mkStats 0 0 0).

(** The view of one swarm, when it has a live peer. *)
Definition view (now : Z) (info_hash : bytes) (swarm : Swarm) : option SwarmView :=
  let peers := map (fun kp => p_addr kp.2) (live swarm now) in
  match peers with
  | [] => None
  | _ => let '(complete, incomplete) := tally swarm now in
         Some (mkView info_hash peers complete incomplete)
  end.

Definition snapshots (now : Z) (swarms : Swarms) : list SwarmView :=
  omap (fun kp => view now kp.1 kp.2) (hm_iter swarms).

Definition snapshot (now : Z) (info_hash : bytes) (swarms : Swarms) : option SwarmView :=
  swarms !! info_hash ≫= view now info_hash.

Definition counts (now : Z) (swarms : Swarms) : gmap bytes (nat * nat) :=
  filter (fun kc => kc.2 <> (0, 0)) ((fun swarm => tally swarm now) <$> swarms).

Definition scrape (now : Z) (info_hash : bytes) (swarms : Swarms) : nat * nat :=
  match swarms !! info_hash with
  | None => (0, 0)
  | Some swarm => tally swarm now
  end.

End Swarms.

(** ** Responses *)

Definition pack_compact (addr : SocketAddr) (out : bytes) : bytes :=
  (out ++ octets (sa_ip addr)) ++ u16_be (sa_port addr).

Definition put_int (key : bytes) (value : Z) (out : bytes) : bytes :=
  write_int value (write_bytes key out).

(** One peer of the dictionary form. *)
Definition write_peer_dict (addr : SocketAddr) (out : bytes) : bytes :=
  let out := out ++ ["d"%byte] in
  let out := write_bytes (bs "ip") out in
  let out := write_bytes (ip_to_string (sa_ip addr)) out in
  let out := write_bytes (bs "port") out in
  let out := write_int (Z.of_N (sa_port addr)) out in
  out ++ ["e"%byte].

Definition to_bencode (r : AnnounceResponse) (compact : bool) : bytes :=
  let out := ["d"%byte] in
  let out := put_int (bs "complete") (as_i64 (N.of_nat (rs_complete r))) out in
  let out := put_int (bs "incomplete") (as_i64 (N.of_nat (rs_incomplete r))) out in
  let out := put_int (bs "interval") INTERVAL out in
  let out := put_int (bs "min interval") MIN_INTERVAL out in
  let v4 := List.filter is_ipv4 (rs_peers r) in
  let v6 := List.filter is_ipv6 (rs_peers r) in
  let v6_count := length v6 in
  let v4_count := length (rs_peers r) - v6_count in
  let out := write_bytes (bs "peers") out in
  let out :=
    if compact then
      let out := write_len (N.of_nat (v4_count * 6)) out in
      fold_left (fun out addr => pack_compact addr out) v4 out
    else
      let out := out ++ ["l"%byte] in
      let out := fold_left (fun out addr => write_peer_dict addr out) (v4 ++ v6) out in
      out ++ ["e"%byte] in
  let out :=
    if compact && bool_decide (0 < v6_count) then
      let out := write_bytes (bs "peers6") out in
      let out := write_len (N.of_nat (v6_count * 18)) out in
      fold_left (fun out addr => pack_compact addr out) v6 out
    else out in
  out ++ ["e"%byte].

Definition failure_bencode (reason : bytes) : bytes :=
  encode (VDict (btree_collect [(bs "failure reason", vstring reason)])).

(** [n as i64]. *)
Definition count_value (n : nat) : Value := VInt (as_i64 (N.of_nat n)).

Definition scrape_entry (f : bytes * nat * nat) : bytes * Value :=
  let '(hash, complete, incomplete) := f in
  (hash, VDict (btree_collect
    [(bs "complete", count_value complete);
     (bs "downloaded", count_value complete);
     (bs "incomplete", count_value incomplete)])).

Definition scrape_bencode (files : list (bytes * nat * nat)) : bytes :=
  let files := VDict (btree_collect (map scrape_entry files)) in
  encode (VDict (btree_collect [(bs "files", files)])).

(** ** What one announce does to the swarms *)

(** A hash without an entry has an empty swarm. *)
Definition swarm_of (swarms : Swarms) (h : bytes) : Swarm := default ∅ (swarms !! h).

(** No empty swarm lingers in the map. *)
Definition swarms_wf (swarms : Swarms) : Prop :=
  forall h swarm, swarms !! h = Some swarm -> swarm <> ∅.

(** The peer an announce records, if it records one. *)
Definition recorded (r : AnnounceRequest) (addr : SocketAddr) (now : Z) : option Peer :=
  if decide (rq_event r = Stopped) then None
  else Some (mkPeer addr (rq_left r) (rq_uploaded r) (rq_downloaded r) now).

Lemma is_live_now p now : p_last_seen p = now -> is_live now p = true.
Proof. unfold is_live. intros <-. rewrite Z.sub_diag. reflexivity. Qed.

Section Effect.
Context `{I : HashIter}.

(** The announced swarm after the sweep and the update. *)
Definition swept (swarms : Swarms) (h : bytes) (now : Z) : Swarm :=
  filter (fun kp => is_live now kp.2 = true) (swarm_of swarms h).

Definition updated (r : AnnounceRequest) (addr : SocketAddr) (now : Z) (swarms : Swarms) : Swarm :=
  match recorded r addr now with
  | None => delete (rq_peer_id r) (swept swarms (rq_info_hash r) now)
  | Some p => <[rq_peer_id r := p]> (swept swarms (rq_info_hash r) now)
  end.

Lemma announce_eq r addr now swarms :
  announce r addr now swarms =
  (mkResponse
     (map (fun kp => p_addr kp.2)
       (take (N.to_nat (rq_numwant r))
         (filter (fun kp => kp.1 <> rq_peer_id r) (hm_iter (updated r addr now swarms)))))
     (tally (updated r addr now swarms) now).1
     (tally (updated r addr now swarms) now).2
     (match swept swarms (rq_info_hash r) now !! rq_peer_id r with
      | None => mkTransfer 0 0
      | Some p => transfer_since (p_uploaded p, p_downloaded p) (rq_uploaded r, rq_downloaded r)
      end),
   if decide (updated r addr now swarms = ∅)
   then delete (rq_info_hash r) swarms
   else <[rq_info_hash r := updated r addr now swarms]> swarms).
Proof.
  unfold announce, updated, recorded, swept, swarm_of.
  destruct (decide (rq_event r = Stopped)); by destruct (tally _ now).
Qed.

Lemma swept_lookup swarms h now p :
  swept swarms h now !! p =
  match swarm_of swarms h !! p with
  | Some q => if is_live now q then Some q else None
  | None => None
  end.
Proof.
  unfold swept. destruct (swarm_of swarms h !! p) as [q|] eqn:E.
  - destruct (is_live now q) eqn:L.
    + by apply map_lookup_filter_Some.
    + apply map_lookup_filter_None. right. intros x Hx. simplify_eq. simpl. congruence.
  - apply map_lookup_filter_None. by left.
Qed.

Lemma updated_lookup r addr now swarms p :
  updated r addr now swarms !! p =
  if decide (p = rq_peer_id r) then recorded r addr now
  else swept swarms (rq_info_hash r) now !! p.
Proof.
  unfold updated. destruct (recorded r addr now) as [q|].
  - rewrite lookup_insert. repeat case_decide; congruence.
  - rewrite lookup_delete. repeat case_decide; congruence.
Qed.

Lemma announce_swarm_of r addr now swarms h :
  swarm_of (announce r addr now swarms).2 h =
  if decide (h = rq_info_hash r) then updated r addr now swarms else swarm_of swarms h.
Proof.
  rewrite announce_eq. unfold swarm_of. simpl.
  destruct (decide (updated r addr now swarms = ∅)) as [E|E].
  - rewrite lookup_delete. repeat case_decide; subst; try done; congruence.
  - rewrite lookup_insert. repeat case_decide; subst; try done; congruence.
Qed.

Lemma announce_other r addr now swarms h :
  h <> rq_info_hash r -> (announce r addr now swarms).2 !! h = swarms !! h.
Proof.
  intros Hne. rewrite announce_eq. simpl. case_decide.
  - by rewrite lookup_delete_ne by done.
  - by rewrite lookup_insert_ne by done.
Qed.

Lemma announced_not_empty r addr now swarms :
  (announce r addr now swarms).2 !! rq_info_hash r <> Some ∅.
Proof.
  rewrite announce_eq. simpl. case_decide as E.
  - by rewrite lookup_delete_eq.
  - rewrite lookup_insert_eq. by intros [= E'].
Qed.

Lemma announce_wf r addr now swarms :
  swarms_wf swarms -> swarms_wf (announce r addr now swarms).2.
Proof.
  intros Hwf h swarm. rewrite announce_eq. simpl. case_decide as E.
  - rewrite lookup_delete. case_decide; [done|apply Hwf].
  - rewrite lookup_insert. case_decide; [by intros [= <-]|apply Hwf].
Qed.

(** Everything in an updated swarm is live. *)
Lemma updated_live r addr now swarms p q :
  updated r addr now swarms !! p = Some q -> is_live now q = true.
Proof.
  rewrite updated_lookup, swept_lookup. unfold recorded. intros H.
  repeat (case_decide || case_match); simplify_eq; try done. by apply is_live_now.
Qed.

(** *** Counting *)

Context `{L : !HashIterLaws I}.

Lemma live_perm swarm now :
  live swarm now ≡ₚ map_to_list (filter (fun kp => is_live now kp.2 = true) swarm).
Proof.
  unfold live. rewrite (hm_iter_perm _ swarm). symmetry. apply map_to_list_filter.
Qed.

Lemma live_length swarm now :
  length (live swarm now) = size (filter (fun kp => is_live now kp.2 = true) swarm).
Proof. rewrite live_perm. apply length_map_to_list. Qed.

(** Seeders of a swarm. *)
Definition seeders (swarm : Swarm) : Swarm := filter (fun kp => p_left kp.2 = 0%N) swarm.

Lemma tally_fold l a b :
  fold_left
    (fun '(complete, incomplete) (kp : bytes * Peer) =>
       if (p_left kp.2 =? 0)%N then (complete + 1, incomplete) else (complete, incomplete + 1))
    l (a, b)
  = (a + length (filter (fun kp => p_left kp.2 = 0%N) l),
     b + (length l - length (filter (fun kp => p_left kp.2 = 0%N) l))).
Proof.
  revert a b. induction l as [|kp l IH]; intros a b; simpl; [f_equal; lia|].
  pose proof (length_filter (fun kp : bytes * Peer => p_left kp.2 = 0%N) l).
  rewrite filter_cons. destruct (N.eqb_spec (p_left kp.2) 0) as [E|E].
  - rewrite IH. case_decide; [|done]. simpl. f_equal; lia.
  - rewrite IH. case_decide; [done|]. f_equal; lia.
Qed.

Lemma seeders_length swarm now :
  length (filter (fun kp => p_left kp.2 = 0%N) (live swarm now)) =
  size (seeders (filter (fun kp => is_live now kp.2 = true) swarm)).
Proof.
  rewrite <- length_map_to_list. unfold seeders. apply Permutation_length.
  rewrite map_to_list_filter. apply filter_Permutation, live_perm.
Qed.

Lemma tally_eq swarm now :
  let l := filter (fun kp => is_live now kp.2 = true) swarm in
  tally swarm now = (size (seeders l), size l - size (seeders l)).
Proof.
  cbv zeta. unfold tally. by rewrite tally_fold, seeders_length, live_length.
Qed.

Lemma seeders_le swarm : size (seeders swarm) <= size swarm.
Proof. apply map_subseteq_size, map_filter_subseteq. Qed.

Lemma filter_live_id (swarm : Swarm) now :
  (forall p q, swarm !! p = Some q -> is_live now q = true) ->
  filter (fun kp => is_live now kp.2 = true) swarm = swarm.
Proof. intros H. apply map_filter_id. intros p q Hq. by apply (H p). Qed.

Lemma tally_updated r addr now swarms :
  tally (updated r addr now swarms) now =
  (size (seeders (updated r addr now swarms)),
   size (updated r addr now swarms) - size (seeders (updated r addr now swarms))).
Proof.
  rewrite tally_eq, filter_live_id; [done|]. intros p q. apply updated_live.
Qed.

Lemma tally_zero swarm now :
  tally swarm now = (0, 0) <-> filter (fun kp => is_live now kp.2 = true) swarm = ∅.
Proof.
  rewrite tally_eq. rewrite <- map_size_empty_iff.
  pose proof (seeders_le (filter (fun kp => is_live now kp.2 = true) swarm)).
  split; [intros [= ? ?]; lia|]. intros E. f_equal; lia.
Qed.

Lemma tally_sum swarm now :
  (tally swarm now).1 + (tally swarm now).2 = length (live swarm now).
Proof.
  rewrite tally_eq, live_length. simpl.
  pose proof (seeders_le (filter (fun kp => is_live now kp.2 = true) swarm)). lia.
Qed.

(** The entries an answer is drawn from: the others of the swarm. *)
Lemma others_perm (swarm : Swarm) (id : bytes) :
  filter (fun kp => kp.1 <> id) (hm_iter swarm) ≡ₚ map_to_list (delete id swarm).
Proof.
  rewrite (hm_iter_perm _ swarm), <- map_to_list_filter.
  apply Permutation_refl', f_equal. apply map_eq. intros k.
  destruct (decide (k = id)) as [->|Hne].
  - rewrite lookup_delete_eq. apply map_lookup_filter_None. right. naive_solver.
  - rewrite lookup_delete_ne by done. apply option_eq. intros q.
    rewrite map_lookup_filter_Some. naive_solver.
Qed.

Lemma view_None now h swarm :
  view now h swarm = None <-> filter (fun kp => is_live now kp.2 = true) swarm = ∅.
Proof.
  rewrite <- map_size_empty_iff, <- live_length. unfold view.
  destruct (live swarm now); simpl; [done|]. destruct (tally swarm now). done.
Qed.

Lemma view_Some now h swarm v :
  view now h swarm = Some v ->
  v = mkView h (map (fun kp => p_addr kp.2) (live swarm now))
        (tally swarm now).1 (tally swarm now).2.
Proof.
  unfold view. destruct (map _ _) eqn:E; [done|]. destruct (tally swarm now).
  intros [= <-]. done.
Qed.

(** [stats] as sums over the swarms that have a live peer. *)
Lemma stats_fold now l acc :
  fold_left
    (fun acc (kp : bytes * Swarm) =>
       let '(seeders, leechers) := tally kp.2 now in
       if decide (0 < seeders + leechers)
       then mkStats (st_swarms acc + 1) (st_peers acc + (seeders + leechers))
              (st_seeders acc + seeders)
       else acc) l acc
  = mkStats
      (st_swarms acc + length (omap (fun kp => view now kp.1 kp.2) l))
      (st_peers acc + sum_list_with (fun v => length (vw_peers v))
                        (omap (fun kp => view now kp.1 kp.2) l))
      (st_seeders acc + sum_list_with vw_complete (omap (fun kp => view now kp.1 kp.2) l)).
Proof.
  revert acc. induction l as [|[h swarm] l IH]; intros acc; simpl.
  - destruct acc; simpl. by rewrite !Nat.add_0_r.
  - rewrite IH. pose proof (tally_sum swarm now) as Hsum.
    destruct (view now h swarm) as [v|] eqn:Ev.
    + apply view_Some in Ev as Hv. subst v. destruct (tally swarm now) as [a b]; simpl in *.
      assert (live swarm now <> []) as Hne by (intros E; unfold view in Ev; by rewrite E in Ev).
      destruct (live swarm now); [done|]. simpl in *.
      rewrite decide_True by lia. simpl. rewrite length_map.
      change (list_omap _ _ ?f l) with (omap f l). f_equal; lia.
    + apply view_None, (tally_zero swarm now) in Ev. rewrite Ev. simpl. done.
Qed.

End Effect.

(** ** Reachable tracker states *)

(** The tracker as a transition system: its swarms and the time of its last
    announce.  Announces are serialised by the write lock, and the monotonic
    clock never goes back. *)
Inductive tracker_reachable `{I : HashIter} : Z -> Swarms -> Prop :=
| tr_init t : tracker_reachable t ∅
| tr_announce t now swarms r addr :
    tracker_reachable t swarms -> (t <= now)%Z ->
    tracker_reachable now (announce r addr now swarms).2.

Lemma tracker_reachable_inv `{I : HashIter} t swarms :
  tracker_reachable t swarms ->
  swarms_wf swarms /\
  forall h p q, swarm_of swarms h !! p = Some q -> (p_last_seen q <= t)%Z.
Proof.
  induction 1 as [t|t now swarms r addr _ [IHwf IHt] Hle].
  - split; [by intros h swarm H|]. intros h p q. unfold swarm_of. by rewrite lookup_empty.
  - split; [by apply announce_wf|]. intros h p q. rewrite announce_swarm_of.
    case_decide; [|intros Hq; specialize (IHt _ _ _ Hq); lia].
    rewrite updated_lookup, swept_lookup. unfold recorded. intros Hq.
    repeat (case_decide || case_match); simplify_eq; simpl; [lia|].
    match goal with E : swarm_of _ _ !! _ = Some _ |- _ => specialize (IHt _ _ _ E) end. lia.
Qed.

(** ** The streamed response is the encoding of a dictionary *)

(** The compact form of a list of peers. *)
Definition packed (l : list SocketAddr) : bytes := concat (map (fun a => pack_compact a []) l).

Definition peer_dict (a : SocketAddr) : Value :=
  VDict [(bs "ip", vstring (ip_to_string (sa_ip a))); (bs "port", VInt (Z.of_N (sa_port a)))].

(** What a client reads out of a response. *)
Definition response_dict (r : AnnounceResponse) (compact : bool) : list (bytes * Value) :=
  let v4 := List.filter is_ipv4 (rs_peers r) in
  let v6 := List.filter is_ipv6 (rs_peers r) in
  [(bs "complete", count_value (rs_complete r));
   (bs "incomplete", count_value (rs_incomplete r));
   (bs "interval", VInt INTERVAL);
   (bs "min interval", VInt MIN_INTERVAL);
   (bs "peers", if compact then VBytes (packed v4) else VList (map peer_dict (v4 ++ v6)))]
  ++ (if compact && bool_decide (0 < length v6) then [(bs "peers6", VBytes (packed v6))] else []).

Lemma pack_compact_app a out : pack_compact a out = out ++ pack_compact a [].
Proof. unfold pack_compact. by rewrite <- app_assoc. Qed.

Lemma fold_pack l out :
  fold_left (fun out a => pack_compact a out) l out = out ++ packed l.
Proof.
  revert out. unfold packed. induction l as [|a l IH]; intros out; simpl; [by rewrite app_nil_r|].
  by rewrite IH, pack_compact_app, app_assoc.
Qed.

Lemma write_peer_dict_app a out : write_peer_dict a out = out ++ encode (peer_dict a).
Proof.
  unfold write_peer_dict, peer_dict. rewrite encode_dict. cbn [map concat].
  unfold enc_entry. cbn [fst snd]. rewrite encode_int.
  change (encode (vstring ?s)) with (write_bytes s []).
  rewrite (write_bytes_app (bs "port")), (write_bytes_app (ip_to_string _)),
    (write_bytes_app (bs "ip")), write_int_app.
  change (write_int ?n []) with ("i"%byte :: i_to_string n ++ ["e"%byte]).
  rewrite app_nil_r, <- !app_assoc. simpl. by rewrite <- !app_assoc.
Qed.

Lemma fold_peer_dicts l out :
  fold_left (fun out a => write_peer_dict a out) l out
  = out ++ concat (map encode (map peer_dict l)).
Proof.
  revert out. induction l as [|a l IH]; intros out; cbn [fold_left map concat];
    [by rewrite app_nil_r|].
  by rewrite IH, write_peer_dict_app, app_assoc.
Qed.

Lemma packed_length n l :
  Forall (fun a => length (octets (sa_ip a)) = n) l -> length (packed l) = length l * (n + 2).
Proof.
  unfold packed. induction 1 as [|a l Ha Hl IH]; simpl; [done|].
  unfold pack_compact at 1. rewrite !length_app, IH. simpl. lia.
Qed.

Lemma v4_v6_length l :
  length (List.filter is_ipv4 l) + length (List.filter is_ipv6 l) = length l.
Proof.
  induction l as [|a l IH]; simpl; [done|].
  unfold is_ipv6 at 1. destruct (is_ipv4 a); simpl; lia.
Qed.

(** The addresses the packed form can carry. *)
Definition peers_wf (l : list SocketAddr) : Prop := Forall (fun a => ip_wf (sa_ip a)) l.

Lemma v4_octets l : Forall (fun a => length (octets (sa_ip a)) = 4) (List.filter is_ipv4 l).
Proof.
  induction l as [|[[] port] l IH]; simpl; try done. by constructor.
Qed.

Lemma v6_octets l :
  peers_wf l -> Forall (fun a => length (octets (sa_ip a)) = 16) (List.filter is_ipv6 l).
Proof.
  induction 1 as [|[[|segs] port] l Ha Hl IH]; simpl; [done|done|].
  constructor; [|done]. by apply (octets_length (V6 segs)).
Qed.

Lemma encode_dict_app (l1 l2 : list (bytes * Value)) :
  encode (VDict (l1 ++ l2)) =
  "d"%byte :: concat (map (enc_entry encode) l1) ++ concat (map (enc_entry encode) l2) ++ ["e"%byte].
Proof. by rewrite encode_dict, map_app, concat_app, <- app_assoc. Qed.

Lemma put_int_app k n out :
  put_int k n out = out ++ enc_entry encode (k, VInt n).
Proof.
  unfold put_int, enc_entry. by rewrite write_int_app, write_bytes_app, <- app_assoc.
Qed.

(** A length prefix and a payload of that length are the entry's byte string. *)
Lemma write_len_payload k b len out :
  len = N.of_nat (length b) ->
  write_len len (write_bytes k out) ++ b = out ++ enc_entry encode (k, VBytes b).
Proof.
  intros ->. unfold enc_entry. cbn [fst snd]. change (encode (VBytes b)) with (write_bytes b []).
  unfold write_bytes at 3. unfold write_len.
  rewrite write_bytes_app. by rewrite <- !app_assoc.
Qed.

Lemma to_bencode_dict r compact :
  peers_wf (rs_peers r) -> to_bencode r compact = encode (VDict (response_dict r compact)).
Proof.
  intros Hwf. unfold to_bencode, response_dict. cbv zeta.
  pose proof (v4_v6_length (rs_peers r)) as Hlen.
  pose proof (packed_length 4 _ (v4_octets (rs_peers r))) as H4.
  pose proof (packed_length 16 _ (v6_octets _ Hwf)) as H6. simpl in H4, H6.
  set (v4 := List.filter is_ipv4 (rs_peers r)) in *.
  set (v6 := List.filter is_ipv6 (rs_peers r)) in *.
  rewrite encode_dict_app. cbn [map concat]. rewrite !put_int_app.
  destruct compact; cbn [andb].
  - rewrite !fold_pack, (write_len_payload (bs "peers")) by lia.
    case_bool_decide; cbn [map concat].
    + rewrite (write_len_payload (bs "peers6")) by lia.
      rewrite app_nil_r, <- !app_assoc. simpl. by rewrite <- !app_assoc.
    + rewrite app_nil_r, <- !app_assoc. simpl. by rewrite <- !app_assoc.
  - rewrite fold_peer_dicts. cbn [map concat].
    unfold enc_entry at 9. cbn [fst snd]. rewrite encode_list, write_bytes_app.
    rewrite app_nil_r, <- !app_assoc. simpl. by rewrite <- !app_assoc.
Qed.

(** ** Queries as clients write them *)

(** Every byte as [%XX]. *)
Definition pct_encode (s : bytes) : bytes :=
  concat (map (fun b => ["%"%byte; hex_digit (byte_val b / 16); hex_digit (byte_val b mod 16)]) s).

Definition event_text (e : Event) : bytes :=
  match e with
  | Started => bs "started"
  | Stopped => bs "stopped"
  | Completed => bs "completed"
  | NoEvent => []
  end.

Definition query_pair (kv : bytes * bytes) : bytes := kv.1 ++ "="%byte :: kv.2.

(** The parameters of an announce, as a BitTorrent client sends them. *)
Definition client_params (r : AnnounceRequest) : list (bytes * bytes) :=
  [(bs "info_hash", pct_encode (rq_info_hash r));
   (bs "peer_id", pct_encode (rq_peer_id r));
   (bs "port", u_to_string (rq_port r));
   (bs "uploaded", u_to_string (rq_uploaded r));
   (bs "downloaded", u_to_string (rq_downloaded r));
   (bs "left", u_to_string (rq_left r));
   (bs "event", event_text (rq_event r));
   (bs "compact", if rq_compact r then bs "1" else bs "0");
   (bs "numwant", u_to_string (rq_numwant r))].

Definition client_query (r : AnnounceRequest) : bytes :=
  join (bs "&") (map query_pair (client_params r)).

(** What the Rust types and the protocol guarantee of a request without an
    [ip] parameter. *)
Record request_wf (r : AnnounceRequest) : Prop := {
  rwf_hash : length (rq_info_hash r) = HASH_LEN;
  rwf_peer : length (rq_peer_id r) = HASH_LEN;
  rwf_port : (1 <= rq_port r <= u16_max)%N;
  rwf_left : (rq_left r <= u64_max)%N;
  rwf_uploaded : (rq_uploaded r <= u64_max)%N;
  rwf_downloaded : (rq_downloaded r <= u64_max)%N;
  rwf_numwant : (rq_numwant r <= MAX_NUMWANT)%N;
  rwf_ip : rq_declared_ip r = None
}.

(** Bytes that stand for themselves in a query value. *)
Definition query_plain (b : byte) : Prop :=
  b <> "&"%byte /\ b <> "%"%byte /\ b <> "+"%byte.

Lemma digits_query_plain n : Forall query_plain (u_to_string n).
Proof.
  eapply Forall_impl; [apply u_to_string_digits|].
  intros b Hb. split_and!; by apply digit_ne.
Qed.

Lemma hex_digit_spec n :
  (n < 16)%N -> to_digit 16 (hex_digit n) = Some n /\ query_plain (hex_digit n).
Proof.
  intros Hn.
  assert (n ∈ map N.of_nat (seq 0 16)) as Hin.
  { apply list_elem_of_fmap. exists (N.to_nat n). rewrite elem_of_seq. lia. }
  cbn in Hin. repeat (apply elem_of_cons in Hin as [->|Hin]; [vm_compute; split_and!; congruence|]).
  by apply elem_of_nil in Hin.
Qed.

Lemma byte_nibbles b : (byte_val b / 16 < 16)%N /\ (byte_val b mod 16 < 16)%N.
Proof.
  pose proof (byte_val_lt b). split; [apply N.Div0.div_lt_upper_bound; lia|].
  by apply N.mod_lt.
Qed.

Section QueryRoundtrip.
Context `{D : Decoders} `{PL : !PercentLaws D}.

Lemma pct_decode_plain s : Forall query_plain s -> pct_decode s = s.
Proof.
  induction 1 as [|b s (_ & Hb & _) Hs IH]; [apply pct_nil|]. by rewrite pct_plain, IH.
Qed.

Lemma percent_decode_plain s : Forall query_plain s -> percent_decode s = s.
Proof.
  intros Hs. unfold percent_decode. rewrite decide_False; [by apply pct_decode_plain|].
  intros Hin. rewrite Forall_forall in Hs. by destruct (Hs _ Hin) as (_ & _ & ?).
Qed.

Lemma pct_decode_encode s : pct_decode (pct_encode s) = s.
Proof.
  induction s as [|b s IH]; [apply pct_nil|].
  destruct (byte_nibbles b) as [H1 H2].
  change (pct_encode (b :: s))
    with ("%"%byte :: hex_digit (byte_val b / 16) :: hex_digit (byte_val b mod 16) :: pct_encode s).
  rewrite (pct_hex _ _ (byte_val b / 16) (byte_val b mod 16)) by by apply hex_digit_spec.
  rewrite IH, <- N.div_mod by done. by rewrite byte_of_val.
Qed.

Lemma pct_encode_no_plus s : "+"%byte ∉ pct_encode s /\ "&"%byte ∉ pct_encode s.
Proof.
  induction s as [|b s IH]; [split; apply not_elem_of_nil|].
  destruct (byte_nibbles b) as [H1 H2].
  destruct (hex_digit_spec _ H1) as [_ (? & ? & ?)], (hex_digit_spec _ H2) as [_ (? & ? & ?)].
  change (pct_encode (b :: s))
    with ("%"%byte :: hex_digit (byte_val b / 16) :: hex_digit (byte_val b mod 16) :: pct_encode s).
  rewrite !not_elem_of_cons. naive_solver.
Qed.

Lemma percent_decode_encode s : percent_decode (pct_encode s) = s.
Proof.
  unfold percent_decode. rewrite decide_False by apply pct_encode_no_plus.
  apply pct_decode_encode.
Qed.

(** One well-formed pair adds one parameter. *)
Lemma parse_pair_kv k v params :
  Forall (fun b => bool_decide (b = "="%byte) = false) k -> k <> [] -> utf8_valid k = true ->
  parse_pair (query_pair (k, v)) params = <[k := percent_decode v]> params.
Proof.
  intros Hk Hne Hutf. unfold parse_pair, query_pair. cbn [fst snd].
  destruct (k ++ "="%byte :: v) as [|b r] eqn:E; [by destruct k|]. rewrite <- E.
  rewrite position_app by done. rewrite take_app_length, Nat.add_1_r.
  replace (drop (S (length k)) (k ++ "="%byte :: v)) with v.
  - unfold from_utf8. by rewrite Hutf.
  - replace (k ++ "="%byte :: v) with ((k ++ ["="%byte]) ++ v) by by rewrite <- app_assoc.
    replace (S (length k)) with (length (k ++ ["="%byte])) by (rewrite length_app; simpl; lia).
    by rewrite drop_app_length.
Qed.

(** The parameters a list of pairs leaves in the map. *)
Definition params_of (kvs : list (bytes * bytes)) : gmap bytes bytes :=
  fold_left (fun m kv => <[kv.1 := percent_decode kv.2]> m) kvs ∅.

(** Keys the query builder may use. *)
Definition key_ok (k : bytes) : bool :=
  forallb (fun b => negb (bool_decide (b = "="%byte)) && negb (bool_decide (b = "&"%byte))) k
  && negb (bool_decide (k = [])) && utf8_valid k.

Lemma key_ok_spec k :
  key_ok k = true ->
  Forall (fun b => bool_decide (b = "="%byte) = false) k /\ "&"%byte ∉ k /\ k <> [] /\
  utf8_valid k = true.
Proof.
  unfold key_ok. rewrite !andb_true_iff, forallb_forall, negb_true_iff, bool_decide_eq_false.
  intros [[Hall ?] ?]. split_and!; try done.
  - apply Forall_forall. intros b Hb%list_elem_of_In. specialize (Hall _ Hb).
    apply andb_true_iff in Hall as [H1 _]. by apply negb_true_iff.
  - intros Hin%list_elem_of_In. specialize (Hall _ Hin).
    by rewrite bool_decide_true, andb_false_r in Hall.
Qed.

Lemma parse_query_pairs kvs :
  kvs <> [] -> Forall (fun kv => key_ok kv.1 = true /\ "&"%byte ∉ kv.2) kvs ->
  parse_query (join (bs "&") (map query_pair kvs)) = params_of kvs.
Proof.
  intros Hne Hkvs. unfold parse_query. change (bs "&") with ["&"%byte].
  rewrite split_byte_join.
  - unfold params_of. generalize (∅ : gmap bytes bytes). clear Hne.
    induction Hkvs as [|[k v] kvs [Hk _] Hkvs IH]; intros m; [done|]. cbn [map fold_left].
    apply key_ok_spec in Hk as (? & _ & ? & ?). rewrite parse_pair_kv by done. apply IH.
  - by destruct kvs.
  - clear Hne. induction Hkvs as [|[k v] kvs [Hk Hv] Hkvs IH]; simpl; constructor; [|done].
    apply key_ok_spec in Hk as (_ & Hk & _ & _). unfold query_pair. simpl in *.
    rewrite elem_of_app, elem_of_cons. naive_solver.
Qed.

Lemma plain_no_amp s : Forall query_plain s -> "&"%byte ∉ s.
Proof.
  intros Hs Hin. rewrite Forall_forall in Hs. by destruct (Hs _ Hin) as (? & _ & _).
Qed.

Lemma event_text_plain e : Forall query_plain (event_text e).
Proof. destruct e; vm_compute; repeat constructor; congruence. Qed.

Lemma compact_text_plain (c : bool) : Forall query_plain (if c then bs "1" else bs "0").
Proof. destruct c; vm_compute; repeat constructor; congruence. Qed.

Lemma number_param_digits params key dflt n :
  params !! key = Some (u_to_string n) -> (n <= u64_max)%N ->
  number_param params key dflt = Ok n.
Proof.
  intros H Hn. unfold number_param. rewrite H. unfold from_utf8.
  rewrite u_to_string_utf8. simpl. by rewrite parse_u_u_to_string.
Qed.

Lemma hash_param_ok params key h :
  params !! key = Some h -> length h = HASH_LEN -> hash_param params key = Ok h.
Proof.
  intros H Hl. unfold hash_param, get_param. rewrite H. simpl. by rewrite decide_True.
Qed.

(** The last value a list of pairs gives a key. *)
Definition last_value (key : bytes) (kvs : list (bytes * bytes)) : option bytes :=
  fold_left (fun o kv => if decide (kv.1 = key) then Some kv.2 else o) kvs None.

(** Looking a key up in the parameters: the last pair with that key wins. *)
Lemma params_of_lookup key kvs :
  params_of kvs !! key = percent_decode <$> last_value key kvs.
Proof.
  unfold params_of, last_value.
  enough (forall (m : gmap bytes bytes) o, m !! key = percent_decode <$> o ->
    fold_left (fun m kv => <[kv.1 := percent_decode kv.2]> m) kvs m !! key =
    percent_decode <$> fold_left (fun o kv => if decide (kv.1 = key) then Some kv.2 else o) kvs o)
    as H by (apply H, lookup_empty).
  induction kvs as [|[k v] kvs IH]; intros m o Hm; simpl; [done|].
  apply IH. simpl. rewrite lookup_insert. by case_decide.
Qed.

Lemma parse_client_query r : request_wf r -> parse_request (client_query r) = Ok r.
Proof.
  intros [Hh Hp Hport Hl Hu Hd Hn Hip]. unfold parse_request, client_query.
  rewrite parse_query_pairs; [|done|].
  - set (params := params_of (client_params r)).
    assert (forall k v, last_value k (client_params r) = v ->
              params !! k = percent_decode <$> v) as Hk
      by (intros k v <-; apply params_of_lookup).
    pose proof (Hk (bs "ip") None eq_refl) as K0.
    pose proof (Hk (bs "info_hash") (Some (pct_encode (rq_info_hash r))) eq_refl) as K1.
    pose proof (Hk (bs "peer_id") (Some (pct_encode (rq_peer_id r))) eq_refl) as K2.
    pose proof (Hk (bs "port") (Some (u_to_string (rq_port r))) eq_refl) as K3.
    pose proof (Hk (bs "uploaded") (Some (u_to_string (rq_uploaded r))) eq_refl) as K4.
    pose proof (Hk (bs "downloaded") (Some (u_to_string (rq_downloaded r))) eq_refl) as K5.
    pose proof (Hk (bs "left") (Some (u_to_string (rq_left r))) eq_refl) as K6.
    pose proof (Hk (bs "event") (Some (event_text (rq_event r))) eq_refl) as K7.
    pose proof (Hk (bs "compact") (Some (if rq_compact r then bs "1" else bs "0")) eq_refl) as K8.
    pose proof (Hk (bs "numwant") (Some (u_to_string (rq_numwant r))) eq_refl) as K9. clear Hk.
    cbn [fmap option_fmap option_map] in K0, K1, K2, K3, K4, K5, K6, K7, K8, K9.
    rewrite percent_decode_encode in K1, K2.
    rewrite percent_decode_plain in K3, K4, K5, K6, K9 by apply digits_query_plain.
    rewrite percent_decode_plain in K7 by apply event_text_plain.
    rewrite percent_decode_plain in K8 by apply compact_text_plain.
    unfold MAX_NUMWANT, u16_max, u64_max in *.
    rewrite (number_param_digits _ _ _ _ K3) by (unfold u64_max; lia). cbn [rbind].
    rewrite (proj2 (N.leb_le _ _)) by lia. cbn [rbind].
    rewrite (proj2 (N.eqb_neq _ _)) by lia.
    rewrite (hash_param_ok _ _ _ K1), (hash_param_ok _ _ _ K2) by done. cbn [rbind].
    rewrite (number_param_digits _ _ _ _ K6), (number_param_digits _ _ _ _ K4),
      (number_param_digits _ _ _ _ K5), (number_param_digits _ _ _ _ K9) by (unfold u64_max; lia).
    cbn [rbind]. rewrite K0, K7, K8, N.min_l by lia.
    destruct r as [h p port left up down ev cmp nw ip]; simpl in *. subst ip.
    by destruct ev, cmp.
  - unfold client_params. repeat constructor; simpl;
      first [ apply pct_encode_no_plus | apply plain_no_amp, digits_query_plain
            | apply plain_no_amp, event_text_plain | apply plain_no_amp, compact_text_plain ].
Qed.

End QueryRoundtrip.

(** ** Accounting over a whole session *)

(** The two cumulative counters a client reports. *)
Inductive counter : Type := Uploaded | Downloaded.

Definition rq_count (c : counter) (r : AnnounceRequest) : N :=
  match c with Uploaded => rq_uploaded r | Downloaded => rq_downloaded r end.
Definition p_count (c : counter) (p : Peer) : N :=
  match c with Uploaded => p_uploaded p | Downloaded => p_downloaded p end.
Definition tr_count (c : counter) (t : Transfer) : N :=
  match c with Uploaded => tr_uploaded t | Downloaded => tr_downloaded t end.

(** One announce as the tracker sees it. *)
Definition arrival : Type := Z * AnnounceRequest * SocketAddr.

Definition is_for (h p : bytes) (r : AnnounceRequest) : bool :=
  bool_decide (rq_info_hash r = h /\ rq_peer_id r = p).

(** What the announces of peer [p] in swarm [h] are said to have moved, over a
    run that interleaves everybody's announces. *)
Fixpoint moved `{I : HashIter} (c : counter) (h p : bytes) (swarms : Swarms)
    (run : list arrival) : N :=
  match run with
  | [] => 0
  | (now, r, addr) :: run' =>
      let '(resp, swarms') := announce r addr now swarms in
      (if is_for h p r then tr_count c (rs_transferred resp) else 0)
      + moved c h p swarms' run'
  end.

(** The counter [p] last reported. *)
Fixpoint last_count (c : counter) (h p : bytes) (u : N) (run : list arrival) : N :=
  match run with
  | [] => u
  | (_, r, _) :: run' => last_count c h p (if is_for h p r then rq_count c r else u) run'
  end.

(** A session: time does not go back, and [p] keeps announcing within its
    lifetime, without stopping and with counters that do not go back. *)
Fixpoint steady (c : counter) (h p : bytes) (t last : Z) (u : N) (run : list arrival) : Prop :=
  match run with
  | [] => True
  | (now, r, _) :: run' =>
      (t <= now)%Z /\
      if is_for h p r
      then (now - last < PEER_TTL)%Z /\ (u <= rq_count c r)%N /\ rq_event r <> Stopped /\
           steady c h p now now (rq_count c r) run'
      else steady c h p now last u run'
  end.

Lemma since_step_le before now : (before <= now)%N -> since_step before now = (now - before)%N.
Proof.
  intros H. unfold since_step, u64_checked_sub. by rewrite (proj2 (N.leb_le _ _) H).
Qed.

Lemma transfer_since_count c p r :
  tr_count c (transfer_since (p_uploaded p, p_downloaded p) (rq_uploaded r, rq_downloaded r))
  = since_step (p_count c p) (rq_count c r).
Proof. by destruct c. Qed.

Section Accounting.
Context `{I : HashIter} (c : counter) (h p : bytes).

(** Once [p]'s lifetime has passed, a steady run has no announce of [p] left. *)
Lemma steady_expired t last u run swarms :
  steady c h p t last u run -> (PEER_TTL <= t - last)%Z ->
  moved c h p swarms run = 0%N /\ last_count c h p u run = u.
Proof.
  revert t swarms. induction run as [|[[now r] addr] run IH]; intros t swarms Hs Ht; [done|].
  simpl in *. destruct Hs as [Hle Hs]. destruct (announce r addr now swarms) as [resp swarms'].
  destruct (is_for h p r); [lia|]. simpl.
  apply (IH now swarms' Hs). lia.
Qed.

Lemma moved_telescopes t last u run swarms q :
  swarm_of swarms h !! p = Some q -> p_count c q = u -> p_last_seen q = last -> (last <= t)%Z ->
  steady c h p t last u run ->
  (u + moved c h p swarms run)%N = last_count c h p u run.
Proof.
  revert t last u swarms q.
  induction run as [|[[now r] addr] run IH]; intros t last u swarms q Hq Hu Hlast Hle Hs;
    [simpl; lia|].
  pose proof (announce_eq r addr now swarms) as Ha.
  pose proof (announce_swarm_of r addr now swarms h) as Hsw.
  simpl in *. destruct Hs as [Htn Hs].
  destruct (announce r addr now swarms) as [resp swarms'].
  injection Ha as Hresp _. simpl in Hsw. unfold is_for in *.
  case_bool_decide as Hfor.
  - destruct Hfor as [Hh Hp]. destruct Hs as (Httl & Hmono & Hev & Hs).
    rewrite decide_True in Hsw by done.
    assert (is_live now q = true) as Hlive by (unfold is_live; apply Z.ltb_lt; lia).
    subst resp. simpl. rewrite Hh, Hp, swept_lookup, Hq, Hlive, transfer_since_count.
    rewrite since_step_le by (subst; lia).
    rewrite <- (IH now now (rq_count c r) swarms'
      (mkPeer addr (rq_left r) (rq_uploaded r) (rq_downloaded r) now));
      [lia| | |done|lia|done].
    + rewrite Hsw, updated_lookup, decide_True by done. unfold recorded. by rewrite decide_False.
    + by destruct c.
  - simpl. destruct (decide (h = rq_info_hash r)) as [Hh|Hh].
    + assert (rq_peer_id r <> p) as Hp by (intros Hp; by apply Hfor).
      destruct (is_live now q) eqn:Hlive.
      * apply (IH now last u swarms' q); try done; [|lia].
        rewrite Hsw, updated_lookup, decide_False by congruence.
        rewrite swept_lookup, <- Hh, Hq. by rewrite Hlive.
      * apply (steady_expired now last u run swarms') in Hs as [-> ->]; [lia|].
        unfold is_live in Hlive. apply Z.ltb_ge in Hlive. lia.
    + apply (IH now last u swarms' q); try done; [by rewrite Hsw|lia].
Qed.

End Accounting.

(** ** Concrete parameters, for the witnesses *)

Definition list_iter : HashIter := fun V m => map_to_list m.

Lemma list_iter_laws : HashIterLaws list_iter.
Proof. intros V m. reflexivity. Qed.

(** Percent decoding as documented. *)
Fixpoint pct_reference (s : bytes) : bytes :=
  match s with
  | [] => []
  | b :: s1 =>
      match s1 with
      | h :: l :: s3 =>
          if decide (b = "%"%byte) then
            match to_digit 16 h, to_digit 16 l with
            | Some x, Some y => byte_of (16 * x + y) :: pct_reference s3
            | _, _ => b :: pct_reference s1
            end
          else b :: pct_reference s1
      | _ => b :: pct_reference s1
      end
  end.

Definition reference_decoders : Decoders := {|
  pct_decode := pct_reference;
  hex_decode := fun _ => None
|}.

Lemma reference_percent_laws : PercentLaws reference_decoders.
Proof.
  split; cbn [pct_decode reference_decoders].
  - done.
  - intros b s Hb. destruct s as [|h [|l s]]; [done|done|]. cbn [pct_reference].
    by rewrite decide_False.
  - intros h l x y s Hx Hy. cbn [pct_reference]. by rewrite decide_True, Hx, Hy by done.
Qed.

Definition sample_request : AnnounceRequest :=
  mkRequest (replicate 20 "h"%byte) (replicate 20 "p"%byte) 6881 0 500 0 Started true 50 None.

Definition sample_addr : SocketAddr := mkSocketAddr (V4 x0a x00 x00 x01) 6881.

(** ** Properties *)

(** C1: the effect of one announce on the swarms.  Other torrents are
    untouched; in the announced swarm the peer's entry becomes what it
    announced, or disappears on [stopped], and every other entry stays exactly
    when it is within its lifetime; a swarm left without an entry is taken out
    of the map. *)
Theorem announce_effect `{I : HashIter} r addr now swarms :
  (forall h, h <> rq_info_hash r -> (announce r addr now swarms).2 !! h = swarms !! h) /\
  (forall p, swarm_of (announce r addr now swarms).2 (rq_info_hash r) !! p =
     if decide (p = rq_peer_id r) then recorded r addr now
     else match swarm_of swarms (rq_info_hash r) !! p with
          | Some q => if is_live now q then Some q else None
          | None => None
          end) /\
  (announce r addr now swarms).2 !! rq_info_hash r <> Some ∅.
Proof.
  split_and!; [intros h; apply announce_other| |apply announced_not_empty]. intros p.
  rewrite announce_swarm_of, decide_True by done. by rewrite updated_lookup, swept_lookup.
Qed.

(** The answer to one announce.  The counts are those of the updated
    swarm (seeders, and the rest); the peers handed out are distinct live
    entries of it, never the announcing peer, as many as asked for or all of
    them, whatever order the map iterates in. *)
Theorem announce_answer `{I : HashIter} r addr now swarms :
  HashIterLaws I ->
  let resp := (announce r addr now swarms).1 in
  let swarm := swarm_of (announce r addr now swarms).2 (rq_info_hash r) in
  rs_complete resp = size (seeders swarm) /\
  rs_complete resp + rs_incomplete resp = size swarm /\
  length (rs_peers resp) = Nat.min (N.to_nat (rq_numwant r)) (size (delete (rq_peer_id r) swarm)) /\
  exists l : list (bytes * Peer),
    rs_peers resp = map (fun kp => p_addr kp.2) l /\ NoDup (l.*1) /\
    forall id q, (id, q) ∈ l ->
      id <> rq_peer_id r /\ swarm !! id = Some q /\ is_live now q = true.
Proof.
  intros L resp swarm. subst resp swarm.
  rewrite announce_swarm_of, decide_True by done. rewrite announce_eq. cbn [fst].
  rewrite tally_updated. set (sw := updated r addr now swarms).
  cbn [rs_complete rs_incomplete rs_peers fst snd]. pose proof (seeders_le sw).
  pose proof (others_perm sw (rq_peer_id r)) as Hperm.
  split_and!; [done|lia| |].
  - rewrite length_map, length_take, Hperm, length_map_to_list. done.
  - eexists. split; [reflexivity|]. split.
    + eapply sublist_NoDup; [|apply fmap_sublist, sublist_take].
      rewrite Hperm. apply NoDup_fst_map_to_list.
    + intros id q Hin%elem_of_take_weaken. rewrite Hperm, elem_of_map_to_list in Hin.
      apply lookup_delete_Some in Hin as [Hne Hq]. split_and!; [done|done|].
      by apply (updated_live r addr now swarms id).
Qed.

Lemma announce_answer_witness :
  rs_complete (@announce list_iter sample_request sample_addr 0 ∅).1 = 1 /\
  rs_complete (@announce list_iter sample_request sample_addr 0 ∅).1
    = size (seeders (swarm_of (@announce list_iter sample_request sample_addr 0 ∅).2
                      (rq_info_hash sample_request))).
Proof.
  split; [vm_compute; reflexivity|].
  apply (@announce_answer list_iter sample_request sample_addr 0 ∅ list_iter_laws).
Defined.

(** Invariant of every reachable tracker state.  No empty swarm stays in
    the map, and no entry is dated after the last announce. *)
Theorem tracker_invariant `{I : HashIter} t swarms :
  tracker_reachable t swarms ->
  swarms_wf swarms /\
  forall h p q, swarm_of swarms h !! p = Some q -> (p_last_seen q <= t)%Z.
Proof. apply tracker_reachable_inv. Qed.

Lemma tracker_invariant_witness :
  swarms_wf (@announce list_iter sample_request sample_addr 5 ∅).2.
Proof.
  apply (@tracker_invariant list_iter 5).
  apply (tr_announce 0 5); [apply tr_init|lia].
Defined.

(** The views of the tracker agree.  [scrape], [counts], [snapshot],
    [snapshots] and [stats] all report the same live peers: a swarm is counted
    exactly when it has a snapshot, with the same seeders and leechers, and the
    totals are the sums over the snapshots. *)
Theorem tracker_views_agree `{I : HashIter} now swarms h :
  HashIterLaws I ->
  scrape now h swarms = default (0, 0) (counts now swarms !! h) /\
  counts now swarms !! h =
    (fun v => (vw_complete v, vw_incomplete v)) <$> snapshot now h swarms /\
  (forall v, snapshot now h swarms = Some v ->
     vw_complete v + vw_incomplete v = length (vw_peers v) /\ 0 < length (vw_peers v)) /\
  stats now swarms =
    mkStats (length (snapshots now swarms))
      (sum_list_with (fun v => length (vw_peers v)) (snapshots now swarms))
      (sum_list_with vw_complete (snapshots now swarms)).
Proof.
  intros L. pose proof (@stats_fold I L now (hm_iter swarms) (mkStats 0 0 0)) as Hst.
  assert (counts now swarms !! h =
            (fun v => (vw_complete v, vw_incomplete v)) <$> snapshot now h swarms) as Hc.
  { unfold counts, snapshot. destruct (swarms !! h) as [sw|] eqn:E; simpl.
    - destruct (view now h sw) as [v|] eqn:Ev; simpl.
      + apply map_lookup_filter_Some. rewrite lookup_fmap, E. simpl.
        apply view_Some in Ev as Hv. subst v. simpl. split; [by destruct (tally sw now)|].
        intros Hz. destruct (tally sw now) eqn:Et. simpl in Hz. injection Hz as -> ->.
        apply tally_zero, (view_None now h) in Et. congruence.
      + apply map_lookup_filter_None. right. intros x. rewrite lookup_fmap, E. simpl.
        intros [= <-]. apply view_None, tally_zero in Ev. intros Hn. by apply Hn.
    - apply map_lookup_filter_None. left. by rewrite lookup_fmap, E. }
  split_and!; [|done| |exact Hst].
  - rewrite Hc. unfold scrape, snapshot. destruct (swarms !! h) as [sw|]; simpl; [|done].
    destruct (view now h sw) as [v|] eqn:Ev; simpl.
    + apply view_Some in Ev as ->. simpl. by destruct (tally sw now).
    + by apply view_None, tally_zero in Ev.
  - unfold snapshot. destruct (swarms !! h) as [sw|]; simpl; [|done]. intros v Ev.
    apply view_Some in Ev as Hv. subst v. simpl. rewrite tally_sum, length_map. split; [done|].
    unfold view in Ev. destruct (live sw now); simpl in *; [done|lia].
Qed.

Lemma tracker_views_agree_witness :
  let swarms := (@announce list_iter sample_request sample_addr 0 ∅).2 in
  @scrape list_iter 0 (rq_info_hash sample_request) swarms =
  default (0, 0) (@counts list_iter 0 swarms !! rq_info_hash sample_request).
Proof.
  intros swarms.
  apply (@tracker_views_agree list_iter 0 swarms (rq_info_hash sample_request) list_iter_laws).
Defined.

(** Nothing is counted twice.  When a peer that is not live announces, and
    then keeps announcing within its lifetime with counters that do not go back
    (anyone else's announces interleaved), the transfers reported for it add up
    to its last counter minus its first: the first announce is the baseline. *)
Theorem transfer_accounting `{I : HashIter} c h p swarms now r addr run :
  (forall q, swarm_of swarms h !! p = Some q -> is_live now q = false) ->
  is_for h p r = true -> rq_event r <> Stopped ->
  steady c h p now now (rq_count c r) run ->
  (rq_count c r + moved c h p swarms ((now, r, addr) :: run))%N
  = last_count c h p (rq_count c r) run.
Proof.
  intros Hdead Hfor Hev Hs. cbn [moved].
  pose proof (announce_eq r addr now swarms) as Ha.
  pose proof (announce_swarm_of r addr now swarms h) as Hsw.
  destruct (announce r addr now swarms) as [resp swarms']. injection Ha as Hresp _.
  rewrite Hfor. unfold is_for in Hfor. apply bool_decide_eq_true in Hfor as [Hh Hp].
  rewrite decide_True in Hsw by done. simpl in Hsw.
  assert (tr_count c (rs_transferred resp) = 0%N) as ->.
  { subst resp. simpl. rewrite Hh, Hp, swept_lookup.
    destruct (swarm_of swarms h !! p) as [q|] eqn:Eq; [rewrite (Hdead q eq_refl)|]; by destruct c. }
  rewrite N.add_0_l.
  apply (moved_telescopes c h p now now _ run swarms'
    (mkPeer addr (rq_left r) (rq_uploaded r) (rq_downloaded r) now)); [|by destruct c|done|lia|done].
  rewrite Hsw, updated_lookup, decide_True by done. unfold recorded. by rewrite decide_False.
Qed.

Definition later_request : AnnounceRequest :=
  mkRequest (replicate 20 "h"%byte) (replicate 20 "p"%byte) 6881 0 900 0 NoEvent true 50 None.

Lemma transfer_accounting_witness :
  (500 + @moved list_iter Uploaded (replicate 20 "h"%byte) (replicate 20 "p"%byte) ∅
     [(0%Z, sample_request, sample_addr); (SEC, later_request, sample_addr)])%N = 900%N.
Proof.
  apply (@transfer_accounting list_iter Uploaded (replicate 20 "h"%byte) (replicate 20 "p"%byte)
    ∅ 0 sample_request sample_addr [(SEC, later_request, sample_addr)]).
  - intros q H. discriminate H.
  - reflexivity.
  - discriminate.
  - vm_compute. repeat split; discriminate.
Defined.

(** The wire form of an answer.  The bytes streamed for a response, compact
    or not, decode to the dictionary a client expects: counts, intervals, the
    IPv4 peers packed six bytes each and the IPv6 ones eighteen, or one list of
    all of them. *)
Theorem response_wire r compact :
  peers_wf (rs_peers r) ->
  (N.of_nat (rs_complete r) <= u64_max)%N -> (N.of_nat (rs_incomplete r) <= u64_max)%N ->
  Forall (fun a => (sa_port a <= u16_max)%N) (rs_peers r) ->
  (N.of_nat (length (to_bencode r compact)) <= usize_max)%N ->
  decode (to_bencode r compact) = Ok (VDict (response_dict r compact)).
Proof.
  intros Hwf Hc Hi Hports Hlen. rewrite to_bencode_dict in * by done.
  assert (forall l, Forall (fun a => (sa_port a <= u16_max)%N) l ->
            value_wf (VList (map peer_dict l)) /\ vdepth (VList (map peer_dict l)) <= 2) as Hpeers.
  { clear. intros l Hl. split.
    - constructor. apply Forall_map. eapply Forall_impl; [exact Hl|]. intros a Ha.
      constructor; [by apply btree_sorted_wf|].
      repeat constructor. simpl. apply in_i64_spec. unfold u16_max, i64_min, i64_max in *. lia.
    - induction Hl as [|a l _ _ IH]; [simpl; lia|]. simpl in *. lia. }
  assert (Forall (fun a => (sa_port a <= u16_max)%N)
            (List.filter is_ipv4 (rs_peers r) ++ List.filter is_ipv6 (rs_peers r))) as Hall.
  { clear -Hports. apply Forall_app. rewrite List.Forall_forall in Hports.
    split; apply List.Forall_forall; intros a [Ha _]%filter_In; auto. }
  apply Hpeers in Hall as [Hvwf Hvd]. clear Hpeers. apply decode_encode_wf; [| |done].
  - unfold response_dict. constructor.
    + apply btree_sorted_wf. destruct compact; [|reflexivity]. by destruct (bool_decide _).
    + repeat (apply Forall_cons_2; [cbn [snd]; try (constructor; by apply as_i64_in_range)|]);
        cbn [snd]; [by constructor|by constructor|by destruct compact; [constructor|]|].
      destruct (compact && _); repeat constructor.
  - unfold response_dict, MAX_DEPTH. cbn [app vdepth fold_right snd].
    destruct compact; [destruct (bool_decide _); simpl; lia|].
    cbn [app andb vdepth fold_right]. cbn [vdepth] in Hvd. simpl. lia.
Qed.

Lemma response_wire_witness :
  let r := mkResponse [sample_addr; mkSocketAddr (V6 [0; 0; 0; 0; 0; 0; 0; 1]%N) 80] 1 1
             (mkTransfer 0 0) in
  decode (to_bencode r true) = Ok (VDict (response_dict r true)).
Proof.
  apply response_wire; [repeat constructor| | |repeat constructor|]; vm_compute; discriminate.
Defined.

(** Parsing a client's announce query returns the request it describes:
    raw hashes and peer ids survive percent encoding whatever their bytes, and
    every number, the event and the compact flag come back. *)
Theorem announce_query_roundtrip `{D : Decoders} r :
  PercentLaws D -> request_wf r -> parse_request (client_query r) = Ok r.
Proof. intros HL. apply parse_client_query. Qed.

Lemma announce_query_roundtrip_witness :
  @parse_request reference_decoders (client_query sample_request) = Ok sample_request.
Proof.
  apply (@announce_query_roundtrip reference_decoders); [apply reference_percent_laws|].
  split; vm_compute; try done; split; discriminate.
Defined.

(** Which address is recorded.  A peer whose connection comes from a public
    address is recorded under that address whatever it claims; only a private
    neighbour's [ip] parameter is believed; and an IPv4-mapped address is never
    recorded as IPv6. *)
Theorem recorded_address r remote :
  let a := resolve_addr r remote in
  sa_port a = rq_port r /\
  (is_private_ip (to_canonical remote) = false -> sa_ip a = to_canonical remote) /\
  (is_private_ip (to_canonical remote) = true ->
     sa_ip a = to_canonical (default remote (rq_declared_ip r))) /\
  to_canonical (sa_ip a) = sa_ip a.
Proof.
  unfold resolve_addr. cbn [sa_port sa_ip].
  destruct (rq_declared_ip r) as [ip|]; cbn [fmap option_fmap option_map default];
    destruct (is_private_ip (to_canonical remote)); split_and!; try done;
    apply to_canonical_idemp.
Qed.
