(* ===== verification/Text.v ===== *)
(** * The parts of Rust's [str] the program uses

    A [&str] is its UTF-8 bytes.  A [char] is its own UTF-8 encoding, so that
    [chars] cuts a string into characters and [concat] puts it back. *)

From S2P Require Import Prelude RustStd.

(** ** Characters *)

Abbreviation char := (list byte).

(** A continuation byte, [0b10xxxxxx]. *)
Definition is_cont (b : byte) : bool := byte_in 128 191 b.

(** [str::chars]: every continuation byte belongs to the byte before it. *)
Fixpoint chars (s : bytes) : list char :=
  match s with
  | [] => []
  | b :: r =>
      match chars r with
      | (c :: cont) :: cs =>
          if is_cont c then (b :: c :: cont) :: cs else [b] :: (c :: cont) :: cs
      | cs => [b] :: cs
      end
  end.

Definition char_is_byte (p : byte -> bool) (c : char) : bool :=
  match c with [b] => p b | _ => false end.

(** [char::is_ascii_alphanumeric]. *)
Definition char_is_ascii_alphanumeric : char -> bool := char_is_byte is_ascii_alphanumeric.

(** One of the ASCII characters of a pattern such as [['.', '_']]. *)
Definition char_in (set : bytes) : char -> bool := char_is_byte (fun b => bool_decide (b ∈ set)).

(** [char::is_whitespace]: the Unicode White_Space property. *)
Definition is_whitespace (c : char) : bool :=
  match map byte_val c with
  | [a] => ((9 <=? a) && (a <=? 13)) || (a =? 32)
  | [194; b] => (b =? 133) || (b =? 160)
  | [225; 154; 128] => true
  | [226; 128; b] => ((128 <=? b) && (b <=? 138)) || (b =? 168) || (b =? 169) || (b =? 175)
  | [226; 129; 159] => true
  | [227; 128; 128] => true
  | _ => false
  end%N.

(** ** Trimming and splitting *)

Fixpoint drop_while {A : Type} (p : A -> bool) (l : list A) : list A :=
  match l with
  | [] => []
  | x :: r => if p x then drop_while p r else l
  end.

Definition trim_list {A : Type} (p : A -> bool) (l : list A) : list A :=
  reverse (drop_while p (reverse (drop_while p l))).

(** [str::trim_matches] and [str::trim]. *)
Definition trim_matches (p : char -> bool) (s : bytes) : bytes := concat (trim_list p (chars s)).
Definition trim (s : bytes) : bytes := trim_matches is_whitespace s.

(** [str::trim_start_matches(pat)] for a two-byte ASCII pattern. *)
Fixpoint trim_start_pair (a b : byte) (s : bytes) : bytes :=
  match s with
  | x :: y :: r => if bool_decide (x = a /\ y = b) then trim_start_pair a b r else s
  | _ => s
  end.

(** [split] at the elements that satisfy [p]. *)
Fixpoint split_on {A : Type} (p : A -> bool) (l : list A) : list (list A) :=
  match l with
  | [] => [[]]
  | x :: r =>
      if p x then [] :: split_on p r
      else match split_on p r with
           | part :: parts => (x :: part) :: parts
           | [] => [[x]]
           end
  end.

(** [str::split(pred)]. *)
Definition str_split (p : char -> bool) (s : bytes) : list bytes :=
  map (@concat byte) (split_on p (chars s)).

Definition is_nonempty {A : Type} (l : list A) : bool := match l with [] => false | _ => true end.

(** [str::split_whitespace]. *)
Definition split_whitespace (s : bytes) : list bytes :=
  filter (fun t => is_nonempty t) (str_split is_whitespace s).

(** [str::split_once(pred)] for a one-byte separator. *)
Definition split_once (p : byte -> bool) (s : bytes) : option (bytes * bytes) :=
  match position p s with
  | Some at_ => Some (take at_ s, drop (S at_) s)
  | None => None
  end.

(** [str::replace([..], with)] for ASCII characters. *)
Definition replace (set with_ : bytes) (s : bytes) : bytes :=
  flat_map (fun b => if bool_decide (b ∈ set) then with_ else [b]) s.

(** [str::starts_with] and [str::contains]. *)
Fixpoint starts_with (needle s : bytes) : bool :=
  match needle, s with
  | [], _ => true
  | a :: needle, b :: s => bool_decide (a = b) && starts_with needle s
  | _ :: _, [] => false
  end.

Fixpoint contains (needle s : bytes) : bool :=
  starts_with needle s || match s with [] => false | _ :: r => contains needle r end.

(** [str::strip_prefix]. *)
Fixpoint str_strip_prefix (prefix s : bytes) : option bytes :=
  match prefix, s with
  | [], _ => Some s
  | p :: prefix, b :: s => if bool_decide (p = b) then str_strip_prefix prefix s else None
  | _, [] => None
  end.

Lemma str_strip_prefix_app prefix s : str_strip_prefix prefix (prefix ++ s) = Some s.
Proof. induction prefix as [|p prefix IH]; [by destruct s|]. cbn. by rewrite bool_decide_eq_true_2. Qed.

Lemma str_strip_prefix_spec prefix s rest : str_strip_prefix prefix s = Some rest <-> s = prefix ++ rest.
Proof.
  split; [|by intros ->; apply str_strip_prefix_app]. revert s. induction prefix as [|p prefix IH]; intros s; [by intros [= <-]|].
  destruct s as [|b s]; [done|]. cbn. case_bool_decide; [|done]. intros E%IH. by subst.
Qed.

Definition str_to_ascii_lowercase (s : bytes) : bytes := map to_ascii_lowercase s.

Definition str_eq_ignore_ascii_case (a b : bytes) : bool :=
  bool_decide (str_to_ascii_lowercase a = str_to_ascii_lowercase b).

(** [{n:02}]. *)
Definition pad2 (n : N) : bytes :=
  let s := u_to_string n in if bool_decide (length s < 2) then "0"%byte :: s else s.

(** [Iterator::max_by_key]: the last of the greatest elements. *)
Definition max_by_key {A : Type} (key : A -> nat) (l : list A) : option A :=
  fold_left (fun best x =>
               match best with
               | None => Some x
               | Some b => if bool_decide (key b <= key x) then Some x else Some b
               end) l None.

(** ** Facts *)

Lemma concat_chars s : concat (chars s) = s.
Proof.
  induction s as [|b r IH]; [done|]. cbn [chars]. rewrite <- IH at 2.
  destruct (chars r) as [|[|c cont] cs]; try done. by destruct (is_cont c).
Qed.

Definition is_ascii (b : byte) : bool := byte_in 0 127 b.

Lemma chars_ascii s :
  Forall (fun b => is_ascii b = true) s -> chars s = map (fun b => [b]) s.
Proof.
  induction 1 as [|b r Hb Hr IH]; [done|]. cbn [chars map]. rewrite IH.
  destruct r as [|c r']; [done|]. apply Forall_cons in Hr as [Hc _]. cbn [map].
  replace (is_cont c) with false; [done|]. revert Hc. clear.
  unfold is_ascii, is_cont, byte_in. rewrite andb_true_iff, !N.leb_le. intros [_ H].
  symmetry. apply andb_false_iff. left. apply N.leb_gt. lia.
Qed.

Lemma concat_singletons {A : Type} (s : list A) : concat (map (fun b => [b]) s) = s.
Proof. induction s as [|b s IH]; [done|]. cbn. by rewrite IH. Qed.

Lemma max_by_key_spec {A : Type} (key : A -> nat) (l : list A) :
  match max_by_key key l with
  | None => l = []
  | Some x => exists before after, l = before ++ x :: after /\
      Forall (fun y => key y <= key x) before /\ Forall (fun y => key y < key x) after
  end.
Proof.
  unfold max_by_key. induction l as [|y l IH] using rev_ind; [done|].
  rewrite fold_left_app. cbn [fold_left].
  destruct (fold_left _ l None) as [x|].
  - destruct IH as (before & after & -> & Hb & Ha). case_bool_decide as Hk.
    + exists (before ++ x :: after), []. split; [done|]. split; [|constructor].
      rewrite Forall_app, Forall_cons. split_and!; [|done|].
      * eapply Forall_impl; [exact Hb|]. cbn. lia.
      * eapply Forall_impl; [exact Ha|]. cbn. lia.
    + exists before, (after ++ [y]). rewrite <- app_assoc. split; [done|]. split; [done|].
      rewrite Forall_app, Forall_singleton. split; [done|lia].
  - subst l. exists [], []. repeat split; constructor.
Qed.

Lemma drop_while_spec {A : Type} (p : A -> bool) (l : list A) :
  exists a, l = a ++ drop_while p l /\ Forall (fun x => p x = true) a /\
    forall x t, drop_while p l = x :: t -> p x = false.
Proof.
  induction l as [|y l (a & Hl & Ha & Hh)]; [by exists []|]. cbn [drop_while].
  destruct (p y) eqn:Hy.
  - exists (y :: a). cbn. rewrite <- Hl. by repeat constructor.
  - exists []. split; [done|]. split; [constructor|]. intros x t [= <- <-]. done.
Qed.

(** What trimming leaves is in the middle, and starts and ends with an element
    that was not to be trimmed. *)
Lemma trim_list_spec {A : Type} (p : A -> bool) (l : list A) :
  exists a b, l = a ++ trim_list p l ++ b /\
    Forall (fun x => p x = true) a /\ Forall (fun x => p x = true) b /\
    (forall x t, trim_list p l = x :: t -> p x = false).
Proof.
  destruct (drop_while_spec p l) as (a & Hl & Ha & Hh).
  destruct (drop_while_spec p (reverse (drop_while p l))) as (b & Hr & Hb & _).
  apply (f_equal reverse) in Hr. rewrite reverse_involutive, reverse_app in Hr.
  fold (trim_list p l) in Hr. exists a, (reverse b). rewrite <- Hr. split_and!; [done|done| |].
  - by apply Forall_reverse.
  - intros x t Ht. eapply Hh. rewrite Hr, Ht. done.
Qed.

Lemma trim_list_all {A : Type} (p : A -> bool) (l : list A) :
  Forall (fun x => p x = true) l -> trim_list p l = [].
Proof.
  intros Hl. unfold trim_list. induction Hl as [|x l Hx Hl IH]; [done|].
  cbn [drop_while]. by rewrite Hx.
Qed.

Lemma omap_app_cons {A B : Type} (f : A -> option B) (l : list A) before x after :
  omap f l = before ++ x :: after ->
  exists l1 y l2, l = l1 ++ y :: l2 /\ f y = Some x /\ omap f l1 = before /\ omap f l2 = after.
Proof.
  revert before. induction l as [|z l IH]; intros before; [by destruct before|].
  cbn. destruct (f z) as [w|] eqn:Hz.
  - destruct before as [|b before]; cbn; intros [= <- Hl].
    + exists [], z, l. by rewrite Hl.
    + destruct (IH before Hl) as (l1 & y & l2 & -> & Hy & <- & <-).
      exists (z :: l1), y, l2. cbn. by rewrite Hz.
  - intros Hl. destruct (IH before Hl) as (l1 & y & l2 & -> & Hy & <- & <-).
    exists (z :: l1), y, l2. cbn. by rewrite Hz.
Qed.

Lemma Forall_omap_iff {A B : Type} (f : A -> option B) (P : B -> Prop) (l : list A) :
  Forall P (omap f l) <-> Forall (fun x => forall y, f x = Some y -> P y) l.
Proof.
  induction l as [|x l IH]; [split; constructor|]. cbn.
  destruct (f x) as [y|] eqn:Hx; rewrite ?Forall_cons, IH; naive_solver.
Qed.

(** ** Splitting text of plain words *)

Lemma split_on_nonempty {A : Type} (p : A -> bool) l : split_on p l <> [].
Proof. destruct l as [|x l]; cbn; [done|]. destruct (p x); [done|]. by destruct (split_on p l). Qed.

Lemma split_on_app {A : Type} (p : A -> bool) a x b :
  p x = true -> split_on p (a ++ x :: b) = split_on p a ++ split_on p b.
Proof.
  intros Hx. induction a as [|y a IH]; cbn.
  - by rewrite Hx.
  - destruct (p y); [by rewrite IH|]. rewrite IH.
    by destruct (split_on p a) eqn:Ha; [apply split_on_nonempty in Ha|].
Qed.

Lemma split_on_none {A : Type} (p : A -> bool) l :
  Forall (fun x => p x = false) l -> split_on p l = [l].
Proof. induction 1 as [|x l Hx Hl IH]; [done|]. cbn. by rewrite Hx, IH. Qed.

Lemma trim_list_id {A : Type} (p : A -> bool) l :
  (forall x, head l = Some x -> p x = false) -> (forall x, last l = Some x -> p x = false) ->
  trim_list p l = l.
Proof.
  intros Hh Hl. unfold trim_list.
  assert (drop_while p l = l) as ->.
  { destruct l as [|x l]; [done|]. cbn. by rewrite (Hh x). }
  destruct (reverse l) as [|y r] eqn:Hr; cbn [drop_while].
  - apply (f_equal reverse) in Hr. by rewrite reverse_involutive in Hr.
  - assert (l = reverse r ++ [y]) as Hlr
      by (rewrite <- (reverse_involutive l), Hr; apply reverse_cons).
    rewrite Hl; [by rewrite reverse_cons|]. by rewrite Hlr, last_snoc.
Qed.

(** An ASCII byte that is no whitespace. *)
Definition is_graphic (b : byte) : bool := is_ascii b && negb (is_whitespace [b]).

Lemma is_graphic_ascii b : is_graphic b = true -> is_ascii b = true.
Proof. by intros [? _]%andb_true_iff. Qed.

Lemma is_graphic_ws b : is_graphic b = true -> is_whitespace [b] = false.
Proof. by intros [_ ?%negb_true_iff]%andb_true_iff. Qed.

(** A word: not empty, and graphic. *)
Definition is_word (w : bytes) : Prop := w <> [] /\ Forall (fun b => is_graphic b = true) w.

Lemma join_ascii sp ws :
  is_ascii sp = true -> Forall (Forall (fun b => is_ascii b = true)) ws ->
  Forall (fun b => is_ascii b = true) (join [sp] ws).
Proof.
  intros Hsp. induction 1 as [|w ws Hw Hws IH]; [constructor|].
  destruct ws as [|w' ws]; [done|]. cbn [join]. rewrite !Forall_app. by repeat split; [|repeat constructor|].
Qed.

Lemma words_ascii ws : Forall is_word ws -> Forall (Forall (fun b => is_ascii b = true)) ws.
Proof.
  intros H. eapply Forall_impl; [exact H|]. intros w [_ Hw].
  eapply Forall_impl; [exact Hw|]. apply is_graphic_ascii.
Qed.

Lemma map_join {A : Type} (f : byte -> A) sp ws :
  map f (join [sp] ws) =
  match ws with [] => [] | w :: ws => map f w ++ flat_map (fun w => f sp :: map f w) ws end.
Proof.
  destruct ws as [|w ws]; [done|]. revert w. induction ws as [|w' ws IH]; intros w.
  - cbn. by rewrite app_nil_r.
  - change (join [sp] (w :: w' :: ws)) with (w ++ [sp] ++ join [sp] (w' :: ws)).
    rewrite !map_app, IH. done.
Qed.

(** Splitting a text of words at the separators between them. *)
Lemma str_split_join (p : char -> bool) sp ws :
  p [sp] = true -> is_ascii sp = true -> ws <> [] ->
  Forall (Forall (fun b => is_ascii b = true /\ p [b] = false)) ws ->
  str_split p (join [sp] ws) = ws.
Proof.
  intros Hp Hsp Hne Hws. unfold str_split. rewrite chars_ascii.
  2:{ apply join_ascii; [done|]. eapply Forall_impl; [exact Hws|]. intros w Hw.
      eapply Forall_impl; [exact Hw|]. by intros b [? _]. }
  rewrite map_join. destruct ws as [|w ws]; [done|]. clear Hne.
  apply Forall_cons in Hws as [Hw Hws]. revert w Hw.
  induction Hws as [|w' ws Hw' Hws IH]; intros w Hw; cbn [flat_map].
  - rewrite app_nil_r, split_on_none by (apply Forall_fmap; eapply Forall_impl; [exact Hw|]; by intros b [_ ?]).
    cbn. by rewrite concat_singletons.
  - rewrite <- app_comm_cons, split_on_app by done.
    rewrite split_on_none by (apply Forall_fmap; eapply Forall_impl; [exact Hw|]; by intros b [_ ?]).
    cbn [app map]. rewrite concat_singletons. f_equal. by apply IH.
Qed.

Lemma list_filter_nonempty ws : Forall is_word ws -> filter (fun t => is_nonempty t) ws = ws.
Proof. intros H. apply list_filter_id. eapply Forall_impl; [exact H|]. intros [|b w] [? _]; done. Qed.

Lemma split_whitespace_words ws :
  Forall is_word ws -> split_whitespace (join (bs " ") ws) = ws.
Proof.
  intros Hws. destruct ws as [|w ws]; [done|]. unfold split_whitespace.
  rewrite (str_split_join is_whitespace " "%byte); [by apply list_filter_nonempty|done..|].
  eapply Forall_impl; [exact Hws|]. intros v [_ Hv]. eapply Forall_impl; [exact Hv|].
  intros b Hb. split; [by apply is_graphic_ascii|by apply is_graphic_ws].
Qed.

Lemma head_join sp ws w : head (join [sp] (w :: ws)) = head w \/ w = [].
Proof. destruct w as [|b w]; [by right|]. left. by destruct ws. Qed.

Lemma last_join sp ws w : w <> [] -> last (join [sp] (ws ++ [w])) = last w.
Proof.
  intros Hw. induction ws as [|v ws IH]; [done|].
  destruct (ws ++ [w]) as [|u us] eqn:Hu; [by destruct ws|].
  change ((v :: ws) ++ [w]) with (v :: (ws ++ [w])). rewrite Hu.
  change (join [sp] (v :: u :: us)) with (v ++ [sp] ++ join [sp] (u :: us)).
  rewrite app_assoc, last_app, IH. by destruct (last w) eqn:Hl; [|apply last_None in Hl].
Qed.

(** Trimming does nothing to a text of words that starts and ends with bytes
    outside the pattern. *)
Lemma trim_matches_words (p : char -> bool) ws :
  Forall is_word ws -> Forall (Forall (fun b => p [b] = false)) ws ->
  trim_matches p (join (bs " ") ws) = join (bs " ") ws.
Proof.
  intros Hws Hp. unfold trim_matches.
  assert (Forall (fun b => is_ascii b = true) (join (bs " ") ws)) as Ha
    by (apply join_ascii; [done|by apply words_ascii]).
  rewrite chars_ascii by done. rewrite trim_list_id; [apply concat_singletons|..].
  - intros x Hx. destruct ws as [|w ws]; [done|]. apply Forall_cons in Hws as [[Hw _] _].
    apply Forall_cons in Hp as [Hp _]. destruct w as [|b w]; [done|].
    apply Forall_cons in Hp as [Hb _]. destruct ws; cbn in Hx; by injection Hx as <-.
  - intros x Hx. destruct ws as [|w ws _] using rev_ind; [done|].
    apply Forall_app in Hws as [_ [[Hw _] _]%Forall_cons]. apply Forall_app in Hp as [_ [Hp _]%Forall_cons].
    change (map (fun b : byte => [b])) with (fmap (M := list) (fun b : byte => [b])) in Hx.
    rewrite fmap_last, (last_join " "%byte) in Hx by done.
    destruct (last w) as [b|] eqn:Hl; [|done]. injection Hx as <-.
    rewrite Forall_forall in Hp. apply Hp. apply last_Some_elem_of in Hl. done.
Qed.

(** ** Characters of valid text *)

(** A character of valid text is one byte, or bytes above the ASCII range. *)
Definition char_ok (c : char) : Prop := (exists b, c = [b]) \/ Forall (fun b => is_ascii b = false) c.

Definition starts_char (s : bytes) : Prop := match s with [] => True | b :: _ => is_cont b = false end.

Lemma chars_step b s : starts_char s -> chars (b :: s) = [b] :: chars s.
Proof.
  intros H. cbn [chars]. destruct s as [|c r]; [done|]. cbn [starts_char] in H. cbn [chars].
  destruct (chars r) as [|[|d cont] cs]; [by rewrite H..|]. destruct (is_cont d); by rewrite H.
Qed.

Lemma chars_glue b c r cont cs :
  chars (c :: r) = (c :: cont) :: cs -> is_cont c = true -> chars (b :: c :: r) = (b :: c :: cont) :: cs.
Proof.
  intros H Hc. transitivity (match chars (c :: r) with
    | (c :: cont) :: cs => if is_cont c then (b :: c :: cont) :: cs else [b] :: (c :: cont) :: cs
    | cs => [b] :: cs end); [done|]. by rewrite H, Hc.
Qed.

Lemma byte_in_not lo hi b : byte_in lo hi b = true -> (128 <= lo)%N -> is_ascii b = false.
Proof. unfold is_ascii, byte_in. rewrite andb_true_iff, andb_false_iff, !N.leb_le, !N.leb_gt. lia. Qed.

Lemma byte_in_cont lo hi b : byte_in lo hi b = true -> (128 <= lo)%N -> (hi <= 191)%N -> is_cont b = true.
Proof. unfold is_cont, byte_in. rewrite !andb_true_iff, !N.leb_le. lia. Qed.

Lemma lead_not_cont lo hi b : byte_in lo hi b = true -> (hi < 128 \/ 191 < lo)%N -> is_cont b = false.
Proof. unfold is_cont, byte_in. rewrite andb_true_iff, andb_false_iff, !N.leb_le, !N.leb_gt. lia. Qed.

Lemma utf8_chars s : utf8_valid s = true -> starts_char s /\ Forall char_ok (chars s).
Proof.
  remember (length s) as n eqn:Hn. revert s Hn. induction (lt_wf n) as [n _ IH]. intros s -> Hv.
  destruct s as [|b0 s1]; [done|]. cbn [utf8_valid] in Hv. destruct (byte_in 0 127 b0) eqn:E0.
  { destruct (IH (length s1) (Nat.lt_succ_diag_r _) s1 eq_refl Hv) as [Hs Hf]. split; [by eapply lead_not_cont; [|left]|].
    rewrite chars_step by done. constructor; [left; by eexists|done]. }
  assert (is_ascii b0 = false) as Hb0 by done. destruct s1 as [|b1 s2]; [done|]. destruct (byte_in 194 223 b0) eqn:E1.
  { apply andb_true_iff in Hv as [H1 Hv]. destruct (IH (length s2) ltac:(cbn; lia) s2 eq_refl Hv) as [Hs Hf].
    split; [by eapply lead_not_cont; [|right]|]. rewrite (chars_glue b0 b1 s2 [] (chars s2)) by (first [by apply chars_step|by eapply byte_in_cont]).
    constructor; [|done].
    right. repeat constructor; [done|by eapply byte_in_not]. }
  destruct s2 as [|b2 s3]; [done|]. destruct (byte_in 224 239 b0) eqn:E2.
  { rewrite !andb_true_iff in Hv. destruct Hv as [[H1 H2] Hv]. destruct (IH (length s3) ltac:(cbn; lia) s3 eq_refl Hv) as [Hs Hf].
    assert (128 <= (if bool_decide (byte_val b0 = 224%N) then 160 else 128))%N as L1 by (by destruct (bool_decide (byte_val b0 = 224%N))).
    assert ((if bool_decide (byte_val b0 = 237%N) then 159 else 191) <= 191)%N as L2 by (by destruct (bool_decide (byte_val b0 = 237%N))).
    split; [by eapply lead_not_cont; [|right]|].
    rewrite (chars_glue b0 b1 _ [b2] (chars s3)) by
      (first [apply chars_glue; [by apply chars_step|by eapply byte_in_cont]|by eapply byte_in_cont]).
    constructor; [|done]. right. repeat constructor; [done|by eapply byte_in_not..]. }
  destruct s3 as [|b3 s4]; [done|]. rewrite !andb_true_iff in Hv. destruct Hv as [[[[H0 H1] H2] H3] Hv].
  destruct (IH (length s4) ltac:(cbn; lia) s4 eq_refl Hv) as [Hs Hf].
  assert (128 <= (if bool_decide (byte_val b0 = 240%N) then 144 else 128))%N as L1 by (by destruct (bool_decide (byte_val b0 = 240%N))).
  assert ((if bool_decide (byte_val b0 = 244%N) then 143 else 191) <= 191)%N as L2 by (by destruct (bool_decide (byte_val b0 = 244%N))).
  split; [by eapply lead_not_cont; [|right]|].
  rewrite (chars_glue b0 b1 _ [b2; b3] (chars s4)) by (first [apply chars_glue;
    [apply chars_glue; [by apply chars_step|by eapply byte_in_cont]|by eapply byte_in_cont]|by eapply byte_in_cont]).
  constructor; [|done]. right. repeat constructor; [done|by eapply byte_in_not..].
Qed.

Lemma lowercase_idem s : str_to_ascii_lowercase (str_to_ascii_lowercase s) = str_to_ascii_lowercase s.
Proof.
  unfold str_to_ascii_lowercase. rewrite map_map. apply map_ext. by intros [].
Qed.

(** Text without whitespace stays as it is. *)
Lemma trim_graphic s : Forall (fun b => is_graphic b = true) s -> trim s = s.
Proof.
  intros H. unfold trim, trim_matches. rewrite chars_ascii.
  2: { eapply Forall_impl; [exact H|]. intros b Hb. unfold is_graphic in Hb. by apply andb_true_iff in Hb as [? _]. }
  rewrite trim_list_id; [apply concat_singletons|..].
  - intros c. destruct H as [|b s Hb _]; [done|]. intros [= <-]. unfold is_graphic in Hb. apply andb_true_iff in Hb as [_ Hb].
    by apply negb_true_iff in Hb.
  - intros c Hc. apply last_Some_elem_of, list_elem_of_fmap in Hc as (b & -> & Hin). rewrite Forall_forall in H.
    specialize (H b Hin). unfold is_graphic in H. apply andb_true_iff in H as [_ H]. by apply negb_true_iff in H.
Qed.
