(* ===== verification/Model.v ===== *)
(** * The domain types shared by discovery, torrents and storage
    (crates/sharerr-core/src/model.rs, and [str_enum!] of macros.rs)

    Text and paths are UTF-8 bytes; an [f64] is its bit pattern, which no
    operation here computes with except through [khz_tenths]. *)

From S2P Require Import Prelude RustStd Text.

(** ** String-keyed enums (macros.rs, [str_enum!]) *)

Class StrEnum (A : Type) : Type := {
  ALL : list A;
  as_str_name : A -> bytes
}.

Definition parse_enum {A : Type} `{StrEnum A} (value : bytes) : option A :=
  List.find (fun v => bool_decide (as_str_name v = value)) ALL.

(** The [lenient = Default] form. *)
Definition parse_lenient {A : Type} `{StrEnum A} (dflt : A) (value : bytes) : A :=
  default dflt (parse_enum value).

(** What a use of the macro gives: every variant is in [ALL], under its own name. *)
Class StrEnumLaws (A : Type) `{StrEnum A} : Prop := {
  all_complete : forall v : A, v ∈ ALL;
  names_distinct : NoDup (map as_str_name ALL)
}.

(** ** Sources *)

Inductive MediaSource : Type :=
| Sonarr | Radarr | Lidarr | Readarr | Whisparr | Directory.

#[export] Instance MediaSource_eq_dec : EqDecision MediaSource.
Proof. solve_decision. Defined.

#[export] Instance MediaSource_names : StrEnum MediaSource := {|
  ALL := [Sonarr; Radarr; Lidarr; Readarr; Whisparr; Directory];
  as_str_name := fun s =>
    match s with
    | Sonarr => bs "sonarr" | Radarr => bs "radarr" | Lidarr => bs "lidarr"
    | Readarr => bs "readarr" | Whisparr => bs "whisparr" | Directory => bs "directory"
    end
|}.

Definition KIND_SCOPED : list MediaSource := [Directory].
Definition ARRS : list MediaSource := [Sonarr; Radarr; Lidarr; Readarr; Whisparr].

Definition has_coarse_tagging (s : MediaSource) : bool :=
  match s with Sonarr | Whisparr | Lidarr | Readarr => true | Radarr | Directory => false end.

(** ** Identifiers *)

Record ExternalIds : Type := mkIds {
  tvdb : option Z;
  tmdb : option Z;
  tvmaze : option Z;
  imdb : option bytes;
  musicbrainz : option bytes;
  goodreads : option bytes;
  hardcover : option bytes;
  isbn : option bytes
}.

Definition no_ids : ExternalIds := mkIds None None None None None None None None.

Definition imdb_bare (raw : bytes) : bytes := trim_start_pair "t"%byte "t"%byte (trim raw).

Definition imdb_numeric (ids : ExternalIds) : option bytes := imdb_bare <$> imdb ids.

Definition compare_ids {T : Type} `{EqDecision T} (a b : option T) : option bool :=
  a ≫= fun a => b ≫= fun b => Some (bool_decide (a = b)).

Definition id_text (a : option bytes) : option bytes :=
  (fun s => str_to_ascii_lowercase (trim s)) <$> a.

Definition verdicts (self other : ExternalIds) : list (option bool) :=
  [compare_ids (tvdb self) (tvdb other);
   compare_ids (tmdb self) (tmdb other);
   compare_ids (tvmaze self) (tvmaze other);
   compare_ids (imdb_numeric self) (imdb_numeric other);
   compare_ids (id_text (musicbrainz self)) (id_text (musicbrainz other));
   compare_ids (id_text (goodreads self)) (id_text (goodreads other));
   compare_ids (id_text (hardcover self)) (id_text (hardcover other));
   compare_ids (id_text (isbn self)) (id_text (isbn other))].

(** The loop of [same_work] over the verdicts that are known. *)
Fixpoint agree_loop (agreed : bool) (vs : list (option bool)) : bool :=
  match vs with
  | [] => agreed
  | None :: vs => agree_loop agreed vs
  | Some false :: _ => false
  | Some true :: vs => agree_loop true vs
  end.

Definition same_work (self other : ExternalIds) : bool := agree_loop false (verdicts self other).

(** ** Media metadata *)

Record MediaMeta : Type := mkMeta {
  resolution : option bytes;
  video_codec : option bytes;
  dynamic_range : option bytes;
  audio_codec : option bytes;
  audio_channels : option bytes;
  audio_languages : option bytes;
  subtitles : option bytes;
  runtime : option bytes;
  audio_sample_rate : option bytes;
  audio_bit_depth : option bytes
}.

#[export] Instance MediaMeta_eq_dec : EqDecision MediaMeta.
Proof. solve_decision. Defined.

Definition default_meta : MediaMeta :=
  mkMeta None None None None None None None None None None.

Definition meta_is_empty (m : MediaMeta) : bool := bool_decide (m = default_meta).

Definition LADDER : list (N * N * bytes) :=
  [(7680%N, 4320%N, bs "4320p"); (3840%N, 2160%N, bs "2160p"); (1920%N, 1080%N, bs "1080p");
   (1280%N, 720%N, bs "720p"); (720%N, 576%N, bs "576p"); (720%N, 480%N, bs "480p")].

Definition rung (width height : N) : option (N * bytes) :=
  (fun r => (r.1.2, r.2)) <$>
    List.find (fun r : N * N * bytes => (width =? r.1.1)%N || (height =? r.1.2)%N) LADDER.

Definition dimensions (m : MediaMeta) : option (N * N) :=
  resolution m ≫= fun raw =>
  split_once (fun b => bool_decide (b = "x"%byte) || bool_decide (b = "X"%byte)) raw ≫= fun wh =>
  parse_u u32_max (trim wh.1) ≫= fun width =>
  parse_u u32_max (trim wh.2) ≫= fun height => Some (width, height).

Definition scene_resolution (m : MediaMeta) : option bytes :=
  dimensions m ≫= fun wh => rung wh.1 wh.2 ≫= fun r => Some r.2.

Definition nominal_height (m : MediaMeta) : option N :=
  dimensions m ≫= fun wh =>
    Some (match rung wh.1 wh.2 with Some (ladder, _) => ladder | None => wh.2 end).

Definition VIDEO_TOKENS : list (bytes * bytes) :=
  [(bs "av1", bs "AV1"); (bs "hevc", bs "x265"); (bs "h265", bs "x265"); (bs "x265", bs "x265");
   (bs "avc", bs "x264"); (bs "h264", bs "x264"); (bs "x264", bs "x264"); (bs "vp9", bs "VP9");
   (bs "mpeg2", bs "MPEG2"); (bs "xvid", bs "XviD")].

Definition AUDIO_TOKENS : list (bytes * bytes) :=
  [(bs "wavpack", bs "WV"); (bs "truehd", bs "TrueHD"); (bs "dtshd", bs "DTS-HD");
   (bs "flac", bs "FLAC"); (bs "alac", bs "ALAC"); (bs "eac3", bs "EAC3"); (bs "ac3", bs "AC3");
   (bs "dts", bs "DTS"); (bs "mp3", bs "MP3"); (bs "mpegl3", bs "MP3"); (bs "layer3", bs "MP3");
   (bs "aac", bs "AAC"); (bs "opus", bs "OPUS"); (bs "vorbis", bs "VORBIS"); (bs "wma", bs "WMA");
   (bs "ape", bs "APE"); (bs "pcm", bs "PCM"); (bs "wav", bs "WAV")].

(** The ASCII letters and digits of [raw], lowercased: what [scene_token]
    matches its needles against. *)
Definition token_key (raw : bytes) : bytes :=
  str_to_ascii_lowercase (concat (filter (fun c => char_is_ascii_alphanumeric c) (chars raw))).

Definition scene_token (raw : bytes) (table : list (bytes * bytes)) : option bytes :=
  snd <$> List.find (fun nt : bytes * bytes => contains nt.1 (token_key raw)) table.

Definition scene_video_codec (m : MediaMeta) : option bytes :=
  video_codec m ≫= fun raw => scene_token raw VIDEO_TOKENS.

Definition scene_audio_format (m : MediaMeta) : option bytes :=
  audio_codec m ≫= fun raw => scene_token raw AUDIO_TOKENS.

(** [n / d] rounded to the nearest integer, ties to even. *)
Definition round_half_even (n d : N) : N :=
  match (2 * (n mod d) ?= d)%N with
  | Lt => n / d
  | Gt => n / d + 1
  | Eq => if N.even (n / d) then n / d else n / d + 1
  end%N.

(** [format!("{:.1}", f64::from(hz) / 1000.0)] in tenths: the quotient rounded
    to a 53-bit significand, as the [f64] division rounds it, and that value
    rounded to one decimal. *)
Definition khz_tenths (hz : N) : N :=
  let e := (72 - N.log2 (hz * 2 ^ 20 / 1000))%N in
  round_half_even (round_half_even (hz * 2 ^ e) 1000 * 10) (2 ^ e).

Definition sample_rate_khz (m : MediaMeta) : option bytes :=
  audio_sample_rate m ≫= fun raw =>
  parse_u u32_max (trim raw) ≫= fun hz =>
    Some ((if (hz mod 1000 =? 0)%N then u_to_string (hz / 1000)
           else u_to_string (khz_tenths hz / 10) ++ "."%byte :: u_to_string (khz_tenths hz mod 10))
          ++ bs " kHz").

(** ** What a file contains *)

Inductive MediaSpec : Type :=
| Episode (series_title : bytes) (season episode : N)
| Movie (title : bytes) (year : option N)
| Track (artist album : bytes) (track : option N)
| Book (author title : bytes).

#[export] Instance MediaSpec_eq_dec : EqDecision MediaSpec.
Proof. solve_decision. Defined.

Definition KIND_TAGS : list bytes := [bs "episode"; bs "movie"; bs "track"; bs "book"].

Definition kind_tag (s : MediaSpec) : bytes :=
  match s with
  | Episode _ _ _ => bs "episode" | Movie _ _ => bs "movie"
  | Track _ _ _ => bs "track" | Book _ _ => bs "book"
  end.

Definition spec_title (s : MediaSpec) : bytes :=
  match s with
  | Episode series_title _ _ => series_title
  | Movie title _ => title
  | Track _ album _ => album
  | Book _ title => title
  end.

Definition same_slot (self other : MediaSpec) : bool :=
  match self, other with
  | Episode _ season episode, Episode _ s e => (season =? s)%N && (episode =? e)%N
  | Movie _ year, Movie _ y =>
      bool_decide (year = None) || bool_decide (y = None) || bool_decide (year = y)
  | Track _ _ track, Track _ _ t => bool_decide (track = t)
  | Book _ _, Book _ _ => true
  | _, _ => false
  end.

Definition creator (s : MediaSpec) : option bytes :=
  match s with
  | Track artist _ _ => Some artist
  | Book author _ => Some author
  | Episode _ _ _ | Movie _ _ => None
  end.

(** [Display for MediaSpec]. *)
Definition spec_to_string (s : MediaSpec) : bytes :=
  match s with
  | Episode series_title season episode =>
      series_title ++ bs " S" ++ pad2 season ++ bs "E" ++ pad2 episode
  | Movie title (Some y) => title ++ bs " (" ++ u_to_string y ++ bs ")"
  | Movie title None => title
  | Track artist album (Some n) => artist ++ bs " - " ++ album ++ bs " [" ++ pad2 n ++ bs "]"
  | Track artist album None => artist ++ bs " - " ++ album
  | Book author title => author ++ bs " - " ++ title
  end.

Record CatalogEntry : Type := mkEntry {
  ce_info_hash : bytes;
  ce_spec : MediaSpec;
  ce_ids : ExternalIds;
  ce_size : N;
  ce_private : bool;
  ce_download_url : bytes
}.

(** [CatalogEntry::matches]. *)
Definition entry_matches (self : CatalogEntry) (spec : MediaSpec) (ids : ExternalIds) (size : N) : bool :=
  (ce_size self =? size)%N && same_work (ce_ids self) ids && same_slot (ce_spec self) spec.

(** ** Shared items *)

Inductive ShareState : Type := Pending | Seeding | Unshared | Failed.

#[export] Instance ShareState_eq_dec : EqDecision ShareState.
Proof. solve_decision. Defined.

#[export] Instance ShareState_names : StrEnum ShareState := {|
  ALL := [Pending; Seeding; Unshared; Failed];
  as_str_name := fun s =>
    match s with
    | Pending => bs "pending" | Seeding => bs "seeding"
    | Unshared => bs "unshared" | Failed => bs "failed"
    end
|}.

Abbreviation f64 := N (only parsing).

Record SharedItem : Type := mkItem {
  it_id : option Z;
  it_source : MediaSource;
  it_source_id : Z;
  it_file_id : Z;
  it_spec : MediaSpec;
  it_release_title : bytes;
  it_arr_path : bytes;
  it_size : N;
  it_ids : ExternalIds;
  it_info_hash : option bytes;
  it_announce_token_fp : option bytes;
  it_created_by_sharerr : bool;
  it_state : ShareState;
  it_last_error : option bytes;
  it_created_at : option Z;
  it_media : option MediaMeta;
  it_achieved_ratio : option f64;
  it_ratio_limit_reported : option f64;
  it_private : bool
}.

Definition item_key (i : SharedItem) : MediaSource * Z := (it_source i, it_file_id i).

Record SceneMeta : Type := mkScene {
  sc_studio : bytes;
  sc_year : N;
  sc_month : N;
  sc_day : N
}.

(** [s.get(..n)]: inside the text and at a character boundary. *)
Definition str_get_to (n : nat) (s : bytes) : option bytes :=
  if bool_decide (length s < n) then None
  else match s !! n with
       | Some b => if is_cont b then None else Some (take n s)
       | None => Some s
       end.

(** [SceneMeta::new]. *)
Definition scene_new (studio released : bytes) : option SceneMeta :=
  let studio := trim studio in
  str_get_to 10 released ≫= fun date =>
  let dash b := bool_decide (b = "-"%byte) in
  let '(first, rest) := match split_once dash date with Some (a, r) => (a, Some r) | None => (date, None) end in
  parse_u u16_max first ≫= fun year =>
  rest ≫= fun rest =>
  let '(second, rest) := match split_once dash rest with Some (a, r) => (a, Some r) | None => (rest, None) end in
  parse_u 255 second ≫= fun month =>
  rest ≫= fun third =>
  parse_u 255 third ≫= fun day =>
  if is_nonempty studio && ((1 <=? month)%N && (month <=? 12)%N) && ((1 <=? day)%N && (day <=? 31)%N)
  then Some (mkScene studio year month day) else None.

Record Discovered : Type := mkDiscovered {
  d_source : MediaSource;
  d_source_id : Z;
  d_file_id : Z;
  d_spec : MediaSpec;
  d_arr_path : bytes;
  d_size : N;
  d_ids : ExternalIds;
  d_scene_name : option bytes;
  d_original_path : option bytes;
  d_media : option MediaMeta;
  d_scene : option SceneMeta
}.

Definition discovered_key (d : Discovered) : MediaSource * Z := (d_source d, d_file_id d).

Definition into_shared_item (d : Discovered) (release_title : bytes) : SharedItem := {|
  it_id := None;
  it_source := d_source d;
  it_source_id := d_source_id d;
  it_file_id := d_file_id d;
  it_spec := d_spec d;
  it_release_title := release_title;
  it_arr_path := d_arr_path d;
  it_size := d_size d;
  it_ids := d_ids d;
  it_info_hash := None;
  it_announce_token_fp := None;
  it_created_by_sharerr := false;
  it_state := Pending;
  it_last_error := None;
  it_created_at := None;
  it_media := d_media d;
  it_achieved_ratio := None;
  it_ratio_limit_reported := None;
  it_private := true
|}.

(** ** Facts *)

#[export] Instance MediaSource_laws : StrEnumLaws MediaSource.
Proof.
  split; [|by apply (bool_decide_unpack _)].
  intros v. apply (bool_decide_unpack _). by destruct v.
Qed.

#[export] Instance ShareState_laws : StrEnumLaws ShareState.
Proof.
  split; [|by apply (bool_decide_unpack _)].
  intros v. apply (bool_decide_unpack _). by destruct v.
Qed.

Lemma find_name {A : Type} `{StrEnum A} (l : list A) (v : A) :
  NoDup (map as_str_name l) -> v ∈ l ->
  List.find (fun x => bool_decide (as_str_name x = as_str_name v)) l = Some v.
Proof.
  induction l as [|x l IH]; intros Hnd Hv; [by apply elem_of_nil in Hv|].
  cbn [map] in Hnd. apply NoDup_cons in Hnd as [Hx Hnd]. cbn [List.find].
  apply elem_of_cons in Hv as [->|Hv]; [by rewrite bool_decide_eq_true_2|].
  rewrite bool_decide_eq_false_2; [by apply IH|].
  intros Heq. apply Hx. rewrite Heq. by apply list_elem_of_fmap_2.
Qed.

Lemma agree_loop_spec agreed vs :
  agree_loop agreed vs = true <->
    Some false ∉ vs /\ (agreed = true \/ Some true ∈ vs).
Proof.
  revert agreed. induction vs as [|[[]|] vs IH]; intros agreed; cbn [agree_loop];
    rewrite ?IH, ?elem_of_cons.
  - rewrite !elem_of_nil. naive_solver.
  - naive_solver.
  - naive_solver.
  - naive_solver.
Qed.

Lemma compare_ids_comm {T : Type} `{EqDecision T} (a b : option T) :
  compare_ids a b = compare_ids b a.
Proof.
  destruct a as [x|], b as [y|]; cbn; try done. f_equal.
  apply bool_decide_ext. naive_solver.
Qed.

Lemma verdicts_comm a b : verdicts a b = verdicts b a.
Proof. unfold verdicts. repeat (apply f_equal2; [apply compare_ids_comm|]). done. Qed.

Lemma same_work_comm a b : same_work a b = same_work b a.
Proof. unfold same_work. by rewrite verdicts_comm. Qed.

Lemma same_slot_comm a b : same_slot a b = same_slot b a.
Proof.
  destruct a, b; cbn; try done;
    rewrite ?(N.eqb_sym season), ?(N.eqb_sym episode); try done.
  - rewrite (orb_comm (bool_decide (year = None))). f_equal. apply bool_decide_ext. naive_solver.
  - apply bool_decide_ext. naive_solver.
Qed.

(** ** Properties *)

(** The names of a [str_enum!] type.  [parse] is the exact inverse of
    [as_str]: every variant is read back from its name, and nothing but its
    name reads as it. *)
Theorem str_enum_roundtrip {A : Type} `{StrEnum A} (value : bytes) (v : A) :
  StrEnumLaws A -> parse_enum value = Some v <-> as_str_name v = value.
Proof.
  intros [Hall Hnd]. split.
  - intros [_ Hv]%List.find_some. by apply bool_decide_eq_true in Hv.
  - intros <-. by apply find_name.
Qed.

Lemma str_enum_roundtrip_witness :
  parse_enum (bs "lidarr") = Some Lidarr /\ parse_enum (bs "Lidarr") <> Some Lidarr.
Proof.
  split; [by apply (str_enum_roundtrip (bs "lidarr") Lidarr MediaSource_laws)|].
  intros Hbad. apply (str_enum_roundtrip (bs "Lidarr") Lidarr MediaSource_laws) in Hbad.
  discriminate Hbad.
Defined.

(** When a friend's catalog entry is one of our files.  Two id sets name
    the same work exactly when one id both carry agrees and none disagrees,
    whichever side asks; sets without a common id never match; and a match
    between two entries is symmetric and needs equal sizes. *)
Theorem catalog_match_spec (e f : CatalogEntry) :
  entry_matches e (ce_spec f) (ce_ids f) (ce_size f) =
    entry_matches f (ce_spec e) (ce_ids e) (ce_size e) /\
  (entry_matches e (ce_spec f) (ce_ids f) (ce_size f) = true <->
     ce_size e = ce_size f /\ same_slot (ce_spec e) (ce_spec f) = true /\
     Some true ∈ verdicts (ce_ids e) (ce_ids f) /\
     Some false ∉ verdicts (ce_ids e) (ce_ids f)).
Proof.
  unfold entry_matches. split.
  - by rewrite N.eqb_sym, same_work_comm, same_slot_comm.
  - rewrite !andb_true_iff, N.eqb_eq. unfold same_work. rewrite agree_loop_spec. naive_solver.
Qed.

(** The resolution ladder.  A frame gets a scene name exactly when its width
    or its height is a standard one; but a 720x480 frame, whose height is the
    480 rung, is named [576p] and capped as 576 lines, because the ladder's
    first 720-wide rung takes it. *)
Theorem resolution_ladder m w h :
  dimensions m = Some (w, h) ->
  (scene_resolution m = None <->
     w ∉ [7680; 3840; 1920; 1280; 720]%N /\ h ∉ [4320; 2160; 1080; 720; 576; 480]%N) /\
  (scene_resolution m = Some (bs "480p") <->
     h = 480%N /\ w ∉ [7680; 3840; 1920; 1280; 720]%N) /\
  (w = 720%N -> h = 480%N ->
     scene_resolution m = Some (bs "576p") /\ nominal_height m = Some 576%N).
Proof.
  intros Hd. unfold scene_resolution, nominal_height. rewrite Hd. cbn [mbind option_bind fst snd].
  split_and!; [| |by intros -> ->];
    (unfold rung, LADDER; cbn [List.find fst snd];
     repeat match goal with
     | |- context [(?a =? ?b)%N] => destruct (N.eqb_spec a b); cbn
     end; rewrite ?elem_of_cons, ?elem_of_nil; subst; split; intros;
     destruct_and?; split_and?; try done; try lia; try naive_solver lia).
Qed.

Lemma resolution_ladder_witness :
  scene_resolution (mkMeta (Some (bs "720x480")) None None None None None None None None None)
    = Some (bs "576p").
Proof. apply (resolution_ladder _ 720 480); reflexivity. Defined.
