(* ===== verification/Paths.v ===== *)
(** * Unix paths and the path resolver
    (crates/sharerr-core/src/paths.rs, [PathMapping] of config.rs)

    A [Path] is its bytes.  [components], [strip_prefix], [join] and the rest are
    those of [std::path] on Unix: a path is cut at ['/'], empty parts and inner
    ["."] parts are no components.  Two spellings with the same components are
    the same path ([path_eq], the [PartialEq] of [PathBuf]). *)

From S2P Require Import Prelude RustStd Text Model.

(** ** std::path *)

Inductive Component : Type :=
| RootDir
| CurDir
| ParentDir
| Normal (s : bytes).

#[export] Instance Component_eq_dec : EqDecision Component.
Proof. solve_decision. Defined.

Definition sep : byte := "/"%byte.

Definition has_root (p : bytes) : bool :=
  match p with b :: _ => bool_decide (b = sep) | [] => false end.

(** [Path::is_absolute] on Unix. *)
Definition is_absolute (p : bytes) : bool := has_root p.

(** What one part between separators is, past the start of the path. *)
Definition component_of (s : bytes) : option Component :=
  if bool_decide (s = []) then None
  else if bool_decide (s = bs ".") then None
  else if bool_decide (s = bs "..") then Some ParentDir
  else Some (Normal s).

Definition body (segs : list bytes) : list Component := omap component_of segs.

(** The components at the start of a path, and the parts that follow. *)
Definition start (p : bytes) : list Component * list bytes :=
  if has_root p then ([RootDir], split_byte sep (tail p))
  else match split_byte sep p with
       | s :: segs => if bool_decide (s = bs ".") then ([CurDir], segs) else ([], s :: segs)
       | [] => ([], [])
       end.

(** [Path::components]. *)
Definition components (p : bytes) : list Component := (start p).1 ++ body (start p).2.

(** The next component of the remaining parts. *)
Fixpoint next_component (segs : list bytes) : option (Component * list bytes) :=
  match segs with
  | [] => None
  | s :: segs =>
      match component_of s with
      | Some c => Some (c, segs)
      | None => next_component segs
      end
  end.

(** Consume the components [qs] from the remaining parts. *)
Fixpoint body_after (segs : list bytes) (qs : list Component) : option (list bytes) :=
  match qs with
  | [] => Some segs
  | q :: qs =>
      match next_component segs with
      | Some (c, segs) => if bool_decide (c = q) then body_after segs qs else None
      | None => None
      end
  end.

Definition no_component (s : bytes) : bool := bool_decide (component_of s = None).

(** [Components::as_path] once the start of the path is consumed: from the next
    component to the last, as written. *)
Definition as_path (segs : list bytes) : bytes := join [sep] (trim_list no_component segs).

(** [Components::as_path] with nothing consumed: only the end is trimmed. *)
Definition trimmed_end (p : bytes) : bytes :=
  let trim_right segs := reverse (drop_while no_component (reverse segs)) in
  match start p with
  | ([RootDir], segs) => sep :: join [sep] (trim_right segs)
  | ([CurDir], segs) => join [sep] (bs "." :: trim_right segs)
  | (_, segs) => join [sep] (trim_right segs)
  end.

(** [Path::strip_prefix]. *)
Definition strip_prefix (path prefix : bytes) : option bytes :=
  match components prefix, start path with
  | [], _ => Some (trimmed_end path)
  | q :: qs, (c :: _, segs) =>
      if bool_decide (c = q) then as_path <$> body_after segs qs else None
  | qs, ([], segs) => as_path <$> body_after segs qs
  end.

(** [Path::join]: an absolute [rest] replaces the base. *)
Definition path_join (base rest : bytes) : bytes :=
  if is_absolute rest then rest
  else match last base with
       | None => rest
       | Some b => if bool_decide (b = sep) then base ++ rest else base ++ sep :: rest
       end.

(** [Path::file_name]: the last component when it is a normal one. *)
Definition file_name (p : bytes) : option bytes :=
  match last (components p) with Some (Normal s) => Some s | _ => None end.

(** [Path::parent]: the text up to the end of the component before the last. *)
Definition parent (p : bytes) : option bytes :=
  let trim_right segs := reverse (drop_while no_component (reverse segs)) in
  let but_last segs := trim_right (removelast (trim_right segs)) in
  match start p with
  | ([RootDir], segs) =>
      if bool_decide (body segs = []) then None else Some (sep :: join [sep] (but_last segs))
  | ([CurDir], segs) =>
      if bool_decide (body segs = []) then Some [] else Some (join [sep] (bs "." :: but_last segs))
  | (_, segs) => if bool_decide (body segs = []) then None else Some (join [sep] (but_last segs))
  end.

(** [Path::file_stem]: the name up to its last dot, unless the dot starts it. *)
Definition file_stem (p : bytes) : option bytes :=
  name ← file_name p;
  match position (fun b => bool_decide (b = "."%byte)) (reverse name) with
  | Some i =>
      let before := take (length name - S i) name in
      Some (if is_nonempty before then before else name)
  | None => Some name
  end.

(** [PathBuf]'s equality. *)
Definition path_eq (p q : bytes) : Prop := components p = components q.

#[export] Instance path_eq_equivalence : Equivalence path_eq.
Proof. split; unfold path_eq; congruence. Qed.

(** ** The resolver *)

Record PathMapping : Type := mkMapping {
  pm_arr : bytes;
  pm_sharerr : bytes;
  pm_qbit : option bytes
}.

Inductive PathError : Type := NotAbsolute (p : bytes).

Record ResolvedPaths : Type := mkResolved {
  rp_arr : bytes;
  rp_sharerr : bytes;
  rp_qbit : bytes;
  rp_mapping_applied : bool
}.

Definition candidate (prefix_of : PathMapping -> bytes) (path : bytes) (map : PathMapping)
  : option (nat * PathMapping * bytes) :=
  rest ← strip_prefix path (prefix_of map);
  Some (length (components (prefix_of map)), map, rest).

Definition most_specific_match (maps : list PathMapping) (prefix_of : PathMapping -> bytes)
    (path : bytes) : option (PathMapping * bytes) :=
  (fun c => (c.1.2, c.2)) <$>
    max_by_key (fun c => c.1.1) (omap (candidate prefix_of path) maps).

(** [PathResolver::resolve]. *)
Definition resolve (maps : list PathMapping) (arr_path : bytes) : result ResolvedPaths PathError :=
  if negb (is_absolute arr_path) then Err (NotAbsolute arr_path)
  else Ok match most_specific_match maps pm_arr arr_path with
          | Some (map, rest) =>
              mkResolved arr_path (path_join (pm_sharerr map) rest)
                (path_join (default (pm_sharerr map) (pm_qbit map)) rest) true
          | None => mkResolved arr_path arr_path arr_path false
          end.

(** [PathResolver::resolve_sharerr]. *)
Definition resolve_sharerr (maps : list PathMapping) (path : bytes) : result ResolvedPaths PathError :=
  if negb (is_absolute path) then Err (NotAbsolute path)
  else
    let mapped :=
      mr ← most_specific_match maps pm_sharerr path;
      prefix ← pm_qbit mr.1;
      Some (path_join prefix mr.2) in
    Ok (mkResolved path path (default path mapped) (bool_decide (is_Some mapped))).

(** [PathResolver::resolve_for]. *)
Definition resolve_for (maps : list PathMapping) (source : MediaSource) (path : bytes)
  : result ResolvedPaths PathError :=
  match source with
  | Directory => resolve_sharerr maps path
  | _ => resolve maps path
  end.

(** ** Components *)

Lemma body_app a b : body (a ++ b) = body a ++ body b.
Proof. apply omap_app. Qed.

Lemma body_none l : Forall (fun s => no_component s = true) l -> body l = [].
Proof.
  induction 1 as [|s l Hs Hl IH]; [done|]. apply bool_decide_eq_true in Hs.
  cbn. by rewrite Hs.
Qed.

Lemma body_trim_list l : body (trim_list no_component l) = body l.
Proof.
  destruct (trim_list_spec no_component l) as (a & b & Hl & Ha & Hb & _).
  rewrite Hl at 2. by rewrite !body_app, (body_none a), (body_none b), app_nil_r.
Qed.

Lemma split_byte_free c s : Forall (fun p => c ∉ p) (split_byte c s).
Proof.
  induction s as [|b s IH]; cbn [split_byte]; [by apply Forall_singleton, not_elem_of_nil|].
  destruct (split_byte_cons c s) as (p & ps & Hs). rewrite Hs in *.
  apply Forall_cons in IH as [Hp Hps]. case_decide as Hb; repeat constructor; try done.
  - apply not_elem_of_nil.
  - rewrite not_elem_of_cons. split; congruence.
Qed.

Lemma start_parts p : Forall (fun s => sep ∉ s) (start p).2.
Proof.
  unfold start. destruct (has_root p); [apply split_byte_free|].
  pose proof (split_byte_free sep p) as Hf. destruct (split_byte sep p) as [|s segs]; [done|].
  case_bool_decide; [|done]. by apply Forall_cons in Hf as [_ Hf].
Qed.

(** A path whose first part is a plain name is relative, and all its parts
    count. *)
Lemma start_plain s segs :
  component_of s <> None -> Forall (fun p => sep ∉ p) (s :: segs) ->
  start (join [sep] (s :: segs)) = ([], s :: segs).
Proof.
  intros Hs Hf. unfold start, component_of in *.
  pose proof Hf as [Hsep _]%Forall_cons.
  assert (has_root (join [sep] (s :: segs)) = false) as ->.
  { destruct s as [|b s]; [by cbn in Hs|]. apply not_elem_of_cons in Hsep as [Hb _].
    destruct segs; cbn; by rewrite bool_decide_eq_false_2. }
  rewrite split_byte_join by done. cbn [fst]. rewrite bool_decide_eq_false_2; [done|].
  intros ->. by cbn in Hs.
Qed.

Lemma as_path_start segs :
  Forall (fun s => sep ∉ s) segs ->
  components (as_path segs) = body segs /\ is_absolute (as_path segs) = false /\
  (start (as_path segs)).1 = [].
Proof.
  intros Hf. rewrite <- (body_trim_list segs). unfold as_path.
  destruct (trim_list_spec no_component segs) as (a & b & Hl & _ & _ & Hh).
  destruct (trim_list no_component segs) as [|s t] eqn:Ht; [done|].
  assert (component_of s <> None) as Hs.
  { specialize (Hh s t eq_refl). by apply bool_decide_eq_false in Hh. }
  assert (Forall (fun p => sep ∉ p) (s :: t)) as Hst.
  { rewrite Hl in Hf. by apply Forall_app in Hf as [_ [Hf _]%Forall_app]. }
  unfold components. rewrite start_plain by done. split_and!; [done| |done].
  unfold is_absolute. destruct (has_root _) eqn:Hr; [|done].
  pose proof (start_plain s t Hs Hst) as Hp. unfold start in Hp. by rewrite Hr in Hp.
Qed.

Lemma next_component_spec segs :
  match next_component segs with
  | Some (c, rest) => body segs = c :: body rest /\ rest `suffix_of` segs
  | None => body segs = []
  end.
Proof.
  induction segs as [|s segs IH]; [done|]. cbn [next_component].
  destruct (component_of s) as [c|] eqn:Hs.
  - cbn. rewrite Hs. split; [done|]. by exists [s].
  - cbn. rewrite Hs. destruct (next_component segs) as [[c rest]|]; [|done].
    destruct IH as [Hb Hr]. split; [done|]. by apply suffix_cons_r.
Qed.

Lemma body_after_spec segs qs :
  match body_after segs qs with
  | Some rest => body segs = qs ++ body rest /\ rest `suffix_of` segs
  | None => ~ qs `prefix_of` body segs
  end.
Proof.
  revert segs. induction qs as [|q qs IH]; intros segs; cbn [body_after]; [done|].
  pose proof (next_component_spec segs) as Hn.
  destruct (next_component segs) as [[c rest]|].
  - destruct Hn as [Hb Hr]. rewrite Hb. case_bool_decide as Hc.
    + subst c. specialize (IH rest). destruct (body_after rest qs) as [rest'|].
      * destruct IH as [-> Hr']. split; [done|]. by etrans.
      * intros Hp. apply IH. by apply prefix_cons_inv_2 in Hp.
    + intros Hp. apply prefix_cons_inv_1 in Hp. congruence.
  - rewrite Hn. intros [k Hk]. done.
Qed.

Lemma suffix_Forall {A : Type} (P : A -> Prop) (l k : list A) :
  l `suffix_of` k -> Forall P k -> Forall P l.
Proof. intros [m ->] [_ H]%Forall_app. done. Qed.

(** What [strip_prefix] returns for a non-empty prefix: a relative path with
    the components that follow the prefix. *)
Lemma strip_prefix_spec path prefix :
  components prefix <> [] ->
  match strip_prefix path prefix with
  | Some rest =>
      components path = components prefix ++ components rest /\
      is_absolute rest = false /\ (start rest).1 = []
  | None => ~ components prefix `prefix_of` components path
  end.
Proof.
  intros Hne. unfold strip_prefix. destruct (components prefix) as [|q qs]; [done|].
  pose proof (start_parts path) as Hparts.
  change (components path) with ((start path).1 ++ body (start path).2).
  assert (length (start path).1 <= 1) as Hlen.
  { unfold start. destruct (has_root path); [done|].
    destruct (split_byte sep path) as [|s ?]; cbn; [lia|]. case_bool_decide; cbn; lia. }
  destruct (start path) as [[|c [|? ?]] segs]; cbn in Hlen; [| |lia]; cbn [fst snd] in *.
  - pose proof (body_after_spec segs (q :: qs)) as Hb.
    destruct (body_after segs (q :: qs)) as [rest|]; [|done]. cbn. destruct Hb as [-> Hs].
    destruct (as_path_start rest) as (-> & -> & ->); [by eapply suffix_Forall|done].
  - case_bool_decide as Hc.
    + subst c. pose proof (body_after_spec segs qs) as Hb.
      destruct (body_after segs qs) as [rest|]; cbn.
      * destruct Hb as [-> Hs].
        destruct (as_path_start rest) as (-> & -> & ->); [by eapply suffix_Forall|done].
      * intros Hp. by apply prefix_cons_inv_2 in Hp.
    + intros Hp. cbn in Hp. apply prefix_cons_inv_1 in Hp. congruence.
Qed.

(** ** Joining *)

Lemma has_root_app x y : x <> [] -> has_root (x ++ y) = has_root x.
Proof. by destruct x. Qed.

Lemma components_app_sep x rest :
  components (x ++ sep :: rest) = components (x ++ [sep]) ++ body (split_byte sep rest).
Proof.
  destruct x as [|b x]; [done|]. unfold components, start.
  rewrite !has_root_app by done. destruct (has_root (b :: x)).
  - cbn [tail app fst snd]. by rewrite !split_byte_app, !body_app, app_nil_r.
  - rewrite !split_byte_app. destruct (split_byte_cons sep (b :: x)) as (p & ps & ->).
    cbn [app]. case_bool_decide; cbn [fst snd app]; rewrite ?app_comm_cons, !body_app;
      cbn [body omap list_omap]; by rewrite app_nil_r, ?app_assoc.
Qed.

Lemma components_trailing_sep x : x <> [] -> components (x ++ [sep]) = components x.
Proof.
  intros Hx. unfold components, start. rewrite !has_root_app by done.
  destruct (has_root x).
  - destruct x as [|b x]; [done|]. cbn [tail app fst snd]. by rewrite split_byte_app, body_app, app_nil_r.
  - rewrite split_byte_app. destruct (split_byte_cons sep x) as (p & ps & ->).
    cbn [app]. case_bool_decide; cbn [fst snd]; rewrite ?app_comm_cons, body_app; by rewrite app_nil_r.
Qed.

Lemma components_nil p : components p = [] <-> p = [].
Proof.
  split; [|by intros ->]. destruct p as [|b p]; [done|]. unfold components, start.
  cbn [has_root]. case_bool_decide as Hb; [done|]. cbn [split_byte].
  destruct (split_byte_cons sep p) as (q & qs & ->). rewrite decide_False by done.
  case_bool_decide as Hdot; [done|]. cbn [fst snd app body omap list_omap]. unfold component_of.
  rewrite (bool_decide_eq_false_2 (b :: q = [])), (bool_decide_eq_false_2 (b :: q = bs ".")) by done.
  by case_bool_decide.
Qed.

(** Joining a relative path appends its parts. *)
Lemma components_join base rest :
  base <> [] -> is_absolute rest = false ->
  components (path_join base rest) = components base ++ body (split_byte sep rest).
Proof.
  intros Hb Hr. unfold path_join. rewrite Hr. destruct (last base) as [b|] eqn:Hl;
    [|by apply last_None in Hl].
  apply last_Some in Hl as [x ->]. case_bool_decide as Hs.
  - subst b. rewrite <- app_assoc. apply components_app_sep.
  - by rewrite components_app_sep, components_trailing_sep.
Qed.

Lemma components_join_plain base rest :
  (start rest).1 = [] -> is_absolute rest = false ->
  components (path_join base rest) = components base ++ components rest.
Proof.
  intros Hs Hr. destruct (decide (base = [])) as [->|Hb].
  { unfold path_join. by rewrite Hr. }
  rewrite components_join by done. f_equal. unfold components. rewrite Hs. cbn [app]. f_equal.
  revert Hs. unfold start. unfold is_absolute in Hr. rewrite Hr.
  destruct (split_byte_cons sep rest) as (p & ps & ->). by case_bool_decide.
Qed.

#[export] Instance components_proper : Proper (path_eq ==> eq) components.
Proof. by intros p q. Qed.

(** Another spelling of the base gives another spelling of the join. *)
#[export] Instance path_join_proper : Proper (path_eq ==> eq ==> path_eq) path_join.
Proof.
  intros p q Hpq r ? <-. unfold path_eq in *. destruct (is_absolute r) eqn:Hr.
  { unfold path_join. by rewrite Hr. }
  destruct (decide (p = [])) as [->|Hp].
  - symmetry in Hpq. by apply components_nil in Hpq as ->.
  - rewrite !components_join; [by rewrite Hpq|..]; try done.
    intros ->. by apply components_nil in Hpq.
Qed.

Lemma is_absolute_components p : is_absolute p = true <-> head (components p) = Some RootDir.
Proof.
  unfold is_absolute, components, start. destruct (has_root p); [done|].
  split; [done|]. destruct (split_byte_cons sep p) as (s & ps & ->).
  case_bool_decide; [done|]. cbn [fst snd app]. generalize (s :: ps). intros l.
  induction l as [|t l IH]; [done|]. cbn. unfold component_of.
  repeat case_bool_decide; done.
Qed.

#[export] Instance is_absolute_proper : Proper (path_eq ==> eq) is_absolute.
Proof.
  intros p q Hpq. apply eq_true_iff_eq. rewrite !is_absolute_components. by rewrite Hpq.
Qed.

(** ** The most specific rule *)

Definition covers (prefix_of : PathMapping -> bytes) (path : bytes) (m : PathMapping) : Prop :=
  components (prefix_of m) `prefix_of` components path.

Lemma candidate_spec prefix_of path m :
  components (prefix_of m) <> [] ->
  match candidate prefix_of path m with
  | Some (n, m', rest) =>
      n = length (components (prefix_of m)) /\ m' = m /\
      components path = components (prefix_of m) ++ components rest /\
      is_absolute rest = false /\ (start rest).1 = []
  | None => ~ covers prefix_of path m
  end.
Proof.
  intros Hne. unfold candidate, covers. pose proof (strip_prefix_spec path (prefix_of m) Hne) as H.
  by destruct (strip_prefix path (prefix_of m)).
Qed.

Lemma covers_candidate prefix_of path m :
  components (prefix_of m) <> [] -> covers prefix_of path m ->
  exists rest, candidate prefix_of path m = Some (length (components (prefix_of m)), m, rest).
Proof.
  intros Hne Hc. pose proof (candidate_spec prefix_of path m Hne) as H.
  destruct (candidate prefix_of path m) as [[[n m'] rest]|]; [|done].
  destruct H as (-> & -> & _). by exists rest.
Qed.

(** [most_specific_match] finds the covering rule with the most components, the
    last of them in configuration order, and nothing only when no rule covers
    the path. *)
Lemma most_specific_match_spec maps prefix_of path :
  Forall (fun m => components (prefix_of m) <> []) maps ->
  match most_specific_match maps prefix_of path with
  | None => Forall (fun m => ~ covers prefix_of path m) maps
  | Some (m, rest) =>
      components path = components (prefix_of m) ++ components rest /\
      is_absolute rest = false /\ (start rest).1 = [] /\
      exists before after, maps = before ++ m :: after /\
        Forall (fun m' => covers prefix_of path m' ->
                  length (components (prefix_of m')) <= length (components (prefix_of m))) before /\
        Forall (fun m' => covers prefix_of path m' ->
                  length (components (prefix_of m')) < length (components (prefix_of m))) after
  end.
Proof.
  intros Hne. unfold most_specific_match.
  pose proof (max_by_key_spec (fun c : nat * PathMapping * bytes => c.1.1)
                (omap (candidate prefix_of path) maps)) as Hmax.
  destruct (max_by_key _ _) as [[[n m] rest]|]; cbn [fmap option_fmap option_map fst snd].
  - destruct Hmax as (before & after & Hl & Hb & Ha).
    apply omap_app_cons in Hl as (l1 & y & l2 & -> & Hy & <- & <-).
    apply Forall_app in Hne as [Hn1 [Hny Hn2]%Forall_cons].
    pose proof (candidate_spec prefix_of path y Hny) as Hc. rewrite Hy in Hc.
    destruct Hc as (-> & -> & Hp & Hr & Hs). split_and!; try done.
    exists l1, l2. rewrite Forall_omap_iff in Hb, Ha. rewrite Forall_forall in Hb, Ha, Hn1, Hn2.
    split_and!; [done|..]; rewrite Forall_forall; intros m' Hm' Hc.
    + destruct (covers_candidate prefix_of path m' (Hn1 m' Hm') Hc) as [r Hr']. by apply (Hb m' Hm' _ Hr').
    + destruct (covers_candidate prefix_of path m' (Hn2 m' Hm') Hc) as [r Hr']. by apply (Ha m' Hm' _ Hr').
  - rewrite Forall_forall in *. intros m Hm Hc.
    destruct (covers_candidate prefix_of path m (Hne m Hm) Hc) as [r Hr].
    assert (H : (length (components (prefix_of m)), m, r) ∈ omap (candidate prefix_of path) maps)
      by (apply list_elem_of_omap; eauto).
    rewrite Hmax in H. by apply elem_of_nil in H.
Qed.

(** ** Properties *)

Definition sample_maps : list PathMapping :=
  [mkMapping (bs "/media") (bs "/a") None;
   mkMapping (bs "/media/tv/anime") (bs "/c/") (Some (bs "/dl"));
   mkMapping (bs "/media/tv") (bs "/b") None].

(** Resolving a path an *arr app reported.  A relative path is refused.  For
    an absolute one, when no rule's prefix covers it component by component the
    three views are the path itself; otherwise the covering rule with the most
    components (the last such in configuration order) applies, and its prefix is
    replaced in both other views with the remaining components untouched. *)
Theorem resolve_spec maps p :
  Forall (fun m => pm_arr m <> []) maps ->
  (is_absolute p = false -> resolve maps p = Err (NotAbsolute p)) /\
  (is_absolute p = true -> exists r, resolve maps p = Ok r /\ rp_arr r = p /\
    ((rp_mapping_applied r = false /\ rp_sharerr r = p /\ rp_qbit r = p /\
      Forall (fun m => ~ covers pm_arr p m) maps) \/
     (rp_mapping_applied r = true /\ exists before m after rest,
        maps = before ++ m :: after /\
        components p = components (pm_arr m) ++ rest /\
        components (rp_sharerr r) = components (pm_sharerr m) ++ rest /\
        components (rp_qbit r) = components (default (pm_sharerr m) (pm_qbit m)) ++ rest /\
        Forall (fun m' => covers pm_arr p m' ->
                  length (components (pm_arr m')) <= length (components (pm_arr m))) before /\
        Forall (fun m' => covers pm_arr p m' ->
                  length (components (pm_arr m')) < length (components (pm_arr m))) after))).
Proof.
  intros Hne. unfold resolve. split; intros ->; [done|]. cbn [negb].
  assert (Forall (fun m => components (pm_arr m) <> []) maps) as Hne'.
  { eapply Forall_impl; [exact Hne|]. intros m Hm. by rewrite components_nil. }
  pose proof (most_specific_match_spec maps pm_arr p Hne') as H.
  destruct (most_specific_match maps pm_arr p) as [[m rest]|]; eexists; split; try done;
    split; try done; [right|by left].
  destruct H as (Hp & Hr & Hs & before & after & Hl & Hb & Ha). split; [done|].
  exists before, m, after, (components rest). cbn [rp_sharerr rp_qbit].
  by rewrite !components_join_plain.
Qed.

Lemma resolve_spec_witness :
  exists r, resolve sample_maps (bs "/media/tv//anime/./x.mkv") = Ok r /\ rp_arr r = bs "/media/tv//anime/./x.mkv" /\
    components (rp_qbit r) = components (bs "/dl/x.mkv").
Proof.
  destruct (resolve_spec sample_maps (bs "/media/tv//anime/./x.mkv")) as [_ H];
    [by repeat constructor|].
  destruct (H eq_refl) as (r & Hr & Harr & _). exists r. split; [exact Hr|]. split; [exact Harr|].
  vm_compute in Hr. injection Hr as <-. reflexivity.
Defined.

(** The two entry points agree.  When a rule translated an *arr path and no
    rule's sharerr prefix covers another's, scanning the translated file from
    disk resolves to the same qBittorrent path, whichever fields the rule
    leaves out. *)
Theorem directory_view_agrees maps p r :
  Forall (fun m => pm_arr m <> [] /\ is_absolute (pm_sharerr m) = true) maps ->
  (forall m m', m ∈ maps -> m' ∈ maps ->
     components (pm_sharerr m) `prefix_of` components (pm_sharerr m') -> m = m') ->
  resolve maps p = Ok r -> rp_mapping_applied r = true ->
  exists r', resolve_for maps Directory (rp_sharerr r) = Ok r' /\
    rp_sharerr r' = rp_sharerr r /\ path_eq (rp_qbit r') (rp_qbit r).
Proof.
  intros Hwf Hinc. unfold resolve. destruct (is_absolute p) eqn:Habs; [|done]. cbn [negb].
  assert (Forall (fun m => components (pm_arr m) <> []) maps /\
          Forall (fun m => components (pm_sharerr m) <> []) maps) as [Hne Hne'].
  { split; (eapply Forall_impl; [exact Hwf|]); intros m [Ha Hs] Hc; apply components_nil in Hc;
      [done|]. by rewrite Hc in Hs. }
  pose proof (most_specific_match_spec maps pm_arr p Hne) as H.
  destruct (most_specific_match maps pm_arr p) as [[m rest]|]; intros [= <-]; [|done].
  destruct H as (Hp & Hr & Hs & before & after & Hl & _). intros _. cbn [rp_sharerr rp_qbit].
  set (s := path_join (pm_sharerr m) rest).
  assert (m ∈ maps) as Hm by (rewrite Hl; apply elem_of_app; right; apply elem_of_cons; by left).
  assert (components s = components (pm_sharerr m) ++ components rest) as Hcs
    by by apply components_join_plain.
  assert (is_absolute s = true) as Hs'.
  { apply is_absolute_components. rewrite Hcs. rewrite Forall_forall in Hwf.
    destruct (Hwf m Hm) as [_ [x Hx]%is_absolute_components%head_Some]. by rewrite Hx. }
  unfold resolve_for, resolve_sharerr. rewrite Hs'. cbn [negb].
  pose proof (most_specific_match_spec maps pm_sharerr s Hne') as H.
  destruct (most_specific_match maps pm_sharerr s) as [[m' rest']|]; cbn [mbind option_bind fst snd].
  - destruct H as (Hp' & Hr' & Hs'' & before' & after' & Hl' & _).
    assert (m' ∈ maps) as Hm' by (rewrite Hl'; apply elem_of_app; right; apply elem_of_cons; by left).
    assert (m' = m) as ->.
    { destruct (prefix_weak_total (components (pm_sharerr m)) (components (pm_sharerr m')) (components s)).
      - rewrite Hcs. by apply prefix_app_r.
      - rewrite Hp'. by apply prefix_app_r.
      - symmetry. by apply Hinc.
      - by apply Hinc. }
    rewrite Hcs in Hp'. apply app_inv_head in Hp'.
    destruct (pm_qbit m) as [q|]; cbn; eexists; split; try done; split; try done.
    cbn [rp_qbit]. unfold path_eq. by rewrite !components_join_plain, Hp'.
  - exfalso. rewrite Forall_forall in H. apply (H m Hm). unfold covers. rewrite Hcs.
    by apply prefix_app_r.
Qed.

Definition sample_views : list PathMapping :=
  [mkMapping (bs "/tv") (bs "/media/tv") (Some (bs "/downloads/tv"));
   mkMapping (bs "/tv/extras") (bs "/media/extras") None].

Lemma directory_view_agrees_witness :
  exists r', resolve_for sample_views Directory (bs "/media/extras/x.mkv") = Ok r' /\
    path_eq (rp_qbit r') (bs "/media/extras/x.mkv").
Proof.
  destruct (directory_view_agrees sample_views (bs "/tv/extras/x.mkv")
    (mkResolved (bs "/tv/extras/x.mkv") (bs "/media/extras/x.mkv") (bs "/media/extras/x.mkv") true))
    as (r' & Hr & _ & Hq); [| |reflexivity|reflexivity|by exists r'].
  - repeat constructor; discriminate.
  - intros m m' Hm Hm'. unfold sample_views in *. rewrite !elem_of_cons, elem_of_nil in Hm, Hm'.
    destruct_or!; subst; try done; intros Hp; apply (bool_decide_pack _) in Hp; vm_compute in Hp; done.
Defined.
