(* ===== verification/Factory.v ===== *)
(** * Building and checking torrents over files in place
    (crates/sharerr-torrent/src/factory.rs)

    The file system is a parameter: [metadata] and [File::open] of a path.  What
    an open file delivers is the list of its successive reads, each some bytes or
    an error; a read never returns more than the buffer asks for, so a longer
    delivery is split.  Loops carry fuel: a piece holds at least one byte, so one
    round per byte (and one more) always suffices, and a buffer is filled in at
    most one read per delivery. *)

From S2P Require Import Prelude RustStd BTreeMap Bencode Metainfo Net Endpoint TrackerUrl Text Model Paths.

(** ** The file system *)

Record FileMeta : Type := mkFileMeta { fm_is_file : bool; fm_len : N }.

(** What successive [read] calls on an open file deliver. *)
Definition Stream : Type := list (result bytes IoError).

Class FileSystem : Type := {
  metadata : bytes -> result FileMeta IoError;
  file_open : bytes -> result Stream IoError
}.

(** [Read::read] into a buffer of [want] bytes: nothing at the end of the file. *)
Fixpoint read (want : N) (stream : Stream) : result (bytes * Stream) IoError :=
  match stream with
  | [] => Ok ([], [])
  | Err e :: _ => Err e
  | Ok [] :: rest => read want rest
  | Ok b :: rest =>
      if (N.of_nat (length b) <=? want)%N then Ok (b, rest)
      else Ok (take (N.to_nat want) b, Ok (drop (N.to_nat want) b) :: rest)
  end.

(** The inner loop of [for_each_piece]: read until the buffer holds [chunk]
    bytes or the stream ends. *)
Fixpoint fill (fuel : nat) (chunk : N) (buf : bytes) (stream : Stream)
  : result (bytes * Stream) IoError :=
  match fuel with
  | O => Ok (buf, stream)
  | S fuel =>
      let filled := N.of_nat (length buf) in
      if (filled <? chunk)%N then
        let? '(got, stream) := read (chunk - filled) stream in
        match got with
        | [] => Ok (buf, stream)
        | _ => fill fuel chunk (buf ++ got) stream
        end
      else Ok (buf, stream)
  end.

(** The outer loop, threading the closure's captured state through
    [on_piece]. *)
Fixpoint piece_loop {S : Type} (fuel : nat) (chunk : N) (on_piece : S -> bytes -> S * bool)
    (st : S) (stream : Stream) : result S IoError :=
  match fuel with
  | O => Ok st
  | Datatypes.S fuel =>
      let? '(buf, stream) := fill (Datatypes.S (length stream)) chunk [] stream in
      match buf with
      | [] => Ok st
      | _ =>
          let '(st, go_on) := on_piece st buf in
          if negb go_on || (N.of_nat (length buf) <? chunk)%N then Ok st
          else piece_loop fuel chunk on_piece st stream
      end
  end.

(** The bytes a stream still holds, counting what comes before an error. *)
Definition stream_size (stream : Stream) : nat :=
  sum_list (map (fun r => match r with Ok b => length b | Err _ => 0 end) stream).

Section Factory.
Context `{U : UrlLib} `{D : Digests} `{FS : FileSystem}.

(** Open the others behind the first, as one stream. *)
Fixpoint open_others (others : list bytes) (stream : Stream) : result Stream TorrentError :=
  match others with
  | [] => Ok stream
  | other :: others =>
      let? file := rmap_err (BuildError other) (file_open other) in
      open_others others (stream ++ file)
  end.

Definition for_each_piece {S : Type} (path : bytes) (others : list bytes) (piece_length : N)
    (on_piece : S -> bytes -> S * bool) (st : S) : result S TorrentError :=
  let? stream := rmap_err (BuildError path) (file_open path) in
  let? stream := open_others others stream in
  rmap_err (BuildError path) (piece_loop (Datatypes.S (stream_size stream)) piece_length on_piece st stream).

(** ** Hashing *)

Definition V2_BLOCK : N := 16 * 1024.

(** [slice::chunks]: consecutive chunks of [n] elements, the last one shorter. *)
Fixpoint chunks_fuel {A : Type} (fuel : nat) (n : N) (l : list A) : list (list A) :=
  match fuel, l with
  | O, _ | _, [] => []
  | S fuel, _ =>
      let k := N.to_nat (N.min n (N.of_nat (length l))) in
      take k l :: chunks_fuel fuel n (drop k l)
  end.

Definition chunks {A : Type} (n : N) (l : list A) : list (list A) := chunks_fuel (length l) n l.

Definition hash_pieces (path : bytes) (others : list bytes) (piece_length : N)
  : result bytes TorrentError :=
  for_each_piece path others piece_length (fun pieces piece => (pieces ++ sha1 piece, true)) [].

(** [Vec::resize]. *)
Definition resize {A : Type} (n : nat) (x : A) (l : list A) : list A :=
  take n l ++ replicate (n - length l) x.

(** One round of [merkle_root]: [layer.chunks(2)], the odd one paired with
    itself. *)
Fixpoint merkle_step (layer : list bytes) : list bytes :=
  match layer with
  | [] => []
  | [a] => [sha256 (a ++ a)]
  | a :: b :: rest => sha256 (a ++ b) :: merkle_step rest
  end.

Fixpoint merkle_loop (fuel : nat) (layer : list bytes) : list bytes :=
  match fuel with
  | O => layer
  | S fuel => if bool_decide (1 < length layer) then merkle_loop fuel (merkle_step layer) else layer
  end.

Definition merkle_root (leaves : list bytes) (width : nat) (pad : bytes) : bytes :=
  let layer := resize (Nat.max width 1) pad leaves in
  hd [] (merkle_loop (length layer) layer).

(** [usize::next_power_of_two]. *)
Definition next_power_of_two (n : nat) : nat := 2 ^ Nat.log2_up n.

Definition zero_hash : bytes := replicate 32 x00.

Record V2Hashes : Type := mkV2 { v2_root : option bytes; v2_layer : option bytes }.

(** What the closure of [hash_pieces_hybrid] captures. *)
Record HybridState : Type := mkHybrid {
  hy_pieces : bytes;
  hy_piece_hashes : list bytes;
  hy_first_piece_leaves : list bytes
}.

Definition hybrid_piece (blocks_per_piece : nat) (st : HybridState) (piece : bytes) : HybridState * bool :=
  let leaves := map sha256 (chunks V2_BLOCK piece) in
  (mkHybrid (hy_pieces st ++ sha1 piece)
     (hy_piece_hashes st ++ [merkle_root leaves blocks_per_piece zero_hash])
     (if bool_decide (hy_piece_hashes st = []) then leaves else hy_first_piece_leaves st),
   true).

Definition v2_of_hashes (blocks_per_piece : nat) (st : HybridState) : V2Hashes :=
  match length (hy_piece_hashes st) with
  | 0 => mkV2 None None
  | 1 =>
      let leaves := hy_first_piece_leaves st in
      mkV2 (Some (merkle_root leaves (next_power_of_two (length leaves)) zero_hash)) None
  | count =>
      let zero_piece := merkle_root [] blocks_per_piece zero_hash in
      mkV2 (Some (merkle_root (hy_piece_hashes st) (next_power_of_two count) zero_piece))
           (Some (concat (hy_piece_hashes st)))
  end.

Definition hash_pieces_hybrid (path : bytes) (piece_length : N) : result (bytes * V2Hashes) TorrentError :=
  let blocks_per_piece := Nat.max (N.to_nat (piece_length / V2_BLOCK)) 1 in
  let? st := for_each_piece path [] piece_length (hybrid_piece blocks_per_piece) (mkHybrid [] [] []) in
  Ok (hy_pieces st, v2_of_hashes blocks_per_piece st).

(** ** The info dictionary *)

Definition int_of (value : N) : Value := VInt (default i64_max (i64_try_from_u64 value)).

Definition base_info (name : bytes) (piece_length : N) (pieces : bytes) (private : bool)
  : list (bytes * Value) :=
  let info := btree_insert (bs "name") (vstring name) [] in
  let info := btree_insert (bs "piece length") (int_of piece_length) info in
  let info := btree_insert (bs "pieces") (VBytes pieces) info in
  if private then btree_insert (bs "private") (VInt 1) info else info.

(** [V2Hashes::write_into]. *)
Definition write_into (v2 : V2Hashes) (name : bytes) (size : N) (info extra : list (bytes * Value))
  : list (bytes * Value) * list (bytes * Value) :=
  let file := btree_insert (bs "length") (int_of size) [] in
  let file :=
    match v2_root v2 with
    | Some root => btree_insert (bs "pieces root") (VBytes root) file
    | None => file
    end in
  let entry := btree_insert [] (VDict file) [] in
  let tree := btree_insert name (VDict entry) [] in
  let info := btree_insert (bs "meta version") (VInt 2) info in
  let info := btree_insert (bs "file tree") (VDict tree) info in
  let layers :=
    match v2_root v2, v2_layer v2 with
    | Some root, Some layer => btree_insert root (VBytes layer) []
    | _, _ => []
    end in
  (info, btree_insert (bs "piece layers") (VDict layers) extra).

Definition piece_length_for (size : N) : N :=
  let KIB := 1024%N in
  let MIB := (1024 * KIB)%N in
  if (size <=? 512 * MIB)%N then 256 * KIB
  else if (size <=? 1024 * MIB)%N then 512 * KIB
  else if (size <=? 2048 * MIB)%N then MIB
  else if (size <=? 4096 * MIB)%N then 2 * MIB
  else if (size <=? 8192 * MIB)%N then 4 * MIB
  else if (size <=? 16384 * MIB)%N then 8 * MIB
  else 16 * MIB.

Definition describe (media : MediaMeta) : option bytes :=
  let bit_depth := (fun bits => bits ++ bs "-bit") <$> audio_bit_depth media in
  let parts := omap id
    [resolution media; video_codec media; dynamic_range media; audio_codec media;
     audio_channels media; bit_depth; sample_rate_khz media; runtime media] in
  if is_nonempty parts then Some (join (bs " ") parts) else None.

(** ** Building *)

Record BuiltTorrent : Type := mkBuilt {
  bt_info_hash : bytes;
  bt_info_hash_v2 : option bytes;
  bt_data : bytes;
  bt_size : N
}.

(** The torrent [finish] puts together. *)
Definition finish_torrent (info extra : list (bytes * Value)) (announce : AnnounceSet)
    (media : option MediaMeta) : Torrent :=
  let extra :=
    match media ≫= describe with
    | Some comment => btree_insert (bs "comment") (vstring comment) extra
    | None => extra
    end in
  mkTorrent (Some (url_as_str (primary announce))) (tier_list announce) info extra.

Definition finish (info extra : list (bytes * Value)) (announce : AnnounceSet)
    (media : option MediaMeta) (size : N) : BuiltTorrent :=
  let torrent := finish_torrent info extra announce media in
  mkBuilt (info_hash torrent) (info_hash_v2 torrent) (torrent_encode torrent) size.

Definition source_file (path : bytes) : result (N * bytes) TorrentError :=
  let? meta := rmap_err (Unreadable path) (metadata path) in
  if negb (fm_is_file meta) then Err (NotAFile path)
  else
    let? name := ok_or (file_name path ≫= from_utf8) (NoFileName path) in
    Ok (fm_len meta, name).

Record TorrentRequest : Type := mkTorrentRequest {
  tq_path : bytes;
  tq_announce : AnnounceSet;
  tq_media : option MediaMeta;
  tq_private : bool;
  tq_hybrid : bool
}.

(** [TorrentFactory::create]. *)
Definition create (request : TorrentRequest) : result BuiltTorrent TorrentError :=
  let path := tq_path request in
  let? '(size, name) := source_file path in
  let piece_length := piece_length_for size in
  let? '(pieces, v2) :=
    if tq_hybrid request then
      let? '(pieces, v2) := hash_pieces_hybrid path piece_length in Ok (pieces, Some v2)
    else let? pieces := hash_pieces path [] piece_length in Ok (pieces, None) in
  let info := base_info name piece_length pieces (tq_private request) in
  let info := btree_insert (bs "length") (int_of size) info in
  let '(info, extra) :=
    match v2 with
    | Some v2 => write_into v2 name size info []
    | None => (info, [])
    end in
  Ok (finish info extra (tq_announce request) (tq_media request) size).

Record SidecarRequest : Type := mkSidecarRequest {
  sq_path : bytes;
  sq_sidecars : list bytes;
  sq_root_name : bytes;
  sq_announce : AnnounceSet;
  sq_media : option MediaMeta;
  sq_private : bool
}.

Definition file_entry (name : bytes) (length : N) : Value :=
  VDict (btree_insert (bs "path") (VList [vstring name])
          (btree_insert (bs "length") (int_of length) [])).

(** The loop over the sidecars: their sizes added up, their entries in order. *)
Fixpoint sidecar_entries (sidecars : list (bytes * bytes)) (size : N) (files : list Value)
  : result (N * list Value) TorrentError :=
  match sidecars with
  | [] => Ok (size, files)
  | (name, other) :: sidecars =>
      let? meta := rmap_err (Unreadable other) (metadata other) in
      let length := fm_len meta in
      sidecar_entries sidecars (u64_saturating_add size length) (files ++ [file_entry name length])
  end.

(** [TorrentFactory::create_with_sidecars]. *)
Definition create_with_sidecars (request : SidecarRequest) : result BuiltTorrent TorrentError :=
  let path := sq_path request in
  let? '(size, name) := source_file path in
  let dir := default [] (parent path) in
  let others := map (path_join dir) (sq_sidecars request) in
  let? '(size, files) :=
    sidecar_entries (combine (sq_sidecars request) others) size [file_entry name size] in
  let piece_length := piece_length_for size in
  let? pieces := hash_pieces path others piece_length in
  let info := base_info (sq_root_name request) piece_length pieces (sq_private request) in
  let info := btree_insert (bs "files") (VList files) info in
  Ok (finish info [] (sq_announce request) (sq_media request) size).

(** ** Checking a file against a torrent *)

(** The closure of [verify_single_file]: the pieces still expected, and whether
    the last one matched. *)
Definition verify_piece (st : list bytes * bool) (piece : bytes) : list bytes * bool * bool :=
  match st.1 with
  | next :: expected => let matched := bool_decide (next = sha1 piece) in ((expected, matched), matched)
  | [] => (([], false), false)
  end.

Definition verify_single_file (path : bytes) (torrent : Torrent) : result bool TorrentError :=
  match piece_length torrent, pieces torrent with
  | Some piece_length, Some expected =>
      if negb (is_single_file torrent) || (piece_length =? 0)%N
         || negb (length expected mod 20 =? 0) then Ok false
      else
        let? meta := rmap_err (Unreadable path) (metadata path) in
        let size := fm_len meta in
        let count := length expected / 20 in
        if negb (size =? content_length torrent)%N
           || negb (div_ceil size piece_length =? N.of_nat count)%N then Ok false
        else
          let? '(rest, matched) :=
            for_each_piece path [] piece_length verify_piece (chunks 20 expected, true) in
          Ok (matched && negb (is_nonempty rest))
  | _, _ => Ok false
  end.

(** ** Stored torrents *)

Definition torrent_file_name (info_hash : bytes) : bytes := info_hash ++ bs ".torrent".

Definition torrent_file_path (dir info_hash : bytes) : bytes := path_join dir (torrent_file_name info_hash).

Definition with_announce (torrent : Torrent) (announce : AnnounceSet) : Torrent :=
  mkTorrent (Some (url_as_str (primary announce))) (tier_list announce)
    (t_info torrent) (t_extra torrent).

Definition rewrite_announce (data : bytes) (announce : AnnounceSet) : result bytes TorrentError :=
  let? torrent := rmap_err Reparse (read_from_bytes data) in
  Ok (torrent_encode (with_announce torrent announce)).

Inductive Retargeted : Type :=
| Current (torrent : Torrent)
| Updated (previous : option bytes) (torrent : Torrent) (data : bytes).

Definition retargeted_torrent (r : Retargeted) : Torrent :=
  match r with Current torrent | Updated _ torrent _ => torrent end.

Definition retarget_announce (data : bytes) (announce : AnnounceSet) : result Retargeted TorrentError :=
  let? torrent := rmap_err Reparse (read_from_bytes data) in
  let previous := t_announce torrent in
  if bool_decide (previous = Some (url_as_str (primary announce))) then Ok (Current torrent)
  else
    let torrent := with_announce torrent announce in
    Ok (Updated previous torrent (torrent_encode torrent)).

End Factory.

(** ** Chunks *)

Section Chunks.
Context {A : Type}.
Implicit Types l : list A.

Lemma take_min n l :
  take (N.to_nat (N.min n (N.of_nat (length l)))) l = take (N.to_nat n) l /\
  drop (N.to_nat (N.min n (N.of_nat (length l)))) l = drop (N.to_nat n) l.
Proof.
  destruct (N.le_gt_cases n (N.of_nat (length l))) as [H|H].
  - by rewrite N.min_l.
  - rewrite N.min_r, Nnat.Nat2N.id by lia. rewrite !(take_ge l), !(drop_ge l) by lia. done.
Qed.

(** Strong induction on the length. *)
Lemma length_ind (P : list A -> Prop) :
  (forall l, (forall k, length k < length l -> P k) -> P l) -> forall l, P l.
Proof. intros H. apply (well_founded_induction (Wf_nat.well_founded_ltof _ (@length A))), H. Qed.

Lemma chunks_fuel_enough fuel n l :
  (0 < n)%N -> length l <= fuel -> chunks_fuel fuel n l = chunks n l.
Proof.
  intros Hn. unfold chunks. revert fuel. induction l as [l IH] using length_ind. intros fuel Hf.
  destruct l as [|x l]; [by destruct fuel|]. destruct fuel as [|fuel]; [cbn in Hf; lia|].
  cbn [chunks_fuel length]. change (S (length l)) with (length (x :: l)).
  destruct (take_min n (x :: l)) as [-> ->]. f_equal.
  assert (length (drop (N.to_nat n) (x :: l)) <= length l) as Hd
    by (rewrite length_drop; cbn; lia).
  cbn in Hf. rewrite (IH (drop (N.to_nat n) (x :: l))) by (cbn; lia).
  symmetry. apply IH; cbn; lia.
Qed.

Lemma chunks_cons n l :
  (0 < n)%N -> l <> [] ->
  chunks n l = take (N.to_nat n) l :: chunks n (drop (N.to_nat n) l).
Proof.
  intros Hn Hl. destruct l as [|x l]; [done|]. unfold chunks at 1. cbn [chunks_fuel length].
  change (S (length l)) with (length (x :: l)). destruct (take_min n (x :: l)) as [-> ->].
  f_equal. apply chunks_fuel_enough; [done|]. rewrite length_drop. cbn. lia.
Qed.

(** Induction over the chunks of a list. *)
Lemma chunks_ind n (Hn : (0 < n)%N) (P : list A -> Prop) :
  P [] ->
  (forall l, l <> [] -> P (drop (N.to_nat n) l) -> P l) -> forall l, P l.
Proof.
  intros Hnil Hstep l. induction l as [l IH] using length_ind.
  destruct l as [|x l]; [done|]. apply Hstep; [done|]. apply IH.
  rewrite length_drop. cbn. lia.
Qed.

Lemma concat_chunks n l : (0 < n)%N -> concat (chunks n l) = l.
Proof.
  intros Hn. induction l as [|l Hl IH] using (chunks_ind n Hn); [done|].
  rewrite chunks_cons by done. cbn. by rewrite IH, take_drop.
Qed.

Lemma chunks_full n l c :
  (0 < n)%N -> c ∈ chunks n l -> 0 < length c <= N.to_nat n.
Proof.
  intros Hn. induction l as [|l Hl IH] using (chunks_ind n Hn); [by intros ?%elem_of_nil|].
  rewrite chunks_cons by done. intros [->|Hc]%elem_of_cons; [|by apply IH].
  rewrite length_take. destruct l; [done|]. cbn. lia.
Qed.

Lemma chunks_init n l before c after :
  (0 < n)%N -> chunks n l = before ++ c :: after -> after <> [] -> length c = N.to_nat n.
Proof.
  intros Hn. revert before. induction l as [|l Hl IH] using (chunks_ind n Hn); intros before;
    [by destruct before|]. rewrite chunks_cons by done.
  destruct before as [|b before]; cbn; intros [= <- Hr] Ha; [|by eapply IH].
  rewrite length_take. destruct (Nat.le_gt_cases (N.to_nat n) (length l)); [lia|].
  rewrite drop_ge in Hr by lia. by destruct after.
Qed.

Lemma chunks_app n (a b : list A) :
  (0 < n)%N -> N.of_nat (length a) = n -> chunks n (a ++ b) = a :: chunks n b.
Proof.
  intros Hn Ha. rewrite chunks_cons; [|done|by destruct a; cbn in *; [lia|]].
  rewrite <- Ha, Nnat.Nat2N.id, take_length_app, drop_length_app. done.
Qed.

Lemma chunks_concat n (ls : list (list A)) :
  (0 < n)%N -> Forall (fun c => N.of_nat (length c) = n) ls -> chunks n (concat ls) = ls.
Proof.
  intros Hn. induction 1 as [|c ls Hc Hls IH]; [done|]. cbn [concat]. by rewrite chunks_app, IH.
Qed.

Lemma length_chunks n l :
  (0 < n)%N -> N.of_nat (length (chunks n l)) = div_ceil (N.of_nat (length l)) n.
Proof.
  intros Hn. induction l as [|l Hl IH] using (chunks_ind n Hn).
  - cbn. unfold div_ceil. by rewrite N.Div0.div_0_l, N.Div0.mod_0_l.
  - rewrite chunks_cons by done. cbn [length]. rewrite Nnat.Nat2N.inj_succ, IH, length_drop.
    destruct (Nat.le_gt_cases (N.to_nat n) (length l)) as [Hle|Hgt].
    + replace (N.of_nat (length l)) with (N.of_nat (length l - N.to_nat n) + 1 * n)%N by lia.
      unfold div_ceil. rewrite N.div_add, N.Div0.mod_add by lia.
      destruct (_ =? 0)%N; lia.
    + replace (length l - N.to_nat n) with 0 by lia. unfold div_ceil.
      rewrite N.Div0.mod_0_l, N.Div0.div_0_l, N.div_small, N.mod_small by lia.
      destruct (N.eqb_spec (N.of_nat (length l)) 0) as [H0|H0]; [|done].
      destruct l; [done|cbn in H0; lia].
Qed.

End Chunks.

(** ** Reading in pieces *)

(** A stream that delivers [segs] without an error. *)
Definition clean (segs : list bytes) : Stream := map Ok segs.

Lemma read_clean want segs :
  (0 < want)%N ->
  exists got segs', read want (clean segs) = Ok (got, clean segs') /\
    concat segs = got ++ concat segs' /\ (N.of_nat (length got) <= want)%N /\
    (got = [] -> segs' = []) /\
    (length segs' < length segs \/ N.of_nat (length got) = want \/ got = []).
Proof.
  intros Hw. induction segs as [|[|b seg] segs IH]; cbn [clean map read].
  - exists [], []. cbn. split_and!; try done; [lia|by right; right].
  - destruct IH as (got & segs' & Hr & Hc & Hl & He & Hd). exists got, segs'.
    split_and!; try done. destruct Hd as [?|[?|?]]; cbn; [left; lia|by right; left|by right; right].
  - destruct (N.leb_spec (N.of_nat (length (b :: seg))) want).
    + exists (b :: seg), segs. split_and!; try done. left. cbn. lia.
    + exists (take (N.to_nat want) (b :: seg)), (drop (N.to_nat want) (b :: seg) :: segs).
      assert (length (take (N.to_nat want) (b :: seg)) = N.to_nat want) as Hl
        by (rewrite length_take; lia).
      split_and!; [done| |lia| |right; left; lia].
      * cbn [concat]. by rewrite app_assoc, take_drop.
      * intros He. rewrite He in Hl. cbn in Hl. lia.
Qed.

(** Filling the buffer takes the next bytes of the stream, however they are
    delivered. *)
Lemma fill_clean fuel chunk buf segs :
  length segs < fuel \/ (chunk <= N.of_nat (length buf))%N ->
  let want := N.to_nat chunk - length buf in
  exists segs', fill fuel chunk buf (clean segs) = Ok (buf ++ take want (concat segs), clean segs') /\
    concat segs' = drop want (concat segs).
Proof.
  revert buf segs. induction fuel as [|fuel IH]; intros buf segs Hf; cbn [fill].
  - exists segs. replace (N.to_nat chunk - length buf) with 0 by lia. by rewrite take_0, app_nil_r.
  - destruct (N.ltb_spec (N.of_nat (length buf)) chunk) as [Hlt|Hge].
    + destruct (read_clean (chunk - N.of_nat (length buf)) segs) as (got & segs' & -> & Hc & Hl & He & Hd);
        [lia|]. cbn [rbind]. destruct got as [|g got].
      * exists segs'. rewrite Hc, (He eq_refl). cbn. by rewrite take_nil, drop_nil, app_nil_r.
      * destruct (IH (buf ++ g :: got) segs') as (segs'' & -> & Hc').
        { destruct Hd as [Hd|[Hd|Hd]]; [|right; rewrite length_app; lia|done].
          destruct Hf as [Hf|Hf]; [left; lia|lia]. }
        exists segs''. rewrite length_app in *. rewrite Hc', Hc.
        replace (N.to_nat chunk - length buf) 
          with (length (g :: got) + (N.to_nat chunk - (length buf + length (g :: got)))) by lia.
        split.
        -- rewrite <- app_assoc. by rewrite take_app_add.
        -- by rewrite drop_app_add.
    + exists segs. replace (N.to_nat chunk - length buf) with 0 by lia. by rewrite take_0, app_nil_r.
Qed.

(** What [for_each_piece] does with the pieces: hand them over in order until
    one is refused. *)
Fixpoint fold_pieces {S : Type} (on_piece : S -> bytes -> S * bool) (st : S) (ps : list bytes) : S :=
  match ps with
  | [] => st
  | p :: ps => let '(st, go_on) := on_piece st p in if go_on then fold_pieces on_piece st ps else st
  end.

Lemma piece_loop_clean {S : Type} fuel chunk (on_piece : S -> bytes -> S * bool) st segs :
  (0 < chunk)%N -> length (concat segs) < fuel ->
  piece_loop fuel chunk on_piece st (clean segs) =
    Ok (fold_pieces on_piece st (chunks chunk (concat segs))).
Proof.
  intros Hc. revert st segs. induction fuel as [|fuel IH]; intros st segs Hf; [lia|].
  cbn [piece_loop].
  destruct (fill_clean (Datatypes.S (length (clean segs))) chunk [] segs) as (segs' & -> & Hrest).
  { left. unfold clean. rewrite length_map. lia. }
  cbn [rbind app length] in *. rewrite Nat.sub_0_r in *.
  destruct (decide (concat segs = [])) as [He|He].
  { rewrite He, take_nil. done. }
  rewrite chunks_cons by done. cbn [fold_pieces].
  destruct (take (N.to_nat chunk) (concat segs)) as [|b buf] eqn:Ht.
  { apply (f_equal length) in Ht. rewrite length_take in Ht. destruct (concat segs); [done|].
    cbn in Ht. lia. }
  destruct (on_piece st (b :: buf)) as [st' go_on]. destruct go_on; [|done]. cbn [negb orb].
  rewrite <- Ht, length_take.
  destruct (N.ltb_spec (N.of_nat (N.to_nat chunk `min` length (concat segs))) chunk).
  - rewrite drop_ge by lia. done.
  - rewrite IH, Hrest; [done|]. rewrite Hrest, length_drop.
    destruct (concat segs); [done|]. cbn in *. lia.
Qed.

Lemma stream_size_clean segs : stream_size (clean segs) = length (concat segs).
Proof.
  induction segs as [|s segs IH]; [done|]. cbn. rewrite length_app. by f_equal.
Qed.

Section FactoryFacts.
Context `{U : UrlLib} `{D : Digests} `{FS : FileSystem}.

(** The file at [path] opens and reads as [content], in whatever deliveries. *)
Definition reads_as (path content : bytes) : Prop :=
  exists segs, file_open path = Ok (clean segs) /\ concat segs = content.

Lemma open_others_clean others contents segs :
  Forall2 reads_as others contents ->
  exists segs', open_others others (clean segs) = Ok (clean segs') /\
    concat segs' = concat segs ++ concat contents.
Proof.
  intros H. revert segs. induction H as [|o c others contents (so & Ho & Hc) Hrest IH]; intros segs.
  - exists segs. by rewrite app_nil_r.
  - cbn [open_others]. rewrite Ho. cbn [rmap_err rbind].
    replace (clean segs ++ clean so) with (clean (segs ++ so)) by apply map_app.
    destruct (IH (segs ++ so)) as (segs' & -> & Hs). exists segs'. split; [done|].
    rewrite Hs, concat_app, Hc. cbn. by rewrite app_assoc.
Qed.

Lemma for_each_piece_clean {S : Type} path others content contents piece_length
    (on_piece : S -> bytes -> S * bool) st :
  (0 < piece_length)%N -> reads_as path content -> Forall2 reads_as others contents ->
  for_each_piece path others piece_length on_piece st =
    Ok (fold_pieces on_piece st (chunks piece_length (content ++ concat contents))).
Proof.
  intros Hp (segs & Ho & Hc) Hothers. unfold for_each_piece. rewrite Ho. cbn [rmap_err rbind].
  destruct (open_others_clean others contents segs Hothers) as (segs' & -> & Hs).
  cbn [rbind]. rewrite stream_size_clean, piece_loop_clean by (done || lia).
  by rewrite Hs, Hc.
Qed.

Lemma fold_pieces_hash acc ps :
  fold_pieces (fun pieces piece => (pieces ++ sha1 piece, true)) acc ps = acc ++ concat (map sha1 ps).
Proof.
  revert acc. induction ps as [|p ps IH]; intros acc; cbn; [by rewrite app_nil_r|].
  by rewrite IH, <- app_assoc.
Qed.

Lemma hash_pieces_clean path others content contents piece_length :
  (0 < piece_length)%N -> reads_as path content -> Forall2 reads_as others contents ->
  hash_pieces path others piece_length =
    Ok (concat (map sha1 (chunks piece_length (content ++ concat contents)))).
Proof.
  intros. unfold hash_pieces. erewrite for_each_piece_clean by done. by rewrite fold_pieces_hash.
Qed.

Lemma fold_verify expected ps :
  let '(rest, matched) := fold_pieces verify_piece (expected, true) ps in
  matched && negb (is_nonempty rest) = bool_decide (expected = map sha1 ps).
Proof.
  revert expected. induction ps as [|p ps IH]; intros expected.
  - cbn. destruct expected; [done|]. by rewrite bool_decide_eq_false_2.
  - destruct expected as [|e expected]; cbn [fold_pieces verify_piece fst].
    + by rewrite bool_decide_eq_false_2.
    + case_bool_decide as He.
      * specialize (IH expected). destruct (fold_pieces _ _ _) as [rest matched]. rewrite IH.
        apply bool_decide_ext. cbn. naive_solver.
      * cbn. rewrite bool_decide_eq_false_2; [done|]. naive_solver.
Qed.

End FactoryFacts.

(** ** Hash trees *)

Section Merkle.
Context `{D : Digests}.

(** The hash tree of height [h] over [2 ^ h] leaves, as BEP 52 draws it. *)
Fixpoint mtree (h : nat) (leaves : list bytes) : bytes :=
  match h with
  | O => hd [] leaves
  | S h => sha256 (mtree h (take (2 ^ h) leaves) ++ mtree h (drop (2 ^ h) leaves))
  end.

Lemma pow2_pos h : 0 < 2 ^ h.
Proof. apply Nat.neq_0_lt_0, Nat.pow_nonzero. lia. Qed.

Lemma merkle_step_app m a b :
  length a = 2 * m -> merkle_step (a ++ b) = merkle_step a ++ merkle_step b.
Proof.
  revert a. induction m as [|m IH]; intros a Ha; [by destruct a|].
  destruct a as [|x [|y a]]; cbn in Ha; try lia. cbn [merkle_step app]. f_equal.
  apply IH. lia.
Qed.

Lemma length_merkle_step m a : length a = 2 * m -> length (merkle_step a) = m.
Proof.
  revert a. induction m as [|m IH]; intros a Ha; [by destruct a|].
  destruct a as [|x [|y a]]; cbn in Ha; try lia. cbn [merkle_step length].
  f_equal. apply IH. lia.
Qed.

Lemma mtree_step h l : length l = 2 ^ S h -> mtree (S h) l = mtree h (merkle_step l).
Proof.
  revert l. induction h as [|h IH]; intros l Hl.
  - destruct l as [|a [|b [|c l]]]; cbn in Hl; try lia. done.
  - assert (length (take (2 ^ S h) l) = 2 ^ S h) as Ht by (rewrite length_take; cbn in *; lia).
    assert (length (drop (2 ^ S h) l) = 2 ^ S h) as Hd by (rewrite length_drop; cbn in *; lia).
    change (mtree (S (S h)) l)
      with (sha256 (mtree (S h) (take (2 ^ S h) l) ++ mtree (S h) (drop (2 ^ S h) l))).
    rewrite !IH by done. rewrite <- (take_drop (2 ^ S h) l) at 3.
    rewrite (merkle_step_app (2 ^ h)) by done. cbn [mtree].
    assert (length (merkle_step (take (2 ^ S h) l)) = 2 ^ h) as Hs
      by by apply length_merkle_step.
    rewrite <- Hs. by rewrite take_length_app, drop_length_app.
Qed.

Lemma merkle_loop_mtree fuel h l :
  length l = 2 ^ h -> h <= fuel -> hd [] (merkle_loop fuel l) = mtree h l.
Proof.
  revert h l. induction fuel as [|fuel IH]; intros h l Hl Hf.
  - by replace h with 0 by lia.
  - cbn [merkle_loop]. destruct h as [|h].
    + by rewrite bool_decide_eq_false_2 by (cbn in Hl; lia).
    + pose proof (pow2_pos h). rewrite bool_decide_eq_true_2 by (cbn in Hl; lia).
      rewrite mtree_step by done. apply IH; [|lia]. apply length_merkle_step. cbn in Hl. lia.
Qed.

Lemma length_resize {A : Type} n (x : A) l : length (resize n x l) = n.
Proof. unfold resize. rewrite length_app, length_take, length_replicate. lia. Qed.

Lemma merkle_root_mtree leaves h pad :
  merkle_root leaves (2 ^ h) pad = mtree h (resize (2 ^ h) pad leaves).
Proof.
  unfold merkle_root. pose proof (pow2_pos h). rewrite Nat.max_l by lia.
  apply merkle_loop_mtree; rewrite length_resize; [done|].
  apply Nat.lt_le_incl, Nat.pow_gt_lin_r. lia.
Qed.

Lemma take_concat_same {A : Type} m n (ls : list (list A)) :
  Forall (fun l => length l = m) ls ->
  take (n * m) (concat ls) = concat (take n ls) /\ drop (n * m) (concat ls) = concat (drop n ls).
Proof.
  intros H. revert n. induction H as [|l ls Hl Hls IH]; intros n.
  - cbn [concat]. by rewrite !take_nil, !drop_nil.
  - destruct n as [|n]; [done|]. cbn [concat take drop Nat.mul]. rewrite <- Hl.
    rewrite take_app_add, drop_app_add, Hl. by destruct (IH n) as [-> ->].
Qed.

(** A tree over whole subtrees is the tree over all their leaves. *)
Lemma mtree_concat k j ls :
  length ls = 2 ^ j -> Forall (fun l => length l = 2 ^ k) ls ->
  mtree (j + k) (concat ls) = mtree j (map (mtree k) ls).
Proof.
  revert ls. induction j as [|j IH]; intros ls Hlen Hls.
  - destruct ls as [|l [|? ?]]; cbn in Hlen; try lia. cbn [concat map Nat.add].
    by rewrite app_nil_r.
  - cbn [Nat.add mtree]. rewrite Nat.pow_add_r.
    destruct (take_concat_same (2 ^ k) (2 ^ j) ls Hls) as [-> ->]. rewrite !IH.
    + by rewrite <- firstn_map, <- skipn_map.
    + rewrite length_drop. cbn in Hlen. lia.
    + by apply Forall_drop.
    + rewrite length_take. cbn in Hlen. lia.
    + by apply Forall_take.
Qed.

End Merkle.

Section Blocks.
Context {A : Type}.
Implicit Types l : list A.

Lemma chunks_split b m l :
  (0 < b)%N ->
  chunks b l = chunks b (take (m * N.to_nat b) l) ++ chunks b (drop (m * N.to_nat b) l).
Proof.
  intros Hb. revert l. induction m as [|m IH]; intros l; [done|].
  destruct (decide (l = [])) as [->|Hl]; [by rewrite take_nil, drop_nil|].
  rewrite (chunks_cons b l) by done.
  rewrite (chunks_cons b (take _ l)).
  - cbn [app Nat.mul]. rewrite take_take, Nat.min_l by lia. f_equal.
    rewrite (IH (drop (N.to_nat b) l)), drop_drop. f_equal. f_equal.
    rewrite <- take_drop_commute. f_equal; lia.
  - done.
  - destruct l; [done|]. intros H%(f_equal length). rewrite length_take in H. cbn in H. lia.
Qed.

(** The blocks of one piece: as many as fit, all of them when it is full. *)
Lemma length_blocks b m l :
  (0 < b)%N -> length l <= m * N.to_nat b ->
  length (chunks b l) <= m /\ (length l = m * N.to_nat b -> length (chunks b l) = m).
Proof.
  intros Hb. revert l. induction m as [|m IH]; intros l Hl.
  - destruct l; cbn in *; [done|lia].
  - destruct (decide (l = [])) as [->|Hne]; [cbn; lia|].
    rewrite chunks_cons by done. cbn [length].
    destruct (IH (drop (N.to_nat b) l)) as [H1 H2]; rewrite length_drop in *; lia.
Qed.

(** Padding each piece to [m] blocks is padding the whole to [m] blocks per
    piece: only the last piece is short. *)
Lemma padded_pieces {B : Type} b m (f : list A -> B) z l :
  (0 < b)%N -> 0 < m ->
  concat (map (fun p => resize m z (map f (chunks b p))) (chunks (N.of_nat m * b) l)) =
  resize (length (chunks (N.of_nat m * b) l) * m) z (map f (chunks b l)).
Proof.
  intros Hb Hm. assert (0 < N.of_nat m * b)%N as Hp by lia.
  assert (N.to_nat (N.of_nat m * b) = m * N.to_nat b) as Hmb by lia.
  induction l as [|l Hl IH] using (chunks_ind _ Hp); [done|].
  rewrite (chunks_cons (N.of_nat m * b) l) by done. cbn [map concat length Nat.mul].
  rewrite IH, Hmb, (chunks_split b m l) by done. rewrite map_app.
  set (t := take (m * N.to_nat b) l). set (d := drop (m * N.to_nat b) l).
  destruct (length_blocks b m t) as [H1 H2]; [done|unfold t; rewrite length_take; lia|].
  unfold resize. rewrite length_app, !length_map.
  destruct (Nat.le_gt_cases (m * N.to_nat b) (length l)) as [Hle|Hgt].
  - rewrite H2 by (unfold t; rewrite length_take; lia). rewrite Nat.sub_diag. cbn [replicate].
    rewrite app_nil_r, (take_ge (map f (chunks b t))) by (rewrite length_map, H2; unfold t; rewrite ?length_take; lia).
    assert (length (map f (chunks b t)) = m) as Hlm
      by (rewrite length_map; apply H2; unfold t; rewrite length_take; lia).
    set (n := length (chunks (N.of_nat m * b) d) * m).
    replace (take (m + n) (map f (chunks b t) ++ map f (chunks b d)))
      with (map f (chunks b t) ++ take n (map f (chunks b d)))
      by (by rewrite <- take_app_add, Hlm).
    rewrite <- app_assoc. do 3 f_equal. lia.
  - assert (d = []) as -> by (unfold d; apply drop_ge; lia). cbn. rewrite app_nil_r, !Nat.add_0_r, app_nil_r. done.
Qed.

End Blocks.

Section HybridFacts.
Context `{U : UrlLib} `{D : Digests} `{FS : FileSystem}.

(** The 16 KiB leaf hashes of some bytes. *)
Definition leaves_of (content : bytes) : list bytes := map sha256 (chunks V2_BLOCK content).

Lemma fold_hybrid_more bpp st ps :
  hy_piece_hashes st <> [] ->
  fold_pieces (hybrid_piece bpp) st ps =
  mkHybrid (hy_pieces st ++ concat (map sha1 ps))
    (hy_piece_hashes st ++ map (fun p => merkle_root (leaves_of p) bpp zero_hash) ps)
    (hy_first_piece_leaves st).
Proof.
  revert st. induction ps as [|p ps IH]; intros st Hst; cbn [fold_pieces map concat].
  - rewrite !app_nil_r. by destruct st.
  - unfold hybrid_piece at 1. cbv beta iota zeta.
    rewrite IH by (cbn [hy_piece_hashes]; by destruct (hy_piece_hashes st)).
    cbn [hy_pieces hy_piece_hashes hy_first_piece_leaves].
    rewrite bool_decide_eq_false_2 by done. by rewrite <- !app_assoc.
Qed.

Lemma fold_hybrid bpp ps :
  fold_pieces (hybrid_piece bpp) (mkHybrid [] [] []) ps =
  mkHybrid (concat (map sha1 ps)) (map (fun p => merkle_root (leaves_of p) bpp zero_hash) ps)
    (match ps with [] => [] | p :: _ => leaves_of p end).
Proof.
  destruct ps as [|p ps]; [done|]. cbn [fold_pieces]. unfold hybrid_piece at 1. cbv beta iota zeta.
  by rewrite fold_hybrid_more.
Qed.

Lemma next_power_of_two_spec n : n <= next_power_of_two n.
Proof.
  unfold next_power_of_two. destruct (decide (n <= 1)) as [H|H].
  - pose proof (pow2_pos (Nat.log2_up n)). lia.
  - apply Nat.log2_log2_up_spec. lia.
Qed.

Lemma resize_short {A : Type} n (x : A) l :
  length l <= n -> resize n x l = l ++ replicate (n - length l) x.
Proof. intros H. unfold resize. by rewrite take_ge. Qed.

Lemma concat_replicate {A : Type} n m (x : A) :
  concat (replicate n (replicate m x)) = replicate (n * m) x.
Proof. induction n as [|n IH]; [done|]. cbn. by rewrite IH, <- replicate_add. Qed.

(** The root over padded piece hashes is the root over padded blocks. *)
Lemma pieces_root k content :
  let ps := chunks (N.of_nat (2 ^ k) * V2_BLOCK) content in
  let j := Nat.log2_up (length ps) in
  merkle_root (map (fun p => merkle_root (leaves_of p) (2 ^ k) zero_hash) ps) (2 ^ j)
    (merkle_root [] (2 ^ k) zero_hash) =
  mtree (j + k) (resize (2 ^ (j + k)) zero_hash (leaves_of content)).
Proof.
  intros ps j. pose proof (pow2_pos k) as Hk.
  rewrite merkle_root_mtree. set (subtree p := resize (2 ^ k) zero_hash (leaves_of p)).
  assert (length ps <= 2 ^ j) as Hj by apply next_power_of_two_spec.
  rewrite resize_short by (by rewrite length_map). rewrite length_map.
  replace (map _ ps ++ replicate _ _) with
    (map (mtree k) (map subtree ps ++ replicate (2 ^ j - length ps) (replicate (2 ^ k) zero_hash))).
  2:{ rewrite map_app, map_map, merkle_root_mtree. f_equal.
      - apply map_ext. intros p. by rewrite merkle_root_mtree.
      - change (map (mtree k)) with (fmap (M := list) (mtree k)).
        by rewrite fmap_replicate, resize_short, Nat.sub_0_r by (cbn; lia). }
  rewrite <- mtree_concat.
  - f_equal. rewrite concat_app, concat_replicate.
    assert (0 < V2_BLOCK)%N as Hb by done.
    unfold subtree, ps, leaves_of. rewrite padded_pieces by done. fold ps.
    assert (length (chunks V2_BLOCK content) <= length ps * 2 ^ k) as Hlen.
    { assert (N.to_nat (N.of_nat (2 ^ k) * V2_BLOCK) = 2 ^ k * N.to_nat V2_BLOCK) as Hpl by lia.
      apply length_blocks; [done|]. rewrite <- (concat_chunks (N.of_nat (2 ^ k) * V2_BLOCK) content) by lia.
      fold ps. assert (Forall (fun c => length c <= 2 ^ k * N.to_nat V2_BLOCK) ps) as HF.
      { apply Forall_forall. intros c Hc. apply chunks_full in Hc; lia. }
      clear -HF. induction HF as [|c l Hc Hl IH]; cbn [concat length Nat.mul]; [done|].
      rewrite length_app. lia. }
    rewrite !resize_short by (rewrite length_map, ?Nat.pow_add_r; nia).
    rewrite <- app_assoc, <- replicate_add, length_map, Nat.pow_add_r. do 2 f_equal. nia.
  - rewrite length_app, length_map, length_replicate. lia.
  - apply Forall_app. split; [apply Forall_fmap, Forall_true; intros p; apply length_resize|].
    apply Forall_replicate, length_replicate.
Qed.

Lemma hash_pieces_hybrid_clean path content k :
  reads_as path content ->
  let piece_length := (N.of_nat (2 ^ k) * V2_BLOCK)%N in
  hash_pieces_hybrid path piece_length =
  let st := fold_pieces (hybrid_piece (2 ^ k)) (mkHybrid [] [] []) (chunks piece_length content) in
  Ok (hy_pieces st, v2_of_hashes (2 ^ k) st).
Proof.
  intros Hr piece_length. pose proof (pow2_pos k) as Hk. unfold hash_pieces_hybrid.
  assert (Nat.max (N.to_nat (piece_length / V2_BLOCK)) 1 = 2 ^ k) as ->.
  { unfold piece_length. rewrite N.div_mul, Nnat.Nat2N.id by done. lia. }
  erewrite for_each_piece_clean; [|unfold piece_length, V2_BLOCK; lia|done|constructor].
  cbn [rbind concat]. by rewrite app_nil_r.
Qed.

End HybridFacts.

(** ** The piece length *)

Lemma piece_length_for_cases size :
  exists k, piece_length_for size = (N.of_nat (2 ^ k) * V2_BLOCK)%N /\ 4 <= k <= 10.
Proof.
  unfold piece_length_for.
  destruct (_ <=? _)%N; [by exists 4; split; [|lia]|]. destruct (_ <=? _)%N; [by exists 5; split; [|lia]|].
  destruct (_ <=? _)%N; [by exists 6; split; [|lia]|]. destruct (_ <=? _)%N; [by exists 7; split; [|lia]|].
  destruct (_ <=? _)%N; [by exists 8; split; [|lia]|]. destruct (_ <=? _)%N; [by exists 9; split; [|lia]|].
  by exists 10; split; [|lia].
Qed.

(** ** Checking files *)

Section VerifyFacts.
Context `{U : UrlLib} `{D : Digests} `{FS : FileSystem} `{DL : !DigestLaws D}.

Lemma length_hashes ps : length (concat (map sha1 ps)) = 20 * length ps.
Proof.
  induction ps as [|p ps IH]; [done|]. cbn [map concat length].
  rewrite length_app, sha1_length, IH. lia.
Qed.

Lemma chunks_hashes ps hs :
  length hs mod 20 = 0 -> chunks 20 hs = map sha1 ps <-> hs = concat (map sha1 ps).
Proof.
  intros Hm. split; intros H.
  - rewrite <- H. by rewrite concat_chunks.
  - subst hs. apply chunks_concat; [done|]. apply Forall_fmap, Forall_true. intros p.
    cbn. by rewrite sha1_length.
Qed.

Lemma verify_clean path content meta t pl ps :
  reads_as path content -> metadata path = Ok meta -> fm_len meta = N.of_nat (length content) ->
  piece_length t = Some pl -> pieces t = Some ps -> is_single_file t = true ->
  verify_single_file path t =
    Ok (bool_decide (content_length t = N.of_nat (length content) /\
                     ps = concat (map sha1 (chunks pl content)))).
Proof.
  intros Hr Hm Hsize Hpl Hps Hs. unfold verify_single_file. rewrite Hpl, Hps, Hs. cbn [negb orb].
  assert (0 < pl)%N as Hpos.
  { unfold piece_length in Hpl. destruct (info_field t "piece length" ≫= as_int) as [z|]; [|done].
    cbn in Hpl.
    destruct (u64_try_from_i64 z) as [n|]; [|done]. cbn in Hpl.
    destruct (N.ltb_spec 0 n); [|done]. by injection Hpl as <-. }
  destruct (N.eqb_spec pl 0); [lia|]. cbn [orb].
  destruct (Nat.eqb_spec (length ps mod 20) 0) as [H20|H20]; cbn [negb].
  2:{ rewrite bool_decide_eq_false_2; [done|]. intros [_ ->]. apply H20.
      rewrite length_hashes, Nat.mul_comm. apply Nat.Div0.mod_mul. }
  rewrite Hm. cbn [rmap_err rbind]. rewrite Hsize.
  destruct (N.eqb_spec (N.of_nat (length content)) (content_length t)) as [Hl|Hl]; cbn [negb orb].
  2:{ rewrite bool_decide_eq_false_2; [done|]. intros [H _]. by rewrite H in Hl. }
  rewrite <- length_chunks by done.
  destruct (N.eqb_spec (N.of_nat (length (chunks pl content))) (N.of_nat (length ps / 20)))
    as [Hc|Hc]; cbn [negb].
  2:{ rewrite bool_decide_eq_false_2; [done|]. intros [_ ->]. apply Hc.
      rewrite length_hashes, Nat.mul_comm, Nat.div_mul by done. done. }
  erewrite for_each_piece_clean by (done || constructor). cbn [concat]. rewrite app_nil_r.
  pose proof (fold_verify (chunks 20 ps) (chunks pl content)) as Hf.
  destruct (fold_pieces _ _ _) as [rest matched]. cbn [rbind]. rewrite Hf. f_equal.
  apply bool_decide_ext. rewrite chunks_hashes by done. naive_solver.
Qed.

End VerifyFacts.

(** ** The torrents that are built *)

Ltac btree_simpl := repeat (rewrite btree_get_insert_eq || rewrite btree_get_insert_ne by solve_key).

Lemma dict_insert_wf k v m :
  value_wf v -> value_wf (VDict m) -> value_wf (VDict (btree_insert k v m)).
Proof.
  intros Hv Hm. inversion Hm; subst. constructor; [by apply btree_insert_wf|].
  by apply btree_Forall_insert.
Qed.

Lemma dict_empty_wf : value_wf (VDict []).
Proof. constructor; [by apply btree_sorted_wf|constructor]. Qed.

Lemma int_of_wf n : value_wf (int_of n).
Proof.
  constructor. unfold int_of, i64_try_from_u64. destruct (_ <=? _)%Z eqn:H; [|done].
  cbn. apply in_i64_spec. apply Z.leb_le in H. unfold i64_min. lia.
Qed.

(** A dictionary whose values nest at most [n - 1] deep. *)
Definition shallow (n : nat) (m : list (bytes * Value)) : Prop := vdepth (VDict m) <= n.

Lemma shallow_insert n k v m :
  vdepth v < n -> shallow n m -> shallow n (btree_insert k v m).
Proof. unfold shallow. intros Hv Hm. pose proof (dict_depth_insert k v m). lia. Qed.

Lemma shallow_empty n : shallow n [].
Proof. unfold shallow. cbn. lia. Qed.

Lemma shallow_dict n m : shallow n m -> vdepth (VDict m) < S n.
Proof. unfold shallow. lia. Qed.

Lemma flat_int_of n k : vdepth (int_of n) < S k.
Proof. unfold int_of. cbn. lia. Qed.

Create HintDb dicts.
#[export] Hint Resolve dict_insert_wf dict_empty_wf int_of_wf wf_bytes : dicts.
#[export] Hint Resolve shallow_insert shallow_empty shallow_dict flat_int_of : dicts.
#[export] Hint Extern 1 (vdepth (VBytes _) < _) => (cbn; lia) : dicts.
#[export] Hint Extern 1 (vdepth (VInt _) < _) => (cbn; lia) : dicts.
#[export] Hint Extern 1 (vdepth (vstring _) < _) => (cbn; lia) : dicts.
#[export] Hint Extern 1 (value_wf (vstring _)) => apply wf_bytes : dicts.
#[export] Hint Extern 1 (value_wf (VInt _)) => (apply wf_int; reflexivity) : dicts.

Section BuiltFacts.
Context `{U : UrlLib} `{D : Digests} `{FS : FileSystem}.

Lemma base_info_ok name pl ps private :
  value_wf (VDict (base_info name pl ps private)) /\ shallow 5 (base_info name pl ps private).
Proof. unfold base_info. destruct private; auto 10 with dicts. Qed.

Lemma write_into_ok v2 name size info extra :
  value_wf (VDict info) /\ shallow 5 info -> value_wf (VDict extra) /\ shallow 5 extra ->
  let out := write_into v2 name size info extra in
  (value_wf (VDict out.1) /\ shallow 5 out.1) /\ (value_wf (VDict out.2) /\ shallow 5 out.2).
Proof.
  intros [Hi Hi'] [He He']. unfold write_into.
  destruct (v2_root v2), (v2_layer v2); cbn [fst snd]; split_and!; auto 20 with dicts.
Qed.

Lemma announce_list_depth tiers : vdepth (announce_list_value tiers) <= 2.
Proof.
  unfold announce_list_value. cbn [vdepth]. induction tiers as [|t tiers IH]; [cbn; lia|].
  cbn [map fold_right]. apply Nat.max_lub; [|done]. cbn [vdepth].
  apply le_n_S. clear IH. induction t as [|u t IH]; cbn in *; lia.
Qed.

(** What [finish] writes reads back as the torrent it put together. *)
Lemma finish_reads info extra announce media size :
  Forall (fun u => utf8_valid (url_as_str u) = true) (tiers announce) ->
  value_wf (VDict info) /\ shallow 5 info -> value_wf (VDict extra) /\ shallow 5 extra ->
  Forall (fun k => btree_get k extra = None) reserved_keys ->
  let built := finish info extra announce media size in
  (N.of_nat (length (bt_data built)) <= usize_max)%N ->
  read_from_bytes (bt_data built) = Ok (finish_torrent info extra announce media).
Proof.
  intros Hurl [Hi Hi'] [He He'] Hres built Hlen. apply read_encode; [| |done].
  - unfold finish_torrent. split; cbn [t_info t_extra t_announce t_announce_list]; [done|..].
    + destruct (media ≫= describe); auto with dicts.
    + destruct (media ≫= describe); [|done]. repeat (apply Forall_cons in Hres as [? Hres]).
      repeat constructor; by btree_simpl.
    + intros s [= <-]. by apply Forall_cons in Hurl as [? _].
    + unfold tier_list. intros tl. case_decide; [done|]. intros Htl. apply (inj Some) in Htl as <-.
      apply Forall_fmap. eapply Forall_impl; [exact Hurl|]. intros u Hu. by apply Forall_singleton.
  - rewrite top_values_eq.
    2:{ unfold finish_torrent. cbn [t_extra]. destruct (media ≫= describe);
          [apply btree_insert_wf|]; inversion He; by subst. }
    apply (Nat.le_trans _ 6); [|vm_compute; lia].
    unfold finish_torrent. cbn [t_extra t_info t_announce t_announce_list fmap option_fmap option_map].
    unfold insert_opt. apply (shallow_insert 6).
    + by apply shallow_dict.
    + assert (shallow 6 (match media ≫= describe with
                         | Some comment => btree_insert (bs "comment") (vstring comment) extra
                         | None => extra end)) as Hx.
      { destruct (media ≫= describe); unfold shallow in *; [|lia].
        apply (shallow_insert 6); [cbn; lia|unfold shallow; lia]. }
      destruct (tier_list announce) as [tl|]; [apply (shallow_insert 6)|].
      * pose proof (announce_list_depth tl). lia.
      * apply (shallow_insert 6); [cbn; lia|done].
      * apply (shallow_insert 6); [cbn; lia|done].
Qed.

(** The fields of the info dictionary [create] builds. *)
Record built_info (name : bytes) (size : N) (hashes : bytes) (private hybrid : bool)
    (info : list (bytes * Value)) : Prop := {
  bi_ok : value_wf (VDict info) /\ shallow 5 info;
  bi_name : btree_get (bs "name") info = Some (vstring name);
  bi_piece_length : btree_get (bs "piece length") info = Some (int_of (piece_length_for size));
  bi_pieces : btree_get (bs "pieces") info = Some (VBytes hashes);
  bi_length : btree_get (bs "length") info = Some (int_of size);
  bi_files : btree_get (bs "files") info = None;
  bi_private : btree_get (bs "private") info = if private then Some (VInt 1) else None;
  bi_version : btree_get (bs "meta version") info = if hybrid then Some (VInt 2) else None
}.

Lemma base_built_info name size hashes private :
  built_info name size hashes private false
    (btree_insert (bs "length") (int_of size) (base_info name (piece_length_for size) hashes private)).
Proof.
  destruct (base_info_ok name (piece_length_for size) hashes private) as [Hwf Hsh].
  split; [by split; auto with dicts|..]; unfold base_info; destruct private; by btree_simpl.
Qed.

Lemma hybrid_built_info name size hashes private v2 info :
  built_info name size hashes private false info ->
  built_info name size hashes private true (write_into v2 name size info []).1.
Proof.
  intros [Hok ? ? ? ? ? ? ?].
  destruct (write_into_ok v2 name size info [] Hok) as [Hok' _]; [by auto with dicts|].
  split; [done|..]; unfold write_into; cbn [fst]; by btree_simpl.
Qed.

Lemma create_inv request content built :
  reads_as (tq_path request) content ->
  metadata (tq_path request) = Ok (mkFileMeta true (N.of_nat (length content))) ->
  create request = Ok built ->
  exists nm info extra,
    file_name (tq_path request) = Some nm /\ utf8_valid nm = true /\
    built = finish info extra (tq_announce request) (tq_media request) (N.of_nat (length content)) /\
    built_info nm (N.of_nat (length content))
      (concat (map sha1 (chunks (piece_length_for (N.of_nat (length content))) content)))
      (tq_private request) (tq_hybrid request) info /\
    (value_wf (VDict extra) /\ shallow 5 extra) /\
    Forall (fun k => btree_get k extra = None) reserved_keys.
Proof.
  intros Hr Hm. unfold create, source_file. rewrite Hm. cbn [rmap_err rbind fm_is_file fm_len negb].
  destruct (file_name (tq_path request)) as [nm|]; [|done]. cbn [mbind option_bind].
  destruct (from_utf8 nm) as [s|] eqn:Hs; [|done]. apply from_utf8_Some in Hs as [-> Hu].
  cbn [ok_or rbind].
  destruct (piece_length_for_cases (N.of_nat (length content))) as (k & Hk & _).
  assert (0 < piece_length_for (N.of_nat (length content)))%N as Hpos.
  { rewrite Hk. pose proof (pow2_pos k). unfold V2_BLOCK. lia. }
  pose proof (base_built_info nm (N.of_nat (length content))
    (concat (map sha1 (chunks (piece_length_for (N.of_nat (length content))) content)))
    (tq_private request)) as Hbase.
  destruct (tq_hybrid request).
  - rewrite Hk in *. rewrite (hash_pieces_hybrid_clean _ content) by done. cbn [rbind].
    rewrite fold_hybrid. cbn [hy_pieces]. set (v2 := v2_of_hashes _ _). rewrite <- Hk in *.
    pose proof (hybrid_built_info _ _ _ _ v2 _ Hbase) as Hh.
    destruct (write_into_ok v2 nm (N.of_nat (length content)) _ [] (bi_ok _ _ _ _ _ _ Hbase)) as [_ Hx];
      [by auto with dicts|].
    destruct (write_into v2 nm (N.of_nat (length content)) _ []) as [info extra] eqn:Hw.
    intros [= <-]. exists nm, info, extra. split_and!; try done; try apply Hx.
    unfold write_into in Hw. injection Hw as _ <-. repeat constructor; by btree_simpl.
  - rewrite (hash_pieces_clean _ _ content []) by (done || constructor).
    cbn [rbind concat]. rewrite app_nil_r. intros [= <-].
    eexists nm, _, []. split_and!; try done; auto with dicts. by repeat constructor.
Qed.

End BuiltFacts.

Lemma div_ceil_le a b c : (0 < b)%N -> (a <= b * c)%N -> (div_ceil a b <= c)%N.
Proof.
  intros Hb H. unfold div_ceil. cbv zeta. pose proof (N.Div0.div_mod a b) as Hd. revert Hd.
  generalize (a / b)%N, (a mod b)%N. intros q r ->. destruct (N.eqb_spec r 0).
  - apply (N.mul_le_mono_pos_l _ _ b); lia.
  - assert (q < c)%N by (apply (N.mul_lt_mono_pos_l b); lia). lia.
Qed.

(** ** Rewriting the announce fields *)

Lemma shallow_Forall n m : shallow n m <-> Forall (fun kv => S (vdepth kv.2) <= n) m.
Proof.
  unfold shallow. cbn [vdepth]. induction m as [|kv m IH]; cbn [fold_right].
  - split; [constructor|lia].
  - rewrite Forall_cons, <- IH. lia.
Qed.

Lemma dict_btree_wf m : value_wf (VDict m) -> btree_wf m.
Proof. by inversion 1. Qed.

(** The extra fields and the info dictionary nest no deeper than the whole. *)
Lemma torrent_parts_shallow t n :
  torrent_wf t -> shallow n (top_values t) -> shallow n (t_extra t) /\ shallow n [(bs "info", VDict (t_info t))].
Proof.
  intros Hwf Hn. pose proof (dict_btree_wf _ (twf_extra t Hwf)) as Hx.
  pose proof (top_values_wf t (twf_info t Hwf) (twf_extra t Hwf)) as Htop%dict_btree_wf.
  rewrite !shallow_Forall, !Forall_forall in *. split; intros [k v] Hkv; apply Hn, btree_get_elem.
  - apply btree_elem_get in Hkv; [|done]. rewrite top_values_eq by done.
    pose proof (twf_reserved t Hwf) as Hres. unfold reserved_keys in Hres.
    rewrite !Forall_cons in Hres. destruct Hres as (H1 & H2 & H3 & _).
    rewrite btree_get_insert_ne, !get_insert_opt_ne by congruence. done.
  - apply list_elem_of_singleton in Hkv. injection Hkv as -> ->.
    rewrite top_values_eq by done. apply btree_get_insert_eq.
Qed.

Section Rewriting.
Context `{U : UrlLib}.

Lemma with_announce_reads data t announce :
  read_from_bytes data = Ok t ->
  Forall (fun u => utf8_valid (url_as_str u) = true) (tiers announce) ->
  (N.of_nat (length (torrent_encode (with_announce t announce))) <= usize_max)%N ->
  read_from_bytes (torrent_encode (with_announce t announce)) = Ok (with_announce t announce).
Proof.
  intros [Hwf Hdec]%read_sound Hurl Hlen. pose proof (decode_sound _ _ Hdec) as (_ & Hd & _).
  destruct (torrent_parts_shallow t MAX_DEPTH Hwf Hd) as [Hx Hi].
  apply read_encode; [| |done].
  - destruct Hwf. split; cbn [with_announce t_info t_extra t_announce t_announce_list]; try done.
    + intros s [= <-]. by apply Forall_cons in Hurl as [? _].
    + unfold tier_list. intros tl. case_decide; [done|]. intros Htl. apply (inj Some) in Htl as <-.
      apply Forall_fmap. eapply Forall_impl; [exact Hurl|]. intros u Hu. by apply Forall_singleton.
  - rewrite top_values_eq by apply (dict_btree_wf _ (twf_extra t Hwf)).
    apply (shallow_insert MAX_DEPTH); [unfold shallow in Hi; cbn [vdepth fold_right snd with_announce t_info] in *; lia|].
    cbn [with_announce t_announce t_announce_list t_extra]. unfold insert_opt. cbn [fmap option_fmap option_map].
    assert (shallow MAX_DEPTH (btree_insert (bs "announce") (vstring (url_as_str (primary announce))) (t_extra t)))
      as Ha by (apply shallow_insert; [vm_compute; lia|done]).
    destruct (tier_list announce) as [tl|]; [|done]. apply shallow_insert; [|done].
    pose proof (announce_list_depth tl). unfold MAX_DEPTH. lia.
Qed.

Lemma announce_tiers_of announce t :
  t_announce t = Some (url_as_str (primary announce)) -> t_announce_list t = tier_list announce ->
  announce_tiers t = map (fun u => [url_as_str u]) (tiers announce).
Proof.
  intros Ha Hl. unfold announce_tiers. rewrite Ha, Hl. unfold tier_list.
  case_decide as Ht; [|done]. unfold tiers in *.
  by destruct (as_rest announce); [|cbn in Ht; lia].
Qed.

End Rewriting.

(** ** Torrents with sidecars *)

Definition total_size (contents : list bytes) : N := N.of_nat (length (concat contents)).

Definition entries_of (names : list bytes) (contents : list bytes) : list Value :=
  zip_with (fun n c => file_entry n (N.of_nat (length c))) names contents.

Lemma file_entry_ok n len : value_wf (file_entry n len) /\ vdepth (file_entry n len) < 3.
Proof.
  unfold file_entry. split.
  - apply dict_insert_wf; [|auto with dicts]. constructor. by repeat constructor.
  - apply (shallow_dict 2), shallow_insert; [cbn; lia|auto with dicts].
Qed.

Lemma entries_of_ok names contents :
  value_wf (VList (entries_of names contents)) /\ vdepth (VList (entries_of names contents)) < 4.
Proof.
  unfold entries_of. split.
  - constructor. revert contents. induction names as [|n names IH]; intros [|c contents];
      cbn [zip_with]; constructor; auto. apply file_entry_ok.
  - cbn [vdepth]. revert contents. induction names as [|n names IH]; intros [|c contents];
      cbn [zip_with fold_right]; try lia.
    pose proof (file_entry_ok n (N.of_nat (length c))) as [_ ?]. specialize (IH contents). lia.
Qed.

Lemma file_entry_fields n len :
  utf8_valid n = true ->
  file_path (file_entry n len) = Some n /\
  file_length (file_entry n len) = Some (default i64_max (i64_try_from_u64 len)).
Proof.
  intros Hn. unfold file_path, file_length, file_entry. cbn [as_dict mbind option_bind].
  btree_simpl. split; [|done]. cbn [mbind option_bind as_list]. cbn [mapM].
  rewrite (proj2 (as_str_Some (vstring n) n)) by done. done.
Qed.

Lemma file_paths_entries names contents :
  length names = length contents -> Forall (fun n => utf8_valid n = true) names ->
  omap file_path (entries_of names contents) = names.
Proof.
  intros Hlen Hn. revert contents Hlen.
  induction Hn as [|n names Hn Hns IH]; intros [|c contents] Hlen; try done.
  cbn [entries_of zip_with]. cbn [omap list_omap].
  destruct (file_entry_fields n (N.of_nat (length c)) Hn) as [-> _]. f_equal.
  apply IH. cbn in Hlen. lia.
Qed.

Lemma file_lengths_entries names contents :
  length names = length contents -> (Z.of_N (total_size contents) <= i64_max)%Z ->
  Forall (fun n => utf8_valid n = true) names ->
  Forall2 (fun f n => file_length f = Some n /\ (0 <= n)%Z) (entries_of names contents)
    (map (fun c => Z.of_nat (length c)) contents) /\
  zsum (map (fun c => Z.of_nat (length c)) contents) = Z.of_N (total_size contents).
Proof.
  intros Hlen Htot Hn. revert contents Hlen Htot.
  induction Hn as [|n names Hn Hns IH]; intros [|c contents] Hlen Htot; try done.
  unfold total_size in *. cbn [concat] in *. rewrite length_app in *.
  destruct (IH contents) as [IH1 IH2]; [cbn in Hlen; lia|lia|].
  cbn [entries_of zip_with map]. split.
  - constructor; [|done]. split; [|lia].
    destruct (file_entry_fields n (N.of_nat (length c)) Hn) as [_ ->]. f_equal.
    unfold i64_try_from_u64. destruct (Z.leb_spec (Z.of_N (N.of_nat (length c))) i64_max); cbn; lia.
  - cbn [zsum fold_right] in *. fold (zsum (map (fun c => Z.of_nat (length c)) contents)). lia.
Qed.

Section SidecarFacts.
Context `{U : UrlLib} `{D : Digests} `{FS : FileSystem}.

(** Every one of [paths] is there with the size of its content. *)
Definition sized_as (path content : bytes) : Prop :=
  exists meta, metadata path = Ok meta /\ fm_len meta = N.of_nat (length content).

Lemma sidecar_entries_ok names others contents size files :
  length names = length others -> Forall2 sized_as others contents ->
  (size + total_size contents <= u64_max)%N ->
  sidecar_entries (combine names others) size files =
    Ok ((size + total_size contents)%N, files ++ entries_of names contents).
Proof.
  intros Hlen H. revert names size files Hlen.
  induction H as [|o c others contents (meta & Hm & Hl) Hrest IH]; intros names size files Hlen Hmax.
  - destruct names; [|done]. cbn. by rewrite N.add_0_r, app_nil_r.
  - destruct names as [|n names]; [done|]. cbn [combine sidecar_entries]. rewrite Hm.
    cbn [rmap_err rbind]. rewrite Hl. unfold total_size in *. cbn [concat] in *.
    rewrite length_app in *. unfold u64_saturating_add. rewrite N.min_l by lia.
    rewrite IH by (cbn in Hlen; lia). cbn [entries_of zip_with]. rewrite <- app_assoc.
    do 2 f_equal. lia.
Qed.

(** The info dictionary of a sidecar build. *)
Definition sidecar_info (root : bytes) (private : bool) (names contents : list bytes)
  : list (bytes * Value) :=
  btree_insert (bs "files") (VList (entries_of names contents))
    (base_info root (piece_length_for (total_size contents))
       (concat (map sha1 (chunks (piece_length_for (total_size contents)) (concat contents)))) private).

Lemma piece_length_for_pos size : (0 < piece_length_for size)%N.
Proof.
  destruct (piece_length_for_cases size) as (k & -> & _). pose proof (pow2_pos k).
  unfold V2_BLOCK. lia.
Qed.

Lemma sidecar_info_ok root private names contents :
  value_wf (VDict (sidecar_info root private names contents)) /\
  shallow 5 (sidecar_info root private names contents).
Proof.
  destruct (entries_of_ok names contents) as [Hfw Hfd].
  destruct (base_info_ok root (piece_length_for (total_size contents))
    (concat (map sha1 (chunks (piece_length_for (total_size contents)) (concat contents)))) private).
  split; [by apply dict_insert_wf|apply shallow_insert; [lia|done]].
Qed.

Lemma create_with_sidecars_ok request nm content contents :
  let path := sq_path request in
  let others := map (path_join (default [] (parent path))) (sq_sidecars request) in
  let total := total_size (content :: contents) in
  file_name path = Some nm -> utf8_valid nm = true ->
  metadata path = Ok (mkFileMeta true (N.of_nat (length content))) -> reads_as path content ->
  Forall2 sized_as others contents -> Forall2 reads_as others contents ->
  (Z.of_N total <= i64_max)%Z ->
  create_with_sidecars request =
    Ok (finish (sidecar_info (sq_root_name request) (sq_private request)
                  (nm :: sq_sidecars request) (content :: contents)) []
          (sq_announce request) (sq_media request) total).
Proof.
  intros path others total Hnm Hn Hm Hr Hsized Hreads Hmax.
  assert (total = N.of_nat (length content) + total_size contents)%N as Htot.
  { unfold total, total_size. cbn [concat]. rewrite length_app. lia. }
  unfold create_with_sidecars, source_file. fold path others. rewrite Hm.
  cbn [rmap_err rbind fm_is_file fm_len negb]. rewrite Hnm. cbn [mbind option_bind].
  rewrite (proj2 (from_utf8_Some nm nm)) by done. cbn [ok_or rbind].
  rewrite (sidecar_entries_ok (sq_sidecars request) others contents)
    by (unfold others; rewrite ?length_map; done || (unfold i64_max, u64_max in *; lia)).
  cbn [rbind]. rewrite <- Htot.
  by rewrite (hash_pieces_clean _ _ content contents) by (done || apply piece_length_for_pos).
Qed.

End SidecarFacts.

(** ** Concrete parameters *)

(** Digests that keep the first bytes of the message. *)
Definition prefix_digests : Digests := {|
  sha1 := resize 20 x00;
  sha256 := resize 32 x00;
  hex_encode := flat_map (fun b => [hex_digit (byte_val b / 16); hex_digit (byte_val b mod 16)])
|}.

Lemma prefix_digests_laws : DigestLaws prefix_digests.
Proof. split; intros m; apply length_resize. Qed.

(** One file, delivered in three reads. *)
Definition sample_path : bytes := bs "/m/a.mkv".
Definition sample_content : bytes := bs "hello".

Definition sample_files : FileSystem := {|
  metadata := fun p => if bool_decide (p = sample_path) then Ok (mkFileMeta true 5) else Err (mkIoError 2);
  file_open := fun p =>
    if bool_decide (p = sample_path) then Ok (clean [bs "he"; bs "l"; bs "lo"]) else Err (mkIoError 2)
|}.

Lemma sample_reads : @reads_as sample_files sample_path sample_content.
Proof. by exists [bs "he"; bs "l"; bs "lo"]. Qed.

Definition sample_set : @AnnounceSet text_urls :=
  @mkAnnounceSet text_urls (bs "http://a/announce") [bs "http://b/announce"].

(** ** Properties *)

(** Hashing in pieces.  However the files deliver their bytes, the hash
    string of a build is the SHA-1 of each [piece_length] chunk of the files'
    concatenated content, in order: the chunks put together are the content,
    each holds at least one byte, and all but the last are full. *)
Theorem pieces_hash_content `{U : UrlLib} `{D : Digests} `{FS : FileSystem}
    path others content contents piece_length :
  (0 < piece_length)%N -> reads_as path content -> Forall2 reads_as others contents ->
  exists ps, hash_pieces path others piece_length = Ok (concat (map sha1 ps)) /\
    concat ps = content ++ concat contents /\
    Forall (fun p => 0 < length p <= N.to_nat piece_length) ps /\
    (forall before p after, ps = before ++ p :: after -> after <> [] -> length p = N.to_nat piece_length).
Proof.
  intros Hp Hr Ho. exists (chunks piece_length (content ++ concat contents)). split_and!.
  - by apply hash_pieces_clean.
  - by apply concat_chunks.
  - apply Forall_forall. intros c. by apply chunks_full.
  - intros before p after. by apply chunks_init.
Qed.

Lemma pieces_hash_content_witness :
  exists ps, @hash_pieces text_urls prefix_digests sample_files sample_path [] 2
      = Ok (concat (map (@sha1 prefix_digests) ps)) /\
    concat ps = bs "hello".
Proof.
  destruct (@pieces_hash_content text_urls prefix_digests sample_files sample_path [] sample_content [] 2)
    as (ps & Hh & Hc & _); [done|exact sample_reads|constructor|].
  exists ps. split; [exact Hh|exact Hc].
Defined.

(** C9: checking a file against a torrent.  For a file that reads as [content],
    [verify_single_file] always answers, and answers yes exactly when the
    torrent is single-file, its length is the file's, and its piece hashes are
    those of the file cut at the torrent's own piece length. *)
Theorem verify_exact `{U : UrlLib} `{D : Digests} `{FS : FileSystem} path content meta t :
  DigestLaws D -> reads_as path content -> metadata path = Ok meta ->
  fm_len meta = N.of_nat (length content) ->
  exists verdict, verify_single_file path t = Ok verdict /\
    (verdict = true <->
       is_single_file t = true /\ content_length t = N.of_nat (length content) /\
       exists pl, piece_length t = Some pl /\ pieces t = Some (concat (map sha1 (chunks pl content)))).
Proof.
  intros HD Hr Hm Hl.
  destruct (piece_length t) as [pl|] eqn:Hpl;
    [|exists false; unfold verify_single_file; rewrite Hpl; naive_solver].
  destruct (pieces t) as [ps|] eqn:Hps;
    [|exists false; unfold verify_single_file; rewrite Hpl, Hps; naive_solver].
  destruct (is_single_file t) eqn:Hs.
  - exists (bool_decide (content_length t = N.of_nat (length content) /\
                   ps = concat (map sha1 (chunks pl content)))).
    split; [by eapply verify_clean|]. rewrite bool_decide_eq_true. naive_solver.
  - exists false. unfold verify_single_file. rewrite Hpl, Hps, Hs. naive_solver.
Qed.

Lemma verify_exact_witness :
  exists verdict,
    @verify_single_file text_urls prefix_digests sample_files sample_path sample_torrent = Ok verdict.
Proof.
  destruct (@verify_exact text_urls prefix_digests sample_files sample_path sample_content
    (mkFileMeta true 5) sample_torrent prefix_digests_laws sample_reads) as (v & Hv & _);
    [reflexivity|reflexivity|by exists v].
Defined.

(** C8: what is built verifies.  The bytes [create] returns parse; the torrent
    they hold names the file's own basename, carries the private flag and the
    v2 identity exactly as asked, announces to the requested tiers in order,
    has the info hash that was reported, and the unchanged file passes
    [verify_single_file] against it. *)
Theorem created_torrent_verifies `{U : UrlLib} `{D : Digests} `{FS : FileSystem} request content built :
  DigestLaws D ->
  Forall (fun u => utf8_valid (url_as_str u) = true) (tiers (tq_announce request)) ->
  reads_as (tq_path request) content ->
  metadata (tq_path request) = Ok (mkFileMeta true (N.of_nat (length content))) ->
  (Z.of_nat (length content) <= i64_max)%Z ->
  create request = Ok built -> (N.of_nat (length (bt_data built)) <= usize_max)%N ->
  exists t, read_from_bytes (bt_data built) = Ok t /\
    name t = file_name (tq_path request) /\
    is_private t = tq_private request /\
    info_hash t = bt_info_hash built /\
    (is_Some (bt_info_hash_v2 built) <-> tq_hybrid request = true) /\
    announce_tiers t = map (fun u => [url_as_str u]) (tiers (tq_announce request)) /\
    verify_single_file (tq_path request) t = Ok true.
Proof.
  intros HD Hurl Hr Hm Hmax Hc Hlen.
  destruct (create_inv request content built Hr Hm Hc)
    as (nm & info & extra & Hnm & Hu & -> & Hbi & Hx & Hres).
  exists (finish_torrent info extra (tq_announce request) (tq_media request)).
  split; [apply finish_reads; auto; apply Hbi|]. destruct Hbi.
  set (t := finish_torrent _ _ _ _).
  assert (forall key, info_field t key = btree_get (bs key) info) as Hf by done.
  assert (int_of (N.of_nat (length content)) = VInt (Z.of_nat (length content))) as Hint.
  { unfold int_of, i64_try_from_u64. destruct (Z.leb_spec (Z.of_N (N.of_nat (length content))) i64_max);
      cbn; [f_equal|]; lia. }
  assert (content_length t = N.of_nat (length content)) as Hcl.
  { unfold content_length, torrent_length. rewrite Hf, bi_length0, Hint. cbn.
    unfold u64_try_from_i64. destruct (Z.leb_spec 0 (Z.of_nat (length content))); cbn; lia. }
  assert (piece_length t = Some (piece_length_for (N.of_nat (length content)))) as Hpl.
  { unfold piece_length. rewrite Hf, bi_piece_length0.
    unfold piece_length_for. repeat (destruct (_ <=? _)%N; [reflexivity|]). reflexivity. }
  split_and!.
  - unfold name. rewrite Hf, bi_name0, Hnm. by apply as_str_Some.
  - unfold is_private. rewrite Hf, bi_private0. by destruct (tq_private request).
  - done.
  - cbn [bt_info_hash_v2 finish]. unfold info_hash_v2. fold t. rewrite Hf, bi_version0.
    destruct (tq_hybrid request); cbn; case_decide; split; try done; naive_solver.
  - by apply announce_tiers_of.
  - erewrite verify_clean; try done.
    + rewrite bool_decide_eq_true_2; [done|]. split; [exact Hcl|reflexivity].
    + unfold pieces. by rewrite Hf, bi_pieces0.
    + unfold is_single_file. by rewrite Hf, bi_files0.
Qed.

Definition sample_build : @TorrentRequest text_urls :=
  @mkTorrentRequest text_urls sample_path sample_set None true true.

Definition sample_built : BuiltTorrent :=
  match @create text_urls prefix_digests sample_files sample_build with
  | Ok built => built
  | Err _ => mkBuilt [] None [] 0
  end.

Lemma created_torrent_verifies_witness :
  exists t, read_from_bytes (bt_data sample_built) = Ok t /\
    @verify_single_file text_urls prefix_digests sample_files sample_path t = Ok true.
Proof.
  destruct (@created_torrent_verifies text_urls prefix_digests sample_files sample_build
    sample_content sample_built prefix_digests_laws) as (t & Ht & _ & _ & _ & _ & _ & Hv).
  - repeat constructor.
  - exact sample_reads.
  - reflexivity.
  - vm_compute. discriminate.
  - vm_compute. reflexivity.
  - vm_compute. discriminate.
  - exists t. split; [exact Ht|exact Hv].
Defined.

(** BEP 52 hashes.  With pieces of a power-of-two number of 16 KiB blocks,
    the hybrid read computes the same v1 hashes, and the v2 root it reports is
    that of the binary tree over the file's block hashes padded with zeros to a
    power of two, whether the file fits one piece (then there is no layer) or
    not (then the layer is each piece's own subtree root); an empty file has
    neither. *)
Theorem hybrid_hashes_bep52 `{U : UrlLib} `{D : Digests} `{FS : FileSystem} path content k :
  reads_as path content ->
  let piece_length := (N.of_nat (2 ^ k) * V2_BLOCK)%N in
  let ps := chunks piece_length content in
  let leaves := leaves_of content in
  let padded h := resize (2 ^ h) zero_hash leaves in
  exists v2, hash_pieces_hybrid path piece_length = Ok (concat (map sha1 ps), v2) /\
    match ps with
    | [] => v2 = mkV2 None None
    | [_] => let h := Nat.log2_up (length leaves) in v2 = mkV2 (Some (mtree h (padded h))) None
    | _ =>
        let h := Nat.log2_up (length ps) + k in
        v2 = mkV2 (Some (mtree h (padded h)))
               (Some (concat (map (fun p => mtree k (resize (2 ^ k) zero_hash (leaves_of p))) ps)))
    end.
Proof.
  intros Hr piece_length ps leaves padded. unfold piece_length.
  rewrite (hash_pieces_hybrid_clean _ content) by done. fold piece_length ps.
  rewrite fold_hybrid. eexists. split; [done|]. unfold v2_of_hashes.
  cbn [hy_piece_hashes hy_first_piece_leaves]. rewrite length_map.
  destruct ps as [|p [|q ps']] eqn:Hps; [done| |].
  - cbn [length]. assert (p = content) as ->.
    { rewrite <- (concat_chunks piece_length content). fold ps. rewrite Hps. cbn. by rewrite app_nil_r.
      unfold piece_length, V2_BLOCK. pose proof (pow2_pos k). lia. }
    unfold next_power_of_two. fold leaves. rewrite merkle_root_mtree. done.
  - cbn [length]. pose proof (pieces_root k content) as Hroot. cbv zeta in Hroot.
    fold piece_length in Hroot. fold ps in Hroot. rewrite Hps in Hroot. cbn [length] in Hroot.
    unfold next_power_of_two. rewrite Hroot. do 3 f_equal. apply map_ext. intros x.
    by rewrite merkle_root_mtree.
Qed.

Lemma hybrid_hashes_bep52_witness :
  exists v2, @hash_pieces_hybrid text_urls prefix_digests sample_files sample_path
      (N.of_nat (2 ^ 4) * V2_BLOCK) = Ok (bs "hello" ++ replicate 15 x00, v2) /\
    v2 = mkV2 (Some (bs "hello" ++ replicate 27 x00)) None.
Proof.
  destruct (@hybrid_hashes_bep52 text_urls prefix_digests sample_files sample_path sample_content 4
    sample_reads) as (v2 & Hv & Hm).
  exists v2. vm_compute in Hm. subst v2. split; [exact Hv|reflexivity].
Defined.

(** The piece-length ladder.  Every piece length is a power of two between
    256 KiB and 16 MiB, a larger file never gets smaller pieces, and a file of
    up to 32 GiB has at most 2048 pieces. *)
Theorem piece_length_ladder a b :
  (a <= b)%N ->
  (exists k, piece_length_for a = 2 ^ k /\ 18 <= k <= 24)%N /\
  (piece_length_for a <= piece_length_for b)%N /\
  (a <= 2 ^ 35 -> div_ceil a (piece_length_for a) <= 2048)%N.
Proof.
  intros Hab. split_and!.
  - unfold piece_length_for.
    destruct (_ <=? _)%N; [by exists 18%N; split; [|lia]|].
    destruct (_ <=? _)%N; [by exists 19%N; split; [|lia]|].
    destruct (_ <=? _)%N; [by exists 20%N; split; [|lia]|].
    destruct (_ <=? _)%N; [by exists 21%N; split; [|lia]|].
    destruct (_ <=? _)%N; [by exists 22%N; split; [|lia]|].
    destruct (_ <=? _)%N; [by exists 23%N; split; [|lia]|].
    by exists 24%N; split; [|lia].
  - unfold piece_length_for.
    repeat match goal with |- context [(?x <=? ?y)%N] => destruct (N.leb_spec x y) end; lia.
  - intros Ha. apply div_ceil_le; unfold piece_length_for;
      repeat match goal with |- context [(?x <=? ?y)%N] => destruct (N.leb_spec x y) end; lia.
Qed.

Lemma piece_length_ladder_witness :
  (piece_length_for 1000 <= piece_length_for (2 ^ 33))%N /\
  (div_ceil 1000 (piece_length_for 1000) <= 2048)%N.
Proof. destruct (piece_length_ladder 1000 (2 ^ 33)) as (_ & H1 & H2); [lia|]. split; [exact H1|apply H2; lia]. Defined.

(** Nothing bounds the piece length of a torrent under verification: a
    one-piece torrent that claims pieces of [2 ^ 62] bytes is accepted for its
    file, and the buffer it is read through is of that claimed size. *)
Theorem oversized_piece_length_accepted `{U : UrlLib} `{D : Digests} `{FS : FileSystem}
    path content meta nm :
  DigestLaws D -> reads_as path content -> metadata path = Ok meta ->
  fm_len meta = N.of_nat (length content) -> content <> [] ->
  (Z.of_nat (length content) < 2 ^ 62)%Z ->
  verify_single_file path
    (mkTorrent None None
       [(bs "length", VInt (Z.of_nat (length content))); (bs "name", vstring nm);
        (bs "piece length", VInt (2 ^ 62)); (bs "pieces", VBytes (sha1 content))] []) = Ok true.
Proof.
  intros HD Hr Hm Hl Hne Hsz. erewrite verify_clean; try done.
  rewrite bool_decide_eq_true_2; [done|]. split.
  - unfold content_length, torrent_length.
    replace (info_field _ "length") with (Some (VInt (Z.of_nat (length content)))) by reflexivity.
    cbn [mbind option_bind as_int]. unfold u64_try_from_i64.
    destruct (Z.leb_spec 0 (Z.of_nat (length content))); cbn; lia.
  - assert (Z.to_N (2 ^ 62) = 4611686018427387904%N) as -> by done.
    rewrite chunks_cons by done. rewrite take_ge, drop_ge by lia. cbn. by rewrite app_nil_r.
Qed.

Lemma oversized_piece_length_accepted_witness :
  @verify_single_file text_urls prefix_digests sample_files sample_path
    (mkTorrent None None
       [(bs "length", VInt 5); (bs "name", vstring (bs "a.mkv"));
        (bs "piece length", VInt (2 ^ 62)); (bs "pieces", VBytes (bs "hello" ++ replicate 15 x00))] [])
    = Ok true.
Proof.
  apply (@oversized_piece_length_accepted text_urls prefix_digests sample_files sample_path
    sample_content (mkFileMeta true 5) (bs "a.mkv") prefix_digests_laws sample_reads);
    [reflexivity|reflexivity|discriminate|reflexivity].
Defined.

(** Moving a stored torrent to another endpoint.  Rewriting fails only when
    the file does not parse.  Otherwise the new bytes parse to the same torrent
    with the new announce tiers, the same info dictionary, other fields and
    hence info hash; and [retarget_announce] produces exactly that result,
    except that a torrent already announcing to the primary URL is left alone. *)
Theorem announce_rewrite_preserves `{U : UrlLib} `{D : Digests} data announce :
  Forall (fun u => utf8_valid (url_as_str u) = true) (tiers announce) ->
  match read_from_bytes data with
  | Err e =>
      rewrite_announce data announce = Err (Reparse e) /\
      retarget_announce data announce = Err (Reparse e)
  | Ok t =>
      exists out, rewrite_announce data announce = Ok out /\
        ((N.of_nat (length out) <= usize_max)%N ->
         exists t', read_from_bytes out = Ok t' /\
           announce_tiers t' = map (fun u => [url_as_str u]) (tiers announce) /\
           t_info t' = t_info t /\ t_extra t' = t_extra t /\ info_hash t' = info_hash t /\
           retarget_announce data announce =
             Ok (if decide (t_announce t = Some (url_as_str (primary announce)))
                 then Current t else Updated (t_announce t) t' out))
  end.
Proof.
  intros Hurl. unfold rewrite_announce, retarget_announce.
  destruct (read_from_bytes data) as [t|e] eqn:Hr; cbn [rmap_err rbind]; [|done].
  eexists. split; [done|]. intros Hlen. exists (with_announce t announce). split_and!; try done.
  - by eapply with_announce_reads.
  - by apply announce_tiers_of.
  - case_bool_decide; by case_decide.
Qed.

Lemma announce_rewrite_preserves_witness :
  exists out t', @rewrite_announce text_urls (torrent_encode sample_torrent) sample_set = Ok out /\
    read_from_bytes out = Ok t' /\ t_info t' = t_info sample_torrent.
Proof.
  pose proof (@announce_rewrite_preserves text_urls prefix_digests (torrent_encode sample_torrent)
    sample_set) as H.
  replace (read_from_bytes (torrent_encode sample_torrent)) with
    (Ok sample_torrent : result Torrent MetainfoError) in H by (vm_compute; reflexivity).
  destruct H as (out & Ho & H); [repeat constructor|].
  exists out. pose proof Ho as Hout. vm_compute in Hout. injection Hout as <-.
  destruct H as (t' & Ht & _ & Hi & _); [vm_compute; discriminate|].
  exists t'. split; [exact Ho|]. split; [exact Ht|exact Hi].
Defined.

(** A torrent over a media file and its sidecars.  When every file is
    readable the build succeeds; its data reads back as a multi-file torrent of
    the requested root name that lists the media file and then the sidecars in
    order, its length is the sum of theirs, and its piece hashes are those of
    all the contents as one stream. *)
Theorem sidecar_torrent_complete `{U : UrlLib} `{D : Digests} `{FS : FileSystem}
    request nm content contents :
  let path := sq_path request in
  let others := map (path_join (default [] (parent path))) (sq_sidecars request) in
  let total := total_size (content :: contents) in
  Forall (fun u => utf8_valid (url_as_str u) = true) (tiers (sq_announce request)) ->
  Forall (fun n => utf8_valid n = true) (sq_root_name request :: nm :: sq_sidecars request) ->
  file_name path = Some nm ->
  metadata path = Ok (mkFileMeta true (N.of_nat (length content))) -> reads_as path content ->
  Forall2 sized_as others contents -> Forall2 reads_as others contents ->
  (Z.of_N total <= i64_max)%Z ->
  exists built, create_with_sidecars request = Ok built /\ bt_size built = total /\
    ((N.of_nat (length (bt_data built)) <= usize_max)%N ->
     exists t, read_from_bytes (bt_data built) = Ok t /\
       is_single_file t = false /\
       name t = Some (sq_root_name request) /\
       file_paths t = nm :: sq_sidecars request /\
       content_length t = total /\
       pieces t = Some (concat (map sha1 (chunks (piece_length_for total) (content ++ concat contents))))).
Proof.
  intros path others total Hurl Hutf Hnm Hm Hr Hsized Hreads Hmax.
  apply Forall_cons in Hutf as [Hroot Hnames]. pose proof Hnames as [Hn _]%Forall_cons.
  assert (length (nm :: sq_sidecars request) = length (content :: contents)) as Hl.
  { apply Forall2_length in Hsized. unfold others in Hsized. rewrite length_map in Hsized. cbn. lia. }
  eexists. split; [by apply create_with_sidecars_ok|]. split; [done|]. intros Hsize.
  set (info := sidecar_info _ _ _ _) in *.
  exists (finish_torrent info [] (sq_announce request) (sq_media request)).
  split; [apply finish_reads; try done; auto with dicts; [apply sidecar_info_ok|by repeat constructor]|].
  set (t := finish_torrent _ _ _ _).
  assert (forall key, info_field t key = btree_get (bs key) info) as Hf by done.
  assert (info_field t "files" = Some (VList (entries_of (nm :: sq_sidecars request) (content :: contents))))
    as Hfiles by (rewrite Hf; apply btree_get_insert_eq).
  split_and!.
  - unfold is_single_file. by rewrite Hfiles.
  - unfold name. rewrite Hf. unfold info, sidecar_info, base_info.
    destruct (sq_private request); btree_simpl; by apply as_str_Some.
  - unfold file_paths. rewrite Hfiles. by apply file_paths_entries.
  - unfold content_length, torrent_length.
    replace (info_field t "length" ≫= as_int) with (@None Z)
      by (rewrite Hf; unfold info, sidecar_info, base_info; by destruct (sq_private request); btree_simpl).
    rewrite Hfiles. cbn [mbind option_bind as_list].
    destruct (file_lengths_entries (nm :: sq_sidecars request) (content :: contents)) as [H1 H2]; try done.
    rewrite (sum_lengths_spec _ _ _ H1) by (unfold i64_max; lia).
    rewrite H2. fold total. rewrite (proj2 (Z.leb_le _ _)) by lia. cbn [mbind option_bind].
    unfold u64_try_from_i64. destruct (Z.leb_spec 0 (0 + Z.of_N total)); cbn; lia.
  - unfold pieces. rewrite Hf. unfold info, sidecar_info, base_info.
    by destruct (sq_private request); btree_simpl.
Qed.

Definition sidecar_files : FileSystem := {|
  metadata := fun p =>
    if bool_decide (p = sample_path) then Ok (mkFileMeta true 5)
    else if bool_decide (p = bs "/m/a.srt") then Ok (mkFileMeta true 3) else Err (mkIoError 2);
  file_open := fun p =>
    if bool_decide (p = sample_path) then Ok (clean [bs "hello"])
    else if bool_decide (p = bs "/m/a.srt") then Ok (clean [bs "s"; bs "ub"]) else Err (mkIoError 2)
|}.

Definition sidecar_build : @SidecarRequest text_urls :=
  @mkSidecarRequest text_urls sample_path [bs "a.srt"] (bs "m") sample_set None true.

Lemma sidecar_torrent_complete_witness :
  exists built, @create_with_sidecars text_urls prefix_digests sidecar_files sidecar_build = Ok built /\
    bt_size built = 8%N.
Proof.
  destruct (@sidecar_torrent_complete text_urls prefix_digests sidecar_files sidecar_build
    (bs "a.mkv") (bs "hello") [bs "sub"]) as (built & Hb & Hs & _).
  - repeat constructor.
  - repeat constructor.
  - vm_compute. reflexivity.
  - reflexivity.
  - exists [bs "hello"]. split; reflexivity.
  - repeat constructor. exists (mkFileMeta true 3). split; reflexivity.
  - repeat constructor. exists [bs "s"; bs "ub"]. split; reflexivity.
  - vm_compute. discriminate.
  - exists built. split; [exact Hb|exact Hs].
Defined.
