(* ===== verification/Title.v ===== *)
(** * Release titles (crates/sharerr-torrent/src/title.rs)

    Choosing the title a release goes by, synthesising one, and parsing one
    back.  Text is UTF-8 bytes; Unicode's decomposition and lowercase tables
    are parameters. *)

From S2P Require Import Prelude RustStd BTreeMap Bencode Metainfo Net Endpoint TrackerUrl Text Model Paths Factory.

(** ** Unicode *)

(** [unicode_normalization]'s NFKD as the characters it yields and its
    [is_combining_mark]; [str::to_lowercase]. *)
Class UnicodeData : Type := {
  nfkd : bytes -> list char;
  is_combining_mark : char -> bool;
  to_lowercase : bytes -> bytes
}.

(** ASCII text decomposes to itself and has no combining marks. *)
Class UnicodeLaws (UD : UnicodeData) : Prop := {
  nfkd_ascii : forall s, Forall (fun b => is_ascii b = true) s -> nfkd s = map (fun b => [b]) s;
  ascii_no_mark : forall b, is_ascii b = true -> is_combining_mark [b] = false
}.

(** [hex::encode] writes two lowercase digits per byte. *)
Definition is_hex_digit (b : byte) : bool := is_ascii_digit b || byte_in 97 102 b.

Class HexLaws (D : Digests) : Prop := {
  hex_digits : forall s, Forall (fun b => is_hex_digit b = true) (hex_encode s);
  hex_length : forall s, length (hex_encode s) = 2 * length s
}.

(** ** Data *)

Definition GROUP : bytes := bs "SHARERR".

Inductive ParsedTitle : Type :=
| PEpisode (title : bytes) (season episode : N)
| PMovie (title : bytes) (year : option N)
| Unparseable.

Inductive TitleProblem : Type := NoEpisodeNumber | NoYear | Mismatch | NoQuality.

Record TitleCheck : Type := mkTitleCheck {
  tc_parsed : ParsedTitle;
  tc_problems : list TitleProblem
}.

(** [ParsedTitle::summary]. *)
Definition summary (p : ParsedTitle) : bytes :=
  match p with
  | PEpisode title season episode =>
      bs "Episode: " ++ title ++ bs " S" ++ pad2 season ++ bs "E" ++ pad2 episode
  | PMovie title (Some year) => bs "Movie: " ++ title ++ bs " (" ++ u_to_string year ++ bs ")"
  | PMovie title None => bs "Movie: " ++ title
  | Unparseable => bs "Nothing it can match"
  end.

(** ** Parsing *)

Definition humanize (stem : bytes) : bytes := trim (replace (bs "._") (bs " ") stem).

Definition join_title (tokens : list bytes) : bytes := trim_matches (char_in (bs "- ")) (join (bs " ") tokens).

Definition is_e (b : byte) : bool := bool_decide (b = "e"%byte) || bool_decide (b = "E"%byte).

Definition season_episode (token : bytes) : option (N * N) :=
  match token with
  | b :: rest =>
      if eq_ignore_ascii_case b "S"%byte then
        se ← split_once is_e rest;
        if negb (is_nonempty se.1) || negb (is_nonempty se.2) then None
        else season ← parse_u u32_max se.1;
             episode ← parse_u u32_max se.2;
             Some (season, episode)
      else None
  | [] => None
  end.

Definition release_year (token : bytes) : option N :=
  let trimmed := trim_matches (char_in (bs "()[]")) token in
  if negb (length trimmed =? 4) then None
  else year ← parse_u u16_max trimmed;
       if (1900 <=? year)%N && (year <=? 2099)%N then Some year else None.

(** [iter().enumerate()] until [f] accepts a token: its index and value. *)
Fixpoint first_token {A : Type} (f : bytes -> option A) (index : nat) (tokens : list bytes)
  : option (nat * A) :=
  match tokens with
  | [] => None
  | token :: tokens =>
      match f token with
      | Some a => Some (index, a)
      | None => first_token f (S index) tokens
      end
  end.

Definition parse (title : bytes) : ParsedTitle :=
  let tokens := split_whitespace (humanize title) in
  match first_token season_episode 0 tokens with
  | Some (index, (season, episode)) =>
      let name := join_title (take index tokens) in
      if is_nonempty name then PEpisode name season episode else Unparseable
  | None =>
      match first_token release_year 1 (tail tokens) with
      | Some (index, year) =>
          let name := join_title (take index tokens) in
          if is_nonempty name then PMovie name (Some year) else Unparseable
      | None => Unparseable
      end
  end.

(** ** Quality *)

Definition SOURCES : list bytes :=
  [bs "web"; bs "webdl"; bs "webrip"; bs "bluray"; bs "bdrip"; bs "brrip"; bs "remux"; bs "hdtv";
   bs "sdtv"; bs "pdtv"; bs "dvd"; bs "dvdrip"; bs "hdrip"].

(** [strip_suffix(['p', 'i'])]. *)
Definition strip_p_i (token : bytes) : option bytes :=
  match last token with
  | Some b => if bool_decide (b = "p"%byte) || bool_decide (b = "i"%byte) then Some (removelast token) else None
  | None => None
  end.

Definition is_quality (token : bytes) : bool :=
  bool_decide (token ∈ SOURCES) || bool_decide (token = bs "4k") ||
  match strip_p_i token with
  | Some n => (3 <=? length n) && (length n <=? 4) && forallb is_ascii_digit n
  | None => false
  end.

Definition has_quality (title : bytes) : bool :=
  existsb is_quality
    (map str_to_ascii_lowercase (str_split (fun c => negb (char_is_ascii_alphanumeric c)) title)).

Definition video_tokens (media : option MediaMeta) : bytes * bytes :=
  (default (bs "1080p") (media ≫= scene_resolution), default (bs "x264") (media ≫= scene_video_codec)).

Definition CONTAINERS : list bytes :=
  [bs ".mkv"; bs ".mp4"; bs ".avi"; bs ".ts"; bs ".m2ts"; bs ".wmv"; bs ".mov"].

(** [s.get(n..)]. *)
Definition str_get_from (n : nat) (s : bytes) : option bytes :=
  match s !! n with
  | Some b => if is_cont b then None else Some (drop n s)
  | None => if bool_decide (n = length s) then Some [] else None
  end.

Definition has_extension (name ext : bytes) : bool :=
  (length ext <=? length name) &&
  let cut := length name - length ext in
  (0 <? cut) &&
  match str_get_from cut name with
  | Some tail => str_eq_ignore_ascii_case tail ext
  | None => false
  end.

Definition strip_extension (name : bytes) : bytes :=
  match List.find (has_extension name) CONTAINERS with
  | Some ext => take (length name - length ext) name
  | None => name
  end.

Section Titles.
Context `{UD : UnicodeData} `{D : Digests}.

(** ** Comparing *)

Definition transliterate (s : bytes) : list char := filter (fun c => is_combining_mark c = false) (nfkd s).

Definition ascii_fallback (title : bytes) : bytes :=
  bs "unknown" ++ hex_encode (take 4 (sha256 (to_lowercase title))).

(** The key of [loose_eq]. *)
Definition loose_key (s : bytes) : bytes :=
  let ascii := str_to_ascii_lowercase
    (concat (filter (fun c => char_is_ascii_alphanumeric c) (transliterate s))) in
  if is_nonempty ascii then ascii else ascii_fallback s.

Definition loose_eq (a b : bytes) : bool := bool_decide (loose_key a = loose_key b).

(** [ParsedTitle::describes]. *)
Definition describes (p : ParsedTitle) (spec : MediaSpec) : bool :=
  match p, spec with
  | PEpisode title season episode, Episode series_title s e =>
      (season =? s)%N && (episode =? e)%N && loose_eq title series_title
  | PMovie title year, Movie t y =>
      loose_eq title t && (bool_decide (year = None) || bool_decide (y = None) || bool_decide (year = y))
  | _, _ => false
  end.

Definition check (title : bytes) (spec : MediaSpec) : option TitleCheck :=
  let run (movie : bool) :=
    let parsed := parse title in
    let problems :=
      match parsed with
      | Unparseable => if movie then [NoYear] else [NoEpisodeNumber]
      | parsed => if describes parsed spec then [] else [Mismatch]
      end in
    Some (mkTitleCheck parsed (problems ++ if has_quality title then [] else [NoQuality])) in
  match spec with
  | Episode _ _ _ => run false
  | Movie _ _ => run true
  | Track _ _ _ | Book _ _ => None
  end.

(** ** Synthesising *)

(** The words [dotted] joins. *)
Definition title_words (title : bytes) : list bytes :=
  split_whitespace
    (concat (map (fun c => if char_is_ascii_alphanumeric c then c else bs " ") (transliterate title))).

Definition dotted (title : bytes) : bytes :=
  let cleaned := join (bs ".") (title_words title) in
  if is_nonempty cleaned then cleaned
  else bs "Unknown." ++ drop (length (bs "unknown")) (ascii_fallback title).

Definition synthesize (spec : MediaSpec) (media : option MediaMeta) : bytes :=
  let '(resolution, codec) := video_tokens media in
  let audio := default (bs "FLAC") (media ≫= scene_audio_format) in
  let quality := bs "." ++ resolution ++ bs ".WEB-DL." ++ codec ++ bs "-" ++ GROUP in
  match spec with
  | Episode series_title season episode =>
      dotted series_title ++ bs ".S" ++ pad2 season ++ bs "E" ++ pad2 episode ++ quality
  | Movie title (Some year) => dotted title ++ bs "." ++ u_to_string year ++ quality
  | Movie title None => dotted title ++ quality
  | Track artist album (Some track) =>
      dotted artist ++ bs "-" ++ dotted album ++ bs "-" ++ pad2 track ++ bs "-" ++ audio ++ bs "-" ++ GROUP
  | Track artist album None =>
      dotted artist ++ bs "-" ++ dotted album ++ bs "-" ++ audio ++ bs "-" ++ GROUP
  | Book author title => dotted author ++ bs "-" ++ dotted title ++ bs "-EPUB-" ++ GROUP
  end.

Definition synthesize_scene (scene : SceneMeta) (title : bytes) (media : option MediaMeta) : bytes :=
  let '(resolution, codec) := video_tokens media in
  replace (bs ".") [] (dotted (sc_studio scene)) ++ bs "." ++ pad2 (sc_year scene mod 100) ++ bs "." ++
  pad2 (sc_month scene) ++ bs "." ++ pad2 (sc_day scene) ++ bs "." ++ dotted title ++ bs ".XXX." ++
  resolution ++ bs ".WEB-DL." ++ codec ++ bs "-" ++ GROUP.

(** The stem of a candidate path, if it parses back to the spec. *)
Definition describing_stem (spec : MediaSpec) (candidate : bytes) : option bytes :=
  stem ← file_stem candidate ≫= from_utf8;
  if describes (parse stem) spec then Some stem else None.

(** [title::resolve]. *)
Definition resolve_title (spec : MediaSpec) (scene_name original_path : option bytes)
    (media : option MediaMeta) (path : bytes) (scene : option SceneMeta) : bytes :=
  let scene_named :=
    name ← scene_name;
    let cleaned := strip_extension (trim name) in
    if is_nonempty cleaned then Some cleaned else None in
  match scene_named, scene, spec with
  | Some cleaned, _, _ => cleaned
  | None, Some scene, Movie title _ => synthesize_scene scene title media
  | None, _, _ =>
      match omap (describing_stem spec) (omap id [original_path; Some path]) with
      | stem :: _ => stem
      | [] => synthesize spec media
      end
  end.

End Titles.

(** ** Words *)

Definition is_alnum_word (w : bytes) : Prop :=
  w <> [] /\ Forall (fun b => is_ascii_alphanumeric b = true) w.

Lemma alnum_graphic b : is_ascii_alphanumeric b = true -> is_graphic b = true.
Proof. by destruct b. Qed.

Lemma alnum_word w : is_alnum_word w -> is_word w.
Proof. intros [Hne Hw]. split; [done|]. eapply Forall_impl; [exact Hw|]. apply alnum_graphic. Qed.

Lemma str_split_ascii (p : char -> bool) s :
  Forall (fun b => is_ascii b = true) s -> str_split p s = split_on (fun b => p [b]) s.
Proof.
  intros Hs. unfold str_split. rewrite chars_ascii by done. clear Hs.
  induction s as [|b s IH]; [done|]. cbn [map split_on].
  destruct (split_on p (map (fun b => [b]) s)) as [|q qs] eqn:Hq; [by apply split_on_nonempty in Hq|].
  destruct (p [b]); cbn [map concat] in *; rewrite <- IH; done.
Qed.

Lemma concat_split_on {A : Type} (p : A -> bool) l :
  concat (split_on p l) = filter (fun x => p x = false) l /\
  Forall (Forall (fun x => p x = false)) (split_on p l).
Proof.
  induction l as [|x l [IH1 IH2]]; [by repeat constructor|]. cbn [split_on].
  rewrite filter_cons. destruct (p x) eqn:Hx.
  - rewrite decide_False by done. split; [done|by constructor].
  - rewrite decide_True by done. destruct (split_on p l) as [|q qs] eqn:Hq; [by apply split_on_nonempty in Hq|].
    cbn [concat] in *. rewrite <- IH1. apply Forall_cons in IH2 as [Hq1 Hq2].
    split; [done|]. constructor; [by constructor|done].
Qed.

Lemma concat_filter_nonempty (ws : list bytes) :
  concat (filter (fun t => is_nonempty t) ws) = concat ws.
Proof.
  induction ws as [|w ws IH]; [done|]. rewrite filter_cons. case_decide as Hw; cbn [concat]; rewrite IH.
  - done.
  - by destruct w; [|done].
Qed.

(** Splitting text of letters, digits and blanks: the words hold the letters
    and digits. *)
Lemma split_whitespace_alnum s :
  Forall (fun b => is_ascii_alphanumeric b = true \/ b = " "%byte) s ->
  concat (split_whitespace s) = filter (fun b => is_ascii_alphanumeric b = true) s /\
  Forall is_alnum_word (split_whitespace s).
Proof.
  intros Hs. unfold split_whitespace. rewrite str_split_ascii.
  2:{ eapply Forall_impl; [exact Hs|]. intros b [?| ->]; [|done]. by apply is_graphic_ascii, alnum_graphic. }
  destruct (concat_split_on (fun b => is_whitespace [b]) s) as [Hc Hf]. split.
  - rewrite concat_filter_nonempty, Hc. clear Hc Hf.
    induction Hs as [|b s Hb Hs IH]; [done|]. rewrite !filter_cons, IH.
    destruct Hb as [Hb| ->]; [|done].
    rewrite (decide_True _ _ Hb), decide_True; [done|]. by apply is_graphic_ws, alnum_graphic.
  - apply Forall_forall. intros w [Hw Hin]%list_elem_of_filter. split; [by destruct w|].
    rewrite Forall_forall in Hf. specialize (Hf w Hin). apply Forall_forall. intros b Hb.
    assert (b ∈ s) as Hbs.
    { assert (b ∈ concat (split_on (fun b => is_whitespace [b]) s)) as H
        by (apply list_elem_of_In, in_concat; exists w; split; by apply list_elem_of_In).
      rewrite Hc in H. by apply list_elem_of_filter in H as [_ H]. }
    rewrite Forall_forall in Hs. destruct (Hs b Hbs) as [?| ->]; [done|].
    rewrite Forall_forall in Hf. by specialize (Hf _ Hb).
Qed.

Lemma replace_join ws :
  Forall (Forall (fun b => b ∉ bs "._")) ws -> replace (bs "._") (bs " ") (join (bs ".") ws) = join (bs " ") ws.
Proof.
  assert (forall w, Forall (fun b => b ∉ bs "._") w -> replace (bs "._") (bs " ") w = w) as Hw.
  { induction 1 as [|b w Hb Hw IH]; [done|]. cbn. rewrite bool_decide_eq_false_2 by done. by f_equal. }
  induction 1 as [|w ws Hv Hws IH]; [done|]. destruct ws as [|v ws]; [by apply Hw|].
  change (join (bs ".") (w :: v :: ws)) with (w ++ bs "." ++ join (bs ".") (v :: ws)).
  change (join (bs " ") (w :: v :: ws)) with (w ++ bs " " ++ join (bs " ") (v :: ws)).
  unfold replace in *. rewrite !flat_map_app, IH. f_equal. by apply Hw.
Qed.

(** A word of a dotted title: it splits off whole. *)
Definition is_token (w : bytes) : Prop := is_word w /\ Forall (fun b => b ∉ bs "._") w.

Lemma tokens_of_dotted ws :
  Forall is_token ws -> split_whitespace (humanize (join (bs ".") ws)) = ws.
Proof.
  intros Hws. unfold humanize.
  rewrite replace_join by (eapply Forall_impl; [exact Hws|]; by intros w [_ ?]).
  assert (Forall is_word ws) as Hw by (eapply Forall_impl; [exact Hws|]; by intros w [? _]).
  unfold trim. rewrite trim_matches_words; [by apply split_whitespace_words|done|].
  eapply Forall_impl; [exact Hw|]. intros w [_ Hg]. eapply Forall_impl; [exact Hg|]. apply is_graphic_ws.
Qed.

Lemma alnum_token w : is_alnum_word w -> is_token w.
Proof.
  intros Hw. split; [by apply alnum_word|]. destruct Hw as [_ Hw].
  eapply Forall_impl; [exact Hw|]. intros b Hb Hin.
  unfold bs in Hin. cbn in Hin. rewrite !elem_of_cons, elem_of_nil in Hin.
  destruct Hin as [->|[->|[]]]; done.
Qed.

Lemma join_title_words ws :
  Forall is_alnum_word ws -> join_title ws = join (bs " ") ws.
Proof.
  intros Hws. unfold join_title. apply trim_matches_words.
  - eapply Forall_impl; [exact Hws|]. apply alnum_word.
  - eapply Forall_impl; [exact Hws|]. intros w [_ Hw]. eapply Forall_impl; [exact Hw|].
    intros b Hb. cbn. apply bool_decide_eq_false. unfold bs. cbn.
    rewrite !elem_of_cons, elem_of_nil. intros [->|[->|[]]]; done.
Qed.

(** ** Keys and dotted titles *)

Section DottedFacts.
Context `{UD : UnicodeData} `{D : Digests} `{UL : !UnicodeLaws UD} `{HL : !HexLaws D} `{DL : !DigestLaws D}.

Lemma transliterate_ascii s :
  Forall (fun b => is_ascii b = true) s -> transliterate s = map (fun b => [b]) s.
Proof.
  intros Hs. unfold transliterate. rewrite nfkd_ascii by done. apply list_filter_id.
  apply Forall_fmap. eapply Forall_impl; [exact Hs|]. intros b. apply ascii_no_mark.
Qed.

(** The letters and digits of a title, in order. *)
Definition title_letters (s : bytes) : bytes :=
  concat (filter (fun c => char_is_ascii_alphanumeric c) (transliterate s)).

Lemma char_alnum_inv c : char_is_ascii_alphanumeric c = true -> exists b, c = [b] /\ is_ascii_alphanumeric b = true.
Proof. destruct c as [|b [|? ?]]; cbn; [done|by exists b|done]. Qed.

Lemma title_words_spec title :
  concat (title_words title) = title_letters title /\ Forall is_alnum_word (title_words title).
Proof.
  unfold title_words, title_letters. generalize (transliterate title). intros cs.
  set (s := concat (map (fun c => if char_is_ascii_alphanumeric c then c else bs " ") cs)).
  assert (Forall (fun b => is_ascii_alphanumeric b = true \/ b = " "%byte) s /\
          filter (fun b => is_ascii_alphanumeric b = true) s =
            concat (filter (fun c => char_is_ascii_alphanumeric c) cs)) as [Hs <-].
  { unfold s. clear s. induction cs as [|c cs [IH1 IH2]]; [by repeat constructor|].
    cbn [map concat]. rewrite filter_cons. destruct (char_is_ascii_alphanumeric c) eqn:Hc.
    - apply char_alnum_inv in Hc as (b & -> & Hb). cbn [app]. rewrite decide_True by done. split.
      + constructor; [by left|done].
      + cbn [concat app]. rewrite filter_cons, decide_True by done. by f_equal.
    - rewrite decide_False by (by intros []).
      change (bs " ") with [" "%byte]. cbn [app]. split.
      + constructor; [by right|done].
      + rewrite filter_cons, decide_False by done. done. }
  by apply split_whitespace_alnum.
Qed.

(** The words of the dotted title, the placeholder's included. *)
Definition dotted_words (title : bytes) : list bytes :=
  match title_words title with
  | [] => [bs "Unknown"; hex_encode (take 4 (sha256 (to_lowercase title)))]
  | ws => ws
  end.

Lemma dotted_join title : dotted title = join (bs ".") (dotted_words title).
Proof.
  unfold dotted, dotted_words. destruct (title_words title) as [|w ws] eqn:Hw; [done|].
  destruct (title_words_spec title) as [_ Hws]. rewrite Hw in Hws.
  apply Forall_cons in Hws as [[Hne _] _]. destruct w as [|b w]; [done|]. by destruct ws.
Qed.

Lemma hex_digit_alnum b : is_hex_digit b = true -> is_ascii_alphanumeric b = true /\ to_ascii_lowercase b = b.
Proof. by destruct b. Qed.

Lemma fallback_hex title :
  is_alnum_word (hex_encode (take 4 (sha256 (to_lowercase title)))) /\
  length (hex_encode (take 4 (sha256 (to_lowercase title)))) = 8.
Proof.
  assert (length (hex_encode (take 4 (sha256 (to_lowercase title)))) = 8) as Hl
    by (rewrite hex_length, length_take, sha256_length; lia).
  split; [|done]. split; [by intros H; rewrite H in Hl|].
  eapply Forall_impl; [apply hex_digits|]. intros b Hb. by apply hex_digit_alnum.
Qed.

Lemma dotted_words_alnum title : Forall is_alnum_word (dotted_words title) /\ dotted_words title <> [].
Proof.
  unfold dotted_words. destruct (title_words_spec title) as [_ Hws].
  destruct (title_words title); [|done]. split; [|done].
  repeat constructor; try done; try apply fallback_hex.
Qed.

Lemma concat_join_letters ws :
  Forall is_alnum_word ws ->
  concat (filter (fun c => char_is_ascii_alphanumeric c) (map (fun b => [b]) (join (bs " ") ws))) = concat ws.
Proof.
  assert (forall w, Forall (fun b => is_ascii_alphanumeric b = true) w ->
            filter (fun c => char_is_ascii_alphanumeric c) (map (fun b => [b]) w) = map (fun b => [b]) w) as Hid.
  { intros w Hw. apply list_filter_id. apply Forall_fmap. eapply Forall_impl; [exact Hw|].
    intros b Hb. cbn. by rewrite Hb. }
  induction 1 as [|w ws [_ Hw] Hws IH]; [done|]. destruct ws as [|v ws].
  - cbn [join concat]. by rewrite Hid, concat_singletons, app_nil_r.
  - change (join (bs " ") (w :: v :: ws)) with (w ++ bs " " ++ join (bs " ") (v :: ws)).
    rewrite !map_app, !filter_app, !concat_app, IH, Hid, concat_singletons by done. done.
Qed.

(** A dotted title's words read as the title they came from. *)
Lemma loose_key_words title : loose_key (join (bs " ") (dotted_words title)) = loose_key title.
Proof.
  destruct (dotted_words_alnum title) as [Hws Hne].
  unfold loose_key at 1. rewrite transliterate_ascii.
  2:{ apply join_ascii; [done|]. apply words_ascii. eapply Forall_impl; [exact Hws|]. apply alnum_word. }
  rewrite concat_join_letters by done. unfold loose_key. fold (title_letters title).
  destruct (title_words_spec title) as [Hc Hw]. unfold dotted_words in *.
  destruct (title_words title) as [|w ws].
  - rewrite <- Hc. cbn [concat str_to_ascii_lowercase map is_nonempty].
    unfold ascii_fallback, str_to_ascii_lowercase. rewrite app_nil_r, map_app.
    assert (map to_ascii_lowercase (hex_encode (take 4 (sha256 (to_lowercase title)))) =
            hex_encode (take 4 (sha256 (to_lowercase title)))) as ->.
    { generalize (hex_digits (take 4 (sha256 (to_lowercase title)))).
      generalize (hex_encode (take 4 (sha256 (to_lowercase title)))). intros h Hh.
      induction Hh as [|b h Hb Hh IH]; [done|]. cbn. rewrite IH. f_equal. by apply hex_digit_alnum. }
    done.
  - rewrite Hc. apply Forall_cons in Hw as [[Hne' _] _]. rewrite <- Hc. destruct w as [|b w]; done.
Qed.

End DottedFacts.

(** ** Numbers in titles *)

Lemma digit_alnum b : is_ascii_digit b = true -> is_ascii_alphanumeric b = true.
Proof. by destruct b. Qed.

Lemma pad2_digits n : Forall (fun b => is_ascii_digit b = true) (pad2 n) /\ pad2 n <> [].
Proof.
  unfold pad2. case_bool_decide.
  - split; [|done]. constructor; [done|]. apply u_to_string_digits.
  - split; [apply u_to_string_digits|apply u_to_string_nonempty].
Qed.

Lemma parse_u_pad2 max n : (n <= max)%N -> parse_u max (pad2 n) = Some n.
Proof.
  intros Hn. unfold pad2. case_bool_decide; [|by apply parse_u_u_to_string].
  pose proof (parse_digits_u_to_string n) as Hp. unfold parse_u.
  destruct (u_to_string_cons n) as (b & r & Hs & _). rewrite Hs in *.
  unfold parse_digits in *.
  destruct (uint_of_bytes (b :: r)) as [d|] eqn:Hd; [|done]. injection Hp as Hp.
  change (uint_of_bytes ("0"%byte :: b :: r)) with (Decimal.D0 <$> uint_of_bytes (b :: r)).
  rewrite Hd. cbn [fmap option_fmap option_map].
  replace (N.of_uint (Decimal.D0 d)) with n by (rewrite <- Hp; done).
  by rewrite (proj2 (N.leb_le _ _) Hn).
Qed.

(** The [SxxEyy] token reads back. *)
Lemma season_episode_token s e :
  (s <= u32_max)%N -> (e <= u32_max)%N ->
  season_episode (bs "S" ++ pad2 s ++ bs "E" ++ pad2 e) = Some (s, e).
Proof.
  intros Hs He. cbn [bs String.list_byte_of_string app season_episode].
  destruct (pad2_digits s) as [Hd Hne]. destruct (pad2_digits e) as [_ Hne'].
  assert (split_once is_e (pad2 s ++ "E"%byte :: pad2 e) = Some (pad2 s, pad2 e)) as Hsp.
  { unfold split_once. rewrite position_app.
    - by rewrite take_length_app, drop_app_ge, Nat.sub_succ_l, Nat.sub_diag by lia.
    - eapply Forall_impl; [exact Hd|]. intros b. by destruct b.
    - done. }
  change (eq_ignore_ascii_case "S" "S") with true. cbv iota. cbn in Hsp |- *. rewrite Hsp.
  cbn [mbind option_bind fst snd]. destruct (pad2 s) as [|b1 s1] eqn:E1; [done|].
  destruct (pad2 e) as [|b2 s2] eqn:E2; [done|]. cbn [is_nonempty negb orb].
  rewrite <- E1, <- E2, !parse_u_pad2 by done. done.
Qed.

(** ** Parsing what was synthesised *)

Lemma first_token_app {A : Type} (f : bytes -> option A) i ws t a r :
  Forall (fun w => f w = None) ws -> f t = Some a ->
  first_token f i (ws ++ t :: r) = Some (i + length ws, a).
Proof.
  intros Hws Ht. revert i. induction Hws as [|w ws Hw Hws IH]; intros i; cbn.
  - by rewrite Ht, Nat.add_0_r.
  - rewrite Hw, IH. do 2 f_equal. lia.
Qed.

Lemma first_token_none {A : Type} (f : bytes -> option A) i ws :
  Forall (fun w => f w = None) ws -> first_token f i ws = None.
Proof. intros Hws. revert i. induction Hws as [|w ws Hw Hws IH]; intros i; cbn; [done|]. by rewrite Hw. Qed.

Lemma find_map_in {A : Type} (p : A -> bool) (f : A -> bytes) l r :
  f <$> List.find p l = Some r -> r ∈ map f l.
Proof.
  destruct (List.find p l) as [x|] eqn:Hf; [|done]. intros [= <-].
  apply List.find_some in Hf as [Hin _]. apply list_elem_of_fmap_2. by apply list_elem_of_In.
Qed.

Lemma video_tokens_known media :
  (video_tokens media).1 ∈ map snd LADDER /\ (video_tokens media).2 ∈ map snd VIDEO_TOKENS.
Proof.
  unfold video_tokens. cbn [fst snd]. split.
  - destruct media as [m|]; cbn [mbind option_bind]; [|by apply (bool_decide_unpack _)].
    destruct (scene_resolution m) as [r|] eqn:Hr; [|by apply (bool_decide_unpack _)]. cbn [default].
    unfold scene_resolution in Hr. destruct (dimensions m) as [wh|]; [|done].
    cbn [mbind option_bind] in Hr.
    destruct (rung wh.1 wh.2) as [[h n]|] eqn:Hrung; [|done]. injection Hr as <-.
    unfold rung in Hrung. destruct (List.find _ LADDER) as [x|] eqn:Hf; [|done].
    injection Hrung as _ <-. apply List.find_some in Hf as [Hin _].
    apply (list_elem_of_fmap_2 snd). by apply list_elem_of_In.
  - destruct media as [m|]; cbn [mbind option_bind]; [|by apply (bool_decide_unpack _)].
    destruct (scene_video_codec m) as [c|] eqn:Hc; [|by apply (bool_decide_unpack _)]. cbn [default].
    unfold scene_video_codec in Hc. destruct (video_codec m) as [raw|]; [|done]. cbn [mbind option_bind] in Hc.
    by apply find_map_in in Hc.
Qed.

(** The tokens that close a synthesised video title. *)
Definition quality_tokens (media : option MediaMeta) : list bytes :=
  [(video_tokens media).1; bs "WEB-DL"; (video_tokens media).2 ++ bs "-" ++ GROUP].

Definition token_fine (w : bytes) : bool :=
  is_nonempty w && forallb is_graphic w && forallb (fun b => negb (bool_decide (b ∈ bs "._"))) w &&
  bool_decide (season_episode w = None).

Lemma token_fine_spec w : token_fine w = true -> is_token w /\ season_episode w = None.
Proof.
  unfold token_fine. rewrite !andb_true_iff, !forallb_forall, bool_decide_eq_true.
  intros [[[Hne Hg] Hd] Hs]. split; [|done]. split; [split|].
  - by destruct w.
  - apply Forall_forall. intros b Hb. by apply Hg, list_elem_of_In.
  - apply Forall_forall. intros b Hb. specialize (Hd b (proj1 (list_elem_of_In _ _) Hb)).
    by apply negb_true_iff, bool_decide_eq_false in Hd.
Qed.

Lemma quality_tokens_fine media :
  Forall (fun w => is_token w /\ season_episode w = None) (quality_tokens media).
Proof.
  destruct (video_tokens_known media) as [H1 H2]. unfold quality_tokens.
  assert (Forall (fun r => token_fine r = true) (map snd LADDER)) as HL by by repeat constructor.
  assert (Forall (fun c => token_fine (c ++ bs "-" ++ GROUP) = true) (map snd VIDEO_TOKENS)) as HV
    by by repeat constructor.
  rewrite Forall_forall in HL, HV.
  constructor; [by apply token_fine_spec, HL|]. constructor; [by apply token_fine_spec|].
  constructor; [by apply token_fine_spec, HV|constructor].
Qed.

Lemma year_token y :
  (1900 <= y <= 2099)%N ->
  release_year (u_to_string y) = Some y /\ is_alnum_word (u_to_string y) /\
  season_episode (u_to_string y) = None.
Proof.
  intros Hy. split_and!.
  - assert (forallb (fun n => bool_decide (release_year (u_to_string n) = Some n))
              (map N.of_nat (seq 1900 200)) = true) as H by (vm_compute; reflexivity).
    rewrite forallb_forall in H. apply (bool_decide_eq_true _), H, list_elem_of_In.
    apply list_elem_of_fmap. exists (N.to_nat y). rewrite elem_of_seq. lia.
  - split; [apply u_to_string_nonempty|]. eapply Forall_impl; [apply u_to_string_digits|]. apply digit_alnum.
  - destruct (u_to_string_cons y) as (b & r & -> & Hb). unfold season_episode. revert Hb. by destruct b.
Qed.

Lemma se_token_alnum s e : is_alnum_word (bs "S" ++ pad2 s ++ bs "E" ++ pad2 e).
Proof.
  split; [done|]. rewrite !Forall_app. split_and!; try by repeat constructor;
    (eapply Forall_impl; [apply pad2_digits|]; apply digit_alnum).
Qed.

Lemma join_app_words c a b :
  a <> [] -> b <> [] -> join c (a ++ b) = join c a ++ c ++ join c b.
Proof.
  intros Ha Hb. induction a as [|w a IH]; [done|]. destruct a as [|v a].
  - cbn [app]. by destruct b as [|u b].
  - change (join c ((w :: v :: a) ++ b)) with (w ++ c ++ join c ((v :: a) ++ b)).
    rewrite IH by done. cbn [join]. by rewrite !app_assoc.
Qed.

Section SynthesisFacts.
Context `{UD : UnicodeData} `{D : Digests} `{UL : !UnicodeLaws UD} `{HL : !HexLaws D} `{DL : !DigestLaws D}.

Lemma words_tokens ws : Forall is_alnum_word ws -> Forall is_token ws.
Proof. intros H. eapply Forall_impl; [exact H|]. apply alnum_token. Qed.

Lemma quality_only_tokens media :
  Forall is_token (quality_tokens media) /\ Forall (fun w => season_episode w = None) (quality_tokens media).
Proof.
  pose proof (quality_tokens_fine media) as H.
  split; (eapply Forall_impl; [exact H|]; by intros w []).
Qed.

(** The text of a synthesised video title, as its tokens. *)
Lemma synthesize_join words mid media :
  words <> [] ->
  join (bs ".") words ++ bs "." ++ mid ++ bs "." ++ (video_tokens media).1 ++ bs ".WEB-DL." ++
    (video_tokens media).2 ++ bs "-" ++ GROUP =
  join (bs ".") (words ++ mid :: quality_tokens media).
Proof.
  intros Hw. rewrite join_app_words by done. unfold quality_tokens. cbn [join].
  change (bs ".WEB-DL.") with (bs "." ++ bs "WEB-DL" ++ bs "."). by rewrite <- !app_assoc.
Qed.

Lemma nonempty_join_title ws :
  Forall is_alnum_word ws -> ws <> [] -> join_title ws = join (bs " ") ws /\ is_nonempty (join_title ws) = true.
Proof.
  intros Hws Hne. rewrite join_title_words by done. split; [done|].
  destruct ws as [|w ws]; [done|]. apply Forall_cons in Hws as [[Hw _] _].
  destruct w as [|b w]; [done|]. by destruct ws.
Qed.

Lemma parse_episode_tokens words s e media :
  Forall is_alnum_word words -> words <> [] -> Forall (fun w => season_episode w = None) words ->
  (s <= u32_max)%N -> (e <= u32_max)%N ->
  parse (join (bs ".") (words ++ (bs "S" ++ pad2 s ++ bs "E" ++ pad2 e) :: quality_tokens media)) =
    PEpisode (join (bs " ") words) s e.
Proof.
  intros Hw Hne Hse Hs He. destruct (quality_only_tokens media) as [Hq _].
  unfold parse. rewrite tokens_of_dotted.
  2:{ rewrite Forall_app, Forall_cons. split_and!; [by apply words_tokens| |done].
      apply alnum_token, se_token_alnum. }
  rewrite (first_token_app season_episode 0 words _ (s, e)) by (done || by apply season_episode_token).
  cbn [Nat.add]. rewrite take_app_length.
  destruct (nonempty_join_title words Hw Hne) as [<- ->]. done.
Qed.

Lemma parse_movie_tokens words y media :
  Forall is_alnum_word words -> words <> [] -> Forall (fun w => season_episode w = None) words ->
  Forall (fun w => release_year w = None) (tail words) -> (1900 <= y <= 2099)%N ->
  parse (join (bs ".") (words ++ u_to_string y :: quality_tokens media)) =
    PMovie (join (bs " ") words) (Some y).
Proof.
  intros Hw Hne Hse Hyr Hy. destruct (quality_only_tokens media) as [Hq Hqs].
  destruct (year_token y Hy) as (Hy1 & Hy2 & Hy3).
  unfold parse. rewrite tokens_of_dotted.
  2:{ rewrite Forall_app, Forall_cons. split_and!; [by apply words_tokens| |done]. by apply alnum_token. }
  rewrite first_token_none by (rewrite Forall_app, Forall_cons; done).
  destruct words as [|w words]; [done|]. cbn [app tail] in *.
  rewrite (first_token_app release_year 1 words _ y) by done.
  replace (take (1 + length words) (w :: words ++ u_to_string y :: quality_tokens media))
    with (w :: words) by (cbn; by rewrite take_app_length).
  destruct (nonempty_join_title (w :: words) Hw Hne) as [<- ->]. done.
Qed.

Lemma has_quality_web words mid media :
  Forall is_token words -> is_token mid -> words <> [] ->
  has_quality (join (bs ".") (words ++ mid :: quality_tokens media)) = true.
Proof.
  intros Hw Hm Hne. destruct (quality_only_tokens media) as [Hq _].
  assert (Forall (fun b => is_ascii b = true) (join (bs ".") (words ++ mid :: quality_tokens media))) as Ha.
  { apply join_ascii; [done|]. apply words_ascii. rewrite Forall_app, Forall_cons. split_and!.
    - eapply Forall_impl; [exact Hw|]. by intros ? [? _].
    - apply Hm.
    - eapply Forall_impl; [exact Hq|]. by intros ? [? _]. }
  unfold has_quality. rewrite str_split_ascii by done.
  rewrite join_app_words by done. unfold quality_tokens. cbn [join].
  set (p := fun b : byte => negb (char_is_ascii_alphanumeric [b])).
  set (front := join (bs ".") words ++ bs "." ++ mid ++ bs "." ++ (video_tokens media).1).
  set (rest := bs "DL" ++ bs "." ++ (video_tokens media).2 ++ bs "-" ++ GROUP).
  replace (join (bs ".") words ++ bs "." ++ mid ++ bs "." ++ (video_tokens media).1 ++ bs "." ++ bs "WEB-DL" ++
           bs "." ++ (video_tokens media).2 ++ bs "-" ++ GROUP)
    with (front ++ "."%byte :: bs "WEB" ++ "-"%byte :: rest)
    by (unfold front, rest; change (bs "WEB-DL") with (bs "WEB" ++ "-"%byte :: bs "DL");
        by rewrite <- !app_assoc).
  rewrite !split_on_app by done. apply existsb_exists. exists (bs "web"). split; [|done].
  rewrite !map_app. apply in_or_app. right. apply in_or_app. left. by left.
Qed.

(** The titles [synthesize] can make parse back: numbers in range, and no word
    of the title that itself looks like an episode number or, past the first,
    like a year. *)
Definition matchable (spec : MediaSpec) : Prop :=
  match spec with
  | Episode title s e =>
      (s <= u32_max)%N /\ (e <= u32_max)%N /\
      Forall (fun w => season_episode w = None) (dotted_words title)
  | Movie title (Some y) =>
      (1900 <= y <= 2099)%N /\ Forall (fun w => season_episode w = None) (dotted_words title) /\
      Forall (fun w => release_year w = None) (tail (dotted_words title))
  | _ => False
  end.

Lemma loose_eq_words title : loose_eq (join (bs " ") (dotted_words title)) title = true.
Proof. unfold loose_eq. rewrite loose_key_words. by apply bool_decide_eq_true. Qed.

Lemma synthesize_parses spec media :
  matchable spec ->
  describes (parse (synthesize spec media)) spec = true /\ has_quality (synthesize spec media) = true.
Proof.
  destruct spec as [title s e|title [y|]| |]; cbn [matchable]; try done; unfold synthesize;
    (destruct (video_tokens media) as [res codec] eqn:Hv;
     replace res with (video_tokens media).1 by (by rewrite Hv);
     replace codec with (video_tokens media).2 by (by rewrite Hv)); clear Hv res codec.
  - intros (Hs & He & Hse). destruct (dotted_words_alnum title) as [Hw Hne].
    replace (dotted title ++ bs ".S" ++ _) with
      (join (bs ".") (dotted_words title ++ (bs "S" ++ pad2 s ++ bs "E" ++ pad2 e) :: quality_tokens media))
      by (rewrite <- synthesize_join by done; rewrite dotted_join;
          change (bs ".S") with (bs "." ++ bs "S"); by rewrite <- !app_assoc).
    rewrite parse_episode_tokens by done. split.
    + cbn [describes]. by rewrite !N.eqb_refl, loose_eq_words.
    + apply has_quality_web; [by apply words_tokens|apply alnum_token, se_token_alnum|done].
  - intros (Hy & Hse & Hyr). destruct (dotted_words_alnum title) as [Hw Hne].
    replace (dotted title ++ bs "." ++ _) with
      (join (bs ".") (dotted_words title ++ u_to_string y :: quality_tokens media))
      by (rewrite <- synthesize_join by done; by rewrite dotted_join).
    rewrite parse_movie_tokens by done. split.
    + cbn [describes]. rewrite loose_eq_words. cbn. by rewrite bool_decide_eq_true_2.
    + apply has_quality_web; [by apply words_tokens|by apply alnum_token, year_token|done].
Qed.

End SynthesisFacts.

(** ** Concrete parameters *)

(** Text that decomposes to its own characters. *)
Definition plain_unicode : UnicodeData := {|
  nfkd := chars;
  is_combining_mark := fun _ => false;
  to_lowercase := str_to_ascii_lowercase
|}.

Lemma plain_unicode_laws : UnicodeLaws plain_unicode.
Proof. split; [apply chars_ascii|done]. Qed.

Lemma prefix_digests_hex : HexLaws prefix_digests.
Proof.
  split; intros s.
  - cbn [hex_encode prefix_digests]. induction s as [|b s IH]; [constructor|].
    cbn [flat_map app]. repeat constructor; [by destruct b..|exact IH].
  - cbn [hex_encode prefix_digests]. induction s as [|b s IH]; [done|]. cbn [flat_map app length] in *. lia.
Qed.

(** ** Properties *)

(** A synthesised title is taken.  For an episode, or a film with a year,
    whose title has no word that looks like an episode number or a year of its
    own, the synthesised name passes the program's check with no problem: it
    parses back to the same content and carries a quality, whatever characters
    the title has and whatever is known of the file. *)
Theorem synthesized_title_passes `{UD : UnicodeData} `{D : Digests} spec media :
  UnicodeLaws UD -> HexLaws D -> DigestLaws D -> matchable spec ->
  exists parsed, check (synthesize spec media) spec = Some (mkTitleCheck parsed []) /\
    describes parsed spec = true.
Proof.
  intros HU HH HD Hm. destruct (synthesize_parses spec media Hm) as [Hd Hq].
  exists (parse (synthesize spec media)). split; [|done]. unfold check. rewrite Hq, Hd.
  destruct spec as [? ? ?|? ?| |]; try done;
    (destruct (parse _) eqn:Hp; [done|done|by cbn in Hd]).
Qed.

Lemma synthesized_title_passes_witness :
  exists parsed, @check plain_unicode prefix_digests
      (bs "The.Show.S02E11.1080p.WEB-DL.x264-SHARERR") (Episode (bs "The Show!") 2 11)
      = Some (mkTitleCheck parsed []).
Proof.
  destruct (@synthesized_title_passes plain_unicode prefix_digests (Episode (bs "The Show!") 2 11) None
    plain_unicode_laws prefix_digests_hex prefix_digests_laws) as (parsed & Hc & _).
  - repeat constructor; done.
  - exists parsed. exact Hc.
Defined.

(** The title that is chosen describes the file.  A scene name that is not
    empty after trimming and dropping a container extension is used as it is;
    without one (and outside Whisparr scenes) the chosen title, be it the
    pre-import name, the file's own or a synthesised one, parses back to the
    item whenever the item is one [synthesize] can express. *)
Theorem resolved_title_describes `{UD : UnicodeData} `{D : Digests} spec original_path media path :
  UnicodeLaws UD -> HexLaws D -> DigestLaws D -> matchable spec ->
  describes (parse (resolve_title spec None original_path media path None)) spec = true /\
  (forall name scene, strip_extension (trim name) <> [] ->
     resolve_title spec (Some name) original_path media path scene = strip_extension (trim name)).
Proof.
  intros HU HH HD Hm. split.
  - unfold resolve_title. cbn [mbind option_bind].
    replace (match spec with Movie _ _ | _ => _ end) with
      (match omap (describing_stem spec) (omap id [original_path; Some path]) with
       | stem :: _ => stem | [] => synthesize spec media end) by by destruct spec.
    destruct (omap (describing_stem spec) _) as [|stem stems] eqn:Ho;
      [by apply synthesize_parses|].
    assert (stem ∈ omap (describing_stem spec) (omap id [original_path; Some path])) as Hin
      by (rewrite Ho; apply elem_of_cons; by left).
    apply list_elem_of_omap in Hin as (c & _ & Hc). unfold describing_stem in Hc.
    destruct (file_stem c ≫= from_utf8) as [s|]; [|done]. cbn [mbind option_bind] in Hc.
    destruct (describes (parse s) spec) eqn:Hd; [|done]. by injection Hc as <-.
  - intros name scene Hne. unfold resolve_title. cbn [mbind option_bind].
    by destruct (strip_extension (trim name)) as [|b r].
Qed.

Lemma resolved_title_describes_witness :
  @describes plain_unicode prefix_digests
    (parse (@resolve_title plain_unicode prefix_digests (Movie (bs "1917") (Some 2019%N)) None None None
              (bs "/movies/01.mkv") None)) (Movie (bs "1917") (Some 2019%N)) = true.
Proof.
  apply (@resolved_title_describes plain_unicode prefix_digests);
    [exact plain_unicode_laws|exact prefix_digests_hex|exact prefix_digests_laws|].
  repeat constructor; done.
Defined.

(** A year inside the title wins over the release year.  The name chosen
    for the 2017 film "Blade Runner 2049", when its file name does not parse,
    reads as a 2049 film called "Blade Runner", which the program's own check
    reports as a mismatch. *)
Theorem year_in_title_misread `{UD : UnicodeData} `{D : Digests} :
  UnicodeLaws UD ->
  let spec := Movie (bs "Blade Runner 2049") (Some 2017%N) in
  let chosen := resolve_title spec None None None (bs "/movies/01.mkv") None in
  chosen = bs "Blade.Runner.2049.2017.1080p.WEB-DL.x264-SHARERR" /\
  check chosen spec = Some (mkTitleCheck (PMovie (bs "Blade Runner") (Some 2049%N)) [Mismatch]).
Proof.
  intros HU spec chosen.
  assert (chosen = bs "Blade.Runner.2049.2017.1080p.WEB-DL.x264-SHARERR") as Hc.
  { unfold chosen, resolve_title, spec. cbn [mbind option_bind].
    replace (omap (describing_stem _) _) with (@nil bytes) by (vm_compute; reflexivity).
    unfold synthesize, dotted, title_words. rewrite transliterate_ascii by by repeat constructor.
    vm_compute. reflexivity. }
  split; [done|]. rewrite Hc. unfold check.
  replace (parse _) with (PMovie (bs "Blade Runner") (Some 2049%N)) by (vm_compute; reflexivity).
  replace (has_quality _) with true by (vm_compute; reflexivity).
  unfold describes, spec, loose_eq, loose_key.
  rewrite !transliterate_ascii by by repeat constructor. vm_compute. reflexivity.
Qed.

Lemma year_in_title_misread_witness :
  @check plain_unicode prefix_digests (bs "Blade.Runner.2049.2017.1080p.WEB-DL.x264-SHARERR")
      (Movie (bs "Blade Runner 2049") (Some 2017%N))
    = Some (mkTitleCheck (PMovie (bs "Blade Runner") (Some 2049%N)) [Mismatch]).
Proof. apply (@year_in_title_misread plain_unicode prefix_digests plain_unicode_laws). Defined.
