(* ===== verification/Lighthouse.v ===== *)
(** * The lighthouse rendezvous (crates/sharerr-lighthouse/src/lib.rs)

    A table of key hash to latest signed record, with its capacity sweep, and
    the fabricated records that answer unknown key hashes.  Ed25519 and the JSON
    serialiser are parameters; the clock is an argument, in Unix seconds. *)

From S2P Require Import Prelude RustStd Text Bencode Metainfo Net Endpoint TrackerUrl Announce Factory Title.

(** ** Records *)

Record RecordEndpoint : Type := mkRecordEndpoint {
  re_kind : bytes;
  re_addr : bytes;
  re_observed_at : Z
}.

Record EndpointRecord : Type := mkRecord {
  er_pubkey : bytes;
  er_endpoints : list RecordEndpoint;
  er_signed_at : Z;
  er_signature : bytes
}.

(** [serde_json::to_vec] of the signed fields, and [ed25519_dalek]:
    [VerifyingKey::from_bytes] and [verify]. *)
Class Signatures : Type := {
  signable_json : bytes -> list RecordEndpoint -> Z -> option bytes;
  VerifyingKey : Type;
  key_from_bytes : bytes -> option VerifyingKey;
  key_verify : VerifyingKey -> bytes -> bytes -> bool
}.

(** ** Text *)

(** [u8::is_ascii_hexdigit]. *)
Definition is_ascii_hexdigit (b : byte) : bool :=
  is_ascii_digit b || byte_in 65 70 b || byte_in 97 102 b.

Definition is_hex_32_bytes (value : bytes) : bool :=
  (length value =? 64) && forallb is_ascii_hexdigit value.

Inductive ReportOutcome : Type := Accepted | Stale.

Inductive ReportError : Type := BadKeyHash | InvalidRecord | FutureTimestamp | Full | PubkeyMismatch.

Definition LH_MAX_FUTURE_SKEW_SECS : Z := 5 * 60.
Definition RECORD_TTL_SECS : Z := 30 * 24 * 60 * 60.
Definition MAX_RECORDS : N := 10000.
Definition SWEEP_INTERVAL_SECS : Z := 60.

(** [LighthouseState]: the records, when a full table was last swept, and the
    secret behind the decoys. *)
Record LighthouseState : Type := mkLighthouse {
  lh_map : gmap bytes EndpointRecord;
  lh_last_sweep_at : Z;
  lh_decoy_secret : bytes
}.

Definition lighthouse_new (decoy_secret : bytes) : LighthouseState := mkLighthouse ∅ 0 decoy_secret.

Section Lighthouse.
Context `{S : Signatures} `{DC : Decoders} `{D : Digests} `{UD : UnicodeData}.

Definition signable_bytes (pubkey : bytes) (endpoints : list RecordEndpoint) (signed_at : Z)
  : option bytes := signable_json pubkey endpoints signed_at.

(** [hex::decode_to_slice] into [len] bytes. *)
Definition hex_to_slice (len : nat) (s : bytes) : option bytes :=
  out ← hex_decode s; if decide (length out = len) then Some out else None.

Definition verify (record : EndpointRecord) : result unit bytes :=
  let? key_bytes := ok_or (hex_to_slice 32 (er_pubkey record)) (bs "pubkey is not 32 hex bytes") in
  let? key := ok_or (key_from_bytes key_bytes) (bs "pubkey is not a valid Ed25519 key") in
  let? signature := ok_or (hex_to_slice 64 (er_signature record)) (bs "signature is not 64 hex bytes") in
  let? text := ok_or (signable_bytes (er_pubkey record) (er_endpoints record) (er_signed_at record))
                 (bs "record could not be serialised") in
  if key_verify key text signature then Ok tt else Err (bs "signature does not verify").

Definition hash_key (raw_key : bytes) : bytes := hex_encode (sha256 raw_key).

(** Whether a stored record is past its lifetime. *)
Definition expired (now : Z) (record : EndpointRecord) : bool :=
  (RECORD_TTL_SECS <=? i64_saturating_sub now (er_signed_at record))%Z.

(** [LighthouseState::report] at time [now]. *)
Definition report (now : Z) (key_hash : bytes) (record : EndpointRecord) (st : LighthouseState)
  : result ReportOutcome ReportError * LighthouseState :=
  let key_hash := str_to_ascii_lowercase key_hash in
  let store st :=
    (Ok Accepted,
     mkLighthouse (<[key_hash := record]> (lh_map st)) (lh_last_sweep_at st) (lh_decoy_secret st)) in
  if negb (is_hex_32_bytes key_hash) then (Err BadKeyHash, st)
  else match verify record with
  | Err _ => (Err InvalidRecord, st)
  | Ok _ =>
      if (i64_saturating_add now LH_MAX_FUTURE_SKEW_SECS <? er_signed_at record)%Z
      then (Err FutureTimestamp, st)
      else match lh_map st !! key_hash with
      | Some existing =>
          if negb (expired now existing)
             && negb (str_eq_ignore_ascii_case (er_pubkey existing) (er_pubkey record))
          then (Err PubkeyMismatch, st)
          else if (er_signed_at record <=? er_signed_at existing)%Z then (Ok Stale, st)
          else store st
      | None =>
          if (MAX_RECORDS <=? N.of_nat (size (lh_map st)))%N then
            if (i64_saturating_sub now (lh_last_sweep_at st) <? SWEEP_INTERVAL_SECS)%Z
            then (Err Full, st)
            else
              let swept := filter (fun kr => expired now kr.2 = false) (lh_map st) in
              let st := mkLighthouse swept now (lh_decoy_secret st) in
              if (MAX_RECORDS <=? N.of_nat (size swept))%N then (Err Full, st) else store st
          else store st
      end
  end.

(** [LighthouseState::derive]. *)
Definition derive (st : LighthouseState) (label key_hash : bytes) : bytes :=
  sha256 (lh_decoy_secret st ++ label ++ key_hash).

Definition nth_val (l : bytes) (i : nat) : N := default 0%N (byte_val <$> l !! i).

(** [LighthouseState::decoy] at time [now]. *)
Definition decoy (now : Z) (st : LighthouseState) (key_hash : bytes) : EndpointRecord :=
  let pubkey := hex_encode (derive st (bs "pubkey") key_hash) in
  let addr_bytes := derive st (bs "addr") key_hash in
  let octet b := if bool_decide (b ∈ [0; 10; 127; 255]%N) then 1%N else b in
  let port := (1024 + (N.lor (N.shiftl (nth_val addr_bytes 4) 8) (nth_val addr_bytes 5)) mod (65535 - 1024))%N in
  let addr :=
    u_to_string (octet (nth_val addr_bytes 0)) ++ bs "." ++ u_to_string (nth_val addr_bytes 1) ++ bs "." ++
    u_to_string (nth_val addr_bytes 2) ++ bs "." ++ u_to_string (nth_val addr_bytes 3) ++ bs ":" ++
    u_to_string port in
  let offset_bytes := derive st (bs "signed_at") key_hash in
  let offset :=
    ((nth_val offset_bytes 0 * 2 ^ 24 + nth_val offset_bytes 1 * 2 ^ 16 +
      nth_val offset_bytes 2 * 2 ^ 8 + nth_val offset_bytes 3) mod 86400)%N in
  let signed_at := (now - Z.of_N offset)%Z in
  let signature := derive st (bs "sig-a") key_hash ++ derive st (bs "sig-b") key_hash in
  mkRecord pubkey [mkRecordEndpoint (bs "tracker") addr signed_at] signed_at (hex_encode signature).

(** [LighthouseState::lookup] at time [now]. *)
Definition lookup_record (now : Z) (st : LighthouseState) (key_hash : bytes) : EndpointRecord :=
  match lh_map st !! key_hash with
  | Some stored => stored
  | None => decoy now st key_hash
  end.

(** ** HTTP *)

(** The status and body the report route answers with. *)
Definition report_response (r : result ReportOutcome ReportError) : N * bytes :=
  match r with
  | Ok Accepted => (200%N, bs "accepted")
  | Ok Stale => (200%N, bs "stale")
  | Err BadKeyHash => (400%N, bs "key hash must be 64 hex characters")
  | Err InvalidRecord => (400%N, bs "record did not verify")
  | Err FutureTimestamp => (400%N, bs "signed_at is in the future — check the reporting host's clock")
  | Err Full => (503%N, bs "lighthouse is full")
  | Err PubkeyMismatch => (403%N, bs "this key hash is already claimed by a different keypair")
  end.

(** The lookup route. *)
Definition lookup_route (now : Z) (st : LighthouseState) (key_hash : bytes) : EndpointRecord :=
  let key_hash := to_lowercase key_hash in
  let key_hash := if is_hex_32_bytes key_hash then key_hash else hash_key key_hash in
  lookup_record now st key_hash.

End Lighthouse.

(** ** Runs of reports *)

(** One report: when it arrives, under which key hash, and its record. *)
Definition report_event : Type := Z * bytes * EndpointRecord.

Section LighthouseFacts.
Context `{S : Signatures} `{DC : Decoders} `{D : Digests} `{UD : UnicodeData}.

Definition after_report (st : LighthouseState) (ev : report_event) : LighthouseState :=
  (report ev.1.1 ev.1.2 ev.2 st).2.

Definition after_reports (st : LighthouseState) (run : list report_event) : LighthouseState :=
  fold_left after_report run st.

(** The states of a running lighthouse, with a clock that never goes back. *)
Inductive lh_reachable : Z -> LighthouseState -> Prop :=
| lh_start now secret : (0 <= now)%Z -> lh_reachable now (lighthouse_new secret)
| lh_step before now key_hash record st :
    lh_reachable before st -> (before <= now)%Z ->
    lh_reachable now (report now key_hash record st).2.

(** What holds of the table at time [now]. *)
Record lh_ok (now : Z) (st : LighthouseState) : Prop := {
  lh_bounded : (N.of_nat (size (lh_map st)) <= MAX_RECORDS)%N;
  lh_swept : (lh_last_sweep_at st <= now)%Z;
  lh_entries : map_Forall (fun k r =>
    is_hex_32_bytes k = true /\ str_to_ascii_lowercase k = k /\ verify r = Ok tt /\
    (er_signed_at r <= now + LH_MAX_FUTURE_SKEW_SECS)%Z) (lh_map st)
}.

Lemma same_key_trans a b c :
  str_eq_ignore_ascii_case a b = true -> str_eq_ignore_ascii_case b c = true ->
  str_eq_ignore_ascii_case a c = true.
Proof. unfold str_eq_ignore_ascii_case. rewrite !bool_decide_eq_true. congruence. Qed.

(** What a report can do to the table: nothing, a sweep of expired records, or
    storing its own valid record, after a sweep or not. *)
Inductive report_effect (now : Z) (key_hash : bytes) (record : EndpointRecord) (st : LighthouseState)
  : result ReportOutcome ReportError -> LighthouseState -> Prop :=
| effect_none r : r <> Ok Accepted -> report_effect now key_hash record st r st
| effect_sweep :
    (i64_saturating_sub now (lh_last_sweep_at st) <? SWEEP_INTERVAL_SECS)%Z = false ->
    report_effect now key_hash record st (Err Full)
      (mkLighthouse (filter (fun kr => expired now kr.2 = false) (lh_map st)) now (lh_decoy_secret st))
| effect_store table swept_at :
    let key := str_to_ascii_lowercase key_hash in
    is_hex_32_bytes key = true -> verify record = Ok tt ->
    (er_signed_at record <= i64_saturating_add now LH_MAX_FUTURE_SKEW_SECS)%Z ->
    ((table, swept_at) = (lh_map st, lh_last_sweep_at st) \/
     (table, swept_at) = (filter (fun kr => expired now kr.2 = false) (lh_map st), now)) ->
    (forall existing, lh_map st !! key = Some existing ->
       (er_signed_at existing < er_signed_at record)%Z /\
       (expired now existing = false ->
          str_eq_ignore_ascii_case (er_pubkey existing) (er_pubkey record) = true)) ->
    (is_Some (table !! key) \/ (N.of_nat (size table) < MAX_RECORDS)%N) ->
    report_effect now key_hash record st (Ok Accepted)
      (mkLighthouse (<[key := record]> table) swept_at (lh_decoy_secret st)).

Lemma report_has_effect now key_hash record st :
  report_effect now key_hash record st (report now key_hash record st).1 (report now key_hash record st).2.
Proof.
  unfold report. set (key := str_to_ascii_lowercase key_hash).
  destruct (is_hex_32_bytes key) eqn:Hhex; [|by constructor].
  cbn [negb]. destruct (verify record) as [[]|e] eqn:Hv; [|by constructor].
  destruct (Z.ltb_spec (i64_saturating_add now LH_MAX_FUTURE_SKEW_SECS) (er_signed_at record));
    [by constructor|].
  destruct (lh_map st !! key) as [existing|] eqn:He.
  - destruct (negb (expired now existing) && _) eqn:Hpin; [by constructor|].
    destruct (Z.leb_spec (er_signed_at record) (er_signed_at existing)); [by constructor|].
    apply (effect_store now key_hash record st (lh_map st)); fold key; try done; [by left| |by left].
    intros ex Hex. rewrite He in Hex. injection Hex as <-. split; [done|]. intros Hx.
    rewrite Hx in Hpin. cbn in Hpin. by apply negb_false_iff in Hpin.
  - destruct (N.leb_spec MAX_RECORDS (N.of_nat (size (lh_map st)))).
    + destruct (_ <? SWEEP_INTERVAL_SECS)%Z eqn:Hs; [by constructor|].
      destruct (N.leb_spec MAX_RECORDS (N.of_nat (size (filter (fun kr => expired now kr.2 = false) (lh_map st)))));
        [by constructor|].
      apply (effect_store now key_hash record st (filter (fun kr => expired now kr.2 = false) (lh_map st)) now);
        fold key; try done; [by right| |by right].
      intros ex Hex. by rewrite He in Hex.
    + apply (effect_store now key_hash record st (lh_map st)); fold key; try done; [by left| |by right].
      intros ex Hex. by rewrite He in Hex.
Qed.

Lemma size_filter_le (P : bytes * EndpointRecord -> Prop) `{!forall x, Decision (P x)}
    (m : gmap bytes EndpointRecord) : size (filter P m) <= size m.
Proof. apply map_subseteq_size, map_filter_subseteq. Qed.

Lemma report_ok before now key_hash record st :
  lh_ok before st -> (0 <= before <= now)%Z -> lh_ok now (report now key_hash record st).2.
Proof.
  intros [Hb Hs He] Ht.
  assert (map_Forall (fun k r => is_hex_32_bytes k = true /\ str_to_ascii_lowercase k = k /\ verify r = Ok tt /\
            (er_signed_at r <= now + LH_MAX_FUTURE_SKEW_SECS)%Z) (lh_map st)) as He'.
  { intros k r Hk. destruct (He k r Hk) as (? & ? & ? & ?). split_and!; try done. lia. }
  destruct (report_has_effect now key_hash record st) as [r Hr|_|table swept key Hhex Hv Hsig Htab _ Hroom].
  - split; [done|lia|done].
  - split; cbn [lh_map lh_last_sweep_at]; [|lia|].
    2:{ intros k r [Hk _]%map_lookup_filter_Some. by apply He'. }
    pose proof (size_filter_le (fun kr => expired now kr.2 = false) (lh_map st)). lia.
  - assert (table ⊆ lh_map st /\ (swept <= now)%Z) as [Hsub Hsw].
    { destruct Htab as [[= -> ->]|[= -> ->]]; (split; [|lia]); [done|apply map_filter_subseteq]. }
    split; cbn [lh_map lh_last_sweep_at]; [|done|].
    + apply map_subseteq_size in Hsub as Hsz. destruct Hroom as [[x Hx]|Hroom].
      * rewrite map_size_insert_Some by by exists x. lia.
      * destruct (table !! key) as [x|] eqn:Hx;
          [rewrite map_size_insert_Some by by exists x|rewrite map_size_insert_None by done]; lia.
    + apply map_Forall_insert_2.
      * split_and!; [done|apply lowercase_idem|done|].
        unfold i64_saturating_add, clamp_i64, LH_MAX_FUTURE_SKEW_SECS, i64_min in *. lia.
      * intros k r Hk. apply He'. by eapply lookup_weaken.
Qed.

Lemma lh_reachable_ok now st : lh_reachable now st -> (0 <= now)%Z /\ lh_ok now st.
Proof.
  induction 1 as [now secret Hnow|before now k r st _ [Hb IH] Hle].
  - split; [done|]. split; cbn; [done|done|]. apply map_Forall_empty.
  - split; [lia|]. by eapply report_ok.
Qed.

(** A record that is still alive keeps its slot for its keypair. *)
Lemma report_pin now key_hash record st k r :
  lh_map st !! k = Some r -> expired now r = false ->
  exists r', lh_map (report now key_hash record st).2 !! k = Some r' /\
    (r' = r \/ str_eq_ignore_ascii_case (er_pubkey r) (er_pubkey r') = true /\
               (er_signed_at r < er_signed_at r')%Z).
Proof.
  intros Hk Hx.
  assert (filter (fun kr => expired now kr.2 = false) (lh_map st) !! k = Some r) as Hf
    by by apply map_lookup_filter_Some.
  destruct (report_has_effect now key_hash record st) as [res Hr|_|table swept key Hhex Hv Hsig Htab Hold Hroom];
    [by exists r; auto|by exists r; auto|]. cbn [lh_map].
  destruct (decide (k = key)) as [->|Hne].
  - exists record. rewrite lookup_insert_eq. split; [done|]. right.
    destruct (Hold r Hk) as [Hlt Hsame]. split; [by apply Hsame|done].
  - exists r. rewrite lookup_insert_ne by done. split; [|by left].
    by destruct Htab as [[= -> _]|[= -> _]].
Qed.

Lemma clamp_mono a b : (a <= b)%Z -> (clamp_i64 a <= clamp_i64 b)%Z.
Proof. unfold clamp_i64. lia. Qed.

Lemma expired_mono now r r' :
  (er_signed_at r <= er_signed_at r')%Z -> expired now r = false -> expired now r' = false.
Proof.
  unfold expired, i64_saturating_sub. rewrite !Z.leb_gt. intros Hle Hx.
  assert (clamp_i64 (now - er_signed_at r') <= clamp_i64 (now - er_signed_at r))%Z
    by (apply clamp_mono; lia). lia.
Qed.

End LighthouseFacts.

(** [str::to_lowercase] of ASCII text is its ASCII lowercase. *)
Class LowercaseLaws (UD : UnicodeData) : Prop :=
  to_lowercase_ascii : forall s, Forall (fun b => is_ascii b = true) s -> to_lowercase s = str_to_ascii_lowercase s.

Lemma hex_lowercase_ascii s :
  is_hex_32_bytes (str_to_ascii_lowercase s) = true -> Forall (fun b => is_ascii b = true) s.
Proof.
  unfold is_hex_32_bytes, str_to_ascii_lowercase. rewrite andb_true_iff, forallb_forall. intros [_ H].
  apply Forall_forall. intros b Hb. specialize (H (to_ascii_lowercase b)).
  rewrite in_map_iff in H. specialize (H (ex_intro _ b (conj eq_refl (proj1 (list_elem_of_In _ _) Hb)))).
  revert H. by destruct b.
Qed.

(** ** Concrete parameters *)

(** Keys that accept the signatures they open. *)
Definition toy_signatures : Signatures := {|
  signable_json := fun pubkey _ _ => Some pubkey;
  VerifyingKey := bytes;
  key_from_bytes := Some;
  key_verify := fun key _ signature => bool_decide (take 32 signature = key)
|}.

(** Pairs of hex digits to bytes. *)
Fixpoint hex_pairs (s : bytes) : option bytes :=
  match s with
  | [] => Some []
  | h :: l :: s =>
      x ← to_digit 16 h; y ← to_digit 16 l; rest ← hex_pairs s; Some (byte_of (16 * x + y) :: rest)
  | [_] => None
  end.

Definition hex_decoders : Decoders := {| pct_decode := pct_reference; hex_decode := hex_pairs |}.

Definition toy_key (b : byte) : bytes := replicate 64 b.

Definition toy_record (b : byte) (signed_at : Z) : EndpointRecord :=
  mkRecord (toy_key b) [mkRecordEndpoint (bs "tracker") (bs "h:1") signed_at] signed_at (replicate 128 b).

Definition toy_state : LighthouseState :=
  mkLighthouse {[toy_key "a"%byte := toy_record "1"%byte 1000]} 0 (bs "secret").

(** ** Properties *)

(** Invariant of a running lighthouse.  However reports arrive, the table
    never holds more than its capacity, every key is 64 lowercase hex digits,
    every stored record carries a signature that verifies, and none is stamped
    further ahead of the clock than the allowed skew. *)
Theorem lighthouse_invariant `{S : Signatures} `{DC : Decoders} now st :
  lh_reachable now st ->
  (N.of_nat (size (lh_map st)) <= MAX_RECORDS)%N /\
  forall k r, lh_map st !! k = Some r ->
    is_hex_32_bytes k = true /\ str_to_ascii_lowercase k = k /\ verify r = Ok tt /\
    (er_signed_at r <= now + LH_MAX_FUTURE_SKEW_SECS)%Z.
Proof. intros [_ [Hb _ He]]%lh_reachable_ok. split; [done|]. intros k r. apply He. Qed.

Lemma lighthouse_invariant_witness :
  let st := (@report toy_signatures hex_decoders 1000 (toy_key "A"%byte) (toy_record "1"%byte 1000)
               (lighthouse_new (bs "secret"))).2 in
  lh_map st !! toy_key "a"%byte = Some (toy_record "1"%byte 1000) /\
  is_hex_32_bytes (toy_key "a"%byte) = true.
Proof.
  intros st.
  assert (lh_map st !! toy_key "a"%byte = Some (toy_record "1"%byte 1000)) as Hk
    by (vm_compute; reflexivity).
  split; [exact Hk|].
  apply (proj2 (@lighthouse_invariant toy_signatures hex_decoders 1000 st
    (lh_step 1000 1000 _ _ _ (lh_start 1000 (bs "secret") ltac:(lia)) ltac:(lia))) _ _ Hk).
Defined.

(** C33: a slot stays with its keypair.  Whatever reports arrive while a record
    is alive (its own, forged ones, floods that fill the table and trigger
    sweeps), its key hash keeps a record of the same public key, and its stamp
    never goes back. *)
Theorem record_pinned `{S : Signatures} `{DC : Decoders} st k r run :
  lh_map st !! k = Some r ->
  Forall (fun ev : report_event => expired ev.1.1 r = false) run ->
  exists r', lh_map (after_reports st run) !! k = Some r' /\
    str_eq_ignore_ascii_case (er_pubkey r) (er_pubkey r') = true /\
    (er_signed_at r <= er_signed_at r')%Z.
Proof.
  intros Hk Hrun.
  assert (forall run st r0, Forall (fun ev : report_event => expired ev.1.1 r = false) run ->
    lh_map st !! k = Some r0 -> str_eq_ignore_ascii_case (er_pubkey r) (er_pubkey r0) = true ->
    (er_signed_at r <= er_signed_at r0)%Z ->
    exists r', lh_map (after_reports st run) !! k = Some r' /\
      str_eq_ignore_ascii_case (er_pubkey r) (er_pubkey r') = true /\
      (er_signed_at r <= er_signed_at r')%Z) as H.
  { clear Hk Hrun st run. induction run as [|[[now kh] rec] run IH]; intros st r0 Hrun Hk Hs Hle.
    - by exists r0.
    - apply Forall_cons in Hrun as [Hx Hrun]. cbn in Hx.
      destruct (report_pin now kh rec st k r0 Hk) as (r1 & Hk1 & Hr1); [by eapply expired_mono|].
      apply (IH _ r1 Hrun Hk1).
      + destruct Hr1 as [->|[Hs1 _]]; [done|]. by eapply same_key_trans.
      + destruct Hr1 as [->|[_ Hlt]]; lia. }
  apply (H run st r Hrun Hk); [|lia]. unfold str_eq_ignore_ascii_case. by rewrite bool_decide_eq_true.
Qed.

Lemma record_pinned_witness :
  exists r', lh_map (@after_reports toy_signatures hex_decoders toy_state
      [(1010%Z, toy_key "A"%byte, toy_record "2"%byte 1010); (1020%Z, toy_key "b"%byte, toy_record "2"%byte 1015)])
      !! toy_key "a"%byte = Some r' /\
    str_eq_ignore_ascii_case (toy_key "1"%byte) (er_pubkey r') = true.
Proof.
  destruct (@record_pinned toy_signatures hex_decoders toy_state (toy_key "a"%byte)
    (toy_record "1"%byte 1000)
    [(1010%Z, toy_key "A"%byte, toy_record "2"%byte 1010); (1020%Z, toy_key "b"%byte, toy_record "2"%byte 1015)])
    as (r' & Hr & Hp & _); [vm_compute; reflexivity|repeat constructor|].
  exists r'. split; [exact Hr|exact Hp].
Defined.

Lemma accepted_found `{S : Signatures} `{DC : Decoders} `{D : Digests} `{UD : UnicodeData} `{!LowercaseLaws UD} now later key_hash record st :
  (report now key_hash record st).1 = Ok Accepted -> lookup_route later (report now key_hash record st).2 key_hash = record.
Proof.
  intros Hacc. pose proof (report_has_effect now key_hash record st) as He.
  rewrite Hacc in He. inversion He as [r Hr|Hs|table swept key Hhex Hv Hsig Htab Hold Hroom]; [done|].
  unfold lookup_route. unfold key in *. rewrite to_lowercase_ascii by (by apply hex_lowercase_ascii).
  rewrite Hhex. unfold lookup_record. cbn [lh_map]. by rewrite lookup_insert_eq.
Qed.

(** What was accepted is found.  After an accepted report the lookup route
    answers with that record at any time, however the key hash is
    capitalised. *)
Theorem reported_record_found `{S : Signatures} `{DC : Decoders} `{D : Digests} `{UD : UnicodeData}
    now later key_hash spelled record st :
  LowercaseLaws UD ->
  (report now key_hash record st).1 = Ok Accepted ->
  str_to_ascii_lowercase spelled = str_to_ascii_lowercase key_hash ->
  lookup_route later (report now key_hash record st).2 spelled = record.
Proof.
  intros HL Hacc Hsp. pose proof (report_has_effect now key_hash record st) as He.
  rewrite Hacc in He. inversion He as [r Hr|Hs|table swept key Hhex Hv Hsig Htab Hold Hroom]; [done|].
  unfold lookup_route. unfold key in *.
  rewrite to_lowercase_ascii by (apply hex_lowercase_ascii; by rewrite Hsp).
  rewrite Hsp, Hhex. unfold lookup_record. cbn [lh_map]. by rewrite lookup_insert_eq.
Qed.

Lemma plain_unicode_lowercase : LowercaseLaws plain_unicode.
Proof. by intros s _. Qed.

Lemma reported_record_found_witness :
  @lookup_route prefix_digests plain_unicode 2000
    (@report toy_signatures hex_decoders 1000 (toy_key "A"%byte) (toy_record "1"%byte 1000)
       (lighthouse_new (bs "secret"))).2 (toy_key "a"%byte) = toy_record "1"%byte 1000.
Proof.
  apply (@reported_record_found toy_signatures hex_decoders prefix_digests plain_unicode 1000 2000
    (toy_key "A"%byte) (toy_key "a"%byte) (toy_record "1"%byte 1000) (lighthouse_new (bs "secret"))
    plain_unicode_lowercase); vm_compute; reflexivity.
Defined.

(** Two probes tell a decoy from a record.  The stamp of a fabricated record
    moves with the clock, so looking up one key hash twice, some seconds apart,
    gives the same answer exactly when a record is stored under it. *)
Theorem decoy_follows_clock `{D : Digests} now seconds st key_hash :
  seconds <> 0%Z ->
  lookup_record now st key_hash = lookup_record (now + seconds) st key_hash <->
  is_Some (lh_map st !! key_hash).
Proof.
  intros Hs. unfold lookup_record. destruct (lh_map st !! key_hash) as [r|]; [split; [by exists r|done]|].
  split; [|by intros [? ?]]. unfold decoy. intros [=]. lia.
Qed.

Lemma decoy_follows_clock_witness :
  @lookup_record prefix_digests 1000 toy_state (toy_key "c"%byte) <>
    @lookup_record prefix_digests 1001 toy_state (toy_key "c"%byte).
Proof.
  intros H. apply (@decoy_follows_clock prefix_digests 1000 1 toy_state (toy_key "c"%byte)) in H; [|lia].
  destruct H as [r Hr]. vm_compute in Hr. discriminate Hr.
Defined.
