(* ===== verification/Totp.v ===== *)
(** * Time-based one-time passwords (crates/sharerr/src/totp.rs)

    Base32, HMAC-SHA1 and RFC 6238 codes, with the comparison of secrets from
    crates/sharerr/src/secrets.rs.  SHA-1 is a parameter; the clock is an
    argument, in Unix seconds; a [u32] is an [N] whose shifts wrap. *)

From S2P Require Import Prelude RustStd Text Bencode Metainfo Net Announce.

(** ** Constants *)

Definition STEP_SECS : Z := 30.
Definition DIGITS : nat := 6.
Definition SKEW_STEPS : Z := 1.
Definition SECRET_BYTES : nat := 20.
Definition ISSUER : bytes := bs "sharerr".
Definition ALPHABET : bytes := bs "ABCDEFGHIJKLMNOPQRSTUVWXYZ234567".

(** [a << k] on a [u32]. *)
Definition u32_shl (a k : N) : N := (N.shiftl a k mod 2 ^ 32)%N.

(** [char::to_ascii_uppercase]. *)
Definition char_to_ascii_uppercase (c : char) : char :=
  match c with
  | [b] => [if is_ascii_lower b then byte_of (byte_val b - 32) else b]
  | _ => c
  end.

(** [secrets::constant_time_eq]. *)
Definition constant_time_eq (a b : bytes) : bool :=
  (length a =? length b)
  && (fold_left (fun differences xy => N.lor differences (N.lxor (byte_val xy.1) (byte_val xy.2)))
        (zip a b) 0 =? 0)%N.

(** ** Base32 *)

Definition alphabet_at (i : N) : byte := default "A"%byte (ALPHABET !! N.to_nat i).

(** The inner [while bits >= 5] loop of the encoder. *)
Fixpoint emit_groups (fuel : nat) (out : bytes) (buffer bits : N) : bytes * N :=
  match fuel with
  | O => (out, bits)
  | S fuel =>
      if (5 <=? bits)%N then
        let bits := (bits - 5)%N in
        emit_groups fuel (out ++ [alphabet_at (N.land (N.shiftr buffer bits) 31)]) buffer bits
      else (out, bits)
  end.

(** One round of the encoder's loop over (output, buffer, bits). *)
Definition encode_byte (st : bytes * N * N) (byte : byte) : bytes * N * N :=
  let '(out, buffer, bits) := st in
  let buffer := N.lor (u32_shl buffer 8) (byte_val byte) in
  let bits := (bits + 8)%N in
  let '(out, bits) := emit_groups (N.to_nat bits) out buffer bits in
  (out, N.land buffer (u32_shl 1 bits - 1), bits).

Definition base32_encode (data : bytes) : bytes :=
  let '(out, buffer, bits) := fold_left encode_byte data ([], 0%N, 0%N) in
  if (0 <? bits)%N then out ++ [alphabet_at (N.land (u32_shl buffer (5 - bits)) 31)] else out.

(** One round of the decoder's loop over (output, buffer, bits). *)
Definition decode_char (st : bytes * N * N) (c : char) : option (bytes * N * N) :=
  let '(out, buffer, bits) := st in
  value ← position (fun a => bool_decide ([a] = char_to_ascii_uppercase c)) ALPHABET;
  let buffer := N.lor (u32_shl buffer 5) (N.of_nat value) in
  let bits := (bits + 5)%N in
  if (8 <=? bits)%N then
    let bits := (bits - 8)%N in
    Some (out ++ [byte_of (N.land (N.shiftr buffer bits) 255)], N.land buffer (u32_shl 1 bits - 1), bits)
  else Some (out, buffer, bits).

Fixpoint decode_chars (st : bytes * N * N) (cs : list char) : option (bytes * N * N) :=
  match cs with
  | [] => Some st
  | c :: cs => st ← decode_char st c; decode_chars st cs
  end.

Definition base32_significant (c : char) : bool :=
  negb (is_whitespace c) && negb (bool_decide (c = ["="%byte])).

Definition base32_decode (text : bytes) : option bytes :=
  st ← decode_chars ([], 0%N, 0%N) (List.filter base32_significant (chars text));
  Some st.1.1.

(** ** Codes *)

(** [u64::to_be_bytes]. *)
Definition u64_be (n : N) : bytes :=
  map (fun k => byte_of (N.shiftr n (8 * k) mod 256)) [7; 6; 5; 4; 3; 2; 1; 0]%N.

(** [u32::from_be_bytes]. *)
Definition u32_of_be (a b c d : N) : N := (((a * 256 + b) * 256 + c) * 256 + d)%N.

(** [{:0width$}]. *)
Definition pad_zeros (width : nat) (n : N) : bytes :=
  let s := u_to_string n in replicate (width - length s) "0"%byte ++ s.

Definition byte_at (l : bytes) (i : nat) : N := default 0%N (byte_val <$> l !! i).

Section Codes.
Context `{D : Digests}.

Definition hmac_sha1 (key message : bytes) : bytes :=
  let filled := if decide (64 < length key) then sha1 key else key in
  let block := filled ++ replicate (64 - length filled) x00 in
  let masked (m : N) := map (fun b => byte_of (N.lxor (byte_val b) m)) block in
  let inner := sha1 (masked 54%N ++ message) in
  sha1 (masked 92%N ++ inner).

Definition hotp (key : bytes) (counter : N) : N :=
  let mac := hmac_sha1 key (u64_be counter) in
  let offset := N.to_nat (N.land (byte_at mac 19) 15) in
  u32_of_be (N.land (byte_at mac offset) 127) (byte_at mac (offset + 1))
    (byte_at mac (offset + 2)) (byte_at mac (offset + 3)).

Definition code_for (key : bytes) (counter : N) : bytes :=
  pad_zeros DIGITS (hotp key counter mod 10 ^ N.of_nat DIGITS).

Definition strip_spaces (code : bytes) : bytes :=
  concat (List.filter (fun c => negb (is_whitespace c)) (chars code)).

(** Whether [code] is the one of [step]. *)
Definition step_matches (key code : bytes) (step : Z) : bool :=
  match u64_try_from_i64 step with
  | Some counter => constant_time_eq (code_for key counter) code
  | None => false
  end.

Definition verify (secret code : bytes) (now : Z) : option Z :=
  let code := strip_spaces code in
  if negb (length code =? DIGITS) || negb (forallb is_ascii_digit code) then None
  else
    key ← base32_decode secret;
    let current := (now / STEP_SECS)%Z in
    List.find (step_matches key code) (seqZ (current - SKEW_STEPS) (2 * SKEW_STEPS + 1)).

(** [code_at]: what an authenticator app shows at [now]. *)
Definition code_at (secret : bytes) (now : Z) : bytes :=
  let key := default [] (base32_decode secret) in
  let counter := default 0%N (u64_try_from_i64 (now / STEP_SECS)) in
  code_for key counter.

End Codes.

(** [generate_secret] over the bytes the system's generator gave. *)
Definition generate_secret (random : result bytes bytes) : result bytes bytes :=
  let? raw := random in Ok (base32_encode raw).

Definition is_valid_secret (secret : bytes) : bool :=
  match base32_decode secret with
  | Some key => length key =? SECRET_BYTES
  | None => false
  end.

(** [{byte:02X}]. *)
Definition hex_digit_upper (n : N) : byte :=
  if (n <? 10)%N then byte_of (48 + n) else byte_of (55 + n).

Definition percent_encode (text : bytes) : bytes :=
  flat_map (fun b =>
    if is_ascii_alphanumeric b || bool_decide (b ∈ bs "-._~") then [b]
    else ["%"%byte; hex_digit_upper (byte_val b / 16); hex_digit_upper (byte_val b mod 16)]) text.

Definition otpauth_uri (username secret : bytes) : bytes :=
  bs "otpauth://totp/" ++ ISSUER ++ bs ":" ++ percent_encode username ++
  bs "?secret=" ++ secret ++ bs "&issuer=" ++ ISSUER.

(** ** Vectors *)

Example rfc4648_vectors :
  map (fun s => base32_encode (bs s)) [""; "f"; "fo"; "foo"; "foob"; "fooba"; "foobar"]
  = map bs [""; "MY"; "MZXQ"; "MZXW6"; "MZXW6YQ"; "MZXW6YTB"; "MZXW6YTBOI"]%string.
Proof. vm_compute. reflexivity. Qed.

Example decode_tolerant :
  base32_decode (bs "mzxw 6ytb-oi") = None /\
  base32_decode (bs "mzxw 6ytb oi==") = Some (bs "foobar").
Proof. vm_compute. done. Qed.

(** ** Positional numbers *)

(** The number a list of digits writes in [base], most significant first. *)
Definition be (base : N) (l : list N) : N := fold_left (fun a d => a * base + d)%N l 0%N.

Lemma be_acc base l a :
  fold_left (fun a d => a * base + d)%N l a = (a * base ^ N.of_nat (length l) + be base l)%N.
Proof.
  revert a. unfold be. induction l as [|d l IH]; intros a; cbn [fold_left length].
  - cbn. lia.
  - rewrite IH, (IH (0 * base + d)%N), Nat2N.inj_succ, N.pow_succ_r'. lia.
Qed.

Lemma be_cons base d l : be base (d :: l) = (d * base ^ N.of_nat (length l) + be base l)%N.
Proof. unfold be at 1. cbn [fold_left]. by rewrite be_acc, N.mul_0_l, N.add_0_l. Qed.

Lemma be_app base l r : be base (l ++ r) = (be base l * base ^ N.of_nat (length r) + be base r)%N.
Proof. unfold be at 1. by rewrite fold_left_app, be_acc. Qed.

Lemma be_lt base l :
  Forall (fun d => (d < base)%N) l -> (be base l < base ^ N.of_nat (length l))%N.
Proof.
  induction 1 as [|d l Hd Hl IH]; [cbn; lia|].
  rewrite be_cons. cbn [length]. rewrite Nat2N.inj_succ, N.pow_succ_r'. nia.
Qed.

(** Two quotients with remainders below the divisor agree part by part. *)
Lemma quotient_unique (q1 r1 q2 r2 b : N) :
  (r1 < b -> r2 < b -> q1 * b + r1 = q2 * b + r2 -> q1 = q2 /\ r1 = r2)%N.
Proof. intros H1 H2 H. assert (q1 = q2) by nia. subst. lia. Qed.

Lemma be_inj base l r :
  length l = length r ->
  Forall (fun d => (d < base)%N) l -> Forall (fun d => (d < base)%N) r ->
  be base l = be base r -> l = r.
Proof.
  revert r. induction l as [|d l IH]; intros [|e r] Hlen Hl Hr Hbe; try done.
  injection Hlen as Hlen. apply Forall_cons in Hl as [Hd Hl]. apply Forall_cons in Hr as [He Hr].
  rewrite !be_cons, Hlen in Hbe.
  apply quotient_unique in Hbe as [-> Hbe]; [f_equal; auto| |by apply be_lt].
  rewrite <- Hlen. by apply be_lt.
Qed.

(** ** Bits *)

Lemma lor_shiftl a k b : (b < 2 ^ k)%N -> N.lor (N.shiftl a k) b = (a * 2 ^ k + b)%N.
Proof.
  intros Hb. rewrite <- N.shiftl_mul_pow2. symmetry.
  assert (N.land (N.shiftl a k) b = 0%N) as Hland; [|by rewrite N.add_nocarry_lxor, N.lxor_lor].
  apply N.bits_inj. intros i. rewrite N.land_spec, N.bits_0.
  destruct (N.lt_ge_cases i k) as [Hi|Hi].
  - by rewrite N.shiftl_spec_low.
  - rewrite <- (N.mod_small b (2 ^ k)) by done. by rewrite N.mod_pow2_bits_high, andb_false_r.
Qed.

(** The masks of the code keep the low bits. *)
Lemma land_mask x k : (k < 32)%N -> N.land x (u32_shl 1 k - 1) = (x mod 2 ^ k)%N.
Proof.
  intros Hk. unfold u32_shl. rewrite N.shiftl_1_l, N.mod_small by (apply N.pow_lt_mono_r; lia).
  by rewrite N.sub_1_r, <- N.ones_equiv, N.land_ones.
Qed.

Lemma shl_lor_small a k b bound :
  (a < 2 ^ bound)%N -> (bound + k < 32)%N -> (b < 2 ^ k)%N ->
  N.lor (u32_shl a k) b = (a * 2 ^ k + b)%N.
Proof.
  intros Ha Hk Hb. unfold u32_shl. rewrite N.mod_small; [by apply lor_shiftl|].
  rewrite N.shiftl_mul_pow2. apply N.lt_le_trans with (2 ^ bound * 2 ^ k)%N.
  - apply N.mul_lt_mono_pos_r; [|done]. by apply N.neq_0_lt_0, N.pow_nonzero.
  - rewrite <- N.pow_add_r. apply N.pow_le_mono_r; lia.
Qed.

Lemma mod_pow2_split x k j : (x mod 2 ^ (k + j) = (x / 2 ^ k) mod 2 ^ j * 2 ^ k + x mod 2 ^ k)%N.
Proof. rewrite N.pow_add_r, N.Div0.mod_mul_r. lia. Qed.

(** ** Base32 as a change of base *)

Definition vals (l : bytes) : list N := map byte_val l.

Lemma vals_lt l : Forall (fun d => (d < 256)%N) (vals l).
Proof. apply Forall_map, Forall_true. apply byte_val_lt. Qed.

Lemma vals_inj l r : vals l = vals r -> l = r.
Proof.
  revert r. induction l as [|a l IH]; intros [|b r]; cbn; try done.
  intros [= Hab Hlr]. f_equal; [by apply byte_val_inj|by apply IH].
Qed.

Definition is_digit (d : N) : Prop := (d < 32)%N.

Lemma emit_groups_spec fuel out buffer bits :
  N.to_nat bits <= fuel ->
  exists ds bits', emit_groups fuel out buffer bits = (out ++ map alphabet_at ds, bits') /\
    Forall is_digit ds /\ (bits' < 5)%N /\ (5 * N.of_nat (length ds) + bits' = bits)%N /\
    (be 32 ds * 2 ^ bits' + buffer mod 2 ^ bits' = buffer mod 2 ^ bits)%N.
Proof.
  revert out bits. induction fuel as [|fuel IH]; intros out bits Hfuel; cbn [emit_groups].
  { exists [], bits. rewrite app_nil_r. split_and!; [done|constructor|lia|cbn; lia|cbn; lia]. }
  destruct (N.leb_spec 5 bits) as [Hb|Hb]; cycle 1.
  { exists [], bits. rewrite app_nil_r. split_and!; [done|constructor|lia|cbn; lia|cbn; lia]. }
  set (d := N.land (N.shiftr buffer (bits - 5)) 31).
  destruct (IH (out ++ [alphabet_at d]) (bits - 5)%N) as (ds & bits' & -> & Hds & Hlt & Hlen & Hbe); [lia|].
  assert (d = (buffer / 2 ^ (bits - 5)) mod 2 ^ 5)%N as Hd.
  { unfold d. change 31%N with (N.ones 5). by rewrite N.land_ones, N.shiftr_div_pow2. }
  exists (d :: ds), bits'. rewrite <- app_assoc. split_and!; [done| |done|cbn [length]; lia|].
  - constructor; [|done]. unfold is_digit. rewrite Hd. by apply N.mod_lt.
  - rewrite be_cons. replace (2 ^ bits)%N with (2 ^ (bits - 5 + 5))%N by (f_equal; lia).
    rewrite mod_pow2_split, <- Hd, <- Hbe.
    replace (2 ^ (bits - 5))%N with (32 ^ N.of_nat (length ds) * 2 ^ bits')%N; [lia|].
    change 32%N with (2 ^ 5)%N. rewrite <- N.pow_mul_r, <- N.pow_add_r. f_equal. lia.
Qed.

(** Between rounds the encoder holds fewer than five bits, and the digits written
    with those bits spell the number the bytes read so far spell. *)
Lemma encode_loop data :
  exists ds buffer bits, fold_left encode_byte data ([], 0%N, 0%N) = (map alphabet_at ds, buffer, bits) /\
    Forall is_digit ds /\ (bits < 5)%N /\ (buffer < 2 ^ bits)%N /\
    (5 * N.of_nat (length ds) + bits = 8 * N.of_nat (length data))%N /\
    (be 32 ds * 2 ^ bits + buffer = be 256 (vals data))%N.
Proof.
  induction data as [|b data IH] using rev_ind.
  { exists [], 0%N, 0%N. split_and!; try done. }
  destruct IH as (ds & buffer & bits & E & Hds & Hbits & Hbuf & Hlen & Hbe).
  rewrite fold_left_app, E. cbn [fold_left]. unfold encode_byte.
  rewrite (shl_lor_small _ 8 _ bits) by (try done; first [apply byte_val_lt|lia]).
  pose proof (byte_val_lt b) as Hb.
  destruct (emit_groups_spec (N.to_nat (bits + 8)) (map alphabet_at ds) (buffer * 2 ^ 8 + byte_val b) (bits + 8))
    as (ds' & bits' & -> & Hds' & Hlt & Hlen' & Hbe'); [done|].
  rewrite land_mask by lia.
  exists (ds ++ ds'), ((buffer * 2 ^ 8 + byte_val b) mod 2 ^ bits')%N, bits'.
  rewrite map_app, length_app, Nat2N.inj_add. unfold vals. rewrite map_app, !be_app. cbn [map length].
  split_and!; [done|by apply Forall_app|done|by apply N.mod_lt, N.pow_nonzero|rewrite length_app; cbn; lia|].
  fold (vals data). change (N.of_nat 1) with 1%N. rewrite N.pow_1_r, <- Hbe.
  rewrite (N.mod_small _ (2 ^ (bits + 8))) in Hbe' by (rewrite N.pow_add_r; change (2 ^ 8)%N with 256%N; nia).
  replace (be 256 [byte_val b]) with (byte_val b) by (cbn; lia).
  rewrite N.mul_add_distr_r, <- N.add_assoc, Hbe', <- N.mul_assoc.
  replace (32 ^ N.of_nat (length ds') * 2 ^ bits')%N with (2 ^ bits * 256)%N; [lia|].
  change 32%N with (2 ^ 5)%N. change 256%N with (2 ^ 8)%N.
  rewrite <- N.pow_mul_r, <- !N.pow_add_r. f_equal. lia.
Qed.

(** What the whole encoding spells: the number of the bytes, shifted up to a
    multiple of five bits. *)
Lemma base32_encode_spec data :
  exists ds pad, base32_encode data = map alphabet_at ds /\ Forall is_digit ds /\ (pad < 5)%N /\
    (5 * N.of_nat (length ds) = 8 * N.of_nat (length data) + pad)%N /\
    (be 32 ds = be 256 (vals data) * 2 ^ pad)%N.
Proof.
  destruct (encode_loop data) as (ds & buffer & bits & E & Hds & Hbits & Hbuf & Hlen & Hbe).
  unfold base32_encode. rewrite E. destruct (N.ltb_spec 0 bits) as [Hpos|Hpos]; cycle 1.
  { assert (bits = 0%N) as -> by lia. exists ds, 0%N. split_and!; try done; [lia|].
    rewrite <- Hbe. cbn in Hbuf |- *. lia. }
  set (d := N.land (u32_shl buffer (5 - bits)) 31).
  assert (buffer * 2 ^ (5 - bits) < 2 ^ 5)%N as Hsmall.
  { replace (2 ^ 5)%N with (2 ^ bits * 2 ^ (5 - bits))%N by (rewrite <- N.pow_add_r; f_equal; lia).
    apply N.mul_lt_mono_pos_r; [|done]. by apply N.neq_0_lt_0, N.pow_nonzero. }
  assert (d = buffer * 2 ^ (5 - bits))%N as Hd.
  { unfold d, u32_shl. rewrite N.shiftl_mul_pow2. change 31%N with (N.ones 5).
    rewrite N.land_ones, (N.mod_small _ (2 ^ 32)), N.mod_small; [done|done|].
    change (2 ^ 5)%N with 32%N in Hsmall. change (2 ^ 32)%N with 4294967296%N. lia. }
  exists (ds ++ [d]), (5 - bits)%N. rewrite map_app, length_app, be_app, Nat2N.inj_add. cbn [map length].
  change (N.of_nat 1) with 1%N. split_and!; [done| |lia|lia|].
  - apply Forall_app. split; [done|]. constructor; [|constructor]. unfold is_digit. by rewrite Hd.
  - replace (be 32 [d]) with d by (cbn; lia). rewrite Hd, <- Hbe, N.mul_add_distr_r, <- N.mul_assoc, <- N.pow_add_r.
    replace (bits + (5 - bits))%N with 5%N by lia. cbn. lia.
Qed.

(** The value of a significant character. *)
Definition digit_of (c : char) : option N :=
  N.of_nat <$> position (fun a => bool_decide ([a] = char_to_ascii_uppercase c)) ALPHABET.

Lemma digit_of_lt c d : digit_of c = Some d -> is_digit d.
Proof.
  unfold digit_of. destruct (position _ _) as [n|] eqn:E; [|done]. intros [= <-].
  apply position_lt in E. change (length ALPHABET) with 32 in E. unfold is_digit. lia.
Qed.

(** The alphabet is read back digit by digit, and has no character the decoder
    skips. *)
Lemma alphabet_at_spec d :
  is_digit d ->
  digit_of [alphabet_at d] = Some d /\ base32_significant [alphabet_at d] = true /\
  is_ascii (alphabet_at d) = true.
Proof.
  unfold is_digit. intros Hd.
  assert (d ∈ map N.of_nat (seq 0 32)) as Hin.
  { apply list_elem_of_fmap. exists (N.to_nat d). rewrite elem_of_seq. lia. }
  clear Hd. revert d Hin. apply Forall_forall. repeat constructor.
Qed.

(** Between rounds the decoder holds fewer than eight bits, and the bytes written
    with those bits spell the number the digits read so far spell. *)
Definition decoder_inv (ds : list N) (st : bytes * N * N) : Prop :=
  let '(out, buffer, bits) := st in
  (bits < 8)%N /\ (buffer < 2 ^ bits)%N /\
  (8 * N.of_nat (length out) + bits = 5 * N.of_nat (length ds))%N /\
  (be 256 (vals out) * 2 ^ bits + buffer = be 32 ds)%N.

Lemma decode_char_spec ds st c :
  decoder_inv ds st ->
  match digit_of c with
  | None => decode_char st c = None
  | Some d => exists st', decode_char st c = Some st' /\ decoder_inv (ds ++ [d]) st'
  end.
Proof.
  destruct st as [[out buffer] bits]. intros (Hbits & Hbuf & Hlen & Hbe).
  destruct (digit_of c) as [d|] eqn:E; pose proof E as Ed; unfold digit_of in E.
  2:{ unfold decode_char. by destruct (position _ _). }
  apply digit_of_lt in Ed. unfold is_digit in Ed.
  unfold decode_char. destruct (position _ _) as [v|]; [|done]. injection E as Hv.
  cbn [mbind option_bind]. rewrite Hv, (shl_lor_small _ 5 _ bits) by (try done; lia).
  set (x := (buffer * 2 ^ 5 + d)%N).
  assert (x < 2 ^ (bits + 5))%N as Hx.
  { unfold x. rewrite N.pow_add_r. change (2 ^ 5)%N with 32%N. nia. }
  assert (be 256 (vals out) * 2 ^ (bits + 5) + x = be 32 (ds ++ [d]))%N as Hsum.
  { rewrite be_app. cbn [length]. change (N.of_nat 1) with 1%N. rewrite N.pow_1_r, <- Hbe.
    replace (be 32 [d]) with d by (cbn; lia). unfold x. rewrite N.pow_add_r.
    change (2 ^ 5)%N with 32%N. lia. }
  destruct (N.leb_spec 8 (bits + 5)) as [H8|H8].
  - rewrite land_mask by lia. eexists. split; [done|]. set (k := (bits + 5 - 8)%N).
    assert (N.land (N.shiftr x k) 255 = x / 2 ^ k)%N as Hbyte.
    { change 255%N with (N.ones 8). rewrite N.land_ones, N.shiftr_div_pow2. apply N.mod_small.
      apply N.Div0.div_lt_upper_bound. rewrite <- N.pow_add_r. by replace (k + 8)%N with (bits + 5)%N by lia. }
    assert (x / 2 ^ k < 256)%N as Hlt.
    { rewrite <- Hbyte. change 255%N with (N.ones 8). rewrite N.land_ones. by apply N.mod_lt. }
    rewrite Hbyte. split_and!; [lia|by apply N.mod_lt, N.pow_nonzero|rewrite !length_app; cbn; lia|].
    unfold vals. rewrite map_app, be_app. cbn [map length]. rewrite byte_val_of by done.
    change (N.of_nat 1) with 1%N. rewrite N.pow_1_r. fold (vals out).
    replace (be 256 [x / 2 ^ k])%N with (x / 2 ^ k)%N by (cbn; lia).
    rewrite <- Hsum. replace (bits + 5)%N with (8 + k)%N by lia. rewrite N.pow_add_r.
    change (2 ^ 8)%N with 256%N. pose proof (N.Div0.div_mod x (2 ^ k)). lia.
  - eexists. split; [done|]. split_and!; [done|done|rewrite !length_app; cbn; lia|done].
Qed.

Lemma decode_chars_spec cs ds st :
  decoder_inv ds st ->
  match mapM digit_of cs with
  | None => decode_chars st cs = None
  | Some es => exists st', decode_chars st cs = Some st' /\ decoder_inv (ds ++ es) st'
  end.
Proof.
  revert ds st. induction cs as [|c cs IH]; intros ds st Hinv; cbn [decode_chars mapM].
  { exists st. by rewrite app_nil_r. }
  pose proof (decode_char_spec ds st c Hinv) as Hc. destruct (digit_of c) as [d|]; cbn; [|by rewrite Hc].
  destruct Hc as (st1 & -> & Hinv1). cbn. specialize (IH _ _ Hinv1).
  destruct (mapM digit_of cs) as [es|]; cbn; [|done].
  destruct IH as (st2 & -> & H2). exists st2. by rewrite <- app_assoc in H2.
Qed.

(** ** Decimal width *)

Lemma of_uint_acc_ge d acc :
  (Npos acc * 10 ^ N.of_nat (Decimal.nb_digits d) <= Npos (Pos.of_uint_acc d acc))%N.
Proof.
  revert acc. induction d as [|d IH|d IH|d IH|d IH|d IH|d IH|d IH|d IH|d IH|d IH]; intros acc;
    cbn [Decimal.nb_digits Pos.of_uint_acc]; [lia|..];
    (etransitivity; [|apply IH]); rewrite Nat2N.inj_succ, N.pow_succ_r'; nia.
Qed.

Lemma u_to_string_width n k : (n < 10 ^ N.of_nat (S k))%N -> length (u_to_string n) <= S k.
Proof.
  intros Hn. unfold u_to_string. rewrite bytes_of_uint_length.
  destruct (N.eq_dec n 0) as [->|Hnz]; [cbn; lia|].
  pose proof (DecimalN.Unsigned.of_to n) as Hof.
  pose proof (DecimalN.Unsigned.to_of (N.to_uint n)) as Hto. rewrite Hof in Hto.
  assert (10 ^ N.of_nat (pred (Decimal.nb_digits (N.to_uint n))) <= n)%N as Hge.
  { destruct (N.to_uint n) as [|d|d|d|d|d|d|d|d|d|d] eqn:E; cbn [Decimal.nb_digits pred].
    1:{ by rewrite <- Hof in Hnz. }
    1:{ exfalso. revert Hto. unfold Decimal.unorm. cbn. destruct (Decimal.nzhead d) eqn:Hz; try done.
        - intros [= ->]. by rewrite <- Hof in Hnz.
        - intros _. by apply (DecimalFacts.nzhead_nonzero d u). }
    all: rewrite <- Hof; etransitivity; [|apply of_uint_acc_ge]; nia. }
  destruct (Nat.le_gt_cases (Decimal.nb_digits (N.to_uint n)) (S k)) as [|Hgt]; [done|].
  exfalso. assert (10 ^ N.of_nat (S k) <= 10 ^ N.of_nat (pred (Decimal.nb_digits (N.to_uint n))))%N; [|lia].
  apply N.pow_le_mono_r; lia.
Qed.

Lemma pad_zeros_digits width n :
  0 < width -> (n < 10 ^ N.of_nat width)%N ->
  length (pad_zeros width n) = width /\ Forall (fun b => is_ascii_digit b = true) (pad_zeros width n).
Proof.
  intros Hw Hn. unfold pad_zeros. destruct width as [|k]; [lia|].
  pose proof (u_to_string_width n k Hn). rewrite length_app, length_replicate. split; [lia|].
  apply Forall_app. split; [by apply Forall_replicate|apply u_to_string_digits].
Qed.

(** ** Comparing *)

Lemma lor_zero a b : N.lor a b = 0%N <-> a = 0%N /\ b = 0%N.
Proof. apply N.lor_eq_0_iff. Qed.

(** The comparison that does not stop early is equality. *)
Lemma constant_time_eq_spec a b : constant_time_eq a b = true <-> a = b.
Proof.
  unfold constant_time_eq. rewrite andb_true_iff, Nat.eqb_eq, N.eqb_eq.
  assert (forall d, length a = length b ->
    (fold_left (fun d xy => N.lor d (N.lxor (byte_val xy.1) (byte_val xy.2))) (zip a b) d = 0%N
     <-> d = 0%N /\ a = b)) as H.
  { revert b. induction a as [|x a IH]; intros [|y b] d Hlen; try done; cbn [zip zip_with fold_left].
    { naive_solver. }
    injection Hlen as Hlen. rewrite IH by done. cbn. rewrite lor_zero, N.lxor_eq_0_iff.
    split; [intros ((-> & Hxy%byte_val_inj) & ->); by subst|intros (-> & [= -> ->]); done]. }
  split; [intros [Hlen Hf]; by destruct (proj1 (H 0%N Hlen) Hf)|]. intros ->. split; [done|]. by apply H.
Qed.

(** ** Codes *)

Section CodeFacts.
Context `{D : Digests}.

Lemma code_for_digits key counter :
  length (code_for key counter) = DIGITS /\
  Forall (fun b => is_ascii_digit b = true) (code_for key counter).
Proof. apply pad_zeros_digits; [unfold DIGITS; lia|]. by apply N.mod_lt. Qed.

Lemma digit_plain b :
  is_ascii_digit b = true -> is_ascii b = true /\ is_whitespace [b] = false.
Proof. by destruct b. Qed.

Lemma strip_spaces_digits code :
  Forall (fun b => is_ascii_digit b = true) code -> strip_spaces code = code.
Proof.
  intros Hd. unfold strip_spaces. rewrite chars_ascii.
  2:{ eapply Forall_impl; [exact Hd|]. intros b Hb. by apply digit_plain. }
  replace (List.filter _ _) with (map (fun b : byte => [b]) code); [apply concat_singletons|].
  induction Hd as [|b code Hb Hd IH]; [done|]. cbn [map List.filter].
  destruct (digit_plain b Hb) as [_ ->]. cbn [negb]. by rewrite <- IH.
Qed.

Lemma step_matches_spec key code step :
  step_matches key code step = true <-> (0 <= step)%Z /\ code_for key (Z.to_N step) = code.
Proof.
  unfold step_matches, u64_try_from_i64. destruct (Z.leb_spec 0 step) as [H|H]; [|split; [done|lia]].
  rewrite constant_time_eq_spec. naive_solver.
Qed.

(** The guard on the shape of a code refuses nothing a step could match. *)
Lemma code_shape key code step :
  step_matches key code step = true ->
  negb (length code =? DIGITS) || negb (forallb is_ascii_digit code) = false.
Proof.
  intros [_ <-]%step_matches_spec. destruct (code_for_digits key (Z.to_N step)) as [-> Hd].
  rewrite Nat.eqb_refl. cbn. apply negb_false_iff, forallb_forall. intros b Hb.
  rewrite Forall_forall in Hd. by apply Hd, list_elem_of_In.
Qed.

End CodeFacts.

(** The first element of a range that passes. *)
Lemma find_seqZ_Some (p : Z -> bool) m n x :
  List.find p (seqZ m n) = Some x <->
  p x = true /\ (m <= x < m + n)%Z /\ forall y, (m <= y < x)%Z -> p y = false.
Proof.
  assert (forall l : list Z, List.find p l = Some x <->
    exists a b, l = a ++ x :: b /\ p x = true /\ Forall (fun y => p y = false) a) as H.
  { induction l as [|z l IH]; cbn [List.find].
    - split; [done|]. intros (a & b & E & _). by destruct a.
    - destruct (p z) eqn:Hz.
      + split; [intros [= ->]; by exists [], l|]. intros (a & b & E & Hx & Ha).
        destruct a as [|a0 a]; simplify_eq/=; [done|]. apply Forall_cons in Ha as [? _]. congruence.
      + rewrite IH. split.
        * intros (a & b & -> & Hx & Ha). exists (z :: a), b. auto.
        * intros (a & b & E & Hx & Ha). destruct a as [|a0 a]; simplify_eq/=; [congruence|].
          apply Forall_cons in Ha as [_ Ha]. by exists a, b. }
  rewrite H. split.
  - intros (a & b & E & Hx & Ha).
    assert (seqZ m n !! length a = Some x) as Hi by by rewrite E, list_lookup_middle.
    apply lookup_seqZ in Hi as [-> Hi]. split; [done|]. split; [lia|].
    intros y Hy. rewrite Forall_forall in Ha. apply Ha.
    assert (seqZ m n !! Z.to_nat (y - m) = Some y) as Hyi by (apply lookup_seqZ; lia).
    rewrite E, lookup_app_l in Hyi by lia. by eapply list_elem_of_lookup_2.
  - intros (Hx & Hr & Hbefore). exists (seqZ m (x - m)), (seqZ (Z.succ x) (m + n - Z.succ x)).
    split_and!; [|done|].
    + replace (x :: _) with (seqZ x (m + n - x)).
      2:{ rewrite seqZ_cons by lia. f_equal. f_equal. lia. }
      replace n with ((x - m) + (m + n - x))%Z at 1 by lia. rewrite seqZ_app by lia. do 2 f_equal. lia.
    + apply Forall_forall. intros y Hy%elem_of_seqZ. apply Hbefore. lia.
Qed.

(** ** The second factor's promise *)

Lemma pct_hex_upper `{DC : Decoders} `{PL : !PercentLaws DC} b s :
  pct_decode ("%"%byte :: hex_digit_upper (byte_val b / 16) :: hex_digit_upper (byte_val b mod 16) :: s)
  = b :: pct_decode s.
Proof.
  destruct (byte_nibbles b) as [H1 H2].
  assert (forall n, (n < 16)%N -> to_digit 16 (hex_digit_upper n) = Some n) as Hd.
  { intros n Hn. assert (n ∈ map N.of_nat (seq 0 16)) as Hin.
    { apply list_elem_of_fmap. exists (N.to_nat n). rewrite elem_of_seq. lia. }
    clear Hn. revert n Hin. apply Forall_forall. repeat constructor. }
  rewrite (pct_hex _ _ (byte_val b / 16) (byte_val b mod 16)) by by apply Hd.
  by rewrite <- N.div_mod, byte_of_val.
Qed.

(** The label of an enrolment URI is the username. *)
Lemma percent_encode_decodes `{DC : Decoders} `{PL : !PercentLaws DC} text :
  pct_decode (percent_encode text) = text.
Proof.
  induction text as [|b text IH]; [apply pct_nil|]. unfold percent_encode. cbn [flat_map].
  fold (percent_encode text). case_match eqn:Hb; cbn [app]; [|by rewrite pct_hex_upper, IH].
  rewrite pct_plain, IH; [done|]. intros ->. vm_compute in Hb. done.
Qed.

(** Upper-casing is idempotent, so a digit is read the same in either case. *)
Lemma digit_of_upper c : digit_of (char_to_ascii_uppercase c) = digit_of c.
Proof.
  unfold digit_of. do 2 f_equal.
  assert (char_to_ascii_uppercase (char_to_ascii_uppercase c) = char_to_ascii_uppercase c) as ->; [|done].
  destruct c as [|b [|]]; [done| |done]. by destruct b.
Qed.

Lemma mapM_digit_upper cs : mapM digit_of (map char_to_ascii_uppercase cs) = mapM digit_of cs.
Proof. induction cs as [|c cs IH]; [done|]. cbn [map mapM]. by rewrite digit_of_upper, IH. Qed.

Lemma mapM_alphabet ds :
  Forall is_digit ds -> mapM digit_of (map (fun b => [b]) (map alphabet_at ds)) = Some ds.
Proof.
  induction 1 as [|d ds Hd Hds IH]; [done|]. cbn [map mapM].
  destruct (alphabet_at_spec d Hd) as (-> & _ & _). cbn. by rewrite IH.
Qed.

Lemma chars_digits ds :
  Forall is_digit ds -> chars (map alphabet_at ds) = map (fun b => [b]) (map alphabet_at ds).
Proof.
  intros Hds. apply chars_ascii, Forall_map. eapply Forall_impl; [exact Hds|].
  intros d Hd. by apply alphabet_at_spec.
Qed.

(** A text whose significant characters, in capitals, are the encoding of [raw]
    decodes to it. *)
Lemma decode_spelled raw text :
  map char_to_ascii_uppercase (List.filter base32_significant (chars text)) = chars (base32_encode raw) ->
  base32_decode text = Some raw.
Proof.
  destruct (base32_encode_spec raw) as (ds & pad & -> & Hds & Hpad & Hlen & Hbe). intros Htext.
  rewrite chars_digits in Htext by done.
  pose proof (decode_chars_spec (List.filter base32_significant (chars text)) [] ([], 0%N, 0%N)) as Hdec.
  rewrite <- mapM_digit_upper, Htext, mapM_alphabet in Hdec by done. cbn [app] in Hdec.
  destruct Hdec as ([[out buffer] bits] & E & Hbits & Hbuf & Hlen' & Hbe'); [by split_and!|].
  unfold base32_decode. rewrite E. cbn. f_equal. apply vals_inj.
  assert (length out = length raw /\ bits = pad) as [Hl ->] by lia.
  apply (be_inj 256); [by unfold vals; rewrite !length_map|apply vals_lt|apply vals_lt|].
  rewrite Hbe in Hbe'. rewrite <- (N.add_0_r (be 256 (vals raw) * _)) in Hbe'.
  apply quotient_unique in Hbe' as [? _]; [done|done|]. by apply N.neq_0_lt_0, N.pow_nonzero.
Qed.

Lemma filter_significant ds :
  Forall is_digit ds ->
  List.filter base32_significant (map (fun b => [b]) (map alphabet_at ds)) = map (fun b => [b]) (map alphabet_at ds).
Proof.
  induction 1 as [|d ds Hd Hds IH]; [done|]. cbn [map List.filter].
  destruct (alphabet_at_spec d Hd) as (_ & -> & _). by rewrite IH.
Qed.

Lemma upper_alphabet ds :
  Forall is_digit ds ->
  map char_to_ascii_uppercase (map (fun b => [b]) (map alphabet_at ds)) = map (fun b => [b]) (map alphabet_at ds).
Proof.
  assert (Forall (fun d => char_to_ascii_uppercase [alphabet_at d] = [alphabet_at d]) (map N.of_nat (seq 0 32)))
    as H by repeat constructor.
  rewrite Forall_forall in H. induction 1 as [|d ds Hd Hds IH]; [done|]. cbn [map]. rewrite IH. f_equal.
  apply H, list_elem_of_fmap. exists (N.to_nat d). rewrite elem_of_seq. unfold is_digit in Hd. lia.
Qed.

Lemma encoded_spelled raw :
  map char_to_ascii_uppercase (List.filter base32_significant (chars (base32_encode raw)))
  = chars (base32_encode raw).
Proof.
  destruct (base32_encode_spec raw) as (ds & pad & -> & Hds & _).
  by rewrite chars_digits, filter_significant, upper_alphabet.
Qed.

(** ** Properties *)

(** A secret survives being shown and typed.  Whatever the random bytes, the
    base32 text made of them decodes back to exactly those bytes, in either case
    and with any spaces or [=] padding added, and passes the enrolment check
    exactly when there were twenty of them. *)
Theorem secret_roundtrip raw text :
  map char_to_ascii_uppercase (List.filter base32_significant (chars text)) = chars (base32_encode raw) ->
  base32_decode text = Some raw /\ is_valid_secret text = (length raw =? SECRET_BYTES) /\
  generate_secret (Ok raw) = Ok (base32_encode raw) /\ base32_decode (base32_encode raw) = Some raw.
Proof.
  intros Htext. pose proof (decode_spelled raw text Htext) as Hd. unfold is_valid_secret. rewrite Hd.
  split_and!; try done. apply decode_spelled, encoded_spelled.
Qed.

Lemma secret_roundtrip_witness :
  base32_decode (bs "krug s4za ml5a====") = Some (bs "This b" ++ [xfa]).
Proof.
  apply (secret_roundtrip (bs "This b" ++ [xfa]) (bs "krug s4za ml5a====")). vm_compute. reflexivity.
Defined.

(** C31: which codes are accepted, and as which step.  A code is accepted at [now]
    as [step] exactly when, spaces removed, it is the code of [step] under the
    decoded secret, [step] is at most one away from the current one and not
    negative, and no earlier step of that window has the same code. *)
Theorem totp_verify_exact `{D : Digests} secret code now step :
  verify secret code now = Some step <->
  exists key, base32_decode secret = Some key /\
    (0 <= step /\ Z.abs (step - now / 30) <= 1)%Z /\
    code_for key (Z.to_N step) = strip_spaces code /\
    forall earlier, (0 <= earlier /\ now / 30 - 1 <= earlier < step)%Z ->
      code_for key (Z.to_N earlier) <> strip_spaces code.
Proof.
  unfold verify, STEP_SECS, SKEW_STEPS. set (c := strip_spaces code). split.
  - destruct (negb _ || _); [done|]. destruct (base32_decode secret) as [key|]; cbn [mbind option_bind]; [|done].
    intros ([Hpos Hcode]%step_matches_spec & Hr & Hbefore)%find_seqZ_Some.
    exists key. split_and!; [done|lia|lia|done|]. intros e He Heq.
    specialize (Hbefore e ltac:(lia)). assert (step_matches key c e = true); [|congruence].
    apply step_matches_spec. naive_solver lia.
  - intros (key & Hkey & [Hpos Hr] & Hcode & Hbefore).
    assert (step_matches key c step = true) as Hm by by apply step_matches_spec.
    rewrite (code_shape _ _ _ Hm), Hkey. cbn [mbind option_bind].
    apply find_seqZ_Some. split_and!; [done|lia|lia|]. intros y Hy.
    apply not_true_is_false. intros [Hy0 Hyc]%step_matches_spec. apply (Hbefore y); [lia|done].
Qed.

(** A drifting clock is tolerated.  The code an authenticator app shows at [t],
    typed with or without spaces, is accepted at every moment within a step's
    length of [t], as a step no later than its own. *)
Theorem totp_drift `{D : Digests} secret code t now :
  is_valid_secret secret = true -> (0 <= t)%Z -> (Z.abs (now - t) <= 30)%Z ->
  strip_spaces code = code_at secret t ->
  exists step, verify secret code now = Some step /\ (step <= t / 30)%Z.
Proof.
  unfold is_valid_secret. intros Hs Ht Hnear Hcode.
  destruct (base32_decode secret) as [key|] eqn:Hkey; [|done].
  unfold code_at, u64_try_from_i64, STEP_SECS in Hcode. rewrite Hkey in Hcode. cbn [default] in Hcode.
  assert (0 <= t / 30)%Z as Hstep by (apply Z.div_pos; lia).
  rewrite (proj2 (Z.leb_le 0 (t / 30)) Hstep) in Hcode. cbn in Hcode.
  assert (step_matches key (strip_spaces code) (t / 30) = true) as Hm by by apply step_matches_spec.
  unfold verify, STEP_SECS, SKEW_STEPS. rewrite (code_shape _ _ _ Hm), Hkey. cbn [mbind option_bind].
  assert (now / 30 - 1 <= t / 30 <= now / 30 + 1)%Z as Hr
    by (clear -Hnear; Z.div_mod_to_equations; lia).
  destruct (List.find _ _) as [s|] eqn:E.
  - exists s. split; [done|]. apply find_seqZ_Some in E as (Hm' & Hrs & Hb).
    destruct (Z.le_gt_cases s (t / 30)) as [|Hgt]; [done|]. rewrite (Hb (t / 30)%Z) in Hm; [done|lia].
  - exfalso. apply List.find_none with (x := (t / 30)%Z) in E; [congruence|].
    apply list_elem_of_In, elem_of_seqZ. lia.
Qed.

(** A digest for the witnesses: twenty bytes that depend on the message. *)
Definition tail_digests : Digests := {|
  sha1 := fun m => take 20 (reverse m ++ replicate 20 x00);
  sha256 := fun m => take 32 (reverse m ++ replicate 32 x00);
  hex_encode := flat_map (fun b => [hex_digit (byte_val b / 16); hex_digit (byte_val b mod 16)])
|}.

Definition sample_secret : bytes := bs "GEZDGNBVGY3TQOJQGEZDGNBVGY3TQOJQ".

Lemma totp_verify_exact_witness :
  @verify tail_digests sample_secret (@code_at tail_digests sample_secret 1000) 1030 = Some 33%Z /\
  @code_for tail_digests (bs "12345678901234567890") 33 =
    strip_spaces (@code_at tail_digests sample_secret 1000).
Proof.
  assert (@verify tail_digests sample_secret (@code_at tail_digests sample_secret 1000) 1030 = Some 33%Z) as H
    by (vm_compute; reflexivity).
  split; [exact H|].
  apply (@totp_verify_exact tail_digests) in H as (key & Hk & _ & Hc & _).
  vm_compute in Hk. injection Hk as Hk. subst key. exact Hc.
Defined.

Lemma totp_drift_witness :
  exists step, @verify tail_digests sample_secret (@code_at tail_digests sample_secret 1000) 1030 = Some step /\
    (step <= 1000 / 30)%Z.
Proof.
  apply (@totp_drift tail_digests sample_secret (@code_at tail_digests sample_secret 1000) 1000 1030);
    [vm_compute; reflexivity|lia|lia|vm_compute; reflexivity].
Defined.
