(* ===== verification/Effects.v ===== *)
(** * Effects

    Async handlers and store methods thread a state and meet failures of the
    outside world (a query, a blocking task, the entropy source).  A computation
    is a function of its state; the outside world is a script in that state, from
    which every fallible call takes its next outcome. *)

From S2P Require Import Prelude RustStd Metainfo.

(** ** State *)

Definition St (S A : Type) : Type := S -> A * S.

Definition sret {S A : Type} (a : A) : St S A := fun s => (a, s).
Definition sbind {S A B : Type} (m : St S A) (k : A -> St S B) : St S B :=
  fun s => let '(a, s) := m s in k a s.

Notation "'let!' x ':=' e 'in' k" := (sbind e (fun x => k))
  (at level 200, x name, e at level 100, k at level 200) : rust_scope.

(** [?] inside a stateful computation. *)
Definition try_bind {S A B E : Type} (m : St S (result A E)) (k : A -> St S (result B E))
  : St S (result B E) :=
  sbind m (fun r => match r with Ok a => k a | Err e => sret (Err e) end).

Notation "'try!' x ':=' e 'in' k" := (try_bind e (fun x => k))
  (at level 200, x name, e at level 100, k at level 200) : rust_scope.

Definition sget {S : Type} : St S S := fun s => (s, s).
Definition sgets {S A : Type} (f : S -> A) : St S A := fun s => (f s, s).
Definition smodify {S : Type} (f : S -> S) : St S unit := fun s => (tt, f s).

(** A computation on a part of a larger state. *)
Definition focus {S P A : Type} (get : S -> P) (put : P -> S -> S) (m : St P A) : St S A :=
  fun s => let '(a, p) := m (get s) in (a, put p s).

(** ** The outside world *)

(** Whether each coming fallible call succeeds (those past the end do), the bytes
    the entropy source has left to give, and the text failures report. *)
Record Script : Type := mkScript { sc_io : list bool; sc_entropy : bytes; sc_error : bytes }.

(** The outcome of the next fallible call. *)
Definition draw : St Script bool :=
  fun s => match sc_io s with
           | [] => (true, s)
           | b :: rest => (b, mkScript rest (sc_entropy s) (sc_error s))
           end.

(** [getrandom::fill] of [n] bytes. *)
Definition getrandom (n : nat) : St Script (result bytes bytes) :=
  fun s =>
    if decide (n <= length (sc_entropy s))
    then (Ok (take n (sc_entropy s)), mkScript (sc_io s) (drop n (sc_entropy s)) (sc_error s))
    else (Err (sc_error s), s).

(** [secrets::random_bytes] and [secrets::random_hex]. *)
Definition random_bytes (n : nat) : St Script (result bytes bytes) :=
  let! raw := getrandom n in
  sret (rmap_err (fun err => bs "could not generate key material: " ++ err) raw).

Definition random_hex `{D : Digests} (n : nat) : St Script (result bytes bytes) :=
  let! raw := getrandom n in
  sret (let? raw := rmap_err (fun err => bs "could not generate a secret: " ++ err) raw in
        Ok (hex_encode raw)).

(** ** Facts *)

Lemma sbind_inv {S A B : Type} (m : St S A) (k : A -> St S B) s b s' :
  sbind m k s = (b, s') -> exists a s1, m s = (a, s1) /\ k a s1 = (b, s').
Proof. unfold sbind. destruct (m s) as [a s1]. eauto. Qed.

Lemma try_inv {S A B E : Type} (m : St S (result A E)) (k : A -> St S (result B E)) s b s' :
  try_bind m k s = (Ok b, s') -> exists a s1, m s = (Ok a, s1) /\ k a s1 = (Ok b, s').
Proof. intros ([a|e] & s1 & Hm & Hk)%sbind_inv; [eauto|done]. Qed.

(** Either the step failed and so does the whole, or the rest runs on its value. *)
Lemma try_cases {S A B E : Type} (m : St S (result A E)) (k : A -> St S (result B E)) s r s' :
  try_bind m k s = (r, s') ->
  (exists e, m s = (Err e, s') /\ r = Err e) \/ (exists a s1, m s = (Ok a, s1) /\ k a s1 = (r, s')).
Proof. intros ([a|e] & s1 & Hm & Hk)%sbind_inv; [eauto|]. injection Hk as <- <-. eauto. Qed.

Lemma getrandom_length n s raw s' : getrandom n s = (Ok raw, s') -> length raw = n.
Proof.
  unfold getrandom. case_decide; [|done]. intros [= <- _]. rewrite length_take. lia.
Qed.

(** A property that one stateful call cannot break. *)
Definition preserves {S A : Type} (P : S -> Prop) (m : St S A) : Prop :=
  forall s, P s -> P (m s).2.

Lemma preserves_ret {S A : Type} (P : S -> Prop) (a : A) : preserves P (sret a).
Proof. by intros s. Qed.

Lemma preserves_bind {S A B : Type} (P : S -> Prop) (m : St S A) (k : A -> St S B) :
  preserves P m -> (forall a, preserves P (k a)) -> preserves P (sbind m k).
Proof.
  intros Hm Hk s Hs. unfold sbind. specialize (Hm s Hs). destruct (m s) as [a s1]. by apply Hk.
Qed.

Lemma preserves_try {S A B E : Type} (P : S -> Prop) (m : St S (result A E)) (k : A -> St S (result B E)) :
  preserves P m -> (forall a, preserves P (k a)) -> preserves P (try_bind m k).
Proof.
  intros Hm Hk. apply preserves_bind; [done|]. intros [a|e]; [apply Hk|apply preserves_ret].
Qed.

Lemma preserves_gets {S A : Type} (P : S -> Prop) (f : S -> A) : preserves P (sgets f).
Proof. by intros s. Qed.

Lemma preserves_modify {S : Type} (P : S -> Prop) (f : S -> S) :
  (forall s, P s -> P (f s)) -> preserves P (smodify f).
Proof. intros H s Hs. by apply H. Qed.

Lemma preserves_focus {S Q A : Type} (get : S -> Q) (put : Q -> S -> S) (P : S -> Prop) (m : St Q A) :
  (forall s, P s -> P (put (m (get s)).2 s)) -> preserves P (focus get put m).
Proof.
  intros H s Hs. specialize (H s Hs). unfold focus. destruct (m (get s)) as [a q]. done.
Qed.

(** How one stateful call may move the state, whatever it returns. *)
Definition moves {S A : Type} (R : relation S) (m : St S A) : Prop := forall s, R s (m s).2.

(** [for x in l] with the loop's locals as an accumulator. *)
Fixpoint sfold {S A B : Type} (f : B -> A -> St S B) (l : list A) (b : B) : St S B :=
  match l with
  | [] => sret b
  | x :: l => let! b := f b x in sfold f l b
  end.

Section Moves.
Context {S : Type} (R : relation S) `{!PreOrder R}.

Lemma moves_ret {A : Type} (a : A) : moves R (sret a).
Proof. intros s. reflexivity. Qed.

Lemma moves_bind {A B : Type} (m : St S A) (k : A -> St S B) :
  moves R m -> (forall a, moves R (k a)) -> moves R (sbind m k).
Proof.
  intros Hm Hk s. unfold sbind. specialize (Hm s). destruct (m s) as [a s1]. transitivity s1; [done|apply Hk].
Qed.

Lemma moves_bind_run {A B : Type} (m : St S A) (k : A -> St S B) :
  moves R m -> (forall s, moves R (k (m s).1)) -> moves R (sbind m k).
Proof.
  intros Hm Hk s. unfold sbind. specialize (Hm s). specialize (Hk s). destruct (m s) as [a s1]. transitivity s1; [done|apply Hk].
Qed.

Lemma moves_try {A B E : Type} (m : St S (result A E)) (k : A -> St S (result B E)) :
  moves R m -> (forall a, moves R (k a)) -> moves R (try_bind m k).
Proof. intros Hm Hk. apply moves_bind; [done|]. intros [a|e]; [apply Hk|apply moves_ret]. Qed.

Lemma moves_try_ret {A B E : Type} (r : result A E) (k : A -> St S (result B E)) :
  (forall a, r = Ok a -> moves R (k a)) -> moves R (try_bind (sret r) k).
Proof. intros Hk s. destruct r as [a|e]; [by apply Hk|]. cbn. reflexivity. Qed.

Lemma moves_gets {A : Type} (f : S -> A) : moves R (sgets f).
Proof. intros s. reflexivity. Qed.

Lemma moves_modify (f : S -> S) : (forall s, R s (f s)) -> moves R (smodify f).
Proof. intros H s. apply H. Qed.

Lemma moves_focus {Q A : Type} (get : S -> Q) (put : Q -> S -> S) (m : St Q A) :
  (forall s, R s (put (m (get s)).2 s)) -> moves R (focus get put m).
Proof. intros H s. specialize (H s). unfold focus. by destruct (m (get s)). Qed.

Lemma moves_fold {A B : Type} (f : B -> A -> St S B) (l : list A) (b : B) :
  (forall b x, x ∈ l -> moves R (f b x)) -> moves R (sfold f l b).
Proof.
  revert b. induction l as [|x l IH]; intros b Hf; cbn; [apply moves_ret|].
  apply moves_bind; [apply Hf, list_elem_of_here|]. intros b'. apply IH.
  intros b'' y Hy. by apply Hf, list_elem_of_further.
Qed.

End Moves.

(** A quantity each turn of a loop moves by a known amount. *)
Lemma sfold_measure {S A B : Type} (f : B -> A -> St S B) (g : B -> nat) (c : A -> nat) (l : list A) :
  (forall b x s, x ∈ l -> g (f b x s).1 = c x + g b) -> forall b s, g (sfold f l b s).1 = sum_list_with c l + g b.
Proof.
  induction l as [|x l IH]; intros H b s; cbn; [done|]. unfold sbind.
  pose proof (H b x s (list_elem_of_here x l)) as Hx. destruct (f b x s) as [b1 s1]. cbn in Hx.
  rewrite IH, Hx by (intros; apply H; by apply list_elem_of_further). lia.
Qed.

Lemma moves_weaken {S A : Type} (R R' : relation S) (m : St S A) :
  (forall s s', R s s' -> R' s s') -> moves R m -> moves R' m.
Proof. intros H Hm s. apply H, Hm. Qed.

Create HintDb effects.
#[export] Hint Resolve preserves_ret preserves_bind preserves_try preserves_gets : effects.
#[export] Hint Resolve moves_ret moves_bind moves_try moves_gets : effects.
