(* ===== verification/Accounts.v ===== *)
(** * Login accounts (crates/sharerr-store/src/users.rs)

    The [users] table with one function per store method.  Argon2 is a
    parameter; a query, a hashing slot, a blocking task and the entropy source
    may each fail, as the script of [Effects] says. *)

From stdpp Require Import sorting.
From S2P Require Import Prelude RustStd Text Effects.

(** ** Errors *)

Inductive StoreError : Type :=
| Sql (e : bytes)
| Migrate (e : bytes)
| DataDir (path e : bytes)
| Malformed (id : Z) (detail : bytes)
| PasswordHash (message : bytes)
| TooBusy
| UserExists (username : bytes)
| InvalidUser (message : bytes)
| InvalidGossipUrl (value e : bytes).

(** The argon2 crate: [hash_password_with_salt] as a PHC string, and
    [verify_password(..).is_ok()]. *)
Class PasswordHasher : Type := {
  hash_password_with_salt : bytes -> bytes -> result bytes bytes;
  blocking_verify : bytes -> bytes -> bool
}.

(** A hash verifies the password it was made from. *)
Class PasswordLaws (H : PasswordHasher) : Prop :=
  hash_verifies : forall password salt hash,
    hash_password_with_salt password salt = Ok hash -> blocking_verify password hash = true.

(** ** The table *)

Record User : Type := mkUser {
  u_id : Z;
  u_password_hash : bytes;
  u_created_at : Z;
  u_updated_at : Z;
  u_totp_secret : option bytes;
  u_totp_last_step : option Z
}.

(** The rows by their UNIQUE username, and the AUTOINCREMENT counter. *)
Record Users : Type := mkUsers { us_rows : gmap bytes User; us_sequence : Z }.

Definition us_empty : Users := mkUsers ∅ 0.

Abbreviation StoreM := (St (Users * Script)).

(** A store method's call of the database: one statement, or its failure. *)
Definition query {T A : Type} (statement : T -> result A StoreError * T)
  : St (T * Script) (result A StoreError) :=
  fun s =>
    let '(ok, script) := draw s.2 in
    if ok then let '(r, tables) := statement s.1 in (r, (tables, script)) else (Err (Sql (sc_error script)), (s.1, script)).

Definition on_script {A : Type} (m : St Script A) : StoreM A :=
  focus snd (fun script s => (s.1, script)) m.

(** ** Validation *)

Definition SALT_LEN : nat := 16.

(** [db::validate_name]. *)
Definition validate_name (raw blank_msg long_msg : bytes) : result bytes StoreError :=
  let trimmed := trim raw in
  if negb (is_nonempty trimmed) then Err (InvalidUser blank_msg)
  else if decide (64 < length (chars trimmed)) then Err (InvalidUser long_msg)
  else Ok trimmed.

Definition validate_username (username : bytes) : result bytes StoreError :=
  validate_name username (bs "username must not be blank") (bs "username must be 64 characters or fewer").

Definition validate_password (password : bytes) : result unit StoreError :=
  if is_nonempty password then Ok tt else Err (InvalidUser (bs "password must not be empty")).

(** ** Methods *)

Section Methods.
Context `{H : PasswordHasher}.

Definition blocking_hash (password : bytes) : St Script (result bytes StoreError) :=
  let! salt := getrandom SALT_LEN in
  sret (match salt with
        | Err e => Err (PasswordHash (bs "salt generation failed: " ++ e))
        | Ok salt => rmap_err PasswordHash (hash_password_with_salt password salt)
        end).

(** [Store::hash_slot]: a permit, or [TooBusy]. *)
Definition hash_slot : St Script (result unit StoreError) :=
  let! ok := draw in sret (if ok : bool then Ok tt else Err TooBusy).

(** [spawn_blocking(..).await]. *)
Definition spawn_blocking {A : Type} (panicked : bytes) (m : St Script (result A StoreError)) : St Script (result A StoreError) :=
  let! ok := draw in
  if ok : bool then m else sret (Err (PasswordHash panicked)).

Definition hash_password (password : bytes) : St Script (result bytes StoreError) :=
  try! permit := hash_slot in
  spawn_blocking (bs "hashing task panicked") (blocking_hash password).

(** The free function [verify_password]: [None] is checked against the decoy. *)
Definition verify_stored (decoy password : bytes) (stored : option bytes) : St Script (result bool StoreError) :=
  try! permit := hash_slot in
  spawn_blocking (bs "verification task panicked") (sret (Ok (blocking_verify password (default decoy stored)))).

Definition user_count : StoreM (result nat StoreError) :=
  query (fun users => (Ok (size (us_rows users)), users)).

(** The INSERT of [create_user], with its UNIQUE constraint. *)
Definition insert_user (username hash : bytes) (now : Z) (users : Users) : result Z StoreError * Users :=
  match us_rows users !! username with
  | Some _ => (Err (UserExists username), users)
  | None =>
      let id := (us_sequence users + 1)%Z in
      (Ok id, mkUsers (<[username := mkUser id hash now now None None]> (us_rows users)) id)
  end.

Definition create_user (now : Z) (username password : bytes) : StoreM (result Z StoreError) :=
  try! username := sret (validate_username username) in
  try! valid := sret (validate_password password) in
  try! hash := on_script (hash_password password) in
  query (insert_user username hash now).

Definition verify_password (decoy username password : bytes) : StoreM (result bool StoreError) :=
  try! stored := query (fun users => (Ok (u_password_hash <$> us_rows users !! username), users)) in
  let known := match stored with Some _ => true | None => false end in
  try! verified := on_script (verify_stored decoy password stored) in
  sret (Ok (verified && known)).

(** [Store::changed] over an UPDATE of the one row [WHERE username = ?] and
    [guard]: whether a row changed. *)
Definition update_user (username : bytes) (guard : User -> bool) (set : User -> User) (users : Users)
  : result bool StoreError * Users :=
  match us_rows users !! username with
  | Some u =>
      if guard u then (Ok true, mkUsers (<[username := set u]> (us_rows users)) (us_sequence users))
      else (Ok false, users)
  | None => (Ok false, users)
  end.

(** What the UPDATEs assign. *)
Definition put_password (hash : bytes) (now : Z) (u : User) : User :=
  mkUser (u_id u) hash (u_created_at u) now (u_totp_secret u) (u_totp_last_step u).
Definition put_secret (secret : option bytes) (now : Z) (u : User) : User :=
  mkUser (u_id u) (u_password_hash u) (u_created_at u) now secret None.
Definition put_step (step : Z) (u : User) : User :=
  mkUser (u_id u) (u_password_hash u) (u_created_at u) (u_updated_at u) (u_totp_secret u) (Some step).

Definition set_password (now : Z) (username password : bytes) : StoreM (result bool StoreError) :=
  try! valid := sret (validate_password password) in
  try! hash := on_script (hash_password password) in
  query (update_user username (fun _ => true) (put_password hash now)).

Definition totp_secret (username : bytes) : StoreM (result (option bytes) StoreError) :=
  query (fun users => (Ok (u ← us_rows users !! username; u_totp_secret u), users)).

Definition set_totp_secret (now : Z) (username : bytes) (secret : option bytes) : StoreM (result bool StoreError) :=
  query (update_user username (fun _ => true) (put_secret secret now)).

(** Whether [step] is later than the last one accepted. *)
Definition step_unspent (step : Z) (u : User) : bool :=
  match u_totp_last_step u with None => true | Some last => (last <? step)%Z end.

Definition claim_totp_step (username : bytes) (step : Z) : StoreM (result bool StoreError) :=
  query (update_user username (step_unspent step) (put_step step)).

End Methods.

(** ** What the methods do *)

Lemma users_query_inv {A : Type} (f : Users -> result A StoreError * Users) s r s' :
  query f s = (r, s') ->
  (exists e, r = Err (Sql e) /\ s'.1 = s.1) \/ f s.1 = (r, s'.1).
Proof.
  unfold query. destruct (draw s.2) as [[|] script].
  - destruct (f s.1) as [r1 users] eqn:E. intros [= <- <-]. by right.
  - intros [= <- <-]. left. by eexists.
Qed.

(** A read-only query. *)
Lemma query_read {A : Type} (f : Users -> result A StoreError) s r s' :
  query (fun users => (f users, users)) s = (r, s') ->
  s'.1 = s.1 /\ ((exists e, r = Err (Sql e)) \/ r = f s.1).
Proof. intros [(e & -> & ->)|[= <- <-]]%users_query_inv; eauto. Qed.

Lemma on_script_inv {A : Type} (m : St Script A) s a s' : on_script m s = (a, s') -> s'.1 = s.1.
Proof. unfold on_script, focus. destruct (m s.2). by intros [= _ <-]. Qed.

Lemma try_bind_inv {S A B E : Type} (m : St S (result A E)) (k : A -> St S (result B E)) s r s' :
  try_bind m k s = (r, s') ->
  (exists e, m s = (Err e, s') /\ r = Err e) \/ exists a s1, m s = (Ok a, s1) /\ k a s1 = (r, s').
Proof.
  intros ([a|e] & s1 & Hm & Hk)%sbind_inv; [right; eauto|].
  left. injection Hk as <- <-. eauto.
Qed.

Section Facts.
Context `{H : PasswordHasher}.

Lemma verify_stored_true decoy password stored s s' :
  verify_stored decoy password stored s = (Ok true, s') -> blocking_verify password (default decoy stored) = true.
Proof.
  intros [(e & _ & ?)|(u & s1 & _ & Hk)]%try_bind_inv; [done|].
  apply sbind_inv in Hk as ([|] & s2 & _ & [=]). done.
Qed.

Lemma verify_password_inv decoy username password s r s' :
  verify_password decoy username password s = (r, s') ->
  s'.1 = s.1 /\
  (r = Ok true -> exists row, us_rows s.1 !! username = Some row /\
                    blocking_verify password (u_password_hash row) = true).
Proof.
  intros [(e & Hq & ->)|(stored & s1 & Hq & Hk)]%try_bind_inv.
  { apply query_read in Hq as [-> _]. done. }
  apply query_read in Hq as [Hs1 [[e ?]|[= Hstored]]]; [done|].
  apply try_bind_inv in Hk as [(e & Hv & ->)|(verified & s2 & Hv & Hr)].
  { apply on_script_inv in Hv. split; [congruence|done]. }
  pose proof (on_script_inv _ _ _ _ Hv) as Hs2. injection Hr as <- <-. split; [congruence|].
  intros [= [Hver Hknown]%andb_true_iff]. destruct stored as [hash|]; [|done].
  unfold on_script, focus in Hv. destruct (verify_stored decoy password (Some hash) s1.2) as [a sc] eqn:E.
  injection Hv as Ha _. rewrite Ha, Hver in E. apply verify_stored_true in E. cbn in E.
  destruct (us_rows s.1 !! username) as [row|]; [|done]. injection Hstored as ->. by exists row.
Qed.

Lemma totp_secret_inv username s r s' :
  totp_secret username s = (r, s') ->
  s'.1 = s.1 /\ forall o, r = Ok o -> o = (u ← us_rows s.1 !! username; u_totp_secret u).
Proof. intros [-> [[e ->]| ->]]%query_read; split; naive_solver. Qed.

Lemma user_count_inv s r s' :
  user_count s = (r, s') -> s'.1 = s.1 /\ forall n, r = Ok n -> n = size (us_rows s.1).
Proof. intros [-> [[e ->]| ->]]%query_read; split; naive_solver. Qed.

(** An UPDATE of one row: the table after it, and whether it took. *)
Lemma update_user_inv username guard set s r s' :
  query (update_user username guard set) s = (r, s') ->
  match r with
  | Ok true => exists u, us_rows s.1 !! username = Some u /\ guard u = true /\
      s'.1 = mkUsers (<[username := set u]> (us_rows s.1)) (us_sequence s.1)
  | _ => s'.1 = s.1
  end.
Proof.
  intros [(e & -> & ->)|Hu]%users_query_inv; [done|]. unfold update_user in Hu.
  destruct (us_rows s.1 !! username) as [u|] eqn:E; [|by injection Hu as <- <-].
  destruct (guard u) eqn:Hg; injection Hu as <- <-; eauto.
Qed.

Lemma hash_password_ok password s s' hash :
  on_script (hash_password password) s = (Ok hash, s') ->
  exists salt, hash_password_with_salt password salt = Ok hash.
Proof.
  unfold on_script, focus. destruct (hash_password password s.2) as [r sc] eqn:E. intros [= -> _].
  apply try_bind_inv in E as [(e & _ & ?)|(u & s1 & _ & E)]; [done|].
  apply sbind_inv in E as ([|] & s2 & _ & E); [|done].
  apply sbind_inv in E as (salt0 & s3 & _ & E). destruct salt0 as [salt|e]; injection E as E _; [|done].
  exists salt. destruct (hash_password_with_salt password salt); naive_solver.
Qed.

Lemma create_user_inv now username password s r s' :
  create_user now username password s = (r, s') ->
  match r with
  | Ok id => validate_username username = Ok (trim username) /\
      us_rows s.1 !! trim username = None /\ id = (us_sequence s.1 + 1)%Z /\
      exists hash salt, hash_password_with_salt password salt = Ok hash /\
        s'.1 = mkUsers (<[trim username := mkUser id hash now now None None]> (us_rows s.1)) id
  | Err _ => s'.1 = s.1
  end.
Proof.
  intros [(e & [= He <-] & ->)|(name & s1 & [= Hname <-] & Hk)]%try_bind_inv; [done|].
  apply try_bind_inv in Hk as [(e & [= He <-] & ->)|(u & s1 & [= Hu <-] & Hk)]; [done|].
  apply try_bind_inv in Hk as [(e & Hh & ->)|(hash & s1 & Hh & Hk)].
  { by apply on_script_inv in Hh. }
  pose proof (on_script_inv _ _ _ _ Hh) as Hs1. apply hash_password_ok in Hh as [salt Hsalt].
  assert (name = trim username) as ->.
  { unfold validate_username, validate_name in Hname. repeat case_match; naive_solver. }
  apply users_query_inv in Hk as [(e & -> & ->)|Hk]; [done|]. rewrite Hs1 in Hk. unfold insert_user in Hk.
  destruct (us_rows s.1 !! trim username) eqn:E; injection Hk as <- Hs'; [done|].
  split_and!; [done|done|done|]. exists hash, salt. by rewrite <- Hs'.
Qed.

End Facts.

(** ** Racing requests *)

(** Every method writes with one statement, so requests that interleave at their
    [await]s leave one sequence of these. *)
Inductive Write : Type :=
| WInsert (username hash : bytes) (now : Z)
| WPassword (username hash : bytes) (now : Z)
| WSecret (username : bytes) (secret : option bytes) (now : Z)
| WClaim (username : bytes) (step : Z).

Definition exec (w : Write) (users : Users) : bool * Users :=
  match w with
  | WInsert username hash now =>
      let '(r, users) := insert_user username hash now users in
      (match r with Ok _ => true | Err _ => false end, users)
  | WPassword username hash now =>
      let '(r, users) := update_user username (fun _ => true) (put_password hash now) users in
      (match r with Ok b => b | Err _ => false end, users)
  | WSecret username secret now =>
      let '(r, users) := update_user username (fun _ => true) (put_secret secret now) users in
      (match r with Ok b => b | Err _ => false end, users)
  | WClaim username step =>
      let '(r, users) := update_user username (step_unspent step) (put_step step) users in
      (match r with Ok b => b | Err _ => false end, users)
  end.

(** The steps of [username] that were accepted, in order. *)
Fixpoint spent (username : bytes) (users : Users) (ws : list Write) : list Z :=
  match ws with
  | [] => []
  | w :: ws =>
      let '(won, users') := exec w users in
      match w with
      | WClaim u step => if bool_decide (u = username) && won then step :: spent username users' ws
                         else spent username users' ws
      | _ => spent username users' ws
      end
  end.

Definition last_step (username : bytes) (users : Users) : option Z :=
  u ← us_rows users !! username; u_totp_last_step u.

(** Nothing but a claim of its own, or a new secret, moves an account's replay
    guard. *)
Lemma exec_last_step username w users :
  (forall secret now, w <> WSecret username secret now) ->
  (forall step, w <> WClaim username step) ->
  last_step username (exec w users).2 = last_step username users.
Proof.
  intros Hs Hc. unfold last_step.
  destruct w as [u hash now|u hash now|u secret now|u step]; cbn [exec]; unfold insert_user, update_user;
    destruct (us_rows users !! u) as [row|] eqn:E; try done;
    try (destruct (step_unspent step row); [|done]); cbn [us_rows fst snd];
    (destruct (decide (u = username)) as [->|Hne]; [|by rewrite lookup_insert_ne]);
    rewrite ?lookup_insert_eq, ?E; cbn; try done; exfalso; first [by eapply Hs|by eapply Hc].
Qed.

Lemma exec_claim username step users :
  let '(won, users') := exec (WClaim username step) users in
  if won then last_step username users' = Some step /\
              forall l, last_step username users = Some l -> (l < step)%Z
  else last_step username users' = last_step username users.
Proof.
  unfold last_step. cbn [exec]. unfold update_user.
  destruct (us_rows users !! username) as [row|] eqn:E; cbn [us_rows fst snd]; [|by rewrite E].
  unfold step_unspent. destruct (u_totp_last_step row) as [l|] eqn:El; cbn.
  - destruct (Z.ltb_spec l step); cbn; [|by rewrite ?E; cbn].
    rewrite lookup_insert_eq. cbn. rewrite El. split; [done|]. by intros ? [= <-].
  - rewrite lookup_insert_eq. cbn. by rewrite El.
Qed.

Lemma spent_above username users ws :
  (forall secret now, WSecret username secret now ∉ ws) ->
  StronglySorted Z.lt (spent username users ws) /\
  forall l, last_step username users = Some l -> Forall (Z.lt l) (spent username users ws).
Proof.
  revert users. induction ws as [|w ws IH]; intros users Hws; cbn [spent].
  { split; [constructor|done]. }
  destruct (exec w users) as [won users'] eqn:E.
  assert (forall secret now, WSecret username secret now ∉ ws) as Hws' by set_solver.
  destruct (IH users' Hws') as [Hsort Hall].
  assert (forall secret now, w <> WSecret username secret now) as Hw by set_solver.
  pose proof (exec_last_step username w users Hw) as Hkeep. rewrite E in Hkeep. cbn in Hkeep.
  destruct w as [u hash now|u hash now|u secret now|u step]; try (rewrite <- Hkeep by done; done).
  case_bool_decide as Hu; cbn [andb]; [subst u|rewrite <- Hkeep by congruence; done].
  pose proof (exec_claim username step users) as Hc. rewrite E in Hc.
  destruct won; [|by rewrite <- Hc]. destruct Hc as [Hnew Hold].
  specialize (Hall _ Hnew). split; [by constructor|]. intros l Hl. specialize (Hold l Hl).
  constructor; [done|]. eapply Forall_impl; [exact Hall|]. cbn. lia.
Qed.

(** A smooth run of [verify_password] answers for the stored hash alone. *)
Lemma verify_password_smooth `{H : PasswordHasher} decoy username password users entropy err :
  verify_password decoy username password (users, mkScript [] entropy err) =
  (Ok (match us_rows users !! username with
       | Some row => blocking_verify password (u_password_hash row)
       | None => false
       end), (users, mkScript [] entropy err)).
Proof.
  unfold verify_password, try_bind, sbind, query, on_script, focus, verify_stored, hash_slot, spawn_blocking, sret.
  cbn. destruct (us_rows users !! username) as [row|]; cbn; unfold try_bind, sbind; cbn;
    by rewrite ?andb_true_r, ?andb_false_r.
Qed.

(** ** Properties *)

(** A code is good once, however requests race.  In any sequence of writes to
    the accounts in which [username] is given no new secret, the steps claimed
    for it successfully are strictly increasing, and all later than the one on
    record: no step is accepted twice. *)
Theorem totp_step_claimed_once username users ws :
  (forall secret now, WSecret username secret now ∉ ws) ->
  StronglySorted Z.lt (spent username users ws) /\ NoDup (spent username users ws) /\
  forall l, last_step username users = Some l -> Forall (Z.lt l) (spent username users ws).
Proof.
  intros Hws. destruct (spent_above username users ws Hws) as [Hs Hl]. split_and!; [done| |done].
  clear Hl. induction Hs as [|x l Hs IH Hx]; constructor; [|done].
  intros Hin. rewrite Forall_forall in Hx. specialize (Hx x Hin). lia.
Qed.

Definition sample_users : Users :=
  mkUsers {[bs "op" := mkUser 1 (bs "#pw") 0 0 (Some (bs "GEZD")) (Some 40%Z)]} 1.

Lemma totp_step_claimed_once_witness :
  spent (bs "op") sample_users
    [WClaim (bs "op") 41; WClaim (bs "op") 41; WPassword (bs "op") (bs "#x") 9; WClaim (bs "op") 40;
     WClaim (bs "op") 43] = [41; 43]%Z /\
  NoDup (spent (bs "op") sample_users
    [WClaim (bs "op") 41; WClaim (bs "op") 41; WPassword (bs "op") (bs "#x") 9; WClaim (bs "op") 40;
     WClaim (bs "op") 43]).
Proof.
  split; [vm_compute; reflexivity|].
  apply (totp_step_claimed_once (bs "op") sample_users
    [WClaim (bs "op") 41; WClaim (bs "op") 41; WPassword (bs "op") (bs "#x") 9; WClaim (bs "op") 40;
     WClaim (bs "op") 43]).
  intros secret now Hin. repeat (apply elem_of_cons in Hin as [Hin|Hin]; [discriminate Hin|]).
  by apply elem_of_nil in Hin.
Defined.
