(* ===== verification/WebAccess.v ===== *)
(** * Who a request comes from (crates/sharerr/src/web/auth.rs, config.rs)

    Trusted proxies as address ranges, what is believed of the headers they
    forward, and the per-address throttle in front of the sign-in forms.  An
    [Instant] is a number of nanoseconds. *)

From S2P Require Import Prelude RustStd Text Bencode Metainfo Net Announce Totp.

(** ** Server configuration (crates/sharerr-core/src/config.rs) *)

Record IpRange : Type := mkIpRange { ir_network : IpAddr; ir_prefix : N }.

(** [u32::from(Ipv4Addr)] and [u128::from(Ipv6Addr)]. *)
Definition ip_bits (ip : IpAddr) : N :=
  match ip with
  | V4 a b c d => be 256 (vals [a; b; c; d])
  | V6 segs => be 65536 segs
  end.

(** [checked_shr(shift).unwrap_or(0)] on a [width]-bit integer. *)
Definition shr_or_zero (width n shift : N) : N := if (shift <? width)%N then N.shiftr n shift else 0.

Definition ip_contains (range : IpRange) (ip : IpAddr) : bool :=
  let same (width : N) (net ip : IpAddr) :=
    let shift := (width - ir_prefix range)%N in
    (shr_or_zero width (ip_bits net) shift =? shr_or_zero width (ip_bits ip) shift)%N in
  match ir_network range, to_canonical ip with
  | V4 _ _ _ _ as net, V4 _ _ _ _ as ip => same 32%N net ip
  | V6 _ as net, V6 _ as ip => same 128%N net ip
  | _, _ => false
  end.

Definition max_prefix (ip : IpAddr) : N := match ip with V4 _ _ _ _ => 32 | V6 _ => 128 end.

Inductive RangeError : Type := NotAnAddress (raw : bytes) | BadPrefix (raw : bytes) (max : N).

(** [FromStr for IpRange]. *)
Definition parse_range (raw : bytes) : result IpRange RangeError :=
  let '(addr, prefix) :=
    match split_once (fun b => bool_decide (b = "/"%byte)) (trim raw) with
    | Some (addr, prefix) => (addr, Some prefix)
    | None => (trim raw, None)
    end in
  let? network := ok_or (to_canonical <$> parse_ip addr) (NotAnAddress raw) in
  let max := max_prefix network in
  let? prefix :=
    match prefix with
    | None => Ok max
    | Some prefix =>
        ok_or (p ← parse_u 255 prefix; if (p <=? max)%N then Some p else None) (BadPrefix raw max)
    end in
  Ok (mkIpRange network prefix).

(** [Display for IpRange]. *)
Definition range_to_string (r : IpRange) : bytes :=
  if (ir_prefix r =? max_prefix (ir_network r))%N then ip_to_string (ir_network r)
  else ip_to_string (ir_network r) ++ bs "/" ++ u_to_string (ir_prefix r).

Record ServerConfig : Type := mkServer {
  sv_bind : SocketAddr;
  sv_security_headers : bool;
  sv_trusted_proxies : list IpRange;
  sv_auth_header : bytes
}.

Definition server_default : ServerConfig := mkServer (mkSocketAddr (V4 x00 x00 x00 x00) 8477) false [] [].

Definition trusts (server : ServerConfig) (ip : IpAddr) : bool :=
  existsb (fun range => ip_contains range ip) (sv_trusted_proxies server).

(** ** Headers *)

(** A request's headers: [get(name).and_then(|v| v.to_str().ok())], and
    [get_all(name)] with the values that are not text left out. *)
Record Headers : Type := mkHeaders { h_get : bytes -> option bytes; h_get_all : bytes -> list bytes }.

(** ** What forwarded headers say *)

Definition is_byte (c b : byte) : bool := bool_decide (b = c).

(** [first_hop]: the leftmost entry of a comma-separated chain, trimmed. *)
Definition first_hop (value : bytes) : bytes := trim (hd value (split_byte ","%byte value)).

Fixpoint find_map {A B : Type} (f : A -> option B) (l : list A) : option B :=
  match l with
  | [] => None
  | x :: l => match f x with Some y => Some y | None => find_map f l end
  end.

Definition forwarded_proto (element : bytes) : option bytes :=
  find_map (fun pair =>
    '(name, value) ← split_once (is_byte "="%byte) pair;
    if str_eq_ignore_ascii_case (trim name) (bs "proto")
    then Some (trim_matches (char_in [x22]) (trim value)) else None) (split_byte ";"%byte element).

Definition arrived_over_https (headers : Headers) : bool :=
  match h_get headers (bs "x-forwarded-proto") with
  | Some value => str_eq_ignore_ascii_case (first_hop value) (bs "https")
  | None =>
      match value ← h_get headers (bs "forwarded"); forwarded_proto (first_hop value) with
      | Some proto => str_eq_ignore_ascii_case proto (bs "https")
      | None => false
      end
  end.

(** The walk over the hops, nearest first. *)
Fixpoint walk_hops (server : ServerConfig) (client : IpAddr) (hops : list bytes) : IpAddr :=
  match hops with
  | [] => client
  | hop :: hops =>
      match parse_ip (trim hop) with
      | None => client
      | Some ip => if trusts server ip then walk_hops server ip hops else ip
      end
  end.

Definition client_address (server : ServerConfig) (peer : IpAddr) (headers : Headers) : IpAddr :=
  if negb (trusts server peer) then peer
  else
    let hops := flat_map (split_byte ","%byte) (h_get_all headers (bs "x-forwarded-for")) in
    walk_hops server peer (reverse hops).

Definition vouched_user (server : ServerConfig) (peer : option IpAddr) (headers : Headers) : option bytes :=
  if negb (is_nonempty (sv_auth_header server)) then None
  else
    peer ← peer;
    if negb (trusts server peer) then None
    else
      value ← h_get headers (sv_auth_header server);
      let name := trim value in
      if is_nonempty name then Some name else None.

(** ** The throttle *)

Record Bucket : Type := mkBucket { bk_spent : N; bk_window_started : Z }.

#[export] Program Instance IpAddr_countable : Countable IpAddr :=
  inj_countable
    (fun ip => match ip with V4 a b c d => inl (a, b, c, d) | V6 segs => inr segs end)
    (fun x => Some (match x with inl (a, b, c, d) => V4 a b c d | inr segs => V6 segs end)) _.
Next Obligation. by intros []. Qed.

Record Throttle : Type := mkThrottle {
  th_buckets : gmap IpAddr Bucket; th_max_attempts : N; th_window : Z
}.

Definition THROTTLE_MAX_ATTEMPTS : N := 5.
Definition THROTTLE_WINDOW : Z := 60 * SEC.

Definition throttle_default : Throttle := mkThrottle ∅ THROTTLE_MAX_ATTEMPTS THROTTLE_WINDOW.

(** [Instant::elapsed] and [duration_since], which stop at zero. *)
Definition since (now earlier : Z) : Z := Z.max 0 (now - earlier).

(** [Throttle::check]. *)
Definition throttle_check (now : Z) (ip : IpAddr) (t : Throttle) : result unit Z * Throttle :=
  let buckets := filter (fun kb => since now (bk_window_started kb.2) < th_window t)%Z (th_buckets t) in
  let bucket := default (mkBucket 0 now) (buckets !! ip) in
  let stored b := mkThrottle (<[ip := b]> buckets) (th_max_attempts t) (th_window t) in
  if (th_max_attempts t <=? bk_spent bucket)%N
  then (Err (Z.max 0 (th_window t - since now (bk_window_started bucket))), stored bucket)
  else (Ok tt, stored (mkBucket (bk_spent bucket + 1) (bk_window_started bucket))).

(** ** Runs of attempts *)

(** An attempt: when, and from which address. *)
Abbreviation attempt := (Z * IpAddr)%type.

Fixpoint after_attempts (t : Throttle) (run : list attempt) : Throttle :=
  match run with
  | [] => t
  | (now, a) :: run => after_attempts (throttle_check now a t).2 run
  end.

(** How many attempts of [ip] were let through. *)
Fixpoint accepted (ip : IpAddr) (t : Throttle) (run : list attempt) : N :=
  match run with
  | [] => 0
  | (now, a) :: run =>
      let '(r, t') := throttle_check now a t in
      ((match r with Ok _ => if bool_decide (a = ip) then 1 else 0 | Err _ => 0 end) + accepted ip t' run)%N
  end.

(** Clock readings never go back. *)
Fixpoint times_from (t : Z) (run : list attempt) : Prop :=
  match run with
  | [] => True
  | (now, _) :: run => (t <= now)%Z /\ times_from now run
  end.

(** The bucket of [ip], if its window is still open at [now]. *)
Definition live_bucket (now : Z) (ip : IpAddr) (t : Throttle) : option Bucket :=
  b ← th_buckets t !! ip; if (since now (bk_window_started b) <? th_window t)%Z then Some b else None.

Lemma throttle_params now a t :
  th_max_attempts (throttle_check now a t).2 = th_max_attempts t /\
  th_window (throttle_check now a t).2 = th_window t.
Proof. unfold throttle_check. by case_match. Qed.

Lemma live_filter now ip t :
  filter (fun kb => since now (bk_window_started kb.2) < th_window t)%Z (th_buckets t) !! ip
  = live_bucket now ip t.
Proof.
  unfold live_bucket. rewrite map_lookup_filter. destruct (th_buckets t !! ip) as [b|]; [|done]. cbn.
  case_guard; destruct (Z.ltb_spec (since now (bk_window_started b)) (th_window t)); try done; cbn in *; lia.
Qed.

(** The answer, and the bucket it leaves. *)
Lemma throttle_check_eq now ip t :
  let b := default (mkBucket 0 now) (live_bucket now ip t) in
  let t' := (throttle_check now ip t).2 in
  if (th_max_attempts t <=? bk_spent b)%N
  then (throttle_check now ip t).1 = Err (Z.max 0 (th_window t - since now (bk_window_started b))) /\
       th_buckets t' !! ip = Some b
  else (throttle_check now ip t).1 = Ok tt /\
       th_buckets t' !! ip = Some (mkBucket (bk_spent b + 1) (bk_window_started b)).
Proof.
  unfold throttle_check. rewrite live_filter. destruct (live_bucket now ip t) as [b|]; cbn;
    case_match; cbn; by rewrite lookup_insert_eq.
Qed.

Lemma throttle_check_other now a ip t :
  a <> ip -> th_buckets (throttle_check now a t).2 !! ip = live_bucket now ip t.
Proof.
  intros Hne. unfold throttle_check. rewrite !live_filter.
  case_match; cbn; rewrite lookup_insert_ne by done; apply live_filter.
Qed.

(** While its window is open, a bucket keeps its start and only fills up, one
    attempt at a time. *)
Lemma window_bound ip run t s k :
  th_buckets t !! ip = Some (mkBucket k s) -> (k <= th_max_attempts t)%N ->
  Forall (fun at_ : attempt => s <= at_.1 < s + th_window t)%Z run ->
  (accepted ip t run <= th_max_attempts t - k)%N.
Proof.
  revert t k. induction run as [|[now a] run IH]; intros t k Hb Hk Hrun; cbn [accepted]; [lia|].
  apply Forall_cons in Hrun as [Hnow Hrun]. cbn in Hnow.
  assert (live_bucket now ip t = Some (mkBucket k s)) as Hlive.
  { unfold live_bucket. rewrite Hb. cbn. unfold since. destruct (Z.ltb_spec (Z.max 0 (now - s)) (th_window t)); [done|lia]. }
  destruct (throttle_params now a t) as [Hmax Hwin].
  destruct (throttle_check now a t) as [r t'] eqn:E. cbn in Hmax, Hwin.
  assert (Forall (fun at_ : attempt => s <= at_.1 < s + th_window t')%Z run) as Hrun' by by rewrite Hwin.
  case_bool_decide as Ha; [subst a|].
  - pose proof (throttle_check_eq now ip t) as Hc. rewrite Hlive, E in Hc. cbn in Hc.
    destruct (N.leb_spec (th_max_attempts t) k) as [Hfull|Hroom]; destruct Hc as [-> Hb'].
    + specialize (IH t' k Hb'). rewrite Hmax in IH. specialize (IH Hk Hrun'). lia.
    + specialize (IH t' (k + 1)%N Hb'). rewrite Hmax in IH. specialize (IH ltac:(lia) Hrun'). lia.
  - pose proof (throttle_check_other now a ip t Ha) as Ho. rewrite E, Hlive in Ho. cbn in Ho.
    specialize (IH t' k Ho). rewrite Hmax in IH. specialize (IH Hk Hrun'). destruct r; lia.
Qed.

(** No bucket holds more than the budget. *)
Definition throttle_wf (t : Throttle) : Prop :=
  forall ip b, th_buckets t !! ip = Some b -> (bk_spent b <= th_max_attempts t)%N.

Lemma live_bucket_Some now ip t b : live_bucket now ip t = Some b -> th_buckets t !! ip = Some b.
Proof. unfold live_bucket. destruct (th_buckets t !! ip); cbn; [|done]. case_match; naive_solver. Qed.

Lemma throttle_check_wf now a t : throttle_wf t -> throttle_wf (throttle_check now a t).2.
Proof.
  intros Hwf ip b Hb. destruct (throttle_params now a t) as [-> _].
  destruct (decide (a = ip)) as [->|Hne].
  - pose proof (throttle_check_eq now ip t) as Hc.
    assert (bk_spent (default (mkBucket 0 now) (live_bucket now ip t)) <= th_max_attempts t)%N as Hs.
    { destruct (live_bucket now ip t) as [b'|] eqn:E; cbn; [|lia]. eapply Hwf, live_bucket_Some, E. }
    cbn in Hc. destruct (N.leb_spec (th_max_attempts t) (bk_spent (default (mkBucket 0 now) (live_bucket now ip t))));
      destruct Hc as [_ Hc]; rewrite Hc in Hb; injection Hb as <-; cbn; lia.
  - rewrite throttle_check_other in Hb by done. eapply Hwf, live_bucket_Some, Hb.
Qed.

(** Over one window's length of time at most two windows are open. *)
Lemma interval_bound ip run t0 now t :
  throttle_wf t -> times_from now run -> (t0 <= now)%Z ->
  Forall (fun at_ : attempt => at_.1 < t0 + th_window t)%Z run ->
  (accepted ip t run <=
   th_max_attempts t + match th_buckets t !! ip with Some b => th_max_attempts t - bk_spent b | None => 0 end)%N.
Proof.
  revert now t. induction run as [|[now' a] run IH]; intros now t Hwf Hmono Hle Hrun; cbn [accepted]; [lia|].
  destruct Hmono as [Hnow Hmono]. apply Forall_cons in Hrun as [Hlt Hrun]. cbn in Hlt.
  pose proof (throttle_check_wf now' a t Hwf) as Hwf'.
  destruct (throttle_params now' a t) as [Hmax Hwin].
  destruct (throttle_check now' a t) as [r t'] eqn:E. cbn in Hmax, Hwin, Hwf'.
  assert (Forall (fun at_ : attempt => at_.1 < t0 + th_window t')%Z run) as Hrun' by by rewrite Hwin.
  pose proof (IH now' t' Hwf' Hmono ltac:(lia) Hrun') as Hrest. rewrite Hmax in Hrest.
  destruct (decide (a = ip)) as [->|Hne].
  - rewrite bool_decide_true by done. pose proof (throttle_check_eq now' ip t) as Hc. rewrite E in Hc. cbn in Hc.
    destruct (live_bucket now' ip t) as [b|] eqn:El.
    + apply live_bucket_Some in El as Hb. rewrite Hb. cbn in Hc. pose proof (Hwf _ _ Hb).
      destruct (N.leb_spec (th_max_attempts t) (bk_spent b)); destruct Hc as [-> Hc]; rewrite Hc in Hrest; cbn in Hrest; lia.
    + assert (forall k, th_buckets t' !! ip = Some (mkBucket k now') -> (k <= th_max_attempts t)%N ->
        (accepted ip t' run <= th_max_attempts t - k)%N) as Hw.
      { intros k Hb' Hk. rewrite <- Hmax. apply window_bound with now'; [done|by rewrite Hmax|].
        apply Forall_forall. intros at_ Hin. rewrite Forall_forall in Hrun'.
        specialize (Hrun' at_ Hin). split; [|lia].
        clear -Hmono Hin. revert now' Hmono. induction run as [|[n b] run IH]; intros now' Hmono; [by apply elem_of_nil in Hin|].
        destruct Hmono as [Hle Hmono]. apply elem_of_cons in Hin as [->|Hin]; [done|]. specialize (IH Hin n Hmono). lia. }
      cbn in Hc. destruct (N.leb_spec (th_max_attempts t) 0); destruct Hc as [-> Hc];
        specialize (Hw _ Hc ltac:(lia)); lia.
  - rewrite bool_decide_false by done. pose proof (throttle_check_other now' a ip t Hne) as Ho. rewrite E in Ho. cbn in Ho.
    rewrite Ho in Hrest. destruct (live_bucket now' ip t) as [b|] eqn:El.
    + apply live_bucket_Some in El as ->. destruct r; lia.
    + destruct r; lia.
Qed.

(** A spent bucket is left alone until its window closes. *)
Lemma refused_frozen ip run t b :
  th_buckets t !! ip = Some b -> (th_max_attempts t <= bk_spent b)%N ->
  Forall (fun at_ : attempt => bk_window_started b <= at_.1 < bk_window_started b + th_window t)%Z run ->
  th_buckets (after_attempts t run) !! ip = Some b /\ th_window (after_attempts t run) = th_window t /\
  th_max_attempts (after_attempts t run) = th_max_attempts t.
Proof.
  revert t. induction run as [|[now a] run IH]; intros t Hb Hfull Hrun; cbn [after_attempts]; [done|].
  apply Forall_cons in Hrun as [Hnow Hrun]. cbn in Hnow.
  assert (live_bucket now ip t = Some b) as Hlive.
  { unfold live_bucket. rewrite Hb. cbn. unfold since.
    destruct (Z.ltb_spec (Z.max 0 (now - bk_window_started b)) (th_window t)); [done|lia]. }
  destruct (throttle_params now a t) as [Hmax Hwin]. rewrite <- Hmax, <- Hwin. apply IH.
  - destruct (decide (a = ip)) as [->|Hne]; [|by rewrite throttle_check_other].
    pose proof (throttle_check_eq now ip t) as Hc. rewrite Hlive in Hc. cbn in Hc.
    apply N.leb_le in Hfull as Hfb. rewrite Hfb in Hc. by destruct Hc.
  - by rewrite Hmax.
  - by rewrite Hwin.
Qed.

(** ** Addresses and ranges *)

Lemma shr_or_zero_div width n shift :
  (n < 2 ^ width)%N -> shr_or_zero width n shift = (n / 2 ^ shift)%N.
Proof.
  intros Hn. unfold shr_or_zero. destruct (N.ltb_spec shift width); [apply N.shiftr_div_pow2|].
  symmetry. apply N.div_small. eapply N.lt_le_trans; [exact Hn|]. apply N.pow_le_mono_r; lia.
Qed.

Definition ip_width (ip : IpAddr) : N := match ip with V4 _ _ _ _ => 32 | V6 _ => 128 end.

Definition same_family (a b : IpAddr) : Prop := ip_width a = ip_width b.

Lemma ip_bits_lt ip : ip_wf ip -> (ip_bits ip < 2 ^ ip_width ip)%N.
Proof.
  destruct ip as [a b c d|segs]; cbn [ip_wf ip_bits ip_width].
  - intros _. exact (be_lt 256 (vals [a; b; c; d]) (vals_lt _)).
  - intros [Hlen Hs]. assert (be 65536 segs < 65536 ^ N.of_nat (length segs))%N as Hlt.
    { apply be_lt. eapply Forall_impl; [exact Hs|]. unfold u16_max. cbn. lia. }
    rewrite Hlen in Hlt. exact Hlt.
Qed.

Lemma to_canonical_wf ip : ip_wf ip -> ip_wf (to_canonical ip).
Proof. destruct ip as [|segs]; [done|]. intros Hwf. unfold to_canonical. by repeat case_match. Qed.

Lemma read_number_le radix max digits zero s n rest :
  read_number radix max digits zero s = Some (n, rest) -> (n <= max)%N.
Proof.
  unfold read_number. destruct (read_digits radix 0 0 s) as [[v count] r].
  do 2 (case_decide; [done|]). destruct (_ && _); [done|].
  destruct (N.leb_spec v max); [|done]. by intros [= <- _].
Qed.

Lemma u16_of_be_le a b : (u16_of_be a b <= 65535)%N.
Proof. unfold u16_of_be. pose proof (byte_val_lt a). pose proof (byte_val_lt b). lia. Qed.

Lemma read_groups_wf left i s :
  let gs := (read_groups left i s).1.1 in length gs <= left /\ Forall (fun g => (g <= u16_max)%N) gs.
Proof.
  revert i s. induction left as [|left IH]; intros i s; [by split|]. cbn [read_groups].
  assert (let gs := (match read_separator ":"%byte i (read_number 16 65535 4 true) s with
      | Some (g, s') => let '(gs, v4, rest) := read_groups left (S i) s' in (g :: gs, v4, rest)
      | None => ([], false, s) end).1.1 in length gs <= S left /\ Forall (fun g => (g <= u16_max)%N) gs) as Hgroup.
  { destruct (read_separator _ i _ s) as [[g s']|] eqn:E; [|split; [cbn; lia|constructor]].
    specialize (IH (S i) s'). destruct (read_groups left (S i) s') as [[gs v4] rest]. cbn in *.
    destruct IH as [Hl Hf]. split; [lia|]. constructor; [|done].
    destruct i; cbn in E; [by eapply read_number_le in E|].
    destruct (read_given_char ":"%byte s); [|done]. by eapply read_number_le in E. }
  destruct left as [|left]; [exact Hgroup|].
  destruct (read_separator ":"%byte i read_ipv4 s) as [[v4 s']|]; [|exact Hgroup].
  do 4 (destruct v4 as [|? v4]; [exact Hgroup|]). destruct v4; [|exact Hgroup]. cbn.
  split; [lia|]. repeat constructor; apply u16_of_be_le.
Qed.

Lemma read_ipv6_wf s segs rest : read_ipv6 s = Some (segs, rest) -> ip_wf (V6 segs).
Proof.
  unfold read_ipv6. pose proof (read_groups_wf 8 0 s) as Hh.
  destruct (read_groups 8 0 s) as [[head v4] r0]. cbn in Hh. destruct Hh as [Hl Hf].
  case_decide as Hlen; [intros [= <- <-]; by split|]. destruct v4; [done|].
  destruct (read_given_char ":"%byte r0) as [r1|]; cbn; [|done].
  destruct (read_given_char ":"%byte r1) as [r2|]; cbn; [|done].
  pose proof (read_groups_wf (8 - (length head + 1)) 0 r2) as Ht.
  change (match length head + 1 with 0 => 8 | S l => 7 - l end) with (8 - (length head + 1)).
  destruct (read_groups (8 - (length head + 1)) 0 r2) as [[tail v4] r3]. cbn in Ht. destruct Ht as [Htl Htf].
  intros [= <- <-]. split.
  - rewrite !length_app, length_replicate. lia.
  - apply Forall_app. split; [done|]. apply Forall_app. split; [|done]. apply Forall_replicate. unfold u16_max. lia.
Qed.

Lemma parse_ip_wf s ip : parse_ip s = Some ip -> ip_wf ip.
Proof.
  unfold parse_ip. intros Hp.
  assert (forall o, match o with Some (segs, []) => Some (V6 segs) | _ => None end = Some ip ->
    o = read_ipv6 s -> ip_wf ip) as H6.
  { intros [[segs [|]]|] [=] Ho; subst. by eapply read_ipv6_wf. }
  destruct (read_ipv4 s) as [[v4 rest]|]; [|by eapply H6].
  do 4 (destruct v4 as [|? v4]; [by eapply H6|]). destruct v4; [|by eapply H6].
  destruct rest; [|done]. by injection Hp as <-.
Qed.

Lemma max_prefix_width ip : max_prefix ip = ip_width ip.
Proof. by destruct ip. Qed.

Lemma parse_range_wf raw r :
  parse_range raw = Ok r -> ip_wf (ir_network r) /\ (ir_prefix r <= ip_width (ir_network r))%N.
Proof.
  unfold parse_range. destruct (match split_once _ _ with Some _ => _ | None => _ end) as [addr prefix].
  intros (net & Hnet%ok_or_Ok & Hr)%rbind_Ok. apply rbind_Ok in Hr as (p & Hp & [= <-]). cbn.
  destruct (parse_ip addr) as [ip|] eqn:Eip; [|done]. injection Hnet as <-.
  split; [by eapply to_canonical_wf, parse_ip_wf|]. rewrite max_prefix_width in Hp.
  destruct prefix as [prefix|]; [|by injection Hp as <-]. apply ok_or_Ok in Hp.
  destruct (parse_u 255 prefix) as [q|]; cbn in Hp; [|done].
  destruct (N.leb_spec q (ip_width (to_canonical ip))); [|done]. by injection Hp as <-.
Qed.

(** Equal quotients are a shared aligned block. *)
Lemma block_div n m size :
  (size <> 0 -> (n / size = m / size <-> m / size * size <= n < m / size * size + size))%N.
Proof.
  intros Hs. pose proof (N.div_mod n size Hs). pose proof (N.mod_lt n size Hs). split.
  - intros <-. generalize dependent (n / size)%N. generalize dependent (n mod size)%N. intros. nia.
  - intros [Hlo Hhi]. symmetry. generalize dependent (m / size)%N. intros q Hlo Hhi.
    apply (N.div_unique n size q (n - q * size)); nia.
Qed.

(** ** Hops *)

(** Hops that each name a trusted proxy are walked past. *)
Lemma walk_trusted server client hops ips rest :
  mapM (fun hop => parse_ip (trim hop)) hops = Some ips -> Forall (fun ip => trusts server ip = true) ips ->
  walk_hops server client (hops ++ rest) = walk_hops server (List.last ips client) rest.
Proof.
  revert client ips. induction hops as [|hop hops IH]; intros client ips Hm Ht.
  { injection Hm as <-. done. }
  cbn [mapM mbind] in Hm. cbn in Hm. destruct (parse_ip (trim hop)) as [ip|] eqn:Eip; [|done]. cbn in Hm.
  destruct (mapM _ hops) as [ips'|] eqn:Em; [|done]. injection Hm as <-.
  apply Forall_cons in Ht as [Hip Ht]. cbn [app walk_hops]. rewrite Eip, Hip, (IH ip ips' eq_refl Ht).
  f_equal. clear. revert ip. induction ips' as [|i ips' IH]; intros ip; [done|]. cbn [List.last].
  destruct ips'; [done|]. cbn [List.last] in *. by destruct ips'.
Qed.

(** ** Properties *)

(** The throttle's bound.  However attempts from all addresses interleave, in
    any stretch of time no longer than the window at most twice the budget of
    one address is let through, and from a fresh window at most the budget
    itself. *)
Theorem throttle_bounds ip run t0 now t :
  throttle_wf t -> times_from now run -> (t0 <= now)%Z ->
  Forall (fun at_ : attempt => at_.1 < t0 + th_window t)%Z run ->
  (accepted ip t run <= 2 * th_max_attempts t)%N /\
  (th_buckets t !! ip = None -> accepted ip t run <= th_max_attempts t)%N.
Proof.
  intros Hwf Hmono Hle Hrun. pose proof (interval_bound ip run t0 now t Hwf Hmono Hle Hrun) as Hb. split.
  - destruct (th_buckets t !! ip); lia.
  - intros Hn. rewrite Hn in Hb. lia.
Qed.

Definition burst : list attempt := replicate 9 (70 * SEC, V4 x0a x00 x00 x02)%Z.

Lemma throttle_bounds_witness :
  accepted (V4 x0a x00 x00 x02) throttle_default burst = 5%N /\
  (accepted (V4 x0a x00 x00 x02) throttle_default burst <= 10)%N.
Proof.
  split; [vm_compute; reflexivity|].
  apply (throttle_bounds (V4 x0a x00 x00 x02) burst (70 * SEC) (70 * SEC) throttle_default).
  - intros ip b Hb. discriminate Hb.
  - vm_compute. repeat split; discriminate.
  - lia.
  - repeat constructor.
Defined.

(** C34: throttled, never locked out.  A refused address is told to wait at most a
    window; whatever it or anyone else tries before that time is up, its next
    attempt after it is let through. *)
Theorem throttle_never_locks_out ip now t retry run later :
  (0 < th_max_attempts t)%N ->
  (forall b, th_buckets t !! ip = Some b -> bk_window_started b <= now)%Z ->
  (throttle_check now ip t).1 = Err retry ->
  Forall (fun at_ : attempt => now <= at_.1 < now + retry)%Z run -> (now + retry <= later)%Z ->
  (0 < retry <= th_window t)%Z /\
  (throttle_check later ip (after_attempts (throttle_check now ip t).2 run)).1 = Ok tt.
Proof.
  intros Hmax Hstart Herr Hrun Hlater.
  pose proof (throttle_check_eq now ip t) as Hc. cbn in Hc.
  destruct (live_bucket now ip t) as [b|] eqn:El.
  2:{ cbn in Hc. destruct (N.leb_spec (th_max_attempts t) 0); [lia|]. destruct Hc as [Hc _]. congruence. }
  cbn in Hc. destruct (N.leb_spec (th_max_attempts t) (bk_spent b)) as [Hfull|]; [|destruct Hc; congruence].
  destruct Hc as [Hc Hb']. rewrite Herr in Hc. injection Hc as ->.
  specialize (Hstart b (live_bucket_Some _ _ _ _ El)).
  assert (since now (bk_window_started b) < th_window t)%Z as Hopen.
  { unfold live_bucket in El. destruct (th_buckets t !! ip) as [b0|]; [|done]. cbn in El.
    destruct (Z.ltb_spec (since now (bk_window_started b0)) (th_window t)); [|done]. by injection El as <-. }
  unfold since in *. split; [lia|].
  destruct (throttle_params now ip t) as [Hm Hw].
  destruct (refused_frozen ip run (throttle_check now ip t).2 b Hb') as (Hb2 & Hw2 & Hm2).
  { by rewrite Hm. }
  { eapply Forall_impl; [exact Hrun|]. cbn. rewrite Hw. lia. }
  set (t2 := after_attempts _ run) in *.
  assert (live_bucket later ip t2 = None) as Hdead.
  { unfold live_bucket. rewrite Hb2, Hw2, Hw. cbn. unfold since.
    destruct (Z.ltb_spec (Z.max 0 (later - bk_window_started b)) (th_window t)); [lia|done]. }
  pose proof (throttle_check_eq later ip t2) as Hc. rewrite Hdead, Hm2, Hm in Hc. cbn in Hc.
  destruct (N.leb_spec (th_max_attempts t) 0); [lia|]. by destruct Hc.
Qed.

Lemma throttle_never_locks_out_witness :
  (throttle_check (130 * SEC) (V4 x0a x00 x00 x02)
     (after_attempts (throttle_check (80 * SEC) (V4 x0a x00 x00 x02) (after_attempts throttle_default burst)).2
        [(81 * SEC, V4 x0a x00 x00 x02)]%Z)).1 = Ok tt.
Proof.
  apply (throttle_never_locks_out (V4 x0a x00 x00 x02) (80 * SEC) (after_attempts throttle_default burst)
    (50 * SEC) [(81 * SEC, V4 x0a x00 x00 x02)]%Z (130 * SEC)).
  - vm_compute. reflexivity.
  - intros b Hb. vm_compute in Hb. injection Hb as <-. vm_compute. discriminate.
  - vm_compute. reflexivity.
  - repeat constructor; vm_compute; (discriminate || reflexivity).
  - vm_compute. discriminate.
Defined.

(** What a forged chain is worth.  When the connection is a trusted proxy, the
    address a request is throttled as is the nearest hop that is not trusted,
    whatever stands to the left of it: only hops that trusted proxies wrote
    count. *)
Theorem forged_hops_ignored server peer headers forged hop ip hops ips :
  trusts server peer = true ->
  flat_map (split_byte ","%byte) (h_get_all headers (bs "x-forwarded-for")) = forged ++ hop :: hops ->
  parse_ip (trim hop) = Some ip -> trusts server ip = false ->
  mapM (fun h => parse_ip (trim h)) (reverse hops) = Some ips -> Forall (fun i => trusts server i = true) ips ->
  client_address server peer headers = ip.
Proof.
  intros Hpeer Hhops Hip Hun Hm Ht. unfold client_address. rewrite Hpeer. cbn [negb]. rewrite Hhops.
  rewrite reverse_app, reverse_cons, <- app_assoc.
  rewrite (walk_trusted server peer (reverse hops) ips _ Hm Ht). cbn [app walk_hops]. by rewrite Hip, Hun.
Qed.

Definition sample_server : ServerConfig :=
  mkServer (sv_bind server_default) false [mkIpRange (V4 xac x12 x00 x00) 16] (bs "remote-user").

Definition forwarded_for (value : bytes) : Headers :=
  mkHeaders (fun _ => None) (fun name => if bool_decide (name = bs "x-forwarded-for") then [value] else []).

Lemma forged_hops_ignored_witness :
  client_address sample_server (V4 xac x12 x00 x03) (forwarded_for (bs "1.1.1.1, 203.0.113.7, 172.18.0.9"))
  = V4 xcb x00 x71 x07.
Proof.
  apply (forged_hops_ignored sample_server (V4 xac x12 x00 x03)
    (forwarded_for (bs "1.1.1.1, 203.0.113.7, 172.18.0.9")) [bs "1.1.1.1"] (bs " 203.0.113.7")
    (V4 xcb x00 x71 x07) [bs " 172.18.0.9"] [V4 xac x12 x00 x09]); try (vm_compute; reflexivity).
  repeat constructor.
Defined.

(** A range is an interval of addresses.  Every text that parses as a range
    gives one that contains exactly the addresses of its family (an IPv4-mapped
    one counting as IPv4) whose number lies in the aligned block of
    [2 ^ (width - prefix)] around the network's. *)
Theorem range_is_block raw r ip :
  parse_range raw = Ok r -> ip_wf ip ->
  let c := to_canonical ip in
  let size := (2 ^ (ip_width (ir_network r) - ir_prefix r))%N in
  let base := (ip_bits (ir_network r) / size * size)%N in
  (ir_prefix r <= ip_width (ir_network r))%N /\
  (ip_contains r ip = true <-> same_family (ir_network r) c /\ (base <= ip_bits c < base + size)%N).
Proof.
  intros [Hwf Hp]%parse_range_wf Hip c size base. split; [done|].
  assert (forall n, (n / size = ip_bits (ir_network r) / size <-> base <= n < base + size)%N) as Hblock.
  { intros n. by apply block_div, N.pow_nonzero. }
  pose proof (ip_bits_lt _ Hwf) as Hn. pose proof (ip_bits_lt _ (to_canonical_wf ip Hip)) as Hc. fold c in Hc.
  unfold ip_contains. fold c. unfold same_family.
  destruct (ir_network r) as [n1 n2 n3 n4|nsegs] eqn:En, c as [c1 c2 c3 c4|csegs] eqn:Ec; cbn [ip_width] in *;
    try (split; [done|intros [? _]; done]);
    rewrite N.eqb_eq, !shr_or_zero_div by done;
    (split; [intros Heq; split; [done|]; by apply Hblock|intros [_ Heq%Hblock]; by symmetry]).
Qed.

Lemma range_is_block_witness :
  ip_contains (mkIpRange (V4 x0a x00 x00 x00) 8) (V6 [0; 0; 0; 0; 0; 65535; 2560; 7]%N) = true.
Proof.
  refine (proj2 (proj2 (range_is_block (bs "10.0.0.0/8") (mkIpRange (V4 x0a x00 x00 x00) 8)
    (V6 [0; 0; 0; 0; 0; 65535; 2560; 7]%N) _ _)) _).
  - vm_compute. reflexivity.
  - split; [reflexivity|]. repeat constructor; discriminate.
  - vm_compute. split; [reflexivity|split; [discriminate|reflexivity]].
Defined.
