(* ===== verification/SignIn.v ===== *)
(** * Signing in to the web UI (crates/sharerr/src/web/auth.rs, two_factor.rs)

    The session table, the parked sign-ins that wait for a code, and the whole
    handlers of setup, login, the code step, logout, password change and two-step enrolment.
    Each handler reads the clock once; an [Instant] is a number of nanoseconds. *)

From S2P Require Import Prelude RustStd Text Bencode Metainfo Net Announce Totp Effects Accounts WebAccess.

(** ** Requests and responses *)

Record Cookie : Type := mkCookie {
  ck_name : bytes; ck_value : bytes; ck_path : bytes;
  ck_http_only : bool; ck_same_site_strict : bool; ck_secure : bool; ck_max_age : option Z
}.

Inductive JarChange : Type := AddCookie (c : Cookie) | RemoveCookie (c : Cookie).

Inductive Body : Type :=
| RedirectTo (location : bytes)
| PlainText (message : bytes)
| TooMany (retry_after_secs : Z)
| StoreFailure (what : bytes) (err : StoreError)
| SetupPage (username : bytes) (error : option bytes)
| LoginPage (username : bytes) (error : option bytes)
| TotpLoginPage (error : option bytes)
| TotpPage (username : bytes) (enabled : bool) (secret qr_svg uri : bytes) (saved error : option bytes)
| SettingsPage (error : option bytes).

Record Response : Type := mkHttp { rs_status : N; rs_body : Body; rs_jar : list JarChange }.

Definition redirect_to (location : bytes) : Response := mkHttp 303 (RedirectTo location) [].
Definition rendered (body : Body) : Response := mkHttp 200 body [].
Definition with_status (status : N) (r : Response) : Response := mkHttp status (rs_body r) (rs_jar r).
Definition with_jar (jar : list JarChange) (r : Response) : Response :=
  mkHttp (rs_status r) (rs_body r) (jar ++ rs_jar r).

Definition internal (message : bytes) : Response := mkHttp 500 (PlainText message) [].
Definition unavailable (reason : bytes) : Response := mkHttp 503 (PlainText reason) [].
Definition too_busy : Response :=
  mkHttp 503 (PlainText (bs "Too many password checks in flight right now. Try again shortly.")) [].
(** [internal(&format!("{what}: {err}"))]. *)
Definition store_failed (what : bytes) (err : StoreError) : Response := mkHttp 500 (StoreFailure what err) [].
(** [settings::reject]. *)
Definition settings_error (message : bytes) : Response :=
  with_status 400 (rendered (SettingsPage (Some message))).

Definition COOKIE_NAME : bytes := bs "sharerr_session".
Definition PENDING_COOKIE : bytes := bs "sharerr_pending".
Definition SESSION_TTL : Z := 14 * 24 * 60 * 60 * SEC.
Definition PENDING_TTL : Z := 5 * 60 * SEC.
Definition PENDING_FAILURES : N := 5.
Definition MIN_PASSWORD_LEN : nat := 8.

Definition base_cookie (name token path : bytes) (secure : bool) : Cookie :=
  mkCookie name token path true true secure None.
Definition session_cookie (token : bytes) (secure : bool) : Cookie :=
  base_cookie COOKIE_NAME token (bs "/") secure.
Definition pending_cookie (token : bytes) (secure : bool) : Cookie :=
  let c := base_cookie PENDING_COOKIE token (bs "/login") secure in
  mkCookie (ck_name c) (ck_value c) (ck_path c) (ck_http_only c) (ck_same_site_strict c) (ck_secure c)
    (Some (PENDING_TTL / SEC)%Z).

(** ** Requests from other sites *)

(** [str::split_once] on a string. *)
Fixpoint split_once_str (needle s : bytes) : option (bytes * bytes) :=
  if starts_with needle s then Some ([], drop (length needle) s)
  else match s with
       | [] => None
       | b :: r => '(before, after) ← split_once_str needle r; Some (b :: before, after)
       end.

Definition trim_end_matches (c : byte) (s : bytes) : bytes := reverse (drop_while (is_byte c) (reverse s)).

Definition cross_origin_refusal (headers : Headers) : option Response :=
  origin ← h_get headers (bs "origin");
  match h_get headers (bs "host") with
  | None => Some (internal (bs "request has an Origin but no Host"))
  | Some host =>
      let authority := match split_once_str (bs "://") origin with Some (_, rest) => rest | None => origin end in
      if bool_decide (trim_end_matches "/"%byte authority = host) then None
      else Some (mkHttp 403 (PlainText (bs "This form was submitted from another site.")) [])
  end.

(** ** The state of the UI *)

Record Session : Type := mkSession { ss_username : bytes; ss_last_seen : Z }.

Record Pending : Type := mkPending { pd_username : bytes; pd_created : Z; pd_failures : N }.

Record Sessions : Type := mkSessions { se_inner : gmap bytes Session; se_pending : gmap bytes Pending }.

(** What the handlers share, with the database and the outside world. *)
Record Web : Type := mkWeb {
  wb_users : Users;
  wb_script : Script;
  wb_sessions : Sessions;
  wb_throttle : Throttle;
  wb_server : ServerConfig;
  wb_decoy : bytes
}.

Abbreviation WebM := (St Web).

Definition on_store {A : Type} (m : StoreM A) : WebM A :=
  focus (fun w => (wb_users w, wb_script w))
    (fun p w => mkWeb p.1 p.2 (wb_sessions w) (wb_throttle w) (wb_server w) (wb_decoy w)) m.

Definition on_entropy {A : Type} (m : St Script A) : WebM A := on_store (on_script m).

Definition on_sessions {A : Type} (m : St Sessions A) : WebM A :=
  focus wb_sessions
    (fun s w => mkWeb (wb_users w) (wb_script w) s (wb_throttle w) (wb_server w) (wb_decoy w)) m.

Definition on_throttle {A : Type} (m : St Throttle A) : WebM A :=
  focus wb_throttle
    (fun t w => mkWeb (wb_users w) (wb_script w) (wb_sessions w) t (wb_server w) (wb_decoy w)) m.

(** ** Sessions *)

Definition set_inner (f : gmap bytes Session -> gmap bytes Session) (s : Sessions) : Sessions :=
  mkSessions (f (se_inner s)) (se_pending s).
Definition set_pending (f : gmap bytes Pending -> gmap bytes Pending) (s : Sessions) : Sessions :=
  mkSessions (se_inner s) (f (se_pending s)).

(** The table part of [Sessions::create], under its lock. *)
Definition insert_session (now : Z) (username token : bytes) : Sessions -> Sessions :=
  set_inner (fun inner =>
    <[token := mkSession username now]>
      (filter (fun ks => since now (ss_last_seen ks.2) < SESSION_TTL)%Z inner)).

(** [Sessions::touch]. *)
Definition touch (now : Z) (token : bytes) : St Sessions (option bytes) :=
  fun s =>
    match se_inner s !! token with
    | None => (None, s)
    | Some session =>
        if (SESSION_TTL <=? since now (ss_last_seen session))%Z
        then (None, set_inner (delete token) s)
        else (Some (ss_username session),
              set_inner (<[token := mkSession (ss_username session) now]>) s)
    end.

Definition remove (token : bytes) : St Sessions unit := smodify (set_inner (delete token)).

Definition revoke_all_except (keep : bytes) : St Sessions unit :=
  smodify (set_inner (filter (fun ks => ks.1 = keep))).

(** The table part of [Sessions::begin_second_factor], under its lock. *)
Definition insert_pending (now : Z) (username token : bytes) : Sessions -> Sessions :=
  set_pending (fun pending =>
    <[token := mkPending username now 0]>
      (filter (fun kp => since now (pd_created kp.2) < PENDING_TTL)%Z pending)).

Definition pending_user (now : Z) (token : bytes) : St Sessions (option bytes) :=
  sgets (fun s =>
    p ← se_pending s !! token;
    if (since now (pd_created p) <? PENDING_TTL)%Z then Some (pd_username p) else None).

Definition fail_second_factor (token : bytes) : St Sessions bool :=
  fun s =>
    match se_pending s !! token with
    | None => (false, s)
    | Some entry =>
        let failures := (pd_failures entry + 1)%N in
        if (PENDING_FAILURES <=? failures)%N then (false, set_pending (delete token) s)
        else (true, set_pending (<[token := mkPending (pd_username entry) (pd_created entry) failures]>) s)
    end.

Definition finish_second_factor (token : bytes) : St Sessions unit := smodify (set_pending (delete token)).

(** ** Handlers *)

(** A request as the handlers see it: its cookies, its headers, and the address
    of the connection. *)
Record Req : Type := mkReq { rq_jar : gmap bytes bytes; rq_headers : Headers; rq_peer : option IpAddr }.

(** The clock during one request: an [Instant], and Unix seconds. *)
Record Clock : Type := mkClock { cl_instant : Z; cl_epoch : Z }.

(** The QR renderer. *)
Class QrCodes : Type := qr_svg : bytes -> result bytes bytes.

(** [password_rejection]. *)
Definition password_rejection (password confirm : bytes) : option bytes :=
  if negb (bool_decide (password = confirm)) then Some (bs "Those passwords do not match.")
  else if decide (length (chars password) < MIN_PASSWORD_LEN)
  then Some (bs "Password must be at least " ++ u_to_string (N.of_nat MIN_PASSWORD_LEN) ++ bs " characters.")
  else None.

(** [WebState::store_or_503] inside a handler: [k] runs when the store opens. *)
Definition with_store (k : WebM Response) : WebM Response :=
  let! ok := on_entropy draw in
  if ok : bool then k
  else let! w := sget in sret (unavailable (sc_error (wb_script w))).

Section Handlers.
Context `{D : Digests} `{H : PasswordHasher} `{Q : QrCodes}.
Variable clk : Clock.
Let now : Z := cl_instant clk.
Let epoch : Z := cl_epoch clk.

Definition current_user (req : Req) : WebM (option bytes) :=
  match rq_jar req !! COOKIE_NAME with
  | None => sret None
  | Some token => on_sessions (touch now token)
  end.

(** [Sessions::create]. *)
Definition create_session (username : bytes) : WebM (result bytes bytes) :=
  try! token := on_entropy (random_hex 32) in
  let! stored := on_sessions (smodify (insert_session now username token)) in
  sret (Ok token).

(** [Sessions::begin_second_factor]. *)
Definition begin_second_factor (username : bytes) : WebM (result bytes bytes) :=
  try! token := on_entropy (random_hex 32) in
  let! stored := on_sessions (smodify (insert_pending now username token)) in
  sret (Ok token).

Definition sign_in (req : Req) (jar : list JarChange) (username destination : bytes) : WebM Response :=
  let! r := create_session username in
  sret (match r with
        | Ok token =>
            with_jar (jar ++ [AddCookie (session_cookie token (arrived_over_https (rq_headers req)))])
              (redirect_to destination)
        | Err reason => internal reason
        end).

Definition password_ok (username password : bytes) : WebM (result bool Response) :=
  let! w := sget in
  let! r := on_store (verify_password (wb_decoy w) username password) in
  sret (rmap_err (fun err => match err with
                             | TooBusy => too_busy
                             | _ => store_failed (bs "checking the password") err
                             end) r).

(** [two_factor::begin]. *)
Definition begin (req : Req) (username : bytes) : WebM Response :=
  let! r := begin_second_factor username in
  sret (match r with
        | Ok token =>
            with_jar [AddCookie (pending_cookie token (arrived_over_https (rq_headers req)))]
              (redirect_to (bs "/login/totp"))
        | Err reason => internal reason
        end).

(** [two_factor::pending]: the token and the user of a parked sign-in. *)
Definition pending (req : Req) : WebM (option (bytes * bytes)) :=
  match rq_jar req !! PENDING_COOKIE with
  | None => sret None
  | Some token =>
      let! user := on_sessions (pending_user now token) in
      sret (username ← user; Some (token, username))
  end.

(** [two_factor::check_code]. *)
Definition check_code (username code : bytes) : StoreM (result bool StoreError) :=
  try! secret := totp_secret username in
  match secret with
  | None => sret (Ok false)
  | Some secret =>
      match verify secret code epoch with
      | Some step => claim_totp_step username step
      | None => sret (Ok false)
      end
  end.

Definition setup_submit (req : Req) (username password confirm : bytes) : WebM Response :=
  let reject message := rendered (SetupPage username (Some message)) in
  match password_rejection password confirm with
  | Some message => sret (reject message)
  | None =>
      with_store (
        let! count := on_store user_count in
        match count with
        | Err err => sret (store_failed (bs "reading accounts") err)
        | Ok (S _) => sret (redirect_to (bs "/login"))
        | Ok O =>
            let! created := on_store (create_user epoch username password) in
            match created with
            | Ok _ => sign_in req [] username (bs "/wizard")
            | Err (InvalidUser message) => sret (reject message)
            | Err (UserExists _) => sret (redirect_to (bs "/login"))
            | Err TooBusy => sret too_busy
            | Err err => sret (store_failed (bs "creating the account") err)
            end
        end)
  end.

Definition login_submit (req : Req) (username password : bytes) : WebM Response :=
  with_store (
    let! w := sget in
    let! verified := on_store (verify_password (wb_decoy w) username password) in
    match verified with
    | Ok true =>
        let! secret := on_store (totp_secret username) in
        match secret with
        | Ok None => sign_in req [] username (bs "/")
        | Ok (Some _) => begin req username
        | Err err => sret (store_failed (bs "reading the account") err)
        end
    | Ok false =>
        sret (with_status 401
          (rendered (LoginPage username (Some (bs "That username and password do not match.")))))
    | Err TooBusy => sret too_busy
    | Err err => sret (store_failed (bs "checking the password") err)
    end).

(** [two_factor::login_submit]. *)
Definition totp_login_submit (req : Req) (code : bytes) : WebM Response :=
  let secure := arrived_over_https (rq_headers req) in
  let! parked := pending req in
  match parked with
  | None => sret (redirect_to (bs "/login"))
  | Some (token, username) =>
      with_store (
        let! checked := on_store (check_code username code) in
        match checked with
        | Ok true =>
            let! finished := on_sessions (finish_second_factor token) in
            sign_in req [RemoveCookie (pending_cookie [] secure)] username (bs "/")
        | Ok false =>
            let! left := on_sessions (fail_second_factor token) in
            sret (if left : bool
                  then with_status 401 (rendered (TotpLoginPage (Some (bs "That code is not valid."))))
                  else with_jar [RemoveCookie (pending_cookie [] secure)] (with_status 401
                         (rendered (LoginPage username (Some (bs "Too many wrong codes. Sign in again."))))))
        | Err err => sret (store_failed (bs "checking the code") err)
        end)
  end.

Definition logout (req : Req) : WebM Response :=
  let! removed := match rq_jar req !! COOKIE_NAME with
                  | Some token => on_sessions (remove token)
                  | None => sret tt
                  end in
  sret (with_jar [RemoveCookie (session_cookie [] (arrived_over_https (rq_headers req)))]
          (redirect_to (bs "/login"))).

(** The [revoke_all_except] of the request's own session. *)
Definition revoke_others (req : Req) : WebM unit :=
  match rq_jar req !! COOKIE_NAME with
  | Some token => on_sessions (revoke_all_except token)
  | None => sret tt
  end.

Definition change_password (req : Req) (current new confirm : bytes) : WebM Response :=
  let! user := current_user req in
  match user with
  | None => sret (redirect_to (bs "/login"))
  | Some username =>
      match password_rejection new confirm with
      | Some message => sret (settings_error message)
      | None =>
          with_store (
            let! ok := password_ok username current in
            match ok with
            | Err response => sret response
            | Ok false => sret (settings_error (bs "That is not your current password."))
            | Ok true =>
                let! r := on_store (set_password epoch username new) in
                match r with
                | Ok true =>
                    let! revoked := revoke_others req in
                    sret (redirect_to (bs "/settings?saved=account"))
                | Ok false => sret (settings_error (bs "That account no longer exists."))
                | Err (InvalidUser message) => sret (settings_error message)
                | Err TooBusy => sret too_busy
                | Err err => sret (store_failed (bs "changing the password") err)
                end
            end)
      end
  end.

Definition enabled_page (username : bytes) (saved error : option bytes) : Body :=
  TotpPage username true [] [] [] saved error.

Definition enrol_page (username secret : bytes) (saved error : option bytes) : Response :=
  let uri := otpauth_uri username secret in
  match qr_svg uri with
  | Ok svg => rendered (TotpPage username false secret svg uri saved error)
  | Err reason => internal (bs "rendering the QR code: " ++ reason)
  end.

Definition account_page (req : Req) (saved : option bytes) : WebM Response :=
  let! user := current_user req in
  match user with
  | None => sret (redirect_to (bs "/login"))
  | Some username =>
      with_store (
        let! secret := on_store (totp_secret username) in
        match secret with
        | Ok (Some _) => sret (rendered (enabled_page username saved None))
        | Ok None =>
            let! fresh := on_entropy (random_bytes SECRET_BYTES) in
            sret (match generate_secret fresh with
                  | Ok secret => enrol_page username secret saved None
                  | Err reason => internal reason
                  end)
        | Err err => sret (store_failed (bs "reading the account") err)
        end)
  end.

Definition enable (req : Req) (secret code current_password : bytes) : WebM Response :=
  let! user := current_user req in
  match user with
  | None => sret (redirect_to (bs "/login"))
  | Some username =>
      let retry message := enrol_page username secret None (Some message) in
      with_store (
        if negb (is_valid_secret secret) then sret (redirect_to (bs "/settings/account/totp"))
        else
          let! ok := password_ok username current_password in
          match ok with
          | Err response => sret response
          | Ok false => sret (retry (bs "That is not your current password."))
          | Ok true =>
              match verify secret code epoch with
              | None => sret (retry (bs "That code does not match. Check the phone's clock and try the next one."))
              | Some step =>
                  let! r := on_store (set_totp_secret epoch username (Some secret)) in
                  match r with
                  | Ok false => sret (internal (bs "that account no longer exists"))
                  | Err err => sret (store_failed (bs "saving the secret") err)
                  | Ok true =>
                      let! claimed := on_store (claim_totp_step username step) in
                      match claimed with
                      | Err err => sret (store_failed (bs "saving the secret") err)
                      | Ok _ =>
                          let! revoked := revoke_others req in
                          sret (redirect_to (bs "/settings/account/totp?saved=on"))
                      end
                  end
              end
          end)
  end.

Definition disable (req : Req) (code current_password : bytes) : WebM Response :=
  let! user := current_user req in
  match user with
  | None => sret (redirect_to (bs "/login"))
  | Some username =>
      let refuse message := rendered (enabled_page username None (Some message)) in
      with_store (
        let! ok := password_ok username current_password in
        match ok with
        | Err response => sret response
        | Ok false => sret (refuse (bs "That is not your current password."))
        | Ok true =>
            let! checked := on_store (check_code username code) in
            match checked with
            | Ok false => sret (refuse (bs "That code is not valid."))
            | Err err => sret (store_failed (bs "checking the code") err)
            | Ok true =>
                let! r := on_store (set_totp_secret epoch username None) in
                sret (match r with
                      | Ok _ => redirect_to (bs "/settings/account/totp?saved=off")
                      | Err err => store_failed (bs "clearing the secret") err
                      end)
            end
        end)
  end.

(** ** Pages and guards *)

(** [instance_is_claimed]; the error is the [unavailable] answer its callers
    give. *)
Definition instance_is_claimed : WebM (result bool Response) :=
  let! ok := on_entropy draw in
  let! w := sget in
  if ok : bool then
    let! count := on_store user_count in
    sret (match count with
          | Ok n => Ok (0 <? n)
          | Err err => Err (mkHttp 503 (StoreFailure (bs "reading accounts") err) [])
          end)
  else sret (Err (unavailable (sc_error (wb_script w)))).

Definition setup_page : WebM Response :=
  let! claimed := instance_is_claimed in
  sret (match claimed with
        | Ok true => redirect_to (bs "/login")
        | Ok false => rendered (SetupPage [] None)
        | Err response => response
        end).

Definition login_page (req : Req) : WebM Response :=
  let! user := current_user req in
  match user with
  | Some _ => sret (redirect_to (bs "/"))
  | None =>
      let! claimed := instance_is_claimed in
      sret (match claimed with
            | Ok true => rendered (LoginPage [] None)
            | Ok false => redirect_to (bs "/setup")
            | Err response => response
            end)
  end.

(** [two_factor::login_page]. *)
Definition totp_login_page (req : Req) : WebM Response :=
  let! parked := pending req in
  sret (match parked with
        | Some _ => rendered (TotpLoginPage None)
        | None => redirect_to (bs "/login")
        end).

(** [require_auth]: [None] lets the request through. *)
Definition require_auth (req : Req) : WebM (option Response) :=
  let! user := current_user req in
  match user with
  | Some _ => sret None
  | None =>
      let! w := sget in
      match vouched_user (wb_server w) (rq_peer req) (rq_headers req) with
      | Some _ => sret None
      | None =>
          let! claimed := instance_is_claimed in
          sret (Some (match claimed with
                      | Ok true => redirect_to (bs "/login")
                      | Ok false => redirect_to (bs "/setup")
                      | Err response => response
                      end))
      end
  end.

(** The decision of [throttle_unauthenticated_posts] on a request that is not a
    GET; a refusal carries the wait, in nanoseconds. *)
Definition throttle_unauthenticated_posts (req : Req) : WebM (result unit Z) :=
  match rq_peer req with
  | None => sret (Ok tt)
  | Some peer =>
      let! w := sget in
      on_throttle (throttle_check now (client_address (wb_server w) peer (rq_headers req)))
  end.

(** The middleware: [TooMany] is its fixed text with the [Retry-After] header. *)
Definition throttled (req : Req) (k : WebM Response) : WebM Response :=
  let! r := throttle_unauthenticated_posts req in
  match r with
  | Ok _ => k
  | Err retry_after => sret (mkHttp 429 (TooMany (retry_after / SEC)%Z) [])
  end.

Definition guarded (req : Req) (k : WebM Response) : WebM Response :=
  let! refusal := require_auth req in
  match refusal with
  | Some response => sret response
  | None => k
  end.

(** [deny_cross_origin], over every route; [get] is whether the method is GET. *)
Definition deny_cross_origin (get : bool) (req : Req) (k : WebM Response) : WebM Response :=
  if get then k
  else match cross_origin_refusal (rq_headers req) with
       | Some refusal => sret refusal
       | None => k
       end.

(** The sign-in routes of [web::routes], with their forms. *)
Inductive Route : Type :=
| GetSetup
| PostSetup (username password confirm : bytes)
| GetLogin
| PostLogin (username password : bytes)
| GetTotp
| PostTotp (code : bytes)
| PostLogout
| PostPassword (current new confirm : bytes)
| GetAccount (saved : option bytes)
| PostEnable (secret code current_password : bytes)
| PostDisable (code current_password : bytes).

Definition is_get (route : Route) : bool :=
  match route with GetSetup | GetLogin | GetTotp | GetAccount _ => true | _ => false end.

Definition handle (route : Route) (req : Req) : WebM Response :=
  deny_cross_origin (is_get route) req
    match route with
    | GetSetup => setup_page
    | PostSetup username password confirm => throttled req (setup_submit req username password confirm)
    | GetLogin => login_page req
    | PostLogin username password => throttled req (login_submit req username password)
    | GetTotp => totp_login_page req
    | PostTotp code => throttled req (totp_login_submit req code)
    | PostLogout => logout req
    | PostPassword current new confirm => guarded req (change_password req current new confirm)
    | GetAccount saved => guarded req (account_page req saved)
    | PostEnable secret code password => guarded req (enable req secret code password)
    | PostDisable code password => guarded req (disable req code password)
    end.

End Handlers.

(** ** What each call can change *)

(** The accounts and the sessions are as they were. *)
Definition same_state (w w' : Web) : Prop := wb_users w' = wb_users w /\ wb_sessions w' = wb_sessions w.

Lemma on_store_inv {A : Type} (m : StoreM A) w a w' :
  on_store m w = (a, w') ->
  wb_sessions w' = wb_sessions w /\
  m (wb_users w, wb_script w) = (a, (wb_users w', wb_script w')).
Proof. unfold on_store, focus. destruct (m _) as [b [users script]]. by intros [= <- <-]. Qed.

Lemma on_entropy_inv {A : Type} (m : St Script A) w a w' :
  on_entropy m w = (a, w') -> same_state w w'.
Proof. intros [Hs Hu%on_script_inv]%on_store_inv. by split. Qed.

Lemma on_sessions_inv {A : Type} (m : St Sessions A) w a w' :
  on_sessions m w = (a, w') -> wb_users w' = wb_users w /\ m (wb_sessions w) = (a, wb_sessions w').
Proof. unfold on_sessions, focus. destruct (m _) as [b s]. by intros [= <- <-]. Qed.

Lemma with_store_inv k w r w' :
  with_store k w = (r, w') -> exists w1, same_state w w1 /\ (w' = w1 \/ k w1 = (r, w')).
Proof.
  intros (ok & w1 & Hd & Hk)%sbind_inv. apply on_entropy_inv in Hd. exists w1. split; [done|].
  destruct ok; [by right|]. injection Hk as _ <-. by left.
Qed.

Lemma store_read {A : Type} (m : StoreM A) w a w' :
  (forall s b s', m s = (b, s') -> s'.1 = s.1) -> on_store m w = (a, w') -> same_state w w'.
Proof. intros Hm [Hs Ha]%on_store_inv. apply Hm in Ha. by split. Qed.

Section Changes.
Context `{D : Digests} `{H : PasswordHasher} `{Q : QrCodes}.
Variable clk : Clock.

(** Minting a session stores it and expires others; nothing else. *)
Lemma sign_in_inv req jar u dest w r w' :
  sign_in clk req jar u dest w = (r, w') ->
  wb_users w' = wb_users w /\
  (wb_sessions w' = wb_sessions w \/
   exists token, wb_sessions w' = insert_session (cl_instant clk) u token (wb_sessions w)).
Proof.
  intros (res & w1 & Hc & [= _ <-])%sbind_inv.
  apply try_bind_inv in Hc as [(e & Hr & ->)|(token & w2 & Hr & Hk)].
  { apply on_entropy_inv in Hr as [-> ->]. auto. }
  apply on_entropy_inv in Hr as [Hu Hs].
  apply sbind_inv in Hk as (x & w3 & Hm & [= _ <-]). apply on_sessions_inv in Hm as [-> [= _ <-]].
  split; [done|]. right. exists token. by rewrite Hs.
Qed.

Lemma begin_inv req u w r w' :
  begin clk req u w = (r, w') ->
  wb_users w' = wb_users w /\
  (wb_sessions w' = wb_sessions w \/
   exists token, wb_sessions w' = insert_pending (cl_instant clk) u token (wb_sessions w)).
Proof.
  intros (res & w1 & Hc & [= _ <-])%sbind_inv.
  apply try_bind_inv in Hc as [(e & Hr & ->)|(token & w2 & Hr & Hk)].
  { apply on_entropy_inv in Hr as [-> ->]. auto. }
  apply on_entropy_inv in Hr as [Hu Hs].
  apply sbind_inv in Hk as (x & w3 & Hm & [= _ <-]). apply on_sessions_inv in Hm as [-> [= _ <-]].
  split; [done|]. right. exists token. by rewrite Hs.
Qed.

Lemma pending_inv req w o w' :
  pending clk req w = (o, w') ->
  w' = w /\ forall token username, o = Some (token, username) ->
    rq_jar req !! PENDING_COOKIE = Some token /\
    exists p, se_pending (wb_sessions w) !! token = Some p /\ pd_username p = username /\
      (since (cl_instant clk) (pd_created p) < PENDING_TTL)%Z.
Proof.
  unfold pending. destruct (rq_jar req !! PENDING_COOKIE) as [t|]; [|by intros [= <- <-]].
  unfold sbind, on_sessions, focus, pending_user, sgets, sret. destruct w as [us sc se th sv de]. cbn.
  intros [= <- <-]. split; [done|]. intros token username Ho.
  destruct (se_pending se !! t) as [p|] eqn:Ep; [|done]. cbn in Ho.
  destruct (Z.ltb_spec (since (cl_instant clk) (pd_created p)) PENDING_TTL); [|done].
  injection Ho as <- <-. split; [done|]. by exists p.
Qed.

Lemma check_code_inv username code s r s' :
  check_code clk username code s = (r, s') ->
  match r with
  | Ok true => exists row secret step, us_rows s.1 !! username = Some row /\
      u_totp_secret row = Some secret /\ verify secret code (cl_epoch clk) = Some step /\
      step_unspent step row = true /\
      s'.1 = mkUsers (<[username := put_step step row]> (us_rows s.1)) (us_sequence s.1)
  | _ => s'.1 = s.1
  end.
Proof.
  intros [(e & Hq & ->)|(o & s1 & Hq & Hk)]%try_bind_inv.
  { by apply totp_secret_inv in Hq as [? _]. }
  apply totp_secret_inv in Hq as [Hs1 Ho]. specialize (Ho o eq_refl).
  destruct o as [secret|]; [|by injection Hk as <- <-].
  destruct (verify secret code (cl_epoch clk)) as [step|] eqn:Ev; [|by injection Hk as <- <-].
  apply update_user_inv in Hk. rewrite Hs1 in Hk. destruct r as [[|]|]; try congruence.
  destruct Hk as (row & Hrow & Hg & Hs'). rewrite Hrow in Ho. cbn in Ho.
  exists row, secret, step. by split_and!.
Qed.

End Changes.

(** ** Calls that admit nobody *)

(** Every session and every parked sign-in of [s'] was one of [s], for the same
    user. *)
Definition sessions_le (s s' : Sessions) : Prop :=
  (forall t x, se_inner s' !! t = Some x ->
     exists y, se_inner s !! t = Some y /\ ss_username y = ss_username x) /\
  (forall t p, se_pending s' !! t = Some p ->
     exists q, se_pending s !! t = Some q /\ pd_username q = pd_username p).

#[export] Instance sessions_le_preorder : PreOrder sessions_le.
Proof.
  split.
  - intros s. split; eauto.
  - intros s1 s2 s3 [Ha Hb] [Hc Hd]. split.
    + intros t x (y & Hy & Ey)%Hc. apply Ha in Hy as (z & Hz & Ez). exists z. split; congruence.
    + intros t p (q & Hq & Eq)%Hd. apply Hb in Hq as (r & Hr & Er). exists r. split; congruence.
Qed.

Lemma filter_inner_le (P : bytes * Session -> Prop) `{!forall x, Decision (P x)} s :
  sessions_le s (set_inner (filter P) s).
Proof. split; [|by eauto]. intros t x [Hx _]%map_lookup_filter_Some. eauto. Qed.

Lemma touch_le now token s : sessions_le s (touch now token s).2.
Proof.
  unfold touch. destruct (se_inner s !! token) as [x|] eqn:E; [|done].
  case_match; cbn [snd]; (split; [|by eauto]); cbn; intros t y.
  - intros [_ Hy]%lookup_delete_Some. eauto.
  - rewrite lookup_insert_Some. intros [(<- & <-)|[_ Hy]]; eauto.
Qed.

Lemma remove_le token s : sessions_le s (remove token s).2.
Proof. split; [|by eauto]. cbn. intros t x [_ Hx]%lookup_delete_Some. eauto. Qed.

Lemma finish_le token s : sessions_le s (finish_second_factor token s).2.
Proof. split; [by eauto|]. cbn. intros t p [_ Hp]%lookup_delete_Some. eauto. Qed.

Lemma fail_le token s : sessions_le s (fail_second_factor token s).2.
Proof.
  unfold fail_second_factor. destruct (se_pending s !! token) as [p|] eqn:E; [|done].
  case_match; cbn [snd]; (split; [by eauto|]); cbn; intros t q.
  - intros [_ Hq]%lookup_delete_Some. eauto.
  - rewrite lookup_insert_Some. intros [(<- & <-)|[_ Hq]]; eauto.
Qed.

(** A handler that admits nobody. *)
Definition quiet {A : Type} (m : WebM A) : Prop :=
  forall w, sessions_le (wb_sessions w) (wb_sessions (m w).2).

Lemma quiet_ret {A : Type} (a : A) : quiet (sret a).
Proof. by intros w. Qed.

Lemma quiet_get : quiet (@sget Web).
Proof. by intros w. Qed.

Lemma quiet_bind {A B : Type} (m : WebM A) (k : A -> WebM B) :
  quiet m -> (forall a, quiet (k a)) -> quiet (sbind m k).
Proof.
  intros Hm Hk w. unfold sbind. specialize (Hm w). destruct (m w) as [a w1]. cbn in Hm.
  etransitivity; [exact Hm|apply Hk].
Qed.

Lemma quiet_store {A : Type} (m : StoreM A) : quiet (on_store m).
Proof. intros w. unfold on_store, focus. by destruct (m _) as [a [? ?]]. Qed.

Lemma quiet_entropy {A : Type} (m : St Script A) : quiet (on_entropy m).
Proof. apply quiet_store. Qed.

Lemma quiet_throttle {A : Type} (m : St Throttle A) : quiet (on_throttle m).
Proof. intros w. unfold on_throttle, focus. by destruct (m _). Qed.

Lemma quiet_sessions {A : Type} (m : St Sessions A) :
  (forall s, sessions_le s (m s).2) -> quiet (on_sessions m).
Proof. intros Hm w. unfold on_sessions, focus. specialize (Hm (wb_sessions w)). by destruct (m _). Qed.

Lemma quiet_with_store k : quiet k -> quiet (with_store k).
Proof.
  intros Hk. apply quiet_bind; [apply quiet_entropy|]. intros [|]; [done|].
  apply quiet_bind; [apply quiet_get|]. intros w. apply quiet_ret.
Qed.

Create HintDb quiet.
#[export] Hint Resolve quiet_ret quiet_get quiet_store quiet_entropy quiet_throttle touch_le remove_le
  finish_le fail_le filter_inner_le quiet_sessions quiet_with_store : quiet.

(** Splits a handler into its calls and cases. *)
Ltac quiet_calls :=
  repeat (intros;
    first [ solve [auto with quiet]
          | apply quiet_bind
          | apply quiet_with_store
          | match goal with |- quiet (match ?x with _ => _ end) => destruct x end ]).

Section Quiet.
Context `{D : Digests} `{H : PasswordHasher} `{Q : QrCodes}.
Variable clk : Clock.

Lemma quiet_current_user req : quiet (current_user clk req).
Proof. unfold current_user. quiet_calls. Qed.

Lemma quiet_password_ok u p : quiet (password_ok u p).
Proof. unfold password_ok. quiet_calls. Qed.

Lemma quiet_revoke req : quiet (revoke_others req).
Proof.
  unfold revoke_others. quiet_calls. apply quiet_sessions. intros s. unfold revoke_all_except, smodify. cbn.
  apply filter_inner_le.
Qed.

Lemma quiet_claimed : quiet instance_is_claimed.
Proof. unfold instance_is_claimed. quiet_calls. Qed.

#[local] Hint Resolve quiet_current_user quiet_password_ok quiet_revoke quiet_claimed : quiet.

Lemma quiet_pending req : quiet (pending clk req).
Proof. intros w. destruct (pending clk req w) as [o w'] eqn:E. by apply pending_inv in E as [-> _]. Qed.

Lemma quiet_require_auth req : quiet (require_auth clk req).
Proof. unfold require_auth. quiet_calls. Qed.

Lemma quiet_throttle_posts req : quiet (throttle_unauthenticated_posts clk req).
Proof. unfold throttle_unauthenticated_posts. quiet_calls. Qed.

#[local] Hint Resolve quiet_pending quiet_require_auth quiet_throttle_posts : quiet.

Lemma quiet_guarded req k : quiet k -> quiet (guarded clk req k).
Proof. intros Hk. unfold guarded. quiet_calls. Qed.

(** Everything but setup, login and the code step admits nobody. *)
Lemma quiet_rest route req :
  match route with PostSetup _ _ _ | PostLogin _ _ | PostTotp _ => True | _ => quiet (handle clk route req) end.
Proof.
  destruct route; try done; unfold handle, deny_cross_origin; cbn [is_get];
    try (destruct (cross_origin_refusal _); [auto with quiet|]);
    try apply quiet_guarded;
    unfold setup_page, login_page, totp_login_page, logout, change_password, account_page, enable, disable;
    quiet_calls.
Qed.

End Quiet.

(** ** Who is let in *)

Section Admission.
Context `{D : Digests} `{H : PasswordHasher} `{Q : QrCodes}.

(** A request and the state it finds. *)
Record Event : Type := mkEvent { ev_web : Web; ev_clock : Clock; ev_route : Route; ev_req : Req }.

Definition row_of (w : Web) (username : bytes) : option User := us_rows (wb_users w) !! username.

(** The request proves [username]'s password to an account without a second
    factor ([parks = false]) or with one ([parks = true]). *)
Definition proves_password (parks : bool) (ev : Event) (username : bytes) : Prop :=
  exists password row, ev_route ev = PostLogin username password /\ row_of (ev_web ev) username = Some row /\
    blocking_verify password (u_password_hash row) = true /\
    (if parks then is_Some (u_totp_secret row) else u_totp_secret row = None).

(** The request brings, for a fresh parked sign-in of [username], an unspent code
    of the account's secret. *)
Definition proves_code (ev : Event) (username : bytes) : Prop :=
  exists code token p row secret step, ev_route ev = PostTotp code /\
    rq_jar (ev_req ev) !! PENDING_COOKIE = Some token /\
    se_pending (wb_sessions (ev_web ev)) !! token = Some p /\ pd_username p = username /\
    (since (cl_instant (ev_clock ev)) (pd_created p) < PENDING_TTL)%Z /\
    row_of (ev_web ev) username = Some row /\ u_totp_secret row = Some secret /\
    verify secret code (cl_epoch (ev_clock ev)) = Some step /\ step_unspent step row = true.

(** The request claims an instance that has no account. *)
Definition claims_instance (ev : Event) (username : bytes) : Prop :=
  exists password, ev_route ev = PostSetup username password password /\
    us_rows (wb_users (ev_web ev)) = ∅.

Definition grants (ev : Event) (username : bytes) : Prop :=
  claims_instance ev username \/ proves_password false ev username \/ proves_code ev username.

(** What one request may add to the two tables. *)
Definition admits (ev : Event) (s' : Sessions) : Prop :=
  (forall t x, se_inner s' !! t = Some x ->
     (exists y, se_inner (wb_sessions (ev_web ev)) !! t = Some y /\ ss_username y = ss_username x) \/
     grants ev (ss_username x)) /\
  (forall t p, se_pending s' !! t = Some p ->
     (exists q, se_pending (wb_sessions (ev_web ev)) !! t = Some q /\ pd_username q = pd_username p) \/
     proves_password true ev (pd_username p)).

Lemma le_admits ev s' : sessions_le (wb_sessions (ev_web ev)) s' -> admits ev s'.
Proof. intros [Ha Hb]. split; intros; left; eauto. Qed.

Lemma insert_session_admits ev now u token s :
  sessions_le (wb_sessions (ev_web ev)) s -> grants ev u -> admits ev (insert_session now u token s).
Proof.
  intros [Ha Hb] Hg. split; [|intros t p Hp; left; by apply Hb]. cbn. intros t x.
  rewrite lookup_insert_Some. intros [(_ & <-)|[_ [Hx _]%map_lookup_filter_Some]]; [by right|left; by apply Ha].
Qed.

Lemma insert_pending_admits ev now u token s :
  sessions_le (wb_sessions (ev_web ev)) s -> proves_password true ev u -> admits ev (insert_pending now u token s).
Proof.
  intros [Ha Hb] Hg. split; [intros t x Hx; left; by apply Ha|]. cbn. intros t p.
  rewrite lookup_insert_Some. intros [(_ & <-)|[_ [Hp _]%map_lookup_filter_Some]]; [by right|left; by apply Hb].
Qed.

Variable clk : Clock.

Lemma throttled_inv req k w r w' :
  throttled clk req k w = (r, w') -> exists w1, same_state w w1 /\ (w' = w1 \/ k w1 = (r, w')).
Proof.
  intros (res & w1 & Ht & Hk)%sbind_inv. exists w1. split.
  - unfold throttle_unauthenticated_posts in Ht. destruct (rq_peer req); [|injection Ht as _ <-; done].
    apply sbind_inv in Ht as (w0 & w2 & [= <- <-] & Ht). unfold on_throttle, focus in Ht.
    destruct (throttle_check _ _ _) as [a th]. by injection Ht as _ <-.
  - destruct res; [by right|]. injection Hk as _ <-. by left.
Qed.

Lemma setup_admits w req username password confirm w1 r w' :
  same_state w w1 -> setup_submit clk req username password confirm w1 = (r, w') ->
  admits (mkEvent w clk (PostSetup username password confirm) req) (wb_sessions w').
Proof.
  intros [Hu Hs]. unfold setup_submit.
  destruct (password_rejection password confirm) eqn:Ep; [intros [= _ <-]; apply le_admits; cbn; by rewrite Hs|].
  assert (password = confirm) as <-.
  { unfold password_rejection in Ep. case_bool_decide; [done|]. by cbn in Ep. }
  intros (w2 & [Hu2 Hs2] & [->|Hk])%with_store_inv; [apply le_admits; cbn; by rewrite Hs2, Hs|].
  apply sbind_inv in Hk as (count & w3 & Hc & Hk). apply on_store_inv in Hc as [Hs3 Hc].
  apply user_count_inv in Hc as [Hu3 Hcount]. cbn in Hu3, Hcount.
  destruct count as [[|n]|err]; [|injection Hk as _ <-; apply le_admits; cbn; by rewrite Hs3, Hs2, Hs..].
  specialize (Hcount 0 eq_refl). symmetry in Hcount. apply map_size_empty_inv in Hcount.
  apply sbind_inv in Hk as (created & w4 & Hcr & Hk). apply on_store_inv in Hcr as [Hs4 _].
  assert (admits (mkEvent w clk (PostSetup username password password) req) (wb_sessions w4)) as Hstay
    by (apply le_admits; cbn; by rewrite Hs4, Hs3, Hs2, Hs).
  destruct created as [id|[]]; try (by injection Hk as _ <-).
  apply sign_in_inv in Hk as [_ [->|[token ->]]]; [done|].
  apply insert_session_admits; [cbn; by rewrite Hs4, Hs3, Hs2, Hs|].
  left. exists password. split; [done|]. cbn. congruence.
Qed.

Lemma login_admits w req username password w1 r w' :
  same_state w w1 -> login_submit clk req username password w1 = (r, w') ->
  admits (mkEvent w clk (PostLogin username password) req) (wb_sessions w').
Proof.
  intros [Hu Hs] (w2 & [Hu2 Hs2] & [->|Hk])%with_store_inv; [apply le_admits; cbn; by rewrite Hs2, Hs|].
  apply sbind_inv in Hk as (w0 & w3 & [= <- <-] & Hk).
  apply sbind_inv in Hk as (verified & w3 & Hv & Hk). apply on_store_inv in Hv as [Hs3 Hv].
  apply verify_password_inv in Hv as [Hu3 Hv]. cbn in Hu3, Hv.
  assert (admits (mkEvent w clk (PostLogin username password) req) (wb_sessions w3)) as Hstay
    by (apply le_admits; cbn; by rewrite Hs3, Hs2, Hs).
  destruct verified as [[|]|[]]; try (by injection Hk as _ <-).
  destruct (Hv eq_refl) as (row & Hrow & Hver). rewrite Hu2, Hu in Hrow.
  apply sbind_inv in Hk as (secret & w4 & Ht & Hk). apply on_store_inv in Ht as [Hs4 Ht].
  apply totp_secret_inv in Ht as [Hu4 Hsec]. cbn in Hu4, Hsec.
  rewrite Hu3, Hu2, Hu in Hsec. rewrite Hrow in Hsec. cbn in Hsec.
  destruct secret as [[sec|]|err].
  - apply begin_inv in Hk as [_ [->|[token ->]]]; [by rewrite Hs4|].
    apply insert_pending_admits; [cbn; by rewrite Hs4, Hs3, Hs2, Hs|].
    exists password, row. split_and!; try done. cbn. rewrite <- (Hsec _ eq_refl). by eexists.
  - apply sign_in_inv in Hk as [_ [->|[token ->]]]; [by rewrite Hs4|].
    apply insert_session_admits; [cbn; by rewrite Hs4, Hs3, Hs2, Hs|].
    right. left. exists password, row. split_and!; try done. cbn. by rewrite <- (Hsec _ eq_refl).
  - injection Hk as _ <-. by rewrite Hs4.
Qed.

Lemma totp_admits w req code w1 r w' :
  same_state w w1 -> totp_login_submit clk req code w1 = (r, w') ->
  admits (mkEvent w clk (PostTotp code) req) (wb_sessions w').
Proof.
  intros [Hu Hs] (parked & w2 & Hp & Hk)%sbind_inv. apply pending_inv in Hp as [-> Hp].
  assert (forall w', sessions_le (wb_sessions w1) (wb_sessions w') ->
    admits (mkEvent w clk (PostTotp code) req) (wb_sessions w')) as Hstay
    by (intros; apply le_admits; cbn; by rewrite <- Hs).
  destruct parked as [[token username]|]; [|injection Hk as _ <-; by apply Hstay].
  destruct (Hp _ _ eq_refl) as (Hjar & p & Hpend & Huser & Hfresh).
  apply with_store_inv in Hk as (w2 & [Hu2 Hs2] & [->|Hk]); [apply Hstay; by rewrite Hs2|].
  apply sbind_inv in Hk as (checked & w3 & Hc & Hk). apply on_store_inv in Hc as [Hs3 Hc].
  apply check_code_inv in Hc. cbn in Hc.
  destruct checked as [[|]|err]; [| |injection Hk as _ <-; apply Hstay; by rewrite Hs3, Hs2].
  - destruct Hc as (row & secret & step & Hrow & Hsec & Hver & Hun & _).
    apply sbind_inv in Hk as (x & w4 & Hf & Hk). apply on_sessions_inv in Hf as [Hu4 Hf].
    pose proof (finish_le token (wb_sessions w3)) as Hle. rewrite Hf in Hle. cbn in Hle. rewrite Hs3, Hs2 in Hle.
    apply sign_in_inv in Hk as [_ [->|[tok ->]]]; [by apply Hstay|].
    apply insert_session_admits; [cbn; by rewrite <- Hs|].
    right. right. exists code, token, p, row, secret, step. unfold row_of. cbn.
    rewrite <- Hs, <- Hu, <- Hu2. by split_and!.
  - apply sbind_inv in Hk as (left & w4 & Hf & [= _ <-]). apply on_sessions_inv in Hf as [_ Hf].
    pose proof (fail_le token (wb_sessions w3)) as Hle. rewrite Hf in Hle. cbn in Hle.
    rewrite Hs3, Hs2 in Hle. by apply Hstay.
Qed.

(** One request adds a session or a parked sign-in only for a user it proves. *)
Lemma handle_admits route req w :
  admits (mkEvent w clk route req) (wb_sessions (handle clk route req w).2).
Proof.
  pose proof (quiet_rest clk route req) as Hq.
  destruct route; try (apply le_admits, Hq); unfold handle, deny_cross_origin; cbn [is_get];
    (destruct (cross_origin_refusal _); [by apply le_admits|]);
    destruct (throttled clk req _ w) as [r w'] eqn:E;
    apply throttled_inv in E as (w1 & Hsame & [->|E]); cbn [snd];
    try (by apply le_admits; cbn; destruct Hsame as [_ ->]);
    eauto using setup_admits, login_admits, totp_admits.
Qed.

End Admission.

(** ** Runs *)

Definition with_script (script : Script) (w : Web) : Web :=
  mkWeb (wb_users w) script (wb_sessions w) (wb_throttle w) (wb_server w) (wb_decoy w).

Definition web_start (server : ServerConfig) (decoy : bytes) : Web :=
  mkWeb us_empty (mkScript [] [] []) (mkSessions ∅ ∅) throttle_default server decoy.

(** The requests an instance has served, oldest first, and the state they left.
    Each meets its own clock reading and its own outcomes of the outside
    world. *)
Inductive served `{D : Digests} `{H : PasswordHasher} `{Q : QrCodes} : list Event -> Web -> Prop :=
| served_none server decoy : served [] (web_start server decoy)
| served_one history w script clk route req :
    served history w ->
    served (history ++ [mkEvent (with_script script w) clk route req])
      (handle clk route req (with_script script w)).2.

Section Runs.
Context `{D : Digests} `{H : PasswordHasher} `{Q : QrCodes}.

(** The state a request leaves. *)
Definition left_by (ev : Event) : Web := (handle (ev_clock ev) (ev_route ev) (ev_req ev) (ev_web ev)).2.

(** What holds now came to hold by a request of the history, for a reason that may
    look back on the requests before it, and has held ever since. *)
Definition brought_about (history : list Event) (held : Web -> Prop) (why : list Event -> Event -> Prop) : Prop :=
  exists before ev after, history = before ++ ev :: after /\
    ~ held (ev_web ev) /\ held (left_by ev) /\ Forall (fun e => held (ev_web e)) after /\ why before ev.

Lemma served_brought_about (held : Web -> Prop) (why : list Event -> Event -> Prop) :
  (forall w, Decision (held w)) ->
  (forall script w, held (with_script script w) <-> held w) ->
  (forall server decoy, ~ held (web_start server decoy)) ->
  (forall history w script clk route req, let ev := mkEvent (with_script script w) clk route req in
     served history w -> ~ held w -> held (left_by ev) -> why history ev) ->
  forall history w, served history w -> held w -> brought_about history held why.
Proof.
  intros Hdec Hscript Hstart Hwhy history w Hs. induction Hs as [|history w script clk route req Hs IH]; intros Hw.
  { exfalso. by eapply Hstart. }
  destruct (Hdec w) as [Hold|Hnew].
  - destruct (IH Hold) as (before & ev & after & -> & Hn & Hl & Hafter & Hy).
    exists before, ev, (after ++ [mkEvent (with_script script w) clk route req]). rewrite <- app_assoc.
    split_and!; try done. apply Forall_app. split; [done|]. apply Forall_singleton. by apply Hscript.
  - exists history, (mkEvent (with_script script w) clk route req), []. split_and!; try done.
    + cbn. by rewrite Hscript.
    + by apply Hwhy.
Qed.

(** The entry under [t] is one of [u]. *)
Definition session_of (t u : bytes) (w : Web) : Prop :=
  ss_username <$> se_inner (wb_sessions w) !! t = Some u.
Definition parked_for (t u : bytes) (w : Web) : Prop :=
  pd_username <$> se_pending (wb_sessions w) !! t = Some u.

(** A parked sign-in was parked by the password of an account with a second
    factor. *)
Definition parked_by (t u : bytes) (history : list Event) : Prop :=
  brought_about history (parked_for t u) (fun _ ev => proves_password true ev u).

Lemma served_pending history w t u :
  served history w -> parked_for t u w -> parked_by t u history.
Proof.
  intros Hs. apply served_brought_about; [unfold parked_for; solve_decision|done|done| |done].
  clear. intros history w script clk route req ev _ Hn (p & Hp & Hu)%fmap_Some.
  apply (handle_admits clk route req (with_script script w)) in Hp as [(q & Hq & Hqu)|Hg].
  - exfalso. apply Hn. unfold parked_for. cbn in Hq. rewrite Hq. cbn. congruence.
  - by rewrite Hu.
Qed.

(** Why a request may open a session for [u], given what was served before it:
    it claims the instance while there is no account; it proves the password of an
    account that has no second factor; or it brings a current unspent code of the
    account's secret for a sign-in that was parked by the account's password. *)
Definition entitled (u : bytes) (before : list Event) (ev : Event) : Prop :=
  claims_instance ev u \/ proves_password false ev u \/
  proves_code ev u /\ exists token, rq_jar (ev_req ev) !! PENDING_COOKIE = Some token /\ parked_by token u before.

Definition opened_by (t u : bytes) (history : list Event) : Prop :=
  brought_about history (session_of t u) (entitled u).

Lemma served_sessions history w t u :
  served history w -> session_of t u w -> opened_by t u history.
Proof.
  intros Hs. apply served_brought_about; [unfold session_of; solve_decision|done|done| |done].
  clear. intros history w script clk route req ev Hs Hn (x & Hx & Hu)%fmap_Some. subst u.
  apply (handle_admits clk route req (with_script script w)) in Hx as [(y & Hy & Hyu)|Hg].
  { exfalso. apply Hn. unfold session_of. cbn in Hy. rewrite Hy. cbn. congruence. }
  destruct Hg as [Hg|[Hg|Hg]]; [by left|by right; left|]. right. right. split; [done|].
  destruct Hg as (code & token & p & row & secret & step & _ & Hjar & Hp & <- & _).
  exists token. split; [done|]. apply (served_pending history w); [done|].
  unfold parked_for. cbn in Hp. by rewrite Hp.
Qed.

End Runs.


(** ** Requests that meet no failure *)

(** No call of the outside world fails, and the form comes from the UI itself. *)
Definition smooth (w : Web) (req : Req) : Prop :=
  sc_io (wb_script w) = [] /\ cross_origin_refusal (rq_headers req) = None.

(** The request carries the token [t] of [u]'s live session. *)
Definition signed_in (clk : Clock) (w : Web) (req : Req) (t u : bytes) : Prop :=
  rq_jar req !! COOKIE_NAME = Some t /\
  exists x, se_inner (wb_sessions w) !! t = Some x /\ ss_username x = u /\
    (since (cl_instant clk) (ss_last_seen x) < SESSION_TTL)%Z.

Definition with_sessions (s : Sessions) (w : Web) : Web :=
  mkWeb (wb_users w) (wb_script w) s (wb_throttle w) (wb_server w) (wb_decoy w).

Section Smooth.
Context `{D : Digests} `{H : PasswordHasher} `{Q : QrCodes}.
Variable clk : Clock.

(** The table after a session is touched. *)
Definition touched (t u : bytes) (s : Sessions) : Sessions :=
  set_inner (<[t := mkSession u (cl_instant clk)]>) s.

Lemma touched_twice t u s : touched t u (touched t u s) = touched t u s.
Proof. unfold touched, set_inner. cbn. by rewrite insert_insert_eq. Qed.

Lemma current_user_live req w t u :
  signed_in clk w req t u ->
  current_user clk req w = (Some u, with_sessions (touched t u (wb_sessions w)) w).
Proof.
  intros (Hjar & x & Hx & <- & Hlive). unfold current_user. rewrite Hjar.
  unfold on_sessions, focus, touch. rewrite Hx.
  destruct (Z.leb_spec SESSION_TTL (since (cl_instant clk) (ss_last_seen x))); [lia|]. done.
Qed.

Lemma signed_in_touched req w t u :
  signed_in clk w req t u -> signed_in clk (with_sessions (touched t u (wb_sessions w)) w) req t u.
Proof.
  intros (Hjar & x & Hx & Hu & Hlive). split; [done|]. cbn. rewrite lookup_insert_eq.
  eexists. split; [done|]. split; [done|]. cbn. unfold since, SESSION_TTL, SEC. lia.
Qed.

Lemma guarded_live req k w t u :
  signed_in clk w req t u -> guarded clk req k w = k (with_sessions (touched t u (wb_sessions w)) w).
Proof.
  intros Hs. unfold guarded, require_auth, sbind. by rewrite (current_user_live req w t u Hs).
Qed.

Lemma with_store_smooth k w : sc_io (wb_script w) = [] -> with_store k w = k w.
Proof.
  intros Hio. destruct w as [us [io en er] se th sv de]. cbn in Hio. subst io. done.
Qed.

Lemma password_ok_smooth u p w row :
  sc_io (wb_script w) = [] -> us_rows (wb_users w) !! u = Some row ->
  password_ok u p w = (Ok (blocking_verify p (u_password_hash row)), w).
Proof.
  intros Hio Hrow. destruct w as [us [io en er] se th sv de]. cbn in Hio, Hrow. subst io.
  unfold password_ok, sbind, sget, on_store, focus. cbn [wb_users wb_script wb_decoy].
  rewrite verify_password_smooth, Hrow. done.
Qed.

(** One UPDATE of an existing row. *)
Lemma update_smooth u guard set w row :
  sc_io (wb_script w) = [] -> us_rows (wb_users w) !! u = Some row -> guard row = true ->
  on_store (query (update_user u guard set)) w =
  (Ok true, mkWeb (mkUsers (<[u := set row]> (us_rows (wb_users w))) (us_sequence (wb_users w)))
              (wb_script w) (wb_sessions w) (wb_throttle w) (wb_server w) (wb_decoy w)).
Proof.
  intros Hio Hrow Hg. destruct w as [us [io en er] se th sv de]. cbn in Hio, Hrow. subst io.
  unfold on_store, focus, query, update_user. cbn. by rewrite Hrow, Hg.
Qed.

Lemma revoke_others_eq req w t :
  rq_jar req !! COOKIE_NAME = Some t ->
  revoke_others req w =
  (tt, with_sessions (set_inner (filter (fun ks : bytes * Session => ks.1 = t)) (wb_sessions w)) w).
Proof. intros Hjar. unfold revoke_others. rewrite Hjar. done. Qed.

(** The tables once every session but [t] is gone. *)
Definition only_session (t u : bytes) (s : Sessions) : Sessions :=
  mkSessions {[t := mkSession u (cl_instant clk)]} (se_pending s).

Lemma revoke_touched t u s :
  set_inner (filter (fun ks : bytes * Session => ks.1 = t)) (touched t u s) = only_session t u s.
Proof.
  unfold set_inner, touched, only_session. cbn. f_equal. apply map_eq. intros k.
  rewrite map_lookup_filter, lookup_singleton. destruct (decide (t = k)) as [<-|Hne].
  - rewrite lookup_insert_eq. cbn. by rewrite option_guard_True.
  - rewrite lookup_insert_ne by done. destruct (se_inner s !! k); cbn; [|done]. by rewrite option_guard_False.
Qed.

Definition with_throttle (t : Throttle) (w : Web) : Web :=
  mkWeb (wb_users w) (wb_script w) (wb_sessions w) t (wb_server w) (wb_decoy w).

(** The throttle lets the request through, and is left as [t]. *)
Definition unthrottled (w : Web) (req : Req) (t : Throttle) : Prop :=
  match rq_peer req with
  | None => t = wb_throttle w
  | Some peer =>
      throttle_check (cl_instant clk) (client_address (wb_server w) peer (rq_headers req)) (wb_throttle w)
      = (Ok tt, t)
  end.

Lemma throttled_ok req k w t : unthrottled w req t -> throttled clk req k w = k (with_throttle t w).
Proof.
  unfold unthrottled, throttled, throttle_unauthenticated_posts, sbind, sget, on_throttle, focus, sret.
  destruct w as [us sc se th sv de]. cbn. destruct (rq_peer req) as [peer|]; [|by intros ->].
  cbn. intros Ht. by rewrite Ht.
Qed.

Lemma pending_fresh req w token p :
  rq_jar req !! PENDING_COOKIE = Some token -> se_pending (wb_sessions w) !! token = Some p ->
  (since (cl_instant clk) (pd_created p) < PENDING_TTL)%Z ->
  pending clk req w = (Some (token, pd_username p), w).
Proof.
  intros Hjar Hp Hf. unfold pending, sbind, on_sessions, focus, pending_user, sgets, sret. rewrite Hjar.
  destruct w as [us sc se th sv de]. cbn in Hp |- *. rewrite Hp. cbn. by rewrite (proj2 (Z.ltb_lt _ _) Hf).
Qed.

(** Whether a code is good for an account now. *)
Definition code_good (row : User) (code : bytes) : option Z :=
  secret ← u_totp_secret row;
  step ← verify secret code (cl_epoch clk);
  if step_unspent step row then Some step else None.

Lemma check_code_smooth u code w row :
  sc_io (wb_script w) = [] -> us_rows (wb_users w) !! u = Some row ->
  on_store (check_code clk u code) w =
  match code_good row code with
  | Some step =>
      (Ok true, mkWeb (mkUsers (<[u := put_step step row]> (us_rows (wb_users w))) (us_sequence (wb_users w)))
                  (wb_script w) (wb_sessions w) (wb_throttle w) (wb_server w) (wb_decoy w))
  | None => (Ok false, w)
  end.
Proof.
  intros Hio Hrow. destruct w as [us [io en er] se th sv de]. cbn in Hio, Hrow. subst io.
  unfold code_good, on_store, focus, check_code, totp_secret, claim_totp_step, try_bind, sbind, query, update_user.
  cbn. rewrite Hrow. cbn. destruct (u_totp_secret row) as [secret|]; [|done]. cbn.
  destruct (verify secret code (cl_epoch clk)) as [step|]; [|done]. cbn. rewrite Hrow.
  by destruct (step_unspent step row).
Qed.

(** A session minted from the next 32 bytes of entropy. *)
Lemma sign_in_smooth req jar u dest w :
  32 <= length (sc_entropy (wb_script w)) ->
  sign_in clk req jar u dest w =
  let token := hex_encode (take 32 (sc_entropy (wb_script w))) in
  (with_jar (jar ++ [AddCookie (session_cookie token (arrived_over_https (rq_headers req)))]) (redirect_to dest),
   mkWeb (wb_users w)
     (mkScript (sc_io (wb_script w)) (drop 32 (sc_entropy (wb_script w))) (sc_error (wb_script w)))
     (insert_session (cl_instant clk) u token (wb_sessions w)) (wb_throttle w) (wb_server w) (wb_decoy w)).
Proof.
  intros Hlen. unfold sign_in, create_session, try_bind, sbind, on_entropy, on_store, on_script, focus, random_hex,
    getrandom, sbind. cbn. by rewrite decide_True.
Qed.

(** The state the code step leaves. *)
Lemma code_step_state req w th token p row code :
  smooth w req -> unthrottled w req th -> 32 <= length (sc_entropy (wb_script w)) ->
  rq_jar req !! PENDING_COOKIE = Some token -> se_pending (wb_sessions w) !! token = Some p ->
  (since (cl_instant clk) (pd_created p) < PENDING_TTL)%Z ->
  us_rows (wb_users w) !! pd_username p = Some row ->
  (handle clk (PostTotp code) req w).2 =
  match code_good row code with
  | Some step =>
      mkWeb (mkUsers (<[pd_username p := put_step step row]> (us_rows (wb_users w))) (us_sequence (wb_users w)))
        (mkScript (sc_io (wb_script w)) (drop 32 (sc_entropy (wb_script w))) (sc_error (wb_script w)))
        (insert_session (cl_instant clk) (pd_username p) (hex_encode (take 32 (sc_entropy (wb_script w))))
           (set_pending (delete token) (wb_sessions w)))
        th (wb_server w) (wb_decoy w)
  | None => with_sessions (fail_second_factor token (wb_sessions w)).2 (with_throttle th w)
  end.
Proof.
  intros [Hio Hcross] Ht Hent Hjar Hp Hfresh Hrow. unfold handle, deny_cross_origin. cbn [is_get].
  rewrite Hcross, (throttled_ok req _ w th Ht). unfold totp_login_submit, sbind at 1.
  rewrite (pending_fresh req (with_throttle th w) token p) by done.
  rewrite with_store_smooth by done. unfold sbind at 1.
  rewrite (check_code_smooth (pd_username p) code (with_throttle th w) row) by done.
  destruct (code_good row code) as [step|].
  - unfold sbind at 1. unfold on_sessions at 1, focus, finish_second_factor, smodify.
    by rewrite sign_in_smooth by done.
  - unfold sbind at 1, on_sessions, focus. cbn [with_throttle wb_sessions].
    by destruct (fail_second_factor token (wb_sessions w)) as [[|] s'].
Qed.

(** ** Properties *)

(** The code step, in full.  For a fresh parked sign-in of an account, a code
    that is current and unspent spends its step, consumes the parked sign-in and
    mints a session for that account; any other code is refused with one more
    failure on record, and the fifth failure discards the parked sign-in. *)
Theorem code_step_effect req w th token p row code :
  smooth w req -> unthrottled w req th -> 32 <= length (sc_entropy (wb_script w)) ->
  rq_jar req !! PENDING_COOKIE = Some token -> se_pending (wb_sessions w) !! token = Some p ->
  (since (cl_instant clk) (pd_created p) < PENDING_TTL)%Z ->
  us_rows (wb_users w) !! pd_username p = Some row ->
  let u := pd_username p in
  let w' := (handle clk (PostTotp code) req w).2 in
  match code_good row code with
  | Some step =>
      let session := hex_encode (take 32 (sc_entropy (wb_script w))) in
      us_rows (wb_users w') = <[u := put_step step row]> (us_rows (wb_users w)) /\
      se_pending (wb_sessions w') = delete token (se_pending (wb_sessions w)) /\
      se_inner (wb_sessions w') !! session = Some (mkSession u (cl_instant clk))
  | None =>
      wb_users w' = wb_users w /\ se_inner (wb_sessions w') = se_inner (wb_sessions w) /\
      se_pending (wb_sessions w') =
        if (PENDING_FAILURES <=? pd_failures p + 1)%N then delete token (se_pending (wb_sessions w))
        else <[token := mkPending u (pd_created p) (pd_failures p + 1)]> (se_pending (wb_sessions w))
  end.
Proof.
  intros Hsm Ht Hent Hjar Hp Hfresh Hrow u w'. unfold w'.
  rewrite (code_step_state req w th token p row code) by done. fold u.
  destruct (code_good row code) as [step|].
  2:{ unfold fail_second_factor. rewrite Hp. by destruct (PENDING_FAILURES <=? pd_failures p + 1)%N. }
  unfold insert_session, set_inner, set_pending.
  cbn [wb_users wb_sessions us_rows se_pending se_inner]. split_and!; [done|done|]. by rewrite lookup_insert_eq.
Qed.

(** Turning the second factor on, in full.  A request of [u]'s live session
    with the account's password, a valid secret and a code of that secret puts
    the secret and the spent step on the account, whatever factor it had before
    (a code of an old secret is never asked for), and leaves the requester's
    session as the only one. *)
Theorem enable_effect req w t u row secret code password step :
  smooth w req -> signed_in clk w req t u -> us_rows (wb_users w) !! u = Some row ->
  blocking_verify password (u_password_hash row) = true -> is_valid_secret secret = true ->
  verify secret code (cl_epoch clk) = Some step ->
  handle clk (PostEnable secret code password) req w =
  (redirect_to (bs "/settings/account/totp?saved=on"),
   mkWeb (mkUsers (<[u := put_step step (put_secret (Some secret) (cl_epoch clk) row)]> (us_rows (wb_users w)))
            (us_sequence (wb_users w)))
     (wb_script w) (only_session t u (wb_sessions w)) (wb_throttle w) (wb_server w) (wb_decoy w)).
Proof.
  intros [Hio Hcross] Hs Hrow Hpw Hvalid Hver. unfold handle, deny_cross_origin. cbn [is_get].
  rewrite Hcross, (guarded_live req _ w t u Hs). unfold enable, sbind at 1.
  rewrite (current_user_live req _ t u) by by apply signed_in_touched.
  rewrite with_store_smooth by done. rewrite Hvalid. cbn [negb]. unfold sbind at 1.
  rewrite (password_ok_smooth u password _ row) by done. rewrite Hpw, Hver. unfold sbind at 1.
  unfold set_totp_secret. rewrite (update_smooth u _ _ _ row) by done. unfold sbind at 1.
  unfold claim_totp_step. erewrite update_smooth; [|done|cbn; apply lookup_insert_eq|done]. unfold sbind at 1.
  rewrite (revoke_others_eq req _ t) by apply Hs. unfold sret, with_sessions. cbn.
  rewrite touched_twice, revoke_touched, insert_insert_eq. done.
Qed.

Lemma set_password_smooth u new hash w row :
  sc_io (wb_script w) = [] -> us_rows (wb_users w) !! u = Some row -> new <> [] ->
  16 <= length (sc_entropy (wb_script w)) ->
  hash_password_with_salt new (take 16 (sc_entropy (wb_script w))) = Ok hash ->
  on_store (set_password (cl_epoch clk) u new) w =
  (Ok true, mkWeb (mkUsers (<[u := put_password hash (cl_epoch clk) row]> (us_rows (wb_users w)))
                     (us_sequence (wb_users w)))
              (mkScript [] (drop 16 (sc_entropy (wb_script w))) (sc_error (wb_script w)))
              (wb_sessions w) (wb_throttle w) (wb_server w) (wb_decoy w)).
Proof.
  intros Hio Hrow Hnew Hlen Hhash. destruct w as [us [io en er] se th sv de]. cbn in Hio, Hrow, Hlen, Hhash. subst io.
  unfold on_store, focus, set_password, try_bind, sbind, sret, validate_password.
  destruct new as [|b new]; [done|]. cbn [is_nonempty].
  unfold on_script, focus, hash_password, try_bind, hash_slot, spawn_blocking, blocking_hash, sbind, getrandom, SALT_LEN.
  cbn. rewrite decide_True by done. cbn. rewrite Hhash. unfold query, update_user. cbn. by rewrite Hrow.
Qed.

(** Changing the password, in full.  A request of [u]'s live session with the
    current password and an acceptable new one replaces the hash and ends every
    other session; the sign-ins parked under the old password stay. *)
Theorem change_password_effect req w t u row current new hash :
  smooth w req -> signed_in clk w req t u -> us_rows (wb_users w) !! u = Some row ->
  blocking_verify current (u_password_hash row) = true -> password_rejection new new = None ->
  16 <= length (sc_entropy (wb_script w)) ->
  hash_password_with_salt new (take 16 (sc_entropy (wb_script w))) = Ok hash ->
  handle clk (PostPassword current new new) req w =
  (redirect_to (bs "/settings?saved=account"),
   mkWeb (mkUsers (<[u := put_password hash (cl_epoch clk) row]> (us_rows (wb_users w))) (us_sequence (wb_users w)))
     (mkScript [] (drop 16 (sc_entropy (wb_script w))) (sc_error (wb_script w)))
     (mkSessions {[t := mkSession u (cl_instant clk)]} (se_pending (wb_sessions w)))
     (wb_throttle w) (wb_server w) (wb_decoy w)).
Proof.
  intros [Hio Hcross] Hs Hrow Hpw Hnew Hlen Hhash. unfold handle, deny_cross_origin. cbn [is_get].
  rewrite Hcross, (guarded_live req _ w t u Hs). unfold change_password, sbind at 1.
  rewrite (current_user_live req _ t u) by by apply signed_in_touched. rewrite Hnew.
  rewrite with_store_smooth by done. unfold sbind at 1.
  rewrite (password_ok_smooth u current _ row) by done. rewrite Hpw. unfold sbind at 1.
  rewrite (set_password_smooth u new hash _ row) by (try done; by intros ->).
  unfold sbind at 1. rewrite (revoke_others_eq req _ t) by apply Hs. unfold sret, with_sessions. cbn.
  rewrite touched_twice, revoke_touched. done.
Qed.

End Smooth.

(** C7: nobody is signed in without proof.  Whatever requests an instance has
    served, in any order, at any times and with any failures, take any session in
    the table.  One request of the history opened it: before that request the token
    was not the user's, from it on it has been, and that very request claimed the
    instance while it had no account, or proved the password of an account that had
    no second factor, or brought a current, unspent code of the account's secret
    with the cookie of a sign-in which an earlier request had parked, by the
    account's password, and which stayed parked until then. *)
Theorem session_authorised `{D : Digests} `{H : PasswordHasher} `{Q : QrCodes} history w t x :
  served history w -> se_inner (wb_sessions w) !! t = Some x -> opened_by t (ss_username x) history.
Proof. intros Hs Hx. apply (served_sessions history w); [done|]. unfold session_of. by rewrite Hx. Qed.

(** ** Concrete parameters *)

(** Hashes that show the password. *)
Definition toy_hasher : PasswordHasher := {|
  hash_password_with_salt := fun password _ => Ok ("#"%byte :: password);
  blocking_verify := fun password stored => bool_decide (stored = "#"%byte :: password)
|}.

Definition toy_qr : QrCodes := fun _ => Ok [].

Definition no_headers : Headers := mkHeaders (fun _ => None) (fun _ => []).
Definition toy_req (cookies : list (bytes * bytes)) : Req := mkReq (list_to_map cookies) no_headers None.
Definition toy_clock (seconds : Z) : Clock := mkClock (seconds * SEC) seconds.
Definition toy_script : Script := mkScript [] (replicate 48 "k"%byte) [].
Definition toy_password : bytes := bs "correct horse".

Definition toy_handle := @handle tail_digests toy_hasher toy_qr.

(** An instance claimed at second 1000. *)
Definition claimed : Web :=
  (toy_handle (toy_clock 1000) (PostSetup (bs "op") toy_password toy_password) (toy_req [])
     (with_script toy_script (web_start server_default []))).2.

Definition claim_token : bytes := @hex_encode tail_digests (replicate 32 "k"%byte).

Definition claim_event : Event :=
  mkEvent (with_script toy_script (web_start server_default [])) (toy_clock 1000)
    (PostSetup (bs "op") toy_password toy_password) (toy_req []).

Lemma session_authorised_witness :
  se_inner (wb_sessions claimed) !! claim_token = Some (mkSession (bs "op") (1000 * SEC)) /\
  @opened_by tail_digests toy_hasher toy_qr claim_token (bs "op") [claim_event].
Proof.
  assert (se_inner (wb_sessions claimed) !! claim_token = Some (mkSession (bs "op") (1000 * SEC))) as Hx
    by (vm_compute; reflexivity).
  split; [exact Hx|].
  apply (@session_authorised tail_digests toy_hasher toy_qr [claim_event] claimed claim_token
    (mkSession (bs "op") (1000 * SEC))); [|exact Hx].
  apply (@served_one tail_digests toy_hasher toy_qr []). apply served_none.
Defined.

(** An account with a second factor, a parked sign-in and two sessions. *)
Definition protected : Web :=
  mkWeb (mkUsers {[bs "op" := mkUser 1 ("#"%byte :: toy_password) 0 0 (Some sample_secret) (Some 30%Z)]} 1)
    toy_script
    (mkSessions {[claim_token := mkSession (bs "op") (900 * SEC); bs "other" := mkSession (bs "op") (800 * SEC)]}
       {[bs "park" := mkPending (bs "op") (950 * SEC) 4]})
    throttle_default server_default [].

Lemma smooth_toy cookies : smooth protected (toy_req cookies).
Proof. split; reflexivity. Qed.

Lemma code_step_effect_witness :
  se_pending (wb_sessions (toy_handle (toy_clock 1000) (PostTotp (bs "nonsense"))
    (toy_req [(PENDING_COOKIE, bs "park")]) protected).2) = ∅.
Proof.
  pose proof (@code_step_effect tail_digests toy_hasher toy_qr (toy_clock 1000) (toy_req [(PENDING_COOKIE, bs "park")])
    protected throttle_default (bs "park") (mkPending (bs "op") (950 * SEC) 4)
    (mkUser 1 ("#"%byte :: toy_password) 0 0 (Some sample_secret) (Some 30%Z)) (bs "nonsense")
    (smooth_toy _) eq_refl) as Hc.
  destruct Hc as (_ & _ & Hp); [vm_compute; lia|vm_compute; reflexivity..|].
  unfold toy_handle. rewrite Hp. vm_compute. reflexivity.
Defined.

Lemma signed_in_toy cookies :
  (list_to_map cookies : gmap bytes bytes) !! COOKIE_NAME = Some claim_token ->
  signed_in (toy_clock 1000) protected (toy_req cookies) claim_token (bs "op").
Proof. intros Hc. split; [exact Hc|]. eexists. split; [vm_compute; reflexivity|]. by split. Qed.

Definition other_secret : bytes := base32_encode (replicate 20 "z"%byte).

Lemma enable_effect_witness :
  (toy_handle (toy_clock 1000)
     (PostEnable other_secret (@code_at tail_digests other_secret 1000) toy_password)
     (toy_req [(COOKIE_NAME, claim_token)]) protected).1
  = redirect_to (bs "/settings/account/totp?saved=on").
Proof.
  unfold toy_handle.
  rewrite (@enable_effect tail_digests toy_hasher toy_qr (toy_clock 1000) (toy_req [(COOKIE_NAME, claim_token)])
    protected claim_token (bs "op") (mkUser 1 ("#"%byte :: toy_password) 0 0 (Some sample_secret) (Some 30%Z))
    other_secret (@code_at tail_digests other_secret 1000) toy_password 32);
    [reflexivity|apply smooth_toy|apply signed_in_toy; reflexivity|vm_compute; reflexivity..].
Defined.

Lemma change_password_effect_witness :
  se_pending (wb_sessions (toy_handle (toy_clock 1000)
     (PostPassword toy_password (bs "battery staple") (bs "battery staple"))
     (toy_req [(COOKIE_NAME, claim_token)]) protected).2) !! bs "park"
  = Some (mkPending (bs "op") (950 * SEC) 4).
Proof.
  unfold toy_handle.
  rewrite (@change_password_effect tail_digests toy_hasher toy_qr (toy_clock 1000)
    (toy_req [(COOKIE_NAME, claim_token)]) protected claim_token (bs "op")
    (mkUser 1 ("#"%byte :: toy_password) 0 0 (Some sample_secret) (Some 30%Z)) toy_password (bs "battery staple")
    (bs "#battery staple"));
    [reflexivity|apply smooth_toy|apply signed_in_toy; reflexivity|vm_compute; reflexivity..|vm_compute; lia|reflexivity].
Defined.

(** A username typed with spaces at setup: the account is stored trimmed, and the
    session is for the name as typed, which is no account. *)
Example setup_signs_in_untrimmed :
  let w := (toy_handle (toy_clock 1000) (PostSetup (bs " op ") toy_password toy_password) (toy_req [])
              (with_script toy_script (web_start server_default []))).2 in
  us_rows (wb_users w) !! bs " op " = None /\
  u_id <$> us_rows (wb_users w) !! bs "op" = Some 1%Z /\
  se_inner (wb_sessions w) !! claim_token = Some (mkSession (bs " op ") (1000 * SEC)).
Proof. vm_compute. repeat split; reflexivity. Qed.

(** Two setup forms whose counts both run before either INSERT create two
    accounts: the UNIQUE constraint is on the name. *)
Example setup_race_two_accounts :
  let s := (us_empty, mkScript [] (replicate 64 "k"%byte) []) in
  let '(c1, s) := user_count s in
  let '(c2, s) := user_count s in
  let '(r1, s) := @create_user toy_hasher 1 (bs "ann") toy_password s in
  let '(r2, s) := @create_user toy_hasher 1 (bs "bob") toy_password s in
  c1 = Ok 0 /\ c2 = Ok 0 /\ r1 = Ok 1%Z /\ r2 = Ok 2%Z /\ size (us_rows s.1) = 2.
Proof. vm_compute. repeat split; reflexivity. Qed.
