(* ===== verification/FileTree.v ===== *)
(** * Directory trees

    What [read_dir], [DirEntry::metadata] and [fs::metadata] show of a directory
    tree, and the parts of [std::path], [slice] and [String] that walks over it
    use: collecting components, ordering paths, extensions, lossy text. *)

From stdpp Require Import sorting.
From S2P Require Import Prelude RustStd Text Model Paths.

(** ** Trees *)

(** Where a symlink leads. *)
Inductive Target : Type := ToFile (len : N) | ToDir | ToOther | Broken (e : bytes).

(** A directory entry as a walk meets it: what its own metadata says, and for a
    directory what listing it gives.  An element of a listing is an entry, or
    the error reading it. *)
Inductive Tree : Type :=
| File (len : N)
| Dir (listing : result (list (result (bytes * Tree) bytes)) bytes)
| Symlink (target : Target)
| Other
| Gone
| Unstatable (e : bytes).

Abbreviation Listing := (result (list (result (bytes * Tree) bytes)) bytes).

(** [library::MAX_DEPTH]. *)
Definition MAX_DEPTH : nat := 16.

(** A loop over a slice whose body may fail. *)
Fixpoint try_fold {A S E : Type} (f : S -> A -> result S E) (l : list A) (s : S) : result S E :=
  match l with
  | [] => Ok s
  | x :: l => let? s := f s x in try_fold f l s
  end.

(** ** Paths *)

Definition component_text (c : Component) : bytes :=
  match c with RootDir => [sep] | CurDir => bs "." | ParentDir => bs ".." | Normal s => s end.

(** [PathBuf: FromIterator<Component>]. *)
Definition collect_path (cs : list Component) : bytes :=
  fold_left (fun p c => path_join p (component_text c)) cs [].

Definition component_rank (c : Component) : N :=
  match c with RootDir => 0 | CurDir => 1 | ParentDir => 2 | Normal _ => 3 end.

Definition component_compare (a b : Component) : comparison :=
  match a, b with
  | Normal s, Normal t => bytes_compare s t
  | _, _ => (component_rank a ?= component_rank b)%N
  end.

Fixpoint components_compare (a b : list Component) : comparison :=
  match a, b with
  | [], [] => Eq
  | [], _ :: _ => Lt
  | _ :: _, [] => Gt
  | x :: a, y :: b => match component_compare x y with Eq => components_compare a b | c => c end
  end.

(** [Ord for Path]. *)
Definition path_compare (a b : bytes) : comparison := components_compare (components a) (components b).

#[export] Instance path_eq_dec : RelDecision path_eq.
Proof. intros p q. unfold path_eq. apply _. Defined.

(** [Path::starts_with]. *)
Definition path_starts_with (p base : bytes) : bool := bool_decide (components base `prefix_of` components p).

(** [Path::extension]. *)
Definition extension (p : bytes) : option bytes :=
  name ← file_name p;
  i ← position (fun b => bool_decide (b = "."%byte)) (reverse name);
  if bool_decide (length name = S i) then None else Some (drop (length name - i) name).

(** ** Sorting *)

Section Sort.
Context {A : Type} (cmp : A -> A -> comparison).

Fixpoint sort_insert (x : A) (l : list A) : list A :=
  match l with
  | [] => [x]
  | y :: l' => match cmp x y with Gt => y :: sort_insert x l' | _ => x :: l end
  end.

(** [slice::sort_by], which keeps the order of equal elements. *)
Definition sort_by (l : list A) : list A := foldr sort_insert [] l.

Lemma sort_insert_perm x l : sort_insert x l ≡ₚ x :: l.
Proof.
  induction l as [|y l IH]; [done|]. cbn. destruct (cmp x y); [done|done|]. rewrite IH. constructor.
Qed.

Lemma sort_by_perm l : sort_by l ≡ₚ l.
Proof. induction l as [|x l IH]; [done|]. cbn. by rewrite sort_insert_perm, IH. Qed.

(** Not greater. *)
Definition cmp_le (x y : A) : Prop := cmp x y <> Gt.

Lemma sort_insert_sorted x l :
  (forall a b, cmp a b = Gt -> cmp_le b a) -> Sorted cmp_le l -> Sorted cmp_le (sort_insert x l).
Proof.
  intros Hflip. induction 1 as [|y l Hs IH Hh]; cbn; [repeat constructor|].
  destruct (cmp x y) eqn:E.
  - constructor; [by constructor|]. constructor. unfold cmp_le. congruence.
  - constructor; [by constructor|]. constructor. unfold cmp_le. congruence.
  - constructor; [done|]. destruct l as [|z l]; cbn; [constructor; by apply Hflip|].
    destruct (cmp x z); constructor; try (by apply Hflip); by inversion Hh.
Qed.

Lemma sort_by_sorted l : (forall a b, cmp a b = Gt -> cmp_le b a) -> Sorted cmp_le (sort_by l).
Proof.
  intros Hflip. induction l as [|x l IH]; [constructor|]. cbn. by apply sort_insert_sorted.
Qed.

Lemma sort_insert_filter (P : A -> Prop) `{!forall x, Decision (P x)} x l :
  Transitive cmp_le -> Sorted cmp_le l ->
  filter P (sort_insert x l) = if decide (P x) then sort_insert x (filter P l) else filter P l.
Proof.
  intros Htr Hs. apply Sorted_StronglySorted in Hs; [|done].
  induction Hs as [|y l Hs IH Hall]; cbn [sort_insert]; [by rewrite filter_cons; case_decide|].
  assert (filter P (x :: y :: l) = if decide (P x) then x :: filter P (y :: l) else filter P (y :: l)) as Hhere
    by (by rewrite (filter_cons _ x); case_decide).
  assert (cmp_le x y -> forall l', Forall (cmp_le y) l' -> sort_insert x l' = x :: l') as Hfront.
  { intros Hxy [|z l'] Hl; [done|]. apply Forall_cons in Hl as [Hyz _]. cbn.
    assert (cmp_le x z) as Hxz by (by transitivity y). unfold cmp_le in Hxz. by destruct (cmp x z). }
  assert (Forall (cmp_le y) (filter P l)) as Hfl.
  { rewrite Forall_forall in Hall |- *. intros z [_ Hz]%list_elem_of_filter. by apply Hall. }
  assert (cmp_le x y -> sort_insert x (filter P (y :: l)) = x :: filter P (y :: l)) as Hins.
  { intros Hxy. rewrite filter_cons. destruct (decide (P y)).
    - cbn. unfold cmp_le in Hxy. by destruct (cmp x y).
    - by rewrite (Hfront Hxy). }
  destruct (cmp x y) eqn:E.
  - rewrite Hhere, Hins by (unfold cmp_le; congruence). done.
  - rewrite Hhere, Hins by (unfold cmp_le; congruence). done.
  - rewrite !(filter_cons _ y), IH. repeat case_decide; try done. cbn. by rewrite E.
Qed.

(** A stable sort and a filter commute. *)
Lemma sort_by_filter (P : A -> Prop) `{!forall x, Decision (P x)} l :
  (forall a b, cmp a b = Gt -> cmp_le b a) -> Transitive cmp_le -> filter P (sort_by l) = sort_by (filter P l).
Proof.
  intros Hflip Htr. induction l as [|x l IH]; [done|]. cbn [sort_by foldr].
  change (foldr sort_insert [] l) with (sort_by l).
  rewrite sort_insert_filter by (done || by apply sort_by_sorted). rewrite IH, filter_cons. by case_decide.
Qed.

End Sort.

Lemma Sorted_weaken {A : Type} (R R' : A -> A -> Prop) (l : list A) :
  (forall x y, R x y -> R' x y) -> Sorted R l -> Sorted R' l.
Proof.
  intros HR. induction 1 as [|x l Hs IH Hh]; constructor; [done|]. destruct Hh; constructor. by apply HR.
Qed.

(** ** Lossy text *)

(** The range of the second byte and the length of the sequence a leading byte
    announces. *)
Definition utf8_row (b : byte) : option (N * N * nat) :=
  if byte_in 194 223 b then Some (128%N, 191%N, 2)
  else if byte_in 224 239 b then
    Some (if bool_decide (byte_val b = 224%N) then 160 else 128,
          if bool_decide (byte_val b = 237%N) then 159 else 191, 3%nat)%N
  else if byte_in 240 244 b then
    Some (if bool_decide (byte_val b = 240%N) then 144 else 128,
          if bool_decide (byte_val b = 244%N) then 143 else 191, 4%nat)%N
  else None.

(** How many of the first [n] bytes continue a sequence. *)
Fixpoint continued (n : nat) (s : bytes) : nat :=
  match n, s with
  | S n, b :: s => if byte_in 128 191 b then S (continued n s) else 0
  | _, _ => 0
  end.

(** The length of the character at the head of [s], or of the malformed sequence
    there, and which it is. *)
Definition utf8_head (s : bytes) : nat * bool :=
  match s with
  | [] => (0, true)
  | b :: r =>
      if byte_in 0 127 b then (1, true)
      else match utf8_row b, r with
           | Some (lo, hi, len), b1 :: r =>
               if byte_in lo hi b1 then
                 let n := 2 + continued (len - 2) r in (n, n =? len)
               else (1, false)
           | _, _ => (1, false)
           end
  end.

Definition REPLACEMENT : bytes := [xef; xbf; xbd].

Fixpoint lossy_loop (fuel : nat) (s : bytes) : bytes :=
  match fuel, s with
  | S fuel, _ :: _ =>
      let '(n, ok) := utf8_head s in
      (if ok then take n s else REPLACEMENT) ++ lossy_loop fuel (drop n s)
  | _, _ => []
  end.

(** [String::from_utf8_lossy] and [OsStr::to_string_lossy]. *)
Definition to_string_lossy (s : bytes) : bytes := lossy_loop (length s) s.

Example lossy_samples :
  to_string_lossy (bs "ab" ++ [xff] ++ bs "c" ++ [xe2; x82] ++ bs "d") =
    bs "ab" ++ REPLACEMENT ++ bs "c" ++ REPLACEMENT ++ bs "d".
Proof. vm_compute. reflexivity. Qed.

(** ** Facts *)

Lemma utf8_head_valid b s :
  utf8_valid (b :: s) = true ->
  exists n, utf8_head (b :: s) = (S n, true) /\ utf8_valid (drop n s) = true.
Proof.
  intros Hv. cbn [utf8_valid] in Hv. unfold utf8_head.
  destruct (byte_in 0 127 b); [by exists 0|]. unfold utf8_row.
  destruct s as [|b1 s]; [done|].
  destruct (byte_in 194 223 b).
  { apply andb_true_iff in Hv as [-> Hv]. by exists 1. }
  destruct s as [|b2 s]; [done|].
  destruct (byte_in 224 239 b).
  { rewrite !andb_true_iff in Hv. destruct Hv as [[-> H2] Hv]. exists 2. cbn. by rewrite H2. }
  destruct s as [|b3 s]; [done|]. rewrite !andb_true_iff in Hv. destruct Hv as [[[[-> ->] H2] H3] Hv].
  exists 3. cbn. by rewrite H2, H3.
Qed.

(** Text is its own lossy reading. *)
Lemma to_string_lossy_valid s : utf8_valid s = true -> to_string_lossy s = s.
Proof.
  unfold to_string_lossy. assert (forall fuel, length s <= fuel -> utf8_valid s = true -> lossy_loop fuel s = s); [|by auto].
  induction s as [s IH] using (induction_ltof1 _ length). unfold ltof in IH. intros [|fuel] Hf Hv;
    destruct s as [|b s]; try done; cbn in Hf; [lia|]. cbn [lossy_loop].
  destruct (utf8_head_valid b s Hv) as (n & -> & Hrest). cbn [take drop app]. f_equal.
  rewrite IH; [by rewrite take_drop|cbn; rewrite length_drop; lia|rewrite length_drop; lia|done].
Qed.

(** *** Collecting components *)

(** The components of a path: only the first may be the root or [.], and no name
    holds a separator or reads as another component. *)
Definition plain_component (c : Component) : Prop :=
  match c with
  | RootDir | CurDir => False
  | ParentDir => True
  | Normal s => component_of s = Some (Normal s) /\ sep ∉ s
  end.

Definition components_wf (cs : list Component) : Prop :=
  match cs with
  | [] => True
  | c :: cs => (c = RootDir \/ c = CurDir \/ plain_component c) /\ Forall plain_component cs
  end.

Lemma body_plain segs : Forall (fun s => sep ∉ s) segs -> Forall plain_component (body segs).
Proof.
  induction 1 as [|s segs Hs Hsegs IH]; [constructor|]. unfold body in *. cbn.
  destruct (component_of s) as [c|] eqn:E; [|done]. constructor; [|done].
  pose proof E as E'. unfold component_of in E'. repeat case_bool_decide; simplify_eq; cbn; auto.
Qed.

Lemma components_are_wf p : components_wf (components p).
Proof.
  unfold components. pose proof (body_plain _ (start_parts p)) as Hb. revert Hb. unfold start.
  destruct (has_root p); cbn [fst snd app]; [by intros Hb; split; [left|]|].
  destruct (split_byte sep p) as [|s segs]; [done|]. case_bool_decide; cbn [fst snd app].
  - intros Hb. split; [right; by left|done].
  - destruct (body (s :: segs)) as [|c cs]; [done|]. intros [Hc Hcs]%Forall_cons. split; [right; by right|done].
Qed.

Lemma components_wf_prefix cs ds : cs `prefix_of` ds -> components_wf ds -> components_wf cs.
Proof.
  intros [more ->]. destruct cs as [|c cs]; [done|]. cbn. intros [Hc Hcs]. split; [done|].
  by apply Forall_app in Hcs as [? _].
Qed.

Lemma component_text_components c : plain_component c ->
  is_absolute (component_text c) = false /\ (start (component_text c)).1 = [] /\
  components (component_text c) = [c].
Proof.
  destruct c as [| | |s]; cbn [plain_component component_text]; [done|done|by intros _|].
  intros [Hc Hs]. unfold component_of in Hc. repeat case_bool_decide; simplify_eq.
  assert (has_root s = false) as Hr.
  { destruct s as [|b s]; [done|]. cbn. rewrite bool_decide_false; [done|]. intros ->. set_solver. }
  unfold components, start, is_absolute. rewrite Hr, (split_byte_none sep s Hs).
  rewrite bool_decide_false by done. cbn. unfold component_of. by repeat rewrite bool_decide_false by done.
Qed.

(** Collecting the components of a path, or of one of its ancestors, gives a path
    with those components. *)
Lemma components_collect cs : components_wf cs -> components (collect_path cs) = cs.
Proof.
  intros Hwf. unfold collect_path. destruct cs as [|c cs]; [done|]. destruct Hwf as [Hc Hcs].
  assert (forall p, Forall plain_component cs ->
    components (fold_left (fun p c => path_join p (component_text c)) cs p) = components p ++ cs) as Hfold.
  { clear. induction cs as [|c cs IH]; intros p Hcs; [by rewrite app_nil_r|].
    apply Forall_cons in Hcs as [Hc Hcs]. cbn [fold_left]. rewrite IH by done.
    destruct (component_text_components c Hc) as (Ha & Hs & Hcomp).
    by rewrite components_join_plain, Hcomp, <- app_assoc by done. }
  cbn [fold_left]. rewrite Hfold by done.
  assert (components (path_join [] (component_text c)) = [c]) as ->; [|done].
  destruct Hc as [->|[->|Hc]]; [done|done|].
  destruct (component_text_components c Hc) as (Ha & Hs & Hcomp). unfold path_join. rewrite Ha. done.
Qed.

(** *** The order of paths *)

Lemma component_compare_antisym a b : component_compare b a = CompOpp (component_compare a b).
Proof. destruct a, b; try done. cbn. apply bytes_compare_antisym. Qed.

Lemma components_compare_antisym a b : components_compare b a = CompOpp (components_compare a b).
Proof.
  revert b. induction a as [|x a IH]; intros [|y b]; try done. cbn.
  rewrite component_compare_antisym. destruct (component_compare x y); [apply IH|done|done].
Qed.

Lemma path_compare_antisym a b : path_compare b a = CompOpp (path_compare a b).
Proof. apply components_compare_antisym. Qed.
