(* ===== verification/PathSuggest.v ===== *)
(** * Suggested path mappings (crates/sharerr/src/pathsuggest.rs)

    An index of the files under a search root by name and size, the prefix pair
    one discovered file proposes, and the pairs ranked by how many files agree
    on them.  The tree under the root is an argument; so is the order in which
    the [HashMap] of agreements is walked. *)

From stdpp Require Import sorting.
From S2P Require Import Prelude RustStd Text Model Paths FileTree.

Record Suggestion : Type := mkSuggestion {
  sg_arr : bytes;
  sg_sharerr : bytes;
  sg_agreement : nat
}.

Abbreviation Index := (gmap (bytes * N) (list bytes)).
Abbreviation Agreement := (gmap (bytes * bytes) nat).

(** ** The index *)

(** What [index_dir] does with one regular file. *)
Definition index_file (path : bytes) (len : N) (map : Index) : Index :=
  match file_name path with
  | Some name =>
      if utf8_valid name then <[(name, len) := default [] (map !! (name, len)) ++ [path]]> map else map
  | None => map
  end.

(** [index_dir] at depth [MAX_DEPTH + 1 - levels]. *)
Fixpoint index_dir (levels : nat) (dir : bytes) (listing : Listing) (map : Index) : Index :=
  match levels with
  | O => map
  | S levels =>
      match listing with
      | Err _ => map
      | Ok entries =>
          fold_left (fun map entry =>
            match entry with
            | Err _ => map
            | Ok (name, node) =>
                let path := path_join dir name in
                match node with
                | Gone | Unstatable _ | Symlink _ | Other => map
                | Dir sub => index_dir levels path sub map
                | File len => index_file path len map
                end
            end) entries map
      end
  end.

Definition index (root : bytes) (listing : Listing) : Index := index_dir (S MAX_DEPTH) root listing ∅.

(** ** One file's proposal *)

Fixpoint take_while {A : Type} (p : A -> bool) (l : list A) : list A :=
  match l with
  | [] => []
  | x :: l => if p x then x :: take_while p l else []
  end.

Definition common_suffix_prefixes (arr_path sharerr_path : bytes) : option (bytes * bytes) :=
  if bool_decide (path_eq arr_path sharerr_path) then None
  else
    let arr_components := components arr_path in
    let sharerr_components := components sharerr_path in
    let max_matched := length arr_components - 2 in
    let matched :=
      length (take_while (fun ab => bool_decide (ab.1 = ab.2))
                (take max_matched (zip (reverse arr_components) (reverse sharerr_components)))) in
    if (matched =? 0) || (matched =? length sharerr_components) then None
    else Some (collect_path (take (length arr_components - matched) arr_components),
               collect_path (take (length sharerr_components - matched) sharerr_components)).

(** The prefixes one discovered file contributes. *)
Definition vote (idx : Index) (item : Discovered) : option (bytes * bytes) :=
  name ← file_name (d_arr_path item);
  name ← from_utf8 name;
  candidates ← idx !! (name, d_size item);
  match candidates with
  | [only] => common_suffix_prefixes (d_arr_path item) only
  | _ => None
  end.

(** ** Ranking *)

(** One round of the loop over the discovered files. *)
Definition count_vote (idx : Index) (agreement : Agreement) (item : Discovered) : Agreement :=
  match vote idx item with
  | Some prefixes => <[prefixes := S (default 0 (agreement !! prefixes))]> agreement
  | None => agreement
  end.

(** [HashMap::into_iter]. *)
Class AgreementIter : Type := agreement_iter : Agreement -> list (bytes * bytes * nat).

Class AgreementIterLaws (I : AgreementIter) : Prop :=
  agreement_iter_perm : forall m : Agreement, agreement_iter m ≡ₚ map_to_list m.

Definition suggestion_compare (a b : Suggestion) : comparison :=
  match Nat.compare (sg_agreement b) (sg_agreement a) with
  | Eq => path_compare (sg_arr a) (sg_arr b)
  | c => c
  end.

Section Suggest.
Context `{I : AgreementIter}.

Definition suggest (discovered : list Discovered) (search_root : bytes) (listing : Listing) : list Suggestion :=
  let idx := index search_root listing in
  let agreement := fold_left (count_vote idx) discovered ∅ in
  let suggestions := map (fun e => mkSuggestion e.1.1 e.1.2 e.2) (agreement_iter agreement) in
  sort_by suggestion_compare suggestions.

End Suggest.

(** ** Facts: the index *)

(** A regular file below a listed directory, with no symlink on the way. *)
Inductive plain_file : bytes -> Listing -> bytes -> N -> Prop :=
| plain_here dir entries name len :
    Ok (name, File len) ∈ entries -> plain_file dir (Ok entries) (path_join dir name) len
| plain_below dir entries name sub p len :
    Ok (name, Dir sub) ∈ entries -> plain_file (path_join dir name) sub p len ->
    plain_file dir (Ok entries) p len.

(** Every path an index holds satisfies [P]. *)
Definition index_all (P : bytes -> N -> Prop) (idx : Index) : Prop :=
  forall name len paths p, idx !! (name, len) = Some paths -> p ∈ paths -> file_name p = Some name /\ P p len.

Lemma index_file_all (P : bytes -> N -> Prop) path len idx :
  index_all P idx -> P path len -> index_all P (index_file path len idx).
Proof.
  intros Hall HP name len' paths p. unfold index_file. destruct (file_name path) as [n|] eqn:En; [|by apply Hall].
  destruct (utf8_valid n); [|by apply Hall]. rewrite lookup_insert_Some.
  intros [[[= <- <-] <-]|[_ Hl]] Hp; [|by eapply Hall].
  apply elem_of_app in Hp as [Hp| ->%list_elem_of_singleton]; [|done].
  destruct (idx !! (n, len)) as [l|] eqn:El; [by eapply Hall|by apply elem_of_nil in Hp].
Qed.

Lemma index_dir_all (P : bytes -> N -> Prop) levels dir listing idx :
  (forall p len, plain_file dir listing p len -> P p len) ->
  index_all P idx -> index_all P (index_dir levels dir listing idx).
Proof.
  revert dir listing idx. induction levels as [|levels IH]; intros dir listing idx HP Hidx; [done|].
  cbn [index_dir]. destruct listing as [entries|e]; [|done].
  assert (forall es idx, (forall e, e ∈ es -> e ∈ entries) -> index_all P idx ->
    index_all P (fold_left (fun map entry =>
            match entry with
            | Err _ => map
            | Ok (name, node) =>
                let path := path_join dir name in
                match node with
                | Gone | Unstatable _ | Symlink _ | Other => map
                | Dir sub => index_dir levels path sub map
                | File len => index_file path len map
                end
            end) es idx)) as Hfold; [|by apply Hfold].
  induction es as [|e es IHes]; intros idx' Hin Hidx'; [done|]. cbn [fold_left].
  apply IHes; [set_solver|]. destruct e as [[name node]|]; [|done].
  assert (Ok (name, node) ∈ entries) as Hent by (apply Hin; set_solver).
  destruct node as [len|sub| | | |]; try done.
  - apply index_file_all; [done|]. apply HP. by constructor.
  - apply IH; [|done]. intros p len Hp. apply HP. by eapply plain_below.
Qed.

Lemma index_sound root listing name len paths p :
  index root listing !! (name, len) = Some paths -> p ∈ paths ->
  file_name p = Some name /\ plain_file root listing p len.
Proof. eapply index_dir_all; [done|]. intros ? ? ? ? H. done. Qed.

(** ** Facts: the proposal *)

Lemma take_while_zip {A : Type} `{EqDecision A} n (l1 l2 : list A) :
  let k := length (take_while (fun ab => bool_decide (ab.1 = ab.2)) (take n (zip l1 l2))) in
  take k l1 = take k l2 /\ k <= n /\ k <= length l1 /\ k <= length l2.
Proof.
  revert n l2. induction l1 as [|a l1 IH]; intros n l2; cbn; [rewrite !take_nil; cbn; split_and!; (done || lia)|].
  destruct l2 as [|b l2]; cbn; [rewrite !take_nil; cbn; split_and!; (done || lia)|].
  destruct n as [|n]; cbn; [split_and!; (done || lia)|]. case_bool_decide as Hab; cbn; [|split_and!; (done || lia)].
  destruct (IH n l2) as (Ht & Hn & H1 & H2). subst b. rewrite Ht. split_and!; (done || lia).
Qed.

Lemma take_reverse_drop {A : Type} k (l : list A) :
  k <= length l -> take k (reverse l) = reverse (drop (length l - k) l).
Proof.
  intros Hk. rewrite <- (take_drop (length l - k) l) at 1. rewrite reverse_app.
  apply take_app_length'. rewrite length_reverse, length_drop. lia.
Qed.

(** The two paths of a proposal share the suffix it strips: at least the last
    component, and never the first two of the *arr path. *)
Lemma common_suffix_spec a f pa pb :
  common_suffix_prefixes a f = Some (pa, pb) ->
  exists suffix, suffix <> [] /\
    components a = components pa ++ suffix /\ components f = components pb ++ suffix /\
    2 <= length (components pa) /\ components pb <> [] /\ ~ path_eq a f.
Proof.
  unfold common_suffix_prefixes. case_bool_decide as Hne; [done|].
  set (ca := components a). set (cf := components f).
  pose proof (take_while_zip (length ca - 2) (reverse ca) (reverse cf)) as Hz. cbn in Hz.
  set (k := length (take_while _ _)) in *. destruct Hz as (Ht & Hk & Hka & Hkf).
  rewrite length_reverse in Hka, Hkf. rewrite !take_reverse_drop in Ht by done. apply (inj reverse) in Ht.
  destruct (Nat.eqb_spec k 0) as [|Hk0]; [done|]. destruct (Nat.eqb_spec k (length cf)) as [|Hkn]; [done|].
  cbn [orb]. intros [= <- <-].
  rewrite !components_collect.
  2,3: eapply components_wf_prefix; [apply prefix_take|apply components_are_wf].
  exists (drop (length ca - k) ca). split_and!.
  - intros Hd%(f_equal length). rewrite length_drop in Hd. cbn in Hd. lia.
  - by rewrite take_drop.
  - by rewrite Ht, take_drop.
  - rewrite length_take. lia.
  - intros Hd%(f_equal length). rewrite length_take in Hd. cbn in Hd. lia.
  - done.
Qed.

(** The proposed rule, resolved: the *arr path leads to the file found. *)
Lemma proposal_resolves a f pa pb :
  common_suffix_prefixes a f = Some (pa, pb) -> is_absolute a = true ->
  exists r, resolve [mkMapping pa pb None] a = Ok r /\ rp_mapping_applied r = true /\
    path_eq (rp_sharerr r) f.
Proof.
  intros (suffix & Hs & Ha & Hf & Hpa & Hpb & _)%common_suffix_spec Habs.
  unfold resolve. rewrite Habs. cbn [negb].
  assert (components pa <> []) as Hpne by (destruct (components pa); [cbn in Hpa; lia|done]).
  pose proof (most_specific_match_spec [mkMapping pa pb None] pm_arr a) as Hm.
  destruct (most_specific_match [mkMapping pa pb None] pm_arr a) as [[m rest]|].
  - destruct Hm as (Hc & Hr & Hst & before & after & Hl & _); [by constructor|].
    assert (m = mkMapping pa pb None) as ->.
    { destruct before as [|x before]; simplify_list_eq; [done|]. by destruct before. }
    eexists. split; [done|]. split; [done|]. cbn [rp_sharerr pm_sharerr]. cbn in Hc.
    unfold path_eq. rewrite components_join_plain by done. rewrite Hf. f_equal.
    rewrite Ha in Hc. by apply app_inv_head in Hc.
  - exfalso. assert (Forall (fun m => ~ covers pm_arr a m) [mkMapping pa pb None]) as Hn by (apply Hm; by constructor).
    apply Forall_cons in Hn as [Hn _]. apply Hn. unfold covers. cbn. rewrite Ha. by apply prefix_app_r.
Qed.

(** ** Facts: the ranking *)

(** The files that propose [prefixes]. *)
Definition voters (idx : Index) (prefixes : bytes * bytes) (discovered : list Discovered) : list Discovered :=
  filter (fun d => vote idx d = Some prefixes) discovered.

Lemma agreement_counts (idx : Index) (discovered : list Discovered) (prefixes : bytes * bytes) (m : Agreement) :
  fold_left (count_vote idx) discovered m !! prefixes =
  match voters idx prefixes discovered with
  | [] => m !! prefixes
  | vs => Some (default 0 (m !! prefixes) + length vs)
  end.
Proof.
  revert m. induction discovered as [|d discovered IH]; intros m; [done|]. cbn [fold_left].
  rewrite IH. unfold voters. rewrite filter_cons. unfold count_vote.
  case_decide as Hd.
  - rewrite Hd, lookup_insert_eq. fold (voters idx prefixes discovered).
    destruct (voters idx prefixes discovered); cbn; f_equal; lia.
  - assert (match vote idx d with Some prefixes => <[prefixes:=S (default 0 (m !! prefixes))]> m | None => m end !! prefixes = m !! prefixes) as ->; [|done].
    destruct (vote idx d) as [other|]; [|done]. apply lookup_insert_ne. congruence.
Qed.

Section Ranking.
Context `{I : AgreementIter} `{L : !AgreementIterLaws I}.

Lemma elem_of_suggest discovered root listing s :
  s ∈ suggest discovered root listing <->
  fold_left (count_vote (index root listing)) discovered ∅ !! (sg_arr s, sg_sharerr s) = Some (sg_agreement s).
Proof.
  unfold suggest. rewrite sort_by_perm, list_elem_of_fmap. split.
  - intros ([[a b] n] & -> & Hin). cbn. rewrite agreement_iter_perm in Hin. by apply elem_of_map_to_list in Hin.
  - intros Hl. exists (sg_arr s, sg_sharerr s, sg_agreement s). split; [by destruct s|].
    rewrite agreement_iter_perm. by apply elem_of_map_to_list.
Qed.

End Ranking.

Lemma suggestion_compare_antisym a b : suggestion_compare b a = CompOpp (suggestion_compare a b).
Proof.
  unfold suggestion_compare. rewrite Nat.compare_antisym.
  destruct (Nat.compare (sg_agreement b) (sg_agreement a)); cbn; [apply path_compare_antisym|done|done].
Qed.

Lemma suggestion_order l : Sorted (cmp_le suggestion_compare) (sort_by suggestion_compare l).
Proof.
  apply sort_by_sorted. intros a b Hgt. unfold cmp_le. rewrite suggestion_compare_antisym, Hgt. done.
Qed.

(** A vote comes from one file of the same name and size. *)
Lemma vote_file root listing d a b :
  vote (index root listing) d = Some (a, b) ->
  exists found, plain_file root listing found (d_size d) /\ file_name found = file_name (d_arr_path d) /\
    common_suffix_prefixes (d_arr_path d) found = Some (a, b).
Proof.
  unfold vote. destruct (file_name (d_arr_path d)) as [name|]; [|done]. cbn [mbind option_bind].
  destruct (from_utf8 name) as [n|] eqn:En; [|done]. cbn [mbind option_bind]. apply from_utf8_Some in En as [-> _].
  destruct (index root listing !! (name, d_size d)) as [paths|] eqn:Ei; [|done]. cbn [mbind option_bind].
  destruct paths as [|only [|]]; try done. intros Hc. exists only.
  destruct (index_sound _ _ _ _ _ only Ei) as [Hn Hp]; [apply elem_of_cons; by left|]. by split_and!.
Qed.

(** ** Properties *)

(** A suggested rule works.  The agreement of a suggestion is the number of
    discovered files that propose it, at least one; for each of them the search
    root holds a regular file of the same name and size, and the rule, given to
    the resolver, sends the file's *arr path to it. *)
Theorem suggestion_resolves `{I : AgreementIter} discovered root listing s :
  AgreementIterLaws I -> s ∈ suggest discovered root listing ->
  let vs := voters (index root listing) (sg_arr s, sg_sharerr s) discovered in
  sg_agreement s = length vs /\ vs <> [] /\
  Forall (fun d => exists found,
    plain_file root listing found (d_size d) /\ file_name found = file_name (d_arr_path d) /\
    (is_absolute (d_arr_path d) = true ->
     exists r, resolve [mkMapping (sg_arr s) (sg_sharerr s) None] (d_arr_path d) = Ok r /\
       rp_mapping_applied r = true /\ path_eq (rp_sharerr r) found)) vs.
Proof.
  intros HL Hs%elem_of_suggest vs. rewrite agreement_counts in Hs. fold vs in Hs.
  split_and!; [destruct vs; [done|by injection Hs as <-]|by intros Hv; rewrite Hv in Hs|].
  apply Forall_forall. intros d [Hv _]%list_elem_of_filter.
  destruct (vote_file _ _ _ _ _ Hv) as (found & Hp & Hn & Hc). exists found. split_and!; [done|done|].
  intros Habs. destruct (proposal_resolves _ _ _ _ Hc Habs) as (r & Hr & Ha & He). by exists r.
Qed.

(** What is suggested, and in which order.  A prefix pair is suggested exactly
    when some discovered file proposes it, once each, and the list is ordered by
    agreement, most first, then by the *arr prefix. *)
Theorem suggestions_ranked `{I : AgreementIter} discovered root listing :
  AgreementIterLaws I ->
  let l := suggest discovered root listing in
  (forall a b, (a, b) ∈ map (fun s => (sg_arr s, sg_sharerr s)) l <->
     exists d, d ∈ discovered /\ vote (index root listing) d = Some (a, b)) /\
  NoDup (map (fun s => (sg_arr s, sg_sharerr s)) l) /\
  Sorted (fun s1 s2 => sg_agreement s2 < sg_agreement s1 \/
            sg_agreement s2 = sg_agreement s1 /\ path_compare (sg_arr s1) (sg_arr s2) <> Gt) l.
Proof.
  intros HL l. split_and!.
  - intros a b. rewrite list_elem_of_fmap. split.
    + intros (s & [= -> ->] & Hs%elem_of_suggest). rewrite agreement_counts in Hs.
      destruct (voters _ _ discovered) as [|d vs] eqn:Hv; [done|].
      assert (d ∈ voters (index root listing) (sg_arr s, sg_sharerr s) discovered) as Hd by (rewrite Hv; set_solver).
      apply list_elem_of_filter in Hd as [Hvote Hd]. by exists d.
    + intros (d & Hd & Hvote).
      assert (d ∈ voters (index root listing) (a, b) discovered) as Hin by by apply list_elem_of_filter.
      destruct (voters (index root listing) (a, b) discovered) as [|d0 vs] eqn:Hv; [by apply elem_of_nil in Hin|].
      exists (mkSuggestion a b (length (d0 :: vs))). split; [done|]. apply elem_of_suggest. cbn [sg_arr sg_sharerr sg_agreement].
      by rewrite agreement_counts, Hv.
  - assert (map (fun s => (sg_arr s, sg_sharerr s)) l ≡ₚ
            map fst (map_to_list (fold_left (count_vote (index root listing)) discovered ∅))) as ->.
    { unfold l, suggest. rewrite sort_by_perm, map_map, agreement_iter_perm.
      apply Permutation_refl'. apply map_ext. by intros [[a b] n]. }
    apply NoDup_fst_map_to_list.
  - unfold l, suggest. eapply Sorted_weaken; [|apply suggestion_order].
    intros s1 s2. unfold cmp_le, suggestion_compare.
    destruct (Nat.compare_spec (sg_agreement s2) (sg_agreement s1)) as [He|Hlt|Hgt]; [by right|by left|done].
Qed.

(** A library of two episodes, mounted elsewhere. *)
Definition toy_iter : AgreementIter := map_to_list.

Lemma toy_iter_laws : AgreementIterLaws toy_iter.
Proof. intros m. reflexivity. Qed.

Definition toy_listing : Listing :=
  Ok [Ok (bs "tv", Dir (Ok [Ok (bs "Show", Dir (Ok [Ok (bs "e1.mkv", File 10); Ok (bs "e2.mkv", File 11)]))]));
      Ok (bs "lost+found", Dir (Err (bs "denied")))].

Definition toy_item (path : bytes) (size : N) : Discovered :=
  mkDiscovered Sonarr 1 1 (Movie [] None) path size no_ids None None None None.

Definition toy_discovered : list Discovered :=
  [toy_item (bs "/tv/Show/e1.mkv") 10; toy_item (bs "/tv/Show/e2.mkv") 11; toy_item (bs "/tv/Show/e3.mkv") 12].

Definition toy_suggestion : Suggestion := mkSuggestion (bs "/tv") (bs "/media/tv") 2.

Lemma suggestion_resolves_witness :
  @suggest toy_iter toy_discovered (bs "/media") toy_listing = [toy_suggestion] /\
  2 = length (voters (index (bs "/media") toy_listing) (bs "/tv", bs "/media/tv") toy_discovered).
Proof.
  assert (@suggest toy_iter toy_discovered (bs "/media") toy_listing = [toy_suggestion]) as Hs
    by (vm_compute; reflexivity).
  split; [exact Hs|].
  apply (@suggestion_resolves toy_iter toy_discovered (bs "/media") toy_listing toy_suggestion toy_iter_laws).
  rewrite Hs. apply list_elem_of_singleton. reflexivity.
Defined.

Lemma suggestions_ranked_witness :
  (bs "/tv", bs "/media/tv") ∈
    map (fun s => (sg_arr s, sg_sharerr s)) (@suggest toy_iter toy_discovered (bs "/media") toy_listing).
Proof.
  apply (@suggestions_ranked toy_iter toy_discovered (bs "/media") toy_listing toy_iter_laws).
  exists (toy_item (bs "/tv/Show/e1.mkv") 10). split; [apply elem_of_cons; left; reflexivity|vm_compute; reflexivity].
Defined.
