(* ===== verification/Library.v ===== *)
(** * Plain-directory libraries (crates/sharerr/src/library.rs)

    The recursive scan of a directory for media files, what a bare file name
    supports of a release, and the rules that keep a partial listing from being
    taken for a complete one.  The file system's answer for a root is a
    parameter; the tree below it is [FileTree.Tree]. *)

From stdpp Require Import sorting.
From S2P Require Import Prelude RustStd Text Bencode Metainfo Model Paths Title FileTree Totp.

(** ** Data *)

(** [config::LibraryKind]. *)
Inductive LibraryKind : Type := LTv | LMovie | LMusic | LBook.

(** [config::LibraryConfig]. *)
Record LibraryConfig : Type := mkLibrary { lc_path : bytes; lc_kind : LibraryKind }.

Record ScanOutcome : Type := mkOutcome { so_items : list Discovered; so_skipped : nat; so_incomplete : nat }.

Inductive ScanError : Type :=
| RootNotAbsolute (p : bytes)
| RootMissing (p : bytes)
| RootNotADirectory (p : bytes)
| RootEmpty (p : bytes)
| Unreadable (p source : bytes).

(** What [fs::metadata] of a root says, with the tree below it. *)
Inductive StatError : Type := StatNotFound | StatFailed (e : bytes).

Class LibraryFs : Type := root_node : bytes -> result Tree StatError.

(** ** What a file name supports *)

Definition VIDEO_EXTENSIONS : list bytes :=
  map bs ["mkv"; "mp4"; "avi"; "m4v"; "mov"; "wmv"; "ts"; "webm"]%string.
Definition MUSIC_EXTENSIONS : list bytes := map bs ["flac"; "mp3"; "m4a"; "ogg"; "opus"; "wav"; "aac"]%string.
Definition BOOK_EXTENSIONS : list bytes := map bs ["epub"; "mobi"; "azw"; "azw3"; "pdf"; "cbz"; "cbr"]%string.

Definition allowed_extensions (kind : LibraryKind) : list bytes :=
  match kind with LTv | LMovie => VIDEO_EXTENSIONS | LMusic => MUSIC_EXTENSIONS | LBook => BOOK_EXTENSIONS end.

Definition has_media_extension (path : bytes) (kind : LibraryKind) : bool :=
  match e ← extension path; from_utf8 e with
  | Some ext => existsb (str_eq_ignore_ascii_case ext) (allowed_extensions kind)
  | None => false
  end.

(** The directory [levels] above a path. *)
Fixpoint ancestor (levels : nat) (path : bytes) : option bytes :=
  match levels with
  | O => Some path
  | S levels => dir ← parent path; ancestor levels dir
  end.

Definition dir_name (root path : bytes) (levels : nat) : option bytes :=
  dir ← ancestor levels path;
  if negb (path_starts_with dir root) || bool_decide (path_eq dir root) then None
  else to_string_lossy <$> file_name dir.

Fixpoint leading_digits (s : bytes) : bytes :=
  match s with
  | b :: s => if is_ascii_digit b then b :: leading_digits s else []
  | [] => []
  end.

Definition leading_number (stem : bytes) : option N := parse_u u32_max (leading_digits stem).

Definition RELEASE_TOKENS : list bytes :=
  map bs ["480p"; "720p"; "1080p"; "2160p"; "4k"; "bluray"; "blu-ray"; "webrip"; "web-dl"; "webdl"; "hdtv";
          "dvdrip"; "bdrip"; "remux"; "x264"; "x265"; "h264"; "h265"; "hevc"; "av1"; "xvid"; "proper"; "repack"]%string.

Definition is_cruft (word : bytes) : bool :=
  let lowered := str_to_ascii_lowercase word in
  let head := hd lowered (split_byte "-"%byte lowered) in
  existsb (fun t => bool_decide (t = lowered) || bool_decide (t = head)) RELEASE_TOKENS.

Fixpoint until {A : Type} (stop : A -> bool) (l : list A) : list A :=
  match l with
  | [] => []
  | x :: l => if stop x then [] else x :: until stop l
  end.

Definition display_title (stem : bytes) : bytes :=
  join_title (until is_cruft (split_whitespace (humanize stem))).

Definition spec_for (root path : bytes) (kind : LibraryKind) : option MediaSpec :=
  stem ← file_stem path;
  let stem := to_string_lossy stem in
  match kind with
  | LTv =>
      match parse stem with
      | PEpisode title season episode => Some (Episode title season episode)
      | PMovie _ _ | Unparseable => None
      end
  | LMovie =>
      match parse stem with
      | PMovie title year => Some (Movie title year)
      | PEpisode _ _ _ => None
      | Unparseable => let title := display_title stem in if is_nonempty title then Some (Movie title None) else None
      end
  | LMusic =>
      match dir_name root path 2, dir_name root path 1 with
      | None, None => None
      | artist, album =>
          Some (Track (default (bs "Unknown Artist") artist) (default (bs "Unknown Album") album) (leading_number stem))
      end
  | LBook => Some (Book (default (bs "Unknown Author") (dir_name root path 1)) (humanize stem))
  end.

(** ** The walk *)

Definition one_incomplete (o : ScanOutcome) : ScanOutcome :=
  mkOutcome (so_items o) (so_skipped o) (S (so_incomplete o)).
Definition one_skipped (o : ScanOutcome) : ScanOutcome :=
  mkOutcome (so_items o) (S (so_skipped o)) (so_incomplete o).
Definition push_item (d : Discovered) (o : ScanOutcome) : ScanOutcome :=
  mkOutcome (so_items o ++ [d]) (so_skipped o) (so_incomplete o).

Definition empty_outcome : ScanOutcome := mkOutcome [] 0 0.

(** A name the walk skips. *)
Definition hidden (name : bytes) : bool :=
  match to_string_lossy name with b :: _ => bool_decide (b = "."%byte) | [] => false end.

(** The little-endian number of some bytes. *)
Fixpoint le_value (l : bytes) : N :=
  match l with [] => 0 | b :: l => (byte_val b + 256 * le_value l)%N end.

Section Walk.
Context `{D : Digests}.

(** [path_id]: eight bytes of the digest, the sign bit cleared. *)
Definition path_id (path : bytes) : Z := Z.of_N (N.land (le_value (take 8 (sha256 path))) (2 ^ 63 - 1)).

Definition item_at (source_id : Z) (path : bytes) (len : N) (spec : MediaSpec) : Discovered :=
  mkDiscovered Directory source_id (path_id path) spec path len no_ids None None None None.

(** What the walk does with one regular file. *)
Definition visit_file (root : bytes) (kind : LibraryKind) (source_id : Z) (path : bytes) (len : N)
    (o : ScanOutcome) : ScanOutcome :=
  if negb (has_media_extension path kind) then o
  else match spec_for root path kind with
       | Some spec => push_item (item_at source_id path len spec) o
       | None => one_skipped o
       end.

(** What the walk does with one element of a listing; [descend] is the walk of a
    subdirectory. *)
Definition visit_entry (descend : bytes -> Listing -> ScanOutcome -> result ScanOutcome ScanError)
    (root dir : bytes) (kind : LibraryKind) (source_id : Z) (o : ScanOutcome)
    (entry : result (bytes * Tree) bytes) : result ScanOutcome ScanError :=
  match entry with
  | Err _ => Ok (one_incomplete o)
  | Ok (name, node) =>
      let path := path_join dir name in
      if hidden name then Ok o
      else match node with
           | Gone => Ok o
           | Unstatable _ => Ok (one_incomplete o)
           | Symlink ToDir | Symlink (Broken _) | Symlink ToOther | Other => Ok o
           | Dir sub => descend path sub o
           | Symlink (ToFile len) | File len => Ok (visit_file root kind source_id path len o)
           end
  end.

(** [walk] at depth [MAX_DEPTH + 1 - levels]. *)
Fixpoint walk (levels : nat) (root dir : bytes) (kind : LibraryKind) (source_id : Z) (listing : Listing)
    (o : ScanOutcome) : result ScanOutcome ScanError :=
  match levels with
  | O => Ok (one_incomplete o)
  | S levels =>
      match listing with
      | Err e => if levels <? MAX_DEPTH then Ok (one_incomplete o) else Err (Unreadable dir e)
      | Ok entries =>
          try_fold (visit_entry (fun path sub o => walk levels root path kind source_id sub o)
                      root dir kind source_id) entries o
      end
  end.

Context `{FS : LibraryFs}.

Definition scan (library : LibraryConfig) : result ScanOutcome ScanError :=
  let root := lc_path library in
  if negb (is_absolute root) then Err (RootNotAbsolute root)
  else match root_node root with
       | Err StatNotFound => Err (RootMissing root)
       | Err (StatFailed e) => Err (Unreadable root e)
       | Ok (Dir listing) =>
           match listing with
           | Err e => Err (Unreadable root e)
           | Ok [] => Err (RootEmpty root)
           | Ok _ =>
               let? outcome := walk (S MAX_DEPTH) root root (lc_kind library) (path_id root) listing empty_outcome in
               Ok (mkOutcome (sort_by (fun a b => path_compare (d_arr_path a) (d_arr_path b)) (so_items outcome))
                     (so_skipped outcome) (so_incomplete outcome))
           end
       | Ok _ => Err (RootNotADirectory root)
       end.

(** [overlapping_roots]. *)
Definition overlaps (a b : LibraryConfig) : bool :=
  path_starts_with (lc_path a) (lc_path b) || path_starts_with (lc_path b) (lc_path a).

Fixpoint overlapping_roots (libraries : list LibraryConfig) : option (bytes * bytes) :=
  match libraries with
  | [] => None
  | a :: rest =>
      match List.find (overlaps a) rest with
      | Some b => Some (lc_path a, lc_path b)
      | None => overlapping_roots rest
      end
  end.

Inductive ScanAllError : Type := Overlap (a b : bytes) | EntryFailed (e : ScanError).

(** What one entry adds to the merged outcome. *)
Definition merge_scan (merged : ScanOutcome) (library : LibraryConfig) : result ScanOutcome ScanAllError :=
  let? outcome := rmap_err EntryFailed (scan library) in
  Ok (mkOutcome (so_items merged ++ so_items outcome) (so_skipped merged + so_skipped outcome)
        (so_incomplete merged + so_incomplete outcome)).

Definition scan_all (libraries : list LibraryConfig) : result ScanOutcome ScanAllError :=
  match overlapping_roots libraries with
  | Some (a, b) => Err (Overlap a b)
  | None => try_fold merge_scan libraries empty_outcome
  end.

End Walk.

(** ** Subtitles *)

Definition SUBTITLES : list bytes := map bs ["srt"; "ass"; "ssa"; "sub"; "idx"; "vtt"; "sup"]%string.

(** What [fs::metadata], which follows links, says of an entry's length as a
    regular file. *)
Definition file_len (node : Tree) : option N :=
  match node with File len | Symlink (ToFile len) => Some len | _ => None end.

(** [subtitles_beside], given the listing of the file's directory. *)
Definition subtitles_beside (path : bytes) (listing : Listing) : list bytes :=
  match parent path, (s ← file_stem path; from_utf8 s), listing with
  | Some _, Some stem, Ok entries =>
      let prefix := stem ++ bs "." in
      let names :=
        omap (fun entry : result (bytes * Tree) bytes =>
          match entry with
          | Err _ => None
          | Ok (name, node) =>
              name ← from_utf8 name;
              ext ← extension name;
              if starts_with prefix name && existsb (str_eq_ignore_ascii_case ext) SUBTITLES
                 && match file_len node with Some len => (0 <? len)%N | None => false end
              then Some name else None
          end) entries in
      sort_by bytes_compare names
  | _, _, _ => []
  end.

(** ** The inventory a scan stands for *)

(** A file the walk would come to if nothing hid it: no hidden name and no
    symlinked directory on the way, at any depth. *)
Inductive library_file : bytes -> Listing -> bytes -> N -> Prop :=
| library_here dir entries name node len :
    Ok (name, node) ∈ entries -> hidden name = false -> file_len node = Some len ->
    library_file dir (Ok entries) (path_join dir name) len
| library_below dir entries name sub p len :
    Ok (name, Dir sub) ∈ entries -> hidden name = false ->
    library_file (path_join dir name) sub p len -> library_file dir (Ok entries) p len.

(** The release a file supports in a library, if any. *)
Definition shareable (root : bytes) (kind : LibraryKind) (path : bytes) : option MediaSpec :=
  if has_media_extension path kind then spec_for root path kind else None.

Section WalkFacts.
Context `{D : Digests} (root : bytes) (kind : LibraryKind) (source_id : Z).

(** A later outcome holds everything an earlier one did. *)
Definition outcome_le (o o' : ScanOutcome) : Prop :=
  so_items o ⊆ so_items o' /\ so_incomplete o <= so_incomplete o'.

#[local] Instance outcome_le_preorder : PreOrder outcome_le.
Proof. split; [done|]. intros a b c [? ?] [? ?]. split; [by etransitivity|lia]. Qed.

Lemma visit_file_le path len o : outcome_le o (visit_file root kind source_id path len o).
Proof.
  unfold visit_file. destruct (negb _); [done|]. destruct (spec_for _ _ _); split; cbn; [set_solver|lia|done|lia].
Qed.

Lemma try_fold_le {A E : Type} (f : ScanOutcome -> A -> result ScanOutcome E) l o o' :
  (forall x o o', x ∈ l -> f o x = Ok o' -> outcome_le o o') -> try_fold f l o = Ok o' -> outcome_le o o'.
Proof.
  revert o. induction l as [|x l IH]; intros o Hf; cbn; [by intros [= <-]|].
  intros (o1 & H1 & H2)%rbind_Ok. transitivity o1; [eapply Hf; [|exact H1]; set_solver|].
  apply IH; [|done]. intros y a b Hy. apply Hf. set_solver.
Qed.

Lemma visit_entry_le descend dir entry o o' :
  (forall path sub o o', descend path sub o = Ok o' -> outcome_le o o') ->
  visit_entry descend root dir kind source_id o entry = Ok o' -> outcome_le o o'.
Proof.
  intros Hd. destruct entry as [[name node]|e]; cbn; [|intros [= <-]; split; [done|cbn; lia]].
  destruct (hidden name); [by intros [= <-]|].
  destruct node as [len|sub|[len| | |]| | |]; try (by intros [= <-]);
    try (intros [= <-]; apply visit_file_le); [apply Hd|intros [= <-]; split; [done|cbn; lia]].
Qed.

Lemma walk_le levels dir listing o o' :
  walk levels root dir kind source_id listing o = Ok o' -> outcome_le o o'.
Proof.
  revert dir listing o o'. induction levels as [|levels IH]; intros dir listing o o'; cbn [walk].
  { intros [= <-]. split; [done|cbn; lia]. }
  destruct listing as [entries|e].
  - apply try_fold_le. intros entry a b _. apply visit_entry_le. eauto.
  - destruct (levels <? MAX_DEPTH); [|done]. intros [= <-]. split; [done|cbn; lia].
Qed.

(** A loop that ends with as many holes as it began passed every element
    without one. *)
Lemma try_fold_complete {A E : Type} (f : ScanOutcome -> A -> result ScanOutcome E) l o o' x :
  (forall x o o', f o x = Ok o' -> outcome_le o o') ->
  try_fold f l o = Ok o' -> so_incomplete o' = so_incomplete o -> x ∈ l ->
  exists o1 o2, f o1 x = Ok o2 /\ so_incomplete o2 = so_incomplete o1 /\ so_items o2 ⊆ so_items o'.
Proof.
  intros Hf. revert o. induction l as [|y l IH]; intros o Hfold Hinc Hx; [by apply elem_of_nil in Hx|].
  cbn in Hfold. apply rbind_Ok in Hfold as (o1 & H1 & H2).
  assert (outcome_le o1 o') as Hle by (eapply try_fold_le; [|exact H2]; intros; by eapply Hf).
  pose proof (Hf _ _ _ H1) as Hle1. destruct Hle as [Hi Hn], Hle1 as [Hi1 Hn1].
  apply elem_of_cons in Hx as [->|Hx]; [exists o, o1; split_and!; [done|lia|done]|].
  apply (IH o1); [done|lia|done].
Qed.

(** [d] stands for a shareable file below [dir]. *)
Definition found_in (dir : bytes) (listing : Listing) (d : Discovered) : Prop :=
  exists spec, library_file dir listing (d_arr_path d) (d_size d) /\
    shareable root kind (d_arr_path d) = Some spec /\ d = item_at source_id (d_arr_path d) (d_size d) spec.

Lemma visit_file_sound dir entries name node len o d :
  Ok (name, node) ∈ entries -> hidden name = false -> file_len node = Some len ->
  d ∈ so_items (visit_file root kind source_id (path_join dir name) len o) ->
  d ∈ so_items o \/ found_in dir (Ok entries) d.
Proof.
  intros Hin Hh Hlen. unfold visit_file. destruct (has_media_extension _ kind) eqn:Hext; cbn; [|by left].
  destruct (spec_for root (path_join dir name) kind) as [spec|] eqn:Hspec; cbn; [|by left].
  intros [?| ->%list_elem_of_singleton]%elem_of_app; [by left|]. right. exists spec. cbn.
  split_and!; [by econstructor| |done]. unfold shareable. by rewrite Hext.
Qed.

Lemma visit_entry_sound descend dir entries entry o o' d :
  (forall path sub o o', descend path sub o = Ok o' -> d ∈ so_items o' -> d ∈ so_items o \/ found_in path sub d) ->
  entry ∈ entries -> visit_entry descend root dir kind source_id o entry = Ok o' -> d ∈ so_items o' ->
  d ∈ so_items o \/ found_in dir (Ok entries) d.
Proof.
  intros Hdesc Hin. destruct entry as [[name node]|e]; cbn; [|intros [= <-]; by left].
  destruct (hidden name) eqn:Hh; [intros [= <-]; by left|].
  destruct node as [len|sub|[len| | |]| | |]; try (intros [= <-]; by left);
    try (intros [= <-]; by eapply visit_file_sound).
  intros Hw Hd. destruct (Hdesc _ _ _ _ Hw Hd) as [?|(spec & Hf & Hs & Hi)]; [by left|].
  right. exists spec. split_and!; [by eapply library_below|done|done].
Qed.

(** Nothing but shareable files of the tree is put on the list. *)
Lemma walk_sound levels dir listing o o' d :
  walk levels root dir kind source_id listing o = Ok o' -> d ∈ so_items o' ->
  d ∈ so_items o \/ found_in dir listing d.
Proof.
  revert dir listing o o'. induction levels as [|levels IH]; intros dir listing o o'; cbn [walk].
  { intros [= <-]. by left. }
  destruct listing as [entries|e]; [|destruct (levels <? MAX_DEPTH); [|done]; intros [= <-]; by left].
  set (f := visit_entry _ root dir kind source_id).
  assert (forall es o, (forall e, e ∈ es -> e ∈ entries) -> try_fold f es o = Ok o' -> d ∈ so_items o' ->
    d ∈ so_items o \/ found_in dir (Ok entries) d) as Hfold; [|by apply Hfold].
  induction es as [|e es IHes]; intros o1 Hin; cbn [try_fold]; [intros [= <-]; by left|].
  intros (o2 & H1 & H2)%rbind_Ok Hd. destruct (IHes o2 ltac:(set_solver) H2 Hd) as [Hd2|]; [|by right].
  eapply visit_entry_sound; [|apply (Hin e), elem_of_cons; by left|exact H1|exact Hd2]. intros. by eapply IH.
Qed.

(** A walk that met no hole found every shareable file there is, at any depth. *)
Lemma walk_complete levels dir listing o o' p len spec :
  walk levels root dir kind source_id listing o = Ok o' -> so_incomplete o' = so_incomplete o ->
  library_file dir listing p len -> shareable root kind p = Some spec ->
  item_at source_id p len spec ∈ so_items o'.
Proof.
  intros Hwalk Hinc Hfile Hspec. revert levels o o' Hwalk Hinc.
  induction Hfile as [dir entries name node len Hin Hh Hlen|dir entries name sub p len Hin Hh Hsub IH];
    intros levels o o' Hwalk Hinc;
    (destruct levels as [|levels]; cbn [walk] in Hwalk; [injection Hwalk as <-; cbn in Hinc; lia|]);
    (eapply try_fold_complete in Hwalk as (o1 & o2 & Hv & Hsame & Hsub');
      [|intros ? ? ?; apply visit_entry_le; intros ? ? ? ?; apply walk_le|done|exact Hin]);
    cbn in Hv; rewrite Hh in Hv; apply Hsub'; clear Hsub'.
  - unfold shareable in Hspec.
    assert (o2 = visit_file root kind source_id (path_join dir name) len o1) as ->
      by (destruct node as [l|s|[l| | |]| | |]; try done; injection Hlen as ->; by injection Hv as <-).
    unfold visit_file. destruct (has_media_extension _ kind); [|done]. cbn. rewrite Hspec. cbn. set_solver.
  - by eapply IH.
Qed.

End WalkFacts.

(** ** A walk reports each file once *)

(** What a file system guarantees of a listing: distinct names, each one
    component. *)
Inductive listing_wf : Listing -> Prop :=
| listing_err e : listing_wf (Err e)
| listing_ok entries :
    NoDup (omap (fun e : result (bytes * Tree) bytes => fst <$> res_ok e) entries) ->
    (forall name node, Ok (name, node) ∈ entries -> component_of name = Some (Normal name) /\ sep ∉ name) ->
    (forall name sub, Ok (name, Dir sub) ∈ entries -> listing_wf sub) ->
    listing_wf (Ok entries).

Definition item_components (d : Discovered) : list Component := components (d_arr_path d).

Lemma join_name dir name :
  component_of name = Some (Normal name) -> sep ∉ name ->
  components (path_join dir name) = components dir ++ [Normal name].
Proof.
  intros Hc Hs. destruct (component_text_components (Normal name)) as (Ha & Hst & Hn); [done|].
  cbn in Ha, Hst, Hn. by rewrite components_join_plain, Hn.
Qed.

(** [o'] adds to [o] distinct items, all strictly below [cs]. *)
Definition adds_below (cs : list Component) (o o' : ScanOutcome) : Prop :=
  exists added, so_items o' = so_items o ++ added /\ NoDup (map item_components added) /\
    Forall (fun d => cs `prefix_of` item_components d) added.

Lemma adds_nothing cs o o' : so_items o' = so_items o -> adds_below cs o o'.
Proof. intros Hi. exists []. rewrite Hi, app_nil_r. repeat split; constructor. Qed.

Section Once.
Context `{D : Digests} (root : bytes) (kind : LibraryKind) (source_id : Z).

Lemma visit_file_adds path len o :
  adds_below (components path) o (visit_file root kind source_id path len o).
Proof.
  unfold visit_file. destruct (negb _); [by apply adds_nothing|].
  destruct (spec_for root path kind) as [spec|]; [|by apply adds_nothing].
  exists [item_at source_id path len spec]. split; [done|]. split; [apply NoDup_singleton|].
  by repeat constructor.
Qed.

Lemma visit_entry_adds descend dir name node o o' :
  (forall sub o o', node = Dir sub -> descend (path_join dir name) sub o = Ok o' ->
     adds_below (components (path_join dir name)) o o') ->
  visit_entry descend root dir kind source_id o (Ok (name, node)) = Ok o' ->
  adds_below (components (path_join dir name)) o o'.
Proof.
  intros Hd. cbn. destruct (hidden name); [intros [= <-]; by apply adds_nothing|].
  destruct node as [len|sub|[len| | |]| | |]; try (intros [= <-]; by apply adds_nothing);
    try (intros [= <-]; apply visit_file_adds).
  by apply Hd.
Qed.

(** Different names lead to different paths. *)
Lemma entries_add (f : ScanOutcome -> result (bytes * Tree) bytes -> result ScanOutcome ScanError) dir entries o o' :
  NoDup (omap (fun e : result (bytes * Tree) bytes => fst <$> res_ok e) entries) ->
  (forall e o o', Err e ∈ entries -> f o (Err e) = Ok o' -> so_items o' = so_items o) ->
  (forall name node o o', Ok (name, node) ∈ entries -> f o (Ok (name, node)) = Ok o' ->
     adds_below (components dir ++ [Normal name]) o o') ->
  try_fold f entries o = Ok o' ->
  exists added, so_items o' = so_items o ++ added /\ NoDup (map item_components added) /\
    Forall (fun d => exists name, name ∈ omap (fun e : result (bytes * Tree) bytes => fst <$> res_ok e) entries /\
              components dir ++ [Normal name] `prefix_of` item_components d) added.
Proof.
  revert o. induction entries as [|e entries IH]; intros o Hnd Herr Hok; cbn [try_fold].
  { intros [= <-]. exists []. rewrite app_nil_r. repeat split; constructor. }
  intros (o1 & H1 & H2)%rbind_Ok. destruct e as [[name node]|e].
  - cbn in Hnd. apply NoDup_cons in Hnd as [Hname Hnd].
    destruct (Hok name node o o1) as (a1 & E1 & N1 & F1); [set_solver|done|].
    destruct (IH o1) as (a2 & E2 & N2 & F2); [done|set_solver|set_solver|done|].
    exists (a1 ++ a2). rewrite E2, E1, <- app_assoc. split; [done|]. rewrite Forall_forall in F1, F2. split.
    + rewrite map_app. apply NoDup_app. split_and!; [done| |done].
      intros cs (d1 & -> & Hd1)%list_elem_of_fmap (d2 & Heq & Hd2)%list_elem_of_fmap.
      destruct (F2 d2 Hd2) as (name2 & Hname2 & Hp2). specialize (F1 d1 Hd1). rewrite <- Heq in Hp2.
      assert (components dir ++ [Normal name] = components dir ++ [Normal name2]) as Heq2.
      { destruct (prefix_weak_total _ _ _ F1 Hp2) as [Hp|Hp]; [|symmetry];
          (apply prefix_length_eq; [done|rewrite !length_app; cbn; lia]). }
      apply app_inv_head in Heq2. injection Heq2 as <-. done.
    + apply Forall_app. split; apply Forall_forall.
      * intros d Hd. exists name. cbn. split; [set_solver|by apply F1].
      * intros d Hd. destruct (F2 d Hd) as (name2 & ? & ?). exists name2. cbn. split; [set_solver|done].
  - cbn in Hnd. specialize (Herr e o o1 ltac:(set_solver) H1) as He.
    destruct (IH o1) as (a2 & E2 & N2 & F2); [done|set_solver|set_solver|done|].
    exists a2. by rewrite E2, He.
Qed.

Lemma walk_adds levels dir listing o o' :
  listing_wf listing -> walk levels root dir kind source_id listing o = Ok o' ->
  adds_below (components dir) o o'.
Proof.
  revert dir listing o o'. induction levels as [|levels IH]; intros dir listing o o' Hwf; cbn [walk].
  { intros [= <-]. by apply adds_nothing. }
  destruct Hwf as [e|entries Hnd Hnames Hsub].
  { destruct (levels <? MAX_DEPTH); [|done]. intros [= <-]. by apply adds_nothing. }
  intros Hfold. apply (entries_add _ dir) in Hfold as (added & E & N & F); [|done|..].
  - exists added. split; [done|]. split; [done|]. eapply Forall_impl; [exact F|].
    cbn. intros d (name & _ & Hp). etransitivity; [by apply prefix_app_r|exact Hp].
  - intros e a b _. by intros [= <-].
  - intros name node a b Hin. destruct (Hnames name node Hin) as [Hc Hs].
    rewrite <- join_name by done. apply visit_entry_adds. intros sub x y -> Hw. eapply IH; [|exact Hw]. by eapply Hsub.
Qed.

End Once.

(** ** Facts: scans *)

Section ScanFacts.
Context `{D : Digests} `{FS : LibraryFs}.

(** Below the root every listing failure is a hole, not an error. *)
Lemma walk_total root kind source_id levels dir listing o :
  levels <= S MAX_DEPTH -> (levels = S MAX_DEPTH -> exists entries, listing = Ok entries) ->
  exists o', walk levels root dir kind source_id listing o = Ok o'.
Proof.
  revert dir listing o. induction levels as [|levels IH]; intros dir listing o Hle Htop; cbn [walk]; [by eexists|].
  destruct listing as [entries|e].
  2:{ destruct (Nat.ltb_spec levels MAX_DEPTH); [by eexists|].
      destruct Htop as [? ?]; [lia|done]. }
  clear Htop. set (f := visit_entry _ _ _ _ _).
  assert (forall o e, exists o', f o e = Ok o') as Hf.
  { intros o1 [[name node]|e]; unfold f; cbn; [|by eexists]. destruct (hidden name); [by eexists|].
    destruct node as [len|sub|[len| | |]| | |]; try (by eexists). apply IH; lia. }
  clearbody f. revert o. induction entries as [|e entries IHe]; intros o; cbn; [by eexists|].
  destruct (Hf o e) as [o1 ->]. apply IHe.
Qed.

Definition by_path (a b : Discovered) : comparison := path_compare (d_arr_path a) (d_arr_path b).

(** When a scan answers, and what its answer is. *)
Lemma scan_Ok library o :
  scan library = Ok o <->
  is_absolute (lc_path library) = true /\
  exists entries w, root_node (lc_path library) = Ok (Dir (Ok entries)) /\ entries <> [] /\
    walk (S MAX_DEPTH) (lc_path library) (lc_path library) (lc_kind library) (path_id (lc_path library))
      (Ok entries) empty_outcome = Ok w /\
    o = mkOutcome (sort_by by_path (so_items w)) (so_skipped w) (so_incomplete w).
Proof.
  unfold scan. destruct (is_absolute (lc_path library)); cbn [negb]; [|split; [done|by intros [? _]]].
  split.
  - intros Hs. split; [done|]. destruct (root_node _) as [[|[[|e es]|]| | | |]|[|]]; try done.
    apply rbind_Ok in Hs as (w & Hw & [= <-]). by exists (e :: es), w.
  - intros [_ (entries & w & -> & Hne & Hw & ->)]. destruct entries as [|e es]; [done|]. rewrite Hw. done.
Qed.

(** Roots that do not overlap hold no common path. *)
Lemma find_overlap_none a rest :
  List.find (overlaps a) rest = None -> forall b, b ∈ rest -> overlaps a b = false.
Proof. intros Hf b Hb%list_elem_of_In. by eapply List.find_none in Hf. Qed.

Lemma overlaps_disjoint a b cs :
  overlaps a b = false -> components (lc_path a) `prefix_of` cs -> ~ components (lc_path b) `prefix_of` cs.
Proof.
  unfold overlaps, path_starts_with. rewrite orb_false_iff, !bool_decide_eq_false. intros [H1 H2] Ha Hb.
  destruct (prefix_weak_total _ _ _ Ha Hb); auto.
Qed.

Definition no_overlap (libraries : list LibraryConfig) : Prop :=
  forall i j a b, libraries !! i = Some a -> libraries !! j = Some b -> i < j -> overlaps a b = false.

Lemma no_overlap_cons l libraries : no_overlap (l :: libraries) -> no_overlap libraries.
Proof. intros H i j a b Ha Hb Hij. apply (H (S i) (S j)); [done|done|lia]. Qed.

Lemma overlapping_roots_None libraries : overlapping_roots libraries = None -> no_overlap libraries.
Proof.
  induction libraries as [|l libraries IH]; intros Ho i j a b Ha Hb Hij; [done|]. cbn in Ho.
  destruct (List.find (overlaps l) libraries) eqn:Hf; [done|].
  destruct j as [|j]; [lia|]. cbn in Hb. destruct i as [|i]; cbn in Ha.
  - injection Ha as <-. eapply find_overlap_none; [exact Hf|]. by eapply list_elem_of_lookup_2.
  - by apply (IH Ho i j a b Ha Hb ltac:(lia)).
Qed.

(** A scan adds items below its own root, no path twice. *)
Lemma scan_items_below library o :
  (forall listing, root_node (lc_path library) = Ok (Dir listing) -> listing_wf listing) ->
  scan library = Ok o ->
  NoDup (map item_components (so_items o)) /\
  forall d, d ∈ so_items o -> components (lc_path library) `prefix_of` item_components d.
Proof.
  intros Hwf [_ (entries & w & Hr & _ & Hw & ->)]%scan_Ok.
  apply walk_adds in Hw as (added & Hadded & Hn & Hf); [|by apply Hwf].
  cbn in *. rewrite Forall_forall in Hf. split.
  - by rewrite sort_by_perm, Hadded.
  - intros d. rewrite sort_by_perm, Hadded. apply Hf.
Qed.

Lemma merge_once libs merged o :
  (forall l listing, l ∈ libs -> root_node (lc_path l) = Ok (Dir listing) -> listing_wf listing) ->
  no_overlap libs -> NoDup (map item_components (so_items merged)) ->
  (forall d l, d ∈ so_items merged -> l ∈ libs -> ~ components (lc_path l) `prefix_of` item_components d) ->
  try_fold merge_scan libs merged = Ok o -> NoDup (map item_components (so_items o)).
Proof.
  revert merged. induction libs as [|l libs IH]; intros merged Hwf Hover Hnd Hout; cbn [try_fold]; [by intros [= <-]|].
  intros (m1 & H1 & H2)%rbind_Ok. apply rbind_Ok in H1 as (out & Hout1%rmap_err_Ok & [= <-]).
  apply scan_items_below in Hout1 as [Hn Hf]; [|intros; eapply Hwf; [|done]; set_solver].
  eapply IH; [..|exact H2].
  - intros l' listing Hl'. apply Hwf. set_solver.
  - by eapply no_overlap_cons.
  - cbn. rewrite map_app. apply NoDup_app. split_and!; [done| |done].
    intros cs (d1 & -> & Hd1)%list_elem_of_fmap (d2 & Heq & Hd2)%list_elem_of_fmap.
    apply (Hout d1 l Hd1); [set_solver|]. rewrite Heq. by apply Hf.
  - cbn. intros d l' Hd Hl'. apply elem_of_app in Hd as [Hd|Hd]; [apply Hout; [done|set_solver]|].
    apply (overlaps_disjoint l); [|by apply Hf].
    apply list_elem_of_lookup in Hl' as [j' Hj]. by apply (Hover 0 (S j')); [|exact Hj|lia].
Qed.

End ScanFacts.

(** ** Properties *)

(** A scan is an inventory.  A scan answers exactly when its root is an
    absolute path to a directory that can be listed and holds something; its
    items are shareable files of the tree, in path order; and when it reports no
    hole, every shareable file at any depth is among them, so an item missing
    from it is gone. *)
Theorem scan_inventory `{D : Digests} `{FS : LibraryFs} library :
  let root := lc_path library in
  let found := found_in root (lc_kind library) (path_id root) root in
  ((exists o, scan library = Ok o) <->
     is_absolute root = true /\ exists entries, root_node root = Ok (Dir (Ok entries)) /\ entries <> []) /\
  forall o entries, scan library = Ok o -> root_node root = Ok (Dir (Ok entries)) ->
    (forall d, d ∈ so_items o -> found (Ok entries) d) /\ Sorted (cmp_le by_path) (so_items o) /\
    (so_incomplete o = 0 -> forall p len spec,
       library_file root (Ok entries) p len -> shareable root (lc_kind library) p = Some spec ->
       item_at (path_id root) p len spec ∈ so_items o).
Proof.
  intros root found. split.
  - split.
    + intros [o [Ha (entries & w & Hr & Hne & _)]%scan_Ok]. eauto.
    + intros [Ha (entries & Hr & Hne)].
      destruct (walk_total root (lc_kind library) (path_id root) (S MAX_DEPTH) root (Ok entries) empty_outcome)
        as [w Hw]; [done|by eexists|].
      eexists. apply scan_Ok. split; [done|]. by exists entries, w.
  - intros o entries [_ (entries' & w & Hr' & _ & Hw & ->)]%scan_Ok Hr. fold root in Hr', Hw.
    rewrite Hr in Hr'. injection Hr' as <-. cbn. split_and!.
    + intros d Hd. rewrite sort_by_perm in Hd.
      destruct (walk_sound _ _ _ _ _ _ _ _ _ Hw Hd) as [Hd0|?]; [by apply elem_of_nil in Hd0|done].
    + apply sort_by_sorted. intros a b. unfold cmp_le, by_path. rewrite (path_compare_antisym (d_arr_path a)).
      by destruct (path_compare (d_arr_path a) (d_arr_path b)).
    + intros Hinc p len spec Hf Hs. rewrite sort_by_perm. by eapply walk_complete.
Qed.

(** Each file once.  When no two library roots overlap and the file systems
    below them list distinct names, a scan of all libraries never reports one
    path twice: overlapping entries are refused before anything is scanned. *)
Theorem scan_all_each_once `{D : Digests} `{FS : LibraryFs} libraries o :
  (forall library listing, library ∈ libraries -> root_node (lc_path library) = Ok (Dir listing) -> listing_wf listing) ->
  scan_all libraries = Ok o ->
  no_overlap libraries /\ NoDup (map item_components (so_items o)).
Proof.
  intros Hwf. unfold scan_all. destruct (overlapping_roots libraries) as [[a b]|] eqn:Ho; [done|].
  pose proof (overlapping_roots_None _ Ho) as Hover. intros Hfold. split; [done|].
  eapply merge_once; [done|done|..|exact Hfold]; [constructor|]. intros d l Hd. by apply elem_of_nil in Hd.
Qed.

(** A file name that parses is the release title.  For a television or film
    library, a file whose stem parses is shared under a spec that the stem
    describes, and the title chosen for it is the stem itself. *)
Theorem filename_is_title `{UD : UnicodeData} `{D : Digests} root kind path spec stem media :
  kind = LTv \/ kind = LMovie -> shareable root kind path = Some spec ->
  file_stem path = Some stem -> utf8_valid stem = true -> parse stem <> Unparseable ->
  describes (parse stem) spec = true /\ resolve_title spec None None media path None = stem.
Proof.
  intros Hkind Hs Hstem Hutf Hparse.
  assert (describes (parse stem) spec = true) as Hd.
  { unfold shareable in Hs. destruct (has_media_extension path kind); [|done].
    unfold spec_for in Hs. rewrite Hstem in Hs. cbn in Hs. rewrite to_string_lossy_valid in Hs by done.
    destruct Hkind as [->| ->]; destruct (parse stem) as [t s e|t y|]; try done; injection Hs as <-; cbn;
      rewrite ?N.eqb_refl; cbn; unfold loose_eq; rewrite ?bool_decide_true by done; cbn; try done.
    by rewrite (bool_decide_true (y = y)), !orb_true_r. }
  split; [done|]. unfold resolve_title. cbn.
  assert (describing_stem spec path = Some stem) as Hds.
  { unfold describing_stem. rewrite Hstem. cbn. unfold from_utf8. rewrite Hutf. cbn. by rewrite Hd. }
  rewrite Hds. by destruct spec.
Qed.

(** A film library with a hidden directory, a broken link and a download that
    no release can be read from, beside a music library. *)
Definition toy_films : Listing :=
  Ok [Ok (bs "The.Heist.2001.1080p.mkv", File 700); Ok (bs ".trash", Dir (Ok [Ok (bs "old.mkv", File 5)]));
      Ok (bs "more", Dir (Ok [Ok (bs "Zed.1999.mkv", File 9); Ok (bs "notes.txt", File 1)]));
      Ok (bs "latest.mkv", Symlink (Broken (bs "gone")))].

Definition toy_music : Listing :=
  Ok [Ok (bs "Artist", Dir (Ok [Ok (bs "Album", Dir (Ok [Ok (bs "01 Song.flac", File 30)]))]))].

Definition toy_fs : LibraryFs := fun root =>
  if decide (root = bs "/films") then Ok (Dir toy_films)
  else if decide (root = bs "/music") then Ok (Dir toy_music) else Err StatNotFound.

Definition film_library : LibraryConfig := mkLibrary (bs "/films") LMovie.
Definition music_library : LibraryConfig := mkLibrary (bs "/music") LMusic.

Definition toy_outcome : result ScanOutcome ScanError := @scan tail_digests toy_fs film_library.

Lemma scan_inventory_witness :
  exists o, toy_outcome = Ok o /\ so_incomplete o = 0 /\
    map d_arr_path (so_items o) = map bs ["/films/The.Heist.2001.1080p.mkv"; "/films/more/Zed.1999.mkv"]%string /\
    (forall d, d ∈ so_items o -> @found_in tail_digests (bs "/films") LMovie (@path_id tail_digests (bs "/films")) (bs "/films") toy_films d).
Proof.
  destruct (@scan_inventory tail_digests toy_fs film_library) as [Hok Hinv].
  destruct (proj2 Hok) as [o Ho].
  { split; [vm_compute; reflexivity|]. eexists. split; [vm_compute; reflexivity|discriminate]. }
  exists o. split; [exact Ho|].
  destruct (Hinv o _ Ho ltac:(vm_compute; reflexivity)) as (Hin & _).
  split; [|split]; [| |exact Hin]; clear Hin Hinv Hok; vm_compute in Ho; injection Ho as <-; vm_compute; reflexivity.
Defined.

(** Whether a listing at most [levels] deep has distinct plain names. *)
Fixpoint plain_names (levels : nat) (listing : Listing) : bool :=
  match levels, listing with
  | O, _ => false
  | _, Err _ => true
  | S levels, Ok entries =>
      bool_decide (NoDup (omap (fun e : result (bytes * Tree) bytes => fst <$> res_ok e) entries)) &&
      forallb (fun e : result (bytes * Tree) bytes =>
        match e with
        | Ok (name, node) =>
            bool_decide (component_of name = Some (Normal name)) && bool_decide (sep ∉ name) &&
            match node with Dir sub => plain_names levels sub | _ => true end
        | Err _ => true
        end) entries
  end.

Lemma plain_names_wf levels listing : plain_names levels listing = true -> listing_wf listing.
Proof.
  revert listing. induction levels as [|levels IH]; intros [entries|e]; cbn; try done; [|constructor].
  rewrite andb_true_iff, bool_decide_eq_true, forallb_forall. intros [Hnd Hall]. constructor; [done|..].
  - intros name node Hin%list_elem_of_In. specialize (Hall _ Hin). cbn in Hall.
    rewrite !andb_true_iff, !bool_decide_eq_true in Hall. by destruct Hall as [? _].
  - intros name sub Hin%list_elem_of_In. specialize (Hall _ Hin). cbn in Hall.
    rewrite !andb_true_iff in Hall. by apply IH; destruct Hall.
Qed.

Lemma scan_all_each_once_witness :
  exists o, @scan_all tail_digests toy_fs [film_library; music_library] = Ok o /\
    length (so_items o) = 3 /\ NoDup (map item_components (so_items o)).
Proof.
  eexists. split; [vm_compute; reflexivity|]. split; [vm_compute; reflexivity|].
  apply (@scan_all_each_once tail_digests toy_fs [film_library; music_library]); [|vm_compute; reflexivity].
  intros library listing Hl. rewrite !elem_of_cons, elem_of_nil in Hl.
  destruct Hl as [->|[->|[]]]; intros [= <-]; apply (plain_names_wf 4); vm_compute; reflexivity.
Defined.

Lemma filename_is_title_witness :
  @resolve_title plain_unicode tail_digests (Movie (bs "The Heist") (Some 2001%N)) None None None
    (bs "/films/The.Heist.2001.1080p.mkv") None = bs "The.Heist.2001.1080p".
Proof.
  apply (@filename_is_title plain_unicode tail_digests (bs "/films") LMovie (bs "/films/The.Heist.2001.1080p.mkv")
           (Movie (bs "The Heist") (Some 2001%N)) (bs "The.Heist.2001.1080p") None);
    [right; reflexivity|vm_compute; reflexivity|vm_compute; reflexivity|vm_compute; reflexivity|vm_compute; discriminate].
Defined.
