(* ===== verification/Database.v ===== *)
(** * The database (migrations/, crates/sharerr-store/src/db.rs)

    The tables the store keeps besides the login accounts, as finite maps under
    their primary or natural keys.  Columns holding JSON carry the value they
    encode; the columns of [shared_items] are grouped by which statements write
    them.  A statement is a function of the tables; [Accounts.query] runs one, or
    fails. *)

From S2P Require Import Prelude RustStd Text Model Effects Accounts.

#[export] Instance MediaSource_countable : Countable MediaSource.
Proof.
  refine (inj_countable' (fun s => match s with Sonarr => 0 | Radarr => 1 | Lidarr => 2 | Readarr => 3 | Whisparr => 4 | Directory => 5 end)
    (fun n => match n with 0 => Sonarr | 1 => Radarr | 2 => Lidarr | 3 => Readarr | 4 => Whisparr | _ => Directory end) _).
  by intros [].
Defined.

Abbreviation ItemKey := (MediaSource * Z)%type.

(** ** shared_items *)

(** What discovery says of a file. *)
Record ItemFile : Type := mkItemFile {
  if_source_id : Z;
  if_spec : MediaSpec;
  if_release_title : bytes;
  if_arr_path : bytes;
  if_size : Z;
  if_ids : ExternalIds
}.

(** The torrent it is shared under. *)
Record ItemTorrent : Type := mkItemTorrent {
  tor_info_hash : option bytes;
  tor_info_hash_v2 : option bytes;
  tor_token_fp : option bytes;
  tor_created_by_sharerr : bool;
  tor_private : bool
}.

(** What the torrent client reports of it. *)
Record ItemReport : Type := mkItemReport {
  rep_achieved_ratio : option N;
  rep_ratio_limit : option N
}.

(** The file's identity on disk: [file_inode] and [file_mtime_ns]. *)
Record ItemStamp : Type := mkItemStamp {
  stp_inode : option Z;
  stp_mtime_ns : option Z
}.

Record ItemRow : Type := mkRow {
  r_id : Z;
  r_file : ItemFile;
  r_media : option MediaMeta;
  r_torrent : ItemTorrent;
  r_report : ItemReport;
  r_stamp : ItemStamp;
  r_share_until : option Z;
  r_state : ShareState;
  r_last_error : option bytes;
  r_created_at : Z;
  r_updated_at : Z
}.

(** ** Friends and what they list *)

Inductive PeerScope : Type := ScopeAll | ScopeTv | ScopeMovies | ScopeMusic | ScopeBooks.

#[export] Instance PeerScope_eq_dec : EqDecision PeerScope.
Proof. solve_decision. Defined.

#[export] Instance PeerScope_names : StrEnum PeerScope := {|
  ALL := [ScopeAll; ScopeTv; ScopeMovies; ScopeMusic; ScopeBooks];
  as_str_name := fun s =>
    match s with
    | ScopeAll => bs "all" | ScopeTv => bs "tv" | ScopeMovies => bs "movies"
    | ScopeMusic => bs "music" | ScopeBooks => bs "books"
    end
|}.

#[export] Instance PeerScope_laws : StrEnumLaws PeerScope.
Proof.
  split; [|by apply (bool_decide_unpack _)].
  intros v. apply (bool_decide_unpack _). by destruct v.
Qed.

(** A row of [peers], without its id; [scope] is the stored text. *)
Record PeerRow : Type := mkPeerRow {
  pr_label : bytes;
  pr_key_hash : bytes;
  pr_created_at : Z;
  pr_last_seen_at : option Z;
  pr_revoked_at : option Z;
  pr_scope : bytes;
  pr_pubkey : option bytes;
  pr_gossip_url : option bytes;
  pr_gossip_record : option bytes;
  pr_downloaded : Z;
  pr_uploaded : Z;
  pr_max_size_bytes : option Z;
  pr_max_height : option Z
}.

(** [catalog::ItemOrigin], a row of [item_origin]. *)
Record ItemOrigin : Type := mkOrigin {
  or_peer_id : option Z;
  or_upstream : list bytes
}.

#[export] Instance ItemOrigin_eq_dec : EqDecision ItemOrigin.
Proof. solve_decision. Defined.

(** A row of [peer_catalog], keyed by friend and info hash. *)
Record CatalogRow : Type := mkCatalogRow {
  cat_spec : MediaSpec;
  cat_ids : ExternalIds;
  cat_size : Z;
  cat_private : bool;
  cat_download_url : bytes
}.

Inductive EndpointKind : Type := KindApi | KindClient | KindTracker.

#[export] Instance EndpointKind_eq_dec : EqDecision EndpointKind.
Proof. solve_decision. Defined.

#[export] Instance EndpointKind_names : StrEnum EndpointKind := {|
  ALL := [KindApi; KindClient; KindTracker];
  as_str_name := fun k => match k with KindApi => bs "api" | KindClient => bs "client" | KindTracker => bs "tracker" end
|}.

Inductive ObservedVia : Type := ViaDirect | ViaGossip | ViaLighthouse | ViaRestored.

#[export] Instance ObservedVia_eq_dec : EqDecision ObservedVia.
Proof. solve_decision. Defined.

#[export] Instance ObservedVia_names : StrEnum ObservedVia := {|
  ALL := [ViaDirect; ViaGossip; ViaLighthouse; ViaRestored];
  as_str_name := fun v =>
    match v with
    | ViaDirect => bs "direct" | ViaGossip => bs "gossip" | ViaLighthouse => bs "lighthouse" | ViaRestored => bs "restored"
    end
|}.

#[export] Instance EndpointKind_laws : StrEnumLaws EndpointKind.
Proof.
  split; [|by apply (bool_decide_unpack _)].
  intros v. apply (bool_decide_unpack _). by destruct v.
Qed.

#[export] Instance ObservedVia_laws : StrEnumLaws ObservedVia.
Proof.
  split; [|by apply (bool_decide_unpack _)].
  intros v. apply (bool_decide_unpack _). by destruct v.
Qed.

(** A row of [peer_endpoints]. *)
Record EndpointRow : Type := mkEndpointRow {
  er_peer_id : Z;
  er_kind : bytes;
  er_addr : bytes;
  er_observed_at : Z;
  er_via : bytes
}.

(** ** History *)

Record RunSummary : Type := mkRunSummary {
  rs_discovered : Z;
  rs_added : Z;
  rs_unshared : Z;
  rs_failed : Z;
  rs_error : option bytes
}.

Record RunRow : Type := mkRun {
  run_started_at : Z;
  run_finished_at : option Z;
  run_summary : RunSummary
}.

Record SwarmSample : Type := mkSample {
  sample_sampled_at : Z;
  sample_swarms : Z;
  sample_peers : Z;
  sample_seeders : Z
}.

Record TransferTotals : Type := mkTotals {
  tt_downloaded : Z;
  tt_uploaded : Z;
  tt_updated_at : option Z
}.

(** [retention::Retention]. *)
Record Retention : Type := mkRetention {
  ret_swarm_samples : Z;
  ret_endpoint_history : Z;
  ret_sync_runs : Z
}.

(** ** The tables *)

(** A table with an AUTOINCREMENT id: its rows and the last id given out. *)
Record Table (V : Type) : Type := mkTable { tb_rows : gmap Z V; tb_sequence : Z }.
Arguments mkTable {V} tb_rows tb_sequence.
Arguments tb_rows {V} t.
Arguments tb_sequence {V} t.

Definition tb_empty {V : Type} : Table V := mkTable ∅ 0.

(** [INSERT]: the row under the next id. *)
Definition tb_insert {V : Type} (v : V) (t : Table V) : Z * Table V :=
  let id := (tb_sequence t + 1)%Z in (id, mkTable (<[id := v]> (tb_rows t)) id).

Record Db : Type := mkDb {
  db_items : gmap ItemKey ItemRow;
  db_item_sequence : Z;
  db_origins : gmap ItemKey ItemOrigin;
  db_audience : gset (ItemKey * bytes);
  db_peers : Table PeerRow;
  db_catalog : gmap (Z * bytes) CatalogRow;
  db_endpoints : Table EndpointRow;
  db_runs : Table RunRow;
  db_samples : Table SwarmSample;
  db_totals : TransferTotals;
  db_retention : Retention
}.

Definition with_items (items : gmap ItemKey ItemRow) (seq : Z) (db : Db) : Db :=
  mkDb items seq (db_origins db) (db_audience db) (db_peers db) (db_catalog db)
    (db_endpoints db) (db_runs db) (db_samples db) (db_totals db) (db_retention db).
Definition with_origins (origins : gmap ItemKey ItemOrigin) (db : Db) : Db :=
  mkDb (db_items db) (db_item_sequence db) origins (db_audience db) (db_peers db) (db_catalog db)
    (db_endpoints db) (db_runs db) (db_samples db) (db_totals db) (db_retention db).
Definition with_audience (audience : gset (ItemKey * bytes)) (db : Db) : Db :=
  mkDb (db_items db) (db_item_sequence db) (db_origins db) audience (db_peers db) (db_catalog db)
    (db_endpoints db) (db_runs db) (db_samples db) (db_totals db) (db_retention db).
Definition with_peers (peers : Table PeerRow) (db : Db) : Db :=
  mkDb (db_items db) (db_item_sequence db) (db_origins db) (db_audience db) peers (db_catalog db)
    (db_endpoints db) (db_runs db) (db_samples db) (db_totals db) (db_retention db).
Definition with_catalog (catalog : gmap (Z * bytes) CatalogRow) (db : Db) : Db :=
  mkDb (db_items db) (db_item_sequence db) (db_origins db) (db_audience db) (db_peers db) catalog
    (db_endpoints db) (db_runs db) (db_samples db) (db_totals db) (db_retention db).
Definition with_endpoints (endpoints : Table EndpointRow) (db : Db) : Db :=
  mkDb (db_items db) (db_item_sequence db) (db_origins db) (db_audience db) (db_peers db) (db_catalog db)
    endpoints (db_runs db) (db_samples db) (db_totals db) (db_retention db).
Definition with_runs (runs : Table RunRow) (db : Db) : Db :=
  mkDb (db_items db) (db_item_sequence db) (db_origins db) (db_audience db) (db_peers db) (db_catalog db)
    (db_endpoints db) runs (db_samples db) (db_totals db) (db_retention db).
Definition with_samples (samples : Table SwarmSample) (db : Db) : Db :=
  mkDb (db_items db) (db_item_sequence db) (db_origins db) (db_audience db) (db_peers db) (db_catalog db)
    (db_endpoints db) (db_runs db) samples (db_totals db) (db_retention db).
Definition with_totals (totals : TransferTotals) (db : Db) : Db :=
  mkDb (db_items db) (db_item_sequence db) (db_origins db) (db_audience db) (db_peers db) (db_catalog db)
    (db_endpoints db) (db_runs db) (db_samples db) totals (db_retention db).
Definition with_retention (retention : Retention) (db : Db) : Db :=
  mkDb (db_items db) (db_item_sequence db) (db_origins db) (db_audience db) (db_peers db) (db_catalog db)
    (db_endpoints db) (db_runs db) (db_samples db) (db_totals db) retention.

Abbreviation DbM := (St (Db * Script)).

(** A statement that only reads. *)
Definition select {A : Type} (f : Db -> A) : DbM (result A StoreError) := query (fun db => (Ok (f db), db)).

(** [Store::changed] over an UPDATE or DELETE: whether a row changed. *)
Definition changed (statement : Db -> nat * Db) : DbM (result bool StoreError) :=
  query (fun db => let '(n, db) := statement db in (Ok (0 <? n), db)).

(** An INSERT, UPDATE or DELETE whose count nobody asks for. *)
Definition execute (statement : Db -> Db) : DbM (result unit StoreError) :=
  query (fun db => (Ok tt, statement db)).

(** The row order of a query that states none. *)
Class RowOrder : Type := rows_of : forall K `{Countable K} V, gmap K V -> list (K * V).
Arguments rows_of {_ K _ _ V} _.

Class RowOrderLaws (I : RowOrder) : Prop :=
  rows_of_perm : forall K `{Countable K} V (m : gmap K V), rows_of m ≡ₚ map_to_list m.

(** A later SELECT in key order. *)
Definition key_order : RowOrder := fun K _ _ V m => map_to_list m.

Lemma key_order_laws : RowOrderLaws key_order.
Proof. intros K ? ? V m. reflexivity. Qed.

(** ** Facts *)

(** What one statement does to the tables, if it runs. *)
Lemma query_inv {T A : Type} (statement : T -> result A StoreError * T) t script r t' script' :
  query statement (t, script) = (r, (t', script')) ->
  (statement t = (r, t')) \/ (exists e, r = Err (Sql e) /\ t' = t).
Proof.
  unfold query. cbn. destruct (draw script) as [[] script1].
  - destruct (statement t) as [r1 t1]. intros [= <- <- <-]. by left.
  - intros [= <- <- <-]. right. eauto.
Qed.

(** A statement runs when nothing is scripted to fail. *)
Lemma query_run {T A : Type} (statement : T -> result A StoreError * T) t entropy error :
  query statement (t, mkScript [] entropy error) = ((statement t).1, ((statement t).2, mkScript [] entropy error)).
Proof. unfold query. cbn. by destruct (statement t). Qed.

(** A relation on the tables, whatever happens to the script. *)
Definition tables {T : Type} (R : relation T) : relation (T * Script) := fun s s' => R s.1 s'.1.

#[export] Instance tables_preorder {T : Type} (R : relation T) `{!PreOrder R} : PreOrder (tables R).
Proof. split; [intros s; unfold tables; reflexivity|]. intros a b c H1 H2. unfold tables in *. by transitivity (b.1). Qed.

Lemma moves_query {T A : Type} (R : relation T) `{!Reflexive R} (statement : T -> result A StoreError * T) :
  (forall t, R t (statement t).2) -> moves (tables R) (query statement).
Proof.
  intros H [t script]. destruct (query statement (t, script)) as [r [t' script']] eqn:E.
  apply query_inv in E as [E|(e & -> & ->)]; unfold tables; cbn; [|done]. specialize (H t). by rewrite E in H.
Qed.

Lemma moves_select {A : Type} (R : relation Db) `{!Reflexive R} (f : Db -> A) :
  moves (tables R) (select f).
Proof. by apply moves_query. Qed.

Lemma moves_execute (R : relation Db) `{!Reflexive R} (statement : Db -> Db) :
  (forall db, R db (statement db)) -> moves (tables R) (execute statement).
Proof. intros H. by apply moves_query. Qed.

Lemma moves_changed (R : relation Db) `{!Reflexive R} (statement : Db -> nat * Db) :
  (forall db, R db (statement db).2) -> moves (tables R) (changed statement).
Proof. intros H. apply moves_query; [done|]. intros db. specialize (H db). by destruct (statement db). Qed.

(** One structural step of a [moves] goal: what remains are the statements. *)
Ltac moves_step :=
  first
    [ apply moves_ret; apply _
    | apply moves_gets; apply _
    | apply moves_select; apply _
    | apply moves_execute; [apply _|]
    | apply moves_changed; [apply _|]
    | eapply moves_try; [apply _| |intros ?]
    | eapply moves_bind; [apply _| |intros ?] ].
