(* ===== verification/Items.v ===== *)
(** * Shared items in the store (crates/sharerr-store/src/db.rs, catalog.rs)

    The [shared_items], [item_origin] and [peer_catalog] tables: one function per
    store method, as the SQL statements it runs. *)

From stdpp Require Import sorting.
From S2P Require Import Prelude RustStd Text Model Paths FileTree Effects Accounts Database.

(** [sharerr_core::saturating_i64]. *)
Definition saturating_i64 (n : N) : Z := default i64_max (i64_try_from_u64 n).

(** ** Rows and items *)

(** [row_to_item]. *)
Definition row_to_item (key : ItemKey) (r : ItemRow) : SharedItem := {|
  it_id := Some (r_id r);
  it_source := key.1;
  it_source_id := if_source_id (r_file r);
  it_file_id := key.2;
  it_spec := if_spec (r_file r);
  it_release_title := if_release_title (r_file r);
  it_arr_path := if_arr_path (r_file r);
  it_size := default 0%N (u64_try_from_i64 (if_size (r_file r)));
  it_ids := if_ids (r_file r);
  it_info_hash := tor_info_hash (r_torrent r);
  it_announce_token_fp := tor_token_fp (r_torrent r);
  it_created_by_sharerr := tor_created_by_sharerr (r_torrent r);
  it_state := r_state r;
  it_last_error := r_last_error r;
  it_created_at := Some (r_created_at r);
  it_media := r_media r;
  it_achieved_ratio := rep_achieved_ratio (r_report r);
  it_ratio_limit_reported := rep_ratio_limit (r_report r);
  it_private := tor_private (r_torrent r)
|}.

(** The columns [upsert] binds for what discovery says. *)
Definition file_columns (item : SharedItem) : ItemFile :=
  mkItemFile (it_source_id item) (it_spec item) (it_release_title item) (to_string_lossy (it_arr_path item))
    (saturating_i64 (it_size item)) (it_ids item).

(** SQL's COALESCE of two nullable values. *)
Definition coalesce {A : Type} (a b : option A) : option A := match a with Some _ => a | None => b end.

(** The INSERT half of [upsert]. *)
Definition inserted_row (id now : Z) (item : SharedItem) : ItemRow := {|
  r_id := id;
  r_file := file_columns item;
  r_media := it_media item;
  r_torrent := mkItemTorrent (it_info_hash item) None (it_announce_token_fp item) (it_created_by_sharerr item)
                 (it_private item);
  r_report := mkItemReport (it_achieved_ratio item) (it_ratio_limit_reported item);
  r_stamp := mkItemStamp None None;
  r_share_until := None;
  r_state := it_state item;
  r_last_error := it_last_error item;
  r_created_at := now;
  r_updated_at := now
|}.

(** The ON CONFLICT half: a column the clause does not name keeps its value. *)
Definition merged_row (now : Z) (item : SharedItem) (old : ItemRow) : ItemRow := {|
  r_id := r_id old;
  r_file := file_columns item;
  r_media := coalesce (it_media item) (r_media old);
  r_torrent := mkItemTorrent (coalesce (it_info_hash item) (tor_info_hash (r_torrent old)))
                 (tor_info_hash_v2 (r_torrent old))
                 (coalesce (it_announce_token_fp item) (tor_token_fp (r_torrent old)))
                 (tor_created_by_sharerr (r_torrent old)) (tor_private (r_torrent old));
  r_report := mkItemReport (coalesce (it_achieved_ratio item) (rep_achieved_ratio (r_report old)))
                (coalesce (it_ratio_limit_reported item) (rep_ratio_limit (r_report old)));
  r_stamp := r_stamp old;
  r_share_until := r_share_until old;
  r_state := it_state item;
  r_last_error := it_last_error item;
  r_created_at := r_created_at old;
  r_updated_at := now
|}.

Definition upsert_statement (now : Z) (item : SharedItem) (db : Db) : result Z StoreError * Db :=
  match db_items db !! item_key item with
  | Some old =>
      (Ok (r_id old), with_items (<[item_key item := merged_row now item old]> (db_items db)) (db_item_sequence db) db)
  | None =>
      let id := (db_item_sequence db + 1)%Z in
      (Ok id, with_items (<[item_key item := inserted_row id now item]> (db_items db)) id db)
  end.

Definition upsert (now : Z) (item : SharedItem) : DbM (result Z StoreError) := query (upsert_statement now item).

(** ** Single-row updates *)

(** [item_update!] with the columns it sets: the rows it changed. *)
Definition update_row (set : ItemRow -> ItemRow) (key : ItemKey) (db : Db) : nat * Db :=
  match db_items db !! key with
  | Some r => (1, with_items (<[key := set r]> (db_items db)) (db_item_sequence db) db)
  | None => (0, db)
  end.

(** [Store::update_item]: [set] gets the [updated_at] to write. *)
Definition update_item (now : Z) (set : Z -> ItemRow -> ItemRow) (key : ItemKey) : DbM (result unit StoreError) :=
  query (fun db => (Ok tt, (update_row (set now) key db).2)).

(** [Store::update_item_counted]. *)
Definition update_item_counted (now : Z) (set : Z -> ItemRow -> ItemRow) (key : ItemKey) : DbM (result nat StoreError) :=
  query (fun db => let '(n, db) := update_row (set now) key db in (Ok n, db)).

Definition put_state (state : ShareState) (error : option bytes) (now : Z) (r : ItemRow) : ItemRow :=
  mkRow (r_id r) (r_file r) (r_media r) (r_torrent r) (r_report r) (r_stamp r) (r_share_until r) state error
    (r_created_at r) now.
Definition put_torrent (f : ItemTorrent -> ItemTorrent) (now : Z) (r : ItemRow) : ItemRow :=
  mkRow (r_id r) (r_file r) (r_media r) (f (r_torrent r)) (r_report r) (r_stamp r) (r_share_until r) (r_state r)
    (r_last_error r) (r_created_at r) now.
Definition put_report (report : ItemReport) (now : Z) (r : ItemRow) : ItemRow :=
  mkRow (r_id r) (r_file r) (r_media r) (r_torrent r) report (r_stamp r) (r_share_until r) (r_state r)
    (r_last_error r) (r_created_at r) now.
Definition put_stamp (stamp : ItemStamp) (now : Z) (r : ItemRow) : ItemRow :=
  mkRow (r_id r) (r_file r) (r_media r) (r_torrent r) (r_report r) stamp (r_share_until r) (r_state r)
    (r_last_error r) (r_created_at r) now.
Definition put_share_until (until : option Z) (now : Z) (r : ItemRow) : ItemRow :=
  mkRow (r_id r) (r_file r) (r_media r) (r_torrent r) (r_report r) (r_stamp r) until (r_state r)
    (r_last_error r) (r_created_at r) now.

Definition set_state (now : Z) (key : ItemKey) (state : ShareState) (last_error : option bytes)
  : DbM (result unit StoreError) :=
  update_item now (put_state state last_error) key.

(** The columns [set_seeding] writes. *)
Definition put_seeding (info_hash : bytes) (token_fp : option bytes) (created : bool) (private : option bool)
    (now : Z) (r : ItemRow) : ItemRow :=
  put_state Seeding None now
    (put_torrent (fun t => mkItemTorrent (Some info_hash) None token_fp created (default (tor_private t) private)) now r).

Definition set_seeding (now : Z) (key : ItemKey) (info_hash : bytes) (token_fp : option bytes) (created : bool)
    (private : option bool) : DbM (result unit StoreError) :=
  update_item now (put_seeding info_hash token_fp created private) key.

Definition put_confirmed (token_fp : option bytes) (report : ItemReport) (now : Z) (r : ItemRow) : ItemRow :=
  put_report report now
    (put_torrent (fun t => mkItemTorrent (tor_info_hash t) (tor_info_hash_v2 t) token_fp
                             (tor_created_by_sharerr t) (tor_private t)) now r).

Definition confirm_seeding (now : Z) (key : ItemKey) (token_fp : option bytes) (ratio ratio_limit : option N)
  : DbM (result unit StoreError) :=
  update_item now (put_confirmed token_fp (mkItemReport ratio ratio_limit)) key.

Definition set_ratio (now : Z) (key : ItemKey) (ratio ratio_limit : option N) : DbM (result unit StoreError) :=
  update_item now (put_report (mkItemReport ratio ratio_limit)) key.

Definition set_info_hash_v2 (now : Z) (key : ItemKey) (v2 : bytes) : DbM (result unit StoreError) :=
  update_item now (put_torrent (fun t => mkItemTorrent (tor_info_hash t) (Some v2) (tor_token_fp t)
                                           (tor_created_by_sharerr t) (tor_private t))) key.

(** ** File stamps *)

Record FileStamp : Type := mkFileStamp { fs_inode : option N; fs_mtime_ns : Z }.

#[export] Instance FileStamp_eq_dec : EqDecision FileStamp.
Proof. solve_decision. Defined.

Definition inode_to_sql (inode : N) : Z := as_i64 inode.
Definition inode_from_sql (raw : Z) : N := if (0 <=? raw)%Z then Z.to_N raw else Z.to_N (raw + 18446744073709551616).

Definition set_file_stamp (now : Z) (key : ItemKey) (stamp : option FileStamp) : DbM (result unit StoreError) :=
  update_item now (put_stamp (mkItemStamp (s ← stamp; inode_to_sql <$> fs_inode s) (fs_mtime_ns <$> stamp))) key.

Definition stamp_of_row (r : ItemRow) : option FileStamp :=
  mtime ← stp_mtime_ns (r_stamp r);
  Some (mkFileStamp (inode_from_sql <$> stp_inode (r_stamp r)) mtime).

Definition file_stamps : DbM (result (gmap ItemKey FileStamp) StoreError) :=
  select (fun db => omap stamp_of_row (db_items db)).

(** ** Share-until dates *)

Definition set_share_until (now : Z) (key : ItemKey) (until : option Z) : DbM (result bool StoreError) :=
  try! affected := update_item_counted now (put_share_until until) key in
  sret (Ok (0 <? affected)).

Definition share_ends : DbM (result (gmap ItemKey Z) StoreError) := select (fun db => omap r_share_until (db_items db)).

Definition share_end (key : ItemKey) : DbM (result (option Z) StoreError) :=
  select (fun db => r ← db_items db !! key; r_share_until r).

(** ** What a scope admits (peers.rs, [PeerScope]) *)

Definition scope_allows (scope : PeerScope) (source : MediaSource) : bool :=
  match scope with
  | ScopeAll => true
  | ScopeTv => bool_decide (source = Sonarr)
  | ScopeMovies => bool_decide (source = Radarr)
  | ScopeMusic => bool_decide (source = Lidarr)
  | ScopeBooks => bool_decide (source = Readarr)
  end.

Definition directory_kind (scope : PeerScope) : option bytes :=
  match scope with
  | ScopeAll => None
  | ScopeTv => Some (bs "episode")
  | ScopeMovies => Some (bs "movie")
  | ScopeMusic => Some (bs "track")
  | ScopeBooks => Some (bs "book")
  end.

(** [PeerScope::admits]. *)
Definition scope_admits (scope : PeerScope) (item : SharedItem) : bool :=
  if scope_allows scope (it_source item) then true
  else bool_decide (it_source item ∈ KIND_SCOPED)
       && bool_decide (directory_kind scope = Some (kind_tag (it_spec item))).

(** The WHERE clause of [ScopeFilter::new], over one row. *)
Definition scope_clause (scope : PeerScope) (key : ItemKey) (r : ItemRow) : bool :=
  bool_decide (r_state r = Seeding) && bool_decide (is_Some (tor_info_hash (r_torrent r)))
  && (bool_decide (key.1 ∈ filter (fun s => scope_allows scope s = true) ALL)
      || match directory_kind scope with
         | Some kind => bool_decide (key.1 ∈ KIND_SCOPED) && bool_decide (kind_tag (if_spec (r_file r)) = kind)
         | None => false
         end).

(** ** Queries *)

Section Queries.
Context `{RO : RowOrder}.

Definition all_items : DbM (result (list SharedItem) StoreError) :=
  select (fun db => map (fun kr => row_to_item kr.1 kr.2) (rows_of (db_items db))).

(** [ORDER BY created_at DESC, id DESC]. *)
Definition newest_first (a b : ItemKey * ItemRow) : comparison :=
  match Z.compare (r_created_at b.2) (r_created_at a.2) with
  | Eq => Z.compare (r_id b.2) (r_id a.2)
  | c => c
  end.

Definition scoped_rows (scope : PeerScope) (db : Db) : list (ItemKey * ItemRow) :=
  filter (fun kr => scope_clause scope kr.1 kr.2 = true) (rows_of (db_items db)).

Definition seeding_items (scope : PeerScope) : DbM (result (list SharedItem) StoreError) :=
  select (fun db => map (fun kr => row_to_item kr.1 kr.2) (sort_by newest_first (scoped_rows scope db))).

Record SeedingSummary : Type := mkSeedingSummary { sm_count : Z; sm_size : Z }.

(** [SELECT COUNT(..), COALESCE(SUM(size), 0)]: a sum past 64 bits is an error. *)
Definition seeding_summary (scope : PeerScope) : DbM (result SeedingSummary StoreError) :=
  query (fun db =>
    let rows := scoped_rows scope db in
    let total := foldr (fun kr acc => if_size (r_file kr.2) + acc)%Z 0%Z rows in
    if in_i64 total then (Ok (mkSeedingSummary (Z.of_nat (length rows)) total), db)
    else (Err (Sql (bs "integer overflow")), db)).

Definition counts_by_state : DbM (result (list (ShareState * nat)) StoreError) :=
  select (fun db =>
    map (fun state => (state, length (filter (fun kr => r_state kr.2 = state) (rows_of (db_items db))))) ALL).

Definition is_shared (info_hash : bytes) : DbM (result bool StoreError) :=
  select (fun db =>
    existsb (fun kr => (bool_decide (tor_info_hash (r_torrent kr.2) = Some info_hash)
                        || bool_decide (tor_info_hash_v2 (r_torrent kr.2) = Some info_hash))
                       && bool_decide (r_state kr.2 ∈ [Seeding; Pending])) (rows_of (db_items db))).

(** [Store::get]. *)
Definition get_item (key : ItemKey) : DbM (result (option SharedItem) StoreError) :=
  select (fun db => row_to_item key <$> db_items db !! key).

(** ** Where a torrent came from (catalog.rs) *)

Definition put_origin (key : ItemKey) (origin : ItemOrigin) (db : Db) : Db :=
  let upstream :=
    match db_origins db !! key with
    | Some old =>
        if bool_decide (or_upstream origin = []) && bool_decide (or_peer_id old = or_peer_id origin)
        then or_upstream old else or_upstream origin
    | None => or_upstream origin
    end in
  with_origins (<[key := mkOrigin (or_peer_id origin) upstream]> (db_origins db)) db.

(** [item_origin.peer_id REFERENCES peers (id)]. *)
Definition known_peer (peer_id : option Z) (db : Db) : bool :=
  match peer_id with Some id => bool_decide (is_Some (tb_rows (db_peers db) !! id)) | None => true end.

Definition set_item_origin (key : ItemKey) (origin : option ItemOrigin) : DbM (result unit StoreError) :=
  match origin with
  | None => execute (fun db => with_origins (delete key (db_origins db)) db)
  | Some origin =>
      query (fun db =>
        if known_peer (or_peer_id origin) db then (Ok tt, put_origin key origin db)
        else (Err (Sql (bs "FOREIGN KEY constraint failed")), db))
  end.

Definition item_origin (key : ItemKey) : DbM (result (option ItemOrigin) StoreError) :=
  select (fun db => db_origins db !! key).

Definition item_origins : DbM (result (gmap ItemKey ItemOrigin) StoreError) := select db_origins.

Definition put_rebuild (now : Z) (r : ItemRow) : ItemRow :=
  put_state Pending None now (put_torrent (fun _ => mkItemTorrent None None None false true) now r).

Definition reset_for_rebuild (now : Z) (key : ItemKey) : DbM (result unit StoreError) :=
  try! reset := update_item now put_rebuild key in
  set_item_origin key None.

(** ** Friends' catalogs (catalog.rs) *)

Definition catalog_row (entry : CatalogEntry) : CatalogRow :=
  mkCatalogRow (ce_spec entry) (ce_ids entry) (saturating_i64 (ce_size entry)) (ce_private entry)
    (ce_download_url entry).

(** One transaction: the friend's rows out, [INSERT OR REPLACE] of each entry.
    An unknown friend fails the foreign key, once there is an entry. *)
Definition replace_peer_catalog (peer_id : Z) (entries : list CatalogEntry) : DbM (result unit StoreError) :=
  query (fun db =>
    if bool_decide (entries = []) || bool_decide (is_Some (tb_rows (db_peers db) !! peer_id)) then
      let kept := filter (fun kr => kr.1.1 <> peer_id) (db_catalog db) in
      (Ok tt, with_catalog (foldl (fun m entry =>
         <[(peer_id, str_to_ascii_lowercase (ce_info_hash entry)) := catalog_row entry]> m) kept entries) db)
    else (Err (Sql (bs "FOREIGN KEY constraint failed")), db)).

Definition catalog_entry (key : Z * bytes) (r : CatalogRow) : CatalogEntry :=
  mkEntry key.2 (cat_spec r) (cat_ids r) (default 0%N (u64_try_from_i64 (cat_size r))) (cat_private r) (cat_download_url r).

(** [ORDER BY p.id, c.info_hash]. *)
Definition catalog_order (a b : (Z * bytes) * CatalogRow) : comparison :=
  match Z.compare a.1.1 b.1.1 with Eq => bytes_compare a.1.2 b.1.2 | c => c end.

(** The JOIN with active friends. *)
Definition friend_active (peers : Table PeerRow) (peer_id : Z) : bool :=
  match tb_rows peers !! peer_id with Some p => bool_decide (pr_revoked_at p = None) | None => false end.

Definition catalog_matches (spec : MediaSpec) (ids : ExternalIds) (size : N)
  : DbM (result (list (Z * CatalogEntry)) StoreError) :=
  select (fun db =>
    let rows := filter (fun kr => cat_size kr.2 = saturating_i64 size /\ friend_active (db_peers db) kr.1.1 = true)
                  (rows_of (db_catalog db)) in
    filter (fun pe => entry_matches pe.2 spec ids size = true)
      (map (fun kr => (kr.1.1, catalog_entry kr.1 kr.2)) (sort_by catalog_order rows))).

(** [GROUP BY peer_id]: how many entries each friend lists. *)
Definition peer_catalog_sizes : DbM (result (gmap Z nat) StoreError) :=
  select (fun db => foldr (fun kr m => <[kr.1.1 := S (default 0 (m !! kr.1.1))]> m) ∅ (rows_of (db_catalog db))).

End Queries.

(** ** Facts: scopes *)

(** The SQL clause and the in-memory rule agree row by row. *)
Lemma scope_clause_admits scope key r :
  scope_clause scope key r = scope_clause ScopeAll key r && scope_admits scope (row_to_item key r).
Proof.
  destruct key as [source fid]. unfold scope_clause, scope_admits. cbn [fst row_to_item it_source it_spec].
  set (base := bool_decide (r_state r = Seeding) && _). generalize base. clear base. intros [|]; [|done].
  generalize (if_spec (r_file r)). intros spec. destruct scope, source, spec; vm_compute; reflexivity.
Qed.

Lemma newest_first_flip a b : newest_first a b = Gt -> cmp_le newest_first b a.
Proof.
  unfold cmp_le, newest_first. rewrite (Z.compare_antisym (r_created_at a.2)), (Z.compare_antisym (r_id a.2)).
  destruct (r_created_at a.2 ?= r_created_at b.2)%Z; cbn; [|done|done].
  by destruct (r_id a.2 ?= r_id b.2)%Z.
Qed.

Lemma newest_first_trans : Transitive (cmp_le newest_first).
Proof.
  intros a b c. unfold cmp_le, newest_first.
  destruct (Z.compare_spec (r_created_at b.2) (r_created_at a.2)), (Z.compare_spec (r_created_at c.2) (r_created_at b.2)),
    (Z.compare_spec (r_created_at c.2) (r_created_at a.2)); try lia; try done; try congruence;
    destruct (Z.compare_spec (r_id b.2) (r_id a.2)), (Z.compare_spec (r_id c.2) (r_id b.2)),
      (Z.compare_spec (r_id c.2) (r_id a.2)); try lia; done.
Qed.

Section ScopeFacts.
Context `{RO : RowOrder}.

(** The rows a scope's feed lists, newest first. *)
Definition feed_rows (scope : PeerScope) (db : Db) : list SharedItem :=
  map (fun kr => row_to_item kr.1 kr.2) (sort_by newest_first (scoped_rows scope db)).

Lemma filter_map_comm {A B : Type} (f : A -> B) (P : B -> Prop) `{!forall b, Decision (P b)} (l : list A) :
  filter P (map f l) = map f (filter (fun a => P (f a)) l).
Proof. induction l as [|a l IH]; [done|]. cbn [map]. rewrite !filter_cons, IH. by case_decide. Qed.

(** A scope's feed is the whole feed with what the scope refuses left out. *)
Lemma feed_rows_scope scope db :
  feed_rows scope db = filter (fun item => scope_admits scope item = true) (feed_rows ScopeAll db).
Proof.
  unfold feed_rows. rewrite filter_map_comm. f_equal.
  rewrite sort_by_filter by (apply newest_first_flip || apply newest_first_trans). f_equal.
  unfold scoped_rows. rewrite list_filter_filter. apply list_filter_iff. intros [key r]. cbn.
  rewrite (scope_clause_admits scope), andb_true_iff. tauto.
Qed.

Lemma elem_of_feed_rows `{!RowOrderLaws RO} scope db item :
  item ∈ feed_rows scope db <->
  exists key r, db_items db !! key = Some r /\ item = row_to_item key r /\ r_state r = Seeding /\
    is_Some (tor_info_hash (r_torrent r)) /\ scope_admits scope item = true.
Proof.
  unfold feed_rows, scoped_rows. rewrite list_elem_of_fmap. split.
  - intros ([key r] & -> & Hin). rewrite sort_by_perm in Hin. apply list_elem_of_filter in Hin as [Hc Hin].
    rewrite rows_of_perm in Hin. apply elem_of_map_to_list in Hin. cbn in *.
    rewrite scope_clause_admits, andb_true_iff in Hc. destruct Hc as [Hc Ha].
    exists key, r. unfold scope_clause in Hc. rewrite !andb_true_iff, !bool_decide_eq_true in Hc. naive_solver.
  - intros (key & r & Hr & -> & Hs & Hh & Ha). exists (key, r). split; [done|].
    rewrite sort_by_perm. apply list_elem_of_filter. split; [|rewrite rows_of_perm; by apply elem_of_map_to_list].
    cbn. rewrite scope_clause_admits, Ha, andb_true_r. unfold scope_clause.
    rewrite (bool_decide_eq_true_2 _ Hs), (bool_decide_eq_true_2 _ Hh). by destruct key as [[] ?].
Qed.

End ScopeFacts.

(** ** Facts: writes *)

(** The calls the program makes of the item table; a state set on its own is
    never [Seeding], which only [set_seeding] records. *)
Inductive ItemCall : Type :=
| CallUpsert (now : Z) (d : Discovered) (title : bytes)
| CallState (now : Z) (key : ItemKey) (failed : option bytes)
| CallSeeding (now : Z) (key : ItemKey) (hash : bytes) (fp : option bytes) (created : bool) (private : option bool)
| CallConfirm (now : Z) (key : ItemKey) (fp : option bytes) (ratio limit : option N)
| CallRatio (now : Z) (key : ItemKey) (ratio limit : option N)
| CallV2 (now : Z) (key : ItemKey) (v2 : bytes)
| CallStamp (now : Z) (key : ItemKey) (stamp : option FileStamp)
| CallUntil (now : Z) (key : ItemKey) (until : option Z)
| CallOrigin (key : ItemKey) (origin : option ItemOrigin)
| CallRebuild (now : Z) (key : ItemKey).

(** Any call, with its answer dropped. *)
Definition dropping {A : Type} (m : DbM A) : DbM unit := let! answer := m in sret tt.

Definition item_call (c : ItemCall) : DbM unit :=
  match c with
  | CallUpsert now d title => dropping (upsert now (into_shared_item d title))
  | CallState now key (Some e) => dropping (set_state now key Failed (Some e))
  | CallState now key None => dropping (set_state now key Unshared None)
  | CallSeeding now key hash fp created private => dropping (set_seeding now key hash fp created private)
  | CallConfirm now key fp ratio limit => dropping (confirm_seeding now key fp ratio limit)
  | CallRatio now key ratio limit => dropping (set_ratio now key ratio limit)
  | CallV2 now key v2 => dropping (set_info_hash_v2 now key v2)
  | CallStamp now key stamp => dropping (set_file_stamp now key stamp)
  | CallUntil now key until => dropping (set_share_until now key until)
  | CallOrigin key origin => dropping (set_item_origin key origin)
  | CallRebuild now key => dropping (reset_for_rebuild now key)
  end.

Definition item_calls (cs : list ItemCall) : DbM unit := sfold (fun _ c => item_call c) cs tt.

(** A row that is shared or was built has the torrent's identity. *)
Definition row_ok (r : ItemRow) : Prop :=
  (r_state r = Seeding -> is_Some (tor_info_hash (r_torrent r))) /\
  (tor_created_by_sharerr (r_torrent r) = true -> is_Some (tor_info_hash (r_torrent r))).

Record rows_ok (rows : gmap ItemKey ItemRow) (sequence : Z) : Prop := {
  rows_each : map_Forall (fun _ r => row_ok r) rows;
  rows_ids : map_Forall (fun _ r => (0 < r_id r <= sequence)%Z) rows;
  rows_distinct : forall k1 k2 r1 r2, rows !! k1 = Some r1 -> rows !! k2 = Some r2 -> r_id r1 = r_id r2 -> k1 = k2
}.

Definition items_ok (db : Db) : Prop := rows_ok (db_items db) (db_item_sequence db).

(** A change of one row that keeps its id and keeps it in order. *)
Lemma items_ok_update key set db :
  (forall r, r_id (set r) = r_id r) -> (forall r, row_ok r -> row_ok (set r)) ->
  items_ok db -> items_ok (update_row set key db).2.
Proof.
  intros Hid Hset [Hrows Hids Hinj]. unfold update_row.
  destruct (db_items db !! key) as [r|] eqn:Hr; [|by split]. cbn. split; cbn.
  - apply map_Forall_insert_2; [|done]. apply Hset, (Hrows _ _ Hr).
  - apply map_Forall_insert_2; [|done]. rewrite Hid. apply (Hids _ _ Hr).
  - assert (forall k r', <[key := set r]> (db_items db) !! k = Some r' ->
      exists r0, db_items db !! k = Some r0 /\ r_id r0 = r_id r') as Hold.
    { intros k r' Hk. apply lookup_insert_Some in Hk as [[<- <-]|[_ Hk]]; eauto. }
    intros k1 k2 r1 r2 H1 H2 Heq. apply Hold in H1 as (o1 & H1 & E1), H2 as (o2 & H2 & E2).
    eapply Hinj; [done|done|congruence].
Qed.

Lemma items_ok_upsert now d title db :
  (0 <= db_item_sequence db)%Z -> items_ok db -> items_ok (upsert_statement now (into_shared_item d title) db).2.
Proof.
  intros Hseq Hok. unfold upsert_statement. set (item := into_shared_item d title).
  destruct (db_items db !! item_key item) as [old|] eqn:Hold.
  - pose proof (items_ok_update (item_key item) (merged_row now item) db) as H.
    unfold update_row in H. rewrite Hold in H. apply H; [done| |done].
    intros r [H1 H2]. split; cbn; [done|]. by intros ?%H2.
  - destruct Hok as [Hrows Hids Hinj]. split; cbn.
    + apply map_Forall_insert_2; [by split|done].
    + apply map_Forall_insert_2; [cbn; lia|]. eapply map_Forall_impl; [exact Hids|]. cbn. lia.
    + intros k1 k2 r1 r2 H1 H2 Heq.
      apply lookup_insert_Some in H1 as [[<- <-]|[N1 H1]], H2 as [[<- <-]|[N2 H2]]; cbn in Heq; [done|..].
      * apply Hids in H2. lia.
      * apply Hids in H1. lia.
      * by eapply Hinj.
Qed.

Definition db_items_ok (db : Db) : Prop := (0 <= db_item_sequence db)%Z /\ items_ok db.

Lemma dropping_preserves {A : Type} (P : Db * Script -> Prop) (m : DbM A) : preserves P m -> preserves P (dropping m).
Proof. intros H. apply preserves_bind; [done|]. intros a. apply preserves_ret. Qed.

Lemma query_preserves {A : Type} (P : Db -> Prop) (statement : Db -> result A StoreError * Db) :
  (forall db, P db -> P (statement db).2) -> preserves (fun s => P s.1) (query statement).
Proof.
  intros H [db script] Hdb. destruct (query statement (db, script)) as [r [db' script']] eqn:E.
  apply query_inv in E as [E|(e & -> & ->)]; [|done]. specialize (H db Hdb). by rewrite E in H.
Qed.

Lemma update_item_ok now set key :
  (forall now r, r_id (set now r) = r_id r) -> (forall now r, row_ok r -> row_ok (set now r)) ->
  preserves (fun s => db_items_ok s.1) (update_item now set key).
Proof.
  intros Hid Hset. apply query_preserves. intros db [Hseq Hok]. cbn. split.
  - unfold update_row. by destruct (db_items db !! key).
  - apply items_ok_update; auto.
Qed.

Lemma set_origin_ok key origin : preserves (fun s => db_items_ok s.1) (set_item_origin key origin).
Proof.
  destruct origin as [o|]; apply query_preserves; intros db Hok; [cbn; by destruct (known_peer _ _)|exact Hok].
Qed.

Lemma item_call_ok c : preserves (fun s => db_items_ok s.1) (item_call c).
Proof.
  destruct c as [now d title|now key [e|]|now key hash fp created private|now key fp ratio limit|now key ratio limit
    |now key v2|now key stamp|now key until|key origin|now key]; apply dropping_preserves.
  - apply query_preserves. intros db [Hseq Hok]. split; [|by apply items_ok_upsert].
    unfold upsert_statement. destruct (db_items db !! _); cbn; lia.
  - apply update_item_ok; [done|]. intros ? r [H1 H2]. by split.
  - apply update_item_ok; [done|]. intros ? r [H1 H2]. by split.
  - apply update_item_ok; [done|]. intros ? r [H1 H2]. split; cbn; eauto.
  - apply update_item_ok; [done|]. intros ? r [H1 H2]. by split.
  - apply update_item_ok; [done|]. intros ? r [H1 H2]. by split.
  - apply update_item_ok; [done|]. intros ? r [H1 H2]. by split.
  - apply update_item_ok; [done|]. intros ? r [H1 H2]. by split.
  - apply preserves_try; [|intros a; apply preserves_ret]. apply query_preserves. intros db [Hseq Hok].
    pose proof (items_ok_update key (put_share_until until now) db) as H. split.
    + unfold update_row. by destruct (db_items db !! key).
    + destruct (update_row _ _ db). apply H; [done|by intros r [? ?]|done].
  - apply set_origin_ok.
  - apply preserves_try; [apply update_item_ok; [done|]|intros a; apply set_origin_ok].
    intros ? r _. by split.
Qed.

Lemma inode_roundtrip inode : (inode <= u64_max)%N -> inode_from_sql (inode_to_sql inode) = inode.
Proof.
  unfold inode_from_sql, inode_to_sql, as_i64, u64_max, i64_max. intros H.
  destruct (Z.leb_spec (Z.of_N inode) 9223372036854775807).
  - rewrite (proj2 (Z.leb_le _ _)) by lia. lia.
  - destruct (Z.leb_spec 0 (Z.of_N inode - 18446744073709551616)); lia.
Qed.

Lemma saturating_i64_range n : (0 <= saturating_i64 n <= i64_max)%Z.
Proof. unfold saturating_i64, i64_try_from_u64, i64_max. destruct (Z.leb_spec (Z.of_N n) 9223372036854775807); cbn; lia. Qed.

(** What the items page reads back for a size. *)
Lemma stored_size n : default 0%N (u64_try_from_i64 (saturating_i64 n)) = N.min n (Z.to_N i64_max).
Proof.
  unfold saturating_i64, i64_try_from_u64, u64_try_from_i64, i64_max.
  destruct (Z.leb_spec (Z.of_N n) 9223372036854775807); cbn; [|lia].
  rewrite (proj2 (Z.leb_le _ _)) by lia. cbn. lia.
Qed.

(** ** Properties *)

(** C32: the item table stays in order.  Whatever calls the program makes of it,
    in whatever order and with whatever failures between them, ids stay positive,
    bounded by the sequence and distinct, an item that is seeding has an info
    hash, and so has one whose torrent sharerr built. *)
Theorem items_invariant cs db script :
  db_items_ok db -> db_items_ok (item_calls cs (db, script)).2.1.
Proof.
  intros Hok. unfold item_calls.
  assert (preserves (fun s => db_items_ok s.1) (sfold (fun _ c => item_call c) cs tt)) as H; [|by apply H].
  clear. generalize tt. induction cs as [|c cs IH]; intros u; cbn; [apply preserves_ret|].
  apply preserves_bind; [apply item_call_ok|]. intros a. apply IH.
Qed.

(** Rediscovery describes a file and never a torrent.  Recording a discovered
    file makes it readable under its key with what discovery says of it, pending
    and without an error; a row that was there keeps its id, its creation time,
    its torrent, its reported ratio, its stamp and its end date, and its media
    metadata unless discovery brings its own; every other row is untouched. *)
Theorem rediscovery_keeps_share `{RO : RowOrder} now d title db entropy error :
  utf8_valid (d_arr_path d) = true ->
  let quiet := mkScript [] entropy error in
  let key := discovered_key d in
  exists id db' r, upsert now (into_shared_item d title) (db, quiet) = (Ok id, (db', quiet)) /\
    db_items db' !! key = Some r /\ db_items db' = <[key := r]> (db_items db) /\
    (get_item key (db', quiet)).1 = Ok (Some (row_to_item key r)) /\
    it_id (row_to_item key r) = Some id /\ it_spec (row_to_item key r) = d_spec d /\
    it_release_title (row_to_item key r) = title /\ it_arr_path (row_to_item key r) = d_arr_path d /\
    it_size (row_to_item key r) = N.min (d_size d) (Z.to_N i64_max) /\ it_ids (row_to_item key r) = d_ids d /\
    r_state r = Pending /\ r_last_error r = None /\
    match db_items db !! key with
    | Some old => r_id r = r_id old /\ r_created_at r = r_created_at old /\ r_torrent r = r_torrent old /\
        r_report r = r_report old /\ r_stamp r = r_stamp old /\ r_share_until r = r_share_until old /\
        r_media r = (if d_media d then d_media d else r_media old)
    | None => r_created_at r = now /\ r_torrent r = mkItemTorrent None None None false true /\ r_media r = d_media d
    end.
Proof.
  intros Hutf quiet key. subst quiet. unfold upsert. rewrite query_run. unfold upsert_statement.
  change (item_key (into_shared_item d title)) with key.
  set (item := into_shared_item d title).
  destruct (db_items db !! key) as [old|] eqn:Hold; cbn [fst snd].
  - eexists _, _, (merged_row now item old). split; [reflexivity|].
    cbn -[to_string_lossy u64_try_from_i64 saturating_i64 N.min]. rewrite lookup_insert_eq, to_string_lossy_valid, stored_size by done.
    split_and!; try done; [by destruct (r_torrent old)|by destruct (r_report old)].
  - eexists _, _, (inserted_row (db_item_sequence db + 1) now item). split; [reflexivity|].
    cbn -[to_string_lossy u64_try_from_i64 saturating_i64 N.min]. rewrite lookup_insert_eq, to_string_lossy_valid, stored_size by done.
    split_and!; done.
Qed.

(** A library of one film, shared under a torrent sharerr built. *)
Definition sample_film : Discovered :=
  mkDiscovered Radarr 7 70 (Movie (bs "The Heist") (Some 2001%N)) (bs "/films/The.Heist.2001.mkv") 700 no_ids
    None None None None.

Definition sample_row : ItemRow :=
  mkRow 1 (file_columns (into_shared_item sample_film (bs "The.Heist.2001"))) None
    (mkItemTorrent (Some (bs "aa")) None None true true) (mkItemReport None None) (mkItemStamp None None) None
    Seeding None 100 100.

Definition no_retention : Retention := mkRetention 336 16 0.

Definition sample_db : Db :=
  mkDb {[ (Radarr, 70%Z) := sample_row ]} 1 ∅ ∅ tb_empty ∅ tb_empty tb_empty tb_empty (mkTotals 0 0 None) no_retention.

Lemma sample_db_ok : db_items_ok sample_db.
Proof.
  split; [vm_compute; discriminate|]. split.
  - apply map_Forall_singleton. split; intros _; by eexists.
  - apply map_Forall_singleton. cbn. lia.
  - intros k1 k2 r1 r2 H1 H2 _. cbn in H1, H2. apply lookup_singleton_Some in H1 as [<- _], H2 as [<- _]. done.
Qed.

Lemma items_invariant_witness :
  db_items_ok (item_calls [CallUpsert 200 sample_film (bs "x"); CallState 201 (Radarr, 70%Z) None]
    (sample_db, mkScript [true; false] [] [])).2.1.
Proof. apply items_invariant. exact sample_db_ok. Defined.

Lemma rediscovery_keeps_share_witness :
  exists db' r, upsert 200 (into_shared_item sample_film (bs "New")) (sample_db, mkScript [] [] []) =
      (Ok 1%Z, (db', mkScript [] [] [])) /\
    db_items db' !! (Radarr, 70%Z) = Some r /\ r_torrent r = r_torrent sample_row.
Proof.
  destruct (@rediscovery_keeps_share key_order 200 sample_film (bs "New") sample_db [] [])
    as (id & db' & r & Hu & Hr & _ & _ & Hid & _ & _ & _ & _ & _ & _ & _ & Hold); [vm_compute; reflexivity|].
  assert (db_items sample_db !! discovered_key sample_film = Some sample_row) as Hrow by reflexivity.
  rewrite Hrow in Hold. destruct Hold as (Hi & _ & Ht & _). exists db', r.
  cbn in Hid. injection Hid as Hid. rewrite Hi in Hid. rewrite <- Hid in Hu. split; [exact Hu|]. split; [exact Hr|exact Ht].
Defined.
