(* ===== verification/Peers.v ===== *)
(** * Friends (crates/sharerr-store/src/peers.rs)

    The [peers] and [item_audience] tables: who holds a key, what each friend may
    see, and who an item is for. *)

From stdpp Require Import sorting.
From S2P Require Import Prelude RustStd Text Metainfo Endpoint Model Effects Accounts FileTree Database Items.

(** ** Names and limits *)

(** The loop of [friend_slug] over the characters of a label. *)
Definition slug_char (slug : bytes) (c : char) : bytes :=
  if char_is_ascii_alphanumeric c then slug ++ map to_ascii_lowercase c
  else if is_nonempty slug && negb (bool_decide (last slug = Some "-"%byte)) then slug ++ ["-"%byte]
  else slug.

Definition friend_slug (label : bytes) : bytes :=
  trim_end "-"%byte (foldl slug_char [] (chars label)).

Record PeerLimits : Type := mkPeerLimits {
  pl_max_size_bytes : option Z;
  pl_max_height : option Z;
  pl_friend : option bytes
}.

(** [Option::is_none_or]. *)
Definition is_none_or {A : Type} (o : option A) (p : A -> bool) : bool :=
  match o with Some a => p a | None => true end.

(** [PeerLimits::admits]. *)
Definition limits_admit (limits : PeerLimits) (item : SharedItem) (audience : option (list bytes)) : bool :=
  let named (audience : list bytes) :=
    match pl_friend limits with Some f => bool_decide (f ∈ audience) | None => false end in
  if is_none_or audience named then
    is_none_or (pl_max_size_bytes limits) (fun max =>
      match i64_try_from_u64 (it_size item) with Some size => (size <=? max)%Z | None => false end)
    && is_none_or (pl_max_height limits) (fun max =>
         is_none_or (it_media item ≫= nominal_height) (fun height => (Z.of_N height <=? max)%Z))
  else false.

Record Peer : Type := mkFriend {
  p_id : Z;
  p_label : bytes;
  p_created_at : Z;
  p_last_seen_at : option Z;
  p_revoked_at : option Z;
  p_scope : PeerScope;
  p_pubkey : option bytes;
  p_gossip_url : option bytes;
  p_key_hash : bytes;
  p_downloaded : Z;
  p_uploaded : Z;
  p_max_size_bytes : option Z;
  p_max_height : option Z
}.

(** [Peer::limits]. *)
Definition peer_limits (p : Peer) : PeerLimits :=
  let slug := friend_slug (p_label p) in
  mkPeerLimits (p_max_size_bytes p) (p_max_height p) (if is_nonempty slug then Some slug else None).

Definition is_revoked (p : Peer) : bool := bool_decide (is_Some (p_revoked_at p)).

Definition row_to_peer (id : Z) (r : PeerRow) : Peer :=
  mkFriend id (pr_label r) (pr_created_at r) (pr_last_seen_at r) (pr_revoked_at r)
    (parse_lenient ScopeAll (pr_scope r)) (pr_pubkey r) (pr_gossip_url r) (pr_key_hash r)
    (pr_downloaded r) (pr_uploaded r) (pr_max_size_bytes r) (pr_max_height r).

Definition validate_label (label : bytes) : result bytes StoreError :=
  validate_name label (bs "a peer needs a name") (bs "a peer name must be 64 characters or fewer").

Definition TOUCH_WINDOW_SECS : Z := 300.

Inductive Touch : Type := TouchFirst | TouchRefreshed | TouchThrottled.

Definition touch_updated (t : Touch) : bool := match t with TouchThrottled => false | _ => true end.

(** ** Methods *)

Section Methods.
Context `{D : Digests} `{RO : RowOrder}.

Definition hash_key (key : bytes) : bytes := hex_encode (sha256 key).

(** [label] and [key_hash] are UNIQUE. *)
Definition label_taken (label : bytes) (peers : Table PeerRow) : bool :=
  existsb (fun r => bool_decide (pr_label r.2 = label)) (map_to_list (tb_rows peers)).
Definition key_taken (key_hash : bytes) (peers : Table PeerRow) : bool :=
  existsb (fun r => bool_decide (pr_key_hash r.2 = key_hash)) (map_to_list (tb_rows peers)).

Definition create_peer (now : Z) (label key : bytes) (scope : PeerScope) : DbM (result Peer StoreError) :=
  try! label := sret (validate_label label) in
  query (fun db =>
    if label_taken label (db_peers db) || key_taken (hash_key key) (db_peers db)
    then (Err (UserExists label), db)
    else
      let row := mkPeerRow label (hash_key key) now None None (as_str_name scope) None None None 0 0 None None in
      let '(id, peers) := tb_insert row (db_peers db) in
      (Ok (row_to_peer id row), with_peers peers db)).

(** [ORDER BY created_at DESC, id DESC]. *)
Definition newest_peer_first (a b : Peer) : comparison :=
  match Z.compare (p_created_at b) (p_created_at a) with
  | Eq => Z.compare (p_id b) (p_id a)
  | c => c
  end.

Definition list_peers : DbM (result (list Peer) StoreError) :=
  select (fun db => sort_by newest_peer_first (map (fun ir => row_to_peer ir.1 ir.2) (rows_of (tb_rows (db_peers db))))).

Definition active_peers : DbM (result (list Peer) StoreError) :=
  select (fun db => sort_by newest_peer_first (map (fun ir => row_to_peer ir.1 ir.2)
    (filter (fun ir => pr_revoked_at ir.2 = None) (rows_of (tb_rows (db_peers db)))))).

Definition peer_by_key_hash (key_hash : bytes) : DbM (result (option Peer) StoreError) :=
  select (fun db => (fun ir => row_to_peer ir.1 ir.2) <$>
    List.find (fun ir => bool_decide (pr_key_hash ir.2 = key_hash) && bool_decide (pr_revoked_at ir.2 = None))
      (rows_of (tb_rows (db_peers db)))).

Definition peer_by_key (key : bytes) : DbM (result (option Peer) StoreError) := peer_by_key_hash (hash_key key).

(** [Store::peer]. *)
Definition peer_by_id (id : Z) : DbM (result (option Peer) StoreError) :=
  select (fun db => row_to_peer id <$> tb_rows (db_peers db) !! id).

(** [UPDATE peers SET .. WHERE id = ?] and [guard]: the rows changed. *)
Definition update_peer (id : Z) (guard : PeerRow -> bool) (set : PeerRow -> PeerRow) (db : Db) : nat * Db :=
  match tb_rows (db_peers db) !! id with
  | Some r =>
      if guard r then (1, with_peers (mkTable (<[id := set r]> (tb_rows (db_peers db))) (tb_sequence (db_peers db))) db)
      else (0, db)
  | None => (0, db)
  end.

Definition put_last_seen (at_ : Z) (r : PeerRow) : PeerRow :=
  mkPeerRow (pr_label r) (pr_key_hash r) (pr_created_at r) (Some at_) (pr_revoked_at r) (pr_scope r)
    (pr_pubkey r) (pr_gossip_url r) (pr_gossip_record r) (pr_downloaded r) (pr_uploaded r) (pr_max_size_bytes r) (pr_max_height r).
Definition put_revoked (at_ : Z) (r : PeerRow) : PeerRow :=
  mkPeerRow (pr_label r) (pr_key_hash r) (pr_created_at r) (pr_last_seen_at r) (Some at_) (pr_scope r)
    (pr_pubkey r) (pr_gossip_url r) (pr_gossip_record r) (pr_downloaded r) (pr_uploaded r) (pr_max_size_bytes r) (pr_max_height r).
Definition put_limits (size height : option Z) (r : PeerRow) : PeerRow :=
  mkPeerRow (pr_label r) (pr_key_hash r) (pr_created_at r) (pr_last_seen_at r) (pr_revoked_at r) (pr_scope r)
    (pr_pubkey r) (pr_gossip_url r) (pr_gossip_record r) (pr_downloaded r) (pr_uploaded r) size height.
Definition put_scope (scope : bytes) (r : PeerRow) : PeerRow :=
  mkPeerRow (pr_label r) (pr_key_hash r) (pr_created_at r) (pr_last_seen_at r) (pr_revoked_at r) scope
    (pr_pubkey r) (pr_gossip_url r) (pr_gossip_record r) (pr_downloaded r) (pr_uploaded r) (pr_max_size_bytes r) (pr_max_height r).
Definition put_pubkey (pubkey : bytes) (r : PeerRow) : PeerRow :=
  mkPeerRow (pr_label r) (pr_key_hash r) (pr_created_at r) (pr_last_seen_at r) (pr_revoked_at r) (pr_scope r)
    (Some pubkey) (pr_gossip_url r) (pr_gossip_record r) (pr_downloaded r) (pr_uploaded r) (pr_max_size_bytes r) (pr_max_height r).
Definition put_gossip_url (url : option bytes) (r : PeerRow) : PeerRow :=
  mkPeerRow (pr_label r) (pr_key_hash r) (pr_created_at r) (pr_last_seen_at r) (pr_revoked_at r) (pr_scope r)
    (pr_pubkey r) url (pr_gossip_record r) (pr_downloaded r) (pr_uploaded r) (pr_max_size_bytes r) (pr_max_height r).
Definition put_gossip_record (record : bytes) (r : PeerRow) : PeerRow :=
  mkPeerRow (pr_label r) (pr_key_hash r) (pr_created_at r) (pr_last_seen_at r) (pr_revoked_at r) (pr_scope r)
    (pr_pubkey r) (pr_gossip_url r) (Some record) (pr_downloaded r) (pr_uploaded r) (pr_max_size_bytes r) (pr_max_height r).
Definition put_moved (downloaded uploaded : Z) (r : PeerRow) : PeerRow :=
  mkPeerRow (pr_label r) (pr_key_hash r) (pr_created_at r) (pr_last_seen_at r) (pr_revoked_at r) (pr_scope r)
    (pr_pubkey r) (pr_gossip_url r) (pr_gossip_record r) (pr_downloaded r + downloaded) (pr_uploaded r + uploaded) (pr_max_size_bytes r) (pr_max_height r).

Definition touch_peer (now : Z) (id : Z) : DbM (result Touch StoreError) :=
  try! seen := select (fun db => r ← tb_rows (db_peers db) !! id; pr_last_seen_at r) in
  match seen with
  | Some at_ =>
      if (now - TOUCH_WINDOW_SECS <=? at_)%Z then sret (Ok TouchThrottled)
      else
        try! c := changed (update_peer id
          (fun r => match pr_last_seen_at r with Some t => (t <? now - TOUCH_WINDOW_SECS)%Z | None => false end)
          (put_last_seen now)) in
        sret (Ok (if c : bool then TouchRefreshed else TouchThrottled))
  | None =>
      try! c := changed (update_peer id (fun r => bool_decide (pr_last_seen_at r = None)) (put_last_seen now)) in
      sret (Ok (if c : bool then TouchFirst else TouchThrottled))
  end.

Definition revoke_peer (now : Z) (id : Z) : DbM (result bool StoreError) :=
  changed (update_peer id (fun r => bool_decide (pr_revoked_at r = None)) (put_revoked now)).

Definition set_peer_limits (id : Z) (max_size_bytes max_height : option Z) : DbM (result bool StoreError) :=
  changed (update_peer id (fun _ => true) (put_limits max_size_bytes max_height)).

Definition set_peer_scope (id : Z) (scope : PeerScope) : DbM (result bool StoreError) :=
  changed (update_peer id (fun _ => true) (put_scope (as_str_name scope))).

(** DELETE, with what cascades from it. *)
Definition delete_peer_statement (id : Z) (db : Db) : nat * Db :=
  match tb_rows (db_peers db) !! id with
  | Some _ =>
      (1, with_endpoints (mkTable (filter (fun ir => er_peer_id ir.2 <> id) (tb_rows (db_endpoints db)))
                           (tb_sequence (db_endpoints db)))
            (with_catalog (filter (fun kr => kr.1.1 <> id) (db_catalog db))
            (with_origins (filter (fun kr => or_peer_id kr.2 <> Some id) (db_origins db))
               (with_peers (mkTable (delete id (tb_rows (db_peers db))) (tb_sequence (db_peers db))) db))))
  | None => (0, db)
  end.

Definition delete_peer (id : Z) : DbM (result bool StoreError) := changed (delete_peer_statement id).

(** ** Audiences *)

(** The friends a row set names for one item, [None] when it names none. *)
Definition audience_in (rows : gset (ItemKey * bytes)) (key : ItemKey) : option (list bytes) :=
  let friends := omap (fun kf => if decide (kf.1 = key) then Some kf.2 else None) (elements rows) in
  if is_nonempty friends then Some friends else None.

(** [audiences], as the lookup its map is used for. *)
Definition audiences : DbM (result (ItemKey -> option (list bytes)) StoreError) :=
  select (fun db => audience_in (db_audience db)).

Definition audience (key : ItemKey) : DbM (result (option (list bytes)) StoreError) :=
  select (fun db => audience_in (db_audience db) key).

(** The rows one source's discovery asks for. *)
Definition wanted_rows (source : MediaSource) (found : gmap Z (list bytes)) : gset (ItemKey * bytes) :=
  list_to_set (flat_map (fun fv => map (fun f => ((source, fv.1), f)) fv.2) (map_to_list found)).

Definition replace_audience (source : MediaSource) (found : gmap Z (list bytes)) : DbM (result unit StoreError) :=
  try! current := select (fun db => filter (fun kf => kf.1.1 = source) (db_audience db)) in
  let wanted := wanted_rows source found in
  if bool_decide (current = wanted) then sret (Ok tt)
  else execute (fun db => with_audience (filter (fun kf => kf.1.1 <> source) (db_audience db) ∪ wanted) db).

(** ** What a friend's feed holds *)

Definition seeding_items_for (scope : PeerScope) (limits : PeerLimits) : DbM (result (list SharedItem) StoreError) :=
  try! items := seeding_items scope in
  try! who := audiences in
  sret (Ok (filter (fun item => limits_admit limits item (who (item_key item)) = true) items)).

Definition add_to_summary (s : SeedingSummary) (item : SharedItem) : SeedingSummary :=
  mkSeedingSummary (sm_count s + 1) (i64_saturating_add (sm_size s) (saturating_i64 (it_size item))).

Definition seeding_summaries (peers : list Peer) : DbM (result (list SeedingSummary) StoreError) :=
  try! who := audiences in
  try! items := seeding_items ScopeAll in
  sret (Ok (map (fun peer =>
    foldl add_to_summary (mkSeedingSummary 0 0)
      (filter (fun item => scope_admits (p_scope peer) item && limits_admit (peer_limits peer) item (who (item_key item)) = true)
         items)) peers)).

End Methods.

(** ** Facts: feeds *)

Lemma i64_saturating_add_nonneg a b :
  (0 <= a <= i64_max)%Z -> (0 <= b)%Z -> i64_saturating_add a b = Z.min i64_max (a + b).
Proof. unfold i64_saturating_add, clamp_i64, i64_max, i64_min. lia. Qed.

Definition feed_size (items : list SharedItem) : Z := foldr (fun item acc => saturating_i64 (it_size item) + acc)%Z 0%Z items.

Lemma total_size_nonneg items : (0 <= feed_size items)%Z.
Proof.
  induction items as [|item items IH]; [done|]. pose proof (saturating_i64_range (it_size item)).
  change (feed_size (item :: items)) with (saturating_i64 (it_size item) + feed_size items)%Z. lia.
Qed.

Lemma summary_fold items s :
  (0 <= sm_size s <= i64_max)%Z ->
  foldl add_to_summary s items =
    mkSeedingSummary (sm_count s + Z.of_nat (length items)) (Z.min i64_max (sm_size s + feed_size items)).
Proof.
  revert s. induction items as [|item items IH]; intros s Hs; cbn [foldl].
  - destruct s as [c z]. cbn in *. f_equal; lia.
  - pose proof (saturating_i64_range (it_size item)) as Hr. pose proof (total_size_nonneg items).
    assert (sm_size (add_to_summary s item) = Z.min i64_max (sm_size s + saturating_i64 (it_size item))) as Hsz
      by (apply i64_saturating_add_nonneg; lia).
    rewrite IH by (rewrite Hsz; lia). rewrite Hsz. change (feed_size (item :: items)) with (saturating_i64 (it_size item) + feed_size items)%Z.
    f_equal; [cbn [add_to_summary sm_count length]; lia|lia].
Qed.

Section FeedFacts.
Context `{D : Digests} `{RO : RowOrder}.

(** A friend's feed, when the database answers. *)
Definition friend_feed (scope : PeerScope) (limits : PeerLimits) (db : Db) : list SharedItem :=
  filter (fun item => limits_admit limits item (audience_in (db_audience db) (item_key item)) = true) (feed_rows scope db).

Lemma seeding_items_for_quiet scope limits db entropy error :
  let quiet := mkScript [] entropy error in
  seeding_items_for scope limits (db, quiet) = (Ok (friend_feed scope limits db), (db, quiet)).
Proof. reflexivity. Qed.

Lemma seeding_summaries_quiet peers db entropy error :
  let quiet := mkScript [] entropy error in
  seeding_summaries peers (db, quiet) =
    (Ok (map (fun p => foldl add_to_summary (mkSeedingSummary 0 0) (friend_feed (p_scope p) (peer_limits p) db)) peers),
     (db, quiet)).
Proof.
  cbn. f_equal. f_equal. apply map_ext. intros p. f_equal. unfold friend_feed.
  rewrite (feed_rows_scope (p_scope p)), list_filter_filter. apply list_filter_iff. intros item.
  rewrite andb_true_iff. tauto.
Qed.

End FeedFacts.

(** ** Facts: names *)

(** The words of a label: its runs of ASCII letters and digits, in lower case. *)
Definition slug_words (cs : list char) : list bytes :=
  filter (fun w => w <> []) (map (fun part => map to_ascii_lowercase (concat part))
    (split_on (fun c => negb (char_is_ascii_alphanumeric c)) cs)).

Lemma trim_end_app c s t : last t <> Some c -> t <> [] -> trim_end c (s ++ t) = s ++ t.
Proof.
  intros Hl Ht. induction s as [|b s IH].
  - clear -Hl Ht. cbn [app]. induction t as [|b t IH]; [done|]. destruct t as [|b' t].
    + cbn in *. rewrite decide_False by congruence. done.
    + change (trim_end c (b :: b' :: t)) with (match trim_end c (b' :: t) with [] => if decide (b = c) then [] else [b] | t => b :: t end).
      by rewrite IH.
  - cbn [app trim_end]. rewrite IH. by destruct s, t.
Qed.

Lemma trim_end_dash c s : last s <> Some c -> trim_end c (s ++ [c]) = s.
Proof.
  intros Hl. induction s as [|b s IH]; cbn; [by rewrite decide_True|].
  destruct s as [|b' s].
  - cbn in *. rewrite decide_True, decide_False by congruence. done.
  - by rewrite IH.
Qed.

Lemma alnum_char c : char_is_ascii_alphanumeric c = true ->
  exists b, c = [b] /\ to_ascii_lowercase b <> "-"%byte /\ is_ascii_alphanumeric b = true.
Proof.
  unfold char_is_ascii_alphanumeric, char_is_byte. destruct c as [|b [|]]; try done. intros H. exists b.
  split; [done|]. split; [|done]. by destruct b.
Qed.

(** What the loop's slug becomes, from a slug [a] that ends in a word and from
    one with a dash after it. *)
Definition then_words (ws : list bytes) : bytes :=
  match ws with [] => [] | _ => "-"%byte :: join ["-"%byte] ws end.

Lemma join_cons w ws : join ["-"%byte] (w :: ws) = w ++ then_words ws.
Proof. destruct ws; cbn; [by rewrite app_nil_r|done]. Qed.

Lemma slug_words_word c cs : char_is_ascii_alphanumeric c = true ->
  exists part parts, split_on (fun c => negb (char_is_ascii_alphanumeric c)) cs = part :: parts /\
    slug_words (c :: cs) = map to_ascii_lowercase (c ++ concat part) ::
      filter (fun w => w <> []) (map (fun part => map to_ascii_lowercase (concat part)) parts).
Proof.
  intros Hc. destruct (split_on _ cs) as [|part parts] eqn:E.
  - by apply split_on_nonempty in E.
  - exists part, parts. split; [done|]. unfold slug_words. cbn [split_on]. rewrite Hc. cbn [negb]. rewrite E.
    apply alnum_char in Hc as (b & -> & _ & _). done.
Qed.

Lemma slug_loop cs a :
  (forall part parts, split_on (fun c => negb (char_is_ascii_alphanumeric c)) cs = part :: parts ->
     a <> [] -> last a <> Some "-"%byte ->
     trim_end "-"%byte (foldl slug_char a cs) =
       a ++ map to_ascii_lowercase (concat part) ++
         then_words (filter (fun w => w <> []) (map (fun part => map to_ascii_lowercase (concat part)) parts))) /\
  (a <> [] -> last a <> Some "-"%byte ->
     trim_end "-"%byte (foldl slug_char (a ++ ["-"%byte]) cs) = a ++ then_words (slug_words cs)).
Proof.
  revert a. induction cs as [|c cs IH]; intros a.
  - split.
    + cbn. intros part parts [= <- <-] Ha Hl. rewrite <- (app_nil_l a) at 1. rewrite trim_end_app by done.
      by rewrite !app_nil_r.
    + intros Ha Hl. cbn. by rewrite trim_end_dash, app_nil_r.
  - assert (forall a, last (a ++ ["-"%byte]) = Some "-"%byte) as Hlast by (intros; by rewrite last_snoc).
    destruct (char_is_ascii_alphanumeric c) eqn:Hc.
    + pose proof (alnum_char c Hc) as (b & -> & Hb & _). split.
      * intros part parts E Ha Hl. cbn [split_on] in E. rewrite Hc in E. cbn [negb] in E.
        destruct (split_on _ cs) as [|p1 ps] eqn:E1; injection E as <- <-.
        -- by apply split_on_nonempty in E1.
        -- cbn [foldl]. unfold slug_char at 2. rewrite Hc. cbn [map].
           rewrite (proj1 (IH _) p1 ps) by (first [done|by destruct a|rewrite last_snoc; congruence]).
           cbn. by rewrite <- !app_assoc.
      * intros Ha Hl. destruct (slug_words_word [b] cs Hc) as (part & parts & E & ->).
        cbn [foldl]. unfold slug_char at 2. rewrite Hc. cbn [map].
        rewrite (proj1 (IH _) part parts) by (first [done|by destruct a|rewrite last_snoc; congruence]).
        cbn [then_words]. rewrite join_cons. cbn. by rewrite <- !app_assoc.
    + split.
      * intros part parts E Ha Hl. cbn [split_on] in E. rewrite Hc in E. cbn [negb] in E. injection E as <- <-.
        cbn [foldl]. unfold slug_char at 2. rewrite Hc.
        rewrite (bool_decide_eq_false_2 _ Hl). destruct a as [|x a]; [done|]. cbn [is_nonempty andb negb].
        by rewrite (proj2 (IH (x :: a))).
      * intros Ha Hl. cbn [foldl]. unfold slug_char at 2. rewrite Hc, (bool_decide_eq_true_2 _ (Hlast a)), andb_false_r.
        rewrite (proj2 (IH a)) by done. unfold slug_words at 2. cbn [split_on]. by rewrite Hc.
Qed.

(** What narrows a feed, as a proposition. *)
Record limits_allow (limits : PeerLimits) (item : SharedItem) (audience : option (list bytes)) : Prop := {
  allow_audience : forall friends, audience = Some friends -> exists f, pl_friend limits = Some f /\ f ∈ friends;
  allow_size : forall max, pl_max_size_bytes limits = Some max -> (Z.of_N (it_size item) <= Z.min max i64_max)%Z;
  allow_height : forall max meta height, pl_max_height limits = Some max -> it_media item = Some meta ->
    nominal_height meta = Some height -> (Z.of_N height <= max)%Z
}.

Lemma is_none_or_spec {A : Type} (o : option A) (p : A -> bool) :
  is_none_or o p = true <-> forall a, o = Some a -> p a = true.
Proof. destruct o as [a|]; cbn; [|done]. split; [by intros H ? [= <-]|auto]. Qed.

Lemma limits_admit_spec limits item audience : limits_admit limits item audience = true <-> limits_allow limits item audience.
Proof.
  unfold limits_admit. split.
  - destruct (is_none_or audience _) eqn:Ha; [|done]. rewrite is_none_or_spec in Ha.
    rewrite andb_true_iff, !is_none_or_spec. intros [Hs Hh]. split.
    + intros friends Hf%Ha. destruct (pl_friend limits) as [f|]; [|done]. apply bool_decide_eq_true in Hf. eauto.
    + intros max Hm%Hs. unfold i64_try_from_u64 in Hm. destruct (Z.leb_spec (Z.of_N (it_size item)) i64_max); [|done].
      apply Z.leb_le in Hm. lia.
    + intros max meta height Hm Hmeta Hn. specialize (Hh _ Hm). rewrite Hmeta in Hh. cbn in Hh. rewrite Hn in Hh.
      cbn in Hh. by apply Z.leb_le in Hh.
  - intros [Ha Hs Hh].
    assert (is_none_or audience (fun a => match pl_friend limits with Some f => bool_decide (f ∈ a) | None => false end) = true)
      as ->.
    { apply is_none_or_spec. intros friends Hf. destruct (Ha _ Hf) as (f & -> & Hin). by apply bool_decide_eq_true. }
    rewrite andb_true_iff, !is_none_or_spec. split.
    + intros max Hm%Hs. unfold i64_try_from_u64. rewrite (proj2 (Z.leb_le _ _)) by lia. apply Z.leb_le. lia.
    + intros max Hm. apply is_none_or_spec. intros height Hn. destruct (it_media item) as [meta|] eqn:Hmeta; [|done].
      cbn in Hn. apply Z.leb_le. by eapply Hh.
Qed.

(** ** Properties *)

(** C10: a friend sees exactly what is meant for them.  When the database answers,
    an item is in a friend's feed exactly when it is seeding under a known info
    hash, the friend's scope admits it, it is for everyone or names the friend,
    and it is within the friend's size and resolution limits. *)
Theorem feed_admission `{RO : RowOrder} scope limits db entropy error :
  RowOrderLaws RO ->
  exists items, (seeding_items_for scope limits (db, mkScript [] entropy error)).1 = Ok items /\
    forall item, item ∈ items <->
      exists key r, db_items db !! key = Some r /\ item = row_to_item key r /\ r_state r = Seeding /\
        is_Some (tor_info_hash (r_torrent r)) /\ scope_admits scope item = true /\
        limits_allow limits item (audience_in (db_audience db) key).
Proof.
  intros RL. rewrite seeding_items_for_quiet. eexists. split; [reflexivity|]. intros item. unfold friend_feed.
  rewrite list_elem_of_filter, elem_of_feed_rows, limits_admit_spec. split.
  - intros [Hl (key & r & Hr & -> & Hs & Hh & Ha)]. exists key, r.
    assert (item_key (row_to_item key r) = key) as Hkey by (by destruct key). rewrite Hkey in Hl. done.
  - intros (key & r & Hr & -> & Hs & Hh & Ha & Hl).
    assert (item_key (row_to_item key r) = key) as Hkey by (by destruct key). rewrite Hkey. eauto 10.
Qed.

(** The count beside a friend's name is their feed's.  For any list of
    friends, the summaries the Friends page shows, read once for all of them, are
    the number of items each friend's own feed holds and their total size, which
    saturates instead of overflowing. *)
Theorem friend_counts_agree `{RO : RowOrder} peers db entropy error :
  let quiet := mkScript [] entropy error in
  exists summaries, (seeding_summaries peers (db, quiet)).1 = Ok summaries /\
    Forall2 (fun p s => exists items, (seeding_items_for (p_scope p) (peer_limits p) (db, quiet)).1 = Ok items /\
        sm_count s = Z.of_nat (length items) /\ sm_size s = Z.min i64_max (feed_size items)) peers summaries.
Proof.
  intros quiet. subst quiet. rewrite seeding_summaries_quiet. eexists. split; [reflexivity|].
  apply Forall2_fmap_r, Forall_Forall2_diag, Forall_forall. intros p _. rewrite seeding_items_for_quiet.
  eexists. split; [reflexivity|]. cbn [fst]. rewrite summary_fold by (cbn; unfold i64_max; lia). cbn. split; lia.
Qed.

(** A friend's tag name is their label's words.  The name [<tag>-<friend>]
    tags call a friend by is the runs of ASCII letters and digits of their label,
    in lower case and joined by single dashes. *)
Theorem friend_slug_is_words label : friend_slug label = join ["-"%byte] (slug_words (chars label)).
Proof.
  unfold friend_slug. generalize (chars label). intros cs. induction cs as [|c cs IH]; [done|].
  destruct (char_is_ascii_alphanumeric c) eqn:Hc.
  - destruct (slug_words_word c cs Hc) as (part & parts & E & ->). pose proof (alnum_char c Hc) as (b & -> & Hb & _).
    cbn [foldl]. unfold slug_char at 2. rewrite Hc. rewrite (proj1 (slug_loop cs _) part parts E); [|done|cbn; congruence].
    rewrite join_cons. done.
  - cbn [foldl]. unfold slug_char at 2. rewrite Hc. cbn [is_nonempty andb]. rewrite IH.
    unfold slug_words at 2. cbn [split_on]. by rewrite Hc.
Qed.

(** A friend who may see films, and one item meant for them alone. *)
Definition sample_friend : Peer :=
  mkFriend 1 (bs "Sam B.") 10 None None ScopeMovies None None (bs "kh") 0 0 (Some 1000%Z) None.

Definition sample_shared_db : Db := with_audience {[ ((Radarr, 70%Z), bs "sam-b") ]} sample_db.

Lemma feed_admission_witness :
  exists items, (@seeding_items_for key_order ScopeMovies (peer_limits sample_friend)
      (sample_shared_db, mkScript [] [] [])).1 = Ok items /\ row_to_item (Radarr, 70%Z) sample_row ∈ items.
Proof.
  destruct (@feed_admission key_order ScopeMovies (peer_limits sample_friend) sample_shared_db [] [] key_order_laws)
    as (items & Hi & Hin).
  exists items. split; [exact Hi|]. apply Hin. exists (Radarr, 70%Z), sample_row.
  split; [reflexivity|]. split; [reflexivity|]. split; [reflexivity|]. split; [by eexists|]. split; [reflexivity|].
  apply limits_admit_spec. vm_compute. reflexivity.
Defined.
