(* ===== verification/History.v ===== *)
(** * What the store remembers of its own running
    (crates/sharerr-store/src/retention.rs, runs.rs, swarm.rs, transfers.rs)

    Sync runs, swarm samples and transfer totals, and the pruning that bounds the
    tables that grow on their own. *)

From stdpp Require Import sorting.
From S2P Require Import Prelude RustStd Text Model Effects Accounts FileTree Database Items Peers.

(** ** Pruning *)

(** SQL's LIMIT: a negative one is none. *)
Definition sql_limit {A : Type} (k : Z) (l : list A) : list A :=
  if (k <? 0)%Z then l else take (Z.to_nat k) l.

(** [DELETE .. WHERE <within> AND id NOT IN (SELECT id .. WHERE <within> ORDER BY
    <order> LIMIT k)]. *)
Definition prune {V : Type} (order : Z * V -> Z * V -> comparison) (within : V -> bool) (k : Z) (t : Table V) : Table V :=
  let kept := map fst (sql_limit k (sort_by order (filter (fun ir => within ir.2 = true) (map_to_list (tb_rows t))))) in
  mkTable (filter (fun ir => within ir.2 = false \/ ir.1 ∈ kept) (tb_rows t)) (tb_sequence t).

(** [ORDER BY id DESC]. *)
Definition by_id_desc {V : Type} (a b : Z * V) : comparison := Z.compare b.1 a.1.

(** [ORDER BY <time> DESC, id DESC]. *)
Definition by_time_desc {V : Type} (time : V -> Z) (a b : Z * V) : comparison :=
  match Z.compare (time b.2) (time a.2) with Eq => Z.compare b.1 a.1 | c => c end.

(** [From<&RetentionConfig> for Retention]. *)
Definition retention_from (swarm_samples endpoint_history sync_runs : N) : Retention :=
  mkRetention (saturating_i64 swarm_samples) (saturating_i64 endpoint_history) (saturating_i64 sync_runs).

(** [Store::set_retention] and [Store::retention]: a cell beside the tables. *)
Definition set_retention (r : Retention) : DbM unit := smodify (fun s => (with_retention r s.1, s.2)).
Definition retention : DbM Retention := sgets (fun s => db_retention s.1).

(** ** Sync runs (runs.rs) *)

Definition no_summary : RunSummary := mkRunSummary 0 0 0 0 None.

Definition begin_run (now : Z) : DbM (result Z StoreError) :=
  query (fun db =>
    let '(id, runs) := tb_insert (mkRun now None no_summary) (db_runs db) in (Ok id, with_runs runs db)).

Definition finish_run_statement (now run_id : Z) (summary : RunSummary) (db : Db) : Db :=
  match tb_rows (db_runs db) !! run_id with
  | Some r =>
      with_runs (mkTable (<[run_id := mkRun (run_started_at r) (Some now) summary]> (tb_rows (db_runs db)))
                   (tb_sequence (db_runs db))) db
  | None => db
  end.

Definition finish_run (now run_id : Z) (summary : RunSummary) : DbM (result unit StoreError) :=
  try! updated := execute (finish_run_statement now run_id summary) in
  let! limits := retention in
  let keep := ret_sync_runs limits in
  if (0 <? keep)%Z
  then execute (fun db => with_runs (prune by_id_desc (fun _ => true) keep (db_runs db)) db)
  else sret (Ok tt).

Definition recent_runs (limit : Z) : DbM (result (list (Z * RunRow)) StoreError) :=
  select (fun db => sql_limit limit (sort_by by_id_desc (map_to_list (tb_rows (db_runs db))))).

(** [RunSummary::describe]. *)
Definition describe_run (s : RunSummary) (with_discovered : bool) : bytes * bool :=
  match rs_error s with
  | Some error => (error, true)
  | None =>
      let counted (n : Z) (what : bytes) := if (0 <? n)%Z then [i_to_string n ++ what] else [] in
      (join (bs ", ")
         ((if with_discovered then [i_to_string (rs_discovered s) ++ bs " discovered"] else [])
          ++ counted (rs_added s) (bs " added") ++ counted (rs_unshared s) (bs " unshared")
          ++ counted (rs_failed s) (bs " failed")),
       (0 <? rs_failed s)%Z)
  end.

(** ** Swarm samples (swarm.rs) *)

(** One transaction. *)
Definition record_swarm_sample (sample : SwarmSample) : DbM (result unit StoreError) :=
  execute (fun db =>
    with_samples (prune (by_time_desc sample_sampled_at) (fun _ => true) (ret_swarm_samples (db_retention db))
                    (tb_insert sample (db_samples db)).2) db).

(** The newest [limit] samples, [ORDER BY sampled_at ASC]. *)
Definition recent_swarm_samples (limit : Z) : DbM (result (list SwarmSample) StoreError) :=
  select (fun db =>
    sort_by (fun a b => Z.compare (sample_sampled_at a) (sample_sampled_at b))
      (map snd (sql_limit limit (sort_by (by_time_desc sample_sampled_at) (map_to_list (tb_rows (db_samples db))))))).

(** [SELECT MAX(sampled_at) .. WHERE peers > 0]. *)
Definition last_active_swarm_sample_at : DbM (result (option Z) StoreError) :=
  select (fun db => foldr (fun ir best =>
      if (0 <? sample_peers ir.2)%Z
      then Some (match best with Some b => Z.max (sample_sampled_at ir.2) b | None => sample_sampled_at ir.2 end)
      else best) None (map_to_list (tb_rows (db_samples db)))).

(** ** Transfers (transfers.rs) *)

(** One transaction, unless nothing moved. *)
Definition record_transfer (now : Z) (peer_id : option Z) (downloaded uploaded : N) : DbM (result unit StoreError) :=
  if (downloaded =? 0)%N && (uploaded =? 0)%N then sret (Ok tt)
  else
    let down := saturating_i64 downloaded in
    let up := saturating_i64 uploaded in
    execute (fun db =>
      let totals := db_totals db in
      let db := with_totals (mkTotals (tt_downloaded totals + down) (tt_uploaded totals + up) (Some now)) db in
      match peer_id with
      | Some id => (update_peer id (fun _ => true) (put_moved down up) db).2
      | None => db
      end).

Definition transfer_totals : DbM (result TransferTotals StoreError) := select db_totals.

(** ** Facts: pruning *)

Lemma sql_limit_subset {A : Type} (k : Z) (l : list A) x : x ∈ sql_limit k l -> x ∈ l.
Proof.
  unfold sql_limit. destruct (k <? 0)%Z; [done|]. intros Hx.
  rewrite <- (take_drop (Z.to_nat k) l). apply elem_of_app. by left.
Qed.

Section PruneFacts.
Context {V : Type} (order : Z * V -> Z * V -> comparison) (within : V -> bool).
Hypothesis order_flip : forall a b, order a b = Gt -> cmp_le order b a.
Hypothesis order_trans : Transitive (cmp_le order).

Definition ranked (t : Table V) : list (Z * V) :=
  sort_by order (filter (fun ir => within ir.2 = true) (map_to_list (tb_rows t))).

Lemma elem_of_ranked t id v : (id, v) ∈ ranked t <-> tb_rows t !! id = Some v /\ within v = true.
Proof.
  unfold ranked. rewrite sort_by_perm, list_elem_of_filter, elem_of_map_to_list. cbn. tauto.
Qed.

Lemma prune_lookup k t id v :
  tb_rows (prune order within k t) !! id = Some v <->
  tb_rows t !! id = Some v /\ (within v = false \/ (id, v) ∈ sql_limit k (ranked t)).
Proof.
  unfold prune. cbn. rewrite map_lookup_filter_Some. cbn. split; intros [Hid [Hw|Hin]]; split; auto; right.
  - apply list_elem_of_fmap in Hin as ([id' v'] & -> & Hin).
    pose proof (sql_limit_subset _ _ _ Hin) as [Hr _]%elem_of_ranked. cbn in Hid. rewrite Hid in Hr.
    by injection Hr as ->.
  - apply list_elem_of_fmap. by exists (id, v).
Qed.

(** Pruning keeps as many rows as the limit allows. *)
Lemma prune_size k t :
  (0 <= k)%Z ->
  Z.of_nat (size (filter (fun ir => within ir.2 = true) (tb_rows (prune order within k t)))) =
    Z.min k (Z.of_nat (size (filter (fun ir => within ir.2 = true) (tb_rows t)))).
Proof.
  intros Hk. assert (map_to_list (filter (fun ir => within ir.2 = true) (tb_rows (prune order within k t)))
    ≡ₚ sql_limit k (ranked t)) as Hperm.
  { apply NoDup_Permutation; [apply NoDup_map_to_list| |].
    - assert (NoDup (ranked t)) as Hnd by (unfold ranked; rewrite sort_by_perm; apply list.NoDup_filter, NoDup_map_to_list).
      unfold sql_limit. destruct (k <? 0)%Z; [done|]. eapply sublist_NoDup; [done|apply sublist_take].
    - intros [id v]. rewrite elem_of_map_to_list, map_lookup_filter_Some, prune_lookup. cbn. split.
      + intros [[_ [?|?]] ?]; [congruence|done].
      + intros Hin. pose proof (sql_limit_subset _ _ _ Hin) as [? ?]%elem_of_ranked. auto. }
  apply Permutation_length in Hperm. rewrite length_map_to_list in Hperm. rewrite Hperm.
  unfold sql_limit. rewrite (proj2 (Z.ltb_ge _ _)) by done. rewrite length_take.
  assert (length (ranked t) = size (filter (fun ir => within ir.2 = true) (tb_rows t))) as ->; [|lia].
  unfold ranked. rewrite sort_by_perm, <- length_map_to_list. apply Permutation_length, NoDup_Permutation.
  - apply list.NoDup_filter, NoDup_map_to_list.
  - apply NoDup_map_to_list.
  - intros [id v]. rewrite list_elem_of_filter, !elem_of_map_to_list, map_lookup_filter_Some. cbn. tauto.
Qed.

(** A row pruning drops is ranked after every row it keeps. *)
Lemma prune_newest k t i vi j vj :
  tb_rows (prune order within k t) !! i = Some vi -> within vi = true ->
  tb_rows t !! j = Some vj -> within vj = true -> tb_rows (prune order within k t) !! j = None ->
  cmp_le order (i, vi) (j, vj).
Proof.
  intros Hi Hwi Hj Hwj Hgone. apply prune_lookup in Hi as [Hi [?|Hin]]; [congruence|].
  assert ((j, vj) ∉ sql_limit k (ranked t)) as Hout.
  { intros Hin'. assert (tb_rows (prune order within k t) !! j = Some vj) by (apply prune_lookup; auto). congruence. }
  assert ((j, vj) ∈ ranked t) as Hrj by (by apply elem_of_ranked).
  unfold sql_limit in *. destruct (k <? 0)%Z; [done|].
  rewrite <- (take_drop (Z.to_nat k) (ranked t)) in Hrj. apply elem_of_app in Hrj as [?|Hd]; [done|].
  assert (StronglySorted (cmp_le order) (ranked t)) as Hs.
  { apply Sorted_StronglySorted; [done|]. by apply sort_by_sorted. }
  rewrite <- (take_drop (Z.to_nat k) (ranked t)) in Hs. apply StronglySorted_app in Hs as (Hs & _ & _). by apply Hs.
Qed.

End PruneFacts.

Lemma by_id_desc_flip {V : Type} (a b : Z * V) : by_id_desc a b = Gt -> cmp_le by_id_desc b a.
Proof. unfold cmp_le, by_id_desc. destruct (Z.compare_spec b.1 a.1), (Z.compare_spec a.1 b.1); done || lia. Qed.

Lemma by_id_desc_trans {V : Type} : Transitive (cmp_le (@by_id_desc V)).
Proof. intros a b c. unfold cmp_le, by_id_desc. rewrite !Z.compare_ngt_iff. lia. Qed.

Lemma by_time_desc_le {V : Type} (time : V -> Z) a b :
  cmp_le (by_time_desc time) a b <-> (time b.2 < time a.2 \/ time b.2 = time a.2 /\ b.1 <= a.1)%Z.
Proof.
  unfold cmp_le, by_time_desc. destruct (Z.compare_spec (time b.2) (time a.2)).
  - rewrite Z.compare_ngt_iff. lia.
  - split; [auto|done].
  - split; [done|lia].
Qed.

Lemma by_time_desc_flip {V : Type} (time : V -> Z) a b :
  by_time_desc time a b = Gt -> cmp_le (by_time_desc time) b a.
Proof.
  rewrite by_time_desc_le. unfold by_time_desc.
  destruct (Z.compare_spec (time b.2) (time a.2)); [|done|lia]. destruct (Z.compare_spec b.1 a.1); [done|done|lia].
Qed.

Lemma by_time_desc_trans {V : Type} (time : V -> Z) : Transitive (cmp_le (by_time_desc time)).
Proof. intros a b c. rewrite !by_time_desc_le. lia. Qed.

(** ** Properties *)

(** Run history keeps the newest runs.  Closing a run records its summary
    under the time it began, and with a limit set leaves that many runs, or all
    of them when they are fewer, each newer than every run that was dropped.
    With no limit every run stays. *)
Theorem run_history_pruned now run_id summary db entropy error r :
  tb_rows (db_runs db) !! run_id = Some r ->
  let quiet := mkScript [] entropy error in
  let closed := mkRun (run_started_at r) (Some now) summary in
  exists db', finish_run now run_id summary (db, quiet) = (Ok tt, (db', quiet)) /\
    let before := <[run_id := closed]> (tb_rows (db_runs db)) in
    let after := tb_rows (db_runs db') in
    (ret_sync_runs (db_retention db) <= 0 -> after = before)%Z /\
    (0 < ret_sync_runs (db_retention db) ->
       Z.of_nat (size after) = Z.min (ret_sync_runs (db_retention db)) (Z.of_nat (size before)) /\ after ⊆ before /\
       forall i j, is_Some (after !! i) -> is_Some (before !! j) -> after !! j = None -> j < i)%Z.
Proof.
  intros Hr quiet closed. subst quiet.
  unfold finish_run, execute, try_bind, sbind. rewrite query_run. cbn [fst snd retention sgets].
  unfold finish_run_statement. rewrite Hr. cbn [db_retention with_runs]. fold closed.
  destruct (Z.ltb_spec 0 (ret_sync_runs (db_retention db))) as [Hk|Hk].
  2:{ eexists. split; [reflexivity|]. cbn. split; [done|lia]. }
  rewrite query_run. eexists. split; [reflexivity|]. cbn [db_runs with_runs fst snd].
  set (t := mkTable _ _). split; [lia|]. intros _.
  pose proof (prune_size by_id_desc (fun _ => true) (ret_sync_runs (db_retention db)) t ltac:(lia)) as Hb.
  rewrite !map_filter_id in Hb by done. split; [exact Hb|]. split.
  - apply map_subseteq_spec. intros i v [Hi _]%prune_lookup. done.
  - intros i j [vi Hi] [vj Hj] Hgone.
    assert (cmp_le by_id_desc (i, vi) (j, vj)) as Hle.
    { eapply prune_newest; [apply by_id_desc_flip|apply by_id_desc_trans|exact Hi|done|exact Hj|done|done]. }
    unfold cmp_le, by_id_desc in Hle. cbn in Hle. rewrite Z.compare_ngt_iff in Hle.
    destruct (decide (i = j)) as [->|]; [congruence|lia].
Qed.

Lemma run_history_pruned_witness :
  exists db', finish_run 30 2 (mkRunSummary 4 1 0 0 None)
      (mkDb ∅ 0 ∅ ∅ tb_empty ∅ tb_empty (mkTable {[1%Z := mkRun 10 (Some 11%Z) no_summary; 2%Z := mkRun 20 None no_summary]} 2)
         tb_empty (mkTotals 0 0 None) (mkRetention 336 16 1), mkScript [] [] []) = (Ok tt, (db', mkScript [] [] [])) /\
    Z.of_nat (size (tb_rows (db_runs db'))) = 1%Z.
Proof.
  edestruct (run_history_pruned 30 2 (mkRunSummary 4 1 0 0 None)) as (db' & Hf & _ & Hk); [|exists db'; split; [exact Hf|]].
  - vm_compute. reflexivity.
  - apply Hk. vm_compute. reflexivity.
Defined.
