(* ===== verification/Sightings.v ===== *)
(** * Where each friend was seen (crates/sharerr-store/src/endpoints.rs)

    The [peer_endpoints] table and the gossip columns of [peers]: observations
    that only move forward in time, a bounded history, and an identity bound on
    first use. *)

From stdpp Require Import sorting.
From S2P Require Import Prelude RustStd Text Metainfo Endpoint TrackerUrl Model Totp Effects Accounts FileTree Database Items Peers History.

Record PeerEndpoint : Type := mkPeerEndpoint {
  pe_kind : EndpointKind;
  pe_addr : bytes;
  pe_observed_at : Z;
  pe_via : ObservedVia
}.

(** [row_to_endpoint]: a kind this version does not know is skipped. *)
Definition row_to_endpoint (r : EndpointRow) : option PeerEndpoint :=
  kind ← parse_enum (er_kind r);
  Some (mkPeerEndpoint kind (er_addr r) (er_observed_at r) (parse_lenient ViaRestored (er_via r))).

(** ** Observations *)

(** The row [UNIQUE (peer_id, kind, addr)] names. *)
Definition same_endpoint (peer_id : Z) (kind addr : bytes) (r : EndpointRow) : bool :=
  bool_decide (er_peer_id r = peer_id) && bool_decide (er_kind r = kind) && bool_decide (er_addr r = addr).

Definition find_endpoint (peer_id : Z) (kind addr : bytes) (t : Table EndpointRow) : option (Z * EndpointRow) :=
  List.find (fun ir => same_endpoint peer_id kind addr ir.2) (map_to_list (tb_rows t)).

(** [UPSERT_NEWER] and [INSERT_ONLY]: the rows written. *)
Definition upsert_newer (row : EndpointRow) (t : Table EndpointRow) : nat * Table EndpointRow :=
  match find_endpoint (er_peer_id row) (er_kind row) (er_addr row) t with
  | Some (id, old) =>
      if (er_observed_at old <? er_observed_at row)%Z
      then (1, mkTable (<[id := row]> (tb_rows t)) (tb_sequence t)) else (0, t)
  | None => (1, (tb_insert row t).2)
  end.

Definition insert_only (row : EndpointRow) (t : Table EndpointRow) : nat * Table EndpointRow :=
  match find_endpoint (er_peer_id row) (er_kind row) (er_addr row) t with
  | Some _ => (0, t)
  | None => (1, (tb_insert row t).2)
  end.

Definition of_kind (peer_id : Z) (kind : bytes) (r : EndpointRow) : bool :=
  bool_decide (er_peer_id r = peer_id) && bool_decide (er_kind r = kind).

(** The transaction of [record_peer_endpoint], once the friend is known. *)
Definition record_statement (now peer_id : Z) (kind : EndpointKind) (addr : bytes) (observed_at : option Z)
    (via : ObservedVia) (history : Z) (t : Table EndpointRow) : Table EndpointRow :=
  let row at_ := mkEndpointRow peer_id (as_str_name kind) addr at_ (as_str_name via) in
  let '(written, t) :=
    match observed_at with
    | Some at_ => upsert_newer (row (Z.min at_ (i64_saturating_add now MAX_FUTURE_SKEW_SECS))) t
    | None => insert_only (row now) t
    end in
  if 0 <? written then prune (by_time_desc er_observed_at) (of_kind peer_id (as_str_name kind)) history t else t.

Definition record_peer_endpoint (now peer_id : Z) (kind : EndpointKind) (addr : bytes) (observed_at : option Z)
    (via : ObservedVia) : DbM (result unit StoreError) :=
  query (fun db =>
    if known_peer (Some peer_id) db
    then (Ok tt, with_endpoints (record_statement now peer_id kind addr observed_at via
                   (ret_endpoint_history (db_retention db)) (db_endpoints db)) db)
    else (Err (Sql (bs "FOREIGN KEY constraint failed")), db)).

(** [ORDER BY peer_id, kind, observed_at DESC, id DESC]. *)
Definition endpoint_order (a b : Z * EndpointRow) : comparison :=
  match Z.compare (er_peer_id a.2) (er_peer_id b.2) with
  | Eq => match bytes_compare (er_kind a.2) (er_kind b.2) with
          | Eq => by_time_desc er_observed_at a b
          | c => c
          end
  | c => c
  end.

(** [peer_endpoints_for], as the lookup its map is used for. *)
Definition peer_endpoints_for (peer_ids : list Z) : DbM (result (Z -> list PeerEndpoint) StoreError) :=
  if is_nonempty peer_ids then
    select (fun db =>
      let rows := sort_by endpoint_order
                    (filter (fun ir => er_peer_id ir.2 ∈ peer_ids) (map_to_list (tb_rows (db_endpoints db)))) in
      fun id => omap (fun ir => if decide (er_peer_id ir.2 = id) then row_to_endpoint ir.2 else None) rows)
  else sret (Ok (fun _ => [])).

(** ** Identity and gossip *)

Definition bind_peer_pubkey (peer_id : Z) (pubkey : bytes) : DbM (result bool StoreError) :=
  changed (update_peer peer_id
    (fun r => bool_decide (pr_pubkey r = None) || bool_decide (pr_pubkey r = Some pubkey)) (put_pubkey pubkey)).

(** [describe] renders the parse error the message carries. *)
Definition set_peer_gossip_url `{U : UrlLib} (describe : ParseError -> bytes) (peer_id : Z) (url : option bytes)
  : DbM (result bool StoreError) :=
  let parsed :=
    match trim <$> url with
    | None | Some [] => Ok None
    | Some raw => match url_parse raw with
                  | Ok u => Ok (Some (url_as_str u))
                  | Err e => Err (InvalidGossipUrl raw (describe e))
                  end
    end in
  try! url := sret parsed in
  changed (update_peer peer_id (fun _ => true) (put_gossip_url url)).

Definition set_peer_gossip_record (peer_id : Z) (record : bytes) : DbM (result unit StoreError) :=
  execute (fun db => (update_peer peer_id (fun _ => true) (put_gossip_record record) db).2).

Definition peer_gossip_record (peer_id : Z) : DbM (result (option bytes) StoreError) :=
  select (fun db => r ← tb_rows (db_peers db) !! peer_id; pr_gossip_record r).

Definition peer_gossip_records (peer_ids : list Z) : DbM (result (gmap Z bytes) StoreError) :=
  if is_nonempty peer_ids
  then select (fun db => omap pr_gossip_record (filter (fun ir => ir.1 ∈ peer_ids) (tb_rows (db_peers db))))
  else sret (Ok ∅).

(** ** Facts: observations *)

Record endpoints_ok (t : Table EndpointRow) : Prop := {
  endpoint_ids : map_Forall (fun id _ => (id <= tb_sequence t)%Z) (tb_rows t);
  endpoint_unique : forall i j r s, tb_rows t !! i = Some r -> tb_rows t !! j = Some s ->
    er_peer_id r = er_peer_id s -> er_kind r = er_kind s -> er_addr r = er_addr s -> i = j
}.

Lemma same_endpoint_spec p k a r :
  same_endpoint p k a r = true <-> er_peer_id r = p /\ er_kind r = k /\ er_addr r = a.
Proof. unfold same_endpoint. rewrite !andb_true_iff, !bool_decide_eq_true. tauto. Qed.

Lemma find_endpoint_Some p k a t id r :
  find_endpoint p k a t = Some (id, r) -> tb_rows t !! id = Some r /\ er_peer_id r = p /\ er_kind r = k /\ er_addr r = a.
Proof.
  intros H. apply List.find_some in H as [Hin Hs]. apply list_elem_of_In, elem_of_map_to_list in Hin.
  by apply same_endpoint_spec in Hs.
Qed.

Lemma find_endpoint_None p k a t id r :
  find_endpoint p k a t = None -> tb_rows t !! id = Some r -> ~ (er_peer_id r = p /\ er_kind r = k /\ er_addr r = a).
Proof.
  intros H Hr Hs%same_endpoint_spec. eapply List.find_none in H; [|apply list_elem_of_In, elem_of_map_to_list, Hr].
  cbn in H. congruence.
Qed.

(** The row one observation writes: over an older sighting of the same address,
    or under a fresh id. *)
Definition writes (row : EndpointRow) (t t' : Table EndpointRow) : Prop :=
  exists id, tb_rows t' = <[id := row]> (tb_rows t) /\
    ((exists old, tb_rows t !! id = Some old /\ er_peer_id old = er_peer_id row /\ er_kind old = er_kind row /\
        er_addr old = er_addr row /\ (er_observed_at old < er_observed_at row)%Z /\ tb_sequence t' = tb_sequence t) \/
     (id = tb_sequence t + 1 /\ tb_sequence t' = id)%Z /\
       forall i r, tb_rows t !! i = Some r ->
         ~ (er_peer_id r = er_peer_id row /\ er_kind r = er_kind row /\ er_addr r = er_addr row)).

Lemma upsert_newer_effect row t : upsert_newer row t = (0, t) \/ exists t', upsert_newer row t = (1, t') /\ writes row t t'.
Proof.
  unfold upsert_newer. destruct (find_endpoint _ _ _ t) as [[id old]|] eqn:Hf.
  - apply find_endpoint_Some in Hf as (Hr & Hp & Hk & Ha). destruct (Z.ltb_spec (er_observed_at old) (er_observed_at row)); [|by left].
    right. eexists. split; [done|]. exists id. split; [done|]. left. by exists old.
  - right. eexists. split; [done|]. exists (tb_sequence t + 1)%Z. split; [done|]. right. split; [done|].
    intros i r. by apply find_endpoint_None.
Qed.

Lemma insert_only_effect row t :
  (insert_only row t = (0, t) /\ is_Some (find_endpoint (er_peer_id row) (er_kind row) (er_addr row) t)) \/
  exists t', insert_only row t = (1, t') /\ writes row t t'.
Proof.
  unfold insert_only. destruct (find_endpoint _ _ _ t) as [[id old]|] eqn:Hf; [left; eauto|].
  right. eexists. split; [done|]. exists (tb_sequence t + 1)%Z. split; [done|]. right. split; [done|].
  intros i r. by apply find_endpoint_None.
Qed.

Lemma writes_ok row t t' : endpoints_ok t -> writes row t t' -> endpoints_ok t'.
Proof.
  intros [Hid Hu] (id & E & Hw).
  assert (forall i r, tb_rows t !! i = Some r -> er_peer_id r = er_peer_id row -> er_kind r = er_kind row ->
            er_addr r = er_addr row -> i = id) as Hsame.
  { intros i r Hi Hp Hk Ha. destruct Hw as [(old & Ho & Hp' & Hk' & Ha' & _)|[_ Hn]].
    - apply (Hu i id r old); congruence.
    - exfalso. eapply Hn; eauto. }
  split.
  - rewrite E. apply map_Forall_insert_2.
    + destruct Hw as [(old & Ho & _ & _ & _ & _ & ->)|[[_ ->] _]]; [by apply (Hid _ _ Ho)|lia].
    + eapply map_Forall_impl; [exact Hid|]. cbn. intros i _ Hi.
      destruct Hw as [(old & _ & _ & _ & _ & _ & ->)|[[-> ->] _]]; lia.
  - rewrite E. intros i j r s Hi Hj Hp Hk Ha.
    apply lookup_insert_Some in Hi as [[<- <-]|[? Hi]], Hj as [[<- <-]|[? Hj]]; [done|..].
    + symmetry. by eapply Hsame.
    + by eapply Hsame.
    + by eapply Hu.
Qed.

(** Every sighting the write leaves behind is as recent as it was. *)
Lemma writes_forward row t t' i r j s :
  endpoints_ok t -> writes row t t' -> tb_rows t !! i = Some r -> tb_rows t' !! j = Some s ->
  er_peer_id r = er_peer_id s -> er_kind r = er_kind s -> er_addr r = er_addr s ->
  (er_observed_at r <= er_observed_at s)%Z.
Proof.
  intros [_ Hu] (id & E & Hw) Hi Hj Hp Hk Ha. rewrite E in Hj.
  apply lookup_insert_Some in Hj as [[<- <-]|[Hne Hj]].
  - destruct Hw as [(old & Ho & Hp' & Hk' & Ha' & Hlt & _)|[_ Hn]]; [|exfalso; eapply Hn; eauto].
    assert (i = id) as -> by (apply (Hu i id r old); congruence). rewrite Ho in Hi. injection Hi as ->. lia.
  - assert (i = j) as -> by (by eapply Hu). rewrite Hi in Hj. by injection Hj as ->.
Qed.

Lemma prune_ok order within k t : endpoints_ok t -> endpoints_ok (prune order within k t).
Proof.
  intros [Hid Hu]. split.
  - intros i r [Hi _]%prune_lookup. by apply (Hid _ _ Hi).
  - intros i j r s [Hi _]%prune_lookup [Hj _]%prune_lookup. by apply Hu.
Qed.

(** An observation either changes nothing or writes one row and prunes. *)
Lemma record_effect now peer_id kind addr observed_at via history t :
  let t' := record_statement now peer_id kind addr observed_at via history t in
  t' = t \/ exists row t1, writes row t t1 /\ er_peer_id row = peer_id /\ er_kind row = as_str_name kind /\
    er_addr row = addr /\ (er_observed_at row <= Z.max now (i64_saturating_add now MAX_FUTURE_SKEW_SECS))%Z /\
    (observed_at = None -> find_endpoint peer_id (as_str_name kind) addr t = None) /\
    t' = prune (by_time_desc er_observed_at) (of_kind peer_id (as_str_name kind)) history t1.
Proof.
  unfold record_statement. destruct observed_at as [at_|].
  - destruct (upsert_newer_effect (mkEndpointRow peer_id (as_str_name kind) addr
      (Z.min at_ (i64_saturating_add now MAX_FUTURE_SKEW_SECS)) (as_str_name via)) t) as [->|(t1 & -> & Hw)]; [by left|].
    right. eexists _, t1. split_and!; [exact Hw|done|done|done|cbn; lia|done|done].
  - destruct (insert_only_effect (mkEndpointRow peer_id (as_str_name kind) addr now (as_str_name via)) t)
      as [[-> _]|(t1 & Hi & Hw)]; [by left|].
    right. eexists _, t1. rewrite Hi. split_and!; [exact Hw|done|done|done|cbn; lia| |done].
    intros _. unfold insert_only in Hi. cbn in Hi. by destruct (find_endpoint _ _ _ t).
Qed.

(** ** Facts: the friends table *)

(** What every call of the friends table leaves alone in a row. *)
Definition same_credential (r r' : PeerRow) : Prop :=
  pr_key_hash r' = pr_key_hash r /\ forall at_, pr_revoked_at r = Some at_ -> pr_revoked_at r' = Some at_.

(** How the friends table may move: ids are never reused, and a row that stays
    keeps its key and its revocation. *)
Definition peers_move (db db' : Db) : Prop :=
  (tb_sequence (db_peers db) <= tb_sequence (db_peers db'))%Z /\
  forall id r', tb_rows (db_peers db') !! id = Some r' ->
    (tb_sequence (db_peers db) < id)%Z \/ exists r, tb_rows (db_peers db) !! id = Some r /\ same_credential r r'.

#[export] Instance peers_move_preorder : PreOrder peers_move.
Proof.
  split.
  - intros db. split; [done|]. intros id r' H. right. exists r'. by repeat split.
  - intros a b c [S1 H1] [S2 H2]. split; [lia|]. intros id r' Hc. apply H2 in Hc as [?|(r & Hb & Hk & Hr)]; [left; lia|].
    apply H1 in Hb as [?|(r0 & Ha & Hk0 & Hr0)]; [by left|]. right. exists r0. split; [done|].
    split; [congruence|]. eauto.
Qed.

Lemma peers_move_update id guard set db :
  (forall r, guard r = true -> same_credential r (set r)) -> peers_move db (update_peer id guard set db).2.
Proof.
  intros Hset. unfold update_peer. destruct (tb_rows (db_peers db) !! id) as [r|] eqn:Hr; [|done].
  destruct (guard r) eqn:Hg; [|done]. cbn. split; [done|]. cbn. intros i r' Hi.
  apply lookup_insert_Some in Hi as [[<- <-]|[_ Hi]]; right; [exists r; auto|exists r'; by repeat split].
Qed.

(** The calls the program makes of the friends table. *)
Inductive PeerCall : Type :=
| CallCreate (now : Z) (label key : bytes) (scope : PeerScope)
| CallTouch (now id : Z)
| CallRevoke (now id : Z)
| CallLimits (id : Z) (size height : option Z)
| CallScope (id : Z) (scope : PeerScope)
| CallDelete (id : Z)
| CallBind (id : Z) (pubkey : bytes)
| CallGossipUrl (id : Z) (url : option bytes)
| CallGossipRecord (id : Z) (record : bytes)
| CallTransfer (now : Z) (id : option Z) (downloaded uploaded : N).

Section PeerCalls.
Context `{D : Digests} `{U : UrlLib} (describe : ParseError -> bytes).

Definition peer_call (c : PeerCall) : DbM unit :=
  match c with
  | CallCreate now label key scope => dropping (create_peer now label key scope)
  | CallTouch now id => dropping (touch_peer now id)
  | CallRevoke now id => dropping (revoke_peer now id)
  | CallLimits id size height => dropping (set_peer_limits id size height)
  | CallScope id scope => dropping (set_peer_scope id scope)
  | CallDelete id => dropping (delete_peer id)
  | CallBind id pubkey => dropping (bind_peer_pubkey id pubkey)
  | CallGossipUrl id url => dropping (set_peer_gossip_url describe id url)
  | CallGossipRecord id record => dropping (set_peer_gossip_record id record)
  | CallTransfer now id downloaded uploaded => dropping (record_transfer now id downloaded uploaded)
  end.

Definition peer_calls (cs : list PeerCall) : DbM unit := sfold (fun _ c => peer_call c) cs tt.

Lemma peer_call_moves c : moves (tables peers_move) (peer_call c).
Proof.
  destruct c as [now label key scope|now id|now id|id size height|id scope|id|id pubkey|id url|id record|now id dn up];
    cbn [peer_call]; (eapply moves_bind; [apply _| |intros ?; moves_step]);
    try (moves_step; intros db; apply peers_move_update; by repeat split).
  - repeat moves_step. apply moves_query; [apply _|]. intros db.
    destruct (_ || _); [done|]. cbn. split; cbn; [lia|]. intros i r' Hi.
    apply lookup_insert_Some in Hi as [[<- <-]|[_ Hi]]; [left; lia|right]. exists r'. by repeat split.
  - repeat moves_step. destruct a as [at_|]; [destruct (_ <=? at_)%Z|];
      repeat moves_step; intros db; apply peers_move_update; by repeat split.
  - moves_step. intros db. apply peers_move_update. cbn beta. intros r Hr%bool_decide_eq_true.
    split; [reflexivity|]. intros at_ Hat. congruence.
  - moves_step. intros db. unfold delete_peer_statement.
    destruct (tb_rows (db_peers db) !! id); [|done]. split; cbn; [done|]. intros i r' [_ Hi]%lookup_delete_Some.
    right. exists r'. by repeat split.
  - unfold set_peer_gossip_url. repeat moves_step. intros db. apply peers_move_update. by repeat split.
  - unfold record_transfer. destruct (_ && _); moves_step. intros db.
    destruct id as [id|]; [|change (peers_move db db); done]. apply (peers_move_update id (fun _ => true) _ (with_totals _ db)). by repeat split.
Qed.

Lemma peer_calls_move cs db script : peers_move db (peer_calls cs (db, script)).2.1.
Proof.
  assert (moves (tables peers_move) (peer_calls cs)) as H; [|exact (H (db, script))].
  apply moves_fold; [apply _|]. intros u c _. apply peer_call_moves.
Qed.

End PeerCalls.

(** ** Properties *)

(** Revocation is final.  Once a friend's key is revoked, no sequence of
    calls on the friends table, with whatever failures, un-revokes it or moves
    the time it was cut; while the row exists it never authenticates again, and
    its id is never given to another friend. *)
Theorem revocation_is_final `{D : Digests} `{U : UrlLib} `{RO : RowOrder} describe cs db script id r at_ :
  RowOrderLaws RO ->
  (id <= tb_sequence (db_peers db))%Z -> tb_rows (db_peers db) !! id = Some r -> pr_revoked_at r = Some at_ ->
  let db' := (peer_calls describe cs (db, script)).2.1 in
  (forall r', tb_rows (db_peers db') !! id = Some r' ->
     pr_key_hash r' = pr_key_hash r /\ pr_revoked_at r' = Some at_) /\
  forall key script' p, (peer_by_key key (db', script')).1 = Ok (Some p) -> p_id p <> id.
Proof.
  intros RL Hid Hr Hrev db'. destruct (peer_calls_move describe cs db script) as [_ Hmove]. fold db' in Hmove.
  assert (forall r', tb_rows (db_peers db') !! id = Some r' ->
     pr_key_hash r' = pr_key_hash r /\ pr_revoked_at r' = Some at_) as Hkept.
  { intros r' Hr'. apply Hmove in Hr' as [?|(r0 & Hr0 & Hk & Hrv)]; [lia|]. rewrite Hr in Hr0. injection Hr0 as <-. eauto. }
  split; [exact Hkept|]. intros key script' p Hp Heq.
  unfold peer_by_key, peer_by_key_hash, select in Hp.
  destruct (query _ (db', script')) as [res [db2 s2]] eqn:Hq. cbn in Hp. subst res.
  apply query_inv in Hq as [Hq|(e & ? & _)]; [|done]. injection Hq as Hq _.
  destruct (List.find _ _) as [[i r']|] eqn:Hf; [|done]. injection Hq as <-. cbn in Heq. subst i.
  apply List.find_some in Hf as [Hin Hc]. apply list_elem_of_In in Hin. rewrite rows_of_perm in Hin.
  apply elem_of_map_to_list in Hin. cbn in Hc. rewrite andb_true_iff, !bool_decide_eq_true in Hc.
  apply Hkept in Hin as [_ Hin]. destruct Hc. congruence.
Qed.

(** A sighting never rewinds.  Recording where a friend was seen keeps one
    row per address and leaves every other kind and friend alone; an address
    still remembered is remembered at least as recently as before, a time claimed
    from the future is cut to the allowed skew, a sighting without a time of its
    own never touches a known address, and the history of the friend and kind
    grows no longer than its limit. *)
Theorem sighting_never_rewinds now peer_id kind addr observed_at via history t :
  (0 <= history)%Z -> endpoints_ok t ->
  let t' := record_statement now peer_id kind addr observed_at via history t in
  let mine r := of_kind peer_id (as_str_name kind) r = true in
  endpoints_ok t' /\
  (forall id r, ~ mine r -> (tb_rows t' !! id = Some r <-> tb_rows t !! id = Some r)) /\
  (forall i r j s, tb_rows t !! i = Some r -> tb_rows t' !! j = Some s -> er_peer_id r = er_peer_id s ->
     er_kind r = er_kind s -> er_addr r = er_addr s -> (er_observed_at r <= er_observed_at s)%Z) /\
  (forall j s, tb_rows t' !! j = Some s -> tb_rows t !! j = Some s \/
     (er_addr s = addr /\ (er_observed_at s <= Z.max now (i64_saturating_add now MAX_FUTURE_SKEW_SECS))%Z)) /\
  (observed_at = None -> is_Some (find_endpoint peer_id (as_str_name kind) addr t) -> t' = t) /\
  (t' = t \/ Z.of_nat (size (filter (fun ir => mine ir.2) (tb_rows t'))) <= history)%Z.
Proof.
  intros Hh Hok t' mine.
  destruct (record_effect now peer_id kind addr observed_at via history t) as [Hsame|Hw]; unfold t'.
  { rewrite Hsame. split_and!; try done; [|intros; by left|by left].
    intros i r j s Hi Hj Hp Hk Ha. assert (i = j) as -> by (by eapply Hok).
    rewrite Hi in Hj. injection Hj as ->. lia. }
  destruct Hw as (row & t1 & Hw & Hp & Hk & Ha & Hat & Hnone & ->).
  assert (of_kind peer_id (as_str_name kind) row = true) as Hmine
    by (unfold of_kind; rewrite Hp, Hk, !bool_decide_eq_true_2; done).
  split_and!.
  - apply prune_ok. by eapply writes_ok.
  - intros id r Hr. rewrite prune_lookup. destruct Hw as (i & E & Hw). rewrite E. split.
    + intros [Hi _]. apply lookup_insert_Some in Hi as [[_ <-]|[_ Hi]]; done.
    + intros Hi. split; [|left; by apply not_true_is_false]. rewrite lookup_insert_ne; [done|]. intros <-.
      destruct Hw as [(old & Ho & Hp' & Hk' & _)|[[-> _] _]].
      * apply Hr. rewrite Ho in Hi. injection Hi as <-. unfold mine, of_kind.
        rewrite Hp', Hk', Hp, Hk, !bool_decide_eq_true_2; done.
      * apply (endpoint_ids _ Hok) in Hi. lia.
  - intros i r j s Hi [Hj _]%prune_lookup. by eapply writes_forward.
  - intros j s [Hj _]%prune_lookup. destruct Hw as (i & E & _). rewrite E in Hj.
    apply lookup_insert_Some in Hj as [[_ <-]|[_ Hj]]; [right; done|by left].
  - intros Ho [? Hf]. rewrite Hnone in Hf; done.
  - right. pose proof (prune_size (by_time_desc er_observed_at) (of_kind peer_id (as_str_name kind)) history t1 Hh) as Hs.
    unfold mine. rewrite Hs. lia.
Qed.

(** A friend whose key was revoked at second 50. *)
Definition revoked_friend : PeerRow :=
  mkPeerRow (bs "Sam") (bs "kh") 10 None (Some 50%Z) (bs "all") None None None 0 0 None None.

Lemma revocation_is_final_witness :
  let db := with_peers (mkTable {[1%Z := revoked_friend]} 1) sample_db in
  let db' := (@peer_calls tail_digests text_urls (fun _ => []) [CallTouch 60 1; CallRevoke 61 1; CallScope 1 ScopeTv]
                (db, mkScript [] [] [])).2.1 in
  pr_revoked_at <$> tb_rows (db_peers db') !! 1%Z = Some (Some 50%Z).
Proof.
  intros db db'.
  destruct (@revocation_is_final tail_digests text_urls key_order (fun _ => []) [CallTouch 60 1; CallRevoke 61 1; CallScope 1 ScopeTv]
    db (mkScript [] [] []) 1%Z revoked_friend 50%Z key_order_laws) as [H _];
    [vm_compute; discriminate|vm_compute; reflexivity|reflexivity|].
  change ((peer_calls (fun _ => []) [CallTouch 60 1; CallRevoke 61 1; CallScope 1 ScopeTv] (db, mkScript [] [] [])).2.1)
    with db' in H.
  destruct (tb_rows (db_peers db') !! 1%Z) as [r'|] eqn:E; [|vm_compute in E; discriminate].
  cbn. f_equal. apply (H r'). reflexivity.
Defined.

Definition seen_direct : EndpointRow := mkEndpointRow 7 (bs "api") (bs "1.2.3.4:9") 100 (bs "direct").

Definition sample_sightings : Table EndpointRow := mkTable {[1%Z := seen_direct]} 1.

(** An older sighting arrives by gossip. *)
Definition later_sightings : Table EndpointRow :=
  record_statement 200 7 KindApi (bs "1.2.3.4:9") (Some 50%Z) ViaGossip 3 sample_sightings.

Lemma sighting_never_rewinds_witness :
  exists s, tb_rows later_sightings !! 1%Z = Some s /\ (100 <= er_observed_at s)%Z.
Proof.
  assert (tb_rows later_sightings !! 1%Z = Some seen_direct) as Hj by (vm_compute; reflexivity).
  exists seen_direct. split; [exact Hj|].
  refine (proj1 (proj2 (proj2 (sighting_never_rewinds 200 7 KindApi (bs "1.2.3.4:9") (Some 50%Z) ViaGossip 3 sample_sightings _ _)))
    1%Z seen_direct 1%Z seen_direct _ Hj _ _ _); try done.
  split.
  - apply map_Forall_singleton. cbn. lia.
  - intros i k r u Hi Hk'. cbn in Hi, Hk'. apply lookup_singleton_Some in Hi as [<- _], Hk' as [<- _]. done.
Defined.
