(* ===== verification/Client.v ===== *)
(** * The torrent client's contract (crates/sharerr-client/src/lib.rs, and
    [SeedingConfig] of crates/sharerr-core/src/config.rs)

    What sharerr asks of a torrent client.  The client itself is a program beside
    this one: its answer to a call may depend on everything it was asked before,
    so it is a function of the history of calls. *)

From Stdlib Require Import SpecFloat.
From S2P Require Import Prelude RustStd Text Model Endpoint.

(** ** Text helpers *)

Definition MAX_ERROR_BODY : nat := 400.

Definition clamp_body (body : bytes) : bytes := concat (take MAX_ERROR_BODY (chars body)).

Definition split_tags (raw : bytes) : list bytes :=
  filter (fun t => t <> []) (map trim (split_byte ","%byte raw)).

Definition single_tag (label : bytes) : list bytes := if is_nonempty label then [label] else [].

(** [content_path] for a client that reports a directory and a name. *)
Definition client_content_path (dir name : bytes) : bytes :=
  if negb (is_nonempty dir) || negb (is_nonempty name) then []
  else trim_end "/"%byte dir ++ "/"%byte :: name.

(** ** Kinds, torrents and requests *)

Inductive ClientKind : Type := QBittorrent | Transmission | Rtorrent | Deluge.

(** [ClientKind::hybrid_torrents]. *)
Definition hybrid_torrents (kind : ClientKind) : bool :=
  match kind with QBittorrent | Transmission | Rtorrent => true | Deluge => false end.

Inductive ClientError : Type :=
| Unreachable (kind : ClientKind) (url detail : bytes)
| AuthRejected (kind : ClientKind)
| Api (kind : ClientKind) (detail : bytes)
| MalformedAnswer (kind : ClientKind) (detail : bytes)
| ClientConfig (message : bytes).

(** [ClientKind::as_str], and how an error reads. *)
Definition kind_as_str (kind : ClientKind) : bytes :=
  match kind with QBittorrent => bs "qBittorrent" | Transmission => bs "Transmission" | Rtorrent => bs "rTorrent" | Deluge => bs "Deluge" end.

Definition client_error_text (e : ClientError) : bytes :=
  match e with
  | Unreachable kind url detail => kind_as_str kind ++ bs " at " ++ url ++ bs " could not be reached: " ++ detail
  | AuthRejected kind => kind_as_str kind ++ bs " rejected the username or password"
  | Api kind detail => kind_as_str kind ++ bs " refused the request: " ++ detail
  | MalformedAnswer kind detail => kind_as_str kind ++ bs " sent a response this build could not read: " ++ detail
  | ClientConfig message => message
  end.

(** ** Answers over HTTP *)

(** [HeaderValue::to_str]: visible ASCII and tabs. *)
Definition header_text (value : bytes) : bool := forallb (fun b => byte_in 32 126 b || bool_decide (b = x09)) value.

Definition is_auth_rejection (status : N) : bool := (status =? 401)%N || (status =? 403)%N.
Definition status_is_success (status : N) : bool := (200 <=? status)%N && (status <? 300)%N.

(** [check_status]; [status_text] renders a status and its reason. *)
Definition check_status (status_text : N -> bytes) (kind : ClientKind) (status : N) (what : bytes) : result unit ClientError :=
  if is_auth_rejection status then Err (AuthRejected kind)
  else if negb (status_is_success status) then Err (Api kind (bs "HTTP " ++ status_text status ++ bs " from " ++ what))
  else Ok tt.

Definition malformed (kind : ClientKind) (what err : bytes) : ClientError :=
  MalformedAnswer kind (bs "reading the " ++ what ++ bs " response: " ++ err).

(** [missing_urls]. *)
Definition missing_urls (wanted : list bytes) (present : bytes -> bool) : list bytes := filter (fun url => present url = false) wanted.

(** ** Torrents *)

Record TorrentSummary : Type := mkTorrentSummary {
  ts_hash : bytes;
  ts_name : bytes;
  ts_save_path : bytes;
  ts_content_path : bytes;
  ts_category : bytes;
  ts_tags : list bytes;
  ts_is_seeding : bool;
  ts_is_stopped : bool;
  ts_ratio : option N;
  ts_ratio_limit : option N;
  ts_upload_limit_kib : option N
}.

Record SeedingLimits : Type := mkLimits { sl_upload_limit_kib : option N; sl_ratio_limit : option N }.

Definition limits_is_empty (l : SeedingLimits) : bool :=
  bool_decide (sl_upload_limit_kib l = None) && bool_decide (sl_ratio_limit l = None).

(** The [f64] with these 64 bits. *)
Definition f64_of_bits (bits : N) : spec_float :=
  let sign := (2 ^ 63 <=? bits)%N in
  let exponent := ((bits / 2 ^ 52) mod 2048)%N in
  let mantissa := (bits mod 2 ^ 52)%N in
  if (exponent =? 2047)%N then if (mantissa =? 0)%N then S754_infinity sign else S754_nan
  else if (exponent =? 0)%N then
    match mantissa with N0 => S754_zero sign | Npos m => S754_finite sign m (-1074) end
  else match (mantissa + 2 ^ 52)%N with
       | N0 => S754_zero sign
       | Npos m => S754_finite sign m (Z.of_N exponent - 1075)
       end.

(** The bits of an [f64]. *)
Definition f64_bits (f : spec_float) : N :=
  let signed (s : bool) n := if s then (2 ^ 63 + n)%N else n in
  match f with
  | S754_zero s => signed s 0%N
  | S754_infinity s => signed s (2047 * 2 ^ 52)%N
  | S754_nan => (4095 * 2 ^ 51)%N
  | S754_finite s m e =>
      signed s (if (Npos m <? 2 ^ 52)%N then Npos m else (Z.to_N (e + 1075) * 2 ^ 52 + (Npos m - 2 ^ 52))%N)
  end.

(** [(have - want).abs() < 0.001], in binary64. *)
Definition ratio_close (have want : N) : bool :=
  SFltb (SFabs (SFsub 53 1024 (f64_of_bits have) (f64_of_bits want))) (f64_of_bits 0x3F50624DD2F1A9FC).

(** [SeedingLimits::matches]. *)
Definition limits_match (goal : SeedingLimits) (reported : TorrentSummary) : bool :=
  match sl_upload_limit_kib goal with
  | None => true
  | Some want => bool_decide (ts_upload_limit_kib reported = Some want)
  end
  && match sl_ratio_limit goal with
     | None => true
     | Some want => match ts_ratio_limit reported with Some have => ratio_close have want | None => false end
     end.

Record TorrentFileEntry : Type := mkFileEntry { tf_name : bytes; tf_size : N }.

Record AddRequest : Type := mkAddRequest {
  ar_data : bytes;
  ar_info_hash : bytes;
  ar_filename : bytes;
  ar_save_path : bytes;
  ar_root_folder : option bytes;
  ar_category : option bytes;
  ar_tags : option bytes;
  ar_skip_checking : bool;
  ar_stopped : bool;
  ar_limits : SeedingLimits
}.

Definition tag_list (r : AddRequest) : list bytes := split_tags (default [] (ar_tags r)).

(** ** The client *)

(** Everything the client can be asked. *)
Inductive ClientCall : Type :=
| AskList
| AskFiles (hash : bytes)
| AskExport (hash : bytes)
| AskAdd (request : AddRequest)
| AskRemove (hash : bytes)
| AskSetTrackers (hash : bytes) (urls : list bytes)
| AskAddTrackers (hash : bytes) (urls : list bytes)
| AskLimits (hash : bytes) (limits : SeedingLimits).

(** Whether a call only reads. *)
Definition reads_only (c : ClientCall) : bool :=
  match c with AskList | AskFiles _ | AskExport _ => true | _ => false end.

Class TorrentClient : Type := {
  client_kind : ClientKind;
  answer_list : list ClientCall -> result (list TorrentSummary) ClientError;
  answer_files : list ClientCall -> bytes -> result (list TorrentFileEntry) ClientError;
  answer_export : list ClientCall -> bytes -> result (option bytes) ClientError;
  answer_add : list ClientCall -> AddRequest -> result unit ClientError;
  answer_remove : list ClientCall -> bytes -> result unit ClientError;
  answer_set_trackers : list ClientCall -> bytes -> list bytes -> result unit ClientError;
  answer_add_trackers : list ClientCall -> bytes -> list bytes -> result unit ClientError;
  answer_limits : list ClientCall -> bytes -> SeedingLimits -> result unit ClientError
}.

(** ** Seeding goals (config.rs) *)

Record QuietHours : Type := mkQuietHours { qh_start : N; qh_end : N }.

(** [QuietHours::contains]. *)
Definition quiet_contains (w : QuietHours) (minute : N) : bool :=
  if (qh_start w <? qh_end w)%N then (qh_start w <=? minute)%N && (minute <? qh_end w)%N
  else (qh_start w <=? minute)%N || (minute <? qh_end w)%N.

(** [HH:MM] of [FromStr for QuietHours]. *)
Definition parse_minutes (part : bytes) : option N :=
  '(hours, mins) ← split_once (fun b => bool_decide (b = ":"%byte)) (trim part);
  hours ← parse_u u16_max hours;
  mins ← parse_u u16_max mins;
  if (hours <? 24)%N && (mins <? 60)%N && (length (trim part) =? 5) then Some (hours * 60 + mins)%N else None.

Inductive QuietError : Type := NotAWindow (text : bytes) | EmptyWindow (text : bytes).

Definition parse_quiet_hours (text : bytes) : result QuietHours QuietError :=
  let? '(start, stop) := ok_or (split_once (fun b => bool_decide (b = "-"%byte)) text) (NotAWindow text) in
  let? start := ok_or (parse_minutes start) (NotAWindow text) in
  let? stop := ok_or (parse_minutes stop) (NotAWindow text) in
  if (start =? stop)%N then Err (EmptyWindow text) else Ok (mkQuietHours start stop).

Definition quiet_to_string (w : QuietHours) : bytes :=
  pad2 (qh_start w / 60) ++ ":"%byte :: pad2 (qh_start w mod 60) ++ "-"%byte ::
  pad2 (qh_end w / 60) ++ ":"%byte :: pad2 (qh_end w mod 60).

Record SeedingConfig : Type := mkSeeding {
  sg_upload_limit_kib : option N;
  sg_ratio_limit : option N;
  sg_private : bool;
  sg_sidecars : bool;
  sg_hybrid : bool;
  sg_quiet_hours : option QuietHours;
  sg_quiet_upload_limit_kib : option N
}.

Definition upload_limit_at (s : SeedingConfig) (minute_of_day : N) : option N :=
  match sg_quiet_hours s, sg_quiet_upload_limit_kib s, sg_upload_limit_kib s with
  | Some window, Some quiet, Some _ => if quiet_contains window minute_of_day then Some quiet else sg_upload_limit_kib s
  | _, _, _ => sg_upload_limit_kib s
  end.
