(* ===== verification/Seeder.v ===== *)
(** * Handing content to the torrent client (crates/sharerr/src/sync/seed.rs)

    Reusing, joining or building the torrent of one file, adopting what the client
    already has, and keeping announce URLs current.  A computation threads the
    database, the [.torrent] cache, the confirmed announce sets, the limits memo
    and the history of calls to the client; disk and task failures are scripted.
    The media library does not change while one pass reads it. *)

From S2P Require Import Prelude RustStd Text Bencode Metainfo Endpoint TrackerUrl Model Paths Factory FileTree Library Effects Accounts Database Items Client.

(** ** The world of one pass *)

(** [Syncer]'s [LimitsMemo]. *)
Record LimitsMemo : Type := mkMemo { memo_applied : gset bytes; memo_cap : option (option N) }.

Section World.
Context `{U : UrlLib}.

#[export] Instance AnnounceSet_eq_dec : EqDecision AnnounceSet.
Proof. solve_decision. Defined.

Record World : Type := mkWorld {
  w_db : Db;
  w_cache : gmap bytes bytes;
  w_confirmed : gmap bytes AnnounceSet;
  w_limits : LimitsMemo;
  w_calls : list ClientCall;
  w_script : Script
}.

(** Why an item could not be seeded: the context added where it failed. *)
Inductive SeedError : Type :=
| ClientFailed (what hash : bytes) (e : ClientError)
| CacheFailed (path : bytes) (e : IoError)
| TorrentFailed (what : bytes) (e : TorrentError)
| FriendTorrentUnparsed
| CannotExport (hash : bytes)
| ExportedOther (actual hash : bytes)
| NoParent (path : bytes)
| FriendUnreachable (detail : bytes)
| FriendTooLarge (length : N)
| FriendOther (actual named : bytes)
| TaskPanicked.

End World.

Abbreviation W := (St World).

Section WorldOps.
Context `{U : UrlLib}.

(** A store method. *)
Definition on_db {A : Type} (m : DbM A) : W A :=
  focus (fun w => (w_db w, w_script w))
    (fun ds w => mkWorld ds.1 (w_cache w) (w_confirmed w) (w_limits w) (w_calls w) ds.2) m.

(** Whether the next disk or task operation goes through. *)
Definition io_ok : W bool :=
  focus w_script (fun s w => mkWorld (w_db w) (w_cache w) (w_confirmed w) (w_limits w) (w_calls w) s) draw.

(** One call of the torrent client, and its answer. *)
Definition ask {A : Type} (call : ClientCall) (answer : list ClientCall -> A) : W A := fun w =>
  (answer (w_calls w),
   mkWorld (w_db w) (w_cache w) (w_confirmed w) (w_limits w) (w_calls w ++ [call]) (w_script w)).

Definition set_confirmed (c : gmap bytes AnnounceSet) (w : World) : World :=
  mkWorld (w_db w) (w_cache w) c (w_limits w) (w_calls w) (w_script w).
Definition set_cache (c : gmap bytes bytes) (w : World) : World :=
  mkWorld (w_db w) c (w_confirmed w) (w_limits w) (w_calls w) (w_script w).
Definition set_memo (m : LimitsMemo) (w : World) : World :=
  mkWorld (w_db w) (w_cache w) (w_confirmed w) m (w_calls w) (w_script w).

(** The free functions [read_cached] and [write_torrent_file].  A file that does
    not fit in memory cannot be read into a vector. *)
Definition read_cached (path : bytes) : W (result (option bytes) IoError) :=
  let! ok := io_ok in
  if ok : bool then
    sgets (fun w =>
      match w_cache w !! path with
      | Some data => if (N.of_nat (length data) <=? usize_max)%N then Ok (Some data) else Err (mkIoError 12)
      | None => Ok None
      end)
  else sret (Err (mkIoError 5)).

Definition write_torrent_file (path data : bytes) : W (result unit IoError) :=
  let! ok := io_ok in
  if ok : bool then let! done := smodify (fun w => set_cache (<[path := data]> (w_cache w)) w) in sret (Ok tt)
  else sret (Err (mkIoError 28)).

End WorldOps.

(** ** Types *)

Record FriendTorrents : Type := mkFriends { ft_matches : list (Z * CatalogEntry); ft_joined : option ItemOrigin }.

Record AddedTorrent : Type := mkAdded { at_private : bool; at_info_hash_v2 : option bytes }.

Inductive AnnounceRefresh : Type := RefreshCurrent | RefreshUpdated | NoCachedTorrent.

Inductive SeedOutcome : Type :=
| Reused (info_hash : bytes) (upstream : list bytes)
| Added (info_hash : bytes) (added : AddedTorrent)
| Joined (info_hash : bytes) (origin : ItemOrigin) (added : option AddedTorrent).

(** [SeedOutcome::info_hash]. *)
Definition outcome_hash (o : SeedOutcome) : bytes :=
  match o with Reused h _ | Added h _ | Joined h _ _ => h end.

(** The [.torrent] behind a friend's link: the length its headers claim and its
    body, or why there is none. *)
Class FriendHttp : Type := friend_get : bytes -> result (option N * result bytes bytes) bytes.

(** The directories of the media library, for what lies beside a file. *)
Class MediaListing : Type := media_listing : bytes -> Listing.

Record Seeder : Type := mkSeeder {
  sd_category : bytes;
  sd_tag : bytes;
  sd_skip_checking : bool;
  sd_seeding : SeedingConfig;
  sd_sidecar_roots : list bytes;
  sd_torrent_dir : bytes
}.

Definition MAX_FRIEND_TORRENT_BYTES : N := 16 * 1024 * 1024.

(** ** Finding what covers a file *)

Definition matches_content_path (t : TorrentSummary) (target : bytes) : bool :=
  bool_decide (path_eq (ts_content_path t) target).

Definition could_contain (t : TorrentSummary) (target : bytes) : bool :=
  is_nonempty (ts_save_path t) && path_starts_with target (ts_save_path t).

Definition contains_file (save_path : bytes) (files : list TorrentFileEntry) (target : bytes) : bool :=
  existsb (fun f => bool_decide (path_eq (path_join save_path (tf_name f)) target)) files.

Section Seed.
Context `{U : UrlLib} `{D : Digests} `{FS : FileSystem} `{TC : TorrentClient} `{FH : FriendHttp} `{ML : MediaListing}.

(** The second loop of [find_existing]. *)
Fixpoint find_in_files (torrents : list TorrentSummary) (target : bytes) : W (option bytes) :=
  match torrents with
  | [] => sret None
  | t :: torrents =>
      if could_contain t target then
        let! files := ask (AskFiles (ts_hash t)) (fun h => answer_files h (ts_hash t)) in
        match files with
        | Ok files => if contains_file (ts_save_path t) files target then sret (Some (ts_hash t))
                      else find_in_files torrents target
        | Err _ => find_in_files torrents target
        end
      else find_in_files torrents target
  end.

Definition find_existing (torrents : list TorrentSummary) (target : bytes) : W (option bytes) :=
  match List.find (fun t => matches_content_path t target) torrents with
  | Some found => sret (Some (ts_hash found))
  | None => find_in_files torrents target
  end.

(** ** Announce tiers *)

(** [foreign_tiers]. *)
Definition foreign_tiers (torrent : Torrent) (announce : AnnounceSet) : list bytes :=
  filter (fun url => url ∉ map url_as_str (tiers announce)) (concat (announce_tiers torrent)).

(** [with_upstream]. *)
Definition with_upstream (data : bytes) (announce : AnnounceSet) (upstream : list bytes) : result bytes SeedError :=
  match read_from_bytes data with
  | Err _ => Err FriendTorrentUnparsed
  | Ok torrent =>
      let all := map (fun url => [url_as_str url]) (tiers announce) ++ map (fun url => [url]) upstream in
      Ok (torrent_encode (mkTorrent (Some (url_as_str (primary announce))) (if 1 <? length all then Some all else None)
            (t_info torrent) (t_extra torrent)))
  end.

(** ** Adopting *)

Definition client_try {A : Type} (what hash : bytes) (m : W (result A ClientError)) : W (result A SeedError) :=
  let! r := m in sret (rmap_err (ClientFailed what hash) r).

Definition cache_try {A : Type} (path : bytes) (m : W (result A IoError)) : W (result A SeedError) :=
  let! r := m in sret (rmap_err (CacheFailed path) r).

(** [spawn_blocking(write_torrent_file).await??]. *)
Definition blocking_write (path data : bytes) : W (result unit SeedError) :=
  let! joined := io_ok in
  if joined : bool then cache_try path (write_torrent_file path data) else sret (Err TaskPanicked).

Definition adopt (sd : Seeder) (info_hash : bytes) (announce : AnnounceSet) : W (result (list bytes) SeedError) :=
  let urls := map url_as_str (tiers announce) in
  try! added := client_try (bs "adding sharerr's tracker") info_hash
                  (ask (AskAddTrackers info_hash urls) (fun h => answer_add_trackers h info_hash urls)) in
  let path := torrent_file_path (sd_torrent_dir sd) info_hash in
  try! cached := cache_try path (read_cached path) in
  let from_cache := bool_decide (is_Some cached) in
  try! data :=
    match cached with
    | Some data => sret (Ok data)
    | None =>
        try! exported := client_try (bs "exporting") info_hash (ask (AskExport info_hash) (fun h => answer_export h info_hash)) in
        sret (ok_or exported (CannotExport info_hash))
    end in
  try! outcome := sret (rmap_err (TorrentFailed (bs "rewriting the announce URLs")) (retarget_announce data announce)) in
  let upstream :=
    if from_cache then []
    else match read_from_bytes data with Ok exported => foreign_tiers exported announce | Err _ => [] end in
  let write (rewritten actual : bytes) : W (result (list bytes) SeedError) :=
    if str_eq_ignore_ascii_case actual info_hash
    then try! written := blocking_write path rewritten in sret (Ok upstream)
    else sret (Err (ExportedOther actual info_hash)) in
  match outcome with
  | Current torrent => if from_cache then sret (Ok upstream) else write data (Metainfo.info_hash torrent)
  | Updated _ torrent rewritten => write rewritten (Metainfo.info_hash torrent)
  end.

(** ** Joining a friend's swarm *)

Definition fetch_from_friend (sd : Seeder) (paths : ResolvedPaths) (announce : AnnounceSet) (peer_id : Z) (entry : CatalogEntry)
  : W (result (option (bytes * bytes * ItemOrigin)) SeedError) :=
  try! response := sret (rmap_err FriendUnreachable (friend_get (ce_download_url entry))) in
  let too_long := match response.1 with Some length => (MAX_FRIEND_TORRENT_BYTES <? length)%N | None => false end in
  if too_long then sret (Err (FriendTooLarge (default 0%N response.1)))
  else
  try! data := sret (rmap_err FriendUnreachable response.2) in
  if (MAX_FRIEND_TORRENT_BYTES <? N.of_nat (length data))%N then sret (Err (FriendTooLarge (N.of_nat (length data))))
  else
  try! torrent := sret (match read_from_bytes data with Ok t => Ok t | Err _ => Err FriendTorrentUnparsed end) in
  let info_hash := Metainfo.info_hash torrent in
  if negb (str_eq_ignore_ascii_case info_hash (ce_info_hash entry))
  then sret (Err (FriendOther info_hash (ce_info_hash entry)))
  else if negb (is_single_file torrent) || negb (bool_decide (name torrent = (file_name (rp_qbit paths) ≫= from_utf8)))
  then sret (Ok None)
  else if bool_decide (is_Some (info_hash_v2 torrent)) && negb (hybrid_torrents client_kind) then sret (Ok None)
  else
  let! joined := io_ok in
  if negb joined then sret (Err TaskPanicked)
  else
  try! verified := sret (rmap_err (TorrentFailed (bs "verifying")) (verify_single_file (rp_sharerr paths) torrent)) in
  if negb verified then sret (Ok None)
  else
  try! cached := sret (rmap_err (TorrentFailed (bs "rewriting")) (rewrite_announce data announce)) in
  try! written := blocking_write (torrent_file_path (sd_torrent_dir sd) info_hash) cached in
  let upstream := foreign_tiers torrent announce in
  try! data := sret (with_upstream data announce upstream) in
  sret (Ok (Some (info_hash, data, mkOrigin (Some peer_id) upstream))).

Fixpoint fetch_from_friends (sd : Seeder) (paths : ResolvedPaths) (announce : AnnounceSet) (matches : list (Z * CatalogEntry))
  : W (option (bytes * bytes * ItemOrigin)) :=
  match matches with
  | [] => sret None
  | (peer_id, entry) :: matches =>
      let! found := fetch_from_friend sd paths announce peer_id entry in
      match found with
      | Ok (Some found) => sret (Some found)
      | _ => fetch_from_friends sd paths announce matches
      end
  end.

(** ** The cache *)

(** [content_size]: the file, or the files a multi-file torrent names beside it. *)
Definition content_size (path : bytes) (files : list bytes) : result N IoError :=
  if is_nonempty files then
    let dir := default [] (parent path) in
    foldl (fun total name => let? total := total in let? meta := metadata (path_join dir name) in
                             Ok (u64_saturating_add total (fm_len meta))) (Ok 0%N) files
  else let? meta := metadata path in Ok (fm_len meta).

Definition cached_size_is_stale (sharerr_path : bytes) (files : list bytes) (cached_length : N) : bool :=
  match content_size sharerr_path files with
  | Ok on_disk => negb (on_disk =? cached_length)%N
  | Err _ => true
  end.

Definition reuse_cached (sd : Seeder) (known_info_hash : option bytes) (announce : AnnounceSet) (paths : ResolvedPaths)
  : W (option (bytes * bytes)) :=
  match known_info_hash with
  | None => sret None
  | Some hash =>
      let path := torrent_file_path (sd_torrent_dir sd) hash in
      let! cached := read_cached path in
      match cached with
      | Ok (Some data) =>
          match retarget_announce data announce with
          | Err _ => sret None
          | Ok outcome =>
              let torrent := retargeted_torrent outcome in
              if cached_size_is_stale (rp_sharerr paths) (file_paths torrent) (content_length torrent) then sret None
              else match outcome with
                   | Current _ => sret (Some (hash, data))
                   | Updated _ _ rewritten =>
                       let! written := write_torrent_file path rewritten in
                       sret (Some (hash, rewritten))
                   end
          end
      | _ => sret None
      end
  end.

(** ** Building *)

Definition build (sd : Seeder) (paths : ResolvedPaths) (announce : AnnounceSet) (media : option MediaMeta)
  : W (result BuiltTorrent SeedError) :=
  let path := rp_sharerr paths in
  let private := sg_private (sd_seeding sd) in
  let hybrid := sg_hybrid (sd_seeding sd) && hybrid_torrents client_kind in
  let wants_sidecars := existsb (path_starts_with path) (sd_sidecar_roots sd) in
  let root_name := dir ← parent (rp_qbit paths); name ← file_name dir; from_utf8 name in
  let! joined := io_ok in
  if negb joined then sret (Err TaskPanicked)
  else
  let sidecars :=
    if wants_sidecars && bool_decide (is_Some root_name)
    then subtitles_beside path (media_listing (default [] (parent path))) else [] in
  let built :=
    match root_name with
    | Some root_name =>
        if is_nonempty sidecars
        then create_with_sidecars (mkSidecarRequest path sidecars root_name announce media private)
        else create (mkTorrentRequest path announce media private hybrid)
    | None => create (mkTorrentRequest path announce media private hybrid)
    end in
  match built with
  | Err e => sret (Err (TorrentFailed (bs "building a torrent") e))
  | Ok built =>
      let! cached := write_torrent_file (torrent_file_path (sd_torrent_dir sd) (bt_info_hash built)) (bt_data built) in
      sret (Ok built)
  end.

(** ** Seeding one file *)

(** What is handed to the client: the info hash, the bytes, and the swarm joined. *)
Definition choose_torrent (sd : Seeder) (paths : ResolvedPaths) (announce : AnnounceSet) (known_info_hash : option bytes)
    (media : option MediaMeta) (friends : FriendTorrents) : W (result (bytes * bytes * option ItemOrigin) SeedError) :=
  let! cached := reuse_cached sd known_info_hash announce paths in
  match cached with
  | Some (hash, data) =>
      match ft_joined friends with
      | Some origin =>
          try! data := sret (with_upstream data announce (or_upstream origin)) in
          sret (Ok (hash, data, Some origin))
      | None => sret (Ok (hash, data, None))
      end
  | None =>
      let! fetched := fetch_from_friends sd paths announce (ft_matches friends) in
      match fetched with
      | Some (hash, data, origin) => sret (Ok (hash, data, Some origin))
      | None =>
          try! built := build sd paths announce media in
          sret (Ok (bt_info_hash built, bt_data built, None))
      end
  end.

(** The friend's entry the client already holds a torrent of. *)
Definition held_by_client (torrents : list TorrentSummary) (matches : list (Z * CatalogEntry)) : option (Z * CatalogEntry) :=
  List.find (fun pe => existsb (fun t => str_eq_ignore_ascii_case (ts_hash t) (ce_info_hash pe.2)) torrents) matches.

(** [save_path]: the directory of the content, or of its root directory. *)
Definition save_path_for (qbit : bytes) (rooted : bool) : result bytes SeedError :=
  let? dir := ok_or (parent qbit) (NoParent qbit) in
  if rooted then ok_or (parent dir) (NoParent qbit) else Ok dir.

Definition add_request (sd : Seeder) (data info_hash save_path : bytes) (root : option bytes) : AddRequest :=
  mkAddRequest data info_hash (torrent_file_name info_hash) (to_string_lossy save_path) root (Some (sd_category sd))
    (Some (sd_tag sd)) (sd_skip_checking sd) false
    (mkLimits (sg_upload_limit_kib (sd_seeding sd)) (sg_ratio_limit (sd_seeding sd))).

(** [Seeder::seed]. *)
Definition seed (sd : Seeder) (paths : ResolvedPaths) (announce : AnnounceSet) (torrents : list TorrentSummary)
    (known_info_hash : option bytes) (media : option MediaMeta) (friends : FriendTorrents) : W (result SeedOutcome SeedError) :=
  let! existing := find_existing torrents (rp_qbit paths) in
  match existing with
  | Some existing =>
      try! upstream := adopt sd existing announce in
      sret (Ok (Reused existing upstream))
  | None =>
      match held_by_client torrents (ft_matches friends) with
      | Some (peer_id, entry) =>
          try! upstream := adopt sd (ce_info_hash entry) announce in
          sret (Ok (Joined (ce_info_hash entry) (mkOrigin (Some peer_id) upstream) None))
      | None =>
          try! chosen := choose_torrent sd paths announce known_info_hash media friends in
          let '(info_hash, data, joined) := chosen in
          let parsed := res_ok (read_from_bytes data) in
          let private := match parsed with Some t => is_private t | None => true end in
          let v2 := t ← parsed; info_hash_v2 t in
          let root_folder := t ← parsed; if is_single_file t then None else name t in
          try! save_path := sret (save_path_for (rp_qbit paths) (bool_decide (is_Some root_folder))) in
          let request := add_request sd data info_hash save_path root_folder in
          try! added := client_try (bs "adding") info_hash (ask (AskAdd request) (fun h => answer_add h request)) in
          sret (Ok match joined with
                   | Some origin => Joined info_hash origin (Some (mkAdded private v2))
                   | None => Added info_hash (mkAdded private v2)
                   end)
      end
  end.

(** ** Keeping announces current *)

Definition is_confirmed (info_hash : bytes) (announce : AnnounceSet) : W bool :=
  sgets (fun w => bool_decide (w_confirmed w !! info_hash = Some announce)).

Definition mark_confirmed (info_hash : bytes) (announce : AnnounceSet) : W unit :=
  smodify (fun w => set_confirmed (<[info_hash := announce]> (w_confirmed w)) w).

Definition refresh_announce (sd : Seeder) (info_hash : bytes) (announce : AnnounceSet) (upstream : list bytes)
  : W (result AnnounceRefresh SeedError) :=
  let! known := is_confirmed info_hash announce in
  if known : bool then sret (Ok RefreshCurrent)
  else
  let path := torrent_file_path (sd_torrent_dir sd) info_hash in
  try! cached := cache_try path (read_cached path) in
  match cached with
  | None => sret (Ok NoCachedTorrent)
  | Some data =>
      try! outcome := sret (rmap_err (TorrentFailed (bs "parsing")) (retarget_announce data announce)) in
      match outcome with
      | Current _ => let! marked := mark_confirmed info_hash announce in sret (Ok RefreshCurrent)
      | Updated _ _ rewritten =>
          let urls := map url_as_str (tiers announce) ++
                      omap (fun url => url_as_str <$> res_ok (url_parse url)) upstream in
          try! set := client_try (bs "updating trackers") info_hash
                        (ask (AskSetTrackers info_hash urls) (fun h => answer_set_trackers h info_hash urls)) in
          try! written := cache_try path (write_torrent_file path rewritten) in
          let! marked := mark_confirmed info_hash announce in
          sret (Ok RefreshUpdated)
      end
  end.

Definition recover_upstream (sd : Seeder) (info_hash : bytes) (announce : AnnounceSet)
  : W (result (option (list bytes)) SeedError) :=
  try! exported := client_try (bs "exporting") info_hash (ask (AskExport info_hash) (fun h => answer_export h info_hash)) in
  match exported with
  | None => sret (Ok None)
  | Some exported =>
      try! exported := sret (match read_from_bytes exported with Ok t => Ok t | Err _ => Err FriendTorrentUnparsed end) in
      let path := torrent_file_path (sd_torrent_dir sd) info_hash in
      try! cached := cache_try path (read_cached path) in
      let ours := match cached with
                  | Some data => match read_from_bytes data with Ok t => concat (announce_tiers t) | Err _ => [] end
                  | None => []
                  end in
      sret (Ok (Some (filter (fun url => url ∉ ours) (foreign_tiers exported announce))))
  end.

End Seed.

(** ** Facts: what the client is asked *)

Section CallFacts.
Context `{U : UrlLib} `{D : Digests} `{FS : FileSystem} `{TC : TorrentClient} `{FH : FriendHttp} `{ML : MediaListing}.

(** Only calls of one kind were made, and the store and the limits memo are as
    they were. *)
Definition asks (P : ClientCall -> Prop) : relation World :=
  fun w w' => w_db w' = w_db w /\ w_limits w' = w_limits w /\ exists new, w_calls w' = w_calls w ++ new /\ Forall P new.

#[export] Instance asks_preorder P : PreOrder (asks P).
Proof.
  split.
  - intros w. split_and!; [done|done|]. exists []. by rewrite app_nil_r.
  - intros a b c (D1 & L1 & l1 & E1 & H1) (D2 & L2 & l2 & E2 & H2). split_and!; [congruence|congruence|].
    exists (l1 ++ l2). rewrite E2, E1, app_assoc. split; [done|]. by apply Forall_app.
Qed.

Lemma asks_ask {A : Type} P call (answer : list ClientCall -> A) : P call -> moves (asks P) (ask call answer).
Proof. intros H w. split_and!; [done|done|]. exists [call]. split; [done|]. by apply Forall_singleton. Qed.

Lemma asks_same P w w' : w_db w' = w_db w -> w_limits w' = w_limits w -> w_calls w' = w_calls w -> asks P w w'.
Proof. intros HD HL H. split_and!; [done|done|]. exists []. by rewrite app_nil_r. Qed.

Lemma asks_io P : moves (asks P) io_ok.
Proof. apply moves_focus. intros w. by apply asks_same. Qed.

Lemma asks_modify P f :
  (forall w, w_db (f w) = w_db w /\ w_limits (f w) = w_limits w /\ w_calls (f w) = w_calls w) -> moves (asks P) (smodify f).
Proof. intros H. apply moves_modify. intros w. destruct (H w) as (?&?&?). by apply asks_same. Qed.

End CallFacts.

(** Steps of an [asks] goal; the calls themselves are left. *)
Ltac asks_step :=
  first
    [ apply moves_ret; apply _
    | apply moves_gets; apply _
    | apply asks_io
    | apply asks_modify; done
    | apply asks_ask
    | eapply moves_try_ret; [apply _|intros ? ?]
    | eapply moves_try; [apply _| |intros ?]
    | eapply moves_bind; [apply _| |intros ?]
    | case_match ].

Section SeedCalls.
Context `{U : UrlLib} `{D : Digests} `{FS : FileSystem} `{TC : TorrentClient} `{FH : FriendHttp} `{ML : MediaListing}.

(** What seeding a file may ask of the client: reads, our own tiers added to a
    torrent it has, and one torrent added over the file where it lies. *)
Inductive seeding_call (sd : Seeder) (paths : ResolvedPaths) (announce : AnnounceSet) : ClientCall -> Prop :=
| seed_reads c : reads_only c = true -> seeding_call sd paths announce c
| seed_adds_tiers hash : seeding_call sd paths announce (AskAddTrackers hash (map url_as_str (tiers announce)))
| seed_adds data hash save_path root :
    save_path_for (rp_qbit paths) (bool_decide (is_Some root)) = Ok save_path ->
    seeding_call sd paths announce (AskAdd (add_request sd data hash save_path root)).

Lemma asks_find P torrents target : (forall c, reads_only c = true -> P c) -> moves (asks P) (find_existing torrents target).
Proof.
  intros HP. unfold find_existing. destruct (List.find _ torrents); [apply moves_ret; apply _|].
  induction torrents as [|t torrents IH]; cbn [find_in_files]; repeat (asks_step || apply IH || (apply HP; reflexivity)).
Qed.

Lemma asks_read_cached P path : moves (asks P) (read_cached path).
Proof. unfold read_cached. repeat asks_step. Qed.

Lemma asks_write P path data : moves (asks P) (write_torrent_file path data).
Proof. unfold write_torrent_file. repeat asks_step. Qed.

Lemma asks_blocking_write P path data : moves (asks P) (blocking_write path data).
Proof. unfold blocking_write, cache_try. repeat (apply asks_write || asks_step). Qed.

Lemma asks_adopt sd paths announce hash : moves (asks (seeding_call sd paths announce)) (adopt sd hash announce).
Proof.
  unfold adopt, client_try, cache_try.
  repeat (apply asks_read_cached || apply asks_blocking_write || asks_step || by constructor).
Qed.

Lemma asks_choose P sd paths announce known media friends :
  moves (asks P) (choose_torrent sd paths announce known media friends).
Proof.
  unfold choose_torrent, reuse_cached, build.
  repeat (apply asks_read_cached || apply asks_write || asks_step).
  all: induction (ft_matches friends) as [|[peer entry] matches IH]; cbn [fetch_from_friends];
    unfold fetch_from_friend; repeat (apply IH || apply asks_blocking_write || asks_step).
Qed.

Lemma asks_seed sd paths announce torrents known media friends :
  moves (asks (seeding_call sd paths announce)) (seed sd paths announce torrents known media friends).
Proof.
  unfold seed, client_try.
  repeat first [by apply asks_find; intros; constructor|apply asks_adopt|apply asks_choose|asks_step].
  all: try by constructor.
Qed.

End SeedCalls.

(** ** Facts: joining and adopting *)

Section JoinFacts.
Context `{U : UrlLib} `{D : Digests} `{FS : FileSystem} `{TC : TorrentClient} `{FH : FriendHttp} `{ML : MediaListing}.

(** The world with one more file in the cache and part of the script used. *)
Definition cached_in (path data : bytes) (w w' : World) : Prop :=
  w_db w' = w_db w /\ w_confirmed w' = w_confirmed w /\ w_limits w' = w_limits w /\ w_calls w' = w_calls w /\
  w_cache w' = <[path := data]> (w_cache w).

(** Only the script moved. *)
Definition still (w w' : World) : Prop :=
  w_db w' = w_db w /\ w_confirmed w' = w_confirmed w /\ w_limits w' = w_limits w /\ w_calls w' = w_calls w /\
  w_cache w' = w_cache w.

Lemma io_still w b w' : io_ok w = (b, w') -> still w w'.
Proof. unfold io_ok, focus. destruct (draw (w_script w)) as [b' s]. intros [= _ <-]. done. Qed.

Lemma blocking_write_inv path data w w' : blocking_write path data w = (Ok tt, w') -> cached_in path data w w'.
Proof.
  unfold blocking_write. intros (ok & w1 & Hio & H)%sbind_inv. destruct ok; [|done]. apply io_still in Hio.
  unfold cache_try in H. apply sbind_inv in H as ([u|e] & w2 & H & Hr); [|done]. injection Hr as _ <-.
  unfold write_torrent_file in H. apply sbind_inv in H as ([|] & w3 & Hio2 & H); [|done]. apply io_still in Hio2.
  injection H as _ <-. destruct Hio as (?&?&?&?&?), Hio2 as (?&?&?&?&?). unfold cached_in. cbn.
  split_and!; congruence.
Qed.

Lemma read_cached_inv path w r w' :
  read_cached path w = (Ok r, w') -> still w w' /\ r = w_cache w !! path /\
    forall data, r = Some data -> (N.of_nat (length data) <= usize_max)%N.
Proof.
  unfold read_cached. intros (ok & w1 & Hio & H)%sbind_inv. apply io_still in Hio. destruct ok; [|done].
  unfold sgets in H. destruct (w_cache w1 !! path) as [data|] eqn:E.
  - destruct (N.leb_spec (N.of_nat (length data)) usize_max); [|done]. injection H as <- <-.
    destruct Hio as (?&?&?&?&Hc). rewrite Hc in E. split_and!; try done. by intros ? [= <-].
  - injection H as <- <-. destruct Hio as (?&?&?&?&Hc). rewrite Hc in E. done.
Qed.

Lemma client_ask_inv {A : Type} what hash call (answer : list ClientCall -> result A ClientError) w a w' :
  client_try what hash (ask call answer) w = (Ok a, w') ->
  answer (w_calls w) = Ok a /\
  w' = mkWorld (w_db w) (w_cache w) (w_confirmed w) (w_limits w) (w_calls w ++ [call]) (w_script w).
Proof.
  unfold client_try. intros (r & w1 & Hask & [= Hr <-])%sbind_inv. apply rmap_err_Ok in Hr. subst r.
  by injection Hask as -> <-.
Qed.

Lemma cache_read_inv path w r w' :
  cache_try path (read_cached path) w = (Ok r, w') -> still w w' /\ r = w_cache w !! path /\
    forall data, r = Some data -> (N.of_nat (length data) <= usize_max)%N.
Proof.
  unfold cache_try. intros (r' & w1 & Hrd & [= Hr <-])%sbind_inv. apply rmap_err_Ok in Hr. subst r'.
  by apply read_cached_inv.
Qed.

Lemma client_ask_cases {A : Type} what hash call (answer : list ClientCall -> result A ClientError) w r w' :
  client_try what hash (ask call answer) w = (r, w') ->
  w' = mkWorld (w_db w) (w_cache w) (w_confirmed w) (w_limits w) (w_calls w ++ [call]) (w_script w).
Proof. unfold client_try. by intros (r1 & w1 & [= _ <-] & [= _ <-])%sbind_inv. Qed.

Lemma still_trans w1 w2 w3 : still w1 w2 -> still w2 w3 -> still w1 w3.
Proof. unfold still. intros (?&?&?&?&?) (?&?&?&?&?). split_and!; congruence. Qed.

(** Reading the cache changes nothing, whatever it finds. *)
Lemma cache_read_still path w r w' : cache_try path (read_cached path) w = (r, w') -> still w w'.
Proof.
  unfold cache_try, read_cached. intros (r1 & w1 & H & [= _ <-])%sbind_inv.
  apply sbind_inv in H as ([|] & w2 & Hio%io_still & H); by injection H as _ <-.
Qed.

(** A write lands whole or not at all. *)
Lemma cache_write_cases path data w r w' :
  cache_try path (write_torrent_file path data) w = (r, w') ->
  (r = Ok tt /\ cached_in path data w w') \/ (exists e, r = Err e /\ still w w').
Proof.
  unfold cache_try, write_torrent_file. intros (r1 & w1 & H & [= <- <-])%sbind_inv.
  apply sbind_inv in H as ([|] & w2 & Hio%io_still & H).
  - injection H as <- <-. left. split; [done|]. destruct Hio as (?&?&?&?&?). unfold cached_in. cbn. split_and!; congruence.
  - injection H as <- <-. right. by eexists.
Qed.

Lemma retarget_inv data announce outcome :
  retarget_announce data announce = Ok outcome ->
  exists t, read_from_bytes data = Ok t /\
    ((t_announce t = Some (url_as_str (primary announce)) /\ outcome = Current t) \/
     (t_announce t <> Some (url_as_str (primary announce)) /\
      outcome = Updated (t_announce t) (with_announce t announce) (torrent_encode (with_announce t announce)))).
Proof.
  unfold retarget_announce. destruct (read_from_bytes data) as [t|]; [|done]. cbn. intros Ho. exists t. split; [done|].
  case_bool_decide; injection Ho as <-; auto.
Qed.

Lemma foreign_tiers_own announce t :
  t_announce t = Some (url_as_str (primary announce)) -> t_announce_list t = tier_list announce ->
  foreign_tiers t announce = [].
Proof.
  intros Ha Hl. unfold foreign_tiers. rewrite (announce_tiers_of announce t Ha Hl).
  assert (concat (map (fun u => [url_as_str u]) (tiers announce)) = map url_as_str (tiers announce)) as ->
    by (induction (tiers announce); cbn; congruence).
  apply elem_of_nil_inv. intros url [Hn Hu]%list_elem_of_filter. done.
Qed.

(** The client's copy lists our tiers and then the others. *)
Lemma with_upstream_inv data announce upstream out :
  with_upstream data announce upstream = Ok out ->
  exists t t', read_from_bytes data = Ok t /\ out = torrent_encode t' /\ t_info t' = t_info t /\
    announce_tiers t' = map (fun u => [url_as_str u]) (tiers announce) ++ map (fun u => [u]) upstream.
Proof.
  unfold with_upstream. destruct (read_from_bytes data) as [t|]; [|done]. set (all := _ ++ _).
  intros [= <-]. exists t. eexists. split; [done|]. split; [done|]. split; [done|].
  assert (exists rest, all = [url_as_str (primary announce)] :: rest) as [rest Hall] by (eexists; reflexivity).
  unfold announce_tiers. cbn [t_announce t_announce_list]. rewrite Hall.
  destruct (1 <? _) eqn:E; [done|]. apply Nat.ltb_ge in E. apply (f_equal length) in Hall. cbn in Hall, E.
  destruct rest; [done|]. cbn in Hall. lia.
Qed.

End JoinFacts.

(** ** Properties *)

(** Seeding disturbs nothing the client has.  Whatever happens, seeding a
    file asks the client only to list files or export, to add our own announce
    tiers to a torrent it already has, or to add one torrent over the file in the
    directory it already lies in; it never removes a torrent, replaces a tracker
    list or sets limits, and what the store records is left to the caller. *)
Theorem seeding_preserves_client `{U : UrlLib} `{D : Digests} `{FS : FileSystem} `{TC : TorrentClient} `{FH : FriendHttp}
    `{ML : MediaListing} sd paths announce torrents known media friends w :
  let w' := (seed sd paths announce torrents known media friends w).2 in
  w_db w' = w_db w /\ exists new, w_calls w' = w_calls w ++ new /\ Forall (seeding_call sd paths announce) new.
Proof. intros w'. destruct (asks_seed sd paths announce torrents known media friends w) as (Hd & _ & Hc). done. Qed.

(** C6: a torrent downloaded from a friend is taken only when it is this file's.
    If [fetch_from_friend] gives a torrent to join, it parsed within the size cap,
    has the info hash their catalog named, is a single file under the file's own
    name and matches the file piece for piece; the cache file this download writes announces to our tiers
    alone, and the bytes for the client list our tiers before theirs.  (A torrent
    the client already has, or one already cached, is not downloaded: see
    [adopt_effect].) *)
Theorem friend_torrent_checked `{U : UrlLib} `{D : Digests} `{FS : FileSystem} `{TC : TorrentClient} `{FH : FriendHttp}
    `{ML : MediaListing} sd paths announce peer_id entry w hash data origin w' :
  fetch_from_friend sd paths announce peer_id entry w = (Ok (Some (hash, data, origin)), w') ->
  exists claimed body t t', friend_get (ce_download_url entry) = Ok (claimed, Ok body) /\
    (N.of_nat (length body) <= MAX_FRIEND_TORRENT_BYTES)%N /\ read_from_bytes body = Ok t /\
    hash = info_hash t /\ str_eq_ignore_ascii_case hash (ce_info_hash entry) = true /\
    is_single_file t = true /\ name t = (file_name (rp_qbit paths) ≫= from_utf8) /\
    verify_single_file (rp_sharerr paths) t = Ok true /\
    (info_hash_v2 t = None \/ hybrid_torrents client_kind = true) /\
    cached_in (torrent_file_path (sd_torrent_dir sd) hash) (torrent_encode (with_announce t announce)) w w' /\
    foreign_tiers (with_announce t announce) announce = [] /\
    origin = mkOrigin (Some peer_id) (foreign_tiers t announce) /\
    data = torrent_encode t' /\ t_info t' = t_info t /\
    announce_tiers t' = map (fun u => [url_as_str u]) (tiers announce) ++ map (fun u => [u]) (foreign_tiers t announce).
Proof.
  unfold fetch_from_friend. intros H.
  apply try_inv in H as ([claimed body] & w1 & [= Hget <-] & H). apply rmap_err_Ok in Hget. cbn [fst snd] in H.
  destruct (match claimed with Some _ => _ | None => _ end); [done|].
  apply try_inv in H as (data0 & w2 & [= Hbody <-] & H). apply rmap_err_Ok in Hbody. subst body.
  destruct (N.ltb_spec MAX_FRIEND_TORRENT_BYTES (N.of_nat (length data0))); [done|].
  apply try_inv in H as (t & w3 & [= Ht <-] & H). destruct (read_from_bytes data0) as [t0|] eqn:Hr; [|done].
  injection Ht as ->.
  destruct (str_eq_ignore_ascii_case (info_hash t) (ce_info_hash entry)) eqn:Hh; [|done].
  destruct (is_single_file t) eqn:Hsf; [|done]. cbn [negb orb] in H.
  destruct (decide (name t = (file_name (rp_qbit paths) ≫= from_utf8))) as [Hn|Hn];
    [rewrite bool_decide_eq_true_2 in H by done|by rewrite bool_decide_eq_false_2 in H]. cbn [negb] in H.
  destruct (bool_decide (is_Some (info_hash_v2 t)) && negb (hybrid_torrents client_kind)) eqn:Hv2; [done|].
  apply sbind_inv in H as ([|] & w4 & Hio & H); [|done]. apply io_still in Hio. cbn [negb] in H.
  apply try_inv in H as ([|] & w5 & [= Hv <-] & H); [|done]. apply rmap_err_Ok in Hv. cbn [negb] in H.
  apply try_inv in H as (cached & w6 & [= Hc <-] & H). apply rmap_err_Ok in Hc.
  unfold rewrite_announce in Hc. rewrite Hr in Hc. injection Hc as <-.
  apply try_inv in H as ([] & w7 & Hw & H). apply blocking_write_inv in Hw.
  apply try_inv in H as (out & w8 & [= Hu <-] & H). injection H as <- <- <- <-.
  apply with_upstream_inv in Hu as (t1 & t' & Hr1 & -> & Hi & Ha). rewrite Hr in Hr1. injection Hr1 as <-.
  exists claimed, data0, t, t'. split_and!; try done.
  - destruct (info_hash_v2 t); [right|by left]. rewrite bool_decide_eq_true_2 in Hv2 by eauto.
    by destruct (hybrid_torrents client_kind).
  - destruct Hio as (?&?&?&?&?), Hw as (?&?&?&?&?). unfold cached_in. split_and!; congruence.
  - by apply foreign_tiers_own.
Qed.

(** What adopting a torrent does.  On success our tiers were added to the
    client's torrent, and the cache has a torrent of that info hash: the one
    already cached, brought up to date if its announce was stale, or else what the
    client exported, whose other tiers are reported.  An export that does not
    announce to us first is cached announcing to us alone; one that does is cached
    as exported, with every tier it lists. *)
Theorem adopt_effect `{U : UrlLib} `{D : Digests} `{FS : FileSystem} `{TC : TorrentClient} `{FH : FriendHttp}
    `{ML : MediaListing} sd hash announce w upstream w' :
  adopt sd hash announce w = (Ok upstream, w') ->
  let path := torrent_file_path (sd_torrent_dir sd) hash in
  let urls := map url_as_str (tiers announce) in
  let ours t := t_announce t = Some (url_as_str (primary announce)) in
  answer_add_trackers (w_calls w) hash urls = Ok tt /\ w_db w' = w_db w /\
  match w_cache w !! path with
  | Some data =>
      exists t, read_from_bytes data = Ok t /\ upstream = [] /\ w_calls w' = w_calls w ++ [AskAddTrackers hash urls] /\
        (ours t -> w_cache w' = w_cache w) /\
        (~ ours t -> str_eq_ignore_ascii_case (info_hash t) hash = true /\
           w_cache w' = <[path := torrent_encode (with_announce t announce)]> (w_cache w))
  | None =>
      exists data t, answer_export (w_calls w ++ [AskAddTrackers hash urls]) hash = Ok (Some data) /\
        read_from_bytes data = Ok t /\ str_eq_ignore_ascii_case (info_hash t) hash = true /\
        upstream = foreign_tiers t announce /\
        w_calls w' = w_calls w ++ [AskAddTrackers hash urls; AskExport hash] /\
        (ours t -> w_cache w' = <[path := data]> (w_cache w)) /\
        (~ ours t -> w_cache w' = <[path := torrent_encode (with_announce t announce)]> (w_cache w))
  end.
Proof.
  intros H path urls ours. unfold adopt in H. fold path urls in H.
  apply try_inv in H as ([] & w1 & Hadd & H). apply client_ask_inv in Hadd as [Hans ->].
  apply try_inv in H as (cached & w2 & Hrd & H). apply cache_read_inv in Hrd as ((Hdb & _ & _ & Hcl & Hch) & -> & _).
  cbn [w_db w_cache w_calls] in *. split; [done|]. destruct (w_cache w !! path) as [data|] eqn:Hp.
  - apply try_inv in H as (d & w3 & [= <- <-] & H). apply try_inv in H as (outcome & w4 & [= Ho <-] & H).
    apply rmap_err_Ok, retarget_inv in Ho as (t & Hr & Ho). rewrite bool_decide_eq_true_2 in H by eauto.
    destruct Ho as [[Ht ->]|[Ht ->]].
    + injection H as <- <-. split; [done|]. exists t. split_and!; done.
    + destruct (str_eq_ignore_ascii_case _ hash) eqn:He; [|done].
      apply try_inv in H as ([] & w5 & Hw & [= <- <-]). apply blocking_write_inv in Hw as (Hdb5 & _ & _ & Hcl5 & Hc5).
      split; [by rewrite Hdb5|]. exists t. split_and!; [done|done|by rewrite Hcl5|done|].
      intros _. split; [done|]. by rewrite Hc5, Hch.
  - apply try_inv in H as (d & w3 & Hd & H). apply try_inv in Hd as (exported & w3' & Hex & [= Hd <-]).
    apply client_ask_inv in Hex as [Hex ->]. destruct exported as [d'|]; [|done]. injection Hd as ->. rewrite Hcl in Hex.
    apply try_inv in H as (outcome & w5 & [= Ho <-] & H). apply rmap_err_Ok, retarget_inv in Ho as (t & Hr & Ho).
    rewrite bool_decide_eq_false_2, Hr in H by (by intros [? ?]).
    destruct Ho as [[Ht ->]|[Ht ->]]; (destruct (str_eq_ignore_ascii_case _ hash) eqn:He; [|done]);
      apply try_inv in H as ([] & w6 & Hw & [= <- <-]); apply blocking_write_inv in Hw as (Hdb6 & _ & _ & Hcl6 & Hc6);
      cbn in *; (split; [congruence|]); exists d, t; split_and!; try done; try congruence;
      rewrite Hcl6, Hcl, <- app_assoc; done.
Qed.

(** A failed refresh is retried.  Refreshing a torrent's announce URLs changes
    the cached file only after the client took the new tiers, and remembers the
    set as confirmed only when the file announces to it; on failure neither has
    moved, so the next pass finds the same work to do. *)
Theorem refresh_retries `{U : UrlLib} `{D : Digests} `{FS : FileSystem} `{TC : TorrentClient} `{FH : FriendHttp}
    `{ML : MediaListing} sd hash announce upstream w r w' :
  refresh_announce sd hash announce upstream w = (r, w') ->
  let path := torrent_file_path (sd_torrent_dir sd) hash in
  let urls := map url_as_str (tiers announce) ++ omap (fun url => url_as_str <$> res_ok (url_parse url)) upstream in
  w_db w' = w_db w /\
  match r with
  | Err _ => w_cache w' = w_cache w /\ w_confirmed w' = w_confirmed w
  | Ok NoCachedTorrent => w_cache w !! path = None /\ w_cache w' = w_cache w /\ w_confirmed w' = w_confirmed w
  | Ok RefreshCurrent =>
      w_cache w' = w_cache w /\ w_calls w' = w_calls w /\ w_confirmed w' !! hash = Some announce /\
      (w_confirmed w !! hash <> Some announce ->
         exists data t, w_cache w !! path = Some data /\ read_from_bytes data = Ok t /\
           t_announce t = Some (url_as_str (primary announce)))
  | Ok RefreshUpdated =>
      exists data t, w_cache w !! path = Some data /\ read_from_bytes data = Ok t /\
        w_calls w' = w_calls w ++ [AskSetTrackers hash urls] /\
        answer_set_trackers (w_calls w) hash urls = Ok tt /\
        w_cache w' = <[path := torrent_encode (with_announce t announce)]> (w_cache w) /\
        w_confirmed w' = <[hash := announce]> (w_confirmed w)
  end.
Proof.
  intros H path urls. unfold refresh_announce in H. fold path urls in H.
  apply sbind_inv in H as (known & w1 & Hk & H). unfold is_confirmed, sgets in Hk. injection Hk as <- <-.
  destruct (bool_decide (w_confirmed w !! hash = Some announce)) eqn:Hconf.
  { apply bool_decide_eq_true in Hconf. injection H as <- <-. done. }
  apply try_cases in H as [(e & (?&?&?&?&?)%cache_read_still & ->)|(cached & w2 & Hrd & H)]; [done|].
  apply cache_read_inv in Hrd as ((Hdb & Hcf & _ & Hcl & Hch) & -> & _).
  destruct (w_cache w !! path) as [data|] eqn:Hp; [|by injection H as <- <-].
  apply try_cases in H as [(e & [= _ <-] & ->)|(outcome & w3 & [= Ho <-] & H)]; [done|].
  apply rmap_err_Ok, retarget_inv in Ho as (t & Hr & [[Ht ->]|[Ht ->]]).
  { injection H as <- <-. cbn. rewrite lookup_insert_eq. split_and!; try done. intros _. eauto. }
  apply try_cases in H as [(e & ->%client_ask_cases & ->)|([] & w4 & Hask & H)]; [done|].
  apply client_ask_inv in Hask as [Hans ->]. rewrite Hcl in Hans.
  apply try_cases in H as [(e & Hw & ->)|(u & w5 & Hw & H)]; apply cache_write_cases in Hw.
  - destruct Hw as [[[=] _]|(e' & _ & (?&?&?&?&?))]. cbn in *. split_and!; congruence.
  - destruct Hw as [[_ (?&?&?&?&?)]|(e' & [=] & _)]. cbn in *. injection H as <- <-. cbn.
    split; [congruence|]. exists data, t. split_and!; congruence.
Qed.

(** ** Witnesses *)

Definition our_set : @AnnounceSet text_urls := @mkAnnounceSet text_urls (bs "http://o/announce/tok") [].

(** The file's torrent as a friend built it, and as a client exports it once our
    tracker was put in front of theirs. *)
Definition shared_body : bytes := bt_data sample_built.

Definition exported_body : bytes :=
  match @with_upstream text_urls shared_body our_set [bs "http://a/announce"] with Ok out => out | Err _ => [] end.

(** A client that exports that and accepts everything. *)
Definition willing_client : TorrentClient := {|
  client_kind := QBittorrent;
  answer_list := fun _ => Ok [];
  answer_files := fun _ _ => Ok [];
  answer_export := fun _ _ => Ok (Some exported_body);
  answer_add := fun _ _ => Ok tt;
  answer_remove := fun _ _ => Ok tt;
  answer_set_trackers := fun _ _ _ => Ok tt;
  answer_add_trackers := fun _ _ _ => Ok tt;
  answer_limits := fun _ _ _ => Ok tt
|}.

Definition one_friend : FriendHttp := fun url =>
  if bool_decide (url = bs "http://f/dl") then Ok (Some 400%N, Ok shared_body) else Err (bs "unreachable").

Definition bare_listing : MediaListing := fun _ => Ok [].

Definition sample_seeder : Seeder :=
  mkSeeder (bs "sharerr") (bs "sharerr") false (mkSeeding None None true true true None None) [] (bs "/data/torrents").

Definition sample_paths : ResolvedPaths := mkResolved sample_path sample_path sample_path false.

Definition sample_entry : CatalogEntry :=
  mkEntry (bt_info_hash sample_built) (Movie (bs "A") None) (mkIds None None None None None None None None) 5 true (bs "http://f/dl").

Definition fresh_world (cache : gmap bytes bytes) : @World text_urls :=
  @mkWorld text_urls sample_db cache ∅ (mkMemo ∅ None) [] (mkScript [] [] []).

Definition sample_fetch : result (option (bytes * bytes * ItemOrigin)) SeedError * @World text_urls :=
  @fetch_from_friend text_urls prefix_digests sample_files willing_client one_friend sample_seeder sample_paths our_set
    4 sample_entry (fresh_world ∅).

Lemma friend_torrent_checked_witness :
  exists hash data origin t, sample_fetch.1 = Ok (Some (hash, data, origin)) /\
    read_from_bytes shared_body = Ok t /\ hash = @info_hash prefix_digests t /\
    @verify_single_file text_urls prefix_digests sample_files sample_path t = Ok true.
Proof.
  assert (bool_decide (is_Some (res_ok sample_fetch.1 ≫= id)) = true) as Hs by (vm_compute; reflexivity).
  destruct sample_fetch as [r w'] eqn:E. destruct r as [[[[hash data] origin]|]|e]; [|discriminate Hs|discriminate Hs].
  unfold sample_fetch in E.
  destruct (@friend_torrent_checked text_urls prefix_digests sample_files willing_client one_friend bare_listing
    sample_seeder sample_paths our_set 4 sample_entry (fresh_world ∅) hash data origin w' E)
    as (claimed & body & t & t' & Hget & _ & Hr & Hh & _ & _ & _ & Hv & _).
  apply (f_equal (fun r => match r with Ok (_, Ok b) => b | _ => [] end)) in Hget. change (shared_body = body) in Hget.
  subst body. exists hash, data, origin, t. split; [reflexivity|]. split; [exact Hr|]. split; [exact Hh|exact Hv].
Defined.

Definition sample_adopt (cache : gmap bytes bytes) : result (list bytes) SeedError * @World text_urls :=
  @adopt text_urls prefix_digests willing_client sample_seeder (bt_info_hash sample_built) our_set (fresh_world cache).

Definition sample_file : bytes := torrent_file_path (bs "/data/torrents") (bt_info_hash sample_built).

Lemma adopt_effect_witness :
  (sample_adopt ∅).1 = Ok [bs "http://a/announce"] /\ w_cache (sample_adopt ∅).2 = <[sample_file := exported_body]> ∅.
Proof.
  assert ((sample_adopt ∅).1 = Ok [bs "http://a/announce"]) as Hr by (vm_compute; reflexivity).
  split; [exact Hr|]. destruct (sample_adopt ∅) as [r w'] eqn:E. cbn in Hr. subst r.
  unfold sample_adopt in E.
  pose proof (@adopt_effect text_urls prefix_digests sample_files willing_client one_friend bare_listing
    sample_seeder (bt_info_hash sample_built) our_set (fresh_world ∅) _ w' E) as (_ & _ & H).
  change (w_cache (fresh_world ∅)) with (∅ : gmap bytes bytes) in H. rewrite lookup_empty in H.
  destruct H as (data & t & Hd & Hr & _ & _ & _ & Hours & _).
  apply (f_equal (fun r => match r with Ok (Some d) => d | _ => [] end)) in Hd. change (exported_body = data) in Hd.
  subst data. apply Hours.
  assert (t_announce <$> res_ok (read_from_bytes exported_body) = Some (Some (bs "http://o/announce/tok"))) as Ha
    by (vm_compute; reflexivity).
  rewrite Hr in Ha. cbn in Ha. injection Ha as ->. reflexivity.
Defined.

(** Adopting a torrent the cache does not have files the operator's own tracker
    in the copy the feed serves, since our own is first in the export by then. *)
Example adopted_cache_names_their_tracker :
  (data ← w_cache (sample_adopt ∅).2 !! sample_file; t ← res_ok (read_from_bytes data); Some (@foreign_tiers text_urls t our_set))
  = Some [bs "http://a/announce"].
Proof. vm_compute. reflexivity. Qed.

(** The write fails, and the pass after it does the same work. *)
Definition sample_refresh (io : list bool) : result AnnounceRefresh SeedError * @World text_urls :=
  @refresh_announce text_urls willing_client sample_seeder (bt_info_hash sample_built) our_set []
    (@mkWorld text_urls sample_db (<[sample_file := shared_body]> ∅) ∅ (mkMemo ∅ None) [] (mkScript io [] [])).

Lemma refresh_retries_witness :
  w_cache (sample_refresh [true; false]).2 = <[sample_file := shared_body]> ∅ /\
  (sample_refresh []).1 = Ok RefreshUpdated /\
  w_confirmed (sample_refresh []).2 = <[bt_info_hash sample_built := our_set]> ∅.
Proof.
  split.
  - assert (res_ok (sample_refresh [true; false]).1 = None) as Hr by (vm_compute; reflexivity).
    destruct (sample_refresh [true; false]) as [[|e] w'] eqn:E; [discriminate Hr|].
    apply (@refresh_retries text_urls prefix_digests sample_files willing_client one_friend bare_listing) in E as (_ & Hc & _).
    exact Hc.
  - assert ((sample_refresh []).1 = Ok RefreshUpdated) as Hr by (vm_compute; reflexivity). split; [exact Hr|].
    destruct (sample_refresh []) as [r w'] eqn:E. cbn in Hr. subst r.
    apply (@refresh_retries text_urls prefix_digests sample_files willing_client one_friend bare_listing) in E
      as (_ & data & t & _ & _ & _ & _ & _ & Hc).
    exact Hc.
Defined.
