(* ===== verification/Sync.v ===== *)
(** * The reconciliation loop (crates/sharerr/src/sync/mod.rs)

    One pass: ask the library sources what is to be shared, compare it with what
    the store has and the client reports, share what is new and withdraw what is
    gone.  The clock is read once per pass; [tokio::join!]'s reads run in the order
    they are written. *)

From S2P Require Import Prelude RustStd Text Metainfo Endpoint TrackerUrl Model Paths Factory Title FileTree Library Effects Accounts Database Items Peers History Client Seeder.

#[export] Instance LibraryKind_eq_dec : EqDecision LibraryKind.
Proof. solve_decision. Defined.

(** ** Sources *)

Record SourceScan : Type := mkScan {
  sn_items : list Discovered;
  sn_complete : bool;
  sn_audience : gmap Z (list bytes)
}.

(** [LibrarySource]: its kind and what it answers for a tag, or why it failed. *)
Record LibrarySource : Type := mkSource {
  ls_kind : MediaSource;
  ls_discover : bytes -> result SourceScan bytes
}.

(** [impl LibrarySource for DirectoryScanner]; [joined] says whether the blocking
    task came back, and [describe] renders what a failed scan reports. *)
Definition directory_source `{D : Digests} `{LF : LibraryFs} (libraries : list LibraryConfig) (joined : bool)
    (describe : option ScanAllError -> bytes) : LibrarySource :=
  mkSource Directory (fun _ =>
    if joined then
      let? outcome := rmap_err (fun e => describe (Some e)) (scan_all libraries) in
      Ok (mkScan (so_items outcome) (so_incomplete outcome =? 0) ∅)
    else Err (describe None)).

Record Discovery : Type := mkDiscovery {
  dy_items : list Discovered;
  dy_scanned : gset MediaSource;
  dy_withdrawable : gset MediaSource;
  dy_audiences : list (MediaSource * gmap Z (list bytes));
  dy_failures : nat;
  dy_library_unreadable : option bytes
}.

Definition no_discovery : Discovery := mkDiscovery [] ∅ ∅ [] 0 None.

Definition PARTLY_LISTED : bytes :=
  bs "part of a library could not be listed — new files are still shared, but nothing is withdrawn until the whole library can be read; see the log for which directory".

(** One source's answer folded in. *)
Definition fold_source (acc : Discovery) (kind : MediaSource) (answer : result SourceScan bytes) : Discovery :=
  match answer with
  | Ok scan =>
      mkDiscovery (dy_items acc ++ sn_items scan) ({[kind]} ∪ dy_scanned acc)
        (if sn_complete scan then {[kind]} ∪ dy_withdrawable acc else dy_withdrawable acc)
        (dy_audiences acc ++ [(kind, sn_audience scan)]) (dy_failures acc)
        (if negb (sn_complete scan) && bool_decide (kind = Directory) then Some PARTLY_LISTED else dy_library_unreadable acc)
  | Err reason =>
      mkDiscovery (dy_items acc) (dy_scanned acc) (dy_withdrawable acc) (dy_audiences acc) (S (dy_failures acc))
        (if bool_decide (kind = Directory) then Some reason else dy_library_unreadable acc)
  end.

(** [Syncer::discover]. *)
Definition discover (sources : list LibrarySource) (tag : bytes) : Discovery :=
  foldl (fun acc source => fold_source acc (ls_kind source) (ls_discover source tag)) no_discovery sources.

(** ** Reports *)

Record Flagged : Type := mkFlagged { fl_hash : bytes; fl_title : bytes }.

Record SyncReport : Type := mkReport {
  sr_discovered : nat;
  sr_added : nat;
  sr_reused : nat;
  sr_unchanged : nat;
  sr_unshared : nat;
  sr_failed : nat;
  sr_sources_failed : nat;
  sr_library_unreadable : option bytes;
  sr_ended : nat;
  sr_stopped : list Flagged;
  sr_removed : list Flagged;
  sr_changed : list Flagged
}.

Definition to_summary (r : SyncReport) : RunSummary :=
  mkRunSummary (as_i64 (N.of_nat (sr_discovered r))) (as_i64 (N.of_nat (sr_added r + sr_reused r)))
    (as_i64 (N.of_nat (sr_unshared r + sr_ended r))) (as_i64 (N.of_nat (sr_failed r + sr_sources_failed r))) None.

(** [SyncReport::describe]. *)
Definition describe_report (r : SyncReport) (with_discovered : bool) : bytes * bool :=
  describe_run (to_summary r) with_discovered.

Definition has_problems (r : SyncReport) : bool := (0 <? sr_failed r) || (0 <? sr_sources_failed r).

Inductive Step : Type := StepAdded | StepReused | StepUnchanged.

(** The report with one more of a step, a failure or an ended share. *)
Definition count_step (step : Step) (r : SyncReport) : SyncReport :=
  let '(a, b, c) := match step with StepAdded => (1, 0, 0) | StepReused => (0, 1, 0) | StepUnchanged => (0, 0, 1) end in
  mkReport (sr_discovered r) (a + sr_added r) (b + sr_reused r) (c + sr_unchanged r) (sr_unshared r) (sr_failed r)
    (sr_sources_failed r) (sr_library_unreadable r) (sr_ended r) (sr_stopped r) (sr_removed r) (sr_changed r).
Definition count_failed (r : SyncReport) : SyncReport :=
  mkReport (sr_discovered r) (sr_added r) (sr_reused r) (sr_unchanged r) (sr_unshared r) (S (sr_failed r))
    (sr_sources_failed r) (sr_library_unreadable r) (sr_ended r) (sr_stopped r) (sr_removed r) (sr_changed r).
Definition count_ended (r : SyncReport) : SyncReport :=
  mkReport (sr_discovered r) (sr_added r) (sr_reused r) (sr_unchanged r) (sr_unshared r) (sr_failed r)
    (sr_sources_failed r) (sr_library_unreadable r) (S (sr_ended r)) (sr_stopped r) (sr_removed r) (sr_changed r).
Definition put_unshared (n : nat) (r : SyncReport) : SyncReport :=
  mkReport (sr_discovered r) (sr_added r) (sr_reused r) (sr_unchanged r) n (sr_failed r)
    (sr_sources_failed r) (sr_library_unreadable r) (sr_ended r) (sr_stopped r) (sr_removed r) (sr_changed r).
Definition flag (stopped removed changed : list Flagged) (r : SyncReport) : SyncReport :=
  mkReport (sr_discovered r) (sr_added r) (sr_reused r) (sr_unchanged r) (sr_unshared r) (sr_failed r)
    (sr_sources_failed r) (sr_library_unreadable r) (sr_ended r) (sr_stopped r ++ stopped) (sr_removed r ++ removed)
    (sr_changed r ++ changed).

(** ** What a pass needs *)

(** [sharerr_probe::probe], which reads a media container. *)
Class MediaProbe : Type := probe : bytes -> option MediaMeta.

(** The modification time of a file, in nanoseconds since the epoch when that is
    not before it, and its inode, or [None] for a file that cannot be read. *)
Class MediaStamps : Type := media_stamp : bytes -> option (option N * N).

Inductive SyncError `{U : UrlLib} : Type :=
| StoreFailed (what : bytes) (e : StoreError)
| ListFailed (e : ClientError)
| LimitsFailed (hash : bytes) (e : ClientError)
| TrackerFailed (e : TorrentError)
| NothingScanned
| ResolveFailed (path : bytes) (e : PathError)
| MissingFile (source : MediaSource) (path arr : bytes)
| SeedFailed (e : SeedError).

(** How an error chain reads on one line. *)
Class ErrorText `{U : UrlLib} : Type := error_text : SyncError -> bytes.

(** [FileStamp::of]. *)
Definition stamp_of (stat : option N * N) : option FileStamp :=
  nanos ← stat.1;
  nanos ← i64_try_from_u64 nanos;
  Some (mkFileStamp (Some stat.2) nanos).

Definition sidecar_roots (seeding : SeedingConfig) (libraries : list LibraryConfig) : list bytes :=
  if sg_sidecars seeding
  then map lc_path (filter (fun l => lc_kind l ∈ [LTv; LMovie]) libraries) else [].

Record Syncer (P : Type) : Type := mkSyncer {
  sy_tag : bytes;
  sy_sources : list LibrarySource;
  sy_tracker : P;
  sy_seeder : Seeder;
  sy_resolver : list PathMapping;
  sy_minute : N
}.
Arguments mkSyncer {P}.
Arguments sy_tag {P}.
Arguments sy_sources {P}.
Arguments sy_tracker {P}.
Arguments sy_seeder {P}.
Arguments sy_resolver {P}.
Arguments sy_minute {P}.

(** What every item of one pass shares ([PassContext]). *)
Record PassContext `{U : UrlLib} : Type := mkPass {
  pc_now : Z;
  pc_announce : AnnounceSet;
  pc_token_fp : option bytes;
  pc_live : gmap bytes TorrentSummary;
  pc_torrents : list TorrentSummary;
  pc_origins : gmap ItemKey ItemOrigin;
  pc_dry_run : bool
}.

Section Pass.
Context `{U : UrlLib} `{D : Digests} `{UD : UnicodeData} `{FS : FileSystem} `{TC : TorrentClient} `{FH : FriendHttp}
  `{ML : MediaListing} `{MP : MediaProbe} `{MS : MediaStamps} `{ET : !ErrorText} `{RO : RowOrder} {P : Type} `{TP : !TrackerProvider P}.

(** ** Fingerprints *)

Definition fingerprint (token : bytes) : bytes := take 12 (hex_encode (sha256 token)).

Definition token_fingerprint (announce : AnnounceSet) : option bytes :=
  token ← token_from_announce_url (primary announce); Some (fingerprint token).

(** ** Seeding limits *)

Definition upload_cap_now (sy : Syncer P) : option N := upload_limit_at (sd_seeding (sy_seeder sy)) (sy_minute sy).

Definition track_cap_in_force (sy : Syncer P) : W unit :=
  smodify (fun w =>
    let cap := upload_cap_now sy in
    let moved := match memo_cap (w_limits w) with Some previous => bool_decide (previous <> cap) | None => false end in
    set_memo (mkMemo (if moved then ∅ else memo_applied (w_limits w)) (Some cap)) w).

Definition reconcile_limits (sy : Syncer P) (hash : bytes) (reported : TorrentSummary) : W (result bool SyncError) :=
  let! applied := sgets (fun w => bool_decide (hash ∈ memo_applied (w_limits w))) in
  if applied : bool then sret (Ok false)
  else
  let goal := mkLimits (upload_cap_now sy) (sg_ratio_limit (sd_seeding (sy_seeder sy))) in
  try! sent :=
    if limits_match goal reported then sret (Ok false)
    else
      let! answer := ask (AskLimits hash goal) (fun h => answer_limits h hash goal) in
      sret (match answer with Ok _ => Ok true | Err e => Err (LimitsFailed hash e) end) in
  let! noted := smodify (fun w => set_memo (mkMemo ({[hash]} ∪ memo_applied (w_limits w)) (memo_cap (w_limits w))) w) in
  sret (Ok sent).

(** ** An item already seeding *)

(** [Syncer::recover_upstream]. *)
Definition recover_and_record (sy : Syncer P) (pass : PassContext) (item : Discovered) (hash : bytes) : W (list bytes) :=
  let! upstream := recover_upstream (sy_seeder sy) hash (pc_announce pass) in
  match upstream with
  | Err _ => sret []
  | Ok upstream =>
      let upstream := default [] upstream in
      let! recorded := on_db (set_item_origin (discovered_key item) (Some (mkOrigin None upstream))) in
      sret upstream
  end.

Definition record_ratio (pass : PassContext) (item : Discovered) (ratio ratio_limit : option N) : W unit :=
  let! recorded := on_db (set_ratio (pc_now pass) (discovered_key item) ratio ratio_limit) in sret tt.

Definition confirm_live (sy : Syncer P) (pass : PassContext) (item : Discovered) (known : SharedItem) (hash : bytes)
    (reported : TorrentSummary) : W unit :=
  let! upstream :=
    match pc_origins pass !! discovered_key item with
    | Some origin => sret (or_upstream origin)
    | None => if it_created_by_sharerr known then sret [] else recover_and_record sy pass item hash
    end in
  let! ratio_limit :=
    if it_created_by_sharerr known then
      let! limits := reconcile_limits sy hash reported in
      sret match limits with
           | Ok true => match sg_ratio_limit (sd_seeding (sy_seeder sy)) with Some l => Some l | None => ts_ratio_limit reported end
           | _ => ts_ratio_limit reported
           end
    else sret (ts_ratio_limit reported) in
  let! refreshed := refresh_announce (sy_seeder sy) hash (pc_announce pass) upstream in
  match refreshed with
  | Ok RefreshCurrent | Ok RefreshUpdated =>
      let! confirmed := on_db (confirm_seeding (pc_now pass) (discovered_key item) (pc_token_fp pass) (ts_ratio reported) ratio_limit) in
      sret tt
  | _ => record_ratio pass item (ts_ratio reported) ratio_limit
  end.

(** ** Sharing an item *)

Definition store_try {A : Type} (what : bytes) (m : DbM (result A StoreError)) : W (result A SyncError) :=
  let! r := on_db m in sret (rmap_err (StoreFailed what) r).

Definition put_media (media : option MediaMeta) (d : Discovered) : Discovered :=
  mkDiscovered (d_source d) (d_source_id d) (d_file_id d) (d_spec d) (d_arr_path d) (d_size d) (d_ids d) (d_scene_name d)
    (d_original_path d) media (d_scene d).

(** The item with what its source could not say filled in from the file. *)
Definition fill_media (sy : Syncer P) (item : Discovered) : W Discovered :=
  match d_media item, resolve_for (sy_resolver sy) (d_source item) (d_arr_path item) with
  | None, Ok paths =>
      let! joined := io_ok in
      sret (if joined : bool then match probe (rp_sharerr paths) with Some media => put_media (Some media) item | None => item end
            else item)
  | _, _ => sret item
  end.

(** What is recorded of each outcome: the step, the privacy, the stamp, whether the
    torrent is sharerr's own, its v2 hash and its origin. *)
Definition outcome_record (o : SeedOutcome) (stamp : option FileStamp)
  : Step * option bool * option FileStamp * bool * option bytes * option ItemOrigin :=
  match o with
  | Added _ added => (StepAdded, Some (at_private added), stamp, true, at_info_hash_v2 added, None)
  | Reused _ upstream => (StepReused, None, None, false, None, Some (mkOrigin None upstream))
  | Joined _ origin (Some added) => (StepReused, Some (at_private added), stamp, true, at_info_hash_v2 added, Some origin)
  | Joined _ origin None => (StepReused, None, None, false, None, Some origin)
  end.

(** The end of [share]: the seeded torrent recorded. *)
Definition record_outcome (pass : PassContext) (key : ItemKey) (outcome : SeedOutcome) (stamp : option FileStamp)
  : W (result Step SyncError) :=
  let '(step, private, stamp, created, v2, origin) := outcome_record outcome stamp in
  try! seeding := store_try [] (set_seeding (pc_now pass) key (outcome_hash outcome) (pc_token_fp pass) created private) in
  try! second :=
    match v2 with
    | Some v2 => store_try [] (set_info_hash_v2 (pc_now pass) key v2)
    | None => sret (Ok tt)
    end in
  try! from := store_try [] (set_item_origin key origin) in
  let! stamped := on_db (set_file_stamp (pc_now pass) key stamp) in
  sret (Ok step).

(** Whether an item is already seeding under a torrent the client reports. *)
Definition live_torrent (pass : PassContext) (known : option SharedItem) : option (SharedItem * bytes * TorrentSummary) :=
  known ← known;
  if bool_decide (it_state known = Seeding) then
    hash ← it_info_hash known;
    reported ← pc_live pass !! hash;
    Some (known, hash, reported)
  else None.

(** [share] past the fast path. *)
Definition share_anew (sy : Syncer P) (pass : PassContext) (item : Discovered) (known : option SharedItem) : W (result Step SyncError) :=
  let! item := fill_media sy item in
  let release_title := resolve_title (d_spec item) (d_scene_name item) (d_original_path item) (d_media item) (d_arr_path item) (d_scene item) in
  try! recorded :=
    if pc_dry_run pass then sret (Ok 0%Z)
    else store_try [] (upsert (pc_now pass) (into_shared_item item release_title)) in
  try! paths := sret (rmap_err (ResolveFailed (d_arr_path item)) (resolve_for (sy_resolver sy) (d_source item) (d_arr_path item))) in
  if negb (bool_decide (is_Some (res_ok (metadata (rp_sharerr paths))))) then sret (Err (MissingFile (d_source item) (rp_sharerr paths) (rp_arr paths)))
  else if pc_dry_run pass then sret (Ok StepAdded)
  else
  let stamp := media_stamp (rp_sharerr paths) ≫= stamp_of in
  let! matches := on_db (catalog_matches (d_spec item) (d_ids item) (d_size item)) in
  let friends := mkFriends (match matches with Ok matches => matches | Err _ => [] end) (pc_origins pass !! discovered_key item) in
  let! outcome := seed (sy_seeder sy) paths (pc_announce pass) (pc_torrents pass) (known ← known; it_info_hash known) (d_media item) friends in
  match outcome with
  | Err e => sret (Err (SeedFailed e))
  | Ok outcome => record_outcome pass (discovered_key item) outcome stamp
  end.

(** [Syncer::share]. *)
Definition share (sy : Syncer P) (pass : PassContext) (item : Discovered) (known : option SharedItem) : W (result Step SyncError) :=
  match live_torrent pass known with
  | Some (known, hash, reported) =>
      let! confirmed := if pc_dry_run pass then sret tt else confirm_live sy pass item known hash reported in
      sret (Ok StepUnchanged)
  | None => share_anew sy pass item known
  end.

(** ** Watching *)

(** [Syncer::watch]: what has happened to a torrent sharerr built. *)
Definition watch (sy : Syncer P) (pass : PassContext) (stamps : gmap ItemKey FileStamp) (item : Discovered)
    (known : option SharedItem) (report : SyncReport) : W SyncReport :=
  match (known ← known; hash ← it_info_hash known; Some (known, hash)) with
  | None => sret report
  | Some (known, hash) =>
      if bool_decide (it_state known <> Seeding) || negb (it_created_by_sharerr known) then sret report
      else
      let flagged := mkFlagged hash (it_release_title known) in
      match pc_live pass !! hash with
      | None => sret (flag [] [flagged] [] report)
      | Some torrent =>
          let report := if ts_is_stopped torrent then flag [flagged] [] [] report else report in
          match resolve_for (sy_resolver sy) (d_source item) (d_arr_path item) with
          | Err _ => sret report
          | Ok paths =>
              match media_stamp (rp_sharerr paths) ≫= stamp_of with
              | None => sret report
              | Some now =>
                  match stamps !! item_key known with
                  | Some built => sret (if bool_decide (built <> now) then flag [] [] [flagged] report else report)
                  | None =>
                      if pc_dry_run pass then sret report
                      else
                        let! recorded := on_db (set_file_stamp (pc_now pass) (discovered_key item) (Some now)) in
                        sret report
                  end
              end
          end
      end
  end.

(** ** Withdrawing *)

(** Taking sharerr's own torrent out of the client; a failure is only logged. *)
Definition remove_own (item : SharedItem) : W unit :=
  match it_info_hash item, it_created_by_sharerr item with
  | Some hash, true => let! removed := ask (AskRemove hash) (fun h => answer_remove h hash) in sret tt
  | _, _ => sret tt
  end.

Definition unshare_one (now : Z) (item : SharedItem) : W (result unit StoreError) :=
  let! removed := remove_own item in
  on_db (set_state now (item_key item) Unshared None).

Definition prepare_rebuild (now : Z) (item : SharedItem) : W (result unit StoreError) :=
  let! removed := remove_own item in
  on_db (reset_for_rebuild now (item_key item)).

(** What [withdraw_untagged] finds stale. *)
Definition stale_item (tagged : gset ItemKey) (withdrawable : gset MediaSource) (item : SharedItem) : bool :=
  bool_decide (it_source item ∈ withdrawable) && negb (bool_decide (item_key item ∈ tagged))
  && bool_decide (it_state item ∈ [Seeding; Pending; Failed]).

Definition withdraw_one (now : Z) (dry_run : bool) (count : nat) (item : SharedItem) : W nat :=
  if dry_run then sret (S count)
  else
    let! withdrawn := unshare_one now item in
    sret (match withdrawn with Ok _ => S count | Err _ => count end).

Definition withdraw_untagged (now : Z) (known : gmap ItemKey SharedItem) (tagged : gset ItemKey)
    (withdrawable : gset MediaSource) (dry_run : bool) : W nat :=
  sfold (withdraw_one now dry_run)
    (filter (fun item => stale_item tagged withdrawable item = true) (map snd (rows_of known))) 0.

(** ** One pass *)

(** The end of a share whose date has passed. *)
Definition end_share (pass : PassContext) (known : option SharedItem) (report : SyncReport) : W SyncReport :=
  match known with
  | Some known =>
      if bool_decide (it_state known = Unshared) then sret report
      else if pc_dry_run pass then sret (count_ended report)
      else
        let! ended := unshare_one (pc_now pass) known in
        sret (match ended with Ok _ => count_ended report | Err _ => report end)
  | None => sret report
  end.

Definition share_over (now : Z) (ends : gmap ItemKey Z) (item : Discovered) : bool :=
  match ends !! discovered_key item with Some until => (until <=? now)%Z | None => false end.

(** The body of the loop over discovered items. *)
Definition visit_item (sy : Syncer P) (pass : PassContext) (stamps : gmap ItemKey FileStamp) (ends : gmap ItemKey Z)
    (known : gmap ItemKey SharedItem) (report : SyncReport) (item : Discovered) : W SyncReport :=
  let was := known !! discovered_key item in
  if share_over (pc_now pass) ends item then end_share pass was report
  else
  let! report := watch sy pass stamps item was report in
  let! step := share sy pass item was in
  match step with
  | Ok step => sret (count_step step report)
  | Err e =>
      let! noted :=
        if pc_dry_run pass then sret (Ok tt)
        else on_db (set_state (pc_now pass) (discovered_key item) Failed (Some (error_text e))) in
      sret (count_failed report)
  end.

Definition record_audience (unit_so_far : result unit SyncError) (found : MediaSource * gmap Z (list bytes)) : W (result unit SyncError) :=
  match unit_so_far with
  | Err e => sret (Err e)
  | Ok _ => store_try (bs "recording who its items are for") (replace_audience found.1 found.2)
  end.

(** [live]: the client's torrents by lower-case hash, later ones winning. *)
Definition live_by_hash (torrents : list TorrentSummary) : gmap bytes TorrentSummary :=
  foldl (fun m t => <[str_to_ascii_lowercase (ts_hash t) := t]> m) ∅ torrents.

(** A stored item with its hash in lower case. *)
Definition fold_hash (item : SharedItem) : SharedItem :=
  mkItem (it_id item) (it_source item) (it_source_id item) (it_file_id item) (it_spec item) (it_release_title item)
    (it_arr_path item) (it_size item) (it_ids item) (str_to_ascii_lowercase <$> it_info_hash item)
    (it_announce_token_fp item) (it_created_by_sharerr item) (it_state item) (it_last_error item) (it_created_at item)
    (it_media item) (it_achieved_ratio item) (it_ratio_limit_reported item) (it_private item).

Definition known_by_key (items : list SharedItem) : gmap ItemKey SharedItem :=
  foldl (fun m item => <[item_key item := fold_hash item]> m) ∅ items.

(** [reconcile] once everything was read. *)
Definition apply_pass (sy : Syncer P) (pass : PassContext) (discovery : Discovery) (stamps : gmap ItemKey FileStamp)
    (ends : gmap ItemKey Z) (known : gmap ItemKey SharedItem) : W SyncReport :=
  let report := mkReport (length (dy_items discovery)) 0 0 0 0 0 (dy_failures discovery) (dy_library_unreadable discovery) 0 [] [] [] in
  let! report := sfold (visit_item sy pass stamps ends known) (dy_items discovery) report in
  let tagged := list_to_set (map discovered_key (dy_items discovery)) in
  let! unshared := withdraw_untagged (pc_now pass) known tagged (dy_withdrawable discovery) (pc_dry_run pass) in
  sret (put_unshared unshared report).

Definition reconcile (sy : Syncer P) (now : Z) (dry_run : bool) : W (result SyncReport SyncError) :=
  let! tracked := if dry_run then sret tt else track_cap_in_force sy in
  try! ready := sret (rmap_err TrackerFailed (ensure_ready (sy_tracker sy))) in
  try! announce := sret (rmap_err TrackerFailed (announce_set (sy_tracker sy))) in
  let discovery := discover (sy_sources sy) (sy_tag sy) in
  let! torrents := ask AskList answer_list in
  let! known := on_db all_items in
  let! stamps := on_db file_stamps in
  let! ends := on_db share_ends in
  let! origins := on_db item_origins in
  let stamps := match stamps with Ok stamps => stamps | Err _ => ∅ end in
  if bool_decide (dy_scanned discovery = ∅) then sret (Err NothingScanned)
  else
  try! ends := sret (rmap_err (StoreFailed (bs "reading share-until dates")) ends) in
  try! origins := sret (rmap_err (StoreFailed (bs "reading which friends' swarms items joined")) origins) in
  try! audiences := if dry_run then sret (Ok tt) else sfold record_audience (dy_audiences discovery) (Ok tt) in
  try! torrents := sret (rmap_err ListFailed torrents) in
  try! known := sret (rmap_err (StoreFailed []) known) in
  let pass := mkPass _ now announce (token_fingerprint announce) (live_by_hash torrents) torrents origins dry_run in
  let! report := apply_pass sy pass discovery stamps ends (known_by_key known) in
  sret (Ok report).

(** [Syncer::run]. *)
Definition run (sy : Syncer P) (now : Z) (dry_run : bool) : W (result SyncReport SyncError) :=
  try! run_id := if dry_run then sret (Ok None)
                 else (let! id := store_try [] (begin_run now) in sret (let? id := id in Ok (Some id))) in
  let! outcome := reconcile sy now dry_run in
  let! closed :=
    match run_id with
    | Some run_id =>
        let summary := match outcome with
                       | Ok report => to_summary report
                       | Err e => mkRunSummary 0 0 0 0 (Some (error_text e))
                       end in
        on_db (finish_run now run_id summary)
    | None => sret (Ok tt)
    end in
  sret outcome.

End Pass.

(** ** Facts: which rows and which torrents a pass reaches *)

(** Only rows under these keys changed. *)
Definition only_keys (K : ItemKey -> Prop) : relation Db :=
  fun db db' => forall key, ~ K key -> db_items db' !! key = db_items db !! key.

#[export] Instance only_keys_preorder K : PreOrder (only_keys K).
Proof. split; [done|]. intros a b c H1 H2 key Hk. rewrite H2, H1 by done. done. Qed.

Lemma update_row_only K set key db : K key -> only_keys K db (update_row set key db).2.
Proof.
  intros HK key' Hk. unfold update_row. destruct (db_items db !! key); [|done]. cbn.
  apply lookup_insert_ne. intros Heq. by subst key'.
Qed.

Lemma update_item_only K now set key : K key -> moves (tables (only_keys K)) (update_item now set key).
Proof. intros HK. apply moves_query; [apply _|]. intros db. by apply update_row_only. Qed.

Lemma upsert_only K now item : K (item_key item) -> moves (tables (only_keys K)) (upsert now item).
Proof.
  intros HK. apply moves_query; [apply _|]. intros db key Hk. unfold upsert_statement.
  destruct (db_items db !! item_key item); cbn; apply lookup_insert_ne; intros Heq; by subst key.
Qed.

Lemma set_origin_only K key origin : moves (tables (only_keys K)) (set_item_origin key origin).
Proof.
  destruct origin; [|apply moves_execute; [apply _|done]].
  apply moves_query; [apply _|]. intros db. by destruct (known_peer _ db).
Qed.

Lemma replace_audience_only K source found : moves (tables (only_keys K)) (replace_audience source found).
Proof. unfold replace_audience. repeat moves_step. case_bool_decide; repeat moves_step. done. Qed.

Lemma begin_run_only K now : moves (tables (only_keys K)) (begin_run now).
Proof. unfold begin_run. apply moves_query; [apply _|]. by intros db. Qed.

Lemma finish_run_only K now id summary : moves (tables (only_keys K)) (finish_run now id summary).
Proof.
  unfold finish_run. repeat moves_step.
  - intros db. unfold finish_run_statement. by destruct (tb_rows _ !! _).
  - case_match; repeat moves_step. done.
Qed.

Section PassFacts.
Context `{U : UrlLib} `{D : Digests} `{UD : UnicodeData} `{FS : FileSystem} `{TC : TorrentClient} `{FH : FriendHttp}
  `{ML : MediaListing} `{MP : MediaProbe} `{MS : MediaStamps} `{ET : !ErrorText} `{RO : RowOrder} {P : Type} `{TP : !TrackerProvider P}.

(** The store moved by [R], and only such calls were made. *)
Definition touches (R : relation Db) (C : ClientCall -> Prop) : relation World :=
  fun w w' => R (w_db w) (w_db w') /\ exists new, w_calls w' = w_calls w ++ new /\ Forall C new.

Context (R : relation Db) `{!PreOrder R} (C : ClientCall -> Prop).

#[export] Instance touches_preorder : PreOrder (touches R C).
Proof.
  split.
  - intros w. split; [reflexivity|]. exists []. by rewrite app_nil_r.
  - intros a b c (D1 & l1 & E1 & H1) (D2 & l2 & E2 & H2). split; [by etransitivity|].
    exists (l1 ++ l2). rewrite E2, E1, app_assoc. split; [done|]. by apply Forall_app.
Qed.

Lemma touches_asks {A : Type} (C' : ClientCall -> Prop) (m : W A) :
  (forall c, C' c -> C c) -> moves (asks C') m -> moves (touches R C) m.
Proof.
  intros HC Hm w. destruct (Hm w) as (Hd & _ & new & Hn & Hf). split; [by rewrite Hd|].
  exists new. split; [done|]. by eapply Forall_impl.
Qed.

Lemma touches_db {A : Type} (m : DbM A) : moves (tables R) m -> moves (touches R C) (on_db m).
Proof.
  intros Hm. apply moves_focus. intros w. split; [apply (Hm (w_db w, w_script w))|].
  exists []. by rewrite app_nil_r.
Qed.

Lemma touches_modify f : (forall w, w_db (f w) = w_db w /\ w_calls (f w) = w_calls w) -> moves (touches R C) (smodify f).
Proof.
  intros H. apply moves_modify. intros w. destruct (H w) as [Hd Hc]. unfold touches. rewrite Hd, Hc.
  split; [reflexivity|]. exists []. by rewrite app_nil_r.
Qed.

Lemma touches_io : moves (touches R C) io_ok.
Proof. eapply touches_asks; [|apply (asks_io (fun _ => False))]. done. Qed.

Lemma touches_ask {A : Type} call (answer : list ClientCall -> A) : C call -> moves (touches R C) (ask call answer).
Proof. intros HC. eapply touches_asks; [|by apply (asks_ask C)]. done. Qed.

End PassFacts.

(** Steps of a [touches] goal; rows and calls are left. *)
Ltac touches_step :=
  first
    [ apply moves_ret; apply _
    | apply moves_gets; apply _
    | apply touches_io; apply _
    | apply touches_db; first [apply moves_select; apply _ | apply update_item_only | apply upsert_only | apply set_origin_only
                              | apply replace_audience_only | apply begin_run_only | apply finish_run_only]
    | apply touches_modify; [apply _|done]
    | apply touches_ask; [apply _|]
    | eapply moves_try_ret; [apply _|intros ? ?]
    | eapply moves_try; [apply _| |intros ?]
    | eapply moves_bind; [apply _| |intros ?]
    | case_match ].

Section ConfirmReach.
Context `{U : UrlLib} `{D : Digests} `{UD : UnicodeData} `{FS : FileSystem} `{TC : TorrentClient} `{FH : FriendHttp}
  `{ML : MediaListing} `{MP : MediaProbe} `{MS : MediaStamps} `{ET : !ErrorText} `{RO : RowOrder} {P : Type} `{TP : !TrackerProvider P}.
Context (sy : Syncer P) (pass : PassContext) (R : relation Db) `{!PreOrder R} (C : ClientCall -> Prop).

(** What confirming a live torrent may ask. *)
Definition refresh_call (c : ClientCall) : bool :=
  match c with AskList | AskExport _ | AskSetTrackers _ _ | AskLimits _ _ => true | _ => false end.

Hypothesis refresh_calls : forall c, refresh_call c = true -> C c.

Lemma refresh_touches hash announce upstream : moves (touches R C) (refresh_announce (sy_seeder sy) hash announce upstream).
Proof.
  apply touches_asks with (C' := C); [apply _|done|]. unfold refresh_announce, is_confirmed, mark_confirmed, client_try, cache_try.
  repeat (apply asks_read_cached || apply asks_write || asks_step). by apply refresh_calls.
Qed.

Lemma recover_touches hash announce : moves (touches R C) (recover_upstream (sy_seeder sy) hash announce).
Proof.
  apply touches_asks with (C' := C); [apply _|done|]. unfold recover_upstream, client_try, cache_try.
  repeat (apply asks_read_cached || asks_step). by apply refresh_calls.
Qed.

Lemma limits_touch hash reported : moves (touches R C) (reconcile_limits sy hash reported).
Proof. unfold reconcile_limits. repeat touches_step. by apply refresh_calls. Qed.

(** The row updates [confirm_live] may make. *)
Hypothesis origins_move : forall key origin, moves (tables R) (set_item_origin key origin).

Lemma confirm_touches item known hash reported :
  (forall now fp ratio limit, moves (tables R) (confirm_seeding now (discovered_key item) fp ratio limit)) ->
  (forall now ratio limit, moves (tables R) (set_ratio now (discovered_key item) ratio limit)) ->
  moves (touches R C) (confirm_live sy pass item known hash reported).
Proof.
  intros Hc Hr. unfold confirm_live, recover_and_record, record_ratio.
  repeat first [apply refresh_touches|apply recover_touches|apply limits_touch|touches_step
    |apply touches_db, Hc|apply touches_db, Hr|apply touches_db, origins_move].
Qed.

Lemma watch_touches stamps item known report :
  (forall now stamp, moves (tables R) (set_file_stamp now (discovered_key item) stamp)) ->
  moves (touches R C) (watch sy pass stamps item known report).
Proof. intros Hs. unfold watch. repeat first [touches_step|apply touches_db, Hs]. Qed.

End ConfirmReach.

Section PassReach.
Context `{U : UrlLib} `{D : Digests} `{UD : UnicodeData} `{FS : FileSystem} `{TC : TorrentClient} `{FH : FriendHttp}
  `{ML : MediaListing} `{MP : MediaProbe} `{MS : MediaStamps} `{ET : !ErrorText} `{RO : RowOrder} {P : Type} `{TP : !TrackerProvider P}.
Context (sy : Syncer P) (pass : PassContext) (K : ItemKey -> Prop) (C : ClientCall -> Prop).
Hypothesis other_calls : forall c, (forall h, c <> AskRemove h) -> C c.

Lemma seed_touches paths announce torrents known media friends :
  moves (touches (only_keys K) C) (seed (sy_seeder sy) paths announce torrents known media friends).
Proof.
  eapply touches_asks; [apply _| |apply asks_seed]. intros c Hc. apply other_calls. intros h ->. by inversion Hc.
Qed.

Lemma fill_media_key item w : discovered_key (fill_media sy item w).1 = discovered_key item.
Proof.
  unfold fill_media. destruct (d_media item); [done|]. destruct (resolve_for _ _ _); [|done].
  unfold sbind. destruct (io_ok w) as [[] ?]; [|done]. cbn. by destruct (probe _).
Qed.

Lemma fill_media_touches item : moves (touches (only_keys K) C) (fill_media sy item).
Proof. unfold fill_media. repeat touches_step. Qed.

Lemma record_touches key outcome stamp : K key -> moves (touches (only_keys K) C) (record_outcome pass key outcome stamp).
Proof. intros HK. unfold record_outcome, store_try. repeat first [touches_step|done]. Qed.

Lemma share_touches item known : K (discovered_key item) -> moves (touches (only_keys K) C) (share sy pass item known).
Proof.
  intros HK. unfold share. destruct (live_torrent pass known) as [[[k hash] reported]|].
  { apply moves_bind; [apply _| |intros; apply moves_ret; apply _].
    destruct (pc_dry_run pass); [apply moves_ret; apply _|]. apply confirm_touches.
    - apply _.
    - intros c Hc. apply other_calls. by intros h ->.
    - intros. apply set_origin_only.
    - intros. by apply update_item_only.
    - intros. by apply update_item_only. }
  unfold share_anew. apply moves_bind_run; [apply _|apply fill_media_touches|]. intros w.
  pose proof (fill_media_key item w) as Hkey. destruct (fill_media sy item w) as [item' w']. cbn [fst] in *.
  rewrite <- Hkey in HK. unfold store_try.
  repeat first [apply seed_touches|apply record_touches; done|touches_step|exact HK].
Qed.

(** An item that may be withdrawn: its row is in reach, and so is its torrent
    when sharerr made it. *)
Definition withdrawable_item (item : SharedItem) : Prop :=
  K (item_key item) /\ (it_created_by_sharerr item = true -> forall h, it_info_hash item = Some h -> C (AskRemove h)).

Lemma unshare_touches now item : withdrawable_item item -> moves (touches (only_keys K) C) (unshare_one now item).
Proof.
  intros [HK HC]. unfold unshare_one, remove_own. destruct (it_info_hash item), (it_created_by_sharerr item);
    repeat first [touches_step|done]. by apply HC.
Qed.

Lemma visit_touches stamps ends known report item :
  K (discovered_key item) ->
  (forall k, known !! discovered_key item = Some k -> share_over (pc_now pass) ends item = true -> it_state k <> Unshared ->
     withdrawable_item k) ->
  moves (touches (only_keys K) C) (visit_item sy pass stamps ends known report item).
Proof.
  intros HK Hend. unfold visit_item. destruct (share_over _ _ _) eqn:Ho.
  - unfold end_share. destruct (known !! _) as [k|]; [|touches_step].
    case_bool_decide as Hs; [touches_step|]. repeat first [apply unshare_touches; by apply Hend|touches_step].
  - repeat first [apply watch_touches; [apply _|intros; by apply update_item_only]|apply share_touches; done|touches_step|done].
Qed.

Lemma withdraw_touches now known tagged withdrawable dry_run :
  (forall key item, (key, item) ∈ rows_of known -> stale_item tagged withdrawable item = true -> withdrawable_item item) ->
  moves (touches (only_keys K) C) (withdraw_untagged now known tagged withdrawable dry_run).
Proof.
  intros H. apply moves_fold; [apply _|]. intros n item Hin.
  apply list_elem_of_filter in Hin as [Hst Hin]. apply list_elem_of_fmap in Hin as ([key i] & -> & Hin).
  unfold withdraw_one. repeat first [apply unshare_touches; by eapply H|touches_step].
Qed.

End PassReach.

(** ** Facts: what a pass reads *)

Section Sources.
Context (sources : list LibrarySource) (tag : bytes).

(** Some source lists a file under this key. *)
Definition listed (key : ItemKey) : Prop :=
  exists s scan item, s ∈ sources /\ ls_discover s tag = Ok scan /\ item ∈ sn_items scan /\ discovered_key item = key.

(** A source of this kind listed everything it has. *)
Definition answered_fully (kind : MediaSource) : Prop :=
  exists s scan, s ∈ sources /\ ls_kind s = kind /\ ls_discover s tag = Ok scan /\ sn_complete scan = true.

End Sources.

Lemma discover_app sources s tag :
  discover (sources ++ [s]) tag = fold_source (discover sources tag) (ls_kind s) (ls_discover s tag).
Proof. unfold discover. by rewrite foldl_app. Qed.

Lemma discover_items sources tag item :
  item ∈ dy_items (discover sources tag) <->
  exists s scan, s ∈ sources /\ ls_discover s tag = Ok scan /\ item ∈ sn_items scan.
Proof.
  induction sources as [|s sources IH] using rev_ind; [split; [by intros ?%not_elem_of_nil|by intros (? & ? & ?%not_elem_of_nil & _)]|].
  rewrite discover_app. setoid_rewrite elem_of_app. setoid_rewrite list_elem_of_singleton.
  destruct (ls_discover s tag) as [scan|e] eqn:E; cbn [fold_source dy_items].
  - rewrite elem_of_app, IH. split.
    + intros [(s' & scan' & ?)|?]; [exists s', scan'|exists s, scan]; naive_solver.
    + intros (s' & scan' & [?| ->] & ?); [left; naive_solver|]. rewrite E in *. naive_solver.
  - rewrite IH. split; intros (s' & scan' & ?); exists s', scan'; [naive_solver|].
    destruct_and!. destruct_or!; [done|]. subst. congruence.
Qed.

Lemma discover_keys sources tag key :
  key ∈ map discovered_key (dy_items (discover sources tag)) <-> listed sources tag key.
Proof.
  rewrite list_elem_of_fmap. setoid_rewrite discover_items. unfold listed. naive_solver.
Qed.

Lemma discover_withdrawable sources tag kind :
  kind ∈ dy_withdrawable (discover sources tag) <-> answered_fully sources tag kind.
Proof.
  unfold answered_fully. induction sources as [|s sources IH] using rev_ind.
  { split; [by intros ?%not_elem_of_empty|by intros (? & ? & ?%not_elem_of_nil & _)]. }
  rewrite discover_app. setoid_rewrite elem_of_app. setoid_rewrite list_elem_of_singleton.
  assert (kind ∈ dy_withdrawable (fold_source (discover sources tag) (ls_kind s) (ls_discover s tag)) <->
    kind ∈ dy_withdrawable (discover sources tag) \/
    (ls_kind s = kind /\ exists scan, ls_discover s tag = Ok scan /\ sn_complete scan = true)) as ->.
  { destruct (ls_discover s tag) as [scan|e]; cbn [fold_source dy_withdrawable]; [|naive_solver].
    destruct (sn_complete scan) eqn:Hc; [|naive_solver congruence]. rewrite elem_of_union, elem_of_singleton. naive_solver. }
  rewrite IH. split.
  - intros [(s' & scan' & ?)|(? & scan' & ? & ?)]; [exists s', scan'|exists s, scan']; naive_solver.
  - intros (s' & scan' & [?| ->] & ?); [left|right]; naive_solver.
Qed.

Lemma discover_nothing sources tag :
  dy_scanned (discover sources tag) = ∅ <-> forall s scan, s ∈ sources -> ls_discover s tag <> Ok scan.
Proof.
  induction sources as [|s sources IH] using rev_ind; [split; [by intros _ ? ? ?%not_elem_of_nil|done]|].
  rewrite discover_app. setoid_rewrite elem_of_app. setoid_rewrite list_elem_of_singleton.
  destruct (ls_discover s tag) as [scan|e] eqn:E; cbn [fold_source dy_scanned].
  - split; [set_solver|]. intros H. by destruct (H s scan (or_intror eq_refl)).
  - rewrite IH. split; [|naive_solver]. intros H s' scan' [?| ->]; [by apply H|congruence].
Qed.

Lemma foldl_insert_inv {K A B : Type} `{Countable K} (f : A -> K) (g : A -> B) (l : list A) (m : gmap K B) k v :
  foldl (fun m x => <[f x := g x]> m) m l !! k = Some v -> (exists x, x ∈ l /\ f x = k /\ v = g x) \/ m !! k = Some v.
Proof.
  revert m. induction l as [|x l IH]; intros m; cbn; [auto|].
  intros [(y & ? & ?)|Hi]%IH; [left; exists y; set_solver|].
  apply lookup_insert_Some in Hi as [[<- <-]|[_ ?]]; [|auto]. left. exists x. set_solver.
Qed.

Lemma rows_of_lookup `{RO : RowOrder} `{!RowOrderLaws RO} {K V : Type} `{Countable K} (m : gmap K V) k v :
  (k, v) ∈ rows_of m <-> m !! k = Some v.
Proof. rewrite rows_of_perm. apply elem_of_map_to_list. Qed.

(** What is known of an item is what its row says, hash in lower case. *)
Lemma known_row `{RO : RowOrder} `{!RowOrderLaws RO} db key item :
  known_by_key (map (fun kr => row_to_item kr.1 kr.2) (rows_of (db_items db))) !! key = Some item ->
  exists r, db_items db !! key = Some r /\ item = fold_hash (row_to_item key r).
Proof.
  intros [(x & Hx & Hk & ->)|?]%foldl_insert_inv; [|done].
  apply list_elem_of_fmap in Hx as ([key' r] & -> & Hr). apply rows_of_lookup in Hr.
  assert (key' = key) as -> by (by destruct key'). by exists r.
Qed.

Section Reach.
Context `{U : UrlLib} `{D : Digests} `{UD : UnicodeData} `{FS : FileSystem} `{TC : TorrentClient} `{FH : FriendHttp}
  `{ML : MediaListing} `{MP : MediaProbe} `{MS : MediaStamps} `{ET : !ErrorText} `{RO : RowOrder} `{RL : !RowOrderLaws RO}
  {P : Type} `{TP : !TrackerProvider P}.
Context (sy : Syncer P) (now : Z).

(** The rows a pass may write. *)
Definition in_reach (key : ItemKey) : Prop :=
  listed (sy_sources sy) (sy_tag sy) key \/ answered_fully (sy_sources sy) (sy_tag sy) key.1.

(** A torrent of sharerr's own whose share is over: its date has passed, or its
    source listed everything and no longer has the file. *)
Definition own_ended (db : Db) (h : bytes) : Prop :=
  exists key r hash, db_items db !! key = Some r /\ tor_created_by_sharerr (r_torrent r) = true /\
    tor_info_hash (r_torrent r) = Some hash /\ h = str_to_ascii_lowercase hash /\ r_state r <> Unshared /\
    ((listed (sy_sources sy) (sy_tag sy) key /\ exists until, r_share_until r = Some until /\ (until <= now)%Z) \/
     (~ listed (sy_sources sy) (sy_tag sy) key /\ answered_fully (sy_sources sy) (sy_tag sy) key.1)).

(** What the client may be asked: anything but to remove a torrent, except these. *)
Definition removes_only (db : Db) (c : ClientCall) : Prop := forall h, c = AskRemove h -> own_ended db h.

Lemma removes_only_other db c : (forall h, c <> AskRemove h) -> removes_only db c.
Proof. intros H h ->. by destruct (H h). Qed.

Definition known_of (db : Db) : gmap ItemKey SharedItem :=
  known_by_key (map (fun kr => row_to_item kr.1 kr.2) (rows_of (db_items db))).

(** A stale item is one whose source listed everything but it. *)
Lemma stale_row db key item :
  (key, item) ∈ rows_of (known_of db) ->
  stale_item (list_to_set (map discovered_key (dy_items (discover (sy_sources sy) (sy_tag sy)))))
    (dy_withdrawable (discover (sy_sources sy) (sy_tag sy))) item = true ->
  exists r, db_items db !! key = Some r /\ item = fold_hash (row_to_item key r) /\ item_key item = key /\
    ~ listed (sy_sources sy) (sy_tag sy) key /\ answered_fully (sy_sources sy) (sy_tag sy) key.1 /\ r_state r <> Unshared.
Proof.
  intros (r & Hr & ->)%rows_of_lookup%known_row [[Hw Htag]%andb_prop Hs]%andb_prop.
  apply bool_decide_eq_true in Hw, Hs. apply negb_true_iff, bool_decide_eq_false in Htag.
  assert (item_key (fold_hash (row_to_item key r)) = key) as Hkey by (by destruct key).
  rewrite Hkey, elem_of_list_to_set, discover_keys in Htag. apply discover_withdrawable in Hw.
  exists r. split_and!; try done. intros Hun. cbn in Hs. rewrite Hun, !elem_of_cons in Hs.
  naive_solver (by eapply not_elem_of_nil).
Qed.

Lemma apply_pass_reach db pass stamps :
  pc_now pass = now ->
  moves (touches (only_keys in_reach) (removes_only db))
    (apply_pass sy pass (discover (sy_sources sy) (sy_tag sy)) stamps (omap r_share_until (db_items db)) (known_of db)).
Proof.
  intros Hnow. pose proof (removes_only_other db) as Hother. unfold apply_pass.
  eapply moves_bind; [apply _| |intros report; eapply moves_bind; [apply _| |intros n; apply moves_ret; apply _]].
  - apply moves_fold; [apply _|]. intros rep item Hitem.
    assert (listed (sy_sources sy) (sy_tag sy) (discovered_key item)) as HK.
    { apply discover_keys, list_elem_of_fmap. by exists item. }
    apply visit_touches; [exact Hother|by left|]. intros k Hk Ho Hst. apply known_row in Hk as (r & Hr & ->).
    unfold share_over in Ho. rewrite lookup_omap, Hr in Ho. cbn in Ho. rewrite Hnow in Ho.
    destruct (r_share_until r) as [until|] eqn:Hu; [|done]. apply Z.leb_le in Ho.
    split; [left; by destruct item|]. intros Hc h Hh h' [= <-]. cbn in Hh.
    destruct (tor_info_hash (r_torrent r)) as [hash|] eqn:Hhash; [|done]. injection Hh as <-.
    exists (discovered_key item), r, hash. split_and!; try done. left. eauto.
  - apply withdraw_touches. intros key item Hin Hst.
    destruct (stale_row _ _ _ Hin Hst) as (r & Hr & -> & Hkey & Hnl & Hans & Hs).
    split; [right; by rewrite Hkey|]. intros Hc h Hh h' [= <-]. cbn in Hh.
    destruct (tor_info_hash (r_torrent r)) as [hash|] eqn:Hhash; [|done]. injection Hh as <-.
    exists key, r, hash. split_and!; try done. by right.
Qed.

(** A read of the store changes nothing, and what it reads is what is there. *)
Lemma on_db_select {A : Type} (f : Db -> A) w r w' :
  on_db (select f) w = (r, w') -> still w w' /\ forall a, r = Ok a -> a = f (w_db w).
Proof.
  unfold on_db, focus. destruct (select f (w_db w, w_script w)) as [r1 [db s]] eqn:E.
  apply query_inv in E as [E|(e & -> & ->)].
  - injection E as <- <-. intros [= <- <-]. split; [done|]. by intros a [= <-].
  - intros [= <- <-]. done.
Qed.

(** What has happened when everything was read: the cap was noted, the client
    asked for its list, and audiences recorded unless nothing answered. *)
Record prepared (dry_run : bool) (w w1 : World) : Prop := {
  pre_items : db_items (w_db w1) = db_items (w_db w);
  pre_db : dry_run = true \/ dy_scanned (discover (sy_sources sy) (sy_tag sy)) = ∅ -> w_db w1 = w_db w;
  pre_limits : dry_run = true -> w_limits w1 = w_limits w;
  pre_cache : w_cache w1 = w_cache w;
  pre_confirmed : w_confirmed w1 = w_confirmed w;
  pre_calls : w_calls w1 = w_calls w \/ w_calls w1 = w_calls w ++ [AskList]
}.

Lemma prepared_still dry_run w w1 w2 : prepared dry_run w w1 -> still w1 w2 -> prepared dry_run w w2.
Proof.
  intros [? ? ? ? ? Hc] (Hd & Hcf & Hl & Hcl & Hch). split; rewrite ?Hd, ?Hl, ?Hch, ?Hcf, ?Hcl; done.
Qed.

Lemma track_prepared (dry_run : bool) w w1 (u : unit) :
  (if dry_run then sret tt else track_cap_in_force sy) w = (u, w1) ->
  prepared dry_run w w1 /\ w_db w1 = w_db w /\ w_calls w1 = w_calls w.
Proof. destruct dry_run; intros [= _ <-]; (split; [|done]); split; auto; done. Qed.

(** Audiences reach neither the items, the cache nor the client. *)
Definition audience_only (w w' : World) : Prop :=
  db_items (w_db w') = db_items (w_db w) /\ w_limits w' = w_limits w /\ w_cache w' = w_cache w /\
  w_confirmed w' = w_confirmed w /\ w_calls w' = w_calls w.

#[export] Instance audience_only_preorder : PreOrder audience_only.
Proof.
  split; [done|]. intros a b c (?&?&?&?&?) (?&?&?&?&?). unfold audience_only. split_and!; congruence.
Qed.

Lemma replace_audience_items source found :
  moves (tables (fun db db' => db_items db' = db_items db)) (replace_audience source found).
Proof.
  assert (PreOrder (fun db db' : Db => db_items db' = db_items db)) as HP by (split; [done|]; intros a b c; congruence).
  unfold replace_audience. apply moves_try; [apply _|apply moves_select; apply _|intros current].
  case_bool_decide; [apply moves_ret; apply _|]. apply moves_execute; [apply _|done].
Qed.

Lemma audiences_only l r : moves audience_only (sfold record_audience l r).
Proof.
  apply moves_fold; [apply _|]. intros [u|e] found _; unfold record_audience, store_try; [|apply moves_ret; apply _].
  apply moves_bind; [apply _| |intros a; apply moves_ret; apply _].
  apply moves_focus. intros w. split_and!; try done. apply (replace_audience_items _ _ (w_db w, w_script w)).
Qed.

Lemma audiences_prepared (dry_run : bool) w w1 r w2 :
  prepared dry_run w w1 -> dy_scanned (discover (sy_sources sy) (sy_tag sy)) <> ∅ ->
  (if dry_run then sret (Ok tt) else sfold record_audience (dy_audiences (discover (sy_sources sy) (sy_tag sy))) (Ok tt)) w1 = (r, w2) ->
  prepared dry_run w w2.
Proof.
  intros Hp Hs. destruct dry_run; [by intros [= _ <-]|]. intros Ha.
  pose proof (audiences_only (dy_audiences (discover (sy_sources sy) (sy_tag sy))) (Ok tt) w1) as Hm. rewrite Ha in Hm.
  destruct Hm as (Hi & Hl & Hch & Hcf & Hcl). cbn [snd] in *. destruct Hp as [? ? ? ? ? Hc].
  split; rewrite ?Hi, ?Hl, ?Hch, ?Hcf, ?Hcl; try done. naive_solver.
Qed.

(** A pass fails having changed nothing but what [prepared] allows, or goes on
    from there with what it read. *)
Lemma reconcile_cases dry_run w r w' :
  reconcile sy now dry_run w = (r, w') ->
  (exists e, r = Err e /\ prepared dry_run w w') \/
  (exists announce torrents origins stamps report w1, r = Ok report /\ prepared dry_run w w1 /\
     w_calls w1 = w_calls w ++ [AskList] /\ dy_scanned (discover (sy_sources sy) (sy_tag sy)) <> ∅ /\
     announce_set (sy_tracker sy) = Ok announce /\ answer_list (w_calls w) = Ok torrents /\ origins = db_origins (w_db w) /\
     (stamps = omap stamp_of_row (db_items (w_db w)) \/ stamps = ∅) /\
     apply_pass sy (mkPass _ now announce (token_fingerprint announce) (live_by_hash torrents) torrents origins dry_run)
       (discover (sy_sources sy) (sy_tag sy)) stamps (omap r_share_until (db_items (w_db w))) (known_of (w_db w)) w1 = (report, w')).
Proof.
  unfold reconcile. intros (u & w1 & (Hp & D1 & C1)%track_prepared & H)%sbind_inv.
  apply try_cases in H as [(e & [= _ <-] & ->)|(ready & w2 & [= _ <-] & H)]; [by left; eauto|].
  apply try_cases in H as [(e & [= _ <-] & ->)|(announce & w2 & [= Hset <-] & H)]; [by left; eauto|].
  apply rmap_err_Ok in Hset. apply sbind_inv in H as (torrents & w2 & Hl & H).
  assert (prepared dry_run w w2) as Hp2 by (injection Hl as _ <-; destruct Hp; split; try done; right; cbn; congruence).
  assert (torrents = answer_list (w_calls w) /\ w_db w2 = w_db w /\ w_calls w2 = w_calls w ++ [AskList]) as (-> & D2 & C2)
    by (injection Hl as <- <-; cbn; rewrite C1; done).
  apply sbind_inv in H as (known & w3 & (S3 & Hknown)%on_db_select & H).
  apply sbind_inv in H as (stamps & w4 & (S4 & Hstamps)%on_db_select & H).
  apply sbind_inv in H as (ends & w5 & (S5 & Hends)%on_db_select & H).
  apply sbind_inv in H as (origins & w6 & (S6 & Horigins)%on_db_select & H).
  assert (w_db w3 = w_db w /\ w_db w4 = w_db w /\ w_db w5 = w_db w) as (D3 & D4 & D5)
    by (destruct S3, S4, S5; split_and!; congruence).
  rewrite D2 in Hknown. rewrite D3 in Hstamps. rewrite D4 in Hends. rewrite D5 in Horigins.
  assert (still w2 w6) as S by eauto using still_trans. pose proof (prepared_still _ _ _ _ Hp2 S) as Hp6.
  assert (w_calls w6 = w_calls w ++ [AskList]) as C6 by (destruct S as (_&_&_&->&_); done).
  clear Hp Hp2 S S3 S4 S5 S6. case_bool_decide as Hs; [injection H as <- <-; by left; eauto|].
  apply try_cases in H as [(e & [= _ <-] & ->)|(ends' & w7 & [= He <-] & H)]; [by left; eauto|].
  apply rmap_err_Ok, Hends in He. subst ends'.
  apply try_cases in H as [(e & [= _ <-] & ->)|(origins' & w7 & [= Ho <-] & H)]; [by left; eauto|].
  apply rmap_err_Ok, Horigins in Ho. subst origins'.
  apply try_cases in H as [(e & Ha & ->)|(u7 & w7 & Ha & H)];
    pose proof (audiences_prepared _ _ _ _ _ Hp6 Hs Ha) as Hp7; [by left; eauto|].
  apply try_cases in H as [(e & [= _ <-] & ->)|(torrents & w8 & [= Ht <-] & H)]; [by left; eauto|]. apply rmap_err_Ok in Ht.
  apply try_cases in H as [(e & [= _ <-] & ->)|(known' & w8 & [= Hk <-] & H)]; [by left; eauto|].
  apply rmap_err_Ok, Hknown in Hk. subst known'.
  apply sbind_inv in H as (report & w8 & Happ & H). injection H as <- <-. right.
  eexists announce, torrents, _, _, report, w7. split_and!; [done|done| |done|done|done|reflexivity| |exact Happ].
  - destruct dry_run; [by injection Ha as _ <-|].
    pose proof (audiences_only (dy_audiences (discover (sy_sources sy) (sy_tag sy))) (Ok tt) w6) as Hm. rewrite Ha in Hm.
    destruct Hm as (_&_&_&_&Hm). cbn in Hm. congruence.
  - destruct stamps; [left; by apply Hstamps|by right].
Qed.

Lemma prepared_touches K (C : ClientCall -> Prop) dry_run w w1 : C AskList -> prepared dry_run w w1 -> touches (only_keys K) C w w1.
Proof.
  intros HC [Hi _ _ _ _ Hc]. split; [intros key _; by rewrite Hi|].
  destruct Hc as [Hc|Hc]; rewrite Hc; [exists []|exists [AskList]]; [by rewrite app_nil_r|]. split; [done|by apply Forall_singleton].
Qed.

Lemma reconcile_reach dry_run w : touches (only_keys in_reach) (removes_only (w_db w)) w (reconcile sy now dry_run w).2.
Proof.
  destruct (reconcile sy now dry_run w) as [r w'] eqn:H. cbn [snd].
  assert (removes_only (w_db w) AskList) as HL by (by apply removes_only_other).
  apply reconcile_cases in H as [(e & _ & Hp)|(announce & torrents & origins & stamps & report & w1 & _ & Hp & _ & _ & _ & _ & _ & _ & Ha)];
    [by eapply prepared_touches|].
  transitivity w1; [by eapply prepared_touches|].
  pose proof (apply_pass_reach (w_db w) (mkPass _ now announce (token_fingerprint announce) (live_by_hash torrents) torrents
    origins dry_run) stamps eq_refl w1) as Hm. by rewrite Ha in Hm.
Qed.

Lemma touches_weaken K (C C' : ClientCall -> Prop) w w' :
  (forall c, C c -> C' c) -> touches (only_keys K) C w w' -> touches (only_keys K) C' w w'.
Proof. intros H [Hk (new & Hn & Hf)]. split; [done|]. exists new. split; [done|]. by eapply Forall_impl. Qed.

Lemma own_ended_items db db' h : db_items db' = db_items db -> own_ended db h -> own_ended db' h.
Proof. intros Hi (key & r & hash & Hr & H). exists key, r, hash. by rewrite Hi. Qed.

(** Opening a run leaves everything but the run history. *)
Lemma begin_run_world (dry_run : bool) w (r : result (option Z) SyncError) w1 :
  (if dry_run then sret (Ok None)
   else (let! id := store_try [] (begin_run now) in sret (let? id := id in Ok (Some id)))) w = (r, w1) ->
  db_items (w_db w1) = db_items (w_db w) /\ (dry_run = true -> w1 = w /\ r = Ok None) /\ w_calls w1 = w_calls w.
Proof.
  destruct dry_run; [by intros [= <- <-]|]. intros (id & w2 & Hb & [= _ <-])%sbind_inv.
  unfold store_try in Hb. apply sbind_inv in Hb as (id' & w3 & Hb & [= _ <-]).
  unfold on_db, focus in Hb. destruct (begin_run now (w_db w, w_script w)) as [r1 [db s]] eqn:E. injection Hb as _ <-.
  apply query_inv in E as [E|(e & _ & ->)]; [|done]. cbn in E. by injection E as _ <-.
Qed.

Lemma run_reach dry_run w : touches (only_keys in_reach) (removes_only (w_db w)) w (run sy now dry_run w).2.
Proof.
  destruct (run sy now dry_run w) as [r w'] eqn:H. unfold run in H. cbn [snd].
  assert (forall w1, db_items (w_db w1) = db_items (w_db w) -> w_calls w1 = w_calls w ->
    touches (only_keys in_reach) (removes_only (w_db w)) w w1) as Hb.
  { intros w1 Hi Hc. split; [intros key _; by rewrite Hi|]. exists []. by rewrite app_nil_r. }
  apply try_cases in H as [(e & (Hi & _ & Hc)%begin_run_world & ->)|(id & w1 & (Hi & _ & Hc)%begin_run_world & H)]; [by apply Hb|].
  apply sbind_inv in H as (outcome & w2 & Hr & H). apply sbind_inv in H as (closed & w3 & Hf & [= _ <-]).
  pose proof (reconcile_reach dry_run w1) as H2. rewrite Hr in H2. cbn [snd] in H2.
  transitivity w1; [by apply Hb|]. transitivity w2.
  - eapply touches_weaken, H2. intros c Hrm h ->. by eapply own_ended_items, Hrm.
  - destruct id as [id|]; [|by injection Hf as _ <-].
    match type of Hf with on_db ?m w2 = _ => pose proof (touches_db (only_keys in_reach) (removes_only (w_db w)) m
      ltac:(apply finish_run_only) w2) as H3 end. by rewrite Hf in H3.
Qed.

(** ** Facts: a dry run *)

#[export] Instance still_preorder : PreOrder still.
Proof. split; [done|]. intros a b c. apply still_trans. Qed.

Lemma still_moves_io : moves still io_ok.
Proof. intros w. destruct (io_ok w) as [b w'] eqn:E. by apply io_still in E. Qed.

Lemma dry_visit_still pass stamps ends known report item :
  pc_dry_run pass = true -> moves still (visit_item sy pass stamps ends known report item).
Proof.
  intros Hd. unfold visit_item, end_share, watch, share, share_anew, fill_media. rewrite Hd.
  repeat first [apply moves_ret; apply _|apply still_moves_io|eapply moves_try_ret; [apply _|intros ? ?]
    |eapply moves_try; [apply _| |intros ?]|eapply moves_bind; [apply _| |intros ?]|case_match].
Qed.

Lemma dry_apply_still pass discovery stamps ends known :
  pc_dry_run pass = true -> moves still (apply_pass sy pass discovery stamps ends known).
Proof.
  intros Hd. unfold apply_pass, withdraw_untagged. rewrite Hd.
  apply moves_bind; [apply _|apply moves_fold; [apply _|intros; by apply dry_visit_still]|intros report].
  apply moves_bind; [apply _|apply moves_fold; [apply _|intros; apply moves_ret; apply _]|intros n; apply moves_ret; apply _].
Qed.

(** ** Facts: counting *)

(** Items a pass has dealt with. *)
Definition tally (r : SyncReport) : nat := sr_added r + sr_reused r + sr_unchanged r + sr_failed r.

Lemma watch_counts pass stamps item known report w :
  let r := (watch sy pass stamps item known report w).1 in
  tally r = tally report /\ sr_ended r = sr_ended report /\ sr_discovered r = sr_discovered report /\
  sr_sources_failed r = sr_sources_failed report.
Proof. unfold watch, sbind. repeat case_match; done. Qed.

Definition is_over (ends : gmap ItemKey Z) (item : Discovered) : nat := if share_over now ends item then 1 else 0.

Lemma visit_tally pass stamps ends known report item w :
  pc_now pass = now -> is_over ends item + tally (visit_item sy pass stamps ends known report item w).1 = 1 + tally report.
Proof.
  intros Hn. unfold visit_item, is_over. rewrite Hn. destruct (share_over now ends item).
  - assert (tally (end_share pass (known !! discovered_key item) report w).1 = tally report) as ->; [|lia].
    unfold end_share, sbind. repeat case_match; done.
  - unfold sbind. pose proof (watch_counts pass stamps item (known !! discovered_key item) report w) as (Ht & _).
    destruct (watch _ _ _ _ _ _ w) as [rep w1]. cbn in Ht. destruct (share _ _ _ _ w1) as [[step|e] w2]; cbn.
    + destruct step; cbn in *; unfold tally in *; cbn in *; lia.
    + destruct (pc_dry_run pass); cbn; [|destruct (on_db _ w2)]; cbn; unfold tally in *; cbn in *; lia.
Qed.

Lemma visit_fixed pass stamps ends known report item w :
  let r := (visit_item sy pass stamps ends known report item w).1 in
  sr_discovered r = sr_discovered report /\ sr_sources_failed r = sr_sources_failed report.
Proof.
  unfold visit_item. destruct (share_over (pc_now pass) ends item).
  - unfold end_share, sbind. repeat case_match; done.
  - unfold sbind. pose proof (watch_counts pass stamps item (known !! discovered_key item) report w) as (_ & _ & Hd & Hs).
    destruct (watch _ _ _ _ _ _ w) as [rep w1]. cbn in Hd, Hs. destruct (share _ _ _ _ w1) as [[step|e] w2]; cbn.
    + by destruct step.
    + destruct (pc_dry_run pass); cbn; [|destruct (on_db _ w2)]; done.
Qed.

Lemma apply_counts pass discovery stamps ends known w :
  pc_now pass = now ->
  let r := (apply_pass sy pass discovery stamps ends known w).1 in
  sr_discovered r = length (dy_items discovery) /\ sr_sources_failed r = dy_failures discovery /\
  tally r + sum_list_with (is_over ends) (dy_items discovery) = length (dy_items discovery).
Proof.
  intros Hn. unfold apply_pass, sbind. set (start := mkReport _ _ _ _ _ _ _ _ _ _ _ _).
  set (f := visit_item sy pass stamps ends known).
  pose proof (sfold_measure f sr_discovered (fun _ => 0) (dy_items discovery)
    (fun b x s _ => proj1 (visit_fixed pass stamps ends known b x s)) start w) as Hd.
  pose proof (sfold_measure f sr_sources_failed (fun _ => 0) (dy_items discovery)
    (fun b x s _ => proj2 (visit_fixed pass stamps ends known b x s)) start w) as Hs.
  assert (tally (sfold f (dy_items discovery) start w).1 = sum_list_with (fun x => 1 - is_over ends x) (dy_items discovery) + tally start) as Ht.
  { apply sfold_measure. intros b x s _. pose proof (visit_tally pass stamps ends known b x s Hn).
    unfold f. assert (is_over ends x <= 1) by (unfold is_over; case_match; lia). lia. }
  destruct (sfold f (dy_items discovery) start w) as [r w1]. destruct (withdraw_untagged _ _ _ _ _ w1) as [n w2].
  cbn in *. assert (forall l, sum_list_with (fun _ : Discovered => 0) l = 0) as Hz by (induction l; cbn; done).
  rewrite Hz in Hd, Hs. unfold tally in *. cbn in *. split_and!; [done|done|].
  assert (forall l, sum_list_with (fun x => 1 - is_over ends x) l + sum_list_with (is_over ends) l = length l) as Hsum.
  { induction l as [|x l IH]; cbn [sum_list_with length]; [done|]. assert (is_over ends x <= 1) by (unfold is_over; case_match; lia). lia. }
  specialize (Hsum (dy_items discovery)). lia.
Qed.

Lemma discover_failures sources tag :
  dy_failures (discover sources tag) = length (filter (fun s => res_ok (ls_discover s tag) = None) sources).
Proof.
  induction sources as [|s sources IH] using rev_ind; [done|]. rewrite discover_app, filter_app, length_app, filter_cons, filter_nil.
  destruct (ls_discover s tag); cbn; rewrite IH; case_decide; done || (cbn; lia).
Qed.

End Reach.

(** ** Facts: a pass with nothing to do *)

(** What a row says of a share: all but the reported ratio, the confirmed token,
    the file stamp and the time of the update. *)
Definition share_of (r : ItemRow) :=
  (r_id r, r_file r, r_media r, r_share_until r, r_state r, r_last_error r, r_created_at r,
   (tor_info_hash (r_torrent r), tor_info_hash_v2 (r_torrent r), tor_created_by_sharerr (r_torrent r), tor_private (r_torrent r))).

Definition same_shares : relation Db := fun db db' => share_of <$> db_items db' = share_of <$> db_items db.

#[export] Instance same_shares_preorder : PreOrder same_shares.
Proof. split; [done|]. intros a b c H1 H2. unfold same_shares in *. congruence. Qed.

Lemma update_same_shares now set key :
  (forall r, share_of (set now r) = share_of r) -> moves (tables same_shares) (update_item now set key).
Proof.
  intros H. apply moves_query; [apply _|]. intros db. unfold update_row, same_shares. destruct (db_items db !! key) as [r|] eqn:E; [|done].
  cbn. rewrite fmap_insert, H. apply insert_id. by rewrite lookup_fmap, E.
Qed.

Lemma origin_same_shares key origin : moves (tables same_shares) (set_item_origin key origin).
Proof.
  destruct origin; [|apply moves_execute; [apply _|done]].
  apply moves_query; [apply _|]. intros db. by destruct (known_peer _ db).
Qed.

Lemma foldl_insert_elem {K A B : Type} `{Countable K} (f : A -> K) (g : A -> B) (l : list A) (m : gmap K B) x :
  x ∈ l \/ is_Some (m !! f x) -> is_Some (foldl (fun m x => <[f x := g x]> m) m l !! f x).
Proof.
  revert m. induction l as [|y l IH]; intros m Hx; cbn; [destruct Hx; [by apply not_elem_of_nil in H0|done]|].
  apply IH. destruct (decide (f y = f x)) as [Heq|Hne]; [right; rewrite Heq, lookup_insert_eq; eauto|].
  rewrite lookup_insert_ne by done. destruct Hx as [Hx|Hx]; [|by right]. apply elem_of_cons in Hx as [->|Hx]; [done|by left].
Qed.

Section Settled.
Context `{U : UrlLib} `{D : Digests} `{UD : UnicodeData} `{FS : FileSystem} `{TC : TorrentClient} `{FH : FriendHttp}
  `{ML : MediaListing} `{MP : MediaProbe} `{MS : MediaStamps} `{ET : !ErrorText} `{RO : RowOrder} `{RL : !RowOrderLaws RO}
  {P : Type} `{TP : !TrackerProvider P}.
Context (sy : Syncer P) (pass : PassContext).

Lemma known_of_row db key r : db_items db !! key = Some r -> known_of db !! key = Some (fold_hash (row_to_item key r)).
Proof.
  intros Hr. assert (is_Some (known_of db !! item_key (row_to_item key r))) as Hk.
  { apply foldl_insert_elem. left. apply list_elem_of_fmap. exists (key, r). split; [done|]. by apply rows_of_lookup. }
  assert (item_key (row_to_item key r) = key) as Hkey by (by destruct key). rewrite Hkey in Hk. destruct Hk as [item Hk].
  pose proof (known_row _ _ _ Hk) as (r' & Hr' & ->). rewrite Hk. congruence.
Qed.

(** Steps other than leaving an item as it is. *)
Definition moved (r : SyncReport) : nat := sr_added r + sr_reused r + sr_failed r + sr_ended r.

Lemma share_live item known k hash t w :
  live_torrent pass known = Some (k, hash, t) -> (share sy pass item known w).1 = Ok StepUnchanged.
Proof. intros Hl. unfold share. rewrite Hl. unfold sbind. by destruct (pc_dry_run pass); [|destruct (confirm_live _ _ _ _ _ _ w)]. Qed.

Lemma visit_live stamps ends known report item k hash t w :
  share_over (pc_now pass) ends item = false -> live_torrent pass (known !! discovered_key item) = Some (k, hash, t) ->
  moved (visit_item sy pass stamps ends known report item w).1 = moved report.
Proof.
  intros Ho Hl. unfold visit_item. rewrite Ho. unfold sbind.
  destruct (watch sy pass stamps item (known !! discovered_key item) report w) as [rep w1] eqn:Hw.
  assert (moved rep = moved report) as Hm.
  { apply (f_equal fst) in Hw. cbn in Hw. subst rep. unfold watch, sbind. repeat case_match; done. }
  pose proof (share_live item _ _ _ _ w1 Hl) as Hs. destruct (share _ _ _ _ w1) as [r w2]. cbn in Hs. by subst r.
Qed.

Lemma visit_live_touches stamps ends known report item k hash t :
  share_over (pc_now pass) ends item = false -> live_torrent pass (known !! discovered_key item) = Some (k, hash, t) ->
  moves (touches same_shares (fun c => refresh_call c = true)) (visit_item sy pass stamps ends known report item).
Proof.
  intros Ho Hl. unfold visit_item. rewrite Ho. apply moves_bind; [apply _| |intros rep].
  { apply watch_touches; [apply _|]. intros. by apply update_same_shares. }
  apply moves_bind_run; [apply _| |intros w; rewrite (share_live item _ _ _ _ w Hl); apply moves_ret; apply _].
  unfold share. rewrite Hl.
  apply moves_bind; [apply _| |intros; apply moves_ret; apply _]. destruct (pc_dry_run pass); [apply moves_ret; apply _|].
  apply confirm_touches; [apply _|done|intros; apply origin_same_shares|intros; by apply update_same_shares..].
Qed.

Lemma apply_settled discovery stamps ends known w :
  (forall item, item ∈ dy_items discovery -> share_over (pc_now pass) ends item = false /\
     exists k hash t, live_torrent pass (known !! discovered_key item) = Some (k, hash, t)) ->
  (forall key item, (key, item) ∈ rows_of known ->
     stale_item (list_to_set (map discovered_key (dy_items discovery))) (dy_withdrawable discovery) item = false) ->
  let '(r, w') := apply_pass sy pass discovery stamps ends known w in
  sr_unchanged r = sr_discovered r /\ sr_unshared r = 0 /\ moved r = 0 /\
  touches same_shares (fun c => refresh_call c = true) w w'.
Proof.
  intros Hlive Hstale. pose proof (apply_counts sy (pc_now pass) pass discovery stamps ends known w eq_refl) as (Hd & _ & Ht).
  assert (moves (touches same_shares (fun c => refresh_call c = true)) (apply_pass sy pass discovery stamps ends known)) as Hm.
  { unfold apply_pass, withdraw_untagged. apply moves_bind; [apply _| |intros r].
    - apply moves_fold; [apply _|]. intros r item (Ho & k & hash & t & Hl)%Hlive. by eapply visit_live_touches.
    - apply moves_bind; [apply _|apply moves_fold; [apply _|]|intros n; apply moves_ret; apply _].
      intros n item [Hst ([key i] & -> & Hin)%list_elem_of_fmap]%list_elem_of_filter.
      cbn [snd] in Hst. by rewrite (Hstale _ _ Hin) in Hst. }
  specialize (Hm w). unfold apply_pass, sbind in *. set (start := mkReport _ _ _ _ _ _ _ _ _ _ _ _) in *.
  set (f := visit_item sy pass stamps ends known) in *.
  assert (moved (sfold f (dy_items discovery) start w).1 = sum_list_with (fun _ => 0) (dy_items discovery) + moved start) as Hmv.
  { apply sfold_measure. intros r item s (Ho & k & hash & t & Hl)%Hlive. by eapply visit_live. }
  assert (forall l : list Discovered, sum_list_with (fun _ => 0) l = 0) as Hz by (induction l; cbn; done).
  assert (forall l, (forall x, x ∈ l -> share_over (pc_now pass) ends x = false) -> sum_list_with (is_over (pc_now pass) ends) l = 0) as Hov.
  { induction l as [|x l IH]; intros Hx; cbn; [done|]. unfold is_over at 1. rewrite (Hx x) by apply list_elem_of_here.
    apply IH. intros y Hy. by apply Hx, list_elem_of_further. }
  specialize (Hov (dy_items discovery) (fun x Hx => proj1 (Hlive x Hx))).
  destruct (sfold f (dy_items discovery) start w) as [r w1]. cbn in Hmv. rewrite Hz in Hmv.
  assert (filter (fun item => stale_item (list_to_set (map discovered_key (dy_items discovery))) (dy_withdrawable discovery) item = true)
    (map snd (rows_of known)) = []) as Hnil.
  { apply elem_of_nil_inv. intros item [Hst ([key i] & -> & Hin)%list_elem_of_fmap]%list_elem_of_filter.
    cbn [snd] in Hst. by rewrite (Hstale _ _ Hin) in Hst. }
  unfold withdraw_untagged in *. rewrite Hnil in *. cbn in *. unfold tally, moved in *. cbn in *. split_and!; [lia|done|lia|exact Hm].
Qed.

End Settled.

(** ** Properties *)

(** C5: a pass withdraws only what is over, and only sharerr's own torrents.
    Whatever fails on the way, a pass writes only rows of files some source lists
    or whose source listed everything it has, so a source that failed or was cut
    short loses nothing; and it removes a torrent from the client only when sharerr
    made it and its share has ended, by its date or by the file being gone from a
    complete listing. *)
Theorem pass_withdraws_only_ended `{U : UrlLib} `{D : Digests} `{UD : UnicodeData} `{FS : FileSystem} `{TC : TorrentClient}
    `{FH : FriendHttp} `{ML : MediaListing} `{MP : MediaProbe} `{MS : MediaStamps} `{ET : !ErrorText} `{RO : RowOrder}
    {P : Type} `{TP : !TrackerProvider P} (sy : Syncer P) now dry_run w :
  RowOrderLaws RO ->
  let w' := (run sy now dry_run w).2 in
  (forall key, ~ listed (sy_sources sy) (sy_tag sy) key -> ~ answered_fully (sy_sources sy) (sy_tag sy) key.1 ->
     db_items (w_db w') !! key = db_items (w_db w) !! key) /\
  exists new, w_calls w' = w_calls w ++ new /\ forall h, AskRemove h ∈ new -> own_ended sy now (w_db w) h.
Proof.
  intros RL w'. destruct (run_reach sy now dry_run w) as [Hk (new & Hn & Hf)].
  split; [intros key H1 H2; apply Hk; by intros [?|?]|]. exists new. split; [done|].
  intros h Hh. rewrite Forall_forall in Hf. by apply (Hf _ Hh).
Qed.

(** A dry run changes nothing.  Whatever it reports, the store, the torrent
    cache, the confirmed announce sets and the limits memo are as they were, and the
    client was at most asked for its list. *)
Theorem dry_run_changes_nothing `{U : UrlLib} `{D : Digests} `{UD : UnicodeData} `{FS : FileSystem} `{TC : TorrentClient}
    `{FH : FriendHttp} `{ML : MediaListing} `{MP : MediaProbe} `{MS : MediaStamps} `{ET : !ErrorText} `{RO : RowOrder}
    {P : Type} `{TP : !TrackerProvider P} (sy : Syncer P) now w :
  let w' := (run sy now true w).2 in
  w_db w' = w_db w /\ w_cache w' = w_cache w /\ w_confirmed w' = w_confirmed w /\ w_limits w' = w_limits w /\
  (w_calls w' = w_calls w \/ w_calls w' = w_calls w ++ [AskList]).
Proof.
  destruct (run sy now true w) as [r w'] eqn:H. cbn [snd]. unfold run in H.
  apply try_cases in H as [(e & [=] & _)|(id & w1 & [= <- <-] & H)].
  apply sbind_inv in H as (outcome & w2 & Hr & [= _ <-]).
  apply reconcile_cases in Hr as [(e & _ & [? ? ? ? ? ?])|(announce & torrents & origins & stamps & report & w1 & _ & [? ? ? ? ? ?] & _ & _ & _ & _ & _ & _ & Ha)].
  - split_and!; auto.
  - pose proof (dry_apply_still sy (mkPass _ now announce (token_fingerprint announce) (live_by_hash torrents) torrents
      origins true) (discover (sy_sources sy) (sy_tag sy)) stamps (omap r_share_until (db_items (w_db w))) (known_of (w_db w)) eq_refl w1) as Hm.
    rewrite Ha in Hm. destruct Hm as (Hd & Hcf & Hl & Hc & Hch). cbn [snd] in *.
    rewrite Hd, Hcf, Hl, Hch, Hc. split_and!; auto.
Qed.

(** C35: silence withdraws nothing.  When no source answers, the pass ends in an
    error and every table, the cache and the confirmed announce sets are as they
    were. *)
Theorem unanswered_pass_stops `{U : UrlLib} `{D : Digests} `{UD : UnicodeData} `{FS : FileSystem} `{TC : TorrentClient}
    `{FH : FriendHttp} `{ML : MediaListing} `{MP : MediaProbe} `{MS : MediaStamps} `{ET : !ErrorText} `{RO : RowOrder}
    {P : Type} `{TP : !TrackerProvider P} (sy : Syncer P) now dry_run w r w' :
  (forall s scan, s ∈ sy_sources sy -> ls_discover s (sy_tag sy) <> Ok scan) ->
  reconcile sy now dry_run w = (r, w') ->
  (exists e, r = Err e) /\ w_db w' = w_db w /\ w_cache w' = w_cache w /\ w_confirmed w' = w_confirmed w /\
  (w_calls w' = w_calls w \/ w_calls w' = w_calls w ++ [AskList]).
Proof.
  intros Hs%discover_nothing. intros [(e & -> & [? ? ? ? ? ?])|(a & t & o & st & rep & w1 & _ & _ & _ & Hn & _)]%reconcile_cases.
  - split_and!; eauto.
  - done.
Qed.

(** The report accounts for every file.  A pass that completes counts what
    was discovered, and each discovered file is exactly one of added, reused,
    unchanged, failed or past its share-until date; the sources that failed are
    counted apart. *)
Theorem report_adds_up `{U : UrlLib} `{D : Digests} `{UD : UnicodeData} `{FS : FileSystem} `{TC : TorrentClient}
    `{FH : FriendHttp} `{ML : MediaListing} `{MP : MediaProbe} `{MS : MediaStamps} `{ET : !ErrorText} `{RO : RowOrder}
    {P : Type} `{TP : !TrackerProvider P} (sy : Syncer P) now dry_run w report w' :
  reconcile sy now dry_run w = (Ok report, w') ->
  let items := dy_items (discover (sy_sources sy) (sy_tag sy)) in
  let over := filter (fun item => share_over now (omap r_share_until (db_items (w_db w))) item = true) items in
  sr_discovered report = length items /\
  sr_added report + sr_reused report + sr_unchanged report + sr_failed report + length over = length items /\
  sr_sources_failed report = length (filter (fun s => res_ok (ls_discover s (sy_tag sy)) = None) (sy_sources sy)).
Proof.
  intros [(e & [=] & _)|(a & t & o & st & rep & w1 & [= <-] & _ & _ & _ & _ & _ & _ & _ & Ha)]%reconcile_cases items over.
  set (ends := omap r_share_until (db_items (w_db w))) in *.
  destruct (apply_counts sy now (mkPass _ now a (token_fingerprint a) (live_by_hash t) t o dry_run)
    (discover (sy_sources sy) (sy_tag sy)) st ends (known_of (w_db w)) w1 eq_refl) as (Hd & Hs & Ht).
  rewrite Ha in Hd, Hs, Ht. cbn [fst] in *. fold items in Hd, Ht. split; [done|].
  assert (sum_list_with (is_over now ends) items = length over) as Ho.
  { subst over. clear. induction items as [|x l IH]; [done|]. rewrite filter_cons. cbn [sum_list_with]. rewrite IH.
    unfold is_over. case_decide as E; [by rewrite E|]. by destruct (share_over now ends x). }
  unfold tally in Ht. rewrite Ho in Ht. rewrite Hs, discover_failures. split; [lia|done].
Qed.

(** C30: reconciliation is idempotent.  When every listed file is already seeding
    under a torrent the client reports, no share-until date has passed and nothing
    known is missing from a complete listing, a completed pass counts every file
    unchanged, asks the client to add and remove nothing, and leaves every share as
    it was recorded. *)
Theorem settled_pass_changes_nothing `{U : UrlLib} `{D : Digests} `{UD : UnicodeData} `{FS : FileSystem} `{TC : TorrentClient}
    `{FH : FriendHttp} `{ML : MediaListing} `{MP : MediaProbe} `{MS : MediaStamps} `{ET : !ErrorText} `{RO : RowOrder}
    {P : Type} `{TP : !TrackerProvider P} (sy : Syncer P) now dry_run w report w' torrents :
  RowOrderLaws RO -> answer_list (w_calls w) = Ok torrents ->
  (forall key, listed (sy_sources sy) (sy_tag sy) key ->
     exists r hash t, db_items (w_db w) !! key = Some r /\ r_state r = Seeding /\ tor_info_hash (r_torrent r) = Some hash /\
       t ∈ torrents /\ str_to_ascii_lowercase (ts_hash t) = str_to_ascii_lowercase hash /\
       (forall until, r_share_until r = Some until -> now < until)%Z) ->
  (forall key r, db_items (w_db w) !! key = Some r -> answered_fully (sy_sources sy) (sy_tag sy) key.1 ->
     listed (sy_sources sy) (sy_tag sy) key \/ r_state r = Unshared) ->
  reconcile sy now dry_run w = (Ok report, w') ->
  sr_unchanged report = sr_discovered report /\ sr_unshared report = 0 /\
  sr_added report + sr_reused report + sr_failed report + sr_ended report = 0 /\
  same_shares (w_db w) (w_db w') /\
  exists new, w_calls w' = w_calls w ++ new /\ Forall (fun c => refresh_call c = true) new.
Proof.
  intros RL Hlist Hlive Hstale H.
  apply reconcile_cases in H as [(e & [=] & _)|(a & torrents' & o & st & rep & w1 & [= <-] & Hp & _ & _ & _ & Hl & _ & _ & Ha)].
  rewrite Hlist in Hl. injection Hl as <-.
  set (pass := mkPass _ _ _ _ _ _ _ _) in Ha. set (dis := discover (sy_sources sy) (sy_tag sy)) in Ha.
  set (ends := omap r_share_until (db_items (w_db w))) in Ha.
  assert (forall item, item ∈ dy_items dis -> share_over now ends item = false /\
    exists k hash t, live_torrent pass (known_of (w_db w) !! discovered_key item) = Some (k, hash, t)) as Hitem.
  { intros item Hin. destruct (Hlive (discovered_key item)) as (r & hash & t & Hr & Hs & Hh & Ht & Heq & Hu).
    { apply discover_keys, list_elem_of_fmap. by exists item. }
    split.
    - unfold share_over, ends. rewrite lookup_omap, Hr. cbn. destruct (r_share_until r) as [u|]; [|done].
      apply Z.leb_gt. by apply Hu.
    - rewrite (known_of_row _ _ _ Hr). unfold live_torrent. cbn. rewrite Hs, Hh. cbn. rewrite <- Heq.
      destruct (foldl_insert_elem (fun t => str_to_ascii_lowercase (ts_hash t)) id torrents ∅ t (or_introl Ht)) as [t' Ht'].
      change (pc_live pass) with (live_by_hash torrents). unfold live_by_hash. cbn in Ht'. rewrite Ht'. cbn. eauto. }
  pose proof (apply_settled sy pass dis st ends (known_of (w_db w)) w1 Hitem) as Hset. rewrite Ha in Hset.
  destruct Hset as (Hu & Hn & Hm & Ht).
  { intros key item Hin. apply not_true_is_false. intros Hst.
    destruct (stale_row sy _ _ _ Hin Hst) as (r & Hr & _ & _ & Hnl & Hans & Hs).
    by destruct (Hstale key r Hr Hans). }
  split; [done|]. split; [done|]. split; [done|].
  destruct Ht as [Hsame (new & Hnew & Hf)]. destruct Hp as [Hi _ _ _ _ Hc]. split.
  - unfold same_shares in *. by rewrite Hsame, Hi.
  - destruct Hc as [Hc|Hc]; [exists new|exists (AskList :: new)]; rewrite Hnew, Hc, <- ?app_assoc; split; [done|done|done|].
    by constructor.
Qed.

(** ** Witnesses *)

(** A client that lists the film's torrent. *)
Definition film_torrent : TorrentSummary :=
  mkTorrentSummary (bs "AA") (bs "The.Heist.2001") (bs "/films") (bs "/films/The.Heist.2001.mkv") [] [] true false None None None.

Definition film_client : TorrentClient := {|
  client_kind := QBittorrent;
  answer_list := fun _ => Ok [film_torrent];
  answer_files := fun _ _ => Ok [];
  answer_export := fun _ _ => Ok None;
  answer_add := fun _ _ => Ok tt;
  answer_remove := fun _ _ => Ok tt;
  answer_set_trackers := fun _ _ _ => Ok tt;
  answer_add_trackers := fun _ _ _ => Ok tt;
  answer_limits := fun _ _ _ => Ok tt
|}.

Definition film_probe : MediaProbe := fun _ => None.
Definition film_stamps : MediaStamps := fun _ => None.
Definition film_errors : @ErrorText text_urls := fun _ => bs "failed".

(** A library that answers, and one that does not. *)
Definition radarr_source (answer : result SourceScan bytes) : LibrarySource := mkSource Radarr (fun _ => answer).

Definition film_syncer (answer : result SourceScan bytes) : Syncer (@BuiltinTracker text_urls) :=
  mkSyncer (bs "share") [radarr_source answer] (@mkBuiltin text_urls sample_endpoint (Some (bs "tok"))) sample_seeder [] 0.

Section SyncWitnesses.
Local Existing Instances text_urls prefix_digests plain_unicode sample_files film_client one_friend bare_listing film_probe
  film_stamps film_errors key_order.

(** The film is gone from a complete listing: its torrent, sharerr's own, goes. *)
Lemma pass_withdraws_only_ended_witness :
  AskRemove (bs "aa") ∈ w_calls (run (film_syncer (Ok (mkScan [] true ∅))) 500 false (fresh_world ∅)).2 /\
  own_ended (film_syncer (Ok (mkScan [] true ∅))) 500 sample_db (bs "aa").
Proof.
  destruct (pass_withdraws_only_ended (film_syncer (Ok (mkScan [] true ∅))) 500 false (fresh_world ∅) key_order_laws)
    as (_ & new & Hn & Hr).
  assert (w_calls (run (film_syncer (Ok (mkScan [] true ∅))) 500 false (fresh_world ∅)).2 = [AskList; AskRemove (bs "aa")]) as E
    by (vm_compute; reflexivity).
  rewrite E in Hn |- *. change (w_calls (fresh_world ∅)) with (@nil ClientCall) in Hn. rewrite app_nil_l in Hn.
  split; [|apply Hr; rewrite <- Hn]; apply list_elem_of_further, list_elem_of_here.
Defined.

Lemma unanswered_pass_stops_witness :
  w_db (reconcile (film_syncer (Err (bs "restarting"))) 500 false (fresh_world ∅)).2 = sample_db.
Proof.
  destruct (reconcile (film_syncer (Err (bs "restarting"))) 500 false (fresh_world ∅)) as [r w'] eqn:E.
  apply unanswered_pass_stops in E as (_ & Hd & _); [exact Hd|].
  intros s scan Hs. apply list_elem_of_singleton in Hs as ->. discriminate.
Defined.

Definition film_pass : result SyncReport SyncError * World :=
  reconcile (film_syncer (Ok (mkScan [sample_film] true ∅))) 500 false (fresh_world ∅).

Lemma report_adds_up_witness : sr_unchanged <$> res_ok film_pass.1 = Some 1 /\ sr_discovered <$> res_ok film_pass.1 = Some 1.
Proof.
  assert (sr_unchanged <$> res_ok film_pass.1 = Some 1) as Hu by (vm_compute; reflexivity). split; [exact Hu|].
  destruct film_pass as [[report|e] w'] eqn:E; [|discriminate Hu]. unfold film_pass in E.
  apply report_adds_up in E as (Hd & _). cbn. rewrite Hd. reflexivity.
Defined.

Lemma settled_pass_changes_nothing_witness :
  is_Some (res_ok film_pass.1) /\ same_shares sample_db (w_db film_pass.2).
Proof.
  assert (bool_decide (is_Some (res_ok film_pass.1)) = true) as Hu by (vm_compute; reflexivity).
  split; [exact (bool_decide_eq_true_1 _ Hu)|].
  destruct film_pass as [[report|e] w'] eqn:E; [|discriminate Hu]. unfold film_pass in E.
  eapply settled_pass_changes_nothing in E as (_ & _ & _ & Hs & _); [exact Hs|exact key_order_laws|reflexivity| |].
  - intros key (s & scan & item & Hs & Hd & Hi & <-). apply list_elem_of_singleton in Hs as ->. injection Hd as <-.
    apply list_elem_of_singleton in Hi as ->. exists sample_row, (bs "aa"), film_torrent. repeat split; try reflexivity.
    + apply list_elem_of_here.
    + discriminate.
  - intros key r Hr _. left. change (({[ (Radarr, 70%Z) := sample_row ]} : gmap ItemKey ItemRow) !! key = Some r) in Hr.
    apply lookup_singleton_Some in Hr as [<- _].
    exists (radarr_source (Ok (mkScan [sample_film] true ∅))), (mkScan [sample_film] true ∅), sample_film.
    repeat split; apply list_elem_of_here.
Defined.

End SyncWitnesses.
