(* ===== verification/Vault.v ===== *)
(** * The credential vault (crates/sharerr-store/src/vault.rs)

    The secrets sharerr replays to other services, sealed one by one in a single
    file that several handles and processes share.  The file and the outside world
    are the state; Argon2 and XChaCha20-Poly1305 are parameters.  A mutation holds
    both write locks from its re-read of the file to its rename, so it is one step
    of the shared state. *)

From S2P Require Import Prelude RustStd BTreeMap Text Metainfo Paths Totp Effects.

(** ** Constants *)

Definition VERSION : byte := x01.
Definition SALT_LEN : nat := 16.
Definition NONCE_LEN : nat := 24.

Definition TRACKER_TOKEN : bytes := bs "tracker.token".
Definition TRACKER_TOKEN_PREVIOUS : bytes := bs "tracker.token_previous".
Definition IDENTITY_SIGNING_KEY : bytes := bs "identity.signing_key".
Definition LIGHTHOUSE_DECOY_SEED : bytes := bs "lighthouse.decoy_seed".
Definition NOTIFICATIONS_WEBHOOK_URL : bytes := bs "notifications.webhook_url".

(** [secret_keys::peer_gossip_key]. *)
Definition peer_gossip_key (peer_id : Z) : bytes := bs "peer.gossip." ++ i_to_string peer_id.

(** [secret_keys::validate_value]. *)
Definition token_char (c : char) : bool := char_is_ascii_alphanumeric c || char_in (bs "-_.~") c.

Definition validate_value (key value : bytes) : result unit bytes :=
  if decide (key = TRACKER_TOKEN) then
    if forallb token_char (chars value) then Ok tt
    else Err (TRACKER_TOKEN ++ bs " may only contain letters, digits, `-`, `_`, `.` and `~`: it becomes one segment of every announce URL, unencoded. Use " ++ [x22] ++ bs "Generate" ++ [x22] ++ bs " or a hex value")
  else Ok tt.

(** ** Parameters *)

(** Argon2id over the master key and the salt, and XChaCha20-Poly1305 with the
    record's name as associated data: key, nonce, name, text. *)
Class VaultCipher : Type := {
  argon2 : bytes -> bytes -> result bytes bytes;
  aead_encrypt : bytes -> bytes -> bytes -> bytes -> option bytes;
  aead_decrypt : bytes -> bytes -> bytes -> bytes -> option bytes
}.

(** What was sealed opens under the same key, nonce and name. *)
Class VaultCipherLaws (C : VaultCipher) : Prop :=
  decrypt_encrypt : forall key nonce name text sealed,
    aead_encrypt key nonce name text = Some sealed -> aead_decrypt key nonce name sealed = Some text.

(** ** Data *)

Inductive VaultError : Type :=
| NoMasterKey
| EmptyMasterKey
| MasterKeyFile (path source : bytes)
| VaultIo (path source : bytes)
| Corrupt (what : bytes)
| UnsupportedVersion (found : byte)
| WrongKey
| Kdf (what : bytes)
| NotUtf8 (key : bytes)
| InvalidValue (key reason : bytes).

(** A sealed value. *)
Record SealedRecord : Type := mkSealed { sl_nonce : bytes; sl_ciphertext : bytes }.

Record Vault : Type := mkVault {
  vt_path : bytes;
  vt_salt : bytes;
  vt_cipher : bytes;
  vt_records : list (bytes * SealedRecord)
}.

Definition with_records (records : list (bytes * SealedRecord)) (v : Vault) : Vault :=
  mkVault (vt_path v) (vt_salt v) (vt_cipher v) records.

(** The file at the vault's path and the outside world. *)
Abbreviation Disk := (option bytes * Script)%type.
Abbreviation DiskM := (St Disk).

(** A handle beside them. *)
Abbreviation VaultM := (St (Vault * Disk)).

Definition on_disk {A : Type} (m : DiskM A) : VaultM A := focus snd (fun disk s => (s.1, disk)) m.
Definition disk_script {A : Type} (m : St Script A) : DiskM A := focus snd (fun script s => (s.1, script)) m.

(** ** Numbers on the wire *)

(** [to_le_bytes] of a number [width] bytes wide, and [from_le_bytes]. *)
Fixpoint to_le_bytes (width : nat) (n : N) : bytes :=
  match width with
  | O => []
  | S width => byte_of (n mod 256) :: to_le_bytes width (n / 256)
  end.

Fixpoint from_le_bytes (s : bytes) : N :=
  match s with
  | [] => 0
  | b :: s => byte_val b + 256 * from_le_bytes s
  end%N.

(** ** Reading the file *)

(** [take]: [len] bytes from [cursor], and the cursor behind them. *)
Definition take_slice (raw : bytes) (cursor len : N) : result (bytes * N) VaultError :=
  let? stop := ok_or (usize_checked_add cursor len) (Corrupt (bs "length overflow")) in
  if (stop <=? N.of_nat (length raw))%N
  then Ok (take (N.to_nat len) (drop (N.to_nat cursor) raw), stop)
  else Err (Corrupt (bs "record truncated")).

Definition read_u16 (raw : bytes) (cursor : N) : result (N * N) VaultError :=
  let? got := take_slice raw cursor 2 in Ok (from_le_bytes got.1, got.2).

Definition read_u32 (raw : bytes) (cursor : N) : result (N * N) VaultError :=
  let? got := take_slice raw cursor 4 in Ok (from_le_bytes got.1, got.2).

(** One turn of [parse]'s loop: the record at [cursor]. *)
Definition parse_record (raw : bytes) (cursor : N) : result (bytes * SealedRecord * N) VaultError :=
  let? key_len := read_u16 raw cursor in
  let? key_bytes := take_slice raw key_len.2 key_len.1 in
  let? key := ok_or (from_utf8 key_bytes.1) (Corrupt (bs "record key is not UTF-8")) in
  let? nonce := take_slice raw key_bytes.2 (N.of_nat NONCE_LEN) in
  let? ct_len := read_u32 raw nonce.2 in
  let? ciphertext := take_slice raw ct_len.2 ct_len.1 in
  Ok (key, mkSealed nonce.1 ciphertext.1, ciphertext.2).

(** The loop.  A record is at least thirty bytes long, so the length of the file
    is fuel enough. *)
Fixpoint parse_records (fuel : nat) (raw : bytes) (cursor : N) (records : list (bytes * SealedRecord))
  : result (list (bytes * SealedRecord)) VaultError :=
  if (cursor <? N.of_nat (length raw))%N then
    match fuel with
    | O => Ok records
    | S fuel =>
        let? found := parse_record raw cursor in
        parse_records fuel raw found.2 (btree_insert found.1.1 found.1.2 records)
    end
  else Ok records.

Definition parse (raw : bytes) : result (bytes * list (bytes * SealedRecord)) VaultError :=
  if (length raw <? 1 + SALT_LEN) then Err (Corrupt (bs "file shorter than header"))
  else if negb (bool_decide (head raw = Some VERSION)) then Err (UnsupportedVersion (hd x00 raw))
  else
    let salt := take SALT_LEN (drop 1 raw) in
    let? records := parse_records (length raw) raw (N.of_nat (1 + SALT_LEN)) [] in
    Ok (salt, records).

(** ** Writing it *)

(** What [persist] appends for one record. *)
Definition record_bytes (entry : bytes * SealedRecord) : result bytes VaultError :=
  let '(key, record) := entry in
  if (u16_max <? N.of_nat (length key))%N then Err (Corrupt (bs "secret key name too long"))
  else if (u32_max <? N.of_nat (length (sl_ciphertext record)))%N then Err (Corrupt (bs "secret value too long"))
  else Ok (to_le_bytes 2 (N.of_nat (length key)) ++ key ++ sl_nonce record ++
           to_le_bytes 4 (N.of_nat (length (sl_ciphertext record))) ++ sl_ciphertext record).

Definition vault_bytes (v : Vault) : result bytes VaultError :=
  let? parts := collect_results record_bytes (vt_records v) in
  Ok (VERSION :: vt_salt v ++ concat parts).

(** ** The file system *)

(** [Path::with_extension]. *)
Definition with_extension (p ext : bytes) : bytes :=
  match file_stem p with
  | Some stem => path_join (default [] (parent p)) (stem ++ bs "." ++ ext)
  | None => p
  end.

(** One call of the file system on [path]. *)
Definition io_call (path : bytes) : DiskM (result unit VaultError) :=
  let! ok := disk_script draw in
  let! error := sgets (fun s => sc_error s.2) in
  sret (if ok : bool then Ok tt else Err (VaultIo path error)).

Definition read_if_present (path : bytes) : DiskM (result (option bytes) VaultError) :=
  try! read := io_call path in
  let! file := sgets fst in
  sret (Ok file).

(** [create_dir_all] of a path's parent, if it has one. *)
Definition create_parent (path : bytes) : DiskM (result unit VaultError) :=
  match parent path with Some dir => io_call dir | None => sret (Ok tt) end.

(** Opening the lock file, and waiting for the lock. *)
Definition cross_process_lock (vault_path : bytes) : DiskM (result unit VaultError) :=
  let lock_path := with_extension vault_path (bs "lock") in
  try! dir := create_parent lock_path in
  io_call lock_path.

Definition lock_write (vault_path : bytes) : DiskM (result unit VaultError) :=
  io_call (with_extension vault_path (bs "lock")).

(** [Vault::persist]: the temporary file is written and restricted first, and the
    rename puts it in place whole. *)
Definition persist : VaultM (result unit VaultError) :=
  let! v := sgets fst in
  try! out := sret (vault_bytes v) in
  try! dir := on_disk (create_parent (vt_path v)) in
  let tmp := with_extension (vt_path v) (bs "tmp") in
  try! written := on_disk (io_call tmp) in
  try! restricted := on_disk (io_call tmp) in
  try! renamed := on_disk (io_call (vt_path v)) in
  let! put := on_disk (smodify (fun disk => (Some out, disk.2))) in
  sret (Ok tt).

Definition random_array (what : bytes) (n : nat) : DiskM (result bytes VaultError) :=
  let! raw := disk_script (getrandom n) in
  sret (rmap_err (fun e => Kdf (what ++ bs " generation failed: " ++ e)) raw).

(** [Vault::key_names]. *)
Definition key_names (path : bytes) : DiskM (result (list bytes) VaultError) :=
  try! raw := read_if_present path in
  sret (match raw with
        | None => Ok []
        | Some raw => let? parsed := parse raw in Ok (map fst parsed.2)
        end).

(** [Vault::keys] and [Vault::is_empty]. *)
Definition vault_keys (v : Vault) : list bytes := map fst (vt_records v).
Definition vault_is_empty (v : Vault) : bool := negb (is_nonempty (vt_records v)).

(** [Vault::reload]. *)
Definition reload : VaultM (result unit VaultError) :=
  let! v := sgets fst in
  try! raw := on_disk (read_if_present (vt_path v)) in
  match raw with
  | None => sret (Ok tt)
  | Some raw =>
      try! parsed := sret (parse raw) in
      if negb (bool_decide (parsed.1 = vt_salt v))
      then sret (Err (Corrupt (bs "the vault file was replaced since it was opened; reopen it")))
      else let! put := smodify (fun s => (with_records parsed.2 s.1, s.2)) in sret (Ok tt)
  end.

(** [Vault::locked]. *)
Definition locked {A : Type} (mutate : VaultM (result A VaultError)) : VaultM (result A VaultError) :=
  let! v := sgets fst in
  try! lock := on_disk (cross_process_lock (vt_path v)) in
  try! guard := on_disk (lock_write (vt_path v)) in
  try! fresh := reload in
  mutate.

Definition update_records (f : list (bytes * SealedRecord) -> list (bytes * SealedRecord)) : VaultM unit :=
  smodify (fun s => (with_records (f (vt_records s.1)) s.1, s.2)).

(** [Vault::remove]. *)
Definition vault_remove (key : bytes) : VaultM (result bool VaultError) :=
  locked (
    let! existed := sgets (fun s => bool_decide (is_Some (btree_get key (vt_records s.1)))) in
    let! removed := update_records (btree_delete key) in
    if existed : bool then try! saved := persist in sret (Ok existed) else sret (Ok existed)).

Section Sealing.
Context `{C : VaultCipher}.

Definition derive_cipher (master salt : bytes) : result bytes VaultError :=
  rmap_err Kdf (argon2 master salt).

(** [Vault::get]. *)
Definition vault_get (v : Vault) (key : bytes) : result (option bytes) VaultError :=
  match btree_get key (vt_records v) with
  | None => Ok None
  | Some record =>
      let? plaintext := ok_or (aead_decrypt (vt_cipher v) (sl_nonce record) key (sl_ciphertext record)) WrongKey in
      let? text := ok_or (from_utf8 plaintext) (NotUtf8 key) in
      Ok (Some text)
  end.

(** [Vault::open]. *)
Definition vault_open (path master : bytes) : DiskM (result Vault VaultError) :=
  try! raw := read_if_present path in
  match raw with
  | None =>
      try! salt := random_array (bs "salt") SALT_LEN in
      try! cipher := sret (derive_cipher master salt) in
      sret (Ok (mkVault path salt cipher []))
  | Some raw =>
      sret (let? parsed := parse raw in
            let? cipher := derive_cipher master parsed.1 in
            let vault := mkVault path parsed.1 cipher parsed.2 in
            match parsed.2 with
            | [] => Ok vault
            | (key, _) :: _ => let? checked := vault_get vault key in Ok vault
            end)
  end.

(** [Vault::seal]. *)
Definition seal (key plaintext : bytes) : VaultM (result SealedRecord VaultError) :=
  let! v := sgets fst in
  try! nonce := on_disk (random_array (bs "nonce") NONCE_LEN) in
  sret (let? ciphertext := ok_or (aead_encrypt (vt_cipher v) nonce key plaintext) (Corrupt (bs "encryption failed")) in
        Ok (mkSealed nonce ciphertext)).

(** [Vault::put]. *)
Definition vault_put (key value : bytes) : VaultM (result unit VaultError) :=
  try! valid := sret (rmap_err (InvalidValue key) (validate_value key value)) in
  try! record := seal key value in
  locked (let! inserted := update_records (btree_insert key record) in persist).

End Sealing.

(** ** The master key *)

(** [std::fs::read_to_string] of the key file. *)
Class KeyFiles : Type := read_key_file : bytes -> result bytes bytes.

Definition normalize_master_key (raw : bytes) : result bytes VaultError :=
  let trimmed := trim raw in
  if is_nonempty trimmed then Ok trimmed else Err EmptyMasterKey.

Definition master_key_from `{KF : KeyFiles} (inline file : option bytes) : result bytes VaultError :=
  let set (v : option bytes) := v ≫= (fun v => if is_nonempty (trim v) then Some v else None) in
  match set inline with
  | Some raw => normalize_master_key raw
  | None =>
      match set file with
      | Some path =>
          let? raw := rmap_err (MasterKeyFile path) (read_key_file path) in
          normalize_master_key raw
      | None => Err NoMasterKey
      end
  end.

(** ** Facts: the file *)

Lemma to_le_bytes_length width n : length (to_le_bytes width n) = width.
Proof. revert n. induction width as [|width IH]; intros n; cbn; [done|]. by rewrite IH. Qed.

Lemma le_bytes_roundtrip width n : (n < 256 ^ N.of_nat width)%N -> from_le_bytes (to_le_bytes width n) = n.
Proof.
  revert n. induction width as [|width IH]; intros n Hn; cbn [to_le_bytes from_le_bytes].
  - rewrite N.pow_0_r in Hn. lia.
  - rewrite Nat2N.inj_succ, N.pow_succ_r' in Hn. rewrite byte_val_of by (apply N.mod_lt; lia).
    rewrite IH by (apply N.Div0.div_lt_upper_bound; lia). pose proof (N.div_mod n 256). lia.
Qed.

(** What a record of a vault file can be: the widths its lengths are written at
    hold them, and its name is text. *)
Record record_ok (entry : bytes * SealedRecord) : Prop := {
  rk_name : utf8_valid entry.1 = true;
  rk_name_len : (N.of_nat (length entry.1) <= u16_max)%N;
  rk_nonce : length (sl_nonce entry.2) = NONCE_LEN;
  rk_text_len : (N.of_nat (length (sl_ciphertext entry.2)) <= u32_max)%N
}.

(** What a vault file can hold. *)
Record records_ok (salt : bytes) (records : list (bytes * SealedRecord)) : Prop := {
  rs_salt : length salt = SALT_LEN;
  rs_sorted : btree_wf records;
  rs_records : Forall record_ok records
}.

Lemma take_slice_app pre s post :
  (N.of_nat (length (pre ++ s ++ post)) <= usize_max)%N ->
  take_slice (pre ++ s ++ post) (N.of_nat (length pre)) (N.of_nat (length s)) = Ok (s, N.of_nat (length (pre ++ s))).
Proof.
  rewrite !length_app. intros H. unfold take_slice, usize_checked_add.
  rewrite (proj2 (N.leb_le _ _)) by lia. cbn. rewrite !length_app, (proj2 (N.leb_le _ _)) by lia.
  rewrite !Nat2N.id, drop_app_length, take_app_length. do 3 f_equal. lia.
Qed.

(** The same with the text before and after written as the reader meets it. *)
Lemma take_slice_at raw pre s post cursor len :
  raw = pre ++ s ++ post -> (N.of_nat (length raw) <= usize_max)%N ->
  cursor = N.of_nat (length pre) -> len = N.of_nat (length s) ->
  take_slice raw cursor len = Ok (s, N.of_nat (length (pre ++ s))).
Proof. intros -> H -> ->. by apply take_slice_app. Qed.

Lemma parse_record_app pre entry part post :
  record_ok entry -> record_bytes entry = Ok part ->
  (N.of_nat (length (pre ++ part ++ post)) <= usize_max)%N ->
  parse_record (pre ++ part ++ post) (N.of_nat (length pre)) = Ok (entry, N.of_nat (length (pre ++ part))).
Proof.
  destruct entry as [key [nonce text]]. intros [Hu Hk Hn Ht] Hp Hl. cbn in *.
  rewrite (proj2 (N.ltb_ge _ _)), (proj2 (N.ltb_ge _ _)) in Hp by lia. injection Hp as <-.
  set (klen := to_le_bytes 2 (N.of_nat (length key))) in *. set (tlen := to_le_bytes 4 (N.of_nat (length text))) in *.
  set (raw := pre ++ (klen ++ key ++ nonce ++ tlen ++ text) ++ post) in *.
  assert (from_le_bytes klen = N.of_nat (length key)) as Hkl
    by (apply le_bytes_roundtrip; unfold u16_max in Hk; cbn; lia).
  assert (from_le_bytes tlen = N.of_nat (length text)) as Htl
    by (apply le_bytes_roundtrip; unfold u32_max in Ht; cbn; lia).
  unfold parse_record, read_u16, read_u32.
  rewrite (take_slice_at raw pre klen (key ++ nonce ++ tlen ++ text ++ post)) by (first [by rewrite ?to_le_bytes_length|unfold raw; by rewrite <- !app_assoc]).
  cbn [rbind fst snd]. rewrite Hkl.
  rewrite (take_slice_at raw (pre ++ klen) key (nonce ++ tlen ++ text ++ post)) by (first [done|unfold raw; by rewrite <- !app_assoc]).
  cbn [rbind fst snd]. unfold from_utf8. rewrite Hu. cbn [ok_or rbind].
  rewrite (take_slice_at raw ((pre ++ klen) ++ key) nonce (tlen ++ text ++ post)) by (first [by rewrite ?Hn|unfold raw; by rewrite <- !app_assoc]).
  cbn [rbind fst snd].
  rewrite (take_slice_at raw (((pre ++ klen) ++ key) ++ nonce) tlen (text ++ post)) by (first [by rewrite ?to_le_bytes_length|unfold raw; by rewrite <- !app_assoc]).
  cbn [rbind fst snd]. rewrite Htl.
  rewrite (take_slice_at raw ((((pre ++ klen) ++ key) ++ nonce) ++ tlen) text post) by (first [done|unfold raw; by rewrite <- !app_assoc]).
  cbn [rbind fst snd]. by rewrite <- !app_assoc.
Qed.

Lemma record_bytes_nonempty entry part : record_bytes entry = Ok part -> 0 < length part.
Proof.
  destruct entry as [key record]. cbn. destruct (_ <? _)%N; [done|]. destruct (_ <? _)%N; [done|]. intros [= <-].
  cbn. lia.
Qed.

Lemma parse_records_app records parts : forall pre acc fuel,
  Forall record_ok records -> collect_results record_bytes records = Ok parts ->
  (N.of_nat (length (pre ++ concat parts)) <= usize_max)%N -> length records <= fuel ->
  parse_records fuel (pre ++ concat parts) (N.of_nat (length pre)) acc =
    Ok (fold_left (fun m '(k, v) => btree_insert k v m) records acc).
Proof.
  revert parts. induction records as [|entry records IH]; intros parts pre acc fuel Hok Hc Hl Hf.
  - injection Hc as <-. cbn. rewrite app_nil_r. destruct fuel; cbn; by rewrite (proj2 (N.ltb_ge _ _)).
  - cbn in Hc. destruct (record_bytes entry) as [part|] eqn:Hp; [|done]. cbn in Hc.
    destruct (collect_results record_bytes records) as [rest|] eqn:Hrest; [|done]. injection Hc as <-.
    inversion Hok; subst. cbn [length concat] in *. destruct fuel as [|fuel]; [lia|].
    pose proof (record_bytes_nonempty _ _ Hp). cbn [parse_records].
    rewrite (proj2 (N.ltb_lt _ _)) by (rewrite !length_app; lia).
    rewrite (parse_record_app pre entry part (concat rest)) by done. cbn [rbind fst snd].
    rewrite (app_assoc pre part), IH by (rewrite ?app_assoc in *; auto; lia). cbn. by destruct entry.
Qed.

Lemma records_at_most records parts :
  collect_results record_bytes records = Ok parts -> length records <= length (concat parts).
Proof.
  revert parts. induction records as [|e l IH]; intros parts Hc; cbn; [lia|].
  cbn in Hc. destruct (record_bytes e) as [part|] eqn:Hp; [|done]. cbn in Hc.
  destruct (collect_results record_bytes l) as [rest|]; [|done]. injection Hc as <-.
  specialize (IH rest eq_refl). pose proof (record_bytes_nonempty _ _ Hp). cbn. rewrite length_app. lia.
Qed.

(** Everything a vault of sorted records writes is read back as it was. *)
Lemma parse_vault_bytes v out :
  records_ok (vt_salt v) (vt_records v) -> vault_bytes v = Ok out -> (N.of_nat (length out) <= usize_max)%N ->
  parse out = Ok (vt_salt v, vt_records v).
Proof.
  intros [Hs Hw Hr] Hb Hl. unfold vault_bytes in Hb.
  destruct (collect_results record_bytes (vt_records v)) as [parts|] eqn:Hc; [|done]. injection Hb as <-.
  unfold parse. rewrite (proj2 (Nat.ltb_ge _ _)) by (cbn; rewrite length_app; lia).
  cbn [head negb bool_decide_decide drop hd]. rewrite bool_decide_eq_true_2 by done. cbn [negb].
  rewrite drop_0, <- Hs, take_app_length.
  change (VERSION :: vt_salt v ++ concat parts) with ((VERSION :: vt_salt v) ++ concat parts) in *.
  change (N.of_nat (1 + length (vt_salt v))) with (N.of_nat (length (VERSION :: vt_salt v))).
  rewrite (parse_records_app (vt_records v) parts).
  - cbn [rbind]. by rewrite (btree_fold_insert_sorted (vt_records v) []).
  - done.
  - done.
  - done.
  - rewrite length_app. pose proof (records_at_most _ _ Hc). lia.
Qed.

(** A record of the right shape can be written. *)
Lemma records_written salt cipher path records :
  records_ok salt records -> exists out, vault_bytes (mkVault path salt cipher records) = Ok out.
Proof.
  intros [_ _ Hr]. unfold vault_bytes. cbn [vt_records vt_salt].
  assert (exists parts, collect_results record_bytes records = Ok parts) as [parts ->]; [|by eexists].
  induction Hr as [|[key [nonce text]] l [_ Hk _ Ht] Hl [parts IH]]; [by eexists|]. cbn in *.
  rewrite (proj2 (N.ltb_ge _ _)), (proj2 (N.ltb_ge _ _)) by lia. cbn. rewrite IH. by eexists.
Qed.

(** ** Facts: what is read *)

Lemma take_slice_inv raw cursor len s stop :
  take_slice raw cursor len = Ok (s, stop) -> N.of_nat (length s) = len /\ stop = (cursor + len)%N.
Proof.
  unfold take_slice, usize_checked_add. case_match eqn:E; cbn; [|done]. case_match eqn:E'; [|done]. intros [= <- <-].
  apply N.leb_le in E, E'. rewrite length_take, length_drop. split; [|done]. lia.
Qed.

Lemma from_le_bytes_bound s : (from_le_bytes s < 256 ^ N.of_nat (length s))%N.
Proof.
  induction s as [|b s IH]; [done|]. cbn [from_le_bytes length]. rewrite Nat2N.inj_succ, N.pow_succ_r'.
  pose proof (byte_val_lt b). lia.
Qed.

Lemma parse_record_ok raw cursor entry stop :
  parse_record raw cursor = Ok (entry, stop) -> record_ok entry /\ (cursor + 30 <= stop)%N.
Proof.
  unfold parse_record, read_u16, read_u32. intros H.
  apply rbind_Ok in H as ([klen c1] & H1 & H). apply rbind_Ok in H1 as ([kb c1'] & H1 & [= <- <-]).
  apply rbind_Ok in H as ([key c2] & H2 & H). apply rbind_Ok in H as (key' & Hu & H).
  apply rbind_Ok in H as ([nonce c3] & H3 & H). apply rbind_Ok in H as ([tlen c4] & H4 & H).
  apply rbind_Ok in H4 as ([tb c4'] & H4 & [= <- <-]). apply rbind_Ok in H as ([text c5] & H5 & [= <- <-]).
  cbn [fst snd] in *. apply take_slice_inv in H1 as [L1 ->], H2 as [L2 ->], H3 as [L3 ->], H4 as [L4 ->], H5 as [L5 ->].
  unfold from_utf8 in Hu. destruct (utf8_valid key) eqn:Hv; [|done]. injection Hu as <-.
  pose proof (from_le_bytes_bound kb) as B1. pose proof (from_le_bytes_bound tb) as B4. rewrite L1 in B1. rewrite L4 in B4.
  change (256 ^ 2)%N with 65536%N in B1. change (256 ^ 4)%N with 4294967296%N in B4.
  change (N.of_nat NONCE_LEN) with 24%N in *. split; [|lia].
  constructor; unfold u16_max, u32_max, NONCE_LEN in *; cbn; [done|lia|lia|lia].
Qed.

Lemma parse_records_ok fuel raw cursor records found :
  btree_wf records -> Forall record_ok records -> parse_records fuel raw cursor records = Ok found ->
  btree_wf found /\ Forall record_ok found.
Proof.
  revert cursor records. induction fuel as [|fuel IH]; intros cursor records Hw Hr; cbn; (destruct (_ <? _)%N; [|by intros [= <-]]).
  - by intros [= <-].
  - intros ([[key record] stop] & Hp & H)%rbind_Ok. cbn in H. apply parse_record_ok in Hp as [Hk _].
    eapply IH; [| |exact H]; [by apply btree_insert_wf|by apply btree_Forall_insert].
Qed.

Lemma parse_ok raw salt records : parse raw = Ok (salt, records) -> records_ok salt records.
Proof.
  unfold parse. case_match eqn:Hl; [done|]. case_match; [done|]. apply Nat.ltb_ge in Hl.
  intros (found & Hp & [= <- <-])%rbind_Ok.
  destruct (parse_records_ok _ _ _ _ _ btree_wf_nil (List.Forall_nil _) Hp) as [Hw Hr].
  constructor; [|done|done]. rewrite length_take, length_drop. unfold SALT_LEN in *. lia.
Qed.

(** ** Facts: mutations *)

Lemma io_call_file path disk : (io_call path disk).2.1 = disk.1.
Proof. destruct disk as [file script]. unfold io_call, disk_script, focus, sbind, sgets. cbn. by destruct (draw script). Qed.

Lemma create_parent_file path disk : (create_parent path disk).2.1 = disk.1.
Proof. unfold create_parent. destruct (parent path); [apply io_call_file|done]. Qed.

Lemma random_array_file what n disk r disk' :
  random_array what n disk = (r, disk') ->
  disk'.1 = disk.1 /\ (forall raw, r = Ok raw -> length raw = n).
Proof.
  destruct disk as [file script]. unfold random_array, disk_script, focus, sbind, sret. cbn.
  destruct (getrandom n script) as [[raw|e] script'] eqn:E; intros [= <- <-]; split; try done.
  intros raw' [= <-]. by eapply getrandom_length.
Qed.

(** A step that leaves the handle alone, seen from a handle. *)
Lemma on_disk_run {A : Type} (m : DiskM A) v disk : on_disk m (v, disk) = ((m disk).1, (v, (m disk).2)).
Proof. unfold on_disk, focus. cbn. by destruct (m disk). Qed.

(** A call that can only fail or leave handle and file as they are. *)
Definition frames {A : Type} (m : VaultM (result A VaultError)) : Prop :=
  forall s, (m s).2.1 = s.1 /\ (m s).2.2.1 = s.2.1.

Lemma frames_try {A B : Type} (m : VaultM (result A VaultError)) (k : A -> VaultM (result B VaultError)) s r s' :
  frames m -> try_bind m k s = (r, s') ->
  (exists e, r = Err e /\ s'.1 = s.1 /\ s'.2.1 = s.2.1) \/
  (exists a s1, m s = (Ok a, s1) /\ s1.1 = s.1 /\ s1.2.1 = s.2.1 /\ k a s1 = (r, s')).
Proof.
  intros Hm [(e & H & ->)|(a & s1 & H & Hk)]%try_cases; specialize (Hm s); rewrite H in Hm; cbn in Hm.
  - left. eauto.
  - right. exists a, s1. tauto.
Qed.

Lemma frames_io path : frames (on_disk (io_call path)).
Proof. intros [v disk]. rewrite on_disk_run. cbn. split; [done|apply io_call_file]. Qed.

Lemma frames_parent path : frames (on_disk (create_parent path)).
Proof. intros [v disk]. rewrite on_disk_run. cbn. split; [done|apply create_parent_file]. Qed.

Lemma frames_lock path : frames (on_disk (cross_process_lock path)).
Proof.
  intros [v disk]. rewrite on_disk_run. split; [done|]. cbn. unfold cross_process_lock, try_bind, sbind.
  pose proof (create_parent_file (with_extension path (bs "lock")) disk) as H.
  destruct (create_parent _ disk) as [[u|e] disk1]; cbn in *; [|done]. rewrite io_call_file. done.
Qed.

(** [persist] writes the whole vault or nothing. *)
Lemma persist_inv v disk r v' disk' :
  persist (v, disk) = (r, (v', disk')) ->
  v' = v /\ ((r = Ok tt /\ exists out, vault_bytes v = Ok out /\ disk'.1 = Some out) \/
             (exists e, r = Err e /\ disk'.1 = disk.1)).
Proof.
  unfold persist, sbind at 1. cbn [sgets fst].
  destruct (vault_bytes v) as [out|e] eqn:Ho; cbn; [|intros [= <- <- <-]; split; [done|right; eauto]].
  change (try_bind (sret (Ok out)) ?k ?s) with (k out s). cbn beta. intros H.
  apply frames_try in H as [(e & -> & H1 & H2)|(? & [v1 d1] & _ & H1 & H2 & H)]; [|..|apply frames_parent];
    cbn in *; [split; [done|right; eauto]|]. subst v1.
  do 3 (apply frames_try in H as [(e & -> & ? & ?)|(? & [? ?] & _ & ? & ? & H)]; [|..|apply frames_io];
    cbn in *; [split; [congruence|right; eexists; split; [done|congruence]]|]).
  injection H as <- <- <-. cbn. split; [congruence|left]. eauto.
Qed.

(** [reload] takes the records on disk, if there are any. *)
Lemma reload_inv v disk r v' disk' :
  reload (v, disk) = (r, (v', disk')) ->
  disk'.1 = disk.1 /\
  ((exists e, r = Err e /\ v' = v) \/
   (r = Ok tt /\ disk.1 = None /\ v' = v) \/
   (r = Ok tt /\ exists raw records, disk.1 = Some raw /\ parse raw = Ok (vt_salt v, records) /\ v' = with_records records v)).
Proof.
  unfold reload, sbind at 1. cbn [sgets fst]. intros H. unfold try_bind, sbind in H. rewrite on_disk_run in H.
  unfold read_if_present, try_bind, sbind in H. pose proof (io_call_file (vt_path v) disk) as Hf.
  destruct (io_call (vt_path v) disk) as [[u|e] [file script]]; cbn in Hf, H; subst.
  2: { injection H as <- <- <-. split; [done|]. left. eauto. }
  destruct (disk.1) as [raw|].
  2: { injection H as <- <- <-. split; [done|]. right. left. done. }
  cbn in H. destruct (parse raw) as [[salt records]|e] eqn:Hp; cbn in H.
  2: { injection H as <- <- <-. split; [done|]. left. eauto. }
  case_bool_decide; cbn in H; injection H as <- <- <-; (split; [done|]).
  - subst. right. right. eauto 7.
  - left. eauto.
Qed.

(** The records a mutation by [v] starts from: those of the file, or the handle's
    own when there is none. *)
Definition starts_from (v : Vault) (file : option bytes) (records : list (bytes * SealedRecord)) : Prop :=
  match file with
  | Some raw => parse raw = Ok (vt_salt v, records)
  | None => vt_records v = records /\ records_ok (vt_salt v) records
  end.

Lemma starts_ok v file records : starts_from v file records -> records_ok (vt_salt v) records.
Proof. destruct file; [apply parse_ok|by intros [_ ?]]. Qed.

Lemma with_same_records v : with_records (vt_records v) v = v.
Proof. by destruct v. Qed.

(** A mutation runs over those records, or not at all. *)
Lemma locked_inv {A : Type} (mutate : VaultM (result A VaultError)) v disk records r v' disk' :
  starts_from v disk.1 records ->
  locked mutate (v, disk) = (r, (v', disk')) ->
  (exists e, r = Err e /\ disk'.1 = disk.1) \/
  (exists disk1, disk1.1 = disk.1 /\ mutate (with_records records v, disk1) = (r, (v', disk'))).
Proof.
  intros Hp. unfold locked, sbind at 1. cbn [sgets fst]. intros H.
  apply frames_try in H as [(e & -> & _ & H2)|(? & [v1 d1] & _ & H1 & H2 & H)]; [by left; eauto| |apply frames_lock]. cbn in *. subst v1.
  apply frames_try in H as [(e & -> & _ & H4)|(? & [v2 d2] & _ & H3 & H4 & H)]; [left; eexists; split; [done|cbn in *; congruence]| |apply frames_io].
  cbn in *. subst v2. apply try_cases in H as [(e & H & ->)|([] & [v3 d3] & Hr & Hm)].
  - apply reload_inv in H as [H5 _]. left. eexists. split; [done|congruence].
  - right. exists d3. apply reload_inv in Hr as [H5 [(e & He & _)|[(_ & Hn & ->)|(_ & raw & records' & Hs & Hp' & ->)]]]; [done|..];
      (split; [congruence|]); unfold starts_from in Hp.
    + replace (disk.1) with (@None bytes) in Hp by congruence. destruct Hp as [<- _]. by rewrite with_same_records.
    + replace (disk.1) with (Some raw) in Hp by congruence. replace records with records' by congruence. done.
Qed.

Section MutationFacts.
Context `{C : VaultCipher} `{L : !VaultCipherLaws C}.

(** What a handle with the right key reads under each name. *)
Definition reads (salt cipher : bytes) (records : list (bytes * SealedRecord)) (key : bytes)
  : result (option bytes) VaultError := vault_get (mkVault [] salt cipher records) key.

Lemma reads_get v key : vault_get v key = reads (vt_salt v) (vt_cipher v) (vt_records v) key.
Proof. done. Qed.

Lemma record_bytes_ok records out v :
  vault_bytes (with_records records v) = Ok out -> forall entry, entry ∈ records -> exists part, record_bytes entry = Ok part.
Proof.
  unfold vault_bytes. intros (parts & Hc & _)%rbind_Ok entry Hin. apply collect_results_Ok in Hc. cbn in Hc.
  apply list_elem_of_lookup in Hin as [i Hi]. eapply Forall2_lookup_l in Hc as (part & _ & H); eauto.
Qed.

(** A stored value is what a fresh handle reads, under its name and no other. *)
Lemma put_inv v disk records key value r v' disk' :
  starts_from v disk.1 records ->
  utf8_valid key = true -> utf8_valid value = true ->
  vault_put key value (v, disk) = (r, (v', disk')) ->
  (exists e, r = Err e /\ disk'.1 = disk.1) \/
  (r = Ok tt /\ exists out records', v' = with_records records' v /\ disk'.1 = Some out /\ vault_bytes (with_records records' v) = Ok out /\
     records_ok (vt_salt v) records' /\
     forall k, reads (vt_salt v) (vt_cipher v) records' k =
               if decide (k = key) then Ok (Some value) else reads (vt_salt v) (vt_cipher v) records k).
Proof.
  intros Hp Hk Hv. unfold vault_put. intros H.
  apply try_cases in H as [(e & [= _ <- <-] & ->)|([] & s1 & [= _ <-] & H)]; [left; eauto|].
  apply try_cases in H as [(e & Hs & ->)|(record & [v1 d1] & Hs & H)]; unfold seal, sbind at 1 in Hs; cbn [sgets fst] in Hs.
  { left. eexists. split; [done|]. unfold try_bind, sbind in Hs. rewrite on_disk_run in Hs.
    destruct (random_array _ _ disk) as [rr d] eqn:Hr. apply random_array_file in Hr as [Hr _]. cbn in Hs.
    destruct rr; injection Hs as _ _ <-; congruence. }
  unfold try_bind, sbind in Hs. rewrite on_disk_run in Hs. destruct (random_array _ _ disk) as [rr d] eqn:Hr.
  apply random_array_file in Hr as [Hr Hn]. cbn in Hs. destruct rr as [nonce|]; [|done]. cbn in Hs.
  destruct (aead_encrypt (vt_cipher v) nonce key value) as [sealed|] eqn:He; [|done]. cbn in Hs. injection Hs as <- <- <-.
  apply (locked_inv _ _ _ records) in H as [(e & -> & H)|(d2 & Hd2 & H)]; [left; eexists; split; [done|congruence]| |by rewrite Hr].
  unfold sbind, update_records, smodify in H. cbn [fst snd] in H. apply persist_inv in H as [-> [(-> & out & Ho & H)|(e & -> & H)]];
    [|left; eexists; split; [done|congruence]].
  cbn [with_records vt_records vt_path vt_salt vt_cipher] in Ho. right. split; [done|].
  exists out, (btree_insert key (mkSealed nonce sealed) records). split; [done|]. split; [done|]. split; [done|]. apply starts_ok in Hp as [Hsalt Hw Hrs].
  split.
  - constructor; [done|by apply btree_insert_wf|]. apply btree_Forall_insert; [|done].
    destruct (record_bytes_ok _ out v Ho (key, mkSealed nonce sealed)) as [part Hpart].
    { apply btree_get_elem, btree_get_insert_eq. }
    cbn in Hpart. case_match eqn:E1; [done|]. case_match eqn:E2; [done|]. apply N.ltb_ge in E1, E2.
    constructor; cbn; [done|lia|by apply Hn|lia].
  - intros k. unfold reads, vault_get. cbn [vt_records vt_cipher]. rewrite btree_get_insert. case_decide; [subst k|done].
    cbn. rewrite (decrypt_encrypt _ _ _ _ _ He). cbn. unfold from_utf8. by rewrite Hv.
Qed.

Lemma remove_inv v disk records key r v' disk' :
  starts_from v disk.1 records ->
  vault_remove key (v, disk) = (r, (v', disk')) ->
  (exists e, r = Err e /\ disk'.1 = disk.1) \/
  (r = Ok false /\ v' = with_records (btree_delete key records) v /\ disk'.1 = disk.1 /\ btree_get key records = None) \/
  (r = Ok true /\ v' = with_records (btree_delete key records) v /\ exists out, disk'.1 = Some out /\ vault_bytes (with_records (btree_delete key records) v) = Ok out /\
     records_ok (vt_salt v) (btree_delete key records)).
Proof.
  intros Hp. unfold vault_remove. intros H.
  apply (locked_inv _ _ _ records) in H as [(e & -> & H)|(d2 & Hd2 & H)]; [left; eexists; split; [done|congruence]| |done].
  unfold sbind, update_records, smodify, sgets in H. cbn [fst snd with_records vt_records] in H. case_bool_decide as Hb; cbn in H.
  - apply try_cases in H as [(e & H & ->)|([] & [v3 d3] & H & [= <- <- <-])]; apply persist_inv in H as [-> [(H & out & Ho & Hf)|(e' & H & Hf)]]; try done.
    + left. eexists. split; [done|congruence].
    + right. right. split; [done|]. split; [done|]. exists out. split; [done|]. split; [done|]. apply starts_ok in Hp as [Hs Hw Hr].
      constructor; [done|by apply btree_delete_wf|by apply btree_Forall_delete].
  - injection H as <- <- <-. right. left. split; [done|]. split; [done|]. split; [congruence|].
    destruct (btree_get key records); [|done]. destruct Hb. by eexists.
Qed.

End MutationFacts.

(** ** What a file holds *)

Section FileFacts.
Context `{C : VaultCipher} `{L : !VaultCipherLaws C} (master : bytes).

(** What opening the file with [master] and asking for a name gives. *)
Definition file_reads (file : option bytes) (key : bytes) : result (option bytes) VaultError :=
  match file with
  | None => Ok None
  | Some raw =>
      let? parsed := parse raw in
      let? cipher := derive_cipher master parsed.1 in
      reads parsed.1 cipher parsed.2 key
  end.

(** A handle as opened on [file]. *)
Record opened_on (file : option bytes) (v : Vault) : Prop := {
  on_cipher : derive_cipher master (vt_salt v) = Ok (vt_cipher v);
  on_start : starts_from v file (vt_records v);
  on_fresh : file = None -> vt_records v = []
}.

Lemma vault_open_inv path disk v disk' :
  vault_open path master disk = (Ok v, disk') -> disk'.1 = disk.1 /\ opened_on disk.1 v.
Proof.
  unfold vault_open, read_if_present. intros (raw & d1 & Hr & H)%try_inv. apply try_inv in Hr as ([] & d2 & Hio & Hr).
  pose proof (io_call_file path disk) as Hf. rewrite Hio in Hf. cbn in Hf. unfold sbind, sgets, sret in Hr. injection Hr as Hraw <-.
  rewrite <- Hf, Hraw. destruct raw as [raw|].
  - injection H as H <-. split; [by rewrite <- Hraw|]. apply rbind_Ok in H as ([salt records] & Hp & H).
    apply rbind_Ok in H as (cipher & Hc & H). cbn [fst snd] in *.
    assert (v = mkVault path salt cipher records) as ->; [|by constructor].
    destruct records as [|[key record] records]; [by injection H|]. by apply rbind_Ok in H as (? & _ & [= <-]).
  - apply try_inv in H as (salt & d3 & Hs & H). apply random_array_file in Hs as [Hs Hn]. apply try_inv in H as (cipher & ? & [= Hc <-] & [= <- <-]).
    split; [congruence|]. constructor; [done| |done]. split; [done|]. constructor; [by apply Hn|apply btree_wf_nil|constructor].
Qed.

Lemma opened_reads file v key : opened_on file v -> vault_get v key = file_reads file key.
Proof.
  intros [Hc Hs Hf]. destruct file as [raw|]; cbn in *.
  - rewrite Hs. cbn. rewrite Hc. done.
  - unfold vault_get. by rewrite Hf.
Qed.

Lemma written_reads v records out key :
  derive_cipher master (vt_salt v) = Ok (vt_cipher v) -> records_ok (vt_salt v) records ->
  vault_bytes (with_records records v) = Ok out -> (N.of_nat (length out) <= usize_max)%N ->
  file_reads (Some out) key = reads (vt_salt v) (vt_cipher v) records key.
Proof.
  intros Hc Hr Hb Hl. unfold file_reads. rewrite (parse_vault_bytes (with_records records v)) by done. cbn. by rewrite Hc.
Qed.

Lemma written_opened v records out :
  derive_cipher master (vt_salt v) = Ok (vt_cipher v) -> records_ok (vt_salt v) records ->
  vault_bytes (with_records records v) = Ok out -> (N.of_nat (length out) <= usize_max)%N ->
  opened_on (Some out) (with_records records v).
Proof. intros Hc Hr Hb Hl. constructor; [done|by apply (parse_vault_bytes (with_records records v))|done]. Qed.

(** Storing through a handle that was just opened. *)
Lemma put_reads v disk key value r v' disk' :
  opened_on disk.1 v -> utf8_valid key = true -> utf8_valid value = true ->
  vault_put key value (v, disk) = (r, (v', disk')) ->
  (exists e, r = Err e /\ disk'.1 = disk.1) \/
  (r = Ok tt /\ exists out, disk'.1 = Some out /\ ((N.of_nat (length out) <= usize_max)%N ->
     opened_on (Some out) v' /\ forall k, file_reads (Some out) k = if decide (k = key) then Ok (Some value) else file_reads disk.1 k)).
Proof.
  intros Ho Hk Hv H. pose proof Ho as [Hc Hs _].
  apply (put_inv v disk (vt_records v)) in H as [?|(-> & out & records' & -> & Hf & Hb & Hr & Hread)]; [by left| |done..].
  right. split; [done|]. exists out. split; [done|]. intros Hl. split; [by eapply written_opened|]. intros k.
  rewrite (written_reads v records') by done. rewrite Hread.
  case_decide; [done|]. by rewrite <- reads_get, (opened_reads _ _ _ Ho).
Qed.

Lemma remove_reads v disk key r v' disk' :
  opened_on disk.1 v ->
  vault_remove key (v, disk) = (r, (v', disk')) ->
  (exists e, r = Err e /\ disk'.1 = disk.1) \/
  (exists existed, r = Ok existed /\ (match disk'.1 with Some out => (N.of_nat (length out) <= usize_max)%N | None => True end ->
     opened_on disk'.1 v' /\ forall k, file_reads disk'.1 k = if decide (k = key) then Ok None else file_reads disk.1 k)).
Proof.
  intros Ho H. pose proof Ho as [Hc Hs _]. assert (btree_wf (vt_records v)) as Hw by apply (starts_ok _ _ _ Hs).
  apply (remove_inv v disk (vt_records v)) in H as [?|[(-> & -> & Hf & Hn)|(-> & -> & out & Hf & Hb & Hr)]]; [by left| | |done]; right.
  - exists false. split; [done|]. rewrite Hf. intros _. rewrite btree_delete_absent, with_same_records by done. split; [done|]. intros k.
    case_decide; [subst k|done].
    rewrite <- (opened_reads _ _ _ Ho). unfold vault_get. by rewrite Hn.
  - exists true. split; [done|]. rewrite Hf. intros Hl. split; [by eapply written_opened|]. intros k. rewrite (written_reads v (btree_delete key (vt_records v))) by done.
    rewrite <- (opened_reads _ _ _ Ho). unfold reads, vault_get. cbn [vt_records vt_cipher]. rewrite btree_get_delete by done. by case_decide.
Qed.

End FileFacts.

(** ** The specification: a map under concurrent handles *)

Inductive vault_op : Type := PutOp (key value : bytes) | RemoveOp (key : bytes).

(** Names and values are Rust strings. *)
Definition op_text (op : vault_op) : bool :=
  match op with PutOp key value => utf8_valid key && utf8_valid value | RemoveOp key => utf8_valid key end.

(** What is read after a mutation took effect. *)
Definition after_op (op : vault_op) (read : bytes -> result (option bytes) VaultError) (k : bytes)
  : result (option bytes) VaultError :=
  match op with
  | PutOp key value => if decide (k = key) then Ok (Some value) else read k
  | RemoveOp key => if decide (k = key) then Ok None else read k
  end.

(** A log of mutations with whether each was reported as done: only those count. *)
Definition after_log (log : list (vault_op * bool)) (read : bytes -> result (option bytes) VaultError)
  : bytes -> result (option bytes) VaultError :=
  fold_left (fun read '(op, done) => if done : bool then after_op op read else read) log read.

Section Traces.
Context `{C : VaultCipher} (path salt cipher : bytes).

Definition run_op (snapshot : list (bytes * SealedRecord)) (op : vault_op) (disk : Disk) : bool * Disk :=
  let handle := mkVault path salt cipher snapshot in
  match op with
  | PutOp key value => let '(r, s) := vault_put key value (handle, disk) in (bool_decide (is_Some (res_ok r)), s.2)
  | RemoveOp key => let '(r, s) := vault_remove key (handle, disk) in (bool_decide (is_Some (res_ok r)), s.2)
  end.

(** Mutations of one file by any handles opened on it, in any order, each under
    any failures of the file system and the entropy source; a handle's records are
    whatever it happened to have read.  A file is never longer than memory. *)
Inductive vault_trace (start : bytes) : list (vault_op * bool) -> bytes -> Prop :=
| trace_nil : vault_trace start [] start
| trace_op log raw snapshot op script ok raw' script' :
    vault_trace start log raw -> op_text op = true ->
    run_op snapshot op (Some raw, script) = (ok, (Some raw', script')) ->
    (N.of_nat (length raw') <= usize_max)%N ->
    vault_trace start (log ++ [(op, ok)]) raw'.

End Traces.

Lemma after_log_ext log f g k : (forall k, f k = g k) -> after_log log f k = after_log log g k.
Proof.
  revert f g. induction log as [|[op ok] log IH]; intros f g H; cbn; [apply H|]. apply IH. intros k'.
  destruct ok; [|apply H]. destruct op; cbn; by rewrite H.
Qed.

Lemma after_log_app log op ok read k :
  after_log (log ++ [(op, ok)]) read k = if ok then after_op op (after_log log read) k else after_log log read k.
Proof. unfold after_log. rewrite fold_left_app. cbn. by destruct ok. Qed.

(** One mutation against the specification. *)
Lemma run_op_refines `{C : VaultCipher} `{L : !VaultCipherLaws C} path salt cipher snapshot op raw records script ok raw' script' :
  parse raw = Ok (salt, records) -> op_text op = true ->
  run_op path salt cipher snapshot op (Some raw, script) = (ok, (Some raw', script')) ->
  (N.of_nat (length raw') <= usize_max)%N ->
  exists records', parse raw' = Ok (salt, records') /\
    forall k, reads salt cipher records' k =
              if ok then after_op op (reads salt cipher records) k else reads salt cipher records k.
Proof.
  intros Hp Ht Hrun Hfit. set (handle := mkVault path salt cipher snapshot).
  destruct op as [key value|key]; unfold run_op in Hrun; cbn in Ht.
  - apply andb_true_iff in Ht as [Hk Hv]. destruct (vault_put key value (_, _)) as [r [v' d']] eqn:E. injection Hrun as <- Hd.
    apply (put_inv handle _ records) in E as [(e & -> & Hf)|(-> & out & records' & _ & Hf & Ho & Hr & Hread)]; try done; cbn in Hd; subst d'; cbn in Hf.
    + injection Hf as ->. exists records. by split.
    + injection Hf as ->. exists records'. split; [|exact Hread].
      apply (parse_vault_bytes (with_records records' handle)); done.
  - destruct (vault_remove key (_, _)) as [r [v' d']] eqn:E. injection Hrun as <- Hd. cbn in Hd. subst d'.
    apply (remove_inv handle _ records) in E as [(e & -> & Hf)|[(-> & _ & Hf & Hn)|(-> & _ & out & Hf & Ho & Hr)]]; try done; cbn in Hf; injection Hf as ->.
    + exists records. by split.
    + exists records. split; [done|]. intros k. cbn. case_decide; [subst|done]. unfold reads, vault_get. cbn. by rewrite Hn.
    + exists (btree_delete key records). split; [by apply (parse_vault_bytes (with_records (btree_delete key records) handle))|].
      intros k. cbn. apply parse_ok in Hp as [_ Hw _]. unfold reads, vault_get. cbn. rewrite btree_get_delete by done.
      by case_decide.
Qed.

(** ** Properties *)

(** C4: once its file exists, the vault is a map, whatever shares it.  Take any file
    that parses and any run of stores and removals against it by any handles opened
    on it, each of which last read the file at any time, under any failures of the
    file system and the entropy source.  Then the file still parses under the same salt, and what a
    handle reads under every name is the last value whose store was reported as
    done, nothing if a removal was, and otherwise what was there before: no
    update is lost, and one that failed has no effect.  (A vault with no file yet
    is left out: there a failed store stays in its handle, see
    [failed_put_written_later].) *)
Theorem vault_refines `{C : VaultCipher} path salt cipher raw records log raw' :
  VaultCipherLaws C ->
  parse raw = Ok (salt, records) -> vault_trace path salt cipher raw log raw' ->
  exists records', parse raw' = Ok (salt, records') /\
    forall k, reads salt cipher records' k = after_log log (reads salt cipher records) k.
Proof.
  intros L Hp Ht. induction Ht as [|log raw1 snapshot op script ok raw2 script' Ht (records1 & Hp1 & IH) Htext Hrun Hfit].
  - exists records. by split.
  - destruct (run_op_refines _ _ _ _ _ _ _ _ _ _ _ Hp1 Htext Hrun Hfit) as (records2 & Hp2 & H2).
    exists records2. split; [done|]. intros k. rewrite H2, after_log_app.
    destruct ok; [|apply IH]. destruct op; cbn; by rewrite IH.
Qed.

(** ** Witnesses *)

(** A cipher that prefixes its text with all that authenticates it. *)
Definition toy_cipher : VaultCipher := {|
  argon2 := fun master salt => Ok (master ++ salt);
  aead_encrypt := fun key nonce name text => Some (key ++ nonce ++ name ++ text);
  aead_decrypt := fun key nonce name sealed =>
    if decide (take (length (key ++ nonce ++ name)) sealed = key ++ nonce ++ name)
    then Some (drop (length (key ++ nonce ++ name)) sealed) else None
|}.

Lemma toy_cipher_laws : VaultCipherLaws toy_cipher.
Proof.
  intros key nonce name text sealed. cbn. intros [= <-]. rewrite !app_assoc, <- (app_assoc key), take_app_length.
  rewrite decide_True by done. by rewrite drop_app_length.
Qed.

Definition sample_salt : bytes := replicate 16 x07.
Definition sample_script : Script := mkScript [] (replicate 600 x2a) (bs "disk full").
Definition empty_vault_file : bytes := VERSION :: sample_salt.

Definition file_after (disk : Disk) : bytes := default [] disk.1.

(** Two handles that both opened the empty vault store one secret each. *)
Definition first_put : Disk :=
  (@run_op toy_cipher (bs "/data/vault.bin") sample_salt (bs "k") [] (PutOp (bs "sonarr.api_key") (bs "abc")) (Some empty_vault_file, sample_script)).2.
Definition second_put : Disk :=
  (@run_op toy_cipher (bs "/data/vault.bin") sample_salt (bs "k") [] (PutOp TRACKER_TOKEN (bs "t0ken")) first_put).2.

Lemma vault_refines_witness : exists records',
  parse (file_after second_put) = Ok (sample_salt, records') /\
  @reads toy_cipher sample_salt (bs "k") records' (bs "sonarr.api_key") = Ok (Some (bs "abc")) /\
  @reads toy_cipher sample_salt (bs "k") records' TRACKER_TOKEN = Ok (Some (bs "t0ken")).
Proof.
  destruct (@vault_refines toy_cipher (bs "/data/vault.bin") sample_salt (bs "k") empty_vault_file []
    [(PutOp (bs "sonarr.api_key") (bs "abc"), true); (PutOp TRACKER_TOKEN (bs "t0ken"), true)] (file_after second_put))
    as (records' & Hp & H).
  - exact toy_cipher_laws.
  - by vm_compute.
  - apply (trace_op _ _ _ _ [(PutOp (bs "sonarr.api_key") (bs "abc"), true)] (file_after first_put) [] (PutOp TRACKER_TOKEN (bs "t0ken")) first_put.2 true
      (file_after second_put) second_put.2); [|by vm_compute..|by vm_compute].
    apply (trace_op _ _ _ _ [] empty_vault_file [] (PutOp (bs "sonarr.api_key") (bs "abc")) sample_script true
      (file_after first_put) first_put.2); [constructor|by vm_compute..|by vm_compute].
  - exists records'. split; [done|]. split; rewrite H; by vm_compute.
Defined.

(** A store that failed on a vault without a file stays in the handle, and the
    next one of the same handle writes it. *)
Example failed_put_written_later :
  let handle := mkVault (bs "/data/vault.bin") sample_salt (bs "k") [] in
  let failing := mkScript [true; true; true; true; true; true; true; false] (replicate 600 x2a) (bs "disk full") in
  let '(first, (handle, (file, script))) := @vault_put toy_cipher (bs "a") (bs "one") (handle, (None, failing)) in
  let '(second, (_, (file', _))) := @vault_put toy_cipher (bs "b") (bs "two") (handle, (file, script)) in
  first = Err (VaultIo (bs "/data/vault.bin") (bs "disk full")) /\ file = None /\ second = Ok tt /\
  exists records, parse (default [] file') = Ok (sample_salt, records) /\
    @reads toy_cipher sample_salt (bs "k") records (bs "a") = Ok (Some (bs "one")).
Proof. vm_compute. eauto 10. Qed.
