(* ===== verification/Serve.v ===== *)
(** * The serving process (state.rs, notify.rs, secrets.rs)

    What every HTTP handler shares: the store opened on first use, the values
    cached out of the vault, the endpoints, the tracker's swarms and the torrent
    files on disk.  A handler is a computation over this state; opening the store,
    a vault, a file or a task may fail, as the script says. *)

From S2P Require Import Prelude RustStd Text Metainfo Net Endpoint TrackerUrl Announce Model Paths Totp Effects Accounts Database Items Peers History Sightings Vault.

(** ** Configuration *)

Inductive NotificationTrigger : Type :=
| SyncFailed | PeerQuiet | EndpointRotated | ItemsShared | ItemFailed | PeerRevoked | PeerFirstContact
| TrackerUnreachable | LibraryUnreadable | TorrentInterrupted | FileChanged | Heartbeat.

#[export] Instance NotificationTrigger_eq_dec : EqDecision NotificationTrigger.
Proof. solve_decision. Defined.

#[export] Instance NotificationTrigger_names : StrEnum NotificationTrigger := {|
  ALL := [SyncFailed; PeerQuiet; EndpointRotated; ItemsShared; ItemFailed; PeerRevoked; PeerFirstContact;
          TrackerUnreachable; LibraryUnreadable; TorrentInterrupted; FileChanged; Heartbeat];
  as_str_name := fun t =>
    match t with
    | SyncFailed => bs "sync_failed" | PeerQuiet => bs "peer_quiet" | EndpointRotated => bs "endpoint_rotated"
    | ItemsShared => bs "items_shared" | ItemFailed => bs "item_failed" | PeerRevoked => bs "peer_revoked"
    | PeerFirstContact => bs "peer_first_contact" | TrackerUnreachable => bs "tracker_unreachable"
    | LibraryUnreadable => bs "library_unreadable" | TorrentInterrupted => bs "torrent_interrupted"
    | FileChanged => bs "file_changed" | Heartbeat => bs "heartbeat"
    end
|}.

#[export] Instance NotificationTrigger_laws : StrEnumLaws NotificationTrigger.
Proof.
  split; [|by apply (bool_decide_unpack _)].
  intros v. apply (bool_decide_unpack _). by destruct v.
Qed.

Inductive NotifyKind : Type := Generic | Discord | Apprise | Ntfy | Gotify | Telegram | Pushover.

Section Config.
Context `{U : UrlLib}.

(** What the handlers read of [Config]. *)
Record ServeConfig : Type := mkConfig {
  cf_data_dir : bytes;
  cf_retention : Retention;
  cf_magnet_links : bool;
  cf_tracker : TrackerConfig;
  cf_bind_port : N;
  cf_triggers : list NotificationTrigger;
  cf_notify_kind : NotifyKind
}.

(** [Config::database_path], [vault_path] and [torrent_dir]. *)
Definition database_path (c : ServeConfig) : bytes := path_join (cf_data_dir c) (bs "sharerr.db").
Definition vault_path (c : ServeConfig) : bytes := path_join (cf_data_dir c) (bs "vault.bin").
Definition config_torrent_dir (c : ServeConfig) : bytes := path_join (cf_data_dir c) (bs "torrents").

End Config.

(** ** State *)

(** Values read out of the vault: outside, whether they were looked up; inside,
    whether there is one. *)
Record VaultCaches : Type := mkCaches {
  vc_tracker_tokens : option (option (option bytes * option bytes));
  vc_gossip_identity : option (option bytes);
  vc_metrics_token : option (option bytes);
  vc_api_token : option (option bytes);
  vc_webhook_url : option (option bytes)
}.

Definition no_caches : VaultCaches := mkCaches None None None None None.

(** Why there is no seed: stored but not 32 bytes of hex, not generated, not
    stored. *)
Inductive SeedFailure : Type := SeedNotHex | SeedNotMinted (e : bytes) | SeedNotStored (e : VaultError).

(** One call of [Webhook::post]. *)
Record Post : Type := mkPost { po_url : bytes; po_kind : NotifyKind; po_event : bytes; po_message : bytes }.

Section State.
Context `{U : UrlLib}.

Record Serve : Type := mkServe {
  sv_config : ServeConfig;
  sv_opened : bool;
  sv_db : Db;
  sv_vault : option bytes;
  sv_caches : VaultCaches;
  sv_legacy : option Z;
  sv_swarms : Swarms;
  sv_endpoint : AdvertisedEndpoint;
  sv_client : AdvertisedEndpoint;
  sv_torrents : gmap bytes bytes;
  sv_recovery_failures : N;
  sv_sync_failures : N;
  sv_posted : list Post;
  sv_script : Script
}.

Definition put_db (opened : bool) (db : Db) (script : Script) (s : Serve) : Serve :=
  mkServe (sv_config s) opened db (sv_vault s) (sv_caches s) (sv_legacy s) (sv_swarms s) (sv_endpoint s) (sv_client s)
    (sv_torrents s) (sv_recovery_failures s) (sv_sync_failures s) (sv_posted s) script.
Definition put_vault (file : option bytes) (script : Script) (s : Serve) : Serve :=
  mkServe (sv_config s) (sv_opened s) (sv_db s) file (sv_caches s) (sv_legacy s) (sv_swarms s) (sv_endpoint s) (sv_client s)
    (sv_torrents s) (sv_recovery_failures s) (sv_sync_failures s) (sv_posted s) script.
Definition put_caches (caches : VaultCaches) (s : Serve) : Serve :=
  mkServe (sv_config s) (sv_opened s) (sv_db s) (sv_vault s) caches (sv_legacy s) (sv_swarms s) (sv_endpoint s) (sv_client s)
    (sv_torrents s) (sv_recovery_failures s) (sv_sync_failures s) (sv_posted s) (sv_script s).
Definition put_legacy (used : option Z) (s : Serve) : Serve :=
  mkServe (sv_config s) (sv_opened s) (sv_db s) (sv_vault s) (sv_caches s) used (sv_swarms s) (sv_endpoint s) (sv_client s)
    (sv_torrents s) (sv_recovery_failures s) (sv_sync_failures s) (sv_posted s) (sv_script s).
Definition put_swarms (swarms : Swarms) (s : Serve) : Serve :=
  mkServe (sv_config s) (sv_opened s) (sv_db s) (sv_vault s) (sv_caches s) (sv_legacy s) swarms (sv_endpoint s) (sv_client s)
    (sv_torrents s) (sv_recovery_failures s) (sv_sync_failures s) (sv_posted s) (sv_script s).
Definition put_failures (recovery sync : N) (s : Serve) : Serve :=
  mkServe (sv_config s) (sv_opened s) (sv_db s) (sv_vault s) (sv_caches s) (sv_legacy s) (sv_swarms s) (sv_endpoint s) (sv_client s)
    (sv_torrents s) recovery sync (sv_posted s) (sv_script s).
Definition put_posted (posted : list Post) (s : Serve) : Serve :=
  mkServe (sv_config s) (sv_opened s) (sv_db s) (sv_vault s) (sv_caches s) (sv_legacy s) (sv_swarms s) (sv_endpoint s) (sv_client s)
    (sv_torrents s) (sv_recovery_failures s) (sv_sync_failures s) posted (sv_script s).

End State.

Abbreviation ServeM := (St Serve).

(** The environment the master key is read from. *)
Class MasterEnv : Type := { env_master_key : option bytes; env_master_key_file : option bytes }.

Section Process.
Context `{U : UrlLib} `{D : Digests} `{DC : Decoders} `{C : VaultCipher} `{KF : KeyFiles} `{ME : MasterEnv} `{RO : RowOrder}.

(** A method of an open store, and a call on the vault's file. *)
Definition on_store {A : Type} (m : DbM A) : ServeM A :=
  focus (fun s => (sv_db s, sv_script s)) (fun ds s => put_db (sv_opened s) ds.1 ds.2 s) m.
Definition on_vault {A : Type} (m : DiskM A) : ServeM A :=
  focus (fun s => (sv_vault s, sv_script s)) (fun disk s => put_vault disk.1 disk.2 s) m.

(** Whether the next call of the operating system succeeds. *)
Definition serve_draw : ServeM bool := on_vault (disk_script draw).

(** [ServeState::store]. *)
Definition store : ServeM (result unit bytes) :=
  let! opened := sgets sv_opened in
  if opened : bool then sret (Ok tt)
  else
    let! config := sgets sv_config in
    let! ok := serve_draw in
    if ok : bool then
      let! kept := smodify (fun s => put_db true (with_retention (cf_retention config) (sv_db s)) (sv_script s) s) in
      sret (Ok tt)
    else
      let! error := sgets (fun s => sc_error (sv_script s)) in
      sret (Err (bs "opening " ++ database_path config ++ bs ": " ++ error)).

(** How the errors of the master key read. *)
Definition describe_master (e : VaultError) : bytes :=
  match e with
  | NoMasterKey => bs "no master key: set SHARERR_MASTER_KEY or SHARERR_MASTER_KEY_FILE. sharerr will not fall back to storing credentials in plaintext"
  | EmptyMasterKey => bs "master key is empty"
  | MasterKeyFile path source => bs "could not read master key file " ++ path ++ bs ": " ++ source
  | _ => []
  end.

(** [ServeState::open_vault], through [secrets::open_vault_at]. *)
Definition open_vault : ServeM (result Vault bytes) :=
  let! config := sgets sv_config in
  let path := vault_path config in
  try! master := sret (rmap_err describe_master (master_key_from env_master_key env_master_key_file)) in
  let! joined := serve_draw in
  if joined : bool then
    let! opened := on_vault (vault_open path master) in
    sret (rmap_err (fun _ => bs "opening vault at " ++ path) opened)
  else
    let! error := sgets (fun s => sc_error (sv_script s)) in sret (Err error).

(** [ServeState::try_cached_from_vault] for the cache [get] and [put] name. *)
Definition try_cached_from_vault {T : Type} (get : VaultCaches -> option (option T))
    (put : option (option T) -> VaultCaches -> VaultCaches) (load : Vault -> DiskM (option T)) : ServeM (result (option T) bytes) :=
  let! cached := sgets (fun s => get (sv_caches s)) in
  match cached with
  | Some value => sret (Ok value)
  | None =>
      try! vault := open_vault in
      let! value := on_vault (load vault) in
      let! kept := smodify (fun s => put_caches (put (Some value) (sv_caches s)) s) in
      sret (Ok value)
  end.

(** [cached_from_vault]: a vault that does not open reads as nothing stored. *)
Definition cached_from_vault {T : Type} (get : VaultCaches -> option (option T))
    (put : option (option T) -> VaultCaches -> VaultCaches) (load : Vault -> DiskM (option T)) : ServeM (option T) :=
  let! r := try_cached_from_vault get put load in
  sret (match r with Ok value => value | Err _ => None end).

(** [vault_string]. *)
Definition vault_string (v : Vault) (key : bytes) : option bytes :=
  match vault_get v key with Ok value => value | Err _ => None end.

Definition tracker_tokens : ServeM (result (option bytes * option bytes) bytes) :=
  try! tokens := try_cached_from_vault vc_tracker_tokens
      (fun value c => mkCaches value (vc_gossip_identity c) (vc_metrics_token c) (vc_api_token c) (vc_webhook_url c))
      (fun vault => sret (Some (vault_string vault TRACKER_TOKEN, vault_string vault TRACKER_TOKEN_PREVIOUS))) in
  sret (Ok (default (None, None) tokens)).

Definition tracker_token : ServeM (option bytes) :=
  let! r := tracker_tokens in
  sret (match r with Ok (current, _) => current | Err _ => None end).

Definition try_metrics_token : ServeM (result (option bytes) bytes) :=
  try_cached_from_vault vc_metrics_token
    (fun value c => mkCaches (vc_tracker_tokens c) (vc_gossip_identity c) value (vc_api_token c) (vc_webhook_url c))
    (fun vault => sret (vault_string vault (bs "metrics.token"))).

Definition try_api_token : ServeM (result (option bytes) bytes) :=
  try_cached_from_vault vc_api_token
    (fun value c => mkCaches (vc_tracker_tokens c) (vc_gossip_identity c) (vc_metrics_token c) value (vc_webhook_url c))
    (fun vault => sret (vault_string vault (bs "api.token"))).

(** [ServeState::notification_url] of the webhook. *)
Definition notification_url : ServeM (option bytes) :=
  cached_from_vault vc_webhook_url
    (fun value c => mkCaches (vc_tracker_tokens c) (vc_gossip_identity c) (vc_metrics_token c) (vc_api_token c) value)
    (fun vault => sret (vault_string vault NOTIFICATIONS_WEBHOOK_URL)).

(** [secrets::load_or_create_seed]: the seed, and whether it was minted now. *)
Definition load_or_create_seed (vault : Vault) (key : bytes) : DiskM (result (bytes * bool) SeedFailure) :=
  match vault_get vault key with
  | Ok (Some stored) =>
      sret (match hex_decode stored with
            | Some seed => if decide (length seed = 32) then Ok (seed, false) else Err SeedNotHex
            | None => Err SeedNotHex
            end)
  | _ =>
      let! minted := disk_script (random_bytes 32) in
      match minted with
      | Err err => sret (Err (SeedNotMinted err))
      | Ok seed => fun disk =>
          let '(stored, (_, disk)) := vault_put key (hex_encode seed) (vault, disk) in
          (match stored with Ok _ => Ok (seed, true) | Err e => Err (SeedNotStored e) end, disk)
      end
  end.

(** [ServeState::gossip_identity]: the signing key's seed. *)
Definition gossip_identity : ServeM (option bytes) :=
  cached_from_vault vc_gossip_identity
    (fun value c => mkCaches (vc_tracker_tokens c) value (vc_metrics_token c) (vc_api_token c) (vc_webhook_url c))
    (fun vault =>
      let! seed := load_or_create_seed vault IDENTITY_SIGNING_KEY in
      sret (fst <$> res_ok seed)).

(** [Config::public_base_url] and [ServeState::public_base_url]. *)
Definition config_public_base_url (c : ServeConfig) : bytes :=
  match advertised_base (cf_tracker c) (cf_bind_port c) with
  | Ok (Some base) => base_string base
  | Ok None | Err _ => bs "http://localhost:" ++ u_to_string (cf_bind_port c)
  end.

Definition public_base_url : ServeM bytes :=
  sgets (fun s => match current (sv_endpoint s) with
                  | Some base => base_string base
                  | None => config_public_base_url (sv_config s)
                  end).

Definition torrent_dir : ServeM bytes := sgets (fun s => config_torrent_dir (sv_config s)).

(** [LegacyTokenStatus]. *)
Definition record_used (now : Z) : ServeM unit := smodify (put_legacy (Some now)).
Definition reset_legacy : ServeM unit := smodify (put_legacy None).

(** ** Backing off *)

(** Durations in nanoseconds. *)
Definition RECOVERY_INTERVAL : Z := 15 * SEC.
Definition RECOVERY_INTERVAL_MAX : Z := 300 * SEC.

(** [backoff_for]; [Duration::saturating_mul] stays far from its limit here. *)
Definition backoff_for (failures : N) : Z :=
  Z.min (RECOVERY_INTERVAL * 2 ^ Z.of_N (N.min failures 16)) RECOVERY_INTERVAL_MAX.

Definition recovery_delay : ServeM Z := sgets (fun s => backoff_for (sv_recovery_failures s)).

Definition note_sync_success : ServeM unit := smodify (fun s => put_failures (sv_recovery_failures s) 0 s).
Definition note_sync_failure : ServeM unit :=
  smodify (fun s => put_failures (sv_recovery_failures s) ((sv_sync_failures s + 1) mod (u32_max + 1))%N s).

Definition sync_retry_delay (interval : Z) : ServeM Z :=
  sgets (fun s => if (sv_sync_failures s =? 0)%N then interval else Z.min (backoff_for (sv_sync_failures s)) interval).

(** [ServeState::invalidate]: the caches and both counters start over. *)
Definition invalidate : ServeM unit := smodify (fun s => put_failures 0 0 (put_caches no_caches s)).

(** ** Notifications (notify.rs) *)

Definition trigger_label (t : NotificationTrigger) : bytes :=
  match t with
  | SyncFailed => bs "sync failed"
  | PeerQuiet => bs "peer gone quiet"
  | EndpointRotated => bs "advertised endpoint rotated"
  | ItemsShared => bs "items newly shared"
  | ItemFailed => bs "items failed to share"
  | PeerRevoked => bs "friend revoked"
  | PeerFirstContact => bs "friend made first contact"
  | TrackerUnreachable => bs "tracker unreachable"
  | LibraryUnreadable => bs "library path unreadable"
  | TorrentInterrupted => bs "torrent stopped or removed"
  | FileChanged => bs "shared file changed"
  | Heartbeat => bs "heartbeat push"
  end.

Definition trigger_enabled (t : NotificationTrigger) : ServeM bool :=
  sgets (fun s => bool_decide (t ∈ cf_triggers (sv_config s))).

(** [background_url] of the webhook, and [webhook]; the shared HTTP client is
    taken to have been built. *)
Definition background_url : ServeM (option Url) :=
  let! configured := notification_url in
  sret (configured ≫= (fun raw => res_ok (url_parse raw))).

(** [send]: the call of [Webhook::post], whose outcome only reaches the log. *)
Definition send (t : NotificationTrigger) (message : bytes) : ServeM unit :=
  let! enabled := trigger_enabled t in
  if enabled : bool then
    let! url := background_url in
    match url with
    | None => sret tt
    | Some url => smodify (fun s =>
        put_posted (sv_posted s ++ [mkPost (url_as_str url) (cf_notify_kind (sv_config s)) (trigger_label t) message]) s)
    end
  else sret tt.

Definition first_contact_message (label : bytes) (kind : EndpointKind) : bytes :=
  let how := match kind with
             | KindApi => bs "fetched the feed"
             | KindClient => bs "announced to the tracker"
             | KindTracker => bs "made contact"
             end in
  label ++ bs " " ++ how ++ bs " for the first time".

Definition peer_first_contact (peer_id : Z) (kind : EndpointKind) : ServeM unit :=
  let! enabled := trigger_enabled PeerFirstContact in
  if enabled : bool then
    let! found := on_store (peer_by_id peer_id) in
    let label := match found with Ok (Some peer) => p_label peer | _ => bs "friend #" ++ i_to_string peer_id end in
    send PeerFirstContact (first_contact_message label kind)
  else sret tt.

(** [torznab::record_sighting]. *)
Definition record_sighting (now : Z) (peer_id : Z) (kind : EndpointKind) (addr : option bytes) : ServeM unit :=
  let! touch := on_store (touch_peer now peer_id) in
  match touch with
  | Err _ => sret tt
  | Ok touch =>
      let! recorded :=
        match addr with
        | Some addr =>
            if touch_updated touch then on_store (record_peer_endpoint now peer_id kind addr (Some now) ViaDirect)
            else sret (Ok tt)
        | None => sret (Ok tt)
        end in
      match touch with TouchFirst => peer_first_contact peer_id kind | _ => sret tt end
  end.

End Process.

(** ** Facts: what reading does *)

(** Nothing a friend or an operator could see has changed: the store may have been
    opened, which sets its retention, and a cache filled. *)
Record undisturbed `{U : UrlLib} (s s' : Serve) : Prop := {
  ud_config : sv_config s' = sv_config s;
  ud_db : exists r, sv_db s' = with_retention r (sv_db s);
  ud_vault : sv_vault s' = sv_vault s;
  ud_swarms : sv_swarms s' = sv_swarms s;
  ud_endpoint : sv_endpoint s' = sv_endpoint s;
  ud_client : sv_client s' = sv_client s;
  ud_torrents : sv_torrents s' = sv_torrents s;
  ud_posted : sv_posted s' = sv_posted s
}.

Lemma with_retention_id db : with_retention (db_retention db) db = db.
Proof. by destruct db. Qed.

#[export] Instance undisturbed_preorder `{U : UrlLib} : PreOrder (undisturbed (U := U)).
Proof.
  split.
  - intros s. constructor; try done. exists (db_retention (sv_db s)). by rewrite with_retention_id.
  - intros a b c [H1 [r1 H2] H3 H4 H5 H6 H7 H8] [G1 [r2 G2] G3 G4 G5 G6 G7 G8]. constructor; try congruence.
    exists r2. rewrite G2, H2. by destruct (sv_db a).
Qed.

Section ReadFacts.
Context `{U : UrlLib} `{D : Digests} `{DC : Decoders} `{C : VaultCipher} `{KF : KeyFiles} `{ME : MasterEnv} `{RO : RowOrder}.

(** A call on the vault's file that leaves the file as it is. *)
Lemma moves_on_vault {A : Type} (m : DiskM A) :
  (forall disk, (m disk).2.1 = disk.1) -> moves undisturbed (on_vault m).
Proof.
  intros H. apply moves_focus. intros s. specialize (H (sv_vault s, sv_script s)). cbn in H.
  constructor; cbn; try done. exists (db_retention (sv_db s)). by rewrite with_retention_id.
Qed.

Lemma moves_serve_draw : moves undisturbed serve_draw.
Proof. apply moves_on_vault. intros [file script]. unfold disk_script, focus. cbn. by destruct (draw script). Qed.

Lemma moves_store : moves undisturbed store.
Proof.
  unfold store. apply moves_bind; [apply _|apply moves_gets; apply _|]. intros []; [apply moves_ret; apply _|].
  apply moves_bind; [apply _|apply moves_gets; apply _|]. intros config.
  apply moves_bind; [apply _|apply moves_serve_draw|]. intros [].
  - apply moves_bind; [apply _| |intros ?; apply moves_ret; apply _]. apply moves_modify.
    intros s. constructor; cbn; try done. by eexists.
  - apply moves_bind; [apply _|apply moves_gets; apply _|]. intros ?. apply moves_ret. apply _.
Qed.

(** Opening a vault writes nothing. *)
Lemma vault_open_file path master disk : (vault_open path master disk).2.1 = disk.1.
Proof.
  unfold vault_open, read_if_present, try_bind, sbind. pose proof (io_call_file path disk) as H.
  destruct (io_call path disk) as [[u|e] d]; cbn in *; [|done].
  destruct (d.1) as [raw|] eqn:E; cbn; [congruence|]. destruct (random_array _ SALT_LEN d) as [r d'] eqn:E'.
  apply random_array_file in E' as [E' _]. cbn in E'. destruct r; cbn; [|congruence].
  destruct (derive_cipher master a); cbn; congruence.
Qed.

Lemma moves_open_vault : moves undisturbed open_vault.
Proof.
  unfold open_vault. apply moves_bind; [apply _|apply moves_gets; apply _|]. intros config.
  apply moves_try; [apply _|apply moves_ret; apply _|]. intros master.
  apply moves_bind; [apply _|apply moves_serve_draw|]. intros [].
  - apply moves_bind; [apply _| |intros ?; apply moves_ret; apply _]. apply moves_on_vault. apply vault_open_file.
  - apply moves_bind; [apply _|apply moves_gets; apply _|]. intros ?. apply moves_ret. apply _.
Qed.

Lemma moves_cached {T : Type} (get : VaultCaches -> option (option T)) put (load : Vault -> DiskM (option T)) :
  (forall v disk, (load v disk).2.1 = disk.1) -> moves undisturbed (try_cached_from_vault get put load).
Proof.
  intros Hl. unfold try_cached_from_vault. apply moves_bind; [apply _|apply moves_gets; apply _|].
  intros [value|]; [apply moves_ret; apply _|]. apply moves_try; [apply _|apply moves_open_vault|]. intros vault.
  apply moves_bind; [apply _|by apply moves_on_vault|]. intros value.
  apply moves_bind; [apply _| |intros ?; apply moves_ret; apply _]. apply moves_modify.
  intros s. constructor; cbn; try done. exists (db_retention (sv_db s)). by rewrite with_retention_id.
Qed.

Lemma moves_tracker_tokens : moves undisturbed tracker_tokens.
Proof. apply moves_try; [apply _| |intros ?; apply moves_ret; apply _]. by apply moves_cached. Qed.

(** A read of the store. *)
Lemma on_store_run {A : Type} (m : DbM A) s :
  on_store m s = ((m (sv_db s, sv_script s)).1,
                  put_db (sv_opened s) (m (sv_db s, sv_script s)).2.1 (m (sv_db s, sv_script s)).2.2 s).
Proof. unfold on_store, focus. by destruct (m _). Qed.

Lemma moves_on_store {A : Type} (m : DbM A) : moves (tables eq) m -> moves undisturbed (on_store m).
Proof.
  intros H. apply moves_focus. intros s. specialize (H (sv_db s, sv_script s)). unfold tables in H. cbn in H.
  constructor; cbn; try done. rewrite <- H. exists (db_retention (sv_db s)). by rewrite with_retention_id.
Qed.

(** The vault that opens under the environment's master key. *)
Definition vault_opens (s : Serve) (vault : Vault) : Prop :=
  exists master script, master_key_from env_master_key env_master_key_file = Ok master /\
    (vault_open (vault_path (sv_config s)) master (sv_vault s, script)).1 = Ok vault.

Lemma open_vault_opens s vault s' : open_vault s = (Ok vault, s') -> vault_opens s vault.
Proof.
  intros Hv. unfold open_vault, sbind at 1 in Hv. cbn [sgets] in Hv. apply try_inv in Hv as (master & s3 & [= Hm <-] & Hv).
  apply rmap_err_Ok in Hm. exists master.
  unfold sbind at 1 in Hv. pose proof (moves_serve_draw s) as Hd. destruct (serve_draw s) as [[] s4]; cbn in Hv, Hd; [|done].
  unfold sbind, on_vault, focus in Hv. destruct (vault_open _ _ _) as [r d] eqn:E. cbn in Hv. injection Hv as Hr _.
  apply rmap_err_Ok in Hr. subst r. exists (sv_script s4). split; [done|].
  destruct Hd as [_ _ Hvault]. rewrite <- Hvault. by rewrite E.
Qed.

(** A secret a request is checked against: the cached one, or else the one a vault opened
    now holds. *)
Definition secret_in_force (get : VaultCaches -> option (option bytes)) (key : bytes) (s : Serve) (value : option bytes) : Prop :=
  match get (sv_caches s) with
  | Some cached => value = cached
  | None => exists vault, vault_opens s vault /\ value = vault_string vault key
  end.

(** The tokens a request is checked against: the cached ones, or else those a
    vault opened now holds. *)
Definition tokens_in_force (s : Serve) (tokens : option bytes * option bytes) : Prop :=
  match vc_tracker_tokens (sv_caches s) with
  | Some cached => tokens = default (None, None) cached
  | None => exists master vault script,
      master_key_from env_master_key env_master_key_file = Ok master /\
      (vault_open (vault_path (sv_config s)) master (sv_vault s, script)).1 = Ok vault /\
      tokens = (vault_string vault TRACKER_TOKEN, vault_string vault TRACKER_TOKEN_PREVIOUS)
  end.

Lemma tracker_tokens_inv s tokens s' : tracker_tokens s = (Ok tokens, s') -> tokens_in_force s tokens.
Proof.
  unfold tracker_tokens. intros (found & s1 & H & [= <- _])%try_inv. unfold tokens_in_force.
  unfold try_cached_from_vault, sbind at 1 in H. cbn [sgets] in H. destruct (vc_tracker_tokens (sv_caches s)) as [cached|].
  { by injection H as <- _. }
  apply try_inv in H as (vault & s2 & Hv & H). unfold sbind, on_vault, focus in H. cbn in H. injection H as <- _.
  apply open_vault_opens in Hv as (master & script & Hm & Hv). by exists master, vault, script.
Qed.

(** A secret read through its cache. *)
Lemma cached_secret_inv get put key s value s' :
  try_cached_from_vault get put (fun vault => sret (vault_string vault key)) s = (Ok value, s') -> secret_in_force get key s value.
Proof.
  unfold try_cached_from_vault, secret_in_force, sbind at 1. cbn [sgets]. destruct (get (sv_caches s)) as [cached|]; [by intros [= <- _]|].
  intros (vault & s2 & Hv & H)%try_inv. unfold sbind, on_vault, focus in H. cbn in H. injection H as <- _.
  exists vault. split; [|done]. by eapply open_vault_opens.
Qed.

(** Only the store's slot, the world and the caches of [s] matter to what it reads. *)
Lemma store_caches s r s' : store s = (r, s') -> sv_caches s' = sv_caches s /\ sv_config s' = sv_config s /\ sv_vault s' = sv_vault s.
Proof.
  unfold store, sbind, sgets, smodify, serve_draw, on_vault, focus, disk_script, sret. cbn.
  destruct (sv_opened s); [by intros [= _ <-]|]. cbn. unfold focus. cbn. destruct (draw (sv_script s)) as [[] script]; cbn; by intros [= _ <-].
Qed.

End ReadFacts.

Lemma tokens_in_force_ext `{U : UrlLib} `{C : VaultCipher} `{KF : KeyFiles} `{ME : MasterEnv} s s' tokens :
  sv_caches s' = sv_caches s -> sv_config s' = sv_config s -> sv_vault s' = sv_vault s ->
  tokens_in_force s' tokens -> tokens_in_force s tokens.
Proof. unfold tokens_in_force. by intros -> -> ->. Qed.

(** ** Facts: what a sighting does *)

(** What a friend may do and is known by: all of a row but when they were last
    seen and what they moved. *)
Definition peer_access (r : PeerRow) : bytes * bytes * option Z * bytes * option bytes * option bytes * option bytes * option Z * option Z :=
  (pr_label r, pr_key_hash r, pr_revoked_at r, pr_scope r, pr_pubkey r, pr_gossip_url r, pr_gossip_record r, pr_max_size_bytes r, pr_max_height r).

(** A run of the store that shares nothing new and gives nobody access. *)
Record access_kept (db db' : Db) : Prop := {
  ak_items : db_items db' = db_items db;
  ak_sequence : db_item_sequence db' = db_item_sequence db;
  ak_origins : db_origins db' = db_origins db;
  ak_audience : db_audience db' = db_audience db;
  ak_peers : peer_access <$> tb_rows (db_peers db') = peer_access <$> tb_rows (db_peers db);
  ak_catalog : db_catalog db' = db_catalog db;
  ak_runs : db_runs db' = db_runs db
}.

#[export] Instance access_kept_preorder : PreOrder access_kept.
Proof. split; [by intros db|]. intros a b c [] []. constructor; congruence. Qed.

Lemma update_peer_access id guard set db :
  (forall r, peer_access (set r) = peer_access r) -> access_kept db (update_peer id guard set db).2.
Proof.
  intros Hset. unfold update_peer. destruct (tb_rows (db_peers db) !! id) as [r|] eqn:E; [|done].
  destruct (guard r); [|done]. constructor; cbn; try done. rewrite fmap_insert, Hset. apply insert_id. by rewrite lookup_fmap, E.
Qed.

Lemma moves_touch_peer now id : moves (tables access_kept) (touch_peer now id).
Proof.
  unfold touch_peer. eapply moves_try; [apply _|apply moves_select; apply _|]. intros [at_|].
  - destruct (_ <=? _)%Z; [apply moves_ret; apply _|]. eapply moves_try; [apply _| |intros ?; apply moves_ret; apply _].
    apply moves_changed; [apply _|]. intros db. by apply update_peer_access.
  - eapply moves_try; [apply _| |intros ?; apply moves_ret; apply _]. apply moves_changed; [apply _|]. intros db. by apply update_peer_access.
Qed.

Lemma moves_record_endpoint now id kind addr at_ via : moves (tables access_kept) (record_peer_endpoint now id kind addr at_ via).
Proof. apply moves_query; [apply _|]. intros db. by destruct (known_peer _ _). Qed.

Lemma moves_record_transfer now id down up : moves (tables access_kept) (record_transfer now id down up).
Proof.
  unfold record_transfer. destruct (_ && _); [apply moves_ret; apply _|]. apply moves_execute; [apply _|]. intros db.
  destruct id as [id|]; [|by constructor]. etransitivity; [|by apply update_peer_access]. by constructor.
Qed.

(** Everything but the bookkeeping of who was seen when, and notifications. *)
Record bookkept `{U : UrlLib} (s s' : Serve) : Prop := {
  bk_config : sv_config s' = sv_config s;
  bk_db : access_kept (sv_db s) (sv_db s');
  bk_vault : sv_vault s' = sv_vault s;
  bk_swarms : sv_swarms s' = sv_swarms s;
  bk_endpoint : sv_endpoint s' = sv_endpoint s;
  bk_client : sv_client s' = sv_client s;
  bk_torrents : sv_torrents s' = sv_torrents s
}.

#[export] Instance bookkept_preorder `{U : UrlLib} : PreOrder (bookkept (U := U)).
Proof.
  split; [by intros s|]. intros a b c [] []. constructor; try congruence. by transitivity (sv_db b).
Qed.

Lemma undisturbed_bookkept `{U : UrlLib} s s' : undisturbed s s' -> bookkept s s'.
Proof. intros [? [r Hr] ? ? ? ? ? ?]. constructor; try done. rewrite Hr. by destruct (sv_db s). Qed.

Section SightingFacts.
Context `{U : UrlLib} `{D : Digests} `{DC : Decoders} `{C : VaultCipher} `{KF : KeyFiles} `{ME : MasterEnv} `{RO : RowOrder}.

Lemma moves_store_call {A : Type} (m : DbM A) : moves (tables access_kept) m -> moves bookkept (on_store m).
Proof. intros H. apply moves_focus. intros s. specialize (H (sv_db s, sv_script s)). by constructor. Qed.

Lemma moves_send t message : moves bookkept (send t message).
Proof.
  unfold send. apply moves_bind; [apply _|apply moves_gets; apply _|]. intros []; [|apply moves_ret; apply _].
  apply moves_bind; [apply _| |].
  - apply (moves_weaken undisturbed); [apply undisturbed_bookkept|]. unfold background_url.
    apply moves_bind; [apply _| |intros ?; apply moves_ret; apply _].
    apply moves_bind; [apply _|by apply moves_cached|]. intros ?. apply moves_ret. apply _.
  - intros [url|]; [|apply moves_ret; apply _]. apply moves_modify. by intros s.
Qed.

(** Recording that a friend was seen changes what nobody may do. *)
Lemma moves_record_sighting now id kind addr : moves bookkept (record_sighting now id kind addr).
Proof.
  unfold record_sighting. apply moves_bind; [apply _|apply moves_store_call, moves_touch_peer|]. intros [touch|]; [|apply moves_ret; apply _].
  apply moves_bind; [apply _| |].
  - destruct addr; [|apply moves_ret; apply _]. destruct (touch_updated touch); [|apply moves_ret; apply _].
    apply moves_store_call, moves_record_endpoint.
  - intros ?. destruct touch; try (apply moves_ret; apply _). unfold peer_first_contact.
    apply moves_bind; [apply _|apply moves_gets; apply _|]. intros []; [|apply moves_ret; apply _].
    apply moves_bind; [apply _| |intros ?; apply moves_send]. apply moves_store_call, moves_select. apply _.
Qed.

End SightingFacts.

(** ** A concrete process, for the witnesses *)

Definition no_key_files : KeyFiles := fun _ => Err (bs "no such file").
Definition sample_env : MasterEnv := {| env_master_key := Some (bs "k"); env_master_key_file := None |}.

(** One film shared under the hash of twenty [h], and one friend. *)
Definition shared_hash : bytes := replicate 20 "h"%byte.
Definition shared_hex : bytes := concat (replicate 20 (bs "68")).

Definition shared_row : ItemRow :=
  mkRow 1 (r_file sample_row) None (mkItemTorrent (Some shared_hex) None None true false) (mkItemReport None None)
    (mkItemStamp None None) None Seeding None 100 100.

Definition friend_row : PeerRow := mkPeerRow (bs "Sam") (bs "kh") 10 None None (bs "all") None None None 0 0 None None.

Definition serve_db : Db :=
  mkDb {[ (Radarr, 70%Z) := shared_row ]} 1 ∅ ∅ (mkTable {[ 1%Z := friend_row ]} 1) ∅ tb_empty tb_empty tb_empty (mkTotals 0 0 None) no_retention.

Definition sample_config : @ServeConfig text_urls :=
  mkConfig (bs "/data") no_retention true (mkTrackerConfig None None None) 8477 [PeerFirstContact] Generic.

Definition sample_serve (tokens : option bytes * option bytes) (db : Db) (torrents : gmap bytes bytes) : @Serve text_urls :=
  mkServe sample_config true db None (mkCaches (Some (Some tokens)) None None None (Some (Some (bs "http://hook")))) None ∅
    (@ep_new text_urls (Some (bs "http://a"))) (@ep_new text_urls None) torrents 0 0 [] (mkScript [] (replicate 600 x2a) []).
