(* ===== verification/Gluetun.v ===== *)
(** * Following a tunnel's address (gluetun.rs, and the local hooks of commands/serve.rs)

    Behind gluetun neither the exit address nor the forwarded port stays.  A poller
    asks gluetun's control server for both and feeds the advertised endpoint; the
    hooks gluetun calls only make it ask sooner, and forget a port that is going away.
    One poller follows the tracker's tunnel, another the torrent client's.  The control
    server and the parts of the [url] crate used here are parameters. *)

From S2P Require Import Prelude RustStd Text Bencode Metainfo Net Endpoint TrackerUrl Announce Model Paths Totp Effects Accounts Database Items Peers History Sightings Vault Serve.

(** ** Targets, configuration and errors *)

Inductive GluetunTarget : Type := TunTracker | TunClient.

#[export] Instance GluetunTarget_eq_dec : EqDecision GluetunTarget.
Proof. solve_decision. Defined.

Definition from_query (raw : option bytes) : GluetunTarget := if bool_decide (raw = Some (bs "client")) then TunClient else TunTracker.

Definition tunnel_label (target : GluetunTarget) : bytes := match target with TunTracker => bs "tracker" | TunClient => bs "client" end.

Definition credential_key (target : GluetunTarget) : bytes :=
  match target with TunTracker => bs "gluetun.api_key" | TunClient => bs "gluetun_client.api_key" end.

(** The slot of a pair a target names. *)
Definition pick {A : Type} (target : GluetunTarget) (p : A * A) : A := match target with TunTracker => p.1 | TunClient => p.2 end.
Definition set_pick {A : Type} (target : GluetunTarget) (a : A) (p : A * A) : A * A :=
  match target with TunTracker => (a, p.2) | TunClient => (p.1, a) end.

Record GluetunConfig `{U : UrlLib} : Type := mkGluetun { gc_enabled : bool; gc_control_url : option Url; gc_poll_secs : N }.

Definition MIN_POLL_SECS : N := 10.

Inductive GluetunError : Type :=
| GlUnreachable (url detail : bytes)
| GlStatus (status : N) (path : bytes)
| GlMalformed (detail : bytes)
| NoForwardedPort
| GlUnauthorized (url : bytes).

(** [Display for GluetunError]. *)
Definition gluetun_error_text (e : GluetunError) : bytes :=
  match e with
  | GlUnreachable url detail => bs "gluetun's control server at " ++ url ++ bs " could not be reached: " ++ detail
  | GlStatus status path => bs "gluetun's control server answered " ++ u_to_string status ++ bs " for " ++ path
  | GlMalformed detail => bs "gluetun sent a response this build could not read: " ++ detail
  | NoForwardedPort =>
      bs "gluetun reports no forwarded port — the provider may not grant one; falling back to the statically configured endpoint"
  | GlUnauthorized url =>
      bs "gluetun's control server at " ++ url ++ bs " rejected the request as unauthorized — set gluetun.api_key in Settings to the control server's API key (the apikey in gluetun's HTTP_CONTROL_SERVER_AUTH_DEFAULT_ROLE, or in a role covering GET /v1/publicip/ip, /v1/openvpn/portforwarded and /v1/portforward in its auth config file)"
  end.

(** ** What the poller last saw *)

Record GluetunSnapshot : Type := mkGluetunSnapshot {
  gn_last_poll_at : option Z;
  gn_last_success_at : option Z;
  gn_last_error : option bytes
}.

Definition gluetun_record_ok (now : Z) (s : GluetunSnapshot) : bool * GluetunSnapshot :=
  (bool_decide (is_Some (gn_last_error s)), mkGluetunSnapshot (Some now) (Some now) None).

Definition gluetun_record_err (now : Z) (message : bytes) (s : GluetunSnapshot) : bool * GluetunSnapshot :=
  (bool_decide (gn_last_error s <> Some message), mkGluetunSnapshot (Some now) (gn_last_success_at s) (Some message)).

(** ** Parameters *)

(** [Url::path], [set_path], [join], [port] and [to_string]. *)
Class UrlParts (U : UrlLib) : Type := {
  url_path : Url -> bytes;
  url_set_path : bytes -> Url -> Url;
  url_join : Url -> bytes -> result Url bytes;
  url_port : Url -> option N
}.

(** What a control server answers at a moment, to a URL with a key: a status and a body
    whose [public_ip] or [port] decodes or does not; [Err] is no answer. *)
Class ControlServer (U : UrlLib) : Type := {
  ip_answer : Url -> bytes -> result (N * result bytes bytes) bytes;
  port_answer : Url -> bytes -> result (N * result N bytes) bytes
}.

(** ** State *)

Record Tunnels `{U : UrlLib} : Type := mkTunnels {
  tn_serve : Serve;
  tn_config : GluetunConfig * GluetunConfig;
  tn_status : GluetunSnapshot * GluetunSnapshot;
  tn_keys : option (option bytes) * option (option bytes);
  tn_refresh : bool * bool;
  tn_wake : bool;
  tn_pass : bool
}.

Abbreviation TunnelM := (St Tunnels).

Section State.
Context `{U : UrlLib}.

Definition put_endpoints (es : AdvertisedEndpoint * AdvertisedEndpoint) (s : Serve) : Serve :=
  mkServe (sv_config s) (sv_opened s) (sv_db s) (sv_vault s) (sv_caches s) (sv_legacy s) (sv_swarms s) es.1 es.2
    (sv_torrents s) (sv_recovery_failures s) (sv_sync_failures s) (sv_posted s) (sv_script s).

(** [ServeState::endpoint_for]. *)
Definition endpoint_for (target : GluetunTarget) (t : Tunnels) : AdvertisedEndpoint := pick target (sv_endpoint (tn_serve t), sv_client (tn_serve t)).

Definition put_tn_serve (s : Serve) (t : Tunnels) : Tunnels :=
  mkTunnels _ s (tn_config t) (tn_status t) (tn_keys t) (tn_refresh t) (tn_wake t) (tn_pass t).
Definition put_endpoint (target : GluetunTarget) (e : AdvertisedEndpoint) (t : Tunnels) : Tunnels :=
  put_tn_serve (put_endpoints (set_pick target e (sv_endpoint (tn_serve t), sv_client (tn_serve t))) (tn_serve t)) t.
Definition put_status (target : GluetunTarget) (s : GluetunSnapshot) (t : Tunnels) : Tunnels :=
  mkTunnels _ (tn_serve t) (tn_config t) (set_pick target s (tn_status t)) (tn_keys t) (tn_refresh t) (tn_wake t) (tn_pass t).
Definition put_key (target : GluetunTarget) (k : option (option bytes)) (t : Tunnels) : Tunnels :=
  mkTunnels _ (tn_serve t) (tn_config t) (tn_status t) (set_pick target k (tn_keys t)) (tn_refresh t) (tn_wake t) (tn_pass t).

(** [ServeState::nudge_endpoint], [request_sync] and [request_pass]: a permit of a
    [Notify], which the loops take when they wait. *)
Definition nudge_endpoint (target : GluetunTarget) (t : Tunnels) : Tunnels :=
  mkTunnels _ (tn_serve t) (tn_config t) (tn_status t) (tn_keys t) (set_pick target true (tn_refresh t)) (tn_wake t) (tn_pass t).
Definition request_sync (t : Tunnels) : Tunnels :=
  mkTunnels _ (tn_serve t) (tn_config t) (tn_status t) (tn_keys t) (tn_refresh t) true (tn_pass t).
Definition request_pass (t : Tunnels) : Tunnels :=
  mkTunnels _ (tn_serve t) (tn_config t) (tn_status t) (tn_keys t) (tn_refresh t) true true.

Definition on_tunnel_serve {A : Type} (m : ServeM A) : TunnelM A := focus tn_serve put_tn_serve m.

(** Recording a poll's outcome. *)
Definition note (target : GluetunTarget) (f : GluetunSnapshot -> bool * GluetunSnapshot) : TunnelM bool := fun t =>
  let '(changed, s) := f (pick target (tn_status t)) in (changed, put_status target s t).

(** [GluetunConfig::effective_poll_secs] and [is_active]. *)
Definition effective_poll_secs (c : GluetunConfig) : N := N.max (gc_poll_secs c) MIN_POLL_SECS.
Definition is_active (c : GluetunConfig) : bool := gc_enabled c && bool_decide (is_Some (gc_control_url c)).

End State.

(** ** Asking the control server *)

Section Control.
Context `{U : UrlLib} `{UP : !UrlParts U}.

(** [sharerr_client::normalise_base]. *)
Definition normalise_base (base : Url) : Url :=
  if bool_decide (last (url_path base) = Some "/"%byte) then base else url_set_path (url_path base ++ bs "/") base.

(** [GluetunClient::get], for the answer the endpoint gives. *)
Definition gluetun_get {T : Type} (answer : Url -> bytes -> result (N * result T bytes) bytes) (base : Url) (key path : bytes) : result T GluetunError :=
  let? url := rmap_err (fun e => GlMalformed (url_as_str base ++ bs " + " ++ path ++ bs ": " ++ e)) (url_join base path) in
  let? response := rmap_err (fun e => GlUnreachable (url_as_str base) e) (answer url key) in
  let status := response.1 in
  if (status =? 401)%N || (status =? 403)%N then Err (GlUnauthorized (url_as_str base))
  else if negb ((200 <=? status)%N && (status <? 300)%N) then Err (GlStatus status path)
  else rmap_err GlMalformed response.2.

(** [Display for SocketAddr]. *)
Definition socket_to_string (ip : IpAddr) (port : N) : bytes :=
  match ip with
  | V4 _ _ _ _ => ip_to_string ip ++ bs ":" ++ u_to_string port
  | V6 _ => bs "[" ++ ip_to_string ip ++ bs "]:" ++ u_to_string port
  end.

(** Renderings of a string and of the crate's parse error in messages. *)
Context (debug_str : bytes -> bytes) (parse_error_text : ParseError -> bytes).
Context (CS : ControlServer U).

Definition public_ip (base : Url) (key : bytes) : result IpAddr GluetunError :=
  let? body := gluetun_get ip_answer base key (bs "v1/publicip/ip") in
  ok_or (parse_ip body) (GlMalformed (bs "public_ip " ++ debug_str body)).

Definition forwarded_port (base : Url) (key : bytes) : result N GluetunError :=
  let? port := gluetun_get port_answer base key (bs "v1/openvpn/portforwarded") in
  if (port =? 0)%N then Err NoForwardedPort else Ok port.

Definition resolve_base (base : Url) (key : bytes) (fallback_port : option N) : result Url GluetunError :=
  let? ip := public_ip base key in
  let? port :=
    match forwarded_port base key, fallback_port with
    | Ok port, _ => Ok port
    | Err _, Some fallback => Ok fallback
    | Err err, None => Err err
    end in
  let raw := bs "http://" ++ socket_to_string ip port in
  rmap_err (fun e => GlMalformed (raw ++ bs ": " ++ parse_error_text e)) (url_parse raw).

(** ** Polling *)

Context `{C : VaultCipher} `{KF : KeyFiles} `{ME : MasterEnv}.

(** [ServeState::gluetun_api_key]. *)
Definition gluetun_api_key (target : GluetunTarget) : TunnelM (option bytes) :=
  let! cached := sgets (fun t => pick target (tn_keys t)) in
  match cached with
  | Some value => sret value
  | None =>
      let! vault := on_tunnel_serve open_vault in
      match vault with
      | Err _ => sret None
      | Ok vault =>
          let value := vault_string vault (credential_key target) in
          let! kept := smodify (put_key target (Some value)) in
          sret value
      end
  end.

(** What a resolved address does: the history, and for the tracker's tunnel a pass
    and a notification when it is a new one. *)
Definition advertise (now : Z) (target : GluetunTarget) (base : Url) : TunnelM unit :=
  let! changed := (fun t => let '(changed, e) := observe now base (endpoint_for target t) in (changed, put_endpoint target e t)) in
  if changed && bool_decide (target = TunTracker) then
    let! woken := smodify request_sync in
    on_tunnel_serve (send EndpointRotated (bs "advertised endpoint is now " ++ url_as_str base))
  else sret tt.

(** [poll_once], with the HTTP client built or not; the interval it returns in seconds. *)
Definition poll_once (now : Z) (target : GluetunTarget) (http : result unit bytes) : TunnelM N :=
  let! config := sgets (fun t => pick target (tn_config t)) in
  let interval := effective_poll_secs config in
  match (if is_active config then gc_control_url config else None) with
  | None => sret interval
  | Some control =>
      let! api_key := gluetun_api_key target in
      match api_key with
      | None =>
          let! logged := note target (gluetun_record_err now (bs "no " ++ credential_key target ++
            bs " configured — skipping the poll rather than sending a request that would only come back 401")) in
          sret interval
      | Some key =>
          let! fallback_port := sgets (fun t => o ← last_observed (endpoint_for target t); url_port (ob_base o)) in
          let resolved := match http with
                          | Ok _ => resolve_base (normalise_base control) key fallback_port
                          | Err err => Err (GlMalformed err)
                          end in
          match resolved with
          | Ok base =>
              let! recovered := note target (gluetun_record_ok now) in
              let! advertised := advertise now target base in
              sret interval
          | Err err =>
              let! logged := note target (gluetun_record_err now (gluetun_error_text err)) in
              sret interval
          end
      end
  end.

End Control.

(** ** The hooks *)

Section Hooks.
Context `{U : UrlLib}.

Definition refuse_public (remote : IpAddr) : option (N * bytes) :=
  if is_private_ip remote then None else Some (403%N, bs "refused").

Definition gluetun_refresh (remote : IpAddr) (target : option bytes) : TunnelM (N * bytes) := fun t =>
  match refuse_public remote with
  | Some refusal => (refusal, t)
  | None => ((200%N, bs "refreshing"), nudge_endpoint (from_query target) t)
  end.

Definition gluetun_down (remote : IpAddr) (target : option bytes) : TunnelM (N * bytes) := fun t =>
  match refuse_public remote with
  | Some refusal => (refusal, t)
  | None =>
      let target := from_query target in
      ((200%N, bs "acknowledged"), nudge_endpoint target (put_endpoint target (forget_dynamic (endpoint_for target t)) t))
  end.

(** [POST /hooks/arr]; [event_type] is what the body's [eventType] decodes to. *)
Definition arr_webhook (remote : IpAddr) (event_type : bytes) : TunnelM (N * bytes) := fun t =>
  match refuse_public remote with
  | Some refusal => (refusal, t)
  | None => if bool_decide (event_type = bs "Test") then ((200%N, bs "test received"), t) else ((200%N, bs "sync requested"), request_pass t)
  end.

End Hooks.

(** ** Runs *)

(** Everything that reaches the tunnels' addresses: a poll, with what the control server
    answers at that moment, the hooks, and a change of the static address. *)
Inductive TunnelEvent `{U : UrlLib} : Type :=
| TnPoll (now : Z) (target : GluetunTarget) (http : result unit bytes) (control : ControlServer U)
| TnRefresh (remote : IpAddr) (query : option bytes)
| TnDown (remote : IpAddr) (query : option bytes)
| TnWebhook (remote : IpAddr) (event_type : bytes)
| TnStatic (base : option Url).

Section Runs.
Context `{U : UrlLib} `{UP : !UrlParts U} (debug_str : bytes -> bytes) (parse_error_text : ParseError -> bytes).
Context `{C : VaultCipher} `{KF : KeyFiles} `{ME : MasterEnv}.

Definition tunnel_step (t : Tunnels) (ev : TunnelEvent) : Tunnels :=
  match ev with
  | TnPoll now target http control => (poll_once debug_str parse_error_text control now target http t).2
  | TnRefresh remote query => (gluetun_refresh remote query t).2
  | TnDown remote query => (gluetun_down remote query t).2
  | TnWebhook remote event_type => (arr_webhook remote event_type t).2
  | TnStatic base => put_endpoint TunTracker (set_static base (endpoint_for TunTracker t)) t
  end.

Definition tunnel_run (t : Tunnels) (events : list TunnelEvent) : Tunnels := fold_left tunnel_step events t.

(** What a control server says at a moment. *)
Definition reports_port (control : ControlServer U) (port : N) : Prop :=
  port <> 0%N /\ exists url key status, port_answer url key = Ok (status, Ok port).
Definition reports_ip (control : ControlServer U) (ip : IpAddr) : Prop :=
  exists url key status text, ip_answer url key = Ok (status, Ok text) /\ parse_ip text = Some ip.

(** The ports granted to a tunnel since it last went down; the last event first. *)
Fixpoint granted (target : GluetunTarget) (events : list TunnelEvent) (port : N) : Prop :=
  match events with
  | [] => False
  | TnPoll _ polled _ control :: events => (polled = target /\ reports_port control port) \/ granted target events port
  | TnDown remote query :: events => (is_private_ip remote = true -> from_query query <> target) /\ granted target events port
  | _ :: events => granted target events port
  end.

(** An address the control server gave the tunnel, with a port it granted. *)
Definition given (target : GluetunTarget) (events : list TunnelEvent) (base : Url) : Prop :=
  exists ip port, url_parse (bs "http://" ++ socket_to_string ip port) = Ok base /\ granted target events port /\
    exists now http control, TnPoll now target http control ∈ events /\ reports_ip control ip.

End Runs.

(** ** Facts *)

Lemma pick_set_same {A : Type} target (a : A) p : pick target (set_pick target a p) = a.
Proof. by destruct target. Qed.

Lemma pick_set_other {A : Type} target target' (a : A) p : target' <> target -> pick target' (set_pick target a p) = pick target' p.
Proof. by destruct target, target'. Qed.

Section PollFacts.
Context `{U : UrlLib} `{UP : !UrlParts U} (debug_str : bytes -> bytes) (parse_error_text : ParseError -> bytes).
Context `{C : VaultCipher} `{KF : KeyFiles} `{ME : MasterEnv}.

(** Both endpoints stay. *)
Definition steady (t t' : Tunnels) : Prop :=
  sv_endpoint (tn_serve t') = sv_endpoint (tn_serve t) /\ sv_client (tn_serve t') = sv_client (tn_serve t).

#[global] Instance steady_preorder : PreOrder steady.
Proof. split; [by split|]. intros a b c [] []. split; congruence. Qed.

Lemma steady_endpoint target t t' : steady t t' -> endpoint_for target t' = endpoint_for target t.
Proof. intros [H1 H2]. unfold endpoint_for. by rewrite H1, H2. Qed.

Lemma moves_note target f : moves steady (note target f).
Proof. intros t. unfold note. destruct (f _). by split. Qed.

Lemma moves_tunnel_serve {A : Type} (m : ServeM A) :
  moves (fun s s' => sv_endpoint s' = sv_endpoint s /\ sv_client s' = sv_client s) m -> moves steady (on_tunnel_serve m).
Proof. intros H. apply moves_focus. intros t. apply H. Qed.

Lemma moves_gluetun_api_key target : moves steady (gluetun_api_key target).
Proof.
  unfold gluetun_api_key. apply moves_bind; [apply _|apply moves_gets; apply _|]. intros [value|]; [apply moves_ret; apply _|].
  apply moves_bind; [apply _| |].
  - apply moves_tunnel_serve. intros s. pose proof (moves_open_vault s) as [_ _ _ _ He Hc _ _]. by split.
  - intros [vault|]; [|apply moves_ret; apply _]. apply moves_bind; [apply _| |intros ?; apply moves_ret; apply _]. by apply moves_modify.
Qed.

Lemma endpoint_put_same target e t : endpoint_for target (put_endpoint target e t) = e.
Proof. by destruct target. Qed.

Lemma endpoint_put_other target target' e t : target' <> target -> endpoint_for target' (put_endpoint target e t) = endpoint_for target' t.
Proof. by destruct target, target'. Qed.

(** Every address in the history was there, or is the one observed. *)
Lemma observed_bases now base e o :
  o ∈ ep_dynamic (observe now base e).2 -> ob_base o = base \/ exists o', o' ∈ ep_dynamic e /\ ob_base o' = ob_base o.
Proof.
  unfold observe. destruct (ep_poisoned e); [cbn; eauto|].
  assert (forall o, o ∈ take MAX_DYNAMIC_HISTORY (mkObserved base now :: filter (fun o => ob_base o <> base) (ep_dynamic e)) ->
            ob_base o = base \/ exists o', o' ∈ ep_dynamic e /\ ob_base o' = ob_base o) as H.
  { intros x Hx%elem_of_take. destruct Hx as (i & Hx & _). apply list_elem_of_lookup_2 in Hx.
    apply elem_of_cons in Hx as [->|[_ Hx]%list_elem_of_filter]; [by left|right; eauto]. }
  destruct (ep_dynamic e) as [|front rest] eqn:Ed; [apply H|]. destruct (decide _) as [<-|]; [|apply H]. cbn.
  intros [->|Ho]%elem_of_cons; [by left|]. right. exists o. split; [by apply list_elem_of_further|done].
Qed.

Lemma advertise_effect now target base t :
  steady (put_endpoint target (observe now base (endpoint_for target t)).2 t) (advertise now target base t).2.
Proof.
  unfold advertise, sbind at 1. destruct (observe now base (endpoint_for target t)) as [changed e]. cbn [snd].
  destruct (changed && _); [|by split].
  apply (moves_bind steady); [by apply moves_modify|]. intros _. apply moves_tunnel_serve. intros s.
  pose proof (moves_send EndpointRotated (bs "advertised endpoint is now " ++ url_as_str base) s) as [_ _ _ _ He Hc _]. by split.
Qed.

(** A poll leaves the endpoints, or has one observe what it resolved. *)
Definition polled (control : ControlServer U) (now : Z) (target : GluetunTarget) (t t' : Tunnels) : Prop :=
  steady t t' \/
  exists base key url,
    resolve_base debug_str parse_error_text control base key (o ← last_observed (endpoint_for target t); url_port (ob_base o)) = Ok url /\
    steady (put_endpoint target (observe now url (endpoint_for target t)).2 t) t'.

Lemma steady_put target e t t1 : steady t t1 -> steady (put_endpoint target e t) (put_endpoint target e t1).
Proof. intros [H1 H2]. unfold steady. destruct target; cbn; by rewrite ?H1, ?H2. Qed.

Lemma poll_effect control now target http t :
  polled control now target t (poll_once debug_str parse_error_text control now target http t).2.
Proof.
  unfold poll_once, sbind at 1. cbn [sgets]. destruct (if is_active _ then _ else _) as [control_url|]; [|left; reflexivity].
  unfold sbind at 1. pose proof (moves_gluetun_api_key target t) as H1. destruct (gluetun_api_key target t) as [key t1]. cbn [snd] in H1.
  assert (forall f (n : N), steady t ((let! logged := note target f in sret n) t1).2) as Hn.
  { intros f n. transitivity t1; [exact H1|]. apply (moves_bind steady); [apply moves_note|]. intros ?. apply moves_ret. apply _. }
  destruct key as [key|]; [|left; apply Hn]. unfold sbind at 1. cbn [sgets]. rewrite (steady_endpoint _ _ _ H1).
  destruct (match http with Ok _ => _ | Err _ => _ end) as [url|err] eqn:Er; [|left; apply Hn].
  destruct http as [[]|]; [|done]. right. exists (normalise_base control_url), key, url. split; [done|].
  unfold sbind at 1. pose proof (moves_note target (gluetun_record_ok now) t1) as H2. destruct (note target _ t1) as [recovered t2]. cbn [snd] in H2.
  assert (steady t t2) as Hs by (by transitivity t1). pose proof (advertise_effect now target url t2) as Ha. unfold sbind.
  destruct (advertise now target url t2) as [u t3]. cbn [snd sret] in *. rewrite (steady_endpoint _ _ _ Hs) in Ha.
  etransitivity; [by apply steady_put|exact Ha].
Qed.

(** What a resolved address is made of. *)
Lemma resolve_base_inv control base key fallback url :
  resolve_base debug_str parse_error_text control base key fallback = Ok url ->
  exists ip port, url_parse (bs "http://" ++ socket_to_string ip port) = Ok url /\ reports_ip control ip /\
    (reports_port control port \/ fallback = Some port).
Proof.
  assert (forall (T : Type) (answer : Url -> bytes -> result (N * result T bytes) bytes) path (v : T),
            gluetun_get answer base key path = Ok v -> exists url' status, answer url' key = Ok (status, Ok v)) as Hget.
  { intros T answer path v. unfold gluetun_get. destruct (url_join base path) as [url'|]; [|done]. cbn.
    destruct (answer url' key) as [[status body]|] eqn:E; [|done]. cbn. destruct (_ || _); [done|]. destruct (negb _); [done|].
    destruct body; [|done]. intros [= <-]. eauto. }
  unfold resolve_base. intros (ip & Hip & (port & Hport & Hurl)%rbind_Ok)%rbind_Ok. exists ip, port.
  split; [by destruct (url_parse _); [injection Hurl as <-|]|]. split.
  - unfold public_ip in Hip. apply rbind_Ok in Hip as (text & Ht & Hip%ok_or_Ok). apply Hget in Ht as (url' & status & Ha). unfold reports_ip. eauto 10.
  - unfold forwarded_port in Hport. destruct (gluetun_get port_answer base key _) as [p|] eqn:Ep; cbn in Hport.
    + destruct (N.eqb_spec p 0) as [->|Hz]; [destruct fallback; [injection Hport as ->; by right|done]|]. injection Hport as <-. left.
      split; [done|]. apply Hget in Ep as (url' & status & Ha). eauto.
    + destruct fallback; [injection Hport as ->; by right|done].
Qed.

(** After an observation the address is the current one; it is new when the last was another. *)
Lemma observe_current now base e :
  ep_poisoned e = false ->
  current (observe now base e).2 = Some base /\ (observe now base e).1 = bool_decide (ob_base <$> last_observed e <> Some base).
Proof.
  intros Hp. unfold observe, last_observed. rewrite Hp. destruct (ep_dynamic e) as [|front rest]; [done|].
  cbn. destruct (decide (ob_base front = base)) as [->|Hne]; cbn; split; try done.
  - by rewrite bool_decide_eq_false_2 by (intros H; by apply H).
  - rewrite bool_decide_eq_true_2; [done|]. congruence.
Qed.

Lemma send_tunnel trigger message t :
  exists s, steady t (put_tn_serve s t) /\ (on_tunnel_serve (send trigger message) t).2 = put_tn_serve s t.
Proof.
  unfold on_tunnel_serve, focus. pose proof (moves_send trigger message (tn_serve t)) as [_ _ _ _ He Hc _].
  destruct (send trigger message (tn_serve t)) as [u s]. exists s. by split.
Qed.

End PollFacts.

(** ** What the pollers promise *)

(** [Url::port] of an address with a port, which is that port unless it is the scheme's own. *)
Class UrlPortLaw (U : UrlLib) (UP : UrlParts U) : Prop :=
  port_read : forall ip port u p, url_parse (bs "http://" ++ socket_to_string ip port) = Ok u -> url_port u = Some p -> p = port.

Section Invariant.
Context `{U : UrlLib} `{UP : !UrlParts U} {UL : UrlPortLaw U UP} (debug_str : bytes -> bytes) (parse_error_text : ParseError -> bytes).
Context `{C : VaultCipher} `{KF : KeyFiles} `{ME : MasterEnv}.

(** Every address observed through a tunnel was given to it. *)
Definition well_given (events : list TunnelEvent) (t : Tunnels) : Prop :=
  forall target, ep_poisoned (endpoint_for target t) = false /\ forall o, o ∈ ep_dynamic (endpoint_for target t) -> given target events (ob_base o).

Lemma given_later target ev events base :
  (forall port, granted target events port -> granted target (ev :: events) port) -> given target events base -> given target (ev :: events) base.
Proof.
  intros Hg (ip & port & Hp & Hgr & now & http & control & Hin & Hip). exists ip, port. split_and!; [done|by apply Hg|].
  exists now, http, control. split; [by apply list_elem_of_further|done].
Qed.

Lemma observe_poisoned now base e : ep_poisoned (observe now base e).2 = ep_poisoned e.
Proof. unfold observe. destruct (ep_poisoned e) eqn:E; [done|]. destruct (ep_dynamic e); [done|]. by destruct (decide _). Qed.

Lemma well_given_poll events t now target http control :
  well_given events t ->
  well_given (TnPoll now target http control :: events) (poll_once debug_str parse_error_text control now target http t).2.
Proof.
  intros H target'. destruct (H target') as [Hp Ho].
  assert (forall o, o ∈ ep_dynamic (endpoint_for target' t) -> given target' (TnPoll now target http control :: events) (ob_base o)) as Hold.
  { intros o Hin. apply given_later; [cbn; auto|]. by apply Ho. }
  destruct (poll_effect debug_str parse_error_text control now target http t) as [Hs|(base & key & url & Hr & Hs)];
    rewrite (steady_endpoint target' _ _ Hs); [done|].
  destruct (decide (target' = target)) as [->|Hd]; [|by rewrite endpoint_put_other]. rewrite endpoint_put_same, observe_poisoned. split; [done|].
  intros o [Hb|(o' & Hin & <-)]%observed_bases; [|by apply Hold].
  apply resolve_base_inv in Hr as (ip & port & Hurl & Hip & Hport). rewrite Hb. exists ip, port. split; [done|]. split.
  - destruct Hport as [Hport|Hport]; [by left|]. right. unfold last_observed in Hport. rewrite Hp in Hport.
    destruct (ep_dynamic (endpoint_for target t)) as [|o' rest] eqn:Ed; [done|]. cbn in Hport.
    destruct (Ho o' (list_elem_of_here _ _)) as (ip' & port' & Hurl' & Hg & _). by rewrite (port_read _ _ _ _ Hurl' Hport).
  - exists now, http, control. split; [apply list_elem_of_here|done].
Qed.

Lemma well_given_step events t ev : well_given events t -> well_given (ev :: events) (tunnel_step debug_str parse_error_text t ev).
Proof.
  intros H. destruct ev as [now target http control|remote query|remote query|remote event_type|base]; [by apply well_given_poll|..].
  - assert (well_given (TnRefresh remote query :: events) t) as H'.
    { intros target. destruct (H target) as [Hp Ho]. split; [done|]. intros o Hin. apply given_later; [done|auto]. }
    cbn. unfold gluetun_refresh. by destruct (refuse_public remote).
  - intros target. destruct (H target) as [Hp Ho]. cbn. unfold gluetun_down, refuse_public. destruct (is_private_ip remote) eqn:Er; cbn [snd].
    + change (endpoint_for target (nudge_endpoint _ ?t)) with (endpoint_for target t).
      destruct (decide (target = from_query query)) as [->|Hne].
      * rewrite endpoint_put_same. unfold forget_dynamic. rewrite Hp. cbn. split; [done|]. by intros o ?%elem_of_nil.
      * rewrite endpoint_put_other by done. split; [done|]. intros o Hin. apply given_later; [|auto]. intros port Hg. by split.
    + split; [done|]. intros o Hin. apply given_later; [|auto]. intros port Hg. split; [by rewrite Er|done].
  - assert (well_given (TnWebhook remote event_type :: events) t) as H'.
    { intros target. destruct (H target) as [Hp Ho]. split; [done|]. intros o Hin. apply given_later; [done|auto]. }
    cbn. unfold arr_webhook. destruct (refuse_public remote); [done|]. by case_bool_decide.
  - intros target. destruct (H target) as [Hp Ho]. cbn [tunnel_step]. destruct (decide (target = TunTracker)) as [->|Hne].
    + rewrite endpoint_put_same. unfold set_static. rewrite Hp. cbn. split; [done|]. intros o Hin. apply given_later; [done|auto].
    + rewrite endpoint_put_other by done. split; [done|]. intros o Hin. apply given_later; [done|auto].
Qed.

End Invariant.

(** A port that went away stays away.  However polls, hooks and settings changes follow
    each other, whatever the control servers answer and whoever calls the hooks,
    every address a tunnel advertises beyond the static one is an exit address that the
    control server reported, with a port it granted since that tunnel last went down. *)
Theorem dead_port_stays_dead `{U : UrlLib} `{UP : !UrlParts U} debug_str parse_error_text `{C : VaultCipher} `{KF : KeyFiles} `{ME : MasterEnv}
    (t : Tunnels) static client events target o :
  UrlPortLaw U UP -> endpoint_for TunTracker t = ep_new static -> endpoint_for TunClient t = ep_new client ->
  o ∈ ep_dynamic (endpoint_for target (tunnel_run debug_str parse_error_text t events)) -> given target (rev events) (ob_base o).
Proof.
  intros UL Ht Hc.
  assert (well_given (rev events) (tunnel_run debug_str parse_error_text t events)) as H; [|apply H].
  induction events as [|ev events IH] using rev_ind.
  - change (tunnel_run _ _ t []) with t. intros [|]; rewrite ?Ht, ?Hc; (split; [done|]; intros x Hx; by apply elem_of_nil in Hx).
  - rewrite rev_app_distr. unfold tunnel_run. rewrite fold_left_app. cbn. by apply well_given_step.
Qed.

(** The exit address is followed even when the port cannot be asked for.  An active poll
    whose control server reports an exit address advertises it at once with the port
    it reports, or with the last one observed; a new address of the tracker's tunnel
    asks for a pass, and the same one does not. *)
Theorem exit_followed `{U : UrlLib} `{UP : !UrlParts U} debug_str parse_error_text `{C : VaultCipher} `{KF : KeyFiles} `{ME : MasterEnv}
    control now target t url key ip port base :
  let e := endpoint_for target t in
  let config := pick target (tn_config t) in
  let server := normalise_base url in
  gc_enabled config = true -> gc_control_url config = Some url -> pick target (tn_keys t) = Some (Some key) -> ep_poisoned e = false ->
  public_ip debug_str control server key = Ok ip ->
  (forwarded_port control server key = Ok port \/
   (exists err, forwarded_port control server key = Err err) /\ (o ← last_observed e; url_port (ob_base o)) = Some port) ->
  url_parse (bs "http://" ++ socket_to_string ip port) = Ok base ->
  let '(interval, t') := poll_once debug_str parse_error_text control now target (Ok tt) t in
  interval = N.max (gc_poll_secs config) 10 /\
  current (endpoint_for target t') = Some base /\
  pick target (tn_status t') = mkGluetunSnapshot (Some now) (Some now) None /\
  tn_wake t' = tn_wake t || (bool_decide (target = TunTracker) && bool_decide (ob_base <$> last_observed e <> Some base)).
Proof.
  intros e config server Hen Hurl Hkey Hp Hip Hport Hbase. unfold poll_once, sbind at 1. cbn [sgets]. fold config. unfold is_active.
  rewrite Hen, Hurl, bool_decide_eq_true_2 by eauto. cbn [andb]. unfold sbind at 1, gluetun_api_key at 1, sbind at 1. cbn [sgets]. rewrite Hkey.
  cbn [sret]. unfold sbind at 1. cbn [sgets]. fold e. fold server.
  assert (resolve_base debug_str parse_error_text control server key (o ← last_observed e; url_port (ob_base o)) = Ok base) as ->.
  { unfold resolve_base. rewrite Hip. cbn [rbind]. destruct Hport as [->|[[err ->] ->]]; cbn [rbind]; by rewrite Hbase. }
  unfold sbind at 1. destruct (note target (gluetun_record_ok now) t) as [recovered t1] eqn:En.
  assert (t1 = put_status target (mkGluetunSnapshot (Some now) (Some now) None) t) as -> by (unfold note in En; by injection En).
  unfold sbind at 1, advertise, sbind at 1.
  change (endpoint_for target (put_status _ _ t)) with e. pose proof (observe_current now base e Hp) as Ho. destruct (observe now base e) as [changed e'].
  cbn [fst snd] in Ho. destruct Ho as [Hcur ->].
  destruct (bool_decide (ob_base <$> last_observed e <> Some base)) eqn:Ec, (bool_decide (target = TunTracker)) eqn:Et; cbn [andb];
    rewrite ?orb_false_r, ?orb_true_r, ?andb_false_r, ?andb_true_r.
  1: { unfold sbind, smodify. set (t2 := request_sync _). destruct (on_tunnel_serve _ t2) as [u t3] eqn:E3. cbn [sret].
       pose proof (send_tunnel EndpointRotated (bs "advertised endpoint is now " ++ url_as_str base) t2) as H3. rewrite E3 in H3. cbn [snd] in H3.
       destruct H3 as (s & Hs & ->). split; [done|].
       assert (endpoint_for target (put_tn_serve s t2) = e') as -> by (rewrite (steady_endpoint target t2) by done; by destruct target).
       split; [done|]. split; [by destruct target|done]. }
  all: cbn [sret]; split; [done|]; rewrite endpoint_put_same; split; [done|]; split; [by destruct target|done].
Qed.

(** *** Witnesses *)

(** What follows the last colon. *)
Fixpoint after_colon (s acc : bytes) : bytes :=
  match s with
  | [] => acc
  | b :: s => after_colon s (if bool_decide (b = ":"%byte) then [] else acc ++ [b])
  end.

Lemma after_colon_plain d : forall acc, Forall (fun b => b <> ":"%byte) d -> after_colon d acc = acc ++ d.
Proof.
  induction d as [|b d IH]; intros acc Hd; [by rewrite app_nil_r|]. apply Forall_cons in Hd as [Hb Hd]. cbn.
  rewrite bool_decide_eq_false_2, IH by done. by rewrite <- app_assoc.
Qed.

Lemma after_colon_app s d : forall acc, Forall (fun b => b <> ":"%byte) d -> after_colon (s ++ ":"%byte :: d) acc = d.
Proof.
  induction s as [|b s IH]; intros acc Hd; cbn; [by rewrite after_colon_plain|]. by apply IH.
Qed.

Definition colon_urls : UrlParts text_urls := {|
  url_path := fun _ => bs "/";
  url_set_path := fun _ (u : @Url text_urls) => u;
  url_join := fun (u : @Url text_urls) path => Ok (u ++ path);
  url_port := fun (u : @Url text_urls) => parse_digits (after_colon u [])
|}.

Lemma colon_urls_law : UrlPortLaw text_urls colon_urls.
Proof.
  intros ip port u p H. apply (f_equal (fun r : result bytes unit => match r with Ok x => x | Err _ => [] end)) in H.
  change (bs "http://" ++ socket_to_string ip port = u) in H. change (parse_digits (after_colon u []) = Some p -> p = port). rewrite <- H. clear H.
  assert (exists s, bs "http://" ++ socket_to_string ip port = s ++ ":"%byte :: u_to_string port) as [s ->].
  { destruct ip as [a b c d|segs]; unfold socket_to_string; [exists (bs "http://" ++ ip_to_string (V4 a b c d))|exists (bs "http://" ++ bs "[" ++ ip_to_string (V6 segs) ++ bs "]")];
      rewrite <- !app_assoc; reflexivity. }
  rewrite after_colon_app, parse_digits_u_to_string; [congruence|].
  eapply Forall_impl; [apply u_to_string_digits|]. intros b Hb ->. discriminate Hb.
Qed.

(** A control server that reports an address and, where it can, a port. *)
Definition toy_control (ip : bytes) (port : option N) : ControlServer text_urls := {|
  ip_answer := fun _ _ => Ok (200%N, Ok ip);
  port_answer := fun _ _ => match port with Some p => Ok (200%N, Ok p) | None => Ok (401%N, Err []) end
|}.

Definition toy_tunnels : @Tunnels text_urls :=
  let s := sample_serve (None, None) serve_db ∅ in
  let config := @mkGluetun text_urls true (Some (bs "http://localhost:8000/")) 60 in
  let status := mkGluetunSnapshot None None None in
  mkTunnels text_urls (put_endpoints (@ep_new text_urls (Some (bs "http://static:8477")), @ep_new text_urls None) s) (config, config) (status, status)
    (Some (Some (bs "key")), Some (Some (bs "key"))) (false, false) false false.

(** The port is granted, then the tunnel goes down and comes back on another. *)
Lemma dead_port_stays_dead_witness :
  let poll ip port := TnPoll 100 TunTracker (Ok tt) (toy_control ip port) in
  let events := [poll (bs "1.2.3.4") (Some 4000%N); TnDown (V4 x7f x00 x00 x01) None; poll (bs "1.2.3.5") (Some 5000%N); poll (bs "1.2.3.6") None] in
  let t := @tunnel_run text_urls colon_urls (fun s => s) (fun _ => []) toy_cipher no_key_files sample_env toy_tunnels events in
  exists o, o ∈ ep_dynamic (endpoint_for TunTracker t) /\ ob_base o = bs "http://1.2.3.6:5000" /\ given TunTracker (rev events) (ob_base o).
Proof.
  intros poll events t.
  assert (ep_dynamic (endpoint_for TunTracker t) = [@mkObserved text_urls (bs "http://1.2.3.6:5000") 100; @mkObserved text_urls (bs "http://1.2.3.5:5000") 100])
    as E by (vm_compute; reflexivity).
  exists (@mkObserved text_urls (bs "http://1.2.3.6:5000") 100). split; [rewrite E; apply list_elem_of_here|]. split; [reflexivity|].
  apply (@dead_port_stays_dead text_urls colon_urls (fun s => s) (fun _ => []) toy_cipher no_key_files sample_env toy_tunnels
    (Some (bs "http://static:8477")) None events TunTracker _ colon_urls_law); [reflexivity|reflexivity|]. fold t. rewrite E. apply list_elem_of_here.
Defined.

Lemma exit_followed_witness :
  let '(interval, t') := @poll_once text_urls colon_urls (fun s => s) (fun _ => []) (toy_control (bs "1.2.3.4") (Some 4000%N)) toy_cipher no_key_files sample_env
                           100 TunTracker (Ok tt) toy_tunnels in
  interval = 60%N /\ current (endpoint_for TunTracker t') = Some (bs "http://1.2.3.4:4000") /\ tn_wake t' = true.
Proof.
  pose proof (@exit_followed text_urls colon_urls (fun s => s) (fun _ => []) toy_cipher no_key_files sample_env (toy_control (bs "1.2.3.4") (Some 4000%N))
    100 TunTracker toy_tunnels (bs "http://localhost:8000/") (bs "key") (V4 x01 x02 x03 x04) 4000 (bs "http://1.2.3.4:4000")
    ltac:(reflexivity) ltac:(reflexivity) ltac:(reflexivity) ltac:(reflexivity) ltac:(vm_compute; reflexivity)
    ltac:(left; vm_compute; reflexivity) ltac:(vm_compute; reflexivity)) as H.
  destruct (poll_once _ _ _ _ _ _ _) as [interval t']. destruct H as (Hi & Hc & _ & Hw).
  split; [exact Hi|]. split; [exact Hc|]. rewrite Hw. reflexivity.
Defined.
