(* ===== verification/TrackerRoutes.v ===== *)
(** * The tracker's HTTP routes (crates/sharerr/src/tracker.rs)

    Who may announce, for what, and what is recorded of it: the HTTP skin over
    [Announce], with the store's list of shared torrents as admission, the vault's
    tokens and the friends' key hashes as authentication, and the torrent files as
    they are served to each friend. *)

From S2P Require Import Prelude RustStd Text Bencode Metainfo Net Endpoint TrackerUrl Announce Model Paths Factory Title Lighthouse Totp Effects Accounts Database Items Peers History Sightings Vault Serve.

(** ** Answers *)

Record Response : Type := mkHttp { rp_status : N; rp_headers : list (bytes * bytes); rp_body : bytes }.

Definition BENCODE : bytes := bs "text/plain; charset=utf-8".

(** [bencode]: always 200. *)
Definition bencode (body : bytes) : Response := mkHttp 200 [(bs "content-type", BENCODE)] body.

(** A status with a line of text. *)
Definition text_response (status : N) (body : bytes) : Response :=
  mkHttp status [(bs "content-type", bs "text/plain; charset=utf-8")] body.

(** [Display for AnnounceError]. *)
Definition describe_announce (e : AnnounceError) : bytes :=
  match e with
  | Missing field => bs "missing required parameter " ++ [x22] ++ field ++ [x22]
  | BadLength field len => field ++ bs " must be exactly 20 bytes, got " ++ u_to_string (N.of_nat len)
  | NotANumber field => field ++ bs " is not a number"
  | UnknownTorrent => bs "this tracker does not serve that torrent"
  | BadToken => bs "invalid announce token"
  end.

(** [Display for SocketAddr]. *)
Definition addr_to_string (a : SocketAddr) : bytes :=
  match sa_ip a with
  | V4 _ _ _ _ => ip_to_string (sa_ip a) ++ bs ":" ++ u_to_string (sa_port a)
  | V6 _ => bs "[" ++ ip_to_string (sa_ip a) ++ bs "]:" ++ u_to_string (sa_port a)
  end.

Definition strip_suffix (suffix s : bytes) : option bytes :=
  let cut := length s - length suffix in
  if bool_decide (drop cut s = suffix) then Some (take cut s) else None.

(** ** Authentication *)

Record TokenAuth : Type := mkTokenAuth { ta_attributed_to : option Z; ta_via_previous : bool }.

Definition token_auth_default : TokenAuth := mkTokenAuth None false.

Section Routes.
Context `{U : UrlLib} `{D : Digests} `{DC : Decoders} `{C : VaultCipher} `{KF : KeyFiles} `{ME : MasterEnv} `{RO : RowOrder}.
Context `{HI : HashIter}.

Definition authenticate_token (required previous supplied : option bytes) : DbM (result TokenAuth AnnounceError) :=
  match required, supplied with
  | None, _ => sret (Ok token_auth_default)
  | Some _, None => sret (Err BadToken)
  | Some required, Some supplied =>
      if constant_time_eq required supplied then sret (Ok token_auth_default)
      else if match previous with Some previous => constant_time_eq previous supplied | None => false end
      then sret (Ok (mkTokenAuth None true))
      else
        let! found := peer_by_key_hash supplied in
        sret (match found with
              | Ok (Some peer) => Ok (mkTokenAuth (Some (p_id peer)) false)
              | Ok None => Err BadToken
              | Err _ => Err BadToken
              end)
  end.

Definition authenticate (now : Z) (supplied : option bytes) : ServeM (result TokenAuth AnnounceError) :=
  let! opened := store in
  try! opened := sret (rmap_err (fun _ => BadToken) opened) in
  let! tokens := tracker_tokens in
  try! tokens := sret (rmap_err (fun _ => BadToken) tokens) in
  try! auth := on_store (authenticate_token tokens.1 tokens.2 supplied) in
  let! used := if ta_via_previous auth then record_used now else sret tt in
  sret (Ok auth).

Definition is_served (info_hash : bytes) : ServeM bool :=
  let! opened := store in
  match opened with
  | Err _ => sret false
  | Ok _ =>
      let! served := on_store (is_shared (hex_encode info_hash)) in
      sret (match served with Ok served => served | Err _ => false end)
  end.

(** ** Announce and scrape *)

(** [now] is the Unix time in seconds, [instant] the monotonic clock the swarms
    are kept by. *)
Definition handle_announce (now instant : Z) (token : option bytes) (remote : SocketAddr) (query : bytes)
  : ServeM (result bytes AnnounceError) :=
  try! request := sret (parse_request query) in
  let! auth := authenticate now token in
  let! served := is_served (rq_info_hash request) in
  try! auth := sret auth in
  if negb served then sret (Err UnknownTorrent)
  else
    let addr := resolve_addr request (sa_ip remote) in
    let! response := focus sv_swarms put_swarms (Announce.announce request addr instant) in
    let! sighted :=
      match ta_attributed_to auth with
      | Some peer_id => record_sighting now peer_id KindClient (Some (addr_to_string addr))
      | None => sret tt
      end in
    let moved := rs_transferred response in
    let! recorded := on_store (record_transfer now (ta_attributed_to auth) (tr_downloaded moved) (tr_uploaded moved)) in
    sret (Ok (to_bencode response (rq_compact request))).

(** The announce routes, with and without a token in the path. *)
Definition respond (now instant : Z) (token : option bytes) (remote : SocketAddr) (query : option bytes) : ServeM Response :=
  let! r := handle_announce now instant token remote (default [] query) in
  sret (match r with
        | Ok body => bencode body
        | Err err => bencode (failure_bencode (describe_announce err))
        end).

Definition handle_scrape (now instant : Z) (token : option bytes) (query : option bytes) : ServeM Response :=
  let! auth := authenticate now token in
  match auth with
  | Err err => sret (bencode (failure_bencode (describe_announce err)))
  | Ok _ =>
      let params := parse_query (default [] query) in
      match params !! bs "info_hash" with
      | None => sret (bencode (failure_bencode (bs "this tracker only scrapes specific torrents")))
      | Some info_hash =>
          if negb (bool_decide (length info_hash = HASH_LEN))
          then sret (bencode (failure_bencode (bs "info_hash must be exactly 20 bytes")))
          else
            let! served := is_served info_hash in
            if negb served then sret (bencode (scrape_bencode []))
            else
              let! counts := sgets (fun s => Announce.scrape instant info_hash (sv_swarms s)) in
              sret (bencode (scrape_bencode [(info_hash, counts.1, counts.2)]))
      end
  end.

(** ** Torrent files *)

Definition torrent_download_path (info_hash : bytes) : bytes := bs "/torrents/" ++ info_hash ++ bs ".torrent".

Definition attributed_bytes (data supplied : bytes) : ServeM bytes :=
  let! opened := store in
  match opened with
  | Err _ => sret data
  | Ok _ =>
      let! found := on_store (peer_by_key_hash supplied) in
      match found with
      | Ok (Some peer) =>
          let! endpoint := sgets sv_endpoint in
          sret (match announce_set_for endpoint (Some (p_key_hash peer)) with
                | Ok announce => match rewrite_announce data announce with Ok rewritten => rewritten | Err _ => data end
                | Err _ => data
                end)
      | Ok None => sret data
      | Err _ => sret data
      end
  end.

(** [tokio::fs::read] of a torrent file. *)
Definition read_torrent (path : bytes) : ServeM (option bytes) :=
  let! ok := serve_draw in
  sgets (fun s => if ok : bool then sv_torrents s !! path else None).

Definition torrent_file (name : bytes) (token : option bytes) : ServeM Response :=
  match strip_suffix (bs ".torrent") name ≫= info_hash_from_hex with
  | None => sret (text_response 404 (bs "not a torrent"))
  | Some info_hash =>
      let! served := is_served info_hash in
      if negb served then sret (text_response 404 (bs "not shared"))
      else
        let hex_hash := hex_encode info_hash in
        let! dir := torrent_dir in
        let! data := read_torrent (torrent_file_path dir hex_hash) in
        match data with
        | None => sret (text_response 404 (bs "torrent file missing"))
        | Some data =>
            let! data := match token with Some supplied => attributed_bytes data supplied | None => sret data end in
            sret (mkHttp 200
              [(bs "content-type", bs "application/x-bittorrent");
               (bs "content-disposition", bs "attachment; filename=" ++ [x22] ++ torrent_file_name hex_hash ++ [x22])] data)
        end
  end.

End Routes.

(** ** Facts: admission *)

(** Whether the store lists a torrent as shared. *)
Definition hash_shared (h : bytes) (db : Db) : Prop :=
  exists key row, db_items db !! key = Some row /\ r_state row ∈ [Seeding; Pending] /\
    (tor_info_hash (r_torrent row) = Some h \/ tor_info_hash_v2 (r_torrent row) = Some h).

(** What a token grants: everything while none is required, an unattributed
    announce under the instance's current or previous token, and an attributed one
    under the key hash of a friend whose access stands. *)
Inductive token_grants (tokens : option bytes * option bytes) (supplied : option bytes) (db : Db) : TokenAuth -> Prop :=
| grant_open : tokens.1 = None -> token_grants tokens supplied db token_auth_default
| grant_current t : tokens.1 = Some t -> supplied = Some t -> token_grants tokens supplied db token_auth_default
| grant_previous t p : tokens = (Some t, Some p) -> supplied = Some p -> t <> p ->
    token_grants tokens supplied db (mkTokenAuth None true)
| grant_friend t h id row : tokens.1 = Some t -> supplied = Some h -> t <> h -> tokens.2 <> Some h ->
    tb_rows (db_peers db) !! id = Some row -> pr_key_hash row = h -> pr_revoked_at row = None ->
    token_grants tokens supplied db (mkTokenAuth (Some id) false).

Section AdmissionFacts.
Context `{U : UrlLib} `{D : Digests} `{DC : Decoders} `{C : VaultCipher} `{KF : KeyFiles} `{ME : MasterEnv} `{RO : RowOrder}.
Context `{HI : HashIter}.
Context {RL : RowOrderLaws RO}.

Lemma row_listed {K V : Type} `{Countable K} (m : gmap K V) k v : (k, v) ∈ rows_of m <-> m !! k = Some v.
Proof. rewrite (rows_of_perm K V m). apply elem_of_map_to_list. Qed.

Lemma is_shared_inv h ds b ds' :
  is_shared h ds = (Ok b, ds') -> b = true -> hash_shared h ds.1.
Proof.
  destruct ds as [db script], ds' as [db' script']. intros H ->. apply query_inv in H as [[= H _]|(e & ? & _)]; [|done].
  apply existsb_exists in H as ([key row] & Hin & Hb). apply list_elem_of_In, row_listed in Hin.
  apply andb_true_iff in Hb as [Hb Hs]. apply bool_decide_eq_true in Hs. exists key, row. split; [done|]. split; [done|].
  apply orb_true_iff in Hb as [Hb|Hb]; apply bool_decide_eq_true in Hb; cbn in *; tauto.
Qed.

Lemma peer_by_key_hash_inv h ds p ds' :
  peer_by_key_hash h ds = (Ok (Some p), ds') ->
  exists row, tb_rows (db_peers ds.1) !! p_id p = Some row /\ p = row_to_peer (p_id p) row /\
    pr_key_hash row = h /\ pr_revoked_at row = None.
Proof.
  destruct ds as [db script], ds' as [db' script']. intros H. apply query_inv in H as [[= H _]|(e & ? & _)]; [|done].
  cbn. destruct (List.find _ _) as [[id row]|] eqn:E; [|done]. cbn in H. injection H as <-.
  apply find_some in E as [Hin Hb]. apply list_elem_of_In, row_listed in Hin.
  apply andb_true_iff in Hb as [Hk Hr]. apply bool_decide_eq_true in Hk, Hr. exists row. cbn in *. by split_and!.
Qed.

Lemma authenticate_token_inv required previous supplied ds auth ds' :
  authenticate_token required previous supplied ds = (Ok auth, ds') ->
  token_grants (required, previous) supplied ds.1 auth.
Proof.
  unfold authenticate_token. destruct required as [required|]; [|intros [= <- _]; by constructor].
  destruct supplied as [supplied|]; [|done]. destruct (constant_time_eq required supplied) eqn:Er.
  { apply constant_time_eq_spec in Er as ->. intros [= <- _]. by eapply grant_current. }
  assert (required <> supplied) as Hne by (intros ->; by rewrite (proj2 (constant_time_eq_spec _ _)) in Er).
  destruct previous as [previous|]; [destruct (constant_time_eq previous supplied) eqn:Ep|].
  { apply constant_time_eq_spec in Ep as ->. intros [= <- _]. by eapply grant_previous. }
  all: intros (found & ds1 & Hf & H)%sbind_inv; destruct found as [[p|]|]; try done; injection H as <- _;
    apply peer_by_key_hash_inv in Hf as (row & Hrow & _ & Hk & Hr); eapply grant_friend; try done; cbn.
  intros [= ->]. by rewrite (proj2 (constant_time_eq_spec _ _)) in Ep.
Qed.

Lemma moves_key_hash h : moves (tables eq) (peer_by_key_hash h).
Proof. apply moves_select. apply _. Qed.

Lemma moves_authenticate_token required previous supplied : moves (tables eq) (authenticate_token required previous supplied).
Proof.
  unfold authenticate_token. destruct required; [|apply moves_ret; apply _]. destruct supplied; [|apply moves_ret; apply _].
  destruct (constant_time_eq _ _); [apply moves_ret; apply _|]. destruct (match previous with _ => _ end); [apply moves_ret; apply _|].
  apply moves_bind; [apply _|apply moves_key_hash|]. intros ?. apply moves_ret. apply _.
Qed.

Lemma moves_authenticate now supplied : moves undisturbed (authenticate now supplied).
Proof.
  unfold authenticate. apply moves_bind; [apply _|apply moves_store|]. intros opened.
  apply moves_try; [apply _|apply moves_ret; apply _|]. intros [].
  apply moves_bind; [apply _|apply moves_tracker_tokens|]. intros tokens.
  apply moves_try; [apply _|apply moves_ret; apply _|]. intros pair.
  apply moves_try; [apply _|apply moves_on_store, moves_authenticate_token|]. intros auth.
  apply moves_bind; [apply _| |intros ?; apply moves_ret; apply _].
  destruct (ta_via_previous auth); [|apply moves_ret; apply _]. apply moves_modify. intros s. constructor; cbn; try done.
  exists (db_retention (sv_db s)). by rewrite with_retention_id.
Qed.

Lemma moves_is_served h : moves undisturbed (is_served h).
Proof.
  unfold is_served. apply moves_bind; [apply _|apply moves_store|]. intros []; [|apply moves_ret; apply _].
  apply moves_bind; [apply _| |intros ?; apply moves_ret; apply _]. apply moves_on_store, moves_select. apply _.
Qed.

Lemma token_grants_retention tokens supplied r db auth :
  token_grants tokens supplied (with_retention r db) auth -> token_grants tokens supplied db auth.
Proof. destruct db. intros H. destruct H; eauto using token_grants. Qed.

Lemma authenticate_inv now supplied s auth s' :
  authenticate now supplied s = (Ok auth, s') ->
  exists tokens, tokens_in_force s tokens /\ token_grants tokens supplied (sv_db s) auth.
Proof.
  unfold authenticate. intros (opened & s1 & Hs & H)%sbind_inv.
  pose proof (moves_store s) as M1. rewrite Hs in M1. cbn in M1. apply store_caches in Hs as (Hc & Hcf & Hv).
  apply try_inv in H as ([] & s1' & [= _ <-] & H). apply sbind_inv in H as (tokens & s2 & Ht & H).
  pose proof (moves_tracker_tokens s1) as M2. rewrite Ht in M2. cbn in M2.
  apply try_inv in H as (pair & s2' & [= Hp <-] & H). apply rmap_err_Ok in Hp as ->.
  apply try_inv in H as (auth' & s3 & Ha & H). apply sbind_inv in H as (? & s4 & _ & [= -> _]).
  rewrite on_store_run in Ha. injection Ha as Ha _. exists pair. split.
  - eapply tokens_in_force_ext; [done..|]. by eapply tracker_tokens_inv.
  - destruct (authenticate_token _ _ _ _) as [r ds] eqn:E. cbn in Ha. subst r. apply authenticate_token_inv in E. cbn in E.
    destruct M2 as [_ [r2 H2] _ _ _ _ _ _], M1 as [_ [r1 H1] _ _ _ _ _ _]. rewrite H2, H1 in E. destruct pair.
    by do 2 eapply token_grants_retention.
Qed.

Lemma is_served_inv h s b s' : is_served h s = (b, s') -> b = true -> hash_shared (hex_encode h) (sv_db s).
Proof.
  unfold is_served. intros (opened & s1 & Hs & H)%sbind_inv ->. pose proof (moves_store s) as M1. rewrite Hs in M1. cbn in M1.
  destruct opened; [|done]. apply sbind_inv in H as (served & s2 & Hq & H). destruct served as [b|]; [|done]. injection H as -> _.
  rewrite on_store_run in Hq. injection Hq as Hq _. destruct (is_shared _ _) as [r ds] eqn:E. cbn in Hq. subst r.
  apply is_shared_inv in E; [|done]. cbn in E. destruct M1 as [_ [r1 H1] _ _ _ _ _ _]. rewrite H1 in E. by destruct (sv_db s).
Qed.

End AdmissionFacts.

(** ** Properties *)

(** C2: only what is shared is announced, and only by who may.  Whatever the
    database, the vault and the clock do, an announce that is answered with peers
    parsed, names a torrent the store lists as shared, and carried what a token
    grants: none was required, or the instance's current or previous token, or the
    key hash of a friend who is not revoked.  Its answer and its swarm are those of
    the protocol, and nobody's access changed.  Any other announce, one that could
    not be checked included, is refused and leaves every swarm and table as it was. *)
Theorem announce_admission `{U : UrlLib} `{D : Digests} `{DC : Decoders} `{C : VaultCipher} `{KF : KeyFiles} `{ME : MasterEnv}
    `{RO : RowOrder} `{HI : HashIter} now instant token remote query s r s' :
  RowOrderLaws RO ->
  handle_announce now instant token remote query s = (r, s') ->
  match r with
  | Err _ => undisturbed s s'
  | Ok body => exists request tokens auth,
      parse_request query = Ok request /\ hash_shared (hex_encode (rq_info_hash request)) (sv_db s) /\
      tokens_in_force s tokens /\ token_grants tokens token (sv_db s) auth /\
      access_kept (sv_db s) (sv_db s') /\
      (to_bencode (Announce.announce request (resolve_addr request (sa_ip remote)) instant (sv_swarms s)).1 (rq_compact request),
       (Announce.announce request (resolve_addr request (sa_ip remote)) instant (sv_swarms s)).2) = (body, sv_swarms s')
  end.
Proof.
  intros RL H. unfold handle_announce in H.
  apply try_cases in H as [(e & [= _ <-] & ->)|(request & s0 & [= Hq <-] & H)]; [reflexivity|].
  apply sbind_inv in H as (auth & s1 & Ha & H). pose proof (moves_authenticate now token s) as M1. rewrite Ha in M1. cbn in M1.
  apply sbind_inv in H as (served & s2 & Hv & H). pose proof (moves_is_served (rq_info_hash request) s1) as M2. rewrite Hv in M2. cbn in M2.
  assert (undisturbed s s2) as M by (by transitivity s1).
  apply try_cases in H as [(e & [= _ <-] & ->)|(auth' & s3 & [= -> <-] & H)]; [done|]. rename auth' into auth.
  destruct served; cbn [negb] in H; [|by injection H as <- <-].
  apply authenticate_inv in Ha as (tokens & Htok & Hg). apply is_served_inv in Hv; [|done].
  apply sbind_inv in H as (response & s3 & Hs & H). unfold focus in Hs.
  destruct (Announce.announce request _ instant (sv_swarms s2)) as [response' swarms'] eqn:Han. injection Hs as <- <-.
  apply sbind_inv in H as (? & s4 & Hsight & H). apply sbind_inv in H as (? & s5 & Hrec & H). injection H as <- <-.
  assert (bookkept (put_swarms swarms' s2) s5) as B.
  { transitivity s4.
    - destruct (ta_attributed_to auth); [|by injection Hsight as _ <-].
      match type of Hsight with ?m ?s = _ => pose proof (moves_record_sighting now _ KindClient _ s : bookkept s (m s).2) as B end.
      by rewrite Hsight in B.
    - match type of Hrec with on_store ?m ?s = _ => pose proof (moves_store_call m (moves_record_transfer _ _ _ _) s) as B end.
      by rewrite Hrec in B. }
  exists request, tokens, auth. split; [done|]. destruct M1 as [_ [r1 D1] _ _ _ _ _ _]. split.
  { rewrite D1 in Hv. by destruct (sv_db s). }
  split; [done|]. split; [done|]. destruct M as [Mc Md Mv Msw Me Mcl Mt Mp]. rewrite Msw in Han. rewrite Han. split.
  - transitivity (sv_db s2); [|apply B]. destruct Md as [r2 ->]. by destruct (sv_db s).
  - cbn. f_equal. by destruct B as [_ _ _ ->].
Qed.

(** C26: what a torrent link serves.  An answer with a torrent is for a name that is
    forty hexadecimal digits of a torrent the store lists as shared, and its body is
    the file of that torrent under the torrent directory: as it is on disk, or, for
    the key hash of a friend whose access stands, with the announce URLs rewritten
    to carry it, which leaves the info dictionary alone.  Serving changes nothing. *)
Theorem torrent_file_serves `{U : UrlLib} `{D : Digests} `{DC : Decoders} `{RO : RowOrder} name token s response s' :
  RowOrderLaws RO ->
  torrent_file name token s = (response, s') ->
  undisturbed s s' /\
  (rp_status response = 404%N \/
   exists hex info_hash data, rp_status response = 200%N /\ name = hex ++ bs ".torrent" /\
     info_hash_from_hex hex = Some info_hash /\ hash_shared (hex_encode info_hash) (sv_db s) /\
     sv_torrents s !! torrent_file_path (config_torrent_dir (sv_config s)) (hex_encode info_hash) = Some data /\
     (rp_body response = data \/
      exists id row set torrent, tb_rows (db_peers (sv_db s)) !! id = Some row /\ token = Some (pr_key_hash row) /\ pr_revoked_at row = None /\
        announce_set_for (sv_endpoint s) (Some (pr_key_hash row)) = Ok set /\ read_from_bytes data = Ok torrent /\
        rp_body response = torrent_encode (with_announce torrent set))).
Proof.
  intros RL. unfold torrent_file. destruct (strip_suffix (bs ".torrent") name) as [hex|] eqn:Hx; cbn;
    [|intros [= <- <-]; split; [reflexivity|by left]].
  assert (name = hex ++ bs ".torrent") as Hname.
  { unfold strip_suffix in Hx. case_bool_decide as Hb; [|done]. injection Hx as <-.
    etransitivity; [symmetry; apply (take_drop (length name - length (bs ".torrent")))|]. by rewrite Hb. }
  destruct (info_hash_from_hex hex) as [info_hash|] eqn:Hh; [|intros [= <- <-]; split; [reflexivity|by left]].
  intros H. apply sbind_inv in H as (served & s1 & Hv & H). pose proof (moves_is_served info_hash s) as M1. rewrite Hv in M1. cbn in M1.
  destruct served; cbn [negb] in H; [|injection H as <- <-; split; [done|by left]]. apply is_served_inv in Hv; [|done].
  unfold sbind at 1, torrent_dir, sgets at 1 in H. apply sbind_inv in H as (data & s2 & Hr & H).
  assert (undisturbed s1 s2 /\ (forall d, data = Some d -> sv_torrents s1 !! torrent_file_path (config_torrent_dir (sv_config s1)) (hex_encode info_hash) = Some d)) as [M2 Hd].
  { unfold read_torrent in Hr. apply sbind_inv in Hr as (ok & s2' & Ho & Hr). pose proof (moves_serve_draw s1) as M2. rewrite Ho in M2. cbn in M2.
    injection Hr as <- <-. split; [done|]. intros d. destruct ok; [|done]. by destruct M2 as [_ _ _ _ _ _ <- _]. }
  assert (undisturbed s s2) as M by (by transitivity s1). destruct data as [data|]; [|injection H as <- <-; split; [done|by left]].
  apply sbind_inv in H as (body & s3 & Hb & [= <- <-]). specialize (Hd data eq_refl).
  destruct M1 as [Mc Md _ _ Me _ Mt _]. rewrite Mt, Mc in Hd. destruct Md as [ret Md].
  destruct token as [supplied|]; [|injection Hb as <- <-; split; [done|]; right; exists hex, info_hash, data; by eauto 10].
  unfold attributed_bytes in Hb. apply sbind_inv in Hb as (opened & s4 & Ho & Hb). pose proof (moves_store s2) as M3. rewrite Ho in M3. cbn in M3.
  destruct opened as [[]|e]; [|injection Hb as <- <-; split; [by transitivity s2|]; right; exists hex, info_hash, data; by eauto 10].
  apply sbind_inv in Hb as (found & s5 & Hf & Hb). pose proof (moves_on_store _ (moves_key_hash supplied) s4) as M4. rewrite Hf in M4. cbn in M4.
  assert (undisturbed s s5) as M5 by (transitivity s2; [done|by transitivity s4]).
  assert (undisturbed s s4) as M6 by (transitivity s2; done).
  destruct found as [[peer|]|]; try (injection Hb as <- <-; split; [done|]; right; exists hex, info_hash, data; by eauto 10).
  unfold sbind, sgets in Hb. injection Hb as <- <-. split; [done|]. right. exists hex, info_hash, data. do 5 (split; [done|]).
  rewrite on_store_run in Hf. destruct (peer_by_key_hash supplied _) as [rr ds] eqn:E. injection Hf as Hf _. cbn in Hf. subst rr.
  apply peer_by_key_hash_inv in E as (row & Hrow & Hpeer & Hk & Hrev). cbn in Hrow.
  destruct M6 as [_ [r6 D6] _ _ _ _ _ _], M5 as [_ _ _ _ Me5 _ _ _]. rewrite Me5.
  assert (p_key_hash peer = pr_key_hash row) as -> by (by rewrite Hpeer).
  destruct (announce_set_for (sv_endpoint s) (Some (pr_key_hash row))) as [set|] eqn:Hset; [|by left].
  unfold rewrite_announce. destruct (read_from_bytes data) as [torrent|] eqn:Ht; cbn [rmap_err rbind]; [|by left].
  right. exists (p_id peer), row, set, torrent. rewrite D6 in Hrow. split; [by destruct (sv_db s)|]. split; [by rewrite Hk|]. by split_and!.
Qed.

(** ** Witnesses *)

Definition sample_query : bytes := client_query sample_request.

(** Their friend announces with the key hash their torrent carried. *)
Lemma announce_admission_witness :
  let run := @handle_announce text_urls prefix_digests hex_decoders toy_cipher no_key_files sample_env key_order list_iter
               1000 7 (Some (bs "kh")) sample_addr sample_query (sample_serve (Some (bs "t0ken"), None) serve_db ∅) in
  exists request, parse_request (D := hex_decoders) sample_query = Ok request /\
    hash_shared (@hex_encode prefix_digests (rq_info_hash request)) serve_db /\
    sv_swarms run.2 = (@Announce.announce list_iter request sample_addr 7 ∅).2.
Proof.
  intros run. destruct run as [r s'] eqn:E.
  pose proof (@announce_admission text_urls prefix_digests hex_decoders toy_cipher no_key_files sample_env key_order list_iter
    1000 7 (Some (bs "kh")) sample_addr sample_query (sample_serve (Some (bs "t0ken"), None) serve_db ∅) r s' key_order_laws E) as H.
  assert (exists body, r = Ok body) as [body ->].
  { assert (run.1 = r) as <- by (by rewrite E). unfold run. vm_compute. by eexists. }
  destruct H as (request & tokens & auth & Hq & Hs & _ & _ & _ & Hr). exists request. split; [exact Hq|]. split; [exact Hs|].
  assert (request = sample_request) as -> by (vm_compute in Hq; by injection Hq). symmetry. exact (f_equal snd Hr).
Defined.

Lemma torrent_file_serves_witness :
  let path := torrent_file_path (bs "/data/torrents") shared_hex in
  let run := @torrent_file text_urls prefix_digests hex_decoders key_order (shared_hex ++ bs ".torrent") (Some (bs "kh"))
               (sample_serve (Some (bs "t0ken"), None) serve_db {[ path := torrent_encode sample_torrent ]}) in
  rp_status run.1 = 200%N /\
  rp_body run.1 = torrent_encode (with_announce (U := text_urls) sample_torrent (mkAnnounceSet (U := text_urls) (bs "http://a/announce/kh") [])).
Proof.
  intros path run. destruct run as [r s'] eqn:E.
  assert (rp_status r = 200%N /\ rp_body r <> torrent_encode sample_torrent) as [Hs Hb].
  { assert (run.1 = r) as <- by (by rewrite E). unfold run. vm_compute. split; [reflexivity|discriminate]. }
  destruct (@torrent_file_serves text_urls prefix_digests hex_decoders key_order (shared_hex ++ bs ".torrent") (Some (bs "kh"))
    (sample_serve (Some (bs "t0ken"), None) serve_db {[ path := torrent_encode sample_torrent ]}) r s' key_order_laws E)
    as [_ [H|(hex & ih & data & _ & _ & Hh & _ & Hd & Hbody)]]; [by rewrite Hs in H|].
  split; [exact Hs|]. assert (run.1 = r) as <- by (by rewrite E). vm_compute. reflexivity.
Defined.

(** ** Departures from the documentation *)

Definition revoked_db : Db :=
  with_peers (mkTable {[ 1%Z := put_revoked 50 friend_row ]} 1) serve_db.

(** The cached file, which announces with the instance's own token. *)
Definition cached_torrent : bytes :=
  torrent_encode (with_announce (U := text_urls) sample_torrent (single (U := text_urls) (bs "http://a/announce/t0ken"))).

(** A friend whose access was revoked asks for a torrent under their own link: the
    cached file is served, and the token in its announce URL lets them announce,
    where the module's header says that revoking a friend reaches the tracker. *)
Example revoked_friend_announces :
  let path := torrent_file_path (bs "/data/torrents") shared_hex in
  let s := sample_serve (Some (bs "t0ken"), None) revoked_db {[ path := cached_torrent ]} in
  let '(answer, s) := @torrent_file text_urls prefix_digests hex_decoders key_order (shared_hex ++ bs ".torrent") (Some (bs "kh")) s in
  let token := match read_from_bytes (rp_body answer) with
               | Ok t => t_announce t ≫= (fun url => @token_from_announce_url text_urls url)
               | Err _ => None
               end in
  let announce token := @handle_announce text_urls prefix_digests hex_decoders toy_cipher no_key_files sample_env key_order list_iter
                          1000 7 token sample_addr sample_query s in
  rp_status answer = 200%N /\ token = Some (bs "t0ken") /\
  (announce (Some (bs "kh"))).1 = Err BadToken /\ is_Some (res_ok (announce token).1).
Proof. vm_compute. eauto 10. Qed.

(** A vault that opens, whose token record does not decrypt: it was sealed under
    another master key. *)
Definition foreign_token_vault : option bytes :=
  let salt := sample_salt in
  let first := (@run_op toy_cipher [] salt (bs "k" ++ salt) [] (PutOp (bs "a") (bs "b")) (Some (VERSION :: salt), sample_script)).2 in
  (@run_op toy_cipher [] salt (bs "other") [] (PutOp TRACKER_TOKEN (bs "t0ken")) first).2.1.

Definition unread_serve : @Serve text_urls :=
  mkServe sample_config true serve_db foreign_token_vault no_caches None ∅ (@ep_new text_urls (Some (bs "http://a")))
    (@ep_new text_urls None) ∅ 0 0 [] (mkScript [] (replicate 600 x2a) []).

(** The tracker then answers announces without a token, though one is stored:
    [tracker_tokens] returns [Ok((None, _))], which its documentation reserves for
    an instance that requires none. *)
Example unreadable_token_opens_tracker :
  let run := @handle_announce text_urls prefix_digests hex_decoders toy_cipher no_key_files sample_env key_order list_iter
               1000 7 None sample_addr sample_query unread_serve in
  TRACKER_TOKEN ∈ default [] (res_ok (key_names [] (sv_vault unread_serve, sample_script)).1) /\ is_Some (res_ok run.1).
Proof. split; [apply (bool_decide_unpack _)|]; vm_compute; eauto. Qed.
