(* ===== verification/Torznab.v ===== *)
(** * The torznab feed (crates/sharerr/src/torznab/mod.rs)

    What a friend's indexer asks and is told: who an api key belongs to, which of
    the items meant for that friend a query selects, the links each release is
    offered under, and the RSS document itself. *)

From S2P Require Import Prelude RustStd Text Bencode Metainfo Net Endpoint TrackerUrl Announce Model Paths Factory Title Lighthouse Totp Effects Accounts Database Items Peers History Sightings Vault Serve TrackerRoutes.

(** ** Categories *)

Definition CAT_TV : N := 5000.
Definition CAT_MOVIES : N := 2000.
Definition CAT_AUDIO : N := 3000.
Definition CAT_XXX : N := 6000.
Definition CAT_BOOKS : N := 7000.

Definition CATEGORIES : list (N * bytes) :=
  [(CAT_MOVIES, bs "Movies"); (CAT_TV, bs "TV"); (CAT_AUDIO, bs "Audio"); (CAT_XXX, bs "XXX"); (CAT_BOOKS, bs "Books")].

Definition category_name (id : N) : bytes :=
  match List.find (fun c => (c.1 =? id)%N) CATEGORIES with Some c => c.2 | None => bs "Other" end.

(** Every search function: its element, its aliases and its parameters. *)
Definition SEARCH_FUNCTIONS : list (bytes * list bytes * bytes) :=
  [(bs "search", [bs "search"], bs "q");
   (bs "tv-search", [bs "tvsearch"; bs "tv-search"], bs "q,season,ep,tvdbid,imdbid");
   (bs "movie-search", [bs "movie"; bs "moviesearch"; bs "movie-search"], bs "q,imdbid,tmdbid");
   (bs "music-search", [bs "music"; bs "musicsearch"; bs "music-search"], bs "q");
   (bs "audio-search", [bs "audio"; bs "audiosearch"; bs "audio-search"], bs "q");
   (bs "book-search", [bs "book"; bs "booksearch"; bs "book-search"], bs "q")].

Definition is_search_function (t : bytes) : bool :=
  existsb (fun f => bool_decide (t ∈ f.1.2)) SEARCH_FUNCTIONS.

Definition category_for (item : SharedItem) : N :=
  match it_source item, it_spec item with
  | Whisparr, _ => CAT_XXX
  | _, Episode _ _ _ => CAT_TV
  | _, Movie _ _ => CAT_MOVIES
  | _, Track _ _ _ => CAT_AUDIO
  | _, Book _ _ => CAT_BOOKS
  end.

Definition in_category_groups (groups : option (list N)) (item : SharedItem) : bool :=
  is_none_or groups (fun groups => bool_decide (category_for item ∈ groups)).

(** ** Escaping *)

(** A template, with its quotation marks written as apostrophes. *)
Definition xs (s : string) : bytes := map (fun b => if decide (b = x27) then x22 else b) (bs s).

Definition is_illegal_control (c : char) : bool :=
  char_is_byte (fun b => (byte_val b <? 32)%N && negb (bool_decide (b ∈ [x09; x0a; x0d]))) c.

Definition needs_escaping (c : char) : bool := char_in [x26; x3c; x3e; x22; x27] c || is_illegal_control c.

Definition escape_char (c : char) : bytes :=
  if decide (c = [x26]) then bs "&amp;"
  else if decide (c = [x3c]) then bs "&lt;"
  else if decide (c = [x3e]) then bs "&gt;"
  else if decide (c = [x22]) then bs "&quot;"
  else if decide (c = [x27]) then bs "&apos;"
  else if is_illegal_control c then bs " "
  else c.

Definition escape (raw : bytes) : bytes :=
  if negb (existsb needs_escaping (chars raw)) then raw else concat (map escape_char (chars raw)).

Definition error_xml (code : N) (description : bytes) : bytes :=
  xs "<?xml version='1.0' encoding='UTF-8'?>" ++ [x0a] ++
  xs "<error code='" ++ u_to_string code ++ xs "' description='" ++ escape description ++ xs "'/>".

Definition caps_xml : bytes :=
  xs "<?xml version='1.0' encoding='UTF-8'?>" ++ [x0a] ++ xs "<caps>" ++ [x0a] ++ xs "  <server title='sharerr'/>" ++ [x0a] ++
  xs "  <limits max='500' default='100'/>" ++ [x0a] ++ xs "  <searching>" ++ [x0a] ++
  concat (map (fun f : bytes * list bytes * bytes =>
    xs "    <" ++ f.1.1 ++ xs " available='yes' supportedParams='" ++ f.2 ++ xs "'/>" ++ [x0a]) SEARCH_FUNCTIONS) ++
  xs "  </searching>" ++ [x0a] ++ xs "  <categories>" ++ [x0a] ++
  concat (map (fun c : N * bytes =>
    xs "    <category id='" ++ u_to_string c.1 ++ xs "' name='" ++ c.2 ++ xs "'/>" ++ [x0a]) CATEGORIES) ++
  xs "  </categories>" ++ [x0a] ++ xs "</caps>".

(** ** The document *)

(** The [time] crate: which Unix times it can hold, and their RFC 2822 form;
    [form_urlencoded::byte_serialize]. *)
Class FeedText : Type := {
  time_in_range : Z -> bool;
  rfc2822_format : Z -> option bytes;
  form_encode : bytes -> bytes
}.

(** The characters that delimit tags and attribute values. *)
Definition is_markup (b : byte) : bool := bool_decide (b ∈ [x3c; x3e; x22]).

Record FeedItem : Type := mkFeedItem { fi_item : SharedItem; fi_download_url : bytes; fi_magnet_url : bytes }.

Section Feed.
Context `{FT : FeedText}.

Definition rfc2822 (created_at : option Z) : bytes :=
  let stamp := match created_at with Some secs => if time_in_range secs then secs else 0%Z | None => 0%Z end in
  default (bs "Thu, 01 Jan 1970 00:00:00 +0000") (rfc2822_format stamp).

Definition encode_component (value : bytes) : bytes := form_encode value.

Definition magnet_uri (info_hash title : bytes) (size : N) (encoded_announces : list bytes) : bytes :=
  bs "magnet:?xt=urn:btih:" ++ info_hash ++ bs "&dn=" ++ encode_component title ++
  (if (0 <? size)%N then bs "&xl=" ++ u_to_string size else []) ++
  concat (map (fun announce => bs "&tr=" ++ announce) encoded_announces).

(** One [torznab:attr] line. *)
Definition attr (name value : bytes) : bytes :=
  xs "      <torznab:attr name='" ++ name ++ xs "' value='" ++ value ++ xs "'/>" ++ [x0a].

Definition optional_attr (name : bytes) (value : option bytes) : bytes :=
  match value with Some value => attr name value | None => [] end.

Definition item_xml (entry : FeedItem) : bytes :=
  let item := fi_item entry in
  let category := u_to_string (category_for item) in
  let hash := escape (default [] (it_info_hash item)) in
  let link := escape (fi_download_url entry) in
  let size := u_to_string (it_size item) in
  xs "    <item>" ++ [x0a] ++
  xs "      <title>" ++ escape (it_release_title item) ++ xs "</title>" ++ [x0a] ++
  xs "      <guid isPermaLink='false'>" ++ hash ++ xs "</guid>" ++ [x0a] ++
  xs "      <link>" ++ link ++ xs "</link>" ++ [x0a] ++
  xs "      <pubDate>" ++ rfc2822 (it_created_at item) ++ xs "</pubDate>" ++ [x0a] ++
  xs "      <size>" ++ size ++ xs "</size>" ++ [x0a] ++
  xs "      <category>" ++ category ++ xs "</category>" ++ [x0a] ++
  xs "      <enclosure url='" ++ link ++ xs "' length='" ++ size ++ xs "' type='application/x-bittorrent'/>" ++ [x0a] ++
  attr (bs "category") category ++ attr (bs "seeders") (bs "1") ++ attr (bs "peers") (bs "1") ++
  attr (bs "infohash") hash ++ attr (bs "downloadvolumefactor") (bs "0") ++ attr (bs "uploadvolumefactor") (bs "1") ++
  (if is_nonempty (fi_magnet_url entry) then attr (bs "magneturl") (escape (fi_magnet_url entry)) else []) ++
  concat (map (fun nv : bytes * option Z => optional_attr nv.1 (i_to_string <$> nv.2))
    [(bs "tvdbid", tvdb (it_ids item)); (bs "tmdbid", tmdb (it_ids item)); (bs "tvmazeid", tvmaze (it_ids item))]) ++
  optional_attr (bs "imdbid") (escape <$> imdb (it_ids item)) ++
  match it_media item with
  | Some media =>
      concat (map (fun nv : bytes * option bytes => optional_attr nv.1 (escape <$> nv.2))
        [(bs "resolution", resolution media); (bs "video", video_codec media); (bs "audio", audio_codec media);
         (bs "audiochannels", audio_channels media); (bs "language", audio_languages media); (bs "subs", subtitles media);
         (bs "runtime", runtime media); (bs "hdr", dynamic_range media); (bs "audiosamplerate", audio_sample_rate media);
         (bs "audiobitdepth", audio_bit_depth media)])
  | None => []
  end ++
  match it_spec item with
  | Episode _ season episode => attr (bs "season") (u_to_string season) ++ attr (bs "episode") (u_to_string episode)
  | _ => []
  end ++
  xs "    </item>" ++ [x0a].

Definition feed_xml (items : list FeedItem) : bytes :=
  xs "<?xml version='1.0' encoding='UTF-8'?>" ++ [x0a] ++
  xs "<rss version='2.0' xmlns:atom='http://www.w3.org/2005/Atom' xmlns:torznab='http://torznab.com/schemas/2015/feed'>" ++ [x0a] ++
  xs "  <channel>" ++ [x0a] ++ xs "    <title>sharerr</title>" ++ [x0a] ++
  xs "    <description>Content shared by a friend running sharerr</description>" ++ [x0a] ++
  concat (map item_xml items) ++ xs "  </channel>" ++ [x0a] ++ xs "</rss>".

End Feed.

(** ** Queries *)

Record SearchQuery : Type := mkSearch {
  sq_t : bytes;
  sq_q : option bytes;
  sq_season : option N;
  sq_ep : option N;
  sq_tvdbid : option Z;
  sq_tmdbid : option Z;
  sq_imdbid : option bytes;
  sq_cat : option bytes
}.

Definition search_all (t : bytes) : SearchQuery := mkSearch t None None None None None None None.

(** [lenient_u32]. *)
Definition lenient_u32 (raw : option bytes) : option N := raw ≫= (fun s => parse_u u32_max (trim s)).

Definition imdb_matches (stored : option bytes) (wanted : bytes) : bool :=
  match stored with Some stored => bool_decide (imdb_bare stored = imdb_bare wanted) | None => false end.

(** [slice::windows(n)] for [n] not zero. *)
Fixpoint windows (n : nat) (s : bytes) : list bytes :=
  match s with
  | [] => []
  | _ :: rest => if decide (n <= length s) then take n s :: windows n rest else []
  end.

Definition category_groups (query : SearchQuery) : option (list N) :=
  cat ← sq_cat query;
  let groups := map (fun id => id / 1000 * 1000)%N (omap (fun id => parse_u u32_max (trim id)) (split_byte ","%byte cat)) in
  if is_nonempty groups then Some groups else None.

Section Matching.
Context `{UD : UnicodeData}.

Definition needle (query : SearchQuery) : option bytes :=
  q ← sq_q query; let q := to_lowercase (trim q) in if is_nonempty q then Some q else None.

Definition contains_ci (hay needle : bytes) : bool :=
  if negb (forallb is_ascii hay) then contains needle (to_lowercase hay)
  else negb (is_nonempty needle) || existsb (fun window => str_eq_ignore_ascii_case window needle) (windows (length needle) hay).

Definition matches_with (query : SearchQuery) (needle : option bytes) (item : SharedItem) : bool :=
  is_none_or (sq_tvdbid query) (fun id => bool_decide (tvdb (it_ids item) = Some id)) &&
  is_none_or (sq_tmdbid query) (fun id => bool_decide (tmdb (it_ids item) = Some id)) &&
  is_none_or (sq_imdbid query) (fun id => imdb_matches (imdb (it_ids item)) id) &&
  match it_spec item with
  | Episode _ season episode =>
      is_none_or (sq_season query) (fun want => (want =? season)%N) && is_none_or (sq_ep query) (fun want => (want =? episode)%N)
  | _ => bool_decide (sq_season query = None) && bool_decide (sq_ep query = None)
  end &&
  is_none_or needle (fun needle =>
    contains_ci (it_release_title item) needle ||
    match creator (it_spec item) with Some c => contains_ci c needle | None => false end ||
    contains_ci (spec_title (it_spec item)) needle).

(** What [collect] keeps of the items it is given. *)
Definition selects (query : SearchQuery) (item : SharedItem) : bool :=
  matches_with query (needle query) item && in_category_groups (category_groups query) item.

End Matching.

(** ** Who is asking *)

Record Caller : Type := mkCaller { ca_scope : PeerScope; ca_limits : PeerLimits; ca_peer_id : Z; ca_key_hash : bytes }.

Definition xml_status (status : N) (body : bytes) : Response :=
  mkHttp status [(bs "content-type", bs "application/xml; charset=utf-8")] body.

Definition xml (body : bytes) : Response := xml_status 200 body.

(** What a search matched. *)
Record Matched : Type := mkMatched {
  m_items : list SharedItem;
  m_base : bytes;
  m_announces_encoded : list bytes;
  m_download_token : option bytes;
  m_magnet_links_enabled : bool;
  m_total : nat
}.

Section Http.
Context `{U : UrlLib} `{D : Digests} `{DC : Decoders} `{C : VaultCipher} `{KF : KeyFiles} `{ME : MasterEnv} `{RO : RowOrder}.
Context `{FT : FeedText} `{UD : UnicodeData}.

Definition refused : Response := xml_status 401 (error_xml 100 (bs "incorrect user credentials")).

Definition check_api_key (now : Z) (supplied : option bytes) (remote : option IpAddr) : ServeM (result Caller Response) :=
  match supplied with
  | None | Some [] => sret (Err refused)
  | Some supplied =>
      let! opened := store in
      match opened with
      | Err _ => sret (Err refused)
      | Ok _ =>
          let! found := on_store (peer_by_key supplied) in
          match found with
          | Ok (Some peer) =>
              let! sighted := record_sighting now (p_id peer) KindApi (ip_to_string <$> remote) in
              sret (Ok (mkCaller (p_scope peer) (peer_limits peer) (p_id peer) (p_key_hash peer)))
          | Ok None => sret (Err refused)
          | Err _ => sret (Err (xml_status 503 (error_xml 900 (bs "could not check credentials"))))
          end
      end
  end.

(** [Matched::download_url] and [Matched::magnet_url]. *)
Definition download_url (m : Matched) (item : SharedItem) : bytes :=
  let path := torrent_download_path (default [] (it_info_hash item)) in
  match m_download_token m with
  | Some token => m_base m ++ path ++ bs "?token=" ++ encode_component token
  | None => m_base m ++ path
  end.

Definition magnet_url (m : Matched) (item : SharedItem) : bytes :=
  if negb (m_magnet_links_enabled m) || it_private item then []
  else match it_info_hash item with
       | Some hash => magnet_uri hash (it_release_title item) (it_size item) (m_announces_encoded m)
       | None => []
       end.

Definition collect (query : SearchQuery) (scope : PeerScope) (limits : PeerLimits) (peer_token : bytes)
  : ServeM (result Matched (N * bytes)) :=
  let! opened := store in
  try! opened := sret (rmap_err (fun reason => (503%N, bs "sharerr is not ready: " ++ reason)) opened) in
  let! items := on_store (seeding_items_for scope limits) in
  try! items := sret (rmap_err (fun _ => (500%N, bs "could not read the library")) items) in
  let matched := filter (fun item => selects query item = true) items in
  let! magnet_links_enabled := sgets (fun s => cf_magnet_links (sv_config s)) in
  let! required := tracker_token in
  let token := match required with Some _ => Some peer_token | None => None end in
  let! announces_encoded := sgets (fun s =>
    if magnet_links_enabled : bool
    then map (fun url => encode_component (url_as_str url)) (omap (fun base => res_ok (announce_url base token)) (recent (sv_endpoint s)))
    else []) in
  let! base := public_base_url in
  sret (Ok (mkMatched matched base announces_encoded token magnet_links_enabled (length items))).

Definition render_feed (m : Matched) : bytes :=
  feed_xml (map (fun item => mkFeedItem item (download_url m item) (magnet_url m item)) (m_items m)).

Definition search (query : SearchQuery) (scope : PeerScope) (limits : PeerLimits) (peer_token : bytes) : ServeM Response :=
  let! r := collect query scope limits peer_token in
  sret (match r with
        | Ok matched => xml (render_feed matched)
        | Err (status, reason) => xml_status status (error_xml 900 reason)
        end).

(** [GET /api]: the extractor, then the handler. *)
Definition api (now : Z) (apikey : option bytes) (remote : option IpAddr) (query : SearchQuery) : ServeM Response :=
  let! caller := check_api_key now apikey remote in
  match caller with
  | Err rejection => sret rejection
  | Ok caller =>
      if decide (sq_t query = bs "caps") then sret (xml caps_xml)
      else if is_search_function (sq_t query)
      then search query (ca_scope caller) (ca_limits caller) (ca_key_hash caller)
      else sret (xml_status 400 (error_xml 202 (bs "no such function: " ++ sq_t query)))
  end.

End Http.

(** ** Facts: text *)

Lemma windows_contains n s needle :
  length needle = n -> needle <> [] ->
  existsb (fun window => str_eq_ignore_ascii_case window needle) (windows n s) = true <->
  exists pre mid post, s = pre ++ mid ++ post /\ length mid = n /\ str_eq_ignore_ascii_case mid needle = true.
Proof.
  intros Hn Hne. induction s as [|b s IH]; cbn.
  - split; [done|]. intros (pre & mid & post & Hs & Hm & _). destruct pre, mid; try done. destruct needle; cbn in *; [done|lia].
  - case_decide as Hl; cbn.
    + rewrite orb_true_iff, IH. split.
      * intros [H|(pre & mid & post & -> & Hm & H)]; [|by exists (b :: pre), mid, post].
        exists [], (take n (b :: s)), (drop n (b :: s)). cbn [app]. rewrite take_drop. split; [done|]. split; [|done].
        rewrite length_take. cbn. lia.
      * intros ([|c pre] & mid & post & Hs & Hm & H); [left|right].
        -- cbn in Hs. rewrite Hs, <- Hm. by rewrite take_app_length.
        -- injection Hs as <- ->. by exists pre, mid, post.
    + split; [done|]. intros (pre & mid & post & Hs & Hm & _). apply (f_equal length) in Hs. rewrite !length_app in Hs. cbn in Hs. lia.
Qed.

Lemma starts_with_spec needle s : starts_with needle s = true <-> exists post, s = needle ++ post.
Proof.
  revert s. induction needle as [|a needle IH]; intros s; cbn; [split; [by eexists|done]|]. destruct s as [|b s].
  - split; [done|]. by intros [post ?].
  - rewrite andb_true_iff, bool_decide_eq_true, IH. split; [intros [-> [post ->]]; by eexists|].
    intros [post [= -> ->]]. split; [done|by eexists].
Qed.

Lemma contains_spec needle s : contains needle s = true <-> exists pre post, s = pre ++ needle ++ post.
Proof.
  induction s as [|b s IH]; cbn [contains]; rewrite orb_true_iff, starts_with_spec.
  - split; [intros [[post ->]|?]; [by exists [], post|done]|]. intros (pre & post & H). left.
    symmetry in H. apply app_eq_nil in H as [-> H]. by exists post.
  - rewrite IH. split.
    + intros [[post ->]|(pre & post & ->)]; [by exists [], post|by exists (b :: pre), post].
    + intros ([|c pre] & post & H); [left; by exists post|]. injection H as <- ->. right. by exists pre, post.
Qed.

(** Text in which case is already settled. *)
Definition is_folded (s : bytes) : Prop := str_to_ascii_lowercase s = s.

Lemma contains_ci_ascii `{UD : UnicodeData} hay needle :
  forallb is_ascii hay = true -> is_folded needle ->
  contains_ci hay needle = contains needle (str_to_ascii_lowercase hay).
Proof.
  intros Ha Hf. unfold contains_ci. rewrite Ha. cbn [negb]. destruct needle as [|n needle].
  { cbn. symmetry. apply contains_spec. by exists [], (str_to_ascii_lowercase hay). }
  apply eq_true_iff_eq. cbn [is_nonempty negb orb]. rewrite windows_contains, contains_spec by done. split.
  - intros (pre & mid & post & -> & _ & H). apply bool_decide_eq_true in H. rewrite Hf in H.
    exists (str_to_ascii_lowercase pre), (str_to_ascii_lowercase post). unfold str_to_ascii_lowercase at 1. rewrite !map_app. by rewrite <- H.
  - intros (pre & post & H). unfold str_to_ascii_lowercase in H. apply map_eq_app in H as (pre' & rest & -> & <- & H).
    apply map_eq_app in H as (mid & post' & -> & Hm & <-). exists pre', mid, post'. split; [done|].
    split; [by rewrite <- (length_map to_ascii_lowercase mid), Hm|]. apply bool_decide_eq_true. rewrite Hf. exact Hm.
Qed.

(** ** Facts: markup *)

Definition markup (s : bytes) : bytes := filter (fun b => is_markup b = true) s.

Lemma markup_app a b : markup (a ++ b) = markup a ++ markup b.
Proof. apply filter_app. Qed.

Lemma markup_plain s : Forall (fun b => is_markup b = false) s -> markup s = [].
Proof.
  induction 1 as [|b s Hb Hs IH]; [done|]. unfold markup in *. rewrite filter_cons, IH. by rewrite Hb.
Qed.

Lemma high_not_markup b : is_ascii b = false -> is_markup b = false.
Proof. by destruct b. Qed.

Lemma escape_char_plain c : char_ok c -> Forall (fun b => is_markup b = false) (escape_char c).
Proof.
  intros H. unfold escape_char. repeat case_decide; try (apply (bool_decide_unpack _); by vm_compute).
  destruct (is_illegal_control c); [apply (bool_decide_unpack _); by vm_compute|].
  destruct H as [[b ->]|H]; [|eapply Forall_impl; [done|apply high_not_markup]].
  constructor; [|done]. apply bool_decide_eq_false. set_solver.
Qed.

(** Text in the document brings no markup of its own. *)
Lemma escape_plain raw : utf8_valid raw = true -> Forall (fun b => is_markup b = false) (escape raw).
Proof.
  intros [_ H]%utf8_chars. unfold escape. destruct (existsb needs_escaping (chars raw)) eqn:E; cbn [negb].
  - apply Forall_concat, Forall_map. eapply Forall_impl; [done|apply escape_char_plain].
  - rewrite <- (concat_chars raw). apply Forall_concat. rewrite Forall_forall in H |- *. intros c Hc.
    assert (needs_escaping c = false) as Hn.
    { destruct (needs_escaping c) eqn:En; [|done]. rewrite (proj2 (existsb_exists _ _)) in E; [done|].
      exists c. split; [by apply list_elem_of_In|done]. }
    destruct (H c Hc) as [[b ->]|Hh]; [|eapply Forall_impl; [done|apply high_not_markup]].
    constructor; [|done]. apply orb_false_iff in Hn as [Hn _]. cbn in Hn. apply bool_decide_eq_false in Hn.
    apply bool_decide_eq_false. set_solver.
Qed.

(** ** Facts: the document *)

(** An item with every text of it blanked, the absent ones still absent. *)
Definition blank_text (s : bytes) : bytes := if is_nonempty s then bs "-" else [].

Definition blank_meta (m : MediaMeta) : MediaMeta :=
  mkMeta (blank_text <$> resolution m) (blank_text <$> video_codec m) (blank_text <$> dynamic_range m) (blank_text <$> audio_codec m)
    (blank_text <$> audio_channels m) (blank_text <$> audio_languages m) (blank_text <$> subtitles m) (blank_text <$> runtime m)
    (blank_text <$> audio_sample_rate m) (blank_text <$> audio_bit_depth m).

Definition blank_item (i : SharedItem) : SharedItem :=
  mkItem (it_id i) (it_source i) (it_source_id i) (it_file_id i) (it_spec i) (blank_text (it_release_title i)) (it_arr_path i) (it_size i)
    (mkIds (tvdb (it_ids i)) (tmdb (it_ids i)) (tvmaze (it_ids i)) (blank_text <$> imdb (it_ids i)) None None None None)
    (blank_text <$> it_info_hash i) (it_announce_token_fp i) (it_created_by_sharerr i) (it_state i) (it_last_error i) (it_created_at i)
    (blank_meta <$> it_media i) (it_achieved_ratio i) (it_ratio_limit_reported i) (it_private i).

Definition blank_entry (e : FeedItem) : FeedItem :=
  mkFeedItem (blank_item (fi_item e)) (blank_text (fi_download_url e)) (blank_text (fi_magnet_url e)).

Definition text_ok (s : option bytes) : Prop := utf8_valid (default [] s) = true.

Definition meta_texts (m : MediaMeta) : list (option bytes) :=
  [resolution m; video_codec m; dynamic_range m; audio_codec m; audio_channels m; audio_languages m; subtitles m; runtime m;
   audio_sample_rate m; audio_bit_depth m].

(** The texts of an entry are Rust strings. *)
Definition entry_ok (e : FeedItem) : Prop :=
  Forall text_ok ([Some (fi_download_url e); Some (fi_magnet_url e); Some (it_release_title (fi_item e)); it_info_hash (fi_item e);
                   imdb (it_ids (fi_item e))] ++ match it_media (fi_item e) with Some m => meta_texts m | None => [] end).

Lemma escape_markup s : utf8_valid s = true -> markup (escape s) = [].
Proof. intros H. by apply markup_plain, escape_plain. Qed.

Lemma blank_valid s : utf8_valid (blank_text s) = true.
Proof. by destruct s. Qed.

Lemma escape_blank s : utf8_valid s = true -> markup (escape (blank_text s)) = markup (escape s).
Proof. intros H. by rewrite !escape_markup by auto using blank_valid. Qed.

Lemma attr_blank name s : utf8_valid s = true -> markup (attr name (escape (blank_text s))) = markup (attr name (escape s)).
Proof. intros H. unfold attr. by rewrite !markup_app, escape_blank. Qed.

Lemma optional_blank name v :
  text_ok v -> markup (optional_attr name (escape <$> (blank_text <$> v))) = markup (optional_attr name (escape <$> v)).
Proof. destruct v as [s|]; [|done]. apply attr_blank. Qed.

Lemma blank_nonempty s : is_nonempty (blank_text s) = is_nonempty s.
Proof. by destruct s. Qed.

Lemma app_cong {A : Type} (a a' b b' : list A) : a = a' -> b = b' -> a ++ b = a' ++ b'.
Proof. by intros -> ->. Qed.

Lemma default_blank h : default [] (blank_text <$> h) = blank_text (default [] h).
Proof. by destruct h. Qed.

Lemma item_markup `{FT : FeedText} e : entry_ok e -> markup (item_xml (blank_entry e)) = markup (item_xml e).
Proof.
  unfold entry_ok. rewrite Forall_app. intros [Htexts Hmeta].
  repeat match goal with H : Forall _ (_ :: _) |- _ => apply Forall_cons in H as [? H] end.
  destruct e as [item url magnet]. unfold item_xml, blank_entry. cbn [fi_item fi_download_url fi_magnet_url] in *.
  rewrite blank_nonempty. cbn [blank_item it_info_hash it_release_title it_size it_created_at it_ids it_media it_spec tvdb tmdb tvmaze imdb].
  rewrite default_blank. change (category_for (blank_item item)) with (category_for item). rewrite !markup_app.
  repeat apply app_cong; try done; try (by apply escape_blank); try (by apply attr_blank); try (by apply optional_blank).
  - destruct (is_nonempty magnet); [by apply attr_blank|done].
  - destruct (it_media item) as [m|]; [|done]. cbn [fmap option_fmap option_map]. unfold meta_texts in Hmeta.
    repeat match goal with H : Forall _ (_ :: _) |- _ => apply Forall_cons in H as [? H] end.
    cbn [map concat fst snd blank_meta resolution video_codec audio_codec audio_channels audio_languages subtitles runtime dynamic_range
      audio_sample_rate audio_bit_depth]. rewrite !markup_app. repeat apply app_cong; try done; by apply optional_blank.
Qed.

(** ** Facts: answers *)

Section AnswerFacts.
Context `{U : UrlLib} `{D : Digests} `{DC : Decoders} `{C : VaultCipher} `{KF : KeyFiles} `{ME : MasterEnv} `{RO : RowOrder}.
Context `{FT : FeedText} `{UD : UnicodeData}.

Lemma seeding_items_for_inv scope limits ds items ds' :
  seeding_items_for scope limits ds = (Ok items, ds') -> items = friend_feed scope limits ds.1.
Proof.
  destruct ds as [db script]. unfold seeding_items_for. intros (listed & [db1 script1] & H1 & H)%try_inv.
  apply query_inv in H1 as [H1|(e & ? & _)]; [|done]. injection H1 as <- <-.
  apply try_inv in H as (who & [db2 script2] & H2 & [= <- _]). apply query_inv in H2 as [H2|(e & ? & _)]; [|done].
  injection H2 as <- _. done.
Qed.

Lemma moves_seeding_items_for scope limits : moves (tables eq) (seeding_items_for scope limits).
Proof.
  unfold seeding_items_for. eapply moves_try; [apply _|apply moves_select; apply _|]. intros ?.
  eapply moves_try; [apply _|apply moves_select; apply _|]. intros ?. apply moves_ret. apply _.
Qed.

(** A feed depends on what is shared and with whom, not on who was seen when. *)
Lemma friend_feed_kept scope limits db db' :
  db_items db' = db_items db -> db_audience db' = db_audience db -> friend_feed scope limits db' = friend_feed scope limits db.
Proof. intros Hi Ha. unfold friend_feed, feed_rows, scoped_rows. by rewrite Hi, Ha. Qed.

Lemma moves_tracker_token : moves undisturbed tracker_token.
Proof. apply moves_bind; [apply _|apply moves_tracker_tokens|]. intros ?. apply moves_ret. apply _. Qed.

(** A search finds exactly what the query selects of what the caller may see. *)
Lemma collect_inv query scope limits token s m s' :
  collect query scope limits token s = (Ok m, s') ->
  undisturbed s s' /\
  m_items m = filter (fun item => selects query item = true) (friend_feed scope limits (sv_db s)) /\
  (m_download_token m = None \/ m_download_token m = Some token) /\
  m_magnet_links_enabled m = cf_magnet_links (sv_config s).
Proof.
  unfold collect. intros (opened & s1 & Ho & H)%sbind_inv. pose proof (moves_store s) as M1. rewrite Ho in M1. cbn in M1.
  apply try_inv in H as ([] & ? & [= _ <-] & H). apply sbind_inv in H as (items & s2 & Hi & H).
  pose proof (moves_on_store _ (moves_seeding_items_for scope limits) s1) as M2. rewrite Hi in M2. cbn in M2.
  apply try_inv in H as (items' & ? & [= He <-] & H). apply rmap_err_Ok in He as ->.
  unfold sbind at 1, sgets at 1 in H. apply sbind_inv in H as (required & s3 & Hr & H).
  pose proof (moves_tracker_token s2) as M3. rewrite Hr in M3. cbn in M3.
  unfold sbind, sgets, public_base_url, sret in H. injection H as <- <-. cbn [m_items m_download_token m_magnet_links_enabled].
  assert (undisturbed s s2) as M by (by transitivity s1). split; [by transitivity s2|].
  rewrite on_store_run in Hi. destruct (seeding_items_for _ _ _) as [r ds] eqn:E. injection Hi as Hi _. cbn in Hi. subst r.
  apply seeding_items_for_inv in E as ->. cbn. split; [|split].
  - f_equal. destruct M1 as [_ [r1 Hr1] _ _ _ _ _ _]. rewrite Hr1. by apply friend_feed_kept.
  - destruct required; auto.
  - by destruct M as [-> _].
Qed.

(** A search that fails does so as the server's fault. *)
Lemma collect_fails query scope limits token s status reason s' :
  collect query scope limits token s = (Err (status, reason), s') -> status <> 200%N.
Proof.
  intros H Hok. unfold collect in H. apply sbind_inv in H as ([?|reason'] & ? & _ & H); cbn in H.
  - apply sbind_inv in H as ([items|] & ? & _ & H); cbn in H; [|injection H as <- _ _; done].
    unfold try_bind, sbind, sgets, sret in H. by destruct (tracker_token _) as [? ?].
  - by injection H as <- _ _.
Qed.

(** Who a key belongs to. *)
Lemma check_api_key_inv {RL : RowOrderLaws RO} now supplied remote s caller s' :
  check_api_key now supplied remote s = (Ok caller, s') ->
  bookkept s s' /\
  exists key row, supplied = Some key /\ key <> [] /\ tb_rows (db_peers (sv_db s)) !! ca_peer_id caller = Some row /\
    pr_key_hash row = hash_key key /\ pr_revoked_at row = None /\
    let peer := row_to_peer (ca_peer_id caller) row in
    ca_scope caller = p_scope peer /\ ca_limits caller = peer_limits peer /\ ca_key_hash caller = pr_key_hash row.
Proof.
  unfold check_api_key. destruct supplied as [[|k key]|]; try done. intros (opened & s1 & Ho & H)%sbind_inv.
  pose proof (moves_store s) as M1. rewrite Ho in M1. cbn in M1. destruct opened as [[]|]; [|done].
  apply sbind_inv in H as (found & s2 & Hf & H).
  pose proof (moves_on_store (peer_by_key (k :: key)) (moves_key_hash _) s1) as M2. rewrite Hf in M2. cbn in M2.
  destruct found as [[peer|]|]; try done. apply sbind_inv in H as (? & s3 & Hs & [= <- <-]).
  pose proof (moves_record_sighting now (p_id peer) KindApi (ip_to_string <$> remote) s2) as M3. rewrite Hs in M3. cbn in M3.
  split. { transitivity s2; [|done]. apply undisturbed_bookkept. by transitivity s1. }
  rewrite on_store_run in Hf. unfold peer_by_key in Hf. destruct (peer_by_key_hash _ _) as [r ds] eqn:E. injection Hf as Hf _. cbn in Hf. subst r.
  apply peer_by_key_hash_inv in E as (row & Hrow & Hp & Hk & Hr). cbn [fst] in Hrow. exists (k :: key), row.
  destruct M1 as [_ [r1 Hr1] _ _ _ _ _ _]. rewrite Hr1 in Hrow. cbn [ca_peer_id ca_scope ca_limits ca_key_hash].
  split; [done|]. split; [done|]. split; [by destruct (sv_db s)|]. split; [done|]. split; [done|]. rewrite <- Hp. split; [done|]. split; [done|].
  by rewrite Hp.
Qed.

End AnswerFacts.

(** ** Properties *)

(** C3: a feed tells a friend what is theirs to see, and nobody else anything.
    Whatever fails on the way, a search answered with 200 came with the key of a
    friend who is not revoked, and its document lists exactly the items that the
    query selects out of that friend's own feed: a query can only narrow it.  The
    links carry no token but that friend's own, and answering changed nobody's
    access. *)
Theorem feed_answer `{U : UrlLib} `{D : Digests} `{C : VaultCipher} `{KF : KeyFiles} `{ME : MasterEnv} `{RO : RowOrder}
    `{FT : FeedText} `{UD : UnicodeData} now apikey remote query s response s' :
  RowOrderLaws RO -> is_search_function (sq_t query) = true ->
  api now apikey remote query s = (response, s') -> rp_status response = 200%N ->
  bookkept s s' /\
  exists key id row matched, apikey = Some key /\ tb_rows (db_peers (sv_db s)) !! id = Some row /\
    pr_key_hash row = hash_key key /\ pr_revoked_at row = None /\
    rp_body response = render_feed matched /\
    (m_download_token matched = None \/ m_download_token matched = Some (pr_key_hash row)) /\
    let friend := row_to_peer id row in
    m_items matched = filter (fun item => selects query item = true) (friend_feed (p_scope friend) (peer_limits friend) (sv_db s)).
Proof.
  intros RL Hf H Hok. unfold api in H. apply sbind_inv in H as (caller & s1 & Hc & H). destruct caller as [caller|rejection].
  2: { injection H as <- <-. unfold check_api_key in Hc. destruct apikey as [[|k key]|]; try (by injection Hc as <- _).
       apply sbind_inv in Hc as ([[]|] & s2 & _ & Hc); [|by injection Hc as <- _].
       apply sbind_inv in Hc as ([[peer|]|] & s3 & _ & Hc); try (by injection Hc as <- _). by apply sbind_inv in Hc as (? & ? & _ & ?). }
  apply check_api_key_inv in Hc as [B (key & row & -> & _ & Hrow & Hk & Hrev & Hsc & Hl & Hh)].
  case_decide as Hcaps; [rewrite Hcaps in Hf; done|]. rewrite Hf in H. unfold search in H.
  apply sbind_inv in H as (r & s2 & Hcol & [= <- <-]). destruct r as [m|[status reason]].
  - apply collect_inv in Hcol as (M & Hi & Ht & _). split; [transitivity s1; [done|by apply undisturbed_bookkept]|].
    exists key, (ca_peer_id caller), row, m. rewrite Hh in Ht. do 6 (split; [done|]). cbn zeta. rewrite Hi, Hsc, Hl. f_equal.
    destruct B as [_ [Bi _ _ Ba _ _ _] _ _ _ _ _]. by apply friend_feed_kept.
  - cbn in Hok. by destruct (collect_fails _ _ _ _ _ _ _ _ Hcol).
Qed.

(** No text of a release can break out of the document.  The tags and quotation
    marks of a feed are the same whatever the titles, links, identifiers and media
    descriptions in it say: those of the template, per item and per field present. *)
Theorem feed_markup `{FT : FeedText} entries :
  Forall entry_ok entries -> markup (feed_xml entries) = markup (feed_xml (map blank_entry entries)).
Proof.
  intros H. unfold feed_xml. rewrite !markup_app. repeat apply app_cong; try done.
  induction H as [|e es He Hes IH]; [done|]. cbn [map concat]. rewrite !markup_app. by rewrite item_markup, IH.
Qed.

(** The search that allocates nothing is the search it replaces.  For a needle
    in which case is settled, comparing byte windows of ASCII text gives what
    lowercasing it and searching gives, and other text is lowercased in full. *)
Theorem contains_ci_lowercases `{UD : UnicodeData} hay needle :
  LowercaseLaws UD -> is_folded needle -> contains_ci hay needle = contains needle (to_lowercase hay).
Proof.
  intros L Hf. destruct (forallb is_ascii hay) eqn:Ha; [|unfold contains_ci; by rewrite Ha].
  rewrite contains_ci_ascii by done. rewrite to_lowercase_ascii; [done|]. apply Forall_forall. intros b Hb.
  rewrite forallb_forall in Ha. by apply Ha, list_elem_of_In.
Qed.

(** ** Witnesses *)

Definition plain_feed_text : FeedText := {| time_in_range := fun _ => true; rfc2822_format := fun _ => None; form_encode := fun s => s |}.

Definition keyed_db : Db :=
  with_peers (mkTable {[ 1%Z := mkPeerRow (bs "Sam") (@hash_key prefix_digests (bs "secret")) 10 None None (bs "movies") None None None 0 0 None None ]} 1) serve_db.

Definition heist_query : SearchQuery := mkSearch (bs "movie") (Some (bs " heist ")) None None None None None (Some (bs "2040")).

Lemma feed_answer_witness :
  let run := @api text_urls prefix_digests toy_cipher no_key_files sample_env key_order plain_feed_text plain_unicode
               1000 (Some (bs "secret")) None heist_query (sample_serve (Some (bs "t0ken"), None) keyed_db ∅) in
  exists matched, rp_body run.1 = @render_feed plain_feed_text matched /\
    m_items matched = [row_to_item (Radarr, 70%Z) shared_row].
Proof.
  intros run. destruct run as [r s'] eqn:E. assert (run.1 = r) as Hr by (by rewrite E).
  assert (rp_status r = 200%N) as Hok by (rewrite <- Hr; vm_compute; reflexivity).
  destruct (@feed_answer text_urls prefix_digests toy_cipher no_key_files sample_env key_order plain_feed_text plain_unicode
    1000 (Some (bs "secret")) None heist_query _ r s' key_order_laws eq_refl E Hok)
    as (_ & key & id & row & matched & Hk & Hrow & _ & _ & Hb & _ & Hi).
  exists matched. split; [exact Hb|]. cbn zeta in Hi. rewrite Hi.
  change ((tb_rows (db_peers keyed_db)) !! id = Some row) in Hrow. unfold keyed_db in Hrow. cbn [db_peers with_peers tb_rows] in Hrow.
  apply lookup_singleton_Some in Hrow as [<- <-].
  vm_compute. reflexivity.
Defined.

(** A title that tries. *)
Definition hostile_entry : FeedItem :=
  mkFeedItem (into_shared_item sample_film (bs "</title><item>" ++ [x22])) (bs "http://a/?a=1&b=<") [].

Lemma feed_markup_witness :
  markup (@feed_xml plain_feed_text [hostile_entry]) = markup (@feed_xml plain_feed_text [blank_entry hostile_entry]).
Proof. apply (feed_markup [hostile_entry]). repeat constructor. Defined.

Lemma contains_ci_lowercases_witness :
  @contains_ci plain_unicode (bs "The.HEIST.2001") (bs "heist") = contains (bs "heist") (bs "the.heist.2001").
Proof. apply (@contains_ci_lowercases plain_unicode); [by intros s _|by vm_compute]. Defined.

(** ** Departures from the documentation *)

(** A database that will not open answers a friend's key as bad credentials, where
    the handler's documentation promises 503 and its comment that a database which
    does not answer is never reported that way. *)
Example unopened_store_reads_as_bad_key :
  let s := sample_serve (None, None) keyed_db ∅ in
  let closed := put_db false (sv_db s) (mkScript [false] [] (bs "disk I/O error")) s in
  rp_status (@api text_urls prefix_digests toy_cipher no_key_files sample_env key_order plain_feed_text plain_unicode
    1000 (Some (bs "secret")) None heist_query closed).1 = 401%N.
Proof. vm_compute. reflexivity. Qed.
