(* ===== verification/Gossip.v ===== *)
(** * Endpoint gossip and friends' catalogs (gossip.rs, catalog.rs)

    Friends tell each other where they are with records signed by the friend they
    describe: this instance signs its own, takes those a friend presents, hands on
    those a caller already knows the subject of, and pulls each friend's catalog on
    the same exchange.  Ed25519, serde_json and the HTTP exchanges are parameters. *)

From S2P Require Import Prelude RustStd Text Bencode Metainfo Net Endpoint TrackerUrl Announce Model Paths Factory Title Lighthouse FileTree Totp Effects Accounts Database Items Peers History Sightings Vault Serve TrackerRoutes Torznab.

(** ** Parameters *)

(** [ed25519_dalek::SigningKey]: the public key of a seed, and signing; and
    [serde_json] for a record, and for the [signed_at] of one. *)
Class Signing : Type := {
  seed_pubkey : bytes -> bytes;
  seed_sign : bytes -> bytes -> bytes;
  record_json : EndpointRecord -> option bytes;
  record_of_json : bytes -> option EndpointRecord;
  signed_at_of_json : bytes -> option Z
}.

(** A signature verifies under its seed's key; both have their fixed widths; what
    is printed is read back; hexadecimal text decodes to what it encodes. *)
Class SigningLaws (SG : Signatures) (SN : Signing) (D : Digests) (DC : Decoders) : Prop := {
  sign_verifies : forall seed text, exists key, key_from_bytes (seed_pubkey seed) = Some key /\ key_verify key text (seed_sign seed text) = true;
  pubkey_width : forall seed, length (seed_pubkey seed) = 32;
  signature_width : forall seed text, length (seed_sign seed text) = 64;
  json_roundtrip : forall r raw, record_json r = Some raw -> record_of_json raw = Some r;
  json_signed_at : forall raw r, record_of_json raw = Some r -> signed_at_of_json raw = Some (er_signed_at r);
  hex_roundtrip : forall s, hex_decode (hex_encode s) = Some s
}.

Definition GOSSIP_MAX_RECORDS : nat := 64.

Record IngestSummary : Type := mkSummary { is_accepted : nat; is_invalid : nat; is_unknown : nat; is_stale : nat }.

Definition summary_default : IngestSummary := mkSummary 0 0 0 0.

Definition count_accepted (s : IngestSummary) : IngestSummary := mkSummary (S (is_accepted s)) (is_invalid s) (is_unknown s) (is_stale s).
Definition count_invalid (s : IngestSummary) : IngestSummary := mkSummary (is_accepted s) (S (is_invalid s)) (is_unknown s) (is_stale s).
Definition count_unknown (s : IngestSummary) : IngestSummary := mkSummary (is_accepted s) (is_invalid s) (S (is_unknown s)) (is_stale s).
Definition count_stale (s : IngestSummary) : IngestSummary := mkSummary (is_accepted s) (is_invalid s) (is_unknown s) (S (is_stale s)).

(** ** This instance's own record *)

Section Identity.
Context `{SG : Signatures} `{SN : Signing} `{D : Digests}.

(** [Identity::pubkey_hex] and [Identity::sign_record]; the identity is its seed. *)
Definition pubkey_hex (seed : bytes) : bytes := hex_encode (seed_pubkey seed).

Definition sign_record (seed : bytes) (endpoints : list RecordEndpoint) (signed_at : Z) : result EndpointRecord bytes :=
  let pubkey := pubkey_hex seed in
  let? text := ok_or (signable_bytes pubkey endpoints signed_at) (bs "serialising the record") in
  Ok (mkRecord pubkey endpoints signed_at (hex_encode (seed_sign seed text))).

End Identity.

Section SelfRecord.
Context `{U : UrlLib} `{SG : Signatures} `{SN : Signing} `{D : Digests} `{DC : Decoders} `{C : VaultCipher} `{KF : KeyFiles} `{ME : MasterEnv}.

Definition own_endpoints (now : Z) (s : Serve) : list RecordEndpoint :=
  let endpoint kind base := mkRecordEndpoint (as_str_name kind) (base_string base) now in
  match current (sv_endpoint s) with
  | Some base => [endpoint KindTracker base; endpoint KindApi base]
  | None => []
  end ++
  match current (sv_client s) with Some base => [endpoint KindClient base] | None => [] end.

Definition self_record (now : Z) : ServeM (option EndpointRecord) :=
  let! identity := gossip_identity in
  match identity with
  | None => sret None
  | Some seed => sgets (fun s => res_ok (sign_record seed (own_endpoints now s) now))
  end.

End SelfRecord.

(** ** Taking records *)

Section Ingest.
Context `{SG : Signatures} `{SN : Signing} `{D : Digests} `{DC : Decoders} `{RO : RowOrder}.

Definition record_endpoints (now peer_id : Z) (endpoints : list RecordEndpoint) (via : ObservedVia) : DbM unit :=
  sfold (fun _ endpoint =>
    match parse_enum (re_kind endpoint) with
    | None => sret tt
    | Some kind =>
        let! recorded := record_peer_endpoint now peer_id kind (re_addr endpoint) (Some (re_observed_at endpoint)) via in
        sret tt
    end) endpoints tt.

(** The friends by the key they are bound to, a later one of the list winning. *)
Definition by_pubkey (peers : list Peer) : gmap bytes Peer :=
  foldl (fun m p => match p_pubkey p with Some k => <[k := p]> m | None => m end) ∅ peers.

Record IngestState : Type := mkIngest { in_summary : IngestSummary; in_stored : gmap Z Z }.

(** Who a record is about: the friend bound to its key, or the presenter, whose
    first record binds it. *)
Definition subject_of (peers : list Peer) (presenter : Z) (record : EndpointRecord) : DbM (option Z) :=
  match by_pubkey peers !! er_pubkey record with
  | Some subject => sret (if is_revoked subject then None else Some (p_id subject))
  | None =>
      let found := List.find (fun p => (p_id p =? presenter)%Z) peers in
      let unbound := match found with Some p => bool_decide (p_pubkey p = None) | None => false end in
      if unbound then
        let! bound := bind_peer_pubkey presenter (er_pubkey record) in
        sret (match bound with Ok true => Some presenter | _ => None end)
      else sret None
  end.

(** One turn of the loop. *)
Definition ingest_one (now presenter : Z) (peers : list Peer) (st : IngestState) (record : EndpointRecord) : DbM IngestState :=
  match Lighthouse.verify record with
  | Err _ => sret (mkIngest (count_invalid (in_summary st)) (in_stored st))
  | Ok _ =>
      if (i64_saturating_add now MAX_FUTURE_SKEW_SECS <? er_signed_at record)%Z
      then sret (mkIngest (count_invalid (in_summary st)) (in_stored st))
      else
        let! subject := subject_of peers presenter record in
        match subject with
        | None => sret (mkIngest (count_unknown (in_summary st)) (in_stored st))
        | Some subject_id =>
            if match in_stored st !! subject_id with Some stored => (er_signed_at record <=? stored)%Z | None => false end
            then sret (mkIngest (count_stale (in_summary st)) (in_stored st))
            else
              let via := if (subject_id =? presenter)%Z then ViaDirect else ViaGossip in
              let! recorded := record_endpoints now subject_id (er_endpoints record) via in
              let accepted := count_accepted (in_summary st) in
              match record_json record with
              | None => sret (mkIngest accepted (in_stored st))
              | Some raw =>
                  let! kept := set_peer_gossip_record subject_id raw in
                  sret (mkIngest accepted (match kept with Ok _ => <[subject_id := er_signed_at record]> (in_stored st) | Err _ => in_stored st end))
              end
        end
  end.

Definition ingest (now presenter : Z) (records : list EndpointRecord) : DbM IngestSummary :=
  let! listed := list_peers in
  match listed with
  | Err _ => sret summary_default
  | Ok peers =>
      let! known := peer_gossip_records (map p_id peers) in
      let stored := match known with Ok known => omap signed_at_of_json known | Err _ => ∅ end in
      let! st := sfold (ingest_one now presenter peers) (take GOSSIP_MAX_RECORDS records) (mkIngest summary_default stored) in
      sret (in_summary st)
  end.

End Ingest.

(** ** The routes *)

Section GossipRoutes.
Context `{U : UrlLib} `{SG : Signatures} `{SN : Signing} `{D : Digests} `{DC : Decoders} `{C : VaultCipher} `{KF : KeyFiles} `{ME : MasterEnv} `{RO : RowOrder}.

(** The keys a pull names. *)
Definition wanted_keys (peers : bytes) : list bytes :=
  filter (fun p => is_nonempty p = true) (map trim (split_byte ","%byte peers)).

(** [pull], once the caller is known: the records of the answer, or its status and
    text. *)
Definition pull (now : Z) (peers : bytes) : ServeM (result (list EndpointRecord) (N * bytes)) :=
  let! opened := store in
  match opened with
  | Err _ => sret (Err (503%N, bs "not ready"))
  | Ok _ =>
      let! own := self_record now in
      let own := match own with Some own => [own] | None => [] end in
      let wanted := wanted_keys peers in
      if is_nonempty wanted then
        let! active := on_store active_peers in
        match active with
        | Err _ => sret (Ok own)
        | Ok active =>
            let matched_ids := map p_id (filter (fun p => match p_pubkey p with Some k => bool_decide (k ∈ wanted) | None => false end = true) active) in
            let! records := on_store (peer_gossip_records matched_ids) in
            sret (Ok (own ++ match records with
                             | Ok records => omap (fun id => records !! id ≫= record_of_json) matched_ids
                             | Err _ => []
                             end))
        end
      else sret (Ok own)
  end.

(** [push], once the caller is known. *)
Definition push (now presenter : Z) (records : list EndpointRecord) : ServeM (result IngestSummary (N * bytes)) :=
  let! opened := store in
  match opened with
  | Err _ => sret (Err (503%N, bs "not ready"))
  | Ok _ => let! summary := on_store (ingest now presenter records) in sret (Ok summary)
  end.

End GossipRoutes.

(** ** Facts: this instance's record *)

Lemma sign_record_verify `{SG : Signatures} `{SN : Signing} `{D : Digests} `{DC : Decoders} `{!SigningLaws SG SN D DC} seed endpoints signed_at r :
  sign_record seed endpoints signed_at = Ok r ->
  Lighthouse.verify r = Ok tt /\ er_pubkey r = pubkey_hex seed /\ er_endpoints r = endpoints /\ er_signed_at r = signed_at.
Proof.
  unfold sign_record. intros (text & Ht%ok_or_Ok & [= <-])%rbind_Ok. split; [|done]. unfold Lighthouse.verify, hex_to_slice.
  cbn [er_pubkey er_signature er_endpoints er_signed_at]. unfold pubkey_hex at 1. rewrite !hex_roundtrip. cbn [mbind option_bind].
  rewrite decide_True by apply pubkey_width. cbn [ok_or rbind]. destruct (sign_verifies seed text) as (key & -> & Hv).
  cbn [ok_or rbind]. rewrite decide_True by apply signature_width. cbn [ok_or rbind]. rewrite Ht. cbn [ok_or rbind]. by rewrite Hv.
Qed.

(** ** Facts: what a batch may change *)

(** A record somebody may act on: signed by the key it names, and not from further
    ahead than clocks differ. *)
Definition record_good `{SG : Signatures} `{DC : Decoders} (now : Z) (r : EndpointRecord) : Prop :=
  Lighthouse.verify r = Ok tt /\ (er_signed_at r <= i64_saturating_add now MAX_FUTURE_SKEW_SECS)%Z.

(** All of a friend's row but their key and their last record. *)
Definition row_rest (r : PeerRow) : PeerRow := put_gossip_record [] (put_pubkey [] r).

Section BatchFacts.
Context `{SG : Signatures} `{SN : Signing} `{D : Digests} `{DC : Decoders} `{RO : RowOrder} {RL : RowOrderLaws RO}.
Context (now presenter : Z) (batch : list EndpointRecord).

Record row_step (id : Z) (r r' : PeerRow) : Prop := {
  rw_rest : row_rest r' = row_rest r;
  rw_pubkey : pr_pubkey r' = pr_pubkey r \/
    (pr_pubkey r = None /\ id = presenter /\ exists rec, rec ∈ batch /\ record_good now rec /\ pr_pubkey r' = Some (er_pubkey rec));
  rw_record : pr_gossip_record r' = pr_gossip_record r \/
    (exists rec, rec ∈ batch /\ record_good now rec /\ pr_pubkey r' = Some (er_pubkey rec) /\
       is_Some (pr_gossip_record r') /\ pr_gossip_record r' = record_json rec)
}.

(** Only friends' rows and the observed endpoints change. *)
Record batch_step (db db' : Db) : Prop := {
  bt_tables : exists peers endpoints, db' = with_endpoints endpoints (with_peers peers db);
  bt_rows : forall id, option_Forall2 (row_step id) (tb_rows (db_peers db) !! id) (tb_rows (db_peers db') !! id)
}.

Lemma row_step_refl id r : row_step id r r.
Proof. constructor; auto. Qed.

Lemma row_step_trans id a b c : row_step id a b -> row_step id b c -> row_step id a c.
Proof.
  intros [H1 H2 H3] [G1 G2 G3]. constructor; [congruence| |].
  - destruct H2 as [H2|(Hn & -> & rec & Hin & Hg & Hk)].
    + destruct G2 as [G2|(Gn & -> & G2)]; [left; congruence|]. right. rewrite H2 in Gn. auto.
    + right. split; [done|]. split; [done|]. exists rec. split; [done|]. split; [done|]. destruct G2 as [G2|(Gn & _)]; congruence.
  - destruct G3 as [G3|G3]; [|by right]. destruct H3 as [H3|(rec & Hin & Hg & Hk & Hs & Hr)]; [left; congruence|].
    right. exists rec. split; [done|]. split; [done|]. rewrite G3. split; [|by split]. destruct G2 as [G2|(Gn & _)]; congruence.
Qed.

#[global] Instance batch_step_preorder : PreOrder batch_step.
Proof.
  split.
  - intros db. constructor; [exists (db_peers db), (db_endpoints db); by destruct db|]. intros id.
    destruct (tb_rows (db_peers db) !! id); constructor. apply row_step_refl.
  - intros a b c [(p & e & Hb) H] [(p' & e' & Hc) G]. constructor; [exists p', e'; subst; by destruct a|].
    intros id. specialize (H id). specialize (G id). destruct H as [r r' H|]; inversion G; subst; constructor.
    by eapply row_step_trans.
Qed.

Lemma update_peer_step id guard set db :
  (forall r, tb_rows (db_peers db) !! id = Some r -> guard r = true -> row_step id r (set r)) ->
  batch_step db (update_peer id guard set db).2.
Proof.
  intros H. unfold update_peer. destruct (tb_rows (db_peers db) !! id) as [r|] eqn:E; [|reflexivity].
  destruct (guard r) eqn:Eg; [|reflexivity]. constructor.
  - exists (mkTable (<[id := set r]> (tb_rows (db_peers db))) (tb_sequence (db_peers db))), (db_endpoints db). by destruct db.
  - intros id'. cbn. destruct (decide (id' = id)) as [->|Hne].
    + rewrite E, lookup_insert_eq. constructor. by apply H.
    + rewrite lookup_insert_ne by done. destruct (tb_rows (db_peers db) !! id'); constructor. apply row_step_refl.
Qed.

Lemma moves_record_endpoints peer_id endpoints via : moves (tables batch_step) (record_endpoints now peer_id endpoints via).
Proof.
  apply moves_fold; [apply _|]. intros _ endpoint _. destruct (parse_enum _); [|apply moves_ret; apply _].
  apply moves_bind; [apply _| |intros ?; apply moves_ret; apply _]. apply moves_query; [apply _|]. intros db.
  destruct (known_peer _ _); [|reflexivity]. constructor; cbn.
  - exists (db_peers db). eexists. by destruct db.
  - intros id. destruct (tb_rows (db_peers db) !! id); constructor. apply row_step_refl.
Qed.

(** The friends as listed still hold the keys they were listed with. *)
Definition listed (peers : list Peer) (db : Db) : Prop :=
  forall p k, p ∈ peers -> p_pubkey p = Some k ->
    forall r, tb_rows (db_peers db) !! p_id p = Some r -> pr_pubkey r = Some k.

Lemma listed_step peers db db' : batch_step db db' -> listed peers db -> listed peers db'.
Proof.
  intros [_ H] Hl p k Hp Hk r' Hr'. specialize (H (p_id p)). rewrite Hr' in H. inversion H as [r ? Hs Hr|]; subst.
  symmetry in Hr. specialize (Hl p k Hp Hk r Hr). destruct Hs as [_ [Hs|(Hn & _)] _]; congruence.
Qed.

Lemma by_pubkey_elem peers k p : by_pubkey peers !! k = Some p -> p ∈ peers /\ p_pubkey p = Some k.
Proof.
  unfold by_pubkey. assert (forall m : gmap bytes Peer, (forall k p, m !! k = Some p -> p_pubkey p = Some k) ->
    foldl (fun m p => match p_pubkey p with Some k => <[k := p]> m | None => m end) m peers !! k = Some p ->
    (p ∈ peers \/ m !! k = Some p) /\ p_pubkey p = Some k) as H.
  { induction peers as [|q peers IH]; intros m Hm Hl; cbn in Hl; [by auto|].
    destruct (p_pubkey q) as [kq|] eqn:Eq.
    - apply IH in Hl as [[Hl|Hl] Hk].
      + split; [left; by apply list_elem_of_further|done].
      + apply lookup_insert_Some in Hl as [[_ ->]|[_ Hl]]; (split; [|done]); [left; apply list_elem_of_here|by right].
      + intros k' p' [[<- <-]|[_ H']]%lookup_insert_Some; [done|by apply Hm].
    - apply IH in Hl as [[Hl|Hl] Hk]; [split; [left; by apply list_elem_of_further|done]|by auto|done]. }
  intros Hl. apply H in Hl as [[Hl|Hl] Hk]; [done|by rewrite lookup_empty in Hl|]. intros ? ?. by rewrite lookup_empty.
Qed.

(** The rows of a friend a record is about hold the record's key. *)
Definition keyed (id : Z) (key : bytes) (db : Db) : Prop :=
  forall r, tb_rows (db_peers db) !! id = Some r -> pr_pubkey r = Some key.

Lemma keyed_step id key db db' : batch_step db db' -> keyed id key db -> keyed id key db'.
Proof.
  intros [_ H] Hk r' Hr'. specialize (H id). rewrite Hr' in H. inversion H as [r ? Hs Hr|]; subst. symmetry in Hr. specialize (Hk r Hr).
  destruct Hs as [_ [Hs|(Hn & _)] _]; congruence.
Qed.

Lemma subject_of_inv peers record ds subject ds' :
  record ∈ batch -> record_good now record -> listed peers ds.1 ->
  subject_of peers presenter record ds = (subject, ds') ->
  batch_step ds.1 ds'.1 /\ (forall id, subject = Some id -> keyed id (er_pubkey record) ds'.1).
Proof.
  intros Hin Hg Hl. unfold subject_of. destruct (by_pubkey peers !! er_pubkey record) as [p|] eqn:E.
  { intros [= <- <-]. split; [reflexivity|]. intros id. destruct (is_revoked p); [done|]. intros [= <-].
    apply by_pubkey_elem in E as [Hp Hk]. intros r. by apply Hl. }
  destruct (match List.find _ _ with Some p => _ | None => _ end); [|intros [= <- <-]; split; [reflexivity|done]].
  intros (bound & [db1 script1] & Hb & H)%sbind_inv. destruct ds as [db script].
  assert (batch_step db db1 /\ (bound = Ok true -> keyed presenter (er_pubkey record) db1)) as [Hs Hk].
  { unfold bind_peer_pubkey, changed in Hb. apply query_inv in Hb as [Hb|(e & -> & ->)]; [|split; [reflexivity|done]].
    pose proof (update_peer_step presenter (fun r => bool_decide (pr_pubkey r = None) || bool_decide (pr_pubkey r = Some (er_pubkey record)))
      (put_pubkey (er_pubkey record)) db) as Hs.
    unfold update_peer in *. destruct (tb_rows (db_peers db) !! presenter) as [r|] eqn:Er.
    2: { injection Hb as <- <-. split; [reflexivity|done]. }
    destruct (bool_decide _ || _) eqn:Eg; injection Hb as <- <-; [|split; [reflexivity|done]]. split.
    - apply Hs. intros r' [= <-] _. constructor; [done| |by left]. apply orb_true_iff in Eg as [Eg|Eg]; apply bool_decide_eq_true in Eg.
      + right. split; [done|]. split; [done|]. by exists record.
      + left. by rewrite Eg.
    - intros _ r' Hr'. cbn in Hr'. rewrite lookup_insert_eq in Hr'. by injection Hr' as <-. }
  injection H as <- <-. split; [done|]. intros id. destruct bound as [[]|]; try done. intros [= <-]. by apply Hk.
Qed.

Lemma ingest_one_step peers st record ds :
  record ∈ batch -> listed peers ds.1 -> batch_step ds.1 (ingest_one now presenter peers st record ds).2.1.
Proof.
  intros Hin Hl. unfold ingest_one. destruct (Lighthouse.verify record) as [[]|] eqn:Hv; [|reflexivity].
  destruct (_ <? _)%Z eqn:Ef; [reflexivity|]. apply Z.ltb_ge in Ef. unfold sbind at 1.
  destruct (subject_of peers presenter record ds) as [subject ds1] eqn:Es.
  apply subject_of_inv in Es as [H1 Hk]; [|done|done|done]. destruct subject as [id|]; [|done]. specialize (Hk id eq_refl).
  match goal with |- context [if ?c then sret (mkIngest (count_stale _) _) else _] => destruct c; [done|] end. unfold sbind at 1.
  pose proof (moves_record_endpoints id (er_endpoints record) (if (id =? presenter)%Z then ViaDirect else ViaGossip) ds1) as H2.
  destruct (record_endpoints _ _ _ _ ds1) as [u ds2]. unfold tables in H2. cbn in H2.
  assert (batch_step ds.1 ds2.1) as H by (by transitivity ds1.1). destruct (record_json record) as [raw|] eqn:Ej; [|done].
  unfold sbind. destruct (set_peer_gossip_record id raw ds2) as [kept ds3] eqn:Ek. cbn. transitivity ds2.1; [done|].
  destruct ds2 as [db2 script2], ds3 as [db3 script3]. apply query_inv in Ek as [Ek|(e & _ & ->)]; [|reflexivity].
  injection Ek as _ <-. apply update_peer_step. intros r Hr _. constructor; [done|by left|]. right. exists record.
  split; [done|]. split; [done|]. cbn. rewrite Ej. split; [|split; [by eexists|done]].
  eapply (keyed_step id _ _ _ H2); [done|exact Hr].
Qed.

Lemma ingest_loop_step peers records st ds :
  (forall r, r ∈ records -> r ∈ batch) -> listed peers ds.1 ->
  batch_step ds.1 (sfold (ingest_one now presenter peers) records st ds).2.1.
Proof.
  revert st ds. induction records as [|record records IH]; intros st ds Hb Hl; cbn; [reflexivity|]. unfold sbind.
  pose proof (ingest_one_step peers st record ds (Hb _ (list_elem_of_here _ _)) Hl) as H.
  destruct (ingest_one now presenter peers st record ds) as [st1 ds1]. cbn in H. transitivity ds1.1; [done|].
  apply IH; [intros r Hr; by apply Hb, list_elem_of_further|by eapply listed_step].
Qed.

Lemma list_peers_inv ds peers ds' :
  list_peers ds = (Ok peers, ds') ->
  ds'.1 = ds.1 /\ forall p, p ∈ peers <-> exists r, tb_rows (db_peers ds.1) !! p_id p = Some r /\ p = row_to_peer (p_id p) r.
Proof.
  destruct ds as [db script], ds' as [db' script']. intros H. apply query_inv in H as [H|(e & ? & _)]; [|done].
  injection H as <- <-. split; [done|]. intros p. rewrite sort_by_perm, list_elem_of_fmap. cbn. split.
  - intros ([id r] & -> & Hin). apply row_listed in Hin. by exists r.
  - intros (r & Hr & Hp). exists (p_id p, r). split; [done|]. by apply row_listed.
Qed.

Lemma listed_peers ds peers ds' : list_peers ds = (Ok peers, ds') -> listed peers ds'.1.
Proof.
  intros [-> H]%list_peers_inv p k Hp Hk r Hr. apply H in Hp as (r' & Hr' & Hp'). assert (r' = r) as -> by congruence.
  rewrite Hp' in Hk. by cbn in Hk.
Qed.

Lemma ingest_step records ds :
  (forall r, r ∈ records -> r ∈ batch) -> batch_step ds.1 (ingest now presenter records ds).2.1.
Proof.
  intros Hb. unfold ingest, sbind at 1. destruct (list_peers ds) as [[peers|e] ds1] eqn:El.
  2: { destruct ds as [db script], ds1 as [db1 script1]. apply query_inv in El as [El|(? & _ & ->)]; [done|reflexivity]. }
  pose proof (listed_peers _ _ _ El) as Hl. apply list_peers_inv in El as [E1 _]. unfold sbind at 1.
  assert (forall ids, (peer_gossip_records ids ds1).2.1 = ds1.1) as Hg.
  { intros ids. unfold peer_gossip_records. destruct (is_nonempty ids); [|done].
    destruct ds1 as [db1 script1]. match goal with |- context [select ?f] => destruct (select f (db1, script1)) as [r [db2 script2]] eqn:Eq end.
    apply query_inv in Eq as [Eq|(? & _ & ->)]; [|done]. by injection Eq as _ <-. }
  specialize (Hg (map p_id peers)). destruct (peer_gossip_records _ ds1) as [known ds2]. cbn in Hg. unfold sbind.
  match goal with |- context [sfold ?f ?l ?b ds2] => pose proof (ingest_loop_step peers l b ds2) as H end.
  destruct (sfold _ _ _ ds2) as [st ds3]. cbn in *. rewrite <- E1, <- Hg. apply H; [|by rewrite Hg].
  intros r (i & Hi & _)%elem_of_take. apply Hb. by eapply list_elem_of_lookup_2.
Qed.

End BatchFacts.

(** ** Facts: freshness *)

Section FreshFacts.
Context `{SG : Signatures} `{SN : Signing} `{D : Digests} `{DC : Decoders} `{RO : RowOrder} {RL : RowOrderLaws RO} {SL : SigningLaws SG SN D DC}.

(** When a friend's stored record was signed. *)
Definition stored_at (r : PeerRow) : option Z := pr_gossip_record r ≫= signed_at_of_json.

(** The loop's map knows every stored time. *)
Definition fresh (stored : gmap Z Z) (db : Db) : Prop :=
  forall id r t, tb_rows (db_peers db) !! id = Some r -> stored_at r = Some t -> stored !! id = Some t.

(** Stored times only grow. *)
Definition times_grow (db db' : Db) : Prop :=
  forall id r t, tb_rows (db_peers db) !! id = Some r -> stored_at r = Some t ->
    exists r' t', tb_rows (db_peers db') !! id = Some r' /\ stored_at r' = Some t' /\ (t <= t')%Z.

#[global] Instance times_grow_preorder : PreOrder times_grow.
Proof.
  split; [intros db id r t Hr Ht; exists r, t; by split_and!|]. intros a b c H G id r t Hr Ht.
  destruct (H id r t Hr Ht) as (r' & t' & Hr' & Ht' & Hle). destruct (G id r' t' Hr' Ht') as (r'' & t'' & ? & ? & ?).
  exists r'', t''. split_and!; [done|done|lia].
Qed.

(** Every friend's record is where it was. *)
Definition records_same (db db' : Db) : Prop :=
  pr_gossip_record <$> tb_rows (db_peers db') = pr_gossip_record <$> tb_rows (db_peers db).

#[global] Instance records_same_preorder : PreOrder records_same.
Proof. split; [by intros db|]. unfold records_same. intros a b c -> ->. done. Qed.

Lemma records_same_row db db' id r :
  records_same db db' -> tb_rows (db_peers db) !! id = Some r ->
  exists r', tb_rows (db_peers db') !! id = Some r' /\ pr_gossip_record r' = pr_gossip_record r.
Proof.
  intros H Hr. apply (f_equal (fun m => m !! id)) in H. rewrite !lookup_fmap, Hr in H.
  destruct (tb_rows (db_peers db') !! id) as [r'|]; [|done]. injection H as H. by exists r'.
Qed.

Lemma records_same_grow db db' : records_same db db' -> times_grow db db'.
Proof.
  intros H id r t Hr Ht. destruct (records_same_row _ _ _ _ H Hr) as (r' & Hr' & He). exists r', t. unfold stored_at in *.
  rewrite He. split_and!; [done|done|lia].
Qed.

Lemma records_same_fresh stored db db' : records_same db db' -> fresh stored db -> fresh stored db'.
Proof.
  intros H Hf id r' t Hr' Ht. assert (records_same db' db) as H' by done.
  destruct (records_same_row _ _ _ _ H' Hr') as (r & Hr & He). apply (Hf id r); [done|]. unfold stored_at in *. by rewrite He.
Qed.

Lemma update_peer_records id guard set db :
  (forall r, pr_gossip_record (set r) = pr_gossip_record r) -> records_same db (update_peer id guard set db).2.
Proof.
  intros Hset. unfold update_peer. destruct (tb_rows (db_peers db) !! id) as [r|] eqn:E; [|done]. destruct (guard r); [|done].
  unfold records_same. cbn. rewrite fmap_insert, Hset. apply insert_id. by rewrite lookup_fmap, E.
Qed.

Lemma moves_subject_of peers presenter record : moves (tables records_same) (subject_of peers presenter record).
Proof.
  unfold subject_of. destruct (by_pubkey peers !! er_pubkey record); [apply moves_ret; apply _|].
  match goal with |- context [if ?c then _ else _] => destruct c; [|apply moves_ret; apply _] end.
  apply moves_bind; [apply _| |intros ?; apply moves_ret; apply _]. apply moves_changed; [apply _|]. intros db. by apply update_peer_records.
Qed.

Lemma moves_endpoints_records now peer_id endpoints via : moves (tables records_same) (record_endpoints now peer_id endpoints via).
Proof.
  apply moves_fold; [apply _|]. intros _ endpoint _. destruct (parse_enum _); [|apply moves_ret; apply _].
  apply moves_bind; [apply _| |intros ?; apply moves_ret; apply _]. apply moves_query; [apply _|]. intros db. by destruct (known_peer _ _).
Qed.

(** A record that is not stale may take the place of the stored one. *)
Lemma store_record_fresh stored id record raw db :
  fresh stored db -> record_json record = Some raw ->
  match stored !! id with Some t => (er_signed_at record <=? t)%Z | None => false end = false ->
  let db' := (update_peer id (fun _ => true) (put_gossip_record raw) db).2 in
  times_grow db db' /\ fresh (<[id := er_signed_at record]> stored) db'.
Proof.
  intros Hf Hj Hs. assert (signed_at_of_json raw = Some (er_signed_at record)) as Ht by (by eapply json_signed_at, json_roundtrip).
  cbn zeta. unfold update_peer. destruct (tb_rows (db_peers db) !! id) as [r|] eqn:E; cbn.
  - split.
    + intros id' r' t Hr Hst. destruct (decide (id' = id)) as [->|Hne].
      * rewrite E in Hr. injection Hr as ->. exists (put_gossip_record raw r'), (er_signed_at record). cbn.
        rewrite lookup_insert_eq. split; [done|]. split; [done|]. rewrite (Hf id r' t E Hst) in Hs. apply Z.leb_gt in Hs. lia.
      * exists r', t. cbn. rewrite lookup_insert_ne by done. split_and!; [done|done|lia].
    + intros id' r' t Hr Hst. cbn in Hr. apply lookup_insert_Some in Hr as [[<- <-]|[Hne Hr]].
      * rewrite lookup_insert_eq. unfold stored_at in Hst. cbn in Hst. congruence.
      * rewrite lookup_insert_ne by done. by eapply Hf.
  - split; [reflexivity|]. intros id' r' t Hr Hst. destruct (decide (id' = id)) as [->|]; [congruence|].
    rewrite lookup_insert_ne by done. by eapply Hf.
Qed.

Lemma ingest_one_fresh now presenter peers st record ds :
  fresh (in_stored st) ds.1 ->
  let '(st', ds') := ingest_one now presenter peers st record ds in times_grow ds.1 ds'.1 /\ fresh (in_stored st') ds'.1.
Proof.
  intros Hf. unfold ingest_one. destruct (Lighthouse.verify record) as [[]|]; [|by split; [reflexivity|]].
  destruct (_ <? _)%Z; [by split; [reflexivity|]|]. unfold sbind at 1.
  pose proof (moves_subject_of peers presenter record ds) as H1. destruct (subject_of peers presenter record ds) as [subject ds1].
  unfold tables in H1. cbn in H1. pose proof (records_same_fresh _ _ _ H1 Hf) as Hf1.
  destruct subject as [id|]; [|split; [by apply records_same_grow|done]].
  match goal with |- context [if ?c then sret (mkIngest (count_stale _) _) else _] => destruct c eqn:Es end;
    [split; [by apply records_same_grow|done]|]. unfold sbind at 1.
  pose proof (moves_endpoints_records now id (er_endpoints record) (if (id =? presenter)%Z then ViaDirect else ViaGossip) ds1) as H2.
  destruct (record_endpoints _ _ _ _ ds1) as [u ds2]. unfold tables in H2. cbn in H2.
  assert (records_same ds.1 ds2.1) as H by (by transitivity ds1.1). pose proof (records_same_fresh _ _ _ H2 Hf1) as Hf2.
  destruct (record_json record) as [raw|] eqn:Ej; [|split; [by apply records_same_grow|done]].
  unfold sbind. destruct (set_peer_gossip_record id raw ds2) as [kept ds3] eqn:Ek. cbn.
  destruct ds2 as [db2 script2], ds3 as [db3 script3]. apply query_inv in Ek as [Ek|(e & -> & ->)]; [|split; [by apply records_same_grow|done]].
  injection Ek as <- <-. destruct (store_record_fresh (in_stored st) id record raw db2 Hf2 Ej Es) as [Hg Hf3].
  split; [|done]. transitivity db2; [by apply records_same_grow|done].
Qed.

Lemma ingest_loop_fresh now presenter peers records st ds :
  fresh (in_stored st) ds.1 -> times_grow ds.1 (sfold (ingest_one now presenter peers) records st ds).2.1.
Proof.
  revert st ds. induction records as [|record records IH]; intros st ds Hf; cbn; [reflexivity|]. unfold sbind.
  pose proof (ingest_one_fresh now presenter peers st record ds Hf) as H.
  destruct (ingest_one now presenter peers st record ds) as [st1 ds1]. destruct H as [H1 H2]. transitivity ds1.1; [done|]. by apply IH.
Qed.

End FreshFacts.

(** ** Facts: what is handed on *)

Definition db_kept `{U : UrlLib} (s s' : Serve) : Prop := sv_db s' = sv_db s.

#[export] Instance db_kept_preorder `{U : UrlLib} : PreOrder (db_kept (U := U)).
Proof. split; [by intros s|]. unfold db_kept. intros a b c -> ->. done. Qed.

Section PullFacts.
Context `{U : UrlLib} `{SG : Signatures} `{SN : Signing} `{D : Digests} `{DC : Decoders} `{C : VaultCipher} `{KF : KeyFiles} `{ME : MasterEnv} `{RO : RowOrder} {RL : RowOrderLaws RO}.

Lemma moves_vault_db {A : Type} (m : DiskM A) : moves db_kept (on_vault m).
Proof. by apply moves_focus. Qed.

Lemma moves_open_vault_db : moves db_kept open_vault.
Proof.
  unfold open_vault. apply moves_bind; [apply _|apply moves_gets; apply _|]. intros config.
  apply moves_try; [apply _|apply moves_ret; apply _|]. intros master.
  apply moves_bind; [apply _|apply moves_vault_db|]. intros [].
  - apply moves_bind; [apply _|apply moves_vault_db|]. intros ?. apply moves_ret. apply _.
  - apply moves_bind; [apply _|apply moves_gets; apply _|]. intros ?. apply moves_ret. apply _.
Qed.

Lemma moves_cached_db {T : Type} (get : VaultCaches -> option (option T)) put (load : Vault -> DiskM (option T)) :
  moves db_kept (cached_from_vault get put load).
Proof.
  unfold cached_from_vault, try_cached_from_vault. apply moves_bind; [apply _| |intros ?; apply moves_ret; apply _].
  apply moves_bind; [apply _|apply moves_gets; apply _|]. intros []; [apply moves_ret; apply _|].
  apply moves_try; [apply _|apply moves_open_vault_db|].
  intros vault. apply moves_bind; [apply _|apply moves_vault_db|]. intros value.
  apply moves_bind; [apply _| |intros ?; apply moves_ret; apply _]. by apply moves_modify.
Qed.

Lemma moves_self_record now : moves db_kept (self_record now).
Proof.
  unfold self_record. apply moves_bind; [apply _|apply moves_cached_db|]. intros [seed|]; [apply moves_gets; apply _|apply moves_ret; apply _].
Qed.

Lemma active_peers_inv ds peers ds' :
  active_peers ds = (Ok peers, ds') ->
  ds'.1 = ds.1 /\ forall p, p ∈ peers -> exists r, tb_rows (db_peers ds.1) !! p_id p = Some r /\ p = row_to_peer (p_id p) r /\ pr_revoked_at r = None.
Proof.
  destruct ds as [db script], ds' as [db' script']. intros H. apply query_inv in H as [H|(e & ? & _)]; [|done].
  injection H as <- <-. split; [done|]. intros p. rewrite sort_by_perm, list_elem_of_fmap. cbn.
  intros ([id r] & -> & [Hrev Hin]%list_elem_of_filter). apply row_listed in Hin. by exists r.
Qed.

Lemma peer_gossip_records_inv ids ds records ds' id raw :
  peer_gossip_records ids ds = (Ok records, ds') -> records !! id = Some raw ->
  exists r, tb_rows (db_peers ds.1) !! id = Some r /\ pr_gossip_record r = Some raw.
Proof.
  unfold peer_gossip_records. destruct (is_nonempty ids); [|by intros [= <- _]]. destruct ds as [db script], ds' as [db' script'].
  intros H. apply query_inv in H as [H|(e & ? & _)]; [|done]. injection H as <- _. cbn.
  intros (r & Hraw & Hr)%lookup_omap_Some. apply map_lookup_filter_Some in Hr as [Hr _]. eauto.
Qed.

End PullFacts.

(** ** Properties *)

(** C13: an identity, once pinned, is pinned for good.  Whatever a friend presents,
    relays or forges, and whatever fails on the way, a batch of records leaves all of
    every friend's row as it was but two fields: a key is bound only to the friend
    presenting the batch, only where there was none, and only to the key that signed
    one of its records; and a stored record is replaced only by one of the batch
    that verifies, is not from the future, and is signed by that friend's own key.
    No other table but the observed addresses changes. *)
Theorem ingest_pins_identities `{SG : Signatures} `{SN : Signing} `{D : Digests} `{DC : Decoders} `{RO : RowOrder} now presenter records db script :
  RowOrderLaws RO ->
  batch_step now presenter records db (ingest now presenter records (db, script)).2.1.
Proof. intros RL. by apply (ingest_step now presenter records records (db, script)). Qed.

(** C27: an older record never takes a newer one's place.  When the friends and their
    stored records could be read, no friend's stored record is older after a batch
    than before it, whatever order the batch holds its records in. *)
Theorem ingest_never_rewinds `{SG : Signatures} `{SN : Signing} `{D : Digests} `{DC : Decoders} `{RO : RowOrder} now presenter records db script :
  RowOrderLaws RO -> SigningLaws SG SN D DC -> Forall (eq true) (take 2 (sc_io script)) ->
  times_grow db (ingest now presenter records (db, script)).2.1.
Proof.
  intros RL SL Hio. unfold ingest, sbind at 1. destruct (list_peers (db, script)) as [listed [db1 script1]] eqn:El.
  assert (exists io, sc_io script1 = io /\ Forall (eq true) (take 1 io) /\ db1 = db) as (io & Hio1 & Hhead & ->).
  { unfold list_peers, select, query, draw in El. destruct script as [[|[] io] en er]; cbn in El; try (injection El as _ <- <-; by exists []).
    - injection El as _ <- <-. exists io. split; [done|]. split; [|done]. cbn in Hio. by inversion Hio.
    - inversion Hio. done. }
  destruct listed as [peers|]; [|reflexivity].
  apply list_peers_inv in El as [_ Hpeers]. cbn [fst] in Hpeers. unfold sbind at 1.
  destruct (peer_gossip_records (map p_id peers) (db, script1)) as [known [db2 script2]] eqn:Ek.
  assert (db2 = db /\ exists records, known = Ok records /\ forall id r raw, tb_rows (db_peers db) !! id = Some r -> pr_gossip_record r = Some raw -> records !! id = Some raw)
    as [-> (found & -> & Hfound)].
  { assert (forall id r, tb_rows (db_peers db) !! id = Some r -> id ∈ map p_id peers) as Hall.
    { intros id r Hr. apply list_elem_of_fmap. exists (row_to_peer id r). split; [done|]. apply Hpeers. by exists r. }
    unfold peer_gossip_records in Ek. destruct (map p_id peers) as [|i ids] eqn:Eids; cbn [is_nonempty] in Ek.
    - injection Ek as <- <- _. split; [done|]. eexists. split; [done|]. intros id r raw Hr _. apply Hall in Hr. by apply elem_of_nil in Hr.
    - unfold select, query, draw in Ek. destruct script1 as [io1 en er]. cbn in Hio1. subst io1. destruct io as [|[] io]; cbn in Ek.
      3: { inversion Hhead. done. }
      all: injection Ek as <- <- _; split; [done|]; eexists; (split; [done|]); intros id r raw Hr Hraw; apply lookup_omap_Some;
        exists r; (split; [done|]); apply map_lookup_filter_Some; split; [done|by eapply Hall]. }
  unfold sbind. match goal with |- context [sfold ?f ?l ?b ?ds] => pose proof (ingest_loop_fresh now presenter peers l b ds) as H end.
  destruct (sfold _ _ _ _) as [st ds3]. cbn in H |- *. apply H. intros id r t Hr Ht. unfold stored_at in Ht.
  destruct (pr_gossip_record r) as [raw|] eqn:Eraw; [|done]. apply lookup_omap_Some. exists raw. split; [done|by eapply Hfound].
Qed.

(** A pull tells a caller only of friends they already know.  The records it is
    answered with are this instance's own and the stored records of friends whose
    access stands and whose key the request itself names. *)
Theorem pull_discloses `{U : UrlLib} `{SG : Signatures} `{SN : Signing} `{D : Digests} `{DC : Decoders} `{C : VaultCipher} `{KF : KeyFiles} `{ME : MasterEnv} `{RO : RowOrder}
    now peers s records s' :
  RowOrderLaws RO -> pull now peers s = (Ok records, s') ->
  exists own rest, records = own ++ rest /\
    (own = [] \/ exists seed r, own = [r] /\ er_pubkey r = pubkey_hex seed /\ er_signed_at r = now) /\
    forall r, r ∈ rest -> exists id row raw k, tb_rows (db_peers (sv_db s)) !! id = Some row /\ pr_revoked_at row = None /\
      pr_pubkey row = Some k /\ k ∈ wanted_keys peers /\ pr_gossip_record row = Some raw /\ record_of_json raw = Some r.
Proof.
  intros RL H. unfold pull in H. apply sbind_inv in H as (opened & s1 & Ho & H). pose proof (moves_store s) as M1. rewrite Ho in M1. cbn in M1.
  destruct opened as [[]|]; [|done]. apply sbind_inv in H as (own & s2 & Hown & H).
  pose proof (moves_self_record now s1) as M2. rewrite Hown in M2. unfold db_kept in M2. cbn in M2.
  set (mine := match own with Some own => [own] | None => [] end) in *.
  assert (mine = [] \/ exists seed r, mine = [r] /\ er_pubkey r = pubkey_hex seed /\ er_signed_at r = now) as Hmine.
  { destruct own as [r|]; [right|by left]. unfold self_record in Hown. apply sbind_inv in Hown as ([seed|] & s1' & _ & Hs); [|done].
    injection Hs as Hs _. exists seed, r. split; [done|]. unfold sign_record in Hs.
    destruct (signable_bytes _ _ _); cbn in Hs; [|done]. injection Hs as <-. done. }
  destruct (is_nonempty (wanted_keys peers)); [|injection H as <- _; exists mine, []; rewrite app_nil_r; split; [done|]; split; [done|]; by intros r ?%elem_of_nil].
  apply sbind_inv in H as (active & s3 & Ha & H). destruct active as [active|];
    [|injection H as <- _; exists mine, []; rewrite app_nil_r; split; [done|]; split; [done|]; by intros r ?%elem_of_nil].
  apply sbind_inv in H as (found & s4 & Hf & [= <- _]). exists mine. eexists. split; [done|]. split; [done|].
  destruct found as [found|]; [|by intros r ?%elem_of_nil]. intros r (id & Hid & Hr)%list_elem_of_omap.
  rewrite on_store_run in Ha. rewrite on_store_run in Hf. destruct (active_peers _) as [ra da] eqn:Ea. injection Ha as Ha Hs3. cbn in Ha. subst ra.
  apply active_peers_inv in Ea as [Eda Hact]. cbn [fst] in Eda, Hact.
  destruct (peer_gossip_records _ _) as [rg dg] eqn:Eg. injection Hf as Hf _. cbn in Hf. subst rg.
  destruct (found !! id) as [raw|] eqn:Eraw; [|done]. cbn in Hr.
  pose proof (peer_gossip_records_inv _ _ _ _ _ _ Eg Eraw) as (row & Hrow & Hraw). cbn [fst] in Hrow.
  apply list_elem_of_fmap in Hid as (p & -> & Hp). apply list_elem_of_filter in Hp as [Hk Hp]. apply Hact in Hp as (row' & Hrow' & Hpeq & Hrev).
  assert (sv_db s3 = sv_db s2) as E3 by (rewrite <- Hs3; cbn; exact Eda). rewrite E3 in Hrow. assert (row' = row) as -> by congruence.
  destruct M1 as [_ [ret Hret] _ _ _ _ _ _]. rewrite M2, Hret in Hrow. exists (p_id p), row, raw.
  rewrite Hpeq in Hk. cbn in Hk. destruct (pr_pubkey row) as [k|] eqn:Epk; [|done]. apply bool_decide_eq_true in Hk.
  exists k. split; [by destruct (sv_db s)|]. by split_and!.
Qed.

(** The record this instance hands out is one every friend accepts: it verifies
    under the key it names, and carries the addresses in force and the time. *)
Theorem self_record_verifies `{U : UrlLib} `{SG : Signatures} `{SN : Signing} `{D : Digests} `{DC : Decoders} `{C : VaultCipher} `{KF : KeyFiles} `{ME : MasterEnv}
    now s r s' :
  SigningLaws SG SN D DC -> self_record now s = (Some r, s') ->
  Lighthouse.verify r = Ok tt /\ er_signed_at r = now /\ er_endpoints r = own_endpoints now s'.
Proof.
  intros SL H. unfold self_record in H. apply sbind_inv in H as ([seed|] & s1 & _ & H); [|done].
  injection H as H <-. unfold res_ok in H. destruct (sign_record _ _ _) as [r'|] eqn:E; [|done]. injection H as ->.
  apply sign_record_verify in E as (Hv & _ & He & Ha). done.
Qed.

(** Each record of a batch is counted once. *)
Definition summary_total (s : IngestSummary) : nat := is_accepted s + is_invalid s + is_unknown s + is_stale s.

Lemma ingest_one_counts `{SG : Signatures} `{SN : Signing} `{D : Digests} `{DC : Decoders} now presenter peers st record ds :
  summary_total (in_summary (ingest_one now presenter peers st record ds).1) = 1 + summary_total (in_summary st).
Proof.
  unfold ingest_one. destruct (Lighthouse.verify record); [|cbn; unfold summary_total; cbn; lia].
  destruct (_ <? _)%Z; [cbn; unfold summary_total; cbn; lia|]. unfold sbind.
  destruct (subject_of peers presenter record ds) as [[id|] ds1]; [|cbn; unfold summary_total; cbn; lia].
  match goal with |- context [if ?c then sret (mkIngest (count_stale _) _) else _] => destruct c end; [cbn; unfold summary_total; cbn; lia|].
  destruct (record_endpoints _ _ _ _ ds1) as [u ds2]. destruct (record_json record); [|cbn; unfold summary_total; cbn; lia].
  destruct (set_peer_gossip_record _ _ ds2) as [kept ds3]. cbn. unfold summary_total. cbn. lia.
Qed.

(** The summary adds up.  When the friends can be listed, accepted, invalid,
    unknown and stale records together are the records of the batch, up to the
    sixty-four that are looked at. *)
Theorem ingest_adds_up `{SG : Signatures} `{SN : Signing} `{D : Digests} `{DC : Decoders} `{RO : RowOrder} now presenter records ds :
  (forall e, (list_peers ds).1 <> Err e) ->
  summary_total (ingest now presenter records ds).1 = Nat.min GOSSIP_MAX_RECORDS (length records).
Proof.
  intros Hl. unfold ingest, sbind at 1. destruct (list_peers ds) as [[peers|e] ds1]; [|by destruct (Hl e)].
  unfold sbind at 1. destruct (peer_gossip_records _ ds1) as [known ds2]. unfold sbind.
  match goal with |- context [sfold ?f ?l ?start ds2] =>
    pose proof (sfold_measure f (fun st => summary_total (in_summary st)) (fun _ => 1) l
      (fun st x s _ => ingest_one_counts now presenter peers st x s) start ds2) as H end.
  destruct (sfold _ _ _ ds2) as [st ds3]. cbn [fst sret] in H |- *. rewrite H. change (summary_total (in_summary _)) with 0.
  rewrite Nat.add_0_r, <- length_take. generalize (take GOSSIP_MAX_RECORDS records). clear. induction l as [|x l IH]; [done|]. cbn. lia.
Qed.

(** ** Witnesses *)

#[export] Instance RecordEndpoint_eq_dec : EqDecision RecordEndpoint.
Proof. solve_decision. Defined.
#[export] Instance EndpointRecord_eq_dec : EqDecision EndpointRecord.
Proof. solve_decision. Defined.

(** Keys are their seeds and signatures begin with the key; of all records two can
    be printed. *)
Definition padded (n : nat) (s : bytes) : bytes := take n (s ++ replicate n x00).

Definition sample_key : bytes := @hex_encode prefix_digests (padded 32 (bs "seed")).
Definition sample_record (signed_at : Z) : EndpointRecord :=
  mkRecord sample_key [] signed_at (@hex_encode prefix_digests (padded 64 (padded 32 (bs "seed")))).

Definition toy_signing : Signing := {|
  seed_pubkey := padded 32;
  seed_sign := fun seed _ => padded 64 (padded 32 seed);
  record_json := fun r =>
    if decide (r = sample_record 100) then Some (bs "old") else if decide (r = sample_record 200) then Some (bs "new") else None;
  record_of_json := fun raw =>
    if decide (raw = bs "old") then Some (sample_record 100) else if decide (raw = bs "new") then Some (sample_record 200) else None;
  signed_at_of_json := fun raw =>
    if decide (raw = bs "old") then Some 100%Z else if decide (raw = bs "new") then Some 200%Z else None
|}.

Lemma padded_length n s : length (padded n s) = n.
Proof. unfold padded. rewrite length_take, length_app, length_replicate. lia. Qed.

Lemma hex_pairs_roundtrip s : hex_pairs (@hex_encode prefix_digests s) = Some s.
Proof.
  induction s as [|b s IH]; [done|]. cbn in IH |- *. rewrite IH. by destruct b.
Qed.

Lemma toy_signing_laws : SigningLaws toy_signatures toy_signing prefix_digests hex_decoders.
Proof.
  constructor.
  - intros seed text. exists (padded 32 seed). split; [done|]. cbn. apply bool_decide_eq_true. unfold padded at 1.
    rewrite take_take, Nat.min_l by lia. rewrite <- (padded_length 32 seed) at 1. by rewrite take_app_length.
  - intros seed. apply padded_length.
  - intros seed text. apply padded_length.
  - intros r raw. cbn. repeat case_decide; intros [= <-]; by subst.
  - intros raw r. cbn. repeat case_decide; intros [= <-]; by subst.
  - apply hex_pairs_roundtrip.
Qed.

(** A friend who is not bound yet presents their first record. *)
Lemma ingest_pins_identities_witness :
  let run := @ingest toy_signatures toy_signing hex_decoders key_order 150 1 [sample_record 100] (serve_db, mkScript [] [] []) in
  exists r', tb_rows (db_peers run.2.1) !! 1%Z = Some r' /\ pr_pubkey r' = Some sample_key /\
    @row_step toy_signatures toy_signing hex_decoders 150 1 [sample_record 100] 1 friend_row r'.
Proof.
  intros run. pose proof (@ingest_pins_identities toy_signatures toy_signing prefix_digests hex_decoders key_order 150 1 [sample_record 100] serve_db
    (mkScript [] [] []) key_order_laws) as [_ H].
  exists (put_gossip_record (bs "old") (put_pubkey sample_key friend_row)). specialize (H 1%Z).
  assert (tb_rows (db_peers run.2.1) !! 1%Z = Some (put_gossip_record (bs "old") (put_pubkey sample_key friend_row))) as E by (vm_compute; reflexivity).
  split; [exact E|]. split; [reflexivity|]. unfold run in E. rewrite E in H. inversion H; subst. assumption.
Defined.

(** The friend's newer record is on file. *)
Definition bound_db : Db :=
  with_peers (mkTable {[ 1%Z := put_gossip_record (bs "new") (put_pubkey sample_key friend_row) ]} 1) serve_db.

Lemma ingest_never_rewinds_witness :
  let run := @ingest toy_signatures toy_signing hex_decoders key_order 150 1 [sample_record 100] (bound_db, mkScript [true; true] [] []) in
  exists r' t', tb_rows (db_peers run.2.1) !! 1%Z = Some r' /\ @stored_at toy_signing r' = Some t' /\ (200 <= t')%Z.
Proof.
  apply (@ingest_never_rewinds toy_signatures toy_signing prefix_digests hex_decoders key_order 150 1 [sample_record 100] bound_db
    (mkScript [true; true] [] []) key_order_laws toy_signing_laws) with (r := put_gossip_record (bs "new") (put_pubkey sample_key friend_row)).
  - repeat constructor.
  - reflexivity.
  - reflexivity.
Defined.

Lemma pull_discloses_witness :
  let run := @pull text_urls toy_signatures toy_signing prefix_digests hex_decoders toy_cipher no_key_files sample_env key_order
               300 (bs " ," ++ sample_key) (sample_serve (None, None) bound_db ∅) in
  exists records, run.1 = Ok records /\ sample_record 200 ∈ records /\
    exists own rest, records = own ++ rest /\ length own <= 1.
Proof.
  intros run. destruct run as [r s'] eqn:E. assert (run.1 = r) as Hr by (by rewrite E).
  assert (exists records, r = Ok records /\ sample_record 200 ∈ records) as (records & -> & Hin).
  { rewrite <- Hr. vm_compute. eexists. split; [reflexivity|]. apply list_elem_of_further, list_elem_of_here. }
  destruct (@pull_discloses text_urls toy_signatures toy_signing prefix_digests hex_decoders toy_cipher no_key_files sample_env key_order
    300 (bs " ," ++ sample_key) _ records s' key_order_laws E) as (own & rest & Hrec & Hown & _).
  exists records. split; [reflexivity|]. split; [exact Hin|]. exists own, rest. split; [exact Hrec|].
  destruct Hown as [->|(seed & r & -> & _)]; cbn; lia.
Defined.

Lemma self_record_verifies_witness :
  let run := @self_record text_urls toy_signatures toy_signing prefix_digests hex_decoders toy_cipher no_key_files sample_env 300
               (sample_serve (None, None) bound_db ∅) in
  exists r, run.1 = Some r /\ @Lighthouse.verify toy_signatures hex_decoders r = Ok tt /\ length (er_endpoints r) = 2.
Proof.
  intros run. destruct run as [[r|] s'] eqn:E.
  2: { assert (run.1 = None) as H by (by rewrite E). vm_compute in H. discriminate H. }
  destruct (@self_record_verifies text_urls toy_signatures toy_signing prefix_digests hex_decoders toy_cipher no_key_files sample_env 300
    (sample_serve (None, None) bound_db ∅) r s' toy_signing_laws E) as (Hv & _ & He).
  exists r. split; [reflexivity|]. split; [exact Hv|]. assert (run.1 = Some r) as H by (by rewrite E). vm_compute in H.
  injection H as <-. reflexivity.
Defined.

Lemma ingest_adds_up_witness :
  summary_total (@ingest toy_signatures toy_signing hex_decoders key_order 150 1
    [sample_record 100; sample_record 100; mkRecord [] [] 0 []] (serve_db, mkScript [] [] [])).1 = 3.
Proof. apply (@ingest_adds_up toy_signatures toy_signing prefix_digests hex_decoders key_order). by intros e. Defined.

(** ** Departures from the documentation *)

(** When the stored records cannot be read, the check that an older record never
    replaces a newer one passes everything: the record signed at 100 takes the place
    of the one signed at 200. *)
Example failed_read_rewinds :
  let run := @ingest toy_signatures toy_signing hex_decoders key_order 250 1 [sample_record 100] (bound_db, mkScript [true; false] [] []) in
  (pr_gossip_record <$> (tb_rows (db_peers run.2.1) !! 1%Z)) = Some (Some (bs "old")) /\ is_accepted run.1 = 1.
Proof. vm_compute. by split. Qed.
