(* ===== verification/Exchange.v ===== *)
(** * Exchanging with friends (catalog.rs, the outbound half of gossip.rs)

    What this instance tells a friend of its library as data, what it makes of the
    catalog a friend answers with, and one round of pushing its own record to every
    friend it can reach, taking theirs and refreshing their catalog.  The friends'
    servers are a parameter. *)

From S2P Require Import Prelude RustStd Text Bencode Metainfo Net Endpoint TrackerUrl Announce Model Paths Factory Title Lighthouse FileTree Totp Effects Accounts Database Items Peers History Sightings Vault Serve TrackerRoutes Torznab Gossip.

(** ** Catalogs *)

Record CatalogItem : Type := mkCatalogItem {
  ci_info_hash : bytes;
  ci_spec : MediaSpec;
  ci_ids : ExternalIds;
  ci_size : N;
  ci_private : bool
}.

(** A catalog as it travels; an entry this version cannot decode is [None]. *)
Record Catalog : Type := mkCatalog { ct_token : option bytes; ct_entries : list (option CatalogItem) }.

Definition catalog_default : Catalog := mkCatalog None [].

Definition MAX_ENTRIES : nat := Z.to_nat 50000.

(** What friends' servers answer: to a pushed record, to a pull naming keys, and to
    a request for the catalog; each under the address and the key it is asked with.
    [Err] is a request that got no answer, and a body may not parse. *)
Class FriendServers : Type := {
  push_answer : bytes -> bytes -> EndpointRecord -> result unit bytes;
  pull_answer : bytes -> bytes -> bytes -> result (N * result (list EndpointRecord) bytes) bytes;
  catalog_answer : bytes -> bytes -> result (N * result Catalog bytes) bytes
}.

(** Why an exchange was given up: a reason in words, a status that is no success, or
    an error of the store. *)
Inductive ExchangeError : Type :=
| Reason (text : bytes)
| Answered (what : bytes) (status : N)
| StoreReason (what : bytes) (e : StoreError).

Definition is_success (status : N) : bool := (200 <=? status)%N && (status <? 300)%N.

(** [hex::decode(..).is_ok()] of forty characters. *)
Definition hash_shaped `{DC : Decoders} (hash : bytes) : bool := (length hash =? 40) && bool_decide (is_Some (hex_decode hash)).

Section Entries.
Context `{FT : FeedText} `{DC : Decoders}.

Definition catalog_link (base : bytes) (token : option bytes) (info_hash : bytes) : bytes :=
  base ++ torrent_download_path info_hash ++ match token with Some token => bs "?token=" ++ encode_component token | None => [] end.

Definition entries_from (base : bytes) (catalog : Catalog) : list CatalogEntry :=
  map (fun item =>
    let info_hash := str_to_ascii_lowercase (ci_info_hash item) in
    mkEntry info_hash (ci_spec item) (ci_ids item) (ci_size item) (ci_private item) (catalog_link base (ct_token catalog) info_hash))
  (filter (fun item => hash_shaped (ci_info_hash item) = true) (omap id (take MAX_ENTRIES (ct_entries catalog)))).

End Entries.

Section Catalogs.
Context `{U : UrlLib} `{D : Digests} `{DC : Decoders} `{C : VaultCipher} `{KF : KeyFiles} `{ME : MasterEnv} `{RO : RowOrder}.
Context `{FT : FeedText} `{UD : UnicodeData} `{FS : FriendServers}.

Definition catalog_item (item : SharedItem) : option CatalogItem :=
  (fun hash => mkCatalogItem (str_to_ascii_lowercase hash) (it_spec item) (it_ids item) (it_size item) (it_private item)) <$> it_info_hash item.

(** [GET /api/catalog], once the caller is known. *)
Definition catalog (caller : Caller) : ServeM (result Catalog (N * bytes)) :=
  try! matched := collect (search_all (bs "search")) (ca_scope caller) (ca_limits caller) (ca_key_hash caller) in
  sret (Ok (mkCatalog (m_download_token matched) (map Some (omap catalog_item (m_items matched))))).

(** [catalog::pull] from [base], with its trailing slashes gone. *)
Definition pull_catalog (peer_id : Z) (base key : bytes) : DbM (result nat ExchangeError) :=
  let base := trim_end "/"%byte base in
  match catalog_answer (base ++ bs "/api/catalog") key with
  | Err e => sret (Err (Reason (bs "catalog: " ++ e)))
  | Ok (status, body) =>
      let taken :=
        if (status =? 404)%N then Ok catalog_default
        else if is_success status then rmap_err (fun e => Reason (bs "catalog body: " ++ e)) body
        else Err (Answered (bs "catalog answered ") status) in
      match taken with
      | Err reason => sret (Err reason)
      | Ok catalog =>
          let entries := entries_from base catalog in
          let! stored := replace_peer_catalog peer_id entries in
          sret (match stored with Ok _ => Ok (length entries) | Err e => Err (StoreReason (bs "storing the catalog") e) end)
      end
  end.

End Catalogs.

(** ** One round *)

Section Rounds.
Context `{U : UrlLib} `{SG : Signatures} `{SN : Signing} `{D : Digests} `{DC : Decoders} `{C : VaultCipher} `{KF : KeyFiles} `{ME : MasterEnv} `{RO : RowOrder}.
Context `{FT : FeedText} `{FS : FriendServers}.

Definition exchange_with (now peer_id : Z) (base key : bytes) (own : option EndpointRecord) (known : list bytes) : DbM (result unit ExchangeError) :=
  let base := trim_end "/"%byte base in
  let endpoint := base ++ bs "/api/gossip/endpoints" in
  let pushed := match own with
                | Some own => rmap_err (fun e => Reason (bs "push: " ++ e)) (push_answer endpoint key own)
                | None => Ok tt
                end in
  try! pushed := sret pushed in
  try! response := sret (rmap_err (fun e => Reason (bs "pull: " ++ e)) (pull_answer endpoint key (join (bs ",") known))) in
  if negb (is_success response.1) then sret (Err (Answered (bs "pull answered ") response.1))
  else
    try! records := sret (rmap_err (fun e => Reason (bs "pull body: " ++ e)) response.2) in
    let! summary := ingest now peer_id records in
    let! pulled := pull_catalog peer_id base key in
    sret (Ok tt).

(** The friends of a round: not revoked, with an address and a key to use there. *)
Definition exchange_target (vault : Vault) (peer : Peer) : option (Z * bytes * bytes) :=
  if is_revoked peer then None
  else match p_gossip_url peer, vault_get vault (peer_gossip_key (p_id peer)) with
       | Some url, Ok (Some key) => Some (p_id peer, url, key)
       | _, _ => None
       end.

Definition run_exchange (now : Z) : ServeM (result unit ExchangeError) :=
  let! opened := store in
  try! opened := sret (rmap_err Reason opened) in
  let! listed := on_store list_peers in
  match listed with
  | Err e => sret (Err (StoreReason [] e))
  | Ok peers =>
      if existsb (fun p => negb (is_revoked p) && bool_decide (is_Some (p_gossip_url p))) peers then
        let known := omap p_pubkey peers in
        let! own := self_record now in
        let! vault := open_vault in
        try! vault := sret (rmap_err Reason vault) in
        let! exchanged := on_store (sfold (fun _ target =>
            let '(peer_id, url, key) := target in
            let! done := exchange_with now peer_id url key own known in sret tt)
          (omap (exchange_target vault) peers) tt) in
        sret (Ok tt)
      else sret (Ok tt)
  end.

End Rounds.

(** ** Facts: catalogs *)

Section CatalogFacts.
Context `{U : UrlLib} `{D : Digests} `{DC : Decoders} `{C : VaultCipher} `{KF : KeyFiles} `{ME : MasterEnv} `{RO : RowOrder} {RL : RowOrderLaws RO}.
Context `{FT : FeedText} `{UD : UnicodeData} `{FS : FriendServers}.

(** A query that names nothing selects everything. *)
Lemma search_all_selects t item : selects (search_all t) item = true.
Proof. unfold selects, matches_with, in_category_groups. cbn. by destruct (it_spec item). Qed.

Lemma filter_everything {A : Type} (f : A -> bool) (l : list A) : (forall x, f x = true) -> filter (fun x => f x = true) l = l.
Proof. intros H. induction l as [|x l IH]; [done|]. rewrite filter_cons, decide_True by done. by rewrite IH. Qed.

(** What a friend makes of one item of our feed. *)
Definition mirrored (base : bytes) (token : option bytes) (item : SharedItem) : option CatalogEntry :=
  hash ← it_info_hash item;
  let h := str_to_ascii_lowercase hash in
  if hash_shaped h
  then Some (mkEntry h (it_spec item) (it_ids item) (it_size item) (it_private item) (catalog_link base token h))
  else None.

Lemma entries_mirror base token items :
  (forall item, item ∈ items -> is_Some (it_info_hash item)) ->
  entries_from base (mkCatalog token (map Some (omap catalog_item items))) = omap (mirrored base token) (take MAX_ENTRIES items).
Proof.
  intros H. unfold entries_from. cbn [ct_entries ct_token]. generalize MAX_ENTRIES. intros n. revert n.
  induction items as [|item items IH]; intros [|n]; [done..|]. cbn [omap list_omap take map].
  destruct (H item (list_elem_of_here _ _)) as [hash Hh].
  assert (forall item, item ∈ items -> is_Some (it_info_hash item)) as H' by (intros; by apply H, list_elem_of_further).
  specialize (IH H' n). unfold mirrored at 1, catalog_item at 1. rewrite Hh. cbn [mbind option_bind fmap option_fmap option_map map take].
  cbn [omap list_omap id]. rewrite filter_cons. cbn [ci_info_hash]. destruct (hash_shaped (str_to_ascii_lowercase hash)) eqn:E; cbn [mbind option_bind].
  - rewrite decide_True by done. cbn [map]. unfold ci_info_hash at 1 2, ci_spec at 1, ci_ids at 1, ci_size at 1, ci_private at 1.
    rewrite lowercase_idem. f_equal. exact IH.
  - rewrite decide_False by done. exact IH.
Qed.

End CatalogFacts.

(** ** Facts: rounds *)

Lemma trim_end_idem c s : trim_end c (trim_end c s) = trim_end c s.
Proof.
  induction s as [|b s IH]; [done|]. cbn. destruct (trim_end c s) as [|x t] eqn:E.
  - case_decide as Hb; [done|]. cbn. by rewrite decide_False.
  - cbn [trim_end]. cbn [trim_end] in IH. by rewrite IH.
Qed.

(** Every link of a catalog is on the address it was pulled from. *)
Lemma entries_from_links `{FT : FeedText} `{DC : Decoders} base catalog entry :
  entry ∈ entries_from base catalog -> exists rest, ce_download_url entry = base ++ bs "/torrents/" ++ rest.
Proof.
  unfold entries_from. intros (item & -> & _)%list_elem_of_fmap. unfold ce_download_url, catalog_link, torrent_download_path.
  rewrite <- !app_assoc. eauto.
Qed.

(** All a round may do to the tables, when it exchanges with the friends and
    addresses of [targets]: no friend's row changes but in their last record and in
    a key they did not have, and a catalog row is either an old one or links to
    the address of the friend it is filed under. *)
Record exchanged (targets : Z -> bytes -> Prop) (db db' : Db) : Prop := {
  xc_tables : exists peers endpoints catalog retention,
    db' = with_retention retention (with_catalog catalog (with_endpoints endpoints (with_peers peers db)));
  xc_rows : forall id, option_Forall2 (fun r r' => row_rest r' = row_rest r /\ (is_Some (pr_pubkey r) -> pr_pubkey r' = pr_pubkey r))
    (tb_rows (db_peers db) !! id) (tb_rows (db_peers db') !! id);
  xc_catalog : forall id h c, db_catalog db' !! (id, h) = Some c ->
    db_catalog db !! (id, h) = Some c \/ exists base rest, targets id base /\ cat_download_url c = base ++ bs "/torrents/" ++ rest
}.

#[export] Instance exchanged_preorder targets : PreOrder (exchanged targets).
Proof.
  split.
  - intros db. constructor; [|intros id; destruct (tb_rows _ !! id); by constructor|auto].
    exists (db_peers db), (db_endpoints db), (db_catalog db), (db_retention db). by destruct db.
  - intros a b c [(p & e & k & r & Hb) H1 K1] [(p' & e' & k' & r' & Hc) H2 K2]. constructor.
    + exists p', e', k', r'. subst. by destruct a.
    + intros id. specialize (H1 id). specialize (H2 id). destruct H1 as [x y [Hr Hk]|]; inversion H2 as [? z [Gr Gk]|]; subst; constructor.
      split; [congruence|]. intros Hs. rewrite <- (Hk Hs). apply Gk. by rewrite (Hk Hs).
    + intros id h x Hx. apply K2 in Hx as [Hx|?]; [|by right]. by apply K1.
Qed.

Lemma exchanged_same targets db db' :
  (exists r, db' = with_retention r db) -> exchanged targets db db'.
Proof.
  intros [r ->]. constructor; [|intros id; cbn; destruct (tb_rows _ !! id); by constructor|auto].
  exists (db_peers db), (db_endpoints db), (db_catalog db), r. by destruct db.
Qed.

Lemma batch_exchanged `{SG : Signatures} `{SN : Signing} `{DC : Decoders} targets now presenter batch db db' :
  batch_step now presenter batch db db' -> exchanged targets db db'.
Proof.
  intros [(p & e & ->) H]. constructor.
  - exists p, e, (db_catalog db), (db_retention db). by destruct db.
  - intros id. destruct (H id) as [r r' [Hr Hk _]|]; constructor. split; [done|]. intros [k Hs].
    destruct Hk as [?|(Hn & _)]; congruence.
  - auto.
Qed.

(** The rows of one friend are replaced by what they answered with. *)
Lemma foldl_catalog_lookup (peer_id : Z) (entries : list CatalogEntry) (kept : gmap (Z * bytes) CatalogRow) id h c :
  foldl (fun m entry => <[(peer_id, str_to_ascii_lowercase (ce_info_hash entry)) := catalog_row entry]> m) kept entries !! (id, h) = Some c ->
  kept !! (id, h) = Some c \/ id = peer_id /\ exists entry, entry ∈ entries /\ c = catalog_row entry.
Proof.
  revert kept. induction entries as [|entry entries IH]; intros kept; cbn [foldl]; [auto|]. intros [H|(-> & x & Hx & ->)]%IH.
  - destruct (decide ((peer_id, str_to_ascii_lowercase (ce_info_hash entry)) = (id, h))) as [E|E].
    + rewrite E, lookup_insert_eq in H. injection H as <-. injection E as -> _. right. split; [done|].
      exists entry. split; [apply list_elem_of_here|done].
    + rewrite lookup_insert_ne in H by done. auto.
  - right. split; [done|]. exists x. split; [by apply list_elem_of_further|done].
Qed.

Section RoundFacts.
Context `{U : UrlLib} `{SG : Signatures} `{SN : Signing} `{D : Digests} `{DC : Decoders} `{C : VaultCipher} `{KF : KeyFiles} `{ME : MasterEnv} `{RO : RowOrder} {RL : RowOrderLaws RO}.
Context `{FT : FeedText} `{FS : FriendServers}.
Context (targets : Z -> bytes -> Prop).

Lemma replace_catalog_exchanged peer_id base catalog :
  targets peer_id base -> moves (tables (exchanged targets)) (replace_peer_catalog peer_id (entries_from base catalog)).
Proof.
  intros Ht. unfold replace_peer_catalog. apply (moves_query (exchanged targets)). intros db. destruct (_ || _); [|reflexivity]. cbn [snd].
  constructor.
  - match goal with |- context [with_catalog ?x db] => exists (db_peers db), (db_endpoints db), x, (db_retention db); generalize x end.
    by destruct db.
  - intros id. cbn. destruct (tb_rows _ !! id); by constructor.
  - intros id h c. cbn. intros [[H _]%map_lookup_filter_Some|(-> & entry & Hin & ->)]%foldl_catalog_lookup; [by left|].
    right. apply entries_from_links in Hin as [rest Hr]. by exists base, rest.
Qed.

Lemma pull_catalog_exchanged peer_id base key :
  targets peer_id (trim_end "/"%byte base) -> moves (tables (exchanged targets)) (pull_catalog peer_id base key).
Proof.
  intros Ht. unfold pull_catalog. destruct (catalog_answer _ _) as [[status body]|e]; [|apply moves_ret; apply _].
  match goal with |- moves _ (match ?x with _ => _ end) => destruct x as [catalog|] end; [|apply moves_ret; apply _].
  apply moves_bind; [apply _|by apply replace_catalog_exchanged|]. intros ?. apply moves_ret. apply _.
Qed.

Lemma exchange_with_exchanged now peer_id base key own known :
  targets peer_id (trim_end "/"%byte base) -> moves (tables (exchanged targets)) (exchange_with now peer_id base key own known).
Proof.
  intros Ht. unfold exchange_with. apply moves_try_ret; [apply _|]. intros ? _. apply moves_try_ret; [apply _|]. intros [status body] _.
  cbn [fst snd]. destruct (negb _); [apply moves_ret; apply _|]. apply moves_try_ret; [apply _|]. intros records _.
  apply moves_bind; [apply _| |].
  - intros ds. by eapply batch_exchanged, (ingest_step now peer_id records).
  - intros ?. apply moves_bind; [apply _|apply pull_catalog_exchanged; by rewrite trim_end_idem|]. intros ?. apply moves_ret. apply _.
Qed.

(** The relation on the tables, of the whole process. *)
Definition served (s s' : Serve) : Prop := exchanged targets (sv_db s) (sv_db s').

#[local] Instance served_preorder : PreOrder served.
Proof. split; [intros s; unfold served; reflexivity|]. intros a b c H1 H2. unfold served in *. by transitivity (sv_db b). Qed.

Lemma served_kept {A : Type} (m : ServeM A) : moves db_kept m -> moves served m.
Proof. intros H s. unfold served. rewrite (H s). reflexivity. Qed.

Lemma served_undisturbed {A : Type} (m : ServeM A) : moves undisturbed m -> moves served m.
Proof. intros H s. destruct (H s) as [_ Hr _ _ _ _ _ _]. by apply exchanged_same. Qed.

Lemma served_on_store {A : Type} (m : DbM A) : moves (tables (exchanged targets)) m -> moves served (on_store m).
Proof. intros H. apply moves_focus. intros s. apply (H (sv_db s, sv_script s)). Qed.

(** The friends of a round, one after the other. *)
Lemma round_served now known peers :
  (forall vault peer id url key, peer ∈ peers -> exchange_target vault peer = Some (id, url, key) -> targets id (trim_end "/"%byte url)) ->
  moves served (
    let! own := self_record now in
    let! vault := open_vault in
    try! vault := sret (rmap_err Reason vault) in
    let! exchanged := on_store (sfold (fun _ target =>
        let '(peer_id, url, key) := target in
        let! done := exchange_with now peer_id url key own known in sret tt)
      (omap (exchange_target vault) peers) tt) in
    sret (Ok tt)).
Proof.
  intros Ht. apply moves_bind; [apply _|apply served_kept, moves_self_record|]. intros own.
  apply moves_bind; [apply _|apply served_undisturbed, moves_open_vault|]. intros vault.
  apply moves_try_ret; [apply _|]. intros v _. apply moves_bind; [apply _| |intros ?; apply moves_ret; apply _].
  apply served_on_store, moves_fold; [apply _..|]. intros _ [[id url] key] (peer & Hp & Hx)%list_elem_of_omap.
  apply moves_bind; [apply _|apply exchange_with_exchanged; by eapply Ht|]. intros ?. apply moves_ret. apply _.
Qed.

End RoundFacts.

(** ** What an exchange promises *)

(** Whom a round talks to: an active friend, under the address on their row. *)
Definition exchange_partner (db : Db) (id : Z) (base : bytes) : Prop :=
  exists r url, tb_rows (db_peers db) !! id = Some r /\ pr_revoked_at r = None /\ pr_gossip_url r = Some url /\
    base = trim_end "/"%byte url.

Lemma exchange_target_partner `{C : VaultCipher} vault db (peers : list Peer) peer id url key :
  (forall p, p ∈ peers <-> exists r, tb_rows (db_peers db) !! p_id p = Some r /\ p = row_to_peer (p_id p) r) ->
  peer ∈ peers -> exchange_target vault peer = Some (id, url, key) -> exchange_partner db id (trim_end "/"%byte url).
Proof.
  intros Hp (r & Hr & ->)%Hp. unfold exchange_target. destruct (is_revoked _) eqn:Er; [done|]. cbn in *.
  destruct (pr_gossip_url r) as [u|] eqn:Eu; [|done]. destruct (vault_get _ _) as [[k|]|]; try done. intros [= <- <- <-].
  exists r, u. split; [done|]. split; [|done]. unfold is_revoked in Er. cbn in Er. by destruct (pr_revoked_at r).
Qed.

(** C28: a round of exchanges keeps to the friends it talks to.  Whatever their servers
    answer, in whatever state the database and the vault are, no item, account,
    audience or pinned key changes, no row of a friend changes but in the record
    stored for them, and every catalog entry that was not there before links to the
    address this instance already had for the active friend it is filed under. *)
Theorem exchange_round `{U : UrlLib} `{SG : Signatures} `{SN : Signing} `{D : Digests} `{DC : Decoders} `{C : VaultCipher} `{KF : KeyFiles}
    `{ME : MasterEnv} `{RO : RowOrder} `{FT : FeedText} `{FS : FriendServers} now s :
  RowOrderLaws RO -> exchanged (exchange_partner (sv_db s)) (sv_db s) (sv_db (run_exchange now s).2).
Proof.
  intros RL. set (T := exchange_partner (sv_db s)).
  unfold run_exchange, sbind at 1. pose proof (moves_store s) as [_ [r Hr] _ _ _ _ _ _].
  destruct (store s) as [opened s1]. cbn [snd] in Hr.
  assert (exchanged T (sv_db s) (sv_db s1)) as H1 by (apply exchanged_same; eauto).
  unfold try_bind at 1, sbind at 1. destruct opened as [|reason]; [|exact H1]. cbn [rmap_err sret].
  unfold sbind at 1. rewrite on_store_run. destruct (list_peers _) as [[peers|e] ds2] eqn:El; cbn [fst snd].
  2: { destruct ds2 as [db2 sc2]. apply query_inv in El as [El|(? & _ & ->)]; [done|exact H1]. }
  apply list_peers_inv in El as [Ed Hp]. cbn [fst] in Ed, Hp. rewrite Ed. destruct (existsb _ _); [|exact H1].
  transitivity (sv_db s1); [exact H1|]. rewrite Hr in Hp.
  assert (moves (served T) _) as H by (apply (round_served T now (omap p_pubkey peers) peers);
    intros vault peer id url key; by apply exchange_target_partner).
  exact (H (put_db (sv_opened s1) (sv_db s1) ds2.2 s1)).
Qed.

(** The catalog a friend makes of ours is the feed they would be shown.  Reading our
    answer, they file one entry for each of the first 50,000 items of their own
    feed, in its order, with its hash in lowercase and a link on the address they
    asked, carrying the download token our answer gives them, which is their own key's
    hash or none; and answering changes nothing here. *)
Theorem catalog_mirrors_feed `{U : UrlLib} `{DC : Decoders} `{C : VaultCipher} `{KF : KeyFiles} `{ME : MasterEnv} `{RO : RowOrder}
    `{FT : FeedText} `{UD : UnicodeData} caller s answer s' base :
  RowOrderLaws RO -> catalog caller s = (Ok answer, s') ->
  undisturbed s s' /\
  (ct_token answer = None \/ ct_token answer = Some (ca_key_hash caller)) /\
  entries_from base answer = omap (mirrored base (ct_token answer)) (take MAX_ENTRIES (friend_feed (ca_scope caller) (ca_limits caller) (sv_db s))).
Proof.
  intros RL H. unfold catalog in H. apply try_inv in H as (m & s1 & Hc & [= <- <-]).
  apply collect_inv in Hc as (M & Hi & Ht & _). split; [done|]. split; [done|]. cbn [ct_token].
  rewrite filter_everything in Hi by apply search_all_selects. rewrite Hi. apply entries_mirror. intros item.
  unfold friend_feed. intros [_ (key & r & _ & -> & _ & Hs & _)%elem_of_feed_rows]%list_elem_of_filter. exact Hs.
Qed.

(** ** Witnesses *)

(** A friend at an address, whose key for us is in the vault. *)
Definition reachable_db : Db :=
  with_peers (mkTable {[ 1%Z := put_gossip_url (Some (bs "http://sam/")) friend_row ]} 1) serve_db.

Definition keyed_vault : bytes :=
  file_after (@run_op toy_cipher (bs "/data/vault.bin") sample_salt (bs "k" ++ sample_salt) [] (PutOp (peer_gossip_key 1) (bs "abc")) (Some empty_vault_file, sample_script)).2.

Definition reachable_serve : @Serve text_urls :=
  let s := sample_serve (None, None) reachable_db ∅ in put_vault (Some keyed_vault) (sv_script s) s.

(** Sam answers with the key they sign with and one film. *)
Definition sam_server : FriendServers := {|
  push_answer := fun _ _ _ => Ok tt;
  pull_answer := fun _ _ _ => Ok (200%N, Ok [sample_record 100]);
  catalog_answer := fun url _ =>
    if decide (url = bs "http://sam/api/catalog")
    then Ok (200%N, Ok (mkCatalog None [None; Some (mkCatalogItem shared_hex (d_spec sample_film) (d_ids sample_film) 7 true)]))
    else Err (bs "no route")
|}.

Lemma exchange_round_witness :
  let run := @run_exchange text_urls toy_signatures toy_signing prefix_digests hex_decoders toy_cipher no_key_files sample_env key_order
               plain_feed_text sam_server 150 reachable_serve in
  exists c, db_catalog (sv_db run.2) !! (1%Z, shared_hex) = Some c /\
    exists base rest, exchange_partner reachable_db 1 base /\ cat_download_url c = base ++ bs "/torrents/" ++ rest.
Proof.
  intros run. destruct (@exchange_round text_urls toy_signatures toy_signing prefix_digests hex_decoders toy_cipher no_key_files sample_env key_order
    plain_feed_text sam_server 150 reachable_serve key_order_laws) as [_ _ H].
  destruct (db_catalog (sv_db run.2) !! (1%Z, shared_hex)) as [c|] eqn:E; [|vm_compute in E; discriminate E].
  exists c. split; [reflexivity|]. destruct (H 1%Z shared_hex c E) as [Hold|Hnew]; [vm_compute in Hold; discriminate Hold|exact Hnew].
Defined.

Lemma catalog_mirrors_feed_witness :
  let run := @catalog text_urls toy_cipher no_key_files sample_env key_order plain_feed_text plain_unicode
               (mkCaller ScopeAll (mkPeerLimits None None None) 1 (bs "kh")) (sample_serve (Some (bs "t0ken"), None) serve_db ∅) in
  exists answer, run.1 = Ok answer /\ ct_token answer = Some (bs "kh") /\
    map ce_download_url (@entries_from plain_feed_text hex_decoders (bs "http://us") answer)
    = [bs "http://us/torrents/" ++ shared_hex ++ bs ".torrent?token=kh"].
Proof.
  intros run. destruct run as [[answer|] s'] eqn:E; [|assert (is_Some (match run.1 with Ok a => Some a | Err _ => None end)) as [? H] by (vm_compute; eauto); rewrite E in H; discriminate H].
  destruct (@catalog_mirrors_feed text_urls hex_decoders toy_cipher no_key_files sample_env key_order plain_feed_text plain_unicode
    _ _ answer s' (bs "http://us") key_order_laws E) as (_ & _ & H).
  assert (ct_token answer = Some (bs "kh")) as Ht by (assert (run.1 = Ok answer) as Ha by (by rewrite E); vm_compute in Ha; apply (f_equal (fun r => match r with Ok a => ct_token a | Err _ => None end)) in Ha; exact (eq_sym Ha)).
  exists answer. split; [reflexivity|]. split; [exact Ht|]. rewrite H, Ht. vm_compute. reflexivity.
Defined.
