(* ===== verification/Beacon.v ===== *)
(** * Reporting to lighthouses and asking them (lighthouse_client.rs)

    The fallback for friends whose addresses both moved: this instance reports its
    signed record to every lighthouse, once under the hash of each key it issued, and
    asks them for friends who have gone quiet, under the hash of the key each issued
    it.  The lighthouses are a parameter; the one of [Lighthouse] is an instance.  The
    concurrent requests of a pass run one after the other. *)

From S2P Require Import Prelude RustStd Text Bencode Metainfo Net Endpoint TrackerUrl Announce Model Paths Factory Title Lighthouse FileTree Totp Effects Accounts Database Items Peers History Sightings Vault Serve TrackerRoutes Torznab Gossip Exchange.

(** ** State *)

(** Why a report was not taken: no answer, or the status and what the body said. *)
Inductive ReportFailure : Type := NotReached (reason : bytes) | Refused (status : N) (reason : bytes).

Record LighthouseReport : Type := mkLhReport { lr_last_success_at : option Z; lr_last_error : option ReportFailure }.

Definition lh_report_default : LighthouseReport := mkLhReport None None.

Record LighthouseSnapshot : Type := mkSnapshot {
  lsn_last_pass_at : option Z;
  lsn_lighthouses : gmap bytes LighthouseReport;
  lsn_last_recovery_at : option Z;
  lsn_last_recovery_peer : option bytes;
  lsn_lookups_attempted : nat
}.

Definition record_pass (now : Z) (s : LighthouseSnapshot) : LighthouseSnapshot :=
  mkSnapshot (Some now) (lsn_lighthouses s) (lsn_last_recovery_at s) (lsn_last_recovery_peer s) (lsn_lookups_attempted s).

Definition put_report (url : bytes) (f : LighthouseReport -> LighthouseReport) (s : LighthouseSnapshot) : LighthouseSnapshot :=
  mkSnapshot (lsn_last_pass_at s) (<[url := f (default lh_report_default (lsn_lighthouses s !! url))]> (lsn_lighthouses s))
    (lsn_last_recovery_at s) (lsn_last_recovery_peer s) (lsn_lookups_attempted s).

Definition record_report_ok (now : Z) (url : bytes) : LighthouseSnapshot -> LighthouseSnapshot :=
  put_report url (fun _ => mkLhReport (Some now) None).
Definition record_report_err (url : bytes) (reason : ReportFailure) : LighthouseSnapshot -> LighthouseSnapshot :=
  put_report url (fun entry => mkLhReport (lr_last_success_at entry) (Some reason)).

Definition record_lookups (attempted : nat) (s : LighthouseSnapshot) : LighthouseSnapshot :=
  mkSnapshot (lsn_last_pass_at s) (lsn_lighthouses s) (lsn_last_recovery_at s) (lsn_last_recovery_peer s) attempted.

Definition record_recovery (now : Z) (label : bytes) (s : LighthouseSnapshot) : LighthouseSnapshot :=
  mkSnapshot (lsn_last_pass_at s) (lsn_lighthouses s) (Some now) (Some label) (lsn_lookups_attempted s).

(** The lighthouses at the other end: a report may change what they hold.  [Err] is
    a request without an answer; a body may not be read. *)
Class Lighthouses : Type := {
  LhWorld : Type;
  report_answer : bytes -> EndpointRecord -> LhWorld -> result (N * result bytes bytes) bytes * LhWorld;
  lookup_answer : bytes -> LhWorld -> result (N * result EndpointRecord bytes) bytes
}.

Section Client.
Context `{U : UrlLib} `{LH : Lighthouses}.

Record Beacon : Type := mkBeacon { bc_serve : Serve; bc_status : LighthouseSnapshot; bc_world : LhWorld }.

End Client.

(** What [run] reads of [Config::lighthouse]. *)
Record BeaconConfig `{U : UrlLib} : Type := mkBeaconConfig { lc_urls : list Url; lc_quiet_secs : N }.

Abbreviation BeaconM := (St Beacon).

Section Pass.
Context `{U : UrlLib} `{SG : Signatures} `{SN : Signing} `{D : Digests} `{DC : Decoders} `{C : VaultCipher} `{KF : KeyFiles} `{ME : MasterEnv} `{RO : RowOrder}.
Context `{LH : Lighthouses}.

Definition on_serve {A : Type} (m : ServeM A) : BeaconM A :=
  focus bc_serve (fun s b => mkBeacon s (bc_status b) (bc_world b)) m.
Definition on_status (f : LighthouseSnapshot -> LighthouseSnapshot) : BeaconM unit :=
  smodify (fun b => mkBeacon (bc_serve b) (f (bc_status b)) (bc_world b)).
Definition on_world {A : Type} (m : LhWorld -> A * LhWorld) : BeaconM A :=
  focus bc_world (fun w b => mkBeacon (bc_serve b) (bc_status b) w) m.

(** ** Reporting *)

Definition report_one (now : Z) (base : Url) (key_hash : bytes) (record : EndpointRecord) : BeaconM unit :=
  let endpoint := join_path base (bs "/lighthouse/v1/report/" ++ key_hash) in
  let! response := on_world (report_answer endpoint record) in
  match response with
  | Err reason => on_status (record_report_err (url_as_str base) (NotReached reason))
  | Ok (status, body) =>
      if is_success status then on_status (record_report_ok now (url_as_str base))
      else
        let reason := match body with Ok text => text | Err _ => [] end in
        on_status (record_report_err (url_as_str base) (Refused status (trim reason)))
  end.

Definition report_all (now : Z) (urls : list Url) (peers : list Peer) (own : option EndpointRecord) : BeaconM unit :=
  match own with
  | None => sret tt
  | Some record => sfold (fun _ pu => report_one now pu.2 (p_key_hash pu.1) record) (p ← peers; u ← urls; [(p, u)]) tt
  end.

(** ** Looking up *)

Definition is_quiet (peer : Peer) (now quiet_secs : Z) : bool :=
  match p_last_seen_at peer with Some seen => (quiet_secs <=? now - seen)%Z | None => true end.

(** [lookup_one]: a record that verifies and names the identity expected. *)
Definition lookup_one (base : Url) (key_hash expected_pubkey : bytes) (w : LhWorld) : result (option EndpointRecord) ExchangeError :=
  let endpoint := join_path base (bs "/lighthouse/v1/lookup/" ++ key_hash) in
  let? response := rmap_err Reason (lookup_answer endpoint w) in
  if negb (is_success response.1) then Err (Answered (bs "lookup answered ") response.1)
  else
    let? record := rmap_err (fun e => Reason (bs "body: " ++ e)) response.2 in
    if bool_decide (er_pubkey record <> expected_pubkey) || match Lighthouse.verify record with Ok _ => false | Err _ => true end
    then Ok None else Ok (Some record).

(** The loop over the lighthouses, stopping at the first that answers. *)
Fixpoint lookup_first (now : Z) (peer : Peer) (hash pubkey : bytes) (urls : list Url) : BeaconM unit :=
  match urls with
  | [] => sret tt
  | url :: urls =>
      let! found := sgets (fun b => lookup_one url hash pubkey (bc_world b)) in
      match found with
      | Ok (Some record) =>
          let! recorded := on_serve (on_store (record_endpoints now (p_id peer) (er_endpoints record) ViaLighthouse)) in
          on_status (record_recovery now (p_label peer))
      | _ => lookup_first now peer hash pubkey urls
      end
  end.

Definition lookup_quiet_one (now : Z) (urls : list Url) (vault : Vault) (peer : Peer) : BeaconM unit :=
  match p_pubkey peer with
  | None => sret tt
  | Some pubkey =>
      match vault_get vault (peer_gossip_key (p_id peer)) with
      | Ok (Some key) => lookup_first now peer (Lighthouse.hash_key key) pubkey urls
      | _ => sret tt
      end
  end.

Definition lookup_quiet (now : Z) (urls : list Url) (peers : list Peer) (vault : Vault) (quiet_secs : N) : BeaconM unit :=
  let quiet := filter (fun p => is_quiet p now (saturating_i64 quiet_secs) = true) peers in
  let! counted := on_status (record_lookups (length quiet)) in
  sfold (fun _ peer => lookup_quiet_one now urls vault peer) quiet tt.

(** ** The pass *)

Definition lighthouse_pass (now : Z) (cfg : BeaconConfig) : BeaconM unit :=
  if negb (is_nonempty (lc_urls cfg)) then sret tt
  else
    let! opened := on_serve store in
    match opened with
    | Err _ => sret tt
    | Ok _ =>
        let! vault := on_serve open_vault in
        match vault with
        | Err _ => sret tt
        | Ok vault =>
            let! peers := on_serve (on_store active_peers) in
            match peers with
            | Err _ => sret tt
            | Ok peers =>
                let! own := on_serve (self_record now) in
                let! reported := report_all now (lc_urls cfg) peers own in
                let! looked := lookup_quiet now (lc_urls cfg) peers vault (lc_quiet_secs cfg) in
                on_status (record_pass now)
            end
        end
    end.

End Pass.

(** ** A lighthouse at the other end *)

Lemma join_path_app `{U : UrlLib} base path s : join_path base (path ++ s) = join_path base path ++ s.
Proof. unfold join_path. by rewrite app_assoc. Qed.

Section Hosted.
Context `{U : UrlLib} `{SG : Signatures} `{D : Digests} `{DC : Decoders} `{UD : UnicodeData}.

(** The two routes of [Lighthouse] served on [base], at time [now]. *)
Definition hosted_lighthouse (base : Url) (now : Z) : Lighthouses := {|
  LhWorld := LighthouseState;
  report_answer := fun endpoint record st =>
    match str_strip_prefix (join_path base (bs "/lighthouse/v1/report/")) endpoint with
    | Some key_hash =>
        let '(outcome, st) := Lighthouse.report now key_hash record st in
        (Ok ((report_response outcome).1, Ok (report_response outcome).2), st)
    | None => (Ok (404%N, Ok []), st)
    end;
  lookup_answer := fun endpoint st =>
    match str_strip_prefix (join_path base (bs "/lighthouse/v1/lookup/")) endpoint with
    | Some key_hash => Ok (200%N, Ok (lookup_route now st key_hash))
    | None => Ok (404%N, Err [])
    end
|}.

End Hosted.

(** ** Facts *)

(** What a pass may do to the database: only the observed endpoints change, and a
    row that was not there before is one [V] vouches for. *)
Record looked_up (V : EndpointRow -> Prop) (db db' : Db) : Prop := {
  lk_tables : exists retention endpoints, db' = with_endpoints endpoints (with_retention retention db);
  lk_rows : forall id row, tb_rows (db_endpoints db') !! id = Some row -> tb_rows (db_endpoints db) !! id = Some row \/ V row
}.

#[export] Instance looked_up_preorder V : PreOrder (looked_up V).
Proof.
  split.
  - intros db. constructor; [exists (db_retention db), (db_endpoints db); by destruct db|]. auto.
  - intros a b c [(r & e & Hb) H] [(r' & e' & Hc) G]. constructor; [exists r', e'; subst; by destruct a|].
    intros id row [Hr|Hr]%G; auto.
Qed.

Definition endpoints_from (now peer_id : Z) (record : EndpointRecord) (row : EndpointRow) : Prop :=
  er_peer_id row = peer_id /\ exists e (kind : EndpointKind), e ∈ er_endpoints record /\ parse_enum (re_kind e) = Some kind /\
    er_kind row = as_str_name kind /\ er_addr row = re_addr e /\ (er_observed_at row <= Z.max now (i64_saturating_add now MAX_FUTURE_SKEW_SECS))%Z.

Lemma record_endpoints_looked V now peer_id record via :
  (forall row, endpoints_from now peer_id record row -> V row) ->
  moves (tables (looked_up V)) (record_endpoints now peer_id (er_endpoints record) via).
Proof.
  intros HV. apply moves_fold; [apply _|]. intros _ e He. destruct (parse_enum _) as [kind|] eqn:Ek; [|apply moves_ret; apply _].
  apply moves_bind; [apply _| |intros ?; apply moves_ret; apply _]. apply (moves_query (looked_up V)). intros db.
  destruct (known_peer _ _); [|reflexivity]. cbn [snd]. constructor; cbn.
  - exists (db_retention db). eexists. by destruct db.
  - intros id row. destruct (record_effect now peer_id kind (re_addr e) (Some (re_observed_at e)) via (ret_endpoint_history (db_retention db)) (db_endpoints db))
      as [->|(row' & t1 & (id' & E & Hw) & Hp & Hk & Ha & Ho & _ & ->)]; [by left|].
    intros [Hr _]%prune_lookup. rewrite E in Hr. apply lookup_insert_Some in Hr as [[<- <-]|[_ Hr]]; [|by left].
    right. apply HV. split; [done|]. exists e, kind. by split_and!.
Qed.

Section PassFacts.
Context `{U : UrlLib} `{SG : Signatures} `{SN : Signing} `{D : Digests} `{DC : Decoders} `{C : VaultCipher} `{KF : KeyFiles} `{ME : MasterEnv} `{RO : RowOrder}.
Context `{LH : Lighthouses} (V : EndpointRow -> Prop).

Definition beacon_looked (b b' : Beacon) : Prop := looked_up V (sv_db (bc_serve b)) (sv_db (bc_serve b')).

#[global] Instance beacon_looked_preorder : PreOrder beacon_looked.
Proof. split; [by intros b; unfold beacon_looked|]. intros a b c H G. unfold beacon_looked in *. by etransitivity. Qed.

Lemma moves_on_status f : moves beacon_looked (on_status f).
Proof. apply moves_modify. intros b. unfold beacon_looked. cbn. reflexivity. Qed.

Lemma moves_on_world {A : Type} (m : LhWorld -> A * LhWorld) : moves beacon_looked (on_world m).
Proof. apply moves_focus. intros b. unfold beacon_looked. cbn. reflexivity. Qed.

Lemma moves_on_serve {A : Type} (m : ServeM A) : moves (fun s s' => looked_up V (sv_db s) (sv_db s')) m -> moves beacon_looked (on_serve m).
Proof. intros H. apply moves_focus. intros b. apply H. Qed.

Lemma moves_report_one now base key_hash record : moves beacon_looked (report_one now base key_hash record).
Proof.
  unfold report_one. apply moves_bind; [apply _|apply moves_on_world|]. intros [[status body]|reason]; [|apply moves_on_status].
  destruct (is_success status); apply moves_on_status.
Qed.

Lemma moves_report_all now urls peers own : moves beacon_looked (report_all now urls peers own).
Proof.
  destruct own as [record|]; [|apply moves_ret; apply _]. apply moves_fold; [apply _|]. intros _ pu _. apply moves_report_one.
Qed.

Lemma lookup_one_trusted base key_hash pubkey w record :
  lookup_one base key_hash pubkey w = Ok (Some record) -> er_pubkey record = pubkey /\ Lighthouse.verify record = Ok tt.
Proof.
  unfold lookup_one. destruct (lookup_answer _ w) as [[status body]|]; [|done]. cbn. destruct (negb _); [done|].
  destruct body as [r|]; [|done]. cbn. case_bool_decide as Hk; cbn; [done|]. destruct (Lighthouse.verify r) as [[]|] eqn:Ev; [|done]. cbn.
  intros [= <-]. by split.
Qed.

Lemma moves_lookup_first now peer hash pubkey urls :
  (forall record row, er_pubkey record = pubkey -> Lighthouse.verify record = Ok tt -> endpoints_from now (p_id peer) record row -> V row) ->
  moves beacon_looked (lookup_first now peer hash pubkey urls).
Proof.
  intros HV. induction urls as [|url urls IH]; [apply moves_ret; apply _|]. cbn [lookup_first].
  apply moves_bind_run; [apply _|apply moves_gets; apply _|]. intros b. cbn [sgets fst].
  destruct (lookup_one url hash pubkey (bc_world b)) as [[record|]|] eqn:Hf; [|apply IH|apply IH]. apply lookup_one_trusted in Hf as [Hk Hv].
  apply moves_bind; [apply _| |intros ?; apply moves_on_status]. apply moves_on_serve, moves_focus. intros s. cbn.
  assert (moves (tables (looked_up V)) (record_endpoints now (p_id peer) (er_endpoints record) ViaLighthouse)) as H
    by (apply record_endpoints_looked; eauto).
  exact (H (sv_db s, sv_script s)).
Qed.

End PassFacts.

(** ** What a pass promises *)

(** An address some signed record vouches for: of a friend who is not revoked and has been
    quiet, given by a record that verifies under the key the friend is bound to. *)
Definition vouched `{SG : Signatures} `{DC : Decoders} (now quiet_secs : Z) (db : Db) (row : EndpointRow) : Prop :=
  exists r record, tb_rows (db_peers db) !! er_peer_id row = Some r /\ pr_revoked_at r = None /\
    is_quiet (row_to_peer (er_peer_id row) r) now quiet_secs = true /\
    pr_pubkey r = Some (er_pubkey record) /\ Lighthouse.verify record = Ok tt /\ endpoints_from now (er_peer_id row) record row.

(** C36: a lighthouse is not believed.  Whatever the lighthouses answer, a pass changes
    nothing in the database but the observed addresses, and every address it adds is
    one that a friend who has gone quiet signed with the key they are bound to. *)
Theorem pass_trusts_signatures `{U : UrlLib} `{SG : Signatures} `{SN : Signing} `{D : Digests} `{DC : Decoders} `{C : VaultCipher} `{KF : KeyFiles}
    `{ME : MasterEnv} `{RO : RowOrder} `{LH : Lighthouses} now cfg b :
  RowOrderLaws RO ->
  let db := sv_db (bc_serve b) in
  looked_up (vouched now (saturating_i64 (lc_quiet_secs cfg)) db) db (sv_db (bc_serve (lighthouse_pass now cfg b).2)).
Proof.
  intros RL db. set (V := vouched _ _ db). unfold lighthouse_pass. destruct (negb _); [reflexivity|].
  unfold sbind at 1. pose proof (moves_store (bc_serve b)) as [_ [r Hr] _ _ _ _ _ _].
  unfold on_serve at 1, focus. destruct (store (bc_serve b)) as [opened s1] eqn:Es. cbn [snd] in Hr.
  assert (looked_up V db (sv_db s1)) as H1.
  { rewrite Hr. constructor; [exists r, (db_endpoints db); by destruct (sv_db (bc_serve b))|]. cbn. auto. }
  destruct opened as [|]; [|exact H1]. set (b1 := mkBeacon s1 _ _).
  unfold sbind at 1. unfold on_serve at 1, focus. pose proof (moves_open_vault_db s1) as H2. unfold b1. cbn [bc_serve].
  destruct (open_vault s1) as [[vault|] s2]; unfold db_kept in H2; cbn [snd] in H2; [|cbn; by rewrite H2].
  unfold sbind at 1. unfold on_serve at 1, focus. cbn [bc_serve]. rewrite on_store_run.
  destruct (active_peers (sv_db s2, sv_script s2)) as [[peers|] ds] eqn:Ea; cbn [fst snd].
  2: { destruct ds as [db3 sc3]. apply query_inv in Ea as [Ea|(? & _ & ->)]; [done|]. cbn. by rewrite H2. }
  apply active_peers_inv in Ea as [Ed Hp]. cbn [fst] in Ed, Hp.
  transitivity (sv_db s1); [exact H1|]. rewrite <- H2, <- Ed. rewrite H2, Hr in Hp.
  assert (moves (beacon_looked V) (let! own := on_serve (self_record now) in
            let! reported := report_all now (lc_urls cfg) peers own in
            let! looked := lookup_quiet now (lc_urls cfg) peers vault (lc_quiet_secs cfg) in on_status (record_pass now))) as H.
  { apply moves_bind; [apply _| |].
    { apply moves_on_serve. intros s. pose proof (moves_self_record now s) as Hs. unfold db_kept in Hs. rewrite Hs. reflexivity. }
    intros own. apply moves_bind; [apply _|apply moves_report_all|]. intros _. apply moves_bind; [apply _| |intros _; apply moves_on_status].
    unfold lookup_quiet. apply moves_bind; [apply _|apply moves_on_status|]. intros _. apply moves_fold; [apply _|].
    intros _ peer [Hq Hin]%list_elem_of_filter. destruct (Hp peer Hin) as (row & Hrow & Hpeer & Hrev). cbn in Hrow.
    unfold lookup_quiet_one. destruct (p_pubkey peer) as [pubkey|] eqn:Ek; [|apply moves_ret; apply _].
    destruct (vault_get _ _) as [[key|]|]; [|apply moves_ret; apply _..]. apply moves_lookup_first.
    intros record er Hk Hv [Hid Hfrom]. exists row, record. rewrite Hid. split_and!; [exact Hrow|exact Hrev|by rewrite <- Hpeer| |exact Hv|by split].
    rewrite Hpeer in Ek. cbn in Ek. congruence. }
  exact (H (mkBeacon (put_db (sv_opened s2) ds.1 ds.2 s2) (bc_status b) (bc_world b))).
Qed.

(** Two friends find each other again.  Once a lighthouse has accepted one's report under
    the hash of the key they issued, the other, who knows that key and the identity, and
    asks that lighthouse at any later time, records every address of the report and
    notes the recovery. *)
Theorem quiet_friend_found `{U : UrlLib} `{SG : Signatures} `{D : Digests} `{DC : Decoders} `{UD : UnicodeData} `{C : VaultCipher}
    base urls now later key record (w : LighthouseState) mine my_status s status vault peer :
  LowercaseLaws UD ->
  vault_get vault (peer_gossip_key (p_id peer)) = Ok (Some key) -> p_pubkey peer = Some (er_pubkey record) ->
  (Lighthouse.report now (Peers.hash_key key) record w).1 = Ok Accepted ->
  let reported := report_one (LH := hosted_lighthouse base now) now base (Peers.hash_key key) record (mkBeacon (LH := hosted_lighthouse base now) mine my_status w) in
  lsn_lighthouses (bc_status reported.2) !! url_as_str base = Some (mkLhReport (Some now) None) /\
  lookup_quiet_one (LH := hosted_lighthouse base later) later (base :: urls) vault peer
    (mkBeacon (LH := hosted_lighthouse base later) s status (bc_world reported.2)) =
  (tt, mkBeacon (LH := hosted_lighthouse base later) (on_store (record_endpoints later (p_id peer) (er_endpoints record) ViaLighthouse) s).2
         (record_recovery later (p_label peer) status) (bc_world reported.2)).
Proof.
  intros UL Hkey Hpub Hacc reported.
  assert (bc_world reported.2 = (Lighthouse.report now (Peers.hash_key key) record w).2 /\
          lsn_lighthouses (bc_status reported.2) !! url_as_str base = Some (mkLhReport (Some now) None)) as [Hw Hs].
  { unfold reported, report_one, sbind, on_world, focus. cbn [bc_world report_answer hosted_lighthouse]. rewrite join_path_app, str_strip_prefix_app.
    destruct (Lighthouse.report _ _ _ _) as [outcome w']. cbn in Hacc. subst outcome. cbn. split; [done|]. by rewrite lookup_insert_eq. }
  split; [exact Hs|]. rewrite Hw.
  assert (Lighthouse.verify record = Ok tt) as Hv.
  { pose proof (report_has_effect now (Peers.hash_key key) record w) as He. rewrite Hacc in He. by inversion He. }
  unfold lookup_quiet_one. rewrite Hpub, Hkey. cbn [lookup_first]. unfold sbind at 1. cbn [sgets bc_world].
  assert (lookup_one (LH := hosted_lighthouse base later) base (Lighthouse.hash_key key) (er_pubkey record)
            (Lighthouse.report now (Peers.hash_key key) record w).2 = Ok (Some record)) as ->.
  { unfold lookup_one. cbn [lookup_answer hosted_lighthouse]. rewrite join_path_app, str_strip_prefix_app. cbn [rmap_err rbind fst snd].
    rewrite accepted_found by done. rewrite Hv, bool_decide_eq_false_2 by (intros Hne; by apply Hne). reflexivity. }
  unfold sbind, on_serve, focus. cbn [bc_serve bc_status bc_world]. by destruct (on_store _ s).
Qed.

(** *** Witnesses *)

(** Sam, bound to a key and never heard of, and a lighthouse holding their record. *)
Definition quiet_sam : PeerRow := put_pubkey (toy_key "1"%byte) friend_row.
Definition beacon_serve : @Serve text_urls :=
  let s := sample_serve (None, None) (with_peers (mkTable {[ 1%Z := quiet_sam ]} 1) serve_db) ∅ in put_vault (Some keyed_vault) (sv_script s) s.

Definition no_snapshot : LighthouseSnapshot := mkSnapshot None ∅ None None 0.

(** One lighthouse, answering every lookup with Sam's record, and every report as told. *)
Definition sam_lighthouse (taken : bytes -> bool) : Lighthouses := {|
  LhWorld := unit;
  report_answer := fun endpoint _ w => (Ok (if taken endpoint then (200%N, Ok (bs "accepted")) else (403%N, Ok (bs " claimed "))), w);
  lookup_answer := fun _ _ => Ok (200%N, Ok (toy_record "1"%byte 140))
|}.

Definition beacon_config : @BeaconConfig text_urls := @mkBeaconConfig text_urls [bs "http://lh"] 60.

Lemma pass_trusts_signatures_witness :
  let LH := sam_lighthouse (fun _ => true) in
  let pass := @lighthouse_pass text_urls toy_signatures toy_signing prefix_digests hex_decoders toy_cipher no_key_files sample_env key_order
                LH 150 beacon_config (@mkBeacon text_urls LH beacon_serve no_snapshot tt) in
  exists id row, tb_rows (db_endpoints (sv_db (bc_serve pass.2))) !! id = Some row /\ er_addr row = bs "h:1" /\
    @vouched toy_signatures hex_decoders 150 60 (sv_db beacon_serve) row.
Proof.
  intros LH pass.
  destruct (@pass_trusts_signatures text_urls toy_signatures toy_signing prefix_digests hex_decoders toy_cipher no_key_files sample_env key_order
    LH 150 beacon_config (@mkBeacon text_urls LH beacon_serve no_snapshot tt) key_order_laws) as [_ H].
  assert (exists id row, tb_rows (db_endpoints (sv_db (bc_serve pass.2))) !! id = Some row /\ er_addr row = bs "h:1" /\
            tb_rows (db_endpoints (sv_db beacon_serve)) !! id = None) as (id & row & Hr & Ha & Hn).
  { exists 1%Z. eexists. split; [vm_compute; reflexivity|]. split; vm_compute; reflexivity. }
  exists id, row. split; [exact Hr|]. split; [exact Ha|]. destruct (H id row Hr) as [Hold|Hv]; [|exact Hv].
  exfalso. cbn [bc_serve] in Hold. rewrite Hn in Hold. discriminate Hold.
Defined.

Lemma quiet_friend_found_witness :
  let peer := row_to_peer 1 quiet_sam in
  let record := toy_record "1"%byte 140 in
  let hosted := @hosted_lighthouse text_urls toy_signatures prefix_digests hex_decoders plain_unicode (bs "http://lh") 150 in
  let reported := @report_one text_urls hosted 150 (bs "http://lh") (@Peers.hash_key prefix_digests (bs "abc")) record
                    (@mkBeacon text_urls hosted beacon_serve no_snapshot (lighthouse_new (bs "secret"))) in
  lsn_lighthouses (bc_status reported.2) !! bs "http://lh" = Some (mkLhReport (Some 150%Z) None).
Proof.
  intros peer record hosted reported.
  assert (match (@vault_open toy_cipher (bs "/data/vault.bin") (bs "k") (Some keyed_vault, sample_script)).1 with
          | Ok opened => @vault_get toy_cipher opened (peer_gossip_key 1) = Ok (Some (bs "abc")) | Err _ => False end) as H
    by (vm_compute; reflexivity).
  destruct (vault_open _ _ _).1 as [opened|]; [|destruct H].
  exact (proj1 (@quiet_friend_found text_urls toy_signatures prefix_digests hex_decoders plain_unicode toy_cipher (bs "http://lh") [] 150 160 (bs "abc") record
    (lighthouse_new (bs "secret")) beacon_serve no_snapshot beacon_serve no_snapshot opened peer plain_unicode_lowercase H
    ltac:(vm_compute; reflexivity) ltac:(vm_compute; reflexivity))).
Defined.

(** Two friends, one lighthouse: the refusal of the first friend's slot is gone from the
    status as soon as the second friend's report is accepted. *)
Example refusal_hidden :
  let LH := sam_lighthouse (fun endpoint => negb (bool_decide (endpoint = bs "http://lh/lighthouse/v1/report/aa"))) in
  let status key_hashes := bc_status (sfold (fun _ h => @report_one text_urls LH 150 (bs "http://lh") h (toy_record "1"%byte 140)) key_hashes tt
                             (@mkBeacon text_urls LH beacon_serve no_snapshot tt)).2 in
  lsn_lighthouses (status [bs "aa"]) !! bs "http://lh" = Some (mkLhReport None (Some (Refused 403 (bs "claimed")))) /\
  lsn_lighthouses (status [bs "aa"; bs "bb"]) !! bs "http://lh" = Some (mkLhReport (Some 150%Z) None).
Proof. vm_compute. split; reflexivity. Qed.
