(* ===== verification/Pairing.v ===== *)
(** * One-string friend pairing (pairing.rs)

    Invites and what a pasted one must satisfy, the outbound half of a friendship
    as it is written to a friend's row and the vault, and the route a friend
    returns their side on.  Base64 and the JSON of an invite are parameters. *)

From S2P Require Import Prelude RustStd Text BTreeMap Bencode Metainfo Net Endpoint TrackerUrl Announce Model Paths Factory Title Lighthouse FileTree Totp Effects Accounts Database Items Peers History Sightings Vault Serve TrackerRoutes Torznab Gossip Exchange.

(** ** Invites *)

Definition PREFIX : bytes := bs "sharerr-invite:".
Definition INVITE_VERSION : N := 1.
Definition INVITE_TTL_SECS : Z := 7 * 24 * 60 * 60.
Definition MAX_KEY_LEN : nat := 256.

Record Invite : Type := mkInvite {
  iv_v : N;
  iv_url : bytes;
  iv_key : bytes;
  iv_issued_at : Z;
  iv_pubkey : option bytes;
  iv_in_reply_to : option bytes
}.

(** [serde_json] on an invite, and base64's [URL_SAFE_NO_PAD] engine. *)
Class InviteCodec : Type := {
  invite_json : Invite -> bytes;
  invite_of_json : bytes -> option Invite;
  base64url_encode : bytes -> bytes;
  base64url_decode : bytes -> option bytes
}.

(** A letter, a digit, [-] or [_]. *)
Definition base64url_char (b : byte) : bool := is_ascii_alphanumeric b || bool_decide (b ∈ bs "-_").

(** Both are inverse to each other on what they write, and base64 writes only its
    alphabet. *)
Class InviteCodecLaws (IC : InviteCodec) : Prop := {
  invite_of_json_json : forall invite, invite_of_json (invite_json invite) = Some invite;
  base64url_decode_encode : forall data, base64url_decode (base64url_encode data) = Some data;
  base64url_alphabet : forall data, Forall (fun b => base64url_char b = true) (base64url_encode data)
}.

(** [Url::scheme] and [Display for ParseError]. *)
Class UrlText (U : UrlLib) : Type := {
  url_scheme : Url -> bytes;
  describe_parse : ParseError -> bytes
}.

(** Why something pasted or sent is refused, one constructor per message. *)
Inductive InviteError : Type :=
| NotAnInvite
| DamagedText
| DamagedContents
| NewerFormat (v : N)
| FutureDated
| TooOld
| AddressUnparsed (url why : bytes)
| AddressNotHttp (url : bytes)
| NoKey
| KeyTooLong
| IdentityShape
| ReplyShape.

Section Invites.
Context `{U : UrlLib} `{UT : !UrlText U} `{IC : InviteCodec}.

Definition invite_new (now : Z) (url key : bytes) (pubkey : option bytes) : Invite :=
  mkInvite INVITE_VERSION url key now pubkey None.

Definition invite_encode (invite : Invite) : bytes := PREFIX ++ base64url_encode (invite_json invite).

Definition validate_url (url : bytes) : result unit InviteError :=
  match url_parse url with
  | Err e => Err (AddressUnparsed url (describe_parse e))
  | Ok parsed =>
      if bool_decide (url_scheme parsed ∈ [bs "http"; bs "https"]) then Ok tt else Err (AddressNotHttp url)
  end.

Definition validate_key (key : bytes) : result unit InviteError :=
  if negb (is_nonempty (trim key)) then Err NoKey
  else if MAX_KEY_LEN <? length key then Err KeyTooLong
  else Ok tt.

(** An optional field of 32 bytes in hexadecimal. *)
Definition validate_hex (value : option bytes) (e : InviteError) : result unit InviteError :=
  match value with
  | Some value => if is_hex_32_bytes value then Ok tt else Err e
  | None => Ok tt
  end.

Definition invite_decode (now : Z) (text : bytes) : result Invite InviteError :=
  let? encoded := ok_or (str_strip_prefix PREFIX (trim text)) NotAnInvite in
  let? json := ok_or (base64url_decode (trim encoded)) DamagedText in
  let? invite := ok_or (invite_of_json json) DamagedContents in
  if negb (iv_v invite =? INVITE_VERSION)%N then Err (NewerFormat (iv_v invite))
  else if (i64_saturating_add now MAX_FUTURE_SKEW_SECS <? iv_issued_at invite)%Z then Err FutureDated
  else if (INVITE_TTL_SECS <? i64_saturating_sub now (iv_issued_at invite))%Z then Err TooOld
  else
    let? url := validate_url (iv_url invite) in
    let? key := validate_key (iv_key invite) in
    let? pubkey := validate_hex (iv_pubkey invite) IdentityShape in
    let? reply := validate_hex (iv_in_reply_to invite) ReplyShape in
    Ok invite.

End Invites.

(** ** The outbound half, applied locally *)

(** Why an invite could not be applied to a friend. *)
Inductive ApplyError : Type :=
| IdentityNotPinned (e : StoreError)
| OtherIdentity
| FriendGone
| AddressNotSaved (e : StoreError)
| KeyNotStored (e : VaultError).

(** What a friend sends back to the one who invited them. *)
Record PairRequest : Type := mkPairRequest {
  rq_url : bytes;
  rq_key : bytes;
  rq_record : option EndpointRecord
}.

(** Every answer of the route, with its status. *)
Inductive PairAnswer : Type :=
| Paired
| PairNotReady
| PairInvalid (why : InviteError)
| PairBadRecord (why : bytes)
| PairOtherIdentity
| PairVaultClosed
| PairAlready
| PairKeyNotStored
| PairNoPeer
| PairAddressNotStored.

Definition pair_status (answer : PairAnswer) : N :=
  match answer with
  | Paired => 204
  | PairInvalid _ | PairBadRecord _ => 400
  | PairOtherIdentity | PairAlready | PairNoPeer => 409
  | PairNotReady | PairVaultClosed | PairKeyNotStored | PairAddressNotStored => 503
  end.

Section Pairs.
Context `{U : UrlLib} `{UT : !UrlText U} `{SG : Signatures} `{SN : Signing} `{DC : Decoders} `{C : VaultCipher} `{KF : KeyFiles} `{ME : MasterEnv} `{RO : RowOrder}.

(** A call on an open handle of the vault. *)
Definition on_handle {A : Type} (vault : Vault) (m : VaultM A) : ServeM (A * Vault) :=
  on_vault (fun disk => let '(a, (vault, disk)) := m (vault, disk) in ((a, vault), disk)).

Definition apply_invite (vault : Vault) (peer : Peer) (invite : Invite) : ServeM (result unit ApplyError) :=
  let! pinned :=
    match iv_pubkey invite with
    | None => sret (Ok tt)
    | Some pubkey =>
        let! bound := on_store (bind_peer_pubkey (p_id peer) pubkey) in
        sret (match bound with
              | Err e => Err (IdentityNotPinned e)
              | Ok false => Err OtherIdentity
              | Ok true => Ok tt
              end)
    end in
  try! pinned := sret pinned in
  let! saved := on_store (set_peer_gossip_url describe_parse (p_id peer) (Some (iv_url invite))) in
  match saved with
  | Err e => sret (Err (AddressNotSaved e))
  | Ok false => sret (Err FriendGone)
  | Ok true =>
      let! stored := on_handle vault (vault_put (peer_gossip_key (p_id peer)) (iv_key invite)) in
      sret (rmap_err KeyNotStored stored.1)
  end.

(** What the route checks before it opens the vault. *)
Definition pair_refusal (peer : Peer) (request : PairRequest) : option PairAnswer :=
  match (let? url := validate_url (rq_url request) in validate_key (rq_key request)) with
  | Err reason => Some (PairInvalid reason)
  | Ok _ =>
      match rq_record request with
      | None => None
      | Some record =>
          match Lighthouse.verify record with
          | Err reason => Some (PairBadRecord reason)
          | Ok _ =>
              match p_pubkey peer with
              | Some pinned => if negb (bool_decide (pinned = er_pubkey record)) then Some PairOtherIdentity else None
              | None => None
              end
          end
      end
  end.

(** What it writes: the key, the address, and the record as a push would. *)
Definition pair_write (now : Z) (vault : Vault) (peer_id : Z) (request : PairRequest) : ServeM PairAnswer :=
  let! stored := on_handle vault (vault_put (peer_gossip_key peer_id) (rq_key request)) in
  match stored.1 with
  | Err _ => sret PairKeyNotStored
  | Ok _ =>
      let! saved := on_store (set_peer_gossip_url describe_parse peer_id (Some (rq_url request))) in
      match saved with
      | Ok false => sret PairNoPeer
      | Err _ => sret PairAddressNotStored
      | Ok true =>
          let! ingested :=
            match rq_record request with
            | Some record => on_store (let! summary := ingest now peer_id [record] in sret tt)
            | None => sret tt
            end in
          sret Paired
      end
  end.

(** [POST /api/gossip/pair], once the caller is known. *)
Definition pair (now : Z) (caller : Caller) (request : PairRequest) : ServeM PairAnswer :=
  let! opened := store in
  match opened with
  | Err _ => sret PairNotReady
  | Ok _ =>
      let! found := on_store (peer_by_id (ca_peer_id caller)) in
      match found with
      | Ok (Some peer) =>
          match pair_refusal peer request with
          | Some refusal => sret refusal
          | None =>
              let! vault := open_vault in
              match vault with
              | Err _ => sret PairVaultClosed
              | Ok vault =>
                  let key_stored := match vault_get vault (peer_gossip_key (p_id peer)) with Ok (Some _) => true | _ => false end in
                  if bool_decide (is_Some (p_gossip_url peer)) || key_stored then sret PairAlready
                  else pair_write now vault (p_id peer) request
              end
          end
      | _ => sret PairNotReady
      end
  end.

End Pairs.

(** What the inviter's server answers to our side: nothing, or a status and a body. *)
Class PairServers : Type := pair_post : bytes -> bytes -> PairRequest -> result (N * bytes) bytes.

Inductive SendError : Type := NotReached (why : bytes) | AnsweredWith (status : N) (body : bytes).

Definition send_pair `{PS : PairServers} (invite : Invite) (request : PairRequest) : result unit SendError :=
  match pair_post (trim_end "/"%byte (iv_url invite) ++ bs "/api/gossip/pair") (iv_key invite) request with
  | Err e => Err (NotReached e)
  | Ok (status, body) => if is_success status then Ok tt else Err (AnsweredWith status (trim body))
  end.

(** ** Facts: invites *)

Lemma base64url_graphic b : base64url_char b = true -> is_graphic b = true.
Proof. destruct b; vm_compute; congruence. Qed.

(** The text around an invite is only whitespace. *)
Lemma invite_read `{IC : InviteCodec} {IL : InviteCodecLaws IC} invite text :
  trim text = invite_encode invite ->
  (let? encoded := ok_or (str_strip_prefix PREFIX (trim text)) NotAnInvite in
   let? json := ok_or (base64url_decode (trim encoded)) DamagedText in
   ok_or (invite_of_json json) DamagedContents) = Ok invite.
Proof.
  intros ->. unfold invite_encode. rewrite str_strip_prefix_app. cbn [ok_or rbind]. rewrite trim_graphic.
  2: { eapply Forall_impl; [apply base64url_alphabet|]. apply base64url_graphic. }
  rewrite base64url_decode_encode. cbn. by rewrite invite_of_json_json.
Qed.

(** Both cutoffs, with the sums saturating at the ends of [i64]. *)
Lemma invite_window now issued :
  (i64_min <= now)%Z -> (i64_min <= issued <= i64_max)%Z ->
  ((i64_saturating_add now MAX_FUTURE_SKEW_SECS <? issued)%Z = (now + MAX_FUTURE_SKEW_SECS <? issued)%Z) /\
  ((INVITE_TTL_SECS <? i64_saturating_sub now issued)%Z = (INVITE_TTL_SECS <? now - issued)%Z).
Proof.
  intros Hn H. unfold i64_saturating_add, i64_saturating_sub, clamp_i64, i64_min, i64_max, INVITE_TTL_SECS, MAX_FUTURE_SKEW_SECS in *.
  split; apply eq_true_iff_eq; rewrite !Z.ltb_lt; lia.
Qed.

Definition invite_valid `{U : UrlLib} `{UT : !UrlText U} (invite : Invite) : Prop :=
  iv_v invite = INVITE_VERSION /\ (i64_min <= iv_issued_at invite <= i64_max)%Z /\
  validate_url (iv_url invite) = Ok tt /\ validate_key (iv_key invite) = Ok tt /\
  validate_hex (iv_pubkey invite) IdentityShape = Ok tt /\ validate_hex (iv_in_reply_to invite) ReplyShape = Ok tt.

(** An invite is a credential for a week.  Pasted with any whitespace around it, a
    string this program issued for a usable address and key is read back field for
    field from five minutes before the time it names until seven days after, on
    clocks anywhere in the range of a 64-bit integer; earlier it is refused as dated
    in the future, and later as too old. *)
Theorem invite_honoured_a_week `{U : UrlLib} `{UT : !UrlText U} `{IC : InviteCodec} now invite text :
  InviteCodecLaws IC -> (i64_min <= now <= i64_max)%Z -> invite_valid invite -> trim text = invite_encode invite ->
  invite_decode now text =
    if (iv_issued_at invite <=? now + MAX_FUTURE_SKEW_SECS)%Z
    then if (now <=? iv_issued_at invite + INVITE_TTL_SECS)%Z then Ok invite else Err TooOld
    else Err FutureDated.
Proof.
  intros IL Hnow (Hv & Hi & Hu & Hk & Hp & Hr) Ht. pose proof (invite_read invite text Ht) as Hread. unfold invite_decode.
  apply rbind_Ok in Hread as (encoded & -> & Hread). cbn [rbind]. apply rbind_Ok in Hread as (json & -> & Hread). cbn [rbind].
  rewrite Hread. cbn [rbind]. rewrite Hv, N.eqb_refl. cbn [negb]. destruct (invite_window now _ (proj1 Hnow) Hi) as [-> ->].
  rewrite Hu, Hk, Hp, Hr. cbn [rbind].
  destruct (Z.ltb_spec (now + MAX_FUTURE_SKEW_SECS) (iv_issued_at invite)), (Z.leb_spec (iv_issued_at invite) (now + MAX_FUTURE_SKEW_SECS)); try lia; [done|].
  destruct (Z.ltb_spec INVITE_TTL_SECS (now - iv_issued_at invite)), (Z.leb_spec now (iv_issued_at invite + INVITE_TTL_SECS)); try lia; done.
Qed.

(** ** Facts: the vault and the rows of a process *)

Lemma peer_gossip_key_utf8 id : utf8_valid (peer_gossip_key id) = true.
Proof. exact (i_to_string_utf8 id). Qed.

Section ProcessFacts.
Context `{U : UrlLib} `{UT : !UrlText U} `{C : VaultCipher} {CL : VaultCipherLaws C} `{KF : KeyFiles} `{ME : MasterEnv}.

(** What the process's vault gives under a name. *)
Definition secret_of (s : Serve) (key : bytes) : result (option bytes) VaultError :=
  let? master := master_key_from env_master_key env_master_key_file in
  file_reads master (sv_vault s) key.

(** A vault file is never longer than memory. *)
Definition vault_fits (s : Serve) : Prop :=
  match sv_vault s with Some raw => (N.of_nat (length raw) <= usize_max)%N | None => True end.

(** A handle the process just opened. *)
Definition handle_of (s : Serve) (v : Vault) : Prop :=
  exists master, master_key_from env_master_key env_master_key_file = Ok master /\ opened_on master (sv_vault s) v.

Lemma open_vault_inv s v s' : open_vault s = (Ok v, s') -> undisturbed s s' /\ handle_of s' v.
Proof.
  intros H. pose proof (moves_open_vault s) as M. rewrite H in M. cbn in M. split; [done|]. destruct M as [_ _ M _ _ _ _ _].
  unfold open_vault, sbind at 1, sgets at 1 in H. apply try_inv in H as (master & s1 & Hm & H). injection Hm as Hm <-.
  unfold rmap_err in Hm. destruct (master_key_from _ _) as [m|] eqn:Em; [|done]. injection Hm as ->.
  exists master. split; [exact Em|]. rewrite M. apply sbind_inv in H as ([] & s2 & Hd & H).
  2: { by apply sbind_inv in H as (? & ? & _ & ?). }
  pose proof (moves_serve_draw s) as M1. rewrite Hd in M1. destruct M1 as [_ _ M1 _ _ _ _ _]. cbn in M1.
  apply sbind_inv in H as (r & s3 & Ho & [= Hr <-]). apply rmap_err_Ok in Hr as ->.
  unfold on_vault, focus in Ho. destruct (vault_open _ _ _) as [r disk] eqn:E. injection Ho as -> _.
  apply vault_open_inv in E as [_ E]. cbn in E. by rewrite M1 in E.
Qed.

Lemma handle_reads s v key : handle_of s v -> vault_get v key = secret_of s key.
Proof. intros (master & Hm & Ho). unfold secret_of. rewrite Hm. cbn. by apply opened_reads. Qed.

(** Storing a secret through such a handle changes that secret, or nothing. *)
Lemma handle_put v key value s r s' :
  handle_of s v -> utf8_valid key = true -> utf8_valid value = true ->
  on_handle v (vault_put key value) s = (r, s') ->
  (exists e, r.1 = Err e /\ undisturbed s s') \/
  (r.1 = Ok tt /\ exists out script, s' = put_vault (Some out) script s /\
    (vault_fits s' -> handle_of s' r.2 /\ forall k, secret_of s' k = if decide (k = key) then Ok (Some value) else secret_of s k)).
Proof.
  intros (master & Hm & Ho) Hk Hv H. unfold on_handle, on_vault, focus in H.
  destruct (vault_put key value (v, (sv_vault s, sv_script s))) as [a [v' [file script]]] eqn:E. injection H as <- <-.
  apply (put_reads master) in E as [(e & -> & Hf)|(-> & out & Hf & Hread)]; [..|done|done|done]; cbn in Hf; subst file.
  - left. exists e. split; [done|]. constructor; cbn; try done. exists (db_retention (sv_db s)). by rewrite with_retention_id.
  - right. split; [done|]. exists out, script. split; [done|]. intros [Ho' Hr]%Hread.
    split; [by exists master|]. intros k. unfold secret_of. rewrite Hm. cbn. by apply Hr.
Qed.

(** And so does removing one. *)
Lemma handle_remove v key s r s' :
  handle_of s v -> on_handle v (vault_remove key) s = (r, s') ->
  exists file script, s' = put_vault file script s /\
  ((exists e, r.1 = Err e /\ file = sv_vault s) \/
   (exists existed, r.1 = Ok existed /\
     (vault_fits s' -> handle_of s' r.2 /\ forall k, secret_of s' k = if decide (k = key) then Ok None else secret_of s k))).
Proof.
  intros (master & Hm & Ho) H. unfold on_handle, on_vault, focus in H.
  destruct (vault_remove key (v, (sv_vault s, sv_script s))) as [a [v' [file script]]] eqn:E. injection H as <- <-.
  exists file, script. split; [done|]. apply (remove_reads master) in E as [(e & -> & Hf)|(existed & -> & Hread)]; [..|done].
  - left. by exists e.
  - right. exists existed. split; [done|]. intros [Ho' Hr]%Hread. split; [by exists master|].
    intros k. unfold secret_of. rewrite Hm. cbn. by apply Hr.
Qed.

Lemma undisturbed_secret s s' key : undisturbed s s' -> secret_of s' key = secret_of s key.
Proof. intros [_ _ H _ _ _ _ _]. unfold secret_of. by rewrite H. Qed.

Lemma undisturbed_rows s s' : undisturbed s s' -> tb_rows (db_peers (sv_db s')) = tb_rows (db_peers (sv_db s)).
Proof. intros [_ [r ->] _ _ _ _ _ _]. done. Qed.

Lemma moves_peer_by_id id : moves undisturbed (on_store (peer_by_id id)).
Proof. apply moves_on_store, moves_select. apply _. Qed.

Lemma peer_by_id_inv id s peer s' :
  on_store (peer_by_id id) s = (Ok (Some peer), s') ->
  undisturbed s s' /\ exists r, tb_rows (db_peers (sv_db s)) !! id = Some r /\ peer = row_to_peer id r.
Proof.
  intros H. pose proof (moves_peer_by_id id s) as M. rewrite H in M. split; [done|]. rewrite on_store_run in H.
  destruct (peer_by_id id _) as [r [db script]] eqn:E. apply query_inv in E as [E|(e & -> & _)]; [|done].
  injection E as E _. injection H as H _. cbn in H. rewrite <- E in H. injection H as H.
  destruct (tb_rows _ !! id) as [row|]; [|done]. injection H as <-. eauto.
Qed.

(** The address of a friend is set, or nothing changes. *)
Lemma gossip_url_inv id raw s r s' :
  on_store (set_peer_gossip_url describe_parse id (Some raw)) s = (r, s') ->
  (r = Ok true /\ exists row saved script, tb_rows (db_peers (sv_db s)) !! id = Some row /\
    (trim raw <> [] -> exists u, url_parse (trim raw) = Ok u /\ saved = Some (url_as_str u)) /\
    s' = put_db (sv_opened s) (update_peer id (fun _ => true) (put_gossip_url saved) (sv_db s)).2 script s) \/
  (r <> Ok true /\ (r = Ok false -> tb_rows (db_peers (sv_db s)) !! id = None) /\
   exists script, s' = put_db (sv_opened s) (sv_db s) script s).
Proof.
  rewrite on_store_run. destruct (set_peer_gossip_url _ _ _ _) as [a [db script]] eqn:E. intros [= <- <-]. cbn [fst snd].
  unfold set_peer_gossip_url in E. apply try_cases in E as [(e & [= _ <- <-] & ->)|(saved & ds & [= Hs <-] & E)].
  { right. split; [done|]. split; [done|]. eauto. }
  apply query_inv in E as [E|(e & -> & ->)]; [|right; split; [done|]; split; [done|]; eauto].
  unfold update_peer in E |- *. destruct (tb_rows _ !! id) as [row|] eqn:Er; injection E as <- <-; [|right; split; [done|]; split; [done|]; eauto].
  left. split; [done|]. exists row, saved, script. split; [done|]. split; [|done]. intros Hne. cbn in Hs.
  destruct (trim raw) as [|b t]; [done|]. destruct (url_parse (b :: t)) as [u|e]; [|done]. injection Hs as <-. eauto.
Qed.

End ProcessFacts.

(** ** What pairing promises *)

Section PairFacts.
Context `{U : UrlLib} `{UT : !UrlText U} `{SG : Signatures} `{SN : Signing} `{D : Digests} `{DC : Decoders} `{C : VaultCipher} {CL : VaultCipherLaws C}.
Context `{KF : KeyFiles} `{ME : MasterEnv} `{RO : RowOrder} {RL : RowOrderLaws RO}.

(** The friend's key is in the vault, and every other secret as it was. *)
Definition key_added (id : Z) (key : bytes) (s s' : Serve) : Prop :=
  vault_fits s' -> forall k, secret_of s' k = if decide (k = peer_gossip_key id) then Ok (Some key) else secret_of s k.

(** The friend's row has an address, the record went in as a push would have put
    it, and the rest is as it was. *)
Definition row_filled (now id : Z) (request : PairRequest) (r : PeerRow) (db db' : Db) : Prop :=
  exists saved, (trim (rq_url request) <> [] -> exists u, url_parse (trim (rq_url request)) = Ok u /\ saved = Some (url_as_str u)) /\
    batch_step now id (option_list (rq_record request)) (update_peer id (fun _ => true) (put_gossip_url saved) db).2 db'.

Lemma pair_write_inv now v id request s answer s' :
  handle_of s v -> utf8_valid (rq_key request) = true -> pair_write now v id request s = (answer, s') ->
  match answer with
  | Paired => key_added id (rq_key request) s s' /\ exists r, tb_rows (db_peers (sv_db s)) !! id = Some r /\ row_filled now id request r (sv_db s) (sv_db s')
  | PairAddressNotStored | PairNoPeer => key_added id (rq_key request) s s' /\ sv_db s' = sv_db s
  | _ => undisturbed s s'
  end.
Proof.
  intros Ho Hv H. unfold pair_write in H. apply sbind_inv in H as (stored & s1 & Hs & H).
  apply (handle_put _ _ _ _ _ _ Ho) in Hs as [(e & He & M)|(He & out & script & -> & Hread)]; [| |apply peer_gossip_key_utf8|done]; rewrite He in H.
  { by injection H as <- <-. }
  apply sbind_inv in H as (saved & s2 & Hg & H).
  apply gossip_url_inv in Hg as [(-> & row & url & script2 & Hrow & Hurl & ->)|(Hn & _ & script2 & ->)].
  - apply sbind_inv in H as (u & s3 & Hi & [= <- <-]). cbn in Hrow.
    assert (sv_vault s3 = Some out /\ batch_step now id (option_list (rq_record request)) (update_peer id (fun _ => true) (put_gossip_url url) (sv_db s)).2 (sv_db s3)) as [Hvault Hstep].
    { destruct (rq_record request) as [record|]; [|injection Hi as _ <-; split; [done|reflexivity]].
      rewrite on_store_run in Hi. injection Hi as _ <-. cbn [sv_vault put_db sv_db]. split; [done|].
      unfold sbind. cbn [sret sv_db sv_script]. destruct (ingest now id [record] _) as [sm ds] eqn:Ei. cbn.
      pose proof (ingest_step now id [record] [record] ((update_peer id (fun _ => true) (put_gossip_url url) (sv_db s)).2, script2)) as B.
      cbn in Ei, B. rewrite Ei in B. apply B. auto. }
    split.
    + intros Hfit k. assert (vault_fits (put_vault (Some out) script s)) as [_ Hk]%Hread by (unfold vault_fits in *; by rewrite Hvault in Hfit). rewrite <- Hk. unfold secret_of. by rewrite Hvault.
    + exists row. split; [done|]. by exists url.
  - destruct saved as [[]|e]; [done|injection H as <- <-..]; (split; [|done]); exact (fun Hfit => proj2 (Hread Hfit)).
Qed.

End PairFacts.

Lemma pair_refusal_none `{U : UrlLib} `{UT : !UrlText U} `{SG : Signatures} `{DC : Decoders} peer request :
  pair_refusal peer request = None ->
  forall record, rq_record request = Some record ->
    Lighthouse.verify record = Ok tt /\ (p_pubkey peer = None \/ p_pubkey peer = Some (er_pubkey record)).
Proof.
  unfold pair_refusal. intros H record Hr. rewrite Hr in H. destruct (let? url := _ in _); [|done].
  destruct (Lighthouse.verify record) as [[]|]; [|done]. split; [done|]. destruct (p_pubkey peer); [|by left].
  case_bool_decide; [|done]. right. by subst.
Qed.

Lemma refusal_kind `{U : UrlLib} `{UT : !UrlText U} `{SG : Signatures} `{DC : Decoders} peer request answer :
  pair_refusal peer request = Some answer ->
  (exists why, answer = PairInvalid why) \/ (exists why, answer = PairBadRecord why) \/ answer = PairOtherIdentity.
Proof.
  unfold pair_refusal. destruct (let? url := _ in _) as [?|]; [|intros [= <-]; eauto].
  destruct (rq_record request) as [record|]; [|done]. destruct (Lighthouse.verify record); [|intros [= <-]; eauto].
  destruct (p_pubkey peer); [|done]. destruct (negb _); [intros [= <-]; eauto|done].
Qed.

(** C29: pairing fills an empty half and never overwrites one.  Whatever a friend sends,
    and whatever fails on the way, the route answers 204 only where the friend had no
    address on their row and no readable key in the vault, and no identity was
    pinned but that of the record they sent; then the vault holds their key and
    otherwise what it held, and their row the address, with the record taken in as a
    push would have been.  Any other answer leaves every row as it was, and the vault
    too, unless the address could not be written after the key. *)
Theorem pair_fills_empty_half `{U : UrlLib} `{UT : !UrlText U} `{SG : Signatures} `{SN : Signing} `{D : Digests} `{DC : Decoders} `{C : VaultCipher}
    `{KF : KeyFiles} `{ME : MasterEnv} `{RO : RowOrder} now caller request s answer s' :
  VaultCipherLaws C -> RowOrderLaws RO -> utf8_valid (rq_key request) = true -> pair now caller request s = (answer, s') ->
  let id := ca_peer_id caller in
  match answer with
  | Paired =>
      exists r ret, tb_rows (db_peers (sv_db s)) !! id = Some r /\ pr_gossip_url r = None /\
        (forall key, secret_of s (peer_gossip_key id) <> Ok (Some key)) /\
        (forall record, rq_record request = Some record ->
           Lighthouse.verify record = Ok tt /\ (pr_pubkey r = None \/ pr_pubkey r = Some (er_pubkey record))) /\
        key_added id (rq_key request) s s' /\ row_filled now id request r (with_retention ret (sv_db s)) (sv_db s')
  | PairAddressNotStored | PairNoPeer => key_added id (rq_key request) s s' /\ exists ret, sv_db s' = with_retention ret (sv_db s)
  | _ => undisturbed s s'
  end.
Proof.
  intros CL RL Hv H. cbn zeta. unfold pair in H. apply sbind_inv in H as (opened & s1 & Hs & H). pose proof (moves_store s) as M1. rewrite Hs in M1. cbn in M1.
  destruct opened as [|]; [|injection H as <- <-; exact M1]. apply sbind_inv in H as (found & s2 & Hp & H).
  assert (undisturbed s s2) as M2 by (transitivity s1; [done|]; pose proof (moves_peer_by_id (ca_peer_id caller) s1) as M; by rewrite Hp in M).
  destruct found as [[peer|]|]; [|injection H as <- <-; exact M2..]. apply peer_by_id_inv in Hp as [_ (r & Hr & ->)]. rewrite (undisturbed_rows s s1 M1) in Hr.
  destruct (pair_refusal _ request) as [refusal|] eqn:Er.
  { injection H as <- <-. by apply refusal_kind in Er as [[why ->]|[[why ->]| ->]]. }
  apply sbind_inv in H as (vault & s3 & Ho & H). pose proof (moves_open_vault s2) as M3. rewrite Ho in M3. cbn in M3.
  assert (undisturbed s s3) as M by (by transitivity s2). destruct vault as [v|]; [|injection H as <- <-; exact M].
  apply open_vault_inv in Ho as [_ Hh]. cbn [p_id row_to_peer] in H. rewrite (handle_reads s3 v), (undisturbed_secret s s3) in H by done.
  destruct (bool_decide _ || _) eqn:Eb; [injection H as <- <-; exact M|]. apply orb_false_iff in Eb as [Eu Ek].
  apply (pair_write_inv now v _ request s3) in H; [|done|done].
  assert (forall s', key_added (ca_peer_id caller) (rq_key request) s3 s' -> key_added (ca_peer_id caller) (rq_key request) s s') as Hadd.
  { intros s4 Ha Hfit k. rewrite (Ha Hfit k). case_decide; [done|]. by apply undisturbed_secret. }
  assert (exists ret, sv_db s3 = with_retention ret (sv_db s)) as [ret Hret] by (by destruct M as [_ ? _ _ _ _ _ _]).
  destruct answer; try (by transitivity s3).
  - destruct H as (Ha & r' & Hr' & Hf). rewrite (undisturbed_rows s s3 M) in Hr'. exists r, ret. split; [done|].
    apply bool_decide_eq_false in Eu. cbn in Eu. split; [by destruct (pr_gossip_url r); [destruct Eu; eauto|]|].
    split; [intros key Hk; by rewrite Hk in Ek|]. split; [exact (pair_refusal_none _ _ Er)|]. split; [by apply Hadd|]. by rewrite <- Hret.
  - destruct H as [Ha Hd]. split; [by apply Hadd|]. exists ret. congruence.
  - destruct H as [Ha Hd]. split; [by apply Hadd|]. exists ret. congruence.
Qed.

(** ** Witnesses *)

(** Of all texts one is an address, and of all invites one can be printed. *)
Definition plain_url_text : UrlText text_urls := {| url_scheme := fun _ => bs "http"; describe_parse := fun _ => bs "bad" |}.

Definition sample_invite : Invite := mkInvite 1 (bs "http://sam") (bs "k3y") 1000 None None.

(** An invite as the digits of its number in an enumeration of all invites. *)
Definition invite_tuple (i : Invite) : N * bytes * bytes * Z * option bytes * option bytes :=
  (iv_v i, iv_url i, iv_key i, iv_issued_at i, iv_pubkey i, iv_in_reply_to i).
Definition tuple_invite (t : N * bytes * bytes * Z * option bytes * option bytes) : Invite :=
  let '(v, url, key, issued_at, pubkey, in_reply_to) := t in mkInvite v url key issued_at pubkey in_reply_to.

Fixpoint digits_of (p : positive) : bytes :=
  match p with xH => [] | xO p => "0"%byte :: digits_of p | xI p => "1"%byte :: digits_of p end.
Fixpoint of_digits (s : bytes) : positive :=
  match s with [] => xH | b :: s => if decide (b = "0"%byte) then xO (of_digits s) else xI (of_digits s) end.

Lemma of_digits_of p : of_digits (digits_of p) = p.
Proof. induction p as [p IH|p IH|]; cbn; by rewrite ?IH. Qed.

Definition sample_codec : InviteCodec := {|
  invite_json := fun invite => digits_of (countable.encode (invite_tuple invite));
  invite_of_json := fun json => tuple_invite <$> countable.decode (of_digits json);
  base64url_encode := hex_encode (Digests := prefix_digests);
  base64url_decode := hex_pairs
|}.

Lemma sample_codec_laws : InviteCodecLaws sample_codec.
Proof.
  split.
  - intros [v url key issued_at pubkey in_reply_to]. cbn. rewrite of_digits_of, countable.decode_encode. done.
  - apply hex_pairs_roundtrip.
  - intros data. cbn. induction data as [|b data IH]; cbn; [constructor|]. repeat constructor; [destruct b; by vm_compute..|exact IH].
Qed.

(** Pasted with a line break, two days after it was issued. *)
Lemma invite_honoured_a_week_witness :
  @invite_decode text_urls plain_url_text sample_codec (1000 + 172800)
    (bs " " ++ @invite_encode sample_codec sample_invite ++ [x0a]) = Ok sample_invite.
Proof.
  rewrite (@invite_honoured_a_week text_urls plain_url_text sample_codec (1000 + 172800) sample_invite _ sample_codec_laws).
  - reflexivity.
  - by vm_compute.
  - split_and!; by vm_compute.
  - vm_compute. reflexivity.
Defined.

(** Sam was added with a key and returns their side. *)
Definition sample_request : PairRequest := mkPairRequest (bs "http://sam") (bs "k3y") (Some (sample_record 100)).
Definition sample_caller : Caller := mkCaller ScopeAll (mkPeerLimits None None None) 1 (bs "kh").
Definition unpaired : @Serve text_urls := sample_serve (None, None) serve_db ∅.

Lemma pair_fills_empty_half_witness :
  let run := @pair text_urls plain_url_text toy_signatures toy_signing hex_decoders toy_cipher no_key_files sample_env key_order
               150 sample_caller sample_request unpaired in
  run.1 = Paired /\
  @secret_of text_urls toy_cipher no_key_files sample_env run.2 (peer_gossip_key 1) = Ok (Some (bs "k3y")) /\
  exists r', tb_rows (db_peers (sv_db run.2)) !! 1%Z = Some r' /\ pr_gossip_url r' = Some (bs "http://sam") /\ pr_pubkey r' = Some sample_key.
Proof.
  intros run. destruct run as [answer s'] eqn:E. assert (run.1 = answer) as Ha by (by rewrite E).
  pose proof (@pair_fills_empty_half text_urls plain_url_text toy_signatures toy_signing prefix_digests hex_decoders toy_cipher no_key_files sample_env key_order
    150 sample_caller sample_request unpaired answer s' toy_cipher_laws key_order_laws eq_refl E) as H.
  assert (answer = Paired) as -> by (rewrite <- Ha; vm_compute; reflexivity).
  destruct H as (r & ret & _ & _ & _ & _ & Hkey & _). split; [reflexivity|]. split.
  - rewrite Hkey; [by vm_compute|]. assert (s' = run.2) as -> by (by rewrite E). vm_compute. discriminate.
  - assert (s' = run.2) as -> by (by rewrite E). exists (put_gossip_record (bs "old") (put_pubkey sample_key (put_gossip_url (Some (bs "http://sam")) friend_row))).
    split; [vm_compute; reflexivity|]. split; reflexivity.
Defined.

(** ** A departure from the documentation *)

(** The comment in the route says that an address which could not be written is a
    retry away from consistent; but the key is stored by then, and every retry is
    refused as already paired. *)
Example pair_retry_refused :
  let failing := mkScript ([true; true; true; true; true; true; true; true; true; true; true; false]) (replicate 600 x2a) (bs "disk full") in
  let s := put_db true serve_db failing unpaired in
  let first := @pair text_urls plain_url_text toy_signatures toy_signing hex_decoders toy_cipher no_key_files sample_env key_order
                 150 sample_caller sample_request s in
  let second := @pair text_urls plain_url_text toy_signatures toy_signing hex_decoders toy_cipher no_key_files sample_env key_order
                 151 sample_caller sample_request first.2 in
  first.1 = PairAddressNotStored /\ second.1 = PairAlready.
Proof. vm_compute. split; reflexivity. Qed.
