(* ===== verification/Friends.v ===== *)
(** * The friends pages and the restore of friends (web/peers.rs, commands/serve.rs)

    Adding a friend, pasting their invite, changing and removing them, and the
    export and import of friends for a lost data directory.  Every page also lists
    the friends; the list is only read, and its markup is not modelled, so an answer
    is what the page says besides it. *)

From S2P Require Import Prelude RustStd Text BTreeMap Bencode Metainfo Net Endpoint TrackerUrl Announce Model Paths Factory Title Lighthouse FileTree Totp Effects Accounts Database Items Peers History Sightings Vault Serve TrackerRoutes Torznab Gossip Exchange Pairing.

(** ** Numbers in forms *)

(** A finite [f64] is [m * 2^e]. *)
Inductive F64 : Type := F64Finite (negative : bool) (m : N) (e : Z) | F64Infinite (negative : bool) | F64Nan.

(** [n / d] to the nearest integer, ties to the even one. *)
Definition round_half_even (n d : N) : N :=
  let q := (n / d)%N in
  match N.compare (2 * (n mod d)) d with
  | Lt => q
  | Gt => q + 1
  | Eq => if N.even q then q else q + 1
  end%N.

(** [num / den] scaled by [2^-e], as a fraction. *)
Definition scaled (num den : N) (e : Z) : N * N :=
  if (0 <=? e)%Z then (num, (den * 2 ^ Z.to_N e)%N) else ((num * 2 ^ Z.to_N (- e))%N, den).

(** The [f64] nearest to [num / den]: 53 bits of significand, fewer below
    [2^-1022], and infinity from [2^1024]. *)
Definition f64_nearest (negative : bool) (num den : N) : F64 :=
  if (num =? 0)%N then F64Finite negative 0 0
  else
    let guess := (Z.of_N (N.log2 num) - Z.of_N (N.log2 den))%Z in
    let '(n, d) := scaled num den guess in
    let exponent := if (n <? d)%N then (guess - 1)%Z else guess in
    let e := Z.max (exponent - 52) (-1074) in
    let '(n, d) := scaled num den e in
    let m := round_half_even n d in
    if (1024 <=? e + Z.of_N (N.log2 m))%Z then F64Infinite negative else F64Finite negative m e.

Fixpoint span_digits (s : bytes) : bytes * bytes :=
  match s with
  | b :: r => if is_ascii_digit b then let '(ds, rest) := span_digits r in (b :: ds, rest) else ([], s)
  | [] => ([], [])
  end.

Definition decimal (ds : bytes) : N := fold_left (fun n b => (10 * n + (byte_val b - 48))%N) ds 0%N.

(** The exponent of a number, [Some 0] when there is none. *)
Definition parse_exponent (s : bytes) : option Z :=
  match s with
  | [] => Some 0%Z
  | b :: r =>
      if bool_decide (b ∈ bs "eE") then
        let '(negative, r) := match r with
                              | "-"%byte :: r => (true, r)
                              | "+"%byte :: r => (false, r)
                              | _ => (false, r)
                              end in
        let '(ds, rest) := span_digits r in
        if is_nonempty ds && negb (is_nonempty rest)
        then Some (if negative : bool then - Z.of_N (decimal ds) else Z.of_N (decimal ds))%Z
        else None
      else None
  end.

(** [str::parse::<f64>]. *)
Definition parse_f64 (s : bytes) : option F64 :=
  let '(negative, s) := match s with
                        | "-"%byte :: r => (true, r)
                        | "+"%byte :: r => (false, r)
                        | _ => (false, s)
                        end in
  if str_eq_ignore_ascii_case s (bs "nan") then Some F64Nan
  else if str_eq_ignore_ascii_case s (bs "inf") || str_eq_ignore_ascii_case s (bs "infinity") then Some (F64Infinite negative)
  else
    let '(whole, rest) := span_digits s in
    let '(part, rest) := match rest with "."%byte :: r => span_digits r | _ => ([], rest) end in
    if is_nonempty (whole ++ part) then
      exponent ← parse_exponent rest;
      let exponent := (exponent - Z.of_nat (length part))%Z in
      let m := decimal (whole ++ part) in
      Some (if (0 <=? exponent)%Z then f64_nearest negative (m * 10 ^ Z.to_N exponent) 1
            else f64_nearest negative m (10 ^ Z.to_N (- exponent)))
    else None.

Record LimitsForm : Type := mkLimitsForm { lf_max_size_gib : bytes; lf_max_height : bytes }.

(** Why a change is refused, one constructor per message of the page. *)
Inductive Rejection : Type :=
| NoEntropy (why : bytes)
| AlreadyFriend (name : bytes)
| InvalidLabel (message : bytes)
| NotAdded (e : StoreError)
| BadInvite (e : InviteError)
| VaultMustBeOpen (why : bytes)
| ReplyUnknown
| LookupFailed (e : StoreError)
| NotApplied (e : ApplyError)
| NameMissing
| SizeCapShape
| HeightCapShape
| CouldNot (action : bytes) (e : StoreError)
| NoSuchFriend
| UrlNotSaved (e : StoreError)
| VaultReason (why : bytes)
| SecretNotStored (e : VaultError)
| NotListed (e : StoreError).

(** [(gib * GIB) as i64]: the product is exact or overflows, and the cast saturates. *)
Definition gib_bytes (m : N) (e : Z) : Z :=
  let e := (e + 30)%Z in
  Z.min i64_max (Z.of_N (if (0 <=? e)%Z then m * 2 ^ Z.to_N e else m / 2 ^ Z.to_N (- e))%N).

Definition parse_limits (form : LimitsForm) : result (option Z * option Z) Rejection :=
  let? max_size :=
    match trim (lf_max_size_gib form) with
    | [] => Ok None
    | text =>
        match parse_f64 text with
        | Some (F64Finite false m e) => if (0 <? m)%N then Ok (Some (gib_bytes m e)) else Err SizeCapShape
        | _ => Err SizeCapShape
        end
    end in
  let? max_height :=
    match trim (lf_max_height form) with
    | [] => Ok None
    | text =>
        match parse_i64 text with
        | Some height => if (0 <? height)%Z then Ok (Some height) else Err HeightCapShape
        | None => Err HeightCapShape
        end
    end in
  Ok (max_size, max_height).

(** ** The handlers *)

(** A minted key as the page shows it, once. *)
Record RevealedPeer : Type := mkRevealed { rv_id : Z; rv_label : bytes; rv_key : bytes; rv_invite : bytes }.
Record PairedPeer : Type := mkPaired { pp_label : bytes; pp_return_failure : option SendError }.

Inductive FriendsAnswer : Type :=
| FriendsUnavailable (reason : bytes)
| FriendsRejected (why : Rejection)
| FriendsRedirect
| FriendsPage (revealed : option RevealedPeer) (paired : option PairedPeer).

(** [secrets::KEY_BYTES]. *)
Definition KEY_BYTES : nat := 20.

Record PairForm : Type := mkPairForm { pf_invite : bytes; pf_label : bytes; pf_scope : PeerScope }.
Record GossipForm : Type := mkGossipForm { gf_url : bytes; gf_key : bytes; gf_clear_key : bool }.

(** The tail of a handler that was given a value or an answer. *)
Definition or_answer `{U : UrlLib} {A : Type} (r : result A FriendsAnswer) (k : A -> ServeM FriendsAnswer) : ServeM FriendsAnswer :=
  match r with Ok a => k a | Err answer => sret answer end.

Section Handlers.
Context `{U : UrlLib} `{UT : !UrlText U} `{IC : InviteCodec} `{PS : PairServers}.
Context `{SG : Signatures} `{SN : Signing} `{D : Digests} `{DC : Decoders} `{C : VaultCipher} `{KF : KeyFiles} `{ME : MasterEnv} `{RO : RowOrder}.

Definition store_or_503 : ServeM (result unit FriendsAnswer) :=
  let! opened := store in sret (rmap_err FriendsUnavailable opened).

Definition fresh_key : ServeM (result bytes bytes) := on_vault (disk_script (random_hex KEY_BYTES)).

Definition mint_reason (e : StoreError) : Rejection :=
  match e with
  | UserExists username => AlreadyFriend username
  | InvalidUser message => InvalidLabel message
  | err => NotAdded err
  end.

Definition mint_peer (now : Z) (label : bytes) (scope : PeerScope) : ServeM (result (Peer * bytes) Rejection) :=
  let! key := fresh_key in
  try! key := sret (rmap_err NoEntropy key) in
  let! created := on_store (create_peer now label key scope) in
  try! peer := sret (rmap_err mint_reason created) in
  sret (Ok (peer, key)).

Definition own_invite (now : Z) (key : bytes) (in_reply_to : option bytes) : ServeM bytes :=
  let! identity := gossip_identity in
  let! base := public_base_url in
  let invite := invite_new now base key (pubkey_hex <$> identity) in
  sret (invite_encode (mkInvite (iv_v invite) (iv_url invite) (iv_key invite) (iv_issued_at invite) (iv_pubkey invite) in_reply_to)).

Definition peers_add (now : Z) (label : bytes) (scope : PeerScope) : ServeM FriendsAnswer :=
  let! opened := store_or_503 in
  or_answer opened (fun _ =>
    let! minted := mint_peer now (trim label) scope in
    or_answer (rmap_err FriendsRejected minted) (fun '(peer, key) =>
      let! invite := own_invite now key None in
      sret (FriendsPage (Some (mkRevealed (p_id peer) (p_label peer) key invite)) None))).

(** A pasted reply: the friend whose key it answers. *)
Definition pair_reply (vault : Vault) (invite : Invite) (hash : bytes) : ServeM FriendsAnswer :=
  let! found := on_store (peer_by_key_hash hash) in
  match found with
  | Err err => sret (FriendsRejected (LookupFailed err))
  | Ok None => sret (FriendsRejected ReplyUnknown)
  | Ok (Some peer) =>
      let! applied := apply_invite vault peer invite in
      sret (match applied with
            | Err reason => FriendsRejected (NotApplied reason)
            | Ok _ => FriendsPage None (Some (mkPaired (p_label peer) None))
            end)
  end.

(** A pasted invite: a new friend, and our side returned to them. *)
Definition pair_fresh (now : Z) (vault : Vault) (invite : Invite) (form : PairForm) : ServeM FriendsAnswer :=
  let label := trim (pf_label form) in
  if negb (is_nonempty label) then sret (FriendsRejected NameMissing)
  else
    let! minted := mint_peer now label (pf_scope form) in
    or_answer (rmap_err FriendsRejected minted) (fun '(peer, key) =>
      let! applied := apply_invite vault peer invite in
      or_answer (rmap_err (fun reason => FriendsRejected (NotApplied reason)) applied) (fun _ =>
        let! base := public_base_url in
        let! record := self_record now in
        let return_failure := match send_pair invite (mkPairRequest base key record) with Ok _ => None | Err e => Some e end in
        let! revealed :=
          match return_failure with
          | Some _ =>
              let! own := own_invite now key (Some (hash_key (iv_key invite))) in
              sret (Some (mkRevealed (p_id peer) (p_label peer) key own))
          | None => sret None
          end in
        sret (FriendsPage revealed (Some (mkPaired (p_label peer) return_failure))))).

Definition peers_pair (now : Z) (form : PairForm) : ServeM FriendsAnswer :=
  let! opened := store_or_503 in
  or_answer opened (fun _ =>
    or_answer (rmap_err (fun e => FriendsRejected (BadInvite e)) (invite_decode now (pf_invite form))) (fun invite =>
      let! vault := open_vault in
      or_answer (rmap_err (fun e => FriendsRejected (VaultMustBeOpen e)) vault) (fun vault =>
        match iv_in_reply_to invite with
        | Some hash => pair_reply vault invite hash
        | None => pair_fresh now vault invite form
        end))).

(** [applied]: back to the list, or the page with the failure. *)
Definition applied {T : Type} (r : result T StoreError) (action : bytes) : FriendsAnswer :=
  match r with Ok _ => FriendsRedirect | Err e => FriendsRejected (CouldNot action e) end.

Definition peers_revoke (now id : Z) : ServeM FriendsAnswer :=
  let! opened := store_or_503 in
  or_answer opened (fun _ =>
    let! r := on_store (revoke_peer now id) in
    let! notified :=
      match r with
      | Ok _ => send PeerRevoked (bs "revoked friend #" ++ i_to_string id ++ bs "'s key")
      | Err _ => sret tt
      end in
    sret (applied r (bs "revoke that key"))).

Definition peers_set_limits (id : Z) (form : LimitsForm) : ServeM FriendsAnswer :=
  or_answer (rmap_err FriendsRejected (parse_limits form)) (fun '(max_size, max_height) =>
    let! opened := store_or_503 in
    or_answer opened (fun _ =>
      let! r := on_store (set_peer_limits id max_size max_height) in
      sret (applied r (bs "change that")))).

Definition peers_set_scope (id : Z) (scope : PeerScope) : ServeM FriendsAnswer :=
  let! opened := store_or_503 in
  or_answer opened (fun _ =>
    let! r := on_store (set_peer_scope id scope) in
    sret (applied r (bs "change that"))).

Definition peers_set_gossip (id : Z) (form : GossipForm) : ServeM FriendsAnswer :=
  let! opened := store_or_503 in
  or_answer opened (fun _ =>
    let! saved := on_store (set_peer_gossip_url describe_parse id (Some (gf_url form))) in
    match saved with
    | Ok false => sret (FriendsRejected NoSuchFriend)
    | Err err => sret (FriendsRejected (UrlNotSaved err))
    | Ok true =>
        let key := trim (gf_key form) in
        if is_nonempty key || gf_clear_key form then
          let! vault := open_vault in
          or_answer (rmap_err (fun e => FriendsRejected (VaultReason e)) vault) (fun vault =>
            let vault_key := peer_gossip_key id in
            let! stored :=
              if gf_clear_key form
              then let! r := on_handle vault (vault_remove vault_key) in sret (match r.1 with Ok _ => Ok tt | Err e => Err e end)
              else let! r := on_handle vault (vault_put vault_key key) in sret r.1 in
            or_answer (rmap_err (fun e => FriendsRejected (SecretNotStored e)) stored) (fun _ => sret FriendsRedirect))
        else sret FriendsRedirect
    end).

Definition peers_delete (id : Z) : ServeM FriendsAnswer :=
  let! opened := store_or_503 in
  or_answer opened (fun _ =>
    let! r := on_store (delete_peer id) in
    let! forgotten :=
      match r with
      | Ok _ =>
          let! vault := open_vault in
          match vault with
          | Ok vault => let! removed := on_handle vault (vault_remove (peer_gossip_key id)) in sret tt
          | Err _ => sret tt
          end
      | Err _ => sret tt
      end in
    sret (applied r (bs "delete that friend"))).

End Handlers.

(** ** Previews *)

Definition PREVIEW_TOKEN : bytes := bs "preview".

(** [SearchQuery::default] has no function name. *)
Definition render_preview `{U : UrlLib} `{C : VaultCipher} `{KF : KeyFiles} `{ME : MasterEnv} `{RO : RowOrder} `{FT : FeedText} `{UD : UnicodeData}
    (scope : PeerScope) (limits : PeerLimits) (token : bytes) : ServeM Response :=
  let! matched := collect (search_all []) scope limits token in
  sret (match matched with
        | Ok matched => xml (render_feed matched)
        | Err (status, reason) => text_response status reason
        end).

Definition scope_preview `{U : UrlLib} `{C : VaultCipher} `{KF : KeyFiles} `{ME : MasterEnv} `{RO : RowOrder} `{FT : FeedText} `{UD : UnicodeData}
    (scope : PeerScope) : ServeM Response :=
  render_preview scope (mkPeerLimits None None None) PREVIEW_TOKEN.

Definition feed_preview `{U : UrlLib} `{C : VaultCipher} `{KF : KeyFiles} `{ME : MasterEnv} `{RO : RowOrder} `{FT : FeedText} `{UD : UnicodeData}
    (describe_store : StoreError -> bytes) (id : Z) : ServeM Response :=
  let! opened := store in
  match opened with
  | Err reason => sret (text_response 503 reason)
  | Ok _ =>
      let! found := on_store (peer_by_id id) in
      match found with
      | Ok (Some peer) => render_preview (p_scope peer) (peer_limits peer) (p_key_hash peer)
      | Ok None => sret (text_response 404 (bs "no such friend"))
      | Err err => sret (text_response 400 (bs "could not read that friend: " ++ describe_store err))
      end
  end.

(** ** Export and restore *)

(** [PeerImport]: one entry of the [[[peers]]] block. *)
Record PeerImport : Type := mkImport {
  im_label : bytes;
  im_scope : bytes;
  im_max_size_bytes : option Z;
  im_max_height : option Z;
  im_last_addr : option bytes;
  im_gossip_url : option bytes;
  im_gossip_key : option bytes
}.

Definition latest_endpoint (endpoints : list PeerEndpoint) (kind : EndpointKind) : option PeerEndpoint :=
  List.find (fun e => bool_decide (pe_kind e = kind)) endpoints.

(** [present]: set and not blank. *)
Definition present (value : option bytes) : option bytes := value ≫= (fun s => if is_nonempty s then Some s else None).

Section Restores.
Context `{U : UrlLib} `{UT : !UrlText U} `{D : Digests} `{C : VaultCipher} `{KF : KeyFiles} `{ME : MasterEnv} `{RO : RowOrder}.

(** [settings::secrets_present]. *)
Definition secrets_present : ServeM (list bytes) :=
  let! config := sgets sv_config in
  let! joined := serve_draw in
  if joined : bool then
    let! names := on_vault (key_names (vault_path config)) in
    sret (match names with Ok names => names | Err _ => [] end)
  else sret [].

Definition import_of (endpoints : Z -> list PeerEndpoint) (vault : option Vault) (peer : Peer) : PeerImport :=
  mkImport (p_label peer) (as_str_name (p_scope peer)) (p_max_size_bytes peer) (p_max_height peer)
    (pe_addr <$> latest_endpoint (endpoints (p_id peer)) KindApi) (p_gossip_url peer)
    (vault ≫= (fun vault => match vault_get vault (peer_gossip_key (p_id peer)) with Ok key => key | Err _ => None end)).

(** [export]: the entries of the download, and whether it says that the vault
    could not be opened.  The document is printed by a TOML library. *)
Definition peers_export : ServeM (result (list PeerImport * bool) FriendsAnswer) :=
  let! opened := store in
  try! opened := sret (rmap_err FriendsUnavailable opened) in
  let! active := on_store active_peers in
  try! active := sret (rmap_err (fun e => FriendsRejected (NotListed e)) active) in
  let! endpoints := on_store (peer_endpoints_for (map p_id active)) in
  let endpoints := match endpoints with Ok endpoints => endpoints | Err _ => fun _ => [] end in
  let! stored_secrets := secrets_present in
  let any_gossip_key := existsb (fun peer => bool_decide (peer_gossip_key (p_id peer) ∈ stored_secrets)) active in
  let! vault :=
    if any_gossip_key : bool then let! vault := open_vault in sret (res_ok vault) else sret None in
  sret (Ok (map (import_of endpoints vault) active, any_gossip_key && negb (bool_decide (is_Some vault)))).

(** Why an entry of the block was skipped. *)
Inductive ImportError : Type :=
| ImportKey (why : bytes)
| ImportStore (e : StoreError)
| ImportVault (e : VaultError)
| ImportNoVault.

(** One optional step: skipped, or done on the value. *)
Definition when_present {A B : Type} (value : option A) (step : A -> ServeM (result B ImportError)) : ServeM (result unit ImportError) :=
  match value with
  | None => sret (Ok tt)
  | Some a => try! done := step a in sret (Ok tt)
  end.

(** The caps and the address of an entry. *)
Definition restore_columns (id : Z) (peer : PeerImport) : ServeM (result unit ImportError) :=
  try! limited :=
    (if bool_decide (is_Some (im_max_size_bytes peer)) || bool_decide (is_Some (im_max_height peer)) then
       let! r := on_store (set_peer_limits id (im_max_size_bytes peer) (im_max_height peer)) in
       sret (rmap_err ImportStore r)
     else sret (Ok true)) in
  when_present (present (im_gossip_url peer)) (fun url =>
    let! r := on_store (set_peer_gossip_url describe_parse id (Some url)) in sret (rmap_err ImportStore r)).

(** The key they issued us, through the handle the entries of a block share. *)
Definition restore_key (id : Z) (peer : PeerImport) (vault : option Vault) : ServeM (result unit ImportError * option Vault) :=
  match present (im_gossip_key peer) with
  | None => sret (Ok tt, vault)
  | Some key =>
      match vault with
      | None => sret (Err ImportNoVault, vault)
      | Some handle =>
          let! r := on_handle handle (vault_put (peer_gossip_key id) key) in
          sret (rmap_err ImportVault r.1, Some r.2)
      end
  end.

Definition restore_address (now id : Z) (peer : PeerImport) : ServeM (result unit ImportError) :=
  when_present (present (im_last_addr peer)) (fun addr =>
    let! r := on_store (record_peer_endpoint now id KindApi addr None ViaRestored) in sret (rmap_err ImportStore r)).

Definition import_one_peer (now : Z) (vault : option Vault) (peer : PeerImport) : ServeM (result unit ImportError * option Vault) :=
  let! key := on_vault (disk_script (random_hex KEY_BYTES)) in
  match key with
  | Err why => sret (Err (ImportKey why), vault)
  | Ok key =>
      let! created := on_store (create_peer now (im_label peer) key (parse_lenient ScopeAll (im_scope peer))) in
      match created with
      | Err e => sret (Err (ImportStore e), vault)
      | Ok created =>
          let! stored := restore_columns (p_id created) peer in
          match stored with
          | Err e => sret (Err e, vault)
          | Ok _ =>
              let! keyed := restore_key (p_id created) peer vault in
              match keyed.1 with
              | Err e => sret (Err e, keyed.2)
              | Ok _ =>
                  let! seen := restore_address now (p_id created) peer in
                  sret (seen, keyed.2)
              end
          end
      end
  end.

(** [import_peers] up to the rewriting of the configuration file: how many entries
    were taken, or [None] when the block is left in place. *)
Definition import_peers (now : Z) (peers : list PeerImport) : ServeM (option nat) :=
  if negb (is_nonempty peers) then sret None
  else
    let! opened := store in
    match opened with
    | Err _ => sret None
    | Ok _ =>
        let! vault :=
          if existsb (fun peer => bool_decide (is_Some (im_gossip_key peer))) peers
          then let! vault := open_vault in sret (match vault with Ok v => Some (Some v) | Err _ => None end)
          else sret (Some None) in
        match vault with
        | None => sret None
        | Some vault =>
            let! counted := sfold (fun st peer =>
              let! r := import_one_peer now st.2 peer in
              sret (match r.1 with Ok _ => S st.1 | Err _ => st.1 end, r.2)) peers (0, vault) in
            sret (Some counted.1)
        end
    end.

End Restores.

(** ** What the rows show *)

Inductive AgoBucket : Type := AgoNow | AgoMinutes (n : Z) | AgoHours (n : Z) | AgoDays (n : Z).

Definition ago_bucket (now epoch_secs : Z) : AgoBucket :=
  let seconds := i64_saturating_sub now epoch_secs in
  if (seconds <? 60)%Z then AgoNow
  else if (seconds <? 3600)%Z then AgoMinutes (Z.quot seconds 60)
  else if (seconds <? 86400)%Z then AgoHours (Z.quot seconds 3600)
  else AgoDays (Z.quot seconds 86400).

Definition ago (now epoch_secs : Z) : bytes :=
  match ago_bucket now epoch_secs with
  | AgoNow => bs "just now"
  | AgoMinutes n => i_to_string n ++ bs " minute(s) ago"
  | AgoHours n => i_to_string n ++ bs " hour(s) ago"
  | AgoDays n => i_to_string n ++ bs " day(s) ago"
  end.

Definition took (started_at finished_at : Z) : bytes :=
  let s := i64_saturating_sub finished_at started_at in
  if (s <? 0)%Z then []
  else if (s =? 0)%Z then bs "under a second"
  else if (s <? 60)%Z then i_to_string s ++ bs "s"
  else if (s <? 3600)%Z then i_to_string (Z.quot s 60) ++ bs "m " ++ i_to_string (Z.rem s 60) ++ bs "s"
  else i_to_string (Z.quot s 3600) ++ bs "h " ++ i_to_string (Z.quot (Z.rem s 3600) 60) ++ bs "m".

(** The four steps of a friend's setup: the label, whether the row proves it, and
    the hint. *)
Record SetupStep : Type := mkStep { st_label : bytes; st_done : bool; st_hint : bytes }.

Definition setup_steps (peer : Peer) (endpoints : list PeerEndpoint) : list SetupStep :=
  let announced := existsb (fun e => bool_decide (pe_kind e = KindClient) && bool_decide (pe_via e = ViaDirect)) endpoints in
  [ mkStep (bs "Key issued") true [];
    mkStep (bs "Feed pulled") (bool_decide (is_Some (p_last_seen_at peer)))
      (bs "Their Prowlarr has not used the key yet: the indexer is not added, or its test failed.");
    mkStep (bs "First announce") announced
      (bs "Their torrent client has not reached the tracker yet: nothing grabbed from the feed, or the advertised address is not reachable from their side.");
    mkStep (bs "Runs sharerr (optional)") (bool_decide (is_Some (p_pubkey peer)))
      (bs "Only for a friend who runs sharerr: their instance has not introduced itself yet.") ].

(** ** Facts: rows *)

(** Every id in use was issued: [AUTOINCREMENT] never goes back. *)
Definition ids_issued {V : Type} (t : Table V) : Prop := forall id, is_Some (tb_rows t !! id) -> (id <= tb_sequence t)%Z.

(** A friend's row as it is first written. *)
Definition new_row (now : Z) (label key : bytes) (scope : PeerScope) `{D : Digests} : PeerRow :=
  mkPeerRow label (hash_key key) now None None (as_str_name scope) None None None 0 0 None None.

Section RowFacts.
Context `{U : UrlLib} `{UT : !UrlText U} `{D : Digests} `{RO : RowOrder} {RL : RowOrderLaws RO}.

Lemma key_taken_spec key_hash (t : Table PeerRow) :
  key_taken key_hash t = false -> forall id r, tb_rows t !! id = Some r -> pr_key_hash r <> key_hash.
Proof.
  intros H id r Hr Hk. unfold key_taken in H. apply not_true_iff_false in H. apply H.
  apply existsb_exists. exists (id, r). split; [|by apply bool_decide_eq_true].
  apply list_elem_of_In. by apply elem_of_map_to_list.
Qed.

Lemma create_peer_inv now label key scope s r s' :
  on_store (create_peer now label key scope) s = (r, s') ->
  (exists e, r = Err e /\ undisturbed s s') \/
  (exists name script, let id := (tb_sequence (db_peers (sv_db s)) + 1)%Z in let row := new_row now name key scope in
    validate_label label = Ok name /\ r = Ok (row_to_peer id row) /\
    (forall id r, tb_rows (db_peers (sv_db s)) !! id = Some r -> pr_key_hash r <> hash_key key) /\
    s' = put_db (sv_opened s) (with_peers (mkTable (<[id := row]> (tb_rows (db_peers (sv_db s)))) id) (sv_db s)) script s).
Proof.
  rewrite on_store_run. destruct (create_peer _ _ _ _ _) as [a [db script]] eqn:E. intros [= <- <-]. cbn [fst snd].
  assert (forall script, undisturbed s (put_db (sv_opened s) (sv_db s) script s)) as Hkeep.
  { intros sc. constructor; cbn; try done. exists (db_retention (sv_db s)). by rewrite with_retention_id. }
  unfold create_peer in E. apply try_cases in E as [(e & [= _ <- <-] & ->)|(name & ds & [= Hn <-] & E)]; [left; eauto|].
  apply query_inv in E as [E|(e & -> & ->)]; [|left; eauto]. destruct (_ || _) eqn:Et; [injection E as <- <-; left; eauto|].
  injection E as <- <-. right. exists name, script. cbn zeta. split; [done|]. split; [done|]. split; [|done].
  apply orb_false_iff in Et as [_ Et]. by apply key_taken_spec.
Qed.

End RowFacts.

Section AddFacts.
Context `{U : UrlLib} `{UT : !UrlText U} `{IC : InviteCodec} `{SG : Signatures} `{SN : Signing} `{D : Digests} `{DC : Decoders}.
Context `{C : VaultCipher} `{KF : KeyFiles} `{ME : MasterEnv} `{RO : RowOrder} {RL : RowOrderLaws RO}.

Lemma moves_own_invite now key in_reply_to : moves db_kept (own_invite now key in_reply_to).
Proof.
  unfold own_invite. apply moves_bind; [apply _|apply moves_cached_db|]. intros ?.
  apply moves_bind; [apply _|apply moves_gets; apply _|]. intros ?. apply moves_ret. apply _.
Qed.

Lemma fresh_key_kept : moves undisturbed fresh_key.
Proof. apply moves_on_vault. intros [file script]. unfold disk_script, focus. cbn. by destruct (random_hex _ _). Qed.

(** A minted friend: a row of their own, holding the hash of a key nobody else has. *)
Definition minted (now : Z) (scope : PeerScope) (peer : Peer) (key : bytes) (db db' : Db) : Prop :=
  let id := (tb_sequence (db_peers db) + 1)%Z in let row := new_row now (p_label peer) key scope in
  peer = row_to_peer id row /\
  (forall id r, tb_rows (db_peers db) !! id = Some r -> pr_key_hash r <> hash_key key) /\
  exists ret, db' = with_peers (mkTable (<[id := row]> (tb_rows (db_peers db))) id) (with_retention ret db).

Lemma mint_peer_inv now label scope s r s' :
  mint_peer now label scope s = (r, s') ->
  match r with
  | Err _ => undisturbed s s'
  | Ok (peer, key) => minted now scope peer key (sv_db s) (sv_db s') /\ sv_vault s' = sv_vault s
  end.
Proof.
  unfold mint_peer. intros (key & s1 & Hk & H)%sbind_inv. pose proof (fresh_key_kept s) as M. rewrite Hk in M. cbn in M.
  apply try_cases in H as [(e & [= Hr <-] & ->)|(k & ? & [= Hr <-] & H)]; [done|].
  apply sbind_inv in H as (created & s2 & Hc & H). apply create_peer_inv in Hc as [(e & -> & M2)|(name & script & _ & -> & Hu & ->)].
  - injection H as <- <-. by transitivity s1.
  - injection H as <- <-. cbn [p_label row_to_peer]. destruct M as [_ [ret Hret] Hv _ _ _ _ _].
    split; [|exact Hv]. unfold minted. cbn [p_label row_to_peer sv_db put_db]. rewrite Hret in Hu |- *. split; [done|]. split; [exact Hu|]. by exists ret.
Qed.

Lemma minted_rows now scope peer key db db' :
  ids_issued (db_peers db) -> minted now scope peer key db db' ->
  tb_rows (db_peers db) !! p_id peer = None /\
  tb_rows (db_peers db') = <[p_id peer := new_row now (p_label peer) key scope]> (tb_rows (db_peers db)).
Proof.
  intros Hids (-> & _ & ret & ->). cbn. split; [|done]. destruct (tb_rows _ !! _) as [r|] eqn:E; [|done].
  specialize (Hids _ (ex_intro _ r E)). lia.
Qed.

(** The new key, and only it, names the new friend. *)
Lemma minted_key now scope peer key db db' :
  ids_issued (db_peers db) -> minted now scope peer key db db' ->
  (peer_by_key key (db', mkScript [] [] [])).1 = Ok (Some (row_to_peer (p_id peer) (new_row now (p_label peer) key scope))).
Proof.
  intros Hids Hm. pose proof (minted_rows _ _ _ _ _ _ Hids Hm) as [Hn Hrows]. destruct Hm as (_ & Hu & _).
  unfold peer_by_key, peer_by_key_hash, select, query. cbn. rewrite Hrows. destruct (List.find _ _) as [[id r]|] eqn:E; cbn.
  - apply find_some in E as [Hin Hb]. apply list_elem_of_In, row_listed in Hin. cbn in Hb. apply andb_true_iff in Hb as [Hb _].
    apply bool_decide_eq_true in Hb. destruct (decide (id = p_id peer)) as [->|Hid].
    + rewrite lookup_insert_eq in Hin. by injection Hin as <-.
    + rewrite lookup_insert_ne in Hin by done. by destruct (Hu _ _ Hin).
  - pose proof (find_none _ _ E (p_id peer, new_row now (p_label peer) key scope)) as Hf. cbn in Hf.
    rewrite bool_decide_eq_true_2 in Hf by done. discriminate Hf. apply list_elem_of_In, row_listed, lookup_insert_eq.
Qed.

End AddFacts.

(** Nothing anywhere in the tables names the friend. *)
Record forgotten (id : Z) (db : Db) : Prop := {
  fg_row : tb_rows (db_peers db) !! id = None;
  fg_endpoints : forall i r, tb_rows (db_endpoints db) !! i = Some r -> er_peer_id r <> id;
  fg_catalog : forall h, db_catalog db !! (id, h) = None;
  fg_origins : forall key o, db_origins db !! key = Some o -> or_peer_id o <> Some id
}.

(** What a friend brought with them is theirs alone: without their row there is
    none of it, as the foreign keys have it. *)
Definition rows_owned (db : Db) : Prop := forall id, tb_rows (db_peers db) !! id = None -> forgotten id db.

Lemma delete_peer_inv `{U : UrlLib} id s b s' :
  rows_owned (sv_db s) -> on_store (delete_peer id) s = (Ok b, s') ->
  forgotten id (sv_db s') /\ sv_vault s' = sv_vault s /\ tb_sequence (db_peers (sv_db s')) = tb_sequence (db_peers (sv_db s)) /\
  forall j, j <> id -> tb_rows (db_peers (sv_db s')) !! j = tb_rows (db_peers (sv_db s)) !! j.
Proof.
  intros Hown. rewrite on_store_run. destruct (delete_peer id _) as [a [db script]] eqn:E. intros [= Ha <-]. cbn [fst snd] in *. subst a.
  apply query_inv in E as [E|(e & ? & _)]; [|done]. unfold delete_peer_statement in E.
  destruct (tb_rows (db_peers (sv_db s)) !! id) as [r|] eqn:Er; injection E as _ <-; cbn [sv_db put_db]; (split; [|split; [done|]]).
  - constructor; cbn.
    + apply lookup_delete_eq.
    + intros i x [_ Hx]%map_lookup_filter_Some. done.
    + intros h. apply map_lookup_filter_None. right. intros c _. cbn. tauto.
    + intros key o [_ Ho]%map_lookup_filter_Some. done.
  - split; [done|]. intros j Hj. cbn. by rewrite lookup_delete_ne.
  - by apply Hown.
  - done.
Qed.

(** ** Facts: restoring *)

Section RestoreFacts.
Context `{U : UrlLib} `{UT : !UrlText U} {UL : UrlLaws U} `{D : Digests} `{C : VaultCipher} {CL : VaultCipherLaws C} `{KF : KeyFiles} `{ME : MasterEnv}.

(** The friend of a restore so far: one row more, and the vault as [file]. *)
Record restoring (id : Z) (r : PeerRow) (s s' : Serve) : Prop := {
  rg_rows : tb_rows (db_peers (sv_db s')) = <[id := r]> (tb_rows (db_peers (sv_db s)));
  rg_vault : sv_vault s' = sv_vault s
}.

Lemma update_peer_rows id set db r :
  tb_rows (db_peers db) !! id = Some r ->
  tb_rows (db_peers (update_peer id (fun _ => true) set db).2) = <[id := set r]> (tb_rows (db_peers db)).
Proof. intros H. unfold update_peer. by rewrite H. Qed.

Lemma restoring_limits id r s s1 size height x s2 :
  restoring id r s s1 -> on_store (set_peer_limits id size height) s1 = (Ok x, s2) -> restoring id (put_limits size height r) s s2.
Proof.
  intros [Hr Hv]. rewrite on_store_run. destruct (set_peer_limits _ _ _ _) as [a [db script]] eqn:E. intros [= Ha <-]. cbn in Ha. subst a.
  apply query_inv in E as [E|(e & ? & _)]; [|done]. unfold update_peer in E. rewrite Hr, lookup_insert_eq in E. injection E as _ <-.
  constructor; [|exact Hv]. cbn. by rewrite insert_insert_eq.
Qed.

Lemma restoring_url id r s s1 raw x s2 :
  restoring id r s s1 -> on_store (set_peer_gossip_url describe_parse id (Some raw)) s1 = (Ok x, s2) ->
  trim raw = raw -> raw <> [] -> (exists u, raw = url_as_str u) -> restoring id (put_gossip_url (Some raw) r) s s2.
Proof.
  intros [Hr Hv] H Ht Hne [u Hu]. apply gossip_url_inv in H as [(_ & row & saved & script & Hrow & Hs & ->)|(Hn & Hf & script & ->)].
  - assert (row = r) as -> by (rewrite Hr, lookup_insert_eq in Hrow; by injection Hrow). destruct Hs as (u' & Hp & ->); [by rewrite Ht|].
    rewrite Ht, Hu, url_parse_as_str in Hp. injection Hp as <-. rewrite <- Hu. constructor; [|exact Hv].
    cbn [sv_db put_db]. by rewrite (update_peer_rows id _ _ r), Hr, insert_insert_eq.
  - exfalso. destruct x; [done|]. specialize (Hf eq_refl). by rewrite Hr, lookup_insert_eq in Hf.
Qed.

Lemma restored_address now id imp s s' :
  restore_address now id imp s = (Ok tt, s') ->
  tb_rows (db_peers (sv_db s')) = tb_rows (db_peers (sv_db s)) /\ sv_vault s' = sv_vault s.
Proof.
  unfold restore_address, when_present. destruct (present _) as [addr|]; [|by intros [= <-]]. intros (y & s1 & H & [= <-])%try_inv.
  apply sbind_inv in H as (z & s2 & H & [= He <-]). apply rmap_err_Ok in He as ->. rewrite on_store_run in H. injection H as Ha <-.
  split; [|done]. cbn [sv_db put_db]. destruct (record_peer_endpoint _ _ _ _ _ _ _) as [a [db sc]] eqn:E. cbn in Ha. subst a. cbn.
  apply query_inv in E as [E|(e & ? & _)]; [|done]. destruct (known_peer _ _); [|done]. by injection E as _ <-.
Qed.

Lemma handle_kept s s' v : sv_vault s' = sv_vault s -> handle_of s v -> handle_of s' v.
Proof. intros H (master & Hm & Ho). exists master. by rewrite H. Qed.

Lemma vault_get_utf8 v key text : vault_get v key = Ok (Some text) -> utf8_valid text = true.
Proof.
  unfold vault_get. destruct (btree_get _ _) as [record|]; [|done]. intros (plain & _ & H)%rbind_Ok.
  apply rbind_Ok in H as (t & Ht & [= ->]). destruct (from_utf8 plain) as [t'|] eqn:E; [|done]. injection Ht as ->.
  by apply from_utf8_Some in E as [-> ?].
Qed.

(** A row of a store that only this program writes: the label as it was trimmed, the
    address as a URL prints. *)
Definition row_normal (r : PeerRow) : Prop :=
  validate_label (pr_label r) = Ok (pr_label r) /\
  forall url, pr_gossip_url r = Some url -> url <> [] /\ trim url = url /\ exists u, url = url_as_str u.

Lemma restored_columns id r0 s s1 imp s2 :
  (forall url, im_gossip_url imp = Some url -> url <> [] /\ trim url = url /\ exists u, url = url_as_str u) ->
  pr_gossip_url r0 = None -> pr_max_size_bytes r0 = None -> pr_max_height r0 = None ->
  restoring id r0 s s1 -> restore_columns id imp s1 = (Ok tt, s2) ->
  exists r, restoring id r s s2 /\ pr_label r = pr_label r0 /\ pr_scope r = pr_scope r0 /\ pr_revoked_at r = pr_revoked_at r0 /\
    pr_max_size_bytes r = im_max_size_bytes imp /\ pr_max_height r = im_max_height imp /\ pr_gossip_url r = im_gossip_url imp.
Proof.
  intros Hurl Hu Hs Hh Hg H. unfold restore_columns in H. apply try_inv in H as (x & s3 & Hl & H).
  assert (exists r, restoring id r s s3 /\ pr_label r = pr_label r0 /\ pr_scope r = pr_scope r0 /\ pr_revoked_at r = pr_revoked_at r0 /\
    pr_max_size_bytes r = im_max_size_bytes imp /\ pr_max_height r = im_max_height imp /\ pr_gossip_url r = None) as (r & Hr & Hrest).
  { destruct (_ || _) eqn:E.
    - apply sbind_inv in Hl as (y & s4 & Hl & [= He <-]). apply rmap_err_Ok in He as ->. apply (restoring_limits _ _ _ _ _ _ _ _ Hg) in Hl.
      eexists. split; [exact Hl|]. cbn. by rewrite Hu.
    - injection Hl as _ <-. apply orb_false_iff in E as [E1 E2]. apply bool_decide_eq_false in E1, E2.
      exists r0. split; [done|]. destruct (im_max_size_bytes imp); [destruct E1; eauto|].
      destruct (im_max_height imp); [destruct E2; eauto|]. done. }
  unfold when_present, present in H. destruct (im_gossip_url imp) as [url|] eqn:Eu; cbn in H.
  - destruct (Hurl url eq_refl) as (Hne & Ht & Hx). destruct url as [|b url]; [done|]. cbn [is_nonempty] in H.
    apply try_inv in H as (y & s4 & H & [= <-]). apply sbind_inv in H as (z & s5 & H & [= He <-]). apply rmap_err_Ok in He as ->.
    apply (restoring_url _ _ _ _ _ _ _ Hr) in H; [|done..]. eexists. split; [exact H|]. cbn. by destruct Hrest as (-> & -> & -> & -> & -> & _).
  - injection H as <-. exists r. split; [done|]. done.
Qed.

Lemma restored_key id r s s1 imp v keyed s2 :
  (forall key, im_gossip_key imp = Some key -> utf8_valid key = true) -> handle_of s v ->
  restoring id r s s1 -> restore_key id imp (Some v) s1 = (keyed, s2) -> keyed.1 = Ok tt ->
  tb_rows (db_peers (sv_db s2)) = <[id := r]> (tb_rows (db_peers (sv_db s))) /\
  (vault_fits s2 -> (forall key, im_gossip_key imp = Some key -> key <> [] -> secret_of s2 (peer_gossip_key id) = Ok (Some key)) /\
    (forall k, k <> peer_gossip_key id -> secret_of s2 k = secret_of s k)).
Proof.
  intros Hutf Hh [Hr Hv] H Hok. unfold restore_key in H.
  assert (forall k, secret_of s1 k = secret_of s k) as Hsame by (intros k; unfold secret_of; by rewrite Hv).
  destruct (present (im_gossip_key imp)) as [key|] eqn:Ep.
  - unfold present in Ep. destruct (im_gossip_key imp) as [key'|] eqn:Ek; [|done]. cbn in Ep. destruct key' as [|b key']; [done|]. injection Ep as <-.
    apply sbind_inv in H as (x & s3 & Hp & [= <- <-]). cbn in Hok. apply rmap_err_Ok in Hok.
    apply handle_put in Hp as [(e & He & _)|(_ & out & script & -> & Hread)]; [congruence| |by eapply handle_kept|apply peer_gossip_key_utf8|by apply Hutf].
    split; [exact Hr|]. intros Hfit. destruct (Hread Hfit) as [_ Hkeys]. split.
    + intros k [= <-] _. rewrite Hkeys. by rewrite decide_True.
    + intros k Hk. rewrite Hkeys, decide_False by done. apply Hsame.
  - injection H as <- <-. split; [exact Hr|]. intros _. split; [|intros k _; apply Hsame].
    intros key Hk Hne. rewrite Hk in Ep. cbn in Ep. by destruct key.
Qed.

End RestoreFacts.

(** ** What the pages promise *)

(** Adding a friend hands out a key that works and that nobody had.  The page
    that reveals a key has written one row under an id never used before, leaves
    every other friend's as it was, and the key it shows is the one the feed then
    finds that friend by, with the scope that was chosen and no caps. *)
Theorem added_key_opens_feed `{U : UrlLib} `{IC : InviteCodec} `{SG : Signatures} `{SN : Signing} `{D : Digests} `{DC : Decoders} `{C : VaultCipher}
    `{KF : KeyFiles} `{ME : MasterEnv} `{RO : RowOrder} now label scope s revealed s' :
  RowOrderLaws RO -> ids_issued (db_peers (sv_db s)) ->
  peers_add now label scope s = (FriendsPage (Some revealed) None, s') ->
  tb_rows (db_peers (sv_db s)) !! rv_id revealed = None /\
  (forall id, id <> rv_id revealed -> tb_rows (db_peers (sv_db s')) !! id = tb_rows (db_peers (sv_db s)) !! id) /\
  exists friend, (peer_by_key (rv_key revealed) (sv_db s', mkScript [] [] [])).1 = Ok (Some friend) /\
    p_id friend = rv_id revealed /\ p_label friend = rv_label revealed /\ p_scope friend = scope /\
    p_max_size_bytes friend = None /\ p_max_height friend = None.
Proof.
  intros RL Hids H. unfold peers_add, store_or_503 in H. apply sbind_inv in H as (opened & s1 & Ho & H).
  apply sbind_inv in Ho as (o & s1' & Hs & [= <- <-]). pose proof (moves_store s) as [_ [ret Hret] _ _ _ _ _ _]. rewrite Hs in Hret. cbn in Hret.
  destruct o as [|]; [|done]. cbn in H. apply sbind_inv in H as (mint & s2 & Hm & H). apply mint_peer_inv in Hm.
  destruct mint as [[peer key]|]; [|done]. cbn in H. apply sbind_inv in H as (invite & s3 & Hi & [= <- <-]).
  pose proof (moves_own_invite now key None s2) as Hk. rewrite Hi in Hk. unfold db_kept in Hk. cbn in Hk.
  destruct Hm as [Hm _]. cbn [rv_id rv_key rv_label]. rewrite Hk. assert (ids_issued (db_peers (sv_db s1'))) as Hids1 by (by rewrite Hret).
  pose proof (minted_rows _ _ _ _ _ _ Hids1 Hm) as [Hn Hrows]. rewrite Hret in Hn, Hrows. cbn in Hn, Hrows.
  split; [exact Hn|]. split; [intros id Hid; rewrite Hrows; by rewrite lookup_insert_ne|].
  exists (row_to_peer (p_id peer) (new_row now (p_label peer) key scope)). split; [by eapply minted_key|]. cbn. by destruct scope.
Qed.

(** A deleted friend is gone.  When the page reports the deletion, no row, address,
    catalog entry or origin in the tables names the friend, every other friend's row is
    as it was and their id will not be issued again; and the vault has lost the
    key they had given us and nothing else, or could not be written at all. *)
Theorem deleted_friend_is_gone `{U : UrlLib} `{C : VaultCipher} `{KF : KeyFiles} `{ME : MasterEnv} id s s' :
  VaultCipherLaws C -> rows_owned (sv_db s) -> vault_fits s' ->
  peers_delete id s = (FriendsRedirect, s') ->
  forgotten id (sv_db s') /\ tb_sequence (db_peers (sv_db s')) = tb_sequence (db_peers (sv_db s)) /\
  (forall j, j <> id -> tb_rows (db_peers (sv_db s')) !! j = tb_rows (db_peers (sv_db s)) !! j) /\
  (sv_vault s' = sv_vault s \/
   forall k, secret_of s' k = if decide (k = peer_gossip_key id) then Ok None else secret_of s k).
Proof.
  intros CL Hown Hfit H. unfold peers_delete, store_or_503 in H. apply sbind_inv in H as (opened & s1 & Ho & H).
  apply sbind_inv in Ho as (o & s1' & Hs & [= <- <-]). pose proof (moves_store s) as [_ [ret Hret] Hv1 _ _ _ _ _]. rewrite Hs in Hret, Hv1. cbn in Hret, Hv1.
  destruct o as [|]; [|done]. cbn in H. apply sbind_inv in H as (r & s2 & Hd & H). apply sbind_inv in H as (u & s3 & Hf & [= Ha <-]).
  destruct r as [b|]; [|done].
  assert (rows_owned (sv_db s1')) as Hown1 by (rewrite Hret; intros j Hj; destruct (Hown j Hj); by constructor).
  apply (delete_peer_inv id s1') in Hd as (Hg & Hv2 & Hseq & Hrows); [|done]. rewrite Hret in Hseq, Hrows. cbn in Hseq, Hrows.
  apply sbind_inv in Hf as (vault & s4 & Hvo & Hf). pose proof (moves_open_vault s2) as M. rewrite Hvo in M. cbn in M.
  assert (sv_vault s2 = sv_vault s) as Hv by congruence.
  destruct M as [_ [ret4 Hdb4] Hv4 _ _ _ _ _]. destruct vault as [v|].
  2: { injection Hf as _ <-. rewrite Hdb4. cbn. destruct Hg. split; [by constructor|]. split; [done|]. split; [done|]. left. congruence. }
  apply open_vault_inv in Hvo as [_ Hh]. apply sbind_inv in Hf as (removed & s5 & Hr & [= _ <-]).
  apply (handle_remove v) in Hr as (file & script & -> & Hr); [|done]. cbn [sv_db put_vault sv_vault]. rewrite Hdb4. cbn.
  destruct Hg. split; [by constructor|]. split; [done|]. split; [done|]. destruct Hr as [(e & _ & ->)|(existed & _ & Hread)]; [left; congruence|].
  right. intros k. rewrite (proj2 (Hread Hfit)). case_decide; [done|]. unfold secret_of. by rewrite Hv4, Hv.
Qed.

(** What restoring an entry wrote to the friend's row. *)
Definition restored_row (r r' : PeerRow) : Prop :=
  pr_label r' = pr_label r /\ parse_lenient ScopeAll (pr_scope r') = parse_lenient ScopeAll (pr_scope r) /\
  pr_max_size_bytes r' = pr_max_size_bytes r /\ pr_max_height r' = pr_max_height r /\
  pr_gossip_url r' = pr_gossip_url r /\ pr_revoked_at r' = None.

(** A friend survives the loss of the data directory.  Import on a new instance the
    entry another one exported for a friend, and if the import is reported as done the
    friend is there under an id of their own with the name, scope, caps and address
    they had and, if it was readable, the key they had issued; every other friend
    and every other secret of the new instance is as it was. *)
Theorem friend_restored `{U : UrlLib} `{UT : !UrlText U} `{D : Digests} `{C : VaultCipher} `{KF : KeyFiles} `{ME : MasterEnv}
    now old_id r endpoints old_vault v s vault' s' :
  UrlLaws U -> VaultCipherLaws C -> ids_issued (db_peers (sv_db s)) -> row_normal r -> handle_of s v -> vault_fits s' ->
  import_one_peer now (Some v) (import_of endpoints (Some old_vault) (row_to_peer old_id r)) s = ((Ok tt, vault'), s') ->
  exists id r', tb_rows (db_peers (sv_db s)) !! id = None /\
    tb_rows (db_peers (sv_db s')) = <[id := r']> (tb_rows (db_peers (sv_db s))) /\ restored_row r r' /\
    (forall key, vault_get old_vault (peer_gossip_key old_id) = Ok (Some key) -> key <> [] -> secret_of s' (peer_gossip_key id) = Ok (Some key)) /\
    (forall k, k <> peer_gossip_key id -> secret_of s' k = secret_of s k).
Proof.
  intros UL CL Hids [Hlabel Hurl] Hh Hfit H. unfold import_one_peer in H. apply sbind_inv in H as (key & s1 & Hk & H).
  pose proof (fresh_key_kept s) as M. unfold fresh_key in M. rewrite Hk in M. cbn in M. destruct key as [key|]; [|done].
  apply sbind_inv in H as (created & s2 & Hc & H). apply create_peer_inv in Hc as [(e & -> & _)|(name & script & Hn & -> & _ & ->)]; [done|].
  cbn [im_label import_of p_label row_to_peer] in Hn. rewrite Hlabel in Hn. injection Hn as <-. cbn [p_id row_to_peer] in H.
  destruct M as [_ [ret Hret] Hv _ _ _ _ _]. set (id := (tb_sequence (db_peers (sv_db s1)) + 1)%Z) in *.
  set (imp := import_of _ _ _) in *. set (r0 := new_row _ _ _ _) in H.
  assert (restoring id r0 s (put_db (sv_opened s1) (with_peers (mkTable (<[id:=r0]> (tb_rows (db_peers (sv_db s1)))) id) (sv_db s1)) script s1)) as Hg
    by (constructor; cbn [sv_db sv_vault put_db db_peers with_peers tb_rows]; [rewrite Hret at 1; reflexivity|exact Hv]).
  apply sbind_inv in H as (stored & s3 & Hs & H). destruct stored as [[]|]; [|done].
  apply (restored_columns id r0 s) in Hs as (r' & Hr' & Hrow); [|exact Hurl|done..].
  apply sbind_inv in H as (keyed & s4 & Hkey & H). destruct (keyed.1) as [[]|] eqn:Ekey; [|done].
  apply (restored_key id r' s s3 imp v keyed s4) in Hkey as [Hrows Hsecrets]; [|..|done|done|done].
  2: { intros k Hk'. unfold imp in Hk'. cbn in Hk'. destruct (vault_get _ _) as [[k'|]|] eqn:Eg; try done. injection Hk' as <-. by eapply vault_get_utf8. }
  apply sbind_inv in H as (seen & s5 & Ha & [= -> _ <-]).
  apply restored_address in Ha as [Hrows5 Hv5].
  exists id, r'. split; [|split; [congruence|]].
  { destruct (tb_rows (db_peers (sv_db s)) !! id) as [x|] eqn:E; [|done]. specialize (Hids _ (ex_intro _ x E)).
    unfold id in Hids. rewrite Hret in Hids. cbn in Hids. lia. }
  assert (vault_fits s4) as Hfit4 by (unfold vault_fits in *; by rewrite Hv5 in Hfit).
  destruct (Hsecrets Hfit4) as [Hs1 Hs2]. split; [|split].
  - destruct Hrow as (Hl & Hsc & Hrv & H1 & H2 & H3). split; [done|]. split; [|by split_and!].
    rewrite Hsc. unfold r0, new_row, imp, import_of, row_to_peer. cbn [pr_scope im_scope p_scope].
    generalize (parse_lenient ScopeAll (pr_scope r)). by intros [].
  - intros k Hk' Hne. unfold secret_of. rewrite Hv5. apply Hs1; [|done].
    unfold imp, import_of, row_to_peer. cbn [im_gossip_key p_id mbind option_bind]. by rewrite Hk'.
  - intros k Hk'. unfold secret_of at 1. rewrite Hv5. by apply Hs2.
Qed.

(** ** Witnesses *)

Definition plain_serve (db : Db) : @Serve text_urls := sample_serve (None, None) db ∅.

Lemma serve_ids_issued : ids_issued (db_peers serve_db).
Proof.
  intros id [r Hr]. change (({[ 1%Z := friend_row ]} : gmap Z PeerRow) !! id = Some r) in Hr.
  apply lookup_singleton_Some in Hr as [<- _]. done.
Qed.

Lemma added_key_opens_feed_witness :
  let run := @peers_add text_urls sample_codec toy_signing prefix_digests hex_decoders toy_cipher no_key_files sample_env
               500 (bs " Ben ") ScopeTv (plain_serve serve_db) in
  exists revealed, run.1 = FriendsPage (Some revealed) None /\ rv_label revealed = bs "Ben" /\
    exists friend, (@peer_by_key prefix_digests key_order (rv_key revealed) (sv_db run.2, mkScript [] [] [])).1 = Ok (Some friend) /\ p_id friend = 2%Z.
Proof.
  intros run. destruct run as [answer s'] eqn:E. assert (run.1 = answer) as Ha by (by rewrite E).
  destruct answer as [| | |revealed paired]; [vm_compute in Ha; discriminate Ha..|].
  assert (match run.1 with FriendsPage (Some r) None => Some (rv_id r, rv_label r) | _ => None end = Some (2%Z, bs "Ben")) as Hr by (vm_compute; reflexivity).
  rewrite Ha in Hr. destruct revealed as [revealed|]; [|discriminate Hr]. destruct paired; [discriminate Hr|]. injection Hr as Hid Hl.
  destruct (@added_key_opens_feed text_urls sample_codec toy_signatures toy_signing prefix_digests hex_decoders toy_cipher no_key_files sample_env key_order
    500 (bs " Ben ") ScopeTv (plain_serve serve_db) revealed s' key_order_laws serve_ids_issued E) as (_ & _ & friend & Hf & Hi & _).
  exists revealed. split; [reflexivity|]. split; [exact Hl|]. exists friend. split; [exact Hf|]. congruence.
Defined.

Lemma serve_rows_owned : rows_owned serve_db.
Proof. intros id Hid. by constructor. Qed.

(** Deleting the friend whose key is in the vault. *)
Definition keyed_serve : @Serve text_urls := put_vault (Some keyed_vault) (sv_script (plain_serve serve_db)) (plain_serve serve_db).

Lemma deleted_friend_is_gone_witness :
  let run := @peers_delete text_urls toy_cipher no_key_files sample_env 1 keyed_serve in
  run.1 = FriendsRedirect /\ forgotten 1 (sv_db run.2) /\
  @secret_of text_urls toy_cipher no_key_files sample_env keyed_serve (peer_gossip_key 1) = Ok (Some (bs "abc")) /\
  @secret_of text_urls toy_cipher no_key_files sample_env run.2 (peer_gossip_key 1) = Ok None.
Proof.
  intros run. assert (run.1 = FriendsRedirect) as Ha by (vm_compute; reflexivity). split; [exact Ha|].
  destruct run as [answer s'] eqn:E. cbn [fst] in Ha. subst answer. assert (s' = run.2) as Hs by (by rewrite E).
  assert (vault_fits s') as Hfit by (rewrite Hs; vm_compute; discriminate).
  destruct (@deleted_friend_is_gone text_urls toy_cipher no_key_files sample_env 1 keyed_serve s' toy_cipher_laws serve_rows_owned Hfit E) as (Hg & _ & _ & Hv).
  split; [exact Hg|]. split; [by vm_compute|]. rewrite Hs. by vm_compute.
Defined.

(** The friend of the instance that was lost, and an instance with nobody in it. *)
Definition lost_row : PeerRow := put_limits (Some 5%Z) (Some 1080%Z) (put_scope (bs "tv") (put_gossip_url (Some (bs "http://sam")) friend_row)).
Definition lost_vault : Vault := match parse keyed_vault with Ok p => mkVault [] p.1 (bs "k" ++ sample_salt) p.2 | Err _ => mkVault [] [] [] [] end.
Definition empty_serve : @Serve text_urls :=
  let s := plain_serve (with_peers tb_empty serve_db) in put_vault (Some empty_vault_file) (sv_script s) s.
Definition empty_handle : Vault := mkVault (bs "/data/vault.bin") sample_salt (bs "k" ++ sample_salt) [].

Lemma friend_restored_witness :
  let run := @import_one_peer text_urls plain_url_text prefix_digests toy_cipher 700 (Some empty_handle)
               (@import_of toy_cipher (fun _ => []) (Some lost_vault) (row_to_peer 1 lost_row)) empty_serve in
  run.1.1 = Ok tt /\ exists id r', tb_rows (db_peers (sv_db run.2)) !! id = Some r' /\ pr_max_height r' = Some 1080%Z /\
    @secret_of text_urls toy_cipher no_key_files sample_env run.2 (peer_gossip_key id) = Ok (Some (bs "abc")).
Proof.
  intros run. assert (run.1.1 = Ok tt) as Ha by (vm_compute; reflexivity). split; [exact Ha|].
  destruct run as [[answer vault'] s'] eqn:E. cbn [fst] in Ha. subst answer. assert (s' = run.2) as Hs by (by rewrite E).
  destruct (@friend_restored text_urls plain_url_text prefix_digests toy_cipher no_key_files sample_env 700 1 lost_row (fun _ => []) lost_vault empty_handle
    empty_serve vault' s' text_urls_laws toy_cipher_laws) as (id & r' & _ & Hrows & (_ & _ & _ & Hh & _) & Hkey & _).
  - intros i [x Hx]. done.
  - split; [by vm_compute|]. intros url [= <-]. split; [done|]. split; [by vm_compute|]. eexists. reflexivity.
  - exists (bs "k"). split; [reflexivity|]. constructor; [reflexivity|by vm_compute|done].
  - rewrite Hs. vm_compute. discriminate.
  - exact E.
  - exists id, r'. cbn [snd]. rewrite Hrows. split; [apply lookup_insert_eq|]. split; [exact Hh|]. apply Hkey; [by vm_compute|done].
Defined.

(** ** Two instances *)

(** Ann adds Ben and sends him the invite; he pastes it, and his instance returns his
    side to hers, which the routes of the first half answer. *)
Definition ann : FriendsAnswer * @Serve text_urls :=
  @peers_add text_urls sample_codec toy_signing prefix_digests hex_decoders toy_cipher no_key_files sample_env 500 (bs "Ben") ScopeAll (plain_serve serve_db).

Definition ann_invite : bytes := match ann.1 with FriendsPage (Some revealed) _ => rv_invite revealed | _ => [] end.

Definition ann_server : PairServers := fun url key request =>
  let '(caller, s) := check_api_key (U := text_urls) (D := prefix_digests) (RO := key_order) (C := toy_cipher) (KF := no_key_files) (ME := sample_env) 510 (Some key) None ann.2 in
  Ok (match caller with
      | Err refusal => rp_status refusal
      | Ok caller =>
          pair_status (@pair text_urls plain_url_text toy_signatures toy_signing hex_decoders toy_cipher no_key_files sample_env key_order 510 caller request s).1
      end, []).

Definition ben : FriendsAnswer * @Serve text_urls :=
  @peers_pair text_urls plain_url_text sample_codec ann_server toy_signatures toy_signing prefix_digests hex_decoders toy_cipher no_key_files sample_env key_order
    505 (mkPairForm (ann_invite ++ [x0a]) (bs "Ann") ScopeAll) (plain_serve serve_db).

(** The exchange ends with both halves filled: Ben is told that Ann has his side, and
    his row for her holds her address and, in his vault, the key she issued. *)
Example two_instances_pair :
  ben.1 = FriendsPage None (Some (mkPaired (bs "Ann") None)) /\
  (pr_gossip_url <$> tb_rows (db_peers (sv_db ben.2)) !! 2%Z) = Some (Some (bs "http://a")) /\
  @secret_of text_urls toy_cipher no_key_files sample_env ben.2 (peer_gossip_key 2) =
    Ok (match ann.1 with FriendsPage (Some revealed) _ => Some (rv_key revealed) | _ => None end).
Proof. vm_compute. split_and!; reflexivity. Qed.

(** ** Departures from the documentation *)

(** A key that could not be stored leaves behind the friend that was just added: the
    key minted for them is never shown, and pasting the invite again is refused, as
    the name is taken. *)
Example failed_paste_leaves_friend :
  let failing := mkScript (replicate 9 true ++ [false]) (replicate 600 x2a) (bs "disk full") in
  let form := mkPairForm ann_invite (bs "Ann") ScopeAll in
  let paste := @peers_pair text_urls plain_url_text sample_codec ann_server toy_signatures toy_signing prefix_digests hex_decoders toy_cipher
                 no_key_files sample_env key_order 505 form in
  let first := paste (put_db true serve_db failing (plain_serve serve_db)) in
  let second := paste first.2 in
  (exists e, first.1 = FriendsRejected (NotApplied (KeyNotStored e))) /\ second.1 = FriendsRejected (AlreadyFriend (bs "Ann")).
Proof. vm_compute. eauto. Qed.
