(* ===== verification/Alerts.v ===== *)
(** * Watching and telling (the loop of commands/serve.rs, and notify.rs)

    The background loop that keeps the process ready and runs passes, the digests a pass
    is told by, the watch over friends who fell silent and over the tracker's own
    address, and the request each kind of webhook is sent.  The pass is the one of the
    reconciliation loop; here it is any computation, along with what other tasks do
    while it runs.  The query part of the [url] crate is a parameter. *)

From Stdlib Require Import Sorted.
From S2P Require Import Prelude RustStd Text BTreeMap Bencode Metainfo Net Endpoint TrackerUrl Announce Model Paths Factory Title Lighthouse FileTree Totp Effects Accounts WebAccess SignIn Database Items Peers History Sightings Client Seeder Sync Vault Serve Gluetun TrackerRoutes Torznab Gossip Exchange Pairing Friends.

(** ** Digests *)

(** What has been told already, so that a lasting condition is told once. *)
Record Notified : Type := mkNotified {
  nt_library : option bytes;
  nt_interrupted : gset bytes;
  nt_changed : gset bytes
}.

Definition nothing_notified : Notified := mkNotified None ∅ ∅.

Definition DIGEST_NAMES : nat := 5.

(** The text of [fresh] over the lines it found new. *)
Definition digest_text (new : list bytes) : bytes :=
  u_to_string (N.of_nat (length new)) ++ bs " torrent(s): " ++ join (bs ", ") (take DIGEST_NAMES new) ++
  (if (DIGEST_NAMES <? length new)%nat then bs " and " ++ u_to_string (N.of_nat (length new - DIGEST_NAMES)) ++ bs " more" else []).

(** [fresh]: the digest of what is not in [seen], and the set that replaces it. *)
Definition fresh_digest (seen : gset bytes) (flagged : list (Flagged * bytes)) : option bytes * gset bytes :=
  let new := map (fun fw => fl_title fw.1 ++ bs " (" ++ fw.2 ++ bs ")") (filter (fun fw => fl_hash fw.1 ∉ seen) flagged) in
  (if is_nonempty new then Some (digest_text new) else None, list_to_set (map (fun fw => fl_hash fw.1) flagged)).

Section Passes.
Context `{U : UrlLib} `{C : VaultCipher} `{KF : KeyFiles} `{ME : MasterEnv}.

Definition interrupted_of (report : SyncReport) : list (Flagged * bytes) :=
  map (fun f => (f, bs "stopped in the client")) (sr_stopped report) ++
  map (fun f => (f, bs "gone from the client, added back")) (sr_removed report).

Definition changed_of (report : SyncReport) : list (Flagged * bytes) :=
  map (fun f => (f, bs "changed on disk")) (sr_changed report).

Definition interrupted_text (message : bytes) : bytes :=
  message ++ bs " — friends cannot download from a torrent that is not seeding".

Definition changed_text (message : bytes) : bytes :=
  message ++ bs " since its torrent was built — friends' downloads will fail the piece checks; Force rebuild on the item page builds a new one".

Definition notify_sync_report (report : SyncReport) (notified : Notified) : ServeM Notified :=
  let! library :=
    match sr_library_unreadable report with
    | Some reason =>
        if bool_decide (nt_library notified <> Some reason) then
          let! sent := send LibraryUnreadable reason in sret (Some reason)
        else sret (nt_library notified)
    | None => sret None
    end in
  let interrupted := fresh_digest (nt_interrupted notified) (interrupted_of report) in
  let! sent := match interrupted.1 with Some message => send TorrentInterrupted (interrupted_text message) | None => sret tt end in
  let changed := fresh_digest (nt_changed notified) (changed_of report) in
  let! sent := match changed.1 with Some message => send FileChanged (changed_text message) | None => sret tt end in
  let! sent := if (0 <? sr_added report)%nat then send ItemsShared (u_to_string (N.of_nat (sr_added report)) ++ bs " item(s) newly shared") else sret tt in
  let! sent :=
    if (0 <? sr_failed report)%nat then
      send ItemFailed (u_to_string (N.of_nat (sr_failed report)) ++ bs " item(s) failed to share this pass — see the items page for details")
    else sret tt in
  sret (mkNotified library interrupted.2 changed.2).

(** What the loop does with the outcome of a pass. *)
Definition after_pass (outcome : result SyncReport bytes) (notified : Notified) : ServeM Notified :=
  match outcome with
  | Ok report => let! noted := note_sync_success in notify_sync_report report notified
  | Err reason =>
      let! sent := send SyncFailed reason in
      let! noted := note_sync_failure in sret notified
  end.

End Passes.

(** ** The background loop *)

Record SyncConfig : Type := mkSyncConfig { sy_enabled : bool; sy_interval_secs : N }.

Definition MIN_INTERVAL_SECS : N := 60.
Definition effective_interval_secs (c : SyncConfig) : N := N.max (sy_interval_secs c) MIN_INTERVAL_SECS.

(** The process with what else the loop keeps: whether there is a syncer, and if not
    why; whether a pass was asked for; what has been told. *)
Record Loop `{U : UrlLib} : Type := mkLoop {
  lp_serve : Serve;
  lp_syncer : result unit bytes;
  lp_requested : bool;
  lp_config_error : option bytes;
  lp_config_path : bytes;
  lp_sync : SyncConfig;
  lp_notified : Notified
}.

Section Background.
Context `{U : UrlLib} `{C : VaultCipher} `{KF : KeyFiles} `{ME : MasterEnv}.

Definition in_serve {A : Type} (m : ServeM A) : St Loop A :=
  focus lp_serve (fun s l => mkLoop U s (lp_syncer l) (lp_requested l) (lp_config_error l) (lp_config_path l) (lp_sync l) (lp_notified l)) m.

Definition put_syncer (syncer : result unit bytes) : St Loop unit :=
  smodify (fun l => mkLoop U (lp_serve l) syncer (lp_requested l) (lp_config_error l) (lp_config_path l) (lp_sync l) (lp_notified l)).

Definition put_notified (notified : Notified) : St Loop unit :=
  smodify (fun l => mkLoop U (lp_serve l) (lp_syncer l) (lp_requested l) (lp_config_error l) (lp_config_path l) (lp_sync l) notified).

Definition put_requested (requested : bool) : St Loop unit :=
  smodify (fun l => mkLoop U (lp_serve l) (lp_syncer l) requested (lp_config_error l) (lp_config_path l) (lp_sync l) (lp_notified l)).

Definition request_pass : St Loop unit := put_requested true.

Definition take_pass_request : St Loop bool :=
  let! requested := sgets lp_requested in
  let! cleared := put_requested false in sret requested.

Definition put_recovery (failures : N -> N) : St Loop unit :=
  in_serve (smodify (fun s => put_failures (failures (sv_recovery_failures s)) (sv_sync_failures s) s)).

(** [fetch_add(1)] on the counter. *)
Definition count_up (failures : N) : N := ((failures + 1) mod (u32_max + 1))%N.

(** [ServeState::ensure_ready], for what [Syncer::build_with_store] does. *)
Definition ensure_ready (build : St Loop (result unit bytes)) : St Loop bool :=
  let! syncer := sgets lp_syncer in
  match syncer with
  | Ok _ => sret true
  | Err _ =>
      let! config_error := sgets lp_config_error in
      match config_error with
      | Some reason =>
          let! path := sgets lp_config_path in
          let! put := put_syncer (Err (path ++ bs ": " ++ reason)) in
          let! counted := put_recovery count_up in sret false
      | None =>
          let! built := build in
          match built with
          | Ok _ =>
              let! put := put_syncer (Ok tt) in
              let! cleared := put_recovery (fun _ => 0%N) in sret true
          | Err reason =>
              let! counted := put_recovery count_up in
              let! put := put_syncer (Err reason) in sret false
          end
      end
  end.

(** What a turn of the loop came to. *)
Inductive Turn : Type := TurnUnready | TurnIdle | TurnPassed | TurnFailed (reason : bytes).

(** One turn of [background], and how long it sleeps then (or is woken). *)
Definition background_turn (build : St Loop (result unit bytes)) (pass : St Loop (result SyncReport bytes)) : St Loop (Turn * Z) :=
  let! ready := ensure_ready build in
  if ready : bool then
    let! sync := sgets lp_sync in
    let! requested := take_pass_request in
    if negb (sy_enabled sync) && negb requested then
      let! delay := in_serve recovery_delay in sret (TurnIdle, delay)
    else
      let! outcome := pass in
      let! notified := sgets lp_notified in
      let! told := in_serve (after_pass outcome notified) in
      let! kept := put_notified told in
      let! delay := in_serve (sync_retry_delay (Z.of_N (effective_interval_secs sync) * SEC)) in
      sret (match outcome with Ok _ => TurnPassed | Err reason => TurnFailed reason end, delay)
  else
    let! delay := in_serve recovery_delay in sret (TurnUnready, delay).

End Background.

(** ** Friends who fell silent *)

Abbreviation QuietNotified := (gmap Z Z).

(** [should_notify]: whether this silence is news, which it then no longer is. *)
Definition should_notify (notified : QuietNotified) (peer_id last_seen_at : Z) : bool * QuietNotified :=
  (bool_decide (notified !! peer_id <> Some last_seen_at), <[peer_id := last_seen_at]> notified).

Section Quiet.
Context `{U : UrlLib} `{C : VaultCipher} `{KF : KeyFiles} `{ME : MasterEnv} `{RO : RowOrder}.

(** [webhook]: the address and the kind notifications go out as. *)
Definition webhook : ServeM (option (Url * NotifyKind)) :=
  let! url := background_url in
  match url with
  | None => sret None
  | Some url => let! kind := sgets (fun s => cf_notify_kind (sv_config s)) in sret (Some (url, kind))
  end.

(** [Webhook::post]. *)
Definition webhook_post (hook : Url * NotifyKind) (event message : bytes) : ServeM unit :=
  smodify (fun s => put_posted (sv_posted s ++ [mkPost (url_as_str hook.1) hook.2 event message]) s).

Definition quiet_text (now : Z) (peer : Peer) (last_seen : Z) : bytes :=
  p_label peer ++ bs " has not been seen since " ++ ago now last_seen.

(** One friend of the loop of [check_quiet_peers]. *)
Definition quiet_step (now threshold : Z) (hook : Url * NotifyKind) (notified : QuietNotified) (peer : Peer) : ServeM QuietNotified :=
  match p_last_seen_at peer with
  | None => sret notified
  | Some last_seen =>
      if (now - last_seen <? threshold)%Z then sret notified
      else
        let '(news, notified) := should_notify notified (p_id peer) last_seen in
        if news : bool then
          let! posted := webhook_post hook (trigger_label PeerQuiet) (quiet_text now peer last_seen) in sret notified
        else sret notified
  end.

(** [check_quiet_peers], with [notifications.peer_quiet_secs] and the clock. *)
Definition check_quiet_peers (describe_store : StoreError -> bytes) (now : Z) (peer_quiet_secs : N) (notified : QuietNotified) :
    ServeM (result unit bytes * QuietNotified) :=
  let! enabled := trigger_enabled PeerQuiet in
  if (peer_quiet_secs =? 0)%N || negb enabled then sret (Ok tt, notified)
  else
    let! hook := webhook in
    match hook with
    | None => sret (Ok tt, notified)
    | Some hook =>
        let! opened := store in
        match opened with
        | Err reason => sret (Err reason, notified)
        | Ok _ =>
            let! peers := on_store active_peers in
            match peers with
            | Err err => sret (Err (describe_store err), notified)
            | Ok peers =>
                let! notified := sfold (quiet_step now (saturating_i64 peer_quiet_secs) hook) peers notified in
                sret (Ok tt, notified)
            end
        end
    end.

End Quiet.

(** ** The tracker's own address *)

Inductive ReachOutcome : Type := NotConfigured | Unusable (reason : bytes) | Reachable | Refused (reason : bytes) | TimedOut.

Definition is_reachable (o : ReachOutcome) : bool := match o with Reachable => true | _ => false end.

(** [ReachWatch::observe]: whether the last dial succeeded is all that is kept. *)
Definition reach_observe (base : bytes) (outcome : ReachOutcome) (was_reachable : bool) : option bytes * bool :=
  let reachable := is_reachable outcome in
  (if was_reachable && negb reachable then
     match outcome with
     | Refused reason => Some (base ++ bs " stopped accepting connections (" ++ reason ++ bs ")")
     | TimedOut => Some (base ++ bs " stopped accepting connections (timed out)")
     | NotConfigured => Some (bs "the advertised tracker address is no longer configured")
     | Unusable reason => Some (bs "the advertised tracker address became unusable (" ++ reason ++ bs ")")
     | Reachable => None
     end
   else None, reachable).

Section Reach.
Context `{U : UrlLib} `{C : VaultCipher} `{KF : KeyFiles} `{ME : MasterEnv}.

(** One turn of [reachability_loop], for what dialling the address gives. *)
Definition reachability_turn (reachability : bool) (dial : option Url -> ReachOutcome) (was_reachable : bool) : ServeM bool :=
  let! trigger := trigger_enabled TrackerUnreachable in
  if reachability && trigger then
    let! base := sgets (fun s => current (sv_endpoint s)) in
    let '(message, reachable) := reach_observe (default [] (url_as_str <$> base)) (dial base) was_reachable in
    let! sent := match message with Some message => send TrackerUnreachable message | None => sret tt end in
    sret reachable
  else sret was_reachable.

End Reach.

(** ** What a webhook is sent *)

(** [Url::query_pairs], and [set_query(None)] followed by [extend_pairs]. *)
Class UrlQuery (U : UrlLib) : Type := {
  query_pairs : Url -> list (bytes * bytes);
  with_query : list (bytes * bytes) -> Url -> Url
}.

(** Pairs that were written are read back. *)
Definition UrlQueryLaw (U : UrlLib) (UQ : UrlQuery U) : Prop := forall pairs u, query_pairs (with_query pairs u) = pairs.

(** [rsplit_once] on a byte. *)
Definition rsplit_once (c : byte) (s : bytes) : option (bytes * bytes) :=
  match split_once (is_byte c) (reverse s) with
  | Some (after, before) => Some (reverse before, reverse after)
  | None => None
  end.

Definition notify_kind_str (kind : NotifyKind) : bytes :=
  match kind with
  | Generic => bs "generic" | Discord => bs "discord" | Apprise => bs "apprise" | Ntfy => bs "ntfy"
  | Gotify => bs "gotify" | Telegram => bs "telegram" | Pushover => bs "pushover"
  end.

Section Requests.
Context `{U : UrlLib} `{UP : !UrlParts U} `{UQ : !UrlQuery U}.

(** [take_params]: a name given twice keeps its last value. *)
Definition take_params (url : Url) (names : list bytes) : result (Url * gmap bytes bytes) bytes :=
  let taken := fold_left (fun (m : gmap bytes bytes) (kv : bytes * bytes) => if bool_decide (kv.1 ∈ names) then <[kv.1 := kv.2]> m else m) (query_pairs url) ∅ in
  let kept := filter (fun kv => kv.1 ∉ names) (query_pairs url) in
  match List.find (fun name => bool_decide (taken !! name = None)) names with
  | Some missing => Err (bs "the URL has no " ++ missing ++ bs "= parameter")
  | None => Ok (with_query kept url, taken)
  end.

(** [Webhook::request]: where to post and the fields of the object posted. *)
Definition webhook_request (kind : NotifyKind) (url : Url) (event message : bytes) : result (Url * gmap bytes bytes) bytes :=
  let title := bs "sharerr — " ++ event in
  match kind with
  | Generic => Ok (url, {[ bs "event" := event; bs "message" := message ]})
  | Discord => Ok (url, {[ bs "content" := bs "**sharerr** — " ++ event ++ [x0a] ++ message ]})
  | Apprise => Ok (url, {[ bs "title" := title; bs "body" := message ]})
  | Ntfy =>
      let path := trim_end_matches "/"%byte (url_path url) in
      let '(parent, topic) := default ([], path) (rsplit_once "/"%byte path) in
      if is_nonempty topic then
        Ok (url_set_path (parent ++ bs "/") url, {[ bs "topic" := topic; bs "title" := title; bs "message" := message ]})
      else Err (bs "the ntfy URL names no topic")
  | Gotify => Ok (url, {[ bs "title" := title; bs "message" := message ]})
  | Telegram =>
      let? taken := take_params url [bs "chat_id"] in
      Ok (taken.1, <[bs "text" := title ++ [x0a] ++ message]> taken.2)
  | Pushover =>
      let? taken := take_params url [bs "token"; bs "user"] in
      Ok (taken.1, <[bs "message" := message]> (<[bs "title" := title]> taken.2))
  end.

(** [Webhook::try_post]; [answer] is the status the endpoint gives, or why none. *)
Definition try_post (answer : Url -> gmap bytes bytes -> result N bytes) (status_text : N -> bytes) (kind : NotifyKind) (url : Url)
    (event message : bytes) : result N bytes :=
  let? request := webhook_request kind url event message in
  match answer request.1 request.2 with
  | Ok status =>
      if (200 <=? status)%N && (status <? 300)%N then Ok status
      else Err (bs "the webhook responded with " ++ status_text status)
  | Err err => Err (bs "could not reach the webhook: " ++ err)
  end.

End Requests.

Section Test.
Context `{U : UrlLib} `{UP : !UrlParts U} `{UQ : !UrlQuery U} `{C : VaultCipher} `{KF : KeyFiles} `{ME : MasterEnv}.

Inductive StoredUrlError : Type := SuVault (err : bytes) | SuUnreadable (err : VaultError) | SuAbsent | SuInvalid.

Definition stored_url (key : bytes) : ServeM (result Url StoredUrlError) :=
  let! opened := open_vault in
  sret (let? vault := rmap_err SuVault opened in
        let? configured := rmap_err SuUnreadable (vault_get vault key) in
        match configured with
        | None => Err SuAbsent
        | Some raw => rmap_err (fun _ => SuInvalid) (url_parse raw)
        end).

Definition describe_stored_url (describe_vault : VaultError -> bytes) (err : StoredUrlError) : bytes :=
  match err with
  | SuVault err => bs "The vault could not be opened: " ++ err
  | SuUnreadable err => bs "The stored webhook URL could not be read: " ++ describe_vault err
  | SuAbsent => bs "No webhook URL is stored. Save one first."
  | SuInvalid => bs "The stored webhook URL is not a valid URL."
  end.

(** [send_test]: the sentence shown, of success or failure. *)
Definition send_test (describe_vault : VaultError -> bytes) (status_text : N -> bytes) (answer : Url -> gmap bytes bytes -> result N bytes) :
    ServeM (result bytes bytes) :=
  let! url := stored_url NOTIFICATIONS_WEBHOOK_URL in
  let! kind := sgets (fun s => cf_notify_kind (sv_config s)) in
  sret (let? url := rmap_err (describe_stored_url describe_vault) url in
        let? status := rmap_err (fun reason => bs "Not sent: " ++ reason ++ bs ".")
            (try_post answer status_text kind url (bs "test") (bs "A test notification from the Settings page.")) in
        Ok (bs "Sent. The " ++ notify_kind_str kind ++ bs " endpoint answered " ++ status_text status ++ bs ".")).

End Test.

(** ** Facts: telling *)

(** The webhook's address is known to the process. *)
Definition hooked `{U : UrlLib} (s : Serve) (url : Url) : Prop :=
  exists raw, vc_webhook_url (sv_caches s) = Some (Some raw) /\ url_parse raw = Ok url.

(** The posts a list of alerts amounts to: those whose trigger is ticked, in order. *)
Definition delivered `{U : UrlLib} (s : Serve) (url : Url) (alerts : list (NotificationTrigger * bytes)) : list Post :=
  map (fun tm => mkPost (url_as_str url) (cf_notify_kind (sv_config s)) (trigger_label tm.1) tm.2)
    (filter (fun tm => tm.1 ∈ cf_triggers (sv_config s)) alerts).

(** The lines of [now] whose torrent was not flagged [before]. *)
Definition newly (before now : list (Flagged * bytes)) : list bytes :=
  map (fun fw => fl_title fw.1 ++ bs " (" ++ fw.2 ++ bs ")")
    (filter (fun fw => fl_hash fw.1 ∉ map (fun fw => fl_hash fw.1) before) now).

(** What is worth telling of a report, given the one before it: a library unreadable for
    another reason, torrents interrupted or files changed that were not before, and the
    counts of what was shared and what failed. *)
Definition differences (before : option SyncReport) (report : SyncReport) : list (NotificationTrigger * bytes) :=
  let interrupted := newly (from_option interrupted_of [] before) (interrupted_of report) in
  let changed := newly (from_option changed_of [] before) (changed_of report) in
  match sr_library_unreadable report with
  | Some reason => if bool_decide (before ≫= sr_library_unreadable = Some reason) then [] else [(LibraryUnreadable, reason)]
  | None => []
  end ++
  (if is_nonempty interrupted then [(TorrentInterrupted, interrupted_text (digest_text interrupted))] else []) ++
  (if is_nonempty changed then [(FileChanged, changed_text (digest_text changed))] else []) ++
  (if (0 <? sr_added report)%nat then [(ItemsShared, u_to_string (N.of_nat (sr_added report)) ++ bs " item(s) newly shared")] else []) ++
  (if (0 <? sr_failed report)%nat then
     [(ItemFailed, u_to_string (N.of_nat (sr_failed report)) ++ bs " item(s) failed to share this pass — see the items page for details")]
   else []).

(** The alerts of a run of passes, each compared with the last one that completed. *)
Fixpoint alerts_of (before : option SyncReport) (outcomes : list (result SyncReport bytes)) : list (NotificationTrigger * bytes) :=
  match outcomes with
  | [] => []
  | Ok report :: outcomes => differences before report ++ alerts_of (Some report) outcomes
  | Err reason :: outcomes => (SyncFailed, reason) :: alerts_of before outcomes
  end.

Section DigestFacts.
Context `{U : UrlLib} `{C : VaultCipher} `{KF : KeyFiles} `{ME : MasterEnv}.

(** All that is told is told by appending to what was posted. *)
Definition tells {A : Type} (m : ServeM A) (a : A) (alerts : list (NotificationTrigger * bytes)) : Prop :=
  forall s url, hooked s url -> m s = (a, put_posted (sv_posted s ++ delivered s url alerts) s).

Lemma delivered_app s url xs ys : delivered s url (xs ++ ys) = delivered s url xs ++ delivered s url ys.
Proof. unfold delivered. by rewrite filter_app, map_app. Qed.

Lemma put_posted_id (s : Serve) : put_posted (sv_posted s) s = s.
Proof. by destruct s. Qed.

Lemma tells_ret {A : Type} (a : A) : tells (sret a) a [].
Proof. intros s url _. unfold delivered. cbn. by rewrite app_nil_r, put_posted_id. Qed.

Lemma tells_bind {A B : Type} (m : ServeM A) (k : A -> ServeM B) a b xs ys :
  tells m a xs -> tells (k a) b ys -> tells (sbind m k) b (xs ++ ys).
Proof.
  intros Hm Hk s url Hs. unfold sbind. rewrite (Hm s url Hs), (Hk _ url); [|exact Hs].
  rewrite delivered_app, app_assoc. done.
Qed.

Lemma tells_send t message : tells (send t message) tt [(t, message)].
Proof.
  intros s url (raw & Hc & Hp). unfold send, trigger_enabled, sgets, delivered. unfold sbind at 1. rewrite filter_cons. cbn [fst snd].
  case_decide as Ht; [rewrite bool_decide_true by done|rewrite bool_decide_false by done].
  - unfold background_url, notification_url, cached_from_vault, try_cached_from_vault, sbind, sgets. cbn. rewrite Hc. cbn. by rewrite Hp.
  - cbn. by rewrite app_nil_r, put_posted_id.
Qed.

(** A digest told, if there is one. *)
Lemma tells_digest t (text : bytes -> bytes) (before now : list (Flagged * bytes)) :
  let digest := fresh_digest (list_to_set (map (fun fw => fl_hash fw.1) before)) now in
  let new := newly before now in
  tells (match digest.1 with Some message => send t (text message) | None => sret tt end) tt
    (if is_nonempty new then [(t, text (digest_text new))] else []).
Proof.
  intros digest new. subst digest. unfold fresh_digest. cbn [fst].
  assert (map (fun fw => fl_title fw.1 ++ bs " (" ++ fw.2 ++ bs ")")
      (filter (fun fw : Flagged * bytes => fl_hash fw.1 ∉ (list_to_set (map (fun fw : Flagged * bytes => fl_hash fw.1) before) : gset bytes)) now) = new) as ->.
  { unfold new, newly. f_equal. apply list_filter_iff. intros fw. by rewrite elem_of_list_to_set. }
  destruct (is_nonempty new); [apply tells_send|apply tells_ret].
Qed.

Lemma tells_if (b : bool) t message : tells (if b then send t message else sret tt) tt (if b then [(t, message)] else []).
Proof. destruct b; [apply tells_send|apply tells_ret]. Qed.

(** What the loop remembers of the last completed pass. *)
Definition remembers (before : option SyncReport) : Notified :=
  mkNotified (before ≫= sr_library_unreadable)
    (list_to_set (map (fun fw => fl_hash fw.1) (from_option interrupted_of [] before)))
    (list_to_set (map (fun fw => fl_hash fw.1) (from_option changed_of [] before))).

Lemma tells_report before report : tells (notify_sync_report report (remembers before)) (remembers (Some report)) (differences before report).
Proof.
  unfold notify_sync_report, differences. eapply tells_bind.
  { instantiate (1 := sr_library_unreadable report). cbn [remembers nt_library].
    destruct (sr_library_unreadable report) as [reason|]; [|apply tells_ret].
    destruct (decide (before ≫= sr_library_unreadable = Some reason)) as [E|E].
    - rewrite bool_decide_false, bool_decide_true by naive_solver. rewrite E. apply tells_ret.
    - rewrite bool_decide_true, bool_decide_false by done. eapply (tells_bind _ _ _ _ [_] []); [apply tells_send|apply tells_ret]. }
  eapply tells_bind; [apply tells_digest|]. eapply tells_bind; [apply tells_digest|].
  eapply tells_bind; [apply tells_if|]. rewrite <- (app_nil_r (if (0 <? sr_failed report)%nat then _ else _)).
  eapply tells_bind; [apply tells_if|apply tells_ret].
Qed.

End DigestFacts.

Section DigestTheorem.
Context `{U : UrlLib} `{C : VaultCipher} `{KF : KeyFiles} `{ME : MasterEnv}.

Lemma put_failures_told r f (posted : list Post) (s : Serve) : put_failures r f (put_posted posted s) = put_posted posted (put_failures r f s).
Proof. done. Qed.

(** What is posted and kept by one outcome. *)
Lemma after_pass_told before outcome s url :
  hooked s url ->
  let '(told, s') := after_pass outcome (remembers before) s in
  told = remembers (match outcome with Ok report => Some report | Err _ => before end) /\
  sv_posted s' = sv_posted s ++ delivered s url (match outcome with Ok report => differences before report | Err reason => [(SyncFailed, reason)] end) /\
  sv_config s' = sv_config s /\ sv_caches s' = sv_caches s.
Proof.
  intros H. destruct outcome as [report|reason]; unfold after_pass, sbind, note_sync_success, note_sync_failure, smodify.
  - rewrite (tells_report before report _ url); [|exact H]. done.
  - rewrite (tells_send SyncFailed reason s url H). done.
Qed.

(** Telling only what changed.  The digests of a run of passes are those of comparing
    each report with the last completed one before it, and nothing else is posted: a lasting
    condition is told once, and again only after a pass without it; a failed pass is always
    told and forgets nothing. *)
Theorem digests_compare_reports (outcomes : list (result SyncReport bytes)) (s : Serve) (url : Url) :
  hooked s url ->
  sv_posted (sfold (fun notified outcome => after_pass outcome notified) outcomes nothing_notified s).2 =
  sv_posted s ++ delivered s url (alerts_of None outcomes).
Proof.
  intros H. change nothing_notified with (remembers None). generalize (@None SyncReport) as before. revert s H.
  induction outcomes as [|outcome outcomes IH]; intros s H before; [by rewrite app_nil_r|].
  cbn [sfold]. unfold sbind at 1. pose proof (after_pass_told before outcome s url H) as Ht.
  destruct (after_pass outcome (remembers before) s) as [told s']. destruct Ht as (-> & Hp & Hc & Hv).
  rewrite IH; [|unfold hooked; by rewrite Hv]. rewrite Hp, <- app_assoc. f_equal. unfold delivered. rewrite Hc, <- map_app, <- filter_app.
  by destruct outcome.
Qed.

End DigestTheorem.

(** ** Facts: silences *)

(** Since when a friend has been silent for at least [threshold]. *)
Definition silent_since (now threshold : Z) (p : Peer) : option Z :=
  last_seen ← p_last_seen_at p; if (now - last_seen <? threshold)%Z then None else Some last_seen.

(** The friends a check announces, with since when they are silent. *)
Definition announced (now threshold : Z) (notified : QuietNotified) (peers : list Peer) : list (Peer * Z) :=
  omap (fun p => last_seen ← silent_since now threshold p;
                 if bool_decide (notified !! p_id p <> Some last_seen) then Some (p, last_seen) else None) peers.

Section QuietFacts.
Context `{U : UrlLib}.

Definition quiet_post (now : Z) (hook : Url * NotifyKind) (pl : Peer * Z) : Post :=
  mkPost (url_as_str hook.1) hook.2 (trigger_label PeerQuiet) (quiet_text now pl.1 pl.2).

Lemma announced_elem now threshold notified peers p last_seen :
  (p, last_seen) ∈ announced now threshold notified peers <->
  p ∈ peers /\ silent_since now threshold p = Some last_seen /\ notified !! p_id p <> Some last_seen.
Proof.
  unfold announced. rewrite list_elem_of_omap. split.
  - intros (q & Hq & E). destruct (silent_since now threshold q) as [l|] eqn:El; [|done]. cbn in E. case_bool_decide; [|done]. by injection E as -> ->.
  - intros (Hp & Hs & Hn). exists p. split; [done|]. rewrite Hs. cbn. by rewrite bool_decide_true.
Qed.

(** Only what is remembered of the listed friends matters. *)
Lemma announced_ext now threshold n n' peers :
  (forall p, p ∈ peers -> n !! p_id p = n' !! p_id p) -> announced now threshold n peers = announced now threshold n' peers.
Proof.
  intros H. apply list_omap_ext, Forall_Forall2_diag, Forall_forall. intros p Hp. by rewrite (H p Hp).
Qed.

(** What a scan remembers: the silences it saw, and otherwise what it knew. *)
Definition scanned (now threshold : Z) (peers : list Peer) (n n' : QuietNotified) : Prop :=
  (forall p l, p ∈ peers -> silent_since now threshold p = Some l -> n' !! p_id p = Some l) /\
  (forall id, (forall p, p ∈ peers -> p_id p = id -> silent_since now threshold p = None) -> n' !! id = n !! id).

Definition quiet_next (now threshold : Z) (n : QuietNotified) (p : Peer) : QuietNotified :=
  match silent_since now threshold p with Some l => <[p_id p := l]> n | None => n end.

Lemma quiet_next_other now threshold n p id : id <> p_id p -> quiet_next now threshold n p !! id = n !! id.
Proof. intros H. unfold quiet_next. destruct (silent_since _ _ _); [|done]. by rewrite lookup_insert_ne. Qed.

Lemma quiet_step_told now threshold hook n p s :
  quiet_step now threshold hook n p s =
    (quiet_next now threshold n p, put_posted (sv_posted s ++ map (quiet_post now hook) (announced now threshold n [p])) s).
Proof.
  unfold quiet_step, quiet_next, announced, silent_since, should_notify. cbn.
  destruct (p_last_seen_at p) as [l|]; cbn; [destruct (now - l <? threshold)%Z; cbn|];
    [by rewrite app_nil_r, put_posted_id| |by rewrite app_nil_r, put_posted_id].
  case_bool_decide; cbn; [done|]. by rewrite app_nil_r, put_posted_id.
Qed.

Lemma quiet_scan_told now threshold hook peers n s :
  NoDup (map p_id peers) ->
  exists n', sfold (quiet_step now threshold hook) peers n s =
      (n', put_posted (sv_posted s ++ map (quiet_post now hook) (announced now threshold n peers)) s) /\ scanned now threshold peers n n'.
Proof.
  revert n s. induction peers as [|p peers IH]; intros n s Hnd.
  { exists n. cbn. rewrite app_nil_r, put_posted_id. split; [done|]. split; [by intros p l Hp%elem_of_nil|done]. }
  cbn [map] in Hnd. apply NoDup_cons in Hnd as [Hfresh Hnd].
  assert (forall q, q ∈ peers -> p_id q <> p_id p) as Hother.
  { intros q Hq E. apply Hfresh. rewrite <- E. by apply list_elem_of_fmap_2. }
  destruct (IH (quiet_next now threshold n p) (put_posted (sv_posted s ++ map (quiet_post now hook) (announced now threshold n [p])) s) Hnd)
    as (n' & Hrun & Hseen & Hkept).
  exists n'. split; [|split].
  - cbn [sfold]. unfold sbind. rewrite quiet_step_told, Hrun.
    rewrite (announced_ext _ _ (quiet_next now threshold n p) n) by (intros q Hq; apply quiet_next_other; by apply Hother).
    change (announced now threshold n (p :: peers)) with (announced now threshold n ([p] ++ peers)).
    unfold announced at 4. rewrite omap_app, map_app, app_assoc. done.
  - intros q l [->|Hq]%elem_of_cons Hl; [|by apply Hseen]. rewrite Hkept by naive_solver.
    unfold quiet_next. rewrite Hl. apply lookup_insert_eq.
  - intros id Hid. rewrite Hkept; [|intros q Hq; apply Hid; by right]. unfold quiet_next.
    destruct (silent_since now threshold p) as [l|] eqn:El; [|done]. rewrite lookup_insert_ne; [done|].
    intros <-. rewrite (Hid p (list_elem_of_here _ _) eq_refl) in El. done.
Qed.

End QuietFacts.

(** One check: when it ran, the configured threshold, and the process it ran in. *)
Record Tick `{U : UrlLib} : Type := mkTick { tk_now : Z; tk_secs : N; tk_serve : Serve }.

(** An active friend and when they were last seen, at a check. *)
Definition seen_at `{U : UrlLib} (t : Tick) (id last_seen : Z) : Prop :=
  exists r, tb_rows (db_peers (sv_db (tk_serve t))) !! id = Some r /\ pr_revoked_at r = None /\ pr_last_seen_at r = Some last_seen.

(** Silent for at least the threshold. *)
Definition silent_at `{U : UrlLib} (t : Tick) (id last_seen : Z) : Prop :=
  seen_at t id last_seen /\ (saturating_i64 (tk_secs t) <= tk_now t - last_seen)%Z.

(** Nobody was last seen earlier than before. *)
Definition seen_forward `{U : UrlLib} (t t' : Tick) : Prop :=
  forall id l l', seen_at t id l -> seen_at t' id l' -> (l <= l')%Z.

(** The check is switched on and what it reads can be read. *)
Definition watching `{U : UrlLib} (t : Tick) (url : Url) : Prop :=
  hooked (tk_serve t) url /\ PeerQuiet ∈ cf_triggers (sv_config (tk_serve t)) /\ tk_secs t <> 0%N /\ sv_opened (tk_serve t) = true /\
  sc_io (sv_script (tk_serve t)) = [].

Section QuietRuns.
Context `{U : UrlLib} `{C : VaultCipher} `{KF : KeyFiles} `{ME : MasterEnv} `{RO : RowOrder} (describe_store : StoreError -> bytes).

(** Checks one after the other, each in the process as other tasks left it: the process
    before and after each. *)
Fixpoint quiet_checks (ticks : list Tick) (n : QuietNotified) : list (Tick * Serve) :=
  match ticks with
  | [] => []
  | t :: ticks =>
      let '((_, n), s) := check_quiet_peers describe_store (tk_now t) (tk_secs t) n (tk_serve t) in
      (t, s) :: quiet_checks ticks n
  end.

(** What a check posted. *)
Definition tells_of (ts : Tick * Serve) (told : list (Peer * Z)) : Prop :=
  exists url, hooked (tk_serve ts.1) url /\
    sv_posted ts.2 = sv_posted (tk_serve ts.1) ++ map (quiet_post (tk_now ts.1) (url, cf_notify_kind (sv_config (tk_serve ts.1)))) told.

Context {RL : RowOrderLaws RO}.

Lemma active_listed ds peers ds' :
  active_peers ds = (Ok peers, ds') ->
  NoDup (map p_id peers) /\
  forall p, p ∈ peers <-> exists r, tb_rows (db_peers ds.1) !! p_id p = Some r /\ pr_revoked_at r = None /\ p = row_to_peer (p_id p) r.
Proof.
  destruct ds as [db script], ds' as [db' script']. intros H. apply query_inv in H as [H|(e & ? & _)]; [|done].
  injection H as <- _. cbn. split.
  - rewrite sort_by_perm, map_map. cbn.
    assert (NoDup (map fst (rows_of (tb_rows (db_peers db))))) as Hnd by (rewrite rows_of_perm; apply NoDup_fst_map_to_list).
    refine (sublist_NoDup _ _ Hnd _). apply (fmap_sublist fst), sublist_filter.
  - intros p. rewrite sort_by_perm, list_elem_of_fmap. split.
    + intros ([id r] & -> & [Hrev Hin]%list_elem_of_filter). apply row_listed in Hin. by exists r.
    + intros (r & Hr & Hrev & ->). exists (p_id p, r). split; [done|]. apply list_elem_of_filter. split; [done|]. by apply row_listed.
Qed.

Lemma check_told t url n :
  watching t url ->
  exists peers n' s, check_quiet_peers describe_store (tk_now t) (tk_secs t) n (tk_serve t) = ((Ok tt, n'), s) /\
    sv_posted s = sv_posted (tk_serve t) ++ map (quiet_post (tk_now t) (url, cf_notify_kind (sv_config (tk_serve t))))
                                              (announced (tk_now t) (saturating_i64 (tk_secs t)) n peers) /\
    scanned (tk_now t) (saturating_i64 (tk_secs t)) peers n n' /\ NoDup (map p_id peers) /\
    forall id l, silent_at t id l <-> exists p, p ∈ peers /\ p_id p = id /\ silent_since (tk_now t) (saturating_i64 (tk_secs t)) p = Some l.
Proof.
  intros ((raw & Hc & Hp) & Ht & Hs & Ho & Hf). destruct t as [now secs s]. cbn [tk_now tk_secs tk_serve] in *.
  unfold check_quiet_peers, trigger_enabled. unfold sbind at 1. unfold sgets at 1. rewrite bool_decide_true by done.
  destruct (N.eqb_spec secs 0) as [|_]; [done|]. cbn [orb negb].
  assert (webhook s = (Some (url, cf_notify_kind (sv_config s)), s)) as Hw.
  { unfold webhook, background_url, notification_url, cached_from_vault, try_cached_from_vault, sbind, sgets. cbn. rewrite Hc. cbn. by rewrite Hp. }
  assert (store s = (Ok tt, s)) as Hst by (unfold store, sbind, sgets; by rewrite Ho).
  unfold sbind at 1. rewrite Hw. unfold sbind at 1. rewrite Hst.
  destruct (active_peers (sv_db s, sv_script s)) as [[peers|e] ds] eqn:Ea.
  2: { exfalso. unfold active_peers, select, query, draw in Ea. cbn in Ea. rewrite Hf in Ea. done. }
  pose proof (active_listed _ _ _ Ea) as [Hnd Hpeers]. cbn [fst] in Hpeers.
  unfold sbind at 1. rewrite on_store_run, Ea. cbn [fst snd]. unfold sbind at 1.
  destruct (quiet_scan_told now (saturating_i64 secs) (url, cf_notify_kind (sv_config s)) peers n (put_db (sv_opened s) ds.1 ds.2 s) Hnd)
    as (n' & -> & Hscan).
  exists peers, n'. eexists. split; [reflexivity|]. split; [done|]. split; [done|]. split; [done|].
  intros id l. unfold silent_at, seen_at, silent_since. cbn. split.
  - intros ((r & Hr & Hrev & Hl) & Hd). exists (row_to_peer id r). split; [apply Hpeers; by exists r|]. split; [done|].
    cbn. rewrite Hl. cbn. by rewrite (proj2 (Z.ltb_ge _ _)) by lia.
  - intros (p & (r & Hr & Hrev & ->)%Hpeers & <- & E). cbn in *. destruct (pr_last_seen_at r) as [l0|] eqn:El; [|done]. cbn in E.
    destruct (Z.ltb_spec (now - l0) (saturating_i64 secs)); [done|]. injection E as ->. split; [by exists r|lia].
Qed.
(** The silences of a list of announcements. *)
Definition silences (told : list (Peer * Z)) : list (Z * Z) := map (fun pl => (p_id pl.1, pl.2)) told.

Lemma silences_elem now threshold n peers id l :
  (id, l) ∈ silences (announced now threshold n peers) <->
  (exists p, p ∈ peers /\ p_id p = id /\ silent_since now threshold p = Some l) /\ n !! id <> Some l.
Proof.
  unfold silences. rewrite list_elem_of_fmap. split.
  - intros ([p l'] & [= -> ->] & (Hp & Hs & Hn)%announced_elem). eauto 6.
  - intros ((p & Hp & <- & Hs) & Hn). exists (p, l). split; [done|]. by apply announced_elem.
Qed.

Lemma silences_once now threshold n peers : NoDup (map p_id peers) -> NoDup (silences (announced now threshold n peers)).
Proof.
  induction peers as [|p peers IH]; [constructor|]. cbn [map]. intros [Hp Hnd]%NoDup_cons.
  change (announced now threshold n (p :: peers)) with (announced now threshold n ([p] ++ peers)). unfold announced, silences. rewrite omap_app, map_app.
  apply NoDup_app. split; [|split; [|by apply IH]].
  - cbn. destruct (silent_since now threshold p) as [l|]; cbn; [|constructor]. destruct (bool_decide _); cbn; [apply NoDup_singleton|constructor].
  - intros [id l] H1 H2. apply (silences_elem now threshold n [p]) in H1 as [(q & Hq & Hid & _) _].
    apply (silences_elem now threshold n peers) in H2 as [(q' & Hq' & Hid' & _) _]. apply list_elem_of_singleton in Hq as ->. apply Hp. rewrite Hid, <- Hid'. by apply list_elem_of_fmap_2.
Qed.

(** What a check leaves known: the silences it saw, and otherwise what was known. *)
Lemma scanned_known t peers n n' id :
  (forall id l, silent_at t id l <-> exists p, p ∈ peers /\ p_id p = id /\ silent_since (tk_now t) (saturating_i64 (tk_secs t)) p = Some l) ->
  scanned (tk_now t) (saturating_i64 (tk_secs t)) peers n n' ->
  (exists l, silent_at t id l /\ n' !! id = Some l) \/ (n' !! id = n !! id /\ forall l, ~ silent_at t id l).
Proof.
  intros Hsil [Hseen Hkept].
  destruct (decide (Exists (fun p => p_id p = id /\ silent_since (tk_now t) (saturating_i64 (tk_secs t)) p <> None) peers)) as [He|He].
  - left. apply Exists_exists in He as (p & Hp & <- & Hne). destruct (silent_since _ _ p) as [l|] eqn:El; [|done].
    exists l. split; [apply Hsil; eauto|by apply Hseen].
  - right. assert (forall p, p ∈ peers -> p_id p = id -> silent_since (tk_now t) (saturating_i64 (tk_secs t)) p = None) as Hno.
    { intros p Hp Hid. destruct (silent_since _ _ p) eqn:E; [|done]. exfalso. apply He, Exists_exists. exists p. by rewrite E. }
    split; [by apply Hkept|]. intros l (p & Hp & Hid & Hl)%Hsil. by rewrite (Hno p Hp Hid) in Hl.
Qed.

Lemma checks_told ticks n :
  Forall (fun t => exists url, watching t url) ticks -> StronglySorted seen_forward ticks ->
  (forall id v t l, n !! id = Some v -> t ∈ ticks -> seen_at t id l -> (v <= l)%Z) ->
  exists told, Forall2 tells_of (quiet_checks ticks n) told /\ NoDup (silences (concat told)) /\
    (forall id l v, (id, l) ∈ silences (concat told) -> n !! id = Some v -> (v < l)%Z) /\
    (forall i t id l, ticks !! i = Some t -> silent_at t id l -> n !! id = Some l \/ (id, l) ∈ silences (concat (take (S i) told))) /\
    Forall2 (fun t told => forall id l, (id, l) ∈ silences told -> silent_at t id l) ticks told.
Proof.
  revert n. induction ticks as [|t ticks IH]; intros n Hw Hs Hn.
  { exists []. repeat split; try constructor; [by intros ? ? ? ?%elem_of_nil|done]. }
  apply Forall_cons in Hw as [[url Hw] Hws]. apply StronglySorted_inv in Hs as [Hs Hf]. rewrite Forall_forall in Hf.
  destruct (check_told t url n Hw) as (peers & n' & s & Hrun & Hpost & Hscan & Hnd & Hsil).
  set (now := tk_now t) in *. set (threshold := saturating_i64 (tk_secs t)) in *.
  assert (forall id, (exists l, silent_at t id l /\ n' !! id = Some l) \/ (n' !! id = n !! id /\ forall l, ~ silent_at t id l)) as Hknown
    by (intros id; by apply scanned_known with peers).
  assert (forall id l, silent_at t id l -> n' !! id = Some l) as Hset.
  { intros id l (p & Hp & <- & Hl)%Hsil. by apply Hscan. }
  assert (forall id l, (id, l) ∈ silences (announced now threshold n peers) <-> silent_at t id l /\ n !! id <> Some l) as Hin
    by (intros id l; rewrite silences_elem, Hsil; done).
  destruct (IH n' Hws Hs) as (told & Htold & Honce & Hnew & Hall & Htrue).
  { intros id v t' l Hv Ht' Hl. destruct (Hknown id) as [(l' & [Hv' _] & E)|[E _]].
    - rewrite Hv in E. injection E as <-. by apply (Hf t' Ht' id).
    - rewrite Hv in E. by apply (Hn id v t'); [|right|]. }
  exists (announced now threshold n peers :: told). cbn [quiet_checks]. fold now. rewrite Hrun. cbn [concat]. unfold silences. rewrite map_app.
  fold (silences (concat told)) (silences (announced now threshold n peers)). split; [|split; [|split; [|split]]].
  - constructor; [|done]. exists url. split; [apply Hw|exact Hpost].
  - apply NoDup_app. split; [by apply silences_once|]. split; [|done].
    intros [id l] [Hl _]%Hin H2. apply Hset in Hl. apply (Hnew id l l H2) in Hl. lia.
  - intros id l v [[Hl Hne]%Hin|H2]%elem_of_app Hv.
    + pose proof (Hn id v t l Hv (list_elem_of_here _ _) (proj1 Hl)). assert (v <> l) by congruence. lia.
    + destruct (Hknown id) as [(l' & Hl' & E)|[E _]]; [|rewrite Hv in E; by apply (Hnew id l v)].
      pose proof (Hn id v t l' Hv (list_elem_of_here _ _) (proj1 Hl')). specialize (Hnew id l l' H2 E). lia.
  - assert (forall id l, silent_at t id l -> n !! id = Some l \/ (id, l) ∈ silences (announced now threshold n peers)) as Hfirst.
    { intros id l Hl. destruct (decide (n !! id = Some l)); [by left|right; by apply Hin]. }
    intros i t' id l Ht' Hl. cbn [take concat]. unfold silences. rewrite map_app, elem_of_app.
    fold (silences (concat (take i told))) (silences (announced now threshold n peers)). destruct i as [|i].
    + injection Ht' as <-. destruct (Hfirst id l Hl); [by left|by right; left].
    + destruct (Hall i t' id l Ht' Hl) as [E|H2]; [|by right; right].
      destruct (Hknown id) as [(l' & Hl' & E')|[E' _]]; [|left; congruence].
      assert (l' = l) as -> by congruence. destruct (Hfirst id l Hl'); [by left|by right; left].
  - constructor; [|done]. by intros id l [Hl _]%Hin.
Qed.

End QuietRuns.

Section QuietTheorem.
Context `{U : UrlLib} `{C : VaultCipher} `{KF : KeyFiles} `{ME : MasterEnv} `{RO : RowOrder}.

(** A silence is announced once.  Over checks made while the process goes on, each
    posts the announcements of friends silent for at least the threshold; no friend is
    announced twice for the same silence, and one who is silent at a check has been announced
    by then. *)
Theorem quiet_announced_once (describe_store : StoreError -> bytes) (ticks : list Tick) :
  RowOrderLaws RO ->
  Forall (fun t => exists url, watching t url) ticks -> StronglySorted seen_forward ticks ->
  exists told, Forall2 tells_of (quiet_checks describe_store ticks ∅) told /\
    Forall2 (fun t told => forall id l, (id, l) ∈ silences told -> silent_at t id l) ticks told /\
    NoDup (silences (concat told)) /\
    forall i t id l, ticks !! i = Some t -> silent_at t id l -> (id, l) ∈ silences (concat (take (S i) told)).
Proof.
  intros RL Hw Hs. destruct (checks_told describe_store ticks ∅ Hw Hs) as (told & Htold & Honce & _ & Hall & Htrue); [by intros id v t l Hv%lookup_empty_Some|].
  exists told. split; [done|]. split; [done|]. split; [done|]. intros i t id l Ht Hl.
  destruct (Hall i t id l Ht Hl) as [E|]; [by apply lookup_empty_Some in E|done].
Qed.

End QuietTheorem.

(** ** Facts: the address that stopped answering *)

(** The messages of a run of dials. *)
Fixpoint reach_run (base : bytes) (outcomes : list ReachOutcome) (was_reachable : bool) : list (option bytes) :=
  match outcomes with
  | [] => []
  | o :: outcomes => let '(message, reachable) := reach_observe base o was_reachable in message :: reach_run base outcomes reachable
  end.

(** A run tells exactly the falls: an address that answered and then does not. *)
Lemma falls_told base outcomes was_reachable i o :
  outcomes !! i = Some o ->
  exists message, reach_run base outcomes was_reachable !! i = Some message /\
    (is_Some message <->
     is_reachable o = false /\ match i with 0 => was_reachable | S j => from_option is_reachable false (outcomes !! j) end = true).
Proof.
  revert i was_reachable. induction outcomes as [|o0 outcomes IH]; intros i was_reachable Ho; [done|]. destruct i as [|i].
  - injection Ho as ->. eexists. split; [reflexivity|]. destruct o, was_reachable; cbn; split; (intros [? ?] || intros [? ?]); by eauto.
  - destruct (IH i (is_reachable o0) Ho) as (message & Hm & Hiff). exists message. split; [exact Hm|]. rewrite Hiff. by destruct i.
Qed.

(** ** Facts: what a webhook is sent *)

(** The value a query gives a name: its last. *)
Definition given `{U : UrlLib} `{UQ : !UrlQuery U} (url : Url) (name : bytes) : option bytes :=
  last (map snd (filter (fun kv => kv.1 = name) (query_pairs url))).

(** The parameters that identify the sender to the service. *)
Definition credential_names (kind : NotifyKind) : list bytes :=
  match kind with Telegram => [bs "chat_id"] | Pushover => [bs "token"; bs "user"] | _ => [] end.

Section RequestFacts.
Context `{U : UrlLib} `{UP : !UrlParts U} `{UQ : !UrlQuery U}.

Lemma taken_given (names : list bytes) (pairs : list (bytes * bytes)) (m : gmap bytes bytes) name :
  fold_left (fun (m : gmap bytes bytes) (kv : bytes * bytes) => if bool_decide (kv.1 ∈ names) then <[kv.1 := kv.2]> m else m) pairs m !! name =
  if bool_decide (name ∈ names) then default (m !! name) (Some <$> last (map snd (filter (fun kv => kv.1 = name) pairs))) else m !! name.
Proof.
  revert m. induction pairs as [|[k v] pairs IH]; intros m; [by case_bool_decide|]. cbn [fold_left fst snd]. rewrite IH, filter_cons. cbn [fst].
  destruct (decide (k = name)) as [->|Hne]; case_bool_decide; try done; cbn [map snd].
  - rewrite lookup_insert_eq, last_cons. by destruct (last _).
  - case_bool_decide; [by rewrite lookup_insert_ne|done].
  - case_bool_decide; [by rewrite lookup_insert_ne|done].
Qed.

(** What [take_params] moves, or the first name it misses. *)
Lemma take_params_moves url names :
  UrlQueryLaw U UQ ->
  match take_params url names with
  | Ok (target, taken) =>
      query_pairs target = filter (fun kv => kv.1 ∉ names) (query_pairs url) /\
      forall name, name ∈ names -> is_Some (given url name) /\ taken !! name = given url name
  | Err _ => exists name, name ∈ names /\ given url name = None
  end.
Proof.
  intros HL. unfold take_params.
  assert (forall name, name ∈ names -> fold_left (fun (m : gmap bytes bytes) (kv : bytes * bytes) => if bool_decide (kv.1 ∈ names) then <[kv.1 := kv.2]> m else m) (query_pairs url) ∅ !! name = given url name) as Hg.
  { intros name Hname. rewrite taken_given, bool_decide_true by done. unfold given. destruct (last _); [done|]. apply lookup_empty. }
  destruct (List.find _ names) as [name|] eqn:E.
  - apply find_some in E as [Hin%list_elem_of_In E%bool_decide_eq_true]. exists name. split; [done|]. by rewrite <- Hg.
  - split; [apply HL|]. intros name Hname. split; [|by apply Hg].
    pose proof (find_none _ _ E name (proj1 (list_elem_of_In _ _) Hname)) as Hn%bool_decide_eq_false. rewrite <- Hg by done. by apply not_eq_None_Some.
Qed.

(** The request of a webhook.  The message is in the object posted; where the service
    takes its keys from the object, each moves there from the query with the value it had
    (its last), and the other parameters stay as they were; a request is refused only for a
    missing key or topic. *)
Theorem credentials_leave_url (kind : NotifyKind) (url : Url) (event message : bytes) :
  UrlQueryLaw U UQ ->
  match webhook_request kind url event message with
  | Ok (target, body) =>
      (exists field text, body !! field = Some text /\ message `suffix_of` text) /\
      (forall name, name ∈ credential_names kind -> is_Some (given url name) /\ body !! name = given url name) /\
      (kind = Telegram \/ kind = Pushover -> query_pairs target = filter (fun kv => kv.1 ∉ credential_names kind) (query_pairs url))
  | Err _ => kind = Ntfy \/ exists name, name ∈ credential_names kind /\ given url name = None
  end.
Proof.
  intros HL. destruct kind; cbn [webhook_request credential_names].
  all: try (split; [|split; [by intros name ?%elem_of_nil|by intros [|]]]).
  - by exists (bs "message"), message.
  - exists (bs "content"), (bs "**sharerr** — " ++ event ++ [x0a] ++ message). split; [apply lookup_singleton_eq|]. do 3 apply suffix_app_r. done.
  - by exists (bs "body"), message.
  - destruct (default _ _) as [parent topic]. destruct (is_nonempty topic); [|by left].
    split; [by exists (bs "message"), message|]. split; [by intros name ?%elem_of_nil|by intros [|]].
  - by exists (bs "message"), message.
  - pose proof (take_params_moves url [bs "chat_id"] HL) as H. destruct (take_params _ _) as [[target taken]|e]; cbn; [|by right].
    destruct H as [Hq Hn]. split; [|split; [|done]].
    + exists (bs "text"), ((bs "sharerr — " ++ event) ++ [x0a] ++ message). split; [apply lookup_insert_eq|]. do 2 apply suffix_app_r. done.
    + intros name Hname. rewrite lookup_insert_ne; [by apply Hn|]. intros <-. revert Hname. apply (bool_decide_unpack _). done.
  - pose proof (take_params_moves url [bs "token"; bs "user"] HL) as H. destruct (take_params _ _) as [[target taken]|e]; cbn; [|by right].
    destruct H as [Hq Hn]. split; [|split; [|done]].
    + exists (bs "message"), message. by rewrite lookup_insert_eq.
    + intros name Hname. rewrite !lookup_insert_ne; [by apply Hn| |]; intros <-; revert Hname; by apply (bool_decide_unpack _).
Qed.

End RequestFacts.

(** ** Facts: the pace of the loop *)

Lemma backoff_range failures : (RECOVERY_INTERVAL <= backoff_for failures <= RECOVERY_INTERVAL_MAX)%Z.
Proof.
  unfold backoff_for. assert (1 <= 2 ^ Z.of_N (N.min failures 16))%Z as H by (pose proof (Z.pow_pos_nonneg 2 (Z.of_N (N.min failures 16))); lia).
  unfold RECOVERY_INTERVAL, RECOVERY_INTERVAL_MAX, SEC. split; [apply Z.min_glb; nia|apply Z.le_min_r].
Qed.

(** One failure later the wait is twice as long, up to the longest. *)
Lemma backoff_doubles failures : (failures < 16)%N -> backoff_for (failures + 1) = Z.min (2 * backoff_for failures) RECOVERY_INTERVAL_MAX.
Proof.
  intros H. unfold backoff_for. rewrite !N.min_l by lia. rewrite N2Z.inj_add, Z.pow_add_r by lia.
  unfold RECOVERY_INTERVAL_MAX, RECOVERY_INTERVAL, SEC. lia.
Qed.

Definition interval_of (c : SyncConfig) : Z := Z.of_N (effective_interval_secs c) * SEC.

Lemma interval_floor c : (60 * SEC <= interval_of c)%Z.
Proof. unfold interval_of, effective_interval_secs, MIN_INTERVAL_SECS, SEC. lia. Qed.

Section PaceFacts.
Context `{U : UrlLib} `{C : VaultCipher} `{KF : KeyFiles} `{ME : MasterEnv}.

(** How often passes have failed in a row. *)
Definition failed_in_row (k : N) (s : Serve) : Prop := sv_sync_failures s = k.

Lemma failures_on_vault {A : Type} (m : DiskM A) k : preserves (failed_in_row k) (on_vault m).
Proof. by apply preserves_focus. Qed.

Lemma failures_send t message k : preserves (failed_in_row k) (send t message).
Proof.
  unfold send. apply preserves_bind; [apply preserves_gets|]. intros []; [|apply preserves_ret].
  apply preserves_bind; [|intros [url|]; [by apply preserves_modify|apply preserves_ret]].
  unfold background_url. apply preserves_bind; [|intros ?; apply preserves_ret].
  unfold notification_url, cached_from_vault. apply preserves_bind; [|intros ?; apply preserves_ret].
  unfold try_cached_from_vault. apply preserves_bind; [apply preserves_gets|]. intros [value|]; [apply preserves_ret|].
  apply preserves_try; [|intros vault; apply preserves_bind; [apply failures_on_vault|]; intros value;
    apply preserves_bind; [by apply preserves_modify|intros ?; apply preserves_ret]].
  unfold open_vault. apply preserves_bind; [apply preserves_gets|]. intros config. apply preserves_try; [apply preserves_ret|]. intros master.
  apply preserves_bind; [apply failures_on_vault|]. intros [].
  - apply preserves_bind; [apply failures_on_vault|intros ?; apply preserves_ret].
  - apply preserves_bind; [apply preserves_gets|intros ?; apply preserves_ret].
Qed.

Lemma failures_digest {A : Type} (o : option A) t text k : preserves (failed_in_row k) (match o with Some message => send t (text message) | None => sret tt end).
Proof. destruct o; [apply failures_send|apply preserves_ret]. Qed.

Lemma failures_if (b : bool) t message k : preserves (failed_in_row k) (if b then send t message else sret tt).
Proof. destruct b; [apply failures_send|apply preserves_ret]. Qed.

Lemma failures_report report n k : preserves (failed_in_row k) (notify_sync_report report n).
Proof.
  unfold notify_sync_report. apply preserves_bind.
  { destruct (sr_library_unreadable report); [|apply preserves_ret]. destruct (bool_decide _); [|apply preserves_ret].
    apply preserves_bind; [apply failures_send|intros ?; apply preserves_ret]. }
  intros library. do 2 (apply preserves_bind; [apply failures_digest|]; intros ?).
  do 2 (apply preserves_bind; [apply failures_if|]; intros ?). apply preserves_ret.
Qed.

(** A completed pass clears the count, a failed one adds to it. *)
Lemma after_pass_counts outcome n s :
  sv_sync_failures (after_pass outcome n s).2 = match outcome with Ok _ => 0%N | Err _ => count_up (sv_sync_failures s) end.
Proof.
  destruct outcome as [report|reason]; unfold after_pass, sbind.
  - by apply (failures_report report n 0%N).
  - pose proof (failures_send SyncFailed reason _ s eq_refl) as H. destruct (send SyncFailed reason s) as [u s1]. cbn. by rewrite H.
Qed.

(** The process as the pass finds it: the request it answers is taken. *)
Definition taken (l : Loop) : Loop := (put_requested false l).2.

(** The pace of the loop.  A ready process runs a pass when its timer is on or one was
    asked for, and a request that comes in during the pass is kept for another; it waits the
    interval after a completed pass, and after a failed one no longer than that, and no longer
    than the longest back-off; whatever it does it waits fifteen seconds or more. *)
Theorem turn_paced (build : St Loop (result unit bytes)) (pass : St Loop (result SyncReport bytes)) (l : Loop) :
  lp_syncer l = Ok tt ->
  let '((turn, delay), l') := background_turn build pass l in
  (RECOVERY_INTERVAL <= delay)%Z /\
  if sy_enabled (lp_sync l) || lp_requested l then
    let '(outcome, l1) := pass (taken l) in
    lp_requested l' = lp_requested l1 /\
    match outcome with
    | Ok _ => turn = TurnPassed /\ delay = interval_of (lp_sync l) /\ sv_sync_failures (lp_serve l') = 0%N
    | Err reason =>
        turn = TurnFailed reason /\ (delay <= interval_of (lp_sync l))%Z /\
        sv_sync_failures (lp_serve l') = count_up (sv_sync_failures (lp_serve l1)) /\
        ((sv_sync_failures (lp_serve l1) < u32_max)%N -> (delay <= RECOVERY_INTERVAL_MAX)%Z)
    end
  else turn = TurnIdle /\ (delay <= RECOVERY_INTERVAL_MAX)%Z /\ l' = taken l.
Proof.
  intros Hr. assert (ensure_ready build l = (true, l)) as He by (unfold ensure_ready, sbind, sgets; by rewrite Hr).
  unfold background_turn. unfold sbind at 1. rewrite He. unfold sbind at 1, sgets at 1. unfold sbind at 1.
  change (take_pass_request l) with (lp_requested l, taken l). cbv beta iota. rewrite <- negb_orb.
  destruct (sy_enabled (lp_sync l) || lp_requested l); cbn [negb].
  - unfold sbind at 1. destruct (pass (taken l)) as [outcome l1]. unfold sbind at 1, sgets at 1. unfold sbind at 1.
    pose proof (after_pass_counts outcome (lp_notified l1) (lp_serve l1)) as Hc. unfold in_serve at 1, focus at 1.
    destruct (after_pass outcome (lp_notified l1) (lp_serve l1)) as [told s1]. cbn [snd] in Hc.
    unfold put_notified, in_serve, focus, sync_retry_delay, sbind, sgets, smodify, sret. cbn. rewrite Hc. fold (interval_of (lp_sync l)).
    pose proof (interval_floor (lp_sync l)) as Hi. unfold SEC in Hi. destruct outcome as [report|reason]; cbn [N.eqb].
    + unfold RECOVERY_INTERVAL, SEC. split; [lia|done].
    + pose proof (backoff_range (count_up (sv_sync_failures (lp_serve l1)))) as Hb.
      unfold RECOVERY_INTERVAL, RECOVERY_INTERVAL_MAX, SEC in *.
      destruct (N.eqb_spec (count_up (sv_sync_failures (lp_serve l1))) 0) as [E|E]; (split; [lia|]); (split; [done|]); (split; [done|]); (split; [lia|]); (split; [done|]).
      * intros Hlt. exfalso. unfold count_up in E. rewrite N.mod_small in E by lia. lia.
      * lia.
  - pose proof (backoff_range (sv_recovery_failures (lp_serve l))) as Hb. cbn. unfold sret. done || (split; [lia|]; split; [done|]; split; [lia|done]).
Qed.

(** While the configuration does not load nothing is built and nothing is run; the wait
    grows with each try. *)
Lemma unready_waits build pass (l : Loop) why reason :
  lp_syncer l = Err why -> lp_config_error l = Some reason ->
  let '((turn, delay), l') := background_turn build pass l in
  turn = TurnUnready /\ lp_syncer l' = Err (lp_config_path l ++ bs ": " ++ reason) /\ lp_requested l' = lp_requested l /\
  delay = backoff_for (count_up (sv_recovery_failures (lp_serve l))).
Proof.
  intros Hs He. unfold background_turn, ensure_ready. unfold sbind at 1 2, sgets at 1. rewrite Hs. unfold sbind at 1, sgets at 1. by rewrite He.
Qed.

End PaceFacts.

(** ** A concrete process, for the witnesses *)

Definition alert_serve (peers : gmap Z PeerRow) : @Serve text_urls :=
  mkServe (mkConfig (bs "/data") no_retention true (mkTrackerConfig None None None) 8477 [SyncFailed; PeerQuiet; TorrentInterrupted] Generic) true
    (with_peers (mkTable peers 1) serve_db) None (mkCaches None None None None (Some (Some (bs "http://hook")))) None ∅
    (@ep_new text_urls None) (@ep_new text_urls None) ∅ 0 0 [] (mkScript [] [] []).

Definition stopped_report (hashes : list bytes) : SyncReport :=
  mkReport 9 0 0 9 0 0 0 None 0 (map (fun h => mkFlagged h (bs "film " ++ h)) hashes) [] [].

(** One film stops, stays stopped, a pass fails, another stops too, both seed, one stops
    again: four posts. *)
Lemma digests_compare_reports_witness :
  let outcomes := [Ok (stopped_report [bs "a"]); Ok (stopped_report [bs "a"]); Err (bs "down"); Ok (stopped_report [bs "a"; bs "b"]);
                   Ok (stopped_report []); Ok (stopped_report [bs "a"])] in
  map po_message (sv_posted (sfold (fun n o => @after_pass text_urls toy_cipher no_key_files sample_env o n) outcomes nothing_notified (alert_serve ∅)).2) =
  [bs "1 torrent(s): film a (stopped in the client) — friends cannot download from a torrent that is not seeding"; bs "down";
   bs "1 torrent(s): film b (stopped in the client) — friends cannot download from a torrent that is not seeding";
   bs "1 torrent(s): film a (stopped in the client) — friends cannot download from a torrent that is not seeding"].
Proof.
  intros outcomes. rewrite (@digests_compare_reports text_urls toy_cipher no_key_files sample_env outcomes (alert_serve ∅) (bs "http://hook")).
  - vm_compute. reflexivity.
  - exists (bs "http://hook"). split; reflexivity.
Defined.

(** A friend last seen at some time, at a check. *)
Definition quiet_tick (now seen : Z) : @Tick text_urls :=
  mkTick text_urls now 500 (alert_serve {[ 1%Z := mkPeerRow (bs "Sam") (bs "kh") 10 (Some seen) None (bs "all") None None None 0 0 None None ]}).

Lemma quiet_tick_seen now seen id l : @seen_at text_urls (quiet_tick now seen) id l -> id = 1%Z /\ l = seen.
Proof. intros (r & Hr & _ & Hl). cbn in Hr. apply lookup_singleton_Some in Hr as [<- <-]. by injection Hl as <-. Qed.

Lemma quiet_tick_watching now seen : @watching text_urls (quiet_tick now seen) (bs "http://hook").
Proof. split; [exists (bs "http://hook"); done|]. split; [by apply (bool_decide_unpack _)|]. done. Qed.

Lemma quiet_tick_forward now now' seen seen' : (seen <= seen')%Z -> @seen_forward text_urls (quiet_tick now seen) (quiet_tick now' seen').
Proof. intros H id l l' [_ ->]%quiet_tick_seen [_ ->]%quiet_tick_seen. done. Qed.

(** Silent at two checks, seen, and silent again: two announcements. *)
Lemma quiet_announced_once_witness :
  let ticks := [quiet_tick 1000 100; quiet_tick 1500 100; quiet_tick 9000 2000] in
  let checks := @quiet_checks text_urls toy_cipher no_key_files sample_env key_order (fun _ => []) ticks ∅ in
  exists told, Forall2 tells_of checks told /\ NoDup (silences (concat told)) /\ map (fun ts => length (sv_posted ts.2)) checks = [1; 0; 1].
Proof.
  intros ticks checks.
  destruct (@quiet_announced_once text_urls toy_cipher no_key_files sample_env key_order (fun _ => []) ticks key_order_laws) as (told & Htold & _ & Honce & _).
  - repeat constructor; exists (bs "http://hook"); apply quiet_tick_watching.
  - repeat constructor; apply quiet_tick_forward; lia.
  - exists told. split; [exact Htold|]. split; [exact Honce|]. vm_compute. reflexivity.
Defined.

(** URLs as a path and the pairs of a query. *)
Definition pair_urls : UrlLib := {|
  Url := bytes * list (bytes * bytes);
  Url_eq_dec := _;
  ParseError := unit;
  url_parse := fun raw => Ok (raw, []);
  url_as_str := fst;
  url_path_segments := fun _ => None
|}.

Definition pair_parts : UrlParts pair_urls := {|
  url_path := fun u : @Url pair_urls => u.1;
  url_set_path := fun path (u : @Url pair_urls) => (path, u.2);
  url_join := fun (u : @Url pair_urls) _ => Ok u;
  url_port := fun _ => None
|}.

Definition pair_query : UrlQuery pair_urls := {|
  query_pairs := fun u : @Url pair_urls => u.2;
  with_query := fun pairs (u : @Url pair_urls) => (u.1, pairs)
|}.

Definition pushover_url : @Url pair_urls :=
  (bs "/1/messages.json", [(bs "token", bs "old"); (bs "sound", bs "bell"); (bs "user", bs "u1"); (bs "token", bs "t1")]).

Lemma credentials_leave_url_witness :
  match @webhook_request pair_urls pair_parts pair_query Pushover pushover_url (bs "test") (bs "hello") with
  | Ok (target, body) => body !! bs "token" = Some (bs "t1") /\ @query_pairs pair_urls pair_query target = [(bs "sound", bs "bell")]
  | Err _ => False
  end.
Proof.
  pose proof (@credentials_leave_url pair_urls pair_parts pair_query Pushover pushover_url (bs "test") (bs "hello") (fun _ _ => eq_refl)) as H.
  destruct (webhook_request _ _ _ _) as [[target body]|e] eqn:E; [|discriminate E]. destruct H as (_ & Hn & Hq). split.
  - destruct (Hn (bs "token")) as [_ ->]; [apply list_elem_of_here|reflexivity].
  - rewrite Hq by (right; reflexivity). reflexivity.
Defined.

(** A pass on request that fails, while another request comes in. *)
Lemma turn_paced_witness :
  let l := mkLoop text_urls (alert_serve ∅) (Ok tt) true None (bs "sharerr.toml") (mkSyncConfig false 900) nothing_notified in
  let pass := let! asked := @request_pass text_urls in sret (Err (bs "client is down")) in
  let '((turn, delay), l') := @background_turn text_urls toy_cipher no_key_files sample_env (sret (Ok tt)) pass l in
  turn = TurnFailed (bs "client is down") /\ (15 * SEC <= delay <= 300 * SEC)%Z /\ lp_requested l' = true.
Proof.
  intros l pass. pose proof (@turn_paced text_urls toy_cipher no_key_files sample_env (sret (Ok tt)) pass l eq_refl) as H.
  destruct (background_turn _ _ _) as [[turn delay] l']. destruct H as (H15 & Hreq & Ht & _ & _ & Hmax).
  split; [exact Ht|]. split; [split; [exact H15|apply Hmax; reflexivity]|exact Hreq].
Defined.
