(* ===== verification/Settings.v ===== *)
(** * Saving settings (the machinery of web/settings/mod.rs)

    The announce token's rotation, the order every save keeps between the configuration
    file and the vault, and where a save may send the browser.  Editing and validating
    the TOML document is a parameter: an edit gives a configuration or a refusal. *)

From S2P Require Import Prelude RustStd Text BTreeMap Bencode Metainfo Net Endpoint TrackerUrl Announce Model Paths Factory Title Lighthouse FileTree Totp Effects Accounts Database Items Peers History Sightings Vault Serve TrackerRoutes Torznab Gossip Exchange Pairing Friends.

(** ** Refusals *)

(** Why a save was refused: the vault did not open, a step on it failed, the edit was
    refused, or the file was not written. *)
Inductive SaveError : Type :=
| VaultNotOpened (reason : bytes)
| ReadingToken (e : VaultError)
| PreservingToken (e : VaultError)
| StoringSecret (key : bytes) (e : VaultError)
| RemovingSecret (key : bytes) (e : VaultError)
| EditRefused (reason : bytes)
| ValueRefused (reason : bytes)
| NotMinted (reason : bytes)
| NoSuchSecret
| NotWritten (reason : bytes).

(** [char::is_ascii_graphic]. *)
Definition char_is_ascii_graphic (c : char) : bool := char_is_byte (byte_in 33 126) c.

Definition sanitize_next (next : option bytes) : option bytes :=
  path ← next;
  if bool_decide (head path = Some "/"%byte) && negb (bool_decide (take 2 path = bs "//")) &&
     forallb (fun c => char_is_ascii_graphic c && negb (bool_decide (c = [x5c]))) (chars path)
  then Some path else None.

Section Saving.
Context `{U : UrlLib} `{D : Digests} `{C : VaultCipher} `{KF : KeyFiles} `{ME : MasterEnv}.

(** ** The announce token *)

(** The first half of [rotate_tracker_token_in]: the value about to be replaced is kept. *)
Definition preserve_current (new_value : bytes) (vault : Vault) : ServeM (result Vault SaveError) :=
  match vault_get vault TRACKER_TOKEN with
  | Err e => sret (Err (ReadingToken e))
  | Ok (Some current) =>
      if bool_decide (current <> new_value) then
        let! stored := on_handle vault (vault_put TRACKER_TOKEN_PREVIOUS current) in
        sret (match stored.1 with Ok _ => Ok stored.2 | Err e => Err (PreservingToken e) end)
      else sret (Ok vault)
  | Ok None => sret (Ok vault)
  end.

Definition rotate_tracker_token_in (new_value : bytes) (vault : Vault) : ServeM (result unit SaveError) :=
  try! vault := preserve_current new_value vault in
  let! stored := on_handle vault (vault_put TRACKER_TOKEN new_value) in
  sret (rmap_err (StoringSecret TRACKER_TOKEN) stored.1).

Definition clear_tracker_token_in (vault : Vault) : ServeM (result unit SaveError) :=
  let! removed := on_handle vault (vault_remove TRACKER_TOKEN) in
  match removed.1 with
  | Err e => sret (Err (RemovingSecret TRACKER_TOKEN e))
  | Ok _ =>
      let! removed := on_handle removed.2 (vault_remove TRACKER_TOKEN_PREVIOUS) in
      sret (match removed.1 with Ok _ => Ok tt | Err e => Err (RemovingSecret TRACKER_TOKEN_PREVIOUS e) end)
  end.

Definition finalize_tracker_token_in (vault : Vault) : ServeM (result unit SaveError) :=
  let! removed := on_handle vault (vault_remove TRACKER_TOKEN_PREVIOUS) in
  sret (match removed.1 with Ok _ => Ok tt | Err e => Err (RemovingSecret TRACKER_TOKEN_PREVIOUS e) end).

Definition mutate_tracker_token (f : Vault -> ServeM (result unit SaveError)) : ServeM (result unit SaveError) :=
  let! opened := open_vault in
  try! vault := sret (rmap_err VaultNotOpened opened) in
  try! mutated := f vault in
  let! dropped := invalidate in
  let! forgotten := reset_legacy in
  sret (Ok tt).

Definition rotate_tracker_token (new_value : bytes) : ServeM (result unit SaveError) := mutate_tracker_token (rotate_tracker_token_in new_value).
Definition clear_tracker_token : ServeM (result unit SaveError) := mutate_tracker_token clear_tracker_token_in.
Definition finalize_tracker_token : ServeM (result unit SaveError) := mutate_tracker_token finalize_tracker_token_in.

(** [generate_secret]: the secret shown once. *)
Definition generate_secret (field : bytes) : ServeM (result bytes SaveError) :=
  if bool_decide (field <> bs "tracker") then sret (Err NoSuchSecret)
  else
    let! generated := on_vault (disk_script (random_hex KEY_BYTES)) in
    try! generated := sret (rmap_err NotMinted generated) in
    try! rotated := rotate_tracker_token generated in
    sret (Ok generated).

(** ** Configuration and secrets together *)

(** [static_base], and [ServeState::replace_config]. *)
Definition static_base (c : ServeConfig) : option Url := match advertised_base (cf_tracker c) (cf_bind_port c) with Ok base => base | Err _ => None end.

Definition put_config (c : ServeConfig) (s : Serve) : Serve :=
  mkServe c (sv_opened s) (if sv_opened s then with_retention (cf_retention c) (sv_db s) else sv_db s) (sv_vault s) (sv_caches s) (sv_legacy s) (sv_swarms s)
    (set_static (static_base c) (sv_endpoint s)) (sv_client s) (sv_torrents s) (sv_recovery_failures s) (sv_sync_failures s) (sv_posted s) (sv_script s).

Definition replace_config (c : ServeConfig) : ServeM unit :=
  let! replaced := smodify (put_config c) in invalidate.

(** [commit_config]: the validated document is written, and then it is in force. *)
Definition commit_config (section : bytes) (next : option bytes) (c : ServeConfig) : ServeM (result bytes SaveError) :=
  let! written := serve_draw in
  if written : bool then
    let! replaced := replace_config c in
    sret (Ok (default (bs "/settings") (sanitize_next next) ++ bs "?saved=" ++ section))
  else let! error := sgets (fun s => sc_error (sv_script s)) in sret (Err (NotWritten error)).

(** [write_config], for what [prepare_config] made of the edit. *)
Definition write_config (section : bytes) (next : option bytes) (prepared : result ServeConfig bytes) : ServeM (result bytes SaveError) :=
  match prepared with Err reason => sret (Err (EditRefused reason)) | Ok c => commit_config section next c end.

(** Whether the vault changed. *)
Definition apply_secret (key value : bytes) (clear : bool) : ServeM (result bool SaveError) :=
  let value := trim value in
  if negb clear && negb (is_nonempty value) then sret (Ok false)
  else
    let! opened := open_vault in
    try! vault := sret (rmap_err VaultNotOpened opened) in
    if clear then
      let! removed := on_handle vault (vault_remove key) in
      sret (match removed.1 with Ok _ => Ok true | Err e => Err (RemovingSecret key e) end)
    else
      let! stored := on_handle vault (vault_put key value) in
      sret (match stored.1 with Ok _ => Ok true | Err e => Err (StoringSecret key e) end).

(** [write_config_and_secret] with [invalidate_unless_committed]. *)
Definition write_config_and_secret (section : bytes) (next : option bytes) (prepared : result ServeConfig bytes) (key value : bytes) (clear : bool)
  : ServeM (result bytes SaveError) :=
  match prepared with
  | Err reason => sret (Err (EditRefused reason))
  | Ok c =>
      try! changed := apply_secret key value clear in
      let! response := commit_config section next c in
      let! dropped := (match response with Err _ => if changed : bool then invalidate else sret tt | Ok _ => sret tt end) in
      sret response
  end.

(** [save_tracker], for what the edit of the plain fields gave. *)
Definition save_tracker (next : option bytes) (prepared : result ServeConfig bytes) (token : bytes) (clear_token : bool) : ServeM (result bytes SaveError) :=
  match prepared with
  | Err reason => sret (Err (EditRefused reason))
  | Ok c =>
      let token := trim token in
      try! valid := sret (rmap_err ValueRefused (validate_value TRACKER_TOKEN token)) in
      try! outcome := (if clear_token then clear_tracker_token
                       else if is_nonempty token then rotate_tracker_token token else sret (Ok tt)) in
      commit_config (bs "tracker") next c
  end.

Definition finalize_tracker : ServeM (result bytes SaveError) :=
  try! finalized := finalize_tracker_token in sret (Ok (bs "/settings?saved=tracker")).

End Saving.

(** ** Facts *)

(** What an announce is checked against once nothing is cached: what the vault holds. *)
Definition stored_tokens `{U : UrlLib} `{C : VaultCipher} `{KF : KeyFiles} `{ME : MasterEnv} (s : Serve) : option bytes * option bytes :=
  let read key := match secret_of s key with Ok value => value | Err _ => None end in
  (read TRACKER_TOKEN, read TRACKER_TOKEN_PREVIOUS).

Section TokenFacts.
Context `{U : UrlLib} `{D : Digests} `{C : VaultCipher} {CL : VaultCipherLaws C} `{KF : KeyFiles} `{ME : MasterEnv}.

Lemma tokens_from_vault s tokens : vc_tracker_tokens (sv_caches s) = None -> tokens_in_force s tokens -> tokens = stored_tokens s.
Proof.
  unfold tokens_in_force. intros -> (master & vault & script & Hm & Ho & ->).
  destruct (vault_open _ _ _) as [r disk] eqn:E. cbn in Ho. subst r. apply vault_open_inv in E as [_ E]. cbn in E.
  unfold stored_tokens, vault_string, secret_of. rewrite Hm. cbn [rbind]. by rewrite !(opened_reads master _ _ _ E).
Qed.

(** A successful change drops what was cached. *)
Lemma mutate_inv f s r s' :
  mutate_tracker_token f s = (r, s') ->
  (exists e, r = Err e /\ undisturbed s s') \/
  exists vault s1 r1 s2, open_vault s = (Ok vault, s1) /\ undisturbed s s1 /\ handle_of s1 vault /\ f vault s1 = (r1, s2) /\
    ((exists e, r1 = Err e /\ r = Err e /\ s' = s2) \/
     (r1 = Ok tt /\ r = Ok tt /\ sv_vault s' = sv_vault s2 /\ vc_tracker_tokens (sv_caches s') = None /\ sv_legacy s' = None)).
Proof.
  unfold mutate_tracker_token. intros (opened & s1 & Ho & H)%sbind_inv. pose proof (moves_open_vault s) as M. rewrite Ho in M. cbn in M.
  destruct opened as [vault|reason].
  2: { injection H as <- <-. left. by eexists. }
  right. change (try_bind (sret (rmap_err VaultNotOpened (Ok vault))) ?k ?x) with (k vault x) in H. cbn beta in H.
  pose proof Ho as [_ Hh]%open_vault_inv. apply try_cases in H as [(e & Hf & ->)|([] & s2 & Hf & [= <- <-])].
  - exists vault, s1, (Err e), s'. split_and!; [done..|]. left. by exists e.
  - exists vault, s1, (Ok tt), s2. split_and!; [done..|]. by right.
Qed.

Definition only_keys (keys : list bytes) (s s' : Serve) : Prop := forall k, k ∉ keys -> secret_of s' k = secret_of s k.

Lemma token_names : utf8_valid TRACKER_TOKEN = true /\ utf8_valid TRACKER_TOKEN_PREVIOUS = true /\ TRACKER_TOKEN <> TRACKER_TOKEN_PREVIOUS.
Proof. split_and!; [vm_compute; reflexivity..|]. by vm_compute. Qed.

(** The first half of a rotation touches the previous slot, and only to keep the current value there. *)
Lemma preserve_inv new_value vault old s r s' :
  handle_of s vault -> secret_of s TRACKER_TOKEN = Ok (Some old) -> old <> new_value -> utf8_valid old = true -> vault_fits s' ->
  preserve_current new_value vault s = (r, s') ->
  (exists e, r = Err e /\ undisturbed s s') \/
  (exists vault', r = Ok vault' /\ handle_of s' vault' /\
     forall k, secret_of s' k = if decide (k = TRACKER_TOKEN_PREVIOUS) then Ok (Some old) else secret_of s k).
Proof.
  intros Hh Hs Hne Hu Hfit. unfold preserve_current. rewrite (handle_reads _ _ _ Hh), Hs, bool_decide_eq_true_2 by done.
  intros (stored & s1 & Hp & [= Hr <-])%sbind_inv. destruct token_names as (_ & Hn & _).
  apply handle_put in Hp as [(e & He & M)|(He & out & script & -> & [Hh' Hk]%(fun f => f Hfit))]; [..|done|done|done]; rewrite He in Hr; subst r.
  - left. by eexists.
  - right. by eexists.
Qed.

End TokenFacts.

(** ** What saving promises *)

(** A rotation never cuts off a torrent that still carries the old token.  When it
    succeeds the new token is in force and the old one is still accepted; when any step
    of it fails, the vault or the disk included, the old token is still the one in the
    vault; and no other secret changes either way. *)
Theorem rotation_keeps_old_token `{U : UrlLib} `{C : VaultCipher} `{KF : KeyFiles} `{ME : MasterEnv} new_value old s r s' :
  VaultCipherLaws C -> utf8_valid old = true -> utf8_valid new_value = true ->
  secret_of s TRACKER_TOKEN = Ok (Some old) -> old <> new_value ->
  (forall vault s1 r1 s2, open_vault s = (Ok vault, s1) -> preserve_current new_value vault s1 = (r1, s2) -> vault_fits s2) -> vault_fits s' ->
  rotate_tracker_token new_value s = (r, s') ->
  only_keys [TRACKER_TOKEN; TRACKER_TOKEN_PREVIOUS] s s' /\
  match r with
  | Ok _ => sv_legacy s' = None /\ stored_tokens s' = (Some new_value, Some old) /\ forall tokens, tokens_in_force s' tokens -> tokens = (Some new_value, Some old)
  | Err _ => secret_of s' TRACKER_TOKEN = Ok (Some old) /\
             (secret_of s' TRACKER_TOKEN_PREVIOUS = secret_of s TRACKER_TOKEN_PREVIOUS \/ secret_of s' TRACKER_TOKEN_PREVIOUS = Ok (Some old))
  end.
Proof.
  intros CL Hold Hnew Hcur Hne Hmid Hfit H. destruct token_names as (Ht & _ & Hdiff).
  assert (forall s1, undisturbed s s1 -> only_keys [TRACKER_TOKEN; TRACKER_TOKEN_PREVIOUS] s s1 /\
    secret_of s1 TRACKER_TOKEN = Ok (Some old) /\ secret_of s1 TRACKER_TOKEN_PREVIOUS = secret_of s TRACKER_TOKEN_PREVIOUS) as Hsame.
  { intros s1 M. split_and!; [intros k _|rewrite <- Hcur|]; by apply undisturbed_secret. }
  apply mutate_inv in H as [(e & -> & M)|(vault & s1 & r1 & s2 & Ho & M & Hh & Hf & H)]; [destruct (Hsame _ M) as (? & ? & ?); auto|].
  unfold rotate_tracker_token_in in Hf. rewrite <- (undisturbed_secret _ _ _ M) in Hcur.
  apply try_cases in Hf as [(e & Hp & ->)|(vault' & s3 & Hp & Hf)]; pose proof (Hmid _ _ _ _ Ho Hp) as Hfit3;
    apply (preserve_inv _ _ old) in Hp as [(e' & Hr & M')|(v' & Hr & Hh' & Hk)]; try done.
  - destruct H as [(e1 & [= <-] & -> & ->)|(? & _)]; [|done]. destruct (Hsame s2) as (? & ? & ?); [by transitivity s1|]. auto.
  - injection Hr as <-. apply sbind_inv in Hf as (stored & s4 & Hput & [= <- <-]).
    assert (forall k, secret_of s3 k = if decide (k = TRACKER_TOKEN_PREVIOUS) then Ok (Some old) else secret_of s k) as Hk3.
    { intros k. rewrite Hk. case_decide; [done|]. by apply undisturbed_secret. }
    apply handle_put in Hput as [(e & He & M')|(He & out & script & -> & Hread)]; [..|done|done|done]; rewrite He in H; cbn [rmap_err] in H.
    + destruct H as [(e1 & [= <-] & -> & ->)|(? & _)]; [|done]. split.
      * intros k Hin. rewrite (undisturbed_secret _ _ _ M'), Hk3, decide_False; [done|]. set_solver.
      * rewrite !(undisturbed_secret _ _ _ M'), !Hk3, decide_False, decide_True by done. split; [|by right].
        by rewrite <- (undisturbed_secret _ _ _ M).
    + destruct H as [(? & ? & _)|(_ & -> & Hv & Hc & Hl)]; [done|].
      assert (vault_fits (put_vault (Some out) script s3)) as [_ Hs4]%Hread by (unfold vault_fits in *; by rewrite Hv in Hfit).
      assert (forall k, secret_of s' k = if decide (k = TRACKER_TOKEN) then Ok (Some new_value) else secret_of s3 k) as Hs'.
      { intros k. rewrite <- Hs4. unfold secret_of. by rewrite Hv. }
      assert (stored_tokens s' = (Some new_value, Some old)) as Hst.
      { unfold stored_tokens. rewrite !Hs', decide_True by done. rewrite decide_False by done. by rewrite Hk3, decide_True. }
      split.
      * intros k Hin. rewrite Hs', decide_False, Hk3, decide_False by set_solver. done.
      * split; [done|]. split; [done|]. intros tokens Htok. rewrite <- Hst. by apply tokens_from_vault.
Qed.

(** Retiring tokens does what it says.  Finishing a rotation leaves the current token
    alone and the previous one refused; turning the token off leaves none; and a
    retirement that fails before it wrote leaves every secret as it was. *)
Theorem tokens_retired `{U : UrlLib} `{C : VaultCipher} `{KF : KeyFiles} `{ME : MasterEnv} s :
  VaultCipherLaws C ->
  (forall r s', finalize_tracker_token s = (r, s') -> vault_fits s' ->
     match r with
     | Ok _ => stored_tokens s' = ((stored_tokens s).1, None) /\ only_keys [TRACKER_TOKEN_PREVIOUS] s s' /\
               forall tokens, tokens_in_force s' tokens -> tokens = ((stored_tokens s).1, None)
     | Err _ => only_keys [] s s'
     end) /\
  (forall s', clear_tracker_token s = (Ok tt, s') ->
     (forall vault s1 removed s2, open_vault s = (Ok vault, s1) -> on_handle vault (vault_remove TRACKER_TOKEN) s1 = (removed, s2) -> vault_fits s2) ->
     vault_fits s' ->
     stored_tokens s' = (None, None) /\ only_keys [TRACKER_TOKEN; TRACKER_TOKEN_PREVIOUS] s s' /\ forall tokens, tokens_in_force s' tokens -> tokens = (None, None)).
Proof.
  intros CL. destruct token_names as (_ & _ & Hdiff). split.
  - intros r s' H Hfit. apply mutate_inv in H as [(e & -> & M)|(vault & s1 & r1 & s2 & Ho & M & Hh & Hf & H)];
      [intros k _; by apply undisturbed_secret|].
    unfold finalize_tracker_token_in in Hf. apply sbind_inv in Hf as (removed & s3 & Hr & [= <- <-]).
    apply handle_remove in Hr as (file & script & -> & [(e & He & ->)|(existed & He & Hread)]); [..|done]; rewrite He in H.
    + destruct H as [(e1 & [= <-] & -> & ->)|(? & _)]; [|done]. intros k _. unfold secret_of. cbn [sv_vault put_vault].
      by destruct M as [_ _ -> _ _ _ _ _].
    + destruct H as [(? & ? & _)|(_ & -> & Hv & Hc & Hl)]; [done|].
      assert (vault_fits (put_vault file script s1)) as [_ Hk]%Hread by (unfold vault_fits in *; by rewrite Hv in Hfit).
      assert (forall k, secret_of s' k = if decide (k = TRACKER_TOKEN_PREVIOUS) then Ok None else secret_of s k) as Hs'.
      { intros k. rewrite <- (undisturbed_secret _ _ _ M), <- Hk. unfold secret_of. by rewrite Hv. }
      assert (stored_tokens s' = ((stored_tokens s).1, None)) as Hst.
      { unfold stored_tokens. rewrite !Hs', decide_False by done. by rewrite decide_True. }
      split; [done|]. split; [intros k Hin; rewrite Hs', decide_False by set_solver; done|]. intros tokens Htok. rewrite <- Hst. by apply tokens_from_vault.
  - intros s' H Hmid Hfit. apply mutate_inv in H as [(e & ? & M)|(vault & s1 & r1 & s2 & Ho & M & Hh & Hf & H)]; [done|].
    destruct H as [(? & _ & ? & _)|(-> & _ & Hv & Hc & Hl)]; [done|].
    unfold clear_tracker_token_in in Hf. apply sbind_inv in Hf as (removed & s3 & Hr & Hf). pose proof (Hmid _ _ _ _ Ho Hr) as Hfit3.
    apply handle_remove in Hr as (file & script & -> & [(e & He & _)|(existed & He & Hread)]); [..|done]; rewrite He in Hf; [done|].
    apply sbind_inv in Hf as (removed' & s4 & Hr & [= Hf <-]). destruct (Hread Hfit3) as [Hh3 Hk3].
    apply handle_remove in Hr as (file' & script' & -> & [(e & He' & _)|(existed' & He' & Hread')]); [..|done]; rewrite He' in Hf; [done|].
    assert (vault_fits (put_vault file' script' (put_vault file script s1))) as [_ Hk4]%Hread' by (unfold vault_fits in *; by rewrite Hv in Hfit).
    assert (forall k, secret_of s' k = if decide (k = TRACKER_TOKEN_PREVIOUS) then Ok None else if decide (k = TRACKER_TOKEN) then Ok None else secret_of s k) as Hs'.
    { intros k. rewrite <- (undisturbed_secret _ _ _ M), <- Hk3, <- Hk4. unfold secret_of. by rewrite Hv. }
    assert (stored_tokens s' = (None, None)) as Hst.
    { unfold stored_tokens. rewrite !Hs', decide_False by done. by rewrite !decide_True. }
    split; [done|]. split; [intros k Hin; rewrite Hs', !decide_False by set_solver; done|]. intros tokens Htok. rewrite <- Hst. by apply tokens_from_vault.
Qed.

(** A save sends the browser to this site.  Whatever [next] a link carried, the address
    a save redirects to starts with one slash, is followed by neither a slash nor a
    backslash, and holds printable ASCII only. *)
Theorem redirect_stays_here `{U : UrlLib} section next c s destination s' :
  Forall (fun b => byte_in 33 126 b = true) section ->
  commit_config section next c s = (Ok destination, s') ->
  Forall (fun b => byte_in 33 126 b = true) destination /\
  exists b rest, destination = "/"%byte :: b :: rest /\ b <> "/"%byte /\ b <> x5c.
Proof.
  intros Hsec H. unfold commit_config in H. apply sbind_inv in H as ([] & s1 & _ & H).
  2: { by apply sbind_inv in H as (? & ? & _ & ?). }
  apply sbind_inv in H as (? & s2 & _ & [= <- <-]).
  assert (Forall (fun b => byte_in 33 126 b = true) (bs "?saved=" ++ section)) as Hq by (apply Forall_app; split; [by repeat constructor|done]).
  destruct (sanitize_next next) as [path|] eqn:E; cbn [default].
  2: { split; [apply Forall_app; split; [by repeat constructor|done]|]. by exists "s"%byte, (bs "ettings?saved=" ++ section). }
  unfold sanitize_next in E. destruct next as [p|]; [|done]. cbn in E. destruct (_ && _ && _) eqn:Ec; [|done]. injection E as ->.
  apply andb_prop in Ec as [[Hhead Htwo]%andb_prop Hall]. apply bool_decide_eq_true in Hhead. apply negb_true_iff, bool_decide_eq_false in Htwo.
  assert (Forall (fun b => byte_in 33 126 b = true /\ b <> x5c) path) as Hp.
  { rewrite <- (concat_chars path). apply Forall_concat. apply Is_true_true, forallb_True in Hall. eapply Forall_impl; [exact Hall|].
    intros ch Hch%Is_true_true. apply andb_prop in Hch as [Hg Hb]. unfold char_is_ascii_graphic, char_is_byte in Hg.
    destruct ch as [|b [|]]; try done. constructor; [|constructor]. split; [done|]. intros ->. by rewrite bool_decide_eq_true_2 in Hb. }
  split; [apply Forall_app; split; [eapply Forall_impl; [exact Hp|]; by intros b []|done]|].
  destruct path as [|b0 path]; [done|]. injection Hhead as ->. destruct path as [|b1 path].
  - by exists "?"%byte, (bs "saved=" ++ section).
  - exists b1, (path ++ bs "?saved=" ++ section). split; [done|]. apply Forall_cons in Hp as [_ [[_ Hb] _]%Forall_cons].
    split; [|done]. intros ->. by apply Htwo.
Qed.

(** *** Witnesses *)

(** A process whose vault holds a token. *)
Definition token_vault : bytes :=
  file_after (@run_op toy_cipher (bs "/data/vault.bin") sample_salt (bs "k" ++ sample_salt) [] (PutOp TRACKER_TOKEN (bs "t0ken")) (Some empty_vault_file, sample_script)).2.

Definition token_serve : @Serve text_urls :=
  let s := sample_serve (Some (bs "t0ken"), None) serve_db ∅ in put_vault (Some token_vault) (sv_script s) s.

(** Both halves of a rotation fit in memory: nothing here is near the limit. *)
Lemma fits_computed (s : @Serve text_urls) :
  match sv_vault s with Some raw => (N.of_nat (length raw) <=? usize_max)%N | None => true end = true -> vault_fits s.
Proof. unfold vault_fits. destruct (sv_vault s); [|done]. intros H. by apply N.leb_le. Qed.

Definition rotated := @rotate_tracker_token text_urls toy_cipher no_key_files sample_env (bs "n3w") token_serve.

Definition preserved : option (@Serve text_urls) :=
  match @open_vault text_urls toy_cipher no_key_files sample_env token_serve with
  | (Ok vault, s1) => Some (@preserve_current text_urls toy_cipher (bs "n3w") vault s1).2
  | _ => None
  end.

Lemma preserved_fits vault s1 r1 s2 :
  @open_vault text_urls toy_cipher no_key_files sample_env token_serve = (Ok vault, s1) ->
  @preserve_current text_urls toy_cipher (bs "n3w") vault s1 = (r1, s2) -> vault_fits s2.
Proof.
  intros Ho Hp.
  assert (preserved = Some s2) as E by (unfold preserved; rewrite Ho, Hp; reflexivity).
  apply fits_computed. assert (match preserved with Some s => match sv_vault s with Some raw => (N.of_nat (length raw) <=? usize_max)%N | None => true end | None => true end = true)
    as H by (vm_compute; reflexivity). rewrite E in H. exact H.
Qed.

Lemma rotation_keeps_old_token_witness :
  rotated.1 = Ok tt /\ @stored_tokens text_urls toy_cipher no_key_files sample_env rotated.2 = (Some (bs "n3w"), Some (bs "t0ken")).
Proof.
  assert (rotated.1 = Ok tt) as Hok by (vm_compute; reflexivity). split; [exact Hok|].
  assert (vault_fits rotated.2) as Hf by (apply fits_computed; vm_compute; reflexivity).
  assert (bs "t0ken" <> bs "n3w") as Hne by (vm_compute; discriminate).
  assert (@secret_of text_urls toy_cipher no_key_files sample_env token_serve TRACKER_TOKEN = Ok (Some (bs "t0ken"))) as Hs by (vm_compute; reflexivity).
  destruct rotated as [r s'] eqn:E. cbn [fst snd] in *. subst r.
  exact (proj1 (proj2 (proj2 (@rotation_keeps_old_token text_urls toy_cipher no_key_files sample_env (bs "n3w") (bs "t0ken") token_serve (Ok tt) s'
    toy_cipher_laws ltac:(vm_compute; reflexivity) ltac:(vm_compute; reflexivity) Hs Hne preserved_fits Hf E)))).
Defined.

Lemma tokens_retired_witness :
  let done := @finalize_tracker_token text_urls toy_cipher no_key_files sample_env rotated.2 in
  done.1 = Ok tt /\ @stored_tokens text_urls toy_cipher no_key_files sample_env done.2 = (Some (bs "n3w"), None).
Proof.
  intros done. assert (done.1 = Ok tt) as Hok by (vm_compute; reflexivity). split; [exact Hok|].
  assert (vault_fits done.2) as Hf by (apply fits_computed; vm_compute; reflexivity).
  destruct done as [r s'] eqn:E. cbn [fst snd] in *. subst r. unfold done in E.
  rewrite (proj1 (proj1 (@tokens_retired text_urls toy_cipher no_key_files sample_env rotated.2 toy_cipher_laws) (Ok tt) s' E Hf)).
  vm_compute. reflexivity.
Defined.

Lemma redirect_stays_here_witness :
  (@commit_config text_urls (bs "sync") (Some (bs "//evil")) sample_config token_serve).1 = Ok (bs "/settings?saved=sync") /\
  exists b rest, bs "/settings?saved=sync" = "/"%byte :: b :: rest /\ b <> "/"%byte /\ b <> x5c.
Proof.
  assert ((@commit_config text_urls (bs "sync") (Some (bs "//evil")) sample_config token_serve).1 = Ok (bs "/settings?saved=sync")) as Hr
    by (vm_compute; reflexivity).
  split; [exact Hr|].
  destruct (@commit_config text_urls (bs "sync") (Some (bs "//evil")) sample_config token_serve) as [r s'] eqn:Ec. cbn [fst] in Hr. subst r.
  exact (proj2 (@redirect_stays_here text_urls (bs "sync") (Some (bs "//evil")) sample_config token_serve _ s' ltac:(by repeat constructor) Ec)).
Defined.

(** Turning the token off, failing half way, and then setting a new one: the old previous
    token is accepted again beside the new one. *)
Definition after_script (io : list bool) (s : @Serve text_urls) : @Serve text_urls :=
  put_db (sv_opened s) (sv_db s) (mkScript io (sc_entropy (sv_script s)) (sc_error (sv_script s))) s.

Example half_cleared_revives :
  let half := @clear_tracker_token text_urls toy_cipher no_key_files sample_env (after_script (replicate 10 true ++ [false]) rotated.2) in
  (match half.1 with Err (RemovingSecret _ _) => true | _ => false end, @stored_tokens text_urls toy_cipher no_key_files sample_env half.2,
   @stored_tokens text_urls toy_cipher no_key_files sample_env (@rotate_tracker_token text_urls toy_cipher no_key_files sample_env (bs "l8r") (after_script [] half.2)).2)
  = (true, (None, Some (bs "t0ken")), (Some (bs "l8r"), Some (bs "t0ken"))).
Proof. vm_compute. reflexivity. Qed.
