(* ===== verification/XmlRpc.v ===== *)
(** * The XML-RPC wire format of rTorrent (sharerr-rtorrent/src/xmlrpc.rs)

    Request bodies out, decoded values in.  The XML reader is a third-party library:
    a body is the events it gives, and resolving a reference and escaping text are
    parameters. *)

From S2P Require Import Prelude RustStd Text Effects.

(** ** Requests *)

Inductive Param : Type := ParamStr (s : bytes) | ParamInt (n : Z) | ParamBase64 (data : bytes).

(** [quick_xml::escape::escape] and base64's [STANDARD] engine. *)
Class XmlWriter : Type := {
  xml_escape : bytes -> bytes;
  base64_standard : bytes -> bytes
}.

Section Requests.
Context `{XW : XmlWriter}.

Definition write_param_value (param : Param) : bytes :=
  match param with
  | ParamStr s => bs "<string>" ++ xml_escape s ++ bs "</string>"
  | ParamInt n => bs "<i8>" ++ i_to_string n ++ bs "</i8>"
  | ParamBase64 data => bs "<base64>" ++ base64_standard data ++ bs "</base64>"
  end.

(** The declaration, whose quotation marks are byte 34. *)
Definition xml_declaration : bytes := bs "<?xml version=" ++ [x22] ++ bs "1.0" ++ [x22] ++ bs "?>".

Definition request_xml (method : bytes) (params : list Param) : bytes :=
  xml_declaration ++ bs "<methodCall><methodName>" ++ xml_escape method ++ bs "</methodName><params>" ++
  concat (map (fun param => bs "<param><value>" ++ write_param_value param ++ bs "</value></param>") params) ++
  bs "</params></methodCall>".

Definition multicall_request_xml (calls : list (bytes * list Param)) : bytes :=
  xml_declaration ++ bs "<methodCall><methodName>system.multicall</methodName><params><param><value><array><data>" ++
  concat (map (fun '(method, params) =>
    bs "<value><struct><member><name>methodName</name><value><string>" ++ xml_escape method ++
    bs "</string></value></member><member><name>params</name><value><array><data>" ++
    concat (map (fun param => bs "<value>" ++ write_param_value param ++ bs "</value>") params) ++
    bs "</data></array></value></member></struct></value>") calls) ++
  bs "</data></array></value></param></params></methodCall>".

End Requests.

(** A string literal of rTorrent's command language. *)
Definition quote_command_arg (value : bytes) : bytes :=
  [x22] ++ concat (map (fun ch => if bool_decide (ch = [x5c] \/ ch = [x22]) then x5c :: ch else ch) (chars value)) ++ [x22].

(** ** Replies *)

Inductive XmlValue : Type :=
| XmlStr (s : bytes)
| XmlInt (n : Z)
| XmlArray (items : list XmlValue)
| XmlStruct (members : list (bytes * XmlValue)).

(** [quick_xml::events::Event]: declarations, comments and the like are one. *)
Inductive Event : Type :=
| EvStart (name : bytes)
| EvEnd (name : bytes)
| EvEmpty (name : bytes)
| EvText (text : bytes)
| EvCData (text : bytes)
| EvGeneralRef (name : bytes)
| EvOther (what : bytes)
| EvEof.

(** The events a reader has still to give: each is an event or the reader's error, and
    past the last it is at the end. *)
Abbreviation Reader := (list (result Event bytes)).
Abbreviation Parser := (St Reader).

(** [BytesRef::resolve_char_ref] and [escape::resolve_xml_entity]. *)
Class XmlRefs : Type := {
  resolve_char_ref : bytes -> result (option bytes) bytes;
  resolve_xml_entity : bytes -> option bytes
}.

(** A [<fault>]'s message: its [faultString], or the value printed for debugging. *)
Inductive FaultText : Type := FaultString (s : bytes) | FaultDebug (v : XmlValue).

Inductive XmlError : Type :=
| ReaderFailed (e : bytes)
| NoParamOrFault
| Fault (message : FaultText)
| UnexpectedIn (element : bytes) (event : Event)
| ExpectedTag (tag : bytes) (event : Event)
| NotAnInteger (text : bytes)
| UnsupportedType (tag : bytes)
| UnknownEntity (name : bytes)
| OutOfFuel.

Section Reading.
Context `{XR : XmlRefs}.

(** [Reader::read_event]. *)
Definition read_event : Parser (result Event XmlError) := fun events =>
  match events with
  | [] => (Ok EvEof, [])
  | Ok event :: rest => (Ok event, rest)
  | Err e :: rest => (Err (ReaderFailed e), rest)
  end.

(** [char::is_ascii_whitespace]. *)
Definition char_is_ascii_whitespace (c : char) : bool := char_is_byte (fun b => bool_decide (b ∈ [x20; x09; x0a; x0c; x0d])) c.

Definition is_gap (event : Event) : bool :=
  match event with EvText t => forallb char_is_ascii_whitespace (chars t) | _ => false end.

Fixpoint next_structural (events : Reader) : result Event XmlError * Reader :=
  match events with
  | [] => (Ok EvEof, [])
  | Err e :: rest => (Err (ReaderFailed e), rest)
  | Ok event :: rest => if is_gap event then next_structural rest else (Ok event, rest)
  end.

Definition expect_start (tag : bytes) : Parser (result unit XmlError) :=
  try! event := next_structural in
  sret (if match event with EvStart name => bool_decide (name = tag) | _ => false end then Ok tt else Err (ExpectedTag tag event)).

Definition expect_end (tag : bytes) : Parser (result unit XmlError) :=
  try! event := next_structural in
  sret (if match event with EvEnd name => bool_decide (name = tag) | _ => false end then Ok tt else Err (ExpectedTag tag event)).

Definition push_general_ref (r text : bytes) : result bytes XmlError :=
  match resolve_char_ref r with
  | Err e => Err (ReaderFailed e)
  | Ok (Some ch) => Ok (text ++ ch)
  | Ok None => match resolve_xml_entity r with Some resolved => Ok (text ++ resolved) | None => Err (UnknownEntity r) end
  end.

Fixpoint read_text_until_end (tag text : bytes) (events : Reader) : result bytes XmlError * Reader :=
  match events with
  | [] => (Err (UnexpectedIn tag EvEof), [])
  | Err e :: rest => (Err (ReaderFailed e), rest)
  | Ok event :: rest =>
      match event with
      | EvText t | EvCData t => read_text_until_end tag (text ++ t) rest
      | EvGeneralRef r =>
          match push_general_ref r text with
          | Ok text => read_text_until_end tag text rest
          | Err e => (Err e, rest)
          end
      | EvEnd name => if bool_decide (name = tag) then (Ok text, rest) else (Err (UnexpectedIn tag event), rest)
      | _ => (Err (UnexpectedIn tag event), rest)
      end
  end.

Definition read_element_text (tag : bytes) : Parser (result bytes XmlError) := read_text_until_end tag [].

(** The loops of [parse_array] and [parse_struct], over the parser of one value. *)
Fixpoint parse_items (parse_value : Parser (result XmlValue XmlError)) (fuel : nat) (items : list XmlValue)
  : Parser (result (list XmlValue) XmlError) :=
  match fuel with
  | 0 => sret (Err OutOfFuel)
  | S fuel =>
      try! event := next_structural in
      match event with
      | EvStart name =>
          if bool_decide (name = bs "value")
          then try! item := parse_value in parse_items parse_value fuel (items ++ [item])
          else sret (Err (UnexpectedIn (bs "data") event))
      | EvEnd name => sret (if bool_decide (name = bs "data") then Ok items else Err (UnexpectedIn (bs "data") event))
      | _ => sret (Err (UnexpectedIn (bs "data") event))
      end
  end.

Definition parse_array (parse_value : Parser (result XmlValue XmlError)) (fuel : nat) : Parser (result XmlValue XmlError) :=
  try! event := next_structural in
  try! items :=
    match event with
    | EvStart name =>
        if bool_decide (name = bs "data") then parse_items parse_value fuel [] else sret (Err (ExpectedTag (bs "data") event))
    | EvEmpty name => sret (if bool_decide (name = bs "data") then Ok [] else Err (ExpectedTag (bs "data") event))
    | _ => sret (Err (ExpectedTag (bs "data") event))
    end in
  try! closed := expect_end (bs "array") in
  sret (Ok (XmlArray items)).

Fixpoint parse_struct (parse_value : Parser (result XmlValue XmlError)) (fuel : nat) (members : list (bytes * XmlValue))
  : Parser (result XmlValue XmlError) :=
  match fuel with
  | 0 => sret (Err OutOfFuel)
  | S fuel =>
      try! event := next_structural in
      match event with
      | EvStart element =>
          if bool_decide (element = bs "member") then
            try! opened := expect_start (bs "name") in
            try! name := read_element_text (bs "name") in
            try! started := expect_start (bs "value") in
            try! value := parse_value in
            try! closed := expect_end (bs "member") in
            parse_struct parse_value fuel (members ++ [(name, value)])
          else sret (Err (UnexpectedIn (bs "struct") event))
      | EvEnd element => sret (if bool_decide (element = bs "struct") then Ok (XmlStruct members) else Err (UnexpectedIn (bs "struct") event))
      | _ => sret (Err (UnexpectedIn (bs "struct") event))
      end
  end.

(** What an element inside [<value>] holds, by its name. *)
Definition parse_typed (parse_value : Parser (result XmlValue XmlError)) (fuel : nat) (tag : bytes) : Parser (result XmlValue XmlError) :=
  if bool_decide (tag = bs "array") then parse_array parse_value fuel
  else if bool_decide (tag = bs "struct") then parse_struct parse_value fuel []
  else if bool_decide (tag = bs "string") then
    let! text := read_element_text tag in
    sret (let? text := text in Ok (XmlStr text))
  else if bool_decide (tag ∈ [bs "i4"; bs "int"; bs "i8"]) then
    try! text := read_element_text tag in
    sret (match parse_i64 (trim text) with Some n => Ok (XmlInt n) | None => Err (NotAnInteger text) end)
  else sret (Err (UnsupportedType tag)).

(** [parse_value], after the opening [<value>]. *)
Fixpoint parse_value (fuel : nat) : Parser (result XmlValue XmlError) :=
  match fuel with
  | 0 => sret (Err OutOfFuel)
  | S fuel =>
      try! event := next_structural in
      match event with
      | EvText t => try! text := read_text_until_end (bs "value") t in sret (Ok (XmlStr text))
      | EvGeneralRef r =>
          try! text := sret (push_general_ref r []) in
          try! text := read_text_until_end (bs "value") text in
          sret (Ok (XmlStr text))
      | EvStart tag =>
          try! v := parse_typed (parse_value fuel) fuel tag in
          try! closed := expect_end (bs "value") in
          sret (Ok v)
      | EvEnd name => sret (if bool_decide (name = bs "value") then Ok (XmlStr []) else Err (UnexpectedIn (bs "value") event))
      | _ => sret (Err (UnexpectedIn (bs "value") event))
      end
  end.

Definition fault_message (value : XmlValue) : FaultText :=
  match value with
  | XmlStruct members =>
      match omap (fun '(name, member) => if bool_decide (name = bs "faultString") then match member with XmlStr s => Some s | _ => None end else None) members with
      | s :: _ => FaultString s
      | [] => FaultDebug value
      end
  | _ => FaultDebug value
  end.

(** The loop of [parse_response]. *)
Fixpoint find_reply (fuel : nat) : Parser (result XmlValue XmlError) :=
  match fuel with
  | 0 => sret (Err OutOfFuel)
  | S fuel =>
      try! event := next_structural in
      match event with
      | EvStart name =>
          if bool_decide (name = bs "fault") then
            try! started := expect_start (bs "value") in
            try! value := parse_value fuel in
            sret (Err (Fault (fault_message value)))
          else if bool_decide (name = bs "param") then
            try! started := expect_start (bs "value") in
            parse_value fuel
          else find_reply fuel
      | EvEof => sret (Err NoParamOrFault)
      | _ => find_reply fuel
      end
  end.

(** [parse_response] of the events of a body; one unit of fuel per event and one
    for the end. *)
Definition parse_response (events : Reader) : result XmlValue XmlError := (find_reply (S (length events)) events).1.

End Reading.

(** ** Facts: the fuel is enough *)

(** A step ends with a reply or a refusal of its own and reads forward. *)
Definition fine {A : Type} (r : result A XmlError * Reader) (events : Reader) : Prop :=
  r.1 <> Err OutOfFuel /\ length r.2 <= length events.

Lemma fine_ret {A : Type} (r : result A XmlError) events : r <> Err OutOfFuel -> fine (sret r events) events.
Proof. by split. Qed.

Lemma fine_try {A B : Type} (m : Parser (result A XmlError)) (k : A -> Parser (result B XmlError)) events :
  fine (m events) events -> (forall a rest, m events = (Ok a, rest) -> fine (k a rest) rest) -> fine (try_bind m k events) events.
Proof.
  intros [Hm Hl] Hk. unfold try_bind, sbind. destruct (m events) as [[a|e] rest] eqn:E; cbn in *.
  - destruct (Hk a rest eq_refl) as [H1 H2]. split; [done|]. lia.
  - split; [|done]. cbn. congruence.
Qed.

Section Fuel.
Context `{XR : XmlRefs}.

Lemma next_structural_fine events : fine (next_structural events) events.
Proof.
  induction events as [|[event|e] events IH]; cbn; [done| |split; [done|cbn; lia]].
  destruct (is_gap event); [destruct IH; split; [done|cbn; lia]|]. split; [done|]. cbn. lia.
Qed.

Lemma next_structural_reads events event rest :
  next_structural events = (Ok event, rest) -> event <> EvEof -> length rest < length events.
Proof.
  induction events as [|[ev|e] events IH]; cbn; [by intros [= <- _]| |done]. intros H Hne.
  destruct (is_gap ev); [specialize (IH H Hne); lia|]. injection H as _ <-. lia.
Qed.

Lemma push_general_ref_fine r text : push_general_ref r text <> Err OutOfFuel.
Proof. unfold push_general_ref. repeat case_match; congruence. Qed.

Lemma read_text_fine tag text events : fine (read_text_until_end tag text events) events.
Proof.
  revert text. induction events as [|[event|e] events IH]; intros text; cbn; [split; [done|cbn; lia]| |split; [done|cbn; lia]].
  assert (forall text, fine (read_text_until_end tag text events) (Ok event :: events)) as H
    by (intros t; destruct (IH t); split; [done|cbn; lia]).
  destruct event; try (split; [done|cbn; lia]); try apply H.
  - case_bool_decide; (split; [done|cbn; lia]).
  - destruct (push_general_ref name text) eqn:E; [apply H|]. split; [|cbn; lia]. cbn. intros [= ->]. by apply push_general_ref_fine in E.
Qed.

Lemma expect_start_fine tag events : fine (expect_start tag events) events.
Proof. apply fine_try; [apply next_structural_fine|]. intros. apply fine_ret. by case_match. Qed.

Lemma expect_end_fine tag events : fine (expect_end tag events) events.
Proof. apply fine_try; [apply next_structural_fine|]. intros. apply fine_ret. by case_match. Qed.

(** A value parser that is fine on everything shorter than [n]. *)
Definition fine_below (n : nat) (pv : Parser (result XmlValue XmlError)) : Prop := forall events, length events < n -> fine (pv events) events.

Lemma parse_items_fine n pv fuel items events :
  fine_below n pv -> length events < fuel -> length events <= n -> fine (parse_items pv fuel items events) events.
Proof.
  intros Hpv. revert items events. induction fuel as [|fuel IH]; intros items events Hf Hn; [lia|]. cbn [parse_items].
  apply fine_try; [apply next_structural_fine|]. intros event rest Hrest.
  destruct event; try (apply fine_ret; by try case_bool_decide). case_bool_decide; [|by apply fine_ret].
  apply next_structural_reads in Hrest; [|done]. apply fine_try; [apply Hpv; lia|]. intros item rest' Hr.
  pose proof (Hpv rest ltac:(lia)) as [_ Hl]. rewrite Hr in Hl. cbn in Hl. apply IH; lia.
Qed.

Lemma parse_array_fine n pv fuel events :
  fine_below n pv -> length events < fuel -> length events <= n -> fine (parse_array pv fuel events) events.
Proof.
  intros Hpv Hf Hn. unfold parse_array. apply fine_try; [apply next_structural_fine|]. intros event rest Hrest.
  pose proof (next_structural_fine events) as [_ Hl]. rewrite Hrest in Hl. cbn in Hl. apply fine_try.
  - destruct event; try (apply fine_ret; by try case_bool_decide). case_bool_decide; [|by apply fine_ret]. eapply parse_items_fine; [done|lia..].
  - intros items rest' _. apply fine_try; [apply expect_end_fine|]. intros. by apply fine_ret.
Qed.

Lemma parse_struct_fine n pv fuel members events :
  fine_below n pv -> length events < fuel -> length events <= n -> fine (parse_struct pv fuel members events) events.
Proof.
  intros Hpv. revert members events. induction fuel as [|fuel IH]; intros members events Hf Hn; [lia|]. cbn [parse_struct].
  apply fine_try; [apply next_structural_fine|]. intros event rest Hrest.
  destruct event; try (apply fine_ret; by try case_bool_decide). case_bool_decide; [|by apply fine_ret].
  apply next_structural_reads in Hrest; [|done].
  apply fine_try; [apply expect_start_fine|]. intros [] r1 H1. pose proof (expect_start_fine (bs "name") rest) as [_ L1]. rewrite H1 in L1.
  apply fine_try; [apply read_text_fine|]. intros named r2 H2. pose proof (read_text_fine (bs "name") [] r1) as [_ L2].
  unfold read_element_text in H2. rewrite H2 in L2.
  apply fine_try; [apply expect_start_fine|]. intros [] r3 H3. pose proof (expect_start_fine (bs "value") r2) as [_ L3]. rewrite H3 in L3.
  cbn in L1, L2, L3. apply fine_try; [apply Hpv; lia|]. intros value r4 H4. pose proof (Hpv r3 ltac:(lia)) as [_ L4]. rewrite H4 in L4.
  apply fine_try; [apply expect_end_fine|]. intros [] r5 H5. pose proof (expect_end_fine (bs "member") r4) as [_ L5]. rewrite H5 in L5.
  cbn in L4, L5. apply IH; lia.
Qed.

Lemma parse_typed_fine n pv fuel tag events :
  fine_below n pv -> length events < fuel -> length events <= n -> fine (parse_typed pv fuel tag events) events.
Proof.
  intros Hpv Hf Hn. unfold parse_typed. case_bool_decide; [by eapply parse_array_fine|]. case_bool_decide; [by eapply parse_struct_fine|].
  case_bool_decide.
  - pose proof (read_text_fine tag [] events) as [Ht Hl]. unfold sbind, read_element_text. destruct (read_text_until_end _ _ _) as [[t|e] rest]; cbn in *;
      (split; [|done]); cbn; congruence.
  - case_bool_decide; [|by apply fine_ret]. apply fine_try; [apply read_text_fine|]. intros. apply fine_ret. by case_match.
Qed.

Lemma parse_value_fine fuel : fine_below fuel (parse_value fuel).
Proof.
  induction fuel as [|fuel IH]; intros events Hf; [lia|]. cbn [parse_value].
  apply fine_try; [apply next_structural_fine|]. intros event rest Hrest.
  pose proof (next_structural_fine events) as [_ Hl]. rewrite Hrest in Hl. cbn in Hl.
  destruct event; try (apply fine_ret; by try case_bool_decide).
  - apply next_structural_reads in Hrest; [|done]. apply fine_try; [eapply parse_typed_fine; [exact IH|lia..]|]. intros v r1 _.
    apply fine_try; [apply expect_end_fine|]. intros. by apply fine_ret.
  - apply fine_try; [apply read_text_fine|]. intros. by apply fine_ret.
  - apply fine_try; [apply fine_ret, push_general_ref_fine|]. intros t r1 _. apply fine_try; [apply read_text_fine|]. intros. by apply fine_ret.
Qed.

Lemma find_reply_fine fuel events : length events < fuel -> fine (find_reply fuel events) events.
Proof.
  revert events. induction fuel as [|fuel IH]; intros events Hf; [lia|]. cbn [find_reply].
  apply fine_try; [apply next_structural_fine|]. intros event rest Hrest.
  assert (event = EvEof \/ length rest < length events) as [->|Hl].
  { destruct event; try (right; by apply next_structural_reads in Hrest). by left. }
  { by apply fine_ret. }
  assert (forall tag, fine ((try! started := expect_start tag in parse_value fuel) rest) rest) as Hv.
  { intros tag. apply fine_try; [apply expect_start_fine|]. intros [] r1 H1. pose proof (expect_start_fine tag rest) as [_ L1]. rewrite H1 in L1.
    cbn in L1. apply parse_value_fine. lia. }
  destruct event; try (apply IH; lia); [|by apply fine_ret]. case_bool_decide; [|case_bool_decide; [apply Hv|apply IH; lia]].
  apply fine_try; [apply expect_start_fine|]. intros [] r1 H1. pose proof (expect_start_fine (bs "value") rest) as [_ L1]. rewrite H1 in L1.
  cbn in L1. apply fine_try; [apply parse_value_fine; lia|]. intros. by apply fine_ret.
Qed.

End Fuel.

(** ** What a reply looks like *)

Section Renderings.
Context `{XR : XmlRefs}.

(** The events a text may arrive in: pieces, CDATA sections and references. *)
Inductive text_events : list Event -> bytes -> Prop :=
| te_nil : text_events [] []
| te_text t events s : text_events events s -> text_events (EvText t :: events) (t ++ s)
| te_cdata t events s : text_events events s -> text_events (EvCData t :: events) (t ++ s)
| te_char r ch events s : resolve_char_ref r = Ok (Some ch) -> text_events events s -> text_events (EvGeneralRef r :: events) (ch ++ s)
| te_entity r t events s :
    resolve_char_ref r = Ok None -> resolve_xml_entity r = Some t -> text_events events s -> text_events (EvGeneralRef r :: events) (t ++ s).

(** White space between tags. *)
Definition gaps (g : list Event) : Prop := Forall (fun event => is_gap event = true) g.

(** A bare string begins with text that is not white space, or a reference. *)
Definition bare_start (event : Event) : Prop :=
  match event with EvText _ => is_gap event = false | EvGeneralRef _ => True | _ => False end.

(** The events after an opening [<value>] up to its end, of every form a server may
    send a value in; what is inside a typed element; the items of an array and the
    members of a struct up to their closing tags. *)
Inductive value_events : XmlValue -> list Event -> Prop :=
| ve_blank g : gaps g -> value_events (XmlStr []) (g ++ [EvEnd (bs "value")])
| ve_bare g event events s :
    gaps g -> bare_start event -> text_events (event :: events) s ->
    value_events (XmlStr s) (g ++ event :: events ++ [EvEnd (bs "value")])
| ve_typed g g' v tag events :
    gaps g -> gaps g' -> typed_events v tag events -> value_events v (g ++ EvStart tag :: events ++ g' ++ [EvEnd (bs "value")])
with typed_events : XmlValue -> bytes -> list Event -> Prop :=
| ty_string events s : text_events events s -> typed_events (XmlStr s) (bs "string") (events ++ [EvEnd (bs "string")])
| ty_int tag events s n :
    tag ∈ [bs "i4"; bs "int"; bs "i8"] -> text_events events s -> parse_i64 (trim s) = Some n ->
    typed_events (XmlInt n) tag (events ++ [EvEnd tag])
| ty_array g g' items events :
    gaps g -> gaps g' -> item_events items events ->
    typed_events (XmlArray items) (bs "array") (g ++ EvStart (bs "data") :: events ++ g' ++ [EvEnd (bs "array")])
| ty_array_empty g g' :
    gaps g -> gaps g' -> typed_events (XmlArray []) (bs "array") (g ++ EvEmpty (bs "data") :: g' ++ [EvEnd (bs "array")])
| ty_struct members events : member_events members events -> typed_events (XmlStruct members) (bs "struct") events
with item_events : list XmlValue -> list Event -> Prop :=
| ie_end g : gaps g -> item_events [] (g ++ [EvEnd (bs "data")])
| ie_item g v events items rest :
    gaps g -> value_events v events -> item_events items rest ->
    item_events (v :: items) (g ++ EvStart (bs "value") :: events ++ rest)
with member_events : list (bytes * XmlValue) -> list Event -> Prop :=
| me_end g : gaps g -> member_events [] (g ++ [EvEnd (bs "struct")])
| me_member g1 g2 g3 g4 name_events name events v members rest :
    gaps g1 -> gaps g2 -> gaps g3 -> gaps g4 -> text_events name_events name -> value_events v events -> member_events members rest ->
    member_events ((name, v) :: members)
      (g1 ++ EvStart (bs "member") :: g2 ++ EvStart (bs "name") :: name_events ++ EvEnd (bs "name") ::
       g3 ++ EvStart (bs "value") :: events ++ g4 ++ EvEnd (bs "member") :: rest).

Scheme value_events_mut := Induction for value_events Sort Prop
  with typed_events_mut := Induction for typed_events Sort Prop
  with item_events_mut := Induction for item_events Sort Prop
  with member_events_mut := Induction for member_events Sort Prop.
Combined Scheme rendering_ind from value_events_mut, typed_events_mut, item_events_mut, member_events_mut.

Abbreviation given events := (map (@Ok Event bytes) events).

Lemma next_structural_gaps g event events rest :
  gaps g -> is_gap event = false -> next_structural (given (g ++ event :: events) ++ rest) = (Ok event, given events ++ rest).
Proof. induction 1 as [|x g Hx Hg IH]; intros He; cbn; [by rewrite He|]. rewrite Hx. by apply IH. Qed.

Lemma expect_start_gaps g tag events rest : gaps g -> expect_start tag (given (g ++ EvStart tag :: events) ++ rest) = (Ok tt, given events ++ rest).
Proof. intros Hg. unfold expect_start, try_bind, sbind. rewrite next_structural_gaps by done. cbn. by rewrite bool_decide_eq_true_2. Qed.

Lemma expect_end_gaps g tag events rest : gaps g -> expect_end tag (given (g ++ EvEnd tag :: events) ++ rest) = (Ok tt, given events ++ rest).
Proof. intros Hg. unfold expect_end, try_bind, sbind. rewrite next_structural_gaps by done. cbn. by rewrite bool_decide_eq_true_2. Qed.

Lemma read_text_events events s tag text more rest :
  text_events events s -> read_text_until_end tag text (given (events ++ EvEnd tag :: more) ++ rest) = (Ok (text ++ s), given more ++ rest).
Proof.
  intros H. revert text. induction H as [|t events s _ IH|t events s _ IH|r ch events s Hr _ IH|r t events s Hr Ht _ IH]; intros text; cbn.
  - by rewrite bool_decide_eq_true_2, app_nil_r.
  - by rewrite IH, app_assoc.
  - by rewrite IH, app_assoc.
  - unfold push_general_ref. by rewrite Hr, IH, app_assoc.
  - unfold push_general_ref. by rewrite Hr, Ht, IH, app_assoc.
Qed.

(** Every rendering is read back, with fuel for its length. *)
Lemma renderings_parse :
  (forall v events, value_events v events -> forall fuel rest, length events < fuel ->
     parse_value fuel (given events ++ rest) = (Ok v, rest)) /\
  (forall v tag events, typed_events v tag events -> forall fuel rest, length events < fuel ->
     parse_typed (parse_value fuel) fuel tag (given events ++ rest) = (Ok v, rest)) /\
  (forall items events, item_events items events -> forall fuel fuel' acc rest, length events < fuel -> length events < fuel' ->
     parse_items (parse_value fuel) fuel' acc (given events ++ rest) = (Ok (acc ++ items), rest)) /\
  (forall members events, member_events members events -> forall fuel fuel' acc rest, length events < fuel -> length events < fuel' ->
     parse_struct (parse_value fuel) fuel' acc (given events ++ rest) = (Ok (XmlStruct (acc ++ members)), rest)).
Proof.
  apply rendering_ind.
  - intros g Hg [|fuel] rest Hf; [lia|]. cbn [parse_value]. unfold try_bind, sbind. by rewrite next_structural_gaps.
  - intros g event events s Hg Hb Ht [|fuel] rest Hf; [lia|]. cbn [parse_value]. unfold try_bind at 1, sbind at 1.
    destruct event; try done; inversion Ht; subst; rewrite next_structural_gaps by done; unfold try_bind, sbind; cbn [sret].
    + by rewrite (read_text_events _ s0).
    + unfold push_general_ref. rewrite H1. cbn [app]. by rewrite (read_text_events _ s0).
    + unfold push_general_ref. rewrite H1, H2. cbn [app]. by rewrite (read_text_events _ s0).
  - intros g g' v tag events Hg Hg' Ht IH [|fuel] rest Hf; [lia|]. cbn [parse_value]. unfold try_bind at 1, sbind at 1.
    rewrite next_structural_gaps by done. unfold try_bind at 1, sbind at 1. rewrite map_app, <- app_assoc.
    rewrite IH by (rewrite !length_app in Hf; cbn in Hf; rewrite !length_app in Hf; lia). unfold try_bind at 1, sbind at 1. by rewrite expect_end_gaps.
  - intros events s Ht fuel rest Hf. unfold parse_typed. rewrite !bool_decide_eq_false_2, bool_decide_eq_true_2 by done. unfold sbind, read_element_text. by rewrite (read_text_events _ s).
  - intros tag events s n Htag Ht Hn fuel rest Hf. unfold parse_typed.
    assert (tag <> bs "array" /\ tag <> bs "struct" /\ tag <> bs "string") as (H1 & H2 & H3)
      by (rewrite !elem_of_cons, elem_of_nil in Htag; destruct Htag as [->|[->|[->|[]]]]; done).
    rewrite !bool_decide_eq_false_2, bool_decide_eq_true_2 by done. unfold try_bind, sbind, read_element_text. rewrite (read_text_events _ s) by done.
    cbn [sret app]. by rewrite Hn.
  - intros g g' items events Hg Hg' Hi IH fuel rest Hf. unfold parse_typed. rewrite bool_decide_eq_true_2 by done.
    unfold parse_array, try_bind at 1, sbind at 1. rewrite next_structural_gaps by done. rewrite bool_decide_eq_true_2 by done.
    unfold try_bind at 1, sbind at 1. rewrite map_app, <- app_assoc. rewrite !length_app in Hf. cbn in Hf. rewrite !length_app in Hf.
    rewrite IH by lia. unfold try_bind at 1, sbind at 1. by rewrite expect_end_gaps.
  - intros g g' Hg Hg' fuel rest Hf. unfold parse_typed. rewrite bool_decide_eq_true_2 by done.
    unfold parse_array, try_bind at 1, sbind at 1. rewrite next_structural_gaps by done. rewrite bool_decide_eq_true_2 by done.
    unfold try_bind at 1, sbind at 1. cbn [sret]. unfold try_bind, sbind. by rewrite expect_end_gaps.
  - intros members events Hm IH fuel rest Hf. unfold parse_typed. rewrite bool_decide_eq_false_2, bool_decide_eq_true_2 by done. by rewrite IH.
  - intros g Hg fuel [|fuel'] acc rest Hf Hf'; [lia|]. cbn [parse_items]. unfold try_bind, sbind. rewrite next_structural_gaps by done. by rewrite app_nil_r.
  - intros g v events items rest Hg Hv IHv Hi IHi fuel [|fuel'] acc more Hf Hf'; [lia|]. rewrite !length_app in Hf, Hf'. cbn in Hf, Hf'. rewrite !length_app in Hf, Hf'.
    cbn [parse_items]. unfold try_bind at 1, sbind at 1. rewrite next_structural_gaps by done. rewrite bool_decide_eq_true_2 by done.
    unfold try_bind at 1, sbind at 1. rewrite map_app, <- app_assoc, IHv by lia. rewrite IHi by lia. by rewrite <- app_assoc.
  - intros g Hg fuel [|fuel'] acc rest Hf Hf'; [lia|]. cbn [parse_struct]. unfold try_bind, sbind. rewrite next_structural_gaps by done. by rewrite app_nil_r.
  - intros g1 g2 g3 g4 nev name events v members rest Hg1 Hg2 Hg3 Hg4 Hn Hv IHv Hm IHm fuel [|fuel'] acc more Hf Hf'; [lia|].
    repeat (rewrite ?length_app in Hf, Hf'; cbn [length] in Hf, Hf').
    cbn [parse_struct]. unfold try_bind at 1, sbind at 1. rewrite next_structural_gaps by done. rewrite bool_decide_eq_true_2 by done.
    unfold try_bind at 1, sbind at 1. rewrite expect_start_gaps by done.
    unfold try_bind at 1, sbind at 1, read_element_text. rewrite (read_text_events _ name) by done. cbn [app].
    unfold try_bind at 1, sbind at 1. rewrite expect_start_gaps by done.
    unfold try_bind at 1, sbind at 1. rewrite map_app, <- app_assoc, IHv by lia.
    unfold try_bind at 1, sbind at 1. rewrite expect_end_gaps by done. rewrite IHm by lia. by rewrite <- app_assoc.
Qed.

End Renderings.

(** ** The literals of the command language *)

(** How rTorrent reads a string literal, from after the opening quotation mark: a
    backslash takes the next byte as it is, and the next bare mark ends it. *)
Fixpoint read_literal (s : bytes) : option (bytes * bytes) :=
  match s with
  | [] => None
  | b :: r =>
      if bool_decide (b = x22) then Some ([], r)
      else if bool_decide (b = x5c) then
        match r with
        | [] => None
        | c :: r => '(text, rest) ← read_literal r; Some (c :: text, rest)
        end
      else '(text, rest) ← read_literal r; Some (b :: text, rest)
  end.

Definition escaped_char (ch : char) : bytes := if bool_decide (ch = [x5c] \/ ch = [x22]) then x5c :: ch else ch.

Lemma quote_unfold value : quote_command_arg value = x22 :: concat (map escaped_char (chars value)) ++ [x22].
Proof. done. Qed.

Lemma read_plain c s :
  Forall (fun b => b <> x22 /\ b <> x5c) c -> read_literal (c ++ s) = '(text, rest) ← read_literal s; Some (c ++ text, rest).
Proof.
  induction 1 as [|b c [H1 H2] Hc IH]; cbn; [by destruct (read_literal s) as [[]|]|].
  rewrite !bool_decide_eq_false_2 by done. rewrite IH. by destruct (read_literal s) as [[]|].
Qed.

Lemma escaped_read c s : char_ok c -> read_literal (escaped_char c ++ s) = '(text, rest) ← read_literal s; Some (c ++ text, rest).
Proof.
  intros H. unfold escaped_char. case_bool_decide as He.
  - destruct He as [-> | ->]; cbn; by destruct (read_literal s) as [[]|].
  - apply read_plain. destruct H as [[b ->]|H].
    + constructor; [|done]. split; intros ->; apply He; auto.
    + eapply Forall_impl; [exact H|]. intros b Hb. by split; intros ->.
Qed.

Lemma escaped_all_read cs s :
  Forall char_ok cs -> read_literal (concat (map escaped_char cs) ++ s) = '(text, rest) ← read_literal s; Some (concat cs ++ text, rest).
Proof.
  induction 1 as [|c cs Hc Hcs IH]; [cbn; by destruct (read_literal s) as [[]|]|]. cbn [map concat].
  rewrite <- !app_assoc, escaped_read, IH by done. destruct (read_literal s) as [[text rest]|]; [|done]. cbn. by rewrite app_assoc.
Qed.

Lemma quoted_literal value :
  utf8_valid value = true ->
  exists literal, quote_command_arg value = x22 :: literal /\ forall rest, read_literal (literal ++ rest) = Some (value, rest).
Proof.
  intros [_ Hc]%utf8_chars. exists (concat (map escaped_char (chars value)) ++ [x22]). split; [apply quote_unfold|]. intros rest.
  rewrite <- app_assoc, escaped_all_read by done. cbn [app read_literal]. rewrite bool_decide_eq_true_2 by done. cbn [mbind option_bind]. by rewrite concat_chars, app_nil_r.
Qed.

(** ** What the format promises *)

(** Before the reply proper: anything but the two elements the parser looks for. *)
Definition skipped (event : Event) : Prop :=
  match event with EvStart name => name <> bs "fault" /\ name <> bs "param" | EvEof => False | _ => True end.

Lemma find_reply_skips `{XR : XmlRefs} prolog : forall fuel events,
  Forall skipped prolog -> length prolog <= fuel ->
  exists fuel', fuel - length prolog <= fuel' /\ find_reply fuel (map Ok prolog ++ events) = find_reply fuel' events.
Proof.
  induction prolog as [|event prolog IH]; intros fuel events Hp Hf; [exists fuel; cbn; split; [lia|done]|].
  apply Forall_cons in Hp as [He Hp]. destruct fuel as [|fuel]; [cbn in Hf; lia|]. cbn [length] in Hf.
  destruct (is_gap event) eqn:Eg.
  - assert (find_reply (S fuel) (map Ok (event :: prolog) ++ events) = find_reply (S fuel) (map Ok prolog ++ events)) as ->.
    { cbn [find_reply]. unfold try_bind, sbind. cbn [map app next_structural]. by rewrite Eg. }
    destruct (IH (S fuel) events Hp ltac:(lia)) as (fuel' & H1 & H2). exists fuel'. cbn [length]. split; [lia|done].
  - destruct (IH fuel events Hp ltac:(lia)) as (fuel' & H1 & H2). exists fuel'. cbn [length]. split; [lia|]. rewrite <- H2.
    cbn [find_reply]. unfold try_bind at 1, sbind at 1. cbn [map app next_structural]. rewrite Eg.
    destruct event; try done. destruct He as [Hn1 Hn2]. by rewrite !bool_decide_eq_false_2.
Qed.

(** The reply an element of either name holds. *)
Lemma response_read `{XR : XmlRefs} prolog (element : bytes) g v events rest :
  Forall skipped prolog -> gaps g -> value_events v events -> element ∈ [bs "param"; bs "fault"] ->
  parse_response (map Ok (prolog ++ EvStart element :: g ++ EvStart (bs "value") :: events) ++ rest) =
    if decide (element = bs "param") then Ok v else Err (Fault (fault_message v)).
Proof.
  intros Hp Hg Hv Hel. unfold parse_response. rewrite map_app, <- app_assoc.
  edestruct (find_reply_skips prolog) as (fuel & Hf & ->); [done| |]; [rewrite !length_app, !length_map; lia|].
  rewrite !length_app, !length_map in Hf. cbn [length] in Hf. rewrite !length_app in Hf. cbn [length] in Hf.
  destruct fuel as [|fuel]; [lia|]. cbn [find_reply].
  unfold try_bind at 1, sbind at 1. cbn [map app next_structural is_gap].
  assert ((try! started := expect_start (bs "value") in parse_value fuel) (map Ok (g ++ EvStart (bs "value") :: events) ++ rest) = (Ok v, rest)) as E.
  { unfold try_bind, sbind. rewrite expect_start_gaps by done. apply renderings_parse; [done|lia]. }
  rewrite !elem_of_cons, elem_of_nil in Hel. destruct Hel as [->|[->|[]]].
  - rewrite bool_decide_eq_false_2, bool_decide_eq_true_2, decide_True by done. by rewrite E.
  - rewrite bool_decide_eq_true_2, decide_False by done. unfold try_bind at 1, sbind at 1 in E. unfold try_bind at 1, sbind at 1.
    rewrite expect_start_gaps in E |- * by done. unfold try_bind, sbind. by rewrite E.
Qed.

(** Every form of a reply is read for what it means.  Whatever comes before the
    reply, however a server spaces its tags, splits its text and spells its
    references, a value of any nesting is read back as it was sent, as the result of
    a call or as the message of a fault. *)
Theorem reply_read_back `{XR : XmlRefs} prolog (element : bytes) g v events rest :
  Forall skipped prolog -> gaps g -> value_events v events -> element ∈ [bs "param"; bs "fault"] ->
  parse_response (map Ok (prolog ++ EvStart element :: g ++ EvStart (bs "value") :: events) ++ rest) =
    if decide (element = bs "param") then Ok v else Err (Fault (fault_message v)).
Proof. apply response_read. Qed.

(** No reply hangs the parser: one unit of fuel for each event is always enough,
    whatever the events are. *)
Theorem reply_always_decided `{XR : XmlRefs} events : parse_response events <> Err OutOfFuel.
Proof. unfold parse_response. apply (find_reply_fine (S (length events)) events). lia. Qed.

(** A value cannot leave its quotation marks.  The literal written for any text
    reads back as that text, and what follows it is read as what follows it: a path
    or a tag with quotation marks and backslashes cannot add a command. *)
Theorem quoted_read_back value rest :
  utf8_valid value = true ->
  exists literal, quote_command_arg value = x22 :: literal /\ read_literal (literal ++ rest) = Some (value, rest).
Proof. intros (literal & E & H)%quoted_literal. exists literal. by split. Qed.

(** *** Witnesses *)

(** The five predefined entities, and no character reference. *)
Definition predefined_refs : XmlRefs := {|
  resolve_char_ref := fun _ => Ok None;
  resolve_xml_entity := fun name =>
    if bool_decide (name = bs "amp") then Some (bs "&")
    else if bool_decide (name = bs "lt") then Some (bs "<")
    else if bool_decide (name = bs "gt") then Some (bs ">") else None
|}.

(** A value in a reply that spaces its tags: an array of a number and of a string with a reference. *)
Definition answer : XmlValue := XmlArray [XmlInt (-7); XmlStr (bs "a&b")].
Definition answer_events : list Event :=
  [EvText (bs " ")] ++ EvStart (bs "array") ::
  ([] ++ EvStart (bs "data") ::
    ([EvText (bs " ")] ++ EvStart (bs "value") ::
      ([] ++ EvStart (bs "i8") :: ([EvText (bs " -7")] ++ [EvEnd (bs "i8")]) ++ [] ++ [EvEnd (bs "value")]) ++
     [] ++ EvStart (bs "value") ::
      ([] ++ EvText (bs "a") :: [EvGeneralRef (bs "amp"); EvCData (bs "b")] ++ [EvEnd (bs "value")]) ++
     [] ++ [EvEnd (bs "data")]) ++
   [] ++ [EvEnd (bs "array")]) ++
  [] ++ [EvEnd (bs "value")].

Lemma answer_rendered : value_events (XR := predefined_refs) answer answer_events.
Proof.
  assert (gaps [EvText (bs " ")]) as Hg by (constructor; [vm_compute; reflexivity|constructor]).
  assert (gaps []) as Hn by constructor.
  apply ve_typed; [exact Hg..|exact Hn|]. apply ty_array; [exact Hn..|]. apply ie_item; [exact Hg| |apply ie_item; [exact Hn| |apply ie_end, Hn]].
  - apply ve_typed; [exact Hn..|]. apply (ty_int (bs "i8") _ (bs " -7")); [apply list_elem_of_further, list_elem_of_further, list_elem_of_here| |vm_compute; reflexivity].
    apply (te_text (bs " -7") [] []), te_nil.
  - apply (ve_bare _ _ _ (bs "a" ++ bs "&" ++ bs "b" ++ [])); [exact Hn|vm_compute; reflexivity|].
    apply te_text, te_entity; [reflexivity|vm_compute; reflexivity|]. apply te_cdata, te_nil.
Qed.

Lemma reply_read_back_witness :
  let XR := predefined_refs in
  parse_response (map Ok ([EvOther (bs "decl"); EvStart (bs "methodResponse"); EvStart (bs "params")] ++
      EvStart (bs "param") :: [EvText (bs " ")] ++ EvStart (bs "value") :: answer_events) ++ [Err (bs "cut off")]) =
    if decide (bs "param" = bs "param") then Ok answer else Err (Fault (fault_message answer)).
Proof.
  intros XR. apply reply_read_back; [| |exact answer_rendered|apply list_elem_of_here].
  - repeat constructor; cbn; try discriminate.
  - constructor; [vm_compute; reflexivity|constructor].
Defined.

(** A path with a quotation mark, a backslash and a character of two bytes. *)
Lemma quoted_read_back_witness :
  let value := bs "/media/a " ++ [x22; x5c; xc3; xa9] in
  utf8_valid value = true /\
  exists literal, quote_command_arg value = x22 :: literal /\ read_literal (literal ++ bs ",d.start=") = Some (value, bs ",d.start=").
Proof. split; [vm_compute; reflexivity|]. apply quoted_read_back. vm_compute; reflexivity. Defined.
