(* ===== verification/Rtorrent.v ===== *)
(** * The rTorrent adapter (sharerr-rtorrent/src/client.rs and adapter.rs)

    What each operation of the client contract asks of rTorrent.  rTorrent is a
    program behind a proxy: its reply to a request may depend on every request it
    was sent before, so it is a function of the bodies posted to it.  Running the
    contract's calls against it gives an instance of the contract. *)

From Stdlib Require Import SpecFloat.
From S2P Require Import Prelude RustStd Text Effects Endpoint Client XmlRpc.

(** ** Requests *)

Inductive RpcRequest : Type :=
| Single (method : bytes) (params : list Param)
| Batch (calls : list (bytes * list Param)).

Definition body_of `{XW : XmlWriter} (request : RpcRequest) : bytes :=
  match request with Single method params => request_xml method params | Batch calls => multicall_request_xml calls end.

(** The endpoint, and what its proxy answers to a body after the bodies before it: a
    status and a body that is text or cannot be read, or no answer at all. *)
Class RtorrentServer : Type := {
  rpc_endpoint : bytes;
  rpc_reply : list bytes -> bytes -> result (N * result bytes bytes) bytes
}.

(** The events [Reader::from_str] gives for a text, and the renderings of library and
    derived types that error messages embed. *)
Class RpcText : Type := {
  xml_reader : bytes -> Reader;
  status_text : N -> bytes;
  xml_error_text : XmlError -> bytes;
  debug_value : XmlValue -> bytes
}.

(** [KIND] of lib.rs, and [MAIN_VIEW]. *)
Definition KIND : ClientKind := Rtorrent.
Definition MAIN_VIEW : bytes := bs "main".

Section Rpc.
Context `{XW : XmlWriter} `{XR : XmlRefs} `{RS : RtorrentServer} `{RT : RpcText}.

(** The requests posted so far, the last one last. *)
Abbreviation Rpc := (St (list RpcRequest)).

(** [RpcConnection::send]: posts the body and waits. *)
Definition post (request : RpcRequest) : Rpc (result (N * result bytes bytes) ClientError) := fun posted =>
  (rmap_err (fun e => Unreachable KIND rpc_endpoint e) (rpc_reply (map body_of posted) (body_of request)), posted ++ [request]).

Definition fault_text (message : FaultText) : bytes :=
  match message with FaultString s => s | FaultDebug v => debug_value v end.

Definition parse_error_text (e : XmlError) : bytes :=
  match e with Fault message => fault_text message | _ => xml_error_text e end.

Definition rpc_send (request : RpcRequest) (label : bytes) : Rpc (result XmlValue ClientError) :=
  try! response := post request in
  sret (let? _ := check_status status_text KIND response.1 label in
        let? text := rmap_err (malformed KIND label) response.2 in
        rmap_err (fun detail => MalformedAnswer KIND (label ++ bs ": " ++ parse_error_text detail)) (parse_response (xml_reader text))).

Definition call (method : bytes) (params : list Param) : Rpc (result XmlValue ClientError) := rpc_send (Single method params) method.

Definition malformed_shape (method expected : bytes) (got : XmlValue) : ClientError :=
  MalformedAnswer KIND (method ++ bs " returned " ++ debug_value got ++ bs ", expected " ++ expected).

(** The verdict on one entry of a batch. *)
Definition batch_row (row : XmlValue) (method : bytes) : result unit ClientError :=
  match row with
  | XmlArray [_] => Ok tt
  | XmlStruct _ => Err (Api KIND (method ++ bs ": " ++ fault_text (fault_message row)))
  | other => Err (malformed_shape (bs "system.multicall") (bs "a one-element array or a fault struct") other)
  end.

Fixpoint batch_rows (rows : list XmlValue) (calls : list (bytes * list Param)) : result unit ClientError :=
  match rows, calls with
  | row :: rows, (method, _) :: calls => let? _ := batch_row row method in batch_rows rows calls
  | _, _ => Ok tt
  end.

Definition call_many (calls : list (bytes * list Param)) : Rpc (result unit ClientError) :=
  try! value := rpc_send (Batch calls) (bs "system.multicall") in
  sret match value with
       | XmlArray rows =>
           if negb (length rows =? length calls) then
             Err (MalformedAnswer KIND (bs "system.multicall returned " ++ u_to_string (N.of_nat (length rows)) ++ bs " results for " ++
                    u_to_string (N.of_nat (length calls)) ++ bs " calls"))
           else batch_rows rows calls
       | value => Err (malformed_shape (bs "system.multicall") (bs "an array of per-call results") value)
       end.

Definition call_batch (method : bytes) (params : list (list Param)) : Rpc (result unit ClientError) :=
  call_many (map (fun p => (method, p)) params).

Definition call_str (method : bytes) (params : list Param) : Rpc (result bytes ClientError) :=
  try! value := call method params in
  sret match value with XmlStr s => Ok s | other => Err (malformed_shape method (bs "a string") other) end.

Definition call_multi (method : bytes) (params : list Param) : Rpc (result (list (list XmlValue)) ClientError) :=
  try! value := call method params in
  sret match value with
       | XmlArray rows =>
           collect_results (fun row => match row with XmlArray cells => Ok cells | other => Err (malformed_shape method (bs "a row array") other) end) rows
       | other => Err (malformed_shape method (bs "an array of arrays") other)
       end.

(** [xmlrpc::take], for a row whose length is not the one wanted. *)
Definition wrong_row (method : bytes) (row : list XmlValue) (wanted : N) : ClientError :=
  MalformedAnswer KIND (method ++ bs " returned a row of " ++ u_to_string (N.of_nat (length row)) ++ bs " values, expected " ++ u_to_string wanted).

(** ** rTorrent's scalars *)

Definition as_str (value : XmlValue) : bytes := match value with XmlStr s => s | _ => [] end.
Definition into_string (value : XmlValue) : bytes := match value with XmlStr s => s | _ => [] end.

Definition as_bool (value : XmlValue) : bool :=
  match value with
  | XmlInt n => negb (n =? 0)%Z
  | XmlStr s => bool_decide (s <> bs "0") && is_nonempty s
  | _ => false
  end.

Definition as_u64 (value : XmlValue) : N :=
  match value with
  | XmlInt n => if (0 <=? n)%Z then Z.to_N n else 0
  | XmlStr s => default 0%N (parse_u u64_max (trim s))
  | _ => 0
  end.

(** [n as f64 / 1000.0]. *)
Definition thousandths (n : N) : N :=
  f64_bits (SFdiv 53 1024 (binary_normalize 53 1024 (Z.of_N n) 0 false) (f64_of_bits 0x408F400000000000)).

(** ** The operations *)

Definition throttle (hash : bytes) (kib : N) : Rpc (result unit ClientError) :=
  let throttle_name := bs "sharerr-" ++ hash in
  call_many [(bs "throttle.up", [ParamStr throttle_name; ParamStr (u_to_string kib)]);
             (bs "d.throttle_name.set", [ParamStr hash; ParamStr throttle_name])].

Definition rt_version : Rpc (result bytes ClientError) := call_str (bs "system.client_version") [].

(** One row of [d.multicall2]: skipped, a summary or an error. *)
Definition list_row (category : option bytes) (row : list XmlValue) : result (option TorrentSummary) ClientError :=
  match row with
  | [hash; name; directory; base_path; custom1; complete; active; ratio] =>
      Ok (if match category with Some wanted => bool_decide (as_str custom1 <> wanted) | None => false end then None
          else Some (mkTorrentSummary (str_to_ascii_lowercase (as_str hash)) (into_string name) (into_string directory) (into_string base_path)
                       (default [] category) (single_tag (into_string custom1)) (as_bool complete && as_bool active) (negb (as_bool active))
                       (Some (thousandths (as_u64 ratio))) None None))
  | row => Err (wrong_row (bs "d.multicall2") row 8)
  end.

Definition list_columns : list bytes :=
  [bs "d.hash="; bs "d.name="; bs "d.directory="; bs "d.base_path="; bs "d.custom1="; bs "d.complete="; bs "d.is_active="; bs "d.ratio="].

Definition rt_list (category : option bytes) : Rpc (result (list TorrentSummary) ClientError) :=
  try! rows := call_multi (bs "d.multicall2") (ParamStr [] :: ParamStr MAIN_VIEW :: map ParamStr list_columns) in
  sret (let? out := collect_results (list_row category) rows in Ok (omap id out)).

Definition file_row (row : list XmlValue) : result TorrentFileEntry ClientError :=
  match row with
  | [path; size] => Ok (mkFileEntry (into_string path) (as_u64 size))
  | row => Err (wrong_row (bs "f.multicall") row 2)
  end.

Definition rt_files (hash : bytes) : Rpc (result (list TorrentFileEntry) ClientError) :=
  try! rows := call_multi (bs "f.multicall") [ParamStr hash; ParamStr []; ParamStr (bs "f.path="); ParamStr (bs "f.size_bytes=")] in
  sret (collect_results file_row rows).

Definition apply_limits (hash : bytes) (limits : SeedingLimits) : Rpc (result unit ClientError) :=
  match sl_upload_limit_kib limits with
  | Some kib => throttle (str_to_ascii_lowercase hash) kib
  | None => sret (Ok tt)
  end.

(** [TorrentClient::set_limits], the contract's default. *)
Definition set_limits (hash : bytes) (limits : SeedingLimits) : Rpc (result unit ClientError) :=
  if limits_is_empty limits then sret (Ok tt) else apply_limits hash limits.

(** What [add] tells rTorrent of a download: the commands run when it is loaded. *)
Definition add_directory (request : AddRequest) : bytes :=
  match ar_root_folder request with
  | Some root => trim_end "/"%byte (ar_save_path request) ++ "/"%byte :: root
  | None => ar_save_path request
  end.

Definition nonempty (t : option bytes) : option bytes := t ≫= fun t => if is_nonempty t then Some t else None.

Definition add_tag (request : AddRequest) : option bytes :=
  match nonempty (ar_category request) with Some c => Some c | None => nonempty (ar_tags request) end.

Definition add_commands (request : AddRequest) : list bytes :=
  (bs "d.directory_base.set=" ++ quote_command_arg (add_directory request)) ::
  match add_tag request with Some tag => [bs "d.custom1.set=" ++ quote_command_arg tag] | None => [] end.

Definition rt_add (request : AddRequest) : Rpc (result unit ClientError) :=
  let method := if ar_stopped request then bs "load.raw" else bs "load.raw_start" in
  try! loaded := call method (ParamStr [] :: ParamBase64 (ar_data request) :: map ParamStr (add_commands request)) in
  set_limits (ar_info_hash request) (ar_limits request).

Definition rt_remove (hash : bytes) : Rpc (result unit ClientError) :=
  try! erased := call (bs "d.erase") [ParamStr hash] in sret (Ok tt).

Definition rt_set_trackers (hash : bytes) (urls : list bytes) : Rpc (result unit ClientError) :=
  if negb (is_nonempty urls) then sret (Ok tt)
  else call_batch (bs "d.tracker.insert") (map (fun url => [ParamStr hash; ParamInt 0; ParamStr url]) urls).

Definition rt_add_trackers (hash : bytes) (urls : list bytes) : Rpc (result unit ClientError) := rt_set_trackers hash urls.

(** ** The contract *)

(** The category sharerr lists with. *)
Context (category : option bytes).

(** What one call of the contract posts. *)
Definition serve_call (c : ClientCall) : Rpc unit :=
  match c with
  | AskList => let! _ := rt_list category in sret tt
  | AskFiles hash => let! _ := rt_files hash in sret tt
  | AskExport _ => sret tt
  | AskAdd request => let! _ := rt_add request in sret tt
  | AskRemove hash => let! _ := rt_remove hash in sret tt
  | AskSetTrackers hash urls => let! _ := rt_set_trackers hash urls in sret tt
  | AskAddTrackers hash urls => let! _ := rt_add_trackers hash urls in sret tt
  | AskLimits hash limits => let! _ := set_limits hash limits in sret tt
  end.

Fixpoint serve_calls (calls : list ClientCall) (posted : list RpcRequest) : list RpcRequest :=
  match calls with [] => posted | c :: calls => serve_calls calls (serve_call c posted).2 end.

(** rTorrent as the client of the contract: an answer to a call after a history of
    calls is what the adapter returns after posting that history's requests. *)
#[local] Instance rtorrent_client : TorrentClient := {
  client_kind := KIND;
  answer_list := fun calls => (rt_list category (serve_calls calls [])).1;
  answer_files := fun calls hash => (rt_files hash (serve_calls calls [])).1;
  answer_export := fun _ _ => Ok None;
  answer_add := fun calls request => (rt_add request (serve_calls calls [])).1;
  answer_remove := fun calls hash => (rt_remove hash (serve_calls calls [])).1;
  answer_set_trackers := fun calls hash urls => (rt_set_trackers hash urls (serve_calls calls [])).1;
  answer_add_trackers := fun calls hash urls => (rt_add_trackers hash urls (serve_calls calls [])).1;
  answer_limits := fun calls hash limits => (set_limits hash limits (serve_calls calls [])).1
}.

End Rpc.

(** ** What the adapter can ask for *)

(** A command that sets one of the two properties to the text of a literal, and nothing after it. *)
Definition sets (property value command : bytes) : Prop :=
  exists literal, command = property ++ x22 :: literal /\ read_literal literal = Some (value, []).

(** Setting where a download's content is and what it is labelled. *)
Definition load_command (command : bytes) : Prop :=
  exists value, sets (bs "d.directory_base.set=") value command \/ sets (bs "d.custom1.set=") value command.

(** The requests that leave the media alone: reading, loading a download with those
    commands, forgetting one, capping one, adding a tracker to one. *)
Definition harmless (request : RpcRequest) : Prop :=
  match request with
  | Single method params =>
      method ∈ [bs "d.multicall2"; bs "f.multicall"; bs "d.erase"] \/
      method ∈ [bs "load.raw"; bs "load.raw_start"] /\
      exists data commands, params = ParamStr [] :: ParamBase64 data :: map ParamStr commands /\ Forall load_command commands
  | Batch calls => Forall (fun c => c.1 ∈ [bs "throttle.up"; bs "d.throttle_name.set"; bs "d.tracker.insert"]) calls
  end.

(** The strings a request gives rTorrent commands from are [str]s. *)
Definition add_text_ok (c : ClientCall) : Prop :=
  match c with
  | AskAdd request =>
      utf8_valid (add_directory request) = true /\ (forall tag, add_tag request = Some tag -> utf8_valid tag = true)
  | _ => True
  end.

Lemma quoted_sets property value : utf8_valid value = true -> sets property value (property ++ quote_command_arg value).
Proof. intros (literal & -> & H)%quoted_literal. exists literal. split; [done|]. rewrite <- (app_nil_r literal). apply H. Qed.

Section Posting.
Context `{XW : XmlWriter} `{XR : XmlRefs} `{RS : RtorrentServer} `{RT : RpcText} (P : RpcRequest -> Prop).

Abbreviation kept := (preserves (Forall P)).

Lemma kept_send request label : P request -> kept (rpc_send request label).
Proof.
  intros Hr. apply preserves_try; [|intros; apply preserves_ret].
  intros posted H. cbn. apply Forall_app. auto.
Qed.

Lemma kept_call method params : P (Single method params) -> kept (call method params).
Proof. intros H. by apply kept_send. Qed.

Lemma kept_call_many calls : P (Batch calls) -> kept (call_many calls).
Proof. intros H. apply preserves_try; [by apply kept_send|]. intros; apply preserves_ret. Qed.

Lemma kept_call_multi method params : P (Single method params) -> kept (call_multi method params).
Proof. intros H. apply preserves_try; [by apply kept_call|]. intros; apply preserves_ret. Qed.

Lemma kept_ignored {A : Type} (m : St (list RpcRequest) A) : kept m -> kept (let! _ := m in sret tt).
Proof. intros H. apply preserves_bind; [done|]. intros; apply preserves_ret. Qed.

End Posting.

Section Harmless.
Context `{XW : XmlWriter} `{XR : XmlRefs} `{RS : RtorrentServer} `{RT : RpcText}.

Lemma set_limits_harmless hash limits : preserves (Forall harmless) (set_limits hash limits).
Proof.
  unfold set_limits, apply_limits. case_match; [apply preserves_ret|]. destruct (sl_upload_limit_kib limits); [|apply preserves_ret].
  apply kept_call_many. cbn. repeat constructor; set_solver.
Qed.

Lemma set_trackers_harmless hash urls : preserves (Forall harmless) (rt_set_trackers hash urls).
Proof.
  unfold rt_set_trackers. case_match; [apply preserves_ret|]. apply kept_call_many. cbn. rewrite map_map. apply Forall_map, Forall_true.
  intros url. set_solver.
Qed.

Lemma add_commands_ok request : add_text_ok (AskAdd request) -> Forall load_command (add_commands request).
Proof.
  intros [Hd Ht]. unfold add_commands. constructor; [eexists; left; by apply quoted_sets|].
  destruct (add_tag request) as [tag|]; [|constructor]. constructor; [|constructor]. eexists; right. apply quoted_sets. auto.
Qed.

Lemma add_harmless request : add_text_ok (AskAdd request) -> preserves (Forall harmless) (rt_add request).
Proof.
  intros Ht. apply preserves_try; [|intros; apply set_limits_harmless]. apply kept_call. right.
  split; [destruct (ar_stopped request); set_solver|]. eexists _, _. split; [done|]. by apply add_commands_ok.
Qed.

Lemma serve_call_harmless category c : add_text_ok c -> preserves (Forall harmless) (serve_call category c).
Proof.
  destruct c; intros Ht; [apply kept_ignored|apply kept_ignored|apply preserves_ret|apply kept_ignored..].
  - apply preserves_try; [|intros; apply preserves_ret]. apply kept_call_multi. left. set_solver.
  - apply preserves_try; [|intros; apply preserves_ret]. apply kept_call_multi. left. set_solver.
  - by apply add_harmless.
  - apply preserves_try; [|intros; apply preserves_ret]. apply kept_call. left. set_solver.
  - apply set_trackers_harmless.
  - apply set_trackers_harmless.
  - apply set_limits_harmless.
Qed.

End Harmless.

(** ** Reading tables *)

Lemma collect_results_total {A B E : Type} (f : A -> result B E) (g : A -> B) (rows : list A) :
  Forall (fun row => f row = Ok (g row)) rows -> collect_results f rows = Ok (map g rows).
Proof. induction 1 as [|row rows Hr Hrs IH]; [done|]. cbn. rewrite Hr. cbn. by rewrite IH. Qed.

Lemma collect_results_elem {A B E : Type} (f : A -> result B E) rows out b :
  collect_results f rows = Ok out -> b ∈ out -> exists row, row ∈ rows /\ f row = Ok b.
Proof.
  intros H%collect_results_Ok [i Hi]%list_elem_of_lookup. destruct (Forall2_lookup_r _ _ _ _ _ H Hi) as (row & Hr & Hf).
  exists row. split; [by eapply list_elem_of_lookup_2|done].
Qed.

(** A batch entry that worked: its value in an array of its own. *)
Definition worked (row : XmlValue) : Prop := exists v, row = XmlArray [v].

Section Tables.
Context `{RT : RpcText}.

Lemma batch_row_worked row method : batch_row row method = Ok tt <-> worked row.
Proof.
  split; [|by intros [v ->]]. destruct row as [| |[|v [|]]|]; try done. intros _. by exists v.
Qed.

Lemma batch_rows_worked pre precalls rows calls :
  length pre = length precalls -> Forall worked pre -> batch_rows (pre ++ rows) (precalls ++ calls) = batch_rows rows calls.
Proof.
  revert precalls. induction pre as [|row pre IH]; intros [|[m p] precalls] Hl Hw; try done. apply Forall_cons in Hw as [Hr Hw].
  cbn. rewrite (proj2 (batch_row_worked row m) Hr). apply IH; [by injection Hl|done].
Qed.

(** The first entry that did not work. *)
Lemma first_failure rows (calls : list (bytes * list Param)) :
  length rows = length calls ->
  Forall worked rows \/
  exists pre row post precalls method params postcalls,
    rows = pre ++ row :: post /\ calls = precalls ++ (method, params) :: postcalls /\ length pre = length precalls /\ Forall worked pre /\ ~ worked row.
Proof.
  revert calls. induction rows as [|row rows IH]; intros [|[m p] calls] Hl; try done; [by left|]. injection Hl as Hl.
  assert (worked row \/ ~ worked row) as [Hw|Hw].
  { destruct row as [| |[|v [|]]|]; try (right; by intros [? [=]]). left. by exists v. }
  - destruct (IH calls Hl) as [H|(pre & r & post & prec & m' & p' & postc & -> & -> & Hlen & Hpre & Hr)]; [left; by constructor|].
    right. exists (row :: pre), r, post, ((m, p) :: prec), m', p', postc. cbn. split_and!; try done; [lia|by constructor].
  - right. by exists [], row, rows, [], m, p, calls.
Qed.

End Tables.

(** Reading a row by position. *)
Definition cell (i : nat) (row : list XmlValue) : XmlValue := default (XmlStr []) (row !! i).

(** What a row of eight says of a torrent. *)
Definition torrent_of (category : option bytes) (row : list XmlValue) : TorrentSummary :=
  mkTorrentSummary (str_to_ascii_lowercase (as_str (cell 0 row))) (as_str (cell 1 row)) (as_str (cell 2 row)) (as_str (cell 3 row))
    (default [] category) (single_tag (as_str (cell 4 row))) (as_bool (cell 5 row) && as_bool (cell 6 row)) (negb (as_bool (cell 6 row)))
    (Some (thousandths (as_u64 (cell 7 row)))) None None.

(** The rows of the category asked for. *)
Definition in_category (category : option bytes) (row : list XmlValue) : bool :=
  match category with Some wanted => bool_decide (as_str (cell 4 row) = wanted) | None => true end.

Lemma into_string_as_str v : into_string v = as_str v.
Proof. done. Qed.

Lemma list_row_shape `{RT : RpcText} category row :
  length row = 8 -> list_row category row = Ok (if in_category category row then Some (torrent_of category row) else None).
Proof.
  intros Hl. do 8 (destruct row as [|? row]; [done|]). destruct row; [|done]. cbn. unfold in_category, torrent_of, cell. cbn.
  destruct category as [wanted|]; [|done]. cbn. case_bool_decide; case_bool_decide; done.
Qed.

Lemma list_row_length `{RT : RpcText} category row out : list_row category row = Ok out -> length row = 8.
Proof. do 8 (destruct row as [|? row]; [done|]). by destruct row. Qed.

Lemma omap_kept {A B : Type} (p : A -> bool) (f : A -> B) l :
  omap id (map (fun a => if p a then Some (f a) else None) l) = map f (filter (fun a => p a = true) l).
Proof.
  induction l as [|a l IH]; [done|]. rewrite filter_cons. cbn [map omap list_omap]. destruct (p a).
  - rewrite decide_True by done. cbn. by f_equal.
  - by rewrite decide_False.
Qed.

(** ** What the adapter promises *)

(** The reply with this text decodes to this value. *)
Inductive replies_with `{XR : XmlRefs} `{RT : RpcText} (text : bytes) (v : XmlValue) : Prop :=
| replies_with_intro prolog g events rest :
    xml_reader text = map Ok (prolog ++ EvStart (bs "param") :: g ++ EvStart (bs "value") :: events) ++ rest ->
    Forall skipped prolog -> gaps g -> value_events v events -> replies_with text v.

Section Calls.
Context `{XW : XmlWriter} `{XR : XmlRefs} `{RS : RtorrentServer} `{RT : RpcText}.

Lemma rpc_send_value request label posted status text v :
  rpc_reply (map body_of posted) (body_of request) = Ok (status, Ok text) -> status_is_success status = true ->
  replies_with text v -> rpc_send request label posted = (Ok v, posted ++ [request]).
Proof.
  intros Hr Hs [prolog g events rest Hx Hp Hg Hv]. unfold rpc_send, try_bind, sbind, post. rewrite Hr. cbn.
  unfold check_status. rewrite Hs. unfold is_auth_rejection, status_is_success in *.
  destruct (status =? 401)%N eqn:E1; [apply N.eqb_eq in E1; by subst|].
  destruct (status =? 403)%N eqn:E2; [apply N.eqb_eq in E2; by subst|]. cbn.
  rewrite Hx, (response_read prolog _ g v events rest) by (done || set_solver). by rewrite decide_True.
Qed.

Lemma table_collected method (rows : list (list XmlValue)) :
  collect_results (fun row => match row with XmlArray cells => Ok cells | other => Err (malformed_shape method (bs "a row array") other) end)
    (map XmlArray rows) = Ok rows.
Proof. induction rows as [|row rows IH]; [done|]. cbn in *. by rewrite IH. Qed.

Lemma call_multi_table method params posted status text rows :
  rpc_reply (map body_of posted) (body_of (Single method params)) = Ok (status, Ok text) -> status_is_success status = true ->
  replies_with text (XmlArray (map XmlArray rows)) -> call_multi method params posted = (Ok rows, posted ++ [Single method params]).
Proof.
  intros Hr Hs Hv. unfold call_multi, call, try_bind at 1, sbind at 1. rewrite (rpc_send_value _ _ _ _ _ _ Hr Hs Hv). cbn [sret].
  unfold sret. by rewrite table_collected.
Qed.

End Calls.

(** Sharerr cannot make rTorrent move, re-link or delete media.  Whatever sequence of
    calls the program makes, and whatever rTorrent replies to each, every request it
    is sent reads, loads a download whose commands set its directory and its label and
    nothing else, forgets a download, caps one or adds a tracker to one. *)
Theorem rtorrent_leaves_media `{XW : XmlWriter} `{XR : XmlRefs} `{RS : RtorrentServer} `{RT : RpcText} category calls :
  Forall add_text_ok calls -> Forall harmless (serve_calls category calls []).
Proof.
  intros Ht. generalize (Forall_nil_2 harmless). generalize (@nil RpcRequest).
  induction Ht as [|c calls Hc Hcs IH]; intros posted Hp; [done|]. cbn. apply IH. by apply serve_call_harmless.
Qed.

(** The torrents sharerr sees are those rTorrent reports.  A table in any form rTorrent
    may send, of rows of eight values, is listed row for row in its order, less the
    rows of another category, and the request is the only thing sent. *)
Theorem rtorrent_list_exact `{XW : XmlWriter} `{XR : XmlRefs} `{RS : RtorrentServer} `{RT : RpcText} category posted status text rows :
  let request := Single (bs "d.multicall2") (ParamStr [] :: ParamStr MAIN_VIEW :: map ParamStr list_columns) in
  rpc_reply (map body_of posted) (body_of request) = Ok (status, Ok text) -> status_is_success status = true ->
  replies_with text (XmlArray (map XmlArray rows)) -> Forall (fun row => length row = 8) rows ->
  rt_list category posted = (Ok (map (torrent_of category) (filter (fun row => in_category category row = true) rows)), posted ++ [request]).
Proof.
  intros request Hr Hs Hv Hl. unfold rt_list, try_bind, sbind. rewrite (call_multi_table _ _ _ _ _ _ Hr Hs Hv). unfold sret.
  rewrite (collect_results_total _ (fun row => if in_category category row then Some (torrent_of category row) else None)).
  - cbn. by rewrite omap_kept.
  - eapply Forall_impl; [exact Hl|]. intros row. apply list_row_shape.
Qed.

(** A batch of calls succeeded exactly when every one of them did, and otherwise its
    error is the first failed entry's, under that entry's own method. *)
Theorem batch_verdict `{XW : XmlWriter} `{XR : XmlRefs} `{RS : RtorrentServer} `{RT : RpcText} calls posted status text rows :
  rpc_reply (map body_of posted) (body_of (Batch calls)) = Ok (status, Ok text) -> status_is_success status = true ->
  replies_with text (XmlArray rows) -> length rows = length calls ->
  (call_many calls posted).2 = posted ++ [Batch calls] /\
  ((call_many calls posted).1 = Ok tt /\ Forall worked rows \/
   exists pre row post precalls method params postcalls,
     rows = pre ++ row :: post /\ calls = precalls ++ (method, params) :: postcalls /\ length pre = length precalls /\
     Forall worked pre /\ ~ worked row /\ (call_many calls posted).1 = batch_row row method /\ exists e, batch_row row method = Err e).
Proof.
  intros Hr Hs Hv Hl.
  assert (call_many calls posted = (batch_rows rows calls, posted ++ [Batch calls])) as ->.
  { unfold call_many, try_bind, sbind. rewrite (rpc_send_value _ _ _ _ _ _ Hr Hs Hv). unfold sret. by rewrite Hl, Nat.eqb_refl. }
  split; [done|]. destruct (first_failure rows calls Hl) as [H|(pre & row & post & prec & m & p & postc & -> & -> & Hlen & Hpre & Hrow)].
  - left. split; [|done]. rewrite <- (app_nil_r rows), <- (app_nil_r calls). by rewrite batch_rows_worked.
  - right. exists pre, row, post, prec, m, p, postc. cbn. rewrite batch_rows_worked by done. cbn.
    pose proof (batch_row_worked row m) as Hb. destruct (batch_row row m) as [[]|e]; [exfalso; apply Hrow; by apply Hb|]. eauto 10.
Qed.

Lemma trim_digits s : Forall (fun b => is_ascii_digit b = true) s -> trim s = s.
Proof.
  intros H. apply trim_graphic. eapply Forall_impl; [exact H|]. intros b. by destruct b.
Qed.

(** A download as rTorrent knows it; the ratio in thousandths. *)
Record Download : Type := mkDownload {
  dl_hash : bytes; dl_name : bytes; dl_directory : bytes; dl_base_path : bytes; dl_label : bytes; dl_complete : bool; dl_active : bool; dl_ratio : N
}.

(** How rTorrent types a flag and a count: as an integer, or as its digits. *)
Definition says_flag (b : bool) (v : XmlValue) : Prop := v = XmlInt (if b then 1 else 0) \/ v = XmlStr (if b then bs "1" else bs "0").
Definition says_count (n : N) (v : XmlValue) : Prop := v = XmlInt (Z.of_N n) \/ v = XmlStr (u_to_string n).

(** What rTorrent answers for a column, by its name. *)
Record reports (d : Download) (column : bytes) (v : XmlValue) : Prop := {
  says_hash : column = bs "d.hash=" -> v = XmlStr (dl_hash d);
  says_name : column = bs "d.name=" -> v = XmlStr (dl_name d);
  says_directory : column = bs "d.directory=" -> v = XmlStr (dl_directory d);
  says_base_path : column = bs "d.base_path=" -> v = XmlStr (dl_base_path d);
  says_label : column = bs "d.custom1=" -> v = XmlStr (dl_label d);
  says_complete : column = bs "d.complete=" -> says_flag (dl_complete d) v;
  says_active : column = bs "d.is_active=" -> says_flag (dl_active d) v;
  says_ratio : column = bs "d.ratio=" -> says_count (dl_ratio d) v
}.

(** The download as the contract reports it. *)
Definition summary_of (category : option bytes) (d : Download) : TorrentSummary :=
  mkTorrentSummary (str_to_ascii_lowercase (dl_hash d)) (dl_name d) (dl_directory d) (dl_base_path d) (default [] category) (single_tag (dl_label d))
    (dl_complete d && dl_active d) (negb (dl_active d)) (Some (thousandths (dl_ratio d))) None None.

Definition labelled (category : option bytes) (d : Download) : Prop := match category with Some wanted => dl_label d = wanted | None => True end.

#[export] Instance labelled_dec category d : Decision (labelled category d).
Proof. unfold labelled. destruct category; apply _. Defined.

Lemma flag_read b v : says_flag b v -> as_bool v = b.
Proof. intros [->| ->]; by destruct b. Qed.

Lemma count_read n v : (n <= u64_max)%N -> says_count n v -> as_u64 v = n.
Proof.
  intros Hn [->| ->]; cbn.
  - by rewrite (proj2 (Z.leb_le _ _) (N2Z.is_nonneg n)), N2Z.id.
  - by rewrite trim_digits, parse_u_u_to_string by (done || apply u_to_string_digits).
Qed.

(** One row read back by the names of its columns. *)
Lemma row_read category d row :
  (dl_ratio d <= u64_max)%N -> Forall2 (reports d) list_columns row ->
  length row = 8 /\ in_category category row = bool_decide (labelled category d) /\ torrent_of category row = summary_of category d.
Proof.
  intros Hr H. split; [by rewrite <- (Forall2_length _ _ _ H)|].
  assert (forall i column, list_columns !! i = Some column -> reports d column (cell i row)) as Hc.
  { intros i column Hi. destruct (Forall2_lookup_l _ _ _ _ _ H Hi) as (v & Hv & Hs). unfold cell. by rewrite Hv. }
  assert (as_str (cell 4 row) = dl_label d) as Hlabel by (by rewrite (says_label _ _ _ (Hc 4 _ eq_refl) eq_refl)).
  split.
  - unfold in_category, labelled. destruct category; [by rewrite Hlabel; case_bool_decide; case_bool_decide|by rewrite bool_decide_eq_true_2].
  - unfold torrent_of, summary_of. rewrite Hlabel.
    rewrite (says_hash _ _ _ (Hc 0 _ eq_refl) eq_refl), (says_name _ _ _ (Hc 1 _ eq_refl) eq_refl), (says_directory _ _ _ (Hc 2 _ eq_refl) eq_refl),
      (says_base_path _ _ _ (Hc 3 _ eq_refl) eq_refl), (flag_read _ _ (says_complete _ _ _ (Hc 5 _ eq_refl) eq_refl)),
      (flag_read _ _ (says_active _ _ _ (Hc 6 _ eq_refl) eq_refl)), (count_read _ _ Hr (says_ratio _ _ _ (Hc 7 _ eq_refl) eq_refl)). done.
Qed.

Lemma rows_read category downloads rows :
  Forall (fun d => (dl_ratio d <= u64_max)%N) downloads -> Forall2 (fun d row => Forall2 (reports d) list_columns row) downloads rows ->
  Forall (fun row => length row = 8) rows /\
  map (torrent_of category) (filter (fun row => in_category category row = true) rows) = map (summary_of category) (filter (labelled category) downloads).
Proof.
  intros Hr H. induction H as [|d row downloads rows Hd _ IH]; [done|]. apply Forall_cons in Hr as [Hr1 Hr]. destruct (IH Hr) as [Hl Hm].
  destruct (row_read category d row Hr1 Hd) as (Hlen & Hin & Ht). split; [by apply Forall_cons|]. rewrite !filter_cons, Hin.
  destruct (decide (labelled category d)) as [Hc|Hc].
  - rewrite bool_decide_eq_true_2, decide_True by done. cbn. by rewrite Ht, Hm.
  - by rewrite bool_decide_eq_false_2, decide_False by done.
Qed.

(** C37: The torrents sharerr sees are rTorrent's downloads.  Let rTorrent answer the listing
    with one row for each download, every value being what the column asked for at that
    place is of that download, its flags and its ratio typed as integers or as digits, and
    the reply rendered in any way the format allows.  Then the list is, in rTorrent's
    order, each download with the label asked for (all of them when none was): its hash in
    lower case, its name, directory and path, its label as the only tag, seeding when it is
    complete and active, stopped when it is not active, and its ratio; and the one request
    is all that was sent. *)
Theorem rtorrent_lists_downloads `{XW : XmlWriter} `{XR : XmlRefs} `{RS : RtorrentServer} `{RT : RpcText} category posted status text downloads rows :
  let request := Single (bs "d.multicall2") (ParamStr [] :: ParamStr MAIN_VIEW :: map ParamStr list_columns) in
  rpc_reply (map body_of posted) (body_of request) = Ok (status, Ok text) -> status_is_success status = true ->
  replies_with text (XmlArray (map XmlArray rows)) ->
  Forall2 (fun d row => Forall2 (reports d) list_columns row) downloads rows -> Forall (fun d => (dl_ratio d <= u64_max)%N) downloads ->
  rt_list category posted = (Ok (map (summary_of category) (filter (labelled category) downloads)), posted ++ [request]).
Proof.
  intros request Hr Hs Hv Hd Hb. destruct (rows_read category downloads rows Hb Hd) as [Hl <-]. by apply (rtorrent_list_exact _ _ status text).
Qed.

(** *** Witnesses *)

Lemma str_rendered `{XR : XmlRefs} s : value_events (XmlStr s) [EvStart (bs "string"); EvText s; EvEnd (bs "string"); EvEnd (bs "value")].
Proof.
  apply (ve_typed [] [] (XmlStr s) (bs "string") ([EvText s] ++ [EvEnd (bs "string")])); [constructor..|].
  rewrite <- (app_nil_r s) at 1. apply ty_string, te_text, te_nil.
Qed.

Lemma array_rendered `{XR : XmlRefs} items events :
  Forall2 value_events items events ->
  value_events (XmlArray items)
    (EvStart (bs "array") :: EvStart (bs "data") :: (concat (map (cons (EvStart (bs "value"))) events) ++ [EvEnd (bs "data")]) ++
     [EvEnd (bs "array"); EvEnd (bs "value")]).
Proof.
  intros H.
  assert (item_events items (concat (map (cons (EvStart (bs "value"))) events) ++ [EvEnd (bs "data")])) as Hi.
  { induction H as [|v e items events Hv Hs IH]; [apply (ie_end []); constructor|]. cbn. rewrite <- app_assoc.
    apply (ie_item [] v e); [constructor|done|done]. }
  pose proof (ve_typed [] [] _ _ _ (Forall_nil_2 _) (Forall_nil_2 _) (ty_array [] [] items _ (Forall_nil_2 _) (Forall_nil_2 _) Hi)) as Ht.
  cbn [app] in Ht. rewrite <- !app_assoc in Ht. rewrite <- !app_assoc. exact Ht.
Qed.

(** An rTorrent with two downloads, one of them sharerr's, that refuses to define throttles. *)
Definition plain_writer : XmlWriter := {| xml_escape := fun s => s; base64_standard := fun data => data |}.

Definition str_events (s : bytes) : list Event := [EvStart (bs "string"); EvText s; EvEnd (bs "string"); EvEnd (bs "value")].
Definition array_events (events : list (list Event)) : list Event :=
  EvStart (bs "array") :: EvStart (bs "data") :: (concat (map (cons (EvStart (bs "value"))) events) ++ [EvEnd (bs "data")]) ++
  [EvEnd (bs "array"); EvEnd (bs "value")].

Definition two_downloads : list (list bytes) :=
  [[bs "ABCD"; bs "Film"; bs "/media"; bs "/media/Film"; bs "sharerr"; bs "1"; bs "1"; bs "1850"];
   [bs "EF01"; bs "Other"; bs "/dl"; bs "/dl/Other"; bs "tv"; bs "0"; bs "1"; bs "0"]].

Definition toy_rpc_text : RpcText := {|
  xml_reader := fun text =>
    map Ok ([] ++ EvStart (bs "param") :: [] ++ EvStart (bs "value") ::
      if bool_decide (text = bs "table") then array_events (map (fun row => array_events (map str_events row)) two_downloads)
      else array_events [str_events (bs "refused"); array_events [str_events (bs "0")]]) ++ [];
  status_text := fun _ => bs "status";
  xml_error_text := fun _ => bs "xml";
  debug_value := fun _ => bs "value"
|}.

Definition toy_rtorrent `{XW : XmlWriter} : RtorrentServer := {|
  rpc_endpoint := bs "http://seedbox/RPC2";
  rpc_reply := fun _ body =>
    Ok (200%N, Ok (if bool_decide (body = body_of (Single (bs "d.multicall2") (ParamStr [] :: ParamStr MAIN_VIEW :: map ParamStr list_columns)))
                   then bs "table" else bs "batch"))
|}.

Lemma table_replied : replies_with (XR := predefined_refs) (RT := toy_rpc_text) (bs "table") (XmlArray (map XmlArray (map (map XmlStr) two_downloads))).
Proof.
  eapply (replies_with_intro (XR := predefined_refs) (RT := toy_rpc_text) _ _ [] [] _ []); [cbn; reflexivity|constructor..|].
  apply array_rendered. repeat (apply Forall2_cons; split; [apply array_rendered|]); [..|apply Forall2_nil_2];
    (repeat (apply Forall2_cons; split; [apply str_rendered|])); apply Forall2_nil_2.
Qed.

Lemma batch_replied : replies_with (XR := predefined_refs) (RT := toy_rpc_text) (bs "batch") (XmlArray [XmlStr (bs "refused"); XmlArray [XmlStr (bs "0")]]).
Proof.
  eapply (replies_with_intro (XR := predefined_refs) (RT := toy_rpc_text) _ _ [] [] _ []); [cbn; reflexivity|constructor..|].
  apply array_rendered. apply Forall2_cons; split; [apply str_rendered|]. apply Forall2_cons; split; [|apply Forall2_nil_2].
  apply array_rendered. apply Forall2_cons; split; [apply str_rendered|apply Forall2_nil_2].
Qed.

Definition film_request : AddRequest :=
  mkAddRequest (bs "d4:infoe") (bs "abcd") (bs "film.torrent") (bs "/media/") (Some (bs "Film")) (Some (bs "sharerr")) None true false
    (mkLimits (Some 100%N) None).

Lemma rtorrent_leaves_media_witness :
  let XW := plain_writer in let XR := predefined_refs in let RT := toy_rpc_text in let RS := toy_rtorrent in
  let calls := [AskList; AskAdd film_request; AskSetTrackers (bs "abcd") [bs "http://t/announce"]; AskRemove (bs "abcd")] in
  Forall harmless (serve_calls (Some (bs "sharerr")) calls []).
Proof.
  intros XW XR RT RS calls. apply rtorrent_leaves_media. repeat constructor; try (intros tag [= <-]); vm_compute; reflexivity.
Defined.

Lemma rtorrent_list_exact_witness :
  let XW := plain_writer in let XR := predefined_refs in let RT := toy_rpc_text in let RS := toy_rtorrent in
  (rt_list (Some (bs "sharerr")) []).1 =
    Ok (map (torrent_of (Some (bs "sharerr"))) (filter (fun row => in_category (Some (bs "sharerr")) row = true) (map (map XmlStr) two_downloads))).
Proof.
  intros XW XR RT RS.
  rewrite (rtorrent_list_exact (Some (bs "sharerr")) [] 200 (bs "table") (map (map XmlStr) two_downloads)); [reflexivity| |reflexivity| |].
  - unfold rpc_reply, RS, toy_rtorrent. by rewrite bool_decide_eq_true_2.
  - exact table_replied.
  - by repeat constructor.
Defined.

Lemma batch_verdict_witness :
  let XW := plain_writer in let XR := predefined_refs in let RT := toy_rpc_text in let RS := toy_rtorrent in
  let calls := [(bs "throttle.up", [ParamStr (bs "n"); ParamStr (bs "5")]); (bs "d.throttle_name.set", [ParamStr (bs "h"); ParamStr (bs "n")])] in
  (call_many calls []).2 = [Batch calls].
Proof.
  intros XW XR RT RS calls.
  apply (batch_verdict calls [] 200 (bs "batch") [XmlStr (bs "refused"); XmlArray [XmlStr (bs "0")]]); [vm_compute; reflexivity|reflexivity|exact batch_replied|reflexivity].
Defined.

Definition film_download : Download := mkDownload (bs "ABCD") (bs "Film") (bs "/media") (bs "/media/Film") (bs "sharerr") true true 1850.
Definition other_download : Download := mkDownload (bs "EF01") (bs "Other") (bs "/dl") (bs "/dl/Other") (bs "tv") false true 0.

Lemma rtorrent_lists_downloads_witness :
  let XW := plain_writer in let XR := predefined_refs in let RT := toy_rpc_text in let RS := toy_rtorrent in
  (rt_list (Some (bs "sharerr")) []).1 = Ok [summary_of (Some (bs "sharerr")) film_download].
Proof.
  intros XW XR RT RS.
  rewrite (rtorrent_lists_downloads (Some (bs "sharerr")) [] 200 (bs "table") [film_download; other_download] (map (map XmlStr) two_downloads));
    [reflexivity| |reflexivity|exact table_replied| |by repeat constructor].
  - unfold rpc_reply, RS, toy_rtorrent. by rewrite bool_decide_eq_true_2.
  - repeat (apply Forall2_cons; split); try apply Forall2_nil_2;
      (split; intros E; try (vm_compute in E; discriminate E); try reflexivity; right; reflexivity).
Defined.

(** A ratio rTorrent reports as 1850 is the double 1.85. *)
Example ratio_in_thousandths : thousandths 1850 = 0x3FFD99999999999A%N.
Proof. vm_compute. reflexivity. Qed.
