(* ===== verification/Json.v ===== *)
(** * JSON documents and how they are read (the derived decoders of the wire types)

    The values [serde_json] parses a text into, and what deriving [Deserialize] makes of
    one: a field by its name, with a default or required, given twice refused, others
    ignored; a machine integer only within its width.  The parser itself and the rendering
    of floats are parameters.  A decoder says whether a value has its type; the wording of
    its error is not modelled, nor is the positional form in which [serde] would also take a
    struct from an array. *)

From Stdlib Require Import SpecFloat.
From S2P Require Import Prelude RustStd Text Model Endpoint Client.

(** ** Values *)

(** A number is an integer of 64 bits or the bits of an [f64]. *)
Inductive Json : Type :=
| JNull
| JBool (b : bool)
| JInt (z : Z)
| JFloat (bits : N)
| JStr (s : bytes)
| JArr (items : list Json)
| JObj (fields : list (bytes * Json)).

(** [serde_json::from_slice], up to the type asked for. *)
Class JsonText : Type := json_parse : bytes -> option Json.

(** What a body or a value that does not decode is reported as. *)
Class DecodeText : Type := { decode_text : bytes -> bytes; value_text : Json -> bytes }.

(** [base64::STANDARD]. *)
Class Base64 : Type := base64_encode : bytes -> bytes.

(** [{}] of an [f64], and [{:.1}] of the [f32] nearest to one. *)
Class FloatText : Type := { f64_display : N -> bytes; f32_tenths : N -> bytes }.

(** The value of an object: of a name given twice the last counts. *)
Fixpoint keep_last (fields : list (bytes * Json)) : list (bytes * Json) :=
  match fields with
  | [] => []
  | kv :: fields => if bool_decide (kv.1 ∈ map fst fields) then keep_last fields else kv :: keep_last fields
  end.

(** A document read as a [serde_json::Value]. *)
Fixpoint to_value (v : Json) : Json :=
  match v with
  | JArr items => JArr (map to_value items)
  | JObj fields => JObj (keep_last (map (fun kv => (kv.1, to_value kv.2)) fields))
  | v => v
  end.

(** [Value::get] of a name, [as_str] and [as_bool]. *)
Definition jget (name : bytes) (v : Json) : option Json :=
  match v with JObj fields => snd <$> last (filter (fun kv => kv.1 = name) fields) | _ => None end.
Definition jas_str (v : Json) : option bytes := match v with JStr s => Some s | _ => None end.
Definition jas_bool (v : Json) : option bool := match v with JBool b => Some b | _ => None end.

(** ** Decoders *)

Abbreviation Decoder := (fun T : Type => Json -> option T).

Definition de_value : Decoder Json := fun v => Some (to_value v).
Definition de_str : Decoder bytes := jas_str.
Definition de_bool : Decoder bool := jas_bool.

Definition de_int (low high : Z) : Decoder Z :=
  fun v => match v with JInt z => if (low <=? z)%Z && (z <=? high)%Z then Some z else None | _ => None end.
Definition de_i64 : Decoder Z := de_int (- 2 ^ 63) (2 ^ 63 - 1).
Definition de_unsigned (max : N) : Decoder N := fun v => Z.to_N <$> de_int 0 (Z.of_N max) v.
Definition de_u64 : Decoder N := de_unsigned u64_max.
Definition de_u32 : Decoder N := de_unsigned u32_max.
Definition de_u16 : Decoder N := de_unsigned u16_max.

(** [n as f64], to bits. *)
Definition f64_of_int (z : Z) : N := f64_bits (binary_normalize 53 1024 z 0 false).

Definition de_f64 : Decoder N :=
  fun v => match v with JInt z => Some (f64_of_int z) | JFloat bits => Some bits | _ => None end.

Definition de_option {T : Type} (d : Decoder T) : Decoder (option T) :=
  fun v => match v with JNull => Some None | v => Some <$> d v end.

Definition de_vec {T : Type} (d : Decoder T) : Decoder (list T) :=
  fun v => match v with JArr items => mapM d items | _ => None end.

(** The values a struct is given under a name. *)
Definition given_as (name : bytes) (fields : list (bytes * Json)) : list Json := map snd (filter (fun kv => kv.1 = name) fields).

(** A field without and with [#[serde(default)]]. *)
Definition field {T : Type} (name : bytes) (d : Decoder T) (fields : list (bytes * Json)) : option T :=
  match given_as name fields with [v] => d v | _ => None end.
Definition field_or {T : Type} (dflt : T) (name : bytes) (d : Decoder T) (fields : list (bytes * Json)) : option T :=
  match given_as name fields with [] => Some dflt | [v] => d v | _ => None end.

(** An optional field: absent and [null] are the same. *)
Definition field_opt {T : Type} (name : bytes) (d : Decoder T) : list (bytes * Json) -> option (option T) :=
  field_or None name (de_option d).

Definition de_struct {T : Type} (d : list (bytes * Json) -> option T) : Decoder T :=
  fun v => match v with JObj fields => d fields | _ => None end.

(** [f64 >= 0.0] and [f64 == 0.0]. *)
Definition f64_nonneg (bits : N) : bool := SFleb (S754_zero false) (f64_of_bits bits).
Definition f64_is_zero (bits : N) : bool := match f64_of_bits bits with S754_zero _ => true | _ => false end.

(** [json!] of an [f64]: JSON has no infinities. *)
Definition json_f64 (bits : N) : Json :=
  match f64_of_bits bits with S754_infinity _ | S754_nan => JNull | _ => JFloat bits end.

(** ** Facts *)

(** Elements of a decoded list come from elements of the document. *)
Lemma decoded_elem {A B : Type} (f : A -> option B) l out b : mapM f l = Some out -> b ∈ out -> exists a, a ∈ l /\ f a = Some b.
Proof.
  intros H%mapM_Some Hb. apply list_elem_of_lookup in Hb as [i Hi]. destruct (Forall2_lookup_r _ _ _ _ _ H Hi) as (a & Ha & E).
  exists a. split; [by eapply list_elem_of_lookup_2|done].
Qed.

Lemma de_int_range low high v z : de_int low high v = Some z -> (low <= z <= high)%Z.
Proof. destruct v; try done. cbn. destruct (_ && _) eqn:E; [|done]. intros [= <-]. apply andb_prop in E as [E1 E2]. lia. Qed.
