(* ===== verification/Arr.v ===== *)
(** * The *arr applications (crates/sharerr-arr/src)

    Sonarr, Radarr, Lidarr, Readarr and Whisparr each keep a library whose entries carry
    tags.  Discovery lists the files of the entries that carry sharerr's tag, or the tag of
    one friend, with what a friend's own application needs to recognise them.  The
    application is what it answers to a request; it is taken to answer the requests of one
    discovery from the same library, and requests made at once are read in the order they
    are written. *)

From S2P Require Import Prelude RustStd Text Metainfo Net Endpoint TrackerUrl Announce Model Paths Factory Title FileTree Library Effects Accounts Database Items Peers History Sightings Client Seeder Sync Vault Serve Gluetun Beacon Json.

(** ** Errors *)

Inductive ArrError : Type :=
| ArrUnreachable (service : MediaSource) (url detail : bytes)
| ArrUnauthorized (service : MediaSource) (status : N)
| ArrStatus (service : MediaSource) (status : N) (path body : bytes)
| ArrDecode (service : MediaSource) (path : bytes)
| TagNotFound (service : MediaSource) (label : bytes) (available : list bytes)
| ArrUrl (service : MediaSource) (source : bytes)
| ArrClientBuild (source : bytes)
| NotAnApp (service : MediaSource).

Definition arr_is_unreachable (e : ArrError) : bool := match e with ArrUnreachable _ _ _ => true | _ => false end.
Definition arr_is_auth_failure (e : ArrError) : bool := match e with ArrUnauthorized _ _ => true | _ => false end.

(** ** Wire types (models.rs) *)

Record Tag : Type := mkTag { tag_id_of : Z; tag_label_of : bytes }.

Record SystemStatus : Type := mkStatus { ss_version : bytes; ss_app_name : bytes }.

Record MediaInfo : Type := mkInfo {
  mi_resolution : option bytes;
  mi_video_codec : option bytes;
  mi_video_dynamic_range_type : option bytes;
  mi_audio_codec : option bytes;
  mi_audio_channels : option N;
  mi_audio_languages : option bytes;
  mi_subtitles : option bytes;
  mi_run_time : option bytes;
  mi_audio_bits : option bytes;
  mi_audio_sample_rate : option bytes
}.

Definition non_empty (value : option bytes) : option bytes := value ≫= fun s => if is_nonempty (trim s) then Some s else None.
Definition non_zero (value : option Z) : option Z := value ≫= fun v => if (v =? 0)%Z then None else Some v.
Definition non_zero_year (value : option N) : option N := value ≫= fun v => if (v =? 0)%N then None else Some v.

Record Series : Type := mkSeries {
  se_id : Z;
  se_title : bytes;
  se_tvdb_id : option Z;
  se_tv_maze_id : option Z;
  se_imdb_id : option bytes;
  se_tags : list Z;
  se_season_type : option bytes
}.

Definition uses_alternate_order (s : Series) : bool :=
  match trim <$> se_season_type s with
  | Some t => is_nonempty t && negb (str_eq_ignore_ascii_case t (bs "official"))
  | None => false
  end.

Record EpisodeFile : Type := mkEpisodeFile {
  ef_id : Z; ef_path : bytes; ef_size : N; ef_scene_name : option bytes; ef_media_info : option MediaInfo
}.

Record Episode : Type := mkEpisode { epi_season_number : N; epi_episode_number : N; epi_episode_file_id : Z }.

Record MovieFile : Type := mkMovieFile {
  mf_id : Z; mf_path : bytes; mf_size : N; mf_scene_name : option bytes; mf_original_file_path : option bytes; mf_media_info : option MediaInfo
}.

Record Movie : Type := mkMovie {
  mv_id : Z;
  mv_title : bytes;
  mv_year : option N;
  mv_tmdb_id : option Z;
  mv_imdb_id : option bytes;
  mv_tags : list Z;
  mv_has_file : bool;
  mv_movie_file : option MovieFile;
  mv_item_type : option bytes;
  mv_studio_title : option bytes;
  mv_release_date : option bytes
}.

Record Artist : Type := mkArtist { at_id : Z; at_name : bytes; at_tags : list Z; at_foreign_id : option bytes }.
Record Album : Type := mkAlbum { al_id : Z; al_title : bytes; al_foreign_id : option bytes }.
Record TrackFile : Type := mkTrackFile {
  trf_id : Z; trf_album_id : Z; trf_path : bytes; trf_size : N; trf_scene_name : option bytes; trf_media_info : option MediaInfo
}.
Record Track : Type := mkTrack { tk_track_file_id : Z; tk_absolute_number : option N }.

Record Author : Type := mkAuthor { au_id : Z; au_name : bytes; au_tags : list Z }.
Record Edition : Type := mkEdition { ed_isbn13 : option bytes; ed_monitored : bool }.
Record Book : Type := mkBook { bk_id : Z; bk_title : bytes; bk_foreign_id : option bytes; bk_editions : list Edition }.
Record BookFile : Type := mkBookFile {
  bf_id : Z; bf_book_id : Z; bf_path : bytes; bf_size : N; bf_scene_name : option bytes; bf_media_info : option MediaInfo
}.

(** *** Decoding them *)

Section Wire.
Context `{FT : FloatText}.

(** [number_or_string], of a value that is there. *)
Definition number_or_string (v : Json) : option (option bytes) :=
  match v with
  | JNull => Some None
  | JStr text => Some (non_empty (Some text) ≫= fun t => if bool_decide (t = bs "0") then None else Some t)
  | v => number ← de_f64 v; Some (if f64_is_zero number then None else Some (f64_display number))
  end.

Definition de_tag : Decoder Tag := de_struct (fun o => id ← field (bs "id") de_i64 o; label ← field (bs "label") de_str o; Some (mkTag id label)).

Definition de_system_status : Decoder SystemStatus := de_struct (fun o =>
  version ← field_or [] (bs "version") de_str o; name ← field_or [] (bs "appName") de_str o; Some (mkStatus version name)).

Definition de_media_info : Decoder MediaInfo := de_struct (fun o =>
  resolution ← field_opt (bs "resolution") de_str o;
  video ← field_opt (bs "videoCodec") de_str o;
  range ← field_opt (bs "videoDynamicRangeType") de_str o;
  audio ← field_opt (bs "audioCodec") de_str o;
  channels ← field_opt (bs "audioChannels") de_f64 o;
  languages ← field_opt (bs "audioLanguages") de_str o;
  subtitles ← field_opt (bs "subtitles") de_str o;
  run_time ← field_opt (bs "runTime") de_str o;
  bits ← field_or None (bs "audioBits") number_or_string o;
  rate ← field_or None (bs "audioSampleRate") number_or_string o;
  Some (mkInfo resolution video range audio channels languages subtitles run_time bits rate)).

(** [MediaInfo::into_meta]. *)
Definition into_meta (i : MediaInfo) : option MediaMeta :=
  let meta := mkMeta (non_empty (mi_resolution i)) (non_empty (mi_video_codec i)) (non_empty (mi_video_dynamic_range_type i))
    (non_empty (mi_audio_codec i)) (f32_tenths <$> mi_audio_channels i) (non_empty (mi_audio_languages i)) (non_empty (mi_subtitles i))
    (non_empty (mi_run_time i)) (mi_audio_sample_rate i) (mi_audio_bits i) in
  if meta_is_empty meta then None else Some meta.

Definition de_series : Decoder Series := de_struct (fun o =>
  id ← field (bs "id") de_i64 o; title ← field (bs "title") de_str o;
  tvdb ← field_opt (bs "tvdbId") de_i64 o; maze ← field_opt (bs "tvMazeId") de_i64 o; imdb ← field_opt (bs "imdbId") de_str o;
  tags ← field_or [] (bs "tags") (de_vec de_i64) o; order ← field_opt (bs "seasonType") de_str o;
  Some (mkSeries id title tvdb maze imdb tags order)).

Definition de_episode_file : Decoder EpisodeFile := de_struct (fun o =>
  id ← field (bs "id") de_i64 o; path ← field (bs "path") de_str o; size ← field_or 0%N (bs "size") de_u64 o;
  scene ← field_opt (bs "sceneName") de_str o; info ← field_opt (bs "mediaInfo") de_media_info o;
  Some (mkEpisodeFile id path size scene info)).

Definition de_episode : Decoder Episode := de_struct (fun o =>
  season ← field_or 0%N (bs "seasonNumber") de_u32 o; episode ← field_or 0%N (bs "episodeNumber") de_u32 o;
  file ← field_or 0%Z (bs "episodeFileId") de_i64 o; Some (mkEpisode season episode file)).

Definition de_movie_file : Decoder MovieFile := de_struct (fun o =>
  id ← field (bs "id") de_i64 o; path ← field (bs "path") de_str o; size ← field_or 0%N (bs "size") de_u64 o;
  scene ← field_opt (bs "sceneName") de_str o; original ← field_opt (bs "originalFilePath") de_str o;
  info ← field_opt (bs "mediaInfo") de_media_info o; Some (mkMovieFile id path size scene original info)).

Definition de_movie : Decoder Movie := de_struct (fun o =>
  id ← field (bs "id") de_i64 o; title ← field (bs "title") de_str o; year ← field_opt (bs "year") de_u16 o;
  tmdb ← field_opt (bs "tmdbId") de_i64 o; imdb ← field_opt (bs "imdbId") de_str o; tags ← field_or [] (bs "tags") (de_vec de_i64) o;
  has_file ← field_or false (bs "hasFile") de_bool o; file ← field_opt (bs "movieFile") de_movie_file o;
  item_type ← field_opt (bs "itemType") de_str o; studio ← field_opt (bs "studioTitle") de_str o;
  released ← field_opt (bs "releaseDate") de_str o;
  Some (mkMovie id title year tmdb imdb tags has_file file item_type studio released)).

Definition de_artist : Decoder Artist := de_struct (fun o =>
  id ← field (bs "id") de_i64 o; name ← field_or [] (bs "artistName") de_str o; tags ← field_or [] (bs "tags") (de_vec de_i64) o;
  foreign ← field_opt (bs "foreignArtistId") de_str o; Some (mkArtist id name tags foreign)).

Definition de_album : Decoder Album := de_struct (fun o =>
  id ← field (bs "id") de_i64 o; title ← field_or [] (bs "title") de_str o; foreign ← field_opt (bs "foreignAlbumId") de_str o;
  Some (mkAlbum id title foreign)).

Definition de_track_file : Decoder TrackFile := de_struct (fun o =>
  id ← field (bs "id") de_i64 o; album ← field_or 0%Z (bs "albumId") de_i64 o; path ← field_or [] (bs "path") de_str o;
  size ← field_or 0%N (bs "size") de_u64 o; scene ← field_opt (bs "sceneName") de_str o; info ← field_opt (bs "mediaInfo") de_media_info o;
  Some (mkTrackFile id album path size scene info)).

Definition de_track : Decoder Track := de_struct (fun o =>
  file ← field_or 0%Z (bs "trackFileId") de_i64 o; number ← field_opt (bs "absoluteTrackNumber") de_u32 o; Some (mkTrack file number)).

Definition de_author : Decoder Author := de_struct (fun o =>
  id ← field (bs "id") de_i64 o; name ← field_or [] (bs "authorName") de_str o; tags ← field_or [] (bs "tags") (de_vec de_i64) o;
  Some (mkAuthor id name tags)).

Definition de_edition : Decoder Edition := de_struct (fun o =>
  isbn ← field_opt (bs "isbn13") de_str o; monitored ← field_or false (bs "monitored") de_bool o; Some (mkEdition isbn monitored)).

Definition de_book : Decoder Book := de_struct (fun o =>
  id ← field (bs "id") de_i64 o; title ← field_or [] (bs "title") de_str o; foreign ← field_opt (bs "foreignBookId") de_str o;
  editions ← field_or [] (bs "editions") (de_vec de_edition) o; Some (mkBook id title foreign editions)).

Definition de_book_file : Decoder BookFile := de_struct (fun o =>
  id ← field (bs "id") de_i64 o; book ← field_or 0%Z (bs "bookId") de_i64 o; path ← field_or [] (bs "path") de_str o;
  size ← field_or 0%N (bs "size") de_u64 o; scene ← field_opt (bs "sceneName") de_str o; info ← field_opt (bs "mediaInfo") de_media_info o;
  Some (mkBookFile id book path size scene info)).

(** [DevelopmentConfig], of which only the metadata server is read. *)
Definition de_development_config : Decoder (option bytes) := de_struct (fun o => field_opt (bs "metadataSource") de_str o).

End Wire.

(** ** The client (client.rs) *)

Definition api_prefix (kind : MediaSource) : bytes := match kind with Lidarr | Readarr => bs "api/v1/" | _ => bs "api/v3/" end.

Definition whisparr_walks_like_radarr (version : bytes) : bool :=
  match head (split_byte "."%byte version) ≫= fun major => parse_u u32_max (trim major) with
  | Some major => (3 <=? major)%N
  | None => false
  end.

Record TaggedFiles : Type := mkTagged { tg_items : list Discovered; tg_audience : gmap Z (list bytes) }.

Record ArrClient `{U : UrlLib} : Type := mkArr { ac_kind : MediaSource; ac_api_base : Url; ac_api_key : bytes }.

Record ArrRequest `{U : UrlLib} : Type := mkArrRequest {
  aq_method : bytes; aq_url : Url; aq_query : list (bytes * bytes); aq_body : option Json
}.

(** What an application answers to a request under a key: a status and a body that can be
    read or not, or no answer. *)
Class ArrApp (U : UrlLib) : Type := arr_reply : bytes -> ArrRequest -> result (N * result bytes bytes) bytes.

(** [Url::host_str]. *)
Class UrlHost (U : UrlLib) : Type := url_host_str : Url -> option bytes.

Section Client.
Context `{U : UrlLib} `{UP : !UrlParts U} `{AA : !ArrApp U} `{JT : JsonText} `{FT : FloatText} `{UH : !UrlHost U}.

(** [ArrClient::new]; [http] says whether the HTTP client was built. *)
Definition arr_new (http : result unit bytes) (kind : MediaSource) (base : Url) (api_key : bytes) : result ArrClient ArrError :=
  if bool_decide (kind ∈ ARRS) then
    let? _ := rmap_err ArrClientBuild http in
    let? api_base := rmap_err (ArrUrl kind) (url_join (normalise_base base) (api_prefix kind)) in
    Ok (mkArr U kind api_base api_key)
  else Err (NotAnApp kind).

Definition arr_endpoint (c : ArrClient) (path : bytes) : result Url ArrError := rmap_err (ArrUrl (ac_kind c)) (url_join (ac_api_base c) path).

(** [ArrClient::request] and [ArrClient::send]. *)
Definition arr_send (c : ArrClient) (path : bytes) (request : ArrRequest) : result (result bytes bytes) ArrError :=
  let? response := rmap_err (ArrUnreachable (ac_kind c) (url_as_str (aq_url request))) (arr_reply (ac_api_key c) request) in
  let status := response.1 in
  if is_auth_rejection status then Err (ArrUnauthorized (ac_kind c) status)
  else if negb (status_is_success status) then
    Err (ArrStatus (ac_kind c) status path (clamp_body (match response.2 with Ok body => body | Err _ => [] end)))
  else Ok response.2.

Definition arr_get {T : Type} (d : Decoder T) (c : ArrClient) (path : bytes) (query : list (bytes * bytes)) : result T ArrError :=
  let? url := arr_endpoint c path in
  let? response := arr_send c path (mkArrRequest U (bs "GET") url query None) in
  let? body := rmap_err (ArrUnreachable (ac_kind c) (url_as_str url)) response in
  ok_or (json_parse body ≫= d) (ArrDecode (ac_kind c) path).

Definition system_status (c : ArrClient) : result SystemStatus ArrError := arr_get de_system_status c (bs "system/status") [].

Definition find_tag (c : ArrClient) (tags : list Tag) (label : bytes) : result Z ArrError :=
  ok_or (tag_id_of <$> List.find (fun t => str_eq_ignore_ascii_case (tag_label_of t) label) tags)
    (TagNotFound (ac_kind c) label (map tag_label_of tags)).

Definition arr_tags (c : ArrClient) : result (list Tag) ArrError := arr_get (de_vec de_tag) c (bs "tag") [].

Definition tag_id (c : ArrClient) (label : bytes) : result Z ArrError :=
  let? tags := arr_tags c in find_tag c tags label.

Definition create_tag (c : ArrClient) (label : bytes) : result unit ArrError :=
  let? url := arr_endpoint c (bs "tag") in
  let? _ := arr_send c (bs "tag") (mkArrRequest U (bs "POST") url [] (Some (JObj [(bs "label", JStr label)]))) in
  Ok tt.

(** ** The scaffold of every walk (lib.rs) *)

(** An entity carrying any of the tags. *)
Definition carries (tag_ids tags : list Z) : bool := existsb (fun tag => bool_decide (tag ∈ tag_ids)) tags.

Definition fetch_tagged {E P : Type} (tags : E -> list Z) (c : ArrClient) (entities : list E) (tag_ids : list Z)
    (fetch : ArrClient -> E -> result P ArrError) : result (list (E * P)) ArrError :=
  let tagged := filter (fun e => carries tag_ids (tags e) = true) entities in
  let? fetched := collect_results (fetch c) tagged in
  Ok (zip tagged fetched).

Definition join_by_parent {C F : Type} (containers : list C) (files : list F) (container_id : C -> Z) (file_parent : F -> Z) : list (C * F) :=
  let by_id := fold_left (fun (m : gmap Z C) container => <[container_id container := container]> m) containers ∅ in
  omap (fun file => (fun container => (container, file)) <$> by_id !! file_parent file) files.

(** A lookup of what belongs to one entity. *)
Definition arr_get_for {T : Type} (d : Decoder T) (c : ArrClient) (path key : bytes) (id : Z) : result (list T) ArrError :=
  arr_get (de_vec d) c path [(key, i_to_string id)].

(** ** Sonarr (sonarr.rs) *)

Definition fetch_series (c : ArrClient) (series : Series) : result (list EpisodeFile * list Episode) ArrError :=
  let? files := arr_get_for de_episode_file c (bs "episodefile") (bs "seriesId") (se_id series) in
  let? episodes := arr_get_for de_episode c (bs "episode") (bs "seriesId") (se_id series) in
  Ok (files, episodes).

(** [rank]: real seasons before specials, then the lowest season and episode. *)
Definition episode_rank (n : N * N) : N * N * N := ((if (n.1 =? 0)%N then 1 else 0)%N, n.1, n.2).

(** The order of triples. *)
Definition rank_lt (a b : N * N * N) : bool :=
  (a.1.1 <? b.1.1)%N || ((a.1.1 =? b.1.1)%N && ((a.1.2 <? b.1.2)%N || ((a.1.2 =? b.1.2)%N && (a.2 <? b.2)%N))).

Definition number_file (by_file : gmap Z (N * N)) (ep : Episode) : gmap Z (N * N) :=
  if (epi_episode_file_id ep =? 0)%Z then by_file
  else
    let candidate := (epi_season_number ep, epi_episode_number ep) in
    match by_file !! epi_episode_file_id ep with
    | Some current => if rank_lt (episode_rank candidate) (episode_rank current) then <[epi_episode_file_id ep := candidate]> by_file else by_file
    | None => <[epi_episode_file_id ep := candidate]> by_file
    end.

Definition numbering_by_file (episodes : list Episode) : gmap Z (N * N) := fold_left number_file episodes ∅.

Definition series_ids (show : Series) : ExternalIds :=
  mkIds (non_zero (se_tvdb_id show)) None (non_zero (se_tv_maze_id show)) (non_empty (se_imdb_id show)) None None None None.

Definition episode_item (c : ArrClient) (show : Series) (numbering : gmap Z (N * N)) (file : EpisodeFile) : option (Discovered * list Z) :=
  '(season, episode) ← numbering !! ef_id file;
  Some (mkDiscovered (ac_kind c) (se_id show) (ef_id file) (Model.Episode (se_title show) season episode) (ef_path file) (ef_size file)
          (series_ids show) (non_empty (ef_scene_name file)) None (ef_media_info file ≫= into_meta) None, se_tags show).

Definition series_items (c : ArrClient) (fetched : Series * (list EpisodeFile * list Episode)) : list (Discovered * list Z) :=
  omap (episode_item c fetched.1 (numbering_by_file fetched.2.2)) fetched.2.1.

Definition sonarr_discover (c : ArrClient) (tag_ids : list Z) : result (list (Discovered * list Z)) ArrError :=
  let? series := arr_get (de_vec de_series) c (bs "series") [] in
  let series := filter (fun show => carries tag_ids (se_tags show) && uses_alternate_order show = false) series in
  let? fetched := fetch_tagged se_tags c series tag_ids fetch_series in
  Ok (concat (map (series_items c) fetched)).

(** ** Radarr (radarr.rs) *)

Definition movie_file (c : ArrClient) (movie : Movie) : result (option MovieFile) ArrError :=
  if bool_decide (is_Some (mv_movie_file movie)) || negb (mv_has_file movie) then Ok None
  else
    let? files := arr_get_for de_movie_file c (bs "moviefile") (bs "movieId") (mv_id movie) in
    Ok (head files).

Definition scene (movie : Movie) : option SceneMeta :=
  if bool_decide (mv_item_type movie <> Some (bs "scene")) then None
  else studio ← mv_studio_title movie; released ← mv_release_date movie; scene_new studio released.

Definition movie_item (c : ArrClient) (fetched : Movie * option MovieFile) : list (Discovered * list Z) :=
  let movie := fetched.1 in
  match (match mv_movie_file movie with Some file => Some file | None => fetched.2 end) with
  | None => []
  | Some file =>
      [(mkDiscovered (ac_kind c) (mv_id movie) (mf_id file) (Model.Movie (mv_title movie) (non_zero_year (mv_year movie))) (mf_path file)
          (mf_size file) (mkIds None (non_zero (mv_tmdb_id movie)) None (non_empty (mv_imdb_id movie)) None None None None)
          (non_empty (mf_scene_name file)) (non_empty (mf_original_file_path file)) (mf_media_info file ≫= into_meta) (scene movie),
        mv_tags movie)]
  end.

Definition radarr_discover (c : ArrClient) (tag_ids : list Z) : result (list (Discovered * list Z)) ArrError :=
  let? movies := arr_get (de_vec de_movie) c (bs "movie") [] in
  let? fetched := fetch_tagged mv_tags c movies tag_ids movie_file in
  Ok (concat (map (movie_item c) fetched)).

(** ** Lidarr (lidarr.rs) *)

Definition fetch_artist (c : ArrClient) (artist : Artist) : result (list Album * list TrackFile * list Track) ArrError :=
  let? albums := arr_get_for de_album c (bs "album") (bs "artistId") (at_id artist) in
  let? files := arr_get_for de_track_file c (bs "trackfile") (bs "artistId") (at_id artist) in
  let? tracks := arr_get_for de_track c (bs "track") (bs "artistId") (at_id artist) in
  Ok (albums, files, tracks).

Definition number_track (by_file : gmap Z (list N)) (track : Track) : gmap Z (list N) :=
  match tk_absolute_number track with
  | Some number => <[tk_track_file_id track := default [] (by_file !! tk_track_file_id track) ++ [number]]> by_file
  | None => by_file
  end.

Definition numbers_by_file (tracks : list Track) : gmap Z (list N) := fold_left number_track tracks ∅.

Definition track_number (numbers : option (list N)) : option N := match numbers with Some [number] => Some number | _ => None end.

Definition track_item (artist : Artist) (numbers : gmap Z (list N)) (af : Album * TrackFile) : Discovered * list Z :=
  let '(album, file) := af in
  (mkDiscovered Lidarr (at_id artist) (trf_id file)
     (Model.Track (at_name artist) (al_title album) (track_number (numbers !! trf_id file))) (trf_path file) (trf_size file)
     (mkIds None None None None
        (match non_empty (al_foreign_id album) with Some id => Some id | None => non_empty (at_foreign_id artist) end) None None None)
     (non_empty (trf_scene_name file)) None (trf_media_info file ≫= into_meta) None, at_tags artist).

Definition artist_items (fetched : Artist * (list Album * list TrackFile * list Track)) : list (Discovered * list Z) :=
  let '(artist, (albums, files, tracks)) := fetched in
  map (track_item artist (numbers_by_file tracks)) (join_by_parent albums files al_id trf_album_id).

Definition lidarr_discover (c : ArrClient) (tag_ids : list Z) : result (list (Discovered * list Z)) ArrError :=
  let? artists := arr_get (de_vec de_artist) c (bs "artist") [] in
  let? fetched := fetch_tagged at_tags c artists tag_ids fetch_artist in
  Ok (concat (map artist_items fetched)).

(** ** Readarr (readarr.rs) *)

Definition fetch_author (c : ArrClient) (author : Author) : result (list Book * list BookFile) ArrError :=
  let? books := arr_get_for de_book c (bs "book") (bs "authorId") (au_id author) in
  let? files := arr_get_for de_book_file c (bs "bookfile") (bs "authorId") (au_id author) in
  Ok (books, files).

Definition names_hardcover (metadata_source : bytes) : bool :=
  match res_ok (url_parse (trim metadata_source)) ≫= url_host_str with
  | Some host => contains (bs "hardcover") (str_to_ascii_lowercase host)
  | None => false
  end.

Definition uses_hardcover (c : ArrClient) : bool :=
  match arr_get de_development_config c (bs "config/development") [] with
  | Ok (Some source) => names_hardcover source
  | _ => false
  end.

Definition pick_isbn (editions : list Edition) : option bytes :=
  let has_isbn e := bool_decide (is_Some (ed_isbn13 e)) in
  let picked := match List.find (fun e => ed_monitored e && has_isbn e) editions with
                | Some e => Some e
                | None => List.find has_isbn editions
                end in
  picked ≫= fun e => non_empty (ed_isbn13 e).

Definition book_item (author : Author) (hardcover : bool) (bf : Book * BookFile) : Discovered * list Z :=
  let '(book, file) := bf in
  let work_id := non_empty (bk_foreign_id book) in
  (mkDiscovered Readarr (au_id author) (bf_id file) (Model.Book (au_name author) (bk_title book)) (bf_path file) (bf_size file)
     (mkIds None None None None None (if hardcover then None else work_id) (if hardcover then work_id else None) (pick_isbn (bk_editions book)))
     (non_empty (bf_scene_name file)) None (bf_media_info file ≫= into_meta) None, au_tags author).

Definition author_items (hardcover : bool) (fetched : Author * (list Book * list BookFile)) : list (Discovered * list Z) :=
  map (book_item fetched.1 hardcover) (join_by_parent fetched.2.1 fetched.2.2 bk_id bf_book_id).

Definition readarr_discover (c : ArrClient) (tag_ids : list Z) : result (list (Discovered * list Z)) ArrError :=
  let? authors := arr_get (de_vec de_author) c (bs "author") [] in
  let? fetched := fetch_tagged au_tags c authors tag_ids fetch_author in
  if is_nonempty fetched then Ok (concat (map (author_items (uses_hardcover c)) fetched)) else Ok [].

(** ** Discovery *)

Definition walk (c : ArrClient) (tag_ids : list Z) : result (list (Discovered * list Z)) ArrError :=
  match ac_kind c with
  | Sonarr => sonarr_discover c tag_ids
  | Whisparr =>
      let? status := system_status c in
      if whisparr_walks_like_radarr (ss_version status) then radarr_discover c tag_ids else sonarr_discover c tag_ids
  | Radarr => radarr_discover c tag_ids
  | Lidarr => lidarr_discover c tag_ids
  | Readarr => readarr_discover c tag_ids
  | Directory => Err (NotAnApp (ac_kind c))
  end.

Definition discover_with_tag_id (c : ArrClient) (tag : Z) : result (list Discovered) ArrError :=
  let? walked := walk c [tag] in Ok (map fst walked).

Definition arr_discover (c : ArrClient) (tag_label : bytes) : result (list Discovered) ArrError :=
  let? tag := tag_id c tag_label in discover_with_tag_id c tag.

(** The friends' tags: their ids and the friend each names. *)
Definition friend_tags (tag_label : bytes) (tags : list Tag) : list (Z * bytes) :=
  let prefix := str_to_ascii_lowercase tag_label ++ bs "-" in
  omap (fun tag => friend ← str_strip_prefix prefix (str_to_ascii_lowercase (tag_label_of tag));
                   if is_nonempty friend then Some (tag_id_of tag, friend) else None) tags.

(** One file of the walk: for everyone, or for the friends whose tags its entity carries. *)
Definition note_audience (plain : Z) (friends : list (Z * bytes)) (audience : gmap Z (list bytes)) (w : Discovered * list Z) : gmap Z (list bytes) :=
  if bool_decide (plain ∈ w.2) then audience
  else <[d_file_id w.1 := map snd (filter (fun f => f.1 ∈ w.2) friends)]> audience.

Definition discover_with_audience (c : ArrClient) (tag_label : bytes) : result TaggedFiles ArrError :=
  let? tags := arr_tags c in
  let? plain := find_tag c tags tag_label in
  let friends := friend_tags tag_label tags in
  let? walked := walk c (plain :: map fst friends) in
  Ok (mkTagged (map fst walked) (fold_left (note_audience plain friends) walked ∅)).

(** [LibrarySource for ArrClient]. *)
Definition arr_source (describe : ArrError -> bytes) (c : ArrClient) : LibrarySource :=
  mkSource (ac_kind c) (fun tag =>
    let? found := rmap_err describe (discover_with_audience c tag) in
    Ok (mkScan (tg_items found) true (tg_audience found))).

End Client.

(** ** Facts: walks *)

(** Entities an application lists, by id and tags. *)
Inductive listed_entity `{U : UrlLib} `{UP : !UrlParts U} `{AA : !ArrApp U} `{JT : JsonText} `{FT : FloatText} (c : ArrClient) : Z -> list Z -> Prop :=
| listed_series l s : arr_get (de_vec de_series) c (bs "series") [] = Ok l -> s ∈ l -> listed_entity c (se_id s) (se_tags s)
| listed_movie l m : arr_get (de_vec de_movie) c (bs "movie") [] = Ok l -> m ∈ l -> listed_entity c (mv_id m) (mv_tags m)
| listed_artist l a : arr_get (de_vec de_artist) c (bs "artist") [] = Ok l -> a ∈ l -> listed_entity c (at_id a) (at_tags a)
| listed_author l a : arr_get (de_vec de_author) c (bs "author") [] = Ok l -> a ∈ l -> listed_entity c (au_id a) (au_tags a).

Lemma carries_spec tag_ids tags : carries tag_ids tags = true <-> exists tag, tag ∈ tags /\ tag ∈ tag_ids.
Proof.
  unfold carries. rewrite existsb_exists. split.
  - intros (t & Hin%list_elem_of_In & Ht%bool_decide_eq_true). eauto.
  - intros (t & Hin & Ht). exists t. rewrite <- list_elem_of_In, bool_decide_eq_true. eauto.
Qed.

Section WalkFacts.
Context `{U : UrlLib} `{UP : !UrlParts U} `{AA : !ArrApp U} `{JT : JsonText} `{FT : FloatText} `{UH : !UrlHost U}.

(** What a walk fetched: every tagged entity, each with its own answer. *)
Lemma fetch_tagged_all {E P : Type} (tags : E -> list Z) c entities tag_ids (fetch : ArrClient -> E -> result P ArrError) fetched :
  fetch_tagged tags c entities tag_ids fetch = Ok fetched ->
  map fst fetched = filter (fun e => carries tag_ids (tags e) = true) entities /\ Forall (fun ep => fetch c ep.1 = Ok ep.2) fetched.
Proof.
  unfold fetch_tagged. intros (ps & Hps%collect_results_Ok & [= <-])%rbind_Ok.
  revert Hps. generalize (filter (fun e => carries tag_ids (tags e) = true) entities) as l. intros l.
  induction 1 as [|e p l ps He H IH]; cbn; [by split|]. destruct IH as [-> ?]. by split; [|constructor].
Qed.

Lemma fetch_tagged_elem {E P : Type} (tags : E -> list Z) c entities tag_ids (fetch : ArrClient -> E -> result P ArrError) fetched e p :
  fetch_tagged tags c entities tag_ids fetch = Ok fetched -> (e, p) ∈ fetched ->
  e ∈ entities /\ carries tag_ids (tags e) = true /\ fetch c e = Ok p.
Proof.
  intros [Hf Hall]%fetch_tagged_all Hin. rewrite Forall_forall in Hall.
  assert (e ∈ map fst fetched) as He by (by apply (list_elem_of_fmap_2 fst) in Hin).
  rewrite Hf in He. apply list_elem_of_filter in He as [? ?]. split; [done|]. split; [done|]. exact (Hall _ Hin).
Qed.

(** What every entry of a walk satisfies. *)
Definition well_walked (c : ArrClient) (tag_ids : list Z) (w : Discovered * list Z) : Prop :=
  carries tag_ids w.2 = true /\ d_source w.1 = ac_kind c /\ listed_entity c (d_source_id w.1) w.2.

Lemma sonarr_walked c tag_ids walked w : sonarr_discover c tag_ids = Ok walked -> w ∈ walked -> well_walked c tag_ids w.
Proof.
  unfold sonarr_discover. intros (series & Hs & (fetched & Hf & [= <-])%rbind_Ok)%rbind_Ok Hw.
  apply list_elem_of_In, in_concat in Hw as (l & Hl & Hw). apply in_map_iff in Hl as ([show [files eps]] & <- & Hin%list_elem_of_In).
  destruct (fetch_tagged_elem _ _ _ _ _ _ _ _ Hf Hin) as ([_ Hshow]%list_elem_of_filter & Hc & _).
  apply list_elem_of_In, list_elem_of_omap in Hw as (file & _ & E). unfold episode_item in E. cbn [fst snd] in E.
  destruct (numbering_by_file eps !! ef_id file) as [[season episode]|]; cbn in E; [|done]. injection E as <-.
  split; [done|]. split; [done|]. by eapply listed_series.
Qed.

Lemma radarr_walked c tag_ids walked w : radarr_discover c tag_ids = Ok walked -> w ∈ walked -> well_walked c tag_ids w.
Proof.
  unfold radarr_discover. intros (movies & Hs & (fetched & Hf & [= <-])%rbind_Ok)%rbind_Ok Hw.
  apply list_elem_of_In, in_concat in Hw as (l & Hl & Hw). apply in_map_iff in Hl as ([movie file] & <- & Hin%list_elem_of_In).
  destruct (fetch_tagged_elem _ _ _ _ _ _ _ _ Hf Hin) as (Hm & Hc & _). apply list_elem_of_In in Hw. unfold movie_item in Hw. cbn in Hw.
  destruct (match mv_movie_file movie with Some f => Some f | None => file end) as [f|]; [|by apply elem_of_nil in Hw].
  apply list_elem_of_singleton in Hw as ->. split; [done|]. split; [done|]. by eapply listed_movie.
Qed.

Lemma lidarr_walked c tag_ids walked w : ac_kind c = Lidarr -> lidarr_discover c tag_ids = Ok walked -> w ∈ walked -> well_walked c tag_ids w.
Proof.
  intros Hk. unfold lidarr_discover. intros (artists & Hs & (fetched & Hf & [= <-])%rbind_Ok)%rbind_Ok Hw.
  apply list_elem_of_In, in_concat in Hw as (l & Hl & Hw). apply in_map_iff in Hl as ([artist [[albums files] tracks]] & <- & Hin%list_elem_of_In).
  destruct (fetch_tagged_elem _ _ _ _ _ _ _ _ Hf Hin) as (Ha & Hc & _).
  apply in_map_iff in Hw as ([album file] & <- & _). split; [done|]. split; [done|]. by eapply listed_artist.
Qed.

Lemma readarr_walked c tag_ids walked w : ac_kind c = Readarr -> readarr_discover c tag_ids = Ok walked -> w ∈ walked -> well_walked c tag_ids w.
Proof.
  intros Hk. unfold readarr_discover. intros (authors & Hs & (fetched & Hf & E)%rbind_Ok)%rbind_Ok Hw.
  destruct (is_nonempty fetched); injection E as <-; [|by apply elem_of_nil in Hw].
  apply list_elem_of_In, in_concat in Hw as (l & Hl & Hw). apply in_map_iff in Hl as ([author [books files]] & <- & Hin%list_elem_of_In).
  destruct (fetch_tagged_elem _ _ _ _ _ _ _ _ Hf Hin) as (Ha & Hc & _).
  apply in_map_iff in Hw as ([book file] & <- & _). split; [done|]. split; [done|]. by eapply listed_author.
Qed.

Lemma walk_walked c tag_ids walked w : walk c tag_ids = Ok walked -> w ∈ walked -> well_walked c tag_ids w.
Proof.
  unfold walk. destruct (ac_kind c) eqn:Hk; try done.
  - apply sonarr_walked.
  - apply radarr_walked.
  - by apply lidarr_walked.
  - by apply readarr_walked.
  - intros (status & _ & Hd)%rbind_Ok. destruct (whisparr_walks_like_radarr _); [by eapply radarr_walked|by eapply sonarr_walked].
Qed.

(** The audience after a walk. *)
Lemma audience_fold plain friends walked :
  let audience := fold_left (note_audience plain friends) walked ∅ in
  forall id, match audience !! id with
             | None => forall w, w ∈ walked -> d_file_id w.1 = id -> plain ∈ w.2
             | Some names => exists w, w ∈ walked /\ d_file_id w.1 = id /\ plain ∉ w.2 /\ names = map snd (filter (fun f => f.1 ∈ w.2) friends)
             end.
Proof.
  induction walked as [|w walked IH] using rev_ind; intros audience id; subst audience.
  { cbn. rewrite lookup_empty. by intros w Hw%elem_of_nil. }
  rewrite fold_left_app. cbn [fold_left]. cbv zeta in IH. set (audience := fold_left (note_audience plain friends) walked ∅) in *. specialize (IH id).
  unfold note_audience. case_bool_decide as Hp.
  - destruct (audience !! id) as [names|]; [|set_solver]. destruct IH as (w' & ? & ?). exists w'. split; [set_solver|done].
  - destruct (decide (d_file_id w.1 = id)) as [<-|Hne].
    + rewrite lookup_insert_eq. exists w. split; [set_solver|done].
    + rewrite lookup_insert_ne by done. destruct (audience !! id) as [names|]; [|set_solver].
      destruct IH as (w' & ? & ?). exists w'. split; [set_solver|done].
Qed.

End WalkFacts.

(** ** Facts: numbering *)

(** The numbers of the episodes a file is linked to. *)
Definition numbers_for (id : Z) (episodes : list Episode) : list (N * N) :=
  map (fun e => (epi_season_number e, epi_episode_number e)) (filter (fun e => epi_episode_file_id e = id) episodes).

Lemma rank_lt_trans a b c : rank_lt a b = true -> rank_lt b c = true -> rank_lt a c = true.
Proof. unfold rank_lt. destruct a as [[a1 a2] a3], b as [[b1 b2] b3], c as [[c1 c2] c3]. cbn. rewrite !orb_true_iff, !andb_true_iff, !orb_true_iff, !andb_true_iff, !N.ltb_lt, !N.eqb_eq. lia. Qed.

Lemma rank_lt_irrefl a : rank_lt a a = false.
Proof. unfold rank_lt. by rewrite !N.ltb_irrefl, !andb_false_r. Qed.

(** A file is numbered by the least of its episodes, specials last. *)
Lemma numbering_least episodes id :
  match numbering_by_file episodes !! id with
  | None => id = 0%Z \/ numbers_for id episodes = []
  | Some n => id <> 0%Z /\ n ∈ numbers_for id episodes /\ forall m, m ∈ numbers_for id episodes -> rank_lt (episode_rank m) (episode_rank n) = false
  end.
Proof.
  unfold numbering_by_file. induction episodes as [|ep episodes IH] using rev_ind; [right; done|].
  rewrite fold_left_app. cbn [fold_left]. set (by_file := fold_left number_file episodes ∅) in *.
  assert (numbers_for id (episodes ++ [ep]) =
          numbers_for id episodes ++ if decide (epi_episode_file_id ep = id) then [(epi_season_number ep, epi_episode_number ep)] else []) as ->.
  { unfold numbers_for. rewrite filter_app, map_app. f_equal. rewrite filter_cons. by case_decide. }
  unfold number_file. destruct (Z.eqb_spec (epi_episode_file_id ep) 0) as [E0|E0].
  { destruct (decide (epi_episode_file_id ep = id)) as [<-|Hne]; [|by rewrite app_nil_r]. destruct (by_file !! _); [|by left]. by destruct IH. }
  destruct (decide (epi_episode_file_id ep = id)) as [<-|Hne].
  2: { rewrite app_nil_r. destruct (by_file !! epi_episode_file_id ep) as [cur|]; [destruct (rank_lt _ _)|]; by rewrite ?lookup_insert_ne by done. }
  set (cand := (epi_season_number ep, epi_episode_number ep)). destruct (by_file !! epi_episode_file_id ep) as [cur|] eqn:Ec.
  - destruct IH as (_ & Hin & Hle). destruct (rank_lt (episode_rank cand) (episode_rank cur)) eqn:El.
    + rewrite lookup_insert_eq. split; [done|]. split; [set_solver|]. intros m [Hm| ->%list_elem_of_singleton]%elem_of_app; [|apply rank_lt_irrefl].
      apply not_true_iff_false. intros H. specialize (Hle m Hm). by rewrite (rank_lt_trans _ _ _ H El) in Hle.
    + rewrite Ec. split; [done|]. split; [set_solver|]. intros m [Hm| ->%list_elem_of_singleton]%elem_of_app; auto.
  - destruct IH as [?| ->]; [done|]. rewrite lookup_insert_eq. split; [done|]. split; [set_solver|].
    intros m [[]%elem_of_nil| ->%list_elem_of_singleton]%elem_of_app. apply rank_lt_irrefl.
Qed.

(** ** What discovery promises *)

(** [friend] is named by a tag an entity carries: [<label>-<friend>], whatever its case. *)
Definition tagged_for (tags : list Tag) (label : bytes) (entity : list Z) (friend : bytes) : Prop :=
  friend <> [] /\ exists t, t ∈ tags /\ tag_id_of t ∈ entity /\
    str_to_ascii_lowercase (tag_label_of t) = str_to_ascii_lowercase label ++ bs "-" ++ friend.

Lemma friend_tags_elem label tags id friend :
  (id, friend) ∈ friend_tags label tags <->
  friend <> [] /\ exists t, t ∈ tags /\ tag_id_of t = id /\ str_to_ascii_lowercase (tag_label_of t) = str_to_ascii_lowercase label ++ bs "-" ++ friend.
Proof.
  unfold friend_tags. rewrite list_elem_of_omap. split.
  - intros (t & Ht & E). destruct (str_strip_prefix _ _) as [f|] eqn:Ef; [|done]. cbn in E. destruct f as [|b f]; [done|]. injection E as <- <-.
    apply str_strip_prefix_spec in Ef. rewrite <- app_assoc in Ef. split; [done|]. by exists t.
  - intros (Hne & t & Ht & <- & E). exists t. split; [done|]. rewrite E, app_assoc, str_strip_prefix_app. cbn. by destruct friend.
Qed.

Section Promises.
Context `{U : UrlLib} `{UP : !UrlParts U} `{AA : !ArrApp U} `{JT : JsonText} `{FT : FloatText} `{UH : !UrlHost U}.

(** C14: Who a discovered file is for.  Every file belongs to an entity the application
    lists and is filed under that application; a file without an audience belongs to an
    entity that carries the plain tag, and an audience is never empty and names exactly the
    friends whose own tags an entity of that file carries, the plain tag not among them. *)
Theorem audience_exact (describe : ArrError -> bytes) (c : ArrClient) (label : bytes) (scan : SourceScan) :
  ls_discover (arr_source describe c) label = Ok scan ->
  exists tags plain, arr_tags c = Ok tags /\ find_tag c tags label = Ok plain /\ sn_complete scan = true /\
    (forall item, item ∈ sn_items scan -> d_source item = ac_kind c /\
       (sn_audience scan !! d_file_id item = None -> exists entity, listed_entity c (d_source_id item) entity /\ plain ∈ entity)) /\
    (forall id names, sn_audience scan !! id = Some names -> names <> [] /\
       exists item entity, item ∈ sn_items scan /\ d_file_id item = id /\ listed_entity c (d_source_id item) entity /\ plain ∉ entity /\
         forall friend, friend ∈ names <-> tagged_for tags label entity friend).
Proof.
  cbn. unfold discover_with_audience.
  intros (found & (tags & Ht & (plain & Hp & (walked & Hw & [= <-])%rbind_Ok)%rbind_Ok)%rmap_err_Ok%rbind_Ok & [= <-])%rbind_Ok.
  exists tags, plain. cbn. split; [done|]. split; [done|]. split; [done|].
  pose proof (audience_fold plain (friend_tags label tags) walked) as Ha. cbn in Ha. split.
  - intros item ([item' entity] & -> & Hin)%list_elem_of_fmap. destruct (walk_walked _ _ _ _ Hw Hin) as (_ & Hs & Hl).
    split; [done|]. intros Hn. cbn [fst] in Hn. specialize (Ha (d_file_id item')). rewrite Hn in Ha. exists entity. split; [done|]. by apply (Ha _ Hin).
  - intros id names Hn. specialize (Ha id). rewrite Hn in Ha. destruct Ha as ([item entity] & Hin & Hid & Hnp & ->). cbn in Hnp, Hid.
    destruct (walk_walked _ _ _ _ Hw Hin) as (Hc & _ & Hl). cbn in Hc, Hl.
    assert (forall friend, friend ∈ map snd (filter (fun f => f.1 ∈ entity) (friend_tags label tags)) <-> tagged_for tags label entity friend) as Hnames.
    { intros friend. rewrite list_elem_of_fmap. split.
      - intros ([i f] & -> & [He (Hne & t & Htt & <- & E)%friend_tags_elem]%list_elem_of_filter). split; [done|]. by exists t.
      - intros (Hne & t & Htt & He & E). exists (tag_id_of t, friend). split; [done|]. apply list_elem_of_filter. split; [done|]. apply friend_tags_elem. eauto. }
    split.
    + apply carries_spec in Hc as (tag & Htag & [->|([i f] & -> & Hf)%list_elem_of_fmap]%elem_of_cons); [done|]. cbn in Htag.
      cbn [snd]. intros E. assert (f ∈ map snd (filter (fun f => f.1 ∈ entity) (friend_tags label tags))) as Hf'; [|rewrite E in Hf'; by apply elem_of_nil in Hf'].
      apply list_elem_of_fmap. exists (i, f). split; [done|]. by apply list_elem_of_filter.
    + exists item, entity. split; [apply list_elem_of_fmap; by exists (item, entity)|]. done.
Qed.

(** Nothing of a tagged series is missed or misnumbered.  When Sonarr answers, every file
    of a listed, tagged series in the official order that some episode is linked to is
    discovered, under the least of its episodes with specials last; a series in another
    order shares nothing. *)
Theorem tagged_series_discovered (c : ArrClient) (tag_ids : list Z) (walked : list (Discovered * list Z)) (series : list Series) :
  sonarr_discover c tag_ids = Ok walked -> arr_get (de_vec de_series) c (bs "series") [] = Ok series ->
  (forall show, show ∈ series -> carries tag_ids (se_tags show) = true -> uses_alternate_order show = false ->
     exists files episodes, fetch_series c show = Ok (files, episodes) /\
       forall file, file ∈ files -> ef_id file <> 0%Z -> numbers_for (ef_id file) episodes <> [] ->
         exists n item, item ∈ map fst walked /\ n ∈ numbers_for (ef_id file) episodes /\
           (forall m, m ∈ numbers_for (ef_id file) episodes -> rank_lt (episode_rank m) (episode_rank n) = false) /\
           d_file_id item = ef_id file /\ d_source_id item = se_id show /\ d_arr_path item = ef_path file /\
           d_spec item = Model.Episode (se_title show) n.1 n.2) /\
  (forall item, item ∈ map fst walked -> exists show, show ∈ series /\ se_id show = d_source_id item /\ uses_alternate_order show = false).
Proof.
  unfold sonarr_discover. intros (series' & Hs & (fetched & Hf & [= <-])%rbind_Ok)%rbind_Ok Hs'. rewrite Hs in Hs'. injection Hs' as <-. split.
  - intros show Hshow Hc Ho. pose proof (fetch_tagged_all _ _ _ _ _ _ Hf) as [Hmap Hall].
    assert (show ∈ map fst fetched) as Hin.
    { rewrite Hmap. apply list_elem_of_filter. split; [done|]. apply list_elem_of_filter. by rewrite Ho, andb_false_r. }
    apply list_elem_of_fmap in Hin as ([show' [files episodes]] & -> & Hin). rewrite Forall_forall in Hall. specialize (Hall _ Hin). cbn in Hall.
    exists files, episodes. split; [done|]. intros file Hfile H0 Hne. pose proof (numbering_least episodes (ef_id file)) as Hn.
    destruct (numbering_by_file episodes !! ef_id file) as [[season episode]|] eqn:En; [|by destruct Hn]. destruct Hn as (_ & Hn & Hle). exists (season, episode).
    eexists. split; [|split; [exact Hn|split; [exact Hle|]]].
    + apply list_elem_of_fmap. eexists (_, _). split; [reflexivity|]. apply list_elem_of_In, in_concat. eexists. split; [apply in_map, list_elem_of_In, Hin|].
      apply list_elem_of_In, list_elem_of_omap. exists file. split; [exact Hfile|]. unfold episode_item. cbn [fst snd]. rewrite En. reflexivity.
    + done.
  - intros item ([item' entity] & -> & Hw)%list_elem_of_fmap. apply list_elem_of_In, in_concat in Hw as (l & Hl & Hw).
    apply in_map_iff in Hl as ([show [files eps]] & <- & Hin%list_elem_of_In).
    destruct (fetch_tagged_elem _ _ _ _ _ _ _ _ Hf Hin) as ([Ho Hshow]%list_elem_of_filter & Hc & _).
    apply list_elem_of_In, list_elem_of_omap in Hw as (file & _ & E). unfold episode_item in E. cbn [fst snd] in E.
    destruct (numbering_by_file eps !! ef_id file) as [[season episode]|]; cbn in E; [|done]. injection E as <- _.
    exists show. split; [done|]. split; [done|]. by rewrite Hc in Ho.
Qed.

End Promises.

(** *** A Sonarr with two series, for the witnesses *)

(** One series for everyone, whose double-length file is episodes 1 and 2 and a special;
    one for Sam. *)
Definition toy_library (body : bytes) : option Json :=
  let tv id title tag := JObj [(bs "id", JInt id); (bs "title", JStr title); (bs "tags", JArr [JInt tag]); (bs "seasonType", JStr (bs "official"))] in
  let file id := JArr [JObj [(bs "id", JInt id); (bs "path", JStr (bs "/tv/file.mkv"))]] in
  let ep season number id := JObj [(bs "seasonNumber", JInt season); (bs "episodeNumber", JInt number); (bs "episodeFileId", JInt id)] in
  List.find (fun bj => bool_decide (bj.1 = body))
    [(bs "tag", JArr [JObj [(bs "id", JInt 1); (bs "label", JStr (bs "sharerr"))]; JObj [(bs "id", JInt 2); (bs "label", JStr (bs "Sharerr-Sam"))]]);
     (bs "series", JArr [tv 5%Z (bs "Show") 1%Z; tv 6%Z (bs "Other") 2%Z]);
     (bs "episodefile5", file 50%Z); (bs "episodefile6", file 60%Z);
     (bs "episode5", JArr [ep 0%Z 3%Z 50%Z; ep 1%Z 2%Z 50%Z; ep 1%Z 1%Z 50%Z]); (bs "episode6", JArr [ep 1%Z 1%Z 60%Z])] ≫= fun bj => Some bj.2.

Definition toy_json : JsonText := toy_library.
Definition plain_floats : FloatText := {| f64_display := fun _ => bs "0"; f32_tenths := fun _ => bs "0.0" |}.
Definition no_hosts : UrlHost text_urls := fun _ => None.

Definition toy_sonarr : ArrApp text_urls := fun _ request =>
  Ok (200%N, Ok (drop (length (bs "http://s/api/v3/")) (aq_url request) ++ concat (map snd (aq_query request)))).

Definition sonarr_client : @ArrClient text_urls := mkArr text_urls Sonarr (bs "http://s/api/v3/") (bs "key").

Lemma audience_exact_witness :
  let scan := ls_discover (@arr_source text_urls colon_urls toy_sonarr toy_json plain_floats no_hosts (fun _ => []) sonarr_client) (bs "sharerr") in
  match scan with
  | Ok scan => map d_file_id (sn_items scan) = [50%Z; 60%Z] /\ sn_audience scan !! 50%Z = None /\ sn_audience scan !! 60%Z = Some [bs "sam"] /\
               exists plain entity, @listed_entity text_urls colon_urls toy_sonarr toy_json plain_floats sonarr_client 5 entity /\ plain ∈ entity
  | Err _ => False
  end.
Proof.
  intros scan. destruct scan as [found|e] eqn:E; [|vm_compute in E; discriminate E].
  pose proof (@audience_exact text_urls colon_urls toy_sonarr toy_json plain_floats no_hosts (fun _ => []) sonarr_client (bs "sharerr") found E) as H.
  destruct H as (tags & plain & _ & _ & _ & Hitems & _).
  vm_compute in E. injection E as <-. split; [reflexivity|]. split; [reflexivity|]. split; [reflexivity|].
  destruct (Hitems _ (list_elem_of_here _ _)) as [_ Hn]. destruct (Hn eq_refl) as (entity & Hl & Hin). exists plain, entity. split; [exact Hl|exact Hin].
Defined.

Lemma tagged_series_discovered_witness :
  match @sonarr_discover text_urls colon_urls toy_sonarr toy_json plain_floats sonarr_client [1%Z] with
  | Ok walked => exists n item, item ∈ map fst walked /\ d_file_id item = 50%Z /\ d_spec item = Model.Episode (bs "Show") n.1 n.2 /\ n = (1%N, 1%N)
  | Err _ => False
  end.
Proof.
  destruct (sonarr_discover sonarr_client [1%Z]) as [walked|e] eqn:E; [|vm_compute in E; discriminate E].
  destruct (@arr_get text_urls colon_urls toy_sonarr toy_json _ (de_vec de_series) sonarr_client (bs "series") []) as [series|e] eqn:Es; [|vm_compute in Es; discriminate Es].
  destruct (@tagged_series_discovered text_urls colon_urls toy_sonarr toy_json plain_floats sonarr_client [1%Z] walked series E Es) as [H _].
  vm_compute in Es. injection Es as <-.
  destruct (H _ (list_elem_of_here _ _) ltac:(vm_compute; reflexivity) ltac:(vm_compute; reflexivity)) as (files & episodes & Hf & Hfile).
  vm_compute in Hf. injection Hf as <- <-.
  destruct (Hfile _ (list_elem_of_here _ _) ltac:(discriminate) ltac:(vm_compute; discriminate)) as (n & item & Hitem & Hn & Hle & Hid & _ & _ & Hspec).
  exists n, item. split; [exact Hitem|]. split; [exact Hid|]. split; [exact Hspec|].
  assert (rank_lt (episode_rank (1%N, 1%N)) (episode_rank n) = false) as H1 by (apply Hle; vm_compute; do 2 right; left).
  vm_compute in Hn. apply elem_of_cons in Hn as [->|Hn]; [vm_compute in H1; discriminate H1|].
  apply elem_of_cons in Hn as [->|Hn]; [vm_compute in H1; discriminate H1|]. apply list_elem_of_singleton in Hn. exact Hn.
Defined.
