(* ===== verification/Qbit.v ===== *)
(** * The qBittorrent adapter (crates/sharerr-qbit/src)

    What each operation of the client contract asks of qBittorrent's Web API.
    qBittorrent's reply to a request may depend on every request it was sent before, so
    it is a function of the requests sent to it.  The texts of library errors and of
    floats are parameters. *)

From Stdlib Require Import SpecFloat.
From S2P Require Import Prelude RustStd Text Model Endpoint Effects Client TrackerUrl Announce Paths Totp Accounts Database Items Peers History Sightings Vault Serve Gluetun Json.

(** ** Requests *)

(** A request: its query, the fields of its form, and the file part of a multipart one. *)
Record QRequest : Type := mkQRequest {
  qr_method : bytes;
  qr_path : bytes;
  qr_query : list (bytes * bytes);
  qr_form : list (bytes * bytes);
  qr_file : option (bytes * bytes)
}.

(** What qBittorrent answers to a request with these two headers, after the requests
    before it: a status and a body that can be read or not, or no answer. *)
Class QbitServer : Type := qbit_reply : bytes -> bytes -> list QRequest -> QRequest -> result (N * result bytes bytes) bytes.

(** Whether a text may be a header, and [Url::origin] as text. *)
Class QbitText (U : UrlLib) : Type := {
  header_valid : bytes -> bool;
  url_origin : Url -> bytes
}.

Inductive QbitError : Type :=
| QbUnreachable (url detail : bytes)
| ApiKeyRejected
| MalformedApiKey
| QbStatus (status : N) (path body : bytes)
| QbDecode (path source : bytes)
| InvalidTorrent (name : bytes)
| QbUrl (source : bytes)
| QbClient (source : bytes).

Definition qbit_is_unreachable (e : QbitError) : bool := match e with QbUnreachable _ _ => true | _ => false end.
Definition qbit_is_auth_failure (e : QbitError) : bool := match e with ApiKeyRejected | MalformedApiKey => true | _ => false end.

(** [Display for QbitError]. *)
Definition qbit_error_text (e : QbitError) : bytes :=
  match e with
  | QbUnreachable url detail => bs "could not reach qBittorrent at " ++ url ++ bs ": " ++ detail
  | ApiKeyRejected => bs "qBittorrent rejected the API key. Check the qbittorrent.api_key entry in the vault matches the key in Options -> Web UI -> API key — rotating the key there invalidates the old one immediately. This could also be a Host-header port mismatch: qBittorrent validates the Host header's port against its own WebUI port, so reaching it through a remapped docker port or a reverse proxy on a different port is rejected the same way. API keys need qBittorrent 5.2 or newer"
  | MalformedApiKey => bs "that does not look like a qBittorrent API key. Keys are 32 characters: `qbt_` followed by 28 letters and digits, generated under Options -> Web UI -> API key"
  | QbStatus status path body => bs "qBittorrent returned HTTP " ++ u_to_string status ++ bs " for " ++ path ++ bs ": " ++ body
  | QbDecode path source => bs "could not decode the qBittorrent response for " ++ path ++ bs ": " ++ source
  | InvalidTorrent name => bs "qBittorrent rejected the .torrent file for " ++ name
  | QbUrl source => bs "invalid qBittorrent URL: " ++ source
  | QbClient source => bs "could not build the HTTP client: " ++ source
  end.

(** ** Wire types (models.rs) *)

Record TorrentInfo : Type := mkTorrentInfo {
  ti_hash : bytes; ti_name : bytes; ti_save_path : bytes; ti_content_path : bytes; ti_state : bytes; ti_category : bytes; ti_tags : bytes;
  ti_ratio : N; ti_ratio_limit : N; ti_up_limit : Z
}.

Definition no_limit : Z := -1.

(** [+0.0], the default of a float. *)
Definition f64_zero : N := 0.

Definition de_torrent_info : Decoder TorrentInfo := de_struct (fun o =>
  hash ← field (bs "hash") de_str o; name ← field_or [] (bs "name") de_str o; save ← field_or [] (bs "save_path") de_str o;
  content ← field_or [] (bs "content_path") de_str o; state ← field_or [] (bs "state") de_str o;
  category ← field_or [] (bs "category") de_str o; tags ← field_or [] (bs "tags") de_str o; ratio ← field_or f64_zero (bs "ratio") de_f64 o;
  limit ← field_or f64_zero (bs "ratio_limit") de_f64 o; up ← field_or no_limit (bs "up_limit") de_i64 o;
  Some (mkTorrentInfo hash name save content state category tags ratio limit up)).

Definition qb_tag_list (t : TorrentInfo) : list bytes := split_tags (ti_tags t).

Definition qb_is_seeding (t : TorrentInfo) : bool :=
  bool_decide (ti_state t ∈ [bs "uploading"; bs "stalledUP"; bs "queuedUP"; bs "forcedUP"; bs "checkingUP"; bs "pausedUP"]).

Definition qb_is_stopped (t : TorrentInfo) : bool :=
  bool_decide (ti_state t ∈ [bs "pausedUP"; bs "pausedDL"; bs "stoppedUP"; bs "stoppedDL"]).

Definition ratio_limit_reported (t : TorrentInfo) : option N := if f64_nonneg (ti_ratio_limit t) then Some (ti_ratio_limit t) else None.

Definition upload_limit_kib_reported (t : TorrentInfo) : option N :=
  if (0 <? ti_up_limit t)%Z then Some ((Z.to_N (ti_up_limit t) + 1023) / 1024)%N else None.

Record TorrentFile : Type := mkTorrentFile { qf_name : bytes; qf_size : N }.

Definition de_torrent_file : Decoder TorrentFile := de_struct (fun o =>
  name ← field_or [] (bs "name") de_str o; size ← field_or 0%N (bs "size") de_u64 o; Some (mkTorrentFile name size)).

(** [TrackerEntry], of which only the URL is read. *)
Definition de_tracker_entry : Decoder bytes := de_struct (fun o => field_or [] (bs "url") de_str o).

(** ** The client (client.rs) *)

Definition API_PREFIX : bytes := bs "api/v2/".
Definition API_KEY_PREFIX : bytes := bs "qbt_".
Definition API_KEY_LEN : nat := 32.

(** [looks_like_api_key]: past the prefix every character is one byte. *)
Definition looks_like_api_key (candidate : bytes) : bool :=
  (length candidate =? API_KEY_LEN) && starts_with API_KEY_PREFIX candidate &&
  forallb char_is_ascii_alphanumeric (chars (drop (length API_KEY_PREFIX) candidate)).

Record QbitClient `{U : UrlLib} : Type := mkQbit { qc_base : Url; qc_api_base : Url; qc_bearer : bytes; qc_referer : bytes }.

Section Qbit.
Context `{U : UrlLib} `{UP : !UrlParts U} `{QS : QbitServer} `{QT : !QbitText U} `{DT : DecodeText} `{JT : JsonText} `{FT : FloatText}.

(** [QbitClient::with_api_key]; [http] says whether the HTTP client was built. *)
Definition with_api_key (http : result unit bytes) (base : Url) (key : bytes) : result QbitClient QbitError :=
  if negb (looks_like_api_key key) then Err MalformedApiKey
  else
    let bearer := bs "Bearer " ++ key in
    if negb (header_valid bearer) then Err MalformedApiKey
    else
      let? _ := rmap_err QbClient http in
      let base := normalise_base base in
      let? api_base := rmap_err QbUrl (url_join base API_PREFIX) in
      let referer := url_origin base in
      if header_valid referer then Ok (mkQbit U base api_base bearer referer) else Err (QbUrl (bs "empty host")).

(** The requests sent so far, the last one last. *)
Abbreviation Web := (St (list QRequest)).

Definition send_checked (c : QbitClient) (request : QRequest) : Web (result (result bytes bytes) QbitError) :=
  match url_join (qc_api_base c) (qr_path request) with
  | Err e => sret (Err (QbUrl e))
  | Ok url => fun sent =>
      (let? response := rmap_err (QbUnreachable (url_as_str url)) (qbit_reply (qc_referer c) (qc_bearer c) sent request) in
       let status := response.1 in
       if is_auth_rejection status then Err ApiKeyRejected
       else if negb (status_is_success status) then
         Err (QbStatus status (qr_path request) (clamp_body (match response.2 with Ok body => body | Err _ => [] end)))
       else Ok response.2,
       sent ++ [request])
  end.

Definition send_ok (c : QbitClient) (request : QRequest) : Web (result bytes QbitError) :=
  try! response := send_checked c request in
  sret (Ok (match response with Ok body => body | Err _ => [] end)).

Definition send_json {T : Type} (d : Decoder T) (c : QbitClient) (request : QRequest) : Web (result T QbitError) :=
  try! body := send_ok c request in
  sret (ok_or (json_parse body ≫= d) (QbDecode (qr_path request) (decode_text body))).

(** A GET with a query, and a POST of a form. *)
Definition qget (path : bytes) (query : list (bytes * bytes)) : QRequest := mkQRequest (bs "GET") path query [] None.
Definition qpost (path : bytes) (form : list (bytes * bytes)) : QRequest := mkQRequest (bs "POST") path [] form None.

Definition qb_version (c : QbitClient) : Web (result bytes QbitError) :=
  try! body := send_ok c (qget (bs "app/version") []) in sret (Ok (trim body)).

(** ** The operations (torrents.rs) *)

Definition torrents_info (c : QbitClient) (category : option bytes) : Web (result (list TorrentInfo) QbitError) :=
  send_json (de_vec de_torrent_info) c (qget (bs "torrents/info") match category with Some category => [(bs "category", category)] | None => [] end).

Definition torrent_files (c : QbitClient) (hash : bytes) : Web (result (list TorrentFile) QbitError) :=
  send_json (de_vec de_torrent_file) c (qget (bs "torrents/files") [(bs "hash", hash)]).

Definition bool_text (b : bool) : bytes := if b then bs "true" else bs "false".

(** [kib * 1024] of [u64], which wraps. *)
Definition kib_bytes (kib : N) : N := ((kib * 1024) mod 2 ^ 64)%N.

(** The multipart form of [add_torrent], less its file. *)
Definition add_form (r : AddRequest) : list (bytes * bytes) :=
  [(bs "savepath", ar_save_path r); (bs "autoTMM", bs "false"); (bs "contentLayout", bs "Original");
   (bs "skip_checking", bool_text (ar_skip_checking r)); (bs "stopped", bool_text (ar_stopped r)); (bs "paused", bool_text (ar_stopped r))] ++
  match ar_category r with Some category => [(bs "category", category)] | None => [] end ++
  match ar_tags r with Some tags => [(bs "tags", tags)] | None => [] end ++
  match sl_upload_limit_kib (ar_limits r) with Some kib => [(bs "upLimit", u_to_string (kib_bytes kib))] | None => [] end ++
  match sl_ratio_limit (ar_limits r) with Some ratio => [(bs "ratioLimit", f64_display ratio)] | None => [] end.

Definition add_torrent (c : QbitClient) (r : AddRequest) : Web (result unit QbitError) :=
  try! body := send_ok c (mkQRequest (bs "POST") (bs "torrents/add") [] (add_form r) (Some (ar_filename r, ar_data r))) in
  sret (if str_eq_ignore_ascii_case (trim body) (bs "Fails.") then Err (InvalidTorrent (ar_filename r)) else Ok tt).

Definition remove_torrent (c : QbitClient) (hash : bytes) : Web (result unit QbitError) :=
  try! body := send_ok c (qpost (bs "torrents/delete") [(bs "hashes", hash); (bs "deleteFiles", bs "false")]) in sret (Ok tt).

(** The names of the categories: a map of anything. *)
Definition categories (c : QbitClient) : Web (result (gset bytes) QbitError) :=
  try! names := send_json (de_struct (fun o => Some (map fst o))) c (qget (bs "torrents/categories") []) in
  sret (Ok (list_to_set names)).

Definition create_category (c : QbitClient) (name : bytes) : Web (result unit QbitError) :=
  try! body := send_ok c (qpost (bs "torrents/createCategory") [(bs "category", name)]) in sret (Ok tt).

Definition torrent_trackers (c : QbitClient) (hash : bytes) : Web (result (list bytes) QbitError) :=
  send_json (de_vec de_tracker_entry) c (qget (bs "torrents/trackers") [(bs "hash", hash)]).

Definition post_tracker_urls (c : QbitClient) (hash endpoint : bytes) (urls : list bytes) (sep : bytes) : Web (result unit QbitError) :=
  if negb (is_nonempty urls) then sret (Ok tt)
  else try! body := send_ok c (qpost endpoint [(bs "hash", hash); (bs "urls", join sep urls)]) in sret (Ok tt).

Definition missing_from (existing wanted : list bytes) : list bytes := missing_urls wanted (fun url => bool_decide (url ∈ existing)).

(** What [set_torrent_trackers] takes off the list: every URL not wanted. *)
Definition stale_trackers (existing wanted : list bytes) : list bytes :=
  filter (fun url => negb (starts_with (bs "**") url) && negb (bool_decide (url ∈ wanted)) = true) existing.

Definition set_torrent_trackers (c : QbitClient) (hash : bytes) (urls : list bytes) : Web (result unit QbitError) :=
  try! existing := torrent_trackers c hash in
  try! added := post_tracker_urls c hash (bs "torrents/addTrackers") (missing_from existing urls) [x0a] in
  post_tracker_urls c hash (bs "torrents/removeTrackers") (stale_trackers existing urls) ["|"%byte].

Definition add_torrent_trackers (c : QbitClient) (hash : bytes) (urls : list bytes) : Web (result unit QbitError) :=
  try! existing := torrent_trackers c hash in
  let additions := missing_from existing urls in
  if negb (is_nonempty additions) then sret (Ok tt)
  else post_tracker_urls c hash (bs "torrents/addTrackers") additions [x0a].

Definition set_torrent_limits (c : QbitClient) (hash : bytes) (limits : SeedingLimits) : Web (result unit QbitError) :=
  try! capped :=
    match sl_upload_limit_kib limits with
    | Some kib =>
        try! body := send_ok c (qpost (bs "torrents/setUploadLimit") [(bs "hashes", hash); (bs "limit", u_to_string (kib_bytes kib))]) in sret (Ok tt)
    | None => sret (Ok tt)
    end in
  match sl_ratio_limit limits with
  | Some ratio =>
      try! body := send_ok c (qpost (bs "torrents/setShareLimits")
                                [(bs "hashes", hash); (bs "ratioLimit", f64_display ratio); (bs "seedingTimeLimit", bs "-2"); (bs "inactiveSeedingTimeLimit", bs "-2")]) in
      sret (Ok tt)
  | None => sret (Ok tt)
  end.

Definition export_torrent (c : QbitClient) (hash : bytes) : Web (result bytes QbitError) :=
  try! response := send_checked c (qget (bs "torrents/export") [(bs "hash", hash)]) in
  sret (rmap_err (QbUnreachable (bs "torrents/export")) response).

(** ** The contract (adapter.rs) *)

Definition translate (c : QbitClient) (e : QbitError) : ClientError :=
  if qbit_is_auth_failure e then AuthRejected QBittorrent
  else if qbit_is_unreachable e then Unreachable QBittorrent (url_as_str (qc_base c)) (qbit_error_text e)
  else Api QBittorrent (qbit_error_text e).

Definition lift {T : Type} (c : QbitClient) (m : Web (result T QbitError)) : Web (result T ClientError) :=
  let! r := m in sret (rmap_err (translate c) r).

Definition qb_summary (t : TorrentInfo) : TorrentSummary :=
  mkTorrentSummary (ti_hash t) (ti_name t) (ti_save_path t) (ti_content_path t) (ti_category t) (qb_tag_list t) (qb_is_seeding t) (qb_is_stopped t)
    (Some (ti_ratio t)) (ratio_limit_reported t) (upload_limit_kib_reported t).

Definition qb_list (c : QbitClient) (category : option bytes) : Web (result (list TorrentSummary) ClientError) :=
  try! torrents := lift c (torrents_info c category) in sret (Ok (map qb_summary torrents)).

Definition qb_files (c : QbitClient) (hash : bytes) : Web (result (list TorrentFileEntry) ClientError) :=
  try! files := lift c (torrent_files c hash) in sret (Ok (map (fun f => mkFileEntry (qf_name f) (qf_size f)) files)).

(** [TorrentClient::set_limits], the contract's default. *)
Definition qb_set_limits (c : QbitClient) (hash : bytes) (limits : SeedingLimits) : Web (result unit ClientError) :=
  if limits_is_empty limits then sret (Ok tt) else lift c (set_torrent_limits c hash limits).

Definition qb_export (c : QbitClient) (hash : bytes) : Web (result (option bytes) ClientError) :=
  lift c (try! data := export_torrent c hash in sret (Ok (Some data))).

(** What one call of the contract sends. *)
Definition qb_call (c : QbitClient) (category : option bytes) (call : ClientCall) : Web unit :=
  match call with
  | AskList => let! _ := qb_list c category in sret tt
  | AskFiles hash => let! _ := qb_files c hash in sret tt
  | AskExport hash => let! _ := qb_export c hash in sret tt
  | AskAdd request => let! _ := lift c (add_torrent c request) in sret tt
  | AskRemove hash => let! _ := lift c (remove_torrent c hash) in sret tt
  | AskSetTrackers hash urls => let! _ := lift c (set_torrent_trackers c hash urls) in sret tt
  | AskAddTrackers hash urls => let! _ := lift c (add_torrent_trackers c hash urls) in sret tt
  | AskLimits hash limits => let! _ := qb_set_limits c hash limits in sret tt
  end.

Definition qb_calls (c : QbitClient) (category : option bytes) (calls : list ClientCall) (sent : list QRequest) : list QRequest :=
  fold_left (fun sent call => (qb_call c category call sent).2) calls sent.

(** qBittorrent as the client of the contract. *)
Definition qbit_client (c : QbitClient) (category : option bytes) : TorrentClient := {|
  client_kind := QBittorrent;
  answer_list := fun calls => (qb_list c category (qb_calls c category calls [])).1;
  answer_files := fun calls hash => (qb_files c hash (qb_calls c category calls [])).1;
  answer_export := fun calls hash => (qb_export c hash (qb_calls c category calls [])).1;
  answer_add := fun calls request => (lift c (add_torrent c request) (qb_calls c category calls [])).1;
  answer_remove := fun calls hash => (lift c (remove_torrent c hash) (qb_calls c category calls [])).1;
  answer_set_trackers := fun calls hash urls => (lift c (set_torrent_trackers c hash urls) (qb_calls c category calls [])).1;
  answer_add_trackers := fun calls hash urls => (lift c (add_torrent_trackers c hash urls) (qb_calls c category calls [])).1;
  answer_limits := fun calls hash limits => (qb_set_limits c hash limits (qb_calls c category calls [])).1
|}.

End Qbit.

(** ** Facts: what is sent *)

(** The values a form gives a field. *)
Definition form_values (name : bytes) (form : list (bytes * bytes)) : list bytes := map snd (filter (fun kv => kv.1 = name) form).

(** The requests that leave the media alone: reading; adding a torrent the program asked
    for, in place, with nothing that lets qBittorrent move its content; forgetting a torrent
    and keeping its files; changing trackers and caps. *)
Definition qb_harmless (calls : list ClientCall) (request : QRequest) : Prop :=
  qr_method request = bs "GET" \/
  (qr_path request = bs "torrents/add" /\ exists r, AskAdd r ∈ calls /\ qr_file request = Some (ar_filename r, ar_data r) /\
     form_values (bs "savepath") (qr_form request) = [ar_save_path r] /\ form_values (bs "autoTMM") (qr_form request) = [bs "false"] /\
     form_values (bs "contentLayout") (qr_form request) = [bs "Original"]) \/
  (qr_path request = bs "torrents/delete" /\ form_values (bs "deleteFiles") (qr_form request) = [bs "false"]) \/
  qr_path request ∈ [bs "torrents/addTrackers"; bs "torrents/removeTrackers"; bs "torrents/setUploadLimit"; bs "torrents/setShareLimits"].

Lemma form_values_app name a b : form_values name (a ++ b) = form_values name a ++ form_values name b.
Proof. unfold form_values. by rewrite filter_app, map_app. Qed.

Section Sends.
Context `{U : UrlLib} `{UP : !UrlParts U} `{QS : QbitServer} `{QT : !QbitText U} `{DT : DecodeText} `{JT : JsonText} `{FT : FloatText} (P : QRequest -> Prop).

Lemma sends_checked c request : P request -> preserves (Forall P) (send_checked c request).
Proof.
  intros HP sent Hs. unfold send_checked. destruct (url_join _ _); cbn; [|done]. apply Forall_app. split; [done|]. by constructor.
Qed.

Lemma sends_ok c request : P request -> preserves (Forall P) (send_ok c request).
Proof. intros HP. apply preserves_try; [by apply sends_checked|]. intros ?. apply preserves_ret. Qed.

Lemma sends_then {T : Type} c request (k : bytes -> result T QbitError) :
  P request -> preserves (Forall P) (try! body := send_ok c request in sret (k body)).
Proof. intros HP. apply preserves_try; [by apply sends_ok|]. intros ?. apply preserves_ret. Qed.

Lemma sends_json {T : Type} (d : Decoder T) c request : P request -> preserves (Forall P) (send_json d c request).
Proof. apply sends_then. Qed.

Lemma sends_lift {T : Type} c (m : St (list QRequest) (result T QbitError)) : preserves (Forall P) m -> preserves (Forall P) (lift c m).
Proof. intros H. apply preserves_bind; [done|]. intros ?. apply preserves_ret. Qed.

Lemma sends_trackers c hash endpoint urls sep :
  (forall form, P (qpost endpoint form)) -> preserves (Forall P) (post_tracker_urls c hash endpoint urls sep).
Proof. intros HP. unfold post_tracker_urls. destruct (is_nonempty urls); [|apply preserves_ret]. cbn [negb]. by apply sends_then. Qed.

End Sends.

#[export] Hint Resolve preserves_ret preserves_gets sends_checked sends_ok sends_then sends_json sends_lift sends_trackers : sharerr.

Section Harmless.
Context `{U : UrlLib} `{UP : !UrlParts U} `{QS : QbitServer} `{QT : !QbitText U} `{DT : DecodeText} `{JT : JsonText} `{FT : FloatText}.

Lemma get_harmless calls path query : qb_harmless calls (qget path query).
Proof. by left. Qed.

Lemma tracker_post_harmless calls path form :
  path ∈ [bs "torrents/addTrackers"; bs "torrents/removeTrackers"; bs "torrents/setUploadLimit"; bs "torrents/setShareLimits"] -> qb_harmless calls (qpost path form).
Proof. intros H. by do 3 right. Qed.

(** What the form of an add says of where the content is, whatever its optional fields. *)
Lemma add_form_harmless calls r : AskAdd r ∈ calls -> qb_harmless calls (mkQRequest (bs "POST") (bs "torrents/add") [] (add_form r) (Some (ar_filename r, ar_data r))).
Proof.
  intros Hr. right. left. split; [done|]. exists r. split; [done|]. split; [done|]. unfold qr_form, add_form. rewrite !form_values_app.
  by destruct (ar_category r), (ar_tags r), (sl_upload_limit_kib (ar_limits r)), (sl_ratio_limit (ar_limits r)).
Qed.

Lemma qb_call_harmless c category call calls : call ∈ calls -> preserves (Forall (qb_harmless calls)) (qb_call c category call).
Proof.
  intros Hin. unfold qb_call.
  assert (forall {A : Type} (m : St (list QRequest) A), preserves (Forall (qb_harmless calls)) m -> preserves (Forall (qb_harmless calls)) (let! _ := m in sret tt)) as Hm.
  { intros A m H. apply preserves_bind; [done|]. intros ?. apply preserves_ret. }
  assert (forall path form, path ∈ [bs "torrents/addTrackers"; bs "torrents/removeTrackers"; bs "torrents/setUploadLimit"; bs "torrents/setShareLimits"] ->
            qb_harmless calls (qpost path form)) as Hpost by (intros; by apply tracker_post_harmless).
  destruct call; apply Hm.
  - apply preserves_try; [|auto with sharerr]. apply sends_lift, sends_json. apply get_harmless.
  - apply preserves_try; [|auto with sharerr]. apply sends_lift, sends_json. apply get_harmless.
  - apply sends_lift, preserves_try; [|auto with sharerr]. apply preserves_try; [|auto with sharerr]. apply sends_checked, get_harmless.
  - apply sends_lift, sends_then. by apply add_form_harmless.
  - apply sends_lift, sends_then. by do 2 right; left.
  - apply sends_lift, preserves_try; [apply sends_json, get_harmless|]. intros existing.
    apply preserves_try; [apply sends_trackers; intros; apply Hpost; set_solver|]. intros ?. apply sends_trackers. intros. apply Hpost. set_solver.
  - apply sends_lift, preserves_try; [apply sends_json, get_harmless|]. intros existing. cbn. destruct (is_nonempty _); [|apply preserves_ret].
    apply sends_trackers. intros. apply Hpost. set_solver.
  - unfold qb_set_limits. destruct (limits_is_empty limits); [apply preserves_ret|]. apply sends_lift, preserves_try.
    + destruct (sl_upload_limit_kib limits); [|apply preserves_ret]. apply sends_then, Hpost. set_solver.
    + intros ?. destruct (sl_ratio_limit limits); [|apply preserves_ret]. apply sends_then, Hpost. set_solver.
Qed.

(** C19: Sharerr cannot make qBittorrent move or delete media.  Whatever sequence of calls the
    program makes, and whatever qBittorrent replies to each, every request it is sent reads,
    adds a torrent the program asked to add with its content where it lies and automatic
    management off, forgets a torrent and keeps its files, or changes trackers and caps. *)
Theorem qbit_leaves_media (c : QbitClient) (category : option bytes) (calls : list ClientCall) :
  Forall (qb_harmless calls) (qb_calls c category calls []).
Proof.
  assert (forall more sent, (forall call, call ∈ more -> call ∈ calls) -> Forall (qb_harmless calls) sent -> Forall (qb_harmless calls) (qb_calls c category more sent)) as H.
  { induction more as [|call more IH]; intros sent Hsub Hs; [done|]. cbn. apply IH; [set_solver|]. apply qb_call_harmless; [set_solver|done]. }
  by apply H.
Qed.

End Harmless.

(** ** Facts: trackers *)

(** What qBittorrent documents of the two calls: the URLs to add are separated by line feeds,
    those to remove by bars. *)
Definition tracker_effect (trackers : list bytes) (request : QRequest) : list bytes :=
  let urls sep := concat (map (split_byte sep) (form_values (bs "urls") (qr_form request))) in
  if bool_decide (qr_path request = bs "torrents/addTrackers") then trackers ++ filter (fun u => u ∉ trackers) (urls x0a)
  else if bool_decide (qr_path request = bs "torrents/removeTrackers") then filter (fun u => u ∉ urls "|"%byte) trackers
  else trackers.

Lemma Forall_kept {A : Type} (P Q : A -> Prop) `{forall x, Decision (Q x)} l : Forall P l -> Forall P (filter Q l).
Proof. rewrite !Forall_forall. intros H0 x [_ Hx]%list_elem_of_filter. by apply H0. Qed.

Section Trackers.
Context `{U : UrlLib} `{UP : !UrlParts U} `{QS : QbitServer} `{QT : !QbitText U} `{DT : DecodeText} `{JT : JsonText}.

(** The effect of posting a list under a separator none of it contains. *)
Lemma tracker_urls_split hash path urls sep :
  urls <> [] -> Forall (fun u => sep ∉ u) urls ->
  concat (map (split_byte sep) (form_values (bs "urls") (qr_form (qpost path [(bs "hash", hash); (bs "urls", join [sep] urls)])))) = urls.
Proof.
  intros Hne Hs. assert (form_values (bs "urls") (qr_form (qpost path [(bs "hash", hash); (bs "urls", join [sep] urls)])) = [join [sep] urls]) as -> by reflexivity.
  cbn [map concat]. rewrite app_nil_r. by apply split_byte_join.
Qed.

(** A post of trackers that was accepted: nothing for none, or one request. *)
Lemma post_trackers_ok c hash path urls sep sent sent' :
  post_tracker_urls c hash path urls [sep] sent = (Ok tt, sent') -> Forall (fun u => sep ∉ u) urls ->
  exists posts, sent' = sent ++ posts /\
    (urls = [] /\ posts = [] \/
     exists request, posts = [request] /\ qr_path request = path /\ concat (map (split_byte sep) (form_values (bs "urls") (qr_form request))) = urls).
Proof.
  unfold post_tracker_urls. intros H Hs. destruct urls as [|u urls]; cbn [is_nonempty negb] in H.
  - injection H as <-. exists []. rewrite app_nil_r. by auto.
  - apply try_inv in H as (body & s1 & (response & s2 & Hc & Hk)%try_inv & Hr). injection Hr as <-. injection Hk as _ <-.
    unfold send_checked in Hc. destruct (url_join _ _); [|done]. injection Hc as _ <-. eexists. split; [reflexivity|]. right. eexists. split; [reflexivity|].
    split; [done|]. exact (tracker_urls_split hash path (u :: urls) sep ltac:(discriminate) Hs).
Qed.

(** The tracker list is replaced, pseudo entries kept, and the torrent is never without
    a tracker: with the documented meaning of the two calls, what is left are the wanted
    URLs and the entries that are not URLs, and until then either everything there was or
    everything wanted is on the list. *)
Theorem trackers_replaced (c : QbitClient) (hash : bytes) (urls existing : list bytes) (sent sent1 sent' : list QRequest) :
  torrent_trackers c hash sent = (Ok existing, sent1) -> set_torrent_trackers c hash urls sent = (Ok tt, sent') ->
  Forall (fun u => x0a ∉ u) urls -> Forall (fun u => "|"%byte ∉ u) existing ->
  exists posts, sent' = sent1 ++ posts /\
    (forall u, u ∈ fold_left tracker_effect posts existing <-> u ∈ urls \/ (u ∈ existing /\ starts_with (bs "**") u = true)) /\
    (forall pre, pre `prefix_of` posts ->
       (forall u, u ∈ existing -> u ∈ fold_left tracker_effect pre existing) \/ (forall u, u ∈ urls -> u ∈ fold_left tracker_effect pre existing)).
Proof.
  intros Hg Hset Hn Hb. unfold set_torrent_trackers in Hset. apply try_inv in Hset as (existing' & s1 & Hg' & Hset). rewrite Hg in Hg'. injection Hg' as <- <-.
  apply try_inv in Hset as ([] & s2 & Hadd & Hrem).
  apply post_trackers_ok in Hadd as (adds & -> & Hadds); [|unfold missing_from, missing_urls; by apply Forall_kept].
  apply post_trackers_ok in Hrem as (rems & -> & Hrems); [|unfold stale_trackers; by apply Forall_kept].
  assert (forall u, u ∈ fold_left tracker_effect adds existing <-> u ∈ existing \/ u ∈ urls) as Ha.
  { intros u. assert (u ∈ missing_from existing urls <-> u ∈ urls /\ u ∉ existing) as Hm.
    { unfold missing_from, missing_urls. rewrite list_elem_of_filter, bool_decide_eq_false. tauto. }
    destruct Hadds as [[E ->]|(request & -> & Hp & E)]; cbn [fold_left].
    - rewrite E in Hm. split; [by left|]. intros [|Hu]; [done|]. destruct (decide (u ∈ existing)); [done|]. exfalso. by apply (not_elem_of_nil u), Hm.
    - unfold tracker_effect. rewrite Hp, bool_decide_true, E by done. rewrite elem_of_app, list_elem_of_filter, Hm. destruct (decide (u ∈ existing)); tauto. }
  assert (forall l u, u ∈ fold_left tracker_effect rems l <-> u ∈ l /\ u ∉ stale_trackers existing urls) as Hr.
  { intros l u. destruct Hrems as [[E ->]|(request & -> & Hp & E)]; cbn [fold_left].
    - rewrite E. split; [split; [done|apply not_elem_of_nil]|tauto].
    - unfold tracker_effect. rewrite Hp, bool_decide_false, bool_decide_true, E by done. rewrite list_elem_of_filter. tauto. }
  assert (forall u, u ∈ stale_trackers existing urls <-> u ∈ existing /\ starts_with (bs "**") u = false /\ u ∉ urls) as Hst.
  { intros u. unfold stale_trackers. rewrite list_elem_of_filter, andb_true_iff, !negb_true_iff, bool_decide_eq_false. tauto. }
  exists (adds ++ rems). split; [by rewrite app_assoc|]. split.
  - intros u. rewrite fold_left_app, Hr, Ha, Hst. destruct (starts_with (bs "**") u), (decide (u ∈ urls)); naive_solver.
  - intros pre [rest E]. destruct Hadds as [[_ ->]|(ra & -> & Hpa & Ea)].
    + destruct Hrems as [[_ ->]|(rr & -> & Hpr & Er)]; cbn in E.
      * destruct pre; [|done]. by left.
      * destruct pre as [|p [|? ?]]; [by left| |done]. injection E as <- _. right. intros u Hu. rewrite Hr, Ha, Hst. naive_solver.
    + destruct pre as [|p pre]; [by left|]. injection E as <- E. destruct pre as [|p2 pre].
      * left. intros u Hu. apply Ha. by left.
      * right. intros u Hu. destruct Hrems as [[_ ->]|(rr & -> & Hpr & Er)]; [done|]. injection E as <- E. destruct pre; [|done].
        change (fold_left tracker_effect [ra; rr] existing) with (fold_left tracker_effect [rr] (fold_left tracker_effect [ra] existing)).
        rewrite Hr, Ha, Hst. naive_solver.
Qed.

End Trackers.

(** A cap reads back as the number that was written, below 2^53 KiB/s. *)
Lemma cap_read_back kib t : (0 < kib < 2 ^ 53)%N -> ti_up_limit t = Z.of_N (kib_bytes kib) -> upload_limit_kib_reported t = Some kib.
Proof.
  intros H E. unfold upload_limit_kib_reported. rewrite E. unfold kib_bytes. rewrite N.mod_small by lia. rewrite (proj2 (Z.ltb_lt _ _)) by lia.
  rewrite N2Z.id. f_equal. symmetry. apply (N.div_unique _ 1024 kib 1023); lia.
Qed.

(** Above it does not: the bytes wrap, and 2^54 KiB/s is sent as no cap at all. *)
Example cap_wraps : kib_bytes (2 ^ 54) = 0%N.
Proof. vm_compute. reflexivity. Qed.

(** A torrent paused in qBittorrent 4 counts as stopped and as seeding. *)
Example paused_counts_as_seeding :
  let t := mkTorrentInfo (bs "ab") [] [] [] (bs "pausedUP") [] [] 0 0 (-1) in ts_is_seeding (qb_summary t) = true /\ ts_is_stopped (qb_summary t) = true.
Proof. vm_compute. by split. Qed.

(** *** Witnesses *)

(** A qBittorrent that lists a pseudo entry and an old tracker, and accepts everything. *)
Definition toy_qbit : QbitServer := fun _ _ _ request => Ok (200%N, Ok (qr_path request)).

Definition toy_qbit_json : JsonText := fun body =>
  if bool_decide (body = bs "torrents/trackers") then Some (JArr [JObj [(bs "url", JStr (bs "** [DHT] **"))]; JObj [(bs "url", JStr (bs "http://old/a"))]]) else None.

Definition no_decode_text : DecodeText := {| decode_text := fun _ => []; value_text := fun _ => [] |}.

Definition toy_qbit_client : @QbitClient text_urls := mkQbit text_urls (bs "http://q/") (bs "http://q/api/v2/") (bs "Bearer k") (bs "http://q").

Lemma trackers_replaced_witness :
  let '(outcome, sent) := @set_torrent_trackers text_urls colon_urls toy_qbit no_decode_text toy_qbit_json toy_qbit_client (bs "ab") [bs "http://new/a"] [] in
  outcome = Ok tt /\ exists posts, sent = [qget (bs "torrents/trackers") [(bs "hash", bs "ab")]] ++ posts /\
    forall u, u ∈ fold_left tracker_effect posts [bs "** [DHT] **"; bs "http://old/a"] <->
              u ∈ [bs "http://new/a"] \/ (u ∈ [bs "** [DHT] **"; bs "http://old/a"] /\ starts_with (bs "**") u = true).
Proof.
  destruct (set_torrent_trackers toy_qbit_client (bs "ab") [bs "http://new/a"] []) as [outcome sent] eqn:E.
  assert (outcome = Ok tt) as -> by (vm_compute in E; by injection E as <- _). split; [reflexivity|].
  destruct (@trackers_replaced text_urls colon_urls toy_qbit no_decode_text toy_qbit_json toy_qbit_client (bs "ab") [bs "http://new/a"]
    [bs "** [DHT] **"; bs "http://old/a"] [] [qget (bs "torrents/trackers") [(bs "hash", bs "ab")]] sent) as (posts & Hs & Hl & _);
    [vm_compute; reflexivity|exact E| | |exists posts; split; [exact Hs|exact Hl]].
  - repeat constructor. by apply (bool_decide_unpack _).
  - repeat constructor; by apply (bool_decide_unpack _).
Defined.

(** A tracker whose URL contains a bar is not removed: qBittorrent reads it as two. *)
Example barred_tracker_stays :
  let stale := bs "http://old/a|b" in
  fold_left tracker_effect [qpost (bs "torrents/removeTrackers") [(bs "hash", bs "ab"); (bs "urls", join ["|"%byte] (stale_trackers [stale] []))]] [stale] = [stale].
Proof. vm_compute. reflexivity. Qed.
