(* ===== verification/Transmission.v ===== *)
(** * The Transmission adapter (crates/sharerr-transmission/src/lib.rs)

    What each operation of the client contract asks of Transmission's RPC, with the
    session id the server hands out in a conflict and demands from then on.
    Transmission's reply may depend on every request it was sent before. *)

From Stdlib Require Import SpecFloat.
From S2P Require Import Prelude RustStd Text Model Endpoint Effects Client Json.

(** ** Requests *)

(** One request: the call, its arguments and the session id sent with it. *)
Record TRequest : Type := mkTRequest { tq_method : bytes; tq_arguments : Json; tq_session : option bytes }.

(** What the server answers after the requests before: a status, the session id header,
    and a body that can be read or not; [Err] is no answer. *)
Class TransmissionServer : Type := {
  tr_endpoint : bytes;
  tr_reply : list TRequest -> TRequest -> result (N * option bytes * result bytes bytes) bytes
}.

(** The client: what it sent, and the session id it learned. *)
Record Session : Type := mkSession { ss_sent : list TRequest; ss_token : option bytes }.

Abbreviation Rpc := (St Session).

Definition KIND : ClientKind := Transmission.

(** [Envelope]. *)
Definition de_envelope : Decoder (bytes * option Json)%type := de_struct (fun o =>
  outcome ← field (bs "result") de_str o; arguments ← field_opt (bs "arguments") de_value o; Some (outcome, arguments)).

(** ** Wire types *)

(** [Torrents], the rows of a reply. *)
Definition de_torrents {T : Type} (d : Decoder T) : Decoder (list T) := de_struct (field_or [] (bs "torrents") (de_vec d)).

Record ListedTorrent : Type := mkListed {
  lt_hash_string : bytes; lt_name : bytes; lt_download_dir : bytes; lt_labels : list bytes; lt_status : Z;
  lt_upload_ratio : N; lt_seed_ratio_limit : N; lt_seed_ratio_mode : Z; lt_upload_limited : bool; lt_upload_limit : N
}.

Definition de_listed : Decoder ListedTorrent := de_struct (fun o =>
  hash ← field (bs "hashString") de_str o; name ← field (bs "name") de_str o; dir ← field (bs "downloadDir") de_str o;
  labels ← field_or [] (bs "labels") (de_vec de_str) o; status ← field (bs "status") de_i64 o;
  ratio ← field_or 0%N (bs "uploadRatio") de_f64 o; limit ← field_or 0%N (bs "seedRatioLimit") de_f64 o;
  mode ← field_or 0%Z (bs "seedRatioMode") de_i64 o; limited ← field_or false (bs "uploadLimited") de_bool o;
  up ← field_or 0%N (bs "uploadLimit") de_u64 o;
  Some (mkListed hash name dir labels status ratio limit mode limited up)).

Definition is_seeding_status (status : Z) : bool := (status =? 5)%Z || (status =? 6)%Z.

(** [x <= -k] of an [f64], and infinity. *)
Definition f64_at_most (bits limit : N) : bool := SFleb (f64_of_bits bits) (f64_of_bits limit).
Definition f64_infinity : N := f64_bits (S754_infinity false).

Definition ratio_reported (upload_ratio : N) : option N :=
  if f64_at_most upload_ratio (f64_of_int (-2)) then None
  else if f64_at_most upload_ratio (f64_of_int (-1)) then Some f64_infinity
  else Some upload_ratio.

Definition listed_summary (category : option bytes) (t : ListedTorrent) : TorrentSummary :=
  mkTorrentSummary (str_to_ascii_lowercase (lt_hash_string t)) (lt_name t) (lt_download_dir t) (client_content_path (lt_download_dir t) (lt_name t))
    (default [] category) (lt_labels t) (is_seeding_status (lt_status t)) (lt_status t =? 0)%Z (ratio_reported (lt_upload_ratio t))
    (if (lt_seed_ratio_mode t =? 1)%Z then Some (lt_seed_ratio_limit t) else None) (if lt_upload_limited t then Some (lt_upload_limit t) else None).

(** [FilesTorrent] and [TrackerListTorrent]. *)
Definition de_files_torrent : Decoder (list TorrentFileEntry) := de_struct (field_or [] (bs "files")
  (de_vec (de_struct (fun o => name ← field (bs "name") de_str o; size ← field (bs "length") de_u64 o; Some (mkFileEntry name size))))).

Definition de_tracker_list : Decoder bytes := de_struct (field_or [] (bs "trackerList") de_str).

(** ** Text *)

(** [str::lines]. *)
Definition str_lines (s : bytes) : list bytes :=
  let parts := split_byte x0a s in
  let parts := if bool_decide (last parts = Some []) then removelast parts else parts in
  map (fun l => if bool_decide (last l = Some x0d) then removelast l else l) parts.

(** [Vec::dedup]. *)
Fixpoint dedup (l : list bytes) : list bytes :=
  match l with
  | a :: (b :: _) as rest => if bool_decide (a = b) then dedup rest else a :: dedup rest
  | l => l
  end.

Section Client.
Context `{TS : TransmissionServer} `{JT : JsonText} `{FT : FloatText} `{DT : DecodeText} `{B64 : Base64} (status_text : N -> bytes).

(** One POST, with the session id known. *)
Definition post (method : bytes) (arguments : Json) : Rpc (result (N * option bytes * result bytes bytes) ClientError) := fun s =>
  let request := mkTRequest method arguments (ss_token s) in
  (rmap_err (Unreachable KIND tr_endpoint) (tr_reply (ss_sent s) request), mkSession (ss_sent s ++ [request]) (ss_token s)).

(** What a reply that is no handshake means. *)
Definition read_reply (method : bytes) (response : N * option bytes * result bytes bytes) : result Json ClientError :=
  let? _ := check_status status_text KIND response.1.1 method in
  let? body := rmap_err (malformed KIND method) response.2 in
  let? envelope := ok_or (json_parse body ≫= de_envelope) (malformed KIND method (decode_text body)) in
  if bool_decide (envelope.1 = bs "success") then Ok (default JNull envelope.2) else Err (Api KIND (method ++ bs ": " ++ envelope.1)).

(** [TransmissionClient::rpc]: a conflict on the first attempt is the handshake. *)
Definition rpc (method : bytes) (arguments : Json) : Rpc (result Json ClientError) :=
  try! response := post method arguments in
  if (response.1.1 =? 409)%N then
    match response.1.2 with
    | Some token =>
        let! learned := smodify (fun s => mkSession (ss_sent s) (Some token)) in
        try! response := post method arguments in
        sret (read_reply method response)
    | None => sret (Err (Api KIND (bs "409 with no session id header — is a proxy stripping it?")))
    end
  else sret (read_reply method response).

Definition decode {T : Type} (d : Decoder T) (call : bytes) (arguments : Json) : result T ClientError :=
  ok_or (d arguments) (malformed KIND call (value_text arguments)).

(** [first_torrent]. *)
Definition first_torrent {T : Type} (d : Decoder T) (call : bytes) (arguments : Json) : result (option T) ClientError :=
  let? torrents := decode (de_torrents d) call arguments in Ok (head torrents).

Definition ids (hash : bytes) : bytes * Json := (bs "ids", JArr [JStr hash]).
Definition fields (names : list bytes) : bytes * Json := (bs "fields", JArr (map JStr names)).

(** ** The operations *)

(** Of the category: one of the labels. *)
Definition in_labels (category : option bytes) (t : ListedTorrent) : bool :=
  match category with Some wanted => bool_decide (wanted ∈ lt_labels t) | None => true end.

Definition tr_version : Rpc (result bytes ClientError) :=
  try! arguments := rpc (bs "session-get") (JObj []) in
  sret (Ok (default (bs "unknown") (jget (bs "version") arguments ≫= jas_str))).

Definition tr_list (category : option bytes) : Rpc (result (list TorrentSummary) ClientError) :=
  try! arguments := rpc (bs "torrent-get") (JObj [fields [bs "hashString"; bs "name"; bs "downloadDir"; bs "labels"; bs "status";
                                                           bs "uploadRatio"; bs "seedRatioLimit"; bs "seedRatioMode"; bs "uploadLimited"; bs "uploadLimit"]]) in
  sret (let? listed := decode (de_torrents de_listed) (bs "torrent-get") arguments in
        Ok (map (listed_summary category)
              (filter (fun t => in_labels category t = true) listed))).

Definition tr_files (hash : bytes) : Rpc (result (list TorrentFileEntry) ClientError) :=
  try! arguments := rpc (bs "torrent-get") (JObj [ids hash; fields [bs "files"]]) in
  sret (let? first := first_torrent de_files_torrent (bs "torrent-get files") arguments in Ok (default [] first)).

Definition apply_limits (hash : bytes) (limits : SeedingLimits) : Rpc (result unit ClientError) :=
  try! arguments := rpc (bs "torrent-set") (JObj ([ids hash] ++
      match sl_upload_limit_kib limits with Some kib => [(bs "uploadLimit", JInt (Z.of_N kib)); (bs "uploadLimited", JBool true)] | None => [] end ++
      match sl_ratio_limit limits with Some ratio => [(bs "seedRatioLimit", json_f64 ratio); (bs "seedRatioMode", JInt 1)] | None => [] end)) in
  sret (Ok tt).

(** [TorrentClient::set_limits], the contract's default. *)
Definition set_limits (hash : bytes) (limits : SeedingLimits) : Rpc (result unit ClientError) :=
  if limits_is_empty limits then sret (Ok tt) else apply_limits hash limits.

Definition add_labels (r : AddRequest) : list bytes := dedup (match ar_category r with Some category => [category] | None => [] end ++ tag_list r).

Definition tr_add (r : AddRequest) : Rpc (result unit ClientError) :=
  try! arguments := rpc (bs "torrent-add")
    (JObj [(bs "metainfo", JStr (base64_encode (ar_data r))); (bs "download-dir", JStr (ar_save_path r)); (bs "paused", JBool (ar_stopped r));
           (bs "labels", JArr (map JStr (add_labels r)))]) in
  set_limits (ar_info_hash r) (ar_limits r).

Definition tr_remove (hash : bytes) : Rpc (result unit ClientError) :=
  try! arguments := rpc (bs "torrent-remove") (JObj [ids hash; (bs "delete-local-data", JBool false)]) in sret (Ok tt).

Definition write_tracker_list (hash : bytes) (tiers : list bytes) : Rpc (result unit ClientError) :=
  try! arguments := rpc (bs "torrent-set") (JObj [ids hash; (bs "trackerList", JStr (join [x0a; x0a] tiers))]) in sret (Ok tt).

Definition tr_set_trackers (hash : bytes) (urls : list bytes) : Rpc (result unit ClientError) := write_tracker_list hash urls.

(** The tiers [add_trackers] writes over the list there is, or none to write. *)
Definition added_tiers (existing : bytes) (urls : list bytes) : list bytes :=
  let new := missing_urls urls (fun url => existsb (fun l => bool_decide (trim l = url)) (str_lines existing)) in
  if is_nonempty new && is_nonempty (trim existing) then new ++ [existing] else new.

Definition tr_add_trackers (hash : bytes) (urls : list bytes) : Rpc (result unit ClientError) :=
  if negb (is_nonempty urls) then sret (Ok tt)
  else
    try! arguments := rpc (bs "torrent-get") (JObj [ids hash; fields [bs "trackerList"]]) in
    match first_torrent de_tracker_list (bs "torrent-get") arguments with
    | Err e => sret (Err e)
    | Ok first =>
        let tiers := added_tiers (default [] first) urls in
        if is_nonempty tiers then write_tracker_list hash tiers else sret (Ok tt)
    end.

(** ** The contract *)

Context (category : option bytes).

(** What one call of the contract sends. *)
Definition tr_call (call : ClientCall) : Rpc unit :=
  match call with
  | AskList => let! _ := tr_list category in sret tt
  | AskFiles hash => let! _ := tr_files hash in sret tt
  | AskExport _ => sret tt
  | AskAdd request => let! _ := tr_add request in sret tt
  | AskRemove hash => let! _ := tr_remove hash in sret tt
  | AskSetTrackers hash urls => let! _ := tr_set_trackers hash urls in sret tt
  | AskAddTrackers hash urls => let! _ := tr_add_trackers hash urls in sret tt
  | AskLimits hash limits => let! _ := set_limits hash limits in sret tt
  end.

Definition tr_calls (calls : list ClientCall) (s : Session) : Session := fold_left (fun s call => (tr_call call s).2) calls s.

Definition fresh_session : Session := mkSession [] None.

(** Transmission as the client of the contract. *)
Definition transmission_client : TorrentClient := {|
  client_kind := KIND;
  answer_list := fun calls => (tr_list category (tr_calls calls fresh_session)).1;
  answer_files := fun calls hash => (tr_files hash (tr_calls calls fresh_session)).1;
  answer_export := fun _ _ => Ok None;
  answer_add := fun calls request => (tr_add request (tr_calls calls fresh_session)).1;
  answer_remove := fun calls hash => (tr_remove hash (tr_calls calls fresh_session)).1;
  answer_set_trackers := fun calls hash urls => (tr_set_trackers hash urls (tr_calls calls fresh_session)).1;
  answer_add_trackers := fun calls hash urls => (tr_add_trackers hash urls (tr_calls calls fresh_session)).1;
  answer_limits := fun calls hash limits => (set_limits hash limits (tr_calls calls fresh_session)).1
|}.

End Client.

(** ** Facts: what is sent *)

(** The names of an object's fields. *)
Definition keys (v : Json) : list bytes := match v with JObj o => map fst o | _ => [] end.

(** The requests that leave the media alone: reading; adding a torrent the program asked
    for, where its content lies; forgetting a torrent and keeping its data; setting trackers
    and caps, and nothing else, so not where a torrent's data is. *)
Definition tr_harmless `{B64 : Base64} (calls : list ClientCall) (request : TRequest) : Prop :=
  tq_method request ∈ [bs "session-get"; bs "torrent-get"] \/
  (tq_method request = bs "torrent-add" /\ keys (tq_arguments request) = [bs "metainfo"; bs "download-dir"; bs "paused"; bs "labels"] /\
     exists r, AskAdd r ∈ calls /\ jget (bs "download-dir") (tq_arguments request) = Some (JStr (ar_save_path r)) /\
               jget (bs "metainfo") (tq_arguments request) = Some (JStr (base64_encode (ar_data r)))) \/
  (tq_method request = bs "torrent-remove" /\ jget (bs "delete-local-data") (tq_arguments request) = Some (JBool false)) \/
  (tq_method request = bs "torrent-set" /\
     forall k, k ∈ keys (tq_arguments request) -> k ∈ [bs "ids"; bs "trackerList"; bs "uploadLimit"; bs "uploadLimited"; bs "seedRatioLimit"; bs "seedRatioMode"]).

Section Sends.
Context `{TS : TransmissionServer} `{JT : JsonText} `{FT : FloatText} `{DT : DecodeText} `{B64 : Base64} (status_text : N -> bytes).
Context (P : TRequest -> Prop).

(** Everything sent so far satisfies [P]. *)
Definition all_sent (s : Session) : Prop := Forall P (ss_sent s).

Lemma sends_rpc method arguments : (forall token, P (mkTRequest method arguments token)) -> preserves all_sent (rpc status_text method arguments).
Proof.
  intros HP.
  assert (preserves all_sent (post method arguments)) as Hpost.
  { intros s Hs. unfold all_sent. cbn. apply Forall_app. split; [done|]. by constructor. }
  apply preserves_try; [done|]. intros [[status header] body]. cbn. destruct (status =? 409)%N; [|apply preserves_ret].
  destruct header as [token|]; [|apply preserves_ret]. apply preserves_bind; [by apply preserves_modify|]. intros _.
  apply preserves_try; [done|]. intros ?. apply preserves_ret.
Qed.

Lemma sends_rpc_then {T : Type} method arguments (k : Json -> result T ClientError) :
  (forall token, P (mkTRequest method arguments token)) -> preserves all_sent (try! a := rpc status_text method arguments in sret (k a)).
Proof. intros HP. apply preserves_try; [by apply sends_rpc|]. intros ?. apply preserves_ret. Qed.

End Sends.

Section Harmless.
Context `{TS : TransmissionServer} `{JT : JsonText} `{FT : FloatText} `{DT : DecodeText} `{B64 : Base64} (status_text : N -> bytes).

Lemma tr_set_limits_harmless calls hash limits : preserves (all_sent (tr_harmless calls)) (set_limits status_text hash limits).
Proof.
  unfold set_limits. destruct (limits_is_empty limits); [apply preserves_ret|]. apply sends_rpc_then. intros token. do 3 right. split; [done|]. cbn.
  destruct (sl_upload_limit_kib limits), (sl_ratio_limit limits); cbn; set_solver.
Qed.

Lemma trackers_harmless calls hash tiers : preserves (all_sent (tr_harmless calls)) (write_tracker_list status_text hash tiers).
Proof. apply sends_rpc_then. intros token. do 3 right. split; [done|]. cbn. set_solver. Qed.

Lemma tr_call_harmless category call calls : call ∈ calls -> preserves (all_sent (tr_harmless calls)) (tr_call status_text category call).
Proof.
  intros Hin. assert (forall arguments token, tr_harmless calls (mkTRequest (bs "torrent-get") arguments token)) as Hget by (intros; left; set_solver).
  unfold tr_call. destruct call; try (apply preserves_bind; [|intros ?; apply preserves_ret]).
  - apply sends_rpc_then. intros token. apply Hget.
  - apply sends_rpc_then. intros token. apply Hget.
  - apply preserves_ret.
  - apply preserves_try; [|intros ?; apply tr_set_limits_harmless]. apply sends_rpc. intros token. right. left. split; [done|]. split; [done|]. by exists request.
  - apply sends_rpc_then. intros token. by do 2 right; left.
  - apply trackers_harmless.
  - unfold tr_add_trackers. destruct (is_nonempty urls); [|apply preserves_ret]. apply preserves_try; [apply sends_rpc; intros; apply Hget|].
    intros arguments. destruct (first_torrent _ _ _); [|apply preserves_ret]. destruct (is_nonempty _); [apply trackers_harmless|apply preserves_ret].
  - apply tr_set_limits_harmless.
Qed.

(** Sharerr cannot make Transmission move or delete media.  Whatever sequence of calls the
    program makes, and whatever the server replies to each, every request it is sent reads,
    adds a torrent the program asked to add at the directory of its content, forgets a
    torrent and keeps its data, or sets trackers and caps and nothing else. *)
Theorem transmission_leaves_media (category : option bytes) (calls : list ClientCall) :
  Forall (tr_harmless calls) (ss_sent (tr_calls status_text category calls fresh_session)).
Proof.
  assert (forall more s, (forall call, call ∈ more -> call ∈ calls) -> all_sent (tr_harmless calls) s -> all_sent (tr_harmless calls) (tr_calls status_text category more s)) as H.
  { induction more as [|call more IH]; intros s Hsub Hs; [done|]. cbn. apply IH; [set_solver|]. apply tr_call_harmless; [set_solver|done]. }
  apply H; [done|]. by constructor.
Qed.

End Harmless.

(** ** Facts: the session *)

(** How Transmission documents its sessions: at any time one id is in force, depending on
    what it was sent; a request without it is answered with a conflict that carries it, and
    changes nothing; a request with it is answered. *)
Record session_protocol `{TS : TransmissionServer} (token : list TRequest -> bytes)
    (answer : list TRequest -> bytes -> Json -> result (N * option bytes * result bytes bytes) bytes) : Prop := {
  sp_conflict : forall sent r, tq_session r <> Some (token sent) -> exists body, tr_reply sent r = Ok (409%N, Some (token sent), body);
  sp_unchanged : forall sent r, tq_session r <> Some (token sent) -> token (sent ++ [r]) = token sent;
  sp_answer : forall sent r, tq_session r = Some (token sent) -> tr_reply sent r = answer sent (tq_method r) (tq_arguments r);
  sp_no_conflict : forall sent m a status header body, answer sent m a = Ok (status, header, body) -> status <> 409%N
}.

Section Sessions.
Context `{TS : TransmissionServer} `{JT : JsonText} `{DT : DecodeText} (status_text : N -> bytes).

(** A call under the id in force is answered at once. *)
Lemma rpc_in_session token answer method arguments s :
  session_protocol token answer -> ss_token s = Some (token (ss_sent s)) ->
  rpc status_text method arguments s =
    ((let? response := rmap_err (Unreachable KIND tr_endpoint) (answer (ss_sent s) method arguments) in read_reply status_text method response),
     mkSession (ss_sent s ++ [mkTRequest method arguments (ss_token s)]) (ss_token s)).
Proof.
  intros HP Ht. unfold rpc, try_bind, sbind, post. rewrite (sp_answer _ _ HP) by done. cbn.
  destruct (answer (ss_sent s) method arguments) as [[[status header] body]|e] eqn:Ea; cbn; [|done].
  destruct (N.eqb_spec status 409) as [->|_]; [|done]. by destruct (sp_no_conflict _ _ HP _ _ _ _ _ _ Ea).
Qed.

(** The handshake.  Against a server that keeps to its protocol, whatever session id the
    client holds and however often the server changed it, a call gets the server's own answer
    after at most one conflict, and the client then holds the id in force; a call that
    already did is sent once. *)
Theorem handshake_recovers token answer (method : bytes) (arguments : Json) (s : Session) :
  session_protocol token answer ->
  exists conflicts, length conflicts <= 1 /\ (ss_token s = Some (token (ss_sent s)) -> conflicts = []) /\
    rpc status_text method arguments s =
      ((let? response := rmap_err (Unreachable KIND tr_endpoint) (answer (ss_sent s ++ conflicts) method arguments) in read_reply status_text method response),
       mkSession (ss_sent s ++ conflicts ++ [mkTRequest method arguments (Some (token (ss_sent s)))]) (Some (token (ss_sent s)))).
Proof.
  intros HP. destruct (decide (ss_token s = Some (token (ss_sent s)))) as [Ht|Ht].
  - exists []. split; [cbn; lia|]. split; [done|]. rewrite (rpc_in_session _ _ _ _ _ HP Ht), app_nil_r, Ht. done.
  - set (first := mkTRequest method arguments (ss_token s)). exists [first]. split; [cbn; lia|]. split; [done|].
    unfold rpc, try_bind, sbind, post. fold first. destruct (sp_conflict _ _ HP (ss_sent s) first Ht) as [body ->]. cbn.
    rewrite (sp_answer _ _ HP) by (cbn; by rewrite (sp_unchanged _ _ HP)). cbn. rewrite <- app_assoc.
    by destruct (answer (ss_sent s ++ [first]) method arguments).
Qed.

End Sessions.

(** ** Facts: trackers *)

(** The tiers of a tracker list: runs of lines between blank ones. *)
Fixpoint tiers_of (lines : list bytes) (tier : list bytes) : list (list bytes) :=
  match lines with
  | [] => if is_nonempty tier then [tier] else []
  | l :: lines => if is_nonempty l then tiers_of lines (tier ++ [l])
                  else (if is_nonempty tier then [tier] else []) ++ tiers_of lines []
  end.

Definition tracker_tiers (text : bytes) : list (list bytes) := tiers_of (split_byte x0a text) [].

Lemma tier_first url text : url <> [] -> x0a ∉ url -> tracker_tiers (url ++ [x0a; x0a] ++ text) = [url] :: tracker_tiers text.
Proof.
  intros Hne Hn. unfold tracker_tiers. change (url ++ [x0a; x0a] ++ text) with (url ++ x0a :: ([] ++ x0a :: text)).
  rewrite !split_byte_app, (split_byte_none x0a url) by done. cbn. by destruct url.
Qed.

Lemma tier_only url : url <> [] -> x0a ∉ url -> tracker_tiers url = [[url]].
Proof. intros Hne Hn. unfold tracker_tiers. rewrite split_byte_none by done. cbn. by destruct url. Qed.

(** Adding trackers keeps the operator's.  With the list as Transmission documents it, one
    tier per run of lines, what is written are the URLs that were missing, each a tier of its
    own, ahead of every tier there was, as it was. *)
Theorem added_ahead (existing : bytes) (urls : list bytes) :
  Forall (fun u => u <> [] /\ x0a ∉ u) urls ->
  let new := missing_urls urls (fun url => existsb (fun l => bool_decide (trim l = url)) (str_lines existing)) in
  tracker_tiers (join [x0a; x0a] (added_tiers existing urls)) =
    map (fun u => [u]) new ++ (if is_nonempty new && is_nonempty (trim existing) then tracker_tiers existing else []).
Proof.
  intros Hu new. unfold added_tiers. fold new. assert (Forall (fun u => u <> [] /\ x0a ∉ u) new) as Hnew.
  { rewrite Forall_forall in *. intros u [_ H]%list_elem_of_filter. by apply Hu. }
  clearbody new. destruct new as [|u new]; [done|]. cbn [is_nonempty andb].
  destruct (is_nonempty (trim existing)).
  - clear Hu. revert u Hnew. induction new as [|v new IH]; intros u Hnew; apply Forall_cons in Hnew as [[Hne Hn] Hnew].
    + change (join [x0a; x0a] ([u] ++ [existing])) with (u ++ [x0a; x0a] ++ existing). rewrite tier_first by done. done.
    + change (join [x0a; x0a] ((u :: v :: new) ++ [existing])) with (u ++ [x0a; x0a] ++ join [x0a; x0a] ((v :: new) ++ [existing])).
      rewrite tier_first, IH by done. done.
  - rewrite app_nil_r. clear Hu. revert u Hnew. induction new as [|v new IH]; intros u Hnew; apply Forall_cons in Hnew as [[Hne Hn] Hnew].
    + change (join [x0a; x0a] [u]) with u. rewrite tier_only by done. done.
    + change (join [x0a; x0a] (u :: v :: new)) with (u ++ [x0a; x0a] ++ join [x0a; x0a] (v :: new)). rewrite tier_first, IH by done. done.
Qed.

(** *** Witnesses *)

(** A server whose session id counts the requests it accepted. *)
Definition counted_token (sent : list TRequest) : bytes :=
  fold_left (fun token r => if bool_decide (tq_session r = Some token) then "x"%byte :: token else token) sent (bs "x").

Definition counting_server : TransmissionServer := {|
  tr_endpoint := bs "http://t/rpc";
  tr_reply := fun sent r => if bool_decide (tq_session r = Some (counted_token sent)) then Ok (200%N, None, Ok (bs "ok")) else Ok (409%N, Some (counted_token sent), Ok [])
|}.

Lemma counting_protocol : session_protocol (TS := counting_server) counted_token (fun _ _ _ => Ok (200%N, None, Ok (bs "ok"))).
Proof.
  split.
  - intros sent r H. cbn. rewrite bool_decide_false by done. by exists (Ok []).
  - intros sent r H. unfold counted_token. rewrite fold_left_app. cbn. fold (counted_token sent). by rewrite bool_decide_false.
  - intros sent r H. cbn. by rewrite bool_decide_true.
  - by intros sent m a status header body [= <- _ _].
Qed.

Definition success_json : JsonText := fun body => if bool_decide (body = bs "ok") then Some (JObj [(bs "result", JStr (bs "success"))]) else None.

(** A client with an id that is no longer in force. *)
Lemma handshake_recovers_witness :
  let s := mkSession [] (Some (bs "stale")) in
  exists conflicts : list TRequest, length conflicts <= 1 /\
    (@rpc counting_server success_json {| decode_text := fun _ => []; value_text := fun _ => [] |} (fun _ => []) (bs "session-get") (JObj []) s).1 = Ok JNull /\
    ss_token (@rpc counting_server success_json {| decode_text := fun _ => []; value_text := fun _ => [] |} (fun _ => []) (bs "session-get") (JObj []) s).2 = Some (bs "x").
Proof.
  intros s. destruct (@handshake_recovers counting_server success_json {| decode_text := fun _ => []; value_text := fun _ => [] |} (fun _ => []) counted_token
    (fun _ _ _ => Ok (200%N, None, Ok (bs "ok"))) (bs "session-get") (JObj []) s counting_protocol) as (conflicts & Hl & _ & ->).
  exists conflicts. split; [exact Hl|]. split; vm_compute; reflexivity.
Defined.

Lemma added_ahead_witness :
  tracker_tiers (join [x0a; x0a] (added_tiers (bs "http://old/a") [bs "http://old/a"; bs "http://new/a"])) = [[bs "http://new/a"]; [bs "http://old/a"]].
Proof.
  rewrite (added_ahead (bs "http://old/a") [bs "http://old/a"; bs "http://new/a"]).
  - vm_compute. reflexivity.
  - repeat constructor; try discriminate; by apply (bool_decide_unpack _).
Defined.

(** Adjacent duplicates only are dropped from the labels, so a tag that repeats the category
    after another tag is sent twice. *)
Example label_repeated : dedup [bs "sharerr"; bs "a"; bs "sharerr"] = [bs "sharerr"; bs "a"; bs "sharerr"].
Proof. reflexivity. Qed.
