(* ===== verification/Deluge.v ===== *)
(** * The Deluge adapter (crates/sharerr-deluge/src/lib.rs)

    What each operation of the client contract asks of Deluge's web JSON-RPC: the cookie
    kept from the answers, signing in again, attaching the web UI to a daemon, labels, and
    the options of a torrent.  Deluge's reply may depend on every request it was sent
    before. *)

From Stdlib Require Import SpecFloat.
From S2P Require Import Prelude RustStd Text BTreeMap Model Endpoint Effects Client Json.

(** ** Requests *)

(** One request: the call, its parameters and the cookie sent with it. *)
Record DRequest : Type := mkDRequest { dq_method : bytes; dq_params : Json; dq_cookie : option bytes }.

(** What the web UI answers after the requests before: a status, the [Set-Cookie] headers,
    and a body that can be read or not; [Err] is no answer. *)
Class DelugeServer : Type := {
  dl_endpoint : bytes;
  dl_password : bytes;
  dl_reply : list DRequest -> DRequest -> result (N * list bytes * result bytes bytes) bytes
}.

(** The client: what it sent, and the session it holds. *)
Record DSession : Type := mkDSession { ds_sent : list DRequest; ds_cookie : option bytes }.

Abbreviation Web := (St DSession).

Definition KIND : ClientKind := Deluge.
Definition SESSION_COOKIE : bytes := bs "_session_id".
Definition NOT_AUTHENTICATED : Z := 1.
Definition UNKNOWN_METHOD : Z := 2.

(** [RpcError] and [Reply]. *)
Record RpcError : Type := mkRpcError { re_message : bytes; re_code : Z }.
Record Reply : Type := mkReply { rp_result : Json; rp_error : option RpcError }.

Definition de_rpc_error : Decoder RpcError := de_struct (fun o =>
  message ← field_or [] (bs "message") de_str o; code ← field_or 0%Z (bs "code") de_i64 o; Some (mkRpcError message code)).

Definition de_reply : Decoder Reply := de_struct (fun o =>
  result ← field_or JNull (bs "result") de_value o; error ← field_opt (bs "error") de_rpc_error o; Some (mkReply result error)).

(** ** Wire types *)

Record ListedTorrent : Type := mkListed {
  lt_name : bytes; lt_save_path : bytes; lt_state : bytes; lt_label : bytes; lt_ratio : N;
  lt_stop_at_ratio : bool; lt_stop_ratio : N; lt_max_upload_speed : N
}.

Definition de_listed : Decoder ListedTorrent := de_struct (fun o =>
  name ← field (bs "name") de_str o; save_path ← field (bs "save_path") de_str o; state ← field (bs "state") de_str o;
  label ← field_or [] (bs "label") de_str o; ratio ← field_or 0%N (bs "ratio") de_f64 o; stop_at ← field_or false (bs "stop_at_ratio") de_bool o;
  stop ← field_or 0%N (bs "stop_ratio") de_f64 o; speed ← field_or 0%N (bs "max_upload_speed") de_f64 o;
  Some (mkListed name save_path state label ratio stop_at stop speed)).

(** [BTreeMap<String, T>]: in the order of the names. *)
Definition de_map {T : Type} (d : Decoder T) : Decoder (list (bytes * T)) := de_struct (fun o =>
  rows ← mapM (fun kv => v ← d kv.2; Some (kv.1, v)) o; Some (btree_collect rows)).

(** [x.round() as u64] of an [x >= 0.0]: half away from zero, saturating. *)
Definition f64_round_u64 (bits : N) : N :=
  match f64_of_bits bits with
  | S754_infinity false => u64_max
  | S754_finite false m e =>
      N.min u64_max (if (0 <=? e)%Z then Npos m * 2 ^ Z.to_N e else (Npos m + 2 ^ Z.to_N (- e - 1)) / 2 ^ Z.to_N (- e))%N
  | _ => 0%N
  end.

(** [ListedTorrent::into_summary]. *)
Definition into_summary (hash : bytes) (t : ListedTorrent) : TorrentSummary :=
  mkTorrentSummary (str_to_ascii_lowercase hash) (lt_name t) (lt_save_path t) (client_content_path (lt_save_path t) (lt_name t))
    (lt_label t) (single_tag (lt_label t)) (bool_decide (lt_state t = bs "Seeding")) (bool_decide (lt_state t = bs "Paused"))
    (if f64_nonneg (lt_ratio t) then Some (lt_ratio t) else None)
    (if lt_stop_at_ratio t then Some (lt_stop_ratio t) else None)
    (if f64_nonneg (lt_max_upload_speed t) then Some (f64_round_u64 (lt_max_upload_speed t)) else None).

(** [FilesTorrent], [Tracker] and [TrackersTorrent]. *)
Definition de_files_torrent : Decoder (list TorrentFileEntry) := de_struct (field_or [] (bs "files")
  (de_vec (de_struct (fun o => name ← field (bs "path") de_str o; size ← field (bs "size") de_u64 o; Some (mkFileEntry name size))))).

Record Tracker : Type := mkTracker { tk_url : bytes; tk_tier : N }.

Definition de_tracker : Decoder Tracker := de_struct (fun o =>
  url ← field (bs "url") de_str o; tier ← field_or 0%N (bs "tier") de_u64 o; Some (mkTracker url tier)).

Definition de_trackers_torrent : Decoder (list Tracker) := de_struct (field_or [] (bs "trackers") (de_vec de_tracker)).

(** ** Pure parts *)

Definition into_result (method : bytes) (reply : Reply) : result Json ClientError :=
  match rp_error reply with Some error => Err (Api KIND (method ++ bs ": " ++ re_message error)) | None => Ok (rp_result reply) end.

Definition limit_options (limits : SeedingLimits) : list (bytes * Json) :=
  match sl_upload_limit_kib limits with Some kib => [(bs "max_upload_speed", JInt (Z.of_N kib))] | None => [] end ++
  match sl_ratio_limit limits with Some ratio => [(bs "stop_at_ratio", JBool true); (bs "stop_ratio", json_f64 ratio)] | None => [] end.

Definition LIST_KEYS : list bytes :=
  [bs "name"; bs "save_path"; bs "state"; bs "label"; bs "ratio"; bs "stop_at_ratio"; bs "stop_ratio"; bs "max_upload_speed"].

Definition tracker_json (url : bytes) (tier : N) : Json := JObj [(bs "url", JStr url); (bs "tier", JInt (Z.of_N tier))].

(** One tier each, in order. *)
Definition tiered (urls : list bytes) : list Json := imap (fun tier url => tracker_json url (N.of_nat tier)) urls.

(** The trackers [add_trackers] writes over those there are, or [None] when none is new;
    a tier is 64 bits wide. *)
Definition shifted_trackers (existing : list Tracker) (urls : list bytes) : option (list Json) :=
  let new := missing_urls urls (fun url => existsb (fun t => bool_decide (tk_url t = url)) existing) in
  if is_nonempty new
  then Some (tiered new ++ map (fun t => tracker_json (tk_url t) ((tk_tier t + N.of_nat (length new)) mod 2 ^ 64)) existing)
  else None.

(** The session pair of the first [Set-Cookie] that is one. *)
Definition session_of (set_cookie : list bytes) : option bytes :=
  list_find (fun pair => starts_with (SESSION_COOKIE ++ bs "=") pair)
    (omap (fun value => if header_text value then head (split_byte ";"%byte value) else None) set_cookie) ≫= fun found => Some found.2.

Section Client.
Context `{DS : DelugeServer} `{JT : JsonText} `{DT : DecodeText} `{B64 : Base64} (status_text : N -> bytes).

(** [DelugeClient::post]. *)
Definition post (method : bytes) (params : Json) : Web (result Reply ClientError) := fun s =>
  let request := mkDRequest method params (ds_cookie s) in
  let sent := ds_sent s ++ [request] in
  match dl_reply (ds_sent s) request with
  | Err e => (Err (Unreachable KIND dl_endpoint e), mkDSession sent (ds_cookie s))
  | Ok (status, set_cookie, body) =>
      match check_status status_text KIND status method with
      | Err e => (Err e, mkDSession sent (ds_cookie s))
      | Ok _ =>
          ((let? body := rmap_err (malformed KIND method) body in
            ok_or (json_parse body ≫= de_reply) (malformed KIND method (decode_text body))),
           mkDSession sent (match session_of set_cookie with Some cookie => Some cookie | None => ds_cookie s end))
      end
  end.

(** [DelugeClient::call]. *)
Definition call (method : bytes) (params : Json) : Web (result Json ClientError) :=
  try! reply := post method params in sret (into_result method reply).

Definition decode {T : Type} (d : Decoder T) (name : bytes) (value : Json) : result T ClientError :=
  ok_or (d value) (malformed KIND name (value_text value)).

Definition no_daemon : ClientError := Api KIND (bs "the web UI knows no daemon to connect to — add one in its Connection Manager").

Definition truthy (v : Json) : bool := default false (jas_bool v).

(** [DelugeClient::connect]. *)
Definition connect : Web (result unit ClientError) :=
  try! login := call (bs "auth.login") (JArr [JStr dl_password]) in
  if negb (truthy login) then sret (Err (AuthRejected KIND))
  else
    try! connected := call (bs "web.connected") (JArr []) in
    if truthy connected then sret (Ok tt)
    else
      try! hosts := call (bs "web.get_hosts") (JArr []) in
      match decode (de_vec (de_vec de_value)) (bs "web.get_hosts") hosts with
      | Err e => sret (Err e)
      | Ok hosts =>
          match head hosts ≫= head with
          | None => sret (Err no_daemon)
          | Some host => try! _ := call (bs "web.connect") (JArr [host]) in sret (Ok tt)
          end
      end.

(** A refusal that may be a lost session or daemon. *)
Definition signs_in_again (reply : Reply) : bool :=
  match rp_error reply with Some error => (re_code error =? NOT_AUTHENTICATED)%Z || (re_code error =? UNKNOWN_METHOD)%Z | None => false end.

(** [DelugeClient::rpc]. *)
Definition rpc (method : bytes) (params : Json) : Web (result Json ClientError) :=
  try! reply := post method params in
  if signs_in_again reply then
    try! _ := connect in
    try! reply := post method params in
    sret (into_result method reply)
  else sret (into_result method reply).

(** [DelugeClient::torrent_status]. *)
Definition torrent_status {T : Type} (d : Decoder T) (hash : bytes) (names : list bytes) : Web (result T ClientError) :=
  try! value := rpc (bs "core.get_torrent_status") (JArr [JStr hash; JArr (map JStr names)]) in
  sret (decode d (bs "core.get_torrent_status") value).

Definition write_trackers (hash : bytes) (trackers : list Json) : Web (result unit ClientError) :=
  try! _ := rpc (bs "core.set_torrent_trackers") (JArr [JStr hash; JArr trackers]) in sret (Ok tt).

(** An error whose text says so. *)
Definition says (what : bytes) (r : result Json ClientError) : bool :=
  match r with Err e => contains what (client_error_text e) | Ok _ => false end.

(** [DelugeClient::apply_label]: what comes of it is only logged. *)
Definition apply_label (hash label : bytes) : Web unit :=
  let label := str_to_ascii_lowercase label in
  let! added := call (bs "label.add") (JArr [JStr label]) in
  if match added with Ok _ => true | Err _ => says (bs "already exists") added end
  then let! _ := call (bs "label.set_torrent") (JArr [JStr hash; JStr label]) in sret tt
  else sret tt.

(** ** The operations *)

Definition dl_version : Web (result bytes ClientError) :=
  try! version := rpc (bs "daemon.get_version") (JArr []) in sret (Ok (default (bs "unknown") (jas_str version))).

(** Of the category: the label, whatever its case. *)
Definition labelled (category : option bytes) (t : ListedTorrent) : bool :=
  match category with Some c => str_eq_ignore_ascii_case (lt_label t) c | None => true end.

Definition dl_list (category : option bytes) : Web (result (list TorrentSummary) ClientError) :=
  try! value := rpc (bs "core.get_torrents_status") (JArr [JObj []; JArr (map JStr LIST_KEYS)]) in
  sret (let? listed := decode (de_map de_listed) (bs "core.get_torrents_status") value in
        Ok (map (fun row => into_summary row.1 row.2) (filter (fun row => labelled category row.2 = true) listed))).

Definition dl_files (hash : bytes) : Web (result (list TorrentFileEntry) ClientError) := torrent_status de_files_torrent hash [bs "files"].

Definition apply_limits (hash : bytes) (limits : SeedingLimits) : Web (result unit ClientError) :=
  try! _ := rpc (bs "core.set_torrent_options") (JArr [JArr [JStr hash]; JObj (limit_options limits)]) in sret (Ok tt).

(** [TorrentClient::set_limits], the contract's default. *)
Definition set_limits (hash : bytes) (limits : SeedingLimits) : Web (result unit ClientError) :=
  if limits_is_empty limits then sret (Ok tt) else apply_limits hash limits.

Definition add_options (r : AddRequest) : list (bytes * Json) :=
  limit_options (ar_limits r) ++
  [(bs "download_location", JStr (ar_save_path r)); (bs "move_completed", JBool false);
   (bs "add_paused", JBool (ar_stopped r)); (bs "seed_mode", JBool (ar_skip_checking r))].

Definition dl_add (r : AddRequest) : Web (result unit ClientError) :=
  let! added := rpc (bs "core.add_torrent_file") (JArr [JStr (ar_filename r); JStr (base64_encode (ar_data r)); JObj (add_options r)]) in
  try! _ := match added with
            | Ok _ => sret (Ok tt)
            | Err e => if says (bs "already in session") added then set_limits (ar_info_hash r) (ar_limits r) else sret (Err e)
            end in
  match ar_category r with
  | Some label => let! _ := apply_label (ar_info_hash r) label in sret (Ok tt)
  | None => sret (Ok tt)
  end.

Definition dl_remove (hash : bytes) : Web (result unit ClientError) :=
  let! removed := rpc (bs "core.remove_torrent") (JArr [JStr hash; JBool false]) in
  sret (match removed with Err e => if says (bs "not in session") removed then Ok tt else Err e | Ok _ => Ok tt end).

Definition dl_set_trackers (hash : bytes) (urls : list bytes) : Web (result unit ClientError) := write_trackers hash (tiered urls).

Definition dl_add_trackers (hash : bytes) (urls : list bytes) : Web (result unit ClientError) :=
  if negb (is_nonempty urls) then sret (Ok tt)
  else
    try! existing := torrent_status de_trackers_torrent hash [bs "trackers"] in
    match shifted_trackers existing urls with Some trackers => write_trackers hash trackers | None => sret (Ok tt) end.

(** ** The contract *)

Context (category : option bytes).

(** What one call of the contract sends. *)
Definition dl_call (c : ClientCall) : Web unit :=
  match c with
  | AskList => let! _ := dl_list category in sret tt
  | AskFiles hash => let! _ := dl_files hash in sret tt
  | AskExport _ => sret tt
  | AskAdd request => let! _ := dl_add request in sret tt
  | AskRemove hash => let! _ := dl_remove hash in sret tt
  | AskSetTrackers hash urls => let! _ := dl_set_trackers hash urls in sret tt
  | AskAddTrackers hash urls => let! _ := dl_add_trackers hash urls in sret tt
  | AskLimits hash limits => let! _ := set_limits hash limits in sret tt
  end.

Definition dl_calls (calls : list ClientCall) (s : DSession) : DSession := fold_left (fun s c => (dl_call c s).2) calls s.

Definition no_session : DSession := mkDSession [] None.

(** Deluge as the client of the contract. *)
Definition deluge_client : TorrentClient := {|
  client_kind := KIND;
  answer_list := fun calls => (dl_list category (dl_calls calls no_session)).1;
  answer_files := fun calls hash => (dl_files hash (dl_calls calls no_session)).1;
  answer_export := fun _ _ => Ok None;
  answer_add := fun calls request => (dl_add request (dl_calls calls no_session)).1;
  answer_remove := fun calls hash => (dl_remove hash (dl_calls calls no_session)).1;
  answer_set_trackers := fun calls hash urls => (dl_set_trackers hash urls (dl_calls calls no_session)).1;
  answer_add_trackers := fun calls hash urls => (dl_add_trackers hash urls (dl_calls calls no_session)).1;
  answer_limits := fun calls hash limits => (set_limits hash limits (dl_calls calls no_session)).1
|}.

End Client.

(** ** Facts: what is sent *)

(** The options a request sets, by name. *)
Definition option_names (v : Json) : list bytes := match v with JObj o => map fst o | _ => [] end.

(** The requests that leave the media alone: signing in and attaching to a daemon; reading;
    adding a torrent the program asked for, where its content lies, and not to be moved on
    completion; forgetting a torrent and keeping its data; setting trackers, a label, or
    caps and nothing else. *)
Definition dl_harmless `{B64 : Base64} (calls : list ClientCall) (request : DRequest) : Prop :=
  dq_method request ∈ [bs "auth.login"; bs "web.connected"; bs "web.get_hosts"; bs "web.connect"; bs "daemon.get_version"; bs "core.get_torrents_status";
                       bs "core.get_torrent_status"; bs "core.set_torrent_trackers"; bs "label.add"; bs "label.set_torrent"] \/
  (dq_method request = bs "core.add_torrent_file" /\
     exists r options, AskAdd r ∈ calls /\ dq_params request = JArr [JStr (ar_filename r); JStr (base64_encode (ar_data r)); options] /\
       jget (bs "download_location") options = Some (JStr (ar_save_path r)) /\ jget (bs "move_completed") options = Some (JBool false) /\
       forall k, k ∈ option_names options -> k ∈ [bs "max_upload_speed"; bs "stop_at_ratio"; bs "stop_ratio"; bs "download_location"; bs "move_completed"; bs "add_paused"; bs "seed_mode"]) \/
  (dq_method request = bs "core.remove_torrent" /\ exists hash, dq_params request = JArr [JStr hash; JBool false]) \/
  (dq_method request = bs "core.set_torrent_options" /\
     exists hash options, dq_params request = JArr [JArr [JStr hash]; options] /\
       forall k, k ∈ option_names options -> k ∈ [bs "max_upload_speed"; bs "stop_at_ratio"; bs "stop_ratio"]).

Section Sends.
Context `{DS : DelugeServer} `{JT : JsonText} `{DT : DecodeText} `{B64 : Base64} (status_text : N -> bytes).
Context (calls : list ClientCall).

(** Everything sent so far leaves the media alone. *)
Definition all_harmless (s : DSession) : Prop := Forall (dl_harmless calls) (ds_sent s).

Section Request.
Context (method : bytes) (params : Json) (Hreq : forall cookie, dl_harmless calls (mkDRequest method params cookie)).

Lemma post_harmless : preserves all_harmless (post status_text method params).
Proof.
  intros s Hs. unfold post. assert (Forall (dl_harmless calls) (ds_sent s ++ [mkDRequest method params (ds_cookie s)])).
  { apply Forall_app. split; [done|]. by constructor. }
  destruct (dl_reply _ _) as [[[status cookies] body]|e]; [|done]. by destruct (check_status _ _ _ _).
Qed.

Lemma call_harmless : preserves all_harmless (call status_text method params).
Proof. apply preserves_try; [apply post_harmless|]. intros ?. apply preserves_ret. Qed.

End Request.

Ltac routine := intros; left; cbn; set_solver.

Lemma connect_harmless : preserves all_harmless (connect status_text).
Proof.
  unfold connect. apply preserves_try; [apply call_harmless; routine|]. intros login. destruct (negb _); [apply preserves_ret|].
  apply preserves_try; [apply call_harmless; routine|]. intros connected. destruct (truthy connected); [apply preserves_ret|].
  apply preserves_try; [apply call_harmless; routine|]. intros hosts. destruct (decode _ _ _) as [rows|]; [|apply preserves_ret].
  destruct (head rows ≫= head); [|apply preserves_ret]. apply preserves_try; [apply call_harmless; routine|]. intros ?. apply preserves_ret.
Qed.

Lemma rpc_harmless method params : (forall cookie, dl_harmless calls (mkDRequest method params cookie)) -> preserves all_harmless (rpc status_text method params).
Proof.
  intros H. apply preserves_try; [by apply post_harmless|]. intros reply. destruct (signs_in_again reply); [|apply preserves_ret].
  apply preserves_try; [apply connect_harmless|]. intros _. apply preserves_try; [by apply post_harmless|]. intros ?. apply preserves_ret.
Qed.

Lemma rpc_then_harmless {T : Type} method params (k : Json -> result T ClientError) :
  (forall cookie, dl_harmless calls (mkDRequest method params cookie)) -> preserves all_harmless (try! v := rpc status_text method params in sret (k v)).
Proof. intros H. apply preserves_try; [by apply rpc_harmless|]. intros ?. apply preserves_ret. Qed.

Lemma limit_names limits k : k ∈ map fst (limit_options limits) -> k ∈ [bs "max_upload_speed"; bs "stop_at_ratio"; bs "stop_ratio"].
Proof. unfold limit_options. destruct (sl_upload_limit_kib limits), (sl_ratio_limit limits); cbn; set_solver. Qed.

Lemma dl_limits_harmless hash limits : preserves all_harmless (set_limits status_text hash limits).
Proof.
  unfold set_limits. destruct (limits_is_empty limits); [apply preserves_ret|]. apply rpc_then_harmless. intros cookie. do 3 right.
  split; [done|]. exists hash, (JObj (limit_options limits)). split; [done|]. intros k. apply limit_names.
Qed.

Lemma label_harmless hash label : preserves all_harmless (apply_label status_text hash label).
Proof.
  unfold apply_label. apply preserves_bind; [apply call_harmless; routine|]. intros added.
  destruct added; [|destruct (says _ _)]; try apply preserves_ret; (apply preserves_bind; [apply call_harmless; routine|intros ?; apply preserves_ret]).
Qed.

(** The options of an add, whatever its caps. *)
Lemma add_options_read r :
  jget (bs "download_location") (JObj (add_options r)) = Some (JStr (ar_save_path r)) /\ jget (bs "move_completed") (JObj (add_options r)) = Some (JBool false).
Proof. unfold add_options, limit_options. by destruct (sl_upload_limit_kib _), (sl_ratio_limit _). Qed.

Lemma dl_add_harmless r : AskAdd r ∈ calls -> preserves all_harmless (dl_add status_text r).
Proof.
  intros Hin. unfold dl_add. apply preserves_bind.
  - apply rpc_harmless. intros cookie. right. left. split; [done|]. exists r, (JObj (add_options r)). split; [done|]. split; [done|].
    destruct (add_options_read r) as [? ?]. split; [done|]. split; [done|]. intros k. cbn. unfold add_options. rewrite map_app.
    intros [Hk%limit_names|Hk]%elem_of_app; cbn in Hk; set_solver.
  - intros added. apply preserves_try.
    + destruct added; [apply preserves_ret|]. destruct (says _ _); [apply dl_limits_harmless|apply preserves_ret].
    + intros _. destruct (ar_category r); [|apply preserves_ret]. apply preserves_bind; [apply label_harmless|]. intros _. apply preserves_ret.
Qed.

Lemma dl_call_harmless category c : c ∈ calls -> preserves all_harmless (dl_call status_text category c).
Proof.
  intros Hin. unfold dl_call. destruct c; try (apply preserves_bind; [|intros ?; apply preserves_ret]).
  - apply rpc_then_harmless. routine.
  - apply rpc_then_harmless. routine.
  - apply preserves_ret.
  - by apply dl_add_harmless.
  - unfold dl_remove. apply preserves_bind; [|intros ?; apply preserves_ret]. apply rpc_harmless. intros cookie. do 2 right. left. split; [done|]. by exists hash.
  - apply rpc_then_harmless. routine.
  - unfold dl_add_trackers. destruct (is_nonempty urls); [|apply preserves_ret]. apply preserves_try; [apply rpc_then_harmless; routine|].
    intros existing. destruct (shifted_trackers _ _); [apply rpc_then_harmless; routine|apply preserves_ret].
  - apply dl_limits_harmless.
Qed.

End Sends.

(** Sharerr cannot make Deluge move or delete media.  Whatever sequence of calls the
    program makes, and whatever the web UI replies to each, every request it is sent signs
    in, reads, adds a torrent the program asked to add at the directory of its content and
    not to be moved on completion, forgets a torrent and keeps its data, or sets a label,
    trackers, or caps and nothing else. *)
Theorem deluge_leaves_media `{DS : DelugeServer} `{JT : JsonText} `{DT : DecodeText} `{B64 : Base64} (status_text : N -> bytes)
    (category : option bytes) (calls : list ClientCall) :
  Forall (dl_harmless calls) (ds_sent (dl_calls status_text category calls no_session)).
Proof.
  assert (forall more s, (forall c, c ∈ more -> c ∈ calls) -> all_harmless calls s -> all_harmless calls (dl_calls status_text category more s)) as H.
  { induction more as [|c more IH]; intros s Hsub Hs; [done|]. cbn. apply IH; [set_solver|]. apply dl_call_harmless; [set_solver|done]. }
  apply H; [done|]. by constructor.
Qed.

(** ** Facts: the session *)

(** What a session cookie is set to, and that it is read back. *)
Record session_pair (pair : bytes) : Prop := {
  pair_named : starts_with (SESSION_COOKIE ++ bs "=") pair = true;
  pair_whole : ";"%byte ∉ pair;
  pair_text : header_text pair = true
}.

Lemma session_of_pair pair attributes : session_pair pair -> header_text attributes = true -> session_of [pair ++ ";"%byte :: attributes] = Some pair.
Proof.
  intros [Hn Hw Ht] Ha. unfold session_of. set (needle := SESSION_COOKIE ++ bs "=") in *. clearbody needle.
  assert (header_text (pair ++ ";"%byte :: attributes) = true) as Hv by (unfold header_text in *; rewrite forallb_app, Ht; cbn; by rewrite Ha).
  cbn -[split_byte header_text]. rewrite Hv, split_byte_app, (split_byte_none _ pair) by done. cbn. by rewrite decide_True by (by rewrite Hn).
Qed.

Section Sessions.
Context `{DS : DelugeServer} `{JT : JsonText} `{DT : DecodeText} (status_text : N -> bytes).

(** A request is answered, with these cookies and this reply. *)
Definition answers (sent : list DRequest) (r : DRequest) (cookies : list bytes) (reply : Reply) : Prop :=
  exists body, dl_reply sent r = Ok (200%N, cookies, Ok body) /\ json_parse body ≫= de_reply = Some reply.

(** How the web UI keeps its sessions: the password gets the cookie in force; anything else
    without it is refused as not authenticated; with it, and attached to a daemon, a call is
    answered as the call it is. *)
Record web_protocol (pair attributes : bytes) (answer : bytes -> Json -> Reply) : Prop := {
  wp_pair : session_pair pair;
  wp_attributes : header_text attributes = true;
  wp_login : forall sent cookie, answers sent (mkDRequest (bs "auth.login") (JArr [JStr dl_password]) cookie) [pair ++ ";"%byte :: attributes] (mkReply (JBool true) None);
  wp_expired : forall sent r, dq_cookie r <> Some pair -> dq_method r <> bs "auth.login" ->
    exists message, answers sent r [] (mkReply JNull (Some (mkRpcError message NOT_AUTHENTICATED)));
  wp_connected : forall sent, answers sent (mkDRequest (bs "web.connected") (JArr []) (Some pair)) [] (mkReply (JBool true) None);
  wp_answer : forall sent method params, method ∉ [bs "auth.login"; bs "web.connected"] ->
    answers sent (mkDRequest method params (Some pair)) [] (answer method params) /\ signs_in_again (answer method params) = false
}.

Lemma post_answered method params s cookies reply :
  answers (ds_sent s) (mkDRequest method params (ds_cookie s)) cookies reply ->
  post status_text method params s =
    (Ok reply, mkDSession (ds_sent s ++ [mkDRequest method params (ds_cookie s)]) (match session_of cookies with Some cookie => Some cookie | None => ds_cookie s end)).
Proof. intros (body & E & Ep). unfold post. rewrite E. cbn [check_status]. cbn. by rewrite Ep. Qed.

Lemma connect_in_protocol pair attributes answer s : web_protocol pair attributes answer ->
  connect status_text s =
    (Ok tt, mkDSession (ds_sent s ++ [mkDRequest (bs "auth.login") (JArr [JStr dl_password]) (ds_cookie s); mkDRequest (bs "web.connected") (JArr []) (Some pair)]) (Some pair)).
Proof.
  intros HP. unfold connect, call, try_bind, sbind.
  rewrite (post_answered _ _ _ _ _ (wp_login _ _ _ HP _ _)), (session_of_pair _ _ (wp_pair _ _ _ HP) (wp_attributes _ _ _ HP)). cbn -[post app].
  rewrite (post_answered (bs "web.connected") _ (mkDSession _ (Some pair)) _ _ (wp_connected _ _ _ HP _)). cbn. by rewrite <- app_assoc.
Qed.

(** A lost session is recovered.  Against a web UI that keeps its sessions as documented,
    whatever cookie the client holds, a call ends with the answer to that call under the
    session in force: at once with the cookie in force, and otherwise after exactly one
    sign-in, with the call sent again. *)
Theorem relogin_recovers (pair attributes : bytes) (answer : bytes -> Json -> Reply) (method : bytes) (params : Json) (s : DSession) :
  web_protocol pair attributes answer -> method ∉ [bs "auth.login"; bs "web.connected"] ->
  let reached := rpc status_text method params s in
  reached.1 = into_result method (answer method params) /\ ds_cookie reached.2 = Some pair /\
  map dq_method (ds_sent reached.2) = map dq_method (ds_sent s) ++
    (if bool_decide (ds_cookie s = Some pair) then [method] else [method; bs "auth.login"; bs "web.connected"; method]).
Proof.
  intros HP Hm reached. subst reached. unfold rpc, try_bind, sbind. case_bool_decide as Hc.
  - destruct (wp_answer _ _ _ HP (ds_sent s) method params Hm) as [Ha Hs]. rewrite <- Hc in Ha.
    rewrite (post_answered _ _ _ _ _ Ha), Hs. cbn. by rewrite map_app.
  - destruct (wp_expired _ _ _ HP (ds_sent s) (mkDRequest method params (ds_cookie s)) Hc) as [message Ha]; [set_solver|].
    rewrite (post_answered _ _ _ _ _ Ha). cbn -[connect post app]. rewrite (connect_in_protocol _ _ _ _ HP). cbn -[post app].
    match goal with |- context [post _ _ _ ?s'] => destruct (wp_answer _ _ _ HP (ds_sent s') method params Hm) as [Hb _];
      rewrite (post_answered method params s' _ _ Hb) end.
    cbn -[app]. split; [done|]. split; [done|]. rewrite !map_app, <- !app_assoc. done.
Qed.

End Sessions.

(** ** Facts: trackers *)

(** What Deluge reads a tracker as. *)
Lemma tracker_read_back url tier : (tier < 2 ^ 64)%N -> de_tracker (tracker_json url tier) = Some (mkTracker url tier).
Proof.
  intros H. assert (de_u64 (JInt (Z.of_N tier)) = Some tier) as E.
  { unfold de_u64, de_unsigned, de_int. change (Z.of_N u64_max) with (2 ^ 64 - 1)%Z.
    replace (0 <=? Z.of_N tier)%Z with true by lia. replace (Z.of_N tier <=? 2 ^ 64 - 1)%Z with true by lia. simpl. by rewrite N2Z.id. }
  unfold tracker_json. revert E. generalize (JInt (Z.of_N tier)). intros v E. 
  change (de_tracker (JObj [(bs "url", JStr url); (bs "tier", v)])) with (tier ← de_u64 v; Some (mkTracker url tier)). by rewrite E.
Qed.

Lemma trackers_read_back (l : list Tracker) :
  Forall (fun t => tk_tier t < 2 ^ 64)%N l -> mapM de_tracker (map (fun t => tracker_json (tk_url t) (tk_tier t)) l) = Some l.
Proof. induction 1 as [|[url tier] l H _ IH]; [done|]. cbn [map mapM tk_url tk_tier]. rewrite tracker_read_back, IH by done. done. Qed.

(** The trackers that were missing, one tier each from the first, and then those there were,
    each as many tiers later. *)
Definition ahead_of (existing : list Tracker) (new : list bytes) : list Tracker :=
  imap (fun i url => mkTracker url (N.of_nat i)) new ++ map (fun t => mkTracker (tk_url t) (tk_tier t + N.of_nat (length new))) existing.

(** Adding trackers drops none of the operator's.  Nothing is written when every URL is
    there; otherwise Deluge reads what is written as the missing URLs on tiers of their own,
    from the first, followed by every tracker there was, in order, its tier later by their
    number, so all after the new ones and with the differences between them kept. *)
Theorem operator_tiers_kept (existing : list Tracker) (urls : list bytes) :
  Forall (fun t => tk_tier t + N.of_nat (length urls) < 2 ^ 64)%N existing -> (N.of_nat (length urls) < 2 ^ 64)%N ->
  let new := missing_urls urls (fun url => existsb (fun t => bool_decide (tk_url t = url)) existing) in
  match shifted_trackers existing urls with
  | None => new = []
  | Some written => new <> [] /\ mapM de_tracker written = Some (ahead_of existing new)
  end.
Proof.
  intros He Hu new. unfold shifted_trackers. fold new. assert (length new <= length urls) as Hl by apply length_filter. clearbody new.
  destruct new as [|u new]; [done|]. cbn [is_nonempty]. split; [done|]. set (all := u :: new) in *. clearbody all.
  rewrite <- (trackers_read_back (ahead_of existing all)).
  - f_equal. unfold ahead_of, tiered. rewrite map_app, map_map. f_equal; [symmetry; apply fmap_imap|].
    apply map_ext_in. intros t Ht%list_elem_of_In. rewrite Forall_forall in He. specialize (He t Ht). cbn in He |- *. by rewrite N.mod_small by lia.
  - apply Forall_app. split.
    + rewrite Forall_forall. intros t [i Ht]%list_elem_of_lookup. rewrite list_lookup_imap in Ht.
      destruct (all !! i) eqn:E; [|done]. cbn in Ht. injection Ht as <-. apply lookup_lt_Some in E. cbn. lia.
    + rewrite Forall_map. eapply Forall_impl; [exact He|]. cbn. lia.
Qed.

(** *** Witnesses *)

Lemma operator_tiers_kept_witness :
  shifted_trackers [mkTracker (bs "http://a/") 0; mkTracker (bs "http://b/") 3] [bs "http://b/"; bs "http://n/"] =
    Some (tiered [bs "http://n/"] ++ [tracker_json (bs "http://a/") 1; tracker_json (bs "http://b/") 4]) /\
  mapM de_tracker (tiered [bs "http://n/"] ++ [tracker_json (bs "http://a/") 1; tracker_json (bs "http://b/") 4]) =
    Some [mkTracker (bs "http://n/") 0; mkTracker (bs "http://a/") 1; mkTracker (bs "http://b/") 4].
Proof.
  split; [vm_compute; reflexivity|].
  assert (shifted_trackers [mkTracker (bs "http://a/") 0; mkTracker (bs "http://b/") 3] [bs "http://b/"; bs "http://n/"] =
    Some (tiered [bs "http://n/"] ++ [tracker_json (bs "http://a/") 1; tracker_json (bs "http://b/") 4])) as E by (vm_compute; reflexivity).
  pose proof (operator_tiers_kept [mkTracker (bs "http://a/") 0; mkTracker (bs "http://b/") 3] [bs "http://b/"; bs "http://n/"]) as H.
  cbv zeta in H. rewrite E in H. destruct H as [_ ->]; [repeat constructor|reflexivity|]. vm_compute. reflexivity.
Defined.

(** A web UI with one session, that answers everything under it with [null]. *)
Definition one_pair : bytes := bs "_session_id=1".

Definition one_session : DelugeServer := {|
  dl_endpoint := bs "http://d/json";
  dl_password := bs "pw";
  dl_reply := fun _ r =>
    if bool_decide (dq_method r = bs "auth.login") then Ok (200%N, [one_pair ++ bs ";"], Ok (bs "true"))
    else if bool_decide (dq_cookie r = Some one_pair)
    then Ok (200%N, [], Ok (if bool_decide (dq_method r = bs "web.connected") then bs "true" else bs "null"))
    else Ok (200%N, [], Ok (bs "refused"))
|}.

Definition three_bodies : JsonText := fun body =>
  if bool_decide (body = bs "true") then Some (JObj [(bs "result", JBool true)])
  else if bool_decide (body = bs "null") then Some (JObj [(bs "result", JNull)])
  else Some (JObj [(bs "error", JObj [(bs "message", JStr (bs "Not authenticated")); (bs "code", JInt 1)])]).

Lemma one_session_protocol : @web_protocol one_session three_bodies one_pair [] (fun _ _ => mkReply JNull None).
Proof.
  split.
  - split; [done| |done]. by apply (bool_decide_unpack _).
  - done.
  - intros sent cookie. by exists (bs "true").
  - intros sent r Hc Hm. exists (bs "Not authenticated"), (bs "refused"). cbn -[one_pair]. by rewrite !bool_decide_false.
  - intros sent. by exists (bs "true").
  - intros sent method params Hm. split; [|done]. exists (bs "null"). cbn -[one_pair].
    rewrite bool_decide_false by set_solver. rewrite bool_decide_true by done. by rewrite bool_decide_false by set_solver.
Qed.

Lemma relogin_recovers_witness :
  let s := mkDSession [] (Some (bs "_session_id=0")) in
  let reached := @rpc one_session three_bodies {| decode_text := fun _ => []; value_text := fun _ => [] |} (fun _ => []) (bs "daemon.get_version") (JArr []) s in
  reached.1 = Ok JNull /\ map dq_method (ds_sent reached.2) = [bs "daemon.get_version"; bs "auth.login"; bs "web.connected"; bs "daemon.get_version"].
Proof.
  intros s reached.
  destruct (@relogin_recovers one_session three_bodies {| decode_text := fun _ => []; value_text := fun _ => [] |} (fun _ => []) one_pair [] (fun _ _ => mkReply JNull None)
    (bs "daemon.get_version") (JArr []) s one_session_protocol) as (H1 & _ & H2); [by apply (bool_decide_unpack _)|].
  split; [exact H1|]. exact H2.
Defined.
