(* ===== verification/Metrics.v ===== *)
(** * Metrics and the management API (metrics.rs, api.rs)

    The surfaces behind a bearer token: [/metrics] and [/dashboard], rendered from one
    snapshot, and the read-only answers under [/api/v1/].  What the pollers last saw and the
    switches of the configuration are arguments. *)

From S2P Require Import Prelude RustStd Text BTreeMap Net Endpoint Announce Model Totp Effects Accounts Database Items Peers History Client Vault Serve Gluetun TrackerRoutes Lighthouse FileTree Beacon Seeder Sync Alerts.

(** ** Who may read (metrics.rs) *)

(** The one answer to anything refused. *)
Definition refused : Response := mkHttp 404 [] [].

(** [bearer_token], of the value of the Authorization header. *)
Definition bearer_token (authorization : option bytes) : option bytes :=
  value ← authorization; if header_text value then str_strip_prefix (bs "Bearer ") value else None.

Definition bearer_admitted (authorization : option bytes) (token : result (option bytes) bytes) : bool :=
  match token with
  | Ok (Some required) =>
      if is_nonempty required
      then match bearer_token authorization with Some supplied => constant_time_eq required supplied | None => false end
      else false
  | _ => false
  end.

(** ** The snapshot *)

(** [SystemSnapshot]; the bits of an [f32], and how one is shown. *)
Record SystemSnapshot : Type := mkSystem { sys_cpu_percent : N; sys_memory_used : N; sys_memory_total : N; sys_disk : option (N * N) }.

Class CpuText : Type := f32_display : N -> bytes.

Record MetricsSnapshot : Type := mkMetrics {
  ms_items_by_state : list (ShareState * Z);
  ms_seeding_count : Z;
  ms_seeding_bytes : Z;
  ms_last_run : option RunRow;
  ms_swarm : SwarmStats;
  ms_transfer : TransferTotals;
  ms_peers_total : nat;
  ms_peers_recent : nat;
  ms_gluetun_tracker : GluetunSnapshot;
  ms_gluetun_client : GluetunSnapshot;
  ms_lighthouse : LighthouseSnapshot;
  ms_system : option SystemSnapshot
}.

(** What the pollers last saw. *)
Record Pollers : Type := mkPollers {
  po_gluetun_tracker : GluetunSnapshot;
  po_gluetun_client : GluetunSnapshot;
  po_lighthouse : LighthouseSnapshot;
  po_system : option SystemSnapshot
}.

Definition ok_or_default {A : Type} (dflt : A) (r : result A StoreError) : A := match r with Ok a => a | Err _ => dflt end.

(** [now - at < 3600]. *)
Definition seen_recently (now : Z) (p : Peer) : bool := match p_last_seen_at p with Some at_ => (now - at_ <? 3600)%Z | None => false end.

Section Gather.
Context `{U : UrlLib} `{HI : HashIter} `{RO : RowOrder}.

(** [gather]; [instant] is the tracker's clock. *)
Definition gather (now instant : Z) (pollers : Pollers) : ServeM MetricsSnapshot :=
  let! swarm := sgets (fun s => stats instant (sv_swarms s)) in
  let snapshot items count size run transfer total recent :=
    mkMetrics items count size run swarm transfer total recent (po_gluetun_tracker pollers) (po_gluetun_client pollers) (po_lighthouse pollers) (po_system pollers) in
  let zeroes := map (fun state => (state, 0%Z)) ALL in
  let! opened := store in
  match opened with
  | Err _ => sret (snapshot zeroes 0%Z 0%Z None (mkTotals 0 0 None) 0 0)
  | Ok _ =>
      let! counts := on_store counts_by_state in
      let! seeding := on_store (seeding_summary ScopeAll) in
      let! runs := on_store (recent_runs 1) in
      let! peers := on_store active_peers in
      let! transfer := on_store transfer_totals in
      let items := match counts with Ok counts => map (fun sc => (sc.1, Z.of_nat sc.2)) counts | Err _ => zeroes end in
      let seeding := ok_or_default (mkSeedingSummary 0 0) seeding in
      let run := match head (ok_or_default [] runs) with
                 | Some (_, run) => if bool_decide (is_Some (run_finished_at run)) then Some run else None
                 | None => None
                 end in
      let peers := ok_or_default [] peers in
      sret (snapshot items (sm_count seeding) (sm_size seeding) run (ok_or_default (mkTotals 0 0 None) transfer)
              (length peers) (length (filter (fun p => seen_recently now p = true) peers)))
  end.

End Gather.

(** ** The text *)

Definition eol : bytes := [x0a].
Definition quoted (s : bytes) : bytes := [x22] ++ s ++ [x22].

(** [sample]: one line. *)
Definition sample (name : bytes) (labels : list (bytes * bytes)) (value : bytes) : bytes :=
  name ++
  (if is_nonempty labels then bs "{" ++ join (bs ",") (map (fun kv => kv.1 ++ bs "=" ++ quoted kv.2) labels) ++ bs "}" else []) ++
  bs " " ++ value ++ eol.

(** [family] and [counter]: the samples are [(labels, value)]. *)
Definition family (name help : bytes) (samples : list (list (bytes * bytes) * bytes)) : bytes :=
  bs "# HELP " ++ name ++ bs " " ++ help ++ eol ++ bs "# TYPE " ++ name ++ bs " gauge" ++ eol ++
  concat (map (fun lv => sample name lv.1 lv.2) samples).

Definition gauge (name help value : bytes) : bytes := family name help [([], value)].

Definition counter (name help : bytes) (samples : list (list (bytes * bytes) * bytes)) : bytes :=
  bs "# HELP " ++ name ++ bs " " ++ help ++ eol ++ bs "# TYPE " ++ name ++ bs " counter" ++ eol ++
  concat (map (fun lv => sample (name ++ bs "_total") lv.1 lv.2) samples).

(** One label and a value. *)
Definition labelled (label value : bytes) (shown : bytes) : list (bytes * bytes) * bytes := ([(label, value)], shown).

Definition nat_text (n : nat) : bytes := u_to_string (N.of_nat n).

(** The part of [render] about the last finished pass. *)
Definition render_run (run : RunRow) : bytes :=
  match run_finished_at run with
  | None => []
  | Some finished_at =>
      let summary := run_summary run in
      gauge (bs "sharerr_sync_last_run_timestamp_seconds") (bs "When the last finished sync pass completed.") (i_to_string finished_at) ++
      gauge (bs "sharerr_sync_last_run_duration_seconds") (bs "How long the last finished sync pass took.")
        (i_to_string (Z.max (finished_at - run_started_at run) 0)) ++
      gauge (bs "sharerr_sync_last_run_ok") (bs "1 if the last finished sync pass succeeded outright, 0 if it errored.")
        (if bool_decide (rs_error summary = None) then bs "1" else bs "0") ++
      family (bs "sharerr_sync_last_run") (bs "What the last finished sync pass did, by result.")
        (map (fun rv => labelled (bs "result") rv.1 (i_to_string rv.2))
           [(bs "discovered", rs_discovered summary); (bs "added", rs_added summary); (bs "unshared", rs_unshared summary); (bs "failed", rs_failed summary)])
  end.

(** The part about the gluetun pollers. *)
Definition render_gluetun (targets : list (bytes * GluetunSnapshot)) : bytes :=
  if existsb (fun t => bool_decide (is_Some (gn_last_success_at t.2))) targets
  then family (bs "sharerr_gluetun_last_success_timestamp_seconds")
         (bs "When each gluetun poller last successfully resolved an endpoint. Absent for a target that has never succeeded.")
         (omap (fun t => (fun at_ => labelled (bs "target") t.1 (i_to_string at_)) <$> gn_last_success_at t.2) targets)
  else [].

(** The part about the lighthouses, in the order of their URLs. *)
Definition render_lighthouse (lh : LighthouseSnapshot) : bytes :=
  match lsn_last_pass_at lh with
  | Some at_ => gauge (bs "sharerr_lighthouse_last_pass_timestamp_seconds") (bs "When the lighthouse report-and-lookup pass last ran to completion.") (i_to_string at_)
  | None => []
  end ++
  (let reports := btree_collect (map_to_list (lsn_lighthouses lh)) in
   if is_nonempty reports
   then family (bs "sharerr_lighthouse_last_success_timestamp_seconds")
          (bs "When each configured lighthouse last accepted a report. Absent for one that has never succeeded.")
          (omap (fun ur => (fun at_ => labelled (bs "lighthouse") ur.1 (i_to_string at_)) <$> lr_last_success_at ur.2) reports)
   else []).

(** The part about the machine. *)
Definition render_system `{CT : CpuText} (system : SystemSnapshot) : bytes :=
  gauge (bs "sharerr_system_cpu_percent") (bs "CPU utilization across every core, as last sampled.") (f32_display (sys_cpu_percent system)) ++
  family (bs "sharerr_system_memory_bytes") (bs "Memory in use versus total, as last sampled.")
    [labelled (bs "kind") (bs "used") (u_to_string (sys_memory_used system)); labelled (bs "kind") (bs "total") (u_to_string (sys_memory_total system))] ++
  match sys_disk system with
  | Some (used, total) =>
      family (bs "sharerr_system_disk_bytes") (bs "Disk usage of the filesystem holding the data directory, as last sampled.")
        [labelled (bs "kind") (bs "used") (u_to_string used); labelled (bs "kind") (bs "total") (u_to_string total)]
  | None => []
  end.

(** [render]. *)
Definition render `{CT : CpuText} (m : MetricsSnapshot) : bytes :=
  family (bs "sharerr_items") (bs "Items by lifecycle state.")
    (map (fun sc => labelled (bs "state") (as_str_name sc.1) (i_to_string sc.2)) (ms_items_by_state m)) ++
  gauge (bs "sharerr_seeding_bytes") (bs "Total size on disk of items currently seeding.") (i_to_string (ms_seeding_bytes m)) ++
  match ms_last_run m with Some run => render_run run | None => [] end ++
  gauge (bs "sharerr_swarm_torrents") (bs "Distinct torrents with at least one live peer right now.") (nat_text (st_swarms (ms_swarm m))) ++
  gauge (bs "sharerr_swarm_peers") (bs "Live peers across every swarm right now, seeders included.") (nat_text (st_peers (ms_swarm m))) ++
  gauge (bs "sharerr_swarm_seeders") (bs "The subset of sharerr_swarm_peers with the whole thing.") (nat_text (st_seeders (ms_swarm m))) ++
  counter (bs "sharerr_transfer_bytes")
    (bs "All-time bytes the tracker's announces report moved, by direction as the announcing client saw it: downloaded is what left this instance.")
    [labelled (bs "direction") (bs "downloaded") (i_to_string (tt_downloaded (ms_transfer m)));
     labelled (bs "direction") (bs "uploaded") (i_to_string (tt_uploaded (ms_transfer m)))] ++
  family (bs "sharerr_peers") (bs "Friends by activity, bounded by the friends list.")
    [labelled (bs "state") (bs "total") (nat_text (ms_peers_total m)); labelled (bs "state") (bs "recent") (nat_text (ms_peers_recent m))] ++
  render_gluetun [(bs "tracker", ms_gluetun_tracker m); (bs "client", ms_gluetun_client m)] ++
  render_lighthouse (ms_lighthouse m) ++
  match ms_system m with Some system => render_system system | None => [] end ++
  bs "# EOF" ++ eol.

(** ** The widget *)

Record DashboardWidget : Type := mkWidget {
  dw_items_shared : Z;
  dw_shared_bytes : Z;
  dw_last_sync_at : option Z;
  dw_last_sync_ok : option bool;
  dw_friends_total : nat;
  dw_friends_recent : nat;
  dw_swarm_torrents : nat;
  dw_swarm_peers : nat;
  dw_swarm_seeders : nat;
  dw_served_bytes : Z
}.

Definition widget_of (m : MetricsSnapshot) : DashboardWidget :=
  mkWidget (ms_seeding_count m) (ms_seeding_bytes m) (ms_last_run m ≫= run_finished_at)
    ((fun run => bool_decide (rs_error (run_summary run) = None)) <$> ms_last_run m)
    (ms_peers_total m) (ms_peers_recent m) (st_swarms (ms_swarm m)) (st_peers (ms_swarm m)) (st_seeders (ms_swarm m)) (tt_downloaded (ms_transfer m)).

(** [Unavailable], the 503 of the API: the database did not open, or what was being read
    when it failed. *)
Inductive Unavailable : Type := NotOpened (reason : bytes) | NotRead (what : bytes) (e : StoreError).

(** ** The endpoints *)

Section Endpoints.
Context `{U : UrlLib} `{C : VaultCipher} `{KF : KeyFiles} `{ME : MasterEnv} `{HI : HashIter} `{RO : RowOrder}.

(** [MetricsAuth] and [ApiAuth]: the extractor, then the handler. *)
Definition behind_token {A : Type} (enabled : bool) (token : ServeM (result (option bytes) bytes)) (authorization : option bytes)
    (handler : ServeM A) : ServeM (result A Response) :=
  if enabled then
    let! required := token in
    if bearer_admitted authorization required then let! answer := handler in sret (Ok answer) else sret (Err refused)
  else sret (Err refused).

Definition metrics_auth {A : Type} (enabled : bool) (authorization : option bytes) (handler : ServeM A) : ServeM (result A Response) :=
  behind_token enabled try_metrics_token authorization handler.
Definition api_auth {A : Type} (enabled : bool) (authorization : option bytes) (handler : ServeM A) : ServeM (result A Response) :=
  behind_token enabled try_api_token authorization handler.

Definition metrics_endpoint `{CT : CpuText} (now instant : Z) (pollers : Pollers) : ServeM Response :=
  let! snapshot := gather now instant pollers in
  sret (mkHttp 200 [(bs "content-type", bs "application/openmetrics-text; version=1.0.0; charset=utf-8")] (render snapshot)).

Definition dashboard_endpoint (now instant : Z) (pollers : Pollers) : ServeM DashboardWidget :=
  let! snapshot := gather now instant pollers in sret (widget_of snapshot).

(** ** The management API (api.rs) *)

Definition RECENT_RUNS : Z := 20.

Record ApiItem : Type := mkApiItem {
  ai_source : bytes;
  ai_file_id : Z;
  ai_kind : bytes;
  ai_title : bytes;
  ai_release_title : bytes;
  ai_state : bytes;
  ai_last_error : option bytes;
  ai_size : N;
  ai_info_hash : option bytes;
  ai_created_by_sharerr : bool;
  ai_created_at : option Z;
  ai_share_until : option Z
}.

Definition api_item (ends : gmap ItemKey Z) (item : SharedItem) : ApiItem :=
  mkApiItem (as_str_name (it_source item)) (it_file_id item) (kind_tag (it_spec item)) (spec_title (it_spec item)) (it_release_title item)
    (as_str_name (it_state item)) (it_last_error item) (it_size item) (it_info_hash item) (it_created_by_sharerr item) (it_created_at item)
    (ends !! item_key item).

Record ApiFriend : Type := mkApiFriend {
  af_id : Z;
  af_label : bytes;
  af_scope : bytes;
  af_created_at : Z;
  af_last_seen_at : option Z;
  af_revoked_at : option Z;
  af_downloaded : Z;
  af_uploaded : Z
}.

Definition api_friend (p : Peer) : ApiFriend :=
  mkApiFriend (p_id p) (p_label p) (as_str_name (p_scope p)) (p_created_at p) (p_last_seen_at p) (p_revoked_at p) (p_downloaded p) (p_uploaded p).

Record ApiRun : Type := mkApiRun {
  ar_started_at : Z;
  ar_finished_at : option Z;
  ar_discovered : Z;
  ar_added : Z;
  ar_unshared : Z;
  ar_failed : Z;
  ar_error : option bytes
}.

Definition api_run (run : RunRow) : ApiRun :=
  let s := run_summary run in mkApiRun (run_started_at run) (run_finished_at run) (rs_discovered s) (rs_added s) (rs_unshared s) (rs_failed s) (rs_error s).

Record ApiSync : Type := mkApiSync { as_enabled : bool; as_interval_secs : N; as_blocked : option bytes; as_runs : list ApiRun }.

(** A read of the store, or the 503 that names it. *)
Definition read_or_503 {A : Type} (what : bytes) (m : DbM (result A StoreError)) : ServeM (result A Unavailable) :=
  let! r := on_store m in sret (rmap_err (NotRead what) r).

Definition store_or_unavailable : ServeM (result unit Unavailable) := let! opened := store in sret (rmap_err NotOpened opened).

(** [items], [friends] and [sync]. *)
Definition api_items : ServeM (result (list ApiItem) Unavailable) :=
  try! _ := store_or_unavailable in
  try! ends := read_or_503 (bs "share-until dates") share_ends in
  try! items := read_or_503 (bs "items") all_items in
  sret (Ok (map (api_item ends) items)).

Definition api_friends : ServeM (result (list ApiFriend) Unavailable) :=
  try! _ := store_or_unavailable in
  try! peers := read_or_503 (bs "friends") list_peers in
  sret (Ok (map api_friend peers)).

Definition api_sync (config : SyncConfig) (blocked : option bytes) : ServeM (result ApiSync Unavailable) :=
  try! _ := store_or_unavailable in
  try! runs := read_or_503 (bs "sync runs") (recent_runs RECENT_RUNS) in
  sret (Ok (mkApiSync (sy_enabled config) (effective_interval_secs config) blocked (map (fun ir => api_run ir.2) runs))).

End Endpoints.

(** ** Facts: who is answered *)

(** The two surfaces and where their token is kept. *)
Inductive Surface : Type := MetricsSurface | ApiSurface.

Definition surface_cache (surface : Surface) : VaultCaches -> option (option bytes) :=
  match surface with MetricsSurface => vc_metrics_token | ApiSurface => vc_api_token end.
Definition surface_key (surface : Surface) : bytes := match surface with MetricsSurface => bs "metrics.token" | ApiSurface => bs "api.token" end.

Section AuthFacts.
Context `{U : UrlLib} `{C : VaultCipher} `{KF : KeyFiles} `{ME : MasterEnv}.

Definition surface_auth {A : Type} (surface : Surface) : bool -> option bytes -> ServeM A -> ServeM (result A Response) :=
  match surface with MetricsSurface => metrics_auth | ApiSurface => api_auth end.

(** The request shows the token that is in force for the surface, which is not empty. *)
Definition token_shown (surface : Surface) (authorization : option bytes) (s : Serve) : Prop :=
  exists token, token <> [] /\ authorization = Some (bs "Bearer " ++ token) /\ secret_in_force (surface_cache surface) (surface_key surface) s (Some token).

Lemma bearer_admitted_inv authorization token :
  bearer_admitted authorization token = true -> exists t, token = Ok (Some t) /\ t <> [] /\ authorization = Some (bs "Bearer " ++ t).
Proof.
  unfold bearer_admitted, bearer_token. destruct token as [[[|b t]|]|]; try done. cbn [is_nonempty]. destruct authorization as [value|]; [|done].
  cbn [mbind option_bind]. destruct (header_text value); [|done]. destruct (str_strip_prefix _ value) as [supplied|] eqn:E; [|done].
  intros <-%constant_time_eq_spec. apply str_strip_prefix_spec in E. exists (b :: t). by rewrite E.
Qed.

Lemma bearer_admitted_shown token : token <> [] -> header_text token = true -> bearer_admitted (Some (bs "Bearer " ++ token)) (Ok (Some token)) = true.
Proof.
  intros Hne Ht. unfold bearer_admitted, bearer_token. replace (is_nonempty token) with true by (by destruct token). cbn [mbind option_bind].
  unfold header_text. rewrite forallb_app. fold (header_text token). rewrite Ht.
  change (forallb _ (bs "Bearer ") && true) with true. cbn iota. rewrite str_strip_prefix_app. by apply constant_time_eq_spec.
Qed.

(** C15: The surfaces behind a token fail closed.  Whatever fails on the way, [/metrics],
    [/dashboard] and the management API answer a request only when they are switched on and
    the request carries the token in force, a vault that does not open and an empty token
    counting as none; every other request gets the same 404, and changes nothing but the
    cached secret.  The token in force does get through. *)
Theorem token_surfaces_fail_closed {A : Type} (surface : Surface) (enabled : bool) (authorization : option bytes) (handler : ServeM A) (s : Serve) :
  match surface_auth surface enabled authorization handler s with
  | (Ok _, _) => enabled = true /\ token_shown surface authorization s
  | (Err response, s') => response = refused /\ undisturbed s s'
  end /\
  (forall token, surface_cache surface (sv_caches s) = Some (Some token) -> token <> [] -> header_text token = true ->
     enabled = true -> authorization = Some (bs "Bearer " ++ token) ->
     surface_auth surface enabled authorization handler s = (Ok (handler s).1, (handler s).2)).
Proof.
  assert (exists put, surface_auth surface enabled authorization handler =
    behind_token enabled (try_cached_from_vault (surface_cache surface) put (fun vault => sret (vault_string vault (surface_key surface)))) authorization handler)
    as [put ->] by (by destruct surface; eexists).
  split.
  - unfold behind_token. destruct enabled; [|done].
    pose proof (moves_cached (surface_cache surface) put (fun vault => sret (vault_string vault (surface_key surface))) (fun _ _ => eq_refl) s) as M.
    unfold sbind. destruct (try_cached_from_vault _ _ _ s) as [required s1] eqn:Et. cbn in M.
    destruct (bearer_admitted authorization required) eqn:Eb; [|done].
    destruct (handler s1) as [answer s2]. cbn. split; [done|].
    apply bearer_admitted_inv in Eb as (t & -> & Hne & Ha). exists t. split; [done|]. split; [done|]. by eapply cached_secret_inv.
  - intros token Hc Hne Ht -> ->. unfold behind_token, sbind, try_cached_from_vault, sbind, sgets. rewrite Hc. cbn [sret].
    rewrite bearer_admitted_shown by done. by destruct (handler s).
Qed.

End AuthFacts.

(** ** Facts: what the API shows *)

(** The columns the API shows of a friend and of an item. *)
Definition friend_columns (r : PeerRow) := (pr_label r, pr_scope r, pr_created_at r, pr_last_seen_at r, pr_revoked_at r, (pr_downloaded r, pr_uploaded r)).
Definition item_columns (r : ItemRow) :=
  (if_spec (r_file r), if_release_title (r_file r), if_size (r_file r), tor_info_hash (r_torrent r), tor_created_by_sharerr (r_torrent r),
   (r_state r, r_last_error r, r_created_at r, r_share_until r)).

(** Databases that agree on them. *)
Record listed_alike (db1 db2 : Db) : Prop := {
  alike_friends : friend_columns <$> tb_rows (db_peers db1) = friend_columns <$> tb_rows (db_peers db2);
  alike_items : item_columns <$> db_items db1 = item_columns <$> db_items db2
}.

(** Processes that agree on them and go through the same failures. *)
Record process_alike `{U : UrlLib} (s1 s2 : Serve) : Prop := {
  alike_config : sv_config s1 = sv_config s2;
  alike_opened : sv_opened s1 = sv_opened s2;
  alike_script : sv_script s1 = sv_script s2;
  alike_db : listed_alike (sv_db s1) (sv_db s2)
}.

(** The same rows, in an order of the database's. *)
Definition same_rows {A E : Type} (r1 r2 : result (list A) E) : Prop :=
  match r1, r2 with Ok l1, Ok l2 => l1 ≡ₚ l2 | Err e1, Err e2 => e1 = e2 | _, _ => False end.

(** Rows shown by their columns are shown alike. *)
Lemma shown_alike `{RO : RowOrder} `{!RowOrderLaws RO} {K : Type} `{Countable K} {V P A : Type} (columns : V -> P) (show : K * V -> A) (shown : K * P -> A) (m1 m2 : gmap K V) :
  (forall kv, show kv = shown (kv.1, columns kv.2)) -> columns <$> m1 = columns <$> m2 -> map show (rows_of m1) ≡ₚ map show (rows_of m2).
Proof.
  intros Hs Hm. assert (forall m, map show (rows_of m) ≡ₚ map shown (map_to_list (columns <$> m))) as Hmap.
  { intros m. rewrite map_to_list_fmap. change (prod_map id columns <$> map_to_list m) with (map (prod_map id columns) (map_to_list m)). rewrite map_map, (rows_of_perm K V m). apply reflexive_eq, map_ext. intros kv. rewrite Hs. by destruct kv. }
  by rewrite !Hmap, Hm.
Qed.

Section ShownFacts.
Context `{U : UrlLib} `{RO : RowOrder}.

Lemma with_retention_alike r db1 db2 : listed_alike db1 db2 -> listed_alike (with_retention r db1) (with_retention r db2).
Proof. intros [? ?]. by split. Qed.

Lemma store_alike s1 s2 : process_alike s1 s2 -> (store_or_unavailable s1).1 = (store_or_unavailable s2).1 /\ process_alike (store_or_unavailable s1).2 (store_or_unavailable s2).2.
Proof.
  intros [Hc Ho Hs Hd]. unfold store_or_unavailable, store, sbind, sgets, smodify, serve_draw, on_vault, focus, disk_script, sret, focus. cbn.
  rewrite <- Ho. destruct (sv_opened s1) eqn:E1; cbn; [split; [done|]; split; congruence || done|]. unfold focus. cbn. rewrite <- Hs, <- Hc.
  destruct (draw (sv_script s1)) as [[] script]; cbn; (split; [done|split; cbn; try done; try congruence]). by apply with_retention_alike.
Qed.

Lemma read_alike {A : Type} (what : bytes) (f : Db -> A) s1 s2 : process_alike s1 s2 ->
  process_alike (read_or_503 what (select f) s1).2 (read_or_503 what (select f) s2).2 /\
  match (read_or_503 what (select f) s1).1, (read_or_503 what (select f) s2).1 with
  | Ok a1, Ok a2 => a1 = f (sv_db s1) /\ a2 = f (sv_db s2) | Err e1, Err e2 => e1 = e2 | _, _ => False end.
Proof.
  intros [Hc Ho Hs Hd]. unfold read_or_503, sbind, on_store, focus, select, query, sret. cbn. rewrite <- Hs.
  destruct (draw (sv_script s1)) as [[] script]; cbn; done.
Qed.

Lemma ends_alike (m1 m2 : gmap ItemKey ItemRow) :
  item_columns <$> m1 = item_columns <$> m2 -> (omap r_share_until m1 : gmap ItemKey Z) = omap r_share_until m2.
Proof.
  intros H. apply map_eq. intros k. rewrite !lookup_omap. apply (f_equal (fun m => m !! k)) in H. rewrite !lookup_fmap in H.
  destruct (m1 !! k) as [r1|], (m2 !! k) as [r2|]; try done. cbn in H. unfold item_columns in H. cbn. congruence.
Qed.

Lemma friends_alike {RL : RowOrderLaws RO} s1 s2 : process_alike s1 s2 -> same_rows (api_friends s1).1 (api_friends s2).1.
Proof.
  intros HA. unfold api_friends, try_bind, sbind, sret. destruct (store_alike s1 s2 HA) as [Hr HA1].
  destruct (store_or_unavailable s1) as [r1 t1], (store_or_unavailable s2) as [r2 t2]. cbn in Hr, HA1. subst r2. destruct r1 as [[]|e]; [|done].
  unfold list_peers. match goal with |- context [select ?f] => pose proof (read_alike (bs "friends") f t1 t2 HA1) as [HA2 Hf] end.
  destruct (read_or_503 _ _ t1) as [r1 u1], (read_or_503 _ _ t2) as [r2 u2]. cbn [fst snd] in *.
  destruct r1 as [l1|e1], r2 as [l2|e2]; try done. destruct Hf as [-> ->]. cbn [fst same_rows].
  rewrite !sort_by_perm, !map_map.
  apply (shown_alike friend_columns _ (fun ic => let '(label, scope, created, seen, revoked, (down, up)) := ic.2 in
    mkApiFriend ic.1 label (as_str_name (parse_lenient ScopeAll scope : PeerScope)) created seen revoked down up)); [by intros []|].
  apply alike_friends, alike_db, HA1.
Qed.

Lemma items_alike {RL : RowOrderLaws RO} s1 s2 : process_alike s1 s2 -> same_rows (api_items s1).1 (api_items s2).1.
Proof.
  intros HA. unfold api_items, try_bind, sbind, sret. destruct (store_alike s1 s2 HA) as [Hr HA1].
  destruct (store_or_unavailable s1) as [r1 t1], (store_or_unavailable s2) as [r2 t2]. cbn in Hr, HA1. subst r2. destruct r1 as [[]|e]; [|done].
  unfold share_ends. match goal with |- context [select ?f] => pose proof (read_alike (bs "share-until dates") f t1 t2 HA1) as [HA2 Hf] end.
  destruct (read_or_503 (bs "share-until dates") _ t1) as [r1 u1], (read_or_503 (bs "share-until dates") _ t2) as [r2 u2]. cbn [fst snd] in *.
  destruct r1 as [ends1|e1], r2 as [ends2|e2]; try done. destruct Hf as [-> ->].
  unfold all_items. match goal with |- context [select ?f] => pose proof (read_alike (bs "items") f u1 u2 HA2) as [_ Hf] end.
  destruct (read_or_503 (bs "items") _ u1) as [r1 v1], (read_or_503 (bs "items") _ u2) as [r2 v2]. cbn [fst snd] in *.
  destruct r1 as [l1|e1], r2 as [l2|e2]; try done. destruct Hf as [-> ->]. cbn [fst same_rows]. rewrite !map_map.
  pose proof (alike_items _ _ (alike_db _ _ HA1)) as H1. pose proof (alike_items _ _ (alike_db _ _ HA2)) as H2. rewrite <- (ends_alike _ _ H1).
  set (ends := omap r_share_until (db_items (sv_db t1))).
  by apply (shown_alike item_columns _ (fun kc => let '(spec, title, size, hash, ours, (state, error, created, _)) := kc.2 in
    mkApiItem (as_str_name kc.1.1) kc.1.2 (kind_tag spec) (spec_title spec) title (as_str_name (state : ShareState)) error
      (default 0%N (u64_try_from_i64 size)) hash ours (Some created) (ends !! kc.1))); [intros [[] ?]|].
Qed.

End ShownFacts.

(** The management API shows no secret.  Two processes that differ in anything but the
    columns it documents, in particular in the hashes of the friends' keys, their public keys
    and addresses, and the announce tokens and paths of the items, answer both listings
    alike, failures included, up to the order the database returns rows in. *)
Theorem api_shows_no_secret `{U : UrlLib} `{RO : RowOrder} (s1 s2 : Serve) :
  RowOrderLaws RO -> process_alike s1 s2 -> same_rows (api_friends s1).1 (api_friends s2).1 /\ same_rows (api_items s1).1 (api_items s2).1.
Proof. intros RL HA. split; [by apply friends_alike|by apply items_alike]. Qed.

(** Whatever fails, the snapshot has one count for every state, in their order. *)
Lemma states_complete `{U : UrlLib} `{HI : HashIter} `{RO : RowOrder} now instant pollers s :
  map fst (ms_items_by_state (gather now instant pollers s).1) = ALL.
Proof.
  unfold gather, sbind, sgets, sret. destruct (store s) as [[[]|e] s1]; [|done].
  destruct (on_store counts_by_state s1) as [counts s2] eqn:Ec. destruct (on_store _ s2) as [? s3], (on_store _ s3) as [? s4], (on_store _ s4) as [? s5], (on_store _ s5) as [? s6].
  cbn [fst ms_items_by_state]. destruct counts as [counts|e]; [|done]. rewrite on_store_run in Ec. injection Ec as Ec _.
  unfold counts_by_state, select, query in Ec. cbn in Ec. destruct (draw _) as [[] script]; [|done]. injection Ec as <-. done.
Qed.

(** *** Witnesses *)

(** The same friend with another key, address and pinned identity. *)
Definition rekeyed_row : PeerRow := mkPeerRow (bs "Sam") (bs "other") 10 None None (bs "all") (Some (bs "pk")) (Some (bs "http://f/")) None 0 0 None None.

Definition rekeyed_db : Db := with_peers (mkTable {[ 1%Z := rekeyed_row ]} 1) serve_db.

Lemma api_shows_no_secret_witness :
  let s1 := sample_serve (None, None) serve_db ∅ in
  let s2 := sample_serve (None, None) rekeyed_db ∅ in
  same_rows (@api_friends text_urls key_order s1).1 (@api_friends text_urls key_order s2).1 /\
  (@api_friends text_urls key_order s2).1 = Ok [mkApiFriend 1 (bs "Sam") (bs "all") 10 None None 0 0].
Proof.
  intros s1 s2. split; [|vm_compute; reflexivity].
  apply (@api_shows_no_secret text_urls key_order s1 s2 key_order_laws). repeat split; vm_compute; reflexivity.
Defined.
