(* ===== verification/Jackett.v ===== *)
(** * Jackett compatibility (jackett.rs)

    The addresses a Jackett client calls: the same feed as XML, the same search as JSON, the
    one indexer there is, the server's configuration, and everything else refused. *)

From S2P Require Import Prelude RustStd Text Bencode Metainfo Net Endpoint TrackerUrl Announce Model Paths Factory Title Lighthouse Totp Effects Accounts Database Items Peers History Sightings Vault Serve TrackerRoutes Torznab.

(** ** Documents *)

Definition INDEXER_ID : bytes := bs "sharerr".

Record Capability : Type := mkCapability { cp_id : bytes; cp_name : bytes }.

Record IndexerEntry : Type := mkIndexer {
  ix_id : bytes;
  ix_name : bytes;
  ix_description : bytes;
  ix_kind : bytes;
  ix_configured : bool;
  ix_site_link : bytes;
  ix_language : bytes;
  ix_last_error : bytes;
  ix_caps : list Capability
}.

Record ServerConfigDto : Type := mkServerConfig {
  sc_notices : list bytes;
  sc_port : N;
  sc_external : bool;
  sc_api_key : bytes;
  sc_app_version : bytes;
  sc_blackholedir : bytes;
  sc_updatedisabled : bool;
  sc_prerelease : bool;
  sc_logging : bool;
  sc_basepathoverride : bytes;
  sc_omdbkey : bytes
}.

(** One release; the volume factors are whole. *)
Record JsonResult : Type := mkJsonResult {
  jr_tracker : bytes;
  jr_tracker_id : bytes;
  jr_tracker_type : bytes;
  jr_title : bytes;
  jr_guid : bytes;
  jr_link : bytes;
  jr_details : bytes;
  jr_category : list N;
  jr_category_desc : bytes;
  jr_size : N;
  jr_seeders : N;
  jr_peers : N;
  jr_info_hash : bytes;
  jr_magnet_uri : option bytes;
  jr_download_volume_factor : N;
  jr_upload_volume_factor : N;
  jr_imdb : option Z;
  jr_tvdb : option Z;
  jr_tmdb : option Z;
  jr_media : MediaMeta
}.

Record QueriedIndexer : Type := mkQueried { qi_id : bytes; qi_name : bytes; qi_status : N; qi_results : nat; qi_error : option bytes }.

(** [QueriedIndexer::sharerr]. *)
Definition queried_sharerr (status : N) (results : nat) (error : option bytes) : QueriedIndexer := mkQueried INDEXER_ID (bs "sharerr") status results error.

Record JsonResults : Type := mkResults { js_results : list JsonResult; js_indexers : list QueriedIndexer }.

(** One release of [json_results], from the item and its links. *)
Definition json_result (entry : FeedItem) : JsonResult :=
  let item := fi_item entry in
  let link := fi_download_url entry in
  let category := category_for item in
  mkJsonResult (bs "sharerr") INDEXER_ID (bs "private") (it_release_title item) link link link [category] (category_name category) (it_size item) 1 1
    (default [] (it_info_hash item)) (if is_nonempty (fi_magnet_url entry) then Some (fi_magnet_url entry) else None) 0 1
    (imdb_numeric (it_ids item) ≫= parse_i64) (tvdb (it_ids item)) (tmdb (it_ids item)) (default default_meta (it_media item)).

(** ** Handlers *)

(** A rejection by the extractor, or a status and a JSON document. *)
Inductive JackettAnswer (T : Type) : Type := Rejected (r : Response) | Answered (status : N) (document : T).
Arguments Rejected {T} _.
Arguments Answered {T} _ _.

Section Handlers.
Context `{U : UrlLib} `{D : Digests} `{C : VaultCipher} `{KF : KeyFiles} `{ME : MasterEnv} `{RO : RowOrder}.
Context `{FT : FeedText} `{UD : UnicodeData}.

(** The extractor, then the handler. *)
Definition with_caller {T : Type} (now : Z) (apikey : option bytes) (remote : option IpAddr) (handler : Caller -> ServeM (N * T)) : ServeM (JackettAnswer T) :=
  let! caller := check_api_key now apikey remote in
  match caller with
  | Err rejection => sret (Rejected rejection)
  | Ok caller => let! answer := handler caller in sret (Answered answer.1 answer.2)
  end.

(** [torznab_search]: any indexer is this one. *)
Definition torznab_search (now : Z) (apikey : option bytes) (remote : option IpAddr) (indexer : bytes) (query : SearchQuery) : ServeM Response :=
  api now apikey remote query.

Definition indexers (now : Z) (apikey : option bytes) (remote : option IpAddr) : ServeM (JackettAnswer (list IndexerEntry)) :=
  with_caller now apikey remote (fun _ =>
    let! base := public_base_url in
    sret (200%N, [mkIndexer INDEXER_ID (bs "sharerr") (bs "Content shared by a friend running sharerr (" ++ base ++ bs ")") (bs "private") true base
                    (bs "en-US") [] (map (fun c => mkCapability (u_to_string c.1) c.2) CATEGORIES)])).

Definition server_config (version : bytes) (now : Z) (apikey : option bytes) (remote : option IpAddr) : ServeM (JackettAnswer ServerConfigDto) :=
  with_caller now apikey remote (fun _ =>
    let! port := sgets (fun s => cf_bind_port (sv_config s)) in
    sret (200%N, mkServerConfig [] port false [] version [] true false false [] [])).

Definition json_results (now : Z) (apikey : option bytes) (remote : option IpAddr) (indexer : bytes) (query : SearchQuery) : ServeM (JackettAnswer JsonResults) :=
  with_caller now apikey remote (fun caller =>
    let! collected := collect query (ca_scope caller) (ca_limits caller) (ca_key_hash caller) in
    sret (match collected with
          | Err (status, reason) => (status, mkResults [] [queried_sharerr 1 0 (Some reason)])
          | Ok matched =>
              let results := map (fun item => json_result (mkFeedItem item (download_url matched item) (magnet_url matched item))) (m_items matched) in
              (200%N, mkResults results [queried_sharerr 0 (length results) None])
          end)).

(** [unimplemented_endpoint]. *)
Definition unimplemented_endpoint : Response :=
  mkHttp 501 [(bs "content-type", bs "application/json; charset=utf-8")]
    ([x7b; x22] ++ bs "error" ++ [x22; x3a; x22] ++ bs "sharerr implements only Jackett's read-only endpoints" ++ [x22; x7d]).

End Handlers.

(** ** Facts *)

(** A search over the feed's own address, as the entries it lists. *)
Lemma search_entries `{U : UrlLib} `{C : VaultCipher} `{KF : KeyFiles} `{ME : MasterEnv} `{RO : RowOrder} `{FT : FeedText} `{UD : UnicodeData}
    query scope limits token s response s' :
  search query scope limits token s = (response, s') ->
  exists collected, collect query scope limits token s = (collected, s') /\
    response = match collected with Ok m => xml (render_feed m) | Err (status, reason) => xml_status status (error_xml 900 reason) end.
Proof. unfold search. intros (collected & s1 & E & [= <- <-])%sbind_inv. by exists collected. Qed.

(** C20: Both addresses answer with the same library.  Asked with the same key for the same
    search, whatever the indexer named and whatever fails, Jackett's JSON lists exactly the
    entries of the Torznab document, in order, each with that document's links, or else fails
    with its status; the key is refused by both or by neither; and both leave the process in
    the same state. *)
Theorem jackett_same_library `{U : UrlLib} `{D : Digests} `{C : VaultCipher} `{KF : KeyFiles} `{ME : MasterEnv} `{RO : RowOrder}
    `{FT : FeedText} `{UD : UnicodeData} (now : Z) (apikey : option bytes) (remote : option IpAddr) (indexer : bytes) (query : SearchQuery) (s : Serve) :
  is_search_function (sq_t query) = true ->
  (api now apikey remote query s).2 = (json_results now apikey remote indexer query s).2 /\
  match (json_results now apikey remote indexer query s).1 with
  | Rejected rejection => (api now apikey remote query s).1 = rejection
  | Answered status document =>
      (status = 200%N /\ exists entries, rp_body (api now apikey remote query s).1 = feed_xml entries /\
         rp_status (api now apikey remote query s).1 = 200%N /\ js_results document = map json_result entries /\
         js_indexers document = [queried_sharerr 0 (length entries) None]) \/
      (status <> 200%N /\ rp_status (api now apikey remote query s).1 = status /\ js_results document = [])
  end.
Proof.
  intros Hf. unfold api, json_results, with_caller, sbind. destruct (check_api_key now apikey remote s) as [[caller|rejection] s1]; [|done].
  assert (sq_t query <> bs "caps") as Hcaps by (intros E; by rewrite E in Hf). rewrite decide_False, Hf by done.
  destruct (search _ _ _ _ s1) as [response s2] eqn:Es. apply search_entries in Es as (collected & Ec & ->). rewrite Ec. cbn.
  split; [done|]. destruct collected as [m|[status reason]]; [left|right; split; [by eapply collect_fails|done]]. split; [done|]. eexists. split; [reflexivity|].
  split; [done|]. rewrite map_map. split; [done|]. by rewrite !length_map.
Qed.

Lemma jackett_same_library_witness :
  let s := sample_serve (Some (bs "t0ken"), None) keyed_db ∅ in
  let feed := (@api text_urls prefix_digests toy_cipher no_key_files sample_env key_order plain_feed_text plain_unicode 1000 (Some (bs "secret")) None heist_query s).1 in
  let listed := (@json_results text_urls prefix_digests toy_cipher no_key_files sample_env key_order plain_feed_text plain_unicode 1000 (Some (bs "secret")) None (bs "all") heist_query s).1 in
  exists document entry, listed = Answered 200 document /\ rp_body feed = @feed_xml plain_feed_text [entry] /\ js_results document = [json_result entry].
Proof.
  intros s feed listed. destruct listed as [r|status document] eqn:E.
  { vm_compute in E. discriminate E. }
  pose proof (@jackett_same_library text_urls prefix_digests toy_cipher no_key_files sample_env key_order plain_feed_text plain_unicode 1000 (Some (bs "secret")) None
    (bs "all") heist_query s eq_refl) as [_ H]. fold listed feed in H. rewrite E in H.
  assert (length (js_results document) = 1) as Hl by (vm_compute in E; injection E as _ <-; vm_compute; reflexivity).
  destruct H as [(-> & entries & Hb & _ & Hr & _)|(_ & _ & Hr)]; [|by rewrite Hr in Hl].
  rewrite Hr, length_map in Hl. destruct entries as [|entry [|? ?]]; [discriminate Hl| |discriminate Hl]. by exists document, entry.
Defined.
