(* ===== verification/ItemsPage.v ===== *)
(** * The items page (web/items/mod.rs)

    What the page lists and in which order, what it says of an item, and the actions on
    items: retry, rebuild, unshare, a day a share ends, and the same for many at once.  The
    actions act on the store, on the torrent client and, through a whole pass, on both. *)

From S2P Require Import Prelude RustStd Text Metainfo Net Endpoint TrackerUrl Model Paths Factory Title Effects Accounts FileTree Library Database Items Peers History Client Seeder Sync Vault Serve TrackerRoutes Torznab.

(** ** What the page lists *)

Record FilterState : Type := mkFilters { fs_q : bytes; fs_source : bytes; fs_state : bytes; fs_kind : bytes; fs_sort : bytes; fs_dir : bytes }.

(** [FilterState::query]. *)
Definition filter_query `{FT : FeedText} (f : FilterState) : bytes :=
  bs "source=" ++ encode_component (fs_source f) ++ bs "&state=" ++ encode_component (fs_state f) ++
  bs "&kind=" ++ encode_component (fs_kind f) ++ bs "&q=" ++ encode_component (fs_q f).

(** An empty filter admits everything. *)
Definition unless_empty (filter : bytes) (admits : bool) : bool := if is_nonempty filter then admits else true.

(** Which items the filters keep. *)
Definition kept `{UD : UnicodeData} (f : FilterState) (item : SharedItem) : bool :=
  let needle := to_lowercase (trim (fs_q f)) in
  unless_empty needle (contains needle (to_lowercase (spec_title (it_spec item))) || contains needle (to_lowercase (it_release_title item))) &&
  unless_empty (fs_source f) (bool_decide (as_str_name (it_source item) = fs_source f)) &&
  unless_empty (fs_state f) (bool_decide (as_str_name (it_state item) = fs_state f)) &&
  unless_empty (fs_kind f) (bool_decide (kind_tag (it_spec item) = fs_kind f)).

(** The column sorted by, and whether it descends. *)
Definition sort_of (f : FilterState) : bytes * bool :=
  if is_nonempty (fs_sort f) then (fs_sort f, bool_decide (fs_dir f = bs "desc")) else (bs "since", true).

(** The comparison of a column. *)
Definition column_compare `{UD : UnicodeData} (sort : bytes) (a b : SharedItem) : comparison :=
  if bool_decide (sort = bs "title") then bytes_compare (to_lowercase (spec_title (it_spec a))) (to_lowercase (spec_title (it_spec b)))
  else if bool_decide (sort = bs "source") then bytes_compare (as_str_name (it_source a)) (as_str_name (it_source b))
  else if bool_decide (sort = bs "size") then N.compare (it_size a) (it_size b)
  else if bool_decide (sort = bs "state") then bytes_compare (as_str_name (it_state a)) (as_str_name (it_state b))
  else Z.compare (default 0%Z (it_created_at a)) (default 0%Z (it_created_at b)).

(** The rows of [page]. *)
Definition listed_items `{UD : UnicodeData} (f : FilterState) (items : list SharedItem) : list SharedItem :=
  let '(sort, desc) := sort_of f in
  let sorted := sort_by (column_compare sort) (filter (fun item => kept f item = true) items) in
  if desc then reverse sorted else sorted.

(** ** What it says of an item *)

Inductive TokenStatus : Type := TokenNone | TokenValid | TokenRotating | TokenStale.

(** [token_status], against the fingerprints of the current and the previous token. *)
Definition token_status (item : SharedItem) (current previous : option bytes) : TokenStatus :=
  match it_info_hash item with
  | None => TokenNone
  | Some _ =>
      match it_announce_token_fp item, current with
      | None, None => TokenNone
      | Some stored, _ =>
          if bool_decide (current = Some stored) then TokenValid
          else if bool_decide (previous = Some stored) then TokenRotating
          else TokenStale
      | None, Some _ => TokenStale
      end
  end.

(** [visible_to]. *)
Definition visible_to (item : SharedItem) (peers : list Peer) (audience : option (list bytes)) : bytes :=
  if bool_decide (it_state item = Seeding) then
    let names := map p_label (filter (fun p => scope_admits (p_scope p) item && limits_admit (peer_limits p) item audience = true) peers) in
    if is_nonempty names then join (bs ", ") names else bs "no friend's scope covers it"
  else [].

(** ** The actions *)

(** What an action answers: a page or a redirect. *)
Inductive ItemAnswer : Type :=
| StoreUnavailable (reason : bytes)
| NoSuchItem
| NotLoaded (e : StoreError)
| UnknownAction
| GoTo (location : bytes).

(** The state: the world of a pass, and whether a pass was asked for. *)
Record Site `{U : UrlLib} : Type := mkSite { si_world : World; si_requested : bool }.

Abbreviation SiteM := (St Site).

(** Local dates (localtime.rs, over jiff): the second a day starts at, and the day of a
    second. *)
Class LocalTime : Type := { start_of_day : bytes -> result Z bytes; date_of : Z -> bytes }.

(** How a store error reads. *)
Class StoreText : Type := store_error_text : StoreError -> bytes.

Definition BULK_MAX : nat := 500.

Section Actions.
Context `{U : UrlLib} `{D : Digests} `{UD : UnicodeData} `{FS : FileSystem} `{TC : TorrentClient} `{FH : FriendHttp}
  `{ML : MediaListing} `{MP : MediaProbe} `{MS : MediaStamps} `{ET : !ErrorText} `{RO : RowOrder} {P : Type} `{TP : !TrackerProvider P}.
Context `{FT : FeedText} `{LT : LocalTime} `{STX : StoreText}.

(** Whether the store opens, and the syncer or the reason there is none. *)
Context (ready : result unit bytes) (syncer : result (Syncer P) bytes) (now : Z).

Definition on_world {A : Type} (m : W A) : SiteM A := focus si_world (fun w s => mkSite U w (si_requested s)) m.

Definition request_pass : SiteM unit := smodify (fun s => mkSite U (si_world s) true).

(** Where the redirects go. *)
Definition item_path (key : ItemKey) : bytes := bs "/items/" ++ as_str_name key.1 ++ bs "/" ++ i_to_string key.2.
Definition redirect_with_ok (key : ItemKey) (message : bytes) : ItemAnswer := GoTo (item_path key ++ bs "?ok=" ++ encode_component message).
Definition redirect_with_error (key : ItemKey) (message : bytes) : ItemAnswer := GoTo (item_path key ++ bs "?error=" ++ encode_component message).

Definition redirect_with_outcome (key : ItemKey) (outcome : result (bytes * bool) bytes) : ItemAnswer :=
  match outcome with
  | Ok (message, failed) => if failed then redirect_with_error key message else redirect_with_ok key message
  | Err e => redirect_with_error key e
  end.

(** [load_item]. *)
Definition load_item (key : ItemKey) : SiteM (result SharedItem ItemAnswer) :=
  match ready with
  | Err reason => sret (Err (StoreUnavailable reason))
  | Ok _ =>
      let! found := on_world (on_db (get_item key)) in
      sret (match found with Ok (Some item) => Ok item | Ok None => Err NoSuchItem | Err e => Err (NotLoaded e) end)
  end.

(** [trigger_sync_now]. *)
Definition trigger_sync_now : SiteM (result (bytes * bool) bytes) :=
  match syncer with
  | Err reason => sret (Err reason)
  | Ok sy =>
      let! outcome := on_world (run sy now false) in
      sret (match outcome with Ok report => Ok (describe_report report false) | Err e => Err (error_text e) end)
  end.

(** A handler that needs the item, and one answer either way. *)
Definition with_item (key : ItemKey) (handler : SharedItem -> SiteM ItemAnswer) : SiteM ItemAnswer :=
  let! loaded := load_item key in
  match loaded with Ok item => handler item | Err answer => sret answer end.

Definition retry (key : ItemKey) : SiteM ItemAnswer :=
  with_item key (fun _ => let! outcome := trigger_sync_now in sret (redirect_with_outcome key outcome)).

Definition rebuild (key : ItemKey) : SiteM ItemAnswer :=
  with_item key (fun item =>
    match syncer with
    | Err reason => sret (redirect_with_error key reason)
    | Ok _ =>
        let! prepared := on_world (prepare_rebuild now item) in
        match prepared with
        | Err e => sret (redirect_with_error key (store_error_text e))
        | Ok _ => let! outcome := trigger_sync_now in sret (redirect_with_outcome key outcome)
        end
    end).

(** [share_until]; [clear] says the form asked to clear the date. *)
Definition share_until (key : ItemKey) (date : bytes) (clear : bool) : SiteM ItemAnswer :=
  match ready with
  | Err reason => sret (StoreUnavailable reason)
  | Ok _ =>
      match (if clear || negb (is_nonempty (trim date)) then Ok None else let? start := start_of_day date in Ok (Some start)) with
      | Err e => sret (redirect_with_error key e)
      | Ok until =>
          let! set := on_world (on_db (set_share_until now key until)) in
          match set with
          | Ok true =>
              let! asked := request_pass in
              sret (redirect_with_ok key (match until with Some start => bs "shares until " ++ date_of start | None => bs "end date cleared" end))
          | Ok false => sret NoSuchItem
          | Err e => sret (redirect_with_error key (store_error_text e))
          end
      end
  end.

Definition unshare (key : ItemKey) : SiteM ItemAnswer :=
  with_item key (fun item =>
    if bool_decide (it_state item = Unshared) then sret (GoTo (item_path key))
    else
      match syncer with
      | Err reason => sret (redirect_with_error key reason)
      | Ok _ =>
          let! done := on_world (unshare_one now item) in
          sret (match done with
                | Ok _ => redirect_with_ok key (bs "unshared — the file itself was not touched")
                | Err e => redirect_with_error key (store_error_text e)
                end)
      end).

(** ** Many at once *)

(** The item a checked row names. *)
Definition bulk_key (row : bytes) : option ItemKey :=
  parts ← split_once (fun b => bool_decide (b = ":"%byte)) row;
  source ← (parse_enum parts.1 : option MediaSource);
  id ← parse_i64 parts.2;
  Some (source, id).

(** The selected items and how many rows name none, or the row the store failed on. *)
Fixpoint bulk_select (rows : list bytes) (selected : list SharedItem) (missing : nat) : SiteM (result (list SharedItem * nat) bytes) :=
  match rows with
  | [] => sret (Ok (selected, missing))
  | row :: rows =>
      match bulk_key row with
      | None => bulk_select rows selected (S missing)
      | Some key =>
          let! found := on_world (on_db (get_item key)) in
          match found with
          | Ok (Some item) => bulk_select rows (selected ++ [item]) missing
          | Ok None => bulk_select rows selected (S missing)
          | Err e => sret (Err (bs "could not load " ++ row ++ bs ": " ++ store_error_text e))
          end
      end
  end.

Definition nat_text (n : nat) : bytes := u_to_string (N.of_nat n).

Definition bulk_retry (items : list SharedItem) : SiteM (result (bytes * bool) bytes) :=
  let failed := length (filter (fun item => it_state item = Failed) items) in
  if (failed =? 0) then sret (Ok (bs "None of the selected items has failed.", true))
  else
    try! report := trigger_sync_now in
    sret (Ok (bs "Retried " ++ nat_text failed ++ bs " failed item(s): " ++ report.1, report.2)).

Fixpoint prepare_all (items : list SharedItem) (prepared : nat) : SiteM (result nat bytes) :=
  match items with
  | [] => sret (Ok prepared)
  | item :: items =>
      let! r := on_world (prepare_rebuild now item) in
      match r with
      | Ok _ => prepare_all items (S prepared)
      | Err e => sret (Err (store_error_text e ++ bs " (after preparing " ++ nat_text prepared ++ bs " rebuild(s))"))
      end
  end.

Definition bulk_rebuild (items : list SharedItem) : SiteM (result (bytes * bool) bytes) :=
  match syncer with
  | Err reason => sret (Err reason)
  | Ok _ =>
      try! prepared := prepare_all (filter (fun item => is_Some (it_info_hash item)) items) 0 in
      if (prepared =? 0) then sret (Ok (bs "None of the selected items has a torrent to rebuild.", true))
      else
        try! report := trigger_sync_now in
        sret (Ok (bs "Rebuilding " ++ nat_text prepared ++ bs " item(s): " ++ report.1, report.2))
  end.

(** How many were unshared and how many could not be recorded. *)
Definition unshare_each (counts : nat * nat) (item : SharedItem) : SiteM (nat * nat) :=
  let! r := on_world (unshare_one now item) in
  sret (match r with Ok _ => (S counts.1, counts.2) | Err _ => (counts.1, S counts.2) end).

Definition bulk_unshare (items : list SharedItem) : SiteM (result (bytes * bool) bytes) :=
  match syncer with
  | Err reason => sret (Err reason)
  | Ok _ =>
      let! counts := sfold unshare_each (filter (fun item => it_state item <> Unshared) items) (0, 0) in
      let unrecorded := if (0 <? counts.2) then bs " " ++ nat_text counts.2 ++ bs " could not be recorded as unshared; see the log." else [] in
      sret (Ok (bs "Unshared " ++ nat_text counts.1 ++ bs " item(s) — the files themselves were not touched." ++ unrecorded, 0 <? counts.2))
  end.

Inductive BulkAction : Type := BulkRetry | BulkRebuild | BulkUnshare.

Definition bulk_action (action : bytes) : option BulkAction :=
  if bool_decide (action = bs "retry") then Some BulkRetry
  else if bool_decide (action = bs "rebuild") then Some BulkRebuild
  else if bool_decide (action = bs "unshare") then Some BulkUnshare
  else None.

(** [bulk]; the filters are those to go back to. *)
Definition bulk (action : bytes) (rows : list bytes) (f : FilterState) : SiteM ItemAnswer :=
  let back (key message : bytes) :=
    GoTo (bs "/items?" ++ filter_query f ++ bs "&sort=" ++ encode_component (fs_sort f) ++ bs "&dir=" ++ encode_component (fs_dir f) ++
          bs "&" ++ key ++ bs "=" ++ encode_component message) in
  match bulk_action action with
  | None => sret UnknownAction
  | Some what =>
      if negb (is_nonempty rows) then sret (back (bs "error") (bs "Nothing was selected."))
      else if BULK_MAX <? length rows
      then sret (back (bs "error") (nat_text (length rows) ++ bs " items were selected; a bulk action takes at most " ++ nat_text BULK_MAX ++
                                    bs ". Narrow the filters and run it in parts."))
      else
        match ready with
        | Err reason => sret (StoreUnavailable reason)
        | Ok _ =>
            let! selected := bulk_select rows [] 0 in
            match selected with
            | Err message => sret (back (bs "error") message)
            | Ok (items, missing) =>
                let! outcome := match what with
                                | BulkRetry => bulk_retry items
                                | BulkRebuild => bulk_rebuild items
                                | BulkUnshare => bulk_unshare items
                                end in
                let note := if (0 <? missing) then bs " " ++ nat_text missing ++ bs " selected item(s) no longer exist." else [] in
                sret (match outcome with
                      | Ok (message, false) => back (bs "ok") (message ++ note)
                      | Ok (message, true) | Err message => back (bs "error") (message ++ note)
                      end)
            end
        end
  end.

End Actions.

(** ** Facts: who finds an item *)

(** The page says who finds an item.  Of an item being seeded it names exactly the friends,
    out of those given, whose own feed lists it, in their order, and says so when there is
    none; of any other item it names nobody, and nobody's feed lists it. *)
Theorem visible_to_exact `{RO : RowOrder} (db : Db) (key : ItemKey) (r : ItemRow) (peers : list Peer) :
  RowOrderLaws RO -> db_items db !! key = Some r -> (r_state r = Seeding -> is_Some (tor_info_hash (r_torrent r))) ->
  let item := row_to_item key r in
  let finds p := item ∈ friend_feed (p_scope p) (peer_limits p) db in
  exists finders, finders `sublist_of` peers /\ (forall p, p ∈ peers -> p ∈ finders <-> finds p) /\
    visible_to item peers (audience_in (db_audience db) key) =
      (if bool_decide (r_state r = Seeding)
       then match finders with [] => bs "no friend's scope covers it" | _ => join (bs ", ") (map p_label finders) end
       else []).
Proof.
  intros RL Hr Hh item finds.
  assert (item_key item = key) as Hk by (by destruct key).
  assert (forall p, finds p <-> r_state r = Seeding /\ scope_admits (p_scope p) item && limits_admit (peer_limits p) item (audience_in (db_audience db) key) = true) as Hf.
  { intros p. unfold finds, friend_feed. rewrite list_elem_of_filter, elem_of_feed_rows, Hk, andb_true_iff. split.
    - intros (Hl & key' & r' & Hr' & Hi & Hs & _ & Ha). assert (key' = key) as -> by (rewrite <- Hk; unfold item in Hi |- *; rewrite Hi; by destruct key').
      rewrite Hr in Hr'. injection Hr' as <-. done.
    - intros (Hs & Ha & Hl). split; [done|]. exists key, r. split_and!; auto. }
  unfold visible_to. change (it_state item) with (r_state r). case_bool_decide as Hs.
  - exists (filter (fun p => scope_admits (p_scope p) item && limits_admit (peer_limits p) item (audience_in (db_audience db) key) = true) peers).
    split; [apply sublist_filter|]. split; [|by destruct (filter _ peers)]. intros p Hp. rewrite list_elem_of_filter, Hf. tauto.
  - exists []. split; [apply sublist_nil_l|]. split; [|done]. intros p _. rewrite Hf, elem_of_nil. tauto.
Qed.

(** ** Facts: what unsharing reaches *)

Section UnshareFacts.
Context `{U : UrlLib} `{D : Digests} `{UD : UnicodeData} `{FS : FileSystem} `{TC : TorrentClient} `{FH : FriendHttp}
  `{ML : MediaListing} `{MP : MediaProbe} `{MS : MediaStamps} `{ET : !ErrorText} `{RO : RowOrder} {P : Type} `{TP : !TrackerProvider P}.
Context `{FT : FeedText} `{STX : StoreText}.
Context (ready : result unit bytes) (syncer : result (Syncer P) bytes) (now : Z).

(** The rows a form names. *)
Definition named (rows : list bytes) (key : ItemKey) : Prop := exists row, row ∈ rows /\ bulk_key row = Some key.

(** Taking out the torrent of a named item, which sharerr made. *)
Definition own_removal (K : ItemKey -> Prop) (db : Db) (c : ClientCall) : Prop :=
  exists key r hash, K key /\ db_items db !! key = Some r /\ tor_created_by_sharerr (r_torrent r) = true /\
    tor_info_hash (r_torrent r) = Some hash /\ c = AskRemove hash.

(** The world moved only so, and no pass was asked for. *)
Definition site_moved (K : ItemKey -> Prop) (C : ClientCall -> Prop) (s s' : Site) : Prop :=
  touches (only_keys K) C (si_world s) (si_world s') /\ si_requested s' = si_requested s.

#[export] Instance site_moved_preorder K C : PreOrder (site_moved K C).
Proof.
  split.
  - intros s. split; [reflexivity|done].
  - intros a b c [H1 R1] [H2 R2]. split; [by etransitivity|congruence].
Qed.

Lemma site_world {A : Type} K C (m : W A) : moves (touches (only_keys K) C) m -> moves (site_moved K C) (on_world m).
Proof. intros H. apply moves_focus. intros s. split; [apply H|done]. Qed.

(** The store, the calls made and the request are as they were. *)
Definition same_site (s s' : Site) : Prop :=
  w_db (si_world s') = w_db (si_world s) /\ w_calls (si_world s') = w_calls (si_world s) /\ si_requested s' = si_requested s.

Lemma same_site_moved K C s s' : same_site s s' -> site_moved K C s s'.
Proof. intros (Hd & Hc & Hr). split; [|done]. split; [by rewrite Hd|]. exists []. by rewrite Hc, app_nil_r. Qed.

Lemma get_item_run key s found s1 :
  on_world (on_db (get_item key)) s = (found, s1) ->
  same_site s s1 /\ forall o, found = Ok o -> o = row_to_item key <$> db_items (w_db (si_world s)) !! key.
Proof.
  unfold on_world, on_db, get_item, select, query, focus. cbn. destruct (draw _) as [[] script]; intros [= <- <-]; (split; [done|]); intros o; [|done].
  by intros [= <-].
Qed.

(** Reading the selection changes nothing, and finds the named rows. *)
Definition selected_from (rows : list bytes) (db : Db) (item : SharedItem) : Prop :=
  exists key r, named rows key /\ db_items db !! key = Some r /\ item = row_to_item key r.

Lemma bulk_select_reads rows selected missing s r s' :
  bulk_select rows selected missing s = (r, s') ->
  same_site s s' /\
  forall items n, r = Ok (items, n) -> forall item, item ∈ items -> item ∈ selected \/ selected_from rows (w_db (si_world s)) item.
Proof.
  revert selected missing s. induction rows as [|row rows IH]; intros selected missing s; cbn [bulk_select].
  { intros [= <- <-]. split; [done|]. intros items n [= <- <-]. auto. }
  assert (forall db item, selected_from rows db item -> selected_from (row :: rows) db item) as Hmore.
  { intros db item (key & r' & (x & ? & ?) & ?). exists key, r'. split; [|done]. exists x. by rewrite elem_of_cons; auto. }
  assert (forall selected' missing' s1, same_site s s1 -> (forall item, item ∈ selected' -> item ∈ selected \/ selected_from (row :: rows) (w_db (si_world s)) item) ->
    bulk_select rows selected' missing' s1 = (r, s') -> same_site s s' /\
    forall items n, r = Ok (items, n) -> forall item, item ∈ items -> item ∈ selected \/ selected_from (row :: rows) (w_db (si_world s)) item) as Hstep.
  { intros selected' missing' s1 (Hd & Hc & Hq) Hsel ((Hd' & Hc' & Hq') & Hi)%IH. split; [unfold same_site; split_and!; congruence|].
    intros items n -> item Hin. destruct (Hi items n eq_refl item Hin) as [?|Hf]; [auto|]. right. rewrite <- Hd. auto. }
  destruct (bulk_key row) as [key|] eqn:Ek; [|apply Hstep; [done|auto]].
  intros (found & s1 & [Hs Ho]%get_item_run & H)%sbind_inv.
  destruct found as [[item|]|e]; [| |by injection H as <- <-].
  - revert H. apply Hstep; [done|]. intros x [Hx|Hx%list_elem_of_singleton]%elem_of_app; [auto|]. right. subst x. specialize (Ho _ eq_refl).
    destruct (db_items _ !! key) as [r'|] eqn:Er; [|done]. injection Ho as ->. exists key, r'. split; [|done]. exists row. split; [set_solver|done].
  - revert H. by apply Hstep; auto.
Qed.

Lemma unshare_each_moved rows db counts item :
  selected_from rows db item -> moves (site_moved (named rows) (own_removal (named rows) db)) (unshare_each now counts item).
Proof.
  intros (key & r & Hn & Hr & ->). apply moves_bind; [apply _| |intros ?; apply moves_ret; apply _]. apply site_world, unshare_touches. split.
  - by destruct key.
  - intros Hc h Hh. by exists key, r, h.
Qed.

(** Unsharing many at once reaches only what was checked.  Whatever fails on the way, and
    whatever the form holds, only rows of items the form names can change, the torrent client
    is asked for nothing but to forget torrents sharerr itself made for such items, and no
    pass is asked for. *)
Theorem bulk_unshare_confined (rows : list bytes) (f : FilterState) (s : Site) :
  site_moved (named rows) (own_removal (named rows) (w_db (si_world s))) s (bulk ready syncer now (bs "unshare") rows f s).2.
Proof.
  unfold bulk. change (bulk_action (bs "unshare")) with (Some BulkUnshare). cbn iota.
  destruct (is_nonempty rows); [|reflexivity]. cbn [negb]. destruct (BULK_MAX <? length rows); [reflexivity|]. destruct ready as [[]|]; [|reflexivity].
  unfold sbind at 1. destruct (bulk_select rows [] 0 s) as [r s1] eqn:E. apply bulk_select_reads in E as [Hs Hi].
  pose proof (same_site_moved (named rows) (own_removal (named rows) (w_db (si_world s))) s s1 Hs) as M.
  destruct r as [[items missing]|message]; [|done]. transitivity s1; [done|]. revert s1 Hs M. intros s1 _ _.
  match goal with |- site_moved ?K ?C s1 (?m s1).2 => assert (moves (site_moved K C) m) as Hm; [|apply Hm] end.
  apply moves_bind; [apply _| |intros ?; apply moves_ret; apply _]. unfold bulk_unshare. destruct syncer; [|apply moves_ret; apply _].
  apply moves_bind; [apply _| |intros ?; apply moves_ret; apply _]. apply moves_fold; [apply _|]. intros counts item [_ Hin]%list_elem_of_filter.
  apply unshare_each_moved. by destruct (Hi items missing eq_refl item Hin) as [?%elem_of_nil|?].
Qed.

End UnshareFacts.

(** ** Facts: unsharing many with a working store *)

Section UnshareCompletes.
Context `{U : UrlLib} `{D : Digests} `{UD : UnicodeData} `{FS : FileSystem} `{TC : TorrentClient} `{FH : FriendHttp}
  `{ML : MediaListing} `{MP : MediaProbe} `{MS : MediaStamps} `{ET : !ErrorText} `{RO : RowOrder} {P : Type} `{TP : !TrackerProvider P}.
Context `{FT : FeedText} `{STX : StoreText}.
Context (now : Z).

(** No call of the store fails. *)
Definition working (s : Site) : Prop := sc_io (w_script (si_world s)) = [].

Lemma get_item_works key s :
  working s -> on_world (on_db (get_item key)) s = (Ok (row_to_item key <$> db_items (w_db (si_world s)) !! key), s).
Proof.
  destruct s as [[db cache confirmed limits calls [io en er]] asked]. unfold working. cbn. intros ->. done.
Qed.

(** The items the store has for the rows of a form, in their order. *)
Definition checked_items (rows : list bytes) (db : Db) : list SharedItem :=
  omap (fun row => key ← bulk_key row; row_to_item key <$> db_items db !! key) rows.

Lemma bulk_select_works rows selected missing s : working s ->
  exists n, bulk_select rows selected missing s = (Ok (selected ++ checked_items rows (w_db (si_world s)), n), s).
Proof.
  intros Hw. revert selected missing. induction rows as [|row rows IH]; intros selected missing; cbn [bulk_select checked_items omap list_omap].
  { exists missing. by rewrite app_nil_r. }
  destruct (bulk_key row) as [key|]; [|by apply IH]. unfold sbind. rewrite (get_item_works key s Hw). cbn.
  destruct (db_items _ !! key) as [r|]; cbn; [|by apply IH]. destruct (IH (selected ++ [row_to_item key r]) missing) as [n Hn]. exists n. by rewrite Hn, <- app_assoc.
Qed.

(** The torrent of an item that sharerr made, if it has one. *)
Definition own_torrent (item : SharedItem) : option bytes := if it_created_by_sharerr item then it_info_hash item else None.

(** The store with some items unshared. *)
Definition unshared_rows (ended : list SharedItem) (db db' : Db) : Prop :=
  forall key, db_items db' !! key =
    if decide (key ∈ map item_key ended) then put_state Unshared None now <$> db_items db !! key else db_items db !! key.

Lemma unshare_works counts item s : working s ->
  let s' := (unshare_each now counts item s).2 in
  working s' /\ (unshare_each now counts item s).1 = (S counts.1, counts.2) /\
  w_db (si_world s') = (update_row (put_state Unshared None now) (item_key item) (w_db (si_world s))).2 /\
  w_calls (si_world s') = w_calls (si_world s) ++ map AskRemove (omap own_torrent [item]).
Proof.
  intros Hw. unfold unshare_each, on_world, unshare_one, remove_own, own_torrent, sbind, focus, ask, sret. unfold working in *.
  destruct (it_info_hash item) as [h|] eqn:Eh, (it_created_by_sharerr item) eqn:Ec; cbn; rewrite ?Ec, ?Eh; cbn; unfold on_db, set_state, update_item, query, focus, draw; cbn;
    rewrite !Hw; cbn; rewrite ?app_nil_r; done.
Qed.

Lemma update_unshared key db k :
  db_items (update_row (put_state Unshared None now) key db).2 !! k = if decide (k = key) then put_state Unshared None now <$> db_items db !! k else db_items db !! k.
Proof.
  unfold update_row. destruct (db_items db !! key) as [r|] eqn:E; cbn; case_decide; subst.
  - by rewrite lookup_insert_eq, E.
  - by rewrite lookup_insert_ne.
  - by rewrite E.
  - done.
Qed.

Lemma unshare_all_works items counts s : working s ->
  let '(counts', s') := sfold (unshare_each now) items counts s in
  counts' = (length items + counts.1, counts.2) /\ unshared_rows items (w_db (si_world s)) (w_db (si_world s')) /\
  w_calls (si_world s') = w_calls (si_world s) ++ map AskRemove (omap own_torrent items).
Proof.
  revert counts s. induction items as [|item items IH]; intros counts s Hw; cbn [sfold].
  { split; [by destruct counts|]. split; [intros key; by rewrite decide_False by apply not_elem_of_nil|]. cbn. by rewrite app_nil_r. }
  unfold sbind. destruct (unshare_works counts item s Hw) as (Hw1 & Hc & Hd & Hcalls). destruct (unshare_each now counts item s) as [counts1 s1]. cbn [fst snd] in *. subst counts1.
  specialize (IH (S counts.1, counts.2) s1 Hw1). destruct (sfold _ _ _ s1) as [counts2 s2]. destruct IH as (-> & Hrows & Hcalls2). split; [cbn; f_equal; lia|]. split.
  - intros key. rewrite (Hrows key), Hd, update_unshared. cbn [map]. destruct (decide (key = item_key item)) as [Hk|Hk].
    + rewrite (decide_True (P := key ∈ _ :: _)) by (rewrite Hk; apply list_elem_of_here). case_decide; [|done]. by destruct (db_items _ !! key).
    + destruct (decide (key ∈ map item_key items)) as [Hin|Hin].
      * by rewrite decide_True by by apply list_elem_of_further.
      * rewrite decide_False; [done|]. by intros [?|?]%elem_of_cons.
  - rewrite Hcalls2, Hcalls, <- app_assoc, <- map_app. do 2 f_equal. cbn. by destruct (own_torrent item).
Qed.

(** C25: Unsharing many at once unshares every one, and nothing else.  With a store none of
    whose calls fails, a syncer, and between one row and as many as a form may hold (500), let
    [ended] be the items the rows name, as the store has them, that are not unshared yet.
    Then their rows are recorded as unshared without an error and every other row is left
    alone; the client is asked to remove the torrents of those of them sharerr made, each in
    the order of the rows, and nothing more; and the answer gives their number. *)
Theorem bulk_unshare_complete (sy : Syncer P) (rows : list bytes) (f : FilterState) (s : Site) :
  working s -> rows <> [] -> length rows <= BULK_MAX ->
  let '(answer, s') := bulk (Ok tt) (Ok sy) now (bs "unshare") rows f s in
  let ended := filter (fun item => it_state item <> Unshared) (checked_items rows (w_db (si_world s))) in
  unshared_rows ended (w_db (si_world s)) (w_db (si_world s')) /\
  w_calls (si_world s') = w_calls (si_world s) ++ map AskRemove (omap own_torrent ended) /\
  (exists query note, answer = GoTo (query ++ bs "&ok=" ++
     encode_component ((bs "Unshared " ++ nat_text (length ended) ++ bs " item(s) — the files themselves were not touched.") ++ note))) /\
  forall key r, named rows key -> db_items (w_db (si_world s')) !! key = Some r -> r_state r = Unshared.
Proof.
  intros Hw Hne Hl. unfold bulk. change (bulk_action (bs "unshare")) with (Some BulkUnshare). cbn iota.
  replace (is_nonempty rows) with true by (by destruct rows). cbn [negb]. replace (BULK_MAX <? length rows) with false by (symmetry; apply Nat.ltb_ge; lia).
  unfold sbind at 1. destruct (bulk_select_works rows [] 0 s Hw) as [n ->]. cbn [app]. unfold bulk_unshare, sbind.
  pose proof (unshare_all_works (filter (fun item => it_state item <> Unshared) (checked_items rows (w_db (si_world s)))) (0, 0) s Hw) as H.
  destruct (sfold _ _ _ s) as [counts s2]. destruct H as (-> & Hrows & Hcalls). cbn [fst snd sret]. split; [done|]. split; [done|]. split.
  - rewrite Nat.add_0_r. cbn [Nat.ltb Nat.leb]. rewrite app_nil_r.
    exists (bs "/items?" ++ filter_query f ++ bs "&sort=" ++ encode_component (fs_sort f) ++ bs "&dir=" ++ encode_component (fs_dir f)), (if (0 <? n) then bs " " ++ nat_text n ++ bs " selected item(s) no longer exist." else []).
    f_equal. by rewrite <- !app_assoc.
  - intros key r (row & Hrow & Hkey). rewrite (Hrows key). case_decide as Hin.
    + by intros (r0 & _ & ->)%fmap_Some.
    + intros Hr. destruct (decide (r_state r = Unshared)) as [|Hs]; [done|]. exfalso. apply Hin. apply list_elem_of_fmap.
      exists (row_to_item key r). split; [by destruct key|]. apply list_elem_of_filter. split; [done|].
      apply list_elem_of_omap. exists row. split; [done|]. rewrite Hkey. cbn. by rewrite Hr.
Qed.

End UnshareCompletes.

(** *** Witnesses *)

(** Sam's scope is everything; Kim's is books. *)
Definition sam : Peer := row_to_peer 1 friend_row.
Definition kim : Peer := row_to_peer 2 (mkPeerRow (bs "Kim") (bs "kk") 10 None None (bs "books") None None None 0 0 None None).

Lemma visible_to_exact_witness :
  exists finders, map p_label finders <> [] /\ join (bs ", ") (map p_label finders) = bs "Sam" /\
    (sam ∈ finders <-> row_to_item (Radarr, 70%Z) shared_row ∈ @friend_feed key_order (p_scope sam) (peer_limits sam) serve_db).
Proof.
  destruct (@visible_to_exact key_order serve_db (Radarr, 70%Z) shared_row [sam; kim] key_order_laws eq_refl (fun _ => @ex_intro _ _ shared_hex eq_refl))
    as (finders & _ & Hf & Hv).
  assert (visible_to (row_to_item (Radarr, 70%Z) shared_row) [sam; kim] (audience_in (db_audience serve_db) (Radarr, 70%Z)) = bs "Sam") as E by (vm_compute; reflexivity).
  rewrite E in Hv. exists finders. destruct finders as [|p finders]; [vm_compute in Hv; discriminate Hv|].
  split; [discriminate|]. split; [symmetry; exact Hv|]. apply Hf, list_elem_of_here.
Defined.

Section BulkWitness.
Local Existing Instances text_urls prefix_digests plain_unicode sample_files film_client one_friend bare_listing film_probe
  film_stamps film_errors key_order plain_feed_text.

Definition plain_store_text : StoreText := fun _ => bs "failed".
Local Existing Instance plain_store_text.

Lemma bulk_unshare_complete_witness :
  let s := mkSite text_urls (fresh_world ∅) false in
  let rows := [bs "radarr:70"; bs "nonsense"] in
  let reached := (bulk (Ok tt) (Ok (film_syncer (Ok (mkScan [] true ∅)))) 500 (bs "unshare") rows (mkFilters [] [] [] [] [] []) s).2 in
  map item_key (checked_items rows (w_db (si_world s))) = [(Radarr, 70%Z)] /\
  unshared_rows 500 (filter (fun item => it_state item <> Unshared) (checked_items rows (w_db (si_world s)))) (w_db (si_world s)) (w_db (si_world reached)) /\
  w_calls (si_world reached) = map AskRemove (omap own_torrent (filter (fun item => it_state item <> Unshared) (checked_items rows (w_db (si_world s))))).
Proof.
  intros s rows reached. split; [vm_compute; reflexivity|].
  pose proof (bulk_unshare_complete 500 (film_syncer (Ok (mkScan [] true ∅))) rows (mkFilters [] [] [] [] [] []) s
    ltac:(reflexivity) ltac:(discriminate) ltac:(apply Nat.leb_le; vm_compute; reflexivity)) as H.
  subst reached. destruct (bulk _ _ _ _ _ _ s) as [answer s']. destruct H as (Hrows & Hcalls & _). split; [exact Hrows|exact Hcalls].
Defined.

End BulkWitness.
