(* ===== verification/Probe.v ===== *)
(** * The media probe (crates/sharerr-probe/src/lib.rs)

    What a file is said to be, from the tracks its container lists.  The readers of the
    containers are parameters: what the matroska, mp4 and symphonia crates find. *)

From S2P Require Import Prelude RustStd Text Model Paths FileTree Endpoint TrackerUrl Metainfo Factory Title Net Effects Accounts Database Items Peers History Client Library Seeder Sync.

(** ** What the readers find *)

(** A Matroska track: its type with the settings that go with it, the codec and the language. *)
Inductive MkvSettings : Type := MkvVideo (width height : N) | MkvAudio (channels : N) | MkvNone.
Inductive MkvType : Type := MkvTypeVideo | MkvTypeAudio | MkvTypeSubtitle | MkvTypeOther.
Record MkvTrack : Type := mkMkvTrack { mt_type : MkvType; mt_settings : MkvSettings; mt_codec_id : bytes; mt_language : option bytes }.
Record MkvFile : Type := mkMkvFile { mf_duration_secs : option N; mf_tracks : list MkvTrack }.

(** An ISO track: its type if it has one, and what it says. *)
Inductive Mp4Type : Type := Mp4Video | Mp4Audio | Mp4Other.
Record Mp4Track : Type := mkMp4Track {
  pt_type : Mp4Type;
  pt_width : N;
  pt_height : N;
  pt_media_type : option bytes;
  pt_channels : option N;
  pt_language : bytes
}.
Record Mp4File : Type := mkMp4File { pf_duration_secs : N; pf_tracks : list (N * Mp4Track) }.

(** The codecs symphonia is built for, and an audio track with its length in seconds when its
    time base and its number of frames give one. *)
Inductive AudioCodec : Type := CodecFlac | CodecMp3 | CodecOpus | CodecOther.
Record AudioTrack : Type := mkAudioTrack {
  au_codec : AudioCodec;
  au_channels : option N;
  au_sample_rate : option N;
  au_bits_per_sample : option N;
  au_duration_secs : option N
}.

Class Containers : Type := {
  open_matroska : bytes -> option MkvFile;
  read_mp4 : bytes -> option Mp4File;
  (** The first audio track, inside whether the format was read at all. *)
  read_audio : bytes -> bytes -> option (option AudioTrack)
}.

(** ** Names *)

Definition codec_name (codec_id : bytes) : option bytes :=
  let rest := match split_once (fun b => bool_decide (b = "_"%byte)) codec_id with Some (_, rest) => rest | None => codec_id end in
  name ← last (split_byte "/"%byte rest);
  if is_nonempty (trim name) then Some (trim name) else None.

Definition channel_layout (channels : N) : bytes :=
  match channels with
  | 0%N => bs "0.0"
  | 1%N | 2%N => u_to_string channels ++ bs ".0"
  | n => u_to_string (n - 1) ++ bs ".1"
  end.

Definition format_runtime (total : N) : bytes := u_to_string (total / 3600) ++ bs ":" ++ pad2 (total mod 3600 / 60) ++ bs ":" ++ pad2 (total mod 60).

(** In first-seen order, each once. *)
Definition first_seen (languages : list bytes) : list bytes :=
  fold_left (fun seen l => if bool_decide (l ∈ seen) then seen else seen ++ [l]) languages [].

Definition join_languages (languages : list bytes) : option bytes :=
  let seen := first_seen languages in if is_nonempty seen then Some (join (bs "/") seen) else None.

Definition audio_codec_name (codec : AudioCodec) : option bytes :=
  match codec with CodecFlac => Some (bs "FLAC") | CodecMp3 => Some (bs "MP3") | CodecOpus => Some (bs "Opus") | CodecOther => None end.

(** ** The backends *)

Definition size_text (width height : N) : bytes := u_to_string width ++ bs "x" ++ u_to_string height.

(** What the tracks before said: the picture, the first sound, and the languages. *)
Record Described : Type := mkDescribed {
  de_resolution : option bytes;
  de_video_codec : option bytes;
  de_audio_codec : option bytes;
  de_audio_channels : option bytes;
  de_audio_languages : list bytes;
  de_subtitles : list bytes
}.

Definition nothing_described : Described := mkDescribed None None None None [] [].

Definition put_video (resolution codec : option bytes) (d : Described) : Described :=
  mkDescribed resolution codec (de_audio_codec d) (de_audio_channels d) (de_audio_languages d) (de_subtitles d).
Definition put_audio (codec channels : option bytes) (d : Described) : Described :=
  mkDescribed (de_resolution d) (de_video_codec d) codec channels (de_audio_languages d) (de_subtitles d).
Definition add_audio_language (l : list bytes) (d : Described) : Described :=
  mkDescribed (de_resolution d) (de_video_codec d) (de_audio_codec d) (de_audio_channels d) (de_audio_languages d ++ l) (de_subtitles d).
Definition add_subtitle (l : list bytes) (d : Described) : Described :=
  mkDescribed (de_resolution d) (de_video_codec d) (de_audio_codec d) (de_audio_channels d) (de_audio_languages d) (de_subtitles d ++ l).

Definition language_list (l : option bytes) : list bytes := match l with Some l => [l] | None => [] end.

(** One turn of the loop of [matroska_meta]. *)
Definition mkv_step (d : Described) (t : MkvTrack) : Described :=
  match mt_type t, mt_settings t with
  | MkvTypeVideo, MkvVideo width height =>
      match de_resolution d with
      | Some _ => d
      | None => put_video (if (0 <? width)%N && (0 <? height)%N then Some (size_text width height) else None) (codec_name (mt_codec_id t)) d
      end
  | MkvTypeAudio, MkvAudio channels =>
      let d := match de_audio_codec d with
               | Some _ => d
               | None => put_audio (codec_name (mt_codec_id t)) (if (0 <? channels)%N then Some (channel_layout channels) else de_audio_channels d) d
               end in
      add_audio_language (language_list (mt_language t)) d
  | MkvTypeSubtitle, _ => add_subtitle (language_list (mt_language t)) d
  | _, _ => d
  end.

Definition meta_of (runtime : option bytes) (d : Described) : MediaMeta :=
  mkMeta (de_resolution d) (de_video_codec d) None (de_audio_codec d) (de_audio_channels d) (join_languages (de_audio_languages d))
    (join_languages (de_subtitles d)) runtime None None.

(** One turn of the loop of [isobmff_meta]. *)
Definition mp4_step (d : Described) (t : Mp4Track) : Described :=
  match pt_type t with
  | Mp4Video =>
      match de_resolution d with
      | Some _ => d
      | None => put_video (if (0 <? pt_width t)%N && (0 <? pt_height t)%N then Some (size_text (pt_width t) (pt_height t)) else None) (pt_media_type t) d
      end
  | Mp4Audio =>
      let d := match de_audio_codec d with Some _ => d | None => put_audio (pt_media_type t) (channel_layout <$> pt_channels t) d end in
      if is_nonempty (pt_language t) && negb (bool_decide (pt_language t = bs "und")) then add_audio_language [pt_language t] d else d
  | Mp4Other => d
  end.

Section Probe.
Context `{CN : Containers}.

Definition matroska_meta (path : bytes) : option MediaMeta :=
  file ← open_matroska path;
  Some (meta_of (format_runtime <$> mf_duration_secs file) (fold_left mkv_step (mf_tracks file) nothing_described)).

(** [sort_by_key] of the track ids. *)
Definition by_track_id (a b : N * Mp4Track) : comparison := N.compare a.1 b.1.

Definition isobmff_meta (path : bytes) : option MediaMeta :=
  file ← read_mp4 path;
  Some (meta_of (Some (format_runtime (pf_duration_secs file))) (fold_left mp4_step (map snd (sort_by by_track_id (pf_tracks file))) nothing_described)).

Definition symphonia_meta (path extension : bytes) : option MediaMeta :=
  found ← read_audio path extension; audio ← found;
  Some (mkMeta None None None (audio_codec_name (au_codec audio)) (channel_layout <$> au_channels audio) None None
          (format_runtime <$> au_duration_secs audio) (u_to_string <$> au_sample_rate audio) (u_to_string <$> au_bits_per_sample audio)).

(** [probe]: an extension that is no text names no backend. *)
Definition probe_file (path : bytes) : option MediaMeta :=
  raw ← extension path;
  if utf8_valid raw then
    let extension := str_to_ascii_lowercase raw in
    meta ← (if bool_decide (extension ∈ [bs "mkv"; bs "webm"]) then matroska_meta path
            else if bool_decide (extension ∈ [bs "mp4"; bs "m4v"; bs "mov"]) then isobmff_meta path
            else if bool_decide (extension ∈ [bs "flac"; bs "mp3"; bs "opus"]) then symphonia_meta path extension
            else None);
    if meta_is_empty meta then None else Some meta
  else None.

(** The probe a pass uses. *)
Definition container_probe : MediaProbe := probe_file.

End Probe.

(** ** Facts *)

Lemma first_seen_go (languages : list bytes) : forall seen : list bytes, NoDup seen ->
  let out := fold_left (fun seen l => if bool_decide (l ∈ seen) then seen else seen ++ [l]) languages seen in
  NoDup out /\ (forall l, l ∈ out <-> l ∈ seen \/ l ∈ languages) /\ seen `prefix_of` out.
Proof.
  induction languages as [|x languages IH]; intros seen Hn; cbn; [split_and!; [done|set_solver|done]|]. case_bool_decide as Hx.
  - destruct (IH seen Hn) as (H1 & H2 & H3). split_and!; [done|set_solver|done].
  - destruct (IH (seen ++ [x])) as (H1 & H2 & H3); [apply NoDup_app; split_and!; [done|set_solver|apply NoDup_singleton]|].
    split_and!; [done|set_solver|]. etransitivity; [by eexists|done].
Qed.

(** Every language once, and no other. *)
Lemma first_seen_spec languages : NoDup (first_seen languages) /\ forall l, l ∈ first_seen languages <-> l ∈ languages.
Proof. destruct (first_seen_go languages [] (NoDup_nil_2)) as (H1 & H2 & _). split; [done|]. intros l. rewrite H2. set_solver. Qed.

(** The tracks whose size is not told leave the picture open; the first with a size says it. *)
Definition mkv_size (t : MkvTrack) : option bytes :=
  match mt_type t, mt_settings t with
  | MkvTypeVideo, MkvVideo width height => if (0 <? width)%N && (0 <? height)%N then Some (size_text width height) else None
  | _, _ => None
  end.

Lemma mkv_step_resolution d t : de_resolution (mkv_step d t) = match de_resolution d with Some r => Some r | None => mkv_size t end.
Proof.
  unfold mkv_step, mkv_size. destruct (mt_type t), (mt_settings t); cbn; destruct (de_resolution d) eqn:E; cbn; try done; by destruct (de_audio_codec d).
Qed.

(** What a Matroska file is said to be.  The picture is that of the first video track that
    tells a size, and the languages are those of the sound tracks, each once, however many
    tracks there are. *)
Theorem mkv_described `{CN : Containers} (path : bytes) (file : MkvFile) (meta : MediaMeta) :
  open_matroska path = Some file -> matroska_meta path = Some meta ->
  resolution meta = head (omap mkv_size (mf_tracks file)) /\
  exists spoken, audio_languages meta = (if is_nonempty spoken then Some (join (bs "/") spoken) else None) /\ NoDup spoken /\
    forall l, l ∈ spoken <-> exists t channels, t ∈ mf_tracks file /\ mt_type t = MkvTypeAudio /\ mt_settings t = MkvAudio channels /\ mt_language t = Some l.
Proof.
  intros Ho. unfold matroska_meta. rewrite Ho. cbn [mbind option_bind]. intros [= <-]. cbn [resolution audio_languages meta_of]. split.
  - assert (forall tracks d, de_resolution (fold_left mkv_step tracks d) = match de_resolution d with Some r => Some r | None => head (omap mkv_size tracks) end) as H.
    { induction tracks as [|t tracks IH]; intros d; cbn; [by destruct (de_resolution d)|]. rewrite IH, mkv_step_resolution.
      destruct (de_resolution d); [done|]. by destruct (mkv_size t). }
    by rewrite H.
  - assert (forall tracks d l, l ∈ de_audio_languages (fold_left mkv_step tracks d) <-> l ∈ de_audio_languages d \/
      exists t channels, t ∈ tracks /\ mt_type t = MkvTypeAudio /\ mt_settings t = MkvAudio channels /\ mt_language t = Some l) as H.
    { induction tracks as [|t tracks IH]; intros d l; cbn; [set_solver|]. rewrite IH.
      assert (l ∈ de_audio_languages (mkv_step d t) <-> l ∈ de_audio_languages d \/
        exists channels, mt_type t = MkvTypeAudio /\ mt_settings t = MkvAudio channels /\ mt_language t = Some l) as ->; [|set_solver].
      unfold mkv_step. destruct (mt_type t) eqn:Et, (mt_settings t) eqn:Es; cbn; try (by naive_solver); try (destruct (de_resolution d); naive_solver).
      destruct (de_audio_codec d); cbn; rewrite elem_of_app; destruct (mt_language t); cbn; set_solver. }
    exists (first_seen (de_audio_languages (fold_left mkv_step (mf_tracks file) nothing_described))).
    destruct (first_seen_spec (de_audio_languages (fold_left mkv_step (mf_tracks file) nothing_described))) as [Hn Hs].
    split; [done|]. split; [done|]. intros l. rewrite Hs, H. cbn. set_solver.
Qed.

(** *** Witnesses *)

Definition two_tongues : MkvFile :=
  mkMkvFile (Some 3725%N)
    [mkMkvTrack MkvTypeVideo (MkvVideo 0 0) (bs "V_MPEG4/ISO/AVC") None; mkMkvTrack MkvTypeVideo (MkvVideo 1920 1080) (bs "V_MPEGH/ISO/HEVC") None;
     mkMkvTrack MkvTypeAudio (MkvAudio 6) (bs "A_EAC3") (Some (bs "eng")); mkMkvTrack MkvTypeAudio (MkvAudio 2) (bs "A_AAC") (Some (bs "jpn"));
     mkMkvTrack MkvTypeAudio (MkvAudio 2) (bs "A_AAC") (Some (bs "eng"))].

Definition one_matroska : Containers := {| open_matroska := fun _ => Some two_tongues; read_mp4 := fun _ => None; read_audio := fun _ _ => None |}.

Lemma mkv_described_witness :
  exists meta, @matroska_meta one_matroska (bs "a.mkv") = Some meta /\ resolution meta = Some (bs "1920x1080") /\ audio_languages meta = Some (bs "eng/jpn") /\
    runtime meta = Some (bs "1:02:05") /\ audio_channels meta = Some (bs "5.1").
Proof.
  destruct (@matroska_meta one_matroska (bs "a.mkv")) as [meta|] eqn:E; [|vm_compute in E; discriminate E].
  destruct (@mkv_described one_matroska (bs "a.mkv") two_tongues meta eq_refl E) as [Hr _].
  exists meta. split; [reflexivity|]. split; [rewrite Hr; vm_compute; reflexivity|]. vm_compute in E. injection E as <-. split_and!; reflexivity.
Defined.
