(* ===== verification/Checks.v ===== *)
(** * The service checks (crates/sharerr/src/checks.rs, crates/sharerr/src/web/probe.rs)

    What [doctor] and the settings page's "Test connection" establish about each
    configured service: an *arr application and its tag, how discovered files resolve, the
    library directories, the address friends dial, and the torrent client, built here from
    its backend and credential.  The services themselves, the dialled socket and the chains
    of library errors are parameters. *)

From stdpp Require Import sorting.
From S2P Require Import Prelude RustStd Text Bencode Metainfo Model Paths Title FileTree Endpoint Effects Client TrackerUrl Announce Totp Accounts Database Items Peers History Sightings Library Vault Serve Gluetun Alerts XmlRpc Rtorrent Json Arr Qbit Transmission Deluge.

(** ** Configuration *)

Inductive TorrentBackend : Type := BQbittorrent | BTransmission | BRtorrent | BDeluge.

#[export] Instance TorrentBackend_eq_dec : EqDecision TorrentBackend.
Proof. solve_decision. Defined.

#[export] Instance TorrentBackend_names : StrEnum TorrentBackend := {|
  ALL := [BQbittorrent; BTransmission; BRtorrent; BDeluge];
  as_str_name := fun b =>
    match b with
    | BQbittorrent => bs "qbittorrent" | BTransmission => bs "transmission"
    | BRtorrent => bs "rtorrent" | BDeluge => bs "deluge"
    end
|}.

Record TorrentClientConfig `{U : UrlLib} : Type := mkClientConfig {
  tc_url : Url;
  tc_login : option bytes;
  tc_fallback_credential : option bytes;
  tc_primary_credential : option bytes;
  tc_category : bytes;
  tc_tag : bytes;
  tc_skip_checking : bool
}.

(** The sections of [Config] the checks read. *)
Record QbitConfig `{U : UrlLib} : Type := mkQbitConfig { qbc_url : Url; qbc_category : bytes; qbc_tag : bytes; qbc_skip_checking : bool }.
Record LabelledConfig `{U : UrlLib} : Type := mkLabelled { lb_url : Url; lb_login : bytes; lb_label : bytes }.
Record DelugeConfig `{U : UrlLib} : Type := mkDelugeConfig { dc_url : Url; dc_label : bytes }.

Record CheckedConfig `{U : UrlLib} : Type := mkChecked {
  ck_tag : bytes;
  ck_sonarr : option Url;
  ck_radarr : option Url;
  ck_lidarr : option Url;
  ck_readarr : option Url;
  ck_whisparr : option Url;
  ck_torrent_backend : TorrentBackend;
  ck_qbittorrent : QbitConfig;
  ck_transmission : LabelledConfig;
  ck_rtorrent : LabelledConfig;
  ck_deluge : DelugeConfig;
  ck_path_map : list PathMapping;
  ck_library : list LibraryConfig
}.

(** [Config::service], of which the checks read the URL. *)
Definition service `{U : UrlLib} (config : CheckedConfig) (source : MediaSource) : option Url :=
  match source with
  | Sonarr => ck_sonarr config
  | Radarr => ck_radarr config
  | Lidarr => ck_lidarr config
  | Readarr => ck_readarr config
  | Whisparr => ck_whisparr config
  | Directory => None
  end.

Definition configured_sources `{U : UrlLib} (config : CheckedConfig) : list MediaSource :=
  filter (fun source => is_Some (service config source)) ARRS.

(** [secret_keys::credential_for]. *)
Definition credential_for (source : MediaSource) : option bytes :=
  match source with
  | Sonarr => Some (bs "sonarr.api_key")
  | Radarr => Some (bs "radarr.api_key")
  | Lidarr => Some (bs "lidarr.api_key")
  | Readarr => Some (bs "readarr.api_key")
  | Whisparr => Some (bs "whisparr.api_key")
  | Directory => None
  end.

(** [Config::torrent_client_for]. *)
Definition torrent_client_for `{U : UrlLib} (config : CheckedConfig) (backend : TorrentBackend) : TorrentClientConfig :=
  match backend with
  | BQbittorrent =>
      let q := ck_qbittorrent config in
      mkClientConfig U (qbc_url q) None None (Some (bs "qbittorrent.api_key")) (qbc_category q) (qbc_tag q) (qbc_skip_checking q)
  | BTransmission =>
      let t := ck_transmission config in
      mkClientConfig U (lb_url t) (Some (lb_login t)) (Some (bs "transmission.password")) None (lb_label t) (lb_label t) false
  | BRtorrent =>
      let r := ck_rtorrent config in
      mkClientConfig U (lb_url r) (Some (lb_login r)) (Some (bs "rtorrent.password")) None (lb_label r) (lb_label r) false
  | BDeluge =>
      let d := ck_deluge config in
      mkClientConfig U (dc_url d) None (Some (bs "deluge.password")) None (dc_label d) (dc_label d) false
  end.

Definition torrent_client `{U : UrlLib} (config : CheckedConfig) : TorrentClientConfig := torrent_client_for config (ck_torrent_backend config).

Definition credential_name `{U : UrlLib} (client : TorrentClientConfig) : option bytes :=
  match tc_fallback_credential client with Some key => Some key | None => tc_primary_credential client end.

(** ** Resolving paths *)

Record PathReport : Type := mkPathReport {
  pr_rules : nat;
  pr_checked : nat;
  pr_unmapped : nat;
  pr_missing : list bytes;
  pr_invalid : list bytes;
  pr_sample : option ResolvedPaths
}.

Definition no_paths : PathReport := mkPathReport 0 0 0 [] [] None.

Definition is_failure (r : PathReport) : bool := is_nonempty (pr_missing r) || is_nonempty (pr_invalid r).

(** [PathReport::readable]; subtraction on [nat] saturates. *)
Definition readable (r : PathReport) : nat := pr_checked r - length (pr_missing r) - length (pr_invalid r).

Section Paths.
Context (path_exists : bytes -> bool) (path_chain : PathError -> bytes).

Definition note_path (maps : list PathMapping) (report : PathReport) (item : MediaSource * bytes) : PathReport :=
  let '(source, arr_path) := item in
  let checked := S (pr_checked report) in
  match resolve_for maps source arr_path with
  | Ok paths =>
      mkPathReport (pr_rules report) checked
        (if negb (rp_mapping_applied paths) && negb (bool_decide (source = Directory)) then S (pr_unmapped report) else pr_unmapped report)
        (if path_exists (rp_sharerr paths) then pr_missing report else pr_missing report ++ [rp_sharerr paths])
        (pr_invalid report)
        (match pr_sample report with None => Some paths | sample => sample end)
  | Err err => mkPathReport (pr_rules report) checked (pr_unmapped report) (pr_missing report) (pr_invalid report ++ [path_chain err]) (pr_sample report)
  end.

Definition check_paths_of (rules : nat) (maps : list PathMapping) (items : list (MediaSource * bytes)) : PathReport :=
  fold_left (note_path maps) items (mkPathReport rules 0 0 [] [] None).

Definition check_paths `{U : UrlLib} (config : CheckedConfig) (discovered : list Discovered) : PathReport :=
  check_paths_of (length (ck_path_map config)) (ck_path_map config) (map (fun item => (d_source item, d_arr_path item)) discovered).

End Paths.

(** ** An application and its tag *)

Inductive ArrOutcome : Type :=
| AoNotConfigured
| AoNoCredential
| AoCredentialUnreadable (reason : bytes)
| AoBadUrl (reason : bytes)
| AoUnreachable (reason : bytes)
| AoAuthRejected
| AoFailed (reason : bytes)
| AoTagMissing (version : bytes)
| AoTagUnused (version : bytes)
| AoReady (version app_name : bytes) (items : list Discovered).

(** [ArrOutcome::items]. *)
Definition arr_items (o : ArrOutcome) : list Discovered := match o with AoReady _ _ items => items | _ => [] end.

Section Arrs.
Context `{U : UrlLib} `{UP : !UrlParts U} `{AA : !ArrApp U} `{JT : JsonText} `{FT : FloatText} `{UH : !UrlHost U}.
Context (arr_chain : ArrError -> bytes).

(** [check_arr]; [http] says whether the HTTP client was built. *)
Definition check_arr (http : result unit bytes) (kind : MediaSource) (url : option Url) (api_key : result (option bytes) bytes) (tag : bytes) : ArrOutcome :=
  match url with
  | None => AoNotConfigured
  | Some url =>
      match api_key with
      | Ok None => AoNoCredential
      | Err reason => AoCredentialUnreadable reason
      | Ok (Some api_key) =>
          match arr_new http kind url api_key with
          | Err err => AoBadUrl (arr_chain err)
          | Ok client =>
              match system_status client with
              | Err err =>
                  if arr_is_auth_failure err then AoAuthRejected
                  else if arr_is_unreachable err then AoUnreachable (arr_chain err)
                  else AoFailed (arr_chain err)
              | Ok status =>
                  let version := ss_version status in
                  let app_name := if is_nonempty (ss_app_name status) then ss_app_name status else as_str_name kind in
                  match tag_id client tag with
                  | Err _ => AoTagMissing version
                  | Ok tag_id =>
                      match discover_with_tag_id client tag_id with
                      | Ok [] => AoTagUnused version
                      | Ok items => AoReady version app_name items
                      | Err err => AoFailed (arr_chain err)
                      end
                  end
              end
          end
      end
  end.

End Arrs.

(** ** Library directories *)

Inductive DirOutcome : Type :=
| DoMissing
| DoNotADirectory
| DoUnreadable (reason : bytes)
| DoEmpty
| DoReady (skipped : nat) (items : list Discovered).

(** [DirOutcome::items]. *)
Definition dir_items (o : DirOutcome) : list Discovered := match o with DoReady _ items => items | _ => [] end.

Inductive LibraryScan : Type :=
| Scanned (outcomes : list (LibraryConfig * DirOutcome))
| Panicked (message : bytes).

Section Libraries.
Context `{D : Digests} `{LF : LibraryFs}.

Definition check_library (library : LibraryConfig) : DirOutcome :=
  match scan library with
  | Ok outcome =>
      if negb (is_nonempty (so_items outcome)) && (so_skipped outcome =? 0) then DoEmpty
      else DoReady (so_skipped outcome) (so_items outcome)
  | Err (RootMissing _) => DoMissing
  | Err (RootNotADirectory _) => DoNotADirectory
  | Err (RootEmpty _) => DoEmpty
  | Err (RootNotAbsolute p) => DoUnreadable (bs "library " ++ to_string_lossy p ++ bs " is not an absolute path")
  | Err (Library.Unreadable _ source) => DoUnreadable source
  end.

(** [scan_libraries]; [panicked] is the message of a blocking task that did not finish. *)
Definition scan_libraries (panicked : option bytes) (libraries : list LibraryConfig) : result (list (LibraryConfig * DirOutcome)) bytes :=
  match panicked with
  | Some message => Err message
  | None => Ok (map (fun library => (library, check_library library)) libraries)
  end.

End Libraries.

(** ** Everything at once *)

Record Snapshot : Type := mkSnapshot {
  sn_sources : list (MediaSource * ArrOutcome);
  sn_libraries : LibraryScan;
  sn_paths : PathReport
}.

Section Everything.
Context `{U : UrlLib} `{UP : !UrlParts U} `{AA : !ArrApp U} `{JT : JsonText} `{FT : FloatText} `{UH : !UrlHost U} `{D : Digests} `{LF : LibraryFs}.
Context (arr_chain : ArrError -> bytes) (path_exists : bytes -> bool) (path_chain : PathError -> bytes).

(** What a snapshot found, from every application and every library. *)
Definition discovered_of (sources : list (MediaSource * ArrOutcome)) (libraries : LibraryScan) : list Discovered :=
  concat (map (fun s => arr_items s.2) sources) ++
  match libraries with Scanned scanned => concat (map (fun l => dir_items l.2) scanned) | Panicked _ => [] end.

(** [snapshot]; [scan_panic] and [walk_panic] are the two blocking tasks that may not finish. *)
Definition snapshot (http : result unit bytes) (scan_panic : option bytes) (walk_panic : bool) (config : CheckedConfig)
    (secret : bytes -> result (option bytes) bytes) : Snapshot :=
  let keyed := omap (fun kind => pair kind <$> credential_for kind) (configured_sources config) in
  let sources := map (fun '(kind, key) => (kind, check_arr arr_chain http kind (service config kind) (secret key) (ck_tag config))) keyed in
  let libraries := match scan_libraries scan_panic (ck_library config) with Ok scanned => Scanned scanned | Err message => Panicked message end in
  let discovered := map (fun item => (d_source item, d_arr_path item)) (discovered_of sources libraries) in
  let paths := if walk_panic then no_paths
               else check_paths_of path_exists path_chain (length (ck_path_map config)) (ck_path_map config) discovered in
  mkSnapshot sources libraries paths.

End Everything.

(** ** The address friends dial *)

(** [Url::port_or_known_default]. *)
Class UrlDial (U : UrlLib) : Type := url_port_or_known_default : Url -> option N.

(** [trim_matches(['[', ']'])]. *)
Definition is_bracket (c : char) : bool := bool_decide (c = bs "[") || bool_decide (c = bs "]").

Inductive Dialled : Type := DialOpened | DialFailed (reason : bytes) | DialTimedOut.

Section Reach.
Context `{U : UrlLib} `{UH : !UrlHost U} `{UD : !UrlDial U}.

Definition dial_target (base : Url) : result bytes bytes :=
  let? host := ok_or (url_host_str base) (url_as_str base ++ bs " has no host") in
  let? port := ok_or (url_port_or_known_default base) (url_as_str base ++ bs " has no port") in
  Ok (trim_matches is_bracket host ++ bs ":" ++ u_to_string port).

(** [check_reachable], for what connecting to a target gives within [REACH_TIMEOUT]. *)
Definition check_reachable (connect : bytes -> Dialled) (base : option Url) : ReachOutcome :=
  match base with
  | None => NotConfigured
  | Some base =>
      match dial_target base with
      | Err reason => Unusable reason
      | Ok target =>
          match connect target with
          | DialOpened => Reachable
          | DialFailed reason => Refused reason
          | DialTimedOut => TimedOut
          end
      end
  end.

End Reach.

(** ** The torrent client *)

Inductive TorrentCredential : Type := Password (secret : bytes) | ApiKey (secret : bytes).

(** [TorrentCredential::choose]. *)
Definition choose (api_key password : option bytes) : option TorrentCredential :=
  match api_key with Some key => Some (ApiKey key) | None => Password <$> password end.

(** [TorrentCredential::noun]. *)
Definition noun (c : TorrentCredential) : bytes := match c with Password _ => bs "username or password" | ApiKey _ => bs "API key" end.

Definition resolve_torrent_credential `{U : UrlLib} (client : TorrentClientConfig) (secret : bytes -> result (option bytes) bytes)
    : result (option TorrentCredential) bytes :=
  let? api_key := match tc_primary_credential client with Some key => secret key | None => Ok None end in
  let? password := match tc_fallback_credential client with Some key => secret key | None => Ok None end in
  Ok (choose api_key password).

(** What the clients other than qBittorrent answer at an endpoint: to the account sent
    with a request, or, for Deluge, to whatever session the request carries. *)
Class TorrentHosts : Type := {
  transmission_at : bytes -> bytes -> bytes -> list TRequest -> TRequest -> result (N * option bytes * result bytes bytes) bytes;
  rtorrent_at : bytes -> bytes -> bytes -> list bytes -> bytes -> result (N * result bytes bytes) bytes;
  deluge_at : bytes -> list DRequest -> DRequest -> result (N * list bytes * result bytes bytes) bytes
}.

(** [Arc<dyn TorrentClient>]: the client built, with the session it holds. *)
Inductive BuiltClient `{U : UrlLib} : Type :=
| BuiltQbit (client : QbitClient) (sent : list QRequest)
| BuiltTransmission (endpoint : Url) (username password : bytes) (session : Session)
| BuiltRtorrent (endpoint : Url) (username password : bytes) (posted : list RpcRequest)
| BuiltDeluge (endpoint : Url) (password : bytes) (session : DSession).

(** [TorrentClient::kind]. *)
Definition built_kind `{U : UrlLib} (c : BuiltClient) : ClientKind :=
  match c with
  | BuiltQbit _ _ => QBittorrent
  | BuiltTransmission _ _ _ _ => Client.Transmission
  | BuiltRtorrent _ _ _ _ => Client.Rtorrent
  | BuiltDeluge _ _ _ => Client.Deluge
  end.

Inductive QbitOutcome `{U : UrlLib} : Type :=
| QoNoCredential
| QoCredentialUnreadable (reason : bytes)
| QoBadUrl (reason : bytes)
| QoUnreachable (reason : bytes)
| QoAuthRejected
| QoFailed (reason : bytes)
| QoReady (version : bytes) (kind : ClientKind) (client : BuiltClient).

Section Torrents.
Context `{U : UrlLib} `{UP : !UrlParts U} `{QS : QbitServer} `{QT : !QbitText U} `{TH : TorrentHosts}.
Context `{JT : JsonText} `{DT : DecodeText} `{XW : XmlWriter} `{XR : XmlRefs} `{RT : RpcText}.
Context (qbit_chain : QbitError -> bytes).

(** [sharerr_client::rpc_endpoint]. *)
Definition rpc_endpoint_of (base : Url) (path : bytes) : result Url ClientError :=
  let base := normalise_base base in
  rmap_err (fun e => ClientConfig (url_as_str base ++ bs " is not a usable base URL: " ++ e)) (url_join base path).

(** [http_client], for whether the HTTP client was built. *)
Definition http_client (http : result unit bytes) : result unit ClientError :=
  rmap_err (fun e => ClientConfig (bs "building the HTTP client: " ++ e)) http.

(** The constructors. *)
Definition transmission_new (http : result unit bytes) (base : Url) (username password : bytes) : result BuiltClient ClientError :=
  let? endpoint := rpc_endpoint_of base (bs "transmission/rpc") in
  let? _ := http_client http in
  Ok (BuiltTransmission endpoint username password fresh_session).

Definition rtorrent_new (http : result unit bytes) (endpoint : Url) (username password : bytes) : result BuiltClient ClientError :=
  let? _ := http_client http in
  Ok (BuiltRtorrent endpoint username password []).

Definition deluge_new (http : result unit bytes) (base : Url) (password : bytes) : result BuiltClient ClientError :=
  let? _ := http_client http in
  let? endpoint := rpc_endpoint_of base (bs "json") in
  Ok (BuiltDeluge endpoint password no_session).

Definition build_torrent_client (http : result unit bytes) (backend : TorrentBackend) (url : Url) (username : option bytes)
    (credential : TorrentCredential) : result BuiltClient bytes :=
  match backend, credential with
  | BQbittorrent, Password _ => Err (bs "qBittorrent no longer authenticates with a username and password — set an API key instead (Options -> Web UI -> API key, qBittorrent 5.2+).")
  | BQbittorrent, ApiKey key => let? client := rmap_err qbit_chain (with_api_key http url key) in Ok (BuiltQbit client [])
  | BTransmission, Password password => rmap_err client_error_text (transmission_new http url (default [] username) password)
  | BTransmission, ApiKey _ => Err (bs "Transmission has no API key — its RPC authenticates with a username and password. Clear transmission's API key, or select qBittorrent.")
  | BRtorrent, Password password => rmap_err client_error_text (rtorrent_new http url (default [] username) password)
  | BRtorrent, ApiKey _ => Err (bs "rTorrent has no API key — this authenticates with a username and password sent as HTTP Basic Auth. Clear rtorrent's API key, or select qBittorrent.")
  | BDeluge, Password password => rmap_err client_error_text (deluge_new http url password)
  | BDeluge, ApiKey _ => Err (bs "Deluge has no API key — its web UI authenticates with a password. Clear deluge's API key, or select qBittorrent.")
  end.

(** A built client's server, at its endpoint and for its account. *)
Definition transmission_server (endpoint : Url) (username password : bytes) : TransmissionServer :=
  {| tr_endpoint := url_as_str endpoint; tr_reply := transmission_at (url_as_str endpoint) username password |}.
Definition rtorrent_server (endpoint : Url) (username password : bytes) : RtorrentServer :=
  {| rpc_endpoint := url_as_str endpoint; rpc_reply := rtorrent_at (url_as_str endpoint) username password |}.
Definition deluge_server (endpoint : Url) (password : bytes) : DelugeServer :=
  {| dl_endpoint := url_as_str endpoint; dl_password := password; dl_reply := deluge_at (url_as_str endpoint) |}.

(** [TorrentClient::version] of each client. *)
Definition built_version (c : BuiltClient) : result bytes ClientError * BuiltClient :=
  match c with
  | BuiltQbit client sent => let '(r, sent) := Qbit.lift client (qb_version client) sent in (r, BuiltQbit client sent)
  | BuiltTransmission endpoint username password session =>
      let '(r, session) := tr_version (TS := transmission_server endpoint username password) status_text session in
      (r, BuiltTransmission endpoint username password session)
  | BuiltRtorrent endpoint username password posted =>
      let '(r, posted) := rt_version (RS := rtorrent_server endpoint username password) posted in
      (r, BuiltRtorrent endpoint username password posted)
  | BuiltDeluge endpoint password session =>
      let '(r, session) := dl_version (DS := deluge_server endpoint password) status_text session in
      (r, BuiltDeluge endpoint password session)
  end.

(** [TorrentClient::login]: qBittorrent's does nothing, Deluge's signs in, the others ask
    their version. *)
Definition built_login (c : BuiltClient) : result unit ClientError * BuiltClient :=
  match c with
  | BuiltQbit _ _ => (Ok tt, c)
  | BuiltDeluge endpoint password session =>
      let '(r, session) := Deluge.connect (DS := deluge_server endpoint password) status_text session in
      (r, BuiltDeluge endpoint password session)
  | _ => let '(r, c) := built_version c in (let? _ := r in Ok tt, c)
  end.

Definition client_is_auth_failure (e : ClientError) : bool := match e with AuthRejected _ => true | _ => false end.
Definition client_is_unreachable (e : ClientError) : bool := match e with Client.Unreachable _ _ _ => true | _ => false end.

Definition check_qbit (http : result unit bytes) (backend : TorrentBackend) (url : Url) (username : option bytes)
    (credential : result (option TorrentCredential) bytes) : QbitOutcome :=
  match credential with
  | Ok None => QoNoCredential
  | Err reason => QoCredentialUnreadable reason
  | Ok (Some credential) =>
      match build_torrent_client http backend url username credential with
      | Err reason => QoBadUrl reason
      | Ok client =>
          let '(login, client) := built_login client in
          match login with
          | Err err =>
              if client_is_auth_failure err then QoAuthRejected
              else if client_is_unreachable err then QoUnreachable (client_error_text err)
              else QoFailed (client_error_text err)
          | Ok _ =>
              let '(version, client) := built_version client in
              match version with
              | Ok version => QoReady version (built_kind client) client
              | Err err => QoFailed (client_error_text err)
              end
          end
      end
  end.

End Torrents.

(** ** The security floor *)

Definition QBIT_SECURITY_FLOOR : N * N * N := (5, 2, 1)%N.

(** [<] on [[u32; 3]]. *)
Definition parts_lt (a b : N * N * N) : bool :=
  let '(a1, a2, a3) := a in
  let '(b1, b2, b3) := b in
  (a1 <? b1)%N || ((a1 =? b1)%N && ((a2 <? b2)%N || ((a2 =? b2)%N && (a3 <? b3)%N))).

Definition is_v (c : char) : bool := bool_decide (c = bs "v") || bool_decide (c = bs "V").
Definition is_dot (c : char) : bool := bool_decide (c = bs ".").

Definition not_a_digit (c : char) : bool := negb (char_is_byte is_ascii_digit c).

(** A field up to its first character that is not a digit. *)
Definition leading_number (field : bytes) : option N := head (str_split not_a_digit field) ≫= parse_u u32_max.

(** The loop over the three parts; [None] is its early return. *)
Fixpoint version_parts (parts : nat) (fields : list bytes) : option (list N) :=
  match parts, fields with
  | S parts, field :: fields =>
      n ← leading_number field; rest ← version_parts parts fields; Some (n :: rest)
  | _, _ => Some []
  end.

Definition qbit_below_security_floor (version : bytes) : bool :=
  match version_parts 3 (str_split is_dot (concat (drop_while is_v (chars (trim version))))) with
  | Some parts => parts_lt (nth 0 parts 0, nth 1 parts 0, nth 2 parts 0)%N QBIT_SECURITY_FLOOR
  | None => false
  end.

(** ** The badges (web/probe.rs) *)

Inductive Badge : Type := Good (message : bytes) | Bad (message : bytes).

Section Badges.
Context (debug_str : bytes -> bytes).

(** How [arr_badge] words an outcome, for the configured tag. *)
Definition arr_badge_text (tag : bytes) (o : ArrOutcome) : Badge :=
  match o with
  | AoNotConfigured => Bad (bs "No URL configured. Save one first.")
  | AoNoCredential => Bad (bs "No API key stored. Save one first.")
  | AoCredentialUnreadable reason | AoBadUrl reason | AoFailed reason => Bad reason
  | AoUnreachable reason => Bad (bs "Could not reach it: " ++ reason)
  | AoAuthRejected => Bad (bs "Reached it, but the API key was rejected.")
  | AoTagMissing version =>
      Bad (bs "Connected to " ++ version ++ bs ", but no tag named " ++ debug_str tag ++
           bs " exists there yet — create it and tag something, or nothing will ever be shared.")
  | AoTagUnused version => Good (bs "Connected to " ++ version ++ bs "; the tag exists but nothing carries it yet.")
  | AoReady version _ items => Good (bs "Connected to " ++ version ++ bs "; " ++ u_to_string (N.of_nat (length items)) ++ bs " file(s) tagged " ++ debug_str tag ++ bs ".")
  end.

(** The loop of [library_badge] over folders, files and skipped names. *)
Fixpoint count_libraries (outcomes : list (LibraryConfig * DirOutcome)) (folders files skipped : nat) : result (nat * nat * nat) bytes :=
  match outcomes with
  | [] => Ok (folders, files, skipped)
  | (library, outcome) :: outcomes =>
      let path := to_string_lossy (lc_path library) in
      match outcome with
      | DoMissing => Err (path ++ bs " does not exist as sharerr sees it — check the mount.")
      | DoNotADirectory => Err (path ++ bs " is not a directory.")
      | DoUnreadable reason => Err (bs "Could not scan " ++ path ++ bs ": " ++ reason)
      | DoEmpty => count_libraries outcomes (S folders) files skipped
      | DoReady s items => count_libraries outcomes (S folders) (files + length items) (skipped + s)
      end
  end.

Definition library_badge (libraries : list LibraryConfig) (scanned : result (list (LibraryConfig * DirOutcome)) bytes) : Badge :=
  if negb (is_nonempty libraries) then Bad (bs "No library directories configured. Save one first.")
  else match scanned with
       | Err err => Bad (bs "The scan did not complete: " ++ err)
       | Ok outcomes =>
           match count_libraries outcomes 0 0 0 with
           | Err message => Bad message
           | Ok (folders, files, skipped) =>
               Good (u_to_string (N.of_nat folders) ++ bs " folder(s), " ++ u_to_string (N.of_nat files) ++ bs " media file(s) found." ++
                     (if 0 <? skipped then bs " " ++ u_to_string (N.of_nat skipped) ++ bs " file(s) skipped — their names could not be classified." else []))
           end
       end.

(** How [torrent_client_badge] words an outcome. *)
Definition client_badge_text `{U : UrlLib} (o : QbitOutcome) : Badge :=
  match o with
  | QoNoCredential => Bad (bs "No password stored. Save one first.")
  | QoCredentialUnreadable reason | QoBadUrl reason => Bad reason
  | QoUnreachable reason => Bad (bs "Could not reach it: " ++ reason)
  | QoAuthRejected => Bad (bs "Reached it, but the credential was rejected.")
  | QoFailed reason => Bad (bs "Signed in, but: " ++ reason)
  | QoReady version kind _ => Good (bs "Signed in to " ++ kind_as_str kind ++ bs " " ++ version ++ bs ".")
  end.

End Badges.

Section TestButton.
Context `{U : UrlLib} `{UP : !UrlParts U} `{AA : !ArrApp U} `{JT : JsonText} `{FT : FloatText} `{UH : !UrlHost U} `{D : Digests} `{LF : LibraryFs}.
Context `{QS : QbitServer} `{QT : !QbitText U} `{TH : TorrentHosts} `{DT : DecodeText} `{XW : XmlWriter} `{XR : XmlRefs} `{RT : RpcText}.
Context (debug_str : bytes -> bytes) (arr_chain : ArrError -> bytes) (qbit_chain : QbitError -> bytes).

Definition arr_badge (http : result unit bytes) (config : CheckedConfig) (secret : bytes -> result (option bytes) bytes) (kind : MediaSource) : Badge :=
  match credential_for kind with
  | None => Bad (bs "Unknown service.")
  | Some key => arr_badge_text debug_str (ck_tag config) (check_arr arr_chain http kind (service config kind) (secret key) (ck_tag config))
  end.

Definition torrent_client_badge (http : result unit bytes) (config : CheckedConfig) (secret : bytes -> result (option bytes) bytes) (backend : TorrentBackend) : Badge :=
  let client := torrent_client_for config backend in
  client_badge_text (check_qbit qbit_chain http backend (tc_url client) (tc_login client) (resolve_torrent_credential client secret)).

(** [test], with the service's name from the path, what the vault answers and what
    [notify::send_test] gave. *)
Definition test_service (http : result unit bytes) (scan_panic : option bytes) (config : CheckedConfig) (secret : bytes -> result (option bytes) bytes)
    (notified : result bytes bytes) (name : bytes) : Badge :=
  match parse_enum (A := TorrentBackend) name with
  | Some backend => torrent_client_badge http config secret backend
  | None =>
      if bool_decide (name = bs "library") then library_badge (ck_library config) (scan_libraries scan_panic (ck_library config))
      else if bool_decide (name = bs "notifications") then match notified with Ok message => Good message | Err message => Bad message end
      else match parse_enum (A := MediaSource) name with
           | Some kind => arr_badge http config secret kind
           | None => Bad (bs "Unknown service.")
           end
  end.

End TestButton.

(** ** Facts *)

Section PathFacts.
Context (path_exists : bytes -> bool) (path_chain : PathError -> bytes).

(** Where sharerr itself would open an item: what a pass needs to exist. *)
Definition opens (maps : list PathMapping) (item : MediaSource * bytes) : bool :=
  match resolve_for maps item.1 item.2 with Ok paths => path_exists (rp_sharerr paths) | Err _ => false end.

(** The path of an item that is not there, and the complaint about one that has none. *)
Definition not_there (maps : list PathMapping) (item : MediaSource * bytes) : option bytes :=
  match resolve_for maps item.1 item.2 with Ok paths => if path_exists (rp_sharerr paths) then None else Some (rp_sharerr paths) | Err _ => None end.

Definition complaint (maps : list PathMapping) (item : MediaSource * bytes) : option bytes :=
  match resolve_for maps item.1 item.2 with Ok _ => None | Err err => Some (path_chain err) end.

Lemma note_paths maps items report :
  let report' := fold_left (note_path path_exists path_chain maps) items report in
  pr_rules report' = pr_rules report /\ pr_checked report' = pr_checked report + length items /\
  pr_missing report' = pr_missing report ++ omap (not_there maps) items /\ pr_invalid report' = pr_invalid report ++ omap (complaint maps) items.
Proof.
  revert report. induction items as [|[source path] items IH]; intros report; cbn [fold_left omap list_omap length].
  - rewrite !app_nil_r, Nat.add_0_r. done.
  - destruct (IH (note_path path_exists path_chain maps report (source, path))) as (-> & -> & -> & ->).
    unfold note_path, not_there, complaint. cbn [fst snd]. destruct (resolve_for maps source path) as [paths|err]; [destruct (path_exists (rp_sharerr paths))|];
      cbn [pr_rules pr_checked pr_missing pr_invalid]; rewrite <- ?app_assoc, Nat.add_succ_r; done.
Qed.

(** Every item opens, is not there, or has no path: exactly one of the three. *)
Lemma item_falls maps item :
  (opens maps item = true /\ not_there maps item = None /\ complaint maps item = None) \/
  (opens maps item = false /\ (exists p, not_there maps item = Some p) /\ complaint maps item = None) \/
  (opens maps item = false /\ not_there maps item = None /\ exists p, complaint maps item = Some p).
Proof.
  unfold opens, not_there, complaint. destruct (resolve_for maps item.1 item.2) as [paths|err]; [destruct (path_exists (rp_sharerr paths))|]; eauto 6.
Qed.

Lemma items_split maps items :
  length (filter (fun item => opens maps item = true) items) + length (omap (not_there maps) items) + length (omap (complaint maps) items) = length items.
Proof.
  induction items as [|item items IH]; [done|]. rewrite filter_cons. cbn [omap list_omap length].
  destruct (item_falls maps item) as [(-> & -> & ->)|[(-> & (p & ->) & ->)|(-> & -> & (p & ->))]]; cbn in *; unfold omap in *; case_decide; cbn; lia || congruence.
Qed.

End PathFacts.

(** A list whose [omap] is empty has nothing the function keeps. *)
Lemma omap_nil_forall {A B : Type} (f : A -> option B) (l : list A) : omap f l = [] -> Forall (fun x => f x = None) l.
Proof.
  induction l as [|x l IH]; cbn; [constructor|]. destruct (f x) eqn:E; [done|]. intros H. constructor; [done|]. by apply IH.
Qed.

(** The path report says exactly what sharing needs.  For any mapping and any
    discovered files, every file is counted, the files called readable are exactly as many
    as those that resolve to a path that exists for sharerr, the missing paths are the
    resolved paths that do not, in order, and the report is a failure exactly when some
    file could not be opened. *)
Theorem path_report_exact (path_exists : bytes -> bool) (path_chain : PathError -> bytes) (rules : nat) (maps : list PathMapping)
    (items : list (MediaSource * bytes)) :
  let report := check_paths_of path_exists path_chain rules maps items in
  pr_rules report = rules /\ pr_checked report = length items /\
  readable report = length (filter (fun item => opens path_exists maps item = true) items) /\
  pr_missing report = omap (not_there path_exists maps) items /\
  (is_failure report = false <-> Forall (fun item => opens path_exists maps item = true) items).
Proof.
  cbv zeta. unfold check_paths_of. destruct (note_paths path_exists path_chain maps items (mkPathReport rules 0 0 [] [] None)) as (-> & Hc & Hm & Hi).
  cbn [pr_rules pr_checked pr_missing pr_invalid app] in *. pose proof (items_split path_exists path_chain maps items) as Hs.
  split; [done|]. split; [done|]. split; [unfold readable; rewrite Hc, Hm, Hi; lia|]. split; [done|]. unfold is_failure. rewrite Hm, Hi. split.
  - intros [H1 H2]%orb_false_iff. destruct (omap (not_there path_exists maps) items) eqn:E1; [|done]. destruct (omap (complaint path_chain maps) items) eqn:E2; [|done].
    apply omap_nil_forall in E1, E2. rewrite Forall_forall in *. intros item Hin. specialize (E1 _ Hin). specialize (E2 _ Hin).
    destruct (item_falls path_exists path_chain maps item) as [(? & _)|[(_ & (p & E) & _)|(_ & _ & (p & E))]]; congruence.
  - intros H. rewrite (list_filter_id _ _ H) in Hs. destruct (omap (not_there path_exists maps) items), (omap (complaint path_chain maps) items); cbn in *; done || lia.
Qed.

Section Verdicts.
Context `{U : UrlLib} `{UP : !UrlParts U} `{AA : !ArrApp U} `{JT : JsonText} `{FT : FloatText} `{UH : !UrlHost U}.

(** Testing an application shows what a pass would find there.  For a client that can
    be built and an application that answers its status, the check is ready with some files
    exactly when discovering the tag gives those files and there are any, says the tag is
    unused exactly when discovery succeeds with nothing, and is never ready otherwise. *)
Theorem arr_check_matches_discovery (arr_chain : ArrError -> bytes) (http : result unit bytes) (kind : MediaSource) (url : Url) (key tag : bytes)
    (client : ArrClient) (status : SystemStatus) :
  arr_new http kind url key = Ok client -> system_status client = Ok status ->
  let outcome := check_arr arr_chain http kind (Some url) (Ok (Some key)) tag in
  (forall version name items, outcome = AoReady version name items -> version = ss_version status /\ items <> []) /\
  (forall items, arr_items outcome = items /\ items <> [] <-> arr_discover client tag = Ok items /\ items <> []) /\
  (outcome = AoTagUnused (ss_version status) <-> arr_discover client tag = Ok []).
Proof.
  intros Hc Hs. unfold check_arr, arr_discover. rewrite Hc, Hs. cbn zeta beta iota. destruct (tag_id client tag) as [id|err]; cbn [rbind].
  2:{ split; [done|]. split; [|done]. intros items. cbn [arr_items]. split; [by intros [<- ?]|by intros [? _]]. }
  destruct (discover_with_tag_id client id) as [[|item items]|err].
  - split; [done|]. split; [|done]. intros items. cbn [arr_items]. split; [by intros [<- ?]|intros [[= <-] ?]; done].
  - split; [by intros version name items' [= <- <- <-]|]. split; [|done]. intros items'. cbn [arr_items]. split; intros [E ?]; split; congruence.
  - split; [done|]. split; [|done]. intros items. cbn [arr_items]. split; [by intros [<- ?]|by intros [? _]].
Qed.

End Verdicts.

Section QbitVerdicts.
Context `{U : UrlLib} `{UP : !UrlParts U} `{QS : QbitServer} `{QT : !QbitText U} `{TH : TorrentHosts}.
Context `{JT : JsonText} `{DT : DecodeText} `{XW : XmlWriter} `{XR : XmlRefs} `{RT : RpcText}.

(** What testing a client can say.  For qBittorrent, whose login asks nothing, the test
    is ready exactly when the version call answers and every failure of that call, a rejected
    key and an unreachable host among them, is reported as a failure after signing in.  For
    the other clients a rejected login is reported as a rejected credential and an
    unreachable one as unreachable, and nothing else is. *)
Theorem client_check_verdicts (qbit_chain : QbitError -> bytes) (http : result unit bytes) (backend : TorrentBackend) (url : Url) (username : option bytes)
    (credential : TorrentCredential) (client : BuiltClient) :
  build_torrent_client qbit_chain http backend url username credential = Ok client ->
  let outcome := check_qbit qbit_chain http backend url username (Ok (Some credential)) in
  (backend = BQbittorrent ->
     outcome = match (built_version client).1 with
               | Ok version => QoReady version QBittorrent (built_version client).2
               | Err err => QoFailed (client_error_text err)
               end) /\
  (backend <> BQbittorrent ->
     (outcome = QoAuthRejected <-> exists kind, (built_login client).1 = Err (AuthRejected kind)) /\
     (forall reason, outcome = QoUnreachable reason <-> exists kind at_ detail,
        (built_login client).1 = Err (Client.Unreachable kind at_ detail) /\ reason = client_error_text (Client.Unreachable kind at_ detail))) /\
  (forall version kind client', outcome = QoReady version kind client' ->
     (built_login client).1 = Ok tt /\ built_version (built_login client).2 = (Ok version, client') /\ kind = built_kind client').
Proof.
  intros Hb. unfold check_qbit. rewrite Hb. cbv zeta. split; [|split].
  - intros ->. cbn in Hb. destruct credential as [|key]; [done|]. apply rbind_Ok in Hb as (c & _ & [= <-]). cbn [built_login].
    destruct (built_version (BuiltQbit c [])) as [[version|err] c'] eqn:E; cbn [fst snd]; [|done].
    cbn in E. destruct (Qbit.lift c (qb_version c) []) as [r sent]. by injection E as _ <-.
  - intros Hq. destruct (built_login client) as [[[]|err] c']; cbn [fst].
    { destruct (built_version c') as [[version|e] c'']; (split; [split; [done|by intros (? & [=])]|]); intros reason; (split; [done|]); by intros (? & ? & ? & [=] & _). }
    destruct err; cbn; split; try (split; [done|]; by intros (? & [=])); try (intros reason; split; [done|]; by intros (? & ? & ? & [=] & _)).
    + intros reason. split; [intros [= <-]; eauto 6|]. by intros (? & ? & ? & [= <- <- <-] & ->).
    + split; [eauto|done].
  - intros version kind client'. destruct (built_login client) as [[[]|err] c']; cbn [fst snd].
    + destruct (built_version c') as [[v|e] c'']; [|done]. by intros [= <- <- <-].
    + destruct err; cbn; done.
Qed.

End QbitVerdicts.

(** ** The floor *)

(** The first part of a split is what comes before the first separator. *)
Lemma split_on_head {A : Type} (p : A -> bool) (l r : list A) :
  Forall (fun x => p x = false) l -> (match r with [] => True | x :: _ => p x = true end) -> head (split_on p (l ++ r)) = Some l.
Proof.
  induction 1 as [|x l Hx Hl IH]; intros Hr; cbn.
  - destruct r as [|y r]; [done|]. cbn. by rewrite Hr.
  - rewrite Hx. specialize (IH Hr). destruct (split_on p (l ++ r)) as [|part parts]; [done|]. by injection IH as ->.
Qed.

(** What may follow the number of a version: nothing, or text such as [beta1]. *)
Definition version_suffix (s : bytes) : Prop :=
  Forall (fun b => is_graphic b = true /\ b <> "."%byte) s /\ match s with [] => True | b :: _ => is_ascii_digit b = false end.

Lemma digit_is_graphic b : is_ascii_digit b = true -> is_graphic b = true /\ b <> "."%byte.
Proof. by destruct b. Qed.

Lemma leading_number_suffix n suffix : (n <= u32_max)%N -> version_suffix suffix -> leading_number (u_to_string n ++ suffix) = Some n.
Proof.
  intros Hn [Hs Hh]. unfold leading_number, str_split. pose proof (u_to_string_digits n) as Hd. rewrite chars_ascii.
  - rewrite map_app. assert (head (split_on not_a_digit (map (fun b => [b]) (u_to_string n) ++ map (fun b => [b]) suffix)) = Some (map (fun b => [b]) (u_to_string n))) as H.
    { apply split_on_head.
      - apply Forall_fmap. eapply Forall_impl; [exact Hd|]. intros b Hb. unfold not_a_digit, compose. cbn. by rewrite Hb.
      - destruct suffix as [|b suffix]; [done|]. cbn. unfold not_a_digit. cbn. by rewrite Hh. }
    destruct (split_on _ _) as [|part parts]; [done|]. injection H as ->. cbn. rewrite concat_singletons. by apply parse_u_u_to_string.
  - apply Forall_app. split; [eapply Forall_impl; [exact Hd|]; by intros []|]. eapply Forall_impl; [exact Hs|]. intros b [Hb _]. by apply is_graphic_ascii.
Qed.

Definition version_text (lead : bytes) (a b c : N) (suffix : bytes) : bytes :=
  lead ++ join (bs ".") [u_to_string a; u_to_string b; u_to_string c ++ suffix].

Lemma version_fields lead a b c suffix :
  lead = [] \/ lead = bs "v" \/ lead = bs "V" -> version_suffix suffix ->
  str_split is_dot (concat (drop_while is_v (chars (trim (version_text lead a b c suffix))))) = [u_to_string a; u_to_string b; u_to_string c ++ suffix].
Proof.
  intros Hl [Hs _]. set (rest := join (bs ".") [u_to_string a; u_to_string b; u_to_string c ++ suffix]).
  assert (forall n, Forall (fun b => is_graphic b = true) (u_to_string n)) as Hg.
  { intros n. eapply Forall_impl; [apply u_to_string_digits|]. intros x Hx. by apply digit_is_graphic. }
  assert (Forall (fun b => is_graphic b = true) rest) as Hr.
  { unfold rest. cbn [join]. repeat (apply Forall_app; split); try apply Hg; try (by repeat constructor). eapply Forall_impl; [exact Hs|]. by intros x []. }
  assert (Forall (fun b => is_graphic b = true) (lead ++ rest)) as Hlr.
  { apply Forall_app. split; [|done]. destruct Hl as [->|[->| ->]]; by repeat constructor. }
  assert (trim (version_text lead a b c suffix) = lead ++ rest) as ->.
  { change (version_text lead a b c suffix) with (join (bs " ") [lead ++ rest]). apply (trim_matches_words is_whitespace [lead ++ rest]); (constructor; [|constructor]).
    - split; [|done]. unfold rest. cbn [join]. destruct (u_to_string_cons a) as (x & r & -> & _). destruct lead; done.
    - eapply Forall_impl; [exact Hlr|]. apply is_graphic_ws. }
  rewrite chars_ascii by (eapply Forall_impl; [exact Hlr|]; apply is_graphic_ascii).
  assert (drop_while is_v (map (fun b => [b]) (lead ++ rest)) = map (fun b => [b]) rest) as ->.
  { assert (drop_while is_v (map (fun b => [b]) rest) = map (fun b => [b]) rest) as E.
    { unfold rest. cbn [join]. destruct (u_to_string_cons a) as (x & r & -> & Hx). cbn. destruct x; done. }
    destruct Hl as [->|[->| ->]]; exact E. }
  rewrite concat_singletons. unfold rest. apply (str_split_join is_dot "."%byte); [done|done|done|].
  assert (forall x, is_graphic x = true /\ x <> "."%byte -> is_ascii x = true /\ is_dot [x] = false) as Hx.
  { intros x [Hx Hd]. split; [by apply is_graphic_ascii|]. apply bool_decide_eq_false. intros [= ->]. done. }
  assert (forall n, Forall (fun x => is_ascii x = true /\ is_dot [x] = false) (u_to_string n)) as Hn.
  { intros n. eapply Forall_impl; [apply u_to_string_digits|]. intros x Hd. by apply Hx, digit_is_graphic. }
  constructor; [apply Hn|]. constructor; [apply Hn|]. constructor; [|constructor]. apply Forall_app. split; [apply Hn|]. eapply Forall_impl; [exact Hs|exact Hx].
Qed.

(** A version is below the floor exactly when its numbers are.  For any three numbers
    of 32 bits, written with or without a leading [v] and with or without a suffix such as
    [beta1], the check answers whether they come before 5.2.1 in the order of versions. *)
Theorem security_floor_exact (lead : bytes) (a b c : N) (suffix : bytes) :
  lead = [] \/ lead = bs "v" \/ lead = bs "V" -> version_suffix suffix -> (a <= u32_max)%N -> (b <= u32_max)%N -> (c <= u32_max)%N ->
  qbit_below_security_floor (version_text lead a b c suffix) = true <->
  (a < 5 \/ a = 5 /\ (b < 2 \/ b = 2 /\ c < 1))%N.
Proof.
  intros Hl Hs Ha Hb Hc. unfold qbit_below_security_floor. rewrite version_fields by done. cbn [version_parts].
  assert (forall n, (n <= u32_max)%N -> leading_number (u_to_string n) = Some n) as Hn.
  { intros n Hle. rewrite <- (app_nil_r (u_to_string n)). by apply leading_number_suffix. }
  rewrite (Hn a), (Hn b) by done. cbn [mbind option_bind]. rewrite leading_number_suffix by done. cbn [mbind option_bind nth].
  unfold parts_lt, QBIT_SECURITY_FLOOR. rewrite !orb_true_iff, !andb_true_iff, !orb_true_iff, !andb_true_iff, !N.ltb_lt, !N.eqb_eq. done.
Qed.

(** *** Witnesses *)

Lemma security_floor_exact_witness :
  qbit_below_security_floor (bs "v5.2.0") = true /\ qbit_below_security_floor (bs "5.2.1beta2") = false /\
  version_text (bs "v") 5 1 4 (bs "beta1") = bs "v5.1.4beta1" /\ qbit_below_security_floor (bs "v5.1.4beta1") = true.
Proof.
  split; [reflexivity|]. split; [reflexivity|]. split; [reflexivity|].
  apply (security_floor_exact (bs "v") 5 1 4 (bs "beta1")).
  - right. left. reflexivity.
  - split; [|reflexivity]. repeat constructor; discriminate.
  - vm_compute. discriminate.
  - vm_compute. discriminate.
  - vm_compute. discriminate.
  - right. split; [reflexivity|]. left. vm_compute. reflexivity.
Defined.

(** A version that does not parse is not called old, and neither is one whose number
    leaves 32 bits. *)
Example unparsed_is_not_old :
  qbit_below_security_floor (bs "unknown") = false /\ qbit_below_security_floor (bs "4294967296.0.0") = false /\ qbit_below_security_floor (bs "5") = true.
Proof. repeat split. Qed.

(** The Sonarr of [Arr], answering its status too. *)
Definition status_json : JsonText := fun body =>
  if bool_decide (body = bs "system/status") then Some (JObj [(bs "version", JStr (bs "4.0")); (bs "appName", JStr (bs "Sonarr"))]) else toy_library body.

Lemma arr_check_matches_discovery_witness :
  let outcome := @check_arr text_urls colon_urls toy_sonarr status_json plain_floats no_hosts (fun _ => []) (Ok tt) Sonarr (Some (bs "http://s/")) (Ok (Some (bs "key"))) (bs "sharerr") in
  map d_file_id (arr_items outcome) = [50%Z] /\
  exists items, @arr_discover text_urls colon_urls toy_sonarr status_json plain_floats no_hosts sonarr_client (bs "sharerr") = Ok items /\ items <> [].
Proof.
  intros outcome. split; [vm_compute; reflexivity|].
  destruct (@system_status text_urls colon_urls toy_sonarr status_json sonarr_client) as [status|e] eqn:E; [|vm_compute in E; discriminate E].
  destruct (@arr_check_matches_discovery text_urls colon_urls toy_sonarr status_json plain_floats no_hosts (fun _ => []) (Ok tt) Sonarr (bs "http://s/") (bs "key")
    (bs "sharerr") sonarr_client status eq_refl E) as (_ & H & _).
  exists (arr_items outcome). apply H. split; [reflexivity|]. vm_compute. discriminate.
Defined.

(** A Transmission that rejects every account, and the other hosts silent. *)
Definition locked_hosts : TorrentHosts := {|
  transmission_at := fun _ _ _ _ _ => Ok (401%N, None, Ok []);
  rtorrent_at := fun _ _ _ _ _ => Err (bs "refused");
  deluge_at := fun _ _ _ => Err (bs "refused")
|}.

Definition any_qbit_text : QbitText text_urls := {| header_valid := fun _ => true; url_origin := fun u : @Url text_urls => u |}.

(** A qBittorrent that rejects every key. *)
Definition locked_qbit : QbitServer := fun _ _ _ _ => Ok (403%N, Ok []).

Definition probe_locked (backend : TorrentBackend) (credential : TorrentCredential) : @QbitOutcome text_urls :=
  @check_qbit text_urls colon_urls locked_qbit any_qbit_text locked_hosts success_json no_decode_text plain_writer predefined_refs toy_rpc_text
    (fun _ => []) (Ok tt) backend (bs "http://t/") (Some (bs "me")) (Ok (Some credential)).

Lemma client_check_verdicts_witness : probe_locked BTransmission (Password (bs "pw")) = QoAuthRejected.
Proof.
  destruct (@client_check_verdicts text_urls colon_urls locked_qbit any_qbit_text locked_hosts success_json no_decode_text plain_writer predefined_refs toy_rpc_text
    (fun _ => []) (Ok tt) BTransmission (bs "http://t/") (Some (bs "me")) (Password (bs "pw"))
    (@BuiltTransmission text_urls (bs "http://t/transmission/rpc") (bs "me") (bs "pw") fresh_session) eq_refl) as (_ & H & _).
  destruct (H ltac:(discriminate)) as [Hr _]. apply Hr. exists Client.Transmission. vm_compute. reflexivity.
Defined.

(** The same rejection by qBittorrent reads as a failure after signing in. *)
Example locked_qbit_signs_in :
  match probe_locked BQbittorrent (ApiKey (bs "qbt_0123456789012345678901234567")) with QoFailed _ => True | _ => False end.
Proof. vm_compute. exact I. Qed.
