(* ===== verification/ConfigFile.v ===== *)
(** * The configuration file (crates/sharerr/src/web/config_io/mod.rs, crates/sharerr/src/settings.rs)

    Editing [sharerr.toml] field by field, what a save writes and in which order, what a
    start loads or salvages, and which fields the environment pins.  Reading and printing
    TOML, the extraction of a configuration from the layers, and Unicode case mapping are
    parameters; comments and spacing are the printer's. *)

From S2P Require Import Prelude RustStd Text BTreeMap Bencode Metainfo Net Endpoint TrackerUrl Announce Model Paths Factory Title Lighthouse FileTree Totp Effects Accounts Library Database Items Peers History Sightings Client Vault Serve TrackerRoutes Alerts.

(** ** Documents *)

(** [toml_edit::Item]: a value, an inline table (which is a value too), a table with its
    header, or an array of tables.  Entries keep their order. *)
Inductive Scalar : Type :=
| TomlStr (s : bytes)
| TomlInt (i : Z)
| TomlFloat (f : N)
| TomlBool (b : bool)
| TomlStrs (l : list bytes)
| TomlOther (raw : bytes).

Inductive Item : Type :=
| ItemValue (v : Scalar)
| ItemInline (entries : list (bytes * Item))
| ItemTable (entries : list (bytes * Item))
| ItemTables (rows : list (list (bytes * Item))).

Abbreviation Table := (list (bytes * Item)).

(** [Table::get], assignment through [IndexMut], and [Table::remove]. *)
Fixpoint tget (key : bytes) (t : Table) : option Item :=
  match t with
  | [] => None
  | (k, item) :: t => if bool_decide (k = key) then Some item else tget key t
  end.

Fixpoint tset (key : bytes) (item : Item) (t : Table) : Table :=
  match t with
  | [] => [(key, item)]
  | (k, old) :: t => if bool_decide (k = key) then (k, item) :: t else (k, old) :: tset key item t
  end.

Definition tremove (key : bytes) (t : Table) : Table := filter (fun entry => entry.1 <> key) t.

(** [Item::as_table_like]. *)
Definition as_table_like (item : Item) : option Table :=
  match item with ItemInline entries | ItemTable entries => Some entries | _ => None end.

(** The item a path addresses. *)
Fixpoint doc_at (segments : list bytes) (t : Table) : option Item :=
  match segments with
  | [] => None
  | [key] => tget key t
  | key :: segments => item ← tget key t; next ← as_table_like item; doc_at segments next
  end.

(** [path.split('.')]. *)
Definition path_segments (path : bytes) : list bytes := split_byte "."%byte path.

(** [doc_str]. *)
Definition doc_str (doc : Table) (path : bytes) : option bytes :=
  match doc_at (path_segments path) doc with Some (ItemValue (TomlStr s)) => Some s | _ => None end.

(** ** Edits *)

Inductive Setting : Type := SStr (s : bytes) | SInt (i : Z) | SFloat (f : N) | SBool (b : bool) | SStrList (l : list bytes) | SUnset.

Record Edit : Type := mkEdit { ed_path : bytes; ed_value : Setting }.

(** The constructors of [Edit]. *)
Definition edit_str (path v : bytes) : Edit := mkEdit path (SStr v).
Definition edit_int (path : bytes) (v : Z) : Edit := mkEdit path (SInt v).
Definition edit_float (path : bytes) (v : N) : Edit := mkEdit path (SFloat v).
Definition edit_bool (path : bytes) (v : bool) : Edit := mkEdit path (SBool v).
Definition edit_str_list (path : bytes) (v : list bytes) : Edit := mkEdit path (SStrList v).
Definition edit_unset (path : bytes) : Edit := mkEdit path SUnset.

Definition or_unset {T : Type} (path : bytes) (value : option T) (set : bytes -> T -> Edit) : Edit :=
  match value with Some value => set path value | None => edit_unset path end.

Definition str_or_unset (path v : bytes) : Edit :=
  let trimmed := trim v in if is_nonempty trimmed then edit_str path trimmed else edit_unset path.

(** The value an edit writes, if it writes one. *)
Definition setting_value (v : Setting) : option Scalar :=
  match v with
  | SStr s => Some (TomlStr s)
  | SInt i => Some (TomlInt i)
  | SFloat f => Some (TomlFloat f)
  | SBool b => Some (TomlBool b)
  | SStrList l => Some (TomlStrs l)
  | SUnset => None
  end.

(** The loop of [apply_one]; what is on the way and not a table becomes an empty one. *)
Fixpoint apply_segments (segments : list bytes) (v : Setting) (t : Table) : Table :=
  match segments with
  | [] => t
  | [key] => match setting_value v with Some scalar => tset key (ItemValue scalar) t | None => tremove key t end
  | key :: segments =>
      let next := match tget key t with Some (ItemTable entries) => entries | _ => [] end in
      tset key (ItemTable (apply_segments segments v next)) t
  end.

Definition apply_one (doc : Table) (edit : Edit) : Table := apply_segments (path_segments (ed_path edit)) (ed_value edit) doc.

(** A [sharerr.toml] open for editing. *)
Record ConfigFile : Type := mkConfigFile { kf_path : bytes; kf_doc : Table; kf_recovered : bool }.

Definition on_doc (f : Table -> Table) (file : ConfigFile) : ConfigFile := mkConfigFile (kf_path file) (f (kf_doc file)) (kf_recovered file).

(** [ConfigFile::apply]. *)
Definition apply_edits (edits : list Edit) (file : ConfigFile) : ConfigFile := on_doc (fun doc => fold_left apply_one edits doc) file.

(** [config::LibraryKind]'s names. *)
#[export] Instance LibraryKind_names : StrEnum LibraryKind := {|
  ALL := [LTv; LMovie; LMusic; LBook];
  as_str_name := fun k => match k with LTv => bs "tv" | LMovie => bs "movie" | LMusic => bs "music" | LBook => bs "book" end
|}.

Definition text_value (s : bytes) : Item := ItemValue (TomlStr (to_string_lossy s)).

Definition set_path_map (mappings : list PathMapping) (file : ConfigFile) : ConfigFile :=
  on_doc (fun doc =>
    if negb (is_nonempty mappings) then tremove (bs "path_map") doc
    else tset (bs "path_map") (ItemTables (map (fun m =>
           [(bs "arr", text_value (pm_arr m)); (bs "sharerr", text_value (pm_sharerr m))] ++
           match pm_qbit m with Some qbit => [(bs "qbit", text_value qbit)] | None => [] end) mappings)) doc) file.

Definition set_libraries (libraries : list LibraryConfig) (file : ConfigFile) : ConfigFile :=
  on_doc (fun doc =>
    if negb (is_nonempty libraries) then tremove (bs "library") doc
    else tset (bs "library") (ItemTables (map (fun l =>
           [(bs "path", text_value (lc_path l)); (bs "kind", ItemValue (TomlStr (as_str_name (lc_kind l))))]) libraries)) doc) file.

Definition clear_peers (file : ConfigFile) : ConfigFile := apply_edits [edit_unset (bs "peers")] file.

(** ** Files *)

(** The files under the paths that matter here, and the outcomes of the coming calls. *)
Abbreviation Disk := (gmap bytes bytes * Script)%type.
Abbreviation FileM := (St Disk).

(** What a write that failed left of a text, if it left anything. *)
Class TornWrites : Type := torn : bytes -> option bytes.

Class ConfigLayers (U : UrlLib) : Type := {
  (** Reading and printing a document. *)
  toml_parse : bytes -> result Table bytes;
  toml_print : Table -> bytes;
  (** The configuration the defaults, a document and the environment of the process give. *)
  extract : Table -> result ServeConfig bytes;
  config_default : ServeConfig;
  (** The port of a socket address, [server.bind] as text, and the two variables that are
      salvaged. *)
  parse_bind : bytes -> option N;
  server_bind_text : ServeConfig -> bytes;
  env_data_dir : option bytes;
  env_server_bind : option bytes
}.

(** [path.to_str()] and [contains("..")]. *)
Definition checked_path (path : bytes) : result bytes bytes :=
  match from_utf8 path with
  | None => Err (to_string_lossy path ++ bs " is not valid UTF-8")
  | Some text => if contains (bs "..") text then Err (text ++ bs " must not contain '..'") else Ok text
  end.

(** [with_extension("toml.tmp")] and [invalid_path]. *)
Definition tmp_path (path : bytes) : bytes := with_extension path (bs "toml.tmp").
Definition invalid_path (path : bytes) : bytes := with_extension path (bs "toml.invalid").

(** One call of the file system, naming what it was for. *)
Definition file_call (what : bytes) : FileM (result unit bytes) := fun disk =>
  let '(ok, script) := draw disk.2 in (if ok then Ok tt else Err (what ++ bs ": " ++ sc_error script), (disk.1, script)).

Definition file_at (path : bytes) : FileM (option bytes) := sgets (fun disk => disk.1 !! path).
Definition on_files (f : gmap bytes bytes -> gmap bytes bytes) : FileM unit := smodify (fun disk => (f disk.1, disk.2)).

(** [read_or_empty]. *)
Definition read_or_empty (path : bytes) : FileM (result bytes bytes) :=
  let! found := file_at path in
  match found with
  | None => sret (Ok [])
  | Some text =>
      try! _ := file_call (bs "reading " ++ path) in
      sret (match from_utf8 text with Some text => Ok text | None => Err (bs "reading " ++ path ++ bs ": stream did not contain valid UTF-8") end)
  end.

(** A rename, and a write that may fail halfway. *)
Definition rename (from to what : bytes) : FileM (result unit bytes) :=
  try! _ := file_call what in
  let! moved := on_files (fun files => match files !! from with Some text => <[to := text]> (delete from files) | None => files end) in
  sret (Ok tt).

Definition write_file `{TW : TornWrites} (path text what : bytes) : FileM (result unit bytes) :=
  let! r := file_call what in
  let! done := on_files (fun files => match r with Ok _ => <[path := text]> files
                                                | Err _ => match torn text with Some part => <[path := part]> files | None => files end end) in
  sret r.

Section Files.
Context `{U : UrlLib} `{CL : !ConfigLayers U} `{TW : TornWrites}.

(** [ConfigFile::open]. *)
Definition config_open (path : bytes) : FileM (result ConfigFile bytes) :=
  try! checked := sret (checked_path path) in
  try! text := read_or_empty checked in
  sret (let? doc := rmap_err (fun e => to_string_lossy path ++ bs " is not valid TOML: " ++ e) (toml_parse text) in Ok (mkConfigFile path doc false)).

Definition replacing (path : bytes) : ConfigFile := mkConfigFile path [] true.

(** [ConfigFile::backup_path]. *)
Definition backup_path (file : ConfigFile) : FileM (option bytes) :=
  match checked_path (kf_path file) with
  | Err _ => sret None
  | Ok path => let! found := file_at path in sret (if kf_recovered file && bool_decide (is_Some found) then Some (invalid_path path) else None)
  end.

Definition to_toml (file : ConfigFile) : bytes := toml_print (kf_doc file).

(** [ConfigFile::write_validated]. *)
Definition write_validated (file : ConfigFile) (text : bytes) : FileM (result unit bytes) :=
  try! path := sret (checked_path (kf_path file)) in
  try! dir := (match parent path with
               | Some dir => if is_nonempty dir then file_call (bs "creating " ++ dir) else sret (Ok tt)
               | None => sret (Ok tt)
               end) in
  let! found := file_at path in
  try! kept := (if kf_recovered file && bool_decide (is_Some found) then rename path (invalid_path path) (bs "moving " ++ path ++ bs " aside") else sret (Ok tt)) in
  let tmp := tmp_path path in
  try! written := write_file tmp text (bs "writing " ++ tmp) in
  rename tmp path (bs "replacing " ++ path).

(** ** Loading (settings.rs) *)

(** [settings::validate]. *)
Definition validate (text : bytes) : result ServeConfig bytes :=
  rmap_err (fun e => bs "the edited configuration is not valid: " ++ e) (let? doc := toml_parse text in extract doc).

(** [settings::load]: a file that is not there is an empty document. *)
Definition load (files : gmap bytes bytes) (path : bytes) : result ServeConfig bytes :=
  rmap_err (fun e => bs "failed to load configuration (file: " ++ to_string_lossy path ++ bs ", env: SHARERR_*): " ++ e)
    (let? doc := match files !! path with None => Ok [] | Some text => toml_parse text end in extract doc).

Definition with_data_dir (dir : option bytes) (c : ServeConfig) : ServeConfig :=
  match dir with
  | Some dir => mkConfig dir (cf_retention c) (cf_magnet_links c) (cf_tracker c) (cf_bind_port c) (cf_triggers c) (cf_notify_kind c)
  | None => c
  end.

Definition with_bind (port : option N) (c : ServeConfig) : ServeConfig :=
  match port with
  | Some port => mkConfig (cf_data_dir c) (cf_retention c) (cf_magnet_links c) (cf_tracker c) port (cf_triggers c) (cf_notify_kind c)
  | None => c
  end.

(** [settings::load_or_recover]. *)
Definition load_or_recover (files : gmap bytes bytes) (path : bytes) : ServeConfig * option bytes :=
  match load files path with
  | Ok config => (config, None)
  | Err error =>
      let config := config_default in
      let config := match files !! path with
                    | Some text =>
                        match toml_parse text with
                        | Ok doc => with_bind (doc_str doc (bs "server.bind") ≫= parse_bind) (with_data_dir (doc_str doc (bs "data_dir")) config)
                        | Err _ => config
                        end
                    | None => config
                    end in
      (with_bind (env_server_bind ≫= parse_bind) (with_data_dir env_data_dir config), Some error)
  end.

End Files.

(** ** The environment *)

(** [u8::to_ascii_uppercase]. *)
Definition to_ascii_uppercase (b : byte) : byte :=
  if is_ascii_lower b then byte_of (byte_val b - 32) else b.

Class CaseMap : Type := { str_to_uppercase : bytes -> bytes; str_to_lowercase : bytes -> bytes }.

(** Unicode case mapping agrees with ASCII's on ASCII. *)
Class CaseLaws (CM : CaseMap) : Prop := {
  uppercase_ascii : forall s, Forall (fun b => is_ascii b = true) s -> str_to_uppercase s = map to_ascii_uppercase s;
  lowercase_ascii : forall s, Forall (fun b => is_ascii b = true) s -> str_to_lowercase s = map to_ascii_lowercase s
}.

(** [str::replace] of two underscores by a dot, and of a dot by two underscores. *)
Fixpoint dunder_to_dot (s : bytes) : bytes :=
  match s with
  | "_"%byte :: "_"%byte :: r => "."%byte :: dunder_to_dot r
  | b :: r => b :: dunder_to_dot r
  | [] => []
  end.

Definition dot_to_dunder (s : bytes) : bytes := concat (map (fun b => if bool_decide (b = "."%byte) then bs "__" else [b]) s).

(** [NON_CONFIG_ENV]. *)
Definition NON_CONFIG_ENV : list bytes :=
  map bs ["CONFIG"; "MASTER_KEY"; "MASTER_KEY_FILE"; "E2E_MEDIA"; "VERSION"; "LOG_FORMAT"; "E2E_COMPOSE"; "E2E_LIDARR"; "E2E_MESH_KEY"]%string.

Section Environment.
Context `{CM : CaseMap}.

(** [config_paths::env_var]. *)
Definition env_var (path : bytes) : bytes := bs "SHARERR_" ++ dot_to_dunder (str_to_uppercase path).

(** What [collect_overrides] makes of one variable's name: the path it pins. *)
Definition pinned_path (name : bytes) : option bytes :=
  rest ← str_strip_prefix (bs "SHARERR_") (str_to_uppercase name);
  if negb (is_nonempty rest) || bool_decide (rest ∈ NON_CONFIG_ENV) then None
  else
    let rest := default rest (strip_suffix (bs "_FILE") rest) in
    if is_nonempty rest then Some (dunder_to_dot (str_to_lowercase rest)) else None.

Definition collect_overrides (vars : list (bytes * bytes)) : gmap bytes bytes :=
  fold_left (fun found var => match pinned_path var.1 with Some path => <[path := var.1]> found | None => found end) vars ∅.

(** [file_overrides]: the path, the variable and the file it names. *)
Definition file_override (var : bytes * bytes) : option (bytes * bytes * bytes) :=
  let '(name, file) := var in
  rest ← str_strip_prefix (bs "SHARERR_") (str_to_uppercase name);
  if bool_decide (rest ∈ NON_CONFIG_ENV) then None
  else
    path ← strip_suffix (bs "_FILE") rest;
    if is_nonempty path then Some (dunder_to_dot (str_to_lowercase path), name, file) else None.

Definition file_overrides (vars : list (bytes * bytes)) : list (bytes * bytes * bytes) := omap file_override vars.

End Environment.

(** The paths the settings pages write ([config_paths]). *)
Definition CONFIG_PATHS : list bytes :=
  map bs ["tag"; "data_dir"; "server.bind"; "sonarr.url"; "radarr.url"; "lidarr.url"; "readarr.url"; "whisparr.url";
    "qbittorrent.url"; "qbittorrent.category"; "qbittorrent.tag"; "qbittorrent.skip_checking"; "torrent_backend";
    "transmission.url"; "transmission.username"; "transmission.label"; "rtorrent.url"; "rtorrent.username"; "rtorrent.label";
    "deluge.url"; "deluge.label"; "tracker.advertised_host"; "tracker.advertised_url"; "tracker.port";
    "seeding.upload_limit_kib"; "seeding.ratio_limit"; "seeding.private"; "seeding.sidecars"; "seeding.hybrid";
    "seeding.quiet_hours"; "seeding.quiet_upload_limit_kib"; "lighthouse.enabled"; "lighthouse.mount"; "lighthouse.urls";
    "gluetun.enabled"; "gluetun.control_url"; "gluetun.poll_secs"; "gluetun_client.enabled"; "gluetun_client.control_url";
    "gluetun_client.poll_secs"; "sync.enabled"; "sync.interval_secs"; "checks.reachability"; "notifications.kind";
    "notifications.peer_quiet_secs"; "notifications.heartbeat_secs"; "notifications.triggers"; "metrics.enabled";
    "api.enabled"; "feed.magnet_links"]%string.

(** ** Rows of a form *)

Definition row_of (index : nat) (what rest : bytes) : bytes := what ++ bs " " ++ u_to_string (N.of_nat (S index)) ++ rest.

(** [parse_path_map]. *)
Definition parse_path_row (index : nat) (row : bytes * bytes * bytes) : result (list PathMapping) bytes :=
  let '(arr, sharerr, qbit) := row in
  let arr := trim arr in
  let sharerr := trim sharerr in
  let qbit := trim qbit in
  if negb (is_nonempty arr) && negb (is_nonempty sharerr) && negb (is_nonempty qbit) then Ok []
  else if negb (is_nonempty arr) || negb (is_nonempty sharerr) then Err (row_of index (bs "path mapping") (bs " needs both an *arr path and a sharerr path"))
  else Ok [mkMapping arr sharerr (if is_nonempty qbit then Some qbit else None)].

Fixpoint parse_rows {R M : Type} (parse : nat -> R -> result (list M) bytes) (index : nat) (rows : list R) : result (list M) bytes :=
  match rows with
  | [] => Ok []
  | row :: rows => let? here := parse index row in let? rest := parse_rows parse (S index) rows in Ok (here ++ rest)
  end.

Definition parse_path_map (rows : list (bytes * bytes * bytes)) : result (list PathMapping) bytes := parse_rows parse_path_row 0 rows.

(** [parse_libraries]. *)
Definition parse_library_row (index : nat) (row : bytes * bytes) : result (list LibraryConfig) bytes :=
  let '(path, kind) := row in
  let path := trim path in
  if negb (is_nonempty path) then Ok []
  else match parse_enum (A := LibraryKind) (trim kind) with
       | None => Err (row_of index (bs "library") (bs " has no valid kind — pick tv, movie, music or book"))
       | Some kind =>
           if is_absolute path then Ok [mkLibrary path kind]
           else Err (bs "library " ++ to_string_lossy path ++ bs " must be an absolute path")
       end.

Definition parse_libraries (rows : list (bytes * bytes)) : result (list LibraryConfig) bytes :=
  let? libraries := parse_rows parse_library_row 0 rows in
  match overlapping_roots libraries with
  | Some (a, b) => Err (bs "library directories overlap: " ++ to_string_lossy a ++ bs " and " ++ to_string_lossy b ++
                        bs " — a file reachable from both would be shared under whichever kind came last")
  | None => Ok libraries
  end.

(** [PathRow::from], as the page shows a mapping, and the rows of [path_rows]. *)
Definition path_row (m : PathMapping) : bytes * bytes * bytes := (to_string_lossy (pm_arr m), to_string_lossy (pm_sharerr m), to_string_lossy (default [] (pm_qbit m))).
Definition path_rows (mappings : list PathMapping) : list (bytes * bytes * bytes) := map path_row mappings ++ [([], [], [])].

(** ** Facts *)

Lemma tget_tset key item t k : tget k (tset key item t) = if decide (k = key) then Some item else tget k t.
Proof.
  induction t as [|[k' old] t IH]; cbn [tset tget].
  - destruct (decide (k = key)) as [->|H]; [by rewrite bool_decide_eq_true_2|]. by rewrite bool_decide_eq_false_2 by congruence.
  - case_bool_decide as H; cbn [tget]; [subst k'|].
    + destruct (decide (k = key)) as [->|H]; [by rewrite bool_decide_eq_true_2|]. by rewrite bool_decide_eq_false_2 by congruence.
    + case_bool_decide as Hk; [|done]. subst k'. by rewrite decide_False.
Qed.

Lemma tget_tremove key t k : tget k (tremove key t) = if decide (k = key) then None else tget k t.
Proof.
  unfold tremove. induction t as [|[k' item] t IH]; [by case_decide|]. rewrite filter_cons. cbn [fst]. destruct (decide (k' <> key)) as [H|H].
  - cbn [tget]. case_bool_decide as Hk; [|done]. subst k'. by rewrite decide_False.
  - apply dec_stable in H. subst k'. cbn [tget]. rewrite IH. case_decide; [done|]. by rewrite bool_decide_eq_false_2 by congruence.
Qed.

#[export] Hint Rewrite tget_tset tget_tremove : tables.

(** Every proper prefix of a path leads through a table written with its header, or
    nowhere. *)
Fixpoint plain_way (segments : list bytes) (t : Table) : Prop :=
  match segments with
  | [] | [_] => True
  | key :: segments => match tget key t with None => True | Some (ItemTable entries) => plain_way segments entries | Some _ => False end
  end.

(** What an edit puts under its path. *)
Definition written (v : Setting) : option Item := ItemValue <$> setting_value v.

Lemma doc_at_cons key k segments t : doc_at (key :: k :: segments) t = (item ← tget key t; next ← as_table_like item; doc_at (k :: segments) next).
Proof. done. Qed.

Lemma apply_cons key k segments v t :
  apply_segments (key :: k :: segments) v t =
  tset key (ItemTable (apply_segments (k :: segments) v (match tget key t with Some (ItemTable entries) => entries | _ => [] end))) t.
Proof. done. Qed.

Lemma apply_here segments v t : segments <> [] -> doc_at segments (apply_segments segments v t) = written v.
Proof.
  revert t. induction segments as [|key [|k segments] IH]; intros t Hne; [done|..].
  - cbn. destruct (setting_value v) as [scalar|] eqn:E; autorewrite with tables; rewrite decide_True by done; unfold written; by rewrite E.
  - rewrite doc_at_cons, apply_cons. autorewrite with tables. rewrite decide_True by done. cbn [mbind option_bind as_table_like]. by apply IH.
Qed.

Lemma doc_at_nil segments : doc_at segments [] = None.
Proof. by destruct segments as [|key [|k segments]]. Qed.

Lemma apply_elsewhere segments v t other :
  segments <> [] -> plain_way segments t -> ~ segments `prefix_of` other -> ~ other `prefix_of` segments ->
  doc_at other (apply_segments segments v t) = doc_at other t.
Proof.
  revert t other. induction segments as [|key [|k segments] IH]; intros t other Hne Hw Hp Hq; [done|..].
  - destruct other as [|o other]; [done|]. assert (o <> key) as Ho by (intros ->; apply Hp; by exists other).
    assert (tget o (apply_segments [key] v t) = tget o t) as E.
    { cbn. destruct (setting_value v); autorewrite with tables; by rewrite decide_False. }
    destruct other; cbn [doc_at]; by rewrite E.
  - destruct other as [|o other]; [exfalso; apply Hq; apply prefix_nil|]. rewrite apply_cons.
    destruct (decide (o = key)) as [->|Ho].
    2: { assert (forall item, tget o (tset key item t) = tget o t) as E by (intros item; autorewrite with tables; by rewrite decide_False).
         destruct other; cbn [doc_at]; by rewrite E. }
    destruct other as [|o2 other]; [exfalso; apply Hq; by exists (k :: segments)|].
    rewrite !doc_at_cons. autorewrite with tables. rewrite decide_True by done. cbn [mbind option_bind as_table_like].
    rewrite IH; [|done|..].
    + cbn in Hw. destruct (tget key t) as [[| |entries|]|]; try done. by rewrite doc_at_nil.
    + cbn [plain_way] in Hw. destruct (tget key t) as [[| |entries|]|]; try done. by destruct segments.
    + intros [rest E]. apply Hp. exists rest. by rewrite <- app_comm_cons, <- E.
    + intros [rest E]. apply Hq. exists rest. by rewrite <- app_comm_cons, <- E.
Qed.

(** *** Files *)

Lemma file_call_inv what disk r disk' : file_call what disk = (r, disk') -> disk'.1 = disk.1.
Proof. unfold file_call. destruct (draw disk.2) as [ok script]. by intros [= _ <-]. Qed.

Lemma rename_inv from to what disk r disk' :
  rename from to what disk = (r, disk') ->
  match r with
  | Ok _ => disk'.1 = match disk.1 !! from with Some text => <[to := text]> (delete from disk.1) | None => disk.1 end
  | Err _ => disk'.1 = disk.1
  end.
Proof.
  intros [(e & H%file_call_inv & ->)|([] & d1 & H%file_call_inv & (u & d2 & [= <- <-] & [= <- <-])%sbind_inv)]%try_cases; [done|].
  cbn. by rewrite H.
Qed.

Lemma write_file_inv `{TW : TornWrites} path text what disk r disk' :
  write_file path text what disk = (r, disk') ->
  (forall q, q <> path -> disk'.1 !! q = disk.1 !! q) /\ (r = Ok tt -> disk'.1 !! path = Some text).
Proof.
  intros (r1 & d1 & H%file_call_inv & (u & d2 & [= <- <-] & [= <- <-])%sbind_inv)%sbind_inv. cbn. rewrite H. destruct r1 as [[]|e].
  - split; [intros q Hq; by rewrite lookup_insert_ne|by intros; rewrite lookup_insert_eq].
  - split; [|done]. intros q Hq. destruct (torn text); [by rewrite lookup_insert_ne|done].
Qed.

(** The three files a save touches. *)
Definition saved_paths (path : bytes) : list bytes := [path; tmp_path path; invalid_path path].

(** How a save leaves the configuration file. *)
Definition file_replaced (recovered : bool) (path text : bytes) (before after : gmap bytes bytes) : Prop :=
  after !! path = Some text /\ (recovered = true -> forall old, before !! path = Some old -> after !! invalid_path path = Some old).

Definition file_kept (recovered : bool) (path : bytes) (before after : gmap bytes bytes) : Prop :=
  after !! path = before !! path \/ (recovered = true /\ after !! path = None /\ after !! invalid_path path = before !! path).

Lemma not_elem_of_cons_3 {A : Type} (x a b c : A) : x ∉ [a; b; c] -> x <> a /\ x <> b /\ x <> c /\ True.
Proof. rewrite !not_elem_of_cons. naive_solver. Qed.

Section Writes.
Context `{TW : TornWrites}.

Lemma write_validated_inv file text path disk r disk' :
  checked_path (kf_path file) = Ok path -> NoDup (saved_paths path) -> write_validated file text disk = (r, disk') ->
  (forall q, q ∉ saved_paths path -> disk'.1 !! q = disk.1 !! q) /\
  match r with
  | Ok _ => file_replaced (kf_recovered file) path text disk.1 disk'.1
  | Err _ => file_kept (kf_recovered file) path disk.1 disk'.1
  end.
Proof.
  intros Hp [[Hpt [Hpi _]%not_elem_of_cons]%not_elem_of_cons [[Htmp _]%not_elem_of_cons _]%NoDup_cons]%NoDup_cons H.
  assert (tmp_path path <> path /\ invalid_path path <> path /\ tmp_path path <> invalid_path path) as (Ht & Hi & Hti) by (split_and!; congruence).
  unfold write_validated in H. rewrite Hp in H.
  apply try_cases in H as [(e & Hx & _)|(p & d0 & [= <- <-] & H)]; [done|].
  apply try_cases in H as [(e & Hd & ->)|([] & d1 & Hd & H)];
    assert (forall d, (match parent path with Some dir => if is_nonempty dir then file_call (bs "creating " ++ dir) else sret (Ok tt) | None => sret (Ok tt) end disk).2 = d -> d.1 = disk.1) as Hdir
      by (intros d <-; destruct (parent path) as [dir|]; [destruct (is_nonempty dir)|]; try done; by destruct (file_call (bs "creating " ++ dir) disk) as [u du] eqn:E; apply file_call_inv in E);
    rewrite Hd in Hdir; pose proof (Hdir _ eq_refl) as Hdir'; cbn [snd] in Hdir'.
  { split; [intros q _; by rewrite Hdir'|]. left. by rewrite Hdir'. }
  apply sbind_inv in H as (found & d2 & [= <- <-] & H). rewrite Hdir' in H. clear Hd Hdir.
  destruct (kf_recovered file && bool_decide (is_Some (disk.1 !! path))) eqn:Ek.
  - apply andb_prop in Ek as [Er [old Hold]%bool_decide_eq_true].
    apply try_cases in H as [(e & Hr%rename_inv & ->)|([] & d3 & Hr%rename_inv & H)].
    { rewrite Hr, Hdir'. split; [done|]. by left. }
    rewrite Hdir', Hold in Hr.
    assert (forall q, q <> path -> q <> invalid_path path -> d3.1 !! q = disk.1 !! q) as H3 by (intros q ? ?; rewrite Hr, lookup_insert_ne, lookup_delete_ne by congruence; done).
    assert (d3.1 !! path = None) as H3p by (rewrite Hr, lookup_insert_ne by done; by apply lookup_delete_eq).
    assert (d3.1 !! invalid_path path = Some old) as H3i by (rewrite Hr; apply lookup_insert_eq).
    apply try_cases in H as [(e & [Hw Hok]%write_file_inv & ->)|([] & d4 & [Hw Hok]%write_file_inv & H%rename_inv)].
    + split; [intros q (? & ? & ? & _)%not_elem_of_cons_3; by rewrite Hw, H3|]. right. rewrite !Hw by done. by rewrite Hold.
    + destruct r as [[]|e].
      * rewrite Hok in H by done. split.
        { intros q (? & ? & ? & _)%not_elem_of_cons_3. by rewrite H, lookup_insert_ne, lookup_delete_ne, Hw, H3 by congruence. }
        split; [rewrite H; apply lookup_insert_eq|]. intros _ old' Hold'. rewrite H, lookup_insert_ne, lookup_delete_ne, Hw by congruence. congruence.
      * rewrite H. split; [intros q (? & ? & ? & _)%not_elem_of_cons_3; by rewrite Hw, H3|]. right. rewrite !Hw by done. by rewrite Hold.
  - apply try_cases in H as [(e & Hx & _)|(u & d3 & [= <- <-] & H)]; [done|].
    apply try_cases in H as [(e & [Hw Hok]%write_file_inv & ->)|([] & d4 & [Hw Hok]%write_file_inv & H%rename_inv)]; rewrite Hdir' in Hw.
    + split; [intros q (? & ? & ? & _)%not_elem_of_cons_3; by rewrite Hw|]. left. by rewrite Hw.
    + destruct r as [[]|e].
      * rewrite Hok in H by done. split.
        { intros q (? & ? & ? & _)%not_elem_of_cons_3. by rewrite H, lookup_insert_ne, lookup_delete_ne, Hw by congruence. }
        split; [rewrite H; apply lookup_insert_eq|]. intros Er old Hold. rewrite Er, Hold in Ek. by rewrite bool_decide_eq_true_2 in Ek.
      * rewrite H. split; [intros q (? & ? & ? & _)%not_elem_of_cons_3; by rewrite Hw|]. left. by rewrite Hw.
Qed.

End Writes.

(** *** Rows *)

(** A text a form gives back as it was shown. *)
Definition form_text (s : bytes) : Prop := utf8_valid s = true /\ trim s = s.

Lemma parse_rows_app {R M : Type} (parse : nat -> R -> result (list M) bytes) index a b :
  parse_rows parse index (a ++ b) = let? l := parse_rows parse index a in let? r := parse_rows parse (index + length a) b in Ok (l ++ r).
Proof.
  revert index. induction a as [|row a IH]; intros index; cbn.
  - rewrite Nat.add_0_r. by destruct (parse_rows parse index b).
  - destruct (parse index row) as [here|e]; cbn; [|done]. rewrite IH, Nat.add_succ_r. cbn.
    destruct (parse_rows parse (S index) a) as [l|e]; cbn; [|done]. destruct (parse_rows parse (S (index + length a)) b); cbn; [|done]. by rewrite app_assoc.
Qed.

(** A mapping the page can show and read back: its texts survive the form, and it has the
    two that are required. *)
Definition showable (m : PathMapping) : Prop :=
  form_text (pm_arr m) /\ pm_arr m <> [] /\ form_text (pm_sharerr m) /\ pm_sharerr m <> [] /\
  match pm_qbit m with Some q => form_text q /\ q <> [] | None => True end.

Lemma nonempty_true {A : Type} (l : list A) : l <> [] -> is_nonempty l = true.
Proof. by destruct l. Qed.

Lemma shown_row index m : showable m -> parse_path_row index (path_row m) = Ok [m].
Proof.
  destruct m as [arr sharerr qbit]. intros ([Hua Hta] & Hna & [Hus Hts] & Hns & Hq). unfold path_row, parse_path_row. cbn [pm_arr pm_sharerr pm_qbit] in *.
  rewrite !(to_string_lossy_valid arr), !(to_string_lossy_valid sharerr), Hta, Hts, !(nonempty_true arr), !(nonempty_true sharerr) by done. cbn [negb andb orb].
  destruct qbit as [q|]; [|done]. destruct Hq as [[Huq Htq] Hnq]. change (default [] (Some q)) with q. by rewrite to_string_lossy_valid, Htq, nonempty_true.
Qed.

Lemma shown_rows index mappings : Forall showable mappings -> parse_rows parse_path_row index (map path_row mappings) = Ok mappings.
Proof.
  intros H. revert index. induction H as [|m mappings Hm _ IH]; intros index; [done|]. cbn [map parse_rows]. by rewrite shown_row, IH.
Qed.

(** *** The environment *)

(** The same scan with ASCII's case mapping, which can be computed. *)
Definition ascii_case : CaseMap := {| str_to_uppercase := map to_ascii_uppercase; str_to_lowercase := map to_ascii_lowercase |}.

Lemma ascii_case_laws : CaseLaws ascii_case.
Proof. by split. Qed.

Lemma upper_is_ascii s : Forall (fun b => is_ascii b = true) s -> Forall (fun b => is_ascii b = true) (map to_ascii_uppercase s).
Proof. intros H. apply Forall_fmap. eapply Forall_impl; [exact H|]. intros b. by destruct b. Qed.

Lemma pinned_ascii `{CM : CaseMap} {CL : CaseLaws CM} name :
  Forall (fun b => is_ascii b = true) name -> pinned_path (CM := CM) name = pinned_path (CM := ascii_case) name.
Proof.
  intros Ha. unfold pinned_path. cbn [str_to_uppercase str_to_lowercase ascii_case]. rewrite uppercase_ascii by done. pose proof (upper_is_ascii _ Ha) as Hu.
  destruct (str_strip_prefix (bs "SHARERR_") (map to_ascii_uppercase name)) as [rest|] eqn:E; [|done]. apply str_strip_prefix_spec in E.
  rewrite E in Hu. apply Forall_app in Hu as [_ Hr]. cbn [mbind option_bind]. destruct (_ || _); [done|].
  assert (Forall (fun b => is_ascii b = true) (default rest (strip_suffix (bs "_FILE") rest))) as Hd.
  { unfold strip_suffix. case_bool_decide; [|done]. cbn. by apply Forall_take. }
  destruct (is_nonempty _); [|done]. by rewrite lowercase_ascii.
Qed.

Lemma env_var_ascii `{CM : CaseMap} {CL : CaseLaws CM} path :
  Forall (fun b => is_ascii b = true) path -> env_var (CM := CM) path = env_var (CM := ascii_case) path.
Proof. intros Ha. unfold env_var. by rewrite uppercase_ascii. Qed.

(** Each path is pinned by its own variable, plain or naming a file. *)
Lemma paths_pinned :
  Forall (fun path => Forall (fun b => is_ascii b = true) path /\
    Forall (fun name => Forall (fun b => is_ascii b = true) name /\ pinned_path (CM := ascii_case) name = Some path)
      [env_var (CM := ascii_case) path; env_var (CM := ascii_case) path ++ bs "_FILE"]) CONFIG_PATHS.
Proof. apply (bool_decide_unpack _). by vm_compute. Qed.

Lemma overrides_fold `{CM : CaseMap} (vars : list (bytes * bytes)) (found : gmap bytes bytes) (path : bytes) :
  let found' := fold_left (fun found var => match pinned_path var.1 with Some path => <[path := var.1]> found | None => found end) vars found in
  (exists name, found' !! path = Some name /\ name ∈ map fst vars /\ pinned_path name = Some path) \/
  (found' !! path = found !! path /\ forall var, var ∈ vars -> pinned_path var.1 <> Some path).
Proof.
  revert found. induction vars as [|[name value] vars IH]; intros found; cbn [fold_left fst map].
  - right. split; [done|]. intros var H. by apply elem_of_nil in H.
  - destruct (IH (match pinned_path name with Some p => <[p := name]> found | None => found end)) as [(n & Hn & Hin & Hp)|[Hsame Hno]].
    + left. exists n. split; [done|]. split; [by right|done].
    + destruct (decide (pinned_path name = Some path)) as [Hp|Hp].
      * left. exists name. rewrite Hsame, Hp, lookup_insert_eq. split; [done|]. split; [by left|done].
      * right. split.
        { rewrite Hsame. destruct (pinned_path name) as [p|]; [|done]. by rewrite lookup_insert_ne by congruence. }
        intros var [->|H]%elem_of_cons; [done|]. by apply Hno.
Qed.

(** ** What editing and saving promise *)

(** An edit changes the field it names and nothing else.  After any edit of any
    document the field reads as the edit wrote it, or is gone if it unset it; and when the
    sections on the way are written with their headers, every field that is neither the
    edited one, inside it nor around it reads as before. *)
Theorem edit_exact (doc : Table) (edit : Edit) :
  let segments := path_segments (ed_path edit) in
  plain_way segments doc ->
  doc_at segments (apply_one doc edit) = written (ed_value edit) /\
  forall other, ~ segments `prefix_of` other -> ~ other `prefix_of` segments -> doc_at other (apply_one doc edit) = doc_at other doc.
Proof.
  intros segments Hw. assert (segments <> []) as Hne.
  { unfold segments, path_segments. destruct (split_byte_cons "."%byte (ed_path edit)) as (p & ps & ->). done. }
  split; [by apply apply_here|]. intros other Hp Hq. by apply apply_elsewhere.
Qed.

(** C18: A save of the configuration file is all or nothing.  Whatever call of the file
    system fails and whatever a torn write leaves, a save that succeeds leaves exactly the
    new text in place, with the text it replaced kept aside when the file had not loaded;
    one that fails leaves the file as it was, or, when it was being replaced whole, moved
    aside and nowhere else; no other file changes but the temporary one. *)
Theorem config_write_atomic `{TW : TornWrites} (file : ConfigFile) (text path : bytes) (disk disk' : Disk) (r : result unit bytes) :
  checked_path (kf_path file) = Ok path -> NoDup (saved_paths path) -> write_validated file text disk = (r, disk') ->
  (forall q, q ∉ saved_paths path -> disk'.1 !! q = disk.1 !! q) /\
  match r with
  | Ok _ => file_replaced (kf_recovered file) path text disk.1 disk'.1
  | Err _ => file_kept (kf_recovered file) path disk.1 disk'.1
  end.
Proof. apply write_validated_inv. Qed.

(** Saving the path mappings as the page shows them changes nothing.  The rows the page
    shows for a configuration, with its spare blank row, are read back as the same
    mappings in the same order. *)
Theorem path_rows_roundtrip (mappings : list PathMapping) : Forall showable mappings -> parse_path_map (path_rows mappings) = Ok mappings.
Proof.
  intros H. unfold parse_path_map, path_rows. rewrite parse_rows_app, shown_rows by done. cbn. by rewrite app_nil_r.
Qed.

(** The page locks exactly the fields the environment pins.  For any environment, a
    path is reported exactly when some variable addresses it, under the name of such a
    variable; and every path the settings pages write is addressed by its own variable,
    plain or naming a file, so that no field of theirs is shown free while a variable
    overrides it. *)
Theorem pinned_fields_exact `{CM : CaseMap} (vars : list (bytes * bytes)) (path : bytes) :
  CaseLaws CM ->
  (forall name, collect_overrides vars !! path = Some name -> name ∈ map fst vars /\ pinned_path name = Some path) /\
  (path ∈ CONFIG_PATHS -> (exists value, (env_var path, value) ∈ vars \/ (env_var path ++ bs "_FILE", value) ∈ vars) -> is_Some (collect_overrides vars !! path)).
Proof.
  intros CL. pose proof (overrides_fold vars ∅ path) as H. cbn zeta in H. fold (collect_overrides vars) in H. split.
  - intros name Hn. destruct H as [(n & Hn' & ? & ?)|[Hs _]]; [rewrite Hn in Hn'; injection Hn' as <-; done|]. rewrite Hn in Hs. by rewrite lookup_empty in Hs.
  - intros Hpath (value & Hin). destruct H as [(n & -> & _)|[_ Hno]]; [done|]. exfalso.
    pose proof paths_pinned as Hall. rewrite Forall_forall in Hall. destruct (Hall _ Hpath) as [Ha [[Hn Hp] [[Hnf Hpf] _]%Forall_cons]%Forall_cons].
    rewrite <- (env_var_ascii path Ha) in *. rewrite <- pinned_ascii in Hp, Hpf by done.
    destruct Hin as [Hin|Hin]; by apply (Hno _ Hin).
Qed.

(** *** Witnesses *)

Definition sample_doc : Table :=
  [(bs "tag", ItemValue (TomlStr (bs "sharerr")));
   (bs "qbittorrent", ItemTable [(bs "url", ItemValue (TomlStr (bs "http://q"))); (bs "category", ItemValue (TomlStr (bs "mine")))])].

Lemma edit_exact_witness :
  let doc := apply_one sample_doc (edit_str (bs "qbittorrent.url") (bs "http://r")) in
  doc_str doc (bs "qbittorrent.url") = Some (bs "http://r") /\ doc_at [bs "qbittorrent"; bs "category"] doc = Some (ItemValue (TomlStr (bs "mine"))).
Proof.
  destruct (edit_exact sample_doc (edit_str (bs "qbittorrent.url") (bs "http://r"))) as [_ H]; [vm_compute; exact I|].
  split; [reflexivity|]. rewrite H.
  - reflexivity.
  - apply (bool_decide_unpack _). vm_compute. exact I.
  - apply (bool_decide_unpack _). vm_compute. exact I.
Defined.

(** The same section written inline loses everything but the edited field. *)
Example inline_section_dropped :
  let doc := [(bs "qbittorrent", ItemInline [(bs "url", ItemValue (TomlStr (bs "http://q"))); (bs "category", ItemValue (TomlStr (bs "mine")))])] in
  doc_str doc (bs "qbittorrent.category") = Some (bs "mine") /\
  doc_str (apply_one doc (edit_str (bs "qbittorrent.url") (bs "http://r"))) (bs "qbittorrent.category") = None.
Proof. split; reflexivity. Qed.

Definition no_torn : TornWrites := fun _ => None.
Definition toml_at : bytes := bs "/data/sharerr.toml".

Lemma config_write_atomic_witness :
  let '(r, disk) := write_validated (TW := no_torn) (mkConfigFile toml_at [] false) (bs "tag = 1") (<[toml_at := bs "old"]> ∅, mkScript [true; true; false] [] (bs "full")) in
  r = Err (bs "replacing /data/sharerr.toml: full") /\ disk.1 !! toml_at = Some (bs "old").
Proof.
  destruct (write_validated (mkConfigFile toml_at [] false) (bs "tag = 1") (<[toml_at := bs "old"]> ∅, mkScript [true; true; false] [] (bs "full"))) as [r disk] eqn:E.
  destruct (@config_write_atomic no_torn (mkConfigFile toml_at [] false) (bs "tag = 1") toml_at (<[toml_at := bs "old"]> ∅, mkScript [true; true; false] [] (bs "full")) disk r
    eq_refl ltac:(apply (bool_decide_unpack _); vm_compute; exact I) E) as [_ H].
  assert (r = Err (bs "replacing /data/sharerr.toml: full")) as Hr by (apply (f_equal fst) in E; vm_compute in E; rewrite <- E; reflexivity).
  split; [exact Hr|]. rewrite Hr in H. destruct H as [H|[H _]]; [|discriminate H]. rewrite H. reflexivity.
Defined.

Lemma path_rows_roundtrip_witness : parse_path_map (path_rows [mkMapping (bs "/tv") (bs "/media/tv") None]) = Ok [mkMapping (bs "/tv") (bs "/media/tv") None].
Proof.
  apply path_rows_roundtrip. constructor; [|constructor]. unfold showable, form_text. cbn [pm_arr pm_sharerr pm_qbit].
  split; [split; reflexivity|]. split; [discriminate|]. split; [split; reflexivity|]. split; [discriminate|exact I].
Defined.

Lemma pinned_fields_exact_witness : exists name, collect_overrides (CM := ascii_case) [(bs "SHARERR_SYNC__INTERVAL_SECS", bs "60")] !! bs "sync.interval_secs" = Some name.
Proof.
  destruct (@pinned_fields_exact ascii_case [(bs "SHARERR_SYNC__INTERVAL_SECS", bs "60")] (bs "sync.interval_secs") ascii_case_laws) as [_ H].
  apply H; [apply (bool_decide_unpack _); vm_compute; exact I|]. exists (bs "60"). left. apply list_elem_of_singleton. reflexivity.
Defined.
