(* ===== verification/SettingsForms.v ===== *)
(** * The settings forms (crates/sharerr/src/web/settings/mod.rs)

    Every save of the settings page: what its form makes of the configuration file, in
    which order file and vault change, and what is in force afterwards.  The state is the
    running process with the files a save touches and the recorded failure of the last
    load. *)

From S2P Require Import Prelude RustStd Text BTreeMap Bencode Metainfo Net Endpoint TrackerUrl Announce Model Paths Factory Title Lighthouse FileTree Totp Effects Accounts Library Database Items Peers History Sightings Client Vault Serve Gluetun TrackerRoutes Torznab Gossip Exchange Pairing Friends Alerts Settings Json Qbit Transmission Checks ConfigFile.

(** ** State *)

Record Panel `{U : UrlLib} : Type := mkPanel { pn_serve : Serve; pn_files : gmap bytes bytes; pn_config_error : option bytes }.

Abbreviation PanelM := (St Panel).

(** An edit of the open file, or a refusal. *)
Abbreviation EditFn := (ConfigFile -> result ConfigFile bytes).

(** An edited, validated document that has not been written yet. *)
Record PendingConfig `{U : UrlLib} : Type := mkPending { pd_file : ConfigFile; pd_text : bytes; pd_config : ServeConfig }.

(** The texts of library values the messages embed, and Rust's reading of a float. *)
Class FormText (U : UrlLib) : Type := {
  url_error_text : ParseError -> bytes;
  debug_text : bytes -> bytes;
  save_error_text : SaveError -> bytes;
  parse_f64 : bytes -> option N
}.

Section Machinery.
Context `{U : UrlLib} `{D : Digests} `{C : VaultCipher} `{KF : KeyFiles} `{ME : MasterEnv}.
Context `{CL : !ConfigLayers U} `{TW : TornWrites} `{FT : !FormText U} (config_path : bytes).

Definition on_serve {A : Type} (m : ServeM A) : PanelM A := focus pn_serve (fun s p => mkPanel U s (pn_files p) (pn_config_error p)) m.

(** A call on the files, whose outcomes come from the same script. *)
Definition on_disk {A : Type} (m : FileM A) : PanelM A :=
  focus (fun p => (pn_files p, sv_script (pn_serve p)))
        (fun disk p => mkPanel U (put_vault (sv_vault (pn_serve p)) disk.2 (pn_serve p)) disk.1 (pn_config_error p)) m.

(** Whether a blocking task finished. *)
Definition task (what : bytes) : PanelM (result unit bytes) := on_disk (file_call what).

(** [replacement_for]. *)
Definition replacement_for (config : ServeConfig) : ConfigFile :=
  apply_edits [edit_str (bs "data_dir") (to_string_lossy (cf_data_dir config)); edit_str (bs "server.bind") (server_bind_text config)] (replacing config_path).

Definition open_for_edit : PanelM (result ConfigFile bytes) :=
  let! broken := sgets pn_config_error in
  match broken with
  | Some _ => let! config := sgets (fun p => sv_config (pn_serve p)) in sret (Ok (replacement_for config))
  | None => try! joined := task (bs "opening the config file") in on_disk (config_open config_path)
  end.

Definition prepare_config (edit : EditFn) : PanelM (result PendingConfig bytes) :=
  try! file := open_for_edit in
  sret (let? file := edit file in
        let text := to_toml file in
        let? config := validate text in
        Ok (mkPending U file text config)).

Definition adopt (config : ServeConfig) : PanelM unit :=
  let! replaced := on_serve (replace_config config) in
  smodify (fun p => mkPanel U (pn_serve p) (pn_files p) None).

(** [commit_config]: where the browser is sent, or why it stays. *)
Definition commit_config (section : bytes) (next : option bytes) (pending : PendingConfig) : PanelM (result bytes bytes) :=
  try! joined := task (bs "writing the config file") in
  try! written := on_disk (write_validated (pd_file pending) (pd_text pending)) in
  let! adopted := adopt (pd_config pending) in
  sret (Ok (default (bs "/settings") (sanitize_next next) ++ bs "?saved=" ++ section)).

Definition write_config (section : bytes) (next : option bytes) (edit : EditFn) : PanelM (result bytes bytes) :=
  try! pending := prepare_config edit in commit_config section next pending.

Definition secret_step (key value : bytes) (clear : bool) : PanelM (result bool bytes) :=
  let! changed := on_serve (apply_secret key value clear) in sret (rmap_err save_error_text changed).

(** [invalidate_unless_committed]. *)
Definition invalidate_unless_committed (changed : bool) (response : result bytes bytes) : PanelM unit :=
  match response with Err _ => if changed then on_serve invalidate else sret tt | Ok _ => sret tt end.

Definition write_config_and_secret (section : bytes) (next : option bytes) (edit : EditFn) (key value : bytes) (clear : bool) : PanelM (result bytes bytes) :=
  try! pending := prepare_config edit in
  try! changed := secret_step key value clear in
  let! response := commit_config section next pending in
  let! dropped := invalidate_unless_committed changed response in
  sret response.

(** ** Fields *)

Definition normalise_url (raw : bytes) : result bytes bytes :=
  let candidate := if contains (bs "://") raw then raw else bs "http://" ++ raw in
  match url_parse candidate with
  | Ok url => Ok (url_as_str url)
  | Err err => Err (debug_text raw ++ bs " is not a valid URL: " ++ url_error_text err)
  end.

Definition url_or_unset (path raw : bytes) : result Edit bytes :=
  let url := trim raw in
  if is_nonempty url then let? url := normalise_url url in Ok (edit_str path url) else Ok (edit_unset path).

Definition validate_advertised_host (host : bytes) : result unit bytes :=
  if contains (bs "://") host || contains (bs "/") host then
    Err (debug_text host ++ bs " should be a bare host name or address — no scheme or path. Use `advertised_url` for a full URL")
  else if existsb is_whitespace (chars host) then Err (debug_text host ++ bs " contains whitespace")
  else if contains (bs ":") host && negb (starts_with (bs "[") host && bool_decide (last host = Some "]"%byte)) then
    Err (debug_text host ++ bs " should not carry a port — the tracker port is its own setting — and an IPv6 address must be written in brackets")
  else if str_eq_ignore_ascii_case host (bs "localhost") then
    Err (debug_text host ++ bs " only resolves on this machine — a friend elsewhere could never reach it")
  else match parse_ip (trim_matches is_bracket host) with
       | Some ip => if is_private_ip ip then Err (debug_text host ++ bs " is a loopback or private address — a friend outside this network could never reach it") else Ok tt
       | None => Ok tt
       end.

Definition parse_optional {T : Type} (raw : bytes) (parse : bytes -> result T bytes) : result (option T) bytes :=
  let text := trim raw in if is_nonempty text then let? v := parse text in Ok (Some v) else Ok None.

Definition parse_upload_limit_kib (raw : bytes) : result (option N) bytes :=
  parse_optional raw (fun text => ok_or (parse_u u64_max text) (bs "the upload limit must be a whole number of KiB/s")).

(** Finite and above zero: of the bits of an [f64], between zero and infinity. *)
Definition parse_ratio_limit (raw : bytes) : result (option N) bytes :=
  parse_optional raw (fun text =>
    let? ratio := ok_or (parse_f64 text) (bs "the ratio limit must be a number, e.g. 2.0") in
    if (0 <? ratio)%N && (ratio <? f64_infinity)%N then Ok ratio else Err (bs "the ratio limit must be a positive number")).

(** [parse_lighthouse_urls]. *)
Fixpoint lighthouse_lines (index : nat) (lines : list bytes) : result (list bytes) bytes :=
  match lines with
  | [] => Ok []
  | line :: lines =>
      let line := trim line in
      if is_nonempty line then
        let? parsed := rmap_err (fun _ => row_of index (bs "lighthouse URL") (bs " is not valid: " ++ debug_text line)) (url_parse line) in
        let? rest := lighthouse_lines (S index) lines in
        Ok (url_as_str parsed :: rest)
      else lighthouse_lines (S index) lines
  end.

Definition parse_lighthouse_urls (raw : bytes) : result (list bytes) bytes := lighthouse_lines 0 (str_lines raw).

(** ** The forms *)

Record ArrForm : Type := mkArrForm { af_url : bytes; af_api_key : bytes; af_clear_api_key : option bytes }.
Record QbitForm : Type := mkQbitForm {
  qf_url : bytes; qf_api_key : bytes; qf_clear_api_key : option bytes; qf_category : bytes; qf_tag : bytes; qf_skip_checking : option bytes
}.
Record RpcClientForm : Type := mkRpcForm { rf_url : bytes; rf_username : bytes; rf_password : bytes; rf_clear_password : option bytes; rf_label : bytes }.
Record TrackerForm : Type := mkTrackerForm {
  tf_advertised_host : bytes; tf_port : bytes; tf_advertised_url : bytes; tf_token : bytes; tf_clear_token : option bytes
}.
Record LighthouseForm : Type := mkLighthouseForm { lf_enabled : option bytes; lf_mount : bytes; lf_urls : bytes }.
Record SeedingForm : Type := mkSeedingForm {
  sf_upload_limit_kib : bytes; sf_ratio_limit : bytes; sf_private : option bytes; sf_sidecars : option bytes; sf_hybrid : option bytes;
  sf_magnet_links : option bytes; sf_quiet_hours : bytes; sf_quiet_upload_limit_kib : bytes
}.
Record GluetunForm : Type := mkGluetunForm {
  gf_enabled : option bytes; gf_control_url : bytes; gf_api_key : bytes; gf_clear_api_key : option bytes; gf_poll_secs : bytes
}.
Record SyncForm : Type := mkSyncForm { yf_enabled : option bytes; yf_interval_secs : bytes }.
Record NotificationsForm : Type := mkNotificationsForm {
  nf_webhook_url : bytes; nf_clear_webhook_url : option bytes; nf_kind : bytes; nf_peer_quiet_secs : bytes; nf_heartbeat_url : bytes;
  nf_clear_heartbeat_url : option bytes; nf_heartbeat_secs : bytes; nf_triggers : list bytes
}.
Record TokenToggleForm : Type := mkToggleForm { kf_enabled : option bytes; kf_token : bytes; kf_clear_token : option bytes }.
Record PathsForm : Type := mkPathsForm { pf_arr : list bytes; pf_sharerr : list bytes; pf_qbit : list bytes }.
Record LibrariesForm : Type := mkLibrariesForm { bf_path : list bytes; bf_kind : list bytes }.

(** A checkbox: present when ticked. *)
Definition ticked (box : option bytes) : bool := match box with Some _ => true | None => false end.

(** ** The saves *)

Definition general_edit (tag : bytes) : EditFn := fun file => Ok (apply_edits [edit_str (bs "tag") tag] file).

Definition save_general (next : option bytes) (tag : bytes) : PanelM (result bytes bytes) :=
  let tag := trim tag in
  if is_nonempty tag then write_config (bs "general") next (general_edit tag)
  else sret (Err (bs "The tag cannot be blank — it is what sharerr looks for.")).

(** [config_paths::url_for]. *)
Definition url_for (source : MediaSource) : option bytes :=
  match source with
  | Sonarr => Some (bs "sonarr.url")
  | Radarr => Some (bs "radarr.url")
  | Lidarr => Some (bs "lidarr.url")
  | Readarr => Some (bs "readarr.url")
  | Whisparr => Some (bs "whisparr.url")
  | Directory => None
  end.

Definition arr_edit (section url_path : bytes) (form : ArrForm) : EditFn := fun file =>
  let url := trim (af_url form) in
  if is_nonempty url then let? url := normalise_url url in Ok (apply_edits [edit_str url_path url] file)
  else Ok (apply_edits [edit_unset section] file).

Definition save_arr (source : MediaSource) (next : option bytes) (form : ArrForm) : PanelM (result bytes bytes) :=
  match url_for source, credential_for source with
  | Some url_path, Some secret_key =>
      let section := as_str_name source in
      write_config_and_secret section next (arr_edit section url_path form) secret_key (af_api_key form) (ticked (af_clear_api_key form))
  | _, _ => sret (Err (bs "There is no such service to configure."))
  end.

Definition qbit_edit (form : QbitForm) : EditFn := fun file =>
  let url := trim (qf_url form) in
  if is_nonempty url then
    let? url := normalise_url url in
    Ok (apply_edits [edit_str (bs "qbittorrent.url") url; str_or_unset (bs "qbittorrent.category") (trim (qf_category form));
                     str_or_unset (bs "qbittorrent.tag") (trim (qf_tag form)); edit_bool (bs "qbittorrent.skip_checking") (ticked (qf_skip_checking form))] file)
  else Err (bs "qBittorrent's URL is required — sharerr cannot seed without it").

Definition save_qbittorrent (next : option bytes) (form : QbitForm) : PanelM (result bytes bytes) :=
  let api_key := trim (qf_api_key form) in
  if is_nonempty api_key && negb (looks_like_api_key api_key) then
    sret (Err (bs "That does not look like a qBittorrent API key. Keys are 32 characters: `qbt_` followed by 28 letters and digits, from Options -> Web UI -> API key."))
  else write_config_and_secret (bs "qbittorrent") next (qbit_edit form) (bs "qbittorrent.api_key") (qf_api_key form) (ticked (qf_clear_api_key form)).

(** The section, the three paths, the vault key and the refusal of an RPC client. *)
Definition rpc_section (backend : TorrentBackend) : option (bytes * bytes * option bytes * bytes * bytes * bytes) :=
  match backend with
  | BTransmission => Some (bs "transmission", bs "transmission.url", Some (bs "transmission.username"), bs "transmission.label", bs "transmission.password",
                           bs "Transmission's URL is required — sharerr cannot seed without it")
  | BRtorrent => Some (bs "rtorrent", bs "rtorrent.url", Some (bs "rtorrent.username"), bs "rtorrent.label", bs "rtorrent.password",
                       bs "rTorrent's URL is required — sharerr cannot seed without it. This is the exact XML-RPC endpoint your reverse proxy answers on, not a base address.")
  | BDeluge => Some (bs "deluge", bs "deluge.url", None, bs "deluge.label", bs "deluge.password", bs "Deluge's URL is required — sharerr cannot seed without it")
  | BQbittorrent => None
  end.

Definition rpc_edit (url_path : bytes) (username_path : option bytes) (label_path missing_url : bytes) (form : RpcClientForm) : EditFn := fun file =>
  let url := trim (rf_url form) in
  if is_nonempty url then
    let? url := normalise_url url in
    let file := apply_edits [edit_str url_path url; str_or_unset label_path (trim (rf_label form))] file in
    Ok (match username_path with Some path => apply_edits [str_or_unset path (trim (rf_username form))] file | None => file end)
  else Err missing_url.

Definition save_rpc_client (next : option bytes) (form : RpcClientForm) (backend : TorrentBackend) : PanelM (result bytes bytes) :=
  match rpc_section backend with
  | None => sret (Err (bs "There is no such service to configure."))
  | Some (section, url_path, username_path, label_path, password_key, missing_url) =>
      write_config_and_secret section next (rpc_edit url_path username_path label_path missing_url form) password_key (rf_password form) (ticked (rf_clear_password form))
  end.

Definition backend_edit (backend : bytes) : EditFn := fun file =>
  match parse_enum (A := TorrentBackend) backend with
  | Some b => Ok (apply_edits [edit_str (bs "torrent_backend") (as_str_name b)] file)
  | None => Err (debug_text backend ++ bs " is not a torrent client sharerr supports")
  end.

Definition save_torrent_backend (next : option bytes) (backend : bytes) : PanelM (result bytes bytes) :=
  write_config (bs "torrent_backend") next (backend_edit backend).

Definition tracker_edit (form : TrackerForm) : EditFn := fun file =>
  let host := trim (tf_advertised_host form) in
  let? _ := if is_nonempty host then validate_advertised_host host else Ok tt in
  let port := trim (tf_port form) in
  let? port_edit := if is_nonempty port
                    then let? n := ok_or (parse_u u16_max port) (debug_text port ++ bs " is not a port number between 1 and 65535") in
                         Ok (edit_int (bs "tracker.port") (Z.of_N n))
                    else Ok (edit_unset (bs "tracker.port")) in
  let? url_edit := url_or_unset (bs "tracker.advertised_url") (tf_advertised_url form) in
  Ok (apply_edits [str_or_unset (bs "tracker.advertised_host") (tf_advertised_host form); port_edit; url_edit] file).

(** [save_tracker]: the token changes between the preparation and the commit. *)
Definition save_tracker (next : option bytes) (form : TrackerForm) : PanelM (result bytes bytes) :=
  try! pending := prepare_config (tracker_edit form) in
  let token := trim (tf_token form) in
  try! valid := sret (validate_value TRACKER_TOKEN token) in
  try! outcome := (let! r := (if ticked (tf_clear_token form) then on_serve clear_tracker_token
                              else if is_nonempty token then on_serve (rotate_tracker_token token) else sret (Ok tt)) in
                   sret (rmap_err save_error_text r)) in
  commit_config (bs "tracker") next pending.

(** [config::LighthouseMount]. *)
Definition parse_mount (name : bytes) : option bytes :=
  if bool_decide (name = bs "frontend") || bool_decide (name = bs "tracker") then Some name else None.

Definition lighthouse_edit (mount : bytes) (urls : list bytes) (form : LighthouseForm) : EditFn := fun file =>
  Ok (apply_edits [edit_bool (bs "lighthouse.enabled") (ticked (lf_enabled form)); edit_str (bs "lighthouse.mount") mount;
                   if is_nonempty urls then edit_str_list (bs "lighthouse.urls") urls else edit_unset (bs "lighthouse.urls")] file).

Definition save_lighthouse (form : LighthouseForm) : PanelM (result bytes bytes) :=
  match parse_mount (lf_mount form) with
  | None => sret (Err (bs "That is not a valid lighthouse listener choice."))
  | Some mount =>
      match parse_lighthouse_urls (lf_urls form) with
      | Err err => sret (Err err)
      | Ok urls =>
          write_config (bs "lighthouse") None (lighthouse_edit mount urls form)
      end
  end.

(** [Display] for the errors of [QuietHours::from_str]. *)
Context (quiet_error_text : QuietError -> bytes).

Definition quiet_context (e : bytes) : bytes := bs "quiet hours: " ++ e.

(** The fields of the form that can be refused ([SeedingLimits], [parse_seeding]). *)
Record SeedingFields : Type := mkSeedingFields {
  sl_upload_limit_kib : option N; sl_ratio_limit : option N; sl_quiet_upload_limit_kib : option N; sl_quiet_hours : option QuietHours
}.

Definition parse_seeding (form : SeedingForm) : result SeedingFields bytes :=
  let? upload := parse_upload_limit_kib (sf_upload_limit_kib form) in
  let? ratio := parse_ratio_limit (sf_ratio_limit form) in
  let? quiet_upload := rmap_err quiet_context (parse_upload_limit_kib (sf_quiet_upload_limit_kib form)) in
  let? quiet := rmap_err quiet_context (parse_optional (sf_quiet_hours form) (fun text => rmap_err quiet_error_text (parse_quiet_hours text))) in
  Ok (mkSeedingFields upload ratio quiet_upload quiet).

Definition seeding_edits (limits : SeedingFields) (form : SeedingForm) : list Edit :=
  let kib path n := edit_int path (saturating_i64 n) in
  [or_unset (bs "seeding.quiet_hours") (sl_quiet_hours limits) (fun path w => edit_str path (quiet_to_string w));
   or_unset (bs "seeding.quiet_upload_limit_kib") (sl_quiet_upload_limit_kib limits) kib;
   or_unset (bs "seeding.upload_limit_kib") (sl_upload_limit_kib limits) kib;
   or_unset (bs "seeding.ratio_limit") (sl_ratio_limit limits) edit_float;
   edit_bool (bs "seeding.private") (ticked (sf_private form)); edit_bool (bs "seeding.sidecars") (ticked (sf_sidecars form));
   edit_bool (bs "seeding.hybrid") (ticked (sf_hybrid form)); edit_bool (bs "feed.magnet_links") (ticked (sf_magnet_links form))].

Definition seeding_edit (limits : SeedingFields) (form : SeedingForm) : EditFn := fun file => Ok (apply_edits (seeding_edits limits form) file).

Definition save_seeding (form : SeedingForm) : PanelM (result bytes bytes) :=
  match parse_seeding form with
  | Err err => sret (Err err)
  | Ok limits => write_config (bs "seeding") None (seeding_edit limits form)
  end.

(** [i64::try_from(n).unwrap_or(other)]. *)
Definition i64_or (other : Z) (n : N) : Z := if (Z.of_N n <=? i64_max)%Z then Z.of_N n else other.

Definition gluetun_edit (section : bytes) (form : GluetunForm) : EditFn := fun file =>
  let? url_edit := url_or_unset (section ++ bs ".control_url") (gf_control_url form) in
  let file := apply_edits [edit_bool (section ++ bs ".enabled") (ticked (gf_enabled form)); url_edit] file in
  let poll := trim (gf_poll_secs form) in
  if is_nonempty poll then
    let? secs := ok_or (parse_u u64_max poll) (bs "the poll interval must be a whole number of seconds") in
    if (secs <? MIN_POLL_SECS)%N then Err (bs "the poll interval must be at least " ++ u_to_string MIN_POLL_SECS ++ bs " seconds")
    else Ok (apply_edits [edit_int (section ++ bs ".poll_secs") (i64_or 60 secs)] file)
  else Ok file.

Definition gluetun_section (target : GluetunTarget) : bytes := match target with TunTracker => bs "gluetun" | TunClient => bs "gluetun_client" end.

Definition save_gluetun_section (form : GluetunForm) (target : GluetunTarget) : PanelM (result bytes bytes) :=
  let section := gluetun_section target in
  write_config_and_secret section None (gluetun_edit section form) (section ++ bs ".api_key") (gf_api_key form) (ticked (gf_clear_api_key form)).

Definition sync_edit (form : SyncForm) : EditFn := fun file =>
  let? interval := ok_or (parse_u u64_max (trim (yf_interval_secs form))) (bs "the sync interval must be a whole number of seconds") in
  if (interval <? MIN_INTERVAL_SECS)%N then Err (bs "the sync interval must be at least " ++ u_to_string MIN_INTERVAL_SECS ++ bs " seconds")
  else Ok (apply_edits [edit_bool (bs "sync.enabled") (ticked (yf_enabled form)); edit_int (bs "sync.interval_secs") (i64_or 900 interval)] file).

Definition save_sync (form : SyncForm) : PanelM (result bytes bytes) := write_config (bs "sync") None (sync_edit form).

Definition checks_edit (reachability : option bytes) : EditFn := fun file => Ok (apply_edits [edit_bool (bs "checks.reachability") (ticked reachability)] file).

Definition save_checks (reachability : option bytes) : PanelM (result bytes bytes) := write_config (bs "checks") None (checks_edit reachability).

(** [NotifyKind::parse]. *)
Definition parse_kind (name : bytes) : option NotifyKind :=
  List.find (fun k => bool_decide (notify_kind_str k = name)) [Generic; Discord; Apprise; Ntfy; Gotify; Telegram; Pushover].

Definition notifications_edit (form : NotificationsForm) (heartbeat_secs : option N) : EditFn := fun file =>
  match parse_kind (trim (nf_kind form)) with
  | None => Err (debug_text (nf_kind form) ++ bs " is not a known notification kind")
  | Some kind =>
      let file := apply_edits [edit_str (bs "notifications.kind") (notify_kind_str kind)] file in
      let? secs := ok_or (parse_u u64_max (trim (nf_peer_quiet_secs form))) (bs "the peer-quiet threshold must be a whole number of seconds") in
      let file := apply_edits [edit_int (bs "notifications.peer_quiet_secs") (i64_or 604800 secs)] file in
      let file := match heartbeat_secs with Some secs => apply_edits [edit_int (bs "notifications.heartbeat_secs") (i64_or 60 secs)] file | None => file end in
      let selected := filter (fun name => name ∈ nf_triggers form) (map as_str_name (ALL (A := NotificationTrigger))) in
      Ok (apply_edits [edit_str_list (bs "notifications.triggers") selected] file)
  end.

Definition not_a_url (text : bytes) : bool := is_nonempty text && match url_parse text with Ok _ => false | Err _ => true end.

Definition parse_heartbeat_secs (raw : bytes) : result (option N) bytes :=
  let text := trim raw in
  if is_nonempty text then let? secs := ok_or (parse_u u64_max text) (bs "The heartbeat interval must be a whole number of seconds.") in Ok (Some secs)
  else Ok None.

Definition save_notifications (form : NotificationsForm) : PanelM (result bytes bytes) :=
  let webhook := trim (nf_webhook_url form) in
  let heartbeat := trim (nf_heartbeat_url form) in
  if not_a_url webhook then sret (Err (bs "That does not look like a valid webhook URL."))
  else if not_a_url heartbeat then sret (Err (bs "That does not look like a valid heartbeat push URL."))
  else
    try! heartbeat_secs := sret (parse_heartbeat_secs (nf_heartbeat_secs form)) in
    try! heartbeat_changed := secret_step (bs "notifications.heartbeat_url") heartbeat (ticked (nf_clear_heartbeat_url form)) in
    let! response := write_config_and_secret (bs "notifications") None (notifications_edit form heartbeat_secs) NOTIFICATIONS_WEBHOOK_URL webhook (ticked (nf_clear_webhook_url form)) in
    let! dropped := invalidate_unless_committed heartbeat_changed response in
    sret response.

Definition toggle_edit (enabled_path : bytes) (form : TokenToggleForm) : EditFn := fun file =>
  Ok (apply_edits [edit_bool enabled_path (ticked (kf_enabled form))] file).

Definition save_token_toggle (section enabled_path key : bytes) (form : TokenToggleForm) : PanelM (result bytes bytes) :=
  write_config_and_secret section None (toggle_edit enabled_path form) key (trim (kf_token form)) (ticked (kf_clear_token form)).

Definition save_metrics (form : TokenToggleForm) : PanelM (result bytes bytes) := save_token_toggle (bs "metrics") (bs "metrics.enabled") (bs "metrics.token") form.
Definition save_api (form : TokenToggleForm) : PanelM (result bytes bytes) := save_token_toggle (bs "api") (bs "api.enabled") (bs "api.token") form.

(** [strip_peers_block], and [import_peers] with it; [peers] is the block of the document. *)
Definition strip_peers_block : PanelM (result unit bytes) :=
  try! file := on_disk (config_open config_path) in
  let file := clear_peers file in
  let text := to_toml file in
  try! config := sret (validate text) in
  on_disk (write_validated file text).

Context `{UT : !UrlText U} `{RO : RowOrder}.

Definition import_peers_block (now : Z) (peers : list PeerImport) (config : ServeConfig) : PanelM unit :=
  let! drained := on_serve (import_peers now peers) in
  match drained with
  | None => sret tt
  | Some _ => let! stripped := strip_peers_block in match stripped with Ok _ => adopt config | Err _ => sret tt end
  end.

(** [import_config]: the pasted document replaces the file. *)
Definition import_config (now : Z) (text : bytes) (peers : list PeerImport) : PanelM (result bytes bytes) :=
  match validate text with
  | Err err => sret (Err err)
  | Ok config =>
      let! response := commit_config (bs "config") None (mkPending U (replacing config_path) text config) in
      let! imported := (match response with Ok _ => import_peers_block now peers config | Err _ => sret tt end) in
      sret response
  end.

Definition library_form_rows (form : LibrariesForm) : list (bytes * bytes) := imap (fun i path => (path, default [] (bf_kind form !! i))) (bf_path form).

Definition save_libraries (form : LibrariesForm) : PanelM (result bytes bytes) :=
  match parse_libraries (library_form_rows form) with
  | Err err => sret (Err err)
  | Ok libraries => write_config (bs "libraries") None (fun file => Ok (set_libraries libraries file))
  end.

Definition path_form_rows (form : PathsForm) : list (bytes * bytes * bytes) :=
  imap (fun i arr => (arr, default [] (pf_sharerr form !! i), default [] (pf_qbit form !! i))) (pf_arr form).

Definition save_paths (next : option bytes) (form : PathsForm) : PanelM (result bytes bytes) :=
  match parse_path_map (path_form_rows form) with
  | Err err => sret (Err err)
  | Ok mappings => write_config (bs "paths") next (fun file => Ok (set_path_map mappings file))
  end.

End Machinery.

(** ** Facts: what moves during a save *)

Definition same_config `{U : UrlLib} (s s' : Serve) : Prop := sv_config s' = sv_config s.

#[export] Instance same_config_preorder `{U : UrlLib} : PreOrder (same_config (U := U)).
Proof. split; [done|]. intros a b c Hab Hbc. unfold same_config in *. congruence. Qed.

(** The configuration in force, the files and the recorded failure stay. *)
Record steady `{U : UrlLib} (p p' : Panel) : Prop := {
  st_config : sv_config (pn_serve p') = sv_config (pn_serve p);
  st_files : pn_files p' = pn_files p;
  st_error : pn_config_error p' = pn_config_error p
}.

#[export] Instance steady_preorder `{U : UrlLib} : PreOrder (steady (U := U)).
Proof. split; [done|]. intros a b c [] []. split; congruence. Qed.

(** Nothing moves but the outcomes still to come. *)
Record at_rest `{U : UrlLib} (p p' : Panel) : Prop := {
  ar_serve : undisturbed (pn_serve p) (pn_serve p');
  ar_files : pn_files p' = pn_files p;
  ar_error : pn_config_error p' = pn_config_error p
}.

#[export] Instance at_rest_preorder `{U : UrlLib} : PreOrder (at_rest (U := U)).
Proof. split; [by split|]. intros a b c [] []. split; [by transitivity (pn_serve b)|congruence..]. Qed.

(** An edit of the open file stays an edit of that file. *)
Definition path_kept (edit : EditFn) : Prop :=
  forall file file', edit file = Ok file' -> kf_path file' = kf_path file /\ kf_recovered file' = kf_recovered file.

Section SaveFacts.
Context `{U : UrlLib} `{D : Digests} `{C : VaultCipher} `{KF : KeyFiles} `{ME : MasterEnv}.

Lemma same_config_undisturbed {A : Type} (m : ServeM A) : moves undisturbed m -> moves same_config m.
Proof. apply moves_weaken. by intros s s' []. Qed.

Lemma same_config_handle {A : Type} vault (m : VaultM A) : moves same_config (on_handle vault m).
Proof. apply moves_focus. intros s. by destruct (m _) as [? [? ?]]. Qed.

Lemma same_config_open : moves same_config open_vault.
Proof. apply same_config_undisturbed, moves_open_vault. Qed.

Lemma same_config_invalidate : moves same_config invalidate.
Proof. by apply moves_modify. Qed.

Lemma same_config_secret key value clear : moves same_config (apply_secret key value clear).
Proof.
  unfold apply_secret. destruct (_ && _); [apply moves_ret; apply _|].
  apply moves_bind; [apply _|apply same_config_open|]. intros opened. apply moves_try_ret; [apply _|]. intros vault _.
  destruct clear; (apply moves_bind; [apply _|apply same_config_handle|]; intros; apply moves_ret; apply _).
Qed.

Lemma same_config_mutate f : (forall vault, moves same_config (f vault)) -> moves same_config (mutate_tracker_token f).
Proof.
  intros Hf. unfold mutate_tracker_token. apply moves_bind; [apply _|apply same_config_open|]. intros opened.
  apply moves_try_ret; [apply _|]. intros vault _. apply moves_try; [apply _|apply Hf|]. intros _.
  apply moves_bind; [apply _|apply same_config_invalidate|]. intros _.
  apply moves_bind; [apply _|by apply moves_modify|]. intros _. apply moves_ret. apply _.
Qed.

Lemma same_config_rotate value : moves same_config (rotate_tracker_token value).
Proof.
  apply same_config_mutate. intros vault. unfold rotate_tracker_token_in. apply moves_try; [apply _| |].
  - unfold preserve_current. destruct (vault_get _ _) as [[current|]|]; [case_bool_decide|..]; try (apply moves_ret; apply _).
    apply moves_bind; [apply _|apply same_config_handle|]. intros ?. apply moves_ret. apply _.
  - intros vault'. apply moves_bind; [apply _|apply same_config_handle|]. intros ?. apply moves_ret. apply _.
Qed.

Lemma same_config_clear : moves same_config clear_tracker_token.
Proof.
  apply same_config_mutate. intros vault. unfold clear_tracker_token_in. apply moves_bind; [apply _|apply same_config_handle|].
  intros [[] ?]; cbn [fst snd]; [|apply moves_ret; apply _]. apply moves_bind; [apply _|apply same_config_handle|]. intros ?. apply moves_ret. apply _.
Qed.

Lemma steady_on_serve {A : Type} (m : ServeM A) : moves same_config m -> moves steady (on_serve m).
Proof. intros H. apply moves_focus. intros p. specialize (H (pn_serve p)). by split. Qed.

Lemma steady_rest {A : Type} (m : PanelM A) : moves at_rest m -> moves steady m.
Proof. apply moves_weaken. intros p p' [[] ? ?]. by split. Qed.

Lemma rest_on_disk {A : Type} (m : FileM A) : (forall disk, (m disk).2.1 = disk.1) -> moves at_rest (on_disk m).
Proof.
  intros H. apply moves_focus. intros p. specialize (H (pn_files p, sv_script (pn_serve p))). split; cbn; try done.
  constructor; cbn; try done. exists (db_retention (sv_db (pn_serve p))). by rewrite with_retention_id.
Qed.

Lemma rest_task what : moves at_rest (task what).
Proof. apply rest_on_disk. intros disk. destruct (file_call what disk) as [r d] eqn:E. by apply file_call_inv in E. Qed.

(** What a save makes of the secrets. *)
Definition secret_saved (key value : bytes) (clear : bool) (s : Serve) (k : bytes) : result (option bytes) VaultError :=
  if decide (k = key) then if clear then Ok None else if is_nonempty (trim value) then Ok (Some (trim value)) else secret_of s k else secret_of s k.

Lemma apply_secret_inv {VL : VaultCipherLaws C} key value clear s r s' :
  utf8_valid key = true -> utf8_valid (trim value) = true -> apply_secret key value clear s = (r, s') ->
  match r with
  | Ok _ => vault_fits s' -> forall k, secret_of s' k = secret_saved key value clear s k
  | Err _ => sv_vault s' = sv_vault s
  end.
Proof.
  intros Hk Hv H. unfold apply_secret in H. destruct (negb clear && negb (is_nonempty (trim value))) eqn:Eb.
  { injection H as <- <-. intros _ k. unfold secret_saved. apply andb_prop in Eb as [->%negb_true_iff ->%negb_true_iff]. by destruct (decide (k = key)). }
  apply sbind_inv in H as (opened & s1 & Ho & H). destruct opened as [vault|e]; cbn [rmap_err] in H.
  2: { injection H as <- <-. pose proof (moves_open_vault s) as M. rewrite Ho in M. by destruct M. }
  apply open_vault_inv in Ho as [M Hh]. change (sbind (sret (Ok vault)) _ s1 = _) with (try_bind (sret (Ok vault)) _ s1 = _) in H.
  apply try_cases in H as [(e & [=] & _)|(v & s2 & [= <- <-] & H)].
  assert (forall k, secret_of s1 k = secret_of s k) as Hs by (intros k; by apply undisturbed_secret).
  destruct clear; apply sbind_inv in H as (out & s3 & Hrun & [= <- <-]).
  - apply handle_remove in Hrun as (file & script & -> & [(e & -> & ->)|(existed & -> & Hread)]); [..|done].
    + by destruct M.
    + intros [_ Hr]%Hread k. rewrite Hr. unfold secret_saved. by case_decide.
  - apply handle_put in Hrun as [(e & -> & M')|(-> & f & script & -> & Hread)]; [..|done|done|done].
    + transitivity (sv_vault s1); [by destruct M'|by destruct M].
    + intros [_ Hr]%Hread k. rewrite Hr. unfold secret_saved. cbn [negb andb] in Eb. apply negb_false_iff in Eb as ->. by case_decide.
Qed.

End SaveFacts.

(** A call on the files that succeeds when no call of the system fails. *)
Definition unfailing {A : Type} (m : FileM (result A bytes)) : Prop :=
  forall disk, sc_io disk.2 = [] -> (m disk).2.2 = disk.2 /\ exists a, (m disk).1 = Ok a.

Lemma unfailing_call what : unfailing (file_call what).
Proof. intros disk H. unfold file_call, draw. rewrite H. cbn. eauto. Qed.

Lemma unfailing_ret {A : Type} (a : A) : unfailing (sret (Ok a)).
Proof. intros disk _. cbn. eauto. Qed.

Lemma unfailing_try {A B : Type} (m : FileM (result A bytes)) (k : A -> FileM (result B bytes)) :
  unfailing m -> (forall a, unfailing (k a)) -> unfailing (try_bind m k).
Proof.
  intros Hm Hk disk H. unfold try_bind, sbind. destruct (Hm disk H) as [Hs [a Ha]]. destruct (m disk) as [r disk1].
  cbn in Hs, Ha. subst r. rewrite <- Hs. apply Hk. by rewrite Hs.
Qed.

Lemma unfailing_rename from to what : unfailing (rename from to what).
Proof. apply unfailing_try; [apply unfailing_call|]. intros _ disk _. cbn. eauto. Qed.

Lemma unfailing_write_file `{TW : TornWrites} path text what : unfailing (write_file path text what).
Proof. intros disk H. unfold write_file, file_call, draw, sbind. rewrite H. cbn. eauto. Qed.

Lemma unfailing_write_validated `{TW : TornWrites} file text path :
  checked_path (kf_path file) = Ok path -> unfailing (write_validated file text).
Proof.
  intros Hp. unfold write_validated. rewrite Hp. apply unfailing_try; [apply unfailing_ret|]. intros checked.
  apply unfailing_try.
  { destruct (parent checked) as [dir|]; [destruct (is_nonempty dir)|]; auto using unfailing_call, unfailing_ret. }
  intros _ disk. unfold sbind at 1. cbn [file_at sgets].
  apply unfailing_try; [destruct (_ && _); auto using unfailing_rename, unfailing_ret|]. intros _.
  apply unfailing_try; [apply unfailing_write_file|]. intros _. apply unfailing_rename.
Qed.

Section CommitFacts.
Context `{U : UrlLib} `{D : Digests} `{C : VaultCipher} `{KF : KeyFiles} `{ME : MasterEnv}.
Context `{CL : !ConfigLayers U} `{TW : TornWrites} `{FT : !FormText U} (config_path : bytes).
Hypothesis config_path_ok : checked_path config_path = Ok config_path.
Hypothesis config_paths_apart : NoDup (saved_paths config_path).

(** What an edit starts from: the file on disk, empty if there is none; or, when the
    last load failed, a fresh document with the two settings being run with. *)
Definition base_document (p : Panel) : option ConfigFile :=
  match pn_config_error p with
  | Some _ => Some (replacement_for config_path (sv_config (pn_serve p)))
  | None =>
      text ← match pn_files p !! config_path with Some text => from_utf8 text | None => Some [] end;
      doc ← res_ok (toml_parse text);
      Some (mkConfigFile config_path doc false)
  end.

(** What an edit makes of it: the text of the edited document and the configuration
    that text gives; nothing when the edit or the result is refused. *)
Definition edited (edit : EditFn) (p : Panel) : option (bytes * ServeConfig) :=
  base ← base_document p;
  file ← res_ok (edit base);
  config ← res_ok (validate (to_toml file));
  Some (to_toml file, config).

(** No call of the outside world is going to fail. *)
Definition calm (p : Panel) : Prop := sc_io (sv_script (pn_serve p)) = [].

Lemma calm_task what p : calm p -> calm (task what p).2 /\ exists a, (task what p).1 = Ok a.
Proof. unfold calm, task, on_disk, focus, file_call, draw. cbn. intros E. rewrite E. cbn. eauto. Qed.

Lemma config_open_inv disk r disk' :
  config_open config_path disk = (r, disk') ->
  disk'.1 = disk.1 /\ (sc_io disk.2 = [] -> disk'.2 = disk.2) /\
  let base := text ← match disk.1 !! config_path with Some text => from_utf8 text | None => Some [] end;
              doc ← res_ok (toml_parse text); Some (mkConfigFile config_path doc false) in
  (forall file, r = Ok file -> base = Some file) /\ (sc_io disk.2 = [] -> res_ok r = base).
Proof.
  unfold config_open. rewrite config_path_ok. intros [(e & [=] & _)|(path & d & [= <- <-] & H)]%try_cases. unfold read_or_empty in H.
  unfold try_bind at 1, sbind at 1, sbind at 1 in H. cbn [file_at sgets] in H. destruct (disk.1 !! config_path) as [text|] eqn:Ef.
  2: { injection H as <- <-. cbn. split_and!; try done; destruct (toml_parse []); cbn; by try intros file [= <-]. }
  unfold try_bind at 1, sbind at 1 in H. destruct (file_call _ disk) as [called d1] eqn:Ec. pose proof (file_call_inv _ _ _ _ Ec) as Hd.
  assert (sc_io disk.2 = [] -> d1.2 = disk.2 /\ exists a, called = Ok a) as Hc by (pose proof (unfailing_call (bs "reading " ++ config_path) disk) as Hu; by rewrite Ec in Hu).
  destruct called as [[]|e]; [|injection H as <- <-; split_and!; try done; [by intros []%Hc|intros [_ [? [=]]]%Hc]].
  cbn [sret] in H. destruct (from_utf8 text) as [t|]; cbn in H; injection H as <- <-; (split; [done|]); (split; [by intros []%Hc|]); [|done].
  cbn [mbind option_bind]. destruct (toml_parse t) as [doc|e']; cbn; (split; [|done]); [by intros file [= <-]|done].
Qed.

Lemma open_for_edit_inv p r p' :
  open_for_edit config_path p = (r, p') ->
  at_rest p p' /\ (calm p -> calm p') /\ (forall file, r = Ok file -> base_document p = Some file) /\ (calm p -> res_ok r = base_document p).
Proof.
  intros (broken & p1 & [= <- <-] & H)%sbind_inv. unfold base_document. destruct (pn_config_error p) as [why|] eqn:Ee.
  - apply sbind_inv in H as (config & p2 & [= <- <-] & [= <- <-]). split_and!; try done. by intros file [= <-].
  - pose proof (rest_task (bs "opening the config file") p) as M.
    pose proof (calm_task (bs "opening the config file") p) as Hcalm.
    apply try_cases in H as [(e & Ht & ->)|(? & p2 & Ht & H)]; rewrite Ht in M, Hcalm; cbn [fst snd] in *.
    { split_and!; [done|by intros [? _]%Hcalm|done|intros [_ [? [=]]]%Hcalm]. }
    unfold on_disk, focus in H. destruct (config_open _ _) as [r0 d] eqn:Eo. injection H as <- <-. apply config_open_inv in Eo as (Hd & Hs & Hok & Hres).
    cbn in Hd, Hs. pose proof M as [_ Mf _]. cbn [fst snd] in Hok, Hres. rewrite Mf in Hok, Hres.
    split_and!; [|intros [Hp _]%Hcalm; unfold calm; cbn; by rewrite (Hs Hp)|exact Hok|intros [Hp _]%Hcalm; by apply Hres].
    transitivity p2; [done|]. split; cbn; try done. constructor; cbn; try done. exists (db_retention (sv_db (pn_serve p2))). by rewrite with_retention_id.
Qed.

Lemma base_document_file p file :
  base_document p = Some file -> kf_path file = config_path /\ kf_recovered file = bool_decide (is_Some (pn_config_error p)).
Proof.
  unfold base_document. destruct (pn_config_error p); [by intros [= <-]|]. by intros (text & _ & (doc & _ & [= <-])%bind_Some)%bind_Some.
Qed.

(** A prepared save: the edit of what was there, of the configured file, and validated. *)
Record prepared (edit : EditFn) (p : Panel) (pending : PendingConfig) : Prop := {
  pp_path : kf_path (pd_file pending) = config_path;
  pp_recovered : kf_recovered (pd_file pending) = bool_decide (is_Some (pn_config_error p));
  pp_valid : validate (pd_text pending) = Ok (pd_config pending);
  pp_edited : edited edit p = Some (pd_text pending, pd_config pending)
}.

Lemma prepare_inv edit p r p' :
  path_kept edit -> prepare_config config_path edit p = (r, p') ->
  at_rest p p' /\ (calm p -> calm p') /\ (forall pending, r = Ok pending -> prepared edit p pending) /\ (calm p -> forall e, r = Err e -> edited edit p = None).
Proof.
  intros He [(e & H & ->)|(file & p1 & H & [= <- <-])]%try_cases; apply open_for_edit_inv in H as (M & Hc & Hf & Hres).
  { split_and!; try done. intros Hp _ _. unfold edited. by rewrite <- (Hres Hp). }
  split_and!; [done|done| |].
  - intros pending (file' & Hed & (config & Hv & [= <-])%rbind_Ok)%rbind_Ok. pose proof (Hf file eq_refl) as Hb.
    destruct (base_document_file _ _ Hb) as [Hp Hr]. pose proof (He _ _ Hed) as [Hp' Hr'].
    split; cbn; [congruence..|done|]. unfold edited. rewrite Hb. cbn. rewrite Hed. cbn. by rewrite Hv.
  - intros _ e Herr. unfold edited. rewrite (Hf file eq_refl). cbn. destruct (edit file) as [file'|]; [|done]. cbn in Herr |- *.
    by destruct (validate (to_toml file')).
Qed.

Lemma validated_loads text config path files : validate text = Ok config -> files !! path = Some text -> load files path = Ok config.
Proof. intros Hv%rmap_err_Ok Hf. unfold load. by rewrite Hf, Hv. Qed.

(** Where a save that went through sends the browser. *)
Definition saved_at (section : bytes) (next : option bytes) : bytes := default (bs "/settings") (sanitize_next next) ++ bs "?saved=" ++ section.

(** The commit: in force and in the file, or neither. *)
Lemma commit_inv section next pending p r p' :
  kf_path (pd_file pending) = config_path -> commit_config section next pending p = (r, p') ->
  sv_vault (pn_serve p') = sv_vault (pn_serve p) /\ (calm p -> r = Ok (saved_at section next)) /\
  match r with
  | Ok dest => dest = saved_at section next /\ file_replaced (kf_recovered (pd_file pending)) config_path (pd_text pending) (pn_files p) (pn_files p') /\
               sv_config (pn_serve p') = pd_config pending /\ pn_config_error p' = None
  | Err _ => sv_config (pn_serve p') = sv_config (pn_serve p) /\ pn_config_error p' = pn_config_error p /\
             file_kept (kf_recovered (pd_file pending)) config_path (pn_files p) (pn_files p')
  end.
Proof.
  intros Hp H. pose proof (rest_task (bs "writing the config file") p) as M. unfold commit_config in H.
  pose proof (calm_task (bs "writing the config file") p) as Hcalm.
  apply try_cases in H as [(e & Ht & ->)|(? & p1 & Ht & H)]; rewrite Ht in M, Hcalm; destruct M as [[Mc _ Mv _ _ _ _ _] Mf Me]; cbn [fst snd] in *.
  { split_and!; try done; [intros [_ [? [=]]]%Hcalm|by left; rewrite Mf]. }
  unfold try_bind at 1, sbind at 1 in H. destruct (on_disk _ p1) as [w p2] eqn:Ew. unfold on_disk, focus in Ew.
  destruct (write_validated _ _ _) as [w0 d] eqn:Ewv. injection Ew as -> <-.
  assert (calm p -> exists a, w = Ok a) as Hw1.
  { intros [Hc _]%Hcalm. pose proof (unfailing_write_validated (pd_file pending) (pd_text pending) config_path) as Hu. rewrite Hp in Hu.
    specialize (Hu config_path_ok (pn_files p1, sv_script (pn_serve p1)) Hc) as [_ Hu]. by rewrite Ewv in Hu. }
  apply (write_validated_inv (pd_file pending) _ config_path) in Ewv as [_ Hw]; [|by rewrite Hp|done]. cbn [fst] in Hw. rewrite Mf in Hw.
  destruct w as [[]|e].
  - apply sbind_inv in H as ([] & p3 & Ha & [= <- <-]). cbn in Ha. injection Ha as <-. by cbn.
  - injection H as <- <-. cbn. split_and!; try done. by intros [? [=]]%Hw1.
Qed.

(** The answer, the file and the configuration in force after a save of [edit]. *)
Record config_saved (section : bytes) (next : option bytes) (edit : EditFn) (p : Panel) (dest : bytes) (p' : Panel) : Prop := {
  cs_dest : dest = saved_at section next;
  cs_edited : exists text, edited edit p = Some (text, sv_config (pn_serve p')) /\
                file_replaced (bool_decide (is_Some (pn_config_error p))) config_path text (pn_files p) (pn_files p');
  cs_error : pn_config_error p' = None
}.

Record config_kept (p p' : Panel) : Prop := {
  ck_config : sv_config (pn_serve p') = sv_config (pn_serve p);
  ck_error : pn_config_error p' = pn_config_error p;
  ck_file : file_kept (bool_decide (is_Some (pn_config_error p))) config_path (pn_files p) (pn_files p')
}.

Lemma config_saved_loads section next edit p dest p' :
  config_saved section next edit p dest p' -> load (pn_files p') config_path = Ok (sv_config (pn_serve p')).
Proof.
  intros [_ (text & He & Hf & _) _]. unfold edited in He. apply bind_Some in He as (base & _ & (file & _ & (config & Hv & [= <- ->])%bind_Some)%bind_Some).
  apply (validated_loads (to_toml file)); [|done]. by destruct (validate _) as [c|]; [injection Hv as ->|].
Qed.

Lemma commit_prepared edit section next pending p0 p r p' :
  prepared edit p0 pending -> steady p0 p -> commit_config section next pending p = (r, p') ->
  match r with Ok dest => config_saved section next edit p0 dest p' | Err _ => config_kept p0 p' end.
Proof.
  intros [Pp Pr Pv Pe] [Sc Sf Se] H. apply commit_inv in H as (_ & _ & H); [|done]. rewrite Pr, Sf in H. destruct r as [dest|e].
  - destruct H as (-> & Hf & Hc & He). split; [done| |done]. exists (pd_text pending). by rewrite Hc.
  - destruct H as (Hc & He & Hk). split; [congruence..|done].
Qed.

(** The vault after a save that failed: as it was, or, only if the edit was accepted, as
    the form asked. *)
Definition secrets_after_failure (edit : EditFn) (key value : bytes) (clear : bool) (p p' : Panel) : Prop :=
  sv_vault (pn_serve p') = sv_vault (pn_serve p) \/
  is_Some (edited edit p) /\ (vault_fits (pn_serve p') -> forall k, secret_of (pn_serve p') k = secret_saved key value clear (pn_serve p) k).

Lemma secret_step_inv {VL : VaultCipherLaws C} key value clear p r p' :
  utf8_valid key = true -> utf8_valid (trim value) = true -> secret_step key value clear p = (r, p') ->
  steady p p' /\
  match r with
  | Ok _ => vault_fits (pn_serve p') -> forall k, secret_of (pn_serve p') k = secret_saved key value clear (pn_serve p) k
  | Err _ => sv_vault (pn_serve p') = sv_vault (pn_serve p)
  end.
Proof.
  intros Hk Hv H. unfold secret_step, sbind, on_serve, focus in H. destruct (apply_secret _ _ _ _) as [c s2] eqn:Ea.
  pose proof (same_config_secret key value clear (pn_serve p)) as Hsc. rewrite Ea in Hsc.
  apply apply_secret_inv in Ea; [|done|done]. injection H as <- <-. split; [by split|]. by destruct c.
Qed.

Lemma secret_saved_ext key value clear s s' k : sv_vault s' = sv_vault s -> secret_saved key value clear s' k = secret_saved key value clear s k.
Proof. intros E. unfold secret_saved, secret_of. by rewrite E. Qed.

Lemma secret_of_ext s s' k : sv_vault s' = sv_vault s -> secret_of s' k = secret_of s k.
Proof. intros E. unfold secret_of. by rewrite E. Qed.

Lemma invalidate_vault changed response p :
  steady p (invalidate_unless_committed changed response p).2 /\ sv_vault (pn_serve (invalidate_unless_committed changed response p).2) = sv_vault (pn_serve p).
Proof. by destruct response, changed. Qed.

(** What a save does once its edit is accepted. *)
Lemma write_prepared_inv {VL : VaultCipherLaws C} section next edit key value clear pending p0 p r p' :
  utf8_valid key = true -> utf8_valid (trim value) = true -> prepared edit p0 pending -> steady p0 p -> sv_vault (pn_serve p) = sv_vault (pn_serve p0) ->
  (try! changed := secret_step key value clear in
   let! response := commit_config section next pending in
   let! dropped := invalidate_unless_committed changed response in
   sret response) p = (r, p') ->
  match r with
  | Ok dest => config_saved section next edit p0 dest p' /\
               (vault_fits (pn_serve p') -> forall k, secret_of (pn_serve p') k = secret_saved key value clear (pn_serve p0) k)
  | Err _ => config_kept p0 p' /\ secrets_after_failure edit key value clear p0 p'
  end.
Proof.
  intros Hk Hv Hpd Hs Hvault H. pose proof Hs as [Sc Sf Se].
  apply try_cases in H as [(e & (M & Hsec)%secret_step_inv & ->)|(changed & p2 & (M & Hsec)%secret_step_inv & H)]; try done; destruct M as [Mc Mf Me].
  { split; [|left; congruence]. split; [congruence..|]. left. by rewrite Mf, Sf. }
  apply sbind_inv in H as (response & p3 & Hc & H). apply sbind_inv in H as (u & p4 & Hi & [= <- <-]).
  pose proof (invalidate_vault changed response p3) as [Is Iv]. rewrite Hi in Is, Iv. cbn [snd] in Is, Iv.
  pose proof (commit_inv _ _ _ _ _ _ (pp_path _ _ _ Hpd) Hc) as [Cv _]. apply (commit_prepared edit _ _ _ p0) in Hc; [|done|by transitivity p; [done|split]].
  assert (vault_fits (pn_serve p4) -> forall k, secret_of (pn_serve p4) k = secret_saved key value clear (pn_serve p0) k) as Hall.
  { intros Hfit k. rewrite (secret_of_ext (pn_serve p2) (pn_serve p4)) by congruence.
    rewrite <- (secret_saved_ext key value clear (pn_serve p0) (pn_serve p) k) by done. apply Hsec. unfold vault_fits in *. by rewrite <- Cv, <- Iv. }
  destruct Is as [Ic If Ie], response as [dest|e].
  - split; [|done]. destruct Hc as [Hd (text & He & Hf) Herr]. split; [done| |congruence]. exists text. by rewrite Ic, If.
  - split; [|right; split; [by rewrite (pp_edited _ _ _ Hpd)|done]]. destruct Hc as [Kc Ke Kf]. split; [congruence..|by rewrite If].
Qed.

Lemma write_config_and_secret_inv {VL : VaultCipherLaws C} section next edit key value clear p r p' :
  path_kept edit -> utf8_valid key = true -> utf8_valid (trim value) = true ->
  write_config_and_secret config_path section next edit key value clear p = (r, p') ->
  match r with
  | Ok dest => config_saved section next edit p dest p' /\
               (vault_fits (pn_serve p') -> forall k, secret_of (pn_serve p') k = secret_saved key value clear (pn_serve p) k)
  | Err _ => config_kept p p' /\ secrets_after_failure edit key value clear p p'
  end.
Proof.
  intros He Hk Hv H. unfold write_config_and_secret in H.
  apply try_cases in H as [(e & Hp & ->)|(pending & p1 & Hp & H)]; apply prepare_inv in Hp as (M & _ & Hpd & _); try done.
  - destruct M as [[Mc _ Mv _ _ _ _ _] Mf Me]. split; [|by left]. split; [done..|]. by left; rewrite Mf.
  - destruct M as [[Mc _ Mv _ _ _ _ _] Mf Me]. apply (write_prepared_inv section next edit key value clear pending p p1); try done. by apply Hpd.
Qed.

(** A form that leaves the secret alone is saved when its edit is accepted and nothing
    fails. *)
Lemma calm_save section next edit key value p :
  path_kept edit -> calm p -> trim value = [] -> is_Some (edited edit p) ->
  (write_config_and_secret config_path section next edit key value false p).1 = Ok (saved_at section next).
Proof.
  intros He Hc Hv [tc Hed]. unfold write_config_and_secret, try_bind at 1, sbind at 1.
  destruct (prepare_config config_path edit p) as [r p1] eqn:Ep. apply prepare_inv in Ep as (_ & Hc1 & Hpd & Hno); [|done].
  destruct r as [pending|e]; [|by rewrite (Hno Hc e eq_refl) in Hed].
  unfold secret_step, apply_secret, on_serve, focus. rewrite Hv. cbn [negb is_nonempty andb]. unfold try_bind, sbind at 1. cbn.
  unfold sbind at 1. match goal with |- context [commit_config section next pending ?q] => destruct (commit_config section next pending q) as [r p2] eqn:Ecm end.
  apply commit_inv in Ecm as (_ & Hcm & _); [|exact (pp_path _ _ _ (Hpd pending eq_refl))]. rewrite Hcm; [done|]. by apply Hc1.
Qed.

End CommitFacts.

(** ** The forms as one *)

Inductive SaveForm : Type :=
| SaveGeneral (next : option bytes) (tag : bytes)
| SaveArr (source : MediaSource) (next : option bytes) (form : ArrForm)
| SaveQbittorrent (next : option bytes) (form : QbitForm)
| SaveRpcClient (next : option bytes) (form : RpcClientForm) (backend : TorrentBackend)
| SaveTorrentBackend (next : option bytes) (backend : bytes)
| SaveTracker (next : option bytes) (form : TrackerForm)
| SaveLighthouse (form : LighthouseForm)
| SaveSeeding (form : SeedingForm)
| SaveGluetun (form : GluetunForm) (target : GluetunTarget)
| SaveSync (form : SyncForm)
| SaveChecks (reachability : option bytes)
| SaveNotifications (form : NotificationsForm)
| SaveMetrics (form : TokenToggleForm)
| SaveApi (form : TokenToggleForm)
| SaveLibraries (form : LibrariesForm)
| SavePaths (next : option bytes) (form : PathsForm).

Section Forms.
Context `{U : UrlLib} `{D : Digests} `{C : VaultCipher} `{KF : KeyFiles} `{ME : MasterEnv}.
Context `{CL : !ConfigLayers U} `{TW : TornWrites} `{FT : !FormText U} (config_path : bytes) (quiet_error_text : QuietError -> bytes).

(** Every route of the page that edits the file. *)
Definition save_form (form : SaveForm) : PanelM (result bytes bytes) :=
  match form with
  | SaveGeneral next tag => save_general config_path next tag
  | SaveArr source next form => save_arr config_path source next form
  | SaveQbittorrent next form => save_qbittorrent config_path next form
  | SaveRpcClient next form backend => save_rpc_client config_path next form backend
  | SaveTorrentBackend next backend => save_torrent_backend config_path next backend
  | SaveTracker next form => save_tracker config_path next form
  | SaveLighthouse form => save_lighthouse config_path form
  | SaveSeeding form => save_seeding config_path quiet_error_text form
  | SaveGluetun form target => save_gluetun_section config_path form target
  | SaveSync form => save_sync config_path form
  | SaveChecks reachability => save_checks config_path reachability
  | SaveNotifications form => save_notifications config_path form
  | SaveMetrics form => save_metrics config_path form
  | SaveApi form => save_api config_path form
  | SaveLibraries form => save_libraries config_path form
  | SavePaths next form => save_paths config_path next form
  end.

(** The saves of a list of forms, one after the other, with what each was answered. *)
Fixpoint save_all (forms : list SaveForm) : PanelM (list (result bytes bytes)) :=
  match forms with
  | [] => sret []
  | form :: forms => let! answer := save_form form in let! answers := save_all forms in sret (answer :: answers)
  end.

(** The edit each form stands for. *)
Definition refused : EditFn := fun _ => Err [].

Definition form_edit (form : SaveForm) : EditFn :=
  match form with
  | SaveGeneral _ tag => general_edit (trim tag)
  | SaveArr source _ form => match url_for source with Some url_path => arr_edit (as_str_name source) url_path form | None => refused end
  | SaveQbittorrent _ form => qbit_edit form
  | SaveRpcClient _ form backend =>
      match rpc_section backend with
      | Some (_, url_path, username_path, label_path, _, missing_url) => rpc_edit url_path username_path label_path missing_url form
      | None => refused
      end
  | SaveTorrentBackend _ backend => backend_edit backend
  | SaveTracker _ form => tracker_edit form
  | SaveLighthouse form =>
      match parse_mount (lf_mount form), parse_lighthouse_urls (lf_urls form) with Some mount, Ok urls => lighthouse_edit mount urls form | _, _ => refused end
  | SaveSeeding form => match parse_seeding quiet_error_text form with Ok limits => seeding_edit limits form | Err _ => refused end
  | SaveGluetun form target => gluetun_edit (gluetun_section target) form
  | SaveSync form => sync_edit form
  | SaveChecks reachability => checks_edit reachability
  | SaveNotifications form => match parse_heartbeat_secs (nf_heartbeat_secs form) with Ok secs => notifications_edit form secs | Err _ => refused end
  | SaveMetrics form => toggle_edit (bs "metrics.enabled") form
  | SaveApi form => toggle_edit (bs "api.enabled") form
  | SaveLibraries form => match parse_libraries (library_form_rows form) with Ok libraries => fun file => Ok (set_libraries libraries file) | Err _ => refused end
  | SavePaths _ form => match parse_path_map (path_form_rows form) with Ok mappings => fun file => Ok (set_path_map mappings file) | Err _ => refused end
  end.

Hypothesis config_path_ok : checked_path config_path = Ok config_path.
Hypothesis config_paths_apart : NoDup (saved_paths config_path).

(** How the file and the configuration in force stand after a save. *)
Definition commit_outcome (edit : EditFn) (p : Panel) (r : result bytes bytes) (p' : Panel) : Prop :=
  match r with
  | Ok dest => exists section next, config_saved config_path section next edit p dest p'
  | Err _ => config_kept config_path p p'
  end.

Definition commits (edit : EditFn) (m : PanelM (result bytes bytes)) : Prop := forall p, commit_outcome edit p (m p).1 (m p).2.

Lemma outcome_kept edit p e p' : steady p p' -> commit_outcome edit p (Err e) p'.
Proof. intros [Hc Hf He]. split; [done..|]. left. by rewrite Hf. Qed.

Lemma edited_steady edit p p' : steady p p' -> edited config_path edit p' = edited config_path edit p.
Proof. intros [Hc Hf He]. unfold edited, base_document. by rewrite Hc, Hf, He. Qed.

Lemma outcome_steady_before edit p0 p r p' : steady p0 p -> commit_outcome edit p r p' -> commit_outcome edit p0 r p'.
Proof.
  intros Hs H. pose proof Hs as [Sc Sf Se]. destruct r as [dest|e].
  - destruct H as (section & next & [Hd (text & He & Hf) Herr]). rewrite (edited_steady edit p0 p Hs) in He. rewrite Se, Sf in Hf.
    exists section, next. split; [done|by exists text|done].
  - destruct H as [Hc He Hf]. rewrite Se, Sf in Hf. split; [congruence..|done].
Qed.

Lemma outcome_steady_after edit p r p1 p' : commit_outcome edit p r p1 -> steady p1 p' -> commit_outcome edit p r p'.
Proof.
  intros H [Sc Sf Se]. destruct r as [dest|e].
  - destruct H as (section & next & [Hd (text & He & Hf) Herr]). exists section, next. split; [done| |congruence]. exists text. by rewrite Sc, Sf.
  - destruct H as [Hc He Hf]. split; [congruence..|]. by rewrite Sf.
Qed.

Lemma commits_refused edit e : commits edit (sret (Err e)).
Proof. intros p. by apply outcome_kept. Qed.

(** A step that leaves file and configuration alone may come before or after. *)
Lemma commits_after {A : Type} edit (m : PanelM (result A bytes)) (k : A -> PanelM (result bytes bytes)) :
  moves steady m -> (forall a, commits edit (k a)) -> commits edit (try_bind m k).
Proof.
  intros M Hk p. unfold try_bind, sbind. specialize (M p). destruct (m p) as [[a|e] p1]; [|by apply outcome_kept].
  apply (outcome_steady_before _ _ p1); [done|]. apply Hk.
Qed.

Lemma commits_then edit (m : PanelM (result bytes bytes)) (f : result bytes bytes -> PanelM unit) :
  commits edit m -> (forall r, moves steady (f r)) -> commits edit (let! r := m in let! done := f r in sret r).
Proof.
  intros Hm Hf p. unfold sbind. specialize (Hm p). destruct (m p) as [r p1]. specialize (Hf r p1). destruct (f r p1) as [u p2].
  by apply (outcome_steady_after _ _ _ p1).
Qed.

Lemma commits_prepare edit (k : PendingConfig -> PanelM (result bytes bytes)) :
  path_kept edit -> (forall p0 pending, prepared config_path edit p0 pending -> forall p, steady p0 p -> commit_outcome edit p0 (k pending p).1 (k pending p).2) ->
  commits edit (try_bind (prepare_config config_path edit) k).
Proof.
  intros He Hk p. unfold try_bind, sbind. destruct (prepare_config config_path edit p) as [r p1] eqn:E.
  apply prepare_inv in E as ([[Mc _ _ _ _ _ _ _] Mf Me] & _ & Hpd & _); [|done..].
  destruct r as [pending|e]; [apply Hk; [by apply Hpd|by split]|by apply outcome_kept].
Qed.

(** The commit of a prepared save, after steps that left file and configuration alone. *)
Lemma outcome_commit edit section next pending p0 p :
  prepared config_path edit p0 pending -> steady p0 p ->
  commit_outcome edit p0 (commit_config section next pending p).1 (commit_config section next pending p).2.
Proof.
  intros Hpd Hs. destruct (commit_config section next pending p) as [r p'] eqn:E. apply (commit_prepared config_path) with (edit := edit) (p0 := p0) in E; [|done..].
  destruct r as [dest|e]; [|done]. by exists section, next.
Qed.

Lemma outcome_guarded {A : Type} edit (m : PanelM (result A bytes)) (k : A -> PanelM (result bytes bytes)) p0 p :
  moves steady m -> steady p0 p -> (forall a p', steady p0 p' -> commit_outcome edit p0 (k a p').1 (k a p').2) ->
  commit_outcome edit p0 (try_bind m k p).1 (try_bind m k p).2.
Proof.
  intros M Hs Hk. unfold try_bind, sbind. specialize (M p). destruct (m p) as [[a|e] p']; [apply Hk|apply outcome_kept]; by transitivity p.
Qed.

Lemma commits_write section next edit : path_kept edit -> commits edit (write_config config_path section next edit).
Proof. intros He. apply commits_prepare; [done|]. intros p0 pending Hpd p Hs. by apply outcome_commit. Qed.

Lemma steady_secret key value clear : moves steady (secret_step key value clear).
Proof. apply moves_bind; [apply _|apply steady_on_serve, same_config_secret|]. intros ?. apply moves_ret. apply _. Qed.

Lemma steady_invalidate changed response : moves steady (invalidate_unless_committed changed response).
Proof. intros p. by destruct (invalidate_vault changed response p). Qed.

Lemma commits_secret section next edit key value clear :
  path_kept edit -> commits edit (write_config_and_secret config_path section next edit key value clear).
Proof.
  intros He. apply commits_prepare; [done|]. intros p0 pending Hpd p Hs. apply outcome_guarded; [apply steady_secret|done|].
  intros changed p1 Hs1. unfold sbind at 1 3. pose proof (outcome_commit edit section next pending p0 p1 Hpd Hs1) as Hc.
  destruct (commit_config section next pending p1) as [response p2]. unfold sbind. pose proof (steady_invalidate changed response p2) as Hi.
  destruct (invalidate_unless_committed changed response p2) as [u p3]. by apply (outcome_steady_after _ _ _ p2).
Qed.

End Forms.

(** *** Edits keep to their file *)

(** Every branch of an edit ends in a refusal or an edited file. *)
Ltac edit_branches :=
  let file := fresh "file" in let file' := fresh "file'" in let H := fresh "H" in
  intros file file' H; cbv beta zeta in H;
  repeat match type of H with
         | context [if ?b then _ else _] => destruct b
         | context [match ?o with Some _ => _ | None => _ end] => destruct o
         | rbind _ _ = Ok _ => apply rbind_Ok in H as (? & _ & H)
         end;
  try discriminate H; injection H as <-; done.

Section FormFacts.
Context `{U : UrlLib} `{D : Digests} `{C : VaultCipher} `{KF : KeyFiles} `{ME : MasterEnv}.
Context `{CL : !ConfigLayers U} `{TW : TornWrites} `{FT : !FormText U} (config_path : bytes) (quiet_error_text : QuietError -> bytes).
Hypothesis config_path_ok : checked_path config_path = Ok config_path.
Hypothesis config_paths_apart : NoDup (saved_paths config_path).

Lemma commits_tracker next form : commits config_path (tracker_edit form) (save_tracker config_path next form).
Proof.
  apply commits_prepare; [done|unfold tracker_edit; edit_branches|]. intros p0 pending Hpd p Hs.
  apply outcome_guarded; [apply moves_ret; apply _|done|]. intros _ p1 Hs1.
  apply outcome_guarded; [|done|intros _ p2 Hs2; by apply outcome_commit].
  apply moves_bind; [apply _| |intros ?; apply moves_ret; apply _].
  destruct (ticked _); [apply steady_on_serve, same_config_clear|]. destruct (is_nonempty _); [apply steady_on_serve, same_config_rotate|apply moves_ret; apply _].
Qed.

Lemma commits_notifications form :
  commits config_path (form_edit quiet_error_text (SaveNotifications form)) (save_notifications config_path form).
Proof.
  unfold save_notifications. cbv zeta. destruct (not_a_url (trim (nf_webhook_url form))); [apply commits_refused|].
  destruct (not_a_url (trim (nf_heartbeat_url form))); [apply commits_refused|]. cbn [form_edit].
  destruct (parse_heartbeat_secs _) as [secs|e]; [|intros p; by apply outcome_kept].
  change (try_bind (sret (Ok secs)) ?k) with (k secs).
  apply commits_after; [apply steady_secret|]. intros changed.
  apply commits_then; [apply commits_secret; [done..|]; unfold notifications_edit; edit_branches|]. intros r. apply steady_invalidate.
Qed.

(** Every form commits its edit, or leaves file and configuration as they are. *)
Lemma commits_form form : commits config_path (form_edit quiet_error_text form) (save_form config_path quiet_error_text form).
Proof.
  destruct form; cbn [save_form form_edit].
  - unfold save_general. cbv zeta. destruct (is_nonempty _); [apply commits_write; [done..|unfold general_edit; edit_branches]|apply commits_refused].
  - unfold save_arr. destruct (url_for source), (credential_for source); try apply commits_refused. apply commits_secret; [done..|unfold arr_edit; edit_branches].
  - unfold save_qbittorrent. cbv zeta. destruct (_ && _); [apply commits_refused|]. apply commits_secret; [done..|unfold qbit_edit; edit_branches].
  - unfold save_rpc_client. destruct (rpc_section backend) as [[[[[[? ?] ?] ?] ?] ?]|]; [|apply commits_refused]. apply commits_secret; [done..|unfold rpc_edit; edit_branches].
  - apply commits_write; [done..|unfold backend_edit; edit_branches].
  - apply commits_tracker.
  - unfold save_lighthouse. destruct (parse_mount _); [|apply commits_refused]. destruct (parse_lighthouse_urls _); [|apply commits_refused].
    apply commits_write; [done..|]. by intros file file' [= <-].
  - unfold save_seeding. destruct (parse_seeding _ _); [|apply commits_refused]. apply commits_write; [done..|unfold seeding_edit; edit_branches].
  - apply commits_secret; [done..|unfold gluetun_edit; edit_branches].
  - apply commits_write; [done..|unfold sync_edit; edit_branches].
  - apply commits_write; [done..|unfold checks_edit; edit_branches].
  - apply commits_notifications.
  - apply commits_secret; [done..|unfold toggle_edit; edit_branches].
  - apply commits_secret; [done..|unfold toggle_edit; edit_branches].
  - unfold save_libraries. destruct (parse_libraries _); [|apply commits_refused]. apply commits_write; [done..|edit_branches].
  - unfold save_paths. destruct (parse_path_map _); [|apply commits_refused]. apply commits_write; [done..|edit_branches].
Qed.

(** The process runs on what the next start would load. *)
Definition in_force (p : Panel) : Prop := pn_config_error p = None /\ load (pn_files p) config_path = Ok (sv_config (pn_serve p)).

(** What an edit makes of the text of the file. *)
Definition edited_text (edit : EditFn) (file : option bytes) : option bytes :=
  text ← match file with Some text => from_utf8 text | None => Some [] end;
  doc ← res_ok (toml_parse text);
  edited ← res_ok (edit (mkConfigFile config_path doc false));
  Some (to_toml edited).

(** The file that the accepted saves alone make of [file], in their order. *)
Fixpoint accepted_edits (forms : list SaveForm) (answers : list (result bytes bytes)) (file : option bytes) : option (option bytes) :=
  match forms, answers with
  | [], [] => Some file
  | form :: forms, Ok _ :: answers => text ← edited_text (form_edit quiet_error_text form) file; accepted_edits forms answers (Some text)
  | _ :: forms, Err _ :: answers => accepted_edits forms answers file
  | _, _ => None
  end.

Lemma edited_edited_text edit p text config :
  pn_config_error p = None -> edited config_path edit p = Some (text, config) -> edited_text edit (pn_files p !! config_path) = Some text.
Proof.
  unfold edited, edited_text, base_document. intros -> (base & (t & -> & (doc & Hd & [= <-])%bind_Some)%bind_Some & (file & He & (c & _ & [= <- _])%bind_Some)%bind_Some)%bind_Some.
  cbn. rewrite Hd. cbn. by rewrite He.
Qed.

(** One save of a process that runs on its file. *)
Lemma save_form_step form p r p' :
  in_force p -> save_form config_path quiet_error_text form p = (r, p') ->
  in_force p' /\
  match r with
  | Ok _ => exists text, edited_text (form_edit quiet_error_text form) (pn_files p !! config_path) = Some text /\ pn_files p' !! config_path = Some text
  | Err _ => pn_files p' !! config_path = pn_files p !! config_path
  end.
Proof.
  intros [He Hl] H. pose proof (commits_form form p) as Hc. rewrite H in Hc. cbn [fst snd] in Hc. destruct r as [dest|e].
  - destruct Hc as (section & next & Hc). pose proof (config_saved_loads _ _ _ _ _ _ _ Hc) as Hl'. destruct Hc as [_ (text & Hed & Hf & _) Herr].
    split; [by split|]. exists text. split; [by eapply edited_edited_text|done].
  - destruct Hc as [Hc Herr [Hf|[Hf _]]]; [|by rewrite He in Hf]. split; [|done]. split; [congruence|]. rewrite Hc, <- Hl. unfold load. by rewrite Hf.
Qed.

Lemma save_all_refines forms p answers p' :
  in_force p -> save_all config_path quiet_error_text forms p = (answers, p') ->
  in_force p' /\ accepted_edits forms answers (pn_files p !! config_path) = Some (pn_files p' !! config_path).
Proof.
  revert p answers. induction forms as [|form forms IH]; intros p answers Hp H; cbn [save_all] in H; [by injection H as <- <-|].
  apply sbind_inv in H as (answer & p1 & H1 & H). apply sbind_inv in H as (rest & p2 & H2 & [= <- <-]).
  apply save_form_step in H1 as [Hp1 H1]; [|done]. apply IH in H2 as [Hp2 H2]; [|done]. split; [done|]. cbn [accepted_edits].
  destruct answer as [dest|e]; [|by rewrite <- H1]. destruct H1 as (text & -> & Hf). cbn. by rewrite <- Hf.
Qed.

End FormFacts.

(** ** What a save promises *)

(** C17: What a save of a form with a secret does, in full.  Whichever calls fail: a save
    that succeeds was of an accepted edit; the file then holds the text of the edited
    document, the file it replaced is moved aside if it had not loaded, the configuration
    in force is the one that text gives, a recorded failure is cleared, and every secret
    is as the form asked.  One that fails leaves the configuration in force, the recorded
    failure and the file in place (or, when the file had not loaded, moved aside), and the
    vault either as it was or, only when the edit was accepted, already as the form
    asked.  And a form that leaves its secret alone is saved when nothing fails exactly if
    its edit is accepted. *)
Theorem save_exact `{U : UrlLib} `{C : VaultCipher} `{KF : KeyFiles} `{ME : MasterEnv} `{CL : !ConfigLayers U} `{TW : TornWrites} `{FT : !FormText U}
    (config_path section : bytes) (next : option bytes) (edit : EditFn) (key value : bytes) (clear : bool) (p p' : Panel) (r : result bytes bytes) :
  VaultCipherLaws C -> checked_path config_path = Ok config_path -> NoDup (saved_paths config_path) ->
  path_kept edit -> utf8_valid key = true -> utf8_valid (trim value) = true ->
  write_config_and_secret config_path section next edit key value clear p = (r, p') ->
  match r with
  | Ok dest => config_saved config_path section next edit p dest p' /\
               (vault_fits (pn_serve p') -> forall k, secret_of (pn_serve p') k = secret_saved key value clear (pn_serve p) k)
  | Err _ => config_kept config_path p p' /\ secrets_after_failure config_path edit key value clear p p'
  end /\
  (calm p -> clear = false -> trim value = [] -> ((exists dest, r = Ok dest) <-> is_Some (edited config_path edit p))).
Proof.
  intros VL Hp Ha He Hk Hv H. split; [by apply (write_config_and_secret_inv config_path Hp Ha) in H|]. intros Hc -> Ht. split.
  - intros [dest ->]. apply (write_config_and_secret_inv config_path Hp Ha) in H as [[_ (text & -> & _) _] _]; done.
  - intros Hed. exists (saved_at section next). rewrite <- (calm_save config_path Hp Ha section next edit key value p) by done. by rewrite H.
Qed.

(** C16: A running process and its file never part, and no accepted save is lost.  Take a
    process that runs on what it loaded from its file, and any sequence of saves of the
    sixteen forms that edit the file (the import of a whole document is not one), whichever
    are refused or fail halfway at the file or the vault.  Then the file is what the edits
    of the saves answered as done make of the first one, in their order, with no trace of
    the others; and the configuration in force is the one the next start would load from
    it. *)
Theorem saves_stay_in_force `{U : UrlLib} `{C : VaultCipher} `{KF : KeyFiles} `{ME : MasterEnv} `{CL : !ConfigLayers U} `{TW : TornWrites} `{FT : !FormText U}
    (config_path : bytes) (quiet_error_text : QuietError -> bytes) (forms : list SaveForm) (p p' : Panel) (answers : list (result bytes bytes)) :
  checked_path config_path = Ok config_path -> NoDup (saved_paths config_path) ->
  in_force config_path p -> save_all config_path quiet_error_text forms p = (answers, p') ->
  in_force config_path p' /\ accepted_edits config_path quiet_error_text forms answers (pn_files p !! config_path) = Some (pn_files p' !! config_path).
Proof. intros Hp Ha. by apply save_all_refines. Qed.

(** *** Witnesses *)

(** A document of one field, [data_dir]. *)
Definition plain_layers : ConfigLayers text_urls := {|
  toml_parse := fun text => Ok (if is_nonempty text then [(bs "data_dir", ItemValue (TomlStr text))] else []);
  toml_print := fun doc => default [] (doc_str doc (bs "data_dir"));
  extract := fun doc => match doc_str doc (bs "data_dir") with
                        | Some dir => if bool_decide (dir = bs "bad") then Err (bs "bad") else Ok (with_data_dir (Some dir) sample_config)
                        | None => Ok sample_config
                        end;
  config_default := sample_config;
  parse_bind := fun _ => None;
  server_bind_text := fun _ => bs "0.0.0.0:8787";
  env_data_dir := None;
  env_server_bind := None
|}.

(** A document of one field, [tag], that shows in the data directory. *)
Definition dir_layers : ConfigLayers text_urls := {|
  toml_parse := fun text => Ok (if is_nonempty text then [(bs "tag", ItemValue (TomlStr text))] else []);
  toml_print := fun doc => default [] (doc_str doc (bs "tag"));
  extract := fun doc => Ok (with_data_dir (doc_str doc (bs "tag")) sample_config);
  config_default := sample_config;
  parse_bind := fun _ => None;
  server_bind_text := fun _ => bs "0.0.0.0:8787";
  env_data_dir := None;
  env_server_bind := None
|}.

Definition plain_form_text : FormText text_urls := {|
  url_error_text := fun _ => bs "bad"; debug_text := fun raw => raw; save_error_text := fun _ => bs "not saved"; parse_f64 := fun _ => None
|}.

Definition sample_panel (io : list bool) : @Panel text_urls :=
  mkPanel text_urls (put_config (with_data_dir (Some (bs "/old")) sample_config) (put_vault (Some token_vault) (mkScript io (replicate 600 x2a) (bs "full")) token_serve)) (<[toml_at := bs "/old"]> ∅) None.

Definition tag_panel (io : list bool) : @Panel text_urls :=
  mkPanel text_urls (put_config (with_data_dir (Some (bs "old")) sample_config) (put_vault (Some token_vault) (mkScript io (replicate 600 x2a) (bs "full")) token_serve)) (<[toml_at := bs "old"]> ∅) None.

Definition move_dir (dir : bytes) : EditFn := fun file => Ok (apply_edits [edit_str (bs "data_dir") dir] file).

Definition saved_dir (dir : bytes) (io : list bool) : result bytes bytes * @Panel text_urls :=
  @write_config_and_secret text_urls toy_cipher no_key_files sample_env plain_layers no_torn plain_form_text toml_at (bs "general") None (move_dir dir)
    (bs "metrics.token") (bs "t") false (sample_panel io).

Lemma save_exact_witness :
  pn_files (saved_dir (bs "/new") []).2 !! toml_at = Some (bs "/new") /\
  sv_config (pn_serve (saved_dir (bs "/new") []).2) = with_data_dir (Some (bs "/new")) sample_config /\
  @secret_of text_urls toy_cipher no_key_files sample_env (pn_serve (saved_dir (bs "/new") []).2) (bs "metrics.token") = Ok (Some (bs "t")).
Proof.
  destruct (saved_dir (bs "/new") []) as [r p'] eqn:E.
  assert (exists dest, r = Ok dest) as [dest ->] by (assert (r = (saved_dir (bs "/new") []).1) as -> by (rewrite E; reflexivity); vm_compute; eexists; reflexivity).
  assert (vault_fits (pn_serve p')) as Hfit by (assert (p' = (saved_dir (bs "/new") []).2) as -> by (rewrite E; reflexivity); apply fits_computed; vm_compute; reflexivity).
  destruct (@save_exact text_urls toy_cipher no_key_files sample_env plain_layers no_torn plain_form_text toml_at (bs "general") None (move_dir (bs "/new"))
    (bs "metrics.token") (bs "t") false (sample_panel []) p' (Ok dest) toy_cipher_laws ltac:(vm_compute; reflexivity) ltac:(apply (bool_decide_unpack _); vm_compute; exact I)
    ltac:(intros file file' [= <-]; split; reflexivity) ltac:(vm_compute; reflexivity) ltac:(vm_compute; reflexivity) E) as [[[_ (text & Hed & Hf & _) _] Hs] _].
  assert (edited (CL := plain_layers) toml_at (move_dir (bs "/new")) (sample_panel []) = Some (bs "/new", with_data_dir (Some (bs "/new")) sample_config)) as Hed'
    by (vm_compute; reflexivity).
  rewrite Hed' in Hed. injection Hed as <- Hc. cbn [snd]. split; [exact Hf|]. split; [symmetry; exact Hc|]. rewrite (Hs Hfit). vm_compute. reflexivity.
Defined.

(** Three saves of the tag by a process that runs on its file; the second meets a full
    disk. *)
Definition moved_dirs : list (result bytes bytes) * @Panel text_urls :=
  @save_all text_urls toy_cipher no_key_files sample_env dir_layers no_torn plain_form_text toml_at (fun _ => bs "bad")
    [SaveGeneral None (bs "one"); SaveGeneral None (bs "two"); SaveGeneral None (bs "three")] (tag_panel [true; true; true; true; true; true; false]).

Lemma saves_stay_in_force_witness :
  map (fun r => bool_decide (is_Some (res_ok r))) moved_dirs.1 = [true; false; true] /\
  accepted_edits (CL := dir_layers) (FT := plain_form_text) toml_at (fun _ => bs "bad") [SaveGeneral None (bs "one"); SaveGeneral None (bs "two"); SaveGeneral None (bs "three")]
    moved_dirs.1 (Some (bs "old")) = Some (pn_files moved_dirs.2 !! toml_at) /\
  load (CL := dir_layers) (pn_files moved_dirs.2) toml_at = Ok (sv_config (pn_serve moved_dirs.2)).
Proof.
  assert (map (fun r => bool_decide (is_Some (res_ok r))) moved_dirs.1 = [true; false; true]) as Hr by (vm_compute; reflexivity).
  destruct moved_dirs as [answers p'] eqn:E. split; [exact Hr|]. unfold moved_dirs in E.
  destruct (@saves_stay_in_force text_urls toy_cipher no_key_files sample_env dir_layers no_torn plain_form_text toml_at (fun _ => bs "bad")
    [SaveGeneral None (bs "one"); SaveGeneral None (bs "two"); SaveGeneral None (bs "three")] (tag_panel [true; true; true; true; true; true; false])
    p' answers ltac:(vm_compute; reflexivity) ltac:(apply (bool_decide_unpack _); vm_compute; exact I)
    ltac:(split; vm_compute; reflexivity) E) as [[_ Hl] Ha].
  split; [exact Ha|exact Hl].
Defined.

(** An import whose write fails has already moved the file aside: what runs is the old
    configuration, and the next start takes the defaults. *)
Example failed_import_loses_the_file :
  let '(r, p) := @import_config text_urls prefix_digests toy_cipher no_key_files sample_env plain_layers no_torn toml_at plain_url_text 0%Z (bs "/new") []
                   (sample_panel [true; true; true; false]) in
  r = Err (bs "writing /data/sharerr.toml.tmp: full") /\ pn_files p !! toml_at = None /\ pn_files p !! invalid_path toml_at = Some (bs "/old") /\
  sv_config (pn_serve p) = with_data_dir (Some (bs "/old")) sample_config /\ load (CL := plain_layers) (pn_files p) toml_at = Ok sample_config.
Proof. vm_compute. auto. Qed.

(** A field the page shows locked is not submitted: the form is refused whatever it holds. *)
Example locked_interval_refused :
  (@save_sync text_urls plain_layers no_torn toml_at (mkSyncForm (Some (bs "on")) []) (sample_panel [])).1 = Err (bs "the sync interval must be a whole number of seconds").
Proof. vm_compute. reflexivity. Qed.

(** An interval past the range of a TOML integer is stored as fifteen minutes. *)
Example huge_interval_replaced :
  (let? file := sync_edit (mkSyncForm None (bs "9223372036854775808")) (mkConfigFile toml_at [] false) in
   Ok (doc_at [bs "sync"; bs "interval_secs"] (kf_doc file))) = Ok (Some (ItemValue (TomlInt 900))).
Proof. vm_compute. reflexivity. Qed.
