(* ===== verification/Doctor.v ===== *)
(** * The doctor (crates/sharerr/src/commands/doctor/mod.rs)

    [sharerr doctor] and [GET /api/v1/doctor]: every check a pass depends on, in order, as
    titled lines with a verdict the exit code rests on.  The checks themselves are those of
    Checks.v; what is here is what the command makes of their outcomes, and the two repairs
    of [--fix].  The state is the report with what was printed, and the calls that change
    another service. *)

From S2P Require Import Prelude RustStd Text Bencode Metainfo Net Model Paths Title FileTree Endpoint Effects Client TrackerUrl Announce Totp Accounts Database Items Peers History Sightings Library PathSuggest Vault Serve Gluetun Alerts XmlRpc Rtorrent Json Arr Qbit Transmission Deluge Checks ConfigFile.

(** ** The report *)

Inductive Level : Type := LOk | LInfo | LWarn | LFail.

#[export] Instance Level_eq_dec : EqDecision Level.
Proof. solve_decision. Defined.

Record Line : Type := mkLine { ln_level : Level; ln_message : bytes }.

(** [Section] of the report. *)
Record Part : Type := mkPart { pt_title : bytes; pt_lines : list Line }.

Record Report : Type := mkReport {
  rp_failures : nat;
  rp_warnings : nat;
  rp_json : bool;
  rp_sections : list Part;
  (** The lines printed so far. *)
  rp_stdout : list bytes
}.

(** A call that changes another service. *)
Inductive Repair : Type :=
| CreateTag (kind : MediaSource) (label : bytes)
| CreateCategory (name : bytes).

Record Doctor : Type := mkDoctor { dr_report : Report; dr_repairs : list Repair }.

Abbreviation DoctorM := (St Doctor).

Definition on_report (f : Report -> Report) : DoctorM unit := smodify (fun d => mkDoctor (f (dr_report d)) (dr_repairs d)).

(** What [println!] adds in text mode. *)
Definition printed (r : Report) (text : bytes) : list bytes := if rp_json r then rp_stdout r else rp_stdout r ++ [text].

(** [Report::section]. *)
Definition add_section (title : bytes) (r : Report) : Report :=
  mkReport (rp_failures r) (rp_warnings r) (rp_json r) (rp_sections r ++ [mkPart title []]) (printed r (x0a :: title)).

(** A line at the end of the last section; a section of no title when there is none. *)
Fixpoint append_line (line : Line) (sections : list Part) : list Part :=
  match sections with
  | [] => [mkPart [] [line]]
  | [part] => [mkPart (pt_title part) (pt_lines part ++ [line])]
  | part :: sections => part :: append_line line sections
  end.

(** [Report::push]. *)
Definition push_line (level : Level) (message prefix : bytes) (r : Report) : Report :=
  mkReport (rp_failures r) (rp_warnings r) (rp_json r) (append_line (mkLine level message) (rp_sections r)) (printed r (prefix ++ message)).

Definition count_warning (r : Report) : Report := mkReport (rp_failures r) (S (rp_warnings r)) (rp_json r) (rp_sections r) (rp_stdout r).
Definition count_failure (r : Report) : Report := mkReport (S (rp_failures r)) (rp_warnings r) (rp_json r) (rp_sections r) (rp_stdout r).

Definition section (title : bytes) : DoctorM unit := on_report (add_section title).
Definition ok (message : bytes) : DoctorM unit := on_report (push_line LOk message (bs "  [ok]   ")).
Definition info (message : bytes) : DoctorM unit := on_report (push_line LInfo message (bs "         ")).
Definition line (message : bytes) : DoctorM unit := on_report (push_line LInfo message (bs "  ")).
Definition warn (message : bytes) : DoctorM unit := on_report (fun r => push_line LWarn message (bs "  [warn] ") (count_warning r)).
Definition fail (message : bytes) : DoctorM unit := on_report (fun r => push_line LFail message (bs "  [FAIL] ") (count_failure r)).

Definition level_name (l : Level) : bytes :=
  match l with LOk => bs "ok" | LInfo => bs "info" | LWarn => bs "warn" | LFail => bs "fail" end.

(** [Report::json]. *)
Definition report_json (r : Report) : Json :=
  JObj [(bs "ok", JBool (rp_failures r =? 0)); (bs "failures", JInt (Z.of_nat (rp_failures r))); (bs "warnings", JInt (Z.of_nat (rp_warnings r)));
        (bs "sections", JArr (map (fun part =>
           JObj [(bs "title", JStr (pt_title part));
                 (bs "lines", JArr (map (fun l => JObj [(bs "level", JStr (level_name (ln_level l))); (bs "message", JStr (ln_message l))]) (pt_lines part)))])
           (rp_sections r)))].

Definition MAX_LISTED : nat := 5.

(** A text between quotation marks. *)
Definition quote (text : bytes) : bytes := x22 :: text ++ [x22].

(** A number in a message. *)
Definition nat_text (n : nat) : bytes := u_to_string (N.of_nat n).

(** One call for each item. *)
Fixpoint each {A : Type} (f : A -> DoctorM unit) (items : list A) : DoctorM unit :=
  match items with [] => sret tt | x :: items => let! one := f x in each f items end.

Definition report_capped {A : Type} (items : list A) (show : A -> DoctorM unit) (more_suffix : bytes) : DoctorM unit :=
  let! shown := each show (take MAX_LISTED items) in
  if MAX_LISTED <? length items then info (bs "  ... and " ++ nat_text (length items - MAX_LISTED) ++ bs " more" ++ more_suffix) else sret tt.

(** [summarize]: the exit code, and the last line of text mode. *)
Definition summarize (failures warnings : nat) : result bytes bytes :=
  match failures, warnings with
  | 0, 0 => Ok (bs "all checks passed")
  | 0, warnings => Ok (bs "all checks passed, " ++ nat_text warnings ++ bs " warning(s)")
  | failures, warnings => Err (nat_text failures ++ bs " check(s) failed, " ++ nat_text warnings ++ bs " warning(s)")
  end.

(** ** What the command is given *)

Record DoctorArgs : Type := mkDoctorArgs { da_fix : bool; da_suggest_paths : bool; da_search_root : option bytes; da_json : bool }.

Record DoctorConfig `{U : UrlLib} : Type := mkDoctorConfig {
  dk_checked : CheckedConfig;
  dk_serve : ServeConfig;
  (** [server.bind] as text. *)
  dk_bind : bytes;
  dk_gluetun : option Url;
  dk_gluetun_client : option Url
}.

(** [{}] and the chain of causes of the errors of other crates and of library types. *)
Class DoctorText (U : UrlLib) : Type := {
  debug_str : bytes -> bytes;
  arr_chain : ArrError -> bytes;
  arr_text : ArrError -> bytes;
  qbit_chain : QbitError -> bytes;
  path_chain : PathError -> bytes;
  vault_chain : VaultError -> bytes;
  store_text : StoreError -> bytes;
  endpoint_text : EndpointError -> bytes
}.

Section Checks.
Context `{U : UrlLib} `{UP : !UrlParts U} `{UH : !UrlHost U} `{UD : !UrlDial U} `{DX : !DoctorText U}.

(** The HTTP client of this process, and what opening the vault and the database gave. *)
Context (http : result unit bytes) (opened : result Vault bytes) (store : result (Db * Script) bytes).

Definition advertised (config : DoctorConfig) : result (option Url) EndpointError := advertised_base (cf_tracker (dk_serve config)) (cf_bind_port (dk_serve config)).

(** ** Vault *)

Section Secrets.
Context `{C : VaultCipher}.

Definition fix_hint (key : bytes) : bytes := bs "set it in Settings on the web UI, or run: sharerr vault set " ++ key.
Definition fail_missing (key : bytes) : DoctorM unit := fail (key ++ bs " is missing — " ++ fix_hint key).
Definition unreadable (key : bytes) (err : VaultError) : bytes := key ++ bs " could not be read: " ++ vault_chain err.
Definition fail_unreadable (key : bytes) (err : VaultError) : DoctorM unit := fail (unreadable key err).

Definition quiet_credential (vault : option Vault) (key : bytes) : option bytes :=
  vault ← vault; match vault_get vault key with Ok value => value | Err _ => None end.

Definition credential (vault : option Vault) (key : bytes) : DoctorM (option bytes) :=
  match vault with
  | None => let! skipped := fail (bs "skipped: " ++ key ++ bs " is unreadable until the vault opens") in sret None
  | Some vault =>
      match vault_get vault key with
      | Ok (Some value) => sret (Some value)
      | Ok None => let! missing := fail_missing key in sret None
      | Err err => let! unread := fail_unreadable key err in sret None
      end
  end.

Definition check_torrent_credential (vault : Vault) (client : TorrentClientConfig) : DoctorM (option TorrentCredential) :=
  match resolve_torrent_credential client (fun key => rmap_err (unreadable key) (vault_get vault key)) with
  | Ok (Some credential) =>
      let! said := (match credential, tc_primary_credential client, tc_fallback_credential client with
                    | ApiKey _, Some key, Some fallback => ok (key ++ bs " is set — it takes precedence over " ++ fallback)
                    | ApiKey _, Some key, None => ok (key ++ bs " is set")
                    | Password _, _, Some fallback => ok (fallback ++ bs " is set")
                    | _, _, _ => sret tt
                    end) in
      sret (Some credential)
  | Ok None => let! said := (match credential_name client with Some key => fail_missing key | None => sret tt end) in sret None
  | Err reason => let! said := fail reason in sret None
  end.

(** One application's key. *)
Definition check_key (vault : Vault) (key : bytes) : DoctorM unit :=
  let! found := credential (Some vault) key in
  match found with Some _ => ok (key ++ bs " is set") | None => sret tt end.

Definition check_vault (config : DoctorConfig) : DoctorM (option Vault * option TorrentCredential) :=
  match opened with
  | Err err => let! said := fail err in sret (None, None)
  | Ok vault =>
      let! said := ok (bs "opened " ++ to_string_lossy (vault_path (dk_serve config))) in
      let! torrent_credential := check_torrent_credential vault (torrent_client (dk_checked config)) in
      let! keys := each (check_key vault) (omap credential_for (configured_sources (dk_checked config))) in
      sret (Some vault, torrent_credential)
  end.

End Secrets.

(** ** Database *)

Definition check_database `{RO : RowOrder} (config : DoctorConfig) : DoctorM unit :=
  let path := to_string_lossy (database_path (dk_serve config)) in
  match store with
  | Err err => fail (path ++ bs ": " ++ err)
  | Ok db =>
      let! said := ok (bs "opened " ++ path ++ bs " and applied migrations") in
      match (counts_by_state db).1 with
      | Ok counts => info (nat_text (sum_list (map snd counts)) ++ bs " item(s) on record")
      | Err err => fail (bs "reading shared_items: " ++ store_text err)
      end
  end.

(** ** Applications *)

Section Apps.
Context `{AA : !ArrApp U} `{JT : JsonText} `{FT : FloatText} `{C : VaultCipher}.

(** A repair, and whether the service did it. *)
Definition repair {E : Type} (what : Repair) (done : result unit E) : DoctorM (result unit E) := fun d =>
  (done, mkDoctor (dr_report d) (dr_repairs d ++ [what])).

Definition fix_missing_tag (kind : MediaSource) (url : Url) (config : DoctorConfig) (key : bytes) : DoctorM unit :=
  let tag := ck_tag (dk_checked config) in
  match arr_new http kind url key with
  | Err err => fail (bs "could not create tag " ++ debug_str tag ++ bs ": " ++ arr_text err)
  | Ok client =>
      let! created := repair (CreateTag kind tag) (create_tag client tag) in
      match created with
      | Ok _ =>
          let! said := ok (bs "created tag " ++ debug_str tag ++ bs " in " ++ as_str_name kind) in
          info (bs "apply it to content there to start sharing it")
      | Err err => fail (bs "could not create tag " ++ debug_str tag ++ bs ": " ++ arr_text err)
      end
  end.

(** How [check_arr] words an outcome. *)
Definition say_arr (kind : MediaSource) (url : Url) (config : DoctorConfig) (key_name : bytes) (outcome : ArrOutcome) : DoctorM unit :=
  let url := url_as_str url in
  let tag := debug_str (ck_tag (dk_checked config)) in
  match outcome with
  | AoReady version app_name items =>
      let! said := ok (url ++ bs " responded (" ++ app_name ++ bs " " ++ version ++ bs ")") in
      let! said := ok (nat_text (length items) ++ bs " file(s) tagged " ++ tag) in
      let per_item := bool_decide (kind = Whisparr) && whisparr_walks_like_radarr version in
      if has_coarse_tagging kind && negb per_item then
        info (bs "note: " ++ as_str_name kind ++ bs " tags are not per-item, so tagging one thing shares everything under it")
      else sret tt
  | AoTagUnused version =>
      let! said := ok (url ++ bs " responded (" ++ version ++ bs ")") in
      warn (bs "tag " ++ tag ++ bs " exists but nothing carries it — apply it to content you want to share")
  | AoTagMissing version =>
      let! said := ok (url ++ bs " responded (" ++ version ++ bs ")") in
      fail (bs "no tag named " ++ tag ++ bs " exists in " ++ as_str_name kind ++ bs " — create it, then apply it to content")
  | AoAuthRejected => fail (url ++ bs " rejected the API key — check " ++ key_name)
  | AoUnreachable reason => fail (url ++ bs " could not be reached: " ++ reason)
  | AoBadUrl reason | AoFailed reason | AoCredentialUnreadable reason => fail reason
  | AoNotConfigured | AoNoCredential => sret tt
  end.

Definition check_arr (kind : MediaSource) (url : Url) (config : DoctorConfig) (vault : option Vault) (fix_it : bool) : DoctorM (list Discovered) :=
  match credential_for kind with
  | None => sret []
  | Some key_name =>
      let! found := credential vault key_name in
      match found with
      | None => sret []
      | Some key =>
          let outcome := Checks.check_arr arr_chain http kind (Some url) (Ok (Some key)) (ck_tag (dk_checked config)) in
          match fix_it, outcome with
          | true, AoTagMissing _ => let! fixed := fix_missing_tag kind url config key in sret []
          | _, _ => let! said := say_arr kind url config key_name outcome in sret (arr_items outcome)
          end
      end
  end.

End Apps.

(** ** Library directories *)

Section Dirs.
Context `{D : Digests} `{LF : LibraryFs}.

(** How [check_library] words an outcome. *)
Definition say_library (library : LibraryConfig) (outcome : DirOutcome) : DoctorM unit :=
  let path := to_string_lossy (lc_path library) in
  match outcome with
  | DoMissing => fail (path ++ bs " does not exist as sharerr sees it — check the mount")
  | DoNotADirectory => fail (path ++ bs " is not a directory — [[library]] shares a folder, not a file")
  | DoUnreadable reason => fail (bs "could not scan: " ++ reason)
  | DoEmpty => warn (bs "no " ++ as_str_name (lc_kind library) ++ bs " files found — anything placed here is shared automatically")
  | DoReady skipped items =>
      let! said := ok (nat_text (length items) ++ bs " " ++ as_str_name (lc_kind library) ++ bs " file(s) found") in
      let! said := (if 0 <? skipped then
                      warn (nat_text skipped ++ bs " file(s) skipped — their names carry nothing a release could advertise. Rename them the way a release is named")
                    else sret tt) in
      info (bs "note: no external ids — a friend's app matches these by name alone")
  end.

Definition check_library (library : LibraryConfig) : DoctorM (list Discovered) :=
  let outcome := Checks.check_library library in
  let! said := say_library library outcome in
  sret (dir_items outcome).

End Dirs.

(** ** The torrent client *)

Section Torrents.
Context `{QS : QbitServer} `{QT : !QbitText U} `{TH : TorrentHosts}.
Context `{JT : JsonText} `{DT : DecodeText} `{XW : XmlWriter} `{XR : XmlRefs} `{RT : RpcText}.

(** [TorrentClient::list] of each client. *)
Definition built_list (c : BuiltClient) (label : option bytes) : result (list TorrentSummary) ClientError :=
  match c with
  | BuiltQbit client sent => (qb_list client label sent).1
  | BuiltTransmission endpoint username password session => (tr_list (TS := transmission_server endpoint username password) status_text label session).1
  | BuiltRtorrent endpoint username password posted => (rt_list (RS := rtorrent_server endpoint username password) label posted).1
  | BuiltDeluge endpoint password session => (dl_list (DS := deluge_server endpoint password) status_text label session).1
  end.

Definition check_qbit_category (url : Url) (key label : bytes) (fix_it : bool) : DoctorM unit :=
  if negb (is_nonempty label) then sret tt
  else
    match with_api_key http url key with
    | Err err => warn (bs "could not check qBittorrent's categories: " ++ qbit_error_text err)
    | Ok client =>
        let '(found, sent) := categories client [] in
        match found with
        | Err err => warn (bs "could not list qBittorrent's categories: " ++ qbit_error_text err)
        | Ok found =>
            if bool_decide (label ∈ found) then ok (bs "category " ++ debug_str label ++ bs " exists")
            else if negb fix_it then
              warn (bs "category " ++ debug_str label ++ bs " does not exist in qBittorrent yet — torrents still add fine, but it will not appear in the WebUI's category list until created. Re-run with --fix, or create it under Options -> Categories")
            else
              let! created := repair (CreateCategory label) (create_category client label sent).1 in
              match created with
              | Ok _ => ok (bs "created category " ++ debug_str label)
              | Err err => fail (bs "could not create category " ++ debug_str label ++ bs ": " ++ qbit_error_text err)
              end
        end
    end.

Definition floor_text : bytes := let '(major, minor, patch) := QBIT_SECURITY_FLOOR in u_to_string major ++ bs "." ++ u_to_string minor ++ bs "." ++ u_to_string patch.

(** How [check_qbit] words an outcome: the client when it answered. *)
Definition say_qbit (backend : TorrentBackend) (url checked_key credential_noun : bytes) (outcome : QbitOutcome) : DoctorM (option BuiltClient) :=
  match outcome with
  | QoReady version kind client =>
      let! said := ok (url ++ bs " responded (" ++ kind_as_str kind ++ bs " " ++ version ++ bs ")") in
      let! said := (if bool_decide (backend = BQbittorrent) && qbit_below_security_floor version then
                      warn (bs "qBittorrent " ++ version ++ bs " predates " ++ floor_text ++
                            bs ", which fixed a high-severity SSRF in the WebUI's redirect handling — upgrade it")
                    else sret tt) in
      sret (Some client)
  | QoAuthRejected => let! said := fail (url ++ bs " rejected the " ++ credential_noun ++ bs " — check " ++ checked_key) in sret None
  | QoUnreachable reason => let! said := fail (url ++ bs " could not be reached: " ++ reason) in sret None
  | QoBadUrl reason | QoFailed reason | QoCredentialUnreadable reason => let! said := fail reason in sret None
  | QoNoCredential => sret None
  end.

Definition check_qbit (config : DoctorConfig) (found : option TorrentCredential) (fix_it : bool) : DoctorM unit :=
  let settings := torrent_client (dk_checked config) in
  let backend := ck_torrent_backend (dk_checked config) in
  let label := tc_category settings in
  match found with
  | None => fail (bs "skipped: " ++ default (bs "the credential") (credential_name settings) ++ bs " is unavailable — see the vault section above")
  | Some found =>
      let '(category_credential, checked_key) :=
        match found with ApiKey key => (Some key, tc_primary_credential settings) | Password _ => (None, tc_fallback_credential settings) end in
      let! client := say_qbit backend (url_as_str (tc_url settings)) (default (bs "the stored credential") checked_key) (noun found)
                       (Checks.check_qbit qbit_chain http backend (tc_url settings) (tc_login settings) (Ok (Some found))) in
      match client with
      | None => sret tt
      | Some client =>
          let! listed := (match built_list client (Some label) with
                          | Ok torrents => info (nat_text (length torrents) ++ bs " torrent(s) already labelled " ++ debug_str label)
                          | Err err => warn (bs "could not list torrents: " ++ client_error_text err)
                          end) in
          match bool_decide (backend = BQbittorrent), category_credential with
          | true, Some key => check_qbit_category (tc_url settings) key label fix_it
          | _, _ => sret tt
          end
      end
  end.

End Torrents.

(** ** Tracker *)

Definition check_tracker `{C : VaultCipher} (config : DoctorConfig) (vault : option Vault) : DoctorM unit :=
  let! said := info (bs "announces are answered by `sharerr serve`; a one-shot sync builds correct torrents whose announces fail until it is running") in
  let! said := (match quiet_credential vault TRACKER_TOKEN_PREVIOUS with
                | Some _ => info (bs "a previous announce token is still accepted alongside the current one — finish the rotation from Settings once nothing needs the old one any more")
                | None => sret tt
                end) in
  match advertised config with
  | Ok (Some base) => ok (bs "advertised endpoint: " ++ base_string base)
  | Ok None =>
      match dk_gluetun config with
      | Some _ => info (bs "no static advertised address — the endpoint is resolved from gluetun, see the gluetun section above")
      | None => fail (bs "neither tracker.advertised_host nor tracker.advertised_url is set. sharerr cannot guess the address friends reach it on, and a wrong guess produces torrents nobody can announce to")
      end
  | Err err => fail (endpoint_text err)
  end.

(** What a tunnel's control server answers with a key, and without one. *)
Section Tunnel.
Context `{C : VaultCipher} (control anonymous : ControlServer U).

Definition tunnel_server (key : option bytes) : ControlServer U := match key with Some _ => control | None => anonymous end.

(** [target.config(config).control_url]. *)
Definition control_url (config : DoctorConfig) (target : GluetunTarget) : option Url :=
  match target with TunTracker => dk_gluetun config | TunClient => dk_gluetun_client config end.

(** The advertised host as a literal address that is not the tunnel's exit. *)
Definition stale_host (config : DoctorConfig) (ip : IpAddr) : option IpAddr :=
  host ← advertised_host (cf_tracker (dk_serve config));
  literal ← parse_ip (trim_matches is_bracket host);
  if bool_decide (literal = ip) then None else Some literal.

Definition check_gluetun (config : DoctorConfig) (vault : option Vault) (target : GluetunTarget) (url : Url) : DoctorM unit :=
  let key := quiet_credential vault (credential_key target) in
  match http with
  | Err err => fail (gluetun_error_text (GlMalformed err))
  | Ok _ =>
      let base := normalise_base url in
      let ip_result := public_ip debug_str (tunnel_server key) base (default [] key) in
      let port_result := forwarded_port (tunnel_server key) base (default [] key) in
      let! said := (match ip_result with
                    | Ok ip => ok (bs "public IP per " ++ url_as_str url ++ bs ": " ++ ip_to_string ip)
                    | Err err => fail (gluetun_error_text err)
                    end) in
      let! said := (match port_result with
                    | Ok port => ok (bs "forwarded port: " ++ u_to_string port ++ bs " — the endpoint is resolved dynamically")
                    | Err err => warn (gluetun_error_text err)
                    end) in
      match target, ip_result with
      | TunTracker, Ok ip =>
          match stale_host config ip with
          | Some literal => warn (bs "tracker.advertised_host is " ++ ip_to_string literal ++ bs ", but the tunnel's exit is " ++ ip_to_string ip ++
                                  bs " — torrents built with the static address cannot be announced to")
          | None => sret tt
          end
      | _, _ => sret tt
      end
  end.

End Tunnel.

(** [check_reachability], for what connecting to a target gives. *)
Definition check_reachability (connect : bytes -> Dialled) (config : DoctorConfig) : DoctorM unit :=
  match advertised config with
  | Ok (Some base) =>
      match dial_target base with
      | Err _ => sret tt
      | Ok target =>
          match check_reachable connect (Some base) with
          | Reachable => ok (target ++ bs " accepts TCP connections from here")
          | Refused err => warn (bs "could not connect to " ++ target ++ bs ": " ++ err ++
                                 bs ". If this instance cannot reach its own public address (common behind NAT), verify the port from outside")
          | TimedOut => warn (bs "connecting to " ++ target ++
                              bs " timed out. If this instance cannot reach its own public address (common behind NAT), verify the port from outside")
          | NotConfigured | Unusable _ => sret tt
          end
      end
  | _ => sret tt
  end.

Definition describe_advertised (config : DoctorConfig) : bytes :=
  match advertised config with
  | Ok (Some base) => base_string base
  | Ok None => bs "(unset)"
  | Err err => bs "(invalid: " ++ endpoint_text err ++ bs ")"
  end.

(** ** Paths *)

Definition check_paths (path_exists : bytes -> bool) (config : DoctorConfig) (discovered : list Discovered) : DoctorM unit :=
  let path_map := ck_path_map (dk_checked config) in
  let! said := (if is_nonempty path_map then ok (nat_text (length path_map) ++ bs " mapping rule(s) configured")
                else info (bs "no path_map configured — all three views are assumed identical")) in
  if negb (is_nonempty discovered) then info (bs "nothing tagged, so there are no paths to resolve")
  else
    let paths := Checks.check_paths path_exists path_chain (dk_checked config) discovered in
    let! said := report_capped (pr_invalid paths) fail (bs " unresolvable path(s)") in
    let! said := (match pr_sample paths with
                  | Some sample =>
                      let! said := info (bs "example resolution, " ++ nat_text (pr_checked paths) ++ bs " file(s) checked:") in
                      let! said := info (bs "  arr view     " ++ to_string_lossy (rp_arr sample)) in
                      let! said := info (bs "  sharerr view " ++ to_string_lossy (rp_sharerr sample)) in
                      info (bs "  qbit view    " ++ to_string_lossy (rp_qbit sample) ++ bs " (verify against qBittorrent)")
                  | None => sret tt
                  end) in
    let! said := (if (0 <? pr_unmapped paths) && (0 <? pr_rules paths) then
                    warn (nat_text (pr_unmapped paths) ++ bs " of " ++ nat_text (pr_checked paths) ++ bs " file(s) matched no mapping rule and passed through unchanged")
                  else sret tt) in
    if negb (is_nonempty (pr_missing paths)) then ok (bs "all " ++ nat_text (pr_checked paths) ++ bs " tagged file(s) are readable by sharerr")
    else
      let! said := fail (nat_text (length (pr_missing paths)) ++ bs " of " ++ nat_text (pr_checked paths) ++
                         bs " tagged file(s) do not exist at their sharerr-view path") in
      let! said := report_capped (pr_missing paths) (fun path => info (bs "  " ++ to_string_lossy path)) [] in
      info (bs "fix the [[path_map]] rules so the arr view maps onto sharerr's mount").

(** [suggest_paths]; [listing_of] is what is under a directory, if it is one. *)
Definition suggest_paths `{I : AgreementIter} (listing_of : bytes -> option Listing) (config : DoctorConfig) (discovered : list Discovered)
    (search_root : option bytes) : DoctorM unit :=
  let root := default (bs "/media") search_root in
  match listing_of root with
  | None => fail (to_string_lossy root ++ bs " is not a directory sharerr can see — pass --search-root, or mount the library there")
  | Some listing =>
      if negb (is_nonempty discovered) then info (bs "nothing tagged, so there is nothing to match against")
      else
        let fresh s := negb (existsb (fun m => bool_decide (path_eq (pm_arr m) (sg_arr s)) && bool_decide (path_eq (pm_sharerr m) (sg_sharerr s)))
                               (ck_path_map (dk_checked config))) in
        let suggestions := List.filter fresh (suggest discovered root listing) in
        if negb (is_nonempty suggestions) then
          info (bs "no new mapping found under " ++ to_string_lossy root ++
                bs " — every match either already has a rule, or nothing tagged matched a file there by name and size")
        else
          let! said := each (fun s =>
            let! said := ok (to_string_lossy (sg_arr s) ++ bs " -> " ++ to_string_lossy (sg_sharerr s) ++ bs " (" ++ nat_text (sg_agreement s) ++ bs " file(s) agree)") in
            info (bs "  add as: arr = " ++ quote (to_string_lossy (sg_arr s)) ++ bs ", sharerr = " ++ quote (to_string_lossy (sg_sharerr s)))) suggestions in
          info (bs "proposals only — nothing was written; add the ones that look right under Settings or in [[path_map]]")
  end.

(** ** Summary *)

(** [{:<11}]. *)
Definition pad_to (width : nat) (text : bytes) : bytes := text ++ replicate (width - length (chars text)) " "%byte.

Definition config_summary (config : DoctorConfig) : DoctorM unit :=
  let! said := line (bs "data dir:  " ++ to_string_lossy (cf_data_dir (dk_serve config))) in
  let! said := line (bs "tag:       " ++ ck_tag (dk_checked config)) in
  let! said := line (bs "bind:      " ++ dk_bind config) in
  let! said := each (fun kind => line (pad_to 11 (as_str_name kind ++ bs ":") ++
                 match service (dk_checked config) kind with Some url => url_as_str url | None => bs "(not configured)" end)) ARRS in
  let! said := each (fun library => line (bs "library:   " ++ to_string_lossy (lc_path library) ++ bs " (" ++ as_str_name (lc_kind library) ++ bs ")"))
                 (ck_library (dk_checked config)) in
  let client := torrent_client (dk_checked config) in
  let name := as_str_name (ck_torrent_backend (dk_checked config)) in
  let! said := (match tc_login client with
                | Some login => line (bs "client:    " ++ name ++ bs " " ++ url_as_str (tc_url client) ++ bs " (user " ++ login ++ bs ")")
                | None => line (bs "client:    " ++ name ++ bs " " ++ url_as_str (tc_url client))
                end) in
  let! said := line (bs "tracker:   builtin, advertised as " ++ describe_advertised config) in
  if negb (is_nonempty (ck_path_map (dk_checked config))) then line (bs "path map:  (none — all three views assumed identical)")
  else each (fun m => line (bs "path map:  arr " ++ to_string_lossy (pm_arr m) ++ bs " -> sharerr " ++ to_string_lossy (pm_sharerr m) ++
                            bs " -> qbit " ++ to_string_lossy (default (pm_sharerr m) (pm_qbit m)))) (ck_path_map (dk_checked config)).

(** ** Every check, in order *)

Section Run.
Context `{C : VaultCipher} `{RO : RowOrder} `{AA : !ArrApp U} `{JT : JsonText} `{FT : FloatText} `{D : Digests} `{LF : LibraryFs}.
Context `{QS : QbitServer} `{QT : !QbitText U} `{TH : TorrentHosts} `{DT : DecodeText} `{XW : XmlWriter} `{XR : XmlRefs} `{RT : RpcText} `{I : AgreementIter}.
Context (control anonymous : GluetunTarget -> ControlServer U) (connect : bytes -> Dialled) (path_exists : bytes -> bool) (listing_of : bytes -> option Listing).

(** A titled section that discovers files. *)
Definition titled (title : bytes) (check : DoctorM (list Discovered)) (discovered : list Discovered) : DoctorM (list Discovered) :=
  let! opened := section title in
  let! items := check in
  sret (discovered ++ items).

Definition check_source (config : DoctorConfig) (vault : option Vault) (fix_it : bool) (discovered : list Discovered) (kind : MediaSource) : DoctorM (list Discovered) :=
  match service (dk_checked config) kind with
  | None => sret discovered
  | Some url => titled (as_str_name kind) (check_arr kind url config vault fix_it) discovered
  end.

Definition library_title (library : LibraryConfig) : bytes := bs "library " ++ to_string_lossy (lc_path library).

Definition check_one_library (discovered : list Discovered) (library : LibraryConfig) : DoctorM (list Discovered) :=
  titled (library_title library) (check_library library) discovered.

Definition tunnels : list (GluetunTarget * bytes) := [(TunTracker, bs "gluetun"); (TunClient, bs "gluetun (torrent client)")].

Definition check_tunnel (config : DoctorConfig) (vault : option Vault) (tunnel : GluetunTarget * bytes) : DoctorM unit :=
  match control_url config tunnel.1 with
  | None => sret tt
  | Some url => let! opened := section tunnel.2 in check_gluetun (control tunnel.1) (anonymous tunnel.1) config vault tunnel.1 url
  end.

Definition no_sources (config : DoctorConfig) : bool :=
  negb (is_nonempty (configured_sources (dk_checked config))) && negb (is_nonempty (ck_library (dk_checked config))).

(** [checks], up to the report it starts from. *)
Definition run_checks (config : DoctorConfig) (config_error : option bytes) (args : DoctorArgs) : DoctorM unit :=
  let! said := section (bs "configuration") in
  let! said := (match config_error with
                | Some error => let! said := fail error in info (bs "everything below reflects built-in defaults, not this file")
                | None => sret tt
                end) in
  let! said := config_summary config in
  let! said := section (bs "vault") in
  let! found := check_vault config in
  let! said := section (bs "database") in
  let! said := check_database config in
  let! discovered := sfold (check_source config found.1 (da_fix args)) (configured_sources (dk_checked config)) [] in
  let! discovered := sfold check_one_library (ck_library (dk_checked config)) discovered in
  let! said := (if no_sources config then
                  let! said := section (bs "library sources") in
                  fail (bs "no *arr app or [[library]] directory is configured — there is nothing to share")
                else sret tt) in
  let! said := section (as_str_name (ck_torrent_backend (dk_checked config))) in
  let! said := check_qbit config found.2 (da_fix args) in
  let! said := each (check_tunnel config found.1) tunnels in
  let! said := section (bs "tracker") in
  let! said := check_tracker config found.1 in
  let! said := check_reachability connect config in
  let! said := section (bs "paths") in
  let! said := check_paths path_exists config discovered in
  if da_suggest_paths args then
    let! said := section (bs "path suggestions") in
    suggest_paths listing_of config discovered (da_search_root args)
  else sret tt.

Definition new_report (json : bool) : Report := mkReport 0 0 json [] [].

(** [checks]. *)
Definition checks (config : DoctorConfig) (config_error : option bytes) (args : DoctorArgs) : Doctor :=
  (run_checks config config_error args (mkDoctor (new_report (da_json args)) [])).2.

(** [run]: whether the command succeeds, and everything it printed; [to_string_pretty] may
    refuse a document. *)
Definition run (to_string_pretty : Json -> result bytes bytes) (config : DoctorConfig) (config_error : option bytes) (args : DoctorArgs)
    : result unit bytes * list bytes :=
  let report := dr_report (checks config config_error args) in
  let verdict := summarize (rp_failures report) (rp_warnings report) in
  if rp_json report then
    match to_string_pretty (report_json report) with
    | Err err => (Err err, rp_stdout report)
    | Ok text => ((let? _ := verdict in Ok tt), rp_stdout report ++ [text])
    end
  else
    match verdict with
    | Ok text => (Ok tt, rp_stdout report ++ [[]; text])
    | Err err => (Err err, rp_stdout report ++ [[]])
    end.

(** [json_report]. *)
Definition json_report (config : DoctorConfig) (config_error : option bytes) : Json :=
  report_json (dr_report (checks config config_error (mkDoctorArgs false false None true))).

End Run.

End Checks.

(** ** Facts: what a check can do to the report *)

(** A line as it is said: its level, its message and its prefix in text mode. *)
Record Spoken : Type := mkSpoken { sp_level : Level; sp_message : bytes; sp_prefix : bytes }.

Definition count_line (l : Level) (r : Report) : Report := match l with LWarn => count_warning r | LFail => count_failure r | _ => r end.
Definition say (s : Spoken) (r : Report) : Report := push_line (sp_level s) (sp_message s) (sp_prefix s) (count_line (sp_level s) r).
Definition say_all (lines : list Spoken) (r : Report) : Report := fold_left (fun r s => say s r) lines r.

(** Lines are said, and only these repairs are made. *)
Definition speaks (allowed : Repair -> Prop) (d d' : Doctor) : Prop :=
  (exists lines, dr_report d' = say_all lines (dr_report d)) /\ exists made, dr_repairs d' = dr_repairs d ++ made /\ Forall allowed made.

#[export] Instance speaks_preorder allowed : PreOrder (speaks allowed).
Proof.
  split.
  - intros d. split; [by exists []|]. exists []. by rewrite app_nil_r.
  - intros a b c [[la Ha] (ma & Hma & Ga)] [[lb Hb] (mb & Hmb & Gb)]. split.
    + exists (la ++ lb). by rewrite Hb, Ha; unfold say_all; rewrite fold_left_app.
    + exists (ma ++ mb). rewrite Hmb, Hma, app_assoc. split; [done|]. by apply Forall_app.
Qed.

Section Speaking.
Context (allowed : Repair -> Prop).

Lemma speaks_said (s : Spoken) (f : Report -> Report) : (forall r, f r = say s r) -> moves (speaks allowed) (on_report f).
Proof. intros Hf. apply moves_modify. intros d. split; [exists [s]; cbn; apply Hf|]. exists []. cbn. by rewrite app_nil_r. Qed.

Lemma speaks_ok m : moves (speaks allowed) (ok m).
Proof. by apply (speaks_said (mkSpoken LOk m (bs "  [ok]   "))). Qed.
Lemma speaks_info m : moves (speaks allowed) (info m).
Proof. by apply (speaks_said (mkSpoken LInfo m (bs "         "))). Qed.
Lemma speaks_line m : moves (speaks allowed) (line m).
Proof. by apply (speaks_said (mkSpoken LInfo m (bs "  "))). Qed.
Lemma speaks_warn m : moves (speaks allowed) (warn m).
Proof. by apply (speaks_said (mkSpoken LWarn m (bs "  [warn] "))). Qed.
Lemma speaks_fail m : moves (speaks allowed) (fail m).
Proof. by apply (speaks_said (mkSpoken LFail m (bs "  [FAIL] "))). Qed.

Lemma speaks_each {A : Type} (f : A -> DoctorM unit) items : (forall x, moves (speaks allowed) (f x)) -> moves (speaks allowed) (each f items).
Proof.
  intros Hf. induction items as [|x items IH]; cbn; [apply moves_ret; apply _|]. apply moves_bind; [apply _|apply Hf|]. by intros ?.
Qed.

Lemma speaks_repair {E : Type} what (done : result unit E) : allowed what -> moves (speaks allowed) (repair what done).
Proof. intros Ha d. split; [by exists []|]. exists [what]. split; [done|]. by constructor. Qed.

End Speaking.

(** One step of a check that only speaks. *)
Ltac speak_step :=
  match goal with
  | |- moves _ (sret _) => apply moves_ret; apply _
  | |- moves _ (ok _) => apply speaks_ok
  | |- moves _ (info _) => apply speaks_info
  | |- moves _ (line _) => apply speaks_line
  | |- moves _ (warn _) => apply speaks_warn
  | |- moves _ (fail _) => apply speaks_fail
  | |- moves _ (sbind _ _) => apply moves_bind; [apply _| |intros ?]
  | |- moves _ (each _ _) => apply speaks_each; intros ?
  | |- moves _ (match ?x with _ => _ end) => destruct x
  | |- moves _ (let '(_, _) := ?x in _) => destruct x
  end.
Ltac speak := cbv zeta; repeat speak_step.

Section CheckFacts.
Context `{U : UrlLib} `{UP : !UrlParts U} `{UH : !UrlHost U} `{UD : !UrlDial U} `{DX : !DoctorText U}.
Context (http : result unit bytes) (opened : result Vault bytes) (store : result (Db * Script) bytes) (allowed : Repair -> Prop).
Context `{C : VaultCipher} `{RO : RowOrder} `{AA : !ArrApp U} `{JT : JsonText} `{FT : FloatText} `{D : Digests} `{LF : LibraryFs}.
Context `{QS : QbitServer} `{QT : !QbitText U} `{TH : TorrentHosts} `{DT : DecodeText} `{XW : XmlWriter} `{XR : XmlRefs} `{RT : RpcText} `{I : AgreementIter}.

Lemma speaks_capped {A : Type} (items : list A) show suffix :
  (forall x, moves (speaks allowed) (show x)) -> moves (speaks allowed) (report_capped items show suffix).
Proof. intros Hs. unfold report_capped. speak. apply Hs. Qed.

Lemma speaks_credential vault key : moves (speaks allowed) (credential vault key).
Proof. unfold credential, fail_missing, fail_unreadable. speak. Qed.

Lemma speaks_summary config : moves (speaks allowed) (config_summary config).
Proof. unfold config_summary. speak. Qed.

Lemma speaks_vault config : moves (speaks allowed) (check_vault opened config).
Proof.
  unfold check_vault, check_torrent_credential, check_key, fail_missing. speak; apply speaks_credential.
Qed.

Lemma speaks_database config : moves (speaks allowed) (check_database store config).
Proof. unfold check_database. speak. Qed.

Lemma speaks_arr kind url config vault fix_it :
  (fix_it = true -> allowed (CreateTag kind (ck_tag (dk_checked config)))) -> moves (speaks allowed) (check_arr http kind url config vault fix_it).
Proof.
  intros Ha. unfold check_arr. destruct (credential_for kind) as [key_name|]; [|speak]. apply moves_bind; [apply _|apply speaks_credential|].
  intros [key|]; [|speak]. cbv zeta. set (outcome := Checks.check_arr _ _ _ _ _ _).
  assert (moves (speaks allowed) (let! said := say_arr kind url config key_name outcome in sret (arr_items outcome))) as Hsay.
  { unfold say_arr. destruct outcome; speak. }
  destruct fix_it; [|done]. destruct outcome; try done. unfold fix_missing_tag. speak. apply speaks_repair. auto.
Qed.

Lemma speaks_library library : moves (speaks allowed) (check_library library).
Proof. unfold check_library, say_library. destruct (Checks.check_library library); speak. Qed.

Lemma speaks_qbit config found fix_it :
  (fix_it = true -> ck_torrent_backend (dk_checked config) = BQbittorrent -> allowed (CreateCategory (tc_category (torrent_client (dk_checked config))))) ->
  moves (speaks allowed) (check_qbit http config found fix_it).
Proof.
  intros Ha. unfold check_qbit. destruct found as [found|]; [|speak]. cbv zeta.
  destruct (match found with Password _ => _ | ApiKey _ => _ end) as [category key]. apply moves_bind; [apply _|unfold say_qbit; speak|].
  intros [client|]; [|speak]. apply moves_bind; [apply _|speak|]. intros _.
  case_bool_decide as Hb; [|speak]. destruct category as [secret|]; [|speak].
  unfold check_qbit_category. destruct fix_it; cbn [negb]; speak; apply speaks_repair; auto.
Qed.

Lemma speaks_tracker config vault : moves (speaks allowed) (check_tracker config vault).
Proof. unfold check_tracker. speak. Qed.

Lemma speaks_gluetun control anonymous config vault target url : moves (speaks allowed) (check_gluetun http control anonymous config vault target url).
Proof. unfold check_gluetun. speak. Qed.

Lemma speaks_reachability connect config : moves (speaks allowed) (check_reachability connect config).
Proof. unfold check_reachability. speak. Qed.

Lemma speaks_paths path_exists config discovered : moves (speaks allowed) (check_paths path_exists config discovered).
Proof. unfold check_paths. speak; apply speaks_capped; intros ?; [apply speaks_fail|apply speaks_info]. Qed.

Lemma speaks_suggest listing_of config discovered root : moves (speaks allowed) (suggest_paths listing_of config discovered root).
Proof. unfold suggest_paths. speak. Qed.

End CheckFacts.

(** ** Facts: the whole report *)

(** Sections with what is said under each. *)
Definition told (parts : list (bytes * list Spoken)) (r : Report) : Report := fold_left (fun r p => say_all p.2 (add_section p.1 r)) parts r.

(** Sections of these titles are added, and only these repairs are made. *)
Definition tells (allowed : Repair -> Prop) (titles : list bytes) (d d' : Doctor) : Prop :=
  (exists parts, map fst parts = titles /\ dr_report d' = told parts (dr_report d)) /\ exists made, dr_repairs d' = dr_repairs d ++ made /\ Forall allowed made.

Lemma tells_nil allowed d : tells allowed [] d d.
Proof. split; [by exists []|]. exists []. by rewrite app_nil_r. Qed.

Lemma tells_app allowed ta tb a b c : tells allowed ta a b -> tells allowed tb b c -> tells allowed (ta ++ tb) a c.
Proof.
  intros [(pa & <- & Ha) (ma & Hma & Ga)] [(pb & <- & Hb) (mb & Hmb & Gb)]. split.
  - exists (pa ++ pb). rewrite map_app. split; [done|]. rewrite Hb, Ha. unfold told. by rewrite fold_left_app.
  - exists (ma ++ mb). rewrite Hmb, Hma, app_assoc. split; [done|]. by apply Forall_app.
Qed.

Lemma tells_part allowed title d d' : speaks allowed (section title d).2 d' -> tells allowed [title] d d'.
Proof. intros [[lines Hl] Hm]. split; [|done]. exists [(title, lines)]. done. Qed.

(** The lines of a level. *)
Definition said_at (level : Level) (sections : list Part) : nat :=
  length (filter (fun l => ln_level l = level) (concat (map pt_lines sections))).

Definition part_of (p : bytes * list Spoken) : Part := mkPart p.1 (map (fun s => mkLine (sp_level s) (sp_message s)) p.2).

Lemma append_line_last l parts part : append_line l (parts ++ [part]) = parts ++ [mkPart (pt_title part) (pt_lines part ++ [l])].
Proof. induction parts as [|p parts IH]; [done|]. cbn. rewrite <- IH. by destruct parts. Qed.

Lemma say_all_sections lines r parts title said :
  rp_sections r = parts ++ [mkPart title said] ->
  rp_sections (say_all lines r) = parts ++ [mkPart title (said ++ map (fun s => mkLine (sp_level s) (sp_message s)) lines)].
Proof.
  revert r said. induction lines as [|s lines IH]; intros r said Hr; [cbn; by rewrite app_nil_r|].
  change (say_all (s :: lines) r) with (say_all lines (say s r)). cbn [map]. rewrite (IH (say s r) (said ++ [mkLine (sp_level s) (sp_message s)])); [by rewrite <- app_assoc|].
  unfold say, push_line. cbn. rewrite <- append_line_last with (part := mkPart title said). f_equal. rewrite <- Hr. by destruct (sp_level s).
Qed.

Lemma told_sections parts r : rp_sections (told parts r) = rp_sections r ++ map part_of parts.
Proof.
  revert r. induction parts as [|[title lines] parts IH]; intros r; [cbn; by rewrite app_nil_r|].
  change (told ((title, lines) :: parts) r) with (told parts (say_all lines (add_section title r))). rewrite IH. cbn [map]. rewrite (say_all_sections lines (add_section title r) (rp_sections r) title []) by done.
  by rewrite <- app_assoc.
Qed.

Definition count_of (level : Level) (lines : list Spoken) : nat := length (filter (fun s => sp_level s = level) lines).

Definition one_at (level : Level) (s : Spoken) : nat := if decide (sp_level s = level) then 1 else 0.

Lemma count_of_cons level s lines : count_of level (s :: lines) = one_at level s + count_of level lines.
Proof. unfold count_of, one_at. rewrite filter_cons. by case_decide. Qed.

Lemma say_counts s r :
  rp_failures (say s r) = rp_failures r + one_at LFail s /\ rp_warnings (say s r) = rp_warnings r + one_at LWarn s /\
  rp_json (say s r) = rp_json r /\ (rp_json r = true -> rp_stdout (say s r) = rp_stdout r).
Proof.
  destruct s as [[] m p]; unfold say, one_at; cbn; repeat case_decide; try done; (split; [lia|]); (split; [lia|]); (split; [done|]); unfold printed; cbn; by intros ->.
Qed.

Lemma say_all_counts lines r :
  rp_failures (say_all lines r) = rp_failures r + count_of LFail lines /\ rp_warnings (say_all lines r) = rp_warnings r + count_of LWarn lines /\
  rp_json (say_all lines r) = rp_json r /\ (rp_json r = true -> rp_stdout (say_all lines r) = rp_stdout r).
Proof.
  revert r. induction lines as [|s lines IH]; intros r; [cbn; auto with arith|].
  change (say_all (s :: lines) r) with (say_all lines (say s r)). rewrite !count_of_cons.
  destruct (IH (say s r)) as (-> & -> & -> & Hout), (say_counts s r) as (-> & -> & Hj & Ho). rewrite Hj in *.
  split; [lia|]. split; [lia|]. split; [done|]. intros Hjson. by rewrite Hout, Ho.
Qed.

Lemma told_counts parts r :
  rp_failures (told parts r) = rp_failures r + count_of LFail (concat (map snd parts)) /\ rp_warnings (told parts r) = rp_warnings r + count_of LWarn (concat (map snd parts)) /\
  rp_json (told parts r) = rp_json r /\ (rp_json r = true -> rp_stdout (told parts r) = rp_stdout r).
Proof.
  revert r. induction parts as [|[title lines] parts IH]; intros r; [cbn; auto with arith|].
  change (told ((title, lines) :: parts) r) with (told parts (say_all lines (add_section title r))).
  destruct (IH (say_all lines (add_section title r))) as (-> & -> & -> & Hout). destruct (say_all_counts lines (add_section title r)) as (-> & -> & Hj & Ho).
  unfold count_of. cbn [map concat snd]. rewrite !filter_app, !length_app, Hj. cbn [add_section rp_failures rp_warnings rp_json].
  split; [lia|]. split; [lia|]. split; [done|]. intros Hjson. rewrite Hj in Hout. rewrite Hout, Ho by done. cbn. unfold printed. by rewrite Hjson.
Qed.

Lemma said_at_parts level parts : said_at level (map part_of parts) = count_of level (concat (map snd parts)).
Proof.
  unfold said_at, count_of. rewrite map_map. set (g := fun s => mkLine (sp_level s) (sp_message s)).
  assert (concat (map (fun p => pt_lines (part_of p)) parts) = map g (concat (map snd parts))) as ->.
  { induction parts as [|p parts IH]; [done|]. cbn [map concat]. by rewrite IH, map_app. }
  induction (concat (map snd parts)) as [|s lines IH]; [done|]. cbn [map]. rewrite !filter_cons.
  change (ln_level (g s)) with (sp_level s). case_decide; cbn [length]; by rewrite IH.
Qed.

Section Sequencing.
Context (allowed : Repair -> Prop).

(** A computation that adds sections of these titles, from any report. *)
Definition telling {A : Type} (titles : list bytes) (m : DoctorM A) : Prop := forall d, tells allowed titles d (m d).2.

Lemma telling_ret {A : Type} (a : A) : telling [] (sret a).
Proof. intros d. apply tells_nil. Qed.

Lemma telling_bind {A B : Type} ta tb (m : DoctorM A) (k : A -> DoctorM B) : telling ta m -> (forall a, telling tb (k a)) -> telling (ta ++ tb) (sbind m k).
Proof. intros Hm Hk d. unfold sbind. specialize (Hm d). destruct (m d) as [a d1]. eapply tells_app; [done|apply Hk]. Qed.

Lemma telling_part {A : Type} title (m : DoctorM A) : moves (speaks allowed) m -> telling [title] (sbind (section title) (fun _ => m)).
Proof. intros Hm d. apply tells_part. apply Hm. Qed.

Lemma telling_part_then {A B : Type} title titles (m : DoctorM A) (k : A -> DoctorM B) :
  moves (speaks allowed) m -> (forall a, telling titles (k a)) -> telling (title :: titles) (sbind (section title) (fun _ => sbind m k)).
Proof.
  intros Hm Hk d. pose proof (telling_part title m Hm d) as Ht. unfold sbind in *. destruct (section title d) as [u d1].
  destruct (m d1) as [a d2]. apply (tells_app _ [title] titles _ d2); [done|apply Hk].
Qed.

Lemma telling_part2_then {A B E : Type} title titles (m : DoctorM A) (n : A -> DoctorM B) (k : B -> DoctorM E) :
  moves (speaks allowed) m -> (forall a, moves (speaks allowed) (n a)) -> (forall b, telling titles (k b)) ->
  telling (title :: titles) (sbind (section title) (fun _ => sbind m (fun a => sbind (n a) k))).
Proof.
  intros Hm Hn Hk d. assert (moves (speaks allowed) (sbind m n)) as Hmn by (apply moves_bind; [apply _|done|done]).
  pose proof (telling_part_then title titles (sbind m n) k Hmn Hk d) as Ht. unfold sbind in *. destruct (section title d) as [u d1]. by destruct (m d1).
Qed.

Lemma telling_fold {A B : Type} (title : A -> bytes) (f : B -> A -> DoctorM B) (l : list A) (b : B) :
  (forall b x, x ∈ l -> telling [title x] (f b x)) -> telling (map title l) (sfold f l b).
Proof.
  revert b. induction l as [|x l IH]; intros b Hf; cbn; [apply telling_ret|].
  apply (telling_bind [title x]); [apply Hf, list_elem_of_here|]. intros b'. apply IH. intros b'' y Hy. by apply Hf, list_elem_of_further.
Qed.

End Sequencing.

Section WholeRun.
Context `{U : UrlLib} `{UP : !UrlParts U} `{UH : !UrlHost U} `{UD : !UrlDial U} `{DX : !DoctorText U}.
Context (http : result unit bytes) (opened : result Vault bytes) (store : result (Db * Script) bytes).
Context `{C : VaultCipher} `{RO : RowOrder} `{AA : !ArrApp U} `{JT : JsonText} `{FT : FloatText} `{D : Digests} `{LF : LibraryFs}.
Context `{QS : QbitServer} `{QT : !QbitText U} `{TH : TorrentHosts} `{DT : DecodeText} `{XW : XmlWriter} `{XR : XmlRefs} `{RT : RpcText} `{I : AgreementIter}.
Context (control anonymous : GluetunTarget -> ControlServer U) (connect : bytes -> Dialled) (path_exists : bytes -> bool) (listing_of : bytes -> option Listing).

(** The repairs a run may make: with [--fix], the configured tag in a configured
    application, and qBittorrent's configured category. *)
Definition sanctioned (config : DoctorConfig) (args : DoctorArgs) (what : Repair) : Prop :=
  da_fix args = true /\
  match what with
  | CreateTag kind label => is_Some (service (dk_checked config) kind) /\ label = ck_tag (dk_checked config)
  | CreateCategory name => ck_torrent_backend (dk_checked config) = BQbittorrent /\ name = tc_category (torrent_client (dk_checked config))
  end.

(** The sections of a run: what is configured decides, and nothing that is found. *)
Definition titles (config : DoctorConfig) (args : DoctorArgs) : list bytes :=
  [bs "configuration"; bs "vault"; bs "database"] ++ map as_str_name (configured_sources (dk_checked config)) ++
  map library_title (ck_library (dk_checked config)) ++ (if no_sources config then [bs "library sources"] else []) ++
  [as_str_name (ck_torrent_backend (dk_checked config))] ++ map snd (filter (fun t => is_Some (control_url config t.1)) tunnels) ++
  [bs "tracker"; bs "paths"] ++ (if da_suggest_paths args then [bs "path suggestions"] else []).

Lemma telling_tunnels allowed config vault l :
  telling allowed (map snd (filter (fun t => is_Some (control_url config t.1)) l)) (each (check_tunnel http control anonymous config vault) l).
Proof.
  induction l as [|t l IH]; [apply telling_ret|]. cbn [each]. rewrite filter_cons. unfold check_tunnel at 1. destruct (control_url config t.1) as [url|].
  - rewrite decide_True by done. apply (telling_bind _ [t.2]); [|done]. apply telling_part, speaks_gluetun.
  - rewrite decide_False by (intros [? [=]]). apply (telling_bind _ []); [apply telling_ret|done].
Qed.

Lemma run_tells config config_error args :
  telling (sanctioned config args) (titles config args)
    (run_checks http opened store control anonymous connect path_exists listing_of config config_error args).
Proof.
  unfold run_checks, titles. cbn [app].
  apply telling_part2_then; [destruct config_error; speak|intros ?; apply speaks_summary|]. intros _.
  apply telling_part_then; [apply speaks_vault|]. intros [vault found]. cbn [fst snd].
  apply telling_part_then; [apply speaks_database|]. intros _.
  apply telling_bind.
  { apply telling_fold. intros b kind Hk. unfold configured_sources in Hk. apply list_elem_of_filter in Hk as [[url Hurl] _].
    unfold check_source, titled. rewrite Hurl. apply telling_part. apply moves_bind; [apply _| |intros ?; apply moves_ret; apply _].
    apply speaks_arr. intros Hf. split; [done|]. cbn. eauto. }
  intros discovered. apply telling_bind.
  { apply telling_fold. intros b library _. apply telling_part. apply moves_bind; [apply _|apply speaks_library|]. intros ?. apply moves_ret. apply _. }
  intros discovered'. apply telling_bind; [destruct (no_sources config); [apply telling_part, speaks_fail|apply telling_ret]|]. intros _.
  apply telling_part_then. { apply speaks_qbit. intros Hf Hb. by split. } intros _.
  apply telling_bind; [apply telling_tunnels|]. intros _.
  apply telling_part2_then; [apply speaks_tracker|intros ?; apply speaks_reachability|]. intros _.
  apply telling_part_then; [apply speaks_paths|]. intros _.
  destruct (da_suggest_paths args); [apply telling_part, speaks_suggest|apply telling_ret].
Qed.

End WholeRun.

(** ** What a run promises *)

(** *** The document read back *)

Definition de_level : Decoder Level := fun v =>
  name ← jas_str v; List.find (fun level => bool_decide (level_name level = name)) [LOk; LInfo; LWarn; LFail].

Definition de_line : Decoder Line := de_struct (fun fields =>
  level ← field (bs "level") de_level fields; message ← field (bs "message") de_str fields; Some (mkLine level message)).

Definition de_part : Decoder Part := de_struct (fun fields =>
  title ← field (bs "title") de_str fields; lines ← field (bs "lines") (de_vec de_line) fields; Some (mkPart title lines)).

Definition de_count : Decoder Z := fun v => match v with JInt n => Some n | _ => None end.

(** A reader of the document: [ok], [failures], [warnings] and [sections]. *)
Definition de_report : Decoder (bool * Z * Z * list Part)%type := de_struct (fun fields =>
  ok ← field (bs "ok") de_bool fields; failures ← field (bs "failures") de_count fields; warnings ← field (bs "warnings") de_count fields;
  sections ← field (bs "sections") (de_vec de_part) fields; Some (ok, failures, warnings, sections)).

Lemma de_vec_map {T : Type} (d : Decoder T) (e : T -> Json) (l : list T) : (forall x, d (e x) = Some x) -> de_vec d (JArr (map e l)) = Some l.
Proof. intros H. unfold de_vec. induction l as [|x l IH]; [done|]. cbn. rewrite H. cbn in *. by rewrite IH. Qed.

Lemma de_line_read (l : Line) : de_line (JObj [(bs "level", JStr (level_name (ln_level l))); (bs "message", JStr (ln_message l))]) = Some l.
Proof. by destruct l as [[] message]. Qed.

Lemma de_part_fields title v : de_part (JObj [(bs "title", JStr title); (bs "lines", v)]) = (lines ← de_vec de_line v; Some (mkPart title lines)).
Proof. done. Qed.

Lemma de_report_fields ok failures warnings v :
  de_report (JObj [(bs "ok", JBool ok); (bs "failures", JInt failures); (bs "warnings", JInt warnings); (bs "sections", v)])
  = (sections ← de_vec de_part v; Some (ok, failures, warnings, sections)).
Proof. done. Qed.

Lemma de_part_read (part : Part) :
  de_part (JObj [(bs "title", JStr (pt_title part));
                 (bs "lines", JArr (map (fun l => JObj [(bs "level", JStr (level_name (ln_level l))); (bs "message", JStr (ln_message l))]) (pt_lines part)))]) = Some part.
Proof.
  rewrite de_part_fields, (de_vec_map _ _ _ de_line_read). by destruct part.
Qed.

Lemma report_json_read r :
  de_report (report_json r) = Some (rp_failures r =? 0, Z.of_nat (rp_failures r), Z.of_nat (rp_warnings r), rp_sections r).
Proof.
  unfold report_json. by rewrite de_report_fields, (de_vec_map _ _ _ de_part_read).
Qed.

Section Promises.
Context `{U : UrlLib} `{UP : !UrlParts U} `{UH : !UrlHost U} `{UD : !UrlDial U} `{DX : !DoctorText U}.
Context (http : result unit bytes) (opened : result Vault bytes) (store : result (Db * Script) bytes).
Context `{C : VaultCipher} `{RO : RowOrder} `{AA : !ArrApp U} `{JT : JsonText} `{FT : FloatText} `{D : Digests} `{LF : LibraryFs}.
Context `{QS : QbitServer} `{QT : !QbitText U} `{TH : TorrentHosts} `{DT : DecodeText} `{XW : XmlWriter} `{XR : XmlRefs} `{RT : RpcText} `{I : AgreementIter}.
Context (control anonymous : GluetunTarget -> ControlServer U) (connect : bytes -> Dialled) (path_exists : bytes -> bool) (listing_of : bytes -> option Listing).

#[local] Notation doctor := (checks http opened store control anonymous connect path_exists listing_of).

(** A run as its parts. *)
Lemma doctor_told config config_error args :
  (exists parts, map fst parts = titles config args /\ dr_report (doctor config config_error args) = told parts (new_report (da_json args))) /\
  Forall (sanctioned config args) (dr_repairs (doctor config config_error args)).
Proof.
  destruct (run_tells http opened store control anonymous connect path_exists listing_of config config_error args (mkDoctor (new_report (da_json args)) []))
    as [Hr (made & Hm & Ha)]. split; [exact Hr|]. unfold checks. by rewrite Hm.
Qed.

(** Every check runs, whatever the others found.  The sections of a report are those
    the configuration and the arguments call for, each once and in order: neither a vault
    that does not open, a database that is broken nor a service that refuses costs the
    operator any other section. *)
Theorem doctor_runs_every_check config config_error args :
  map pt_title (rp_sections (dr_report (doctor config config_error args))) = titles config args.
Proof.
  destruct (doctor_told config config_error args) as [(parts & Ht & ->) _]. rewrite told_sections, map_app, map_map. exact Ht.
Qed.

(** C21: The verdict is the lines'.  A report has the sections the configuration and the
    arguments call for, each once and in order; the counts it gives are the numbers of
    failure and warning lines; whoever decodes its JSON document finds those two counts,
    whether there was no failure, and every section with every line, its level and its
    message, in order.  A run succeeds exactly when no line is a failure, and one that
    prints a document prints nothing else. *)
Theorem doctor_verdict_exact to_string_pretty config config_error args :
  let report := dr_report (doctor config config_error args) in
  let failed := said_at LFail (rp_sections report) in
  let warned := said_at LWarn (rp_sections report) in
  let '(verdict, printed) := run http opened store control anonymous connect path_exists listing_of to_string_pretty config config_error args in
  map pt_title (rp_sections report) = titles config args /\
  rp_failures report = failed /\ rp_warnings report = warned /\
  de_report (report_json report) = Some (failed =? 0, Z.of_nat failed, Z.of_nat warned, rp_sections report) /\
  (da_json args = false -> verdict = Ok tt <-> failed = 0) /\
  (da_json args = true -> forall text, to_string_pretty (report_json report) = Ok text -> printed = [text] /\ (verdict = Ok tt <-> failed = 0)).
Proof.
  destruct (doctor_told config config_error args) as [(parts & Ht & Hr) _]. unfold run. rewrite Hr. cbv zeta. rewrite report_json_read.
  pose proof (told_counts parts (new_report (da_json args))) as (Hf & Hw & Hj & Hout). cbn [new_report rp_failures rp_warnings rp_json rp_stdout] in *.
  rewrite Nat.add_0_l in Hf, Hw. rewrite told_sections, Hj. cbn [new_report rp_sections app]. rewrite !said_at_parts, <- Hf, <- Hw, map_map. clear Hr Hf Hw.
  set (r := told parts (new_report (da_json args))) in *.
  assert ((exists text, summarize (rp_failures r) (rp_warnings r) = Ok text) <-> rp_failures r = 0) as Hsum.
  { unfold summarize. destruct (rp_failures r); [|split; [by intros [? [=]]|done]]. split; [done|]. intros _. destruct (rp_warnings r); eauto. }
  destruct (da_json args).
  - destruct (to_string_pretty (report_json r)) as [text|e] eqn:Ep; split_and!; try done.
    intros _ t [= <-]. rewrite Hout by done. split; [done|]. destruct (summarize _ _) as [s|e]; cbn; split; intros H; try done; [apply Hsum; eauto|].
    by apply Hsum in H as [? [=]].
  - destruct (summarize _ _) as [s|e] eqn:Es; split_and!; try done; intros _; split; intros H; try done; [apply Hsum; eauto|].
    by apply Hsum in H as [? [=]].
Qed.

(** The doctor changes nothing it was not asked to.  Without [--fix] a run makes no
    call that changes a service; with it, only the configured tag is created, in an
    application that is configured, and the configured category, in qBittorrent when that
    is the client. *)
Theorem doctor_repairs_confined config config_error args : Forall (sanctioned config args) (dr_repairs (doctor config config_error args)).
Proof. by destruct (doctor_told config config_error args) as [_ H]. Qed.

End Promises.
