(* ===== verification/Diagnostics.v ===== *)
(** * The status page's health checks (crates/sharerr/src/web/diagnostics.rs)

    What the page gathers: one line per service, how the library resolves, the setup
    checklist, the pollers, and the two strips of history.  The checks are those of
    Checks.v; the state read is the process's, its tunnels' and its lighthouse poller's. *)

From Stdlib Require Import SpecFloat.
From S2P Require Import Prelude RustStd Text BTreeMap Bencode Metainfo Net Model Paths Title FileTree Endpoint Effects Client TrackerUrl Announce Totp Accounts Database Items Peers History Sightings Library Vault Serve Gluetun TrackerRoutes Torznab Gossip Exchange Pairing Friends Beacon Alerts XmlRpc Rtorrent Json Arr Qbit Transmission Deluge Checks ConfigFile Doctor.

(** ** What the page is given *)

Record ServiceLine : Type := mkService { sv_name : bytes; sv_message : bytes; sv_ok : bool; sv_url : bytes }.

Record SampleRow : Type := mkSampleRow { sr_arr : bytes; sr_sharerr : bytes; sr_qbit : bytes }.

Record SetupStep : Type := mkSetup { su_label : bytes; su_done : bool; su_hint : bytes; su_href : bytes }.

Record RunLine : Type := mkRunLine {
  rl_when : bytes;
  rl_when_absolute : bytes;
  rl_took : bytes;
  rl_summary : bytes;
  rl_failed : bool;
  rl_discovered : Z;
  rl_changed : bool
}.

Record RunBar : Type := mkRunBar { rb_x : Z; rb_y : Z; rb_w : Z; rb_h : Z; rb_state : bytes; rb_wash : bool; rb_title : bytes }.
Record RunChart : Type := mkRunChart { rc_bars : list RunBar; rc_width : Z; rc_height : Z }.
Record SwarmBar : Type := mkSwarmBar { wb_x : Z; wb_y : Z; wb_w : Z; wb_h : Z; wb_title : bytes }.
Record SwarmChart : Type := mkSwarmChart { wc_bars : list SwarmBar; wc_width : Z; wc_height : Z; wc_summary : bytes }.

Record EndpointStatus : Type := mkEndpointStatus {
  es_label : bytes;
  es_enabled : bool;
  es_configured : bool;
  es_current : option bytes;
  es_last_observed : option bytes;
  es_last_poll : option bytes;
  es_last_success : option bytes;
  es_last_error : option bytes
}.

Record LighthouseRow : Type := mkLhRow { lh_url : bytes; lh_last_success : option bytes; lh_last_error : option bytes }.

Record LighthouseView : Type := mkLhView {
  lv_configured : nat;
  lv_last_pass : option bytes;
  lv_healthy : bool;
  lv_rows : list LighthouseRow;
  lv_last_recovery : option bytes;
  lv_last_recovery_peer : option bytes;
  lv_lookups_attempted : nat
}.

Record DiagnosticsData : Type := mkDiagnostics {
  dg_services : list ServiceLine;
  dg_scanned : bool;
  dg_rules : nat;
  dg_checked : nat;
  dg_unmapped : nat;
  dg_missing : list bytes;
  dg_more_missing : nat;
  dg_missing_total : nat;
  dg_invalid : list bytes;
  dg_readable : nat;
  dg_healthy : bool;
  dg_sample : option SampleRow;
  dg_gluetun : list EndpointStatus;
  dg_run_chart : option RunChart;
  dg_runs : list RunLine;
  dg_swarm_chart : option SwarmChart;
  dg_lighthouse : option LighthouseView;
  dg_setup : list SetupStep
}.

(** [DiagnosticsData::setup_pending]. *)
Definition setup_pending (d : DiagnosticsData) : bool := existsb (fun step => negb (su_done step)) (dg_setup d).

Definition MAX_LISTED : nat := 20.
Definition RECENT_RUNS : Z := 10.

(** [peers::absolute], a date of the [time] crate. *)
Class CivilTime : Type := absolute : Z -> bytes.

(** ** The lines of the services *)

Section Lines.
Context `{U : UrlLib} `{CM : CaseMap} (debug_str : bytes -> bytes).

(** [settings::title_case]. *)
Definition title_case (name : bytes) : bytes :=
  match chars name with [] => [] | first :: rest => str_to_uppercase first ++ concat rest end.


Definition describe (kind : MediaSource) (config : CheckedConfig) (outcome : ArrOutcome) : ServiceLine :=
  let tag := debug_str (ck_tag config) in
  let '(ok, message) :=
    match outcome with
    | AoReady version app_name items => (true, nat_text (length items) ++ bs " file(s) tagged " ++ tag ++ bs " (" ++ app_name ++ bs " v" ++ version ++ bs ")")
    | AoTagUnused version => (true, bs "connected, but nothing carries the " ++ tag ++ bs " tag yet (v" ++ version ++ bs ")")
    | AoTagMissing version => (false, bs "no tag named " ++ tag ++ bs " exists there — create it first (v" ++ version ++ bs ")")
    | AoAuthRejected => (false, bs "the API key was rejected")
    | AoUnreachable reason => (false, bs "could not reach it: " ++ reason)
    | AoNoCredential => (false, bs "no API key stored yet")
    | AoCredentialUnreadable reason | AoBadUrl reason | AoFailed reason => (false, reason)
    | AoNotConfigured => (false, bs "not configured")
    end in
  mkService (title_case (as_str_name kind)) message ok (match service config kind with Some url => url_as_str url | None => [] end).

Definition describe_library (library : LibraryConfig) (outcome : DirOutcome) : ServiceLine :=
  let '(ok, message) :=
    match outcome with
    | DoReady 0 items => (true, nat_text (length items) ++ bs " " ++ as_str_name (lc_kind library) ++ bs " file(s)")
    | DoReady skipped items =>
        (true, nat_text (length items) ++ bs " " ++ as_str_name (lc_kind library) ++ bs " file(s); " ++ nat_text skipped ++ bs " skipped — their names could not be classified")
    | DoEmpty => (true, bs "empty — nothing to share yet")
    | DoMissing => (false, bs "does not exist as sharerr sees it — check the mount")
    | DoNotADirectory => (false, bs "not a directory")
    | DoUnreadable reason => (false, bs "could not scan: " ++ reason)
    end in
  mkService (bs "library " ++ to_string_lossy (lc_path library)) message ok [].

(** ** The checklist *)

(** The first application whose tag is missing or unused. *)
Fixpoint tag_hint (tag : bytes) (sources : list (MediaSource * ArrOutcome)) : bytes :=
  match sources with
  | [] => bs "Tag something " ++ debug_str tag ++ bs " in a connected *arr app, or add a [[library]] directory."
  | (kind, AoTagMissing _) :: _ => bs "Create a tag named " ++ debug_str tag ++ bs " in " ++ title_case (as_str_name kind) ++ bs " and apply it to what you want to share."
  | (kind, AoTagUnused _) :: _ => bs "Apply the " ++ debug_str tag ++ bs " tag in " ++ title_case (as_str_name kind) ++ bs " to what you want to share."
  | _ :: sources => tag_hint tag sources
  end.

Definition setup_steps (tag : bytes) (client_ok : bool) (sources : list (MediaSource * ArrOutcome)) (paths : PathReport) (friends : list Peer) : list SetupStep :=
  let broken := length (pr_missing paths) + length (pr_invalid paths) in
  let paths_hint := if pr_checked paths =? 0 then bs "Checked once something is tagged."
                    else nat_text broken ++ bs " of " ++ nat_text (pr_checked paths) ++ bs " tagged file(s) do not resolve; see Path mapping below." in
  [mkSetup (bs "Torrent client reachable") client_ok (bs "See Services below; its address and credential are saved under Settings.") (bs "/settings");
   mkSetup (bs "Something tagged to share") (0 <? pr_checked paths) (tag_hint tag sources) [];
   mkSetup (bs "Path mapping resolves") ((0 <? pr_checked paths) && negb (is_failure paths)) paths_hint [];
   mkSetup (bs "A friend added") (is_nonempty friends) (bs "Add one and hand them the feed URL and their key.") (bs "/peers");
   mkSetup (bs "Their first pull seen") (existsb (fun peer => bool_decide (is_Some (p_last_seen_at peer))) friends)
     (bs "Marked the first time a friend's Prowlarr uses their key.") (bs "/peers")].

End Lines.

(** ** The strips *)

Definition i32_max : Z := 2147483647.
Definition i32_min : Z := -2147483648.

(** Arithmetic on [i32] as a release build does it, and [i32::try_from(n).unwrap_or(i32::MAX)]. *)
Definition i32_wrap (z : Z) : Z := (z - i32_min) mod 2 ^ 32 + i32_min.
Definition i32_of_len (n : nat) : Z := Z.min (Z.of_nat n) i32_max.

Definition BAR_W : Z := 24.
Definition BAR_GAP : Z := 8.
Definition PLOT_H : Z := 56.
Definition MIN_BAR_H : Z := 3.
Definition PAD_TOP : Z := 4.

(** [x.round() as i32]: half away from zero, saturating, a NaN as zero. *)
Definition f64_round_i32 (x : spec_float) : Z :=
  match x with
  | S754_zero _ | S754_nan => 0
  | S754_infinity s => if s then i32_min else i32_max
  | S754_finite s m e =>
      let n := if (0 <=? e)%Z then (Zpos m * 2 ^ e)%Z else ((Zpos m + 2 ^ (- e - 1)) / 2 ^ (- e))%Z in
      Z.max i32_min (Z.min i32_max (if s then - n else n))
  end.

(** [n as f64]. *)
Definition f64_of (z : Z) : spec_float := binary_normalize 53 1024 z 0 false.

(** [bar_height], of two counts. *)
Definition bar_height (value tallest plot floor : Z) : Z :=
  let scaled := if (0 <? tallest)%Z then f64_round_i32 (SFmul 53 1024 (SFdiv 53 1024 (f64_of value) (f64_of tallest)) (f64_of plot)) else 0%Z in
  Z.max floor (Z.min plot scaled).

(** [iter().max().unwrap_or(0)]. *)
Definition largest (counts : list Z) : Z := match counts with [] => 0%Z | c :: counts => fold_left Z.max counts c end.

Definition run_bar (tallest : Z) (index : nat) (run : RunLine) : RunBar :=
  let h := bar_height (rl_discovered run) tallest PLOT_H MIN_BAR_H in
  mkRunBar (i32_wrap (i32_of_len index * (BAR_W + BAR_GAP))) (PAD_TOP + PLOT_H - h) BAR_W h
    (if rl_failed run then bs "failed" else if rl_changed run then bs "changed" else bs "ok") (rl_failed run)
    (if is_nonempty (rl_summary run) then rl_when run ++ bs " — " ++ rl_summary run else rl_when run).

Definition run_chart (runs : list RunLine) : option RunChart :=
  if negb (is_nonempty runs) then None
  else
    let tallest := largest (map rl_discovered runs) in
    let count := i32_of_len (length runs) in
    Some (mkRunChart (imap (run_bar tallest) (rev runs)) (i32_wrap (i32_wrap (count * BAR_W) + i32_wrap ((count - 1) * BAR_GAP))) (PAD_TOP + PLOT_H)).

Definition SWARM_CHART_W : Z := 600.
Definition SWARM_CHART_H : Z := 48.
Definition SWARM_MIN_BAR_H : Z := 2.

Definition swarm_bar `{CT : CivilTime} (busiest w : Z) (index : nat) (sample : SwarmSample) : SwarmBar :=
  let h := bar_height (sample_peers sample) busiest SWARM_CHART_H SWARM_MIN_BAR_H in
  mkSwarmBar (i32_wrap (i32_of_len index * w)) (SWARM_CHART_H - h) w h
    (absolute (sample_sampled_at sample) ++ bs " — " ++ i_to_string (sample_peers sample) ++ bs " peer(s), " ++ i_to_string (sample_seeders sample) ++
     bs " seeder(s), " ++ i_to_string (sample_swarms sample) ++ bs " torrent(s)").

Definition swarm_chart `{CT : CivilTime} (samples : list SwarmSample) : option SwarmChart :=
  newest ← last samples;
  let busiest := largest (map sample_peers samples) in
  let count := i32_of_len (length samples) in
  let w := Z.max (SWARM_CHART_W `quot` count) 1 in
  let summary := if (0 <? sample_peers newest)%Z
                 then i_to_string (sample_peers newest) ++ bs " peer(s) as of the last sample; the busiest sample in this window saw " ++ i_to_string busiest ++ bs "."
                 else bs "No peers as of the last sample; the busiest sample in this window saw " ++ i_to_string busiest ++ bs "." in
  Some (mkSwarmChart (imap (swarm_bar busiest w) samples) (i32_wrap (count * w)) SWARM_CHART_H summary).

(** ** Gathering *)

Section Gather.
Context `{U : UrlLib} `{CM : CaseMap} `{CT : CivilTime} `{C : VaultCipher} `{RO : RowOrder} (debug_str : bytes -> bytes) (vault_text : VaultError -> bytes) (now : Z).

Definition ago (at_secs : Z) : bytes := Friends.ago now at_secs.


(** A read of the store, and nothing when it does not answer. *)
Definition read_or {A E : Type} (nothing : A) (read : DbM (result A E)) : ServeM A :=
  let! opened := store in
  match opened with
  | Err _ => sret nothing
  | Ok _ => let! found := on_store read in sret (match found with Ok found => found | Err _ => nothing end)
  end.

Definition active_friends : ServeM (list Peer) := read_or [] active_peers.

Definition run_row (run : RunRow) : RunLine :=
  match run_finished_at run with
  | None => mkRunLine (ago (run_started_at run)) (absolute (run_started_at run)) [] (bs "still running") false 0 false
  | Some finished_at =>
      let '(summary, failed) := describe_run (run_summary run) true in
      mkRunLine (ago finished_at) (absolute finished_at) (Friends.took (run_started_at run) finished_at) summary failed (rs_discovered (run_summary run))
        ((0 <? rs_added (run_summary run))%Z || (0 <? rs_unshared (run_summary run))%Z)
  end.

Definition recent_run_rows : ServeM (list RunLine) :=
  let! runs := read_or [] (recent_runs RECENT_RUNS) in sret (map (fun run => run_row run.2) runs).

Definition swarm_sample_rows : ServeM (list SwarmSample) :=
  read_or [] (let! limits := retention in recent_swarm_samples (ret_swarm_samples limits)).

Definition display_label (target : GluetunTarget) : bytes := match target with TunTracker => bs "Tracker/feed" | TunClient => bs "Torrent client" end.

(** [settings::gluetun_last_observed]. *)
Definition gluetun_last_observed (e : AdvertisedEndpoint) : option bytes :=
  observed ← last_observed e; Some (url_as_str (ob_base observed) ++ bs " (" ++ ago (ob_at observed) ++ bs ")").

Definition endpoint_status (target : GluetunTarget) (t : Tunnels) : EndpointStatus :=
  let config := pick target (tn_config t) in
  let endpoint := endpoint_for target t in
  let snapshot := pick target (tn_status t) in
  mkEndpointStatus (display_label target) (gc_enabled config) (bool_decide (is_Some (gc_control_url config))) (url_as_str <$> current endpoint)
    (gluetun_last_observed endpoint) (ago <$> gn_last_poll_at snapshot) (ago <$> gn_last_success_at snapshot) (gn_last_error snapshot).

(** How a lighthouse's failure reads. *)
Context (failure_text : Beacon.ReportFailure -> bytes).

Definition lighthouse_row (entry : bytes * Beacon.LighthouseReport) : LighthouseRow :=
  mkLhRow entry.1 (ago <$> Beacon.lr_last_success_at entry.2) (failure_text <$> Beacon.lr_last_error entry.2).

Definition accepting (row : LighthouseRow) : bool := bool_decide (is_Some (lh_last_success row)) && bool_decide (lh_last_error row = None).

(** [lighthouse_view], for the configured URLs and the poller's record. *)
Definition lighthouse_view (urls : list bytes) (snapshot : Beacon.LighthouseSnapshot) : option LighthouseView :=
  let configured := length urls in
  if configured =? 0 then None
  else
    let rows := map lighthouse_row (sort_by (fun a b => bytes_compare a.1 b.1) (map_to_list (Beacon.lsn_lighthouses snapshot))) in
    let taken := length (filter (fun row => accepting row = true) rows) in
    Some (mkLhView configured (ago <$> Beacon.lsn_last_pass_at snapshot) (taken =? configured) rows (ago <$> Beacon.lsn_last_recovery_at snapshot)
            (Beacon.lsn_last_recovery_peer snapshot) (Beacon.lsn_lookups_attempted snapshot)).

(** [gather], for what its concurrent parts gave. *)
Definition gather (config : CheckedConfig) (snapshot : Checks.Snapshot) (torrent_client : ServiceLine) (runs : list RunLine) (samples : list SwarmSample)
    (friends : list Peer) (tracker client : EndpointStatus) (lighthouse : option LighthouseView) : DiagnosticsData :=
  let paths := sn_paths snapshot in
  let libraries := match sn_libraries snapshot with
                   | Scanned scanned => map (fun l => describe_library l.1 l.2) scanned
                   | Panicked err => [mkService (bs "library") (bs "the scan did not complete: " ++ err) false []]
                   end in
  mkDiagnostics (torrent_client :: map (fun s => describe debug_str s.1 config s.2) (sn_sources snapshot) ++ libraries)
    (0 <? pr_checked paths) (pr_rules paths) (pr_checked paths) (pr_unmapped paths) (map to_string_lossy (take MAX_LISTED (pr_missing paths)))
    (length (pr_missing paths) - MAX_LISTED) (length (pr_missing paths)) (take MAX_LISTED (pr_invalid paths)) (readable paths) (negb (is_failure paths))
    ((fun sample => mkSampleRow (to_string_lossy (rp_arr sample)) (to_string_lossy (rp_sharerr sample)) (to_string_lossy (rp_qbit sample))) <$> pr_sample paths)
    [tracker; client] (run_chart runs) runs (swarm_chart samples) lighthouse
    (setup_steps debug_str (ck_tag config) (sv_ok torrent_client) (sn_sources snapshot) paths friends).

End Gather.

(** ** Facts *)

Lemma i32_wrap_id z : (i32_min <= z <= i32_max)%Z -> i32_wrap z = z.
Proof. unfold i32_wrap, i32_min, i32_max. intros H. rewrite Z.mod_small by lia. lia. Qed.

Lemma bar_height_bounds value tallest plot floor : (floor <= plot)%Z -> (floor <= bar_height value tallest plot floor <= plot)%Z.
Proof. unfold bar_height. intros H. generalize (if (0 <? tallest)%Z then f64_round_i32 (SFmul 53 1024 (SFdiv 53 1024 (f64_of value) (f64_of tallest)) (f64_of plot)) else 0%Z). lia. Qed.

(** What it is for a bar to lie inside its strip. *)
Definition in_frame (x y w h floor top width height : Z) : Prop :=
  (0 <= x)%Z /\ (x + w <= width)%Z /\ (top <= y)%Z /\ (y + h = height)%Z /\ (floor <= h)%Z.

Lemma run_bars_in_frame runs chart i bar :
  run_chart runs = Some chart -> (Z.of_nat (length runs) <= 67108864)%Z -> rc_bars chart !! i = Some bar ->
  in_frame (rb_x bar) (rb_y bar) (rb_w bar) (rb_h bar) MIN_BAR_H PAD_TOP (rc_width chart) (rc_height chart) /\
  exists run, rev runs !! i = Some run /\ rb_state bar = (if rl_failed run then bs "failed" else if rl_changed run then bs "changed" else bs "ok").
Proof.
  unfold run_chart. destruct (negb _); [done|]. intros [= <-] Hlen. cbn [rc_bars rc_width rc_height]. rewrite list_lookup_imap.
  destruct (rev runs !! i) as [run|] eqn:Er; cbn; [|done]. intros [= <-]. pose proof (lookup_lt_Some _ _ _ Er) as Hi. rewrite length_rev in Hi.
  pose proof (bar_height_bounds (rl_discovered run) (largest (map rl_discovered runs)) PLOT_H MIN_BAR_H ltac:(vm_compute; discriminate)) as Hh.
  split; [|eauto]. unfold in_frame, run_bar. cbn [rb_x rb_y rb_w rb_h].
  unfold i32_of_len. rewrite !Z.min_l by (unfold i32_max; lia). unfold BAR_W, BAR_GAP, PAD_TOP, PLOT_H, MIN_BAR_H in *.
  rewrite !i32_wrap_id by (unfold i32_min, i32_max; rewrite ?i32_wrap_id by (unfold i32_min, i32_max; lia); lia). lia.
Qed.

Lemma swarm_width count : (1 <= count <= i32_max)%Z -> let w := Z.max (SWARM_CHART_W `quot` count) 1 in (1 <= w <= 600 /\ count * w <= i32_max)%Z.
Proof.
  intros Hc. cbv zeta. unfold SWARM_CHART_W, i32_max in *. rewrite Z.quot_div_nonneg by lia. pose proof (Z.mul_div_le 600 count ltac:(lia)) as Hle.
  assert (600 / count <= 600)%Z by (apply Z.div_le_upper_bound; nia). split; [lia|].
  destruct (Z.max_spec (600 / count) 1) as [[_ ->]|[_ ->]]; lia.
Qed.

Lemma swarm_bars_in_frame `{CT : CivilTime} samples chart i bar :
  swarm_chart samples = Some chart -> (Z.of_nat (length samples) <= i32_max)%Z -> wc_bars chart !! i = Some bar ->
  in_frame (wb_x bar) (wb_y bar) (wb_w bar) (wb_h bar) SWARM_MIN_BAR_H 0 (wc_width chart) (wc_height chart).
Proof.
  unfold swarm_chart. destruct (last samples) as [newest|] eqn:El; cbn; [|done]. intros [= <-] Hlen. cbn [wc_bars wc_width wc_height]. rewrite list_lookup_imap.
  destruct (samples !! i) as [sample|] eqn:Es; cbn; [|done]. intros [= <-]. pose proof (lookup_lt_Some _ _ _ Es) as Hi.
  pose proof (bar_height_bounds (sample_peers sample) (largest (map sample_peers samples)) SWARM_CHART_H SWARM_MIN_BAR_H ltac:(vm_compute; discriminate)) as Hh.
  unfold in_frame, swarm_bar. cbn [wb_x wb_y wb_w wb_h]. unfold i32_of_len. rewrite !Z.min_l by lia.
  destruct (swarm_width (Z.of_nat (length samples)) ltac:(lia)) as [Hw Hcw]. cbv zeta in *.
  set (w := Z.max _ 1) in *. rewrite !i32_wrap_id by (unfold i32_min, i32_max in *; nia). unfold SWARM_CHART_H, SWARM_MIN_BAR_H in *. nia.
Qed.

(** The lighthouses that accept, as the poller recorded them. *)
Definition accepted (snapshot : Beacon.LighthouseSnapshot) (url : bytes) : Prop :=
  exists report, Beacon.lsn_lighthouses snapshot !! url = Some report /\ is_Some (Beacon.lr_last_success_at report) /\ Beacon.lr_last_error report = None.

#[export] Instance accepted_dec snapshot url : Decision (accepted snapshot url).
Proof.
  destruct (Beacon.lsn_lighthouses snapshot !! url) as [report|] eqn:E.
  - destruct (decide (is_Some (Beacon.lr_last_success_at report) /\ Beacon.lr_last_error report = None)) as [H|H]; [left; exists report; tauto|].
    right. intros (r & Hr & H'). unfold accepted in *. rewrite E in Hr. by injection Hr as <-.
  - right. intros (r & Hr & _). by rewrite E in Hr.
Defined.

(** Everything is kept exactly when what is kept is as long. *)
Lemma filter_all_length {A : Type} (P : A -> Prop) `{!forall x, Decision (P x)} (l : list A) : length (filter P l) = length l <-> Forall P l.
Proof.
  split.
  - intros Hl. apply Forall_forall. intros x Hx. destruct (decide (P x)); [done|]. pose proof (length_filter_lt P l x Hx ltac:(done)). lia.
  - induction 1 as [|x l Hx _ IH]; [done|]. rewrite filter_cons, decide_True by done. cbn. by rewrite IH.
Qed.

Lemma NoDup_fst_filter {A B : Type} (P : A * B -> Prop) `{!forall x, Decision (P x)} (l : list (A * B)) : NoDup (fst <$> l) -> NoDup (fst <$> filter P l).
Proof.
  induction l as [|x l IH]; [done|]. rewrite fmap_cons, filter_cons. intros [Hx Hl]%NoDup_cons. case_decide; [|by apply IH]. rewrite fmap_cons.
  apply NoDup_cons. split; [|by apply IH]. intros (y & Hy & [_ Hin]%list_elem_of_filter)%list_elem_of_fmap. apply Hx. apply list_elem_of_fmap. eauto.
Qed.

Lemma length_filter_map {A B : Type} (f : A -> B) (P : B -> Prop) `{!forall x, Decision (P x)} (l : list A) :
  length (filter P (map f l)) = length (filter (fun x => P (f x)) l).
Proof. induction l as [|x l IH]; [done|]. cbn [map]. rewrite !filter_cons. case_decide; cbn; by rewrite IH. Qed.

Section Health.
Context (now : Z) (failure_text : Beacon.ReportFailure -> bytes).

(** The rows that accept are the lighthouses that were recorded as accepting. *)
Lemma accepting_rows snapshot urls :
  NoDup urls -> (forall url, is_Some (Beacon.lsn_lighthouses snapshot !! url) -> url ∈ urls) ->
  length (filter (fun row => accepting row = true) (map (lighthouse_row now failure_text) (sort_by (fun a b => bytes_compare a.1 b.1) (map_to_list (Beacon.lsn_lighthouses snapshot)))))
  = length (filter (accepted snapshot) urls).
Proof.
  intros Hnd Hin. rewrite length_filter_map, (sort_by_perm _ (map_to_list (Beacon.lsn_lighthouses snapshot))).
  rewrite <- (length_fmap fst). apply Permutation_length, NoDup_Permutation.
  - apply NoDup_fst_filter, NoDup_fst_map_to_list.
  - by apply NoDup_filter.
  - intros url. rewrite list_elem_of_fmap, list_elem_of_filter. unfold accepted. setoid_rewrite list_elem_of_filter. split.
    + intros ([k report] & -> & [Ha Hk%elem_of_map_to_list]). cbn [fst]. unfold accepting, lighthouse_row in Ha. cbn in Ha.
      apply andb_prop in Ha as [Hs%bool_decide_eq_true He%bool_decide_eq_true]. split; [|by apply Hin].
      exists report. split; [done|]. split; [by apply fmap_is_Some in Hs|]. by apply fmap_None in He.
    + intros [(report & Hr & Hs & He) _]. exists (url, report). split; [done|]. split; [|by apply elem_of_map_to_list].
      unfold accepting, lighthouse_row. cbn. rewrite He. cbn. rewrite andb_true_r. apply bool_decide_eq_true. by apply fmap_is_Some.
Qed.

End Health.

(** ** What the page promises *)



Section Surfaces.
Context `{U : UrlLib} `{UP : !UrlParts U} `{UH : !UrlHost U} `{DX : !DoctorText U} `{CM : CaseMap} `{C : VaultCipher}.
Context `{AA : !ArrApp U} `{JT : JsonText} `{FT : FloatText} `{D : Digests} `{LF : LibraryFs}.
Context `{QS : QbitServer} `{QT : !QbitText U} `{TH : TorrentHosts} `{DT : DecodeText} `{XW : XmlWriter} `{XR : XmlRefs} `{RT : RpcText}.
Context (http : result unit bytes) (vault_text : VaultError -> bytes) (vault : result Vault bytes) (config : DoctorConfig).











End Surfaces.


(** C38: Both strips of history stay inside their frame.  There is one bar for each run,
    oldest first, coloured by what its run did, and one for each sample; every bar is at
    least as high as the floor, stands on the base line and ends inside the width, without
    any arithmetic leaving 32 bits, for any counts a run may report and as many runs as
    2^26 or samples as 2^31 - 1. *)
Theorem charts_in_frame `{CT : CivilTime} (runs : list RunLine) (samples : list SwarmSample) :
  (Z.of_nat (length runs) <= 67108864)%Z -> (Z.of_nat (length samples) <= i32_max)%Z ->
  (forall chart, run_chart runs = Some chart ->
     length (rc_bars chart) = length runs /\
     forall i bar, rc_bars chart !! i = Some bar ->
       in_frame (rb_x bar) (rb_y bar) (rb_w bar) (rb_h bar) MIN_BAR_H PAD_TOP (rc_width chart) (rc_height chart) /\
       exists run, rev runs !! i = Some run /\ rb_state bar = (if rl_failed run then bs "failed" else if rl_changed run then bs "changed" else bs "ok")) /\
  (forall chart, swarm_chart samples = Some chart ->
     length (wc_bars chart) = length samples /\
     forall i bar, wc_bars chart !! i = Some bar -> in_frame (wb_x bar) (wb_y bar) (wb_w bar) (wb_h bar) SWARM_MIN_BAR_H 0 (wc_width chart) (wc_height chart)).
Proof.
  intros Hr Hs. split; intros chart Hc; (split; [|]).
  - unfold run_chart in Hc. destruct (negb _); [done|]. injection Hc as <-. cbn. by rewrite length_imap, length_rev.
  - intros i bar. by apply run_bars_in_frame.
  - unfold swarm_chart in Hc. destruct (last samples); [|done]. cbn in Hc. injection Hc as <-. cbn. by rewrite length_imap.
  - intros i bar. by apply (swarm_bars_in_frame samples).
Qed.

(** The verdict on the lighthouses is exact while the record is of the configured ones.
    When no URL is configured twice and every lighthouse on record is configured, the page
    calls them healthy exactly when every configured lighthouse has accepted a report and
    none is failing. *)
Theorem lighthouse_health_exact (now : Z) (failure_text : Beacon.ReportFailure -> bytes) (urls : list bytes) (snapshot : Beacon.LighthouseSnapshot) (view : LighthouseView) :
  NoDup urls -> (forall url, is_Some (Beacon.lsn_lighthouses snapshot !! url) -> url ∈ urls) ->
  lighthouse_view now failure_text urls snapshot = Some view -> (lv_healthy view = true <-> Forall (accepted snapshot) urls).
Proof.
  intros Hnd Hin Hv. unfold lighthouse_view in Hv. destruct (length urls =? 0); [done|]. injection Hv as <-. cbn [lv_healthy].
  rewrite (accepting_rows now failure_text snapshot urls Hnd Hin), Nat.eqb_eq. apply filter_all_length.
Qed.

(** *** Witnesses *)

Definition plain_time : CivilTime := fun _ => bs "2026-01-01".

Definition sample_run (discovered : Z) (failed : bool) : RunLine := mkRunLine (bs "just now") [] [] (bs "5 discovered") failed discovered true.

Lemma charts_in_frame_witness :
  exists chart bar, run_chart [sample_run 5 false; sample_run 10 true] = Some chart /\ rc_bars chart !! 0 = Some bar /\
    in_frame (rb_x bar) (rb_y bar) (rb_w bar) (rb_h bar) MIN_BAR_H PAD_TOP (rc_width chart) (rc_height chart) /\ rb_h bar = PLOT_H /\ rb_state bar = bs "failed".
Proof.
  destruct (@charts_in_frame plain_time [sample_run 5 false; sample_run 10 true] [] ltac:(vm_compute; discriminate) ltac:(vm_compute; discriminate)) as [H _].
  destruct (run_chart [sample_run 5 false; sample_run 10 true]) as [chart|] eqn:E; [|discriminate E].
  destruct (H chart eq_refl) as [_ Hb]. destruct (rc_bars chart !! 0) as [bar|] eqn:Eb.
  - exists chart, bar. split; [reflexivity|]. split; [exact Eb|]. destruct (Hb 0 bar Eb) as [Hf _]. split; [exact Hf|].
    injection E as <-. vm_compute in Eb. injection Eb as <-. split; reflexivity.
  - injection E as <-. vm_compute in Eb. discriminate Eb.
Defined.

Definition lit_record (urls : list bytes) : Beacon.LighthouseSnapshot :=
  fold_left (fun s url => Beacon.record_report_ok 0 url s) urls (Beacon.mkSnapshot None ∅ None None 0).

Lemma lit_only urls s url :
  url ∉ urls -> Beacon.lsn_lighthouses (fold_left (fun s url => Beacon.record_report_ok 0 url s) urls s) !! url = Beacon.lsn_lighthouses s !! url.
Proof.
  revert s. induction urls as [|u urls IH]; intros s H; [done|]. apply not_elem_of_cons in H as [Hu Hurls]. cbn [fold_left]. rewrite IH by done.
  unfold Beacon.record_report_ok, Beacon.put_report. cbn. by rewrite lookup_insert_ne.
Qed.

Lemma lighthouse_health_exact_witness :
  match lighthouse_view 0 (fun _ => []) [bs "http://a"; bs "http://b"] (lit_record [bs "http://a"; bs "http://b"]) with
  | Some view => lv_healthy view = true
  | None => False
  end.
Proof.
  destruct (lighthouse_view 0 (fun _ => []) [bs "http://a"; bs "http://b"] (lit_record [bs "http://a"; bs "http://b"])) as [view|] eqn:E; [|discriminate E].
  apply (lighthouse_health_exact 0 (fun _ => []) [bs "http://a"; bs "http://b"] (lit_record [bs "http://a"; bs "http://b"]) view).
  - apply (bool_decide_unpack _). vm_compute. exact I.
  - intros url [report Hr]. destruct (decide (url ∈ [bs "http://a"; bs "http://b"])) as [Hin|Hout]; [exact Hin|].
    unfold lit_record in Hr. rewrite (lit_only _ _ _ Hout) in Hr. discriminate Hr.
  - exact E.
  - apply (bool_decide_unpack _). vm_compute. exact I.
Defined.

(** A lighthouse taken out of the configuration stays on record: the rest are called
    unhealthy although each of them accepts, and a failing one is made up for. *)
Example removed_lighthouse_counted :
  (lv_healthy <$> lighthouse_view 0 (fun _ => []) [bs "http://a"] (lit_record [bs "http://a"; bs "http://b"])) = Some false /\
  (lv_healthy <$> lighthouse_view 0 (fun _ => []) [bs "http://c"] (lit_record [bs "http://a"])) = Some true.
Proof. split; vm_compute; reflexivity. Qed.
