(* ===== verification/Topology.v ===== *)
(** * The topology page (crates/sharerr/src/web/topology/mod.rs, web/templates/topology.rs)

    The picture of how this instance connects to everything around it: the boxes of the
    sources, of this instance and its torrent client, and of the friends, their rows with
    addresses redacted, where they are drawn, and whether the client seeds what the store
    says.  Coordinates are integers; [layout_in_i32] says when they fit the program's. *)

From S2P Require Import Prelude RustStd Text BTreeMap Bencode Metainfo Net Model Paths Title FileTree Endpoint Effects Client TrackerUrl Announce Totp Accounts Database Items Peers History Sightings Library Vault Serve Gluetun TrackerRoutes Torznab Gossip Exchange Pairing Friends Beacon Alerts XmlRpc Rtorrent Json Arr Qbit Transmission Deluge Checks ConfigFile Doctor Diagnostics.

(** ** What the page is given *)

Inductive Lane : Type := LaneSource | LaneInstance | LaneClient | LaneFriend.
Inductive NodeIcon : Type := IconArr | IconLibrary | IconInstance | IconClient | IconFriend.
Inductive NodeStatus : Type := StatusOk | StatusWarn | StatusError | StatusUnknown.
Inductive EdgeKind : Type := EdgeSource | EdgeClient | EdgeFriend.
Inductive EdgeStyle : Type := Solid | Dashed | Dotted | Sparse.

#[export] Instance NodeStatus_eq_dec : EqDecision NodeStatus.
Proof. solve_decision. Defined.

Record NodeLine : Type := mkLine { nl_tag : bytes; nl_y : Z; nl_text : bytes; nl_masked : bytes }.

Record Node : Type := mkNode {
  nd_x : Z;
  nd_y : Z;
  nd_w : Z;
  nd_h : Z;
  nd_icon : NodeIcon;
  nd_label : bytes;
  nd_full_label : bytes;
  nd_lines : list NodeLine;
  nd_status : NodeStatus;
  nd_accent : bytes;
  nd_lane : Lane
}.

Record Edge : Type := mkEdge {
  eg_x1 : Z;
  eg_y1 : Z;
  eg_x2 : Z;
  eg_y2 : Z;
  eg_label : bytes;
  eg_style : EdgeStyle;
  eg_accent : bytes;
  eg_kind : EdgeKind
}.

Record AddressCell : Type := mkCell { ac_full : bytes; ac_masked : bytes }.

Record SwarmRow : Type := mkSwarmRow {
  sw_title : bytes;
  sw_complete : nat;
  sw_incomplete : nat;
  sw_peers : list AddressCell;
  sw_more : nat
}.

Record ClientMismatch : Type := mkMismatch { cm_title : bytes; cm_hash : bytes }.

Record ClientCheck : Type := mkClientCheck {
  cc_expected : nat;
  cc_confirmed : nat;
  cc_absent : list ClientMismatch;
  cc_more_absent : nat;
  cc_idle : list ClientMismatch;
  cc_more_idle : nat;
  cc_error : option bytes
}.

(** [ClientCheck::healthy]. *)
Definition check_healthy (c : ClientCheck) : bool :=
  bool_decide (cc_error c = None) && negb (is_nonempty (cc_absent c)) && negb (is_nonempty (cc_idle c)).

(** [NodeStatus::css_class]. *)
Definition css_class (s : NodeStatus) : bytes :=
  match s with StatusOk => bs "ok" | StatusWarn => bs "warn" | StatusError => bs "error" | StatusUnknown => bs "hint" end.

(** [Lane::as_str] and [EdgeKind::as_str]. *)
Definition lane_as_str (l : Lane) : bytes :=
  match l with LaneSource => bs "source" | LaneInstance => bs "instance" | LaneClient => bs "client" | LaneFriend => bs "friend" end.
Definition edge_kind_as_str (k : EdgeKind) : bytes :=
  match k with EdgeSource => bs "source" | EdgeClient => bs "client" | EdgeFriend => bs "friend" end.

(** [EdgeStyle::dasharray]. *)
Definition dasharray (s : EdgeStyle) : bytes :=
  match s with Solid => bs "none" | Dashed => bs "6 4" | Dotted => bs "1.5 4" | Sparse => bs "1 7" end.

(** [EdgeStyle::describe]. *)
Definition describe_style (s : EdgeStyle) : bytes :=
  match s with
  | Solid => bs "Observed directly: this instance and theirs have spoken"
  | Dashed => bs "Learned through gossip: another friend relayed their address"
  | Dotted => bs "Learned from a lighthouse: the fallback when nobody has seen them"
  | Sparse => bs "Restored from a backup: nobody has actually seen this address yet"
  end.

(** [NodeIcon::path]. *)
Definition icon_path (i : NodeIcon) : bytes :=
  match i with
  | IconArr => bs "M2 3.5h12v9H2zM5.5 3.5v9M10.5 3.5v9"
  | IconLibrary => bs "M2 12.5v-9h4l1.5 2H14v7z"
  | IconInstance => bs "M8 6.5a1.5 1.5 0 100 3 1.5 1.5 0 000-3zM4.8 4.3a4.5 4.5 0 000 7.4M11.2 4.3a4.5 4.5 0 010 7.4M8 10v3.5"
  | IconClient => bs "M8 3v6.5M5.2 7.7 8 10.5l2.8-2.8M3.5 13h9"
  | IconFriend => bs "M8 7.5a2 2 0 100-4 2 2 0 000 4zM4 13a4 4 0 018 0"
  end.

Record LegendEntry : Type := mkLegend { lg_icon : NodeIcon; lg_lane : Lane; lg_accent : bytes; lg_name : bytes; lg_meaning : bytes }.

Definition LEGEND : list LegendEntry :=
  [mkLegend IconArr LaneSource (bs "var(--topo-arr)") (bs "*arr app") (bs "Sonarr, Radarr, Lidarr or Readarr — a source sharerr reads tagged files from");
   mkLegend IconLibrary LaneSource (bs "var(--topo-library)") (bs "Library") (bs "A plain [[library]] directory sharerr scans");
   mkLegend IconInstance LaneInstance (bs "var(--accent)") (bs "sharerr") (bs "This instance: the tracker friends announce to and the feed they pull");
   mkLegend IconClient LaneClient (bs "var(--topo-client)") (bs "Torrent client") (bs "The client that actually seeds — qBittorrent, Transmission, rTorrent or Deluge");
   mkLegend IconFriend LaneFriend (bs "var(--topo-peer-1)") (bs "Friend") (bs "One friend. Each gets a color of their own, shared by their box and both lines reaching it")].

(** ** Sizes *)

Definition MAX_LABEL : nat := 26.
Definition MAX_LINE : nat := 32.
Definition MAX_SWARM_PEERS : nat := 12.
Definition MAX_MISMATCHES : nat := 20.

Definition MARGIN : Z := 40.
Definition COL_W : Z := 290.
Definition COL_GAP : Z := 200.
Definition ROW_GAP : Z := 30.
Definition NODE_HEAD_H : Z := 34.
Definition NODE_LINE_H : Z := 20.
Definition NODE_PAD_BOTTOM : Z := 10.

Definition node_height (lines : nat) : Z := NODE_HEAD_H + Z.of_nat lines * NODE_LINE_H + NODE_PAD_BOTTOM.

Definition ACCENT_NEUTRAL : bytes := bs "var(--line-strong)".
Definition ACCENT_ARR : bytes := bs "var(--topo-arr)".
Definition ACCENT_LIBRARY : bytes := bs "var(--topo-library)".
Definition ACCENT_INSTANCE : bytes := bs "var(--accent)".
Definition ACCENT_CLIENT : bytes := bs "var(--topo-client)".
Definition PEER_COLORS : list bytes :=
  [bs "var(--topo-peer-1)"; bs "var(--topo-peer-2)"; bs "var(--topo-peer-3)"; bs "var(--topo-peer-4)"; bs "var(--topo-peer-5)"; bs "var(--topo-peer-6)"].

(** The index is below the length, so that the default is never taken. *)
Definition peer_color (index : nat) : bytes := nth (index mod length PEER_COLORS) PEER_COLORS [].

(** ** Redaction *)

Inductive Tok : Type := Digits (run : bytes) | Other (c : char).

#[export] Instance Tok_eq_dec : EqDecision Tok.
Proof. solve_decision. Defined.

(** The run of digits collected, when there is one. *)
Definition flush (digits : bytes) : list Tok := if is_nonempty digits then [Digits digits] else [].

Fixpoint tokenize_from (digits : bytes) (cs : list char) : list Tok :=
  match cs with
  | [] => flush digits
  | c :: cs => if char_is_byte is_ascii_digit c then tokenize_from (digits ++ c) cs else flush digits ++ Other c :: tokenize_from [] cs
  end.

Definition tokenize (text : bytes) : list Tok := tokenize_from [] (chars text).

Definition is_digits (t : option Tok) : bool := match t with Some (Digits _) => true | _ => false end.
Definition is_other (c : bytes) (t : option Tok) : bool := match t with Some (Other c') => bool_decide (c' = c) | _ => false end.

(** Whether four runs joined by dots start at [i]; past the end there is no token. *)
Definition quad_at (toks : list Tok) (i : nat) : bool :=
  forallb (fun j => is_digits (toks !! j)) [i; i + 2; i + 4; i + 6] && forallb (fun j => is_other (bs ".") (toks !! j)) [i + 1; i + 3; i + 5].

(** The runs to blank: the third and the fourth of every four. *)
Definition blanked (toks : list Tok) : list bool :=
  fold_left (fun blank i => if quad_at toks i then <[i + 6 := true]> (<[i + 4 := true]> blank) else blank)
    (seq 0 (length toks)) (replicate (length toks) false).

Definition bullets (n : nat) : bytes := concat (replicate n (bs "•")).

(** A run's digits are one byte each. *)
Definition mask_token (toks : list Tok) (blank : list bool) (i : nat) (tok : Tok) : bytes :=
  match tok with
  | Other c => c
  | Digits run =>
      if default false (blank !! i) then bullets (length run)
      else if (0 <? i) && is_other (bs ":") (toks !! (i - 1)) then
        let keep := (length run + 1) / 2 in take keep run ++ bullets (length run - keep)
      else run
  end.

Definition mask_address (text : bytes) : bytes :=
  let toks := tokenize text in concat (imap (mask_token toks (blanked toks)) toks).

(** ** Rows *)

Definition truncate_to (label : bytes) (max : nat) : bytes :=
  if length (chars label) <=? max then label else concat (take (max - 1) (chars label)) ++ bs "…".

Definition truncate (label : bytes) : bytes := truncate_to label MAX_LABEL.

Definition line (tag text : bytes) : NodeLine := let text := truncate_to text MAX_LINE in mkLine tag 0 text text.
Definition address_line (tag text : bytes) : NodeLine := let text := truncate_to text MAX_LINE in mkLine tag 0 text (mask_address text).

Definition capped_peers (peers : list SocketAddr) : list AddressCell * nat :=
  (map (fun addr => let full := socket_to_string (sa_ip addr) (sa_port addr) in mkCell full (mask_address full)) (take MAX_SWARM_PEERS peers),
   length peers - MAX_SWARM_PEERS).

(** ** The client against the store *)

Section Reconcile.
Context `{CM : CaseMap}.

(** What the listing says of a hash, in lower case; of two entries the later one counts. *)
Definition present_in (listed : list TorrentSummary) : gmap bytes bool :=
  fold_left (fun present t => <[str_to_lowercase (ts_hash t) := ts_is_seeding t]> present) listed ∅.

(** What one expected torrent adds: to the confirmed, the idle or the absent. *)
Definition note_expected (present : gmap bytes bool) (acc : nat * list ClientMismatch * list ClientMismatch) (e : bytes * bytes) : nat * list ClientMismatch * list ClientMismatch :=
  let '(confirmed, idle, absent) := acc in
  match present !! str_to_lowercase e.1 with
  | Some true => (S confirmed, idle, absent)
  | Some false => (confirmed, idle ++ [mkMismatch e.2 e.1], absent)
  | None => (confirmed, idle, absent ++ [mkMismatch e.2 e.1])
  end.

Definition reconcile (expected : list (bytes * bytes)) (listed : list TorrentSummary) : ClientCheck :=
  let '(confirmed, idle, absent) := fold_left (note_expected (present_in listed)) expected (0, [], []) in
  mkClientCheck (length expected) confirmed (take MAX_MISMATCHES absent) (length absent - MAX_MISMATCHES)
    (take MAX_MISMATCHES idle) (length idle - MAX_MISMATCHES) None.

End Reconcile.

Definition client_check_failed (reason : bytes) : ClientCheck := mkClientCheck 0 0 [] 0 [] 0 (Some reason).

Definition expected_seeding (items : list SharedItem) : list (bytes * bytes) :=
  omap (fun item => (fun hash => (hash, spec_title (it_spec item))) <$> it_info_hash item) (filter (fun item => it_state item = Seeding) items).

(** ** The boxes before they are placed *)

Record SourceNode : Type := mkSource { so_label : bytes; so_icon : NodeIcon; so_lines : list NodeLine; so_status : NodeStatus; so_accent : bytes }.

Record Seen : Type := mkSeen { se_addr : bytes; se_style : EdgeStyle; se_edge_label : bytes }.

(** [Channel]: nothing until an address was seen on it. *)
Abbreviation Channel := (option Seen).

Record FriendNode : Type := mkFriend { fr_label : bytes; fr_accent : bytes; fr_indexer : Channel; fr_client : Channel; fr_tracker : Channel }.

(** [Channel::row]. *)
Definition row (channel : Channel) (tag : bytes) : NodeLine :=
  match channel with Some seen => address_line tag (se_addr seen) | None => line tag (bs "Not seen") end.

(** [FriendNode::lines] and [FriendNode::channels]. *)
Definition friend_lines (f : FriendNode) : list NodeLine :=
  [row (fr_indexer f) (bs "indexer"); row (fr_client f) (bs "client"); row (fr_tracker f) (bs "tracker")].
Definition channels (f : FriendNode) : list Channel := [fr_indexer f; fr_client f; fr_tracker f].

Section Boxes.
Context `{U : UrlLib} `{CM : CaseMap} (now : Z).

Definition compact_ago (epoch_secs : Z) : bytes :=
  match ago_bucket now epoch_secs with
  | AgoNow => bs "now"
  | AgoMinutes n => i_to_string n ++ bs "m"
  | AgoHours n => i_to_string n ++ bs "h"
  | AgoDays n => i_to_string n ++ bs "d"
  end.

Definition style_of (via : ObservedVia) : EdgeStyle :=
  match via with ViaDirect => Solid | ViaGossip => Dashed | ViaLighthouse => Dotted | ViaRestored => Sparse end.

Definition channel (endpoints : list PeerEndpoint) (kind : EndpointKind) : Channel :=
  latest ← latest_endpoint endpoints kind;
  Some (mkSeen (pe_addr latest) (style_of (pe_via latest)) (as_str_name (pe_via latest) ++ bs " " ++ compact_ago (pe_observed_at latest))).

Definition friend_node (label : bytes) (endpoints : list PeerEndpoint) (accent : bytes) : FriendNode :=
  mkFriend label accent (channel endpoints KindApi) (channel endpoints KindClient) (channel endpoints KindTracker).

Definition arr_node (kind : MediaSource) (url : option Url) (outcome : ArrOutcome) : SourceNode :=
  let said tag text := line (bs tag) text in
  let '(lines, status) :=
    match outcome with
    | AoReady version app_name items =>
        ([said "version" (app_name ++ bs " v" ++ version); said "tagged" (nat_text (length items) ++ bs " file(s)")], StatusOk)
    | AoTagUnused version => ([said "version" (bs "v" ++ version); said "tagged" (bs "nothing carries the tag")], StatusWarn)
    | AoTagMissing _ => ([said "" (bs "Tag missing")], StatusError)
    | AoAuthRejected => ([said "" (bs "Key rejected")], StatusError)
    | AoUnreachable _ => ([said "" (bs "Unreachable")], StatusError)
    | AoNoCredential => ([said "" (bs "No key stored")], StatusError)
    | AoCredentialUnreadable _ => ([said "" (bs "Vault unreadable")], StatusError)
    | AoBadUrl _ | AoFailed _ => ([said "" (bs "Failed")], StatusError)
    | AoNotConfigured => ([said "" (bs "Not configured")], StatusUnknown)
    end in
  mkSource (title_case (as_str_name kind)) IconArr (match url with Some url => [address_line (bs "url") (url_as_str url)] | None => [] end ++ lines) status ACCENT_ARR.

Definition library_node (path : bytes) (outcome : DirOutcome) : SourceNode :=
  let label := match file_name path with Some name => to_string_lossy name | None => to_string_lossy path end in
  let '(lines, status) :=
    match outcome with
    | DoReady skipped items =>
        (line (bs "files") (nat_text (length items) ++ bs " shareable") :: (if 0 <? skipped then [line (bs "skipped") (nat_text skipped ++ bs " unclassified")] else []), StatusOk)
    | DoEmpty => ([line [] (bs "Empty")], StatusUnknown)
    | DoMissing => ([line [] (bs "Missing")], StatusError)
    | DoNotADirectory => ([line [] (bs "Not a directory")], StatusError)
    | DoUnreadable reason => ([line [] (bs "Unreadable"); line (bs "why") reason], StatusError)
    end in
  mkSource label IconLibrary (line (bs "path") (to_string_lossy path) :: lines) status ACCENT_LIBRARY.

(** The boxes of the sources, as [gather] makes them. *)
Definition source_nodes (config : CheckedConfig) (snapshot : Checks.Snapshot) : list SourceNode :=
  map (fun s => arr_node s.1 (service config s.1) s.2) (sn_sources snapshot) ++
  match sn_libraries snapshot with
  | Scanned scanned => map (fun l => library_node (lc_path l.1) l.2) scanned
  | Panicked err => [mkSource (bs "library") IconLibrary [line [] (bs "the scan did not complete: " ++ err)] StatusError ACCENT_LIBRARY]
  end.

(** The label of the edge between this instance and its client. *)
Definition path_edge_label (paths : PathReport) : bytes :=
  if negb (0 <? pr_checked paths) then []
  else if is_failure paths then nat_text (length (pr_missing paths) + length (pr_invalid paths)) ++ bs " of " ++ nat_text (pr_checked paths) ++ bs " missing"
  else nat_text (pr_checked paths) ++ bs " resolve".

End Boxes.

(** ** Reading the state *)

Section Reads.
Context `{U : UrlLib} `{UP : !UrlParts U} `{UH : !UrlHost U} `{UD : !UrlDial U} `{CM : CaseMap} `{I : HashIter} `{D : Digests} `{RO : RowOrder} (now : Z).

Definition stored_items : ServeM (list SharedItem) := read_or [] all_items.

(** Info hash to title, for [swarm_rows]; of two items with a hash the later one counts. *)
Definition titles_of (items : list SharedItem) : gmap bytes bytes :=
  fold_left (fun titles item => match it_info_hash item with Some hash => <[hash := spec_title (it_spec item)]> titles | None => titles end) items ∅.

Definition swarm_row (titles : gmap bytes bytes) (swarm : SwarmView) : SwarmRow :=
  let hex_hash := hex_encode (vw_info_hash swarm) in
  let title := match titles !! hex_hash with Some title => title | None => bs "torrent " ++ take 8 hex_hash end in
  let '(peers, more) := capped_peers (vw_peers swarm) in
  mkSwarmRow title (vw_complete swarm) (vw_incomplete swarm) peers more.

Definition swarm_rows (titles : gmap bytes bytes) : ServeM (list SwarmRow) :=
  sgets (fun s => map (swarm_row titles) (snapshots now (sv_swarms s))).

Definition friend_nodes : ServeM (list FriendNode) :=
  let! opened := store in
  match opened with
  | Err _ => sret []
  | Ok _ =>
      let! active := on_store active_peers in
      match active with
      | Err _ => sret []
      | Ok active =>
          let! endpoints := on_store (peer_endpoints_for (map p_id active)) in
          let endpoints := match endpoints with Ok endpoints => endpoints | Err _ => fun _ => [] end in
          sret (imap (fun i peer => friend_node now (p_label peer) (endpoints (p_id peer)) (peer_color i)) active)
      end
  end.

Definition reach_text (outcome : ReachOutcome) : bytes :=
  match outcome with
  | Reachable => bs "reachable"
  | NotConfigured => bs "no address to check"
  | Unusable _ => bs "address unusable"
  | Refused _ => bs "unconfirmed (refused)"
  | TimedOut => bs "unconfirmed (timed out)"
  end.

(** One dial's row, and what it does to the status. *)
Definition note_reach (acc : list NodeLine * NodeStatus) (dialled : bytes * ReachOutcome) : list NodeLine * NodeStatus :=
  let '(lines, status) := acc in
  let '(tag, outcome) := dialled in
  (lines ++ [line tag (reach_text outcome)], if negb (is_reachable outcome) && bool_decide (status = StatusOk) then StatusWarn else status).

(** [instance_lines]; [reachability] is [checks.reachability] and [connect] what connecting
    to a target gives. *)
Definition instance_lines (reachability : bool) (connect : bytes -> Dialled) (t : Tunnels) : list NodeLine * NodeStatus :=
  let swarm := stats now (sv_swarms (tn_serve t)) in
  let gluetun_error := gn_last_error (pick TunTracker (tn_status t)) in
  let tracker := current (sv_endpoint (tn_serve t)) in
  let '(address, status) :=
    match tracker with
    | Some base => (address_line (bs "address") (url_as_str base), if bool_decide (is_Some gluetun_error) then StatusWarn else StatusOk)
    | None =>
        if bool_decide (is_Some (gc_control_url (pick TunTracker (tn_config t)))) then (line (bs "address") (bs "Waiting on gluetun"), StatusUnknown)
        else (line (bs "address") (bs "Not advertised yet"), StatusError)
    end in
  let lines := [address; line (bs "swarm") (nat_text (st_peers swarm) ++ bs " peer(s), " ++ nat_text (st_seeders swarm) ++ bs " seeding")] ++
               match gluetun_error with Some reason => [line (bs "gluetun") reason] | None => [] end in
  if reachability then
    let feed := res_ok (url_parse (config_public_base_url (sv_config (tn_serve t)))) in
    fold_left note_reach [(bs "tracker", check_reachable connect tracker); (bs "feed", check_reachable connect feed)] (lines, status)
  else (lines, status).

End Reads.

Definition display_name (backend : TorrentBackend) : bytes :=
  match backend with BQbittorrent => bs "qBittorrent" | BTransmission => bs "Transmission" | BRtorrent => bs "rTorrent" | BDeluge => bs "Deluge" end.

Section ClientBox.
Context `{U : UrlLib} `{UP : !UrlParts U} `{QS : QbitServer} `{QT : !QbitText U} `{TH : TorrentHosts}.
Context `{JT : JsonText} `{DT : DecodeText} `{XW : XmlWriter} `{XR : XmlRefs} `{RT : RpcText} `{CM : CaseMap}.

(** What the client box says of an outcome: rows, status and the check of its torrents. *)
Definition client_said (items : list SharedItem) (outcome : QbitOutcome) : list NodeLine * NodeStatus * option ClientCheck :=
  let failed said := (map (fun row : bytes * bytes => line row.1 row.2) said, StatusError, None) in
  match outcome with
  | QoReady version kind connected =>
      let reconciled := match built_list connected None with
                        | Ok listed => reconcile (expected_seeding items) listed
                        | Err err => client_check_failed (client_error_text err)
                        end in
      ([line (bs "version") (kind_as_str kind ++ bs " v" ++ version);
        line (bs "seeding") (match cc_error reconciled with
                             | Some reason => bs "could not list: " ++ reason
                             | None => nat_text (cc_confirmed reconciled) ++ bs " of " ++ nat_text (cc_expected reconciled)
                             end)],
       if negb (check_healthy reconciled) then StatusWarn else StatusOk, Some reconciled)
  | QoNoCredential => failed [([], bs "No credential stored")]
  | QoCredentialUnreadable reason => failed [([], bs "Vault unreadable"); (bs "why", reason)]
  | QoBadUrl reason => failed [([], bs "Misconfigured"); (bs "why", reason)]
  | QoUnreachable reason => failed [([], bs "Unreachable"); (bs "why", reason)]
  | QoAuthRejected => failed [([], bs "Credential rejected")]
  | QoFailed reason => failed [([], bs "Failed"); (bs "why", reason)]
  end.

(** [client_node]. *)
Definition client_node (qbit_chain : QbitError -> bytes) (http : result unit bytes) (config : CheckedConfig) (secret : bytes -> result (option bytes) bytes)
    (items : list SharedItem) (t : Tunnels) : bytes * list NodeLine * NodeStatus * option ClientCheck :=
  let backend := ck_torrent_backend config in
  let client := torrent_client_for config backend in
  let outcome := Checks.check_qbit qbit_chain http backend (tc_url client) (tc_login client) (resolve_torrent_credential client secret) in
  let '(said, status, check) := client_said items outcome in
  (display_name backend,
   address_line (bs "url") (url_as_str (tc_url client)) ::
   match current (sv_client (tn_serve t)) with Some public => [address_line (bs "public") (url_as_str public)] | None => [] end ++ said ++
   match gn_last_error (pick TunClient (tn_status t)) with Some reason => [line (bs "gluetun") reason] | None => [] end,
   status, check).

End ClientBox.

(** ** Placing the boxes *)

Record LayoutInput : Type := mkInput {
  li_sources : list SourceNode;
  li_instance_lines : list NodeLine;
  li_instance_status : NodeStatus;
  li_client_label : bytes;
  li_client_lines : list NodeLine;
  li_client_status : NodeStatus;
  li_path_edge_label : bytes;
  li_friends : list FriendNode
}.

Record Layout : Type := mkLayout { ly_nodes : list Node; ly_edges : list Edge; ly_width : Z; ly_height : Z }.

Definition placed (lines : list NodeLine) (node_y : Z) : list NodeLine :=
  imap (fun i l => mkLine (nl_tag l) (node_y + NODE_HEAD_H + Z.of_nat i * NODE_LINE_H + 14) (nl_text l) (nl_masked l)) lines.

Definition sum_of (heights : list Z) : Z := foldr Z.add 0%Z heights.

Definition stack_height (heights : list Z) : Z :=
  if is_nonempty heights then (sum_of heights + (Z.of_nat (length heights) - 1) * ROW_GAP)%Z else 0%Z.

Definition center_offset (lane_h content_h : Z) : Z := Z.quot (Z.max (content_h - lane_h) 0) 2.

Definition sources_x : Z := MARGIN.
Definition instance_x : Z := sources_x + COL_W + COL_GAP.
Definition friends_x : Z := instance_x + COL_W + COL_GAP.

(** The loop over the sources: their boxes, and where their edges start. *)
Fixpoint place_sources (y : Z) (sources : list SourceNode) : list Node * list (Z * bytes) :=
  match sources with
  | [] => ([], [])
  | source :: sources =>
      let h := node_height (length (so_lines source)) in
      let node := mkNode sources_x y COL_W h (so_icon source) (truncate (so_label source)) (so_label source) (placed (so_lines source) y) (so_status source) (so_accent source) LaneSource in
      let '(nodes, mids) := place_sources (y + h + ROW_GAP) sources in
      (node :: nodes, ((y + Z.quot h 2)%Z, so_accent source) :: mids)
  end.

(** A friend's edges; a label drawn before is left out. *)
Fixpoint friend_edges (sharerr_right sharerr_mid_y y : Z) (accent : bytes) (index : nat) (drawn : list bytes) (chs : list Channel) : list Edge :=
  match chs with
  | [] => []
  | None :: chs => friend_edges sharerr_right sharerr_mid_y y accent (S index) drawn chs
  | Some seen :: chs =>
      let row_y := (y + NODE_HEAD_H + Z.of_nat index * NODE_LINE_H - Z.quot NODE_LINE_H 3)%Z in
      let again := bool_decide (se_edge_label seen ∈ drawn) in
      mkEdge sharerr_right sharerr_mid_y friends_x row_y (if again then [] else se_edge_label seen) (se_style seen) accent EdgeFriend ::
      friend_edges sharerr_right sharerr_mid_y y accent (S index) (if again then drawn else drawn ++ [se_edge_label seen]) chs
  end.

(** The loop over the friends. *)
Fixpoint place_friends (sharerr_right sharerr_mid_y y : Z) (friends : list FriendNode) : list Node * list Edge :=
  match friends with
  | [] => ([], [])
  | friend :: friends =>
      let lines := friend_lines friend in
      let h := node_height (length lines) in
      let status := if existsb (fun c => bool_decide (is_Some c)) (channels friend) then StatusOk else StatusUnknown in
      let node := mkNode friends_x y COL_W h IconFriend (truncate (fr_label friend)) (fr_label friend) (placed lines y) status (fr_accent friend) LaneFriend in
      let '(nodes, edges) := place_friends sharerr_right sharerr_mid_y (y + h + ROW_GAP) friends in
      (node :: nodes, friend_edges sharerr_right sharerr_mid_y y (fr_accent friend) 0 [] (channels friend) ++ edges)
  end.

Definition layout (input : LayoutInput) : Layout :=
  let source_hs := map (fun s => node_height (length (so_lines s))) (li_sources input) in
  let sharerr_h := node_height (length (li_instance_lines input)) in
  let client_h := node_height (length (li_client_lines input)) in
  let friend_hs := map (fun f => node_height (length (friend_lines f))) (li_friends input) in
  let sources_h := stack_height source_hs in
  let instance_h := stack_height [sharerr_h; client_h] in
  let friends_h := stack_height friend_hs in
  let content_h := Z.max (Z.max sources_h instance_h) friends_h in
  let '(source_nodes, source_mid_ys) := place_sources (MARGIN + center_offset sources_h content_h) (li_sources input) in
  let sharerr_y := (MARGIN + center_offset instance_h content_h)%Z in
  let client_y := (sharerr_y + sharerr_h + ROW_GAP)%Z in
  let sharerr := mkNode instance_x sharerr_y COL_W sharerr_h IconInstance (bs "sharerr") (bs "sharerr") (placed (li_instance_lines input) sharerr_y)
                   (li_instance_status input) ACCENT_INSTANCE LaneInstance in
  let client := mkNode instance_x client_y COL_W client_h IconClient (truncate (li_client_label input)) (li_client_label input)
                  (placed (li_client_lines input) client_y) (li_client_status input) ACCENT_CLIENT LaneClient in
  let client_edge := mkEdge (instance_x + Z.quot COL_W 2) (sharerr_y + sharerr_h) (instance_x + Z.quot COL_W 2) client_y (li_path_edge_label input) Solid ACCENT_NEUTRAL EdgeClient in
  let sharerr_right := (instance_x + COL_W)%Z in
  let sharerr_mid_y := (sharerr_y + Z.quot sharerr_h 2)%Z in
  let source_edges := map (fun m : Z * bytes => mkEdge (sources_x + COL_W) m.1 instance_x sharerr_mid_y [] Solid m.2 EdgeSource) source_mid_ys in
  let '(friend_boxes, friend_lines) := place_friends sharerr_right sharerr_mid_y (MARGIN + center_offset friends_h content_h) (li_friends input) in
  mkLayout (source_nodes ++ [sharerr; client] ++ friend_boxes) (client_edge :: source_edges ++ friend_lines)
    (friends_x + COL_W + MARGIN) (MARGIN * 2 + content_h).

Record TopologyPage : Type := mkTopology {
  tp_client_check : option ClientCheck;
  tp_layout : Layout;
  tp_swarms : list SwarmRow
}.

(** [gather], for what its concurrent parts gave. *)
Definition gather `{U : UrlLib} `{CM : CaseMap} (config : CheckedConfig) (snapshot : Checks.Snapshot) (instance : list NodeLine * NodeStatus)
    (client : bytes * list NodeLine * NodeStatus * option ClientCheck) (friends : list FriendNode) (swarms : list SwarmRow) : TopologyPage :=
  let '(client_label, client_lines, client_status, client_check) := client in
  mkTopology client_check
    (layout (mkInput (source_nodes config snapshot) instance.1 instance.2 client_label client_lines client_status (path_edge_label (sn_paths snapshot)) friends))
    swarms.

(** ** Facts: redaction *)

Lemma bullets_app n m : bullets (n + m) = bullets n ++ bullets m.
Proof. unfold bullets. by rewrite replicate_add, concat_app. Qed.





















(** *** The client against the store *)

Definition same_verdict (a b : option bool) : bool :=
  match a, b with Some x, Some y => Bool.eqb x y | None, None => true | _, _ => false end.

Lemma same_verdict_eq a b : reflect (a = b) (same_verdict a b).
Proof. destruct a as [[]|], b as [[]|]; by constructor. Qed.

Section ReconcileFacts.
Context `{CM : CaseMap}.

Definition verdict_is (listed : list TorrentSummary) (v : option bool) (e : bytes * bytes) : Prop := present_in listed !! str_to_lowercase e.1 = v.

#[export] Instance verdict_is_dec listed v e : Decision (verdict_is listed v e).
Proof. unfold verdict_is. apply _. Defined.

Lemma filter_verdict listed v e es :
  filter (verdict_is listed v) (e :: es) = (if same_verdict (present_in listed !! str_to_lowercase e.1) v then [e] else []) ++ filter (verdict_is listed v) es.
Proof. rewrite filter_cons. by case_decide; destruct (same_verdict_eq (present_in listed !! str_to_lowercase e.1) v). Qed.

Lemma reconcile_fold listed expected acc :
  fold_left (note_expected (present_in listed)) expected acc =
  (acc.1.1 + length (filter (verdict_is listed (Some true)) expected),
   acc.1.2 ++ map (fun e => mkMismatch e.2 e.1) (filter (verdict_is listed (Some false)) expected),
   acc.2 ++ map (fun e => mkMismatch e.2 e.1) (filter (verdict_is listed None) expected)).
Proof.
  revert acc. induction expected as [|e expected IH]; intros [[confirmed idle] absent]; cbn [fold_left].
  { cbn. by rewrite !app_nil_r, Nat.add_0_r. }
  rewrite IH, !filter_verdict. unfold note_expected. destruct (present_in listed !! str_to_lowercase e.1) as [[]|]; cbn [fst snd same_verdict Bool.eqb app length map]; by rewrite <- ?app_assoc, ?Nat.add_succ_r.
Qed.

(** The listing's last word on a hash. *)
Lemma present_in_lookup listed h v :
  present_in listed !! h = Some v <-> exists before t after, listed = before ++ t :: after /\ str_to_lowercase (ts_hash t) = h /\ ts_is_seeding t = v /\
                                                           Forall (fun t' => str_to_lowercase (ts_hash t') <> h) after.
Proof.
  unfold present_in. induction listed as [|t listed IH] using rev_ind; cbn.
  { rewrite lookup_empty. split; [done|]. intros (before & t & after & H & _). by destruct before. }
  rewrite fold_left_app. cbn. destruct (decide (str_to_lowercase (ts_hash t) = h)) as [<-|Hne].
  - rewrite lookup_insert_eq. split.
    + intros [= <-]. exists listed, t, []. repeat split; constructor.
    + intros (before & t' & after & Heq & Hh & <- & Hall). destruct after as [|z after _] using rev_ind.
      * apply app_inj_tail in Heq as [_ ->]. done.
      * rewrite app_comm_cons, app_assoc in Heq. apply app_inj_tail in Heq as [_ ->]. apply Forall_app in Hall as [_ Hall]. by inversion Hall.
  - rewrite lookup_insert_ne by done. rewrite IH. split.
    + intros (before & t' & after & -> & Hh & Hs & Hall). exists before, t', (after ++ [t]). rewrite <- app_assoc. repeat split; [done..|]. apply Forall_app. by repeat constructor.
    + intros (before & t' & after & Heq & Hh & Hs & Hall). destruct after as [|z after _] using rev_ind.
      * apply app_inj_tail in Heq as [_ ->]. done.
      * rewrite app_comm_cons, app_assoc in Heq. apply app_inj_tail in Heq as [-> _]. apply Forall_app in Hall as [Hall _]. eauto 10.
Qed.

Lemma verdicts_partition listed (expected : list (bytes * bytes)) :
  length (filter (verdict_is listed (Some true)) expected) + length (filter (verdict_is listed (Some false)) expected) +
  length (filter (verdict_is listed None) expected) = length expected.
Proof.
  induction expected as [|e expected IH]; [done|]. rewrite !filter_verdict. destruct (present_in listed !! str_to_lowercase e.1) as [[]|]; cbn [same_verdict Bool.eqb app length]; lia.
Qed.

End ReconcileFacts.

(** *** Where the boxes are *)

(** A box of a lane, between two heights. *)
Definition in_lane (x top bottom : Z) (n : Node) : Prop :=
  nd_x n = x /\ nd_w n = COL_W /\ (top <= nd_y n)%Z /\ (nd_y n + nd_h n <= bottom)%Z /\
  nd_h n = node_height (length (nd_lines n)) /\
  forall i l, nd_lines n !! i = Some l -> nl_y l = (nd_y n + NODE_HEAD_H + Z.of_nat i * NODE_LINE_H + 14)%Z.

Definition apart (a b : Node) : Prop :=
  (nd_x a + nd_w a <= nd_x b \/ nd_x b + nd_w b <= nd_x a \/ nd_y a + nd_h a <= nd_y b \/ nd_y b + nd_h b <= nd_y a)%Z.

Lemma node_height_pos n : (44 <= node_height n)%Z.
Proof. unfold node_height, NODE_HEAD_H, NODE_LINE_H, NODE_PAD_BOTTOM. lia. Qed.

Lemma placed_lines lines y i l : placed lines y !! i = Some l -> nl_y l = (y + NODE_HEAD_H + Z.of_nat i * NODE_LINE_H + 14)%Z.
Proof. unfold placed. rewrite list_lookup_imap. destruct (lines !! i); cbn; [|done]. by intros [= <-]. Qed.

Lemma placed_length lines y : length (placed lines y) = length lines.
Proof. apply length_imap. Qed.

Lemma stack_height_cons h hs : stack_height (h :: hs) = (h + if is_nonempty hs then ROW_GAP + stack_height hs else 0)%Z.
Proof. destruct hs as [|h' hs]; cbn; unfold stack_height, ROW_GAP; cbn; lia. Qed.

Lemma stack_height_nonneg hs : Forall (fun h => (0 <= h)%Z) hs -> (0 <= stack_height hs)%Z.
Proof. induction 1 as [|h hs Hh _ IH]; [done|]. rewrite stack_height_cons. unfold ROW_GAP. destruct (is_nonempty hs); lia. Qed.

(** A lane's first box, and the rest of the lane below it. *)
Lemma lane_cons x y h hs n nodes :
  in_lane x y (y + h) n -> nd_y n = y -> nd_h n = h -> Forall (fun h => (0 <= h)%Z) hs -> (hs = [] -> nodes = []) ->
  Forall (in_lane x (y + h + ROW_GAP) (y + h + ROW_GAP + stack_height hs)) nodes /\ ForallOrdPairs apart nodes ->
  Forall (in_lane x y (y + stack_height (h :: hs))) (n :: nodes) /\ ForallOrdPairs apart (n :: nodes).
Proof.
  intros (Hx & Hw & Ht & Hb & Hh & Hl) Hy Hnh Hpos%stack_height_nonneg Hnil [Hall Hap]. rewrite stack_height_cons.
  assert (44 <= h)%Z as H44 by (rewrite <- Hnh, Hh; apply node_height_pos). split.
  - constructor; [unfold in_lane, ROW_GAP; split_and!; try done; try lia; destruct (is_nonempty hs); lia|].
    destruct hs as [|h' hs]; [by rewrite (Hnil eq_refl)|]. eapply Forall_impl; [exact Hall|].
    intros m (? & ? & ? & ? & ? & ?). cbn [is_nonempty]. unfold in_lane, ROW_GAP in *. split_and!; try done; lia.
  - constructor; [|done]. eapply Forall_impl; [exact Hall|]. intros m (? & ? & ? & ? & ?). unfold apart, ROW_GAP in *. lia.
Qed.

Lemma heights_nonneg {A : Type} (f : A -> nat) l : Forall (fun h => (0 <= h)%Z) (map (fun a => node_height (f a)) l).
Proof. apply Forall_map. apply Forall_forall. intros a _. pose proof (node_height_pos (f a)). lia. Qed.

Lemma place_sources_lane y sources :
  Forall (in_lane sources_x y (y + stack_height (map (fun s => node_height (length (so_lines s))) sources))) (place_sources y sources).1 /\
  ForallOrdPairs apart (place_sources y sources).1.
Proof.
  revert y. induction sources as [|s sources IH]; intros y; [by repeat constructor|]. specialize (IH (y + node_height (length (so_lines s)) + ROW_GAP)%Z).
  cbn [place_sources map]. destruct (place_sources _ sources) as [nodes mids] eqn:E. cbn [fst] in *.
  apply lane_cons; cbn [nd_y nd_h]; [|done|done|apply heights_nonneg| |exact IH].
  - unfold in_lane. cbn [nd_x nd_y nd_w nd_h nd_lines]. rewrite placed_length. split_and!; try done; try lia. apply placed_lines.
  - destruct sources; [by injection E as <- _|done].
Qed.

Lemma place_friends_lane right mid y friends :
  Forall (in_lane friends_x y (y + stack_height (map (fun f => node_height (length (friend_lines f))) friends))) (place_friends right mid y friends).1 /\
  ForallOrdPairs apart (place_friends right mid y friends).1.
Proof.
  revert y. induction friends as [|f friends IH]; intros y; [by repeat constructor|]. specialize (IH (y + node_height (length (friend_lines f)) + ROW_GAP)%Z).
  cbn [place_friends map]. destruct (place_friends _ _ _ friends) as [nodes edges] eqn:E. cbn [fst] in *.
  apply lane_cons; cbn [nd_y nd_h]; [|done|done|apply heights_nonneg| |exact IH].
  - unfold in_lane. cbn [nd_x nd_y nd_w nd_h nd_lines]. rewrite placed_length. split_and!; try done; try lia. apply placed_lines.
  - destruct friends; [by injection E as <- _|done].
Qed.

(** Boxes of different columns are apart, and a lane centred in the content is inside it. *)
Lemma lanes_apart x top bottom x' top' bottom' a b : (x + COL_W <= x')%Z -> in_lane x top bottom a -> in_lane x' top' bottom' b -> apart a b.
Proof. intros Hx (? & ? & _) (? & ? & _). unfold apart. lia. Qed.

Lemma centered_inside lane_h content_h : (0 <= lane_h <= content_h)%Z -> (0 <= center_offset lane_h content_h /\ center_offset lane_h content_h + lane_h <= content_h)%Z.
Proof.
  intros H. unfold center_offset. rewrite Z.max_l, Z.quot_div_nonneg by lia. pose proof (Z.div_pos (content_h - lane_h) 2 ltac:(lia) ltac:(lia)).
  pose proof (Z.mul_div_le (content_h - lane_h) 2 ltac:(lia)). lia.
Qed.

Lemma ordpairs_app {A : Type} (R : A -> A -> Prop) l k :
  ForallOrdPairs R l -> ForallOrdPairs R k -> (forall a b, a ∈ l -> b ∈ k -> R a b) -> ForallOrdPairs R (l ++ k).
Proof.
  induction 1 as [|a l Ha Hl IH]; intros Hk H; [done|]. cbn. constructor.
  - apply Forall_app. split; [done|]. apply Forall_forall. intros b Hb. apply H; [left|done].
  - apply IH; [done|]. intros x b Hx. apply H. by right.
Qed.

(** The edges of a friend: one for each channel seen, landing on that channel's row. *)
Lemma friend_edges_seen right mid y accent index drawn chs :
  length (friend_edges right mid y accent index drawn chs) = length (omap (fun c : Channel => c) chs) /\
  Forall (fun e => eg_x1 e = right /\ eg_y1 e = mid /\ eg_x2 e = friends_x /\ eg_accent e = accent /\
                   exists i seen, chs !! i = Some (Some seen) /\ eg_style e = se_style seen /\
                     eg_y2 e = (y + NODE_HEAD_H + Z.of_nat (index + i) * NODE_LINE_H - 6)%Z)
    (friend_edges right mid y accent index drawn chs).
Proof.
  revert index drawn. induction chs as [|[seen|] chs IH]; intros index drawn; [by repeat constructor| |]; cbn [friend_edges omap list_omap].
  - destruct (IH (S index) (if bool_decide (se_edge_label seen ∈ drawn) then drawn else drawn ++ [se_edge_label seen])) as [Hl Hall]. split; [cbn; by rewrite Hl|].
    constructor; [split_and!; [done..|]; exists 0, seen; split_and!; [done..|]; cbn [eg_y2]; by rewrite Nat.add_0_r|].
    eapply Forall_impl; [exact Hall|]. intros e (? & ? & ? & ? & i & s & Hi & ? & Hy). split_and!; try done. exists (S i), s. split_and!; try done. by rewrite <- Nat.add_succ_comm.
  - destruct (IH (S index) drawn) as [Hl Hall]. split; [done|].
    eapply Forall_impl; [exact Hall|]. intros e (? & ? & ? & ? & i & s & Hi & ? & Hy). split_and!; try done. exists (S i), s. split_and!; try done. by rewrite <- Nat.add_succ_comm.
Qed.

(** No label is drawn twice for a friend. *)
Lemma friend_edges_labels right mid y accent index drawn chs :
  NoDup (filter (fun l => l <> []) (map eg_label (friend_edges right mid y accent index drawn chs))) /\
  (forall l, l ∈ filter (fun l => l <> []) (map eg_label (friend_edges right mid y accent index drawn chs)) -> l ∉ drawn) /\
  (forall seen, Some seen ∈ chs -> se_edge_label seen ∈ drawn \/ se_edge_label seen ∈ map eg_label (friend_edges right mid y accent index drawn chs)).
Proof.
  revert index drawn. induction chs as [|[seen|] chs IH]; intros index drawn; cbn [friend_edges map].
  - split_and!; [constructor|by intros l Hl%elem_of_nil|by intros s Hs%elem_of_nil].
  - cbn [eg_label]. case_bool_decide as Hd.
    + destruct (IH (S index) drawn) as (H1 & H2 & H3). rewrite filter_cons, decide_False by (intros H; by apply H). split_and!; [done..|].
      intros s [Hs|Hs]%elem_of_cons; [injection Hs as ->; by left|]. destruct (H3 s Hs); [by left|right; by right].
    + destruct (IH (S index) (drawn ++ [se_edge_label seen])) as (H1 & H2 & H3). setoid_rewrite elem_of_app in H3. setoid_rewrite list_elem_of_singleton in H3.
      rewrite filter_cons. split_and!.
      * case_decide; [|done]. apply NoDup_cons. split; [|done]. intros Hin. apply (H2 _ Hin), elem_of_app. right. by apply list_elem_of_singleton.
      * intros l Hl. assert (l = se_edge_label seen \/ l ∈ filter (fun l => l <> []) (map eg_label (friend_edges right mid y accent (S index) (drawn ++ [se_edge_label seen]) chs))) as [->|Hl'].
        { case_decide; [by apply elem_of_cons in Hl|by right]. }
        { done. } specialize (H2 _ Hl'). set_solver.
      * intros s [Hs|Hs]%elem_of_cons; [injection Hs as ->; right; left|]. destruct (H3 s Hs) as [[?| ->]|?]; [by left|right; left|right; by right].
  - destruct (IH (S index) drawn) as (H1 & H2 & H3). split_and!; [done..|]. intros s [Hs|Hs]%elem_of_cons; [done|by apply H3].
Qed.

Definition touches (n : Node) (x y : Z) : Prop := (nd_x n <= x <= nd_x n + nd_w n /\ nd_y n <= y <= nd_y n + nd_h n)%Z.

(** An edge between two of the boxes. *)
Definition joins (nodes : list Node) (e : Edge) : Prop :=
  exists a b, a ∈ nodes /\ b ∈ nodes /\ touches a (eg_x1 e) (eg_y1 e) /\ touches b (eg_x2 e) (eg_y2 e).

Lemma place_sources_length y sources : length (place_sources y sources).1 = length sources.
Proof.
  revert y. induction sources as [|s sources IH]; intros y; [done|]. cbn [place_sources].
  specialize (IH (y + node_height (length (so_lines s)) + ROW_GAP)%Z). destruct (place_sources _ sources). cbn in *. by rewrite IH.
Qed.

Lemma place_friends_length right mid y friends : length (place_friends right mid y friends).1 = length friends.
Proof.
  revert y. induction friends as [|f friends IH]; intros y; [done|]. cbn [place_friends].
  specialize (IH (y + node_height (length (friend_lines f)) + ROW_GAP)%Z). destruct (place_friends _ _ _ friends). cbn in *. by rewrite IH.
Qed.

Lemma source_mids y sources :
  Forall2 (fun n m => nd_x n = sources_x /\ nd_w n = COL_W /\ (nd_y n <= m.1 <= nd_y n + nd_h n)%Z /\ nd_accent n = m.2) (place_sources y sources).1 (place_sources y sources).2.
Proof.
  revert y. induction sources as [|s sources IH]; intros y; [constructor|]. cbn [place_sources]. specialize (IH (y + node_height (length (so_lines s)) + ROW_GAP)%Z).
  destruct (place_sources _ sources) as [nodes mids]. cbn [fst snd] in *. constructor; [|done]. cbn [nd_x nd_w nd_y nd_h nd_accent fst snd].
  pose proof (node_height_pos (length (so_lines s))). rewrite Z.quot_div_nonneg by lia.
  pose proof (Z.div_pos (node_height (length (so_lines s))) 2 ltac:(lia) ltac:(lia)). pose proof (Z.mul_div_le (node_height (length (so_lines s))) 2 ltac:(lia)).
  split_and!; try done; lia.
Qed.

Lemma friend_edges_land right mid y friends e :
  e ∈ (place_friends right mid y friends).2 ->
  eg_x1 e = right /\ eg_y1 e = mid /\ exists n, n ∈ (place_friends right mid y friends).1 /\ touches n (eg_x2 e) (eg_y2 e) /\ eg_accent e = nd_accent n.
Proof.
  revert y. induction friends as [|f friends IH]; intros y; [by intros H%elem_of_nil|]. cbn [place_friends].
  specialize (IH (y + node_height (length (friend_lines f)) + ROW_GAP)%Z). destruct (place_friends _ _ _ friends) as [nodes edges]. cbn [fst snd] in *.
  intros [He|He]%elem_of_app.
  - destruct (friend_edges_seen right mid y (fr_accent f) 0 [] (channels f)) as [_ Hall]. rewrite Forall_forall in Hall.
    destruct (Hall e He) as (-> & -> & Hx & Ha & i & seen & Hi & _ & Hy). split_and!; [done..|]. eexists. split; [left|]. split; [|done].
    apply lookup_lt_Some in Hi. unfold touches. rewrite Hx, Hy. cbn [nd_x nd_y nd_w nd_h friend_lines length]. cbn in Hi.
    unfold node_height, COL_W, NODE_HEAD_H, NODE_LINE_H, NODE_PAD_BOTTOM. lia.
  - destruct (IH He) as (-> & -> & n & Hn & Ht & Ha). split_and!; [done..|]. exists n. split; [by right|done].
Qed.

(** What it is for a box to lie inside the canvas, its rows inside it. *)
Definition inside (l : Layout) (n : Node) : Prop :=
  (MARGIN <= nd_x n /\ nd_x n + nd_w n <= ly_width l - MARGIN /\ MARGIN <= nd_y n /\ nd_y n + nd_h n <= ly_height l - MARGIN /\ 0 < nd_w n /\ 0 < nd_h n)%Z /\
  Forall (fun line => nd_y n < nl_y line <= nd_y n + nd_h n)%Z (nd_lines n).

Lemma lane_inside l x top bottom n :
  in_lane x top bottom n -> (MARGIN <= x /\ x + COL_W <= ly_width l - MARGIN /\ MARGIN <= top /\ bottom <= ly_height l - MARGIN)%Z -> inside l n.
Proof.
  intros (Hx & Hw & Ht & Hb & Hh & Hl) H. pose proof (node_height_pos (length (nd_lines n))). split; [unfold COL_W in *; lia|].
  apply Forall_lookup. intros i line Hi. pose proof (Hl i line Hi) as ->. apply lookup_lt_Some in Hi. rewrite Hh.
  unfold node_height, NODE_HEAD_H, NODE_LINE_H, NODE_PAD_BOTTOM. lia.
Qed.

(** Three columns side by side. *)
Record three_lanes (l : Layout) (sources instance friends : list Node) : Prop := {
  lanes_nodes : ly_nodes l = sources ++ instance ++ friends;
  lanes_width : ly_width l = (friends_x + COL_W + MARGIN)%Z;
  lanes_in : forall x nodes, (x, nodes) ∈ [(sources_x, sources); (instance_x, instance); (friends_x, friends)] ->
    ForallOrdPairs apart nodes /\ exists top bottom, Forall (in_lane x top bottom) nodes /\ (MARGIN <= top)%Z /\ (bottom <= ly_height l - MARGIN)%Z
}.

Lemma lanes_inside l sources instance friends : three_lanes l sources instance friends -> Forall (inside l) (ly_nodes l) /\ ForallOrdPairs apart (ly_nodes l).
Proof.
  intros [Hn Hw Hin]. setoid_rewrite elem_of_cons in Hin. setoid_rewrite elem_of_cons in Hin. setoid_rewrite list_elem_of_singleton in Hin. rewrite Hn.
  destruct (Hin _ _ (or_introl eq_refl)) as (A1 & t1 & b1 & L1 & T1 & B1). destruct (Hin _ _ (or_intror (or_introl eq_refl))) as (A2 & t2 & b2 & L2 & T2 & B2).
  destruct (Hin _ _ (or_intror (or_intror eq_refl))) as (A3 & t3 & b3 & L3 & T3 & B3). split.
  - repeat (apply Forall_app; split); (eapply Forall_impl; [eassumption|]); intros n Hl; eapply (lane_inside l); try exact Hl; rewrite Hw;
      unfold friends_x, instance_x, sources_x, MARGIN, COL_W, COL_GAP in *; lia.
  - rewrite Forall_forall in L1, L2, L3.
    apply ordpairs_app; [done|apply ordpairs_app; [done..|]|]; intros a b Ha Hb; [|apply elem_of_app in Hb as [Hb|Hb]]; (eapply lanes_apart; [|by eauto..]);
      unfold friends_x, instance_x, sources_x, COL_W, COL_GAP; lia.
Qed.

Lemma two_boxes x y h h' n m :
  in_lane x y (y + h) n -> nd_y n = y -> nd_h n = h -> in_lane x (y + h + ROW_GAP) (y + h + ROW_GAP + h') m -> nd_h m = h' ->
  Forall (in_lane x y (y + stack_height [h; h'])) [n; m] /\ ForallOrdPairs apart [n; m].
Proof.
  intros Hn Hy Hh Hm Hm'. apply lane_cons; [done..| |done|]; [constructor; [|constructor]|].
  { destruct Hm as (_ & _ & _ & _ & E & _). rewrite <- Hm', E. pose proof (node_height_pos (length (nd_lines m))). lia. }
  rewrite stack_height_cons. cbn [is_nonempty]. rewrite Z.add_0_r. split; [apply Forall_cons; split; [done|constructor]|by repeat constructor].
Qed.

Lemma box_in_lane x y icon label full lines status accent lane :
  in_lane x y (y + node_height (length lines)) (mkNode x y COL_W (node_height (length lines)) icon label full (placed lines y) status accent lane).
Proof. unfold in_lane. cbn [nd_x nd_y nd_w nd_h nd_lines]. rewrite placed_length. split_and!; try done; try lia. apply placed_lines. Qed.

Lemma edges_join nodes1 nodes3 (mids : list (Z * bytes)) edges3 sharerr client label :
  Forall2 (fun n m => nd_x n = sources_x /\ nd_w n = COL_W /\ (nd_y n <= m.1 <= nd_y n + nd_h n)%Z /\ nd_accent n = m.2) nodes1 mids ->
  nd_x sharerr = instance_x -> nd_w sharerr = COL_W -> (44 <= nd_h sharerr)%Z -> nd_x client = instance_x -> nd_w client = COL_W -> (44 <= nd_h client)%Z ->
  let mid := (nd_y sharerr + Z.quot (nd_h sharerr) 2)%Z in
  (forall e, e ∈ edges3 -> eg_x1 e = (instance_x + COL_W)%Z /\ eg_y1 e = mid /\ exists n, n ∈ nodes3 /\ touches n (eg_x2 e) (eg_y2 e) /\ eg_accent e = nd_accent n) ->
  Forall (joins (nodes1 ++ [sharerr; client] ++ nodes3))
    (mkEdge (instance_x + Z.quot COL_W 2) (nd_y sharerr + nd_h sharerr) (instance_x + Z.quot COL_W 2) (nd_y client) label Solid ACCENT_NEUTRAL EdgeClient ::
     map (fun m : Z * bytes => mkEdge (sources_x + COL_W) m.1 instance_x mid [] Solid m.2 EdgeSource) mids ++ edges3).
Proof.
  intros M1 Hsx Hsw Hsh Hcx Hcw Hch mid E3.
  assert (0 <= Z.quot (nd_h sharerr) 2 <= nd_h sharerr)%Z as Hmid.
  { rewrite Z.quot_div_nonneg by lia. split; [apply Z.div_pos; lia|]. apply Z.div_le_upper_bound; lia. }
  assert (sharerr ∈ nodes1 ++ [sharerr; client] ++ nodes3 /\ client ∈ nodes1 ++ [sharerr; client] ++ nodes3) as [Hs Hc] by set_solver.
  apply Forall_cons. split; [|apply Forall_app; split; [apply Forall_map|]].
  - exists sharerr, client. split_and!; [done..| |]; unfold touches; cbn [eg_x1 eg_y1 eg_x2 eg_y2]; rewrite ?Hsx, ?Hsw, ?Hcx, ?Hcw; change (Z.quot COL_W 2) with 145%Z; unfold COL_W; lia.
  - apply Forall_forall. intros m Hm. apply list_elem_of_lookup_1 in Hm as [i Hi]. destruct (Forall2_lookup_r _ _ _ _ _ M1 Hi) as (n & Hn & Hx & Hw & Hy & _).
    exists n, sharerr. split_and!; [apply elem_of_app; left; by eapply list_elem_of_lookup_2|done| |]; unfold touches; cbn [eg_x1 eg_y1 eg_x2 eg_y2]; unfold mid;
      rewrite ?Hx, ?Hw, ?Hsx, ?Hsw; unfold COL_W; lia.
  - apply Forall_forall. intros e He. destruct (E3 e He) as (Hx & Hy & n & Hn & Ht & _). exists sharerr, n. split_and!; [done|set_solver| |done].
    unfold touches. rewrite Hx, Hy. unfold mid. rewrite Hsx, Hsw. unfold COL_W. lia.
Qed.

Lemma layout_lanes input :
  exists sources instance friends, three_lanes (layout input) sources instance friends /\
    length sources = length (li_sources input) /\ length instance = 2 /\ length friends = length (li_friends input) /\
    Forall (joins (ly_nodes (layout input))) (ly_edges (layout input)).
Proof.
  unfold layout.
  pose proof (heights_nonneg (fun s => length (so_lines s)) (li_sources input)) as H1%stack_height_nonneg.
  pose proof (heights_nonneg (fun f => length (friend_lines f)) (li_friends input)) as H3%stack_height_nonneg.
  pose proof (node_height_pos (length (li_instance_lines input))) as Hi. pose proof (node_height_pos (length (li_client_lines input))) as Hc.
  set (sources_h := stack_height (map (fun s => node_height (length (so_lines s))) (li_sources input))) in *.
  set (friends_h := stack_height (map (fun f => node_height (length (friend_lines f))) (li_friends input))) in *.
  set (sharerr_h := node_height (length (li_instance_lines input))) in *. set (client_h := node_height (length (li_client_lines input))) in *.
  set (instance_h := stack_height [sharerr_h; client_h]).
  assert (instance_h = sharerr_h + ROW_GAP + client_h)%Z as H2 by (unfold instance_h; rewrite !stack_height_cons; cbn [is_nonempty]; lia).
  set (content_h := Z.max (Z.max sources_h instance_h) friends_h).
  pose proof (centered_inside sources_h content_h ltac:(lia)) as C1. pose proof (centered_inside instance_h content_h ltac:(unfold ROW_GAP in *; lia)) as C2.
  pose proof (centered_inside friends_h content_h ltac:(lia)) as C3. set (sharerr_y := (MARGIN + center_offset instance_h content_h)%Z) in *.
  set (mid := (_ + Z.quot _ 2)%Z).
  pose proof (place_sources_lane (MARGIN + center_offset sources_h content_h) (li_sources input)) as L1. pose proof (source_mids (MARGIN + center_offset sources_h content_h) (li_sources input)) as M1.
  pose proof (place_sources_length (MARGIN + center_offset sources_h content_h) (li_sources input)) as N1.
  pose proof (place_friends_lane (instance_x + COL_W) mid (MARGIN + center_offset friends_h content_h) (li_friends input)) as L3.
  pose proof (place_friends_length (instance_x + COL_W) mid (MARGIN + center_offset friends_h content_h) (li_friends input)) as N3.
  pose proof (friend_edges_land (instance_x + COL_W) mid (MARGIN + center_offset friends_h content_h) (li_friends input)) as E3.
  destruct (place_sources _ _) as [nodes1 mids]. destruct (place_friends _ _ _ _) as [nodes3 edges3]. cbn [fst snd ly_nodes ly_edges] in *.
  match goal with |- context [nodes1 ++ [?n; ?m] ++ nodes3] => set (sharerr := n); set (client := m) end.
  pose proof (two_boxes instance_x sharerr_y sharerr_h client_h sharerr client (box_in_lane _ _ _ _ _ _ _ _ _) eq_refl eq_refl (box_in_lane _ _ _ _ _ _ _ _ _) eq_refl) as [L2 A2]. destruct L1 as [L1 A1], L3 as [L3 A3].
  exists nodes1, [sharerr; client], nodes3. split_and!; [|done..|by apply edges_join]. split; [done..|]. cbn [ly_height].
  intros x nodes Hx. rewrite !elem_of_cons, elem_of_nil in Hx. destruct Hx as [[= -> ->]|[[= -> ->]|[[= -> ->]|[]]]]; (split; [done|]); eexists _, _; (split; [eassumption|]); lia.
Qed.

(** How high a lane can grow when no box of it has more than eight rows. *)
Lemma stack_height_le {A : Type} (f : A -> nat) l : Forall (fun a => f a <= 8) l -> (stack_height (map (fun a => node_height (f a)) l) <= 234 * Z.of_nat (length l))%Z.
Proof.
  induction 1 as [|a l Ha _ IH]; [done|]. cbn [map]. rewrite stack_height_cons. cbn [length]. rewrite Nat2Z.inj_succ.
  unfold node_height, NODE_HEAD_H, NODE_LINE_H, NODE_PAD_BOTTOM, ROW_GAP in *. destruct (is_nonempty _); lia.
Qed.

(** No coordinate leaves 32 bits for up to a million boxes in a lane of up to eight rows. *)
Lemma layout_in_i32 input :
  Forall (fun s => length (so_lines s) <= 8) (li_sources input) -> length (li_instance_lines input) <= 8 -> length (li_client_lines input) <= 8 ->
  length (li_sources input) <= N.to_nat 1000000 -> length (li_friends input) <= N.to_nat 1000000 ->
  (ly_width (layout input) = 1350 /\ ly_height (layout input) <= i32_max)%Z.
Proof.
  intros Hs Hi Hc Ns Nf. unfold layout. destruct (place_sources _ _), (place_friends _ _ _ _). cbn [ly_width ly_height]. split; [done|].
  pose proof (stack_height_le (fun s => length (so_lines s)) (li_sources input) Hs) as H1.
  pose proof (stack_height_le (fun f => length (friend_lines f)) (li_friends input) ltac:(apply Forall_forall; intros f _; cbn; lia)) as H3.
  pose proof (stack_height_le (fun n : nat => n) [length (li_instance_lines input); length (li_client_lines input)] ltac:(by apply Forall_cons; split; [|apply Forall_singleton])) as H2.
  cbn [map length] in H2. unfold i32_max, MARGIN. lia.
Qed.

(** ** What the page promises *)


(** C24: The check of the client is exact.  Every torrent the store says is seeding is counted
    once: confirmed when the client's last word on its hash, in any case of letters, is
    that it seeds, idle when it is that it does not, absent when the client does not list
    it.  At most twenty of each kind are named, in the order of the store, and the rest
    counted; and the client is called healthy exactly when everything is confirmed. *)
Theorem reconcile_exact `{CM : CaseMap} (expected : list (bytes * bytes)) (listed : list TorrentSummary) :
  let check := reconcile expected listed in
  let which v := filter (verdict_is listed v) expected in
  let named es := map (fun e : bytes * bytes => mkMismatch e.2 e.1) es in
  (forall hash v, present_in listed !! hash = Some v <->
     exists before t after, listed = before ++ t :: after /\ str_to_lowercase (ts_hash t) = hash /\ ts_is_seeding t = v /\
                            Forall (fun t' => str_to_lowercase (ts_hash t') <> hash) after) /\
  cc_expected check = length expected /\ cc_confirmed check = length (which (Some true)) /\
  cc_absent check = take 20 (named (which None)) /\ cc_idle check = take 20 (named (which (Some false))) /\
  cc_confirmed check + (length (cc_absent check) + cc_more_absent check) + (length (cc_idle check) + cc_more_idle check) = cc_expected check /\
  (check_healthy check = true <-> cc_confirmed check = cc_expected check).
Proof.
  cbv zeta. split; [apply present_in_lookup|]. unfold reconcile. rewrite reconcile_fold. pose proof (verdicts_partition listed expected) as Hp.
  set (held := filter (verdict_is listed (Some true)) expected) in *. set (idle := filter (verdict_is listed (Some false)) expected) in *. set (absent := filter (verdict_is listed None) expected) in *.
  cbn [fst snd app Nat.add]. cbn [cc_expected cc_confirmed cc_absent cc_more_absent cc_idle cc_more_idle]. rewrite !length_take, !length_map. unfold MAX_MISMATCHES.
  split_and!; [done..|lia|]. unfold check_healthy. cbn [cc_error cc_absent cc_idle]. rewrite bool_decide_true by done.
  destruct absent, idle; cbn -[Nat.add] in *; split; done || lia.
Qed.

(** The diagram can be read whatever it shows.  Every source and every friend has its
    box, this instance and its client theirs; every box lies inside the margins with its
    rows inside it, no two boxes overlap, and every edge runs from one box to another. *)
Theorem boxes_never_overlap (input : LayoutInput) :
  let l := layout input in
  length (ly_nodes l) = length (li_sources input) + 2 + length (li_friends input) /\
  Forall (inside l) (ly_nodes l) /\ ForallOrdPairs apart (ly_nodes l) /\ Forall (joins (ly_nodes l)) (ly_edges l).
Proof.
  cbv zeta. destruct (layout_lanes input) as (sources & instance & friends & Hl & H1 & H2 & H3 & Hj). destruct (lanes_inside _ _ _ _ Hl) as [Hin Hap].
  split_and!; [|done..]. rewrite (lanes_nodes _ _ _ _ Hl), !length_app, H1, H2, H3. lia.
Qed.

(** A friend's lines: one for each address seen, every label written, and none twice. *)
Theorem friend_lines_exact (right mid y : Z) (f : FriendNode) :
  let edges := friend_edges right mid y (fr_accent f) 0 [] (channels f) in
  length edges = length (omap (fun c : Channel => c) (channels f)) /\
  NoDup (filter (fun l => l <> []) (map eg_label edges)) /\
  (forall seen, Some seen ∈ channels f -> se_edge_label seen ∈ map eg_label edges).
Proof.
  cbv zeta. destruct (friend_edges_labels right mid y (fr_accent f) 0 [] (channels f)) as (H1 & _ & H3). split_and!; [apply friend_edges_seen|done|].
  intros seen Hs. destruct (H3 seen Hs) as [H%elem_of_nil|]; done.
Qed.

(** What the legend says of a box: its glyph, its lane and, but for a friend, its colour. *)
Definition explained (n : Node) : Prop :=
  Exists (fun e => lg_icon e = nd_icon n /\ lg_lane e = nd_lane n /\ (nd_lane n = LaneFriend \/ lg_accent e = nd_accent n)) LEGEND.

Lemma sources_explained y sources :
  Forall (fun s => Exists (fun e => lg_icon e = so_icon s /\ lg_lane e = LaneSource /\ lg_accent e = so_accent s) LEGEND) sources ->
  Forall explained (place_sources y sources).1.
Proof.
  intros H. revert y. induction H as [|s sources Hs _ IH]; intros y; [constructor|]. cbn [place_sources]. specialize (IH (y + node_height (length (so_lines s)) + ROW_GAP)%Z).
  destruct (place_sources _ sources). cbn [fst] in *. constructor; [|done]. unfold explained. cbn [nd_icon nd_lane nd_accent].
  eapply Exists_impl; [exact Hs|]. intros e (-> & -> & ->). auto.
Qed.

Lemma friends_explained right mid y friends : Forall explained (place_friends right mid y friends).1.
Proof.
  revert y. induction friends as [|f friends IH]; intros y; [constructor|]. cbn [place_friends]. specialize (IH (y + node_height (length (friend_lines f)) + ROW_GAP)%Z).
  destruct (place_friends _ _ _ friends). cbn [fst] in *. constructor; [|done]. do 4 apply Exists_cons_tl. apply Exists_cons_hd. cbn. auto.
Qed.

(** Every box of a page is in the legend. *)
Theorem legend_complete `{U : UrlLib} `{CM : CaseMap} (config : CheckedConfig) (snapshot : Checks.Snapshot) (instance : list NodeLine * NodeStatus)
    (client : bytes * list NodeLine * NodeStatus * option ClientCheck) (friends : list FriendNode) (swarms : list SwarmRow) :
  Forall explained (ly_nodes (tp_layout (gather config snapshot instance client friends swarms))).
Proof.
  destruct client as [[[label lines] status] check]. cbn [gather tp_layout]. unfold layout. cbn [li_sources li_friends].
  assert (Forall (fun s => Exists (fun e => lg_icon e = so_icon s /\ lg_lane e = LaneSource /\ lg_accent e = so_accent s) LEGEND) (source_nodes config snapshot)) as Hs.
  { unfold source_nodes. apply Forall_app. split; [apply Forall_map, Forall_forall; intros [kind outcome] _; destruct outcome; by left|].
    destruct (sn_libraries snapshot); [apply Forall_map, Forall_forall; intros [l outcome] _; destruct outcome; right; by left|]. apply Forall_singleton. right. by left. }
  match goal with |- context [place_sources ?y _] => pose proof (sources_explained y _ Hs) as H1; destruct (place_sources y _) as [nodes1 mids] end.
  match goal with |- context [place_friends ?r ?m ?y _] => pose proof (friends_explained r m y friends) as H3; destruct (place_friends r m y _) as [nodes3 edges3] end.
  cbn [ly_nodes fst] in *. apply Forall_app. split; [done|]. apply Forall_app. split; [|done]. apply Forall_cons. split; [|apply Forall_singleton].
  - do 2 right. left. auto.
  - do 3 right. left. auto.
Qed.

(** *** Witnesses *)



Definition listed_torrent (hash : bytes) (seeding : bool) : TorrentSummary := mkTorrentSummary hash [] [] [] [] [] seeding false None None None.

Lemma reconcile_exact_witness :
  let check := @reconcile ascii_case [(bs "aa", bs "One"); (bs "bb", bs "Two"); (bs "cc", bs "Three")] [listed_torrent (bs "AA") true; listed_torrent (bs "bb") false] in
  cc_confirmed check = 1 /\ map cm_title (cc_idle check) = [bs "Two"] /\ map cm_title (cc_absent check) = [bs "Three"] /\ check_healthy check = false.
Proof.
  cbv zeta. pose proof (@reconcile_exact ascii_case [(bs "aa", bs "One"); (bs "bb", bs "Two"); (bs "cc", bs "Three")] [listed_torrent (bs "AA") true; listed_torrent (bs "bb") false]) as H.
  cbv zeta in H. destruct H as (_ & _ & -> & -> & -> & _). repeat split; vm_compute; reflexivity.
Defined.

(** An address is cut to the width of its row before it is redacted: when the cut takes
    the last number of a quad the rest is a quad no more, and its third number is shown. *)
Example cut_address_shown :
  nl_masked (address_line (bs "url") (bs "http://transmission@198.51.100.77/rpc")) = bs "http://transmission@198.51.100.…" /\
  mask_address (bs "http://transmission@198.51.100.77/rpc") = bs "http://transmission@198.51.•••.••/rpc".
Proof. split; vm_compute; reflexivity. Qed.
