(* ===== verification/Composition.v ===== *)
(** * What the library is made of (crates/sharerr/src/web/composition.rs)

    The panel above the items table: the library rolled up by format, by state and by
    source, each as a bar cut into segments and a table of shares.  Byte counts are 64-bit
    and shares are binary64, as the program computes them. *)

From Stdlib Require Import SpecFloat.
From stdpp Require Import sorting.
From S2P Require Import Prelude RustStd Text Model FileTree Title Effects Accounts Database Items Peers History Client ConfigFile Diagnostics.

Definition BAR_W : Z := 640.
Definition BAR_H : Z := 14.
Definition MIN_SEG_W : Z := 2.
Definition ACCENTS : list bytes := [bs "1"; bs "2"; bs "3"; bs "4"; bs "5"; bs "6"; bs "7"; bs "8"; bs "9"].

Record Segment : Type := mkSegment { sg_x : Z; sg_w : Z; sg_h : Z; sg_accent : bytes; sg_title : bytes }.
Record CompositionRow : Type := mkRow { cr_label : bytes; cr_accent : bytes; cr_count : nat; cr_size : bytes; cr_share : bytes }.

Record Breakdown : Type := mkBreakdown {
  bd_title : bytes;
  bd_hint : bytes;
  bd_segments : list Segment;
  bd_rows : list CompositionRow;
  bd_width : Z;
  bd_height : Z
}.

Record Composition : Type := mkComposition { co_items : nat; co_total_size : bytes; co_breakdowns : list Breakdown }.

(** ** Sizes as text *)

(** [n as f64] for a [u64]: the nearest with 53 significant bits, ties to even. *)
Definition u64_as_f64 (n : N) : N :=
  if (n <? 2 ^ 53)%N then n else let ulp := (2 ^ (N.log2 n - 52))%N in (round_half_even n ulp * ulp)%N.

Definition UNITS : list bytes := [bs "B"; bs "KiB"; bs "MiB"; bs "GiB"; bs "TiB"].

(** How often [human_size] divides by 1024; a division of a float by 1024 is exact. *)
Fixpoint size_unit (steps unit : nat) (value : N) : nat :=
  match steps with
  | O => unit
  | S steps => if (1024 ^ N.of_nat (S unit) <=? value)%N then size_unit steps (S unit) value else unit
  end.

(** [items::human_size]; one decimal, of the exact quotient, ties to even. *)
Definition human_size (size : N) : bytes :=
  let value := u64_as_f64 size in
  let unit := size_unit (length UNITS - 1) 0 value in
  let name := nth unit UNITS [] in
  if unit =? 0 then u_to_string size ++ bs " " ++ name
  else
    let tenths := round_half_even (value * 10) (1024 ^ N.of_nat unit) in
    u_to_string (tenths / 10) ++ bs "." ++ u_to_string (tenths mod 10) ++ bs " " ++ name.

(** ** Buckets *)

Record Bucket : Type := mkBucket { bk_label : bytes; bk_count : nat; bk_bytes : N }.

(** Addition on [u64], which wraps around in a release build. *)
Definition u64_add (a b : N) : N := ((a + b) mod 2 ^ 64)%N.

Definition total_of (sizes : list N) : N := fold_left u64_add sizes 0%N.

(** [find] and the update in place, or a new bucket at the end. *)
Fixpoint add_to (label : bytes) (size : N) (buckets : list Bucket) : list Bucket :=
  match buckets with
  | [] => [mkBucket label 1 size]
  | b :: buckets =>
      if bool_decide (bk_label b = label) then mkBucket (bk_label b) (bk_count b + 1) (u64_add (bk_bytes b) size) :: buckets
      else b :: add_to label size buckets
  end.

Definition bucketed (items : list SharedItem) (label_of : SharedItem -> bytes) : list Bucket :=
  fold_left (fun buckets item => add_to (label_of item) (it_size item) buckets) items [].

(** [Ordering::then]. *)
Definition then_ (a b : comparison) : comparison := match a with Eq => b | c => c end.

Definition is_unknown (label : bytes) : bool := bool_decide (label = bs "unknown").
Definition bool_compare (a b : bool) : comparison := match a, b with false, true => Lt | true, false => Gt | _, _ => Eq end.

Definition bucket_compare (a b : Bucket) : comparison :=
  then_ (then_ (bool_compare (is_unknown (bk_label a)) (is_unknown (bk_label b))) (N.compare (bk_bytes b) (bk_bytes a))) (bytes_compare (bk_label a) (bk_label b)).

(** ** Shares *)

(** [x.floor() as u32], saturating. *)
Definition f64_floor_u32 (x : spec_float) : Z :=
  match x with
  | S754_zero _ | S754_nan => 0
  | S754_infinity s => if s then 0 else 4294967295
  | S754_finite s m e =>
      let n := if (0 <=? e)%Z then (Zpos m * 2 ^ e)%Z else (Zpos m / 2 ^ (- e))%Z in
      if s then 0 else Z.min 4294967295 n
  end.

(** [bytes as f64 / total as f64 * 100.0]. *)
Definition share_of (bytes total : N) : spec_float :=
  SFmul 53 1024 (SFdiv 53 1024 (f64_of (Z.of_N bytes)) (f64_of (Z.of_N total))) (f64_of 100).

(** What flooring a share takes from it. *)
Definition remainder_of (share : spec_float) : spec_float := SFsub 53 1024 share (f64_of (f64_floor_u32 share)).

(** [partial_cmp] of the remainders, the larger first. *)
Definition by_remainder (exact : list spec_float) (a b : nat) : comparison :=
  let remainder i := remainder_of (nth i exact S754_nan) in
  match SFcompare (remainder b) (remainder a) with Some c => c | None => Eq end.

(** One point to each of [order], until none is left. *)
Fixpoint hand_back (leftover : Z) (order : list nat) (whole : list Z) : list Z :=
  match order with
  | [] => whole
  | index :: order => if (leftover =? 0)%Z then whole else hand_back (leftover - 1) order (<[index := (nth index whole 0 + 1)%Z]> whole)
  end.

Definition whole_percentages (buckets : list Bucket) (total : N) : list Z :=
  if (total =? 0)%N then replicate (length buckets) 0%Z
  else
    let exact := map (fun b => share_of (bk_bytes b) total) buckets in
    let whole := map f64_floor_u32 exact in
    let assigned := foldr Z.add 0%Z whole in
    let leftover := Z.max (100 - assigned) 0 in
    hand_back leftover (sort_by (by_remainder exact) (seq 0 (length buckets))) whole.

(** ** The bar *)

(** The width of a segment at [x], with [remaining] still to come. *)
Definition segment_width (x remaining : Z) (share : spec_float) : Z :=
  if (remaining =? 0)%Z then Z.max (BAR_W - x) MIN_SEG_W
  else
    let scaled := f64_round_i32 (SFmul 53 1024 (SFdiv 53 1024 share (f64_of 100)) (f64_of BAR_W)) in
    let headroom := Z.max (BAR_W - x - remaining * MIN_SEG_W) MIN_SEG_W in
    Z.max MIN_SEG_W (Z.min headroom scaled).

Section Rolls.
Context `{CM : CaseMap}.

(** The loop over the buckets, from the [index]-th at [x]. *)
Fixpoint segments_from (total : N) (percentages : list Z) (index : nat) (x : Z) (buckets : list Bucket) : list (Segment * CompositionRow) :=
  match buckets with
  | [] => []
  | b :: buckets =>
      let accent := nth (index mod length ACCENTS) ACCENTS [] in
      let percent := nth index percentages 0%Z in
      let share := if (0 <? total)%N then share_of (bk_bytes b) total else f64_of 0 in
      let printed := if (percent =? 0)%Z then bs "<1%" else i_to_string percent ++ bs "%" in
      let w := segment_width x (i32_of_len (length buckets)) share in
      let display := title_case (bk_label b) in
      (mkSegment x w BAR_H accent (display ++ bs " — " ++ human_size (bk_bytes b) ++ bs " (" ++ printed ++ bs ")"),
       mkRow display accent (bk_count b) (human_size (bk_bytes b)) printed) ::
      segments_from total percentages (S index) (x + w) buckets
  end.

Definition breakdown (title hint : bytes) (items : list SharedItem) (label_of : SharedItem -> bytes) : Breakdown :=
  let buckets := sort_by bucket_compare (bucketed items label_of) in
  let total_bytes := total_of (map bk_bytes buckets) in
  let drawn := segments_from total_bytes (whole_percentages buckets total_bytes) 0 0 buckets in
  mkBreakdown title hint (map fst drawn) (map snd drawn) BAR_W BAR_H.

Definition format_label (item : SharedItem) : bytes :=
  default (bs "unknown") (media ← it_media item; match scene_resolution media with Some r => Some r | None => scene_audio_format media end).

Definition compose (items : list SharedItem) : option Composition :=
  if negb (is_nonempty items) then None
  else
    Some (mkComposition (length items) (human_size (total_of (map it_size items)))
      [breakdown (bs "Format") (bs "What the files actually are") items format_label;
       breakdown (bs "State") (bs "Where each file is in the share cycle") items (fun item => as_str_name (it_state item));
       breakdown (bs "Source") (bs "Which app or directory found it") items (fun item => as_str_name (it_source item))]).

End Rolls.

(** ** Facts *)

Section Buckets.
Context (label_of : SharedItem -> bytes).

(** The items of a label, and the bucket they make. *)
Definition labelled (label : bytes) (items : list SharedItem) : list SharedItem := filter (fun item => label_of item = label) items.

Definition bucket_of (label : bytes) (items : list SharedItem) : Bucket :=
  mkBucket label (length (labelled label items)) (total_of (map it_size (labelled label items))).

Lemma labelled_snoc label items item : labelled label (items ++ [item]) = labelled label items ++ (if bool_decide (label_of item = label) then [item] else []).
Proof. unfold labelled. rewrite filter_app, filter_cons, filter_nil. by case_decide; case_bool_decide. Qed.

Lemma bucket_of_other label items item : label_of item <> label -> bucket_of label (items ++ [item]) = bucket_of label items.
Proof. intros H. unfold bucket_of. by rewrite labelled_snoc, bool_decide_false, app_nil_r. Qed.

Lemma Forall_elem {A : Type} (P : A -> Prop) l : Forall P l -> Forall (fun x => x ∈ l /\ P x) l.
Proof. intros H. apply Forall_forall. intros x Hx. split; [done|]. by apply (proj1 (Forall_forall P l) H). Qed.

(** Filing one more item: its own bucket grows, the others stay. *)
Lemma add_to_spec items item buckets :
  Forall (fun b => b = bucket_of (bk_label b) items) buckets -> NoDup (map bk_label buckets) -> (it_size item < 2 ^ 64)%N ->
  (label_of item ∉ map bk_label buckets -> labelled (label_of item) items = []) ->
  Forall (fun b => b = bucket_of (bk_label b) (items ++ [item])) (add_to (label_of item) (it_size item) buckets) /\
  map bk_label (add_to (label_of item) (it_size item) buckets) =
    map bk_label buckets ++ (if bool_decide (label_of item ∈ map bk_label buckets) then [] else [label_of item]).
Proof.
  intros Hall Hnd Hsize Hfresh. induction buckets as [|b buckets IH]; cbn [add_to map].
  - rewrite bool_decide_false by apply not_elem_of_nil. split; [|done]. apply Forall_singleton. unfold bucket_of. cbn [bk_label].
    rewrite labelled_snoc, bool_decide_true, Hfresh by (done || apply not_elem_of_nil). cbn. unfold u64_add. by rewrite N.mod_small.
  - apply Forall_cons in Hall as [Hb Hall]. apply NoDup_cons in Hnd as [Hb' Hnd]. destruct (bool_decide_reflect (bk_label b = label_of item)) as [E|E].
    + rewrite bool_decide_true by (rewrite <- E; left). rewrite app_nil_r. split; [|done]. constructor.
      * rewrite Hb. unfold bucket_of. cbn [bk_label bk_count bk_bytes]. rewrite labelled_snoc, bool_decide_true by done. rewrite length_app, map_app. unfold total_of. by rewrite fold_left_app.
      * eapply Forall_impl; [apply Forall_elem, Hall|]. intros c [Hc Hb2]. rewrite bucket_of_other; [done|].
        rewrite <- E. intros Heq. apply Hb'. rewrite Heq. apply list_elem_of_fmap. eauto.
    + destruct IH as [IH1 IH2]; [done..| |].
      { intros H. apply Hfresh. intros [?|?]%elem_of_cons; [by apply E|done]. }
      split.
      * constructor; [|done]. rewrite bucket_of_other; [done|]. intros Heq. by apply E.
      * cbn [map]. rewrite IH2. cbn [app]. do 2 f_equal. case_bool_decide as E2; case_bool_decide as E3; [done| | |done].
        { destruct E3. by right. } { apply elem_of_cons in E3 as [E3|E3]; [by destruct E|done]. }
Qed.

Lemma bucketed_spec items :
  Forall (fun item => it_size item < 2 ^ 64)%N items ->
  Forall (fun b => b = bucket_of (bk_label b) items) (bucketed items label_of) /\ NoDup (map bk_label (bucketed items label_of)) /\
  forall label, label ∈ map bk_label (bucketed items label_of) <-> exists item, item ∈ items /\ label_of item = label.
Proof.
  induction items as [|item items IH] using rev_ind; intros Hs.
  { split_and!; [constructor|constructor|]. intros label. split; [by intros H%elem_of_nil|]. by intros (i & Hi%elem_of_nil & _). }
  apply Forall_app in Hs as [Hs Hi]. rewrite Forall_singleton in Hi. destruct (IH Hs) as (H1 & H2 & H3). unfold bucketed. rewrite fold_left_app. cbn [fold_left]. fold (bucketed items label_of).
  destruct (add_to_spec items item (bucketed items label_of) H1 H2 Hi) as [A1 A2].
  { intros Hn. apply elem_of_nil_inv. intros i Hin. apply list_elem_of_filter in Hin as [Hl Hin]. apply Hn, H3. eauto. }
  split_and!; [done| |].
  - rewrite A2. case_bool_decide; [by rewrite app_nil_r|]. apply NoDup_app. split_and!; [done| |apply NoDup_singleton]. intros l Hl ->%list_elem_of_singleton. done.
  - intros label. rewrite A2, elem_of_app, H3. split.
    + intros [(i & Hi' & <-)|Hl]; [exists i; split; [apply elem_of_app; by left|done]|]. exists item. split; [apply elem_of_app; right; by apply list_elem_of_singleton|].
      case_bool_decide; [by apply elem_of_nil in Hl|]. by apply list_elem_of_singleton in Hl.
    + intros (i & [Hin| ->%list_elem_of_singleton]%elem_of_app & <-); [left; eauto|]. case_bool_decide as Hin; [left; by apply H3|]. right. by apply list_elem_of_singleton.
Qed.

End Buckets.

(** *** The bar *)

(** Segments laid end to end from [x] to the end of the bar. *)
Fixpoint tiles (x : Z) (segments : list Segment) : Prop :=
  match segments with
  | [] => x = BAR_W
  | s :: segments => sg_x s = x /\ (MIN_SEG_W <= sg_w s)%Z /\ tiles (x + sg_w s) segments
  end.

Lemma segment_width_fits x remaining share :
  (0 < remaining)%Z -> (x + (remaining + 1) * MIN_SEG_W <= BAR_W)%Z ->
  (MIN_SEG_W <= segment_width x remaining share /\ x + segment_width x remaining share + remaining * MIN_SEG_W <= BAR_W)%Z.
Proof.
  intros Hr Hx. unfold segment_width. rewrite (proj2 (Z.eqb_neq remaining 0)) by lia. generalize (f64_round_i32 (SFmul 53 1024 (SFdiv 53 1024 share (f64_of 100)) (f64_of BAR_W))).
  intros scaled. unfold MIN_SEG_W, BAR_W in *. lia.
Qed.

Lemma segments_tile `{CM : CaseMap} total percentages buckets index x :
  buckets <> [] -> (x + Z.of_nat (length buckets) * MIN_SEG_W <= BAR_W)%Z -> (0 <= x)%Z -> tiles x (map fst (segments_from total percentages index x buckets)).
Proof.
  revert index x. induction buckets as [|b buckets IH]; intros index x Hne Hx H0; [done|]. cbn [segments_from map fst tiles sg_x sg_w]. cbn [length] in Hx. rewrite Nat2Z.inj_succ in Hx.
  generalize (if (0 <? total)%N then share_of (bk_bytes b) total else f64_of 0). intros share.
  assert (i32_of_len (length buckets) = Z.of_nat (length buckets)) as -> by (unfold i32_of_len, i32_max, BAR_W, MIN_SEG_W in *; lia).
  destruct buckets as [|b' buckets].
  - cbn [length segments_from map tiles Z.of_nat] in *. unfold segment_width, MIN_SEG_W, BAR_W in *. rewrite Z.eqb_refl. split_and!; [done|lia..].
  - pose proof (segment_width_fits x (Z.of_nat (length (b' :: buckets))) share ltac:(cbn; lia) ltac:(lia)) as [H1 H2]. split_and!; [done..|].
    apply IH; [done|lia|unfold MIN_SEG_W in *; lia].
Qed.

Lemma tiles_nth x segments i s :
  tiles x segments -> segments !! i = Some s ->
  (x <= sg_x s)%Z /\ (MIN_SEG_W <= sg_w s)%Z /\ (sg_x s + sg_w s <= BAR_W)%Z /\
  (sg_x s + sg_w s)%Z = match segments !! S i with Some next => sg_x next | None => BAR_W end.
Proof.
  assert (forall x segments, tiles x segments -> (x <= BAR_W)%Z /\ match segments with s :: _ => sg_x s = x | [] => BAR_W = x end) as Hx.
  { intros x' segs. revert x'. induction segs as [|s' segs IH]; intros x'; cbn; [lia|]. intros (Hs & Hw & Ht). destruct (IH _ Ht). unfold MIN_SEG_W in *. split; [lia|done]. }
  revert x i. induction segments as [|s0 segments IH]; intros x i; [done|]. intros (Hs & Hw & Ht). destruct (Hx _ _ Ht) as [Hle Hnext]. destruct i as [|i].
  - intros [= <-]. cbn. split_and!; [lia|done|lia|]. destruct segments as [|s1 segments]; cbn in *; lia.
  - intros Hi. destruct (IH _ i Ht Hi) as (H1 & H2 & H3 & H4). unfold MIN_SEG_W in *. split_and!; [lia..|done].
Qed.

(** *** The shares *)

Definition sumZ (l : list Z) : Z := foldr Z.add 0%Z l.

Lemma sumZ_insert l i v : (i < length l)%nat -> sumZ (<[i := v]> l) = (sumZ l - nth i l 0 + v)%Z.
Proof.
  revert i. induction l as [|a l IH]; intros i Hi; [cbn in Hi; lia|]. destruct i as [|i]; cbn; [lia|]. cbn in Hi. unfold sumZ in IH. rewrite IH by lia. lia.
Qed.

Lemma hand_back_sum leftover order whole :
  (0 <= leftover)%Z -> Forall (fun i => i < length whole)%nat order ->
  sumZ (hand_back leftover order whole) = (sumZ whole + Z.min leftover (Z.of_nat (length order)))%Z /\ length (hand_back leftover order whole) = length whole.
Proof.
  revert leftover whole. induction order as [|i order IH]; intros leftover whole Hl Hall; cbn [hand_back length]; [split; [lia|done]|].
  apply Forall_cons in Hall as [Hi Hall]. destruct (Z.eqb_spec leftover 0) as [->|Hne]; [split; [lia|done]|].
  destruct (IH (leftover - 1)%Z (<[i := (nth i whole 0 + 1)%Z]> whole)) as [H1 H2]; [lia|by rewrite length_insert|].
  rewrite H1, H2, length_insert, sumZ_insert by done. split; [lia|done].
Qed.

Lemma percentages_sum buckets total :
  (total <> 0)%N ->
  let assigned := sumZ (map (fun b => f64_floor_u32 (share_of (bk_bytes b) total)) buckets) in
  sumZ (whole_percentages buckets total) = (assigned + Z.min (Z.max (100 - assigned) 0) (Z.of_nat (length buckets)))%Z /\
  length (whole_percentages buckets total) = length buckets.
Proof.
  intros Ht. cbv zeta. unfold whole_percentages. rewrite (proj2 (N.eqb_neq total 0)) by done. rewrite map_map. fold (sumZ (map (fun b => f64_floor_u32 (share_of (bk_bytes b) total)) buckets)).
  set (whole := map (fun b => f64_floor_u32 _) buckets). set (order := sort_by _ _).
  assert (order ≡ₚ seq 0 (length buckets)) as Hp by apply sort_by_perm.
  destruct (hand_back_sum (Z.max (100 - sumZ whole) 0) order whole) as [H1 H2]; [lia| |].
  - apply Forall_forall. intros i Hi. rewrite Hp in Hi. apply elem_of_seq in Hi. unfold whole. rewrite length_map. lia.
  - rewrite H1, H2. unfold whole. rewrite length_map. split; [|done]. do 2 f_equal. by rewrite Hp, length_seq.
Qed.

(** *** The order *)

Lemma bucket_compare_flip a b : bucket_compare a b = CompOpp (bucket_compare b a).
Proof.
  unfold bucket_compare. rewrite (bytes_compare_antisym (bk_label a)), (N.compare_antisym (bk_bytes a) (bk_bytes b)).
  by destruct (is_unknown (bk_label a)), (is_unknown (bk_label b)), (N.compare (bk_bytes a) (bk_bytes b)), (bytes_compare (bk_label a) (bk_label b)).
Qed.

(** Nothing comes after what is unknown. *)
Lemma unknown_last buckets : StronglySorted (fun a b => is_unknown (bk_label a) = true -> is_unknown (bk_label b) = true) (sort_by bucket_compare buckets).
Proof.
  apply Sorted_StronglySorted; [intros a b c; tauto|].
  assert (Sorted (cmp_le bucket_compare) (sort_by bucket_compare buckets)) as H.
  { apply sort_by_sorted. intros a b E. unfold cmp_le. rewrite bucket_compare_flip, E. done. }
  induction H as [|a l _ IH Ha]; [constructor|]. constructor; [done|]. destruct Ha as [|b l Hab]; constructor. intros Hu.
  unfold cmp_le, bucket_compare in Hab. rewrite Hu in Hab. by destruct (is_unknown (bk_label b)).
Qed.

(** ** What the panel promises *)

Lemma rows_of_buckets `{CM : CaseMap} total percentages index x buckets :
  map cr_count (map snd (segments_from total percentages index x buckets)) = map bk_count buckets /\
  map cr_size (map snd (segments_from total percentages index x buckets)) = map (fun b => human_size (bk_bytes b)) buckets.
Proof.
  revert index x. induction buckets as [|b buckets IH]; intros index x; [done|]. cbn [segments_from map snd cr_count cr_size].
  destruct (IH (S index) (x + segment_width x (i32_of_len (length buckets)) (if (0 <? total)%N then share_of (bk_bytes b) total else f64_of 0))%Z) as [-> ->]. done.
Qed.

(** A roll-up of the library is exact and its bar is whole.  For sizes of 64 bits and up
    to 320 labels, every label an item has is one row, whose count and size are those of
    the items with that label, and what is unknown comes last; and the segments lie
    end to end from the left of the bar to its right end, none thinner than two units. *)
Theorem roll_up_exact `{CM : CaseMap} (title hint : bytes) (items : list SharedItem) (label_of : SharedItem -> bytes) :
  Forall (fun item => it_size item < 2 ^ 64)%N items -> items <> [] -> (length (bucketed items label_of) <= 320)%nat ->
  let roll := breakdown title hint items label_of in
  exists buckets,
    NoDup (map bk_label buckets) /\ (forall label, label ∈ map bk_label buckets <-> exists item, item ∈ items /\ label_of item = label) /\
    StronglySorted (fun a b => is_unknown (bk_label a) = true -> is_unknown (bk_label b) = true) buckets /\
    map cr_count (bd_rows roll) = map (fun b => length (labelled label_of (bk_label b) items)) buckets /\
    map cr_size (bd_rows roll) = map (fun b => human_size (total_of (map it_size (labelled label_of (bk_label b) items)))) buckets /\
    tiles 0 (bd_segments roll).
Proof.
  intros Hs Hne Hlen. cbv zeta. destruct (bucketed_spec label_of items Hs) as (H1 & H2 & H3). pose proof (sort_by_perm bucket_compare (bucketed items label_of)) as Hp.
  set (buckets := sort_by bucket_compare (bucketed items label_of)) in *. pose proof (Permutation_map bk_label Hp) as Hpl. rewrite <- Hp in H1, Hlen. rewrite <- Hpl in H2.
  destruct (rows_of_buckets (total_of (map bk_bytes buckets)) (whole_percentages buckets (total_of (map bk_bytes buckets))) 0 0 buckets) as [R1 R2].
  exists buckets. unfold breakdown. fold buckets. cbn [bd_rows bd_segments]. rewrite R1, R2. split_and!; [done| |apply unknown_last| | |].
  - intros label. rewrite Hpl. apply H3.
  - apply map_ext_Forall. eapply Forall_impl; [exact H1|]. intros b Hb. by rewrite Hb at 1.
  - apply map_ext_Forall. eapply Forall_impl; [exact H1|]. intros b Hb. by rewrite Hb at 1.
  - apply segments_tile; [|unfold MIN_SEG_W, BAR_W; lia|done]. intros E. destruct items as [|item items]; [done|].
    assert (label_of item ∈ map bk_label buckets) as Hin by (rewrite Hpl; apply H3; exists item; split; [left|done]). rewrite E in Hin. by apply elem_of_nil in Hin.
Qed.

(** The printed shares add up to a hundred whenever flooring them loses less than a point
    for each row, and no share is dropped. *)
Theorem shares_add_up (buckets : list Bucket) (total : N) :
  let assigned := sumZ (map (fun b => f64_floor_u32 (share_of (bk_bytes b) total)) buckets) in
  (total <> 0)%N -> (100 - Z.of_nat (length buckets) <= assigned <= 100)%Z ->
  sumZ (whole_percentages buckets total) = 100%Z /\ length (whole_percentages buckets total) = length buckets.
Proof. cbv zeta. intros Ht Ha. destruct (percentages_sum buckets total Ht) as [-> ->]. split; [lia|done]. Qed.

(** *** Witnesses *)

Definition sized_item (id : Z) (state : ShareState) (size : N) : SharedItem :=
  mkItem None Radarr id id (Movie (bs "A Film") None) (bs "A.Film") (bs "/m/f.mkv") size (mkIds None None None None None None None None) None None true state None None None None None false.

Definition sized_library : list SharedItem := [sized_item 1 Seeding 5000; sized_item 2 Seeding 3000; sized_item 3 Failed 1].

Lemma roll_up_exact_witness :
  let roll := @breakdown ascii_case [] [] sized_library (fun item => as_str_name (it_state item)) in
  map cr_count (bd_rows roll) = [2; 1] /\ map cr_share (bd_rows roll) = [bs "100%"; bs "<1%"] /\ map sg_w (bd_segments roll) = [638; 2]%Z /\ tiles 0 (bd_segments roll).
Proof.
  cbv zeta. split; [vm_compute; reflexivity|]. split; [vm_compute; reflexivity|]. split; [vm_compute; reflexivity|].
  destruct (@roll_up_exact ascii_case [] [] sized_library (fun item => as_str_name (it_state item))) as (buckets & _ & _ & _ & _ & _ & Ht).
  - repeat (apply Forall_cons; split; [vm_compute; reflexivity|]). constructor.
  - discriminate.
  - vm_compute. lia.
  - exact Ht.
Defined.

Lemma shares_add_up_witness :
  sumZ (whole_percentages [mkBucket [] 1 984; mkBucket [] 1 15; mkBucket [] 1 8] 1007) = 100%Z.
Proof. apply (shares_add_up [mkBucket [] 1 984; mkBucket [] 1 15; mkBucket [] 1 8] 1007); [discriminate|]. vm_compute. split; discriminate. Defined.

Example sizes_read : map human_size [1023; 1536; 734003200; 18446744073709551615]%N = [bs "1023 B"; bs "1.5 KiB"; bs "700.0 MiB"; bs "16777216.0 TiB"].
Proof. vm_compute. reflexivity. Qed.
