(* ===== verification/ItemsView.v ===== *)
(** * What the items page, an item's page and the status tiles show (web/items/mod.rs, web/mod.rs)

    The counts above the table, its rows and headers, everything an item's own page says,
    and the one-glance numbers of the status page, read from the store, the tracker's
    swarms and the vault.  The list itself, with its filters and its order, is that of
    [ItemsPage]. *)

From Stdlib Require Import SpecFloat.
From S2P Require Import Prelude RustStd Text BTreeMap Bencode Metainfo Net Model Paths Title FileTree Endpoint Effects Client TrackerUrl Announce Totp Accounts Database Items Peers History Sightings Library Factory Seeder Sync Vault Serve Gluetun TrackerRoutes Torznab Gossip Exchange Pairing Friends Beacon Alerts Metrics ItemsPage XmlRpc Rtorrent Json Arr Qbit Transmission Deluge Checks ConfigFile Doctor Diagnostics Topology Composition.

(** ** Numbers as text *)

(** [{:.2}] of an [f64]: the exact value to two decimals, ties to even. *)
Definition f64_fixed2 (x : spec_float) : bytes :=
  let shown (negative : bool) (hundredths : N) :=
    (if negative then bs "-" else []) ++ u_to_string (hundredths / 100) ++ bs "." ++ u_to_string (hundredths mod 100 / 10) ++ u_to_string (hundredths mod 10) in
  match x with
  | S754_zero s => shown s 0%N
  | S754_infinity s => if s then bs "-inf" else bs "inf"
  | S754_nan => bs "NaN"
  | S754_finite s m e => shown s (if (0 <=? e)%Z then Npos m * 100 * 2 ^ Z.to_N e else Model.round_half_even (Npos m * 100) (2 ^ Z.to_N (- e)))%N
  end.

Definition f64_is_infinite (x : spec_float) : bool := match x with S754_infinity _ => true | _ => false end.

(** [peers::bytes_or_empty]. *)
Definition bytes_or_empty (size : Z) : bytes := if (0 <? size)%Z then human_size (Z.to_N size) else [].

(** ** What is said of an item *)

Record SwarmCount : Type := mkSwarmCount { sc_complete : nat; sc_incomplete : nat }.

Record ItemFacts : Type := mkFacts {
  if_title : bytes;
  if_release_title : bytes;
  if_kind : bytes;
  if_source_label : bytes;
  if_size : bytes;
  if_state_label : bytes;
  if_state_hint : option bytes;
  if_ratio : bytes;
  if_ratio_hint : bytes;
  if_visible_to : bytes;
  if_since : bytes;
  if_info_hash : option bytes;
  if_source_hint : bytes;
  if_announce_url : option bytes;
  if_token_fp : option bytes;
  if_token_status : TokenStatus;
  if_ids : bytes;
  if_last_error : option bytes;
  if_created_by_sharerr : bool;
  if_since_absolute : bytes;
  if_source : bytes;
  if_file_id : Z
}.

Record ShownRow : Type := mkShownRow { ir_facts : ItemFacts; ir_arr_path : bytes; ir_info_hash_short : option bytes; ir_peers : bytes; ir_peers_hint : bytes }.

Definition state_hint (state : ShareState) : option bytes :=
  match state with
  | Pending => Some (bs "recorded but not finished — sharerr likely restarted mid-share; the next sync retries it")
  | Unshared => Some (bs "not a fault — the tag was removed upstream, so the share was withdrawn")
  | Seeding | Failed => None
  end.

Definition peers_cell (swarm : option SwarmCount) : bytes * bytes :=
  match swarm with
  | Some (mkSwarmCount complete incomplete) =>
      (nat_text complete ++ bs "↑ " ++ nat_text incomplete ++ bs "↓", nat_text complete ++ bs " seeding · " ++ nat_text incomplete ++ bs " downloading")
  | None => ([], [])
  end.

Definition ratio_cell (item : SharedItem) : bytes * bytes :=
  match it_achieved_ratio item with
  | None => ([], [])
  | Some ratio =>
      (if f64_is_infinite (f64_of_bits ratio) then bs "∞" else f64_fixed2 (f64_of_bits ratio),
       match it_ratio_limit_reported item with
       | Some limit => bs "Per-torrent limit the client is enforcing: " ++ f64_fixed2 (f64_of_bits limit)
       | None => bs "The client is not holding this torrent to a fixed per-torrent limit — its own global default, unlimited, or (on some backends) not something it can report"
       end)
  end.

Definition ids_summary (ids : ExternalIds) : bytes :=
  let shown name (value : option bytes) := match value with Some v => [bs name ++ bs " " ++ v] | None => [] end in
  join (bs " · ")
    (shown "tvdb" (i_to_string <$> tvdb ids) ++ shown "tmdb" (i_to_string <$> tmdb ids) ++ shown "tvmaze" (i_to_string <$> tvmaze ids) ++ shown "imdb" (imdb ids) ++
     shown "musicbrainz" (musicbrainz ids) ++ shown "goodreads" (goodreads ids) ++ shown "hardcover" (hardcover ids) ++ shown "isbn" (isbn ids)).

(** [hash.get(..12).unwrap_or(hash)]. *)
Definition short_hash (hash : bytes) : bytes := match str_get_to 12 hash with Some short => short | None => hash end.

(** [TokenStatus::label] and [TokenStatus::css_class]. *)
Definition token_label (s : TokenStatus) : bytes :=
  match s with TokenNone => bs "no token" | TokenValid => bs "valid" | TokenRotating => bs "rotating" | TokenStale => bs "changed" end.
Definition token_css_class (s : TokenStatus) : bytes :=
  match s with
  | TokenNone => bs "field-status--unset"
  | TokenValid => bs "field-status--set"
  | TokenRotating => bs "field-status--warn"
  | TokenStale => bs "field-status--stale"
  end.

(** What every item of a page is shown against. *)
Record ItemContext : Type := mkContext { ix_active : list Peer; ix_current_fp : option bytes; ix_previous_fp : option bytes; ix_announce_url : option bytes }.

Section Facts.
Context `{CM : CaseMap} `{CT : CivilTime} (now : Z).

Definition source_hint (item : SharedItem) : bytes :=
  title_case (as_str_name (it_source item)) ++ bs " " ++
  match it_spec item with Model.Episode _ _ _ => bs "series" | Model.Movie _ _ => bs "movie" | Model.Track _ _ _ => bs "artist" | Model.Book _ _ => bs "author" end ++
  bs " " ++ i_to_string (it_source_id item) ++ bs ", file " ++ i_to_string (it_file_id item).

Definition facts (item : SharedItem) (context : ItemContext) (audience : option (list bytes)) : ItemFacts :=
  let '(ratio, ratio_hint) := ratio_cell item in
  mkFacts (spec_title (it_spec item)) (it_release_title item) (kind_tag (it_spec item)) (title_case (as_str_name (it_source item))) (human_size (it_size item))
    (title_case (as_str_name (it_state item))) (state_hint (it_state item)) ratio ratio_hint (visible_to item (ix_active context) audience)
    (match it_created_at item with Some at_ => Friends.ago now at_ | None => [] end) (it_info_hash item) (source_hint item)
    (match it_info_hash item with Some _ => ix_announce_url context | None => None end) (it_announce_token_fp item)
    (token_status item (ix_current_fp context) (ix_previous_fp context)) (ids_summary (it_ids item)) (it_last_error item) (it_created_by_sharerr item)
    (match it_created_at item with Some at_ => absolute at_ | None => [] end) (as_str_name (it_source item)) (it_file_id item).

(** [row]. *)
Definition shown_row (item : SharedItem) (context : ItemContext) (audiences : ItemKey -> option (list bytes)) (swarm : option SwarmCount) : ShownRow :=
  let '(peers, peers_hint) := peers_cell swarm in
  mkShownRow (facts item context (audiences (item_key item))) (to_string_lossy (it_arr_path item)) (short_hash <$> it_info_hash item) peers peers_hint.

End Facts.

(** ** The page *)

Record StateCount : Type := mkStateCount { stc_label : bytes; stc_count : nat }.
Record SortLink : Type := mkSortLink { sl_label : bytes; sl_hint : bytes; sl_href : bytes; sl_active : bool; sl_dir : bytes }.
Record SelectOption : Type := mkOption { op_value : bytes; op_label : bytes }.

(** [SelectOption::named]. *)
Definition named `{CM : CaseMap} (value : bytes) : SelectOption := mkOption value (title_case value).

Record ShownPage : Type := mkShownPage {
  ip_error : option bytes;
  ip_ok : option bytes;
  ip_filters : FilterState;
  ip_items : list ShownRow;
  ip_total : nat;
  ip_shown : nat;
  ip_state_counts : list StateCount;
  ip_seeding_size : bytes;
  ip_shown_size : bytes;
  ip_source_options : list SelectOption;
  ip_state_options : list SelectOption;
  ip_kind_options : list SelectOption;
  ip_sort_links : list SortLink;
  ip_composition : option Composition
}.

Definition SORT_COLUMNS : list (bytes * bytes) :=
  [(bs "since", bs "Since"); (bs "title", bs "Title"); (bs "source", bs "Source"); (bs "size", bs "Size"); (bs "state", bs "State")].

Definition column_hint (field : bytes) : bytes :=
  if bool_decide (field = bs "since") then bs "When sharerr first discovered the file"
  else if bool_decide (field = bs "title") then bs "The title as the *arr knows it; the release name underneath is what the feed advertises"
  else if bool_decide (field = bs "source") then bs "Which *arr app or library directory the file came from"
  else if bool_decide (field = bs "size") then bs "Size of the file on disk"
  else if bool_decide (field = bs "state") then
    bs "Pending: waiting for a sync. Seeding: a torrent exists and the client holds it. Failed: the last attempt to share it did not work"
  else [].

(** A column's link: the direction it would sort in next. *)
Definition sort_link (filter_query sort : bytes) (desc : bool) (column : bytes * bytes) : SortLink :=
  let '(field, label) := column in
  let active := bool_decide (field = sort) in
  let next_dir := if active && negb desc then bs "desc" else if active && desc then bs "asc" else if bool_decide (field = bs "since") then bs "desc" else bs "asc" in
  mkSortLink label (column_hint field) (bs "?" ++ filter_query ++ bs "&sort=" ++ field ++ bs "&dir=" ++ next_dir) active
    (if active then if desc then bs "desc" else bs "asc" else []).

(** [non_empty]. *)
Definition non_empty (value : bytes) : option bytes := let value := trim value in if is_nonempty value then Some value else None.

(** One state's count, when something is in it. *)
Definition state_count `{CM : CaseMap} (items : list SharedItem) (state : ShareState) : option StateCount :=
  let count := length (filter (fun item => it_state item = state) items) in
  if 0 <? count then Some (mkStateCount (title_case (as_str_name state)) count) else None.

Section Page.
Context `{U : UrlLib} `{UP : !UrlParts U} `{D : Digests} `{DC : Decoders} `{I : HashIter} `{C : VaultCipher} `{KF : KeyFiles} `{ME : MasterEnv} `{RO : RowOrder}.
Context `{CM : CaseMap} `{CT : CivilTime} `{UD : UnicodeData} `{FT : FeedText} `{STX : StoreText} (now instant : Z).

Definition token_fingerprints : ServeM (option bytes * option bytes) :=
  let! tokens := tracker_tokens in
  let '(current, previous) := match tokens with Ok tokens => tokens | Err _ => (None, None) end in
  sret (fingerprint <$> current, fingerprint <$> previous).

(** [current_announce_url]: where the token would stand there is a placeholder. *)
Definition current_announce_url (endpoint : AdvertisedEndpoint) (has_token : bool) : option bytes :=
  base ← current endpoint;
  url ← res_ok (announce_url base None);
  Some (if has_token then url_as_str url ++ bs "/<token>" else url_as_str url).

(** [ItemContext::gather]. *)
Definition gather_context : ServeM ItemContext :=
  let! active := on_store active_peers in
  let! tokens := token_fingerprints in
  let '(current_fp, previous_fp) := tokens in
  let! endpoint := sgets sv_endpoint in
  sret (mkContext (ok_or_default [] active) current_fp previous_fp (current_announce_url endpoint (bool_decide (is_Some current_fp)))).

(** The live counts of a torrent, by its hash in lower case. *)
Definition swarm_of (swarms : Swarms) (item : SharedItem) : option SwarmCount :=
  hash ← it_info_hash item;
  found ← List.find (fun entry => bool_decide (hex_encode entry.1 = str_to_lowercase hash)) (hm_iter (counts instant swarms));
  Some (mkSwarmCount found.2.1 found.2.2).

(** What [page] renders of what it read. *)
Definition shown_page (filters : FilterState) (ok : bytes) (error : option bytes) (items : list SharedItem) (context : ItemContext)
    (audiences : ItemKey -> option (list bytes)) (swarms : Swarms) : ShownPage :=
  let shown := listed_items filters items in
  let '(sort, desc) := sort_of filters in
  mkShownPage error (non_empty ok) filters (map (fun item => shown_row now item context audiences (swarm_of swarms item)) shown) (length items) (length shown)
    (omap (state_count items) ALL) (human_size (total_of (map it_size (filter (fun item => it_state item = Seeding) items)))) (human_size (total_of (map it_size shown)))
    (map (fun source : MediaSource => named (as_str_name source)) ALL) (map (fun state : ShareState => named (as_str_name state)) ALL) (map named KIND_TAGS)
    (map (sort_link (filter_query filters) sort desc) SORT_COLUMNS) (compose items).

(** [page], for a store that opened. *)
Definition items_page (filters : FilterState) (ok error : bytes) : ServeM ShownPage :=
  let! listed := on_store all_items in
  let '(items, error) := match listed with Ok items => (items, non_empty error) | Err err => ([], Some (bs "could not list items: " ++ store_error_text err)) end in
  let! context := gather_context in
  let! audiences := on_store audiences in
  let! swarms := sgets sv_swarms in
  sret (shown_page filters ok error items context (ok_or_default (fun _ => None) audiences) swarms).

End Page.

(** ** An item's own page *)

Record ItemDetail : Type := mkDetail {
  id_facts : ItemFacts;
  id_title_reads_as : option bytes;
  id_title_problems : list bytes;
  id_joined_from : option bytes;
  id_share_until : bytes;
  id_share_ended : bool;
  id_file_name : option bytes;
  id_media : option MediaMeta;
  id_arr_path : bytes;
  id_sharerr_path : bytes;
  id_qbit_path : bytes;
  id_mapping_applied : bool;
  id_path_exists : option bool;
  id_swarm : option SwarmRow;
  id_can_retry : bool;
  id_can_rebuild : bool;
  id_can_unshare : bool;
  id_message : option bytes;
  id_message_failed : bool
}.

(** [TitleProblem::describe]. *)
Definition problem_text (p : TitleProblem) : bytes :=
  match p with
  | NoEpisodeNumber => bs "No SxxEyy episode number: Sonarr cannot tell which episode this is and ignores the release."
  | NoYear => bs "No release year: Radarr can match on the title alone, but a remake or another film of the same name can take the match."
  | Mismatch => bs "It parses as something other than this item, so a search for this item will not return it."
  | NoQuality => bs "No resolution or source: the far end grades it Unknown, which most quality profiles reject."
  end.

(** What the page says of the paths: as the application sees it, as sharerr does, as the
    client does, whether a rule matched, and whether the file is there. *)
Definition shown_paths (maps : list PathMapping) (path_exists : bytes -> bool) (item : SharedItem) : bytes * bytes * bytes * bool * option bool :=
  match resolve_for maps (it_source item) (it_arr_path item) with
  | Ok paths => (to_string_lossy (rp_arr paths), to_string_lossy (rp_sharerr paths), to_string_lossy (rp_qbit paths), rp_mapping_applied paths, Some (path_exists (rp_sharerr paths)))
  | Err _ => (to_string_lossy (it_arr_path item), [], [], false, None)
  end.

Section Detail.
Context `{U : UrlLib} `{UP : !UrlParts U} `{D : Digests} `{DC : Decoders} `{I : HashIter} `{C : VaultCipher} `{KF : KeyFiles} `{ME : MasterEnv} `{RO : RowOrder}.
Context `{CM : CaseMap} `{CT : CivilTime} `{UD : UnicodeData} `{LT : LocalTime} (maps : list PathMapping) (path_exists : bytes -> bool) (now instant : Z).

Definition swarm_for (swarms : Swarms) (item : SharedItem) : option SwarmRow :=
  hash ← it_info_hash item;
  raw ← hex_decode hash;
  if length raw =? 20 then
    swarm ← Announce.snapshot instant raw swarms;
    let '(peers, more) := capped_peers (vw_peers swarm) in
    Some (mkSwarmRow (spec_title (it_spec item)) (vw_complete swarm) (vw_incomplete swarm) peers more)
  else None.

(** The name of the friend whose swarm an item joined. *)
Definition joined_from (key : ItemKey) : ServeM (option bytes) :=
  let! origin := on_store (item_origin key) in
  match origin with
  | Ok (Some (mkOrigin (Some peer_id) _)) =>
      let! peer := on_store (peer_by_id peer_id) in
      sret (match peer with Ok (Some peer) => Some (p_label peer) | _ => None end)
  | _ => sret None
  end.

(** [build_detail]. *)
Definition build_detail (item : SharedItem) (ok error : option bytes) : ServeM ItemDetail :=
  let key := item_key item in
  let! context := gather_context in
  let '(arr_path, sharerr_path, qbit_path, mapping_applied, exists_) := shown_paths maps path_exists item in
  let! swarms := sgets sv_swarms in
  let checked := check (it_release_title item) (it_spec item) in
  let! until := on_store (share_end key) in
  let until := ok_or_default None until in
  let! audience := on_store (audience key) in
  let audience := ok_or_default None audience in
  let! joined := joined_from key in
  sret (mkDetail (facts now item context audience) (summary ∘ tc_parsed <$> checked) (match checked with Some c => map problem_text (tc_problems c) | None => [] end)
          joined (match until with Some until => date_of until | None => [] end) (match until with Some until => (until <=? now)%Z | None => false end)
          (to_string_lossy <$> file_name (it_arr_path item)) (it_media item) arr_path sharerr_path qbit_path mapping_applied exists_ (swarm_for swarms item)
          (bool_decide (it_state item = Failed)) (bool_decide (is_Some (it_info_hash item))) (negb (bool_decide (it_state item = Unshared)))
          (match ok with Some ok => Some ok | None => error end) (bool_decide (is_Some error))).

(** [detail]: the item's page, or why there is none. *)
Definition detail (key : ItemKey) (ok error : option bytes) : ServeM (result ItemDetail ItemAnswer) :=
  let! opened := store in
  match opened with
  | Err reason => sret (Err (StoreUnavailable reason))
  | Ok _ =>
      let! found := on_store (get_item key) in
      match found with
      | Ok (Some item) => let! page := build_detail item ok error in sret (Ok page)
      | Ok None => sret (Err NoSuchItem)
      | Err e => sret (Err (NotLoaded e))
      end
  end.

End Detail.

(** ** The machine (system_stats.rs) *)

(** A mounted filesystem: where, how large, how much is free. *)
Record Disk : Type := mkDisk { dk_mount : bytes; dk_total : N; dk_available : N }.

Definition disk_covering (disks : list Disk) (path : bytes) : option Disk :=
  max_by_key (fun d => length (dk_mount d)) (filter (fun d => path_starts_with path (dk_mount d) = true) disks).

(** [sample], for what the machine reports. *)
Definition system_sample (cpu_percent memory_used memory_total : N) (disk : option Disk) : SystemSnapshot :=
  mkSystem cpu_percent memory_used memory_total ((fun d => ((dk_total d - dk_available d)%N, dk_total d)) <$> disk).

(** [{:.1}] of an [f32], given by its bits: the exact value to one decimal, ties to even. *)
Definition f32_fixed1 (bits : N) : bytes :=
  let exponent := ((bits / 2 ^ 23) mod 256)%N in
  let mantissa := (bits mod 2 ^ 23)%N in
  let sign := if (2 ^ 31 <=? bits)%N then bs "-" else [] in
  if (exponent =? 255)%N then (if (mantissa =? 0)%N then sign ++ bs "inf" else bs "NaN")
  else
    let m := if (exponent =? 0)%N then mantissa else (2 ^ 23 + mantissa)%N in
    let e := (Z.of_N (N.max exponent 1) - 150)%Z in
    let tenths := if (0 <=? e)%Z then (m * 10 * 2 ^ Z.to_N e)%N else Model.round_half_even (m * 10) (2 ^ Z.to_N (- e)) in
    sign ++ u_to_string (tenths / 10) ++ bs "." ++ u_to_string (tenths mod 10).

(** [system_stats::format]. *)
Definition format_system (s : SystemSnapshot) : bytes * bytes * option bytes :=
  let of_ used total := human_size used ++ bs " of " ++ human_size total in
  (f32_fixed1 (sys_cpu_percent s) ++ bs "%", of_ (sys_memory_used s) (sys_memory_total s), (fun ut : N * N => of_ ut.1 ut.2) <$> sys_disk s).

(** ** At a glance *)

Record Glance : Type := mkGlance {
  gl_items_shared : Z;
  gl_shared_size : bytes;
  gl_last_sync : option bytes;
  gl_last_sync_note : bytes;
  gl_last_sync_failed : bool;
  gl_friends_recent : nat;
  gl_friends_total : nat;
  gl_swarm_peers : nat;
  gl_swarm_seeders : nat;
  gl_swarm_torrents : nat;
  gl_swarm_quiet_since : option bytes;
  gl_bytes_served : bytes;
  gl_next_sync : bytes;
  gl_cpu_percent : option bytes;
  gl_memory_usage : option bytes;
  gl_disk_usage : option bytes
}.

(** [Config::sync_every]. *)
Definition sync_every (c : SyncConfig) : option N := if sy_enabled c then Some (sy_interval_secs c) else None.

(** How long until the next pass, in words. *)
Definition due_text (due_in : Z) : bytes :=
  if (due_in <=? 0)%Z then bs "due now"
  else if (due_in <? 90)%Z then bs "in under 2 min"
  else if (due_in <? 3600)%Z then bs "in ~" ++ i_to_string (Z.quot due_in 60) ++ bs " min"
  else bs "in ~" ++ i_to_string (Z.quot due_in 3600) ++ bs " h".

(** Arithmetic on [i64], which wraps around in a release build. *)
Definition i64_wrap (z : Z) : Z := ((z - i64_min) mod 2 ^ 64 + i64_min)%Z.

Section Glance.
Context `{U : UrlLib} `{D : Digests} `{I : HashIter} `{RO : RowOrder} (now instant : Z) (pollers : Pollers).

(** The wording of the next pass, from the interval and the last finish. *)
Definition next_sync (every : option N) (finished : option Z) : ServeM bytes :=
  match every, finished with
  | Some every, Some finished =>
      let! delay := sync_retry_delay (Z.of_N every * SEC) in
      sret (due_text (i64_wrap (i64_wrap (finished + as_i64 (Z.to_N (delay / SEC))) - now)))
  | _, _ => sret []
  end.

Definition glance (every : option N) : ServeM (option Glance) :=
  let! opened := store in
  match opened with
  | Err _ => sret None
  | Ok _ =>
      let! snapshot := Metrics.gather now instant pollers in
      let '(last_sync, note, failed) :=
        match ms_last_run snapshot with
        | Some run => let '(note, failed) := describe_run (run_summary run) false in (Friends.ago now <$> run_finished_at run, note, failed)
        | None => (None, [], false)
        end in
      let! due := next_sync every (ms_last_run snapshot ≫= run_finished_at) in
      let swarm := ms_swarm snapshot in
      let! quiet := (if st_peers swarm =? 0 then let! at_ := on_store last_active_swarm_sample_at in sret (Friends.ago now <$> ok_or_default None at_) else sret None) in
      let '(cpu, memory, disk) :=
        match ms_system snapshot with
        | Some sample => let '(cpu, memory, disk) := format_system sample in (Some cpu, Some memory, disk)
        | None => (None, None, None)
        end in
      sret (Some (mkGlance (ms_seeding_count snapshot) (bytes_or_empty (ms_seeding_bytes snapshot)) last_sync note failed (ms_peers_recent snapshot) (ms_peers_total snapshot)
                    (st_peers swarm) (st_seeders swarm) (st_swarms swarm) quiet (bytes_or_empty (tt_downloaded (ms_transfer snapshot))) due cpu memory disk))
  end.

End Glance.

(** ** Headers and assets (web/mod.rs) *)

Definition CONTENT_SECURITY_POLICY : bytes :=
  bs "default-src 'self'; script-src 'self'; style-src 'self'; img-src 'self' data:; connect-src 'self'; object-src 'none'; base-uri 'none'; form-action 'self'; frame-ancestors 'none'".

Definition SECURITY_HEADERS : list (bytes * bytes) :=
  [(bs "content-security-policy", CONTENT_SECURITY_POLICY); (bs "x-frame-options", bs "DENY"); (bs "referrer-policy", bs "no-referrer"); (bs "x-content-type-options", bs "nosniff")].

(** [entry(name).or_insert(value)] for each; a header is looked up by its name in lower case. *)
Definition add_security_headers (headers : gmap bytes bytes) : gmap bytes bytes :=
  fold_left (fun headers h => match headers !! h.1 with Some _ => headers | None => <[h.1 := h.2]> headers end) SECURITY_HEADERS headers.

(** [security_headers], for what the handler answered. *)
Definition security_headers (enabled : bool) (headers : gmap bytes bytes) : gmap bytes bytes := if enabled then add_security_headers headers else headers.

(** The embedded files and how each is served. *)
Definition ASSETS : list (bytes * bytes) :=
  let js := bs "text/javascript; charset=utf-8" in
  [(bs "style.css", bs "text/css; charset=utf-8"); (bs "htmx.min.js", js); (bs "layout.js", js); (bs "theme.js", js); (bs "settings.js", js); (bs "topology.js", js);
   (bs "favicon.svg", bs "image/svg+xml")].

(** [asset]: which embedded file a path names, and its type; a 404 otherwise. *)
Definition asset (file : bytes) : option (bytes * bytes) := List.find (fun a => bool_decide (a.1 = file)) ASSETS.

(** ** Facts *)

(** Everything a page shows beside its filters was read without them. *)
Lemma items_page_reads `{U : UrlLib} `{UP : !UrlParts U} `{D : Digests} `{DC : Decoders} `{I : HashIter} `{C : VaultCipher} `{KF : KeyFiles} `{ME : MasterEnv} `{RO : RowOrder}
    `{CM : CaseMap} `{CT : CivilTime} `{UD : UnicodeData} `{FT : FeedText} `{STX : StoreText} (now instant : Z) (ok error : bytes) (s : Serve) :
  exists error' items context who swarms s', forall filters, items_page now instant filters ok error s = (shown_page now instant filters ok error' items context who swarms, s').
Proof.
  unfold items_page, sbind, sret, sgets. destruct (on_store all_items s) as [listed s1]. destruct listed as [items|err]; cbn [fst snd].
  all: destruct (gather_context s1) as [context s2]; destruct (on_store audiences s2) as [who s3]; eauto 10.
Qed.

(** The counts of the states add up to the library. *)
Lemma state_counts_sum `{CM : CaseMap} (items : list SharedItem) : sum_list (map stc_count (omap (state_count items) ALL)) = length items.
Proof.
  assert (forall state l, sum_list (map stc_count (omap (state_count items) (state :: l))) =
    length (filter (fun item => it_state item = state) items) + sum_list (map stc_count (omap (state_count items) l))) as Hstep.
  { intros state l. cbn [omap list_omap]. unfold state_count at 1. destruct (Nat.ltb_spec 0 (length (filter (fun item => it_state item = state) items))); [done|]. lia. }
  change (ALL : list ShareState) with [Pending; Seeding; Unshared; Failed]. rewrite !Hstep. clear Hstep. change (sum_list (map stc_count (omap (state_count items) []))) with 0.
  induction items as [|item items IH]; [done|]. rewrite !filter_cons. destruct (it_state item) eqn:E; repeat (case_decide; [|try congruence]); try congruence; cbn [length]; lia.
Qed.

(** A header set by the handler is left alone, and the four are there. *)
Lemma add_headers_fold (hs : list (bytes * bytes)) (headers : gmap bytes bytes) (name : bytes) :
  NoDup (map fst hs) ->
  fold_left (fun headers h => match headers !! h.1 with Some _ => headers | None => <[h.1 := h.2]> headers end) hs headers !! name =
  match headers !! name with Some value => Some value | None => snd <$> List.find (fun h => bool_decide (h.1 = name)) hs end.
Proof.
  revert headers. induction hs as [|[n v] hs IH]; intros headers Hnd; cbn [fold_left List.find fst snd map] in *; [by destruct (headers !! name)|].
  apply NoDup_cons in Hnd as [Hn Hnd]. rewrite IH by done. destruct (headers !! n) as [w|] eqn:En.
  - destruct (bool_decide_reflect (n = name)) as [<-|Hne]; [by rewrite En|done].
  - destruct (bool_decide_reflect (n = name)) as [<-|Hne]; [by rewrite lookup_insert_eq, En|by rewrite lookup_insert_ne].
Qed.

Lemma tokens_cached `{U : UrlLib} `{D : Digests} `{DC : Decoders} `{C : VaultCipher} `{KF : KeyFiles} `{ME : MasterEnv} `{RO : RowOrder} (s : Serve) current previous :
  vc_tracker_tokens (sv_caches s) = Some (Some (current, previous)) -> token_fingerprints s = ((fingerprint <$> current, fingerprint <$> previous), s).
Proof. intros H. unfold token_fingerprints, tracker_tokens, try_cached_from_vault, try_bind, sbind, sgets, sret. by rewrite H. Qed.

(** Reading the store does not look at what is cached of the vault. *)
Lemma on_store_caches `{U : UrlLib} {A : Type} (m : DbM A) c (s : Serve) : on_store m (put_caches c s) = (fun r => (r.1, put_caches c r.2)) (on_store m s).
Proof. unfold on_store, focus, put_caches, put_db. cbn. by destruct (m (sv_db s, sv_script s)). Qed.

(** ** What the pages promise *)

(** What is said of the library does not move with the filters.  Whatever the filters, and
    whatever reads fail, a page loaded from one state says the same of the whole library:
    how many items there are, how many of each state, which add up, how much is seeded and
    what it is made of; and its rows are exactly the items the filters keep, each with its
    own facts. *)
Theorem summary_ignores_filters `{U : UrlLib} `{UP : !UrlParts U} `{D : Digests} `{DC : Decoders} `{I : HashIter} `{C : VaultCipher} `{KF : KeyFiles} `{ME : MasterEnv} `{RO : RowOrder}
    `{CM : CaseMap} `{CT : CivilTime} `{UD : UnicodeData} `{FT : FeedText} `{STX : StoreText} (now instant : Z) (ok error : bytes) (s : Serve) :
  exists items context who swarms s', forall filters,
    let loaded := items_page now instant filters ok error s in
    let page := loaded.1 in
    loaded.2 = s' /\ ip_total page = length items /\ ip_state_counts page = omap (state_count items) ALL /\ sum_list (map stc_count (ip_state_counts page)) = ip_total page /\
    ip_seeding_size page = human_size (total_of (map it_size (filter (fun item => it_state item = Seeding) items))) /\ ip_composition page = compose items /\
    ip_items page = map (fun item => shown_row now item context who (swarm_of instant swarms item)) (listed_items filters items) /\ ip_shown page = length (ip_items page).
Proof.
  destruct (items_page_reads now instant ok error s) as (error' & items & context & who & swarms & s' & H). exists items, context, who, swarms, s'. intros filters. cbv zeta.
  rewrite H. unfold shown_page. destruct (sort_of filters) as [sort desc]. cbn. rewrite length_map. split_and!; try done. apply state_counts_sum.
Qed.

(** A token of the tracker is shown by its fingerprint alone: two tokens of one fingerprint
    give the same page. *)
Theorem tokens_never_shown `{U : UrlLib} `{UP : !UrlParts U} `{D : Digests} `{DC : Decoders} `{I : HashIter} `{C : VaultCipher} `{KF : KeyFiles} `{ME : MasterEnv} `{RO : RowOrder}
    `{CM : CaseMap} `{CT : CivilTime} `{UD : UnicodeData} `{FT : FeedText} `{STX : StoreText} (now instant : Z) (filters : FilterState) (ok error : bytes) (s : Serve)
    (c c' : VaultCaches) (current previous current' previous' : option bytes) :
  vc_tracker_tokens c = Some (Some (current, previous)) -> vc_tracker_tokens c' = Some (Some (current', previous')) ->
  fingerprint <$> current = fingerprint <$> current' -> fingerprint <$> previous = fingerprint <$> previous' ->
  (items_page now instant filters ok error (put_caches c s)).1 = (items_page now instant filters ok error (put_caches c' s)).1.
Proof.
  intros Hc Hc' H1 H2.
  assert (forall s, (gather_context (put_caches c s)).1 = (gather_context (put_caches c' s)).1 /\
                    forall A (m : DbM A), (on_store m (gather_context (put_caches c s)).2).1 = (on_store m (gather_context (put_caches c' s)).2).1 /\
                                          sv_swarms (on_store m (gather_context (put_caches c s)).2).2 = sv_swarms (on_store m (gather_context (put_caches c' s)).2).2) as Hg.
  { intros s0. unfold gather_context, sbind, sgets, sret. rewrite !on_store_caches. destruct (on_store active_peers s0) as [active s1]. cbn [fst snd].
    rewrite (tokens_cached (put_caches c s1) current previous Hc), (tokens_cached (put_caches c' s1) current' previous' Hc'), H1, H2. cbn [fst snd sv_endpoint put_caches].
    split; [done|]. intros A m. change (mkServe _ _ _ _ c _ _ _ _ _ _ _ _ _) with (put_caches c s1). change (mkServe _ _ _ _ c' _ _ _ _ _ _ _ _ _) with (put_caches c' s1).
    rewrite !on_store_caches. by destruct (on_store m s1). }
  unfold items_page, sbind, sgets, sret. rewrite !on_store_caches. destruct (on_store all_items s) as [listed s1]. cbn [fst snd].
  destruct (Hg s1) as [G1 G2]. destruct (G2 _ audiences) as [G3 G4].
  destruct listed as [items|err]; destruct (gather_context (put_caches c s1)) as [context s2], (gather_context (put_caches c' s1)) as [context' s2']; cbn [fst snd] in *;
    destruct (on_store audiences s2) as [who s3], (on_store audiences s2') as [who' s3']; cbn [fst snd] in *; by rewrite G1, G3, G4.
Qed.

(** The headers of [server.security_headers] are all there, none the handler set is
    changed, and no other is added. *)
Theorem security_headers_exact (headers : gmap bytes bytes) (name : bytes) :
  security_headers true headers !! name = match headers !! name with Some value => Some value | None => snd <$> List.find (fun h => bool_decide (h.1 = name)) SECURITY_HEADERS end /\
  security_headers false headers = headers.
Proof. split; [|done]. apply add_headers_fold. apply (bool_decide_unpack _). vm_compute. exact I. Qed.

(** The disk reported is the one mounted deepest on the way to the path. *)
Theorem disk_covering_deepest (disks : list Disk) (path : bytes) :
  match disk_covering disks path with
  | Some d => d ∈ disks /\ path_starts_with path (dk_mount d) = true /\
              forall d', d' ∈ disks -> path_starts_with path (dk_mount d') = true -> length (dk_mount d') <= length (dk_mount d)
  | None => forall d, d ∈ disks -> path_starts_with path (dk_mount d) = false
  end.
Proof.
  unfold disk_covering. pose proof (max_by_key_spec (fun d => length (dk_mount d)) (filter (fun d => path_starts_with path (dk_mount d) = true) disks)) as H.
  destruct (max_by_key _ _) as [d|].
  - destruct H as (before & after & Heq & Hb & Ha). assert (d ∈ filter (fun d => path_starts_with path (dk_mount d) = true) disks) as [Hp Hd]%list_elem_of_filter by (rewrite Heq; set_solver).
    split_and!; [done..|]. intros d' Hd' Hp'. assert (d' ∈ before ++ d :: after) as Hin by (rewrite <- Heq; by apply list_elem_of_filter).
    rewrite Forall_forall in Hb, Ha. apply elem_of_app in Hin as [Hin|[->|Hin]%elem_of_cons]; [by apply Hb|done|]. apply Nat.lt_le_incl. by apply Ha.
  - intros d Hd. destruct (path_starts_with path (dk_mount d)) eqn:E; [|done]. assert (d ∈ filter (fun d => path_starts_with path (dk_mount d) = true) disks) as Hin by (by apply list_elem_of_filter).
    rewrite H in Hin. by apply elem_of_nil in Hin.
Qed.

(** The next pass is announced for when the loop wakes, as long as the configured interval
    is one the loop runs at. *)
Theorem next_sync_is_the_loops `{U : UrlLib} (now : Z) (c : SyncConfig) (finished : Z) (s : Serve) :
  sy_enabled c = true -> (MIN_INTERVAL_SECS <= sy_interval_secs c)%N ->
  next_sync now (sync_every c) (Some finished) s =
  (due_text (i64_wrap (i64_wrap (finished + as_i64 (Z.to_N ((sync_retry_delay (interval_of c) s).1 / SEC))) - now)), s).
Proof.
  intros He Hm. unfold sync_every. rewrite He. unfold next_sync, interval_of, effective_interval_secs. rewrite N.max_l by done. reflexivity.
Qed.

(** An interval below the floor is announced as it is configured: the tile says the pass is
    due while the loop still waits out its minute. *)
Example short_interval_due_early `{U : UrlLib} (s : Serve) :
  sv_sync_failures s = 0%N ->
  (next_sync 70 (sync_every (mkSyncConfig true 5)) (Some 60%Z) s).1 = bs "due now" /\ (60 + (sync_retry_delay (interval_of (mkSyncConfig true 5)) s).1 / SEC = 120)%Z.
Proof. intros H. unfold next_sync, sync_retry_delay, sbind, sgets, sret. cbn [sync_every sy_enabled sy_interval_secs]. rewrite H. split; vm_compute; reflexivity. Qed.

Example ratios_read :
  map (fun bits => f64_fixed2 (f64_of_bits bits)) [0x3FF8000000000000; 0x4002666666666666; 0x7FF0000000000000]%N = [bs "1.50"; bs "2.30"; bs "inf"] /\
  f32_fixed1 0x41463D71 = bs "12.4".
Proof. split; vm_compute; reflexivity. Qed.
